(* ===== verification/_CoqProject ===== *)
-Q . S2P
Prelude.v
Bytes.v
Objects.v
Trees.v
BTree.v
TreeEditor.v
Delta.v
Packets.v
Wildmatch.v
WildmatchGrammar.v
RefNames.v
Ewah.v
BitmapIndex.v
PackIndex.v
Identity.v
Lines.v
Commits.v
CommitPayload.v
Tags.v
Diff.v
DiffProofs.v
DiffCompact.v
DiffCorrect.v
Merge.v
MergeProofs.v
MergeCorrect.v
PatchWrite.v
PatchParse.v
PatchProofs.v
PatchRoundtrip.v
PatchBinary.v
History.v
HistoryGraph.v
HistoryProofs.v
HistoryCorrect.v
HistoryRange.v
HistoryQueries.v
CommitGraph.v
CommitGraphLayer.v
CommitGraphAncestry.v
CommitGraphChain.v
CommitGraphCorrect.v
CommitGraphWrite.v
CommitGraphRoundtrip.v
CommitGraphTables.v
CommitGraphEncode.v
CommitGraphFile.v
CommitGraphBuild.v
CommitGraphGenerations.v
CommitGraphBuildCorrect.v
IndexFile.v
IndexValid.v
IndexEntry.v
IndexRoundtrip.v
IndexParse.v
IndexEdits.v
IgnorePattern.v
IgnoreMatch.v
IgnoreRules.v
IgnoreCorrect.v
Refspec.v
RefspecCorrect.v
RefspecControlled.v
RefspecBudget.v
PackedRefs.v
PackedCorrect.v
MultiPack.v
MultiPackCorrect.v
MultiPackSelect.v
MultiPackRoundtrip.v
MultiPackStore.v
Config.v
ConfigParse.v
ConfigSwap.v
ConfigValue.v
ConfigEdit.v
