(* ===== verification/Prelude.v ===== *)
(** * girt: a verification library for a Git implementation in Rust

    girt reads and writes Git repositories: it parses and builds objects (trees,
    commits, tags), finds them in packs by their indexes, rebuilds them from deltas,
    answers reachability from bitmaps and commit graphs, walks histories, compares and
    merges contents, writes and applies patches, keeps the index file and the packed
    references, decides which paths are ignored, maps the references of a remote, reads and
    edits configuration files, and speaks the packet framing of the network protocol.  Its core is a set of parsers,
    encoders and algorithms over byte strings that must hold up against hostile input;
    around it lies code that touches files, processes and networks.  This library models
    the core and proves it correct.

    ** Conventions

    A byte string is a [list Z] of values below 256 ([bytes], [byte_ok]); [usize] and
    [u64] are 64 bits wide, and checked, saturating and wrapping arithmetic is written
    out where the source uses it.  [Result] is [result], early return is [let?], and a
    function with [&mut] arguments is a computation of the state-and-error monad [SE]
    ([let!]) that keeps the state reached at an error.  Panics of the source (indexing,
    [unwrap], [expect]) are error values of the model, so that "never panics" is a
    theorem.  Loops are structural where they consume a list; otherwise they take fuel,
    chosen from the size of the input by the definition that calls them, and running out
    of fuel is a separate error that the theorems exclude.  Cancellation flags are
    functions from the number of polls to a boolean.

    ** Parts, files and correspondence

    - [Prelude.v] results, the monad, machine integers, byte strings, orders, slices,
      line splitting and the lemmas on them; no code of the repository of its own.
    - [Bytes.v] splitting helpers ([src/src/bytes.rs]).
    - [Objects.v] object kinds, formats, identities, hexadecimal text, framing and
      abbreviations ([object.rs], [object/prefix.rs]); digests are parameters.
    - [Trees.v] entry modes, Git's name order, [Tree_parse], [Tree_new],
      [Tree_validate], [Tree_encode] ([tree.rs]).  [BTree.v] models Rust's [BTreeMap] and
      [TreeEditor.v] the path editor over it ([tree/editor.rs]).
    - [Identity.v] authors and committers ([commit/identity.rs], [commit/signature.rs]);
      [Lines.v] the physical lines of payloads; [Commits.v] commits and the fixed-width
      graph parser ([commit.rs]); [CommitPayload.v] header removal and signing
      ([commit/payload.rs], [commit/builder.rs], [signing.rs]); [Tags.v] tags ([tag.rs]).
    - [Delta.v] the delta interpreter and the encoder ([pack/delta.rs],
      [pack/compression.rs]).  [PackIndex.v] the pack index ([pack/index.rs]).
    - [Ewah.v] compressed bitmaps ([bitmap/ewah.rs], [bitmap/write/encode.rs]);
      [BitmapIndex.v] the bitmap and reverse indexes ([bitmap.rs], [bitmap/reverse.rs]).
    - [Packets.v] packet lines over readers and writers given by type classes
      ([packet.rs]).  [Wildmatch.v] glob matching ([wildmatch.rs]),
      proved against the pattern grammar of [WildmatchGrammar.v].  [RefNames.v]
      reference names ([refs/name.rs]).
    - [Diff.v] the content comparison ([content_diff.rs] and [content_diff/]); its
      correctness in [DiffProofs.v] (search), [DiffCompact.v] (moving of groups) and
      [DiffCorrect.v] (whole comparison).
    - [Merge.v] the three-way content merge and its rendering ([merge/content.rs],
      [render.rs], [types.rs], [whitespace.rs]); [MergeProofs.v], [MergeCorrect.v].
    - [PatchWrite.v] hunks, quoted paths and base-85 lines ([patch/hunks.rs],
      [patch/function.rs], [patch/binary.rs], [display.rs]); [PatchParse.v] reading,
      reversing and applying patches ([apply.rs], [apply/parse.rs], [apply/text.rs],
      [apply/binary.rs]); [PatchProofs.v], [PatchRoundtrip.v], [PatchBinary.v].
    - [History.v] walks, merge bases, ancestry and ranges over commits that a reader
      supplies ([history.rs], [history/range.rs]); [HistoryGraph.v] the graph of the commits
      read, [HistoryProofs.v], [HistoryCorrect.v] and [HistoryRange.v] the loops, and
      [HistoryQueries.v] the queries against paths in the graph.
    - [CommitGraph.v] commit-graph files, chains and their queries ([commit_graph.rs],
      [commit_graph/layer.rs], [history.rs] and [bloom.rs] beside it); [CommitGraphLayer.v], [CommitGraphAncestry.v],
      [CommitGraphChain.v] and [CommitGraphCorrect.v] one layer, the check of the
      ancestry, chains and queries; [CommitGraphWrite.v] the encoder ([commit_graph/write.rs]) and
      [CommitGraphBuild.v] the collection of the commits of a graph, with
      [CommitGraphTables.v], [CommitGraphRoundtrip.v], [CommitGraphEncode.v],
      [CommitGraphFile.v], [CommitGraphGenerations.v] and [CommitGraphBuildCorrect.v] for
      their theorems.
    - [IndexFile.v] the index file in all versions, its extensions and split files, and
      the edits of an index in memory ([index/codec.rs], [index/entries.rs],
      [index/split.rs]); [IndexValid.v] validation, [IndexEntry.v] and
      [IndexRoundtrip.v] encoding, [IndexParse.v] parsing, [IndexEdits.v] edits.
    - [IgnorePattern.v] compilation and matching of ignore patterns
      ([ignore/pattern.rs]) and [IgnoreRules.v] sources and decisions
      ([ignore/rules.rs]); [IgnoreMatch.v] what a pattern matches, [IgnoreCorrect.v]
      what is decided.
    - [Refspec.v] reference specifications and their mapping ([remote/refspec.rs]) and
      [RefspecControlled.v] the same under budgets ([remote/refspec/controlled.rs]);
      [RefspecCorrect.v] and [RefspecBudget.v] their theorems.
    - [PackedRefs.v] the packed-refs file ([refs/packed.rs], the encoder of
      [refs/pack.rs]); [PackedCorrect.v] its round trip and the removal of a reference.
    - [MultiPack.v] multi-pack indexes: parsing, lookups, the choice of a copy of each
      object and the encoder ([multi_pack_index.rs], [multi_pack_index/write.rs]);
      [MultiPackCorrect.v] the parser and lookups, [MultiPackSelect.v] the choice,
      [MultiPackRoundtrip.v] files read back, [MultiPackStore.v] the index of a store.
    - [Config.v] configuration files: the parser with its byte ranges, queries, typed
      values and the edits of a document ([config/parse.rs], [config/values.rs],
      [config/document.rs]); [ConfigParse.v] how the parser moves and that it decides,
      [ConfigSwap.v] that what follows a read part does not matter to it,
      [ConfigValue.v] that a quoted value is read back, [ConfigEdit.v] edits.

    Components meet the way the code composes them: trees and commits are built on
    identities; bitmap queries resolve positions through the pack index order; the merge
    runs the comparison on each side; patches are written from a comparison, and binary
    patches apply deltas; history queries read commits directly or through an attached
    commit graph, which is built from what the walks read; pruning of tracking references
    is proved against the mapping of the same specifications.

    ** What the theorems show

    - Round trips: what girt encodes it parses back to the same value (trees, commits,
      tags, signatures, deltas, bitmaps, packet lines, base-85 lines, patches of any
      comparison, signed payloads, commit graphs, index files after any sequence of
      edits, packed references, multi-pack indexes).
    - Exactness: parsers and searches accept or find exactly what an independent
      description says (the language of tree payloads, check-ref-format, the language of
      a glob and of an ignore pattern, lookups and abbreviations in an index, radix
      sorting, the graph fast path, the validity and the split form of an index, the
      decision on an ignored path, the mapping of references, the removal of a packed
      reference, the setting of a configuration value).
    - Algorithms: a comparison is a valid script of smallest size before moving, and a
      merge is the one determined by a segmentation of the base and both sides; walks
      return the reachable commits in their order, and merge bases, ancestry and ranges
      are those of the graph, with or without a commit graph attached.
    - Invariants: of the tree editor under all sequences of edits, of parsed bitmap
      types, of reverse indexes, of the order that tiles a pack, of the sources of ignore
      rules; accepted commit graphs, multi-pack indexes and index files are well formed.
    - Bounds, errors and panics: budgets never go negative or are exceeded, failed
      edits change nothing, accepted records decode, rendering never panics; a commit
      graph attaches only when it is acyclic; the controlled mapping differs from the
      plain one only by a limit below its cost or by cancellation; pruning deletes no
      reference that is still mapped.
    - Findings: two edits of an index that was read with a split base leave it in a form
      that the next reader refuses ([IndexEdits.v]); dots in the names of packs make the
      encoder of multi-pack indexes write names out of order ([MultiPackStore.v]); appending
      a configuration variable after a continuation or beside a second header sets
      something else, and a carriage return at the end of a value is lost
      ([ConfigEdit.v]).

    ** Bounds and fuel

    Every fuel is a number of iterations the loop cannot exceed: the lines or bytes left
    for parsers, the number of edits for hunks, the edit distance for the rows of the
    search, the sum of both region counts for merges, the limit on commits for walks
    (counted in binary), one turn for each commit and parent for the passes over a commit
    graph, the length of the input for variable-length numbers, extensions, bitmap runs
    and ignore patterns.  The theorems quantify over all inputs, limits and moments of
    cancellation, and they state that a result is returned where the code returns one.

    ** Not modelled

    Digests (SHA-1, SHA-256), zlib, regular expressions and signing programs are not part
    of the repository and are parameters.  Repository discovery, object and loose
    reference storage, locks, publication of the index and of commit graphs, checkout,
    status, fetching, pushing, serving, hooks and filters consist of filesystem, process
    and network effects; blame, bisection, replay and maintenance read the object store
    throughout.  The reftable format, attributes and pathspecs are pure in large part
    and would be the next components of this library. *)

From stdpp Require Import base list numbers strings gmap sorting.
From Stdlib Require Import ZArith Lia.

#[global] Open Scope Z_scope.

(** ** Results and the state-and-error monad *)

(** Rust's [Result<A, E>]. *)
Inductive result (E A : Type) : Type :=
| Ok (a : A)
| Err (e : E).
Arguments Ok {E A} _.
Arguments Err {E A} _.

Definition rbind {E A B} (r : result E A) (k : A -> result E B) : result E B :=
  match r with Ok a => k a | Err e => Err e end.

Definition ok_or {E A} (o : option A) (e : E) : result E A :=
  match o with Some a => Ok a | None => Err e end.

Definition map_err {E F A} (f : E -> F) (r : result E A) : result F A :=
  match r with Ok a => Ok a | Err e => Err (f e) end.

Definition is_ok {E A} (r : result E A) : bool :=
  match r with Ok _ => true | Err _ => false end.

(** A computation over a mutable state [S] that may return early with an
    error: the state reached at the error is kept, as a caller of a Rust
    function with a [&mut] argument observes it. *)
Definition SE (S E A : Type) : Type := S -> result E A * S.

Definition se_ret {S E A} (a : A) : SE S E A := fun s => (Ok a, s).
Definition se_fail {S E A} (e : E) : SE S E A := fun s => (Err e, s).
Definition se_bind {S E A B} (m : SE S E A) (k : A -> SE S E B) : SE S E B :=
  fun s => match m s with
           | (Ok a, s') => k a s'
           | (Err e, s') => (Err e, s')
           end.
Definition se_get {S E} : SE S E S := fun s => (Ok s, s).
Definition se_put {S E} (s' : S) : SE S E unit := fun _ => (Ok tt, s').
Definition se_lift {S E A} (r : result E A) : SE S E A := fun s => (r, s).

Declare Scope girt_scope.
Delimit Scope girt_scope with girt.
#[global] Open Scope girt_scope.

Notation "'let?' x := r 'in' k" := (rbind r (fun x => k))
  (at level 10, x pattern, r at level 100, k at level 200,
   format "'[v' 'let?'  x  :=  r  'in' '/' k ']'") : girt_scope.
Notation "'let!' x := m 'in' k" := (se_bind m (fun x => k))
  (at level 10, x pattern, m at level 100, k at level 200,
   format "'[v' 'let!'  x  :=  m  'in' '/' k ']'") : girt_scope.

(** ** Machine integers

    [usize] is 64 bits wide; all unsigned values are [Z]s in range. *)
Definition usize_max : Z := 2 ^ 64 - 1.
Definition u64_max : Z := 2 ^ 64 - 1.
Definition u32_max : Z := 2 ^ 32 - 1.

Definition checked_add (a b : Z) : option Z :=
  if a + b <=? usize_max then Some (a + b) else None.
Definition checked_sub (a b : Z) : option Z :=
  if b <=? a then Some (a - b) else None.
Definition checked_mul (a b : Z) : option Z :=
  if a * b <=? usize_max then Some (a * b) else None.
Definition saturating_add (a b : Z) : Z := Z.min (a + b) usize_max.
Definition saturating_sub (a b : Z) : Z := Z.max 0 (a - b).
Definition saturating_mul (a b : Z) : Z := Z.min (a * b) usize_max.
Definition div_ceil (a b : Z) : Z := (a + b - 1) / b.

Definition wrap8 (z : Z) : Z := z mod 2 ^ 8.
Definition wrap32 (z : Z) : Z := z mod 2 ^ 32.
Definition wrap64 (z : Z) : Z := z mod 2 ^ 64.

Arguments usize_max : simpl never.
Arguments u64_max : simpl never.
Arguments wrap8 : simpl never.
Arguments wrap32 : simpl never.
Arguments wrap64 : simpl never.

(** ** Byte strings

    A [u8] is a [Z] in [0, 256); a byte slice is a list of them. *)
Abbreviation bytes := (list Z).

Definition byte_ok (b : Z) : Prop := 0 <= b < 256.
Definition bytes_ok (l : bytes) : Prop := Forall byte_ok l.

#[global] Instance byte_ok_dec b : Decision (byte_ok b).
Proof. unfold byte_ok. apply _. Defined.

(** The bytes of a Rust byte-string literal such as [b"refs/"]. *)
Fixpoint bstr (s : string) : bytes :=
  match s with
  | EmptyString => []
  | String a s' => Z.of_N (Ascii.N_of_ascii a) :: bstr s'
  end.

Definition zlen {A} (l : list A) : Z := Z.of_nat (length l).

(** [slice a b l] is [l.get(a..b)]. *)
Definition slice {A} (a b : Z) (l : list A) : option (list A) :=
  if (0 <=? a) && (a <=? b) && (b <=? zlen l)
  then Some (take (Z.to_nat (b - a)) (drop (Z.to_nat a) l))
  else None.

(** [zget i l] is [l.get(i)]. *)
Definition zget {A} (i : Z) (l : list A) : option A :=
  if 0 <=? i then l !! Z.to_nat i else None.

(** [split_at_checked n l] is [l.split_at_checked(n)]. *)
Definition split_at_checked {A} (n : Z) (l : list A) : option (list A * list A) :=
  if (0 <=? n) && (n <=? zlen l)
  then Some (take (Z.to_nat n) l, drop (Z.to_nat n) l)
  else None.

(** [strip_prefix p l] is [l.strip_prefix(p)]. *)
Fixpoint strip_prefix (p l : bytes) : option bytes :=
  match p, l with
  | [], _ => Some l
  | _ :: _, [] => None
  | x :: p', y :: l' => if x =? y then strip_prefix p' l' else None
  end.

Definition starts_with (p l : bytes) : bool :=
  match strip_prefix p l with Some _ => true | None => false end.
Definition ends_with (p l : bytes) : bool := starts_with (reverse p) (reverse l).

Definition strip_suffix (p l : bytes) : option bytes :=
  reverse <$> strip_prefix (reverse p) (reverse l).

Fixpoint bytes_eqb (a b : bytes) : bool :=
  match a, b with
  | [], [] => true
  | x :: a', y :: b' => (x =? y) && bytes_eqb a' b'
  | _, _ => false
  end.

(** Lexicographic order of byte strings ([Ord] for slices). *)
Fixpoint bytes_cmp (a b : bytes) : comparison :=
  match a, b with
  | [], [] => Eq
  | [], _ :: _ => Lt
  | _ :: _, [] => Gt
  | x :: a', y :: b' =>
      match x ?= y with Eq => bytes_cmp a' b' | c => c end
  end.

Fixpoint contains (b : Z) (l : bytes) : bool :=
  match l with [] => false | x :: l' => (x =? b) || contains b l' end.

(** Index of the first (last) element satisfying [p]
    ([Iterator::position], [Iterator::rposition]). *)
Fixpoint position {A} (p : A -> bool) (l : list A) : option nat :=
  match l with
  | [] => None
  | x :: l' => if p x then Some O else S <$> position p l'
  end.

Fixpoint rposition {A} (p : A -> bool) (l : list A) : option nat :=
  match l with
  | [] => None
  | x :: l' =>
      match rposition p l' with
      | Some i => Some (S i)
      | None => if p x then Some O else None
      end
  end.

(** [l.split(|b| *b == d)]: the pieces between delimiters, never empty. *)
Fixpoint split_on (d : Z) (l : bytes) : list bytes :=
  match l with
  | [] => [[]]
  | x :: l' =>
      if x =? d then [] :: split_on d l'
      else match split_on d l' with
           | p :: ps => (x :: p) :: ps
           | [] => [[x]]
           end
  end.

(** Big-endian integers ([u32::from_be_bytes], [to_be_bytes], ...). *)
Definition be_decode (l : bytes) : Z := foldl (fun acc b => acc * 256 + b) 0 l.
Fixpoint be_encode (n : nat) (v : Z) : bytes :=
  match n with
  | O => []
  | S n' => be_encode n' (v / 256) ++ [v mod 256]
  end.

(** ASCII classes of [u8]. *)
Definition is_digit (b : Z) : bool := (48 <=? b) && (b <=? 57).
Definition is_lower (b : Z) : bool := (97 <=? b) && (b <=? 122).
Definition is_upper (b : Z) : bool := (65 <=? b) && (b <=? 90).
Definition is_alpha (b : Z) : bool := is_lower b || is_upper b.
Definition is_hexdigit (b : Z) : bool :=
  is_digit b || ((97 <=? b) && (b <=? 102)) || ((65 <=? b) && (b <=? 70)).
(** [u8::is_ascii_whitespace]. *)
Definition is_whitespace (b : Z) : bool := contains b [9; 10; 12; 13; 32].
Definition to_lower (b : Z) : Z := if is_upper b then b + 32 else b.
Definition to_upper (b : Z) : Z := if is_lower b then b - 32 else b.

(** * Shared lemmas *)

Ltac simplify_res := unfold rbind, ok_or, map_err in *; simplify_eq/=.

(** Case analysis on a [match] or [if] in the goal or a hypothesis. *)
Ltac casem :=
  repeat first
    [ progress simplify_eq/=
    | match goal with
      | H : context [match ?x with _ => _ end] |- _ =>
          lazymatch type of H with _ = _ => destruct x eqn:? end
      | |- context [match ?x with _ => _ end] => destruct x eqn:?
      end ].

(** A guard [if b then return Err(..)] that let the run pass: [b] is false. *)
Ltac pass_guard H :=
  lazymatch type of H with
  | (if ?b then _ else _) = _ => let G := fresh "G" in destruct b eqn:G; [discriminate H|]
  end.

(** Turns boolean comparisons in the context into propositions. *)
Ltac bool_prop :=
  repeat match goal with
    | H : (_ && _) = true |- _ => apply andb_true_iff in H as [? ?]
    | H : (_ || _) = false |- _ => apply orb_false_iff in H as [? ?]
    | H : (_ || _) = true |- _ => apply orb_true_iff in H
    | H : (_ && _) = false |- _ => apply andb_false_iff in H
    | H : negb _ = true |- _ => apply negb_true_iff in H
    | H : negb _ = false |- _ => apply negb_false_iff in H
    | H : (_ <=? _) = true |- _ => apply Z.leb_le in H
    | H : (_ <=? _) = false |- _ => apply Z.leb_gt in H
    | H : (_ <? _) = true |- _ => apply Z.ltb_lt in H
    | H : (_ <? _) = false |- _ => apply Z.ltb_ge in H
    | H : (_ =? _) = true |- _ => apply Z.eqb_eq in H
    | H : (_ =? _) = false |- _ => apply Z.eqb_neq in H
    end.

(** Decides every integer comparison of the goal and the context. *)
Ltac zbool :=
  repeat (match goal with
    | |- context [?a <=? ?b] => destruct (Z.leb_spec a b)
    | |- context [?a <? ?b] => destruct (Z.ltb_spec a b)
    | |- context [?a =? ?b] => destruct (Z.eqb_spec a b)
    | H : context [?a <=? ?b] |- _ => destruct (Z.leb_spec a b)
    | H : context [?a <? ?b] |- _ => destruct (Z.ltb_spec a b)
    | H : context [?a =? ?b] |- _ => destruct (Z.eqb_spec a b)
    end; simpl in *; try lia; try discriminate; try reflexivity).

(** ** Checked arithmetic *)

Lemma checked_add_Some a b c : checked_add a b = Some c <-> c = a + b /\ a + b <= usize_max.
Proof. unfold checked_add. destruct (Z.leb_spec (a + b) usize_max); split; intros; naive_solver lia. Qed.

Lemma checked_sub_Some a b c : checked_sub a b = Some c <-> c = a - b /\ b <= a.
Proof. unfold checked_sub. destruct (Z.leb_spec b a); split; intros; naive_solver lia. Qed.

Lemma checked_mul_Some a b c : checked_mul a b = Some c <-> c = a * b /\ a * b <= usize_max.
Proof. unfold checked_mul. destruct (Z.leb_spec (a * b) usize_max); split; intros; naive_solver lia. Qed.

Lemma checked_add_le a b : a + b <= usize_max -> checked_add a b = Some (a + b).
Proof. intros. by apply checked_add_Some. Qed.

Lemma checked_mul_le a b : a * b <= usize_max -> checked_mul a b = Some (a * b).
Proof. intros. by apply checked_mul_Some. Qed.

Lemma checked_sub_le a b : b <= a -> checked_sub a b = Some (a - b).
Proof. intros. by apply checked_sub_Some. Qed.

(** ** The two monads *)

Lemma rbind_Ok {E A B} (r : result E A) (k : A -> result E B) b :
  rbind r k = Ok b <-> exists a, r = Ok a /\ k a = Ok b.
Proof. destruct r; simpl; split; naive_solver. Qed.

Lemma ok_inj {E A} (a b : A) : @Ok E A a = Ok b -> a = b.
Proof. by intros [= ->]. Qed.

Lemma ok_or_Ok {E A} (o : option A) (e : E) a :
  ok_or o e = Ok a <-> o = Some a.
Proof. destruct o; simpl; split; naive_solver. Qed.

Lemma map_err_Ok {E F A} (f : E -> F) (r : result E A) a :
  map_err f r = Ok a <-> r = Ok a.
Proof. destruct r; simpl; split; naive_solver. Qed.

Lemma se_bind_assoc {S E A B C} (m : SE S E A) (f : A -> SE S E B) (g : B -> SE S E C) s :
  se_bind m (fun x => se_bind (f x) g) s = se_bind (se_bind m f) g s.
Proof. unfold se_bind. by destruct (m s) as [[]]. Qed.

(** Running a sequence, as an equation. *)
Lemma se_bind_run {S E A B} (m : SE S E A) (k : A -> SE S E B) s :
  se_bind m k s = match m s with (Ok a, s') => k a s' | (Err e, s') => (Err e, s') end.
Proof. done. Qed.

Lemma se_bind_Ok {S E A B} (m : SE S E A) (k : A -> SE S E B) s b s' :
  se_bind m k s = (Ok b, s') <->
  exists a s1, m s = (Ok a, s1) /\ k a s1 = (Ok b, s').
Proof.
  unfold se_bind. destruct (m s) as [[a|e] s1]; split; naive_solver.
Qed.

(** ** Lengths and slices *)

Lemma zlen_nil {A} : zlen (@nil A) = 0.
Proof. reflexivity. Qed.
Lemma zlen_cons {A} (x : A) l : zlen (x :: l) = zlen l + 1.
Proof. unfold zlen. simpl. lia. Qed.
Lemma zlen_app {A} (l k : list A) : zlen (l ++ k) = zlen l + zlen k.
Proof. unfold zlen. rewrite length_app. lia. Qed.
Lemma zlen_nonneg {A} (l : list A) : 0 <= zlen l.
Proof. unfold zlen. lia. Qed.
Lemma zlen_take {A} n (l : list A) : zlen (take n l) = Z.min (Z.of_nat n) (zlen l).
Proof. unfold zlen. rewrite length_take. lia. Qed.
Lemma zlen_drop {A} n (l : list A) : zlen (drop n l) = Z.max 0 (zlen l - Z.of_nat n).
Proof. unfold zlen. rewrite length_drop. lia. Qed.
Lemma zlen_replicate {A} n (x : A) : zlen (replicate n x) = Z.of_nat n.
Proof. unfold zlen. by rewrite length_replicate. Qed.
Lemma zlen_insert {A} i (x : A) l : zlen (<[i:=x]> l) = zlen l.
Proof. unfold zlen. by rewrite length_insert. Qed.
Lemma zlen_0_inv {A} (l : list A) : zlen l = 0 -> l = [].
Proof. destruct l; [done|]. rewrite zlen_cons. pose proof (zlen_nonneg l). lia. Qed.

Create HintDb girt discriminated.
Create Rewrite HintDb zlen.
#[global] Hint Rewrite @zlen_nil @zlen_cons @zlen_app @zlen_take @zlen_drop
  @zlen_replicate @zlen_insert : zlen.
#[global] Hint Resolve zlen_nonneg : girt.

(** Linear arithmetic over list lengths. *)
Ltac zlia :=
  autorewrite with zlen in *;
  repeat match goal with
    | |- context [zlen ?l] =>
        lazymatch goal with H : 0 <= zlen l |- _ => fail | _ => idtac end;
        pose proof (zlen_nonneg l)
    | _ : context [zlen ?l] |- _ =>
        lazymatch goal with H : 0 <= zlen l |- _ => fail | _ => idtac end;
        pose proof (zlen_nonneg l)
    end; lia.

Lemma slice_Some {A} a b (l m : list A) :
  slice a b l = Some m <->
  0 <= a <= b /\ b <= zlen l /\ m = take (Z.to_nat (b - a)) (drop (Z.to_nat a) l).
Proof.
  unfold slice.
  destruct ((0 <=? a) && (a <=? b) && (b <=? zlen l)) eqn:E; bool_prop.
  - split; naive_solver lia.
  - split; [done|]. intros. destruct E as [E|E]; bool_prop; [destruct E as [E|E]|]; bool_prop; lia.
Qed.

(** A slice is a factor of the list, at the right place. *)
Lemma slice_app {A} a b (l m : list A) :
  slice a b l = Some m <->
  exists pre post, l = pre ++ m ++ post /\ zlen pre = a /\ zlen m = b - a.
Proof.
  rewrite slice_Some. split.
  - intros (? & ? & ->).
    exists (take (Z.to_nat a) l), (drop (Z.to_nat (b - a)) (drop (Z.to_nat a) l)).
    rewrite take_drop, take_drop. split; [done|]. zlia.
  - intros (pre & post & -> & Ha & Hb). split; [|split]; [zlia..|].
    replace (Z.to_nat a) with (length pre) by (unfold zlen in *; lia).
    rewrite drop_app_length.
    replace (Z.to_nat (b - a)) with (length m) by (unfold zlen in *; lia).
    by rewrite take_app_length.
Qed.

Lemma slice_zlen {A} a b (l m : list A) : slice a b l = Some m -> zlen m = b - a.
Proof. rewrite slice_app. naive_solver. Qed.

(** The slice between two known neighbours. *)
Lemma slice_mid {A} (pre m post : list A) a b :
  zlen pre = a -> b = a + zlen m -> slice a b (pre ++ m ++ post) = Some m.
Proof. intros ? ->. apply slice_app. exists pre, post. split; [done|]. lia. Qed.

Lemma slice_between {A} (l pre m post : list A) a b : l = pre ++ m ++ post -> zlen pre = a -> b = a + zlen m -> slice a b l = Some m.
Proof. intros -> <- ->. by apply slice_mid. Qed.

Lemma slice_is_Some {A} a b (l : list A) :
  0 <= a <= b -> b <= zlen l -> exists m, slice a b l = Some m.
Proof. intros. eexists. apply slice_Some. eauto. Qed.

Lemma split_at_checked_Some {A} n (l a b : list A) :
  split_at_checked n l = Some (a, b) <-> l = a ++ b /\ zlen a = n.
Proof.
  unfold split_at_checked.
  destruct ((0 <=? n) && (n <=? zlen l)) eqn:E; bool_prop.
  - split.
    + intros [= <- <-]. rewrite take_drop. split; [done|]. zlia.
    + intros [-> <-]. unfold zlen. rewrite Nat2Z.id, take_app_length, drop_app_length. done.
  - split; [done|]. intros [-> <-]. destruct E as [E|E]; bool_prop; zlia.
Qed.

Lemma zget_Some {A} i (l : list A) x :
  zget i l = Some x <-> 0 <= i /\ l !! Z.to_nat i = Some x.
Proof. unfold zget. destruct (0 <=? i) eqn:E; bool_prop; naive_solver lia. Qed.

Lemma zget_lt {A} i (l : list A) x : zget i l = Some x -> 0 <= i < zlen l.
Proof.
  rewrite zget_Some. intros [? H%lookup_lt_Some]. unfold zlen. lia.
Qed.

Lemma zget_is_Some {A} i (l : list A) : 0 <= i < zlen l -> exists x, zget i l = Some x.
Proof.
  intros [? ?]. destruct (lookup_lt_is_Some_2 l (Z.to_nat i)) as [x Hx].
  { unfold zlen in *. lia. }
  exists x. apply zget_Some. eauto.
Qed.

(** ** Byte strings *)

Lemma bytes_ok_app a b : bytes_ok (a ++ b) <-> bytes_ok a /\ bytes_ok b.
Proof. apply Forall_app. Qed.

Lemma bytes_ok_slice a b (l m : bytes) : bytes_ok l -> slice a b l = Some m -> bytes_ok m.
Proof. intros H (pre & post & -> & _ & _)%slice_app. apply bytes_ok_app in H as [_ H]. by apply bytes_ok_app in H as [H _]. Qed.

Lemma bytes_ok_check l : forallb (fun b => (0 <=? b) && (b <? 256)) l = true -> bytes_ok l.
Proof. rewrite forallb_forall. intros H. apply Forall_forall. intros b Hb%list_elem_of_In. specialize (H b Hb). bool_prop. unfold byte_ok. lia. Qed.
Lemma bytes_ok_cons x l : bytes_ok (x :: l) <-> byte_ok x /\ bytes_ok l.
Proof. apply Forall_cons. Qed.

Lemma bytes_ok_bstr s : bytes_ok (bstr s).
Proof.
  induction s; simpl; constructor; [|done].
  unfold byte_ok. pose proof (Ascii.N_ascii_bounded a). lia.
Qed.
#[global] Hint Resolve bytes_ok_bstr : girt.

Lemma bytes_eqb_eq a b : bytes_eqb a b = true <-> a = b.
Proof.
  revert b; induction a as [|x a IH]; intros [|y b]; simpl; try done.
  rewrite andb_true_iff, Z.eqb_eq, IH. naive_solver.
Qed.

Lemma bytes_eqb_refl a : bytes_eqb a a = true.
Proof. by apply bytes_eqb_eq. Qed.

Lemma strip_prefix_Some p l r : strip_prefix p l = Some r <-> l = p ++ r.
Proof.
  revert l; induction p as [|x p IH]; intros [|y l]; simpl; try naive_solver.
  destruct (x =? y) eqn:E; bool_prop; [subst; rewrite IH|]; naive_solver.
Qed.

Lemma strip_prefix_app p r : strip_prefix p (p ++ r) = Some r.
Proof. by apply strip_prefix_Some. Qed.

Lemma starts_with_true p l : starts_with p l = true <-> exists r, l = p ++ r.
Proof.
  unfold starts_with. destruct (strip_prefix p l) eqn:E.
  - apply strip_prefix_Some in E. naive_solver.
  - split; [done|]. intros [r H%strip_prefix_Some]. congruence.
Qed.

Lemma strip_suffix_Some p l r : strip_suffix p l = Some r <-> l = r ++ p.
Proof.
  unfold strip_suffix. rewrite fmap_Some. setoid_rewrite strip_prefix_Some. split.
  - intros (x & H & ->).
    apply (f_equal reverse) in H. rewrite reverse_involutive, reverse_app, reverse_involutive in H.
    done.
  - intros ->. exists (reverse r). by rewrite reverse_app, reverse_involutive.
Qed.

Lemma ends_with_true p l : ends_with p l = true <-> exists r, l = r ++ p.
Proof.
  unfold ends_with. rewrite starts_with_true. split.
  - intros [r H]. exists (reverse r). apply (f_equal reverse) in H.
    by rewrite reverse_involutive, reverse_app, reverse_involutive in H.
  - intros [r ->]. exists (reverse r). by rewrite reverse_app.
Qed.

Lemma contains_true b l : contains b l = true <-> b ∈ l.
Proof.
  induction l as [|x l IH]; simpl; [set_solver|].
  rewrite orb_true_iff, Z.eqb_eq, IH, elem_of_cons. naive_solver.
Qed.

Lemma contains_false b l : contains b l = false <-> b ∉ l.
Proof. rewrite <- not_true_iff_false, contains_true. done. Qed.

(** ** Positions *)

Lemma position_Some {A} (p : A -> bool) l i :
  position p l = Some i <->
  exists a x b, l = a ++ x :: b /\ length a = i /\ p x = true /\ Forall (fun y => p y = false) a.
Proof.
  revert i; induction l as [|x l IH]; intros i; simpl.
  - split; [done|]. intros (a & ? & b & H & _). by destruct a.
  - destruct (p x) eqn:E.
    + split.
      * intros [= <-]. exists [], x, l. auto.
      * intros ([|y a] & z & b & Heq & <- & Hz & Ha); simplify_eq/=; [done|].
        inversion Ha; congruence.
    + rewrite fmap_Some. setoid_rewrite IH. split.
      * intros (j & (a & z & b & -> & <- & Hz & Ha) & ->).
        exists (x :: a), z, b. auto using Forall_cons_2.
      * intros ([|y a'] & z & b & Heq & <- & Hz & Ha); simplify_eq/=; [congruence|].
        exists (length a'). inversion Ha; subst. split; [|done]. eauto 10.
Qed.

Lemma position_None {A} (p : A -> bool) l :
  position p l = None <-> Forall (fun y => p y = false) l.
Proof.
  induction l as [|x l IH]; simpl; [by split|].
  destruct (p x) eqn:E; rewrite Forall_cons.
  - split; [done|]. intros [? _]. congruence.
  - rewrite fmap_None, IH. naive_solver.
Qed.

Lemma rposition_Some {A} (p : A -> bool) l i :
  rposition p l = Some i <->
  exists a x b, l = a ++ x :: b /\ length a = i /\ p x = true /\ Forall (fun y => p y = false) b.
Proof.
  assert (HN : forall k, rposition p k = None <-> Forall (fun y => p y = false) k).
  { induction k as [|y k IH]; simpl; [by split|]. rewrite Forall_cons, <- IH.
    destruct (rposition p k), (p y) eqn:?; naive_solver. }
  revert i; induction l as [|x l IH]; intros i; simpl.
  - split; [done|]. intros (a & ? & b & H & _). by destruct a.
  - destruct (rposition p l) as [j|] eqn:E; [|destruct (p x) eqn:Hx].
    + destruct (proj1 (IH j) eq_refl) as (a & z & b & -> & <- & Hz & Hb). split.
      * intros [= <-]. exists (x :: a), z, b. auto.
      * intros ([|y a'] & z' & b' & Heq & <- & Hz' & Hb'); simplify_eq/=.
        -- rewrite Forall_app, Forall_cons in Hb'. destruct Hb' as (_ & ? & _). congruence.
        -- assert (Some (length a) = Some (length a')) as [= ->]; [|done].
           apply IH. exists a', z', b'. auto.
    + rewrite HN in E. split.
      * intros [= <-]. exists [], x, l. auto.
      * intros ([|y a'] & z' & b' & Heq & <- & Hz' & Hb'); simplify_eq/=; [done|].
        rewrite Forall_app, Forall_cons in E. destruct E as (_ & ? & _). congruence.
    + rewrite HN in E. split; [done|].
      intros ([|y a'] & z' & b' & Heq & <- & Hz' & Hb'); simplify_eq/=; [congruence|].
      rewrite Forall_app, Forall_cons in E. destruct E as (_ & ? & _). congruence.
Qed.

Lemma rposition_None {A} (p : A -> bool) l :
  rposition p l = None <-> Forall (fun y => p y = false) l.
Proof.
  induction l as [|y k IH]; simpl; [by split|]. rewrite Forall_cons, <- IH.
  destruct (rposition p k), (p y) eqn:?; naive_solver.
Qed.

(** ** Big-endian integers *)

Lemma be_decode_snoc l b : be_decode (l ++ [b]) = be_decode l * 256 + b.
Proof. unfold be_decode. by rewrite foldl_app. Qed.

Lemma length_be_encode n v : length (be_encode n v) = n.
Proof. revert v; induction n; intros; simpl; [done|]. rewrite length_app, IHn. simpl. lia. Qed.

Lemma zlen_be_encode n v : zlen (be_encode n v) = Z.of_nat n.
Proof. unfold zlen. by rewrite length_be_encode. Qed.
#[global] Hint Rewrite zlen_be_encode : zlen.

Lemma bytes_ok_be_encode n v : bytes_ok (be_encode n v).
Proof.
  revert v; induction n; intros; simpl; [constructor|].
  apply bytes_ok_app. split; [apply IHn|]. repeat constructor; pose proof (Z.mod_pos_bound v 256); lia.
Qed.
#[global] Hint Resolve bytes_ok_be_encode : girt.

Lemma be_decode_encode n v : 0 <= v < 256 ^ Z.of_nat n -> be_decode (be_encode n v) = v.
Proof.
  revert v; induction n as [|n IH]; intros v Hv.
  - change (256 ^ Z.of_nat 0) with 1 in Hv. unfold be_decode. simpl. lia.
  - simpl be_encode. rewrite be_decode_snoc, IH.
    + pose proof (Z.div_mod v 256). lia.
    + rewrite Nat2Z.inj_succ, Z.pow_succ_r in Hv by lia. split.
      * apply Z.div_pos; lia.
      * apply Z.div_lt_upper_bound; lia.
Qed.

Lemma be_decode_bound l : bytes_ok l -> 0 <= be_decode l < 256 ^ zlen l.
Proof.
  induction l as [|b l IH] using rev_ind; intros Hl.
  - unfold be_decode. simpl. change (256 ^ zlen (@nil Z)) with 1. lia.
  - apply bytes_ok_app in Hl as [Hl Hb]. apply bytes_ok_cons in Hb as [Hb _].
    rewrite be_decode_snoc. specialize (IH Hl). unfold byte_ok in Hb.
    replace (zlen (l ++ [b])) with (Z.succ (zlen l)) by zlia.
    rewrite Z.pow_succ_r by zlia. lia.
Qed.

Lemma be_encode_decode l : bytes_ok l -> be_encode (length l) (be_decode l) = l.
Proof.
  induction l as [|b l IH] using rev_ind; intros Hl; [done|].
  apply bytes_ok_app in Hl as [Hl Hb]. apply bytes_ok_cons in Hb as [Hb _].
  rewrite length_app, Nat.add_comm. simpl. rewrite be_decode_snoc. unfold byte_ok in Hb.
  rewrite Z.add_comm, Z.div_add, Z.mod_add by lia.
  rewrite Z.div_small, Z.mod_small, Z.add_0_l by lia. by rewrite IH.
Qed.

(** ** Lexicographic order *)

Lemma bytes_cmp_refl a : bytes_cmp a a = Eq.
Proof. induction a; simpl; [done|]. by rewrite Z.compare_refl. Qed.

Lemma bytes_cmp_eq a b : bytes_cmp a b = Eq <-> a = b.
Proof.
  split; [|intros ->; apply bytes_cmp_refl].
  revert b; induction a as [|x a IH]; intros [|y b]; simpl; try done.
  destruct (Z.compare_spec x y); try done. intros. f_equal; auto.
Qed.

Lemma bytes_cmp_antisym a b : bytes_cmp b a = CompOpp (bytes_cmp a b).
Proof.
  revert b; induction a as [|x a IH]; intros [|y b]; simpl; try done.
  rewrite (Z.compare_antisym x y). destruct (x ?= y); simpl; auto.
Qed.

Lemma bytes_cmp_lt_trans a b c : bytes_cmp a b = Lt -> bytes_cmp b c = Lt -> bytes_cmp a c = Lt.
Proof.
  revert b c; induction a as [|x a IH]; intros [|y b] [|z c]; simpl; try done.
  destruct (Z.compare_spec x y), (Z.compare_spec y z); try done; subst; intros.
  - rewrite Z.compare_refl. eauto.
  - by rewrite (proj2 (Z.compare_lt_iff _ _)).
  - by rewrite (proj2 (Z.compare_lt_iff _ _)).
  - rewrite (proj2 (Z.compare_lt_iff x z)); [done|lia].
Qed.

Lemma bytes_cmp_app p a b : bytes_cmp (p ++ a) (p ++ b) = bytes_cmp a b.
Proof. induction p; simpl; [done|]. by rewrite Z.compare_refl. Qed.

Lemma bytes_cmp_gt_lt a b : bytes_cmp a b = Gt <-> bytes_cmp b a = Lt.
Proof. rewrite (bytes_cmp_antisym a b). destruct (bytes_cmp a b); simpl; done. Qed.

(** ** Sorting with a comparison function ([slice::sort_by], a stable sort) *)

Section SortBy.
Context {A : Type} (cmp : A -> A -> comparison).

Fixpoint insert_by (x : A) (l : list A) : list A :=
  match l with
  | [] => [x]
  | y :: l' => match cmp x y with Gt => y :: insert_by x l' | _ => x :: y :: l' end
  end.

Definition sort_by (l : list A) : list A := foldr insert_by [] l.

Definition cmp_le (x y : A) : Prop := cmp x y <> Gt.

(** [is_sorted_by(|a, b| cmp(a, b).is_le())]: adjacent pairs in order. *)
Fixpoint is_sorted_le (l : list A) : bool :=
  match l with
  | x :: (y :: _) as l' => match cmp x y with Gt => false | _ => is_sorted_le l' end
  | _ => true
  end.

Lemma insert_by_perm x l : insert_by x l ≡ₚ x :: l.
Proof.
  induction l as [|y l IH]; simpl; [done|]. destruct (cmp x y); try done.
  rewrite IH. constructor.
Qed.

Lemma sort_by_perm l : sort_by l ≡ₚ l.
Proof. induction l as [|x l IH]; simpl; [done|]. by rewrite insert_by_perm, IH. Qed.

Lemma is_sorted_le_Sorted l : is_sorted_le l = true <-> Sorted cmp_le l.
Proof.
  induction l as [|x [|y l] IH]; simpl; [split; auto..|].
  simpl in IH. unfold cmp_le in *. split.
  - intros H. destruct (cmp x y) eqn:E; try done; constructor; try (by apply IH);
      constructor; congruence.
  - inversion_clear 1 as [|? ? Hs Hd]. inversion_clear Hd.
    destruct (cmp x y); try done; by apply IH.
Qed.

Context (cmp_gt_lt : forall x y, cmp x y = Gt -> cmp y x = Lt).

Lemma insert_by_Sorted x l : Sorted cmp_le l -> Sorted cmp_le (insert_by x l).
Proof using cmp_gt_lt.
  induction l as [|y l IH]; simpl; intros Hl; [repeat constructor|].
  destruct (cmp x y) eqn:E; [constructor; [done|constructor; unfold cmp_le; congruence]..|].
  inversion_clear Hl as [|? ? Hs Hd]. constructor; [by apply IH|].
  destruct l as [|z l]; simpl.
  - constructor. unfold cmp_le. rewrite (cmp_gt_lt _ _ E). done.
  - inversion_clear Hd. destruct (cmp x z); constructor; try done;
      unfold cmp_le; by rewrite (cmp_gt_lt _ _ E).
Qed.

Lemma sort_by_Sorted l : Sorted cmp_le (sort_by l).
Proof using cmp_gt_lt. induction l; simpl; [constructor|]. by apply insert_by_Sorted. Qed.
End SortBy.

(** ** Splitting on a delimiter *)

Lemma split_on_nonempty d l : split_on d l <> [].
Proof. destruct l as [|x l]; simpl; [done|]. destruct (x =? d), (split_on d l); done. Qed.

Lemma split_on_app d a b : d ∉ a -> split_on d (a ++ d :: b) = a :: split_on d b.
Proof.
  induction a as [|x a IH]; simpl; intros H.
  - by rewrite Z.eqb_refl.
  - destruct (Z.eqb_spec x d) as [-> |]; [set_solver|]. rewrite IH; [done|set_solver].
Qed.

Lemma split_on_single d a : d ∉ a -> split_on d a = [a].
Proof.
  induction a as [|x a IH]; simpl; intros H; [done|].
  destruct (Z.eqb_spec x d) as [-> |]; [set_solver|]. rewrite IH; [done|set_solver].
Qed.

(** The pieces joined by the delimiter give the list back, and none contains it. *)
Lemma split_on_join d l :
  exists p ps, split_on d l = p :: ps /\ l = p ++ concat (map (cons d) ps) /\
    Forall (fun p => d ∉ p) (p :: ps).
Proof.
  induction l as [|x l (p & ps & E & -> & HF)]; simpl.
  - exists [], []. split; [done|]. split; [done|]. repeat constructor. set_solver.
  - rewrite E. destruct (Z.eqb_spec x d) as [-> |Hne].
    + exists [], (p :: ps). split; [done|]. split; [done|]. constructor; [set_solver|done].
    + exists (x :: p), ps. apply Forall_cons in HF as [Hp Hps].
      split; [done|]. split; [done|]. constructor; [set_solver|done].
Qed.

Lemma filter_keep {A} (P : A -> Prop) `{forall x, Decision (P x)} (l : list A) :
  Forall P l -> filter P l = l.
Proof. induction 1; [done|]. rewrite filter_cons_True by done. by f_equal. Qed.

(** ** Binary search

    The loop [while low < high { middle = low + (high - low) / 2; ... }], over a
    three-way comparison and over a predicate. *)
Fixpoint bsearch (fuel : nat) (f : Z -> comparison) (low high : Z) : option Z :=
  if low <? high then
    match fuel with
    | O => None
    | S fuel =>
        let middle := low + (high - low) / 2 in
        match f middle with
        | Lt => bsearch fuel f (middle + 1) high
        | Gt => bsearch fuel f low middle
        | Eq => Some middle
        end
    end
  else None.

Fixpoint partition_point (fuel : nat) (p : Z -> bool) (low high : Z) : Z :=
  if low <? high then
    match fuel with
    | O => low
    | S fuel =>
        let middle := low + (high - low) / 2 in
        if p middle then partition_point fuel p (middle + 1) high
        else partition_point fuel p low middle
    end
  else low.

Lemma middle_range low high : low < high -> low <= low + (high - low) / 2 < high.
Proof. intros. Z.div_mod_to_equations. lia. Qed.

Lemma bsearch_Some fuel f low high m :
  bsearch fuel f low high = Some m -> low <= m < high /\ f m = Eq.
Proof.
  revert low high; induction fuel as [|fuel IH]; intros low high; cbn [bsearch];
    (destruct (Z.ltb_spec low high) as [Hlt|]; [|done]); [done|].
  pose proof (middle_range low high Hlt). set (mid := low + (high - low) / 2) in *.
  destruct (f mid) eqn:E; [intros [= <-]; split; [lia|done]|intros [? ?]%IH..]; split; done || lia.
Qed.

(** When the comparison is monotone, a failed search means there is no match. *)
Lemma bsearch_None fuel f low high :
  high - low <= Z.of_nat fuel ->
  (forall i j, low <= i < j -> j < high -> f j = Lt -> f i = Lt) ->
  (forall i j, low <= i < j -> j < high -> f i = Gt -> f j = Gt) ->
  bsearch fuel f low high = None -> forall i, low <= i < high -> f i <> Eq.
Proof.
  revert low high; induction fuel as [|fuel IH]; intros low high Hf HL HG; cbn [bsearch];
    (destruct (Z.ltb_spec low high) as [Hlt|]; [|intros _ i ?; lia]); [lia|].
  pose proof (middle_range low high Hlt). set (mid := low + (high - low) / 2) in *.
  destruct (f mid) eqn:E; [done|..]; intros HN i Hi.
  - destruct (Z.lt_trichotomy i mid) as [|[-> |]].
    + rewrite (HL i mid) by (done || lia). done.
    + by rewrite E.
    + eapply (IH (mid + 1) high); try done; try lia; intros; [eapply HL|eapply HG]; eauto; lia.
  - destruct (Z.lt_trichotomy i mid) as [|[-> |]].
    + eapply (IH low mid); try done; try lia; intros; [eapply HL|eapply HG]; eauto; lia.
    + by rewrite E.
    + rewrite (HG mid i) by (done || lia). done.
Qed.

(** The partition point of a predicate that holds on an initial segment. *)
Lemma partition_point_spec fuel p low high :
  low <= high -> high - low <= Z.of_nat fuel ->
  (forall i j, low <= i < j -> j < high -> p j = true -> p i = true) ->
  let r := partition_point fuel p low high in
  low <= r <= high /\ (forall i, low <= i < r -> p i = true) /\ (forall i, r <= i < high -> p i = false).
Proof.
  revert low high; induction fuel as [|fuel IH]; intros low high Hle Hf HM; cbn [partition_point];
    (destruct (Z.ltb_spec low high) as [Hlt|]; [|split_and!; intros; lia]); [lia|].
  pose proof (middle_range low high Hlt). set (mid := low + (high - low) / 2) in *.
  destruct (p mid) eqn:E.
  - destruct (IH (mid + 1) high) as (H1 & H2 & H3); [lia..|intros; eapply HM; eauto; lia|].
    split_and!; [lia..| |done]. intros i Hi. destruct (Z.lt_trichotomy i mid) as [|[-> |]];
      [eapply (HM i mid); done || lia|done|apply H2; lia].
  - destruct (IH low mid) as (H1 & H2 & H3); [lia..|intros; eapply HM; eauto; lia|].
    split_and!; [lia..|done|]. intros i Hi. destruct (Z.lt_trichotomy i mid) as [|[-> |]];
      [apply H3; lia|done|]. destruct (p i) eqn:Ei; [|done]. by rewrite (HM mid i) in E by (done || lia).
Qed.

(** ** Bit operations as arithmetic *)

Lemma testbit_high a k i : 0 <= a < 2 ^ k -> 0 <= k <= i -> Z.testbit a i = false.
Proof.
  intros Ha Hk. rewrite <- (Z.mod_small a (2 ^ k)) by done. by apply Z.mod_pow2_bits_high.
Qed.

Lemma land_shiftl_0 a b k : 0 <= a < 2 ^ k -> 0 <= k -> Z.land a (Z.shiftl b k) = 0.
Proof.
  intros Ha Hk. apply Z.bits_inj'. intros i Hi. rewrite Z.land_spec, Z.bits_0.
  destruct (Z.ltb_spec i k).
  - rewrite Z.shiftl_spec_low by lia. apply andb_false_r.
  - by rewrite (testbit_high a k) by lia.
Qed.

(** Or-ing in bits above [k] is addition. *)
Lemma lor_shiftl a b k : 0 <= a < 2 ^ k -> 0 <= k -> Z.lor a (Z.shiftl b k) = a + b * 2 ^ k.
Proof.
  intros Ha Hk. pose proof (land_shiftl_0 a b k Ha Hk) as H0.
  rewrite <- Z.lxor_lor by done. rewrite <- Z.add_nocarry_lxor by done.
  by rewrite Z.shiftl_mul_pow2.
Qed.

Lemma land_low_mod a k : 0 <= k -> Z.land a (2 ^ k - 1) = a mod 2 ^ k.
Proof. intros. by rewrite Z.sub_1_r, <- Z.ones_equiv, Z.land_ones. Qed.

(** ** Chunks of at most [n] elements ([slice::chunks]) *)

Fixpoint chunks_from {A} (fuel n : nat) (l : list A) : list (list A) :=
  match fuel, l with
  | _, [] => []
  | O, _ => []
  | S fuel', _ => take n l :: chunks_from fuel' n (drop n l)
  end.
Definition chunks {A} (n : nat) (l : list A) : list (list A) := chunks_from (length l) n l.

Lemma chunks_from_concat {A} fuel n (l : list A) :
  (0 < n)%nat -> (length l <= fuel)%nat -> concat (chunks_from fuel n l) = l.
Proof.
  intros Hn. revert l; induction fuel as [|fuel IH]; intros l Hl; destruct l as [|x l]; try done.
  - simpl in Hl. lia.
  - set (k := x :: l) in *. change (concat (chunks_from (S fuel) n k))
      with (take n k ++ concat (chunks_from fuel n (drop n k))).
    rewrite IH, take_drop; [done|]. rewrite length_drop. simpl in *. lia.
Qed.

Lemma chunks_concat {A} n (l : list A) : (0 < n)%nat -> concat (chunks n l) = l.
Proof. intros. by apply chunks_from_concat. Qed.

Lemma chunks_from_Forall {A} fuel n (l : list A) :
  (0 < n)%nat -> Forall (fun c => c <> [] /\ (length c <= n)%nat) (chunks_from fuel n l).
Proof.
  intros Hn. revert l; induction fuel as [|fuel IH]; intros l; destruct l as [|x l]; try constructor.
  - split; [by destruct n; [lia|]|]. rewrite length_take. lia.
  - apply IH.
Qed.

(** Testing one bit with a mask. *)
Lemma land_bit a k : 0 <= k -> (Z.land a (Z.shiftl 1 k) =? 0) = negb (Z.testbit a k).
Proof.
  intros Hk. destruct (Z.testbit a k) eqn:E; simpl.
  - apply Z.eqb_neq. intros H. apply (f_equal (fun z => Z.testbit z k)) in H.
    rewrite Z.land_spec, E, Z.shiftl_spec, Z.sub_diag, Z.bits_0 in H by lia. done.
  - apply Z.eqb_eq, Z.bits_inj'. intros i Hi. rewrite Z.land_spec, Z.shiftl_spec, Z.bits_0 by lia.
    destruct (Z.eq_dec i k) as [-> |]; [by rewrite E|].
    destruct (Z.ltb_spec i k); [rewrite (Z.testbit_neg_r 1) by lia; apply andb_false_r|].
    rewrite (testbit_high 1 1) by lia. apply andb_false_r.
Qed.

Lemma land_127 a : Z.land a 127 = a mod 128.
Proof. exact (land_low_mod a 7 ltac:(lia)). Qed.
