(* ===== verification/Bytes.v ===== *)
(** * Byte splitting ([src/src/bytes.rs])

    The panic-free splitting helpers every parser of the repository uses, with
    their exact characterisations: the factorisation they return is the only one
    with the delimiter at the first (last) place. *)

From stdpp Require Import base list numbers strings sets.
From Stdlib Require Import ZArith Lia.
From S2P Require Import Prelude.

Module Bytes.

(** [split_once]: splits at the first delimiter. *)
Definition split_once (bs : bytes) (delimiter : Z) : option (bytes * bytes) :=
  match position (fun byte => byte =? delimiter) bs with
  | None => None
  | Some pos =>
      match split_at_checked (Z.of_nat pos) bs with
      | None => None
      | Some (before, after) =>
          match slice 1 (zlen after) after with
          | None => None
          | Some rest => Some (before, rest)
          end
      end
  end.

(** [rsplit_once]: splits at the last delimiter. *)
Definition rsplit_once (bs : bytes) (delimiter : Z) : option (bytes * bytes) :=
  match rposition (fun byte => byte =? delimiter) bs with
  | None => None
  | Some pos =>
      match split_at_checked (Z.of_nat pos) bs with
      | None => None
      | Some (before, after) =>
          match slice 1 (zlen after) after with
          | None => None
          | Some rest => Some (before, rest)
          end
      end
  end.

(** [config_key]: section, optional subsection and name of [key]. *)
Definition config_key (key : bytes) : option (bytes * option bytes * bytes) :=
  match split_once key 46 with
  | None => None
  | Some (section, rest) =>
      Some match rsplit_once rest 46 with
           | Some (subsection, name) => (section, Some subsection, name)
           | None => (section, None, rest)
           end
  end.

(** ** Characterisations *)

Lemma split_at_tail (a : bytes) d b :
  split_at_checked (Z.of_nat (length a)) (a ++ d :: b) = Some (a, d :: b) /\
  slice 1 (zlen (d :: b)) (d :: b) = Some b.
Proof.
  split.
  - by apply split_at_checked_Some.
  - apply (slice_app 1 _ (d :: b)). exists [d], []. rewrite app_nil_r. split; [done|]. zlia.
Qed.

Lemma neq_Forall d (a : bytes) : Forall (fun y => (y =? d) = false) a <-> d ∉ a.
Proof.
  rewrite <- contains_false. induction a as [|x a IH]; simpl; [by split|].
  rewrite Forall_cons, orb_false_iff, IH. done.
Qed.

Lemma split_once_Some bs d a b :
  split_once bs d = Some (a, b) <-> bs = a ++ d :: b /\ d ∉ a.
Proof.
  unfold split_once. split.
  - destruct (position _ bs) as [i|] eqn:E; [|done].
    apply position_Some in E as (a' & x & b' & -> & <- & Hx%Z.eqb_eq & Ha); subst x.
    destruct (split_at_tail a' d b') as [-> ->]. intros [= <- <-].
    by rewrite <- neq_Forall.
  - intros [-> Hd]. rewrite <- neq_Forall in Hd.
    assert (position (fun byte => byte =? d) (a ++ d :: b) = Some (length a)) as ->.
    { apply position_Some. exists a, d, b. rewrite Z.eqb_refl. auto. }
    by destruct (split_at_tail a d b) as [-> ->].
Qed.

Lemma split_once_None bs d : split_once bs d = None <-> d ∉ bs.
Proof.
  destruct (split_once bs d) as [[a b]|] eqn:E.
  - apply split_once_Some in E as [-> _]. split; [done|]. set_solver.
  - split; [|done]. intros _ Hin.
    apply list_elem_of_split_l in Hin as (a & b & -> & Ha).
    assert (split_once (a ++ d :: b) d = Some (a, b)) by (by apply split_once_Some).
    congruence.
Qed.

Lemma rsplit_once_Some bs d a b :
  rsplit_once bs d = Some (a, b) <-> bs = a ++ d :: b /\ d ∉ b.
Proof.
  unfold rsplit_once. split.
  - destruct (rposition _ bs) as [i|] eqn:E; [|done].
    apply rposition_Some in E as (a' & x & b' & -> & <- & Hx%Z.eqb_eq & Ha); subst x.
    destruct (split_at_tail a' d b') as [-> ->]. intros [= <- <-].
    by rewrite <- neq_Forall.
  - intros [-> Hd]. rewrite <- neq_Forall in Hd.
    assert (rposition (fun byte => byte =? d) (a ++ d :: b) = Some (length a)) as ->.
    { apply rposition_Some. exists a, d, b. rewrite Z.eqb_refl. auto. }
    by destruct (split_at_tail a d b) as [-> ->].
Qed.

Lemma rsplit_once_None bs d : rsplit_once bs d = None <-> d ∉ bs.
Proof.
  destruct (rsplit_once bs d) as [[a b]|] eqn:E.
  - apply rsplit_once_Some in E as [-> _]. split; [done|]. set_solver.
  - split; [|done]. intros _ Hin.
    apply list_elem_of_split_r in Hin as (a & b & -> & Ha).
    assert (rsplit_once (a ++ d :: b) d = Some (a, b)) by (by apply rsplit_once_Some).
    congruence.
Qed.

(** The key text a triple stands for. *)
Definition config_key_text (k : bytes * option bytes * bytes) : bytes :=
  match k with
  | (section, Some subsection, name) => section ++ 46 :: subsection ++ 46 :: name
  | (section, None, name) => section ++ 46 :: name
  end.

Definition config_key_wf (k : bytes * option bytes * bytes) : Prop :=
  let '(section, subsection, name) := k in 46 ∉ section /\ 46 ∉ name.

Lemma split_once_app a d b : d ∉ a -> split_once (a ++ d :: b) d = Some (a, b).
Proof. intros. by apply split_once_Some. Qed.
Lemma rsplit_once_app a d b : d ∉ b -> rsplit_once (a ++ d :: b) d = Some (a, b).
Proof. intros. by apply rsplit_once_Some. Qed.

(** [config_key] is the exact inverse of joining a section, an optional
    subsection and a name with dots: it succeeds with [k] precisely when the key
    is the text of [k] and neither the section nor the name contains a dot (the
    subsection may). *)
Theorem config_key_inverse key k :
  config_key key = Some k <-> key = config_key_text k /\ config_key_wf k.
Proof.
  destruct k as [[section sub] name]. unfold config_key. split.
  - destruct (split_once key 46) as [[s rest]|] eqn:E; [|done].
    apply split_once_Some in E as [-> Hs].
    destruct (rsplit_once rest 46) as [[u n]|] eqn:R; intros [= <- <- <-].
    + apply rsplit_once_Some in R as [-> Hn]. done.
    + by apply rsplit_once_None in R.
  - intros [-> [Hs Hn]]. destruct sub as [u|]; simpl.
    + rewrite split_once_app by done. by rewrite rsplit_once_app.
    + rewrite split_once_app by done. apply rsplit_once_None in Hn. by rewrite Hn.
Qed.

End Bytes.
