(* ===== verification/Objects.v ===== *)
(** * Object identities and framing ([src/src/object.rs], [src/src/object/prefix.rs])

    Object kinds, hash formats, format-bearing identities with their
    hexadecimal text, the canonical [kind SP length NUL payload] framing, and
    abbreviated identities.  The digest functions belong to the aws-lc library:
    they are parameters of the definitions that hash. *)

From stdpp Require Import base list numbers strings sets.
From Stdlib Require Import ZArith Lia.
From S2P Require Import Prelude Bytes.

Module Objects.
Import Bytes.

Inductive ObjectKind := KBlob | KTree | KCommit | KTag.

Definition as_str (kind : ObjectKind) : bytes :=
  match kind with
  | KBlob => bstr "blob"
  | KTree => bstr "tree"
  | KCommit => bstr "commit"
  | KTag => bstr "tag"
  end.

Inductive ObjectFormat := FSha1 | FSha256.

#[global] Instance ObjectKind_eq_dec : EqDecision ObjectKind.
Proof. solve_decision. Defined.
#[global] Instance ObjectFormat_eq_dec : EqDecision ObjectFormat.
Proof. solve_decision. Defined.

Definition digest_len (f : ObjectFormat) : Z :=
  match f with FSha1 => 20 | FSha256 => 32 end.

Lemma digest_len_cases fmt : digest_len fmt = 20 \/ digest_len fmt = 32.
Proof. destruct fmt; cbn; lia. Qed.

Definition format_name (f : ObjectFormat) : bytes :=
  match f with FSha1 => bstr "sha1" | FSha256 => bstr "sha256" end.

(** An identity holds its digest bytes; [id_ok] is the array type's length. *)
Inductive ObjectId :=
| Sha1 (b : bytes)
| Sha256 (b : bytes).

#[global] Instance ObjectId_eq_dec : EqDecision ObjectId.
Proof. solve_decision. Defined.

Definition id_format (id : ObjectId) : ObjectFormat :=
  match id with Sha1 _ => FSha1 | Sha256 _ => FSha256 end.

Definition id_bytes (id : ObjectId) : bytes :=
  match id with Sha1 b => b | Sha256 b => b end.

Definition id_ok (id : ObjectId) : Prop :=
  bytes_ok (id_bytes id) /\ zlen (id_bytes id) = digest_len (id_format id).

(** [derive(Ord)]: SHA-1 before SHA-256, then digest bytes. *)
Definition id_cmp (a b : ObjectId) : comparison :=
  match a, b with
  | Sha1 x, Sha1 y => bytes_cmp x y
  | Sha1 _, Sha256 _ => Lt
  | Sha256 _, Sha1 _ => Gt
  | Sha256 x, Sha256 y => bytes_cmp x y
  end.

Inductive ParseObjectIdError := ParseObjectIdErr.
Record ObjectFormatError := { expected : ObjectFormat; actual : ObjectFormat }.

Definition make_id (f : ObjectFormat) (b : bytes) : ObjectId :=
  match f with FSha1 => Sha1 b | FSha256 => Sha256 b end.

Definition from_bytes (f : ObjectFormat) (b : bytes) : result ParseObjectIdError ObjectId :=
  match f with
  | FSha1 => if zlen b =? 20 then Ok (Sha1 b) else Err ParseObjectIdErr
  | FSha256 => if zlen b =? 32 then Ok (Sha256 b) else Err ParseObjectIdErr
  end.

Definition null (f : ObjectFormat) : ObjectId :=
  match f with
  | FSha1 => Sha1 (replicate 20 0)
  | FSha256 => Sha256 (replicate 32 0)
  end.

Definition is_null (id : ObjectId) : bool := forallb (fun b => b =? 0) (id_bytes id).

Definition require_format (id : ObjectId) (e : ObjectFormat) : result ObjectFormatError unit :=
  if decide (id_format id = e) then Ok tt
  else Err {| expected := e; actual := id_format id |}.

(** [hex_digit]: value of one hexadecimal digit in either case. *)
Definition hex_digit (digit : Z) : result ParseObjectIdError Z :=
  if (48 <=? digit) && (digit <=? 57) then Ok (digit - 48)
  else if (97 <=? digit) && (digit <=? 102) then Ok (digit - 97 + 10)
  else if (65 <=? digit) && (digit <=? 70) then Ok (digit - 65 + 10)
  else Err ParseObjectIdErr.

(** The loop over two-digit chunks of [FromStr]. *)
Fixpoint hex_pairs (l : bytes) : result ParseObjectIdError bytes :=
  match l with
  | high :: low :: rest =>
      let? h := hex_digit high in
      let? d := hex_digit low in
      let? more := hex_pairs rest in
      Ok (Z.lor (wrap8 (Z.shiftl h 4)) d :: more)
  | _ => Ok []
  end.

(** [ObjectId::from_str]. *)
Definition from_str (value : bytes) : result ParseObjectIdError ObjectId :=
  let? f := (if zlen value =? 40 then Ok FSha1
             else if zlen value =? 64 then Ok FSha256
             else Err ParseObjectIdErr) in
  let? b := hex_pairs value in
  Ok (make_id f b).

Definition from_hex (f : ObjectFormat) (value : bytes) : result ParseObjectIdError ObjectId :=
  let? id := from_str value in
  if decide (id_format id = f) then Ok id else Err ParseObjectIdErr.

(** [{byte:02x}] and [Display for ObjectId]. *)
Definition hex_char (n : Z) : Z := if n <? 10 then 48 + n else 87 + n.
Definition hex_byte (b : Z) : bytes := [hex_char (b / 16); hex_char (b mod 16)].
Definition to_hex (l : bytes) : bytes := concat (map hex_byte l).
Definition to_string (id : ObjectId) : bytes := to_hex (id_bytes id).

(** Decimal text of a [usize]; twenty digits hold any 64-bit value. *)
Fixpoint decimal_digits (fuel : nat) (n : Z) : bytes :=
  match fuel with
  | O => []
  | S fuel' =>
      if n <? 10 then [48 + n] else decimal_digits fuel' (n / 10) ++ [48 + n mod 10]
  end.
Definition decimal (n : Z) : bytes := decimal_digits 20 n.

Definition object_header (kind : bytes) (length : Z) : bytes :=
  kind ++ [32] ++ decimal length ++ [0].

Definition encode_blob (bs : bytes) : bytes := object_header (bstr "blob") (zlen bs) ++ bs.

Section Hashing.
(** The digest functions of the aws-lc library. *)
Variables sha1 sha256 : bytes -> bytes.

(** [hash_object]: the digest of the framing header followed by the payload. *)
Definition hash_object (f : ObjectFormat) (kind : ObjectKind) (bs : bytes) : ObjectId :=
  match f with
  | FSha1 => Sha1 (sha1 (object_header (as_str kind) (zlen bs) ++ bs))
  | FSha256 => Sha256 (sha256 (object_header (as_str kind) (zlen bs) ++ bs))
  end.

(** [ObjectFormat::checksum]. *)
Definition checksum (f : ObjectFormat) (bs : bytes) : ObjectId :=
  match f with FSha1 => Sha1 (sha1 bs) | FSha256 => Sha256 (sha256 bs) end.
End Hashing.

(** ** Abbreviated identities *)

Record ObjectIdPrefix := { lower : ObjectId; digits : Z }.
Inductive ParseObjectIdPrefixError := ParseObjectIdPrefixErr.

(** [ObjectIdPrefix::from_hex]: [format!("{text:0<width$}")] pads with zeros. *)
Definition prefix_from_hex (f : ObjectFormat) (text : bytes)
    : result ParseObjectIdPrefixError ObjectIdPrefix :=
  let width := digest_len f * 2 in
  if negb ((4 <=? zlen text) && (zlen text <=? width)) || negb (forallb is_hexdigit text)
  then Err ParseObjectIdPrefixErr
  else
    let padded := text ++ replicate (Z.to_nat (width - zlen text)) 48 in
    let? l := map_err (fun _ => ParseObjectIdPrefixErr) (from_hex f padded) in
    Ok {| lower := l; digits := zlen text |}.

Definition option_bytes_eqb (a b : option bytes) : bool :=
  match a, b with
  | Some x, Some y => bytes_eqb x y
  | None, None => true
  | _, _ => false
  end.

(** [ObjectIdPrefix::matches]. *)
Definition prefix_matches (p : ObjectIdPrefix) (id : ObjectId) : bool :=
  if negb (bool_decide (id_format id = id_format (lower p))) then false
  else
    let n := digits p / 2 in
    let left := id_bytes (lower p) in
    let right := id_bytes id in
    option_bytes_eqb (slice 0 n left) (slice 0 n right) &&
    ((digits p mod 2 =? 0) ||
     match zget n left, zget n right with
     | Some a, Some b => Z.shiftr a 4 =? Z.shiftr b 4
     | _, _ => false
     end).

(** The in-place masking of [from_id]: the low half of a byte holding an odd
    last digit is cleared, and every later byte is zeroed. *)
Definition mask_digits (d : Z) (b0 : bytes) : bytes :=
  let b1 := if negb (d mod 2 =? 0)
            then alter (fun byte => Z.land byte 0xf0) (Z.to_nat (d / 2)) b0 else b0 in
  let keep := Z.to_nat (div_ceil d 2) in
  take keep b1 ++ replicate (length b1 - keep) 0.

(** [ObjectIdPrefix::from_id]. *)
Definition prefix_from_id (id : ObjectId) (minimum : Z) : ObjectIdPrefix :=
  let d := Z.min (Z.max minimum 4) (zlen (id_bytes id) * 2) in
  {| lower := make_id (id_format id) (mask_digits d (id_bytes id)); digits := d |}.

(** [Display for ObjectIdPrefix]. *)
Definition prefix_to_string (p : ObjectIdPrefix) : option bytes :=
  slice 0 (digits p) (to_string (lower p)).

(** * Hexadecimal text *)

Lemma to_hex_cons b l : to_hex (b :: l) = hex_char (b / 16) :: hex_char (b mod 16) :: to_hex l.
Proof. done. Qed.

Lemma zlen_to_hex l : zlen (to_hex l) = 2 * zlen l.
Proof. induction l as [|x l IH]; [done|]. unfold to_hex in *. simpl. zlia. Qed.
#[global] Hint Rewrite zlen_to_hex : zlen.

Lemma hex_digit_char n : 0 <= n < 16 -> hex_digit (hex_char n) = Ok n.
Proof. intros Hn. unfold hex_digit, hex_char. zbool; f_equal; lia. Qed.

Lemma hex_digit_Ok d n :
  hex_digit d = Ok n -> 0 <= n < 16 /\ hex_char n = to_lower d /\ is_hexdigit d = true.
Proof.
  unfold hex_digit, hex_char, to_lower, is_upper, is_hexdigit, is_digit. intros H.
  zbool; simplify_eq; repeat split; zbool; lia.
Qed.

Lemma hex_digit_is_hexdigit d : is_hexdigit d = true -> exists n, hex_digit d = Ok n.
Proof. unfold is_hexdigit, is_digit, hex_digit. intros H. zbool; eauto. Qed.

Lemma nibbles h d : 0 <= h < 16 -> 0 <= d < 16 ->
  Z.lor (wrap8 (Z.shiftl h 4)) d = h * 16 + d.
Proof.
  intros Hh Hd. unfold wrap8. rewrite Z.shiftl_mul_pow2 by lia.
  change (2 ^ 8) with 256. change (2 ^ 4) with 16. rewrite Z.mod_small by lia.
  rewrite <- Z.lxor_lor; [rewrite <- Z.add_nocarry_lxor; [done|]|];
    apply Z.bits_inj'; intros i Hi; rewrite Z.land_spec, Z.bits_0;
    destruct (Z.ltb_spec i 4).
  all: try (replace (h * 16) with (h * 2 ^ 4) by lia; rewrite Z.mul_pow2_bits_low by lia; done).
  all: rewrite <- (Z.mod_small d (2 ^ 4)) by lia; rewrite Z.mod_pow2_bits_high by lia;
    apply andb_false_r.
Qed.

Lemma hex_pairs_byte b l : byte_ok b ->
  hex_pairs (hex_byte b ++ l) = let? more := hex_pairs l in Ok (b :: more).
Proof.
  unfold byte_ok. intros Hb.
  assert (0 <= b / 16 < 16) by (split; [apply Z.div_pos|apply Z.div_lt_upper_bound]; lia).
  assert (0 <= b mod 16 < 16) by (apply Z.mod_pos_bound; lia).
  simpl. rewrite !hex_digit_char by done. simpl. destruct (hex_pairs l); simpl; [|done].
  rewrite nibbles by done. do 2 f_equal. pose proof (Z.div_mod b 16). lia.
Qed.

Lemma hex_pairs_to_hex l : bytes_ok l -> hex_pairs (to_hex l) = Ok l.
Proof.
  induction 1 as [|b l Hb Hl IH]; [done|].
  change (to_hex (b :: l)) with (hex_byte b ++ to_hex l).
  by rewrite hex_pairs_byte, IH.
Qed.


(** Induction two elements at a time. *)
Lemma list_pair_ind {A} (P : list A -> Prop) :
  P [] -> (forall x, P [x]) -> (forall x y l, P l -> P (x :: y :: l)) -> forall l, P l.
Proof.
  intros H0 H1 H2 l. enough (P l /\ forall x, P (x :: l)) by tauto.
  induction l as [|x l [IH1 IH2]]; split; auto.
Qed.

Lemma hex_pairs_Ok s b : zlen s mod 2 = 0 -> hex_pairs s = Ok b ->
  bytes_ok b /\ to_hex b = map to_lower s.
Proof.
  revert b. induction s as [|x|x y s IH] using list_pair_ind; intros b Hlen H; simpl in *.
  - simplify_eq. split; [constructor|done].
  - done.
  - apply rbind_Ok in H as (h & (Hh & Eh & _)%hex_digit_Ok & H).
    apply rbind_Ok in H as (d & (Hd & Ed & _)%hex_digit_Ok & H).
    apply rbind_Ok in H as (more & Hm & [= <-]).
    rewrite nibbles by done.
    destruct (IH more) as [Hok Hhex]; [|done|].
    { rewrite !zlen_cons in Hlen. rewrite <- Hlen, <- (Z.mod_add (zlen s) 1 2) by lia.
      f_equal. lia. }
    split; [constructor; [unfold byte_ok; lia|done]|].
    unfold to_hex in *. simpl. rewrite Hhex.
    rewrite <- (Z.div_unique (h * 16 + d) 16 h d), <- (Z.mod_unique (h * 16 + d) 16 h d) by lia.
    by rewrite Eh, Ed.
Qed.

Lemma hex_pairs_ok_of_lower s l : bytes_ok l -> map to_lower s = to_hex l -> hex_pairs s = Ok l.
Proof.
  revert s; induction l as [|b l IH]; intros s Hl Hs.
  - by destruct s.
  - apply bytes_ok_cons in Hl as [Hb Hl].
    destruct s as [|x [|y s]]; [done..|]. rewrite to_hex_cons in Hs. simplify_eq/=.
    unfold byte_ok in Hb.
    assert (0 <= b / 16 < 16) by (split; [apply Z.div_pos|apply Z.div_lt_upper_bound]; lia).
    assert (0 <= b mod 16 < 16) by (apply Z.mod_pos_bound; lia).
    assert (forall c n, 0 <= n < 16 -> to_lower c = hex_char n -> hex_digit c = Ok n) as HX.
    { intros c n Hn. unfold to_lower, is_upper, hex_char, hex_digit. intros Hc.
      zbool; f_equal; lia. }
    rewrite (HX x (b / 16)), (HX y (b mod 16)) by done. simpl.
    rewrite IH by done. simpl. rewrite nibbles by done. do 2 f_equal.
    pose proof (Z.div_mod b 16). lia.
Qed.

Lemma zlen_map {A B} (f : A -> B) l : zlen (map f l) = zlen l.
Proof. unfold zlen. by rewrite length_map. Qed.

Lemma from_str_Ok value id :
  from_str value = Ok id <-> id_ok id /\ map to_lower value = to_string id.
Proof.
  unfold from_str, to_string. split.
  - intros H. apply rbind_Ok in H as (f & Hf & H). apply rbind_Ok in H as (b & Hb & [= <-]).
    assert (zlen value = 2 * digest_len f) as Hlen by (zbool; simplify_eq; done).
    apply hex_pairs_Ok in Hb as [Hok Hhex]; [|rewrite Hlen; destruct f; done].
    replace (id_bytes (make_id f b)) with b by (by destruct f).
    split; [|done]. split.
    + by destruct f.
    + replace (id_format (make_id f b)) with f by (by destruct f).
      replace (id_bytes (make_id f b)) with b by (by destruct f).
      apply (f_equal zlen) in Hhex. rewrite zlen_map, zlen_to_hex in Hhex. lia.
  - intros [[Hok Hlen] Hv].
    assert (zlen value = 2 * digest_len (id_format id)) as Hl.
    { apply (f_equal zlen) in Hv. rewrite zlen_map, zlen_to_hex in Hv. lia. }
    rewrite (hex_pairs_ok_of_lower _ (id_bytes id)) by done.
    rewrite Hl. destruct id; done.
Qed.

(** ** Framing *)

Lemma decimal_digits_ok n fuel : Forall (fun b => b = 32 \/ b = 0 -> False) (decimal_digits fuel n) \/ n < 0.
Proof.
  revert n; induction fuel as [|fuel IH]; intros n; simpl; [left; constructor|].
  destruct (Z.ltb_spec n 0); [auto|left].
  destruct (n <? 10) eqn:E; bool_prop.
  - repeat constructor. lia.
  - apply Forall_app. split.
    + destruct (IH (n / 10)); [done|]. pose proof (Z.div_pos n 10). lia.
    + repeat constructor. pose proof (Z.mod_pos_bound n 10). lia.
Qed.

Lemma decimal_no_nul {A} (l : list A) : 0 ∉ decimal (zlen l).
Proof.
  destruct (decimal_digits_ok (zlen l) 20) as [H|H]; [|zlia].
  rewrite Forall_forall in H. intros Hin. apply (H 0 Hin). auto.
Qed.

Lemma as_str_no_space kind : 32 ∉ as_str kind.
Proof. apply contains_false. by destruct kind. Qed.

Lemma as_str_inj k k' : as_str k = as_str k' -> k = k'.
Proof. by destruct k, k'. Qed.

Lemma object_header_app k n (bs : bytes) :
  object_header k n ++ bs = k ++ 32 :: decimal n ++ 0 :: bs.
Proof. unfold object_header. by rewrite <- !app_assoc. Qed.

(** The bytes that are hashed determine the object: two kinds and payloads
    with the same framed bytes are equal, so an identity is a digest of exactly
    one kind and payload. *)
Theorem framing_injective k k' (bs bs' : bytes) :
  object_header (as_str k) (zlen bs) ++ bs = object_header (as_str k') (zlen bs') ++ bs' ->
  k = k' /\ bs = bs'.
Proof.
  rewrite !object_header_app. intros H.
  assert (Some (as_str k, decimal (zlen bs) ++ 0 :: bs)
          = Some (as_str k', decimal (zlen bs') ++ 0 :: bs')) as [= Hk Hr].
  { rewrite <- !(split_once_app _ 32) by apply as_str_no_space. by rewrite H. }
  split; [by apply as_str_inj|].
  assert (Some (decimal (zlen bs), bs) = Some (decimal (zlen bs'), bs')) as [= _ ?]; [|done].
  rewrite <- !(split_once_app _ 0) by apply decimal_no_nul. by rewrite Hr.
Qed.

(** ** Abbreviations *)

Lemma hex_char_inj a b : 0 <= a < 16 -> 0 <= b < 16 -> hex_char a = hex_char b -> a = b.
Proof. unfold hex_char. intros. zbool. Qed.

Lemma nibble_bounds b : byte_ok b -> 0 <= b / 16 < 16 /\ 0 <= b mod 16 < 16.
Proof.
  unfold byte_ok. intros. split; [|apply Z.mod_pos_bound; lia].
  split; [apply Z.div_pos|apply Z.div_lt_upper_bound]; lia.
Qed.

Lemma take_to_hex n l : take (2 * n) (to_hex l) = to_hex (take n l).
Proof.
  revert l; induction n as [|n IH]; intros l; [done|].
  replace (2 * S n)%nat with (S (S (2 * n))) by lia.
  destruct l as [|b l]; [done|]. rewrite to_hex_cons. simpl take. rewrite to_hex_cons.
  do 2 f_equal. by rewrite <- IH.
Qed.

Lemma to_hex_inj l l' : bytes_ok l -> bytes_ok l' -> to_hex l = to_hex l' -> l = l'.
Proof.
  intros H H' E. assert (hex_pairs (to_hex l) = hex_pairs (to_hex l')) as HX by congruence.
  rewrite !hex_pairs_to_hex in HX by done. congruence.
Qed.

Lemma take_odd_to_hex n l b : l !! n = Some b ->
  take (2 * n + 1) (to_hex l) = to_hex (take n l) ++ [hex_char (b / 16)].
Proof.
  revert l; induction n as [|n IH]; intros l Hb; (destruct l as [|x l]; [done|]).
  - by injection Hb as ->.
  - replace (2 * S n + 1)%nat with (S (S (2 * n + 1))) by lia.
    rewrite to_hex_cons. simpl take. rewrite to_hex_cons. simpl app. do 2 f_equal.
    by apply IH.
Qed.

Definition prefix_ok (p : ObjectIdPrefix) : Prop :=
  id_ok (lower p) /\ 0 <= digits p <= 2 * digest_len (id_format (lower p)).

Lemma bytes_ok_take n l : bytes_ok l -> bytes_ok (take n l).
Proof. apply Forall_take. Qed.

Lemma slice_0 {A} n (l : list A) : 0 <= n <= zlen l -> slice 0 n l = Some (take (Z.to_nat n) l).
Proof. intros. apply slice_Some. rewrite Z.sub_0_r, drop_0. auto with lia. Qed.

(** The test of [matches] compares exactly the displayed digits. *)
Lemma prefix_matches_digits p id :
  prefix_ok p -> id_ok id ->
  prefix_matches p id = true <->
  id_format id = id_format (lower p) /\
  take (Z.to_nat (digits p)) (to_string id) = take (Z.to_nat (digits p)) (to_string (lower p)).
Proof.
  intros [[Hlo Hll] Hd] [Hio Hil]. unfold prefix_matches, to_string.
  case_bool_decide as Hf; simpl; [|split; [done|]; naive_solver].
  rewrite Hf in Hil. destruct p as [[lo|lo] d]; simpl in *.
  all: set (l := id_bytes id) in *.
  all: pose proof (Z.div_mod d 2) as Hdm; pose proof (Z.mod_pos_bound d 2) as Hm.
  all: assert (0 <= d / 2) by (apply Z.div_pos; lia).
  all: rewrite !slice_0 by lia; simpl; rewrite andb_true_iff, bytes_eqb_eq, orb_true_iff, Z.eqb_eq.
  all: destruct (Z.eq_dec (d mod 2) 0) as [H0|H0].
  1,3: replace (Z.to_nat d) with (2 * Z.to_nat (d / 2))%nat by lia; rewrite !take_to_hex; split;
    [intros [-> _]; done|intros [_ H']; split; [|by left];
     symmetry; apply to_hex_inj; auto using bytes_ok_take].
  all: replace (Z.to_nat d) with (2 * Z.to_nat (d / 2) + 1)%nat by lia.
  all: destruct (zget_is_Some (d / 2) lo) as [a Ha]; [lia|].
  all: destruct (zget_is_Some (d / 2) l) as [b Hb]; [lia|].
  all: rewrite Ha, Hb; apply zget_Some in Ha as [_ Ha]; apply zget_Some in Hb as [_ Hb].
  all: rewrite (take_odd_to_hex _ _ _ Ha), (take_odd_to_hex _ _ _ Hb), Z.eqb_eq, !Z.shiftr_div_pow2 by lia.
  all: change (2 ^ 4) with 16.
  all: assert (byte_ok a) as Ba by (by eapply Forall_lookup_1 in Ha).
  all: assert (byte_ok b) as Bb by (by eapply Forall_lookup_1 in Hb).
  all: apply nibble_bounds in Ba as [Ba _]; apply nibble_bounds in Bb as [Bb _].
  all: split; [intros [-> [? | ->]]; done|].
  all: intros [_ HE]; apply app_inj_2 in HE as [H1 H2]; [|done]; simplify_eq.
  all: split; [symmetry; apply to_hex_inj; auto using bytes_ok_take|right].
  all: symmetry; by apply hex_char_inj.
Qed.

Lemma to_lower_hex c : is_hexdigit c = true -> exists n, 0 <= n < 16 /\ to_lower c = hex_char n.
Proof.
  intros [n Hn]%hex_digit_is_hexdigit. exists n. apply hex_digit_Ok in Hn. naive_solver.
Qed.

Lemma hex_text_bytes s :
  zlen s mod 2 = 0 -> forallb is_hexdigit s = true -> exists l, hex_pairs s = Ok l.
Proof.
  induction s as [|x|x y s IH] using list_pair_ind; intros Hlen H; simpl in *; [eauto..|].
  apply andb_prop in H as [Hx H]. apply andb_prop in H as [Hy H].
  destruct (hex_digit_is_hexdigit _ Hx) as [h ->], (hex_digit_is_hexdigit _ Hy) as [d ->].
  destruct IH as [l ->]; [|done|simpl; eauto].
  rewrite !zlen_cons in Hlen. rewrite <- Hlen, <- (Z.mod_add (zlen s) 1 2) by lia. f_equal. lia.
Qed.

Lemma from_hex_of_digits f s :
  zlen s = 2 * digest_len f -> forallb is_hexdigit s = true ->
  exists id, from_hex f s = Ok id /\ id_ok id /\ id_format id = f /\ to_string id = map to_lower s.
Proof.
  intros Hlen Hs. destruct (hex_text_bytes s) as [l Hl]; [rewrite Hlen; by destruct f|done|].
  assert (from_str s = Ok (make_id f l)) as E.
  { unfold from_str. rewrite Hl, Hlen. by destruct f. }
  exists (make_id f l). pose proof E as [Hok Ht]%from_str_Ok.
  unfold from_hex. rewrite E. simpl. destruct f; simpl; (split; [done|]); auto.
Qed.

Lemma forallb_replicate {A} (p : A -> bool) n x : p x = true -> forallb p (replicate n x) = true.
Proof. intros H. induction n; simpl; [done|]. by rewrite H. Qed.

(** an abbreviation given as [text] (4 up to the full width of hexadecimal
    digits, in either case) matches exactly the identities of its format whose
    hexadecimal form starts with the lowercased text, including a final half
    byte; and it displays as the lowercased text. *)
Theorem prefix_from_hex_spec f text :
  4 <= zlen text <= 2 * digest_len f -> forallb is_hexdigit text = true ->
  exists p, prefix_from_hex f text = Ok p /\
    prefix_to_string p = Some (map to_lower text) /\
    forall id, id_ok id ->
      (prefix_matches p id = true <->
       id_format id = f /\ starts_with (map to_lower text) (to_string id) = true).
Proof.
  intros Hlen Hhex. unfold prefix_from_hex.
  destruct (from_hex_of_digits f (text ++ replicate (Z.to_nat (digest_len f * 2 - zlen text)) 48))
    as (lo & -> & Hlo & Hf & Hs).
  { zlia. }
  { rewrite forallb_app, Hhex. by apply forallb_replicate. }
  rewrite Hhex. replace (4 <=? zlen text) with true by zbool.
  replace (zlen text <=? digest_len f * 2) with true by zbool. simpl.
  eexists. split; [done|].
  assert (take (Z.to_nat (zlen text)) (to_string lo) = map to_lower text) as Htake.
  { rewrite Hs, map_app. unfold zlen. rewrite Nat2Z.id, <- (length_map to_lower text).
    by rewrite take_app_length. }
  assert (zlen (to_string lo) = 2 * digest_len f) as Hw.
  { unfold to_string. rewrite zlen_to_hex. destruct Hlo as [_ ->]. by rewrite Hf. }
  split.
  - unfold prefix_to_string. simpl. rewrite slice_0 by lia. by rewrite Htake.
  - intros id Hid. rewrite prefix_matches_digits; [|split; simpl; [done|rewrite Hf; lia]|done].
    simpl. rewrite Hf, Htake, starts_with_true. split.
    + intros [-> <-]. split; [done|]. eexists. symmetry. apply take_drop.
    + intros [-> [r ->]]. split; [done|]. unfold zlen. rewrite Nat2Z.id.
      rewrite <- (length_map to_lower text). by rewrite take_app_length.
Qed.

Lemma prefix_from_hex_spec_witness :
  exists p, prefix_from_hex FSha1 (bstr "B6FC4") = Ok p /\
    prefix_to_string p = Some (bstr "b6fc4").
Proof.
  destruct (prefix_from_hex_spec FSha1 (bstr "B6FC4")) as (p & Hp & Hs & _);
    [split; vm_compute; discriminate|reflexivity|].
  exists p. split; [exact Hp|exact Hs].
Defined.

Lemma framing_injective_witness :
  object_header (as_str KBlob) (zlen (bstr "hi")) ++ bstr "hi" = bstr "blob 2" ++ 0 :: bstr "hi" /\
  (KBlob = KBlob /\ bstr "hi" = bstr "hi").
Proof. split; [reflexivity|]. apply (framing_injective KBlob KBlob). reflexivity. Defined.

Lemma land_f0 b : byte_ok b -> byte_ok (Z.land b 0xf0) /\ Z.land b 0xf0 / 16 = b / 16.
Proof.
  intros Hb. unfold byte_ok in *.
  assert (Z.land b 0xf0 = b / 16 * 16) as ->.
  { replace (b / 16 * 16) with (Z.shiftl (Z.shiftr b 4) 4)
      by (rewrite Z.shiftl_mul_pow2, Z.shiftr_div_pow2 by lia; done).
    apply Z.bits_inj'. intros i Hi. rewrite Z.land_spec, Z.shiftl_spec by lia.
    destruct (Z.ltb_spec i 4).
    - rewrite (Z.testbit_neg_r _ (i - 4)) by lia.
      assert (i = 0 \/ i = 1 \/ i = 2 \/ i = 3) as [-> | [-> | [-> | ->]]] by lia; apply andb_false_r.
    - rewrite Z.shiftr_spec by lia. replace (i - 4 + 4) with i by lia.
      destruct (Z.ltb_spec i 8).
      + assert (i = 4 \/ i = 5 \/ i = 6 \/ i = 7) as [-> | [-> | [-> | ->]]] by lia; apply andb_true_r.
      + rewrite <- (Z.mod_small b (2 ^ 8)) by lia. by rewrite Z.mod_pow2_bits_high by lia. }
  rewrite Z.div_mul by lia. pose proof (nibble_bounds b Hb). unfold byte_ok. lia.
Qed.

(** Keeping [n] bytes and a masked half byte keeps the leading digits. *)
Lemma take_masked_hex n l b rest :
  byte_ok b -> l !! n = Some b ->
  take (2 * n + 1) (to_hex (take n l ++ Z.land b 0xf0 :: rest)) = take (2 * n + 1) (to_hex l).
Proof.
  intros Hb Hl. assert (length (take n l) = n) as Hn.
  { rewrite length_take. apply lookup_lt_Some in Hl. lia. }
  rewrite (take_odd_to_hex n l b) by done.
  rewrite (take_odd_to_hex n _ (Z.land b 0xf0)) by (by apply list_lookup_middle).
  rewrite take_app_le, take_take, Nat.min_id by lia.
  by destruct (land_f0 b Hb) as [_ ->].
Qed.

(** The bytes kept by [from_id] have the digits of the identity. *)
Lemma mask_digits_spec l d :
  bytes_ok l -> 0 <= d <= zlen l * 2 ->
  bytes_ok (mask_digits d l) /\ zlen (mask_digits d l) = zlen l /\
  take (Z.to_nat d) (to_hex (mask_digits d l)) = take (Z.to_nat d) (to_hex l).
Proof.
  intros Hl Hd. unfold mask_digits.
  pose proof (Z.div_mod d 2) as Hdm. pose proof (Z.mod_pos_bound d 2) as Hm.
  unfold div_ceil. replace (d + 2 - 1) with (d + 1) by lia.
  destruct (Z.eqb_spec (d mod 2) 0) as [H0|H0]; simpl.
  - replace ((d + 1) / 2) with (d / 2) by (apply Z.div_unique with 1; lia).
    set (n := Z.to_nat (d / 2)). assert (n <= length l)%nat by (unfold zlen in *; lia).
    split; [|split].
    + apply bytes_ok_app. split; [by apply bytes_ok_take|].
      apply Forall_replicate. unfold byte_ok. lia.
    + unfold zlen. rewrite length_app, length_take, length_replicate. lia.
    + replace (Z.to_nat d) with (2 * n)%nat by lia. rewrite !take_to_hex.
      by rewrite take_app_le, take_take, Nat.min_id by (rewrite length_take; lia).
  - replace ((d + 1) / 2) with (d / 2 + 1) by (apply Z.div_unique with 0; lia).
    set (n := Z.to_nat (d / 2)). assert (n < length l)%nat by (unfold zlen in *; lia).
    destruct (lookup_lt_is_Some_2 l n) as [b Hb]; [done|].
    assert (byte_ok b) as Bb by (by eapply Forall_lookup_1 in Hb).
    replace (Z.to_nat (d / 2 + 1)) with (S n) by lia.
    erewrite take_S_r by (by rewrite list_lookup_alter_eq, Hb).
    rewrite take_alter, decide_False, length_alter, <- app_assoc by lia. simpl.
    split; [|split].
    + apply bytes_ok_app. split; [by apply bytes_ok_take|]. constructor.
      * by apply land_f0.
      * apply Forall_replicate. unfold byte_ok. lia.
    + unfold zlen. rewrite length_app, length_take. simpl. rewrite length_replicate. lia.
    + replace (Z.to_nat d) with (2 * n + 1)%nat by lia. by apply take_masked_hex.
Qed.

(** Shortening an identity to at least four digits gives a prefix that
    displays the identity's own leading digits and matches the identity. *)
Theorem prefix_from_id_spec id minimum :
  id_ok id ->
  prefix_matches (prefix_from_id id minimum) id = true /\
  prefix_to_string (prefix_from_id id minimum) =
    Some (take (Z.to_nat (Z.min (Z.max minimum 4) (2 * digest_len (id_format id)))) (to_string id)).
Proof.
  intros [Hok Hlen].
  set (d := Z.min (Z.max minimum 4) (zlen (id_bytes id) * 2)).
  assert (0 <= d <= zlen (id_bytes id) * 2) as Hd by (destruct (id_format id); simpl in *; lia).
  destruct (mask_digits_spec (id_bytes id) d Hok Hd) as (H1 & H2 & H3).
  unfold prefix_from_id. fold d. set (b2 := mask_digits d (id_bytes id)) in *.
  assert (id_ok (make_id (id_format id) b2)) as Hok2.
  { destruct (id_format id); split; simpl in *; congruence. }
  assert (id_bytes (make_id (id_format id) b2) = b2) as Hb2 by (by destruct (id_format id)).
  assert (id_format (make_id (id_format id) b2) = id_format id) as Hf by (by destruct (id_format id)).
  split.
  - apply prefix_matches_digits; [split; simpl; [done|rewrite Hf; lia]|done|].
    simpl. split; [by rewrite Hf|]. unfold to_string. by rewrite Hb2, H3.
  - unfold prefix_to_string, to_string. simpl. rewrite Hb2, slice_0 by zlia.
    rewrite H3. do 2 f_equal. unfold d. rewrite Hlen. lia.
Qed.

Lemma prefix_from_id_spec_witness :
  prefix_to_string (prefix_from_id (Sha1 (replicate 20 0xab)) 5) = Some (bstr "ababa").
Proof.
  assert (id_ok (Sha1 (replicate 20 0xab))) as H.
  { split; [|reflexivity]. apply Forall_replicate. split; [discriminate|reflexivity]. }
  exact (proj2 (prefix_from_id_spec (Sha1 (replicate 20 0xab)) 5 H)).
Defined.

End Objects.
