(* ===== verification/Trees.v ===== *)
(** * Tree objects ([src/src/tree.rs])

    Entry modes, tree entries with Git's name order, and the three operations
    with separate promises: [Tree_parse] (readable records, bytes preserved),
    [Tree_validate] (names, uniqueness, order) and [Tree_new] (validated,
    canonical construction). *)

From stdpp Require Import base list numbers strings sets gmap sorting.
From Stdlib Require Import ZArith Lia.
From S2P Require Import Prelude Bytes Objects.

Module Trees.
Import Bytes Objects.

Inductive EntryMode := Blob | Executable | Symlink | Tree | Gitlink.

#[global] Instance EntryMode_eq_dec : EqDecision EntryMode.
Proof. solve_decision. Defined.

Definition octal (m : EntryMode) : bytes :=
  match m with
  | Blob => bstr "100644"
  | Executable => bstr "100755"
  | Symlink => bstr "120000"
  | Tree => bstr "040000"
  | Gitlink => bstr "160000"
  end.

Definition object_kind (m : EntryMode) : ObjectKind :=
  match m with
  | Blob | Executable | Symlink => KBlob
  | Tree => KTree
  | Gitlink => KCommit
  end.

Definition mode_bytes (m : EntryMode) : bytes :=
  match m with
  | Blob => bstr "100644"
  | Executable => bstr "100755"
  | Symlink => bstr "120000"
  | Tree => bstr "40000"
  | Gitlink => bstr "160000"
  end.

Inductive TreeError :=
| TreeObjectFormat (e : ObjectFormatError)
| MissingModeDelimiter
| UnsupportedMode
| MissingNameDelimiter
| TruncatedObjectId
| InvalidName
| DuplicateName
| Unsorted.

(** The digit loop of [EntryMode::parse], on a wrapping [u32]. *)
Fixpoint mode_digits (mode : Z) (bs : bytes) : result TreeError Z :=
  match bs with
  | [] => Ok mode
  | byte :: rest =>
      if negb ((48 <=? byte) && (byte <=? 55)) then Err UnsupportedMode
      else mode_digits (wrap32 (wrap32 (mode * 8) + (byte - 48))) rest
  end.

(** [EntryMode::parse]: the type bits and the owner-execute bit decide. *)
Definition mode_parse (bs : bytes) : result TreeError EntryMode :=
  match bs with
  | [] => Err UnsupportedMode
  | _ =>
      let? mode := mode_digits 0 bs in
      let kind := Z.land mode 0xf000 in
      Ok (if kind =? 0x4000 then Tree
          else if kind =? 0x8000 then
            if negb (Z.land mode 0x40 =? 0) then Executable else Blob
          else if kind =? 0xa000 then Symlink
          else Gitlink)
  end.

Definition terminator (m : EntryMode) : Z := if decide (m = Tree) then 47 else 0.

Record TreeEntry := { mode : EntryMode; name : bytes; id : ObjectId }.

#[global] Instance TreeEntry_eq_dec : EqDecision TreeEntry.
Proof. solve_decision. Defined.

Definition sort_key (e : TreeEntry) : bytes := name e ++ [terminator (mode e)].

(** [TreeEntry::git_cmp]: names compare as if terminated by [/] or NUL. *)
Definition git_cmp (a b : TreeEntry) : comparison := bytes_cmp (sort_key a) (sort_key b).

Record TreeObject := { t_format : ObjectFormat; entries : list TreeEntry; original : bytes }.

Definition encode_entry (e : TreeEntry) : bytes :=
  mode_bytes (mode e) ++ [32] ++ name e ++ [0] ++ id_bytes (id e).
Definition encode_entries (es : list TreeEntry) : bytes := concat (map encode_entry es).

(** The name test of [validate_names]. *)
Definition invalid_name (n : bytes) : bool :=
  bytes_eqb n [] || contains 0 n || contains 47 n || bytes_eqb n (bstr ".") ||
  bytes_eqb n (bstr "..").

Fixpoint validate_names_from (names : gset bytes) (es : list TreeEntry) : result TreeError unit :=
  match es with
  | [] => Ok tt
  | e :: rest =>
      if invalid_name (name e) then Err InvalidName
      else if decide (name e ∈ names) then Err DuplicateName
      else validate_names_from ({[name e]} ∪ names) rest
  end.
Definition validate_names (es : list TreeEntry) : result TreeError unit :=
  validate_names_from ∅ es.

Fixpoint require_formats (f : ObjectFormat) (es : list TreeEntry) : result TreeError unit :=
  match es with
  | [] => Ok tt
  | e :: rest =>
      let? _ := map_err TreeObjectFormat (require_format (id e) f) in
      require_formats f rest
  end.

(** [Tree::new]. *)
Definition Tree_new (f : ObjectFormat) (es : list TreeEntry) : result TreeError TreeObject :=
  let? _ := require_formats f es in
  let? _ := validate_names es in
  let sorted := sort_by git_cmp es in
  Ok {| t_format := f; entries := sorted; original := encode_entries sorted |}.

(** [RawEntries::parse_one]: one record and the rest of the payload. *)
Definition parse_one (f : ObjectFormat) (payload : bytes) : result TreeError (TreeEntry * bytes) :=
  let? (m, rest) := ok_or (split_once payload 32) MissingModeDelimiter in
  let? m := mode_parse m in
  let? (n, rest) := ok_or (split_once rest 0) MissingNameDelimiter in
  let? (raw_id, rest) := ok_or (split_at_checked (digest_len f) rest) TruncatedObjectId in
  let? i := map_err (fun _ => TruncatedObjectId) (from_bytes f raw_id) in
  Ok ({| mode := m; name := n; id := i |}, rest).

(** The iteration of [RawEntries], stopping at the first error.  Each record
    consumes at least one byte, so the payload length bounds the rounds. *)
Fixpoint parse_entries (fuel : nat) (f : ObjectFormat) (payload : bytes)
    : result TreeError (list TreeEntry) :=
  match payload with
  | [] => Ok []
  | _ =>
      match fuel with
      | O => Err MissingModeDelimiter
      | S fuel' =>
          let? (e, rest) := parse_one f payload in
          let? es := parse_entries fuel' f rest in
          Ok (e :: es)
      end
  end.

(** [Tree::parse]. *)
Definition Tree_parse (f : ObjectFormat) (payload : bytes) : result TreeError TreeObject :=
  let? es := parse_entries (length payload) f payload in
  Ok {| t_format := f; entries := es; original := payload |}.

(** [Tree::validate]. *)
Definition Tree_validate (t : TreeObject) : result TreeError unit :=
  let? _ := validate_names (entries t) in
  if negb (is_sorted_le git_cmp (entries t)) then Err Unsorted else Ok tt.

(** [Tree::encode]. *)
Definition Tree_encode (t : TreeObject) : bytes := original t.

(** * Modes *)

Lemma mode_digits_Ok m bs v : mode_digits m bs = Ok v -> Forall (fun b => 48 <= b <= 55) bs.
Proof.
  revert m; induction bs as [|b bs IH]; intros m; simpl; [constructor|].
  destruct (negb _) eqn:E; [done|]. intros H. bool_prop. constructor; [lia|eauto].
Qed.

Lemma mode_parse_digits bs m : mode_parse bs = Ok m -> Forall (fun b => 48 <= b <= 55) bs.
Proof.
  unfold mode_parse. destruct bs as [|b bs]; [done|].
  intros (v & Hv%mode_digits_Ok & _)%rbind_Ok. done.
Qed.

Lemma mode_parse_bytes m : mode_parse (mode_bytes m) = Ok m.
Proof. by destruct m. Qed.

Lemma mode_parse_no_space bs m : mode_parse bs = Ok m -> 32 ∉ bs.
Proof.
  intros H%mode_parse_digits Hin. rewrite Forall_forall in H. specialize (H _ Hin). lia.
Qed.

Lemma mode_digits_zeros n bs : mode_digits 0 (replicate n 48 ++ bs) = mode_digits 0 bs.
Proof. induction n as [|n IH]; simpl; [done|]. exact IH. Qed.

(** The canonical spelling of every mode parses back to it, also with
    any number of leading zeros, as historical trees spell modes. *)
Theorem mode_parse_padded n m : mode_parse (replicate n 48 ++ mode_bytes m) = Ok m.
Proof.
  destruct n as [|n]; [apply mode_parse_bytes|].
  transitivity (mode_parse (48 :: mode_bytes m)); [|by destruct m].
  unfold mode_parse at 1. simpl replicate. simpl app. cbv match.
  change (48 :: replicate n 48 ++ mode_bytes m) with (replicate (S n) 48 ++ mode_bytes m).
  rewrite mode_digits_zeros. by destruct m.
Qed.

(** * Parsing *)

(** One readable record: the mode text as stored, and the entry it denotes. *)
Definition record_bytes (r : bytes * TreeEntry) : bytes :=
  r.1 ++ 32 :: name r.2 ++ 0 :: id_bytes (id r.2).
Definition record_ok (f : ObjectFormat) (r : bytes * TreeEntry) : Prop :=
  mode_parse r.1 = Ok (mode r.2) /\ 0 ∉ name r.2 /\
  id_format (id r.2) = f /\ zlen (id_bytes (id r.2)) = digest_len f.

Lemma from_bytes_Ok f b i :
  from_bytes f b = Ok i <-> i = make_id f b /\ zlen b = digest_len f.
Proof. unfold from_bytes. destruct f; zbool; naive_solver. Qed.

Lemma make_id_bytes i : make_id (id_format i) (id_bytes i) = i.
Proof. by destruct i. Qed.

Lemma parse_one_Ok f payload e rest :
  parse_one f payload = Ok (e, rest) <->
  exists m, record_ok f (m, e) /\ payload = record_bytes (m, e) ++ rest.
Proof.
  unfold parse_one, record_ok, record_bytes. simpl. split.
  - intros ((m & r1) & [-> Hm]%ok_or_Ok%split_once_Some & H)%rbind_Ok.
    apply rbind_Ok in H as (mm & Hmm & H).
    apply rbind_Ok in H as ((n & r2) & [-> Hn]%ok_or_Ok%split_once_Some & H).
    apply rbind_Ok in H as ((raw & r3) & [-> Hraw]%ok_or_Ok%split_at_checked_Some & H).
    apply rbind_Ok in H as (i & [-> Hi]%map_err_Ok%from_bytes_Ok & [= <- <-]). simpl.
    exists m. replace (id_bytes (make_id f raw)) with raw by (by destruct f).
    replace (id_format (make_id f raw)) with f by (by destruct f).
    rewrite <- !app_assoc. simpl. by rewrite <- app_assoc.
  - intros (m & (Hm & Hn & Hf & Hl) & ->). rewrite <- !app_assoc. simpl. rewrite <- app_assoc. simpl.
    rewrite split_once_app by (by eapply mode_parse_no_space). simpl. rewrite Hm. simpl.
    rewrite split_once_app by done. simpl.
    assert (split_at_checked (digest_len f) (id_bytes (id e) ++ rest)
            = Some (id_bytes (id e), rest)) as -> by (by apply split_at_checked_Some).
    simpl. assert (from_bytes f (id_bytes (id e)) = Ok (id e)) as ->.
    { apply from_bytes_Ok. split; [|done]. by rewrite <- Hf, make_id_bytes. }
    simpl. by destruct e.
Qed.

Lemma record_bytes_nonempty r : record_bytes r <> [].
Proof. unfold record_bytes. destruct (r.1); done. Qed.

Lemma record_rest_length payload r rest fuel :
  payload = record_bytes r ++ rest -> (length payload <= S fuel)%nat -> (length rest <= fuel)%nat.
Proof.
  intros -> H. rewrite length_app in H. pose proof (record_bytes_nonempty r).
  destruct (record_bytes r); [done|]. simpl in H. lia.
Qed.

Lemma parse_entries_Ok fuel f payload es :
  (length payload <= fuel)%nat ->
  parse_entries fuel f payload = Ok es <->
  exists recs, Forall (record_ok f) recs /\ payload = concat (map record_bytes recs) /\ es = map snd recs.
Proof.
  revert payload es; induction fuel as [|fuel IH]; intros payload es Hfuel.
  - destruct payload; [|simpl in *; lia]. split.
    + intros [= <-]. by exists [].
    + intros ([|r recs] & _ & H & ->); [done|]. simpl in H.
      pose proof (record_bytes_nonempty r). by destruct (record_bytes r).
  - destruct payload as [|b payload]; simpl.
    { split; [intros [= <-]; by exists []|]. intros ([|r recs] & _ & H & ->); [done|].
      simpl in H. pose proof (record_bytes_nonempty r). by destruct (record_bytes r). }
    split.
    + intros ((e & rest) & (m & Hr & Hp)%parse_one_Ok & H)%rbind_Ok.
      pose proof (record_rest_length _ _ _ _ Hp Hfuel).
      apply rbind_Ok in H as (es' & (recs & Hrs & -> & ->)%IH & [= <-]); [|done].
      exists ((m, e) :: recs). split; [by constructor|]. by rewrite Hp.
    + intros ([|[m e] recs] & Hrs & Hp & ->); [done|].
      apply Forall_cons in Hrs as [Hr Hrs]. simpl in Hp. rewrite Hp.
      assert (parse_one f (record_bytes (m, e) ++ concat (map record_bytes recs)) =
              Ok (e, concat (map record_bytes recs))) as -> by (apply parse_one_Ok; eauto).
      pose proof (record_rest_length _ _ _ _ Hp Hfuel) as Hl.
      simpl. rewrite (proj2 (IH _ (map snd recs) Hl)); [done|]. eauto.
Qed.

(** The exact language of [Tree::parse].  A payload parses to [t] precisely
    when it is a concatenation of [mode SP name NUL raw-id] records whose mode
    texts denote the entries' modes, whose names are NUL-free and whose
    identities have the selected width; [t] then lists those entries in stored
    order and retains the payload byte for byte. *)
Theorem Tree_parse_language f payload t :
  Tree_parse f payload = Ok t <->
  exists recs, Forall (record_ok f) recs /\ payload = concat (map record_bytes recs) /\
    t = {| t_format := f; entries := map snd recs; original := payload |}.
Proof.
  unfold Tree_parse. rewrite rbind_Ok. split.
  - intros (es & (recs & Hr & Hp & ->)%parse_entries_Ok & [= <-]); [|done]. eauto.
  - intros (recs & Hr & Hp & ->). exists (map snd recs). split; [|done].
    apply parse_entries_Ok; [done|]. eauto.
Qed.

Definition entry_ok (f : ObjectFormat) (e : TreeEntry) : Prop :=
  0 ∉ name e /\ id_format (id e) = f /\ zlen (id_bytes (id e)) = digest_len f.

Lemma parse_encode_entries f es : Forall (entry_ok f) es ->
  Tree_parse f (encode_entries es) =
  Ok {| t_format := f; entries := es; original := encode_entries es |}.
Proof.
  intros H. unfold Tree_parse.
  rewrite (proj2 (parse_entries_Ok _ f (encode_entries es) es (le_n _))); [done|].
  exists (map (fun e => (mode_bytes (mode e), e)) es). split; [|split].
  - rewrite Forall_map. eapply Forall_impl; [exact H|]. intros e (? & ? & ?).
    unfold record_ok. simpl. rewrite mode_parse_bytes. auto.
  - unfold encode_entries. rewrite map_map. f_equal.
  - rewrite map_map. symmetry. apply map_id.
Qed.

(** * Validation and construction *)

Definition name_valid (n : bytes) : Prop :=
  n <> [] /\ 0 ∉ n /\ 47 ∉ n /\ n <> bstr "." /\ n <> bstr "..".

Lemma invalid_name_false n : invalid_name n = false <-> name_valid n.
Proof.
  unfold invalid_name, name_valid.
  rewrite !orb_false_iff, !contains_false, <- !not_true_iff_false, !bytes_eqb_eq. tauto.
Qed.

Lemma validate_names_from_Ok seen es :
  validate_names_from seen es = Ok tt <->
  Forall (fun e => name_valid (name e) /\ name e ∉ seen) es /\ NoDup (map name es).
Proof.
  revert seen; induction es as [|e es IH]; intros seen; simpl.
  - split; [|done]. intros _. split; constructor.
  - rewrite Forall_cons, NoDup_cons. destruct (invalid_name (name e)) eqn:E.
    { split; [done|]. intros [[[Hv _] _] _]. apply invalid_name_false in Hv. congruence. }
    apply invalid_name_false in E. case_decide as Hs.
    { split; [done|]. tauto. }
    rewrite IH. rewrite list_elem_of_fmap, !Forall_forall. set_solver.
Qed.

Lemma validate_names_Ok es :
  validate_names es = Ok tt <-> Forall (fun e => name_valid (name e)) es /\ NoDup (map name es).
Proof.
  unfold validate_names. rewrite validate_names_from_Ok.
  rewrite !Forall_forall. set_solver.
Qed.

Lemma require_formats_Ok f es :
  require_formats f es = Ok tt <-> Forall (fun e => id_format (id e) = f) es.
Proof.
  induction es as [|e es IH]; simpl; [by split|]. rewrite Forall_cons, <- IH.
  unfold require_format. case_decide; simpl; naive_solver.
Qed.

Lemma unit_ok {E} (r : result E unit) u : r = Ok u <-> r = Ok tt.
Proof. by destruct u. Qed.

Lemma Tree_new_Ok f es t :
  Tree_new f es = Ok t <->
  Forall (fun e => id_format (id e) = f) es /\ Forall (fun e => name_valid (name e)) es /\
  NoDup (map name es) /\
  t = {| t_format := f; entries := sort_by git_cmp es;
         original := encode_entries (sort_by git_cmp es) |}.
Proof.
  unfold Tree_new. rewrite rbind_Ok. setoid_rewrite rbind_Ok.
  split.
  - intros ([] & Hf%require_formats_Ok & [] & [Hn Hd]%validate_names_Ok & [= <-]). auto.
  - intros (Hf & Hn & Hd & ->). exists tt. rewrite require_formats_Ok. split; [done|].
    exists tt. by rewrite validate_names_Ok.
Qed.

(** ** Git's order *)

Lemma git_cmp_gt_lt a b : git_cmp a b = Gt -> git_cmp b a = Lt.
Proof. unfold git_cmp. by rewrite bytes_cmp_gt_lt. Qed.

Lemma git_cmp_eq a b : git_cmp a b = Eq -> name a = name b.
Proof. unfold git_cmp, sort_key. rewrite bytes_cmp_eq. intros H%app_inj_2; [naive_solver|done]. Qed.

Lemma bytes_cmp_le_trans a b c :
  bytes_cmp a b <> Gt -> bytes_cmp b c <> Gt -> bytes_cmp a c <> Gt.
Proof.
  intros H1 H2. destruct (bytes_cmp a b) eqn:E1; [|destruct (bytes_cmp b c) eqn:E2|]; try done.
  - apply bytes_cmp_eq in E1 as ->. done.
  - apply bytes_cmp_eq in E2 as <-. congruence.
  - rewrite (bytes_cmp_lt_trans a b c); done.
Qed.

#[global] Instance git_le_trans : Transitive (cmp_le git_cmp).
Proof. intros a b c. unfold cmp_le, git_cmp. apply bytes_cmp_le_trans. Qed.

Lemma git_le_antisym a b :
  cmp_le git_cmp a b -> cmp_le git_cmp b a -> name a = name b.
Proof.
  unfold cmp_le. intros H1 H2. apply git_cmp_eq.
  destruct (git_cmp a b) eqn:E; try done. unfold git_cmp in *.
  rewrite bytes_cmp_antisym, E in H2. done.
Qed.

Lemma NoDup_map_inj {A B} (f : A -> B) (l : list A) x y :
  NoDup (map f l) -> x ∈ l -> y ∈ l -> f x = f y -> x = y.
Proof.
  induction l as [|z l IH]; simpl; [set_solver|].
  rewrite NoDup_cons, list_elem_of_fmap. set_solver.
Qed.

(** construction is canonical: [Tree::new] depends only on the set of
    entries, not on the order in which the caller supplies them, so equal
    directories have one encoding and one identity. *)
Theorem Tree_new_order_independent f es es' :
  es ≡ₚ es' -> is_ok (Tree_new f es) = true -> Tree_new f es = Tree_new f es'.
Proof.
  intros Hp. destruct (Tree_new f es) as [t|] eqn:E; [intros _|done].
  apply Tree_new_Ok in E as (Hf & Hn & Hd & ->). symmetry.
  apply Tree_new_Ok. split; [by rewrite <- Hp|]. split; [by rewrite <- Hp|].
  split; [by rewrite <- Hp|].
  assert (sort_by git_cmp es = sort_by git_cmp es') as ->; [|done].
  eapply StronglySorted_unique_strong with (R := cmp_le git_cmp).
  - intros x y Hx Hy Hxy Hyx. rewrite sort_by_perm in Hx, Hy. rewrite <- Hp in Hy.
    eapply NoDup_map_inj; eauto using git_le_antisym.
  - apply Sorted_StronglySorted; [apply _|]. apply sort_by_Sorted, git_cmp_gt_lt.
  - apply Sorted_StronglySorted; [apply _|]. apply sort_by_Sorted, git_cmp_gt_lt.
  - by rewrite !sort_by_perm.
Qed.

(** C2: a constructed tree is valid and reads back.  When [Tree::new] accepts
    entries (with identities of the format's width), its result holds exactly
    those entries, passes [Tree::validate], and parsing its encoding returns the
    very same tree. *)
Theorem Tree_new_valid_roundtrip f es t :
  Forall (fun e => id_ok (id e)) es -> Tree_new f es = Ok t ->
  entries t ≡ₚ es /\ Tree_validate t = Ok tt /\ Tree_parse f (Tree_encode t) = Ok t.
Proof.
  intros Hid (Hf & Hn & Hd & ->)%Tree_new_Ok. simpl. pose proof (sort_by_perm git_cmp es) as Hp.
  split; [done|]. split.
  - unfold Tree_validate. simpl.
    rewrite (proj2 (validate_names_Ok _)) by (rewrite Hp; done). simpl.
    by rewrite (proj2 (is_sorted_le_Sorted _ _) (sort_by_Sorted _ git_cmp_gt_lt es)).
  - apply parse_encode_entries. rewrite Hp. rewrite !Forall_forall in *.
    intros e He. split; [by apply Hn|]. specialize (Hf e He). specialize (Hid e He) as [_ Hid].
    split; [done|]. by rewrite <- Hf.
Qed.

Definition git_lt (a b : TreeEntry) : Prop := git_cmp a b = Lt.

(** [Tree::validate] accepts exactly the trees whose names are valid
    components, pairwise different, and listed in strictly increasing Git
    order. *)
Theorem Tree_validate_iff t :
  Tree_validate t = Ok tt <->
  Forall (fun e => name_valid (name e)) (entries t) /\ NoDup (map name (entries t)) /\
  StronglySorted git_lt (entries t).
Proof.
  unfold Tree_validate. rewrite rbind_Ok. split.
  - intros ([] & [Hn Hd]%validate_names_Ok & H).
    destruct (is_sorted_le _ _) eqn:E; [|done]. apply is_sorted_le_Sorted in E.
    apply Sorted_StronglySorted in E; [|apply _]. do 2 (split; [done|]).
    clear Hn H. induction E as [|e es Hs IH He]; constructor; simpl in Hd;
      apply NoDup_cons in Hd as [Hin Hd]; [auto|].
    rewrite Forall_forall in He |- *. intros x Hx. unfold git_lt.
    specialize (He x Hx). unfold cmp_le in He. destruct (git_cmp e x) eqn:Ec; try done.
    apply git_cmp_eq in Ec. destruct Hin. rewrite Ec. by apply list_elem_of_fmap_2.
  - intros (Hn & Hd & Hs). exists tt. rewrite validate_names_Ok. split; [done|].
    rewrite (proj2 (is_sorted_le_Sorted _ _)); [done|].
    apply StronglySorted_Sorted. clear Hn Hd. induction Hs as [|e es Hs IH He]; constructor; [done|].
    eapply Forall_impl; [exact He|]. unfold git_lt, cmp_le. congruence.
Qed.

(** A concrete directory: [a] (a tree), [a.c] and [a0] sort as [a.c], [a/], [a0]. *)
Definition sample_entries : list TreeEntry :=
  [ {| mode := Tree; name := bstr "a"; id := Sha1 (replicate 20 1) |};
    {| mode := Blob; name := bstr "a0"; id := Sha1 (replicate 20 2) |};
    {| mode := Executable; name := bstr "a.c"; id := Sha1 (replicate 20 3) |} ].

Lemma Tree_new_order_independent_witness :
  Tree_new FSha1 sample_entries = Tree_new FSha1 (reverse sample_entries).
Proof.
  apply (Tree_new_order_independent FSha1 sample_entries (reverse sample_entries)).
  - symmetry. apply reverse_Permutation.
  - vm_compute. reflexivity.
Defined.

Lemma sample_id_ok n : byte_ok n -> id_ok (Sha1 (replicate 20 n)).
Proof. intros. split; [by apply Forall_replicate|reflexivity]. Qed.

Lemma sample_entries_ids : Forall (fun e => id_ok (id e)) sample_entries.
Proof. repeat (apply Forall_cons; split; [by apply sample_id_ok|]). by apply Forall_nil. Qed.

Lemma Tree_new_valid_roundtrip_witness :
  exists t, Tree_new FSha1 sample_entries = Ok t /\
    map name (entries t) = [bstr "a.c"; bstr "a"; bstr "a0"] /\ Tree_validate t = Ok tt.
Proof.
  destruct (Tree_new FSha1 sample_entries) as [t|e] eqn:E; [|vm_compute in E; discriminate].
  exists t. split; [reflexivity|]. split.
  - vm_compute in E. injection E as <-. reflexivity.
  - exact (proj1 (proj2 (Tree_new_valid_roundtrip FSha1 sample_entries t sample_entries_ids E))).
Defined.

End Trees.
