(* ===== verification/BTree.v ===== *)
(** * Ordered maps

    Rust's [BTreeMap] with byte-string keys, as a list of bindings in strictly
    increasing key order, with the operations the sources use. *)

From stdpp Require Import base list numbers strings sets sorting.
From Stdlib Require Import ZArith Lia.
From S2P Require Import Prelude.

Module BTree.

Section Map.
Context {V : Type}.

Fixpoint get (k : bytes) (m : list (bytes * V)) : option V :=
  match m with
  | [] => None
  | (k', v) :: m' => if bytes_eqb k k' then Some v else get k m'
  end.

Fixpoint insert (k : bytes) (v : V) (m : list (bytes * V)) : list (bytes * V) :=
  match m with
  | [] => [(k, v)]
  | (k', v') :: m' =>
      match bytes_cmp k k' with
      | Lt => (k, v) :: m
      | Eq => (k, v) :: m'
      | Gt => (k', v') :: insert k v m'
      end
  end.

Fixpoint remove (k : bytes) (m : list (bytes * V)) : list (bytes * V) :=
  match m with
  | [] => []
  | (k', v) :: m' => if bytes_eqb k k' then m' else (k', v) :: remove k m'
  end.

(** [range(k..)]. *)
Fixpoint range_from (k : bytes) (m : list (bytes * V)) : list (bytes * V) :=
  match m with
  | [] => []
  | (k', v) :: m' => match bytes_cmp k k' with Gt => range_from k m' | _ => m end
  end.

Fixpoint take_while (p : bytes * V -> bool) (m : list (bytes * V)) : list (bytes * V) :=
  match m with
  | [] => []
  | b :: m' => if p b then b :: take_while p m' else []
  end.

Definition key_lt (a b : bytes * V) : Prop := bytes_cmp a.1 b.1 = Lt.

(** The map's representation invariant. *)
Definition ok (m : list (bytes * V)) : Prop := StronglySorted key_lt m.

Lemma get_None_lt k m : Forall (fun b => bytes_cmp k b.1 = Lt) m -> get k m = None.
Proof.
  induction 1 as [|[k' v] m Hlt Hm IH]; simpl in *; [done|].
  destruct (bytes_eqb k k') eqn:E; [|done].
  apply bytes_eqb_eq in E as ->. by rewrite bytes_cmp_refl in Hlt.
Qed.

Lemma ok_cons b m : ok (b :: m) <-> ok m /\ Forall (key_lt b) m.
Proof. split; [inversion 1; auto|]. intros []. by constructor. Qed.

Lemma get_insert k v m k' : ok m ->
  get k' (insert k v m) = if bytes_eqb k' k then Some v else get k' m.
Proof.
  induction m as [|[k1 v1] m IH]; intros Hm; simpl; [done|].
  apply ok_cons in Hm as [Hm Hlt]. destruct (bytes_cmp k k1) eqn:E; simpl.
  - apply bytes_cmp_eq in E as <-. by destruct (bytes_eqb k' k).
  - done.
  - rewrite IH by done. destruct (bytes_eqb k' k1) eqn:E1, (bytes_eqb k' k) eqn:E2; try done.
    apply bytes_eqb_eq in E1, E2. subst. by rewrite bytes_cmp_refl in E.
Qed.

Lemma insert_keys k v m b : b ∈ insert k v m -> b = (k, v) \/ b ∈ m.
Proof.
  induction m as [|[k1 v1] m IH]; simpl; [set_solver|].
  destruct (bytes_cmp k k1); set_solver.
Qed.

Lemma ok_insert k v m : ok m -> ok (insert k v m).
Proof.
  induction m as [|[k1 v1] m IH]; intros Hm; simpl.
  - apply ok_cons. split; constructor.
  - pose proof Hm as [Hm' Hlt]%ok_cons. destruct (bytes_cmp k k1) eqn:E.
    + apply bytes_cmp_eq in E as <-. apply ok_cons. auto.
    + apply ok_cons. split; [done|]. constructor; [done|].
      eapply Forall_impl; [exact Hlt|]. intros [k2 v2]. unfold key_lt. simpl.
      by apply bytes_cmp_lt_trans.
    + apply ok_cons. split; [auto|]. apply Forall_forall. intros b Hb.
      apply insert_keys in Hb as [-> | Hb].
      * unfold key_lt. simpl. by apply bytes_cmp_gt_lt.
      * rewrite Forall_forall in Hlt. auto.
Qed.

Lemma remove_sub k m b : b ∈ remove k m -> b ∈ m.
Proof. induction m as [|[k1 v1] m IH]; simpl; [done|]. destruct (bytes_eqb k k1); set_solver. Qed.

Lemma ok_remove k m : ok m -> ok (remove k m).
Proof.
  induction m as [|[k1 v1] m IH]; intros Hm; simpl; [done|].
  apply ok_cons in Hm as [Hm Hlt]. destruct (bytes_eqb k k1); [done|].
  apply ok_cons. split; [auto|]. rewrite Forall_forall in Hlt |- *. eauto using remove_sub.
Qed.

Lemma get_remove k m k' : ok m ->
  get k' (remove k m) = if bytes_eqb k' k then None else get k' m.
Proof.
  induction m as [|[k1 v1] m IH]; intros Hm; simpl; [by destruct (bytes_eqb k' k)|].
  apply ok_cons in Hm as [Hm Hlt]. destruct (bytes_eqb k k1) eqn:E.
  - apply bytes_eqb_eq in E as <-. destruct (bytes_eqb k' k) eqn:E'; [|done].
    apply bytes_eqb_eq in E' as ->. by apply get_None_lt.
  - simpl. rewrite IH by done. destruct (bytes_eqb k' k1) eqn:E1, (bytes_eqb k' k) eqn:E2; try done.
    apply bytes_eqb_eq in E1, E2. subst. by rewrite bytes_eqb_refl in E.
Qed.

Lemma get_elem k v m : ok m -> get k m = Some v <-> (k, v) ∈ m.
Proof.
  induction m as [|[k1 v1] m IH]; intros Hm; simpl; [set_solver|].
  apply ok_cons in Hm as [Hm Hlt]. rewrite elem_of_cons. destruct (bytes_eqb k k1) eqn:E.
  - apply bytes_eqb_eq in E as <-. split; [intros [= ->]; auto|].
    intros [[= ->]|Hin]; [done|]. rewrite Forall_forall in Hlt. apply Hlt in Hin.
    unfold key_lt in Hin. simpl in Hin. by rewrite bytes_cmp_refl in Hin.
  - rewrite IH by done. split; [auto|]. intros [[= -> ->]|]; [|done].
    by rewrite bytes_eqb_refl in E.
Qed.

Lemma range_from_elem k m b : ok m ->
  b ∈ range_from k m <-> b ∈ m /\ bytes_cmp k b.1 <> Gt.
Proof.
  induction m as [|[k1 v1] m IH]; intros Hm; simpl; [set_solver|].
  pose proof Hm as [Hm' Hlt]%ok_cons.
  assert (bytes_cmp k k1 <> Gt -> forall b, b ∈ m -> bytes_cmp k b.1 <> Gt) as HX.
  { intros H1 b' Hb'. rewrite Forall_forall in Hlt. apply Hlt in Hb'. unfold key_lt in Hb'. simpl in Hb'.
    destruct (bytes_cmp k k1) eqn:E; [|by rewrite (bytes_cmp_lt_trans _ _ _ E Hb')|done].
    apply bytes_cmp_eq in E as ->. congruence. }
  destruct (bytes_cmp k k1) eqn:E; rewrite ?IH by done; rewrite elem_of_cons.
  1,2: split; [|tauto]; intros [-> | Hb]; (split; [auto|]); [simpl; congruence|apply HX; done].
  split; [tauto|]. intros [[-> | ?] ?]; [done|auto].
Qed.

Lemma ok_range_from k m : ok m -> ok (range_from k m).
Proof.
  induction m as [|[k1 v1] m IH]; intros Hm; simpl; [done|].
  destruct (bytes_cmp k k1); try done. apply ok_cons in Hm as [? _]. auto.
Qed.

(** In a sorted map from [p] on, the keys that start with [p] come first. *)
Lemma starts_with_between p a b :
  bytes_cmp p a <> Gt -> bytes_cmp a b = Lt -> starts_with p b = true -> starts_with p a = true.
Proof.
  rewrite !starts_with_true. intros Hpa Hab [r ->].
  revert a Hpa Hab; induction p as [|x p IH]; intros a Hpa Hab; [by exists a|].
  destruct a as [|y a]; simpl in *; [done|].
  destruct (Z.compare_spec x y), (Z.compare_spec y x); try done; try lia. subst.
  destruct (IH a) as [r' ->]; [done..|]. by exists r'.
Qed.

Lemma take_while_prefix p m b : ok m -> Forall (fun b => bytes_cmp p b.1 <> Gt) m ->
  b ∈ take_while (fun b => starts_with p b.1) m <-> b ∈ m /\ starts_with p b.1 = true.
Proof.
  induction m as [|b1 m IH]; intros Hm Hp; simpl; [set_solver|].
  apply ok_cons in Hm as [Hm Hlt]. apply Forall_cons in Hp as [Hp1 Hp].
  destruct (starts_with p b1.1) eqn:E.
  - rewrite !elem_of_cons, IH by done. naive_solver.
  - split; [set_solver|]. intros [Hin Hs]. exfalso.
    apply elem_of_cons in Hin as [-> | Hin]; [congruence|].
    rewrite Forall_forall in Hlt. apply Hlt in Hin.
    rewrite (starts_with_between p b1.1 b.1) in E; done.
Qed.

(** The keys found by [range(p..).take_while(starts_with(p))] are exactly the
    keys with prefix [p]. *)
Lemma prefix_scan p m b : ok m ->
  b ∈ take_while (fun b => starts_with p b.1) (range_from p m) <->
  b ∈ m /\ starts_with p b.1 = true.
Proof.
  intros Hm. rewrite take_while_prefix.
  - rewrite range_from_elem by done. split; [naive_solver|]. intros [? Hs].
    split; [split; [done|]|done]. apply starts_with_true in Hs as [r ->].
    rewrite <- (app_nil_r p) at 1. rewrite bytes_cmp_app. by destruct r.
  - by apply ok_range_from.
  - apply Forall_forall. intros x Hx. apply range_from_elem in Hx; [naive_solver|done].
Qed.

Lemma get_remove_all ks m k : ok m ->
  get k (foldl (fun m k => remove k m) m ks) =
  if bool_decide (k ∈ ks) then None else get k m.
Proof.
  revert m; induction ks as [|k1 ks IH]; intros m Hm; simpl; [done|].
  rewrite IH, get_remove by auto using ok_remove.
  destruct (bytes_eqb k k1) eqn:E.
  - apply bytes_eqb_eq in E as ->. rewrite (bool_decide_eq_true_2 (k1 ∈ k1 :: ks)) by set_solver.
    by case_bool_decide.
  - assert (k <> k1) by (intros ->; by rewrite bytes_eqb_refl in E).
    case_bool_decide; case_bool_decide; try done; set_solver.
Qed.

Lemma ok_remove_all ks m : ok m -> ok (foldl (fun m k => remove k m) m ks).
Proof. revert m; induction ks; intros m Hm; simpl; auto using ok_remove. Qed.

(** Two maps with the same bindings are equal. *)
Lemma ok_ext m1 m2 : ok m1 -> ok m2 -> (forall k, get k m1 = get k m2) -> m1 = m2.
Proof.
  revert m2. induction m1 as [|[k1 v1] m1 IH]; intros [|[k2 v2] m2] H1 H2 Hg; [done|specialize (Hg k2)|specialize (Hg k1)|]; simpl in *; [by rewrite bytes_eqb_refl in Hg..|].
  pose proof H1 as [H1' L1]%ok_cons. pose proof H2 as [H2' L2]%ok_cons. assert (k1 = k2) as <-.
  { pose proof (Hg k1) as G1. pose proof (Hg k2) as G2. rewrite bytes_eqb_refl in G1, G2. destruct (bytes_cmp k1 k2) eqn:E; [by apply bytes_cmp_eq in E| |].
    - assert (bytes_eqb k1 k2 = false) as Hne by (apply not_true_iff_false; rewrite bytes_eqb_eq; intros ->; by rewrite bytes_cmp_refl in E). rewrite Hne in G1.
      rewrite (get_None_lt k1 m2) in G1; [done|]. eapply Forall_impl; [exact L2|]. intros b Hb. by eapply bytes_cmp_lt_trans.
    - apply bytes_cmp_gt_lt in E. assert (bytes_eqb k2 k1 = false) as Hne by (apply not_true_iff_false; rewrite bytes_eqb_eq; intros ->; by rewrite bytes_cmp_refl in E). rewrite Hne in G2.
      rewrite (get_None_lt k2 m1) in G2; [done|]. eapply Forall_impl; [exact L1|]. intros b Hb. by eapply bytes_cmp_lt_trans. }
  pose proof (Hg k1) as G1. rewrite bytes_eqb_refl in G1. injection G1 as <-. f_equal. apply IH; [done..|]. intros k. specialize (Hg k). destruct (bytes_eqb k k1) eqn:E; [|done].
  apply bytes_eqb_eq in E as ->. by rewrite !get_None_lt.
Qed.

Lemma remove_insert k v m : ok m -> remove k (insert k v m) = remove k m.
Proof.
  intros Hm. apply ok_ext; [by apply ok_remove, ok_insert|by apply ok_remove|]. intros k'. rewrite !get_remove, get_insert by auto using ok_insert. by destruct (bytes_eqb k' k).
Qed.

Lemma remove_insert_ne k k' v m : ok m -> k <> k' -> remove k (insert k' v m) = insert k' v (remove k m).
Proof.
  intros Hm Hne. apply ok_ext; [by apply ok_remove, ok_insert|by apply ok_insert, ok_remove|]. intros x. rewrite get_remove, !get_insert, get_remove by auto using ok_insert, ok_remove.
  destruct (bytes_eqb x k) eqn:E1, (bytes_eqb x k') eqn:E2; try done. apply bytes_eqb_eq in E1, E2. congruence.
Qed.
End Map.
End BTree.
