(* ===== verification/TreeEditor.v ===== *)
(** * Path-based tree editing ([src/src/tree/editor.rs])

    The editor keeps an ordered map from full paths to values.  Edits are state
    transformers that keep the state they had when they fail.  The bottom-up
    [write] of the edited snapshot is not modelled here. *)

From stdpp Require Import base list numbers strings sets sorting.
From Stdlib Require Import ZArith Lia.
From S2P Require Import Prelude Bytes Objects Trees BTree.

Module TreeEditor.
Import Bytes Objects Trees.

Record TreeValue := { v_mode : EntryMode; v_id : ObjectId }.

Inductive TreeWriteError :=
| WriteTree (e : TreeError)
| StoredSubtree (path : bytes).

Abbreviation editor := (list (bytes * TreeValue)).

(** [split_path]: parent and last component. *)
Definition split_path (path : bytes) : bytes * bytes :=
  match rposition (fun byte => byte =? 47) path with
  | Some index =>
      let parent := take index path in
      let suffix := drop index path in
      (parent, default [] (strip_prefix (bstr "/") suffix))
  | None => ([], path)
  end.

Definition invalid_component (n : bytes) : bool :=
  bytes_eqb n [] || contains 0 n || bytes_eqb n (bstr ".") || bytes_eqb n (bstr "..").

(** [validate_path]. *)
Definition validate_path (path : bytes) : result TreeWriteError unit :=
  if existsb invalid_component (split_on 47 path) then Err (WriteTree InvalidName) else Ok tt.

(** The values of [ancestor] in [while !ancestor.is_empty()]: the successive
    parents, deepest first.  Each is shorter than the path. *)
Fixpoint ancestors_from (fuel : nat) (ancestor : bytes) : list bytes :=
  match fuel, ancestor with
  | _, [] => []
  | O, _ => []
  | S fuel', _ => ancestor :: ancestors_from fuel' (split_path ancestor).1
  end.
Definition ancestors (path : bytes) : list bytes :=
  ancestors_from (length path) (split_path path).1.

(** [check_ancestors]: the deepest stored subtree above the path. *)
Fixpoint check_ancestors (m : editor) (l : list bytes) : result TreeWriteError unit :=
  match l with
  | [] => Ok tt
  | a :: rest =>
      match BTree.get a m with
      | Some value => if decide (v_mode value = Tree) then Err (StoredSubtree a)
                      else check_ancestors m rest
      | None => check_ancestors m rest
      end
  end.

(** [remove_subtree]: the path and every key below it. *)
Definition remove_subtree (path : bytes) (m : editor) : editor :=
  let m1 := BTree.remove path m in
  let prefix := path ++ bstr "/" in
  let descendants :=
    map fst (BTree.take_while (fun b => starts_with prefix b.1) (BTree.range_from prefix m1)) in
  foldl (fun m k => BTree.remove k m) m1 descendants.

(** [set_entry]; [f] is the object database's format. *)
Definition set_entry (f : ObjectFormat) (path : bytes) (value : TreeValue)
    : SE editor TreeWriteError unit :=
  let! _ := se_lift (validate_path path) in
  let! _ := se_lift (map_err (fun e => WriteTree (TreeObjectFormat e))
                             (require_format (v_id value) f)) in
  let! m := se_get in
  let! _ := se_lift (check_ancestors m (ancestors path)) in
  let! _ := se_put (remove_subtree path m) in
  let! m := se_get in
  let! _ := se_put (foldl (fun m k => BTree.remove k m) m (ancestors path)) in
  let! m := se_get in
  se_put (BTree.insert path value m).

(** [set]: a regular blob. *)
Definition set_blob (f : ObjectFormat) (path : bytes) (blob : ObjectId)
    : SE editor TreeWriteError unit :=
  set_entry f path {| v_mode := Blob; v_id := blob |}.

(** [remove]. *)
Definition remove (path : bytes) : SE editor TreeWriteError unit :=
  let! _ := se_lift (validate_path path) in
  let! m := se_get in
  let! _ := se_lift (check_ancestors m (ancestors path)) in
  se_put (remove_subtree path m).

(** * Paths *)

Definition below (a path : bytes) : Prop := exists rest, path = a ++ 47 :: rest.
Definition valid_path (path : bytes) : Prop := validate_path path = Ok tt.

Lemma valid_path_head path : valid_path path -> path <> [] /\ forall r, path <> 47 :: r.
Proof.
  unfold valid_path, validate_path. intros H.
  destruct (existsb _ _) eqn:E; [done|]. split.
  - intros ->. done.
  - intros r ->. done.
Qed.

Lemma split_path_spec path :
  (exists s, path = (split_path path).1 ++ 47 :: s /\ 47 ∉ s /\ (split_path path).2 = s) \/
  (47 ∉ path /\ split_path path = ([], path)).
Proof.
  unfold split_path. destruct (rposition _ path) as [i|] eqn:E.
  - left. apply rposition_Some in E as (a & x & b & -> & <- & Hx%Z.eqb_eq & Hb). subst x.
    exists b. rewrite take_app_length, drop_app_length.
    rewrite (strip_prefix_app (bstr "/") b : strip_prefix (bstr "/") (47 :: b) = Some b). simpl.
    by rewrite <- neq_Forall.
  - right. apply rposition_None in E. by rewrite <- neq_Forall.
Qed.

Lemma below_split a p s : 47 ∉ s -> below a (p ++ 47 :: s) <-> a = p \/ below a p.
Proof.
  intros Hs. unfold below. split.
  - intros [rest H].
    apply app_eq_app in H as [l [[-> H]|[-> H]]]; destruct l as [|x l]; simplify_eq/=.
    + left. by rewrite app_nil_r.
    + right. by exists l.
    + left. by rewrite app_nil_r.
    + set_solver.
  - intros [-> | [rest ->]]; [by exists s|]. exists (rest ++ 47 :: s). by rewrite <- app_assoc.
Qed.

Lemma ancestors_from_spec fuel p a :
  (length p <= fuel)%nat -> (forall r, p <> 47 :: r) ->
  a ∈ ancestors_from fuel p <-> p <> [] /\ (a = p \/ below a p).
Proof.
  revert p; induction fuel as [|fuel IH]; intros p Hlen Hp.
  - destruct p; [|simpl in *; lia]. simpl. set_solver.
  - destruct p as [|x p]; [simpl; set_solver|]. set (q := x :: p) in *.
    change (ancestors_from (S fuel) q) with (q :: ancestors_from fuel (split_path q).1).
    rewrite elem_of_cons. destruct (split_path_spec q) as [(s & Hq & Hs & _)|[Hq Hsp]].
    + assert (below a q <-> a = (split_path q).1 \/ below a (split_path q).1) as ->.
      { rewrite <- (below_split _ _ s) by done. by rewrite <- Hq. }
      assert ((split_path q).1 <> []) as Hne.
      { intros E. rewrite E in Hq. by apply (Hp s). }
      rewrite IH.
      * naive_solver.
      * apply (f_equal length) in Hq. rewrite length_app in Hq. simpl in Hq, Hlen. lia.
      * intros r Hr. apply (Hp (r ++ 47 :: s)). rewrite Hq, Hr. done.
    + rewrite Hsp. simpl. destruct fuel; simpl.
      all: split; [intros [-> | ?]; [split; [done|by left]|set_solver]|]; intros [_ [-> | [rest Hr]]]; [auto|].
      all: rewrite Hr in Hq; set_solver.
Qed.

Lemma below_irrefl a b : below a b -> a <> b.
Proof.
  intros [r Hr] ->. apply (f_equal length) in Hr. rewrite length_app in Hr. simpl in Hr. lia.
Qed.

Lemma ancestors_spec path a : valid_path path -> a ∈ ancestors path <-> below a path.
Proof.
  intros [Hne Hslash]%valid_path_head. unfold ancestors.
  destruct (split_path_spec path) as [(s & Hq & Hs & _)|[Hq Hsp]].
  - rewrite ancestors_from_spec.
    + rewrite Hq at 4. rewrite below_split by done. split; [naive_solver|].
      intros H. split; [|done]. intros E. rewrite E in Hq. by apply (Hslash s).
    + apply (f_equal length) in Hq. rewrite length_app in Hq. simpl in Hq. lia.
    + intros r Hr. apply (Hslash (r ++ 47 :: s)). rewrite Hq, Hr. done.
  - rewrite Hsp. simpl. destruct path; simpl; [done|]. split; [set_solver|].
    intros [rest Hr]. rewrite Hr in Hq. set_solver.
Qed.

Lemma check_ancestors_Ok m l :
  check_ancestors m l = Ok tt <->
  forall a v, a ∈ l -> BTree.get a m = Some v -> v_mode v <> Tree.
Proof.
  induction l as [|a l IH]; simpl; [set_solver|]. destruct (BTree.get a m) as [v|] eqn:E.
  - case_decide as Hv.
    + split; [done|]. intros H. exfalso. apply (H a v); set_solver.
    + rewrite IH. split; [|set_solver]. intros H a' v' [-> |Hin]%elem_of_cons Hg; [congruence|eauto].
  - rewrite IH. split; [|set_solver]. intros H a' v' [-> |Hin]%elem_of_cons Hg; [congruence|eauto].
Qed.

Lemma starts_with_below p k : starts_with (p ++ bstr "/") k = true <-> below p k.
Proof.
  rewrite starts_with_true. unfold below. split; intros [r ->]; exists r; by rewrite <- app_assoc.
Qed.

(** ** Removing a subtree *)

Lemma remove_subtree_get path m k : BTree.ok m ->
  BTree.get k (remove_subtree path m) =
  if bool_decide (k = path) || starts_with (path ++ bstr "/") k then None else BTree.get k m.
Proof.
  intros Hm. unfold remove_subtree. pose proof (BTree.ok_remove path m Hm) as Hm1.
  rewrite BTree.get_remove_all by done. rewrite BTree.get_remove by done.
  destruct (bytes_eqb k path) eqn:E.
  { apply bytes_eqb_eq in E as ->. rewrite (bool_decide_eq_true_2 (path = path)) by done. simpl.
    by case_bool_decide. }
  assert (k <> path) as Hne by (intros ->; by rewrite bytes_eqb_refl in E).
  rewrite (bool_decide_eq_false_2 (k = path)) by done. simpl.
  case_bool_decide as Hin.
  - apply list_elem_of_fmap in Hin as ([k' v] & -> & Hin).
    apply BTree.prefix_scan in Hin as [_ ->]; done.
  - destruct (starts_with _ k) eqn:Es; [|done].
    destruct (BTree.get k m) as [v|] eqn:Eg; [|done]. destruct Hin.
    apply list_elem_of_fmap. exists (k, v). split; [done|]. apply BTree.prefix_scan; [done|].
    split; [|done]. apply BTree.get_elem; [done|]. by rewrite BTree.get_remove, E.
Qed.

Lemma ok_remove_subtree path m : BTree.ok m -> BTree.ok (remove_subtree path m).
Proof. intros. by apply BTree.ok_remove_all, BTree.ok_remove. Qed.

(** * Edits *)

(** The editor's invariant: an ordered map of valid paths in which no path is
    an ancestor of another. *)
Definition editor_ok (m : editor) : Prop :=
  BTree.ok m /\
  (forall k v, BTree.get k m = Some v -> valid_path k) /\
  (forall k k' v v', BTree.get k m = Some v -> BTree.get k' m = Some v' -> ~ below k k').

Definition related (k path : bytes) : Prop := below k path \/ below path k.

(** What an accepted [set_entry] did. *)
Lemma set_entry_Ok f path v m u m' :
  set_entry f path v m = (Ok u, m') ->
  valid_path path /\ id_format (v_id v) = f /\ check_ancestors m (ancestors path) = Ok tt /\
  m' = BTree.insert path v
         (foldl (fun m k => BTree.remove k m) (remove_subtree path m) (ancestors path)).
Proof.
  unfold set_entry, se_bind, se_lift, se_get, se_put, map_err, require_format.
  unfold valid_path. destruct (validate_path path) as [[]|]; [|done].
  case_decide; [|done]. destruct (check_ancestors m _) as [[]|]; [|done].
  intros [= <- <-]. auto.
Qed.

Lemma set_entry_effect f path value m m' k :
  BTree.ok m -> set_entry f path value m = (Ok tt, m') ->
  (k = path -> BTree.get k m' = Some value) /\
  (related k path -> BTree.get k m' = None) /\
  (k <> path -> ~ related k path -> BTree.get k m' = BTree.get k m).
Proof.
  intros Hm (Hv & Hf & Hc & ->)%set_entry_Ok.
  pose proof (ok_remove_subtree path m Hm) as H1.
  rewrite BTree.get_insert by (by apply BTree.ok_remove_all).
  rewrite BTree.get_remove_all, remove_subtree_get by done.
  split; [intros ->; by rewrite bytes_eqb_refl|].
  split.
  - intros Hr. assert (k <> path) as Hne.
    { destruct Hr as [Hr|Hr]; apply below_irrefl in Hr; congruence. }
    destruct (bytes_eqb k path) eqn:E; [by apply bytes_eqb_eq in E|].
    case_bool_decide as Hb; [done|]. rewrite ancestors_spec in Hb by done.
    destruct Hr as [Hr|Hr]; [done|].
    rewrite (proj2 (starts_with_below path k) Hr), orb_true_r. done.
  - intros Hne Hr. destruct (bytes_eqb k path) eqn:E; [by apply bytes_eqb_eq in E|].
    rewrite bool_decide_eq_false_2 by (rewrite ancestors_spec by done; intros ?; apply Hr; by left).
    rewrite bool_decide_eq_false_2 by done.
    destruct (starts_with _ k) eqn:Es; [|done]. apply starts_with_below in Es.
    destruct Hr. by right.
Qed.

(** The effect of an accepted edit.  After [set_entry] stores [value] at
    [path], looking up [path] gives [value]; every ancestor and every descendant
    of [path] is gone; every other key is untouched. *)
Theorem set_entry_lookup f path value m m' k :
  BTree.ok m -> set_entry f path value m = (Ok tt, m') ->
  (k = path -> BTree.get k m' = Some value) /\
  (related k path -> BTree.get k m' = None) /\
  (k <> path -> ~ related k path -> BTree.get k m' = BTree.get k m).
Proof. apply set_entry_effect. Qed.

(** [below] is decidable, so a key is the path, related to it, or neither. *)
Lemma related_cases k path : k = path \/ related k path \/ (k <> path /\ ~ related k path).
Proof.
  destruct (decide (k = path)) as [-> |Hne]; [auto|].
  destruct (starts_with (k ++ bstr "/") path) eqn:E1;
    [apply starts_with_below in E1; unfold related; auto|].
  destruct (starts_with (path ++ bstr "/") k) eqn:E2;
    [apply starts_with_below in E2; unfold related; auto|].
  right; right. split; [done|]. intros [H|H]; apply starts_with_below in H; congruence.
Qed.

Lemma set_entry_ok f path value m u m' :
  editor_ok m -> set_entry f path value m = (Ok u, m') -> editor_ok m'.
Proof.
  intros (Hm & Hval & Hfree) H. destruct u. pose proof H as (Hv & Hf & Hc & E)%set_entry_Ok.
  assert (forall k, k = path \/ (BTree.get k m' = None) \/
            (~ related k path /\ BTree.get k m' = BTree.get k m)) as Hcase.
  { intros k. destruct (set_entry_effect _ _ _ _ _ k Hm H) as (H1 & H2 & H3).
    destruct (related_cases k path) as [? |[? |[? ?]]]; auto. }
  split; [|split].
  - rewrite E. by apply BTree.ok_insert, BTree.ok_remove_all, ok_remove_subtree.
  - intros k v Hk. destruct (Hcase k) as [-> |[Hn|[_ Hn]]]; [done|congruence|].
    rewrite Hn in Hk. eauto.
  - intros k k' v v' Hk Hk' Hb.
    destruct (Hcase k) as [-> |[Hn|[Hr Hn]]]; [|congruence|];
    destruct (Hcase k') as [-> |[Hn'|[Hr' Hn']]]; try congruence.
    + by apply below_irrefl in Hb.
    + apply Hr'. by right.
    + apply Hr. by left.
    + rewrite Hn in Hk. rewrite Hn' in Hk'. by apply (Hfree k k' v v').
Qed.

Lemma remove_Ok path m u m' :
  remove path m = (Ok u, m') -> valid_path path /\ m' = remove_subtree path m.
Proof.
  unfold remove, se_bind, se_lift, se_get, se_put, valid_path.
  destruct (validate_path path) as [[]|]; [|done].
  destruct (check_ancestors m _) as [[]|]; [|done]. intros [= _ <-]. auto.
Qed.

Lemma remove_ok path m u m' : editor_ok m -> remove path m = (Ok u, m') -> editor_ok m'.
Proof.
  intros (Hm & Hval & Hfree) [Hv ->]%remove_Ok.
  assert (forall k v, BTree.get k (remove_subtree path m) = Some v -> BTree.get k m = Some v) as Hsub.
  { intros k v. rewrite remove_subtree_get by done. by destruct (_ || _). }
  split; [by apply ok_remove_subtree|]. split; [eauto|].
  intros k k' v v' Hk Hk'. apply (Hfree k k' v v'); auto.
Qed.

(** The edits of a session, failures included. *)
Inductive edit :=
| ESet (path : bytes) (value : TreeValue)
| ERemove (path : bytes).

Definition run_edit (f : ObjectFormat) (e : edit) : SE editor TreeWriteError unit :=
  match e with
  | ESet path value => set_entry f path value
  | ERemove path => remove path
  end.

Lemma failed_edit_same f e m err m' :
  run_edit f e m = (Err err, m') -> m' = m.
Proof.
  destruct e as [path value|path]; simpl;
    unfold set_entry, remove, se_bind, se_lift, se_get, se_put, map_err;
    destruct (validate_path path) as [[]|]; try (intros; congruence).
  - destruct (require_format _ f) as [[]|]; [|congruence].
    destruct (check_ancestors m _) as [[]|]; congruence.
  - destruct (check_ancestors m _) as [[]|]; congruence.
Qed.

(** A failed edit leaves the editor exactly as it was. *)
Theorem failed_edit_unchanged f e m err m' :
  run_edit f e m = (Err err, m') -> m' = m.
Proof. apply failed_edit_same. Qed.

Inductive reachable (f : ObjectFormat) : editor -> Prop :=
| reach_new : reachable f []
| reach_edit e m r m' : reachable f m -> run_edit f e m = (r, m') -> reachable f m'.

(** C4: every editor reachable from the empty one by any sequence of edits,
    successful or failed, is an ordered map of valid paths in which no path lies
    below another: the edited snapshot never has a file and a directory of the
    same name. *)
Theorem reachable_editor_ok f m : reachable f m -> editor_ok m.
Proof.
  induction 1 as [|e m r m' Hr IH He].
  - split; [constructor|]. split; intros; discriminate.
  - destruct r as [u|err]; [|by apply failed_edit_same in He as ->].
    destruct e; simpl in He; eauto using set_entry_ok, remove_ok.
Qed.

(** ** Witnesses *)

Definition sample_value : TreeValue := {| v_mode := Blob; v_id := Sha1 (replicate 20 7) |}.
Definition sample_editor : editor :=
  (set_entry FSha1 (bstr "a/b") sample_value (set_entry FSha1 (bstr "a/c") sample_value []).2).2.

Lemma sample_editor_ok : BTree.ok sample_editor.
Proof. repeat constructor. Qed.

Lemma set_entry_lookup_witness :
  exists m', set_entry FSha1 (bstr "a") sample_value sample_editor = (Ok tt, m') /\
    BTree.get (bstr "a") m' = Some sample_value /\ BTree.get (bstr "a/b") m' = None.
Proof.
  destruct (set_entry FSha1 (bstr "a") sample_value sample_editor) as [[[]|e] m'] eqn:E;
    [|vm_compute in E; discriminate].
  exists m'. split; [reflexivity|]. split.
  - apply (proj1 (set_entry_lookup FSha1 (bstr "a") sample_value sample_editor m' (bstr "a")
      sample_editor_ok E)). reflexivity.
  - apply (proj1 (proj2 (set_entry_lookup FSha1 (bstr "a") sample_value sample_editor m' (bstr "a/b")
      sample_editor_ok E))). right. exists (bstr "b"). reflexivity.
Defined.

Lemma failed_edit_unchanged_witness :
  run_edit FSha1 (ERemove (bstr "a//b")) sample_editor =
    (Err (WriteTree InvalidName), sample_editor) /\ sample_editor = sample_editor.
Proof.
  split; [reflexivity|].
  apply (failed_edit_unchanged FSha1 (ERemove (bstr "a//b")) sample_editor (WriteTree InvalidName)).
  reflexivity.
Defined.

Lemma reachable_editor_ok_witness : editor_ok sample_editor.
Proof.
  apply (reachable_editor_ok FSha1).
  apply (reach_edit _ (ESet (bstr "a/b") sample_value)
           ((set_entry FSha1 (bstr "a/c") sample_value []).2) (Ok tt)); [|reflexivity].
  apply (reach_edit _ (ESet (bstr "a/c") sample_value) [] (Ok tt)); [apply reach_new|reflexivity].
Defined.

End TreeEditor.
