(* ===== verification/Delta.v ===== *)
(** * Delta programs ([src/src/pack/delta.rs], [src/src/pack/compression.rs])

    The checked delta interpreter that rebuilds packed objects, and the bounded
    delta encoder that writes them. *)

From stdpp Require Import base list numbers strings sets.
From Stdlib Require Import ZArith Lia.
From S2P Require Import Prelude.

(** The constructors of [ObjectReadError] that pack decoding returns. *)
Inductive ReadError :=
| Corrupt (reason : string)
| Limit (resource : string)
| IndexVersion (version : Z).

Module Delta.

(** ** Decoder *)

Definition byte (input : bytes) : result ReadError (Z * bytes) :=
  match input with
  | [] => Err (Corrupt "truncated delta or entry")
  | value :: tail => Ok (value, tail)
  end.

(** The loop of [size] while [more]; every round consumes one byte. *)
Fixpoint size_loop (input : bytes) (value shift : Z) : result ReadError (Z * bytes) :=
  match input with
  | [] => Err (Corrupt "truncated delta or entry")
  | next :: tail =>
      let part := Z.land next 0x7f in
      if (64 <=? shift) || (Z.shiftr usize_max shift <? part)
      then Err (Corrupt "size overflow")
      else
        let value := Z.lor value (Z.shiftl part shift) in
        if Z.land next 0x80 =? 0 then Ok (value, tail)
        else size_loop tail value (shift + 7)
  end.
Definition size (input : bytes) (value shift : Z) (more : bool) : result ReadError (Z * bytes) :=
  if more then size_loop input value shift else Ok (value, input).

Definition charge (n : Z) : SE Z ReadError unit :=
  fun remaining =>
    match checked_sub remaining n with
    | Some r => (Ok tt, r)
    | None => (Err (Limit "cumulative decode bytes"), remaining)
    end.

(** [for bit in 0..count]: the operand bytes selected by the instruction. *)
Fixpoint operand (count : nat) (mask bit instruction : Z) (program : bytes) (value : Z)
    : result ReadError (Z * bytes) :=
  match count with
  | O => Ok (value, program)
  | S count' =>
      if Z.land instruction (Z.shiftl mask bit) =? 0
      then operand count' mask (bit + 1) instruction program value
      else
        let? (b, program) := byte program in
        operand count' mask (bit + 1) instruction program (Z.lor value (Z.shiftl b (bit * 8)))
  end.

(** One instruction: the bytes it produces and the rest of the program. *)
Definition instruction_source (base : bytes) (instruction : Z) (program : bytes)
    : result ReadError (bytes * bytes) :=
  if Z.land instruction 0x80 =? 0 then
    if instruction =? 0 then Err (Corrupt "reserved delta instruction")
    else ok_or (split_at_checked instruction program) (Corrupt "truncated delta insertion")
  else
    let? (offset, program) := operand 4 1 0 instruction program 0 in
    let? (length, program) := operand 3 0x10 0 instruction program 0 in
    let length := if length =? 0 then 65536 else length in
    let? end_ := ok_or (checked_add offset length) (Corrupt "delta copy overflow") in
    let? copied := ok_or (slice offset end_ base) (Corrupt "delta copy outside base") in
    Ok (copied, program).

(** [while !program.is_empty()]; an instruction consumes at least one byte. *)
Fixpoint apply_loop (fuel : nat) (base : bytes) (result_size : Z) (program res : bytes)
    : result ReadError bytes :=
  match program with
  | [] => Ok res
  | instruction :: program' =>
      match fuel with
      | O => Err (Corrupt "out of fuel")
      | S fuel' =>
          let? (source, rest) := instruction_source base instruction program' in
          if saturating_sub result_size (zlen res) <? zlen source
          then Err (Corrupt "delta exceeds result size")
          else apply_loop fuel' base result_size rest (res ++ source)
      end
  end.

(** [apply]: the state is the caller's [remaining] budget. *)
Definition apply (base program : bytes) (max_size : Z) : SE Z ReadError bytes :=
  let! (base_size, program) := se_lift (size program 0 0 true) in
  if negb (base_size =? zlen base) then se_fail (Corrupt "delta base size")
  else
    let! (result_size, program) := se_lift (size program 0 0 true) in
    if max_size <? result_size then se_fail (Limit "object bytes")
    else
      let! _ := charge result_size in
      let! res := se_lift (apply_loop (length program) base result_size program []) in
      if negb (zlen res =? result_size) then se_fail (Corrupt "delta result size")
      else se_ret res.

(** ** Encoder *)

(** [size] of the encoder: seven bits per byte, low group first.  Ten groups
    hold any [usize]. *)
Fixpoint put_size_loop (fuel : nat) (value : Z) : bytes :=
  match fuel with
  | O => []
  | S fuel' =>
      if 128 <=? value
      then Z.lor (Z.land (wrap8 value) 127) 128 :: put_size_loop fuel' (Z.shiftr value 7)
      else [wrap8 value]
  end.
Definition put_size (value : Z) : bytes := put_size_loop 10 value.

(** [insert]: literal runs of at most 127 bytes. *)
Definition insert (bs : bytes) : bytes :=
  concat (map (fun chunk => wrap8 (zlen chunk) :: chunk) (chunks 127 bs)).

(** The selector bits and the nonzero bytes of an operand. *)
Fixpoint sparse (mask bit : Z) (bs : bytes) : Z * bytes :=
  match bs with
  | [] => (0, [])
  | b :: rest =>
      let '(h, out) := sparse mask (bit + 1) rest in
      if negb (b =? 0) then (Z.lor (Z.shiftl mask bit) h, b :: out) else (h, out)
  end.

Definition le_bytes (n : nat) (v : Z) : bytes :=
  map (fun i => wrap8 (Z.shiftr v (Z.of_nat i * 8))) (seq 0 n).

Definition copy_one (offset count : Z) : bytes :=
  let encoded_size := if count =? 65536 then 0 else wrap32 count in
  let '(h1, out1) := sparse 1 0 (le_bytes 4 offset) in
  let '(h2, out2) := sparse 0x10 0 (le_bytes 3 encoded_size) in
  Z.lor (Z.lor 0x80 h1) h2 :: out1 ++ out2.

(** [copy]: copies of at most [0xffffff] bytes, on a wrapping [u32] offset. *)
Fixpoint copy_loop (fuel : nat) (offset length : Z) : bytes :=
  match fuel with
  | O => []
  | S fuel' =>
      if length =? 0 then []
      else
        let count := Z.min length 0xffffff in
        copy_one offset count ++
        copy_loop fuel' (if length - count =? 0 then offset else wrap32 (offset + wrap32 count))
                  (length - count)
  end.
Definition copy (offset length : Z) : bytes :=
  copy_loop (S (Z.to_nat (length / 0xffffff))) offset length.

(** [slot]: the multiplicative hash of the first eight bytes. *)
Definition le_decode (l : bytes) : Z := foldr (fun b acc => b + 256 * acc) 0 l.
Definition slot (bs : bytes) : Z :=
  Z.shiftr (wrap64 (le_decode (take 8 bs) * 0x9e3779b97f4a7c15)) 52.

Section Encoder.
Context {E : Type}.
(** The caller's cancellation check, by its number of earlier calls. *)
Variable check : nat -> result E unit.

Abbreviation search := (SE (Z * nat) E).

(** [charge]: one unit of work; [false] when the budget is exhausted. *)
Definition charge_work : search bool :=
  fun '(remaining, calls) =>
    if remaining =? 0 then (Ok false, (remaining, calls))
    else
      let remaining := remaining - 1 in
      if remaining mod 4096 =? 0
      then match check calls with
           | Ok _ => (Ok true, (remaining, S calls))
           | Err e => (Err e, (remaining, S calls))
           end
      else (Ok true, (remaining, calls)).

(** The anchor table: the first base offset seen for each slot. *)
Fixpoint index_base (base : bytes) (offsets : list nat) (anchors : list Z)
    : search (option (list Z)) :=
  match offsets with
  | [] => se_ret (Some anchors)
  | offset :: rest =>
      let! more := charge_work in
      if negb more then se_ret None
      else
        let s := Z.to_nat (slot (drop offset base)) in
        let anchors := if decide (anchors !! s = Some usize_max)
                       then <[s := Z.of_nat offset]> anchors else anchors in
        index_base base rest anchors
  end.

(** The byte comparison loop: the common length of two suffixes. *)
Fixpoint match_length (base target : bytes) : search (option nat) :=
  match base, target with
  | b :: base', t :: target' =>
      let! more := charge_work in
      if negb more then se_ret None
      else if negb (b =? t) then se_ret (Some O)
      else
        let! n := match_length base' target' in
        se_ret (S <$> n)
  | _, _ => se_ret (Some O)
  end.

(** [while target.len() - position >= 8]; a round advances by at least one. *)
Fixpoint search_loop (fuel : nat) (base target : bytes) (anchors : list Z)
    (position literal : nat) (out : bytes) : search (option (bytes * nat)) :=
  if (length target - position <? 8)%nat then se_ret (Some (out, literal))
  else
    match fuel with
    | O => se_ret None
    | S fuel' =>
        let! more := charge_work in
        if negb more then se_ret None
        else
          let offset := default usize_max (anchors !! Z.to_nat (slot (drop position target))) in
          let! len := (if offset =? usize_max then se_ret (Some O)
                       else match_length (drop (Z.to_nat offset) base) (drop position target)) in
          match len with
          | None => se_ret None
          | Some len =>
              if (8 <=? len)%nat
              then search_loop fuel' base target anchors (position + len) (position + len)
                     (out ++ insert (take (position - literal) (drop literal target))
                          ++ copy (wrap32 offset) (Z.of_nat len))
              else search_loop fuel' base target anchors (position + 1) literal out
          end
    end.

(** [(0..base.len().saturating_sub(7)).step_by(16)]. *)
Definition anchor_offsets (base : bytes) : list nat :=
  map (fun i => (16 * i)%nat) (seq 0 ((length base - 7 + 15) / 16)).

Definition instructions_with (base target : bytes) : search (option bytes) :=
  let! anchors := index_base base (anchor_offsets base) (replicate 4096 usize_max) in
  match anchors with
  | None => se_ret None
  | Some anchors =>
      let out := put_size (zlen base) ++ put_size (zlen target) in
      let! found := search_loop (length target) base target anchors 0 0 out in
      match found with
      | None => se_ret None
      | Some (out, literal) => se_ret (Some (out ++ insert (drop literal target)))
      end
  end.
End Encoder.

Arguments slot : simpl never.
Arguments copy : simpl never.
Arguments insert : simpl never.
Arguments put_size : simpl never.

Example sizes : map put_size [0; 127; 128; 65536] = [[0]; [127]; [128; 1]; [128; 128; 4]].
Proof. reflexivity. Qed.
Example copies :
  copy 0 1 = [0x90; 1] /\ copy 0 65536 = [0x80] /\
  copy 0x12345678 256 = [0xaf; 0x78; 0x56; 0x34; 0x12; 1] /\
  copy 0 0x1000000 = [0xf0; 255; 255; 255; 0x97; 255; 255; 255; 1].
Proof. vm_compute. auto. Qed.

(** * Sizes *)

Lemma group_byte v : 0 <= v ->
  let b := Z.lor (Z.land (wrap8 v) 127) 128 in
  Z.land b 0x7f = v mod 128 /\ (Z.land b 0x80 =? 0) = false.
Proof.
  intros Hv. simpl.
  assert (Z.land (wrap8 v) 127 = v mod 128) as ->.
  { rewrite land_127. unfold wrap8. change (2 ^ 8) with 256. Z.div_mod_to_equations. lia. }
  pose proof (Z.mod_pos_bound v 128 ltac:(lia)) as Hm. split.
  - change 128 with (Z.shiftl 1 7) at 2. rewrite lor_shiftl by lia.
    rewrite land_127. change (1 * 2 ^ 7) with (1 * 128).
    rewrite Z.mod_add, Z.mod_mod by lia. done.
  - change 0x80 with (Z.shiftl 1 7). rewrite land_bit, Z.lor_spec by lia. apply negb_false_iff.
    apply orb_true_r.
Qed.

Lemma small_byte v : 0 <= v < 128 -> Z.land (wrap8 v) 0x7f = v /\ (Z.land (wrap8 v) 0x80 =? 0) = true.
Proof.
  intros Hv. unfold wrap8. rewrite Z.mod_small by lia. split.
  - rewrite land_127. by rewrite Z.mod_small.
  - change 0x80 with (Z.shiftl 1 7). rewrite land_bit by lia. rewrite (testbit_high v 7) by lia. done.
Qed.

Lemma shift_guard shift part : 0 <= shift < 64 -> 0 <= part -> part * 2 ^ shift <= usize_max ->
  (64 <=? shift) || (Z.shiftr usize_max shift <? part) = false.
Proof.
  intros Hs Hp H. rewrite Z.shiftr_div_pow2 by lia.
  destruct (Z.leb_spec 64 shift); [lia|]. simpl. apply Z.ltb_ge.
  apply Z.div_le_lower_bound; [apply Z.pow_pos_nonneg; lia|lia].
Qed.

Lemma size_put_loop fuel v acc shift rest :
  0 <= shift < 64 -> 0 <= v -> v < 128 ^ Z.of_nat fuel -> (0 < fuel)%nat ->
  0 <= acc < 2 ^ shift -> v * 2 ^ shift <= usize_max ->
  size_loop (put_size_loop fuel v ++ rest) acc shift = Ok (acc + v * 2 ^ shift, rest).
Proof.
  revert v acc shift; induction fuel as [|fuel IH]; intros v acc shift Hs Hv Hf Hpos Hacc Hmax; [lia|].
  assert (0 < 2 ^ shift) by (apply Z.pow_pos_nonneg; lia).
  simpl. destruct (Z.leb_spec 128 v) as [Hbig|Hsmall]; simpl.
  - destruct (group_byte v Hv) as [-> ->].
    pose proof (Z.mod_pos_bound v 128 ltac:(lia)). pose proof (Z.div_mod v 128 ltac:(lia)).
    rewrite shift_guard by nia. rewrite lor_shiftl by lia.
    assert (shift + 7 < 64) as Hlt.
    { apply (Z.pow_lt_mono_r_iff 2); [lia..|]. rewrite Z.pow_add_r by lia.
      change (2 ^ 7) with 128. unfold usize_max in Hmax. nia. }
    rewrite Z.shiftr_div_pow2 by lia. change (2 ^ 7) with 128.
    assert (2 ^ (shift + 7) = 2 ^ shift * 128) as Hpow by (by rewrite Z.pow_add_r by lia).
    destruct fuel as [|fuel]; [simpl in Hf; lia|].
    rewrite Nat2Z.inj_succ, Z.pow_succ_r in Hf by lia.
    rewrite IH; [|lia|nia|apply Z.div_lt_upper_bound; lia|lia|nia|rewrite Hpow; nia].
    rewrite Hpow. do 2 f_equal. nia.
  - destruct (small_byte v ltac:(lia)) as [-> ->].
    rewrite shift_guard by lia. by rewrite lor_shiftl by lia.
Qed.

Lemma put_size_read v rest : 0 <= v <= usize_max -> size (put_size v ++ rest) 0 0 true = Ok (v, rest).
Proof.
  intros Hv. unfold size, put_size.
  rewrite size_put_loop; [do 2 f_equal; lia|lia|lia| |lia|done|lia].
  change (Z.of_nat 10) with 10. unfold usize_max in Hv. lia.
Qed.

(** * Instructions *)

Lemma operand_sparse mask bs bit instr rest value :
  (forall i b, bs !! i = Some b ->
     (Z.land instr (Z.shiftl mask (bit + Z.of_nat i)) =? 0) = (b =? 0)) ->
  0 <= bit -> 0 <= value < 2 ^ (bit * 8) -> bytes_ok bs ->
  operand (length bs) mask bit instr ((sparse mask bit bs).2 ++ rest) value =
  Ok (value + le_decode bs * 2 ^ (bit * 8), rest).
Proof.
  revert bit value; induction bs as [|b bs IH]; intros bit value Hsel Hbit Hval Hok; simpl.
  { do 2 f_equal. lia. }
  apply bytes_ok_cons in Hok as [Hb Hok]. unfold byte_ok in Hb.
  pose proof (Hsel O b eq_refl) as H0. rewrite Z.add_0_r in H0. rewrite H0.
  assert (2 ^ ((bit + 1) * 8) = 2 ^ (bit * 8) * 256) as Hpow.
  { replace ((bit + 1) * 8) with (bit * 8 + 8) by lia. by rewrite Z.pow_add_r by lia. }
  assert (forall i c, bs !! i = Some c ->
     (Z.land instr (Z.shiftl mask (bit + 1 + Z.of_nat i)) =? 0) = (c =? 0)) as Hsel'.
  { intros i c Hc. rewrite <- (Hsel (S i) c Hc). do 3 f_equal. lia. }
  specialize (IH (bit + 1)). destruct (sparse mask (bit + 1) bs) as [h out]. simpl in IH.
  destruct (Z.eqb_spec b 0) as [-> |Hne]; simpl.
  - rewrite IH by (done || lia). do 2 f_equal. nia.
  - rewrite lor_shiftl by lia. rewrite IH by (done || lia || nia). do 2 f_equal. nia.
Qed.

Lemma le_bytes_decode4 v : 0 <= v < 2 ^ 32 -> le_decode (le_bytes 4 v) = v.
Proof.
  intros Hv. unfold le_bytes, le_decode, wrap8. simpl.
  rewrite !Z.shiftr_div_pow2 by lia. simpl. Z.div_mod_to_equations. lia.
Qed.
Lemma le_bytes_decode3 v : 0 <= v < 2 ^ 24 -> le_decode (le_bytes 3 v) = v.
Proof.
  intros Hv. unfold le_bytes, le_decode, wrap8. simpl.
  rewrite !Z.shiftr_div_pow2 by lia. simpl. Z.div_mod_to_equations. lia.
Qed.
Lemma le_bytes_ok n v : bytes_ok (le_bytes n v).
Proof. apply Forall_map, Forall_forall. intros. apply Z.mod_pos_bound. lia. Qed.

(** The selector byte of a copy names exactly the nonzero operand bytes. *)
Lemma copy_header b0 b1 b2 b3 c0 c1 c2 :
  let h := Z.lor (Z.lor 0x80 (sparse 1 0 [b0; b1; b2; b3]).1) (sparse 0x10 0 [c0; c1; c2]).1 in
  (Z.land h 0x80 =? 0) = false /\
  (forall i b, [b0; b1; b2; b3] !! i = Some b ->
     (Z.land h (Z.shiftl 1 (0 + Z.of_nat i)) =? 0) = (b =? 0)) /\
  (forall i b, [c0; c1; c2] !! i = Some b ->
     (Z.land h (Z.shiftl 0x10 (0 + Z.of_nat i)) =? 0) = (b =? 0)).
Proof.
  simpl. destruct (b0 =? 0) eqn:?, (b1 =? 0) eqn:?, (b2 =? 0) eqn:?, (b3 =? 0) eqn:?,
    (c0 =? 0) eqn:?, (c1 =? 0) eqn:?, (c2 =? 0) eqn:?; simpl; (split; [reflexivity|]);
    (split; intros [|[|[|[|i]]]] b [= <-]; simpl; symmetry; assumption).
Qed.

(** A written copy instruction produces the bytes it names. *)
Lemma copy_one_source base offset count rest m :
  0 <= offset < 2 ^ 32 -> 0 < count <= 0xffffff ->
  slice offset (offset + count) base = Some m ->
  exists h body, copy_one offset count = h :: body /\
    instruction_source base h (body ++ rest) = Ok (m, rest).
Proof.
  intros Hoff Hcount Hm. unfold copy_one.
  set (sz := if count =? 65536 then 0 else wrap32 count).
  assert (0 <= sz < 2 ^ 24 /\ (if sz =? 0 then 65536 else sz) = count) as [Hsz Hback].
  { unfold sz, wrap32. destruct (Z.eqb_spec count 65536); simpl; [lia|].
    rewrite Z.mod_small by lia. split; [lia|]. destruct (Z.eqb_spec count 0); lia. }
  pose proof (le_bytes_decode4 offset Hoff) as D4. pose proof (le_bytes_decode3 sz Hsz) as D3.
  pose proof (le_bytes_ok 4 offset) as O4. pose proof (le_bytes_ok 3 sz) as O3.
  destruct (le_bytes 4 offset) as [|b0 [|b1 [|b2 [|b3 [|]]]]] eqn:E4; try discriminate.
  destruct (le_bytes 3 sz) as [|c0 [|c1 [|c2 [|]]]] eqn:E3; try discriminate.
  destruct (copy_header b0 b1 b2 b3 c0 c1 c2) as (H80 & H1 & H2).
  set (s1 := sparse 1 0 _) in *. set (s2 := sparse 0x10 0 _) in *.
  exists (Z.lor (Z.lor 0x80 s1.1) s2.1), (s1.2 ++ s2.2).
  split; [by destruct s1, s2|]. unfold instruction_source. rewrite H80.
  rewrite <- app_assoc.
  rewrite (operand_sparse 1 [b0; b1; b2; b3] 0) by (done || lia). cbn [rbind].
  rewrite (operand_sparse 0x10 [c0; c1; c2] 0) by (done || lia). cbn [rbind].
  change (2 ^ (0 * 8)) with 1. rewrite D4, D3, !Z.add_0_l, !Z.mul_1_r, Hback.
  assert (checked_add offset count = Some (offset + count)) as ->.
  { unfold checked_add, usize_max. zbool. }
  simpl. by rewrite Hm.
Qed.

Lemma insert_source base c rest :
  0 < zlen c <= 127 ->
  instruction_source base (wrap8 (zlen c)) (c ++ rest) = Ok (c, rest).
Proof.
  intros Hc. unfold instruction_source.
  destruct (small_byte (zlen c)) as [_ ->]; [lia|].
  unfold wrap8. rewrite Z.mod_small by lia. destruct (Z.eqb_spec (zlen c) 0); [lia|].
  by rewrite (proj2 (split_at_checked_Some _ _ c rest)).
Qed.

Lemma byte_rest p b rest : byte p = Ok (b, rest) -> (length rest <= length p)%nat.
Proof. destruct p; simpl; intros; simplify_eq. simpl. lia. Qed.

Lemma operand_rest n mask bit i p v v' rest :
  operand n mask bit i p v = Ok (v', rest) -> (length rest <= length p)%nat.
Proof.
  revert bit p v; induction n as [|n IH]; intros bit p v; simpl; [naive_solver|].
  destruct (Z.land _ _ =? 0); [apply IH|].
  intros ((b & p') & Hb%byte_rest & H%IH)%rbind_Ok. lia.
Qed.

Lemma instruction_source_rest base i p src rest :
  instruction_source base i p = Ok (src, rest) -> (length rest <= length p)%nat.
Proof.
  unfold instruction_source. destruct (Z.land i 0x80 =? 0).
  - destruct (i =? 0); [done|]. intros [-> _]%ok_or_Ok%split_at_checked_Some.
    rewrite length_app. lia.
  - intros ((o & p1) & H1%operand_rest & H)%rbind_Ok.
    apply rbind_Ok in H as ((l & p2) & H2%operand_rest & H).
    apply rbind_Ok in H as (e & _ & H). apply rbind_Ok in H as (c & _ & [= <- <-]). lia.
Qed.

(** Enough fuel is enough: the loop's result does not depend on it. *)
Lemma apply_loop_fuel n k base rs p res :
  (length p <= n)%nat -> (length p <= k)%nat ->
  apply_loop n base rs p res = apply_loop k base rs p res.
Proof.
  revert k p res; induction n as [|n IH]; intros [|k] p res Hn Hk; destruct p as [|i p];
    simpl in *; try done; try lia.
  destruct (instruction_source base i p) as [[src rest]|] eqn:E; simpl; [|done].
  apply instruction_source_rest in E. destruct (_ <? _); [done|]. apply IH; lia.
Qed.

Definition run (base : bytes) (rs : Z) (p res : bytes) : result ReadError bytes :=
  apply_loop (length p) base rs p res.

Lemma run_cons base rs i p res src rest :
  instruction_source base i p = Ok (src, rest) -> zlen res + zlen src <= rs ->
  run base rs (i :: p) res = run base rs rest (res ++ src).
Proof.
  intros E Hfit. unfold run. simpl. rewrite E. simpl. unfold saturating_sub.
  destruct (Z.ltb_spec (Z.max 0 (rs - zlen res)) (zlen src)); [zlia|].
  apply instruction_source_rest in E. apply apply_loop_fuel; lia.
Qed.

Lemma run_insert_chunks base rs cs rest res :
  Forall (fun c => c <> [] /\ (length c <= 127)%nat) cs ->
  zlen res + zlen (concat cs) <= rs ->
  run base rs (concat (map (fun chunk => wrap8 (zlen chunk) :: chunk) cs) ++ rest) res =
  run base rs rest (res ++ concat cs).
Proof.
  revert res; induction cs as [|c cs IH]; intros res Hcs Hfit; simpl; [by rewrite app_nil_r|].
  apply Forall_cons in Hcs as [[Hne Hlen] Hcs]. simpl in Hfit.
  rewrite <- app_assoc. erewrite run_cons.
  - rewrite IH; [by rewrite <- app_assoc|done|zlia].
  - apply insert_source. destruct c; [done|]. unfold zlen. simpl length in *. lia.
  - zlia.
Qed.

Lemma run_insert base rs bs rest res :
  zlen res + zlen bs <= rs -> run base rs (insert bs ++ rest) res = run base rs rest (res ++ bs).
Proof.
  intros H. unfold insert. rewrite run_insert_chunks; rewrite ?chunks_concat; try done; try lia.
  apply chunks_from_Forall. lia.
Qed.

Lemma slice_shift {A} a n k (l : list A) m :
  slice a (a + n) l = Some m -> 0 <= k <= n ->
  exists m1 m2, slice a (a + k) l = Some m1 /\ slice (a + k) (a + n) l = Some m2 /\ m = m1 ++ m2.
Proof.
  intros (pre & post & -> & Ha & Hm)%slice_app Hk.
  exists (take (Z.to_nat k) m), (drop (Z.to_nat k) m). rewrite take_drop.
  split; [|split; [|done]].
  - apply slice_app. exists pre, (drop (Z.to_nat k) m ++ post).
    split; [by rewrite (app_assoc (take _ _)), take_drop|]. zlia.
  - apply slice_app. exists (pre ++ take (Z.to_nat k) m), post.
    split; [|zlia]. rewrite <- app_assoc. by rewrite (app_assoc (take _ _)), take_drop.
Qed.

Lemma run_copy_loop fuel base rs offset len rest res m :
  0 <= offset -> zlen base <= 2 ^ 32 -> 0 <= len < Z.of_nat fuel * 0xffffff ->
  slice offset (offset + len) base = Some m -> zlen res + len <= rs ->
  run base rs (copy_loop fuel offset len ++ rest) res = run base rs rest (res ++ m).
Proof.
  revert offset len res m; induction fuel as [|fuel IH];
    intros offset len res m Hoff Hbase Hlen Hm Hfit; [lia|].
  cbn [copy_loop]. destruct (Z.eqb_spec len 0) as [-> |Hne].
  { apply slice_zlen in Hm. rewrite (zlen_0_inv m) by lia. by rewrite app_nil_r. }
  remember (Z.min len 0xffffff) as count eqn:Hcount. cbn zeta.
  destruct (slice_shift _ _ count _ _ Hm) as (m1 & m2 & H1 & H2 & ->); [lia|].
  pose proof (slice_zlen _ _ _ _ H1). pose proof Hm as (_ & Hend & _)%slice_Some.
  destruct (copy_one_source base offset count
    (copy_loop fuel (if len - count =? 0 then offset else wrap32 (offset + wrap32 count)) (len - count) ++ rest) m1)
    as (h & body & -> & Hsrc); [lia|lia|done|].
  rewrite <- app_assoc, <- app_comm_cons. rewrite (run_cons _ _ _ _ _ _ _ Hsrc) by lia.
  destruct (Z.eqb_spec (len - count) 0) as [He|He].
  - rewrite He. assert (m2 = []) as ->.
    { apply slice_zlen in H2. apply zlen_0_inv. lia. }
    rewrite app_nil_r. destruct fuel; done.
  - unfold wrap32. rewrite (Z.mod_small count), (Z.mod_small (offset + count)) by lia.
    rewrite (IH _ _ _ m2); [by rewrite <- app_assoc|lia|lia|lia| |zlia].
    replace (offset + count + (len - count)) with (offset + len) by lia. done.
Qed.

Lemma run_copy base rs offset len rest res m :
  0 <= offset -> zlen base <= 2 ^ 32 -> 0 <= len ->
  slice offset (offset + len) base = Some m -> zlen res + len <= rs ->
  run base rs (copy offset len ++ rest) res = run base rs rest (res ++ m).
Proof.
  intros. apply run_copy_loop; try done.
  pose proof (Z.div_mod len 0xffffff). pose proof (Z.mod_pos_bound len 0xffffff).
  pose proof (Z.div_pos len 0xffffff). lia.
Qed.

(** * The encoder *)

Section EncoderFacts.
Context {E : Type} (check : nat -> result E unit).

Definition anchors_ok (base : bytes) (anchors : list Z) : Prop :=
  Forall (fun a => a = usize_max \/ 0 <= a < zlen base) anchors.

Lemma index_base_ok base offsets anchors s anchors' s' :
  anchors_ok base anchors -> Forall (fun o => (o < length base)%nat) offsets ->
  index_base check base offsets anchors s = (Ok (Some anchors'), s') -> anchors_ok base anchors'.
Proof.
  revert anchors s; induction offsets as [|o offsets IH]; intros anchors s Ha Ho H; cbn [index_base] in H.
  { by injection H as -> _. }
  apply se_bind_Ok in H as (more & s1 & _ & H). destruct more; [|done]. cbn [negb] in H.
  apply Forall_cons in Ho as [Ho Hos]. eapply IH in H; [done| |done].
  case_decide; [|done]. apply Forall_insert; [done|]. right. unfold zlen. lia.
Qed.

Lemma match_length_prefix base target s n s' :
  match_length check base target s = (Ok (Some n), s') ->
  (n <= length base)%nat /\ (n <= length target)%nat /\ take n base = take n target.
Proof.
  revert target s n s'; induction base as [|b base IH]; intros [|t target] s n s' H; cbn [match_length] in H;
    try (injection H as <- _; simpl; repeat split; lia || done).
  apply se_bind_Ok in H as (more & s1 & _ & H). destruct more; [|done]. cbn [negb] in H.
  destruct (Z.eqb_spec b t) as [-> |]; cbn [negb] in H.
  - apply se_bind_Ok in H as ([k|] & s2 & Hk & H); [|done].
    injection H as <- _. apply IH in Hk as (? & ? & Heq). simpl.
    split; [lia|]. split; [lia|]. by rewrite Heq.
  - injection H as <- _. simpl. repeat split; lia || done.
Qed.

Lemma take_extend {A} (l : list A) a b :
  (a <= b)%nat -> take a l ++ take (b - a) (drop a l) = take b l.
Proof.
  intros. rewrite <- (take_drop a (take b l)) at 1.
  rewrite take_take, skipn_firstn_comm, Nat.min_l by lia. done.
Qed.

(** Every emitted instruction extends the rebuilt prefix of the target. *)
Lemma search_loop_run fuel base target anchors position literal out s out' literal' s' :
  anchors_ok base anchors -> zlen base <= 2 ^ 32 ->
  (literal <= position <= length target)%nat ->
  search_loop check fuel base target anchors position literal out s = (Ok (Some (out', literal')), s') ->
  exists emitted, out' = out ++ emitted /\ (literal' <= length target)%nat /\
    forall rest, run base (zlen target) (emitted ++ rest) (take literal target) =
                 run base (zlen target) rest (take literal' target).
Proof.
  intros Ha Hbase. revert position literal out s; induction fuel as [|fuel IH];
    intros position literal out s Hpos H; cbn [search_loop] in H;
    (destruct (length target - position <? 8)%nat eqn:E8;
      [injection H as <- <- _; exists []; rewrite app_nil_r; repeat split; lia || done|]); [done|].
  apply se_bind_Ok in H as (more & s1 & _ & H). destruct more; [|done]. cbn [negb] in H.
  set (offset := default usize_max (anchors !! Z.to_nat (slot (drop position target)))) in *.
  apply se_bind_Ok in H as (len & s2 & Hlen & H). destruct len as [len|]; [|done].
  apply Nat.ltb_ge in E8.
  destruct (8 <=? len)%nat eqn:E1; [apply Nat.leb_le in E1|apply IH in H; [done|lia]].
  destruct (Z.eqb_spec offset usize_max) as [Heq|Hne]; [injection Hlen as <- _; lia|].
  apply match_length_prefix in Hlen as (H1 & H2 & Heq). rewrite length_drop in H1, H2.
  assert (0 <= offset < zlen base) as Hoff.
  { unfold offset in *. destruct (anchors !! _) as [a|] eqn:Ea; [|done].
    eapply Forall_lookup_1 in Ea; [|exact Ha]. simpl in *. naive_solver. }
  apply IH in H as (emitted & -> & Hl & Hrun); [|lia].
  exists (insert (take (position - literal) (drop literal target)) ++
          copy (wrap32 offset) (Z.of_nat len) ++ emitted).
  split; [by rewrite <- !app_assoc|]. split; [done|]. intros rest.
  rewrite <- !app_assoc. rewrite run_insert by (unfold zlen in *; rewrite !length_take, length_drop; lia).
  rewrite take_extend by lia. unfold wrap32. rewrite Z.mod_small by lia.
  rewrite (run_copy _ _ _ _ _ _ (take len (drop position target))).
  - rewrite <- Hrun. f_equal. rewrite <- (take_extend target position (position + len)) by lia.
    by replace (position + len - position)%nat with len by lia.
  - lia.
  - done.
  - lia.
  - apply slice_Some. unfold zlen in *. split; [lia|]. split; [lia|]. rewrite <- Heq. f_equal. lia.
  - unfold zlen in *. rewrite length_take. lia.
Qed.

Lemma anchor_offsets_lt base : Forall (fun o => (o < length base)%nat) (anchor_offsets base).
Proof.
  unfold anchor_offsets. apply Forall_map, Forall_forall. intros i Hi.
  apply list_elem_of_In, in_seq in Hi.
  assert (S i * 16 <= length base - 7 + 15)%nat; [|lia].
  etransitivity; [|apply (Nat.Div0.mul_div_le _ 16)]. rewrite Nat.mul_comm.
  apply Nat.mul_le_mono_l. lia.
Qed.

Lemma instructions_shape base target s program s' :
  zlen base <= 2 ^ 32 ->
  instructions_with check base target s = (Ok (Some program), s') ->
  exists body, program = put_size (zlen base) ++ put_size (zlen target) ++ body /\
    run base (zlen target) body [] = Ok target.
Proof.
  intros Hbase H. unfold instructions_with in H.
  apply se_bind_Ok in H as (anchors & s1 & Hidx & H). destruct anchors as [anchors|]; [|done].
  apply se_bind_Ok in H as ([[out literal]|] & s2 & Hs & H); [|done].
  injection H as <- _.
  apply index_base_ok in Hidx; [|apply Forall_replicate; by left|apply anchor_offsets_lt].
  apply search_loop_run in Hs as (emitted & -> & Hl & Hrun); [|done|done|lia].
  exists (emitted ++ insert (drop literal target)). split; [by rewrite <- !app_assoc|].
  rewrite (Hrun (insert (drop literal target)) : run base (zlen target) _ [] = _).
  rewrite <- (app_nil_r (insert _)), run_insert by (unfold zlen; rewrite length_take, length_drop; lia).
  unfold run. simpl. by rewrite take_drop.
Qed.
End EncoderFacts.

(** C1: delta compression is lossless.  Whatever the work budget, the
    cancellation check and the hash table found, every program the encoder
    returns for a base of at most 4 GiB is accepted by the checked interpreter and
    rebuilds the target exactly, charging the decode budget by the target's
    length. *)
Theorem delta_roundtrip {E} (check : nat -> result E unit) base target s program s' max_size remaining :
  zlen base <= 2 ^ 32 -> zlen target <= usize_max ->
  zlen target <= max_size -> zlen target <= remaining ->
  instructions_with check base target s = (Ok (Some program), s') ->
  apply base program max_size remaining = (Ok target, remaining - zlen target).
Proof.
  intros Hbase Htarget Hmax Hrem (body & -> & Hrun)%instructions_shape; [|done].
  pose proof (zlen_nonneg base). pose proof (zlen_nonneg target).
  unfold apply. apply se_bind_Ok. exists (zlen base, put_size (zlen target) ++ body), remaining.
  split; [unfold se_lift; rewrite put_size_read; [done|unfold usize_max in *; lia]|].
  rewrite Z.eqb_refl. apply se_bind_Ok. exists (zlen target, body), remaining.
  split; [unfold se_lift; by rewrite put_size_read|].
  destruct (Z.ltb_spec max_size (zlen target)); [lia|].
  apply se_bind_Ok. exists tt, (remaining - zlen target). split.
  { unfold charge, checked_sub. by rewrite (proj2 (Z.leb_le _ _) Hrem). }
  apply se_bind_Ok. exists target, (remaining - zlen target). split; [unfold se_lift; by rewrite <- Hrun|].
  by rewrite Z.eqb_refl.
Qed.

Definition sample_base : bytes := bstr "the quick brown fox jumps over the lazy dog".
Definition sample_target : bytes := bstr "x: the quick brown fox leaps over the lazy dog!".

Lemma delta_roundtrip_witness :
  exists program s', instructions_with (fun _ => Ok tt : result unit unit) sample_base sample_target (1000, O)
      = (Ok (Some program), s') /\ (length program < length sample_target)%nat /\
    apply sample_base program 100 60 = (Ok sample_target, 60 - zlen sample_target).
Proof.
  destruct (instructions_with (fun _ => Ok tt : result unit unit) sample_base sample_target (1000, O))
    as [[[program|]|e] s'] eqn:Er; [|vm_compute in Er; discriminate..].
  exists program, s'. split; [reflexivity|]. split.
  - vm_compute in Er. injection Er as <- <-. vm_compute. repeat constructor.
  - apply (delta_roundtrip (fun _ => Ok tt : result unit unit) sample_base sample_target (1000, O)
      program s' 100 60); [vm_compute; discriminate..|exact Er].
Defined.

(** * Bounds of the decoder *)

Lemma size_loop_nonneg input value shift v rest :
  0 <= value -> size_loop input value shift = Ok (v, rest) -> 0 <= v.
Proof.
  revert value shift; induction input as [|b input IH]; intros value shift Hv; simpl; [done|].
  destruct (_ || _); [done|].
  assert (0 <= Z.lor value (Z.shiftl (Z.land b 127) shift)) as Hn.
  { apply Z.lor_nonneg. split; [done|]. apply Z.shiftl_nonneg, Z.land_nonneg. by right. }
  destruct (_ =? 0); [naive_solver|]. by apply IH.
Qed.

Definition out_of_fuel : ReadError := Corrupt "out of fuel".

Lemma byte_no_fuel p e : byte p = Err e -> e <> out_of_fuel.
Proof. destruct p; simpl; intros; simplify_eq. done. Qed.

Lemma operand_no_fuel n mask bit i p v e : operand n mask bit i p v = Err e -> e <> out_of_fuel.
Proof.
  revert bit p v; induction n as [|n IH]; intros bit p v; simpl; [done|].
  destruct (_ =? 0); [apply IH|]. destruct (byte p) as [[b p']|e'] eqn:Eb; simpl; [apply IH|].
  intros [= <-]. by apply byte_no_fuel in Eb.
Qed.

Lemma instruction_no_fuel base i p e : instruction_source base i p = Err e -> e <> out_of_fuel.
Proof.
  unfold instruction_source. destruct (Z.land i 0x80 =? 0).
  { destruct (i =? 0); [intros [= <-]; done|]. destruct (split_at_checked i p); simpl; [done|].
    intros [= <-]. done. }
  destruct (operand 4 1 0 i p 0) as [[o p1]|e1] eqn:E1; cbn [rbind];
    [|intros [= <-]; by apply operand_no_fuel in E1].
  destruct (operand 3 0x10 0 i p1 0) as [[l p2]|e2] eqn:E2; cbn [rbind];
    [|intros [= <-]; by apply operand_no_fuel in E2].
  destruct (checked_add _ _); simpl; [|intros [= <-]; done].
  destruct (slice _ _ base); simpl; [done|intros [= <-]; done].
Qed.

Lemma apply_loop_no_fuel n base rs p res e :
  (length p <= n)%nat -> apply_loop n base rs p res = Err e -> e <> out_of_fuel.
Proof.
  revert p res; induction n as [|n IH]; intros p res Hn; destruct p as [|i p]; simpl in *; try done; [lia|].
  destruct (instruction_source base i p) as [[src rest]|e'] eqn:E; simpl;
    [|intros [= <-]; by apply instruction_no_fuel in E].
  apply instruction_source_rest in E. destruct (_ <? _); [intros [= <-]; done|]. apply IH. lia.
Qed.

(** C37: applying a delta respects its bounds on every input, hostile programs
    included: the caller's budget never goes negative nor grows, a result is at
    most [max_size] long and has been charged in full, and the loop always
    finishes within the program's length (the fuel marker is never returned). *)
Theorem apply_bounded base program max_size remaining r remaining' :
  0 <= remaining -> apply base program max_size remaining = (r, remaining') ->
  0 <= remaining' <= remaining /\
  (forall out, r = Ok out -> zlen out <= max_size /\ remaining' = remaining - zlen out) /\
  r <> Err out_of_fuel.
Proof.
  intros Hrem. unfold apply, se_bind, se_lift.
  assert (forall p e, size p 0 0 true = Err e -> e <> out_of_fuel) as Hsz.
  { intros p e. unfold size. generalize 0 at 1; generalize 0. intros sh va.
    revert sh va; induction p as [|b p IH]; intros sh va; simpl; [by intros [= <-]|].
    destruct (_ || _); [by intros [= <-]|]. destruct (_ =? 0); [done|]. apply IH. }
  destruct (size program 0 0 true) as [[bs p1]|e1] eqn:E1;
    [|intros [= <- <-]; split; [lia|]; split; [done|]; intros [= ->]; by apply Hsz in E1].
  destruct (negb (bs =? zlen base)); [intros [= <- <-]; split; [lia|]; done|].
  destruct (size p1 0 0 true) as [[rs p2]|e2] eqn:E2;
    [|intros [= <- <-]; split; [lia|]; split; [done|]; intros [= ->]; by apply Hsz in E2].
  assert (0 <= rs) by (unfold size in E2; by eapply size_loop_nonneg in E2).
  destruct (Z.ltb_spec max_size rs); [intros [= <- <-]; split; [lia|]; done|].
  unfold charge, checked_sub. destruct (Z.leb_spec rs remaining); [|intros [= <- <-]; split; [lia|]; done].
  destruct (apply_loop _ base rs p2 []) as [out|e3] eqn:E3.
  - destruct (Z.eqb_spec (zlen out) rs) as [<- |]; intros [= <- <-].
    + split; [lia|]. split; [|done]. intros ? [= <-]. lia.
    + split; [lia|]. done.
  - intros [= <- <-]. split; [lia|]. split; [done|]. intros [= ->].
    by apply apply_loop_no_fuel in E3.
Qed.

Lemma apply_bounded_witness :
  exists e remaining', apply [] [0; 5; 0] 10 100 = (Err e, remaining') /\ 0 <= remaining' <= 100.
Proof.
  destruct (apply [] [0; 5; 0] 10 100) as [[out|e] remaining'] eqn:E; [vm_compute in E; discriminate|].
  exists e, remaining'. split; [reflexivity|].
  refine (proj1 (apply_bounded [] [0; 5; 0] 10 100 _ remaining' _ E)). vm_compute. discriminate.
Defined.

(** * The encoder finishes *)

Section EncoderTotal.
Context {E : Type} (check : nat -> result E unit).
Hypothesis check_ok : forall n, check n = Ok tt.

Lemma charge_work_ok r c : 0 < r -> exists c', charge_work check (r, c) = (Ok true, (r - 1, c')).
Proof using check_ok.
  intros Hr. unfold charge_work. destruct (Z.eqb_spec r 0); [lia|].
  destruct (_ =? 0); [rewrite check_ok|]; eauto.
Qed.

Lemma index_base_total base offsets anchors r c :
  Z.of_nat (length offsets) <= r ->
  exists anchors' c', index_base check base offsets anchors (r, c) =
    (Ok (Some anchors'), (r - Z.of_nat (length offsets), c')).
Proof using check_ok.
  revert anchors r c; induction offsets as [|o offsets IH]; intros anchors r c Hr; cbn [index_base length].
  - exists anchors, c. unfold se_ret. do 2 f_equal. lia.
  - cbn [length] in Hr. destruct (charge_work_ok r c) as [c1 Hc]; [lia|].
    unfold se_bind. rewrite Hc. cbn [negb].
    match goal with |- context [index_base _ _ _ ?a _] =>
      destruct (IH a (r - 1) c1) as (a' & c' & ->); [lia|] end.
    exists a', c'. do 2 f_equal. lia.
Qed.

Lemma match_length_total base target r c :
  Z.of_nat (length target) <= r ->
  exists n r' c', match_length check base target (r, c) = (Ok (Some n), (r', c')) /\
    r - Z.of_nat (length target) <= r'.
Proof using check_ok.
  revert target r c; induction base as [|b base IH]; intros [|t target] r c Hr;
    cbn [match_length length] in *; try (eexists _, _, _; split; [done|lia]).
  destruct (charge_work_ok r c) as [c1 Hc]; [lia|]. unfold se_bind. rewrite Hc. cbn [negb].
  destruct (Z.eqb_spec b t) as [-> |]; cbn [negb].
  - destruct (IH target (r - 1) c1) as (n & r' & c' & -> & ?); [lia|].
    eexists _, _, _. split; [done|]. lia.
  - eexists _, _, _. split; [done|]. lia.
Qed.

Lemma search_loop_total fuel base target anchors position literal out r c :
  (length target - position <= fuel)%nat ->
  Z.of_nat (length target - position) * (Z.of_nat (length target) + 1) <= r ->
  exists out' literal' s', search_loop check fuel base target anchors position literal out (r, c) =
    (Ok (Some (out', literal')), s').
Proof using check_ok.
  revert position literal out r c; induction fuel as [|fuel IH];
    intros position literal out r c Hf Hr; cbn [search_loop];
    (destruct (length target - position <? 8)%nat eqn:E8; [unfold se_ret; eauto|]);
    apply Nat.ltb_ge in E8; [lia|].
  destruct (charge_work_ok r c) as [c1 Hc]; [nia|].
  unfold se_bind at 1. rewrite Hc. cbn [negb].
  set (offset := default usize_max _).
  assert (exists len r' c', (if offset =? usize_max then se_ret (Some O)
     else match_length check (drop (Z.to_nat offset) base) (drop position target)) (r - 1, c1) =
     (Ok (Some len), (r', c')) /\ r - 1 - Z.of_nat (length target) <= r') as (len & r' & c' & Hm & Hr').
  { destruct (offset =? usize_max); [eexists _, _, _; split; [done|lia]|].
    destruct (match_length_total (drop (Z.to_nat offset) base) (drop position target) (r - 1) c1)
      as (n & r' & c' & -> & ?); [rewrite length_drop; nia|].
    rewrite length_drop in *. eexists _, _, _. split; [done|]. lia. }
  unfold se_bind at 1. rewrite Hm.
  destruct (8 <=? len)%nat eqn:E1; [apply Nat.leb_le in E1|]; apply IH; nia.
Qed.
End EncoderTotal.

(** C40: the encoder produces a program.  With a cancellation check that never
    fires and a budget of one unit per base anchor plus, per target position, one
    unit and a full comparison, the search ends with a program (it cannot loop
    and cannot give up). *)
Theorem instructions_complete {E} (check : nat -> result E unit) base target remaining calls :
  (forall n, check n = Ok tt) ->
  zlen (anchor_offsets base) + zlen target * (zlen target + 1) <= remaining ->
  exists program s', instructions_with check base target (remaining, calls) = (Ok (Some program), s').
Proof.
  intros Hc Hr. unfold instructions_with, zlen in *.
  destruct (index_base_total check Hc base (anchor_offsets base) (replicate 4096 usize_max) remaining calls)
    as (anchors & c1 & Hi); [lia|].
  unfold se_bind at 1. rewrite Hi.
  destruct (search_loop_total check Hc (length target) base target anchors 0 0
    (put_size (Z.of_nat (length base)) ++ put_size (Z.of_nat (length target)))
    (remaining - Z.of_nat (length (anchor_offsets base))) c1) as (out & lit & s' & Hs); [lia| |].
  { rewrite Nat.sub_0_r. lia. }
  unfold se_bind. rewrite Hs. unfold se_ret. eauto.
Qed.

Lemma instructions_complete_witness :
  exists program s', instructions_with (fun _ => Ok tt : result unit unit) sample_base sample_target
    (2300, O) = (Ok (Some program), s').
Proof.
  apply (instructions_complete (fun _ => Ok tt : result unit unit) sample_base sample_target 2300 O);
    [reflexivity|vm_compute; discriminate].
Defined.

End Delta.
