(* ===== verification/Packets.v ===== *)
(** * pkt-line framing ([src/src/packet.rs])

    Frames are read from, and written to, caller-supplied streams.  A stream is an
    interface: the framing theorems hold for every reader and writer that keeps
    its law, whatever the sizes of the pieces it delivers.  The cancellation flag
    is shared with other threads: [cancel n] is the value of its [n]-th load. *)

From stdpp Require Import base list numbers strings sets.
From Stdlib Require Import ZArith Lia.
From S2P Require Import Prelude Objects.

Module Packets.
Import Objects.

(** I/O errors, as far as the code distinguishes them. *)
Inductive IoError := Interrupted | WriteZero | InvalidData | OtherIo.

Inductive Error :=
| Io (e : IoError)
| Protocol (reason : string)
| Limit (resource : string)
| Cancelled
| Remote (message : bytes).

Inductive Frame := Flush | Delim | ResponseEnd | Data (payload : bytes).

(** [std::io::Read]: at most [n] bytes into a buffer of length [n]. *)
Class Read (R : Type) := read : nat -> R -> result IoError bytes * R.

(** [std::io::Write]: the number of bytes accepted. *)
Class Write (W : Type) := write : bytes -> W -> result IoError nat * W.

(** What a reader promises: it delivers a prefix of the bytes it still holds,
    nothing only at the end, and takes nothing when it fails. *)
Class ReadLaw (R : Type) `{Read R} (content : R -> bytes) := {
  read_ok n r bs r' : read n r = (Ok bs, r') ->
    content r = bs ++ content r' /\ (length bs <= n)%nat /\
    ((0 < n)%nat -> bs = [] -> content r = []);
  read_err n r e r' : read n r = (Err e, r') -> content r' = content r
}.

(** A reader that never fails (a slice, a file in memory). *)
Class ReadTotal (R : Type) `{Read R} :=
  read_total n r : exists bs r', read n r = (Ok bs, r').

(** What a writer promises: it appends a prefix of what it is given. *)
Class WriteLaw (W : Type) `{Write W} (written : W -> bytes) :=
  write_ok bs w n w' : write bs w = (Ok n, w') ->
    written w' = written w ++ take n bs /\ (n <= length bs)%nat.

(** A writer that never fails and always takes a byte. *)
Class WriteTotal (W : Type) `{Write W} :=
  write_total bs w : bs <> [] -> exists n w', write bs w = (Ok n, w') /\ (0 < n)%nat.

(** [std::str::from_utf8] accepts the ASCII digits that the filter keeps, so the
    header is decoded as its hexadecimal value. *)
Definition hex_value (digit : Z) : Z :=
  match hex_digit digit with Ok v => v | Err _ => 0 end.
Definition from_radix16 (digits : bytes) : Z := foldl (fun acc d => acc * 16 + hex_value d) 0 digits.

(** [frame_length]. *)
Definition frame_length (header : bytes) : result Error Z :=
  let? length := (if forallb is_hexdigit header then Ok (from_radix16 header)
                  else Err (Protocol "pkt-line header")) in
  if (2 <? length) && negb ((4 <=? length) && (length <=? 65520))
  then Err (Protocol "pkt-line length") else Ok length.

(** [packet_length]. *)
Definition packet_length (header : bytes) : result Error Z :=
  let? length := frame_length header in
  if (length =? 1) || (length =? 2) then Err (Protocol "pkt-line length") else Ok length.

Section Wire.
Context {R : Type} `{Read R}.
Variable cancel : nat -> bool.

(** [Wire]: the reader, the byte budget, and the number of flag loads so far. *)
Record Wire := { reader : R; remaining : Z; loads : nat }.

Definition check_cancelled : SE Wire Error unit :=
  fun w => (if cancel (loads w) then Err Cancelled else Ok tt,
            {| reader := reader w; remaining := remaining w; loads := S (loads w) |}).

Definition charge (n : Z) : SE Wire Error unit :=
  fun w => match checked_sub (remaining w) n with
           | Some r => (Ok tt, {| reader := reader w; remaining := r; loads := loads w |})
           | None => (Err (Limit "wire bytes"), w)
           end.

(** One [self.reader.read(bytes)?]. *)
Definition read_some (n : nat) : SE Wire Error bytes :=
  fun w => match read n (reader w) with
           | (r, rd) => (map_err Io r, {| reader := rd; remaining := remaining w; loads := loads w |})
           end.

(** [exact]: fills a buffer of length [n]; every read delivers a byte or ends. *)
Fixpoint exact (fuel n : nat) : SE Wire Error bytes :=
  match n with
  | O => se_ret []
  | _ =>
      match fuel with
      | O => se_fail (Protocol "out of fuel")
      | S fuel' =>
          let! _ := check_cancelled in
          let! bs := read_some n in
          match bs with
          | [] => se_fail (Protocol "truncated pkt-line")
          | _ =>
              if (n <? length bs)%nat then se_fail (Protocol "reader overran its buffer")
              else let! more := exact fuel' (n - length bs) in se_ret (bs ++ more)
          end
      end
  end.

(** [Wire::frame]. *)
Definition frame : SE Wire Error Frame :=
  let! _ := charge 4 in
  let! header := exact 4 4 in
  let! length := se_lift (frame_length header) in
  if length =? 0 then se_ret Flush
  else if length =? 1 then se_ret Delim
  else if length =? 2 then se_ret ResponseEnd
  else
    let! _ := charge (length - 4) in
    let n := Z.to_nat (length - 4) in
    let! bs := exact n n in
    match strip_prefix (bstr "ERR ") bs with
    | Some message => se_fail (Remote message)
    | None => se_ret (Data bs)
    end.

(** [Wire::packet]: [None] is a flush. *)
Definition packet : SE Wire Error (option bytes) :=
  let! f := frame in
  match f with
  | Flush => se_ret None
  | Data bs => se_ret (Some bs)
  | Delim | ResponseEnd => se_fail (Protocol "pkt-line length")
  end.

(** The first byte of [frame_or_end]: an interrupted read is retried, at most
    [retries] times in the model. *)
Fixpoint read_first (retries : nat) : SE Wire Error bytes :=
  fun w => match read 1 (reader w) with
           | (Err Interrupted, rd) =>
               let w' := {| reader := rd; remaining := remaining w; loads := loads w |} in
               match retries with
               | O => (Err (Io Interrupted), w')
               | S retries' => read_first retries' w'
               end
           | (r, rd) =>
               (map_err Io r, {| reader := rd; remaining := remaining w; loads := loads w |})
           end.

(** [Wire::frame_or_end]: [None] when the stream ends before a header. *)
Definition frame_or_end (retries : nat) : SE Wire Error (option Frame) :=
  let! _ := check_cancelled in
  let! first := read_first retries in
  match first with
  | [] => se_ret None
  | first :: _ =>
      let! _ := charge 4 in
      let! tail := exact 3 3 in
      let! length := se_lift (frame_length (first :: tail)) in
      if length =? 0 then se_ret (Some Flush)
      else if length =? 1 then se_ret (Some Delim)
      else if length =? 2 then se_ret (Some ResponseEnd)
      else
        let! _ := charge (length - 4) in
        let n := Z.to_nat (length - 4) in
        let! bs := exact n n in
        se_ret (Some (Data bs))
  end.

(** [Wire::end]. *)
Definition end_ : SE Wire Error unit :=
  let! _ := check_cancelled in
  let! bs := read_some 1 in
  match bs with
  | [] => se_ret tt
  | _ => se_fail (Protocol "trailing response bytes")
  end.
End Wire.

Section Output.
Context {W : Type} `{Write W}.
Variable cancel : nat -> bool.

(** [put]; the state is the writer and the number of flag loads. *)
Fixpoint put (fuel : nat) (bs : bytes) : SE (W * nat) Error unit :=
  match bs with
  | [] => se_ret tt
  | _ =>
      match fuel with
      | O => se_fail (Protocol "out of fuel")
      | S fuel' =>
          fun '(w, k) =>
            if cancel k then (Err Cancelled, (w, S k))
            else match write bs w with
                 | (Err e, w') => (Err (Io e), (w', S k))
                 | (Ok n, w') =>
                     if (n =? 0)%nat then (Err (Io WriteZero), (w', S k))
                     else if (length bs <? n)%nat then (Err (Io InvalidData), (w', S k))
                     else put fuel' (drop n bs) (w', S k)
                 end
      end
  end.

(** [format!("{:04x}", n)]. *)
Definition hex4 (n : Z) : bytes :=
  map hex_char [n / 4096; n / 256 mod 16; n / 16 mod 16; n mod 16].

(** [packet]: header, then payload. *)
Definition put_packet (bs : bytes) : SE (W * nat) Error unit :=
  if 65516 <? zlen bs then se_fail (Protocol "pkt-line output length")
  else
    let! _ := put 4 (hex4 (zlen bs + 4)) in
    put (length bs) bs.
End Output.
Arguments Wire R : clear implicits.

(** * Headers *)

Lemma hex4_hexdigits n : 0 <= n < 65536 -> forallb is_hexdigit (hex4 n) = true.
Proof.
  intros Hn. assert (forall k, 0 <= k < 16 -> is_hexdigit (hex_char k) = true) as HX.
  { intros k Hk. apply hex_digit_char, hex_digit_Ok in Hk as (_ & _ & Hk). exact Hk. }
  unfold hex4. simpl. rewrite !HX; [done|..]; Z.div_mod_to_equations; lia.
Qed.

Lemma hex4_value n : 0 <= n < 65536 -> from_radix16 (hex4 n) = n.
Proof.
  intros Hn. unfold from_radix16, hex4, hex_value. simpl.
  rewrite !hex_digit_char; Z.div_mod_to_equations; lia.
Qed.

Lemma frame_length_hex4 n : 4 <= n <= 65520 -> frame_length (hex4 n) = Ok n.
Proof.
  intros Hn. unfold frame_length. rewrite hex4_hexdigits, hex4_value by lia. simpl.
  by zbool.
Qed.

Lemma from_radix16_nonneg l : 0 <= from_radix16 l.
Proof.
  unfold from_radix16. assert (forall acc, 0 <= acc -> 0 <= foldl (fun acc d => acc * 16 + hex_value d) acc l) as H;
    [|by apply H].
  induction l as [|d l IH]; intros acc Hacc; simpl; [done|]. apply IH. unfold hex_value.
  destruct (hex_digit d) eqn:E; [apply hex_digit_Ok in E|]; lia.
Qed.

Lemma frame_length_range header n :
  frame_length header = Ok n -> 0 <= n <= 2 \/ 4 <= n <= 65520.
Proof.
  unfold frame_length. intros (m & Hm & H)%rbind_Ok.
  destruct (forallb _ _); [|done]. injection Hm as <-.
  destruct (_ && _) eqn:E; [done|]. injection H as <-.
  pose proof (from_radix16_nonneg header). zbool.
Qed.

(** * Reading *)

Section Reading.
Context {R : Type} `{Read R} (content : R -> bytes) {law : ReadLaw R content}.
Context (cancel : nat -> bool).

(** Bytes taken from the stream between two states. *)
Definition consumed (w w' : Wire R) (bs : bytes) : Prop :=
  content (reader w) = bs ++ content (reader w').

(** [metered m p q]: started with [p] bytes paid for and not yet read, [m] reads
    no more than it has paid for, never overdraws the budget, and on success
    leaves [q] bytes paid for. *)
Definition metered {A} (m : SE (Wire R) Error A) (p : Z) (q : A -> Z) : Prop :=
  forall w r w', 0 <= remaining w -> m w = (r, w') ->
  exists bs, consumed w w' bs /\ 0 <= remaining w' /\
    match r with
    | Ok x => zlen bs + q x = remaining w - remaining w' + p
    | Err _ => zlen bs <= remaining w - remaining w' + p
    end.

Lemma metered_ret {A} (x : A) p q : q x = p -> metered (se_ret x) p q.
Proof. intros Hq w r w' Hw [= <- <-]. exists []. unfold consumed, zlen. simpl. split_and!; done || lia. Qed.

Lemma metered_fail {A} e p q : 0 <= p -> metered (A:=A) (se_fail e) p q.
Proof. intros Hp w r w' Hw [= <- <-]. exists []. unfold consumed, zlen. simpl. split_and!; done || lia. Qed.

Lemma metered_bind {A B} (m : SE (Wire R) Error A) (k : A -> SE (Wire R) Error B) p q s :
  metered m p q -> (forall x, metered (k x) (q x) s) -> metered (se_bind m k) p s.
Proof.
  intros Hm Hk w r w' Hw. unfold se_bind. destruct (m w) as [r1 w1] eqn:E1.
  apply Hm in E1 as (b1 & C1 & R1 & S1); [|done].
  destruct r1 as [x|e]; [|intros [= <- <-]; by exists b1].
  intros (b2 & C2 & R2 & S2)%Hk; [|done]. exists (b1 ++ b2). unfold consumed in *.
  rewrite C1, C2, <- app_assoc. split_and!; [done..|].
  unfold zlen in *. rewrite length_app. destruct r; lia.
Qed.

Lemma metered_lift {A B} (x : result Error A) (k : A -> SE (Wire R) Error B) p s :
  0 <= p -> (forall a, x = Ok a -> metered (k a) p s) -> metered (se_bind (se_lift x) k) p s.
Proof.
  intros Hp Hk. destruct x as [a|e]; [by apply (Hk a)|]. apply (metered_fail e p s Hp).
Qed.

Lemma metered_charge n p : 0 <= p -> 0 <= n -> metered (charge n) p (fun _ => p + n).
Proof.
  intros Hp Hn w r w' Hw. unfold charge, checked_sub, consumed, zlen.
  destruct (Z.leb_spec n (remaining w)); intros [= <- <-]; exists []; simpl; split_and!; done || lia.
Qed.

Lemma metered_check p : 0 <= p -> metered (check_cancelled cancel) p (fun _ => p).
Proof.
  intros Hp w r w' Hw. unfold check_cancelled, consumed, zlen.
  destruct (cancel _); intros [= <- <-]; exists []; simpl; split_and!; done || lia.
Qed.

Lemma metered_read {B} n (k : bytes -> SE (Wire R) Error B) p s :
  0 <= p -> (forall bs, (length bs <= n)%nat -> metered (k bs) (p - zlen bs) s) ->
  metered (se_bind (read_some n) k) p s.
Proof using law.
  intros Hp Hk w r w' Hw. unfold se_bind, read_some.
  destruct (read n (reader w)) as [[bs|e] rd] eqn:E; simpl.
  - apply read_ok in E as (Hc & Hl & _). intros (b2 & C2 & R2 & S2)%Hk; [|done..].
    exists (bs ++ b2). unfold consumed, zlen in *. simpl in *.
    rewrite Hc, C2, <- app_assoc, length_app. split_and!; [done..|]. destruct r; lia.
  - apply read_err in E. intros [= <- <-]. exists []. unfold consumed, zlen. simpl. split_and!; done || lia.
Qed.

Lemma metered_read_first k p :
  1 <= p -> metered (read_first k) p (fun bs => p - zlen bs).
Proof using law.
  intros Hp. induction k as [|k IH]; intros w r w' Hw; cbn [read_first];
    (destruct (read 1 (reader w)) as [[bs|e] rd] eqn:E;
      [apply read_ok in E as (Hc & Hl & _)|apply read_err in E]).
  1,3: intros [= <- <-]; exists bs; unfold consumed; simpl; split_and!; [done..|]; lia.
  - intros Hr. exists []. unfold consumed, zlen. destruct e; injection Hr as <- <-; simpl; split_and!; done || lia.
  - destruct e; cycle 1; [intros [= <- <-]; exists []; unfold consumed, zlen; simpl; split_and!; done || lia..|].
    intros Hr. apply IH in Hr as (bs & C & Hb); [|done]. exists bs. split; [|exact Hb].
    unfold consumed in *. simpl in C. congruence.
Qed.

Lemma metered_exact fuel n p :
  Z.of_nat n <= p -> (n <= fuel)%nat -> metered (exact cancel fuel n) p (fun _ => p - Z.of_nat n).
Proof using law.
  revert n p; induction fuel as [|fuel IH]; intros [|n] p Hp Hn; cbn [exact];
    [apply metered_ret; lia|lia|apply metered_ret; lia|].
  eapply metered_bind; [apply metered_check; lia|]. intros [].
  apply metered_read; [lia|]. intros bs Hbs. destruct bs as [|b bs].
  { apply metered_fail. unfold zlen. simpl. lia. }
  set (ch := b :: bs) in *. assert (0 < length ch)%nat by (simpl; lia).
  destruct (Nat.ltb_spec (S n) (length ch)); [lia|]. unfold zlen.
  eapply metered_bind; [apply IH; lia|]. intros more. apply metered_ret. lia.
Qed.

Lemma metered_frame : metered (frame cancel) 0 (fun _ => 0).
Proof using law.
  eapply metered_bind; [by apply metered_charge|]. intros [].
  eapply metered_bind; [apply metered_exact; lia|]. intros header.
  apply metered_lift; [lia|]. intros n Hn%frame_length_range. cbn beta.
  destruct (Z.eqb_spec n 0); [by apply metered_ret|].
  destruct (Z.eqb_spec n 1); [by apply metered_ret|].
  destruct (Z.eqb_spec n 2); [by apply metered_ret|].
  eapply metered_bind; [apply metered_charge; lia|]. intros [].
  eapply metered_bind; [apply metered_exact; lia|]. intros bs.
  destruct (strip_prefix _ _); [apply metered_fail|apply metered_ret]; lia.
Qed.

(** The wire budget is honest.  Whatever the peer sends, however the reader
    splits or fails, and whenever cancellation strikes: after [frame] returns (a
    frame or an error) the bytes taken from the stream never exceed the budget
    spent, the budget is not negative, and a returned frame cost exactly the bytes
    taken. *)
Theorem frame_budget w r w' :
  0 <= remaining w -> frame cancel w = (r, w') ->
  exists bs, consumed w w' bs /\ 0 <= remaining w' /\ zlen bs <= remaining w - remaining w' /\
    (forall f, r = Ok f -> zlen bs = remaining w - remaining w').
Proof using law.
  intros Hrem Hf. apply metered_frame in Hf as (bs & Hc & Hr & Hs); [|done].
  exists bs. split_and!; [done..| |]; destruct r; [lia..| |done]. intros _ _. lia.
Qed.

Context {total : ReadTotal R}.

Lemma exact_complete fuel n w bs rest :
  (forall k, cancel k = false) -> (n <= fuel)%nat ->
  content (reader w) = bs ++ rest -> length bs = n ->
  exists w', exact cancel fuel n w = (Ok bs, w') /\ content (reader w') = rest /\
    remaining w' = remaining w.
Proof using law total.
  intros Hc. revert n w bs; induction fuel as [|fuel IH]; intros n w bs Hn Hw Hl; cbn [exact].
  - destruct n; [|lia]. destruct bs; [|done]. by exists w.
  - destruct n as [|n]; [destruct bs; [|done]; by exists w|].
    unfold se_bind at 1, check_cancelled. rewrite Hc.
    unfold se_bind at 1, read_some. simpl.
    destruct (read_total (S n) (reader w)) as (got & rd & Hread). rewrite Hread. simpl.
    apply read_ok in Hread as (Hcg & Hlen & Hne).
    destruct got as [|g got].
    { rewrite Hne in Hw by (done || lia). destruct bs; done. }
    set (ch := g :: got) in *. destruct (Nat.ltb_spec (S n) (length ch)); [lia|].
    assert (take (length ch) bs = ch) as Ht.
    { rewrite Hcg in Hw. apply (f_equal (take (length ch))) in Hw.
      rewrite take_app_length, take_app_le in Hw by lia. done. }
    assert (bs = ch ++ drop (length ch) bs) as Hsplit by (rewrite <- Ht at 1; by rewrite take_drop).
    rewrite Hsplit, <- app_assoc, Hcg in Hw. apply app_inv_head in Hw.
    destruct (IH (S n - length ch)%nat {| reader := rd; remaining := remaining w; loads := S (loads w) |}
      (drop (length ch) bs)) as (w' & Hex & Hw' & Hrem);
      [simpl; lia|done|rewrite length_drop; lia|].
    exists w'. unfold se_bind. rewrite Hex. unfold se_ret. by rewrite <- Hsplit.
Qed.

Lemma charge_ok n (w : Wire R) : 0 <= n <= remaining w ->
  charge n w = (Ok tt, {| reader := reader w; remaining := remaining w - n; loads := loads w |}).
Proof. intros. unfold charge, checked_sub. by rewrite (proj2 (Z.leb_le _ _)) by lia. Qed.

(** A framed payload is read back, or reported as the peer's error message. *)
Lemma frame_payload w payload rest :
  (forall k, cancel k = false) ->
  content (reader w) = hex4 (zlen payload + 4) ++ payload ++ rest ->
  zlen payload <= 65516 -> zlen payload + 4 <= remaining w ->
  exists w', content (reader w') = rest /\ remaining w' = remaining w - (zlen payload + 4) /\
    frame cancel w = (match strip_prefix (bstr "ERR ") payload with
                      | Some message => Err (Remote message)
                      | None => Ok (Data payload)
                      end, w').
Proof using law total.
  intros Hc Hw Hp Hrem. unfold frame. unfold zlen in *.
  unfold se_bind at 1. rewrite charge_ok by lia.
  destruct (exact_complete 4 4 {| reader := reader w; remaining := remaining w - 4; loads := loads w |}
    _ _ Hc (le_n _) Hw) as (w1 & E1 & C1 & R1); [done|].
  unfold se_bind at 1. rewrite E1. unfold se_bind at 1, se_lift. rewrite frame_length_hex4 by lia.
  do 3 (rewrite (proj2 (Z.eqb_neq _ _)) by lia). simpl in R1.
  unfold se_bind at 1. rewrite charge_ok by lia.
  replace (Z.to_nat (Z.of_nat (length payload) + 4 - 4)) with (length payload) by lia.
  destruct (exact_complete (length payload) (length payload)
    {| reader := reader w1; remaining := remaining w1 - (Z.of_nat (length payload) + 4 - 4); loads := loads w1 |}
    _ _ Hc (le_n _) C1 eq_refl) as (w2 & E2 & C2 & R2).
  unfold se_bind at 1. rewrite E2. simpl in R2. exists w2. split; [done|]. split; [lia|].
  by destruct (strip_prefix _ _).
Qed.

(** [n] frames in a row. *)
Fixpoint frames (n : nat) : SE (Wire R) Error (list Frame) :=
  match n with
  | O => se_ret []
  | S n => let! f := frame cancel in let! more := frames n in se_ret (f :: more)
  end.

(** A sequence of payloads as pkt-lines. *)
Definition framed (ps : list bytes) : bytes := concat (map (fun p => hex4 (zlen p + 4) ++ p) ps).

Lemma framed_cons p ps rest :
  framed (p :: ps) ++ rest = hex4 (zlen p + 4) ++ p ++ framed ps ++ rest.
Proof. unfold framed. cbn [map concat]. by rewrite <- !app_assoc. Qed.

Lemma zlen_framed_cons p ps : zlen (framed (p :: ps)) = zlen p + 4 + zlen (framed ps).
Proof. unfold framed, zlen. cbn [map concat]. rewrite !length_app. simpl. lia. Qed.

Lemma frames_framed ps rest w :
  (forall k, cancel k = false) ->
  content (reader w) = framed ps ++ rest ->
  Forall (fun p => zlen p <= 65516 /\ strip_prefix (bstr "ERR ") p = None) ps ->
  zlen (framed ps) <= remaining w ->
  exists w', frames (length ps) w = (Ok (map Data ps), w') /\ content (reader w') = rest /\
    remaining w' = remaining w - zlen (framed ps).
Proof using law total.
  intros Hc. revert w; induction ps as [|p ps IH]; intros w Hw HF Hrem.
  { exists w. unfold zlen. simpl in *. split_and!; done || lia. }
  apply Forall_cons in HF as [[Hp HE] HF].
  rewrite zlen_framed_cons in *. rewrite framed_cons in Hw.
  pose proof (zlen_nonneg (framed ps)).
  destruct (frame_payload w p (framed ps ++ rest)) as (w1 & C1 & R1 & F1); [done..|lia|].
  rewrite HE in F1. destruct (IH w1) as (w2 & F2 & C2 & R2); [done..|lia|]. cbn [length frames map].
  unfold se_bind. rewrite F1, F2. exists w2. split_and!; done || lia.
Qed.
End Reading.

Section Writing.
Context {W : Type} `{Write W} (written : W -> bytes) {law : WriteLaw W written} {total : WriteTotal W}.
Context (cancel : nat -> bool) (Hcancel : forall k, cancel k = false).

Lemma put_complete fuel bs w k :
  (length bs <= fuel)%nat ->
  exists w' k', put cancel fuel bs (w, k) = (Ok tt, (w', k')) /\ written w' = written w ++ bs.
Proof using law total Hcancel.
  revert bs w k; induction fuel as [|fuel IH]; intros [|b bs] w k Hf; cbn [put]; [|simpl in Hf; lia|..].
  1,2: exists w, k; by rewrite app_nil_r.
  set (l := b :: bs) in *. rewrite Hcancel. destruct (write_total l w) as (n & w1 & E & Hn); [done|].
  rewrite E. apply write_ok in E as [Ew En].
  destruct (Nat.eqb_spec n 0); [lia|]. destruct (Nat.ltb_spec (length l) n); [lia|].
  destruct (IH (drop n l) w1 (S k)) as (w2 & k2 & -> & E2); [rewrite length_drop; lia|].
  exists w2, k2. by rewrite E2, Ew, <- app_assoc, take_drop.
Qed.

Lemma put_packet_complete p w k :
  zlen p <= 65516 ->
  exists w' k', put_packet cancel p (w, k) = (Ok tt, (w', k')) /\
    written w' = written w ++ hex4 (zlen p + 4) ++ p.
Proof using law total Hcancel.
  intros Hp. unfold put_packet. destruct (Z.ltb_spec 65516 (zlen p)); [lia|].
  destruct (put_complete 4 (hex4 (zlen p + 4)) w k) as (w1 & k1 & E1 & W1); [simpl; lia|].
  unfold se_bind. rewrite E1.
  destruct (put_complete (length p) p w1 k1) as (w2 & k2 & E2 & W2); [lia|].
  exists w2, k2. by rewrite E2, W2, W1, <- app_assoc.
Qed.

(** Packets written in a row. *)
Fixpoint put_packets (ps : list bytes) : SE (W * nat) Error unit :=
  match ps with
  | [] => se_ret tt
  | p :: ps => let! _ := put_packet cancel p in put_packets ps
  end.

Lemma put_packets_complete ps w k :
  Forall (fun p => zlen p <= 65516) ps ->
  exists w' k', put_packets ps (w, k) = (Ok tt, (w', k')) /\ written w' = written w ++ framed ps.
Proof using law total Hcancel.
  revert w k; induction ps as [|p ps IH]; intros w k; cbn [put_packets].
  { intros _. exists w, k. unfold framed. simpl. by rewrite app_nil_r. }
  intros [Hp HF]%Forall_cons. destruct (put_packet_complete p w k Hp) as (w1 & k1 & E1 & W1).
  unfold se_bind. rewrite E1. destruct (IH w1 k1 HF) as (w2 & k2 & E2 & W2).
  exists w2, k2. rewrite E2, W2, W1. unfold framed. simpl. by rewrite <- !app_assoc.
Qed.
End Writing.

(** Pkt-line round trip between any writer and any reader that keep their
    laws, however each splits the bytes: a sequence of payloads of at most 65516
    bytes, none of them an [ERR] packet, is written without error, and reading as
    many frames from a stream that starts with what was written returns exactly
    those payloads and leaves the rest of the stream. *)
Theorem packets_roundtrip {R W} `{Read R, Write W} (content : R -> bytes) (written : W -> bytes)
    `{!ReadLaw R content, !ReadTotal R, !WriteLaw W written, !WriteTotal W} cancel ps (w : W) k :
  (forall k, cancel k = false) ->
  Forall (fun p => zlen p <= 65516 /\ strip_prefix (bstr "ERR ") p = None) ps ->
  exists w' k' out, put_packets cancel ps (w, k) = (Ok tt, (w', k')) /\
    written w' = written w ++ out /\
    forall (r : Wire R) rest, content (reader r) = out ++ rest -> zlen out <= remaining r ->
    exists r', frames cancel (length ps) r = (Ok (map Data ps), r') /\ content (reader r') = rest.
Proof.
  intros Hc HF.
  destruct (put_packets_complete written cancel Hc ps w k) as (w' & k' & E & Hw);
    [eapply Forall_impl; [exact HF|]; by intros ? []|].
  exists w', k', (framed ps). split; [done|]. split; [done|]. intros r rest Hr Hb.
  destruct (frames_framed content cancel ps rest r) as (r' & F & C & _); eauto.
Qed.

(** an [ERR] packet is never handed to the caller as data: [frame] reports the
    rest of its payload as the peer's message, and consumes the whole packet. *)
Theorem frame_remote {R} `{Read R} (content : R -> bytes) `{!ReadLaw R content, !ReadTotal R}
    cancel (w : Wire R) message rest :
  (forall k, cancel k = false) ->
  content (reader w) = hex4 (zlen message + 8) ++ bstr "ERR " ++ message ++ rest ->
  zlen message <= 65512 -> zlen message + 8 <= remaining w ->
  exists w', frame cancel w = (Err (Remote message), w') /\ content (reader w') = rest.
Proof.
  intros Hc Hw Hm Hb.
  assert (zlen (bstr "ERR " ++ message) = zlen message + 4) as HL
    by (unfold zlen; rewrite length_app; simpl; lia).
  destruct (frame_payload content cancel w (bstr "ERR " ++ message) rest) as (w' & C & _ & F);
    [done| |lia..|].
  { rewrite Hw, HL. replace (zlen message + 4 + 4) with (zlen message + 8) by lia. by rewrite <- app_assoc. }
  exists w'. split; [|done]. rewrite F. done.
Qed.

(** * A stream in pieces

    A reader over bytes in memory that delivers at most the listed numbers of
    bytes (plus one) per call, and a writer that accepts at most so many. *)
#[export] Instance pieces_read : Read (bytes * list nat) := fun n '(bs, sizes) =>
  let m := Nat.min n (match sizes with k :: _ => S k | [] => length bs end) in
  (Ok (take m bs), (drop m bs, tail sizes)).
#[export] Instance pieces_write : Write (bytes * list nat) := fun bs '(acc, sizes) =>
  let m := Nat.min (length bs) (match sizes with k :: _ => S k | [] => length bs end) in
  (Ok m, (acc ++ take m bs, tail sizes)).

#[export] Instance pieces_read_law : ReadLaw (bytes * list nat) fst.
Proof.
  split.
  - intros n [bs sizes] out r'. unfold read, pieces_read. intros [= <- <-]. simpl.
    rewrite take_drop. split; [done|]. split; [rewrite length_take; lia|].
    intros Hn Ht. apply (f_equal length) in Ht. rewrite length_take in Ht. simpl in Ht.
    destruct bs; [done|]. destruct sizes; simpl in Ht; lia.
  - by intros n [bs sizes] e r'.
Qed.

#[export] Instance pieces_read_total : ReadTotal (bytes * list nat).
Proof. intros n [bs sizes]. unfold read, pieces_read. eauto. Qed.

#[export] Instance pieces_write_law : WriteLaw (bytes * list nat) fst.
Proof. intros bs [acc sizes] n w'. unfold write, pieces_write. intros [= <- <-]. simpl. split; [done|lia]. Qed.

#[export] Instance pieces_write_total : WriteTotal (bytes * list nat).
Proof.
  intros bs [acc sizes] Hb. unfold write, pieces_write. do 2 eexists. split; [done|].
  destruct bs; [done|]. destruct sizes; simpl; lia.
Qed.

Definition live (k : nat) : bool := false.

(** Two packets through a writer that takes one byte at first, read in pieces of
    two and one bytes. *)
Lemma packets_roundtrip_witness :
  exists w' k' out,
    put_packets live [bstr "want"; bstr "done"] (([], [0; 0; 2]%nat), O) = (Ok tt, (w', k')) /\
    fst w' = [] ++ out /\
    forall (r : Wire (bytes * list nat)) rest, fst (reader r) = out ++ rest -> zlen out <= remaining r ->
    exists r', frames live 2 r = (Ok [Data (bstr "want"); Data (bstr "done")], r') /\ fst (reader r') = rest.
Proof.
  apply (packets_roundtrip (R:=bytes * list nat) fst fst live [bstr "want"; bstr "done"] ([], [0; 0; 2]%nat) 0).
  - done.
  - repeat constructor; done.
Defined.

Lemma frame_remote_witness :
  exists w', frame live {| reader := (bstr "0009ERR x0000", [1; 0]%nat); remaining := 20; loads := 0 |} =
    (Err (Remote (bstr "x")), w') /\ fst (reader w') = bstr "0000".
Proof. apply (frame_remote fst live _ (bstr "x") (bstr "0000")); vm_compute; done. Defined.

Lemma frame_budget_witness :
  exists bs w', frame live {| reader := (bstr "0008ab", [1; 0]%nat); remaining := 9; loads := 0 |} =
      (Err (Protocol "truncated pkt-line"), w') /\
    consumed fst {| reader := (bstr "0008ab", [1; 0]%nat); remaining := 9; loads := 0 |} w' bs /\
    0 <= remaining w'.
Proof.
  set (w := {| reader := (bstr "0008ab", [1; 0]%nat); remaining := 9; loads := 0 |}).
  destruct (frame_budget fst live w (Err (Protocol "truncated pkt-line")) (snd (frame live w)))
    as (bs & Hc & Hr & _); [done|vm_compute; done|].
  exists bs, (snd (frame live w)). split; [vm_compute; done|]. split; assumption.
Defined.
End Packets.
