(* ===== verification/Wildmatch.v ===== *)
(** * Byte globs ([src/src/wildmatch.rs])

    The dynamic-programming matcher shared by config include conditions,
    retention patterns and pathspecs, and its equivalence with the token sequence
    of the pattern: a text matches when it is a concatenation of segments, one per
    token.  [WildmatchGrammar.v] states the grammar those tokens follow. *)

From stdpp Require Import base list numbers strings sets.
From Stdlib Require Import ZArith Lia.
From S2P Require Import Prelude Bytes.

Module Wildmatch.
Import Bytes.

(** ** Bracket expressions *)

(** [class_byte]: one member, unescaping a backslash that has a following byte. *)
Definition class_byte (pattern : bytes) : option (Z * bytes) :=
  match pattern with
  | [] => None
  | byte :: rest =>
      match rest with
      | escaped :: rest' => if byte =? 92 then Some (escaped, rest') else Some (byte, rest)
      | [] => Some (byte, rest)
      end
  end.

(** [named_class]: a leading [[:name:]]. *)
Definition named_class (pattern : bytes) : option (bytes * bytes) :=
  match strip_prefix (bstr "[:") pattern with
  | None => None
  | Some body =>
      match split_once body 93 with
      | None => None
      | Some (name, after) =>
          match strip_suffix (bstr ":") name with
          | None => None
          | Some name => Some (name, after)
          end
      end
  end.

Definition is_graphic (b : Z) : bool := (33 <=? b) && (b <=? 126).
Definition is_punct (b : Z) : bool := is_graphic b && negb (is_alpha b || is_digit b).
Definition is_control (b : Z) : bool := (b <=? 31) || (b =? 127).

(** [named]: the POSIX class names. *)
Definition named (name : bytes) (byte : Z) : option bool :=
  if bytes_eqb name (bstr "alnum") then Some (is_alpha byte || is_digit byte)
  else if bytes_eqb name (bstr "alpha") then Some (is_alpha byte)
  else if bytes_eqb name (bstr "blank") then Some ((byte =? 32) || (byte =? 9))
  else if bytes_eqb name (bstr "cntrl") then Some (is_control byte)
  else if bytes_eqb name (bstr "digit") then Some (is_digit byte)
  else if bytes_eqb name (bstr "graph") then Some (is_graphic byte)
  else if bytes_eqb name (bstr "lower") then Some (is_lower byte)
  else if bytes_eqb name (bstr "print") then Some (is_graphic byte || (byte =? 32))
  else if bytes_eqb name (bstr "punct") then Some (is_punct byte)
  else if bytes_eqb name (bstr "space") then Some (is_whitespace byte)
  else if bytes_eqb name (bstr "upper") then Some (is_upper byte)
  else if bytes_eqb name (bstr "xdigit") then Some (is_hexdigit byte)
  else None.

(** The loop of [class]; every turn drops a byte, so [length pattern] turns do. *)
Fixpoint class_loop (fuel : nat) (pattern : bytes) (lower upper : Z) (found : bool) : option bool :=
  match pattern, fuel with
  | [], _ | _, O => Some found
  | _ :: _, S fuel =>
      match named_class pattern with
      | Some (name, after) =>
          match named name lower with
          | None => None
          | Some true => class_loop fuel after lower upper true
          | Some false =>
              match named name upper with
              | None => None
              | Some m => class_loop fuel after lower upper (found || m)
              end
          end
      | None =>
          match class_byte pattern with
          | None => Some found
          | Some (first, rest) =>
              match (if 2 <=? zlen rest then
                       match strip_prefix (bstr "-") rest with
                       | Some range => class_byte range
                       | None => None
                       end
                     else None) with
              | Some (last, rest') =>
                  class_loop fuel rest' lower upper
                    (found || (((first <=? lower) && (lower <=? last)) ||
                               ((first <=? upper) && (upper <=? last))))
              | None => class_loop fuel rest lower upper (found || (first =? lower))
              end
          end
      end
  end.

(** [class]: [None] for an unknown named class. *)
Definition class (pattern : bytes) (byte : Z) (fold : bool) : option bool :=
  let (lower, upper) := if fold then (to_lower byte, to_upper byte) else (byte, byte) in
  let negative := match pattern with b :: _ => (b =? 33) || (b =? 94) | [] => false end in
  let pattern := if negative then tail pattern else pattern in
  match class_loop (length pattern) pattern lower upper false with
  | None => None
  | Some found => Some (xorb found negative)
  end.

(** One turn of the loop of [class_end] past a member. *)
Definition skip_member (rest : bytes) : option bytes :=
  match named_class rest with
  | Some (_, after) => Some after
  | None =>
      match class_byte rest with
      | None => None
      | Some (_, after) =>
          Some match after with
               | 45 :: range =>
                   if match range with b :: _ => negb (b =? 93) | [] => false end
                   then match class_byte range with Some (_, after') => after' | None => after end
                   else after
               | _ => after
               end
      end
  end.

(** The loop of [class_end]. *)
Fixpoint class_end_loop (fuel : nat) (total : nat) (first : bool) (rest : bytes) : option nat :=
  if negb first && match rest with b :: _ => b =? 93 | [] => false end
  then Some (total - length rest)%nat
  else
    match fuel with
    | O => None
    | S fuel =>
        match skip_member rest with
        | None => None
        | Some rest' => class_end_loop fuel total false rest'
        end
    end.

(** [class_end]: the index of the closing bracket. *)
Definition class_end (pattern : bytes) (start : nat) : option nat :=
  if (length pattern <? start)%nat then None
  else
    let body := drop start pattern in
    let rest := match strip_prefix (bstr "!") body with
                | Some r => r
                | None => match strip_prefix (bstr "^") body with Some r => r | None => body end
                end in
    class_end_loop (length rest) (length pattern) true rest.

(** ** Rows *)

(** [next[i] = previous[i] || (next[i-1] && ok text[i-1])]. *)
Fixpoint star_tail (ok : Z -> bool) (last : bool) (previous : list bool) (text : bytes) : list bool :=
  match previous, text with
  | p :: previous, c :: text =>
      let n := p || (last && ok c) in n :: star_tail ok n previous text
  | _, _ => []
  end.
Definition star_row (ok : Z -> bool) (previous : list bool) (text : bytes) : list bool :=
  match previous with p :: ps => p :: star_tail ok p ps text | [] => [] end.

(** [next[i] = previous[i] || (i > 0 && text[i-1] == '/' && reachable)], then
    [reachable |= previous[i]]. *)
Fixpoint dirs_tail (reachable : bool) (previous : list bool) (text : bytes) : list bool :=
  match previous, text with
  | p :: previous, c :: text =>
      (p || ((c =? 47) && reachable)) :: dirs_tail (reachable || p) previous text
  | _, _ => []
  end.
Definition dirs_row (previous : list bool) (text : bytes) : list bool :=
  match previous with p :: ps => p :: dirs_tail p ps text | [] => [] end.

(** [next[i] = previous[i-1] && ok text[i-1]]; [next[0]] stays false. *)
Fixpoint one_tail (ok : Z -> bool) (previous : list bool) (text : bytes) : list bool :=
  match previous, text with
  | p :: previous, c :: text => (p && ok c) :: one_tail ok previous text
  | _, _ => []
  end.
Definition one_row (ok : Z -> bool) (previous : list bool) (text : bytes) : list bool :=
  false :: one_tail ok previous text.

(** The row of a bracket expression; [None] when a live position meets an unknown
    named class. *)
Fixpoint class_tail (members : bytes) (fold pathname : bool) (previous : list bool) (text : bytes)
  : option (list bool) :=
  match previous, text with
  | p :: previous, c :: text =>
      if p && (negb pathname || negb (c =? 47)) then
        match class members c fold with
        | None => None
        | Some matched =>
            match class_tail members fold pathname previous text with
            | None => None
            | Some next => Some (matched :: next)
            end
        end
      else
        match class_tail members fold pathname previous text with
        | None => None
        | Some next => Some (false :: next)
        end
  | _, _ => Some []
  end.

(** [pos] after the run of [*] at [pos]. *)
Fixpoint skip_stars (pattern : bytes) (pos : nat) : nat :=
  match pattern with
  | 42 :: pattern => skip_stars pattern (S pos)
  | _ => pos
  end.

(** The whole loop of [matches_with_pathname] over the pattern: an early
    [return Some(false)] is [false]. *)
Fixpoint match_loop (fuel : nat) (pattern text : bytes) (fold pathname : bool)
    (pos : nat) (previous : list bool) : bool :=
  match pattern !! pos with
  | None => default false (last previous)
  | Some byte =>
      match fuel with
      | O => false
      | S fuel =>
          if byte =? 42 then
            let start := pos in
            let pos := skip_stars (drop pos pattern) pos in
            let recursive :=
              pathname && (2 <=? pos - start)%nat &&
              ((start =? 0)%nat || bool_decide (pattern !! (start - 1)%nat = Some 47)) &&
              ((pos =? length pattern)%nat || bool_decide (pattern !! pos = Some 47)) in
            if recursive && bool_decide (pattern !! pos = Some 47) then
              match_loop fuel pattern text fold pathname (S pos) (dirs_row previous text)
            else
              match_loop fuel pattern text fold pathname pos
                (star_row (fun c => negb pathname || recursive || negb (c =? 47)) previous text)
          else if byte =? 63 then
            match_loop fuel pattern text fold pathname (S pos)
              (one_row (fun c => negb pathname || negb (c =? 47)) previous text)
          else if byte =? 91 then
            match class_end pattern (S pos) with
            | None => false
            | Some end_ =>
                let members := take (end_ - S pos) (drop (S pos) pattern) in
                match class_tail members fold pathname previous text with
                | None => false
                | Some next => match_loop fuel pattern text fold pathname (S end_) (false :: next)
                end
            end
          else
            match (if byte =? 92 then
                     match pattern !! S pos with Some b => Some (b, S pos) | None => None end
                   else Some (byte, pos)) with
            | None => false
            | Some (literal, pos) =>
                match_loop fuel pattern text fold pathname (S pos)
                  (one_row (fun c => (c =? literal) || (fold && (to_lower c =? to_lower literal)))
                     previous text)
            end
      end
  end.

(** [matches_with_pathname]: [None] when the table would exceed [cells]. *)
Definition matches_with_pathname (pattern text : bytes) (fold : bool) (cells : Z) (pathname : bool)
  : option bool :=
  if cells <? saturating_mul (saturating_add (zlen pattern) 1) (saturating_add (zlen text) 1)
  then None
  else Some (match_loop (length pattern) pattern text fold pathname 0
               (true :: replicate (length text) false)).

Definition matches_ (pattern text : bytes) (fold : bool) (cells : Z) : option bool :=
  matches_with_pathname pattern text fold cells true.
Definition matches_without_pathname (pattern text : bytes) (cells : Z) : option bool :=
  matches_with_pathname pattern text false cells false.

(** ** The token sequence the loop follows *)

(** Pattern tokens, independent of any text. *)
Inductive token :=
| Star (crosses : bool)      (* a run of stars; [crosses] when it may span '/' *)
| Dirs                       (* [**/]: any number of leading directories *)
| Any                        (* [?] *)
| Class (members : bytes)
| Literal (byte : Z).

(** The token at [pos] and the position after it. *)
Definition token_at (pattern : bytes) (pathname : bool) (pos : nat) (byte : Z) : option (token * nat) :=
  if byte =? 42 then
    let stop := skip_stars (drop pos pattern) pos in
    let component :=
      pathname && (2 <=? stop - pos)%nat &&
      ((pos =? 0)%nat || bool_decide (pattern !! (pos - 1)%nat = Some 47)) &&
      ((stop =? length pattern)%nat || bool_decide (pattern !! stop = Some 47)) in
    if component && bool_decide (pattern !! stop = Some 47) then Some (Dirs, S stop)
    else Some (Star (negb pathname || component), stop)
  else if byte =? 63 then Some (Any, S pos)
  else if byte =? 91 then
    match class_end pattern (S pos) with
    | None => None
    | Some e => Some (Class (take (e - S pos) (drop (S pos) pattern)), S e)
    end
  else if byte =? 92 then
    match pattern !! S pos with Some b => Some (Literal b, S (S pos)) | None => None end
  else Some (Literal byte, S pos).

(** [Tokens pattern pathname pos ts]: from [pos] on, the pattern reads as [ts]. *)
Inductive Tokens (pattern : bytes) (pathname : bool) : nat -> list token -> Prop :=
| Tokens_end pos : pattern !! pos = None -> Tokens pattern pathname pos []
| Tokens_cons pos byte t pos' ts :
    pattern !! pos = Some byte -> token_at pattern pathname pos byte = Some (t, pos') ->
    Tokens pattern pathname pos' ts -> Tokens pattern pathname pos (t :: ts).

(** The texts one token matches. *)
Definition segment (fold pathname : bool) (t : token) (s : bytes) : Prop :=
  match t with
  | Star crosses => crosses = true \/ 47 ∉ s
  | Dirs => s = [] \/ exists p, s = p ++ [47]
  | Any => exists c, s = [c] /\ (pathname = true -> c <> 47)
  | Class members => exists c, s = [c] /\ (pathname = true -> c <> 47) /\ class members c fold = Some true
  | Literal b => exists c, s = [c] /\ (c = b \/ (fold = true /\ to_lower c = to_lower b))
  end.

(** The texts a token sequence matches. *)
Fixpoint Glob (fold pathname : bool) (ts : list token) (text : bytes) : Prop :=
  match ts with
  | [] => text = []
  | t :: ts => exists s rest, text = s ++ rest /\ segment fold pathname t s /\ Glob fold pathname ts rest
  end.

(** ** Bracket expressions: fuel, bounds, and independence of the text byte *)

Lemma class_byte_length p b rest : class_byte p = Some (b, rest) -> (length rest < length p)%nat.
Proof. destruct p as [|x [|y p]]; simpl; [done|..]; [|destruct (x =? 92)]; intros [= <- <-]; simpl; lia. Qed.

(** What [split_once] returns is shorter than its input. *)
Lemma named_class_length p name after : named_class p = Some (name, after) -> (length after < length p)%nat.
Proof.
  unfold named_class. destruct (strip_prefix _ p) as [body|] eqn:E; [|done].
  apply strip_prefix_Some in E as ->.
  destruct (split_once body 93) as [[n a]|] eqn:Es; [|done].
  apply split_once_Some in Es as (-> & _). destruct (strip_suffix _ n); [|done].
  intros [= <- <-]. rewrite !length_app. simpl. lia.
Qed.

Lemma class_loop_fuel f1 f2 p l u b :
  (length p <= f1)%nat -> (length p <= f2)%nat -> class_loop f1 p l u b = class_loop f2 p l u b.
Proof.
  revert f2 p b; induction f1 as [|f1 IH]; intros [|f2] [|x p] b H1 H2; try done; try (simpl in *; lia).
  cbn [class_loop].
  destruct (named_class (x :: p)) as [[name after]|] eqn:En.
  { apply named_class_length in En. destruct (named name l) as [[]|]; [apply IH; lia| |done].
    destruct (named name u); [apply IH; lia|done]. }
  destruct (class_byte (x :: p)) as [[first rest]|] eqn:Eb; [|done]. apply class_byte_length in Eb.
  destruct (2 <=? zlen rest); [|apply IH; lia].
  destruct (strip_prefix (bstr "-") rest) as [range|] eqn:Es; [|apply IH; lia].
  apply strip_prefix_Some in Es. subst rest. rewrite length_app in Eb.
  destruct (class_byte range) as [[lst rest]|] eqn:Er; [|apply IH; rewrite length_app; lia].
  apply class_byte_length in Er. apply IH; lia.
Qed.

Lemma named_None name b b' : named name b = None -> named name b' = None.
Proof. unfold named. repeat case_match; done. Qed.

(** Whether a bracket expression names an unknown class depends on the pattern only. *)
Lemma class_loop_None f p l u b l' u' b' :
  class_loop f p l u b = None -> class_loop f p l' u' b' = None.
Proof.
  revert p b b'; induction f as [|f IH]; intros [|x p] b b'; try done. cbn [class_loop].
  destruct (named_class (x :: p)) as [[name after]|].
  { destruct (named name l) as [m|] eqn:E.
    - intros H. assert (class_loop f after l' u' true = None /\ forall c, class_loop f after l' u' c = None) as [H1 H2].
      { destruct m; [split; eauto|]. destruct (named name u) eqn:E'; [split; eauto|].
        rewrite (named_None _ _ l E') in E. done. }
      destruct (named name l') as [[]|]; [done| |done]. destruct (named name u'); [|done]. apply H2.
    - intros _. by rewrite (named_None _ _ l' E). }
  destruct (class_byte (x :: p)) as [[first rest]|]; [|done].
  match goal with |- match ?o with _ => _ end = _ -> _ => destruct o as [[]|] end; apply IH.
Qed.

Lemma class_None members c c' fold : class members c fold = None -> class members c' fold = None.
Proof.
  unfold class. destruct fold; intros H; (destruct (class_loop _ _ _ _ _) eqn:E in H; [done|]);
    by rewrite (class_loop_None _ _ _ _ _ _ _ _ E).
Qed.

Lemma skip_member_length rest rest' : skip_member rest = Some rest' -> (length rest' < length rest)%nat.
Proof.
  unfold skip_member. destruct (named_class rest) as [[name after]|] eqn:En.
  { intros [= <-]. by apply named_class_length in En. }
  destruct (class_byte rest) as [[b after]|] eqn:Eb; [|done]. apply class_byte_length in Eb.
  intros [= <-]. destruct after as [|a range]; [done|]. repeat case_match; subst; try lia.
  match goal with H : class_byte _ = Some _ |- _ => apply class_byte_length in H end. simpl in *. lia.
Qed.

Lemma class_byte_suffix p b rest : class_byte p = Some (b, rest) -> rest `suffix_of` p.
Proof.
  destruct p as [|x [|y p]]; simpl; [done|..]; [|destruct (x =? 92)]; intros [= <- <-];
    [by exists [x]|by exists [x; y]|by exists [x]].
Qed.

Lemma named_class_suffix p name after : named_class p = Some (name, after) -> after `suffix_of` p.
Proof.
  unfold named_class. destruct (strip_prefix _ p) as [body|] eqn:E; [|done].
  apply strip_prefix_Some in E as ->.
  destruct (split_once body 93) as [[n a]|] eqn:Es; [|done].
  apply split_once_Some in Es as (-> & _). destruct (strip_suffix _ n); [|done].
  intros [= <- <-]. exists (bstr "[:" ++ n ++ [93]). by rewrite <- !app_assoc.
Qed.

Lemma skip_member_suffix rest rest' : skip_member rest = Some rest' -> rest' `suffix_of` rest.
Proof.
  unfold skip_member. destruct (named_class rest) as [[name after]|] eqn:En.
  { intros [= <-]. by eapply named_class_suffix. }
  destruct (class_byte _) as [[b after]|] eqn:Eb; [|done]. apply class_byte_suffix in Eb.
  intros [= <-]. destruct after as [|c range]; [done|]. repeat case_match; subst; try done.
  etrans; [eapply class_byte_suffix; eassumption|]. etrans; [|exact Eb]. by exists [45].
Qed.

Lemma class_end_loop_spec fuel pattern first rest e :
  rest `suffix_of` pattern -> class_end_loop fuel (length pattern) first rest = Some e ->
  (length pattern - length rest <= e)%nat /\ pattern !! e = Some 93.
Proof.
  revert first rest; induction fuel as [|fuel IH]; intros first rest [pre Hpre] He; cbn [class_end_loop] in He;
    (destruct (negb first && _) eqn:E;
      [apply andb_prop in E as [_ E]; destruct rest as [|b rest]; [done|];
       apply Z.eqb_eq in E as ->; assert (e = (length pattern - length (93%Z :: rest))%nat) as -> by congruence;
       split; [lia|]; rewrite Hpre, length_app, list_lookup_middle; [done|lia]|]); [done|].
  destruct (skip_member rest) as [rest'|] eqn:Es; [|done].
  pose proof (skip_member_length _ _ Es). apply skip_member_suffix in Es.
  apply IH in He as [He1 He2]; [split; [lia|done]|]. etrans; [exact Es|]. by exists pre.
Qed.

(** The index [class_end] returns is in bounds and is a closing bracket. *)
Lemma class_end_bounds pattern start e :
  class_end pattern start = Some e -> (start <= e < length pattern)%nat /\ pattern !! e = Some 93.
Proof.
  unfold class_end. destruct (Nat.ltb_spec (length pattern) start); [done|]. intros He.
  assert (drop start pattern `suffix_of` pattern) as Hd
    by (exists (take start pattern); by rewrite take_drop).
  apply class_end_loop_spec in He as [He1 He2].
  - split; [|done]. split; [|by eapply lookup_lt_Some].
    assert (forall r, strip_prefix (bstr "!") (drop start pattern) = Some r \/
      strip_prefix (bstr "^") (drop start pattern) = Some r -> S (length r) = length (drop start pattern)) as HS.
    { intros r [Hr|Hr]; apply strip_prefix_Some in Hr as ->; done. }
    rewrite length_drop in HS.
    destruct (strip_prefix (bstr "!") _) as [r|]; [specialize (HS r (or_introl eq_refl)); lia|].
    destruct (strip_prefix (bstr "^") _) as [r|]; [specialize (HS r (or_intror eq_refl)); lia|].
    rewrite length_drop in He1. lia.
  - destruct (strip_prefix (bstr "!") _) as [r|] eqn:E1;
      [|destruct (strip_prefix (bstr "^") _) as [r|] eqn:E2; [|done]].
    + apply strip_prefix_Some in E1. etrans; [|exact Hd]. rewrite E1. by exists (bstr "!").
    + apply strip_prefix_Some in E2. etrans; [|exact Hd]. rewrite E2. by exists (bstr "^").
Qed.

(** [class_end_loop] does not run out of fuel: more fuel changes nothing. *)
Lemma class_end_loop_fuel f1 f2 total first rest :
  (length rest <= f1)%nat -> (length rest <= f2)%nat ->
  class_end_loop f1 total first rest = class_end_loop f2 total first rest.
Proof.
  revert f2 first rest; induction f1 as [|f1 IH]; intros [|f2] first rest H1 H2; cbn [class_end_loop];
    [done|..]; (destruct (negb first && _); [done|]).
  1,2: destruct rest as [|]; [done|simpl in *; lia].
  destruct (skip_member rest) as [rest'|] eqn:Es; [|done]. apply skip_member_length in Es.
  apply IH; lia.
Qed.

(** ** Rows of the table *)

(** [Row P done text row]: the cells of [row] say which of the prefixes [done],
    [done ++ take 1 text], ... satisfy [P]. *)
Fixpoint Row (P : bytes -> Prop) (done text : bytes) (row : list bool) : Prop :=
  match text, row with
  | [], [b] => b = true <-> P done
  | c :: text, b :: row => (b = true <-> P done) /\ Row P (done ++ [c]) text row
  | _, _ => False
  end.

Lemma Row_ext P Q d text row : (forall s, P s <-> Q s) -> Row P d text row -> Row Q d text row.
Proof.
  intros HPQ. revert d row; induction text as [|c text IH]; intros d [|b row]; simpl; try done.
  - destruct row; [|done]. by rewrite HPQ.
  - rewrite HPQ. intros [? ?]. split; [done|]. by apply IH.
Qed.

(** The last cell speaks of the whole text. *)
Lemma Row_last P d text row : Row P d text row -> default false (last row) = true <-> P (d ++ text).
Proof.
  revert d row; induction text as [|c text IH]; intros d [|b row]; simpl; try done.
  - destruct row; [|done]. by rewrite app_nil_r.
  - intros [_ HR]. specialize (IH _ _ HR). rewrite <- app_assoc in IH.
    destruct row; [by destruct text|]. exact IH.
Qed.

Lemma Row_false P d text : (forall s, ~ P s) -> Row P d text (replicate (S (length text)) false).
Proof.
  intros HP. revert d; induction text as [|c text IH]; intros d; simpl; [naive_solver|].
  split; [naive_solver|]. apply IH.
Qed.

Lemma Row_tail P c d text row :
  Row P d (c :: text) row -> exists b r, row = b :: r /\ (b = true <-> P d) /\ Row P (d ++ [c]) text r.
Proof. destruct row as [|b r]; simpl; [done|]. naive_solver. Qed.

Lemma Row_head P d text row : Row P d text row -> exists b r, row = b :: r /\ (b = true <-> P d).
Proof. destruct text, row; simpl; try done; [destruct row; [|done]|]; naive_solver. Qed.

(** The prefixes reached after one more token. *)
Definition after (P : bytes -> Prop) (S : bytes -> Prop) (s : bytes) : Prop :=
  exists s1 s2, s = s1 ++ s2 /\ P s1 /\ S s2.

(** A token that matches single bytes. *)
Lemma one_row_spec P ok text row :
  Row P [] text row -> Row (after P (fun s => exists c, s = [c] /\ ok c = true)) [] text (one_row ok row text).
Proof.
  set (A := after _ _). assert (forall d c, A (d ++ [c]) <-> P d /\ ok c = true) as HA.
  { intros d c. unfold A, after. split.
    - intros (s1 & s2 & H & HP & c' & -> & Hc). apply app_inj_tail in H as [-> ->]. done.
    - intros [HP Hc]. exists d, [c]. eauto. }
  assert (forall text d row, Row P d text row ->
    forall b, (b = true <-> A d) -> Row A d text (b :: one_tail ok row text)) as H.
  { clear text row. induction text as [|c text IH]; intros d row HR b Hb.
    - destruct row as [|? [|]]; done.
    - apply Row_tail in HR as (p & r & -> & Hp & HR). cbn [one_tail Row]. split; [done|].
      apply IH; [done|]. rewrite HA, andb_true_iff, Hp. done. }
  intros HR. apply H; [done|]. split; [done|]. intros (s1 & s2 & Hs & _ & c & -> & _).
  symmetry in Hs. by apply app_nil in Hs as [_ ?].
Qed.

Lemma star_row_spec P ok text row :
  Row P [] text row -> Row (after P (fun s => Forall (fun c => ok c = true) s)) [] text (star_row ok row text).
Proof.
  set (A := after _ _). assert (forall d c, A (d ++ [c]) <-> P (d ++ [c]) \/ A d /\ ok c = true) as HA.
  { intros d c. unfold A, after. split.
    - intros (s1 & s2 & H & HP & HF). destruct s2 as [|y s2 _] using rev_ind.
      + left. by rewrite H, app_nil_r.
      + right. rewrite app_assoc in H. apply app_inj_tail in H as [-> ->].
        apply Forall_app in HF as [? HF]. inversion HF; subst. split; [|done]. by exists s1, s2.
    - intros [HP|[(s1 & s2 & -> & HP & HF) Hc]].
      + exists (d ++ [c]), []. by rewrite app_nil_r.
      + exists s1, (s2 ++ [c]). rewrite app_assoc. split_and!; [done..|]. apply Forall_app_2; [done|by constructor]. }
  assert (forall text d row, Row P d text row -> forall b, (b = true <-> A d) ->
    Row A d text (b :: star_tail ok b (tail row) text)) as H.
  { clear text row. induction text as [|c text IH]; intros d row HR b Hb.
    - destruct row as [|? [|]]; done.
    - apply Row_tail in HR as (p & r & -> & Hp & HR). cbn [tail].
      destruct (Row_head _ _ _ _ HR) as (p' & r' & -> & Hp'). cbn [star_tail Row]. split; [done|].
      apply (IH _ (p' :: r')); [done|]. rewrite HA, orb_true_iff, andb_true_iff, Hp', Hb. done. }
  intros HR. destruct (Row_head _ _ _ _ HR) as (p & r & -> & Hp). apply (H text [] (p :: r)); [done|].
  rewrite Hp. unfold A, after. split; [intros; by exists [], []|].
  intros (s1 & s2 & Hs & HP & _). symmetry in Hs. by apply app_nil in Hs as [-> ->].
Qed.

Lemma dirs_row_spec P text row :
  Row P [] text row ->
  Row (after P (fun s => s = [] \/ exists p, s = p ++ [47])) [] text (dirs_row row text).
Proof.
  set (A := after _ _).
  assert (forall d c, A (d ++ [c]) <-> P (d ++ [c]) \/ c = 47 /\ exists s1 s2, d = s1 ++ s2 /\ P s1) as HA.
  { intros d c. unfold A, after. split.
    - intros (s1 & s2 & H & HP & [->|[p ->]]); [left; by rewrite H, app_nil_r|].
      right. rewrite app_assoc in H. apply app_inj_tail in H as [-> ->]. eauto.
    - intros [HP|[-> (s1 & s2 & -> & HP)]]; [exists (d ++ [c]), []; rewrite app_nil_r; eauto|].
      exists s1, (s2 ++ [47]). rewrite app_assoc. eauto. }
  assert (forall text d row, Row P d text row -> forall b reach, (b = true <-> A d) ->
    (reach = true <-> exists s1 s2, d = s1 ++ s2 /\ P s1) ->
    Row A d text (b :: dirs_tail reach (tail row) text)) as H.
  { clear text row. induction text as [|c text IH]; intros d row HR b reach Hb Hr.
    - destruct row as [|? [|]]; done.
    - apply Row_tail in HR as (p & r & -> & Hp & HR). cbn [tail].
      destruct (Row_head _ _ _ _ HR) as (p' & r' & -> & Hp'). cbn [dirs_tail Row]. split; [done|].
      apply (IH _ (p' :: r')); [done|..].
      + rewrite HA, orb_true_iff, andb_true_iff, Hp', Hr, Z.eqb_eq. done.
      + rewrite orb_true_iff, Hp', Hr. split.
        * intros [(s1 & s2 & -> & HP)|HP]; [exists s1, (s2 ++ [c]); by rewrite app_assoc|].
          exists (d ++ [c]), []. by rewrite app_nil_r.
        * intros (s1 & s2 & Hs & HP). destruct s2 as [|y s2 _] using rev_ind.
          { right. by rewrite Hs, app_nil_r. }
          rewrite app_assoc in Hs. apply app_inj_tail in Hs as [-> ->]. eauto. }
  intros HR. destruct (Row_head _ _ _ _ HR) as (p & r & -> & Hp).
  assert (forall s1 s2 : bytes, [] = s1 ++ s2 -> s1 = [] /\ s2 = []) as Hnil
    by (intros s1 s2 Hs; symmetry in Hs; by apply app_nil in Hs).
  apply (H text [] (p :: r)); [done|..]; rewrite Hp.
  - unfold A, after. split; [intros; exists [], []; eauto|].
    intros (s1 & s2 & [-> ->]%Hnil & HP & _). done.
  - split; [intros; by exists [], []|]. intros (s1 & s2 & [-> ->]%Hnil & HP). done.
Qed.

Lemma class_tail_spec P members fold pathname text row :
  Row P [] text row ->
  match class_tail members fold pathname row text with
  | Some next => Row (after P (segment fold pathname (Class members))) [] text (false :: next)
  | None => forall s, ~ segment fold pathname (Class members) s
  end.
Proof.
  set (A := after _ _).
  assert (forall d c, A (d ++ [c]) <-> P d /\ (pathname = true -> c <> 47) /\ class members c fold = Some true) as HA.
  { intros d c. unfold A, after. split.
    - intros (s1 & s2 & H & HP & c' & -> & Hc). apply app_inj_tail in H as [-> ->]. done.
    - intros [HP Hc]. exists d, [c]. simpl. eauto 6. }
  assert (forall text d row, Row P d text row -> forall b, (b = true <-> A d) ->
    match class_tail members fold pathname row text with
    | Some next => Row A d text (b :: next)
    | None => forall s, ~ segment fold pathname (Class members) s
    end) as H.
  { clear text row. induction text as [|c text IH]; intros d row HR b Hb.
    - destruct row as [|? [|]]; done.
    - apply Row_tail in HR as (p & r & -> & Hp & HR). cbn [class_tail].
      assert (p && (negb pathname || negb (c =? 47)) = true <-> P d /\ (pathname = true -> c <> 47)) as Hg.
      { rewrite andb_true_iff, Hp, orb_true_iff, !negb_true_iff, Z.eqb_neq. destruct pathname; naive_solver. }
      destruct (p && _) eqn:Eg.
      + destruct (class members c fold) as [m|] eqn:Ec.
        * specialize (IH (d ++ [c]) r HR m). destruct (class_tail _ _ _ r text); cbn [Row].
          { split; [done|]. apply IH. rewrite HA, Ec. naive_solver. }
          { apply IH. rewrite HA, Ec. naive_solver. }
        * intros s (c' & -> & _ & Hc'). by rewrite (class_None _ _ c' _ Ec) in Hc'.
      + specialize (IH (d ++ [c]) r HR false). destruct (class_tail _ _ _ r text); cbn [Row].
        { split; [done|]. apply IH. rewrite HA. naive_solver. }
        { apply IH. rewrite HA. naive_solver. } }
  intros HR. apply H; [done|]. split; [done|]. intros (s1 & s2 & Hs & _ & c & -> & _).
  symmetry in Hs. by apply app_nil in Hs as [_ ?].
Qed.

(** ** The loop against the token language *)

(** The row of one token. *)
Definition token_row (fold pathname : bool) (t : token) (previous : list bool) (text : bytes)
  : option (list bool) :=
  match t with
  | Star crosses => Some (star_row (fun c => crosses || negb (c =? 47)) previous text)
  | Dirs => Some (dirs_row previous text)
  | Any => Some (one_row (fun c => negb pathname || negb (c =? 47)) previous text)
  | Class members =>
      match class_tail members fold pathname previous text with
      | None => None
      | Some next => Some (false :: next)
      end
  | Literal b =>
      Some (one_row (fun c => (c =? b) || (fold && (to_lower c =? to_lower b))) previous text)
  end.

(** One turn of the loop is one token. *)
Lemma match_loop_turn fuel pattern text fold pathname pos previous byte :
  pattern !! pos = Some byte ->
  match_loop (S fuel) pattern text fold pathname pos previous =
  match token_at pattern pathname pos byte with
  | None => false
  | Some (t, pos') =>
      match token_row fold pathname t previous text with
      | None => false
      | Some next => match_loop fuel pattern text fold pathname pos' next
      end
  end.
Proof.
  intros Hb. cbn [match_loop]. rewrite Hb. unfold token_at.
  destruct (byte =? 42); [set (r := pathname && _ && _ && _); destruct (r && _); done|].
  destruct (byte =? 63); [done|].
  destruct (byte =? 91).
  { destruct (class_end pattern (S pos)); [|done]. simpl. by destruct (class_tail _ _ _ _ _). }
  destruct (byte =? 92); [|done]. by destruct (pattern !! S pos).
Qed.

Lemma token_row_spec P fold pathname t text row :
  Row P [] text row ->
  match token_row fold pathname t row text with
  | Some next => Row (after P (segment fold pathname t)) [] text next
  | None => forall s, ~ segment fold pathname t s
  end.
Proof.
  assert (forall S S', (forall s, S s <-> S' s) -> forall s, after P S s <-> after P S' s) as Hext.
  { intros S S' HS s. unfold after. setoid_rewrite HS. done. }
  intros HR. destruct t as [crosses| | |members|b]; cbn [token_row].
  - eapply Row_ext; [apply Hext|by apply star_row_spec]. intros s. cbn [segment]. split.
    + intros HF. destruct crosses; [by left|]. right. intros Hin.
      rewrite Forall_forall in HF. specialize (HF _ Hin). done.
    + intros Hs. apply Forall_forall. intros c Hc. destruct crosses; [done|].
      destruct Hs as [|Hs]; [done|]. apply negb_true_iff, Z.eqb_neq. by intros ->.
  - by apply dirs_row_spec.
  - eapply Row_ext; [apply Hext|by apply one_row_spec]. intros s. cbn [segment]. f_equiv. intros c.
    rewrite orb_true_iff, !negb_true_iff, Z.eqb_neq. destruct pathname; naive_solver.
  - pose proof (class_tail_spec P members fold pathname text row HR) as HC.
    destruct (class_tail _ _ _ _ _); done.
  - eapply Row_ext; [apply Hext|by apply one_row_spec]. intros s. cbn [segment]. f_equiv. intros c.
    rewrite orb_true_iff, andb_true_iff, !Z.eqb_eq. done.
Qed.

Lemma skip_stars_ge p pos : (pos <= skip_stars p pos)%nat.
Proof.
  revert pos; induction p as [|x p IH]; intros pos; simpl; [lia|].
  pose proof (IH (S pos)). repeat case_match; lia.
Qed.

Lemma token_at_advances pattern pathname pos byte t pos' :
  pattern !! pos = Some byte -> token_at pattern pathname pos byte = Some (t, pos') -> (pos < pos')%nat.
Proof.
  intros Hb. unfold token_at. destruct (Z.eqb_spec byte 42) as [->|].
  { rewrite (drop_S _ _ _ Hb). cbn [skip_stars].
    pose proof (skip_stars_ge (drop (S pos) pattern) (S pos)).
    destruct (_ && bool_decide _); intros [= <- <-]; lia. }
  destruct (byte =? 63); [intros [= <- <-]; lia|].
  destruct (byte =? 91).
  { destruct (class_end _ _) eqn:E; [|done]. apply class_end_bounds in E. intros [= <- <-]. lia. }
  destruct (byte =? 92); [destruct (pattern !! S pos); [|done]|]; intros [= <- <-]; lia.
Qed.

Lemma Tokens_turn pattern pathname pos byte ts :
  pattern !! pos = Some byte -> Tokens pattern pathname pos ts ->
  exists t pos' ts', ts = t :: ts' /\ token_at pattern pathname pos byte = Some (t, pos') /\
    Tokens pattern pathname pos' ts'.
Proof. intros Hb HT. inversion HT; simplify_eq. eauto 7. Qed.

Lemma after_Glob P fold pathname t ts text :
  after (after P (segment fold pathname t)) (Glob fold pathname ts) text <->
  after P (Glob fold pathname (t :: ts)) text.
Proof.
  unfold after. cbn [Glob]. split.
  - intros (s & rest & -> & (s1 & s2 & -> & HP & HS) & HG). exists s1, (s2 ++ rest).
    rewrite app_assoc. eauto 7.
  - intros (s1 & s' & -> & HP & s2 & rest & -> & HS & HG). exists (s1 ++ s2), rest.
    rewrite app_assoc. eauto 7.
Qed.

Lemma match_loop_end fuel pattern text fold pathname pos previous P :
  pattern !! pos = None -> Row P [] text previous ->
  match_loop fuel pattern text fold pathname pos previous = true <->
  exists ts, Tokens pattern pathname pos ts /\ after P (Glob fold pathname ts) text.
Proof.
  intros Hb HR. destruct fuel; cbn [match_loop]; rewrite Hb, (Row_last _ _ _ _ HR); cbn [app].
  all: split; [intros HP; exists []; split; [by constructor|]; exists text, []; by rewrite app_nil_r|].
  all: intros (ts & HT & s1 & s2 & -> & HP & HG); inversion HT; simplify_eq; cbn in HG; subst s2;
    by rewrite app_nil_r.
Qed.

Lemma match_loop_spec fuel pattern text fold pathname pos previous P :
  (length pattern - pos <= fuel)%nat -> Row P [] text previous ->
  match_loop fuel pattern text fold pathname pos previous = true <->
  exists ts, Tokens pattern pathname pos ts /\ after P (Glob fold pathname ts) text.
Proof.
  revert pos previous P; induction fuel as [|fuel IH]; intros pos previous P Hf HR;
    (destruct (pattern !! pos) as [byte|] eqn:Hb; [|by apply match_loop_end]);
    pose proof (lookup_lt_Some _ _ _ Hb); [lia|].
  rewrite (match_loop_turn _ _ _ _ _ _ _ _ Hb).
  destruct (token_at pattern pathname pos byte) as [[t pos']|] eqn:Et; cycle 1.
  { split; [done|]. intros (ts & HT & _).
    destruct (Tokens_turn _ _ _ _ _ Hb HT) as (? & ? & ? & _ & ? & _). congruence. }
  pose proof (token_at_advances _ _ _ _ _ _ Hb Et).
  pose proof (token_row_spec P fold pathname t text previous HR) as HN.
  destruct (token_row _ _ _ _ _) as [next|]; cycle 1.
  { split; [done|]. intros (ts & HT & s1 & s' & _ & _ & HG).
    destruct (Tokens_turn _ _ _ _ _ Hb HT) as (t' & ? & ? & -> & ? & _). simplify_eq.
    destruct HG as (s2 & ? & _ & HS & _). by apply HN in HS. }
  rewrite (IH pos' next _ ltac:(lia) HN). split.
  - intros (ts & HT & HA). exists (t :: ts). split; [by econstructor|]. by apply after_Glob.
  - intros (ts & HT & HA). destruct (Tokens_turn _ _ _ _ _ Hb HT) as (t' & ? & ts' & -> & ? & ?).
    simplify_eq. exists ts'. split; [done|]. by apply after_Glob.
Qed.

Lemma first_row_spec text : Row (fun s => s = []) [] text (true :: replicate (length text) false).
Proof.
  assert (forall text d, d <> [] -> Row (fun s => s = []) d text (replicate (S (length text)) false)) as H.
  { clear. induction text as [|c text IH]; intros d Hd; simpl; [naive_solver|].
    split; [naive_solver|]. apply IH. by destruct d. }
  destruct text as [|c text]; simpl; [done|]. split; [done|]. by apply (H text [c]).
Qed.

(** The table decides the language of the tokens: its last cell is [true] exactly
    when the pattern has a token sequence (closed brackets, no trailing backslash)
    that the text matches. *)
Lemma match_table_spec pattern text fold pathname :
  match_loop (length pattern) pattern text fold pathname 0 (true :: replicate (length text) false) = true <->
  exists ts, Tokens pattern pathname 0 ts /\ Glob fold pathname ts text.
Proof.
  rewrite (match_loop_spec (length pattern) pattern text fold pathname 0 _ _ ltac:(lia) (first_row_spec text)). f_equiv. intros ts.
  unfold after. split.
  - by intros (HT & s1 & s2 & -> & -> & HG).
  - intros [HT HG]. split; [done|]. by exists [], text.
Qed.

Example matches_recursive :
  matches_ (bstr "a/**/c") (bstr "a/b/d/c") false 10000 = Some true /\
  matches_ (bstr "a/*/c") (bstr "a/b/d/c") false 10000 = Some false /\
  matches_ (bstr "[][:].l:]h?[*.h]") (bstr "].l:]hxh") false 10000 = Some true /\
  matches_ (bstr "[o[:foo:]]") (bstr "o") false 10000 = Some false /\
  matches_without_pathname (bstr "a/**/b") (bstr "a/b") 10000 = Some false.
Proof. repeat split; vm_compute; reflexivity. Qed.
End Wildmatch.
