(* ===== verification/WildmatchGrammar.v ===== *)
(** * The language of a byte glob ([src/src/wildmatch.rs])

    A grammar of glob patterns read from left to right, stated without the
    functions of the matcher: runs of stars, [?], escapes, literals and bracket
    expressions with their members.  The token sequence the table of [Wildmatch.v]
    follows and the bracket scan of [class_end] and [class] agree with it. *)

From stdpp Require Import base list numbers strings sets.
From Stdlib Require Import ZArith Lia.
From S2P Require Import Prelude Bytes Wildmatch.

Module WildmatchGrammar.
Import Bytes Wildmatch.

(** ** The grammar *)

(** The members of a bracket expression. *)
Inductive member :=
| Named (name : bytes)          (* [[:name:]] *)
| Between (first last : Z)      (* [first-last] *)
| Single (byte : Z).

(** The parts of a pattern. *)
Inductive part :=
| Stars (crosses : bool)        (* a run of stars; [crosses] when it may span '/' *)
| Leading                       (* a component [**] and the '/' after it *)
| One                           (* [?] *)
| Bracket (negative : bool) (members : list member)
| Byte (byte : Z).

(** [Char l b r]: [l] spells the byte [b], plain or after a backslash, before [r]. *)
Inductive Char : bytes -> Z -> bytes -> Prop :=
| Char_plain b r : b <> 92 -> Char (b :: r) b r
| Char_escaped b r : Char (92 :: b :: r) b r.

(** [l] starts with [[:name:]], closed by its first ']'. *)
Definition names (l name r : bytes) : Prop := l = bstr "[:" ++ name ++ bstr ":]" ++ r /\ 93 ∉ name.

(** A '-' that something other than the closing bracket follows. *)
Definition dashed (r : bytes) : Prop := exists b r', r = 45 :: b :: r' /\ b <> 93.

(** [Member l m r]: [l] starts with the member [m], before [r]. *)
Inductive Member : bytes -> member -> bytes -> Prop :=
| Member_named l name r : names l name r -> Member l (Named name) r
| Member_between l first r last r' :
    (forall name after, ~ names l name after) -> Char l first (45 :: r) -> dashed (45 :: r) ->
    Char r last r' -> Member l (Between first last) r'
| Member_single l b r :
    (forall name after, ~ names l name after) -> Char l b r -> ~ dashed r -> Member l (Single b) r.

(** [Members first l ms r]: members up to a closing bracket, before [r]; the [first]
    one may be the bracket itself. *)
Inductive Members : bool -> bytes -> list member -> bytes -> Prop :=
| Members_close r : Members false (93 :: r) [] r
| Members_more (first : bool) l m l' ms r :
    (first = false -> head l <> Some 93) -> Member l m l' -> Members false l' ms r ->
    Members first l (m :: ms) r.

(** A leading '!' or '^' negates the expression. *)
Inductive Sign : bytes -> bool -> bytes -> Prop :=
| Sign_negative b l : b = 33 \/ b = 94 -> Sign (b :: l) true l
| Sign_positive l : head l <> Some 33 -> head l <> Some 94 -> Sign l false l.

(** [Reads pathname fresh l ps]: the pattern [l] is the parts [ps]; [fresh] says that
    [l] is at the start of the pattern or after a '/'. *)
Inductive Reads (pathname : bool) : bool -> bytes -> list part -> Prop :=
| Reads_end fresh : Reads pathname fresh [] []
| Reads_one fresh l ps : Reads pathname false l ps -> Reads pathname fresh (63 :: l) (One :: ps)
| Reads_escaped fresh b l ps :
    Reads pathname (b =? 47) l ps -> Reads pathname fresh (92 :: b :: l) (Byte b :: ps)
| Reads_byte fresh b l ps :
    b <> 42 -> b <> 63 -> b <> 91 -> b <> 92 ->
    Reads pathname (b =? 47) l ps -> Reads pathname fresh (b :: l) (Byte b :: ps)
| Reads_leading n l ps :
    pathname = true -> (2 <= n)%nat -> Reads pathname true l ps ->
    Reads pathname true (replicate n 42 ++ 47 :: l) (Leading :: ps)
| Reads_deep n : pathname = true -> (2 <= n)%nat -> Reads pathname true (replicate n 42) [Stars true]
| Reads_stars fresh n l ps :
    (1 <= n)%nat -> head l <> Some 42 ->
    ~ (pathname = true /\ fresh = true /\ (2 <= n)%nat /\ (l = [] \/ head l = Some 47)) ->
    Reads pathname false l ps ->
    Reads pathname fresh (replicate n 42 ++ l) (Stars (negb pathname) :: ps)
| Reads_bracket fresh l negative l' ms r ps :
    Sign l negative l' -> Members true l' ms r -> Reads pathname false r ps ->
    Reads pathname fresh (91 :: l) (Bracket negative ms :: ps).

(** The named classes of bytes. *)
Definition posix : list (bytes * (Z -> Prop)) :=
  [(bstr "alnum", fun b => 48 <= b <= 57 \/ 65 <= b <= 90 \/ 97 <= b <= 122);
   (bstr "alpha", fun b => 65 <= b <= 90 \/ 97 <= b <= 122);
   (bstr "blank", fun b => b = 32 \/ b = 9);
   (bstr "cntrl", fun b => b <= 31 \/ b = 127);
   (bstr "digit", fun b => 48 <= b <= 57);
   (bstr "graph", fun b => 33 <= b <= 126);
   (bstr "lower", fun b => 97 <= b <= 122);
   (bstr "print", fun b => 32 <= b <= 126);
   (bstr "punct", fun b => 33 <= b <= 47 \/ 58 <= b <= 64 \/ 91 <= b <= 96 \/ 123 <= b <= 126);
   (bstr "space", fun b => 9 <= b <= 10 \/ 12 <= b <= 13 \/ b = 32);
   (bstr "upper", fun b => 65 <= b <= 90);
   (bstr "xdigit", fun b => 48 <= b <= 57 \/ 65 <= b <= 70 \/ 97 <= b <= 102)].

Definition known (m : member) : Prop :=
  match m with Named name => Exists (fun c => c.1 = name) posix | _ => True end.

(** [holds lower upper m]: the member admits a byte with these two cases; a single
    byte is compared with the lower one only. *)
Definition holds (lower upper : Z) (m : member) : Prop :=
  match m with
  | Named name => Exists (fun c => c.1 = name /\ (c.2 lower \/ c.2 upper)) posix
  | Between first last => first <= lower <= last \/ first <= upper <= last
  | Single b => b = lower
  end.

(** The texts one part matches. *)
Definition admits (fold pathname : bool) (p : part) (s : bytes) : Prop :=
  match p with
  | Stars crosses => crosses = true \/ 47 ∉ s
  | Leading => s = [] \/ exists dirs, s = dirs ++ [47]
  | One => exists c, s = [c] /\ (pathname = true -> c <> 47)
  | Bracket negative ms =>
      exists c, s = [c] /\ (pathname = true -> c <> 47) /\ Forall known ms /\
        (negative = false <->
         Exists (holds (if fold then to_lower c else c) (if fold then to_upper c else c)) ms)
  | Byte b => exists c, s = [c] /\ (c = b \/ (fold = true /\ to_lower c = to_lower b))
  end.

(** The texts a sequence of parts matches: one segment per part, in order. *)
Definition language (fold pathname : bool) (ps : list part) (text : bytes) : Prop :=
  exists segments, text = concat segments /\ Forall2 (admits fold pathname) ps segments.

(** ** Members *)

Lemma named_class_spec l name r : named_class l = Some (name, r) <-> names l name r.
Proof.
  unfold named_class, names. split.
  - destruct (strip_prefix _ l) as [body|] eqn:E; [|done]. apply strip_prefix_Some in E as ->.
    destruct (split_once body 93) as [[n a]|] eqn:Es; [|done]. apply split_once_Some in Es as [-> Hn].
    destruct (strip_suffix _ n) as [n'|] eqn:Ex; [|done]. apply strip_suffix_Some in Ex as ->.
    intros [= -> ->]. rewrite <- app_assoc. split; [done|]. set_solver.
  - intros [-> Hn]. rewrite strip_prefix_app.
    replace (name ++ bstr ":]" ++ r) with ((name ++ bstr ":") ++ 93 :: r) by (by rewrite <- app_assoc).
    rewrite split_once_app by (change (bstr ":") with [58]; set_solver).
    rewrite (proj2 (strip_suffix_Some (bstr ":") (name ++ bstr ":") name)); done.
Qed.

Lemma named_class_none l : named_class l = None <-> forall name r, ~ names l name r.
Proof.
  setoid_rewrite <- named_class_spec. destruct (named_class l) as [[name r]|]; [|naive_solver].
  split; [done|]. intros H. by destruct (H name r).
Qed.

Lemma Char_class_byte l b r : Char l b r -> class_byte l = Some (b, r).
Proof.
  intros [b' [|y r'] H|b' r']; cbn [class_byte]; [done| |done].
  by destruct (Z.eqb_spec b' 92).
Qed.

Lemma class_byte_Char l b r : class_byte l = Some (b, r) -> Char l b r \/ r = [].
Proof.
  destruct l as [|x [|y l]]; cbn [class_byte]; [done|intros [= <- <-]; by right|].
  destruct (Z.eqb_spec x 92) as [->|]; intros [= <- <-]; left; by constructor.
Qed.

(** A spelled byte is a nonempty prefix that spells it before any other rest. *)
Lemma Char_prefix l b r : Char l b r -> exists p, l = p ++ r /\ p <> [] /\ forall r', Char (p ++ r') b r'.
Proof.
  intros [b' r' H|b' r']; [exists [b']|exists [92; b']]; (split_and!; [done..|]); intros; by constructor.
Qed.

Lemma dashed_dec r : {dashed r} + {~ dashed r}.
Proof.
  destruct r as [|x [|b r]]; [right; by intros (? & ? & ? & _)..|].
  destruct (decide (x = 45 /\ b <> 93)) as [[-> H]|H]; [left; by exists b, r|].
  right. intros (b' & r' & [= -> -> ->] & Hb). by apply H.
Qed.

Lemma skip_member_char l b r :
  named_class l = None -> class_byte l = Some (b, r) ->
  skip_member l = Some match r with
                       | 45 :: range => if dashed_dec r then
                           match class_byte range with Some (_, after) => after | None => r end else r
                       | _ => r
                       end.
Proof.
  intros En Eb. unfold skip_member. rewrite En, Eb. f_equal.
  destruct r as [|x range]; [done|].
  destruct (decide (x = 45)) as [->|]; [|repeat (case_match; try done)].
  destruct (dashed_dec (45 :: range)) as [(b' & r' & [= ->] & Hb)|H].
  - by destruct (Z.eqb_spec b' 93).
  - destruct range as [|b' r']; [done|]. destruct (Z.eqb_spec b' 93); [done|]. by destruct H; exists b', r'.
Qed.

Lemma Member_skip l m r : Member l m r -> skip_member l = Some r.
Proof.
  intros [l' name r' H|l' first r1 last r' Hn%named_class_none Hc Hd Hl|l' b r' Hn%named_class_none Hc Hd].
  - apply named_class_spec in H. unfold skip_member. by rewrite H.
  - rewrite (skip_member_char _ _ _ Hn (Char_class_byte _ _ _ Hc)), (Char_class_byte _ _ _ Hl).
    by destruct (dashed_dec _).
  - rewrite (skip_member_char _ _ _ Hn (Char_class_byte _ _ _ Hc)). f_equal.
    destruct (dashed_dec r'); [done|]. by repeat (case_match; try done).
Qed.

Lemma skip_member_Member l r : skip_member l = Some r -> r = [] \/ exists m, Member l m r.
Proof.
  destruct (named_class l) as [[name after]|] eqn:En.
  { unfold skip_member. rewrite En. intros [= <-]. right. exists (Named name). constructor. by apply named_class_spec. }
  destruct (class_byte l) as [[b after]|] eqn:Eb; [|unfold skip_member; by rewrite En, Eb].
  rewrite (skip_member_char _ _ _ En Eb). pose proof (proj1 (named_class_none l) En) as Hn.
  destruct (class_byte_Char _ _ _ Eb) as [Hc| ->]; [|intros [= <-]; by left].
  destruct (dashed_dec after) as [Hd|Hd].
  - destruct Hd as (b' & r' & -> & Hb). destruct (class_byte (b' :: r')) as [[last r1]|] eqn:El.
    + intros [= <-]. destruct (class_byte_Char _ _ _ El) as [Hl| ->]; [|by left].
      right. exists (Between b last). econstructor; eauto. by exists b', r'.
    + by destruct r'; cbn [class_byte] in El; [|destruct (b' =? 92)].
  - intros H. right. exists (Single b). assert (after = r) as <-; [|by constructor].
    destruct after as [|x r']; [by simplify_eq|]. revert H. repeat (case_match; try congruence).
Qed.

(** ** Bracket expressions *)

Lemma Member_suffix l m r : Member l m r -> exists p, l = p ++ r /\ p <> [].
Proof.
  intros [l' name r' [-> _]|l' first r1 last r' _ Hc _ Hl|l' b r' _ Hc _].
  - exists (bstr "[:" ++ name ++ bstr ":]"). rewrite <- !app_assoc. done.
  - destruct (Char_prefix _ _ _ Hc) as (p & -> & Hp & _). destruct (Char_prefix _ _ _ Hl) as (q & -> & _).
    exists (p ++ 45 :: q). rewrite <- app_assoc. split; [done|]. by destruct p.
  - destruct (Char_prefix _ _ _ Hc) as (p & -> & Hp & _). by exists p.
Qed.

Lemma Members_suffix first l ms r : Members first l ms r -> exists p, l = p ++ 93 :: r.
Proof.
  induction 1 as [r|first l m l' ms r _ Hm _ [p ->]]; [by exists []|].
  destruct (Member_suffix _ _ _ Hm) as (q & -> & _). exists (q ++ p). by rewrite app_assoc.
Qed.

Lemma class_end_loop_Members fuel total first l e :
  class_end_loop fuel total first l = Some e ->
  exists ms r, Members first l ms r /\ e = (total - S (length r))%nat.
Proof.
  revert first l; induction fuel as [|fuel IH]; intros first l; cbn [class_end_loop];
    (destruct (negb first && _) eqn:E;
      [apply andb_prop in E as [->%negb_true_iff E]; destruct l as [|b l]; [done|];
       apply Z.eqb_eq in E as ->; intros [= <-]; exists [], l; by split; [constructor|]|]); [done|].
  destruct (skip_member l) as [l'|] eqn:Es; [|done]. intros He.
  destruct (skip_member_Member _ _ Es) as [-> |[m Hm]]; [by destruct fuel|].
  destruct (IH _ _ He) as (ms & r & HM & ->). exists (m :: ms), r. split; [|done].
  econstructor; [|done..]. intros -> Hh. destruct l as [|b l]; simplify_eq/=.
Qed.

Lemma Members_class_end_loop first l ms r fuel total :
  Members first l ms r -> (length l <= fuel)%nat ->
  class_end_loop fuel total first l = Some (total - S (length r))%nat.
Proof.
  intros HM. revert fuel; induction HM as [r|first l m l' ms r Hh Hm HM IH]; intros fuel Hf.
  { by destruct fuel. }
  destruct (Member_suffix _ _ _ Hm) as (p & Hl & Hp). apply Member_skip in Hm.
  destruct fuel as [|fuel]; [apply (f_equal length) in Hl; rewrite length_app in Hl; destruct p; simpl in *; [done|lia]|].
  cbn [class_end_loop]. destruct (negb first && _) eqn:E.
  { apply andb_prop in E as [->%negb_true_iff E]. destruct l as [|b l]; [done|].
    apply Z.eqb_eq in E as ->. by destruct Hh. }
  rewrite Hm. apply IH. apply (f_equal length) in Hl. rewrite length_app in Hl. destruct p; [done|]. simpl in Hl. lia.
Qed.

(** The sign [class_end] skips. *)
Lemma Sign_strip l negative l' :
  Sign l negative l' ->
  match strip_prefix (bstr "!") l with
  | Some r => r
  | None => match strip_prefix (bstr "^") l with Some r => r | None => l end
  end = l'.
Proof.
  intros [b r [-> | ->]|r H1 H2]; [done..|].
  destruct (strip_prefix (bstr "!") r) as [x|] eqn:E1; [by apply strip_prefix_Some in E1 as ->|].
  destruct (strip_prefix (bstr "^") r) as [x|] eqn:E2; [by apply strip_prefix_Some in E2 as ->|done].
Qed.

Lemma Sign_total l : exists negative l', Sign l negative l'.
Proof.
  destruct (decide (head l = Some 33 \/ head l = Some 94)) as [H|H].
  - destruct l as [|b l]; [naive_solver|]. exists true, l. constructor. naive_solver.
  - exists false, l. constructor; naive_solver.
Qed.

Lemma class_end_spec pattern start e :
  (start <= length pattern)%nat ->
  class_end pattern start = Some e <->
  exists negative l ms r, Sign (drop start pattern) negative l /\ Members true l ms r /\
    e = (length pattern - S (length r))%nat.
Proof.
  intros Hs. unfold class_end. destruct (Nat.ltb_spec (length pattern) start); [lia|].
  destruct (Sign_total (drop start pattern)) as (negative & l & HS). rewrite (Sign_strip _ _ _ HS). split.
  - intros (ms & r & HM & ->)%class_end_loop_Members. by exists negative, l, ms, r.
  - intros (negative' & l' & ms & r & HS' & HM & ->).
    assert (l' = l) as -> by (rewrite <- (Sign_strip _ _ _ HS), <- (Sign_strip _ _ _ HS'); done).
    by apply (Members_class_end_loop _ _ ms).
Qed.

(** ** Class membership *)

Definition decides (table : list (bytes * (Z -> Prop))) (name : bytes) (b : Z) (o : option bool) : Prop :=
  match o with
  | None => ~ Exists (fun c => c.1 = name) table
  | Some m => Exists (fun c => c.1 = name) table /\ (m = true <-> Exists (fun c => c.1 = name /\ c.2 b) table)
  end.

Lemma decides_cons n (P : Z -> Prop) table name b m o :
  (m = true <-> P b) -> n ∉ table.*1 -> decides table name b o ->
  decides ((n, P) :: table) name b (if bytes_eqb name n then Some m else o).
Proof.
  intros Hm Hn Ho. unfold decides in *. destruct (bytes_eqb name n) eqn:E.
  - apply bytes_eqb_eq in E as ->. rewrite !Exists_cons. cbn [fst snd]. split; [by left|].
    rewrite Hm. split; [by left|]. intros [[_ ?]|H]; [done|]. destruct Hn.
    apply Exists_exists in H as ([n' P'] & Hin & [? _]); simpl in *; subst. by apply (list_elem_of_fmap_2 fst) in Hin.
  - assert (n <> name) by (intros ->; by rewrite bytes_eqb_refl in E).
    destruct o as [x|]; rewrite !Exists_cons; cbn [fst snd]; tauto.
Qed.

(** [named] decides the table of names. *)
Lemma named_posix name b : decides posix name b (named name b).
Proof.
  assert (decides [] name b None) as Hnil by (intros H; inversion H).
  unfold posix, named. repeat (apply decides_cons; [|by apply (bool_decide_unpack _); vm_compute|]); [..|done].
  all: unfold is_punct, is_graphic, is_control, is_alpha, is_hexdigit, is_whitespace, is_lower, is_upper, is_digit;
    cbn [contains]; lia.
Qed.

(** What the loop of [class] answers for the members [ms]. *)
Definition answers (ms : list member) (lower upper : Z) (found : bool) (o : option bool) : Prop :=
  match o with
  | None => ~ Forall known ms
  | Some x => Forall known ms /\ (x = true <-> found = true \/ Exists (holds lower upper) ms)
  end.

Lemma answers_cons m ms lower upper found hit o :
  known m -> (hit = true <-> holds lower upper m) -> answers ms lower upper (found || hit) o ->
  answers (m :: ms) lower upper found o.
Proof.
  intros Hk Hh. unfold answers. destruct o as [x|]; rewrite ?Exists_cons, Forall_cons; [|tauto].
  rewrite orb_true_iff, Hh. tauto.
Qed.

Lemma names_app l name r s : names l name r -> names (l ++ s) name (r ++ s).
Proof. intros [-> H]. split; [|done]. by rewrite <- !app_assoc. Qed.

Lemma named_class_cut body s : (forall name r, ~ names (body ++ s) name r) -> named_class body = None.
Proof. intros H. apply named_class_none. intros name r Hn. by eapply H, names_app. Qed.

(** After a dash that the closing bracket follows, the bracket is closed. *)
Lemma Members_dash r r' ms : Members false (45 :: 93 :: r) ms r' -> r' = r.
Proof.
  intros H. inversion H as [|? ? m l' ms' ? Hh Hm HM]; subst.
  apply Member_skip in Hm. cbn in Hm. injection Hm as <-.
  inversion HM as [|? ? ? ? ? ? Hh']; subst; [done|]. by destruct Hh'.
Qed.

(** One turn of the loop of [class] takes a named class, *)
Lemma class_loop_named fuel p name after ms lower upper found :
  names p name after ->
  (forall found, answers ms lower upper found (class_loop fuel after lower upper found)) ->
  answers (Named name :: ms) lower upper found (class_loop (S fuel) p lower upper found).
Proof.
  intros Hn IH. destruct p as [|x p']; [by destruct Hn|]. cbn [class_loop].
  apply named_class_spec in Hn. rewrite Hn.
  pose proof (named_posix name lower) as Hl. pose proof (named_posix name upper) as Hu.
  assert (holds lower upper (Named name) <->
    Exists (fun c => c.1 = name /\ c.2 lower) posix \/ Exists (fun c => c.1 = name /\ c.2 upper) posix) as Hh.
  { cbn [holds]. rewrite !Exists_exists. split; [intros (c & ? & ? & [|])|intros [(c & ? & ? & ?)|(c & ? & ? & ?)]]; eauto 6. }
  destruct (named name lower) as [ml|]; cbn [decides] in Hl; [|cbn [answers]; rewrite Forall_cons; cbn [known]; tauto].
  destruct Hl as [Hk Hl]. destruct ml.
  - apply (answers_cons _ _ _ _ _ true); [done|rewrite Hh; tauto|]. rewrite orb_true_r. apply IH.
  - destruct (named name upper) as [mu|]; cbn [decides] in Hu; [|by destruct Hu].
    apply (answers_cons _ _ _ _ _ mu); [done| |apply IH]. rewrite Hh. destruct Hu as [_ Hu]. rewrite Hu.
    split; [tauto|]. intros [H|H]; [|done]. by apply Hl in H.
Qed.

(** a range, *)
Lemma class_loop_between fuel p first r last after ms lower upper found :
  named_class p = None -> Char p first (45 :: r) -> Char r last after ->
  (forall found, answers ms lower upper found (class_loop fuel after lower upper found)) ->
  answers (Between first last :: ms) lower upper found (class_loop (S fuel) p lower upper found).
Proof.
  intros Hn Hc Hl IH. apply Char_class_byte in Hc. destruct p as [|x p']; [done|]. cbn [class_loop].
  rewrite Hn, Hc. destruct r as [|y r']; [inversion Hl|].
  rewrite (proj2 (Z.leb_le 2 (zlen (45 :: y :: r')))) by (unfold zlen; cbn [length]; lia).
  change (strip_prefix (bstr "-") (45 :: y :: r')) with (Some (y :: r')). cbn iota beta.
  rewrite (Char_class_byte _ _ _ Hl).
  apply (answers_cons _ _ _ _ _ (((first <=? lower) && (lower <=? last)) || ((first <=? upper) && (upper <=? last))));
    [done| |apply IH]. cbn [holds]. lia.
Qed.

(** or a single byte. *)
Lemma class_loop_single fuel p b after ms lower upper found :
  named_class p = None -> Char p b after -> ~ (exists c r, after = 45 :: c :: r) ->
  (forall found, answers ms lower upper found (class_loop fuel after lower upper found)) ->
  answers (Single b :: ms) lower upper found (class_loop (S fuel) p lower upper found).
Proof.
  intros Hn Hc Hd IH. apply Char_class_byte in Hc. destruct p as [|x p']; [done|]. cbn [class_loop].
  rewrite Hn, Hc.
  assert ((if 2 <=? zlen after then match strip_prefix (bstr "-") after with Some range => class_byte range | None => None end
           else None) = None) as ->.
  { destruct (Z.leb_spec 2 (zlen after)) as [H2|]; [|done].
    destruct (strip_prefix (bstr "-") after) as [range|] eqn:E; [|done]. apply strip_prefix_Some in E as ->.
    destruct range as [|c r]; [done|]. destruct Hd. by exists c, r. }
  apply (answers_cons _ _ _ _ _ (b =? lower)); [done| |apply IH]. cbn [holds]. lia.
Qed.

(** The loop of [class], on the bytes before the closing bracket, decides the members. *)
Lemma Members_class_loop first l ms r :
  Members first l ms r ->
  exists body, l = body ++ 93 :: r /\
    forall lower upper found, answers ms lower upper found (class_loop (length body) body lower upper found).
Proof.
  induction 1 as [r|first l m l' ms r Hh Hm HM (body & -> & IH)].
  { exists []. split; [done|]. intros. cbn. rewrite Exists_nil. naive_solver. }
  destruct (Member_suffix _ _ _ Hm) as (p & -> & Hp). exists (p ++ body). split; [by rewrite app_assoc|].
  intros lower upper found. rewrite length_app. destruct p as [|x p]; [done|]. cbn [length Nat.add].
  assert (forall found, answers ms lower upper found (class_loop (length p + length body) body lower upper found)) as IH'.
  { intros. rewrite (class_loop_fuel _ (length body)) by lia. apply IH. }
  inversion Hm as [? name ? [Hl Hn]|? b1 r1 b2 ? Hn Hc Hd Hl|? b ? Hn Hc Hd]; subst.
  - apply (class_loop_named _ _ _ body); [|done]. split; [|done].
    apply (app_inv_tail (93 :: r)). rewrite <- !app_assoc. exact Hl.
  - destruct (Char_prefix _ _ _ Hc) as (p1 & Hp1 & _ & Hc'). destruct (Char_prefix _ _ _ Hl) as (p2 & -> & _ & Hl').
    assert (x :: p = p1 ++ 45 :: p2) as Hx
      by (apply (app_inv_tail (body ++ 93 :: r)); rewrite <- app_assoc; exact Hp1).
    rewrite app_assoc in Hn. apply named_class_cut in Hn. rewrite Hx, <- app_assoc in Hn |- *.
    by apply (class_loop_between _ _ _ (p2 ++ body) _ body).
  - destruct (Char_prefix _ _ _ Hc) as (p1 & Hp1 & _ & Hc'). apply app_inv_tail in Hp1. rewrite Hp1 in *.
    rewrite app_assoc in Hn. apply named_class_cut in Hn.
    apply (class_loop_single _ _ _ body); [done..| |done].
    intros (c & rest & ->). destruct (decide (c = 93)) as [->|]; [|by destruct Hd; exists c, (rest ++ 93 :: r)].
    apply Members_dash in HM. apply (f_equal length) in HM. rewrite length_app in HM. simpl in HM. lia.
Qed.

(** [class] on the bytes between the brackets decides the expression. *)
Lemma class_bracket l negative l' ms r c fold :
  Sign l negative l' -> Members true l' ms r ->
  class (take (length l - S (length r)) l) c fold = Some true <->
  Forall known ms /\
  (negative = false <-> Exists (holds (if fold then to_lower c else c) (if fold then to_upper c else c)) ms).
Proof.
  intros HS HM. destruct (Members_class_loop _ _ _ _ HM) as (body & -> & HA).
  assert (body <> []) as Hbody.
  { intros ->. inversion HM as [|? ? m l'' ? ? _ Hm HM']; subst.
    destruct (Member_suffix _ _ _ Hm) as ([|x p] & Hl & ?); [done|]. injection Hl as <- Hl.
    destruct (Members_suffix _ _ _ _ HM') as [q ->]. apply (f_equal length) in Hl.
    rewrite !length_app in Hl. simpl in Hl. lia. }
  assert (class (take (length l - S (length r)) l) c fold =
    match class_loop (length body) body (if fold then to_lower c else c) (if fold then to_upper c else c) false with
    | None => None
    | Some found => Some (xorb found negative)
    end) as ->.
  { inversion HS as [b ? Hb|? H1 H2]; subst; cbn [length]; rewrite length_app; cbn [length].
    - replace (S (length body + S (length r)) - S (length r))%nat with (S (length body)) by lia.
      cbn [take]. rewrite take_app_length. unfold class. cbn [tail].
      rewrite (proj2 (orb_true_iff _ _)) by (rewrite !Z.eqb_eq; done). by destruct fold.
    - replace (length body + S (length r) - S (length r))%nat with (length body) by lia.
      rewrite take_app_length. unfold class. destruct body as [|x body]; [done|].
      replace ((x =? 33) || (x =? 94)) with false; [by destruct fold|].
      symmetry. rewrite orb_false_iff, !Z.eqb_neq. simpl in *. naive_solver. }
  specialize (HA (if fold then to_lower c else c) (if fold then to_upper c else c) false).
  destruct (class_loop _ _ _ _ _) as [found|]; cbn [answers] in HA; [|naive_solver].
  destruct HA as [Hk HE]. transitivity (xorb found negative = true); [split; congruence|].
  assert (false = true <-> False) as Hft by done.
  destruct found, negative; cbn [xorb]; rewrite ?Hft in *; intuition done.
Qed.

(** ** Runs of stars *)

Lemma skip_stars_run l pos :
  exists n rest, l = replicate n 42 ++ rest /\ head rest <> Some 42 /\ skip_stars l pos = (pos + n)%nat.
Proof.
  revert pos; induction l as [|x l IH]; intros pos; [exists 0%nat, []; simpl; split_and!; [done..|lia]|].
  destruct (decide (x = 42)) as [->|Hx].
  - destruct (IH (S pos)) as (n & rest & -> & Hr & Hs). exists (S n), rest. split_and!; [done..|].
    cbn [skip_stars]. rewrite Hs. lia.
  - exists 0%nat, (x :: l). split_and!; [done|naive_solver|]. rewrite Nat.add_0_r.
    cbn [skip_stars]. by repeat (case_match; try done).
Qed.

Lemma run_inj n m (r s : bytes) :
  replicate n 42 ++ r = replicate m 42 ++ s -> head r <> Some 42 -> head s <> Some 42 -> n = m /\ r = s.
Proof.
  revert m; induction n as [|n IH]; intros [|m]; simpl; intros H Hr Hs; [done|..].
  - by subst.
  - by subst.
  - injection H as H. destruct (IH _ H Hr Hs) as [-> ->]. done.
Qed.

(** ** Tokens and parts *)

(** [pos] starts the pattern or follows a '/'. *)
Definition freshb (pattern : bytes) (pos : nat) : bool :=
  (pos =? 0)%nat || bool_decide (pattern !! (pos - 1)%nat = Some 47).

Lemma freshb_S pattern pos b : pattern !! pos = Some b -> freshb pattern (S pos) = (b =? 47).
Proof.
  intros Hb. unfold freshb. cbn [Nat.eqb orb]. rewrite Nat.sub_succ, Nat.sub_0_r, Hb.
  destruct (Z.eqb_spec b 47) as [->|]; [done|]. apply bool_decide_eq_false_2. congruence.
Qed.

Lemma drop_first pattern pos (b : Z) l : drop pos pattern = b :: l -> pattern !! pos = Some b /\ drop (S pos) pattern = l.
Proof.
  intros H. split.
  - rewrite <- (Nat.add_0_r pos), <- lookup_drop, H. done.
  - by rewrite <- Nat.add_1_r, <- drop_drop, H.
Qed.

Lemma drop_run pattern pos n rest :
  drop pos pattern = replicate n 42 ++ rest -> (1 <= n)%nat ->
  drop (pos + n) pattern = rest /\ freshb pattern (pos + n) = false /\ pattern !! (pos + n)%nat = head rest /\
  ((pos + n =? length pattern)%nat = true <-> rest = []).
Proof.
  intros H Hn. assert (drop (pos + n) pattern = rest) as Hd.
  { rewrite <- drop_drop, H. apply drop_app_length'. by rewrite length_replicate. }
  assert (pattern !! (pos + (n - 1))%nat = Some 42) as Hl.
  { rewrite <- lookup_drop, H, lookup_app_l by (rewrite length_replicate; lia). apply lookup_replicate_2. lia. }
  split_and!; [done|..].
  - replace (pos + n)%nat with (S (pos + (n - 1))) by lia. by rewrite (freshb_S _ _ _ Hl).
  - rewrite <- (Nat.add_0_r (pos + n)), <- lookup_drop, Hd. by destruct rest.
  - apply lookup_lt_Some in Hl. apply (f_equal length) in Hd. rewrite length_drop in Hd. rewrite Nat.eqb_eq.
    split; [intros Heq; apply length_zero_iff_nil; lia|intros ->; simpl in Hd; lia].
Qed.

(** The token at a run of stars. *)
Lemma star_token pattern pathname pos n rest :
  drop pos pattern = replicate n 42 ++ rest -> (1 <= n)%nat -> head rest <> Some 42 ->
  token_at pattern pathname pos 42 =
  if pathname && (2 <=? n)%nat && freshb pattern pos then
    match rest with
    | [] => Some (Star true, (pos + n)%nat)
    | b :: _ => if b =? 47 then Some (Dirs, S (pos + n)) else Some (Star (negb pathname), (pos + n)%nat)
    end
  else Some (Star (negb pathname), (pos + n)%nat).
Proof.
  intros H Hn Hr. unfold token_at. cbn [Z.eqb]. rewrite H.
  destruct (skip_stars_run (replicate n 42 ++ rest) pos) as (n' & rest' & Heq & Hr' & ->).
  apply run_inj in Heq as [<- <-]; [|done..].
  destruct (drop_run _ _ _ _ H Hn) as (Hd & _ & -> & He).
  replace (pos + n - pos)%nat with n by lia. fold (freshb pattern pos).
  destruct (pathname && (2 <=? n)%nat && freshb pattern pos); cbn [andb]; [|by rewrite orb_false_r].
  destruct rest as [|b rest].
  - rewrite (proj2 He) by done. cbn. by rewrite orb_true_r.
  - destruct (pos + n =? length pattern)%nat ; [discriminate (proj1 He eq_refl)|]. cbn [head orb].
    destruct (Z.eqb_spec b 47) as [->|Hb]; [done|].
    rewrite bool_decide_eq_false_2 by congruence. cbn. by rewrite orb_false_r.
Qed.

(** The token at a bracket. *)
Lemma bracket_token pattern pathname pos l :
  drop pos pattern = 91 :: l ->
  (forall negative l' ms r, Sign l negative l' -> Members true l' ms r ->
    exists pos', token_at pattern pathname pos 91 = Some (Class (take (length l - S (length r)) l), pos') /\
      drop pos' pattern = r /\ freshb pattern pos' = false) /\
  (forall t pos', token_at pattern pathname pos 91 = Some (t, pos') ->
    exists negative l' ms r, Sign l negative l' /\ Members true l' ms r).
Proof.
  intros H. destruct (drop_first _ _ _ _ H) as [Hb Hl]. pose proof (lookup_lt_Some _ _ _ Hb).
  assert (forall e, class_end pattern (S pos) = Some e <-> exists negative l' ms r,
    Sign l negative l' /\ Members true l' ms r /\ e = (length pattern - S (length r))%nat) as HC.
  { intros e. rewrite class_end_spec by lia. by rewrite Hl. }
  unfold token_at. cbn [Z.eqb]. change (91 =? 42) with false. change (91 =? 63) with false. cbn iota.
  rewrite Hl. split.
  - intros negative l' ms r HS HM.
    assert (class_end pattern (S pos) = Some (length pattern - S (length r))%nat) as He by (apply HC; eauto 7).
    destruct (class_end_bounds _ _ _ He) as [Hbd He']. rewrite He.
    assert (exists q, pattern = q ++ r) as [q Hq].
    { destruct (Members_suffix _ _ _ _ HM) as [p ->].
      assert (exists q, l = q ++ p ++ 93 :: r) as [q Hq] by (destruct HS; [by exists [b]|by exists []]).
      exists (take (S pos) pattern ++ q ++ p ++ [93]). rewrite <- !app_assoc. cbn [app].
      rewrite <- Hq, <- Hl. by rewrite take_drop. }
    apply (f_equal length) in Hq as Hlen. rewrite length_app in Hlen.
    eexists. split; [|split]; [| |by rewrite (freshb_S _ _ _ He')].
    + do 4 f_equal. rewrite <- Hl, length_drop. lia.
    + rewrite Hq at 2. apply drop_app_length'. lia.
  - intros t pos'. destruct (class_end _ _) as [e|]; [|done]. intros _.
    destruct (proj1 (HC e) eq_refl) as (negative & l' & ms & r & HS & HM & _). eauto 6.
Qed.

(** A token and a part that match the same texts. *)
Definition alike (fold pathname : bool) (t : token) (p : part) : Prop :=
  forall s, segment fold pathname t s <-> admits fold pathname p s.

Lemma alike_class fold pathname l negative l' ms r :
  Sign l negative l' -> Members true l' ms r ->
  alike fold pathname (Class (take (length l - S (length r)) l)) (Bracket negative ms).
Proof.
  intros HS HM s. cbn [segment admits]. f_equiv. intros c.
  by rewrite (class_bracket _ _ _ _ _ c fold HS HM).
Qed.

(** A token at [pos] is a part there. *)
Lemma token_reads fold pattern pathname pos byte t pos' :
  pattern !! pos = Some byte -> token_at pattern pathname pos byte = Some (t, pos') ->
  exists p, alike fold pathname t p /\ forall ps,
    Reads pathname (freshb pattern pos') (drop pos' pattern) ps ->
    Reads pathname (freshb pattern pos) (drop pos pattern) (p :: ps).
Proof.
  intros Hb Ht. pose proof (drop_S _ _ _ Hb) as Hd.
  destruct (decide (byte = 42)) as [->|].
  { destruct (skip_stars_run (drop pos pattern) 0) as (n & rest & Hr & Hh & _).
    assert (1 <= n)%nat as Hn by (destruct n; [rewrite Hd in Hr; simpl in Hr; by subst|lia]).
    destruct (drop_run _ _ _ _ Hr Hn) as (Hrest & Hf & Hl & _).
    rewrite (star_token _ pathname _ _ _ Hr Hn Hh) in Ht.
    destruct (pathname && (2 <=? n)%nat && freshb pattern pos) eqn:Ec; cycle 1.
    { injection Ht as <- <-. exists (Stars (negb pathname)). split; [done|]. intros ps HR.
      rewrite Hr. rewrite Hrest, Hf in HR. constructor; try done. intros (-> & Hfr & H2 & _).
      rewrite Hfr in Ec. apply Nat.leb_le in H2. by rewrite H2 in Ec. }
    apply andb_prop in Ec as [[-> H2%Nat.leb_le]%andb_prop Hfr]. rewrite Hfr, Hr.
    destruct rest as [|b rest]; [|destruct (Z.eqb_spec b 47) as [->|]]; injection Ht as <- <-.
    - exists (Stars true). split; [done|]. intros ps HR. rewrite Hrest in HR.
      assert (ps = []) as ->; [|rewrite app_nil_r; by constructor].
      inversion HR as [| | | |[|?] ? ? ? ?|[|?]|? [|?]|]; simplify_eq; simpl in *; try done; lia.
    - exists Leading. split; [done|]. intros ps HR. rewrite (freshb_S _ _ _ Hl) in HR.
      destruct (drop_first _ _ _ _ Hrest) as [_ Hrest']. rewrite Hrest' in HR. by constructor.
    - exists (Stars false). split; [done|]. intros ps HR. rewrite Hrest, Hf in HR.
      apply (Reads_stars true); try done. intros (_ & _ & _ & [|[= ->]]); done. }
  destruct (decide (byte = 91)) as [->|].
  { destruct (bracket_token pattern pathname pos _ Hd) as [H1 H2].
    destruct (H2 _ _ Ht) as (negative & l' & ms & r & HS & HM).
    destruct (H1 _ _ _ _ HS HM) as (pos1 & Ht' & Hr & Hf). rewrite Ht in Ht'. injection Ht' as -> ->.
    exists (Bracket negative ms). split; [by eapply alike_class|]. intros ps HR.
    rewrite Hr, Hf in HR. rewrite Hd. by econstructor. }
  rewrite Hd. unfold token_at in Ht.
  destruct (Z.eqb_spec byte 42); [done|]. destruct (Z.eqb_spec byte 63) as [->|].
  { injection Ht as <- <-. exists One. split; [done|]. intros ps HR. rewrite (freshb_S _ _ _ Hb) in HR. by constructor. }
  destruct (Z.eqb_spec byte 91); [done|]. destruct (Z.eqb_spec byte 92) as [->|].
  - destruct (pattern !! S pos) as [b|] eqn:Hb'; [|done]. injection Ht as <- <-. exists (Byte b).
    split; [done|]. intros ps HR. rewrite (freshb_S _ _ _ Hb') in HR. rewrite (drop_S _ _ _ Hb'). by constructor.
  - injection Ht as <- <-. exists (Byte byte). split; [done|]. intros ps HR.
    rewrite (freshb_S _ _ _ Hb) in HR. by constructor.
Qed.

(** A part read at [pos] is the token there. *)
Lemma reads_token fold pattern pathname pos byte ps :
  pattern !! pos = Some byte -> Reads pathname (freshb pattern pos) (drop pos pattern) ps ->
  exists p ps' t pos', ps = p :: ps' /\ token_at pattern pathname pos byte = Some (t, pos') /\
    alike fold pathname t p /\ Reads pathname (freshb pattern pos') (drop pos' pattern) ps'.
Proof.
  intros Hb HR. pose proof (drop_S _ _ _ Hb) as Hd.
  assert (forall n rest, drop pos pattern = replicate n 42 ++ rest -> (1 <= n)%nat -> byte = 42) as Hrun.
  { intros [|n] rest H Hn; [lia|]. rewrite Hd in H. by injection H. }
  remember (drop pos pattern) as L eqn:HL. remember (freshb pattern pos) as F eqn:HF.
  destruct HR as [F|F l ps HR|F b l ps HR|F b l ps H1 H2 H3 H4 HR|n l ps Hp Hn HR|n Hp Hn|F n l ps Hn Hh Hc HR
    |F l negative l' ms r ps HS HM HR]; simplify_eq.
  - exists One, ps, Any, (S pos). rewrite (freshb_S _ _ _ Hb). done.
  - destruct (drop_first pattern (S pos) b l) as [Hb' Hl]; [done|].
    exists (Byte b), ps, (Literal b), (S (S pos)). rewrite (freshb_S _ _ _ Hb'), Hl.
    split_and!; try done. unfold token_at. cbn. by rewrite Hb'.
  - exists (Byte byte), ps, (Literal byte), (S pos). rewrite (freshb_S _ _ _ Hb).
    split_and!; try done. unfold token_at. by rewrite !(proj2 (Z.eqb_neq _ _)).
  - symmetry in HL. assert (1 <= n)%nat as Hn1 by lia. rewrite (Hrun n _ eq_refl Hn1).
    destruct (drop_run _ _ _ _ HL Hn1) as (Hr & _ & Hl & _). destruct (drop_first _ _ _ _ Hr) as [_ Hl'].
    exists Leading, ps, Dirs, (S (pos + n)).
    rewrite (star_token _ _ _ _ _ HL Hn1) by done. rewrite <- HF, (proj2 (Nat.leb_le _ _) Hn), (freshb_S _ _ _ Hl), Hl'. done.
  - symmetry in HL. rewrite <- (app_nil_r (replicate n 42)) in HL, Hrun. assert (1 <= n)%nat as Hn1 by lia.
    rewrite (Hrun n _ eq_refl Hn1). destruct (drop_run _ _ _ _ HL Hn1) as (Hr & _ & Hl & _).
    exists (Stars true), [], (Star true), (pos + n)%nat.
    rewrite (star_token _ _ _ _ _ HL Hn1) by done. rewrite <- HF, (proj2 (Nat.leb_le _ _) Hn), Hr. split_and!; try done. constructor.
  - symmetry in HL. rewrite (Hrun n _ eq_refl Hn). destruct (drop_run _ _ _ _ HL Hn) as (Hr & Hf & Hl & _).
    exists (Stars (negb pathname)), ps, (Star (negb pathname)), (pos + n)%nat.
    rewrite (star_token _ _ _ _ _ HL Hn) by done. rewrite Hr, Hf. split_and!; try done.
    destruct (pathname && _ && _) eqn:Ec; [|done].
    apply andb_prop in Ec as [[-> H2%Nat.leb_le]%andb_prop Hfr].
    destruct l as [|b l]; [by destruct Hc; eauto|]. destruct (Z.eqb_spec b 47) as [->|]; [by destruct Hc; eauto|done].
  - destruct (bracket_token pattern pathname pos _ (eq_sym HL)) as [HB _].
    destruct (HB _ _ _ _ HS HM) as (pos' & Ht & Hr & Hf). exists (Bracket negative ms), ps. eexists _, pos'.
    rewrite Ht, Hr, Hf. split_and!; try done. by eapply alike_class.
Qed.

(** ** The table decides the language *)

Lemma tokens_parts fold pattern pathname pos ts :
  Tokens pattern pathname pos ts ->
  exists ps, Reads pathname (freshb pattern pos) (drop pos pattern) ps /\ Forall2 (alike fold pathname) ts ps.
Proof.
  induction 1 as [pos Hb|pos byte t pos' ts Hb Ht _ (ps & HR & HF)].
  - exists []. rewrite drop_ge by (by apply lookup_ge_None). by split; constructor.
  - destruct (token_reads fold _ _ _ _ _ _ Hb Ht) as (p & Hp & H). exists (p :: ps). split; [by apply H|by constructor].
Qed.

Lemma parts_tokens fold pattern pathname ps pos :
  Reads pathname (freshb pattern pos) (drop pos pattern) ps ->
  exists ts, Tokens pattern pathname pos ts /\ Forall2 (alike fold pathname) ts ps.
Proof.
  revert pos; induction ps as [|p ps IH]; intros pos HR; destruct (pattern !! pos) as [byte|] eqn:Hb.
  - destruct (reads_token fold _ _ _ _ _ Hb HR) as (? & ? & ? & ? & ? & _). done.
  - exists []. by split; constructor.
  - destruct (reads_token fold _ _ _ _ _ Hb HR) as (? & ? & t & pos' & [= <- <-] & Ht & Ha & HR').
    destruct (IH _ HR') as (ts & HT & HF). exists (t :: ts). split; [by econstructor|by constructor].
  - exfalso. apply lookup_ge_None in Hb. rewrite drop_ge in HR by done.
    inversion HR as [| | | |[|?] ? ? ? ?|[|?]|? [|?]|]; simplify_eq; simpl in *; lia.
Qed.

Lemma Glob_language fold pathname ts ps text :
  Forall2 (alike fold pathname) ts ps -> Glob fold pathname ts text <-> language fold pathname ps text.
Proof.
  intros HF. revert text; induction HF as [|t p ts ps Ha _ IH]; intros text; cbn [Glob].
  - split; [intros ->; by exists []; split; [|constructor]|].
    intros (ss & -> & H). by inversion H.
  - split.
    + intros (s & rest & -> & Hs & (ss & -> & H)%IH). exists (s :: ss). split; [done|].
      constructor; [by apply Ha|done].
    + intros (ss & -> & H). inversion H as [|? s ? ss' Hs Hss]; subst. exists s, (concat ss').
      split_and!; [done|by apply Ha|]. apply IH. by exists ss'.
Qed.

(** The number of cells of the table, as the saturating arithmetic computes it. *)
Lemma saturating_cells a b :
  0 <= a -> 0 <= b ->
  saturating_mul (saturating_add a 1) (saturating_add b 1) = Z.min ((a + 1) * (b + 1)) usize_max.
Proof.
  intros Ha Hb. unfold saturating_mul, saturating_add. assert (0 < usize_max) as HM by done.
  generalize dependent usize_max. intros M HM.
  destruct (Z.min_spec (a + 1) M) as [[? ->]|[? ->]], (Z.min_spec (b + 1) M) as [[? ->]|[? ->]]; nia.
Qed.

(** C33: the bounded table decides the language of the pattern.  A table of
    (pattern length + 1) * (text length + 1) cells, saturated at [usize], must fit
    the cell budget: [matches_with_pathname] has no answer exactly when it does
    not.  When it fits, the answer is [true] exactly when the pattern reads, from
    left to right, as parts (bytes plain or escaped, [?], runs of stars, a
    component [**], bracket expressions with a closing bracket, no lone final
    backslash) and the text is one segment per part in order.  A wildcard or a
    bracket stays inside a path component in pathname mode, except a [**] that is
    a whole component; a bracket admits a byte when every class it names is known
    and one of its members (named class, range, byte) admits it, or none does
    when it is negated; under [fold] ranges and named classes accept either case
    and a single member is compared with the lower case only. *)
Theorem matches_spec pattern text fold cells pathname :
  match matches_with_pathname pattern text fold cells pathname with
  | None => cells < Z.min ((zlen pattern + 1) * (zlen text + 1)) usize_max
  | Some answer =>
      Z.min ((zlen pattern + 1) * (zlen text + 1)) usize_max <= cells /\
      (answer = true <->
       exists ps, Reads pathname true pattern ps /\ language fold pathname ps text)
  end.
Proof.
  pose proof (match_table_spec pattern text fold pathname) as HM.
  unfold matches_with_pathname. rewrite saturating_cells by (unfold zlen; lia).
  destruct (Z.ltb_spec cells (Z.min ((zlen pattern + 1) * (zlen text + 1)) usize_max)); [done|].
  split; [done|]. rewrite HM. split.
  - intros (ts & HT & HG). destruct (tokens_parts fold _ _ _ _ HT) as (ps & HR & HF).
    exists ps. split; [exact HR|]. by apply (Glob_language _ _ ts).
  - intros (ps & HR & HL). destruct (parts_tokens fold pattern pathname ps 0 HR) as (ts & HT & HF).
    exists ts. split; [done|]. by apply (Glob_language _ _ ts ps).
Qed.
End WildmatchGrammar.
