(* ===== verification/RefNames.v ===== *)
(** * Reference names ([src/src/refs/name.rs])

    The [RefName] constructor and its derived constructors and predicates.  The
    theorems relate the component-wise test of the code to the substring rules of
    check-ref-format, and show why a lock file never collides with a reference. *)

From stdpp Require Import base list numbers strings sets.
From Stdlib Require Import ZArith Lia.
From S2P Require Import Prelude.

Module RefNames.

Inductive InvalidRefName := InvalidRefNameErr.

(** [RefName]: its bytes. *)
Record RefName := { as_bytes : bytes }.

(** [windows(2).any(f)]. *)
Fixpoint any_pair (f : Z -> Z -> bool) (l : bytes) : bool :=
  match l with
  | a :: (b :: _) as tl => f a b || any_pair f tl
  | _ => false
  end.

Definition HEAD : RefName := {| as_bytes := bstr "HEAD" |}.

(** The bytes no name may contain. *)
Definition forbidden (b : Z) : bool := (b <=? 32) || (b =? 127) || contains b (bstr "~^:?*[\").

Definition bad_component (part : bytes) : bool :=
  match part with [] => true | _ => false end ||
  starts_with (bstr ".") part || ends_with (bstr ".lock") part.

(** [RefName::new]. *)
Definition new (bs : bytes) : result InvalidRefName RefName :=
  if bytes_eqb bs (bstr "HEAD") then Ok HEAD
  else if negb (starts_with (bstr "refs/") bs)
       || ends_with (bstr ".") bs
       || any_pair (fun a b => ((a =? 46) && (b =? 46)) || ((a =? 64) && (b =? 123))) bs
       || existsb forbidden bs
       || existsb bad_component (split_on 47 bs)
  then Err InvalidRefNameErr
  else Ok {| as_bytes := bs |}.

Definition branch (name : bytes) : result InvalidRefName RefName :=
  new (concat [bstr "refs/heads/"; name]).
Definition tag (name : bytes) : result InvalidRefName RefName :=
  new (concat [bstr "refs/tags/"; name]).
Definition remote_branch (remote branch : bytes) : result InvalidRefName RefName :=
  new (concat [bstr "refs/remotes/"; remote; bstr "/"; branch]).
Definition is_branch (r : RefName) : bool := starts_with (bstr "refs/heads/") (as_bytes r).
Definition into_bytes (r : RefName) : bytes := as_bytes r.

(** [RefName::per_worktree]. *)
Definition per_worktree (r : RefName) : bool :=
  bytes_eqb (as_bytes r) (bstr "HEAD") ||
  existsb (fun prefix => starts_with prefix (as_bytes r))
    [bstr "refs/bisect/"; bstr "refs/rewritten/"; bstr "refs/worktree/"].

(** ** Substrings and components *)

(** [occurs p l]: [p] is a substring of [l]. *)
Definition occurs (p l : bytes) : Prop := exists a b, l = a ++ p ++ b.

Lemma any_pair_true f l : any_pair f l = true <-> exists x y, f x y = true /\ occurs [x; y] l.
Proof.
  induction l as [|a [|b l] IH].
  - split; [done|]. intros (x & y & _ & [|] & ? & [=]).
  - split; [done|]. intros (x & y & _ & [|? [|]] & ? & [=]).
  - cbn [any_pair]. rewrite orb_true_iff, IH. split.
    + intros [H|(x & y & H & s & t & E)].
      * exists a, b. split; [done|]. by exists [], l.
      * exists x, y. split; [done|]. exists (a :: s), t. simpl. by rewrite E.
    + intros (x & y & H & [|c s] & t & E); simplify_eq/=; [by left|].
      right. exists x, y. split; [done|]. by exists s, t.
Qed.

Lemma occurs_cons p x l : p <> [] -> occurs p (x :: l) <-> (exists r, x :: l = p ++ r) \/ occurs p l.
Proof.
  intros Hp. split.
  - intros ([|y a] & b & E); [left; eauto|]. injection E as -> ->. right. by exists a, b.
  - intros [[r E]|(a & b & ->)]; [by exists [], r|by exists (x :: a), b].
Qed.

(** The first component starts with [p] when the name does. *)
Lemma split_on_first_starts d p l q qs :
  d ∉ p -> split_on d l = q :: qs -> (exists r, q = p ++ r) <-> exists r, l = p ++ r.
Proof.
  intros Hp. revert p q qs Hp; induction l as [|x l IH]; intros p q qs Hp; cbn [split_on].
  - intros [= <- <-]. done.
  - destruct (Z.eqb_spec x d) as [-> |Hx].
    + intros [= <- <-]. destruct p as [|y p]; [naive_solver|]. split; [by intros [r ?]|].
      intros [r [= -> _]]. set_solver.
    + destruct (split_on d l) as [|q' qs'] eqn:E; [by apply split_on_nonempty in E|].
      intros [= <- <-]. destruct p as [|y p]; [naive_solver|].
      rewrite not_elem_of_cons in Hp. specialize (IH p q' qs' (proj2 Hp) eq_refl).
      split; intros [r [= -> Hr]].
      * destruct (proj1 IH) as [r' ->]; eauto.
      * destruct (proj2 IH) as [r' ->]; eauto.
Qed.

(** A later component starts with [p] when [p] occurs after a delimiter. *)
Lemma split_on_later_starts d p l q qs :
  d ∉ p -> split_on d l = q :: qs ->
  Exists (fun part => exists r, part = p ++ r) qs <-> occurs (d :: p) l.
Proof.
  intros Hp. revert q qs; induction l as [|x l IH]; intros q qs; cbn [split_on].
  - intros [= <- <-]. rewrite Exists_nil. split; [done|]. intros ([|] & b & [=]).
  - rewrite occurs_cons by done. destruct (Z.eqb_spec x d) as [-> |Hx].
    + intros [= <- <-]. destruct (split_on d l) as [|q' qs'] eqn:E; [by apply split_on_nonempty in E|].
      rewrite Exists_cons, (IH q' qs' eq_refl), (split_on_first_starts d p l q' qs' Hp E).
      assert ((exists r, d :: l = (d :: p) ++ r) <-> exists r, l = p ++ r) as -> by naive_solver. done.
    + destruct (split_on d l) as [|q' qs'] eqn:E; [by apply split_on_nonempty in E|].
      intros [= <- <-]. rewrite (IH q' qs' eq_refl). naive_solver.
Qed.

Lemma split_on_starts d p l :
  d ∉ p ->
  Exists (fun part => exists r, part = p ++ r) (split_on d l) <->
  (exists r, l = p ++ r) \/ occurs (d :: p) l.
Proof.
  intros Hp. destruct (split_on d l) as [|q qs] eqn:E; [by apply split_on_nonempty in E|].
  by rewrite Exists_cons, (split_on_first_starts _ _ _ _ _ Hp E), (split_on_later_starts _ _ _ _ _ Hp E).
Qed.

Lemma split_on_app_any d a b : split_on d (a ++ d :: b) = split_on d a ++ split_on d b.
Proof.
  induction a as [|x a IH]; cbn [split_on app]; [by rewrite Z.eqb_refl|].
  rewrite IH. destruct (x =? d); [done|].
  destruct (split_on d a) eqn:E; [by apply split_on_nonempty in E|]. done.
Qed.

Lemma split_on_snoc d l x ps q :
  x <> d -> split_on d l = ps ++ [q] -> split_on d (l ++ [x]) = ps ++ [q ++ [x]].
Proof.
  intros Hx. revert ps q; induction l as [|y l IH]; intros ps q; cbn [split_on app].
  - destruct ps as [|? [|]]; intros [=]; subst. rewrite (proj2 (Z.eqb_neq _ _) Hx). done.
  - destruct (y =? d).
    + destruct ps as [|p ps]; intros E; [|injection E as <- E; by rewrite (IH _ _ E)].
      injection E as <- E. by apply split_on_nonempty in E.
    + destruct (split_on d l) as [|p' ps'] eqn:E; [by apply split_on_nonempty in E|].
      destruct ps as [|p ps]; intros [= <- E']; subst.
      * by rewrite (IH [] p' eq_refl).
      * by rewrite (IH (p' :: ps) q eq_refl).
Qed.

Lemma split_on_reverse d l : split_on d (reverse l) = reverse (map reverse (split_on d l)).
Proof.
  induction l as [|x l IH]; [done|]. rewrite reverse_cons. cbn [split_on].
  destruct (Z.eqb_spec x d) as [-> |Hx].
  - rewrite split_on_app_any, IH. cbn [map]. by rewrite reverse_cons.
  - destruct (split_on d l) as [|q qs] eqn:E; [by apply split_on_nonempty in E|].
    cbn [map] in *. rewrite reverse_cons in IH. rewrite (split_on_snoc _ _ _ _ _ Hx IH).
    by rewrite !reverse_cons.
Qed.

Lemma Exists_reverse_map (P Q : bytes -> Prop) ls :
  (forall s, P (reverse s) <-> Q s) -> Exists P (reverse (map reverse ls)) <-> Exists Q ls.
Proof.
  intros HPQ. rewrite !Exists_exists. setoid_rewrite elem_of_reverse. split.
  - intros (y & (s & -> & Hs)%list_elem_of_fmap & HP). exists s. by rewrite <- HPQ.
  - intros (s & Hs & HQ). exists (reverse s). rewrite HPQ. split; [|done].
    apply list_elem_of_fmap. eauto.
Qed.

Lemma prefix_reverse (p l : bytes) : (exists r, reverse l = reverse p ++ r) <-> exists r, l = r ++ p.
Proof.
  split; intros [r Hr]; exists (reverse r).
  - apply (f_equal reverse) in Hr. by rewrite reverse_app, !reverse_involutive in Hr.
  - by rewrite Hr, reverse_app.
Qed.

Lemma split_on_ends d p l :
  d ∉ p ->
  Exists (fun part => exists r, part = r ++ p) (split_on d l) <->
  (exists r, l = r ++ p) \/ occurs (p ++ [d]) l.
Proof.
  intros Hp. rewrite <- (Exists_reverse_map (fun s : bytes => exists r, s = reverse p ++ r)) by apply prefix_reverse.
  rewrite <- split_on_reverse, split_on_starts by (by rewrite elem_of_reverse). rewrite prefix_reverse.
  f_equiv. unfold occurs. split; intros (a & b & E); exists (reverse b), (reverse a).
  - apply (f_equal reverse) in E. rewrite reverse_involutive in E. rewrite E.
    by rewrite reverse_app, reverse_app, reverse_cons, reverse_involutive, <- !app_assoc.
  - by rewrite E, !reverse_app, reverse_singleton, <- app_assoc.
Qed.

(** ** The rules of check-ref-format *)

(** Git's documented rules, on the whole name. *)
Record check_ref_format (l : bytes) : Prop := {
  rule_refs : exists rest, l = bstr "refs/" ++ rest;
  rule_no_empty : ~ occurs (bstr "//") l /\ ~ exists r, l = r ++ bstr "/";
  rule_no_dot_start : ~ occurs (bstr "/.") l;
  rule_no_lock : ~ occurs (bstr ".lock/") l /\ ~ exists r, l = r ++ bstr ".lock";
  rule_no_dot_dot : ~ occurs (bstr "..") l;
  rule_no_at_brace : ~ occurs (bstr "@{") l;
  rule_no_dot_end : ~ exists r, l = r ++ bstr ".";
  rule_bytes : forall b, b ∈ l -> 32 < b /\ b <> 127 /\ b ∉ bstr "~^:?*[\"
}.

Lemma split_on_later_empty d l q qs :
  split_on d l = q :: qs -> [] ∈ qs <-> occurs [d; d] l \/ exists r, l = r ++ [d].
Proof.
  revert q qs; induction l as [|x l IH]; intros q qs; cbn [split_on].
  - intros [= <- <-]. split; [by intros ?%elem_of_nil|].
    intros [([|] & b & [=])|[r Hr]]. symmetry in Hr. by apply app_nil in Hr as [_ ?].
  - rewrite occurs_cons by done.
    assert ((exists r, x :: l = r ++ [d]) <-> (l = [] /\ x = d) \/ exists r, l = r ++ [d]) as ->.
    { split.
      - intros [[|y r] E]; injection E as -> E; [left; done|right; eauto].
      - intros [[-> ->]|[r ->]]; [by exists []|by exists (x :: r)]. }
    destruct (split_on d l) as [|q' qs'] eqn:E; [by apply split_on_nonempty in E|].
    specialize (IH q' qs' eq_refl).
    destruct (Z.eqb_spec x d) as [-> |Hx]; intros [= <- <-].
    + rewrite elem_of_cons, IH.
      assert ([] = q' <-> l = [] \/ exists r, l = d :: r) as ->.
      { destruct l as [|y l]; cbn [split_on] in E; [injection E as <- <-; naive_solver|].
        destruct (Z.eqb_spec y d) as [-> |]; [injection E as <- <-; naive_solver|].
        destruct (split_on d l); injection E as <- <-; naive_solver. }
      naive_solver.
    + rewrite IH. naive_solver.
Qed.

Lemma pairs_rule bs :
  any_pair (fun a b => ((a =? 46) && (b =? 46)) || ((a =? 64) && (b =? 123))) bs = true <->
  occurs (bstr "..") bs \/ occurs (bstr "@{") bs.
Proof.
  rewrite any_pair_true. split; [|intros [|]; [exists 46, 46|exists 64, 123]; done].
  intros (x & y & H & Ho).
  apply orb_true_iff in H as [H|H]; apply andb_prop in H as [->%Z.eqb_eq ->%Z.eqb_eq]; [by left|by right].
Qed.

Lemma bytes_rule bs :
  existsb forbidden bs = false <-> forall b, b ∈ bs -> 32 < b /\ b <> 127 /\ b ∉ bstr "~^:?*[\".
Proof.
  rewrite <- not_true_iff_false, existsb_exists. unfold forbidden. split.
  - intros HN b Hb. apply list_elem_of_In in Hb.
    assert (forbidden b = false) as Hf by (apply not_true_iff_false; unfold forbidden; naive_solver).
    unfold forbidden in Hf. rewrite !orb_false_iff, contains_false, Z.leb_gt, Z.eqb_neq in Hf. naive_solver.
  - intros HA (x & Hx & Hf). apply list_elem_of_In in Hx. apply HA in Hx as (? & ? & Hc%contains_false).
    rewrite Hc in Hf. zbool.
Qed.

Lemma bad_component_true part :
  bad_component part = true <->
  part = [] \/ (exists r, part = bstr "." ++ r) \/ exists r, part = r ++ bstr ".lock".
Proof.
  unfold bad_component. rewrite !orb_true_iff, starts_with_true, ends_with_true. destruct part; naive_solver.
Qed.

Lemma components_rule bs rest :
  bs = bstr "refs/" ++ rest ->
  existsb bad_component (split_on 47 bs) = true <->
  (occurs (bstr "//") bs \/ exists r, bs = r ++ bstr "/") \/ occurs (bstr "/.") bs \/
  (occurs (bstr ".lock/") bs \/ exists r, bs = r ++ bstr ".lock").
Proof.
  intros Hbs. assert (existsb bad_component (split_on 47 bs) = true <->
    [] ∈ split_on 47 bs \/ Exists (fun p => exists r, p = bstr "." ++ r) (split_on 47 bs) \/
    Exists (fun p => exists r, p = r ++ bstr ".lock") (split_on 47 bs)) as ->.
  { rewrite existsb_exists, !Exists_exists.
    setoid_rewrite bad_component_true. setoid_rewrite <- list_elem_of_In. naive_solver. }
  rewrite split_on_starts, split_on_ends by set_solver.
  destruct (split_on 47 bs) as [|q qs] eqn:E; [by apply split_on_nonempty in E|].
  rewrite elem_of_cons, (split_on_later_empty 47 bs q qs E).
  assert (~ [] = q) as Hq.
  { intros <-. subst bs. simpl in E. destruct (split_on 47 rest); done. }
  assert (~ exists r, bs = bstr "." ++ r) as Hd by (subst bs; by intros [r [=]]).
  change (47 :: bstr ".") with (bstr "/."). change [47; 47] with (bstr "//"). change [47] with (bstr "/").
  change (bstr ".lock" ++ bstr "/") with (bstr ".lock/"). naive_solver.
Qed.

Lemma new_rules bs :
  (negb (starts_with (bstr "refs/") bs)
   || ends_with (bstr ".") bs
   || any_pair (fun a b => ((a =? 46) && (b =? 46)) || ((a =? 64) && (b =? 123))) bs
   || existsb forbidden bs
   || existsb bad_component (split_on 47 bs)) = false <-> check_ref_format bs.
Proof.
  rewrite !orb_false_iff, negb_false_iff, bytes_rule, starts_with_true, <- !not_true_iff_false,
    ends_with_true, pairs_rule. split.
  - intros [[[[[rest Hr] H1] H2] H3] H4]. rewrite (components_rule bs rest Hr) in H4.
    constructor; naive_solver.
  - intros [[rest Hr] H1 H2 H3 H4 H5 H6 H7]. rewrite (components_rule bs rest Hr).
    split_and!; [by eexists|done|naive_solver|done|naive_solver].
Qed.

Lemma new_Ok bs r :
  new bs = Ok r <-> as_bytes r = bs /\ (bs = bstr "HEAD" \/ check_ref_format bs).
Proof.
  unfold new. destruct (bytes_eqb bs (bstr "HEAD")) eqn:E.
  { apply bytes_eqb_eq in E as ->. split; [by intros [= <-]; eauto|]. intros [H _]. destruct r. simpl in H. by subst. }
  assert (bs <> bstr "HEAD") as Hne by (intros ->; done).
  rewrite <- (new_rules bs). destruct (_ || _).
  - split; [done|]. intros (_ & [|]); done.
  - split; [intros [= <-]; eauto|]. intros [H _]. destruct r. simpl in H. by subst.
Qed.

(** C39: [RefName::new] accepts exactly [HEAD] and the names that satisfy the
    documented check-ref-format rules, stated on substrings of the whole name
    (the code tests the components one by one), and keeps the bytes unchanged. *)
Theorem new_check_ref_format bs r :
  new bs = Ok r <-> as_bytes r = bs /\ (bs = bstr "HEAD" \/ check_ref_format bs).
Proof. apply new_Ok. Qed.

(** Lock files are safe: a name with [.lock] appended is not a valid
    reference name, and no valid name lies in a directory of that name, so taking
    a reference's lock never creates or shadows another reference. *)
Theorem lock_never_collides n m rest :
  new (as_bytes n) = Ok n -> as_bytes n <> bstr "HEAD" ->
  new (as_bytes n ++ bstr ".lock") = Err InvalidRefNameErr /\
  (new (as_bytes m) = Ok m -> as_bytes m <> as_bytes n ++ bstr ".lock/" ++ rest).
Proof.
  intros Hn Hh. apply new_Ok in Hn as [_ [|Hn]]; [done|].
  assert (starts_with (bstr "refs/") (as_bytes n ++ bstr ".lock/" ++ rest) = true /\
    as_bytes n ++ bstr ".lock" <> bstr "HEAD") as [_ Hne].
  { destruct Hn as [[x ->]]. split; [|done]. apply starts_with_true. rewrite <- app_assoc. eauto. }
  split.
  - destruct (new (as_bytes n ++ bstr ".lock")) as [r|[]] eqn:E; [|done].
    apply new_Ok in E as [_ [|[_ _ _ [_ Hl] _ _ _ _]]]; [done|]. exfalso. eauto.
  - intros Hm%new_Ok Heq. destruct Hm as [_ [Hm|[_ _ _ [Hl _] _ _ _ _]]].
    + rewrite Hm in Heq. destruct Hn as [[x Hx]]. rewrite Hx in Heq. done.
    + apply Hl. exists (as_bytes n), rest. done.
Qed.

(** The hypotheses hold for [refs/heads/main]. *)
Lemma lock_never_collides_witness :
  new (bstr "refs/heads/main" ++ bstr ".lock") = Err InvalidRefNameErr /\
  (new (bstr "refs/heads/a") = Ok {| as_bytes := bstr "refs/heads/a" |} ->
   bstr "refs/heads/a" <> bstr "refs/heads/main" ++ bstr ".lock/" ++ bstr "x").
Proof.
  apply (lock_never_collides {| as_bytes := bstr "refs/heads/main" |} {| as_bytes := bstr "refs/heads/a" |} (bstr "x"));
    [vm_compute; reflexivity|done].
Defined.

(** No name escapes the directory it is stored under: every component of an
    accepted name is non-empty and is neither [.] nor [..], and no component
    contains a NUL or a slash. *)
Theorem new_no_traversal bs r :
  new bs = Ok r -> as_bytes r <> bstr "HEAD" ->
  Forall (fun part => part <> [] /\ part <> bstr "." /\ part <> bstr ".." /\ 0 ∉ part /\ 47 ∉ part)
    (split_on 47 bs).
Proof.
  intros Hn Hh. apply new_Ok in Hn as [<- [|Hn]]; [done|].
  pose proof (split_on_join 47 (as_bytes r)) as (p & ps & Es & Hj & HF).
  pose proof (rule_bytes _ Hn) as Hb.
  apply Forall_forall. intros part Hp. rewrite Es in Hp.
  assert (bad_component part = false) as Hbad.
  { apply new_rules in Hn. rewrite !orb_false_iff in Hn. destruct Hn as [_ Hn].
    destruct (bad_component part) eqn:E; [|done]. rewrite <- Hn. symmetry. apply existsb_exists. exists part.
    rewrite Es. split; [by apply list_elem_of_In|done]. }
  assert (0 ∉ part) as H0.
  { intros H0. assert (0 ∈ as_bytes r) as [? _]%Hb; [|lia]. rewrite Hj. apply elem_of_app.
    apply elem_of_cons in Hp as [-> |Hp]; [by left|right].
    apply list_elem_of_In, in_concat. exists (47 :: part). split; [by apply in_map, list_elem_of_In|].
    right. by apply list_elem_of_In. }
  rewrite Forall_forall in HF.
  split_and!; [..|done|by apply HF]; intros ->; vm_compute in Hbad; done.
Qed.

Lemma new_no_traversal_witness :
  Forall (fun part => part <> [] /\ part <> bstr "." /\ part <> bstr ".." /\ 0 ∉ part /\ 47 ∉ part)
    (split_on 47 (bstr "refs/heads/a./b")).
Proof. apply (new_no_traversal _ {| as_bytes := bstr "refs/heads/a./b" |}); [vm_compute; reflexivity|done]. Defined.

(** A branch is stored once for the repository, never per worktree. *)
Lemma branch_not_per_worktree r : is_branch r = true -> per_worktree r = false.
Proof.
  unfold is_branch, per_worktree. intros [rest ->]%starts_with_true. reflexivity.
Qed.
End RefNames.
