(* ===== verification/Ewah.v ===== *)
(** * EWAH bitmaps ([src/src/bitmap/ewah.rs], [src/src/bitmap/write/encode.rs])

    The compressed bitmap records of the reachability bitmap index: the framing
    check, the decoder that XORs a record into an array of words, and the encoder.
    Both sides are related to one abstract notion, the expansion of a list of
    compressed words. *)

From stdpp Require Import base list numbers strings sets.
From Stdlib Require Import ZArith Lia.
From S2P Require Import Prelude.

Module Ewah.

(** The errors of [bitmap.rs] that this code can return. *)
Inductive Error :=
| Malformed (reason : string)
| Unsupported (reason : string)
| Limit (resource : string)
| Checksum
| Binding
| Cancelled.

Definition bad (reason : string) : Error := Malformed reason.

(** ** Integers *)

(** [short], [word] and [long]: big-endian integers at an offset. *)
Definition short (bs : bytes) (start : Z) : result Error Z :=
  let? end_ := ok_or (checked_add start 2) (bad "integer offset") in
  let? value := ok_or (slice start end_ bs) (bad "integer range") in
  Ok (be_decode value).
Definition word (bs : bytes) (start : Z) : result Error Z :=
  let? end_ := ok_or (checked_add start 4) (bad "integer offset") in
  let? value := ok_or (slice start end_ bs) (bad "integer range") in
  Ok (be_decode value).
Definition long (bs : bytes) (start : Z) : result Error Z :=
  let? end_ := ok_or (checked_add start 8) (bad "integer offset") in
  let? value := ok_or (slice start end_ bs) (bad "integer range") in
  Ok (be_decode value).

(** [tail_mask]. *)
Definition tail_mask (objects : Z) : Z :=
  if objects mod 64 =? 0 then u64_max else Z.shiftl 1 (objects mod 64) - 1.

(** [!mask] on [u64]. *)
Definition lnot64 (w : Z) : Z := Z.lxor w u64_max.

(** ** Framing *)

Record Ewah := { start : Z; words : Z }.

(** The fields of a run-length word. *)
Definition run_of (header : Z) : Z := Z.land (Z.shiftr header 1) 4294967295.
Definition literals_of (header : Z) : Z := Z.shiftr header 33.
Definition fill_of (header : Z) : Z := if Z.land header 1 =? 0 then 0 else u64_max.

(** The loop of [Ewah::parse]; the state is [(expanded, last_rlw, last_word)].
    Every turn advances [position], so [words] turns are enough. *)
Fixpoint parse_loop (fuel : nat) (bs : bytes) (start words bits position expanded last_rlw last_word : Z)
  : result Error (Z * Z * Z) :=
  if position <? words then
    match fuel with
    | O => Err (bad "out of fuel")
    | S fuel =>
        let last_rlw := position in
        let? header := long bs (start + position * 8) in
        let position := position + 1 in
        let run := run_of header in
        let literals := literals_of header in
        let? expanded :=
          ok_or (match checked_add expanded run with
                 | Some count => checked_add count literals
                 | None => None
                 end) (bad "EWAH expansion") in
        if div_ceil bits 64 <? expanded then Err (bad "EWAH expansion")
        else
          let last_word := if negb (run =? 0) then fill_of header else last_word in
          let? position :=
            ok_or (match checked_add position literals with
                   | Some next => if next <=? words then Some next else None
                   | None => None
                   end) (bad "EWAH literal range") in
          let? last_word :=
            (if negb (literals =? 0) then long bs (start + (position - 1) * 8) else Ok last_word) in
          parse_loop fuel bs start words bits position expanded last_rlw last_word
    end
  else Ok (expanded, last_rlw, last_word).

(** [Ewah::parse]: the record and the new cursor. *)
Definition parse (bs : bytes) (cursor end_ objects : Z) : result Error (Ewah * Z) :=
  let? bits := word bs cursor in
  let? at4 := ok_or (checked_add cursor 4) (bad "EWAH offset") in
  let? words := word bs at4 in
  if div_ceil objects 64 <? div_ceil bits 64 then Err (bad "EWAH bit length")
  else
    let? start := ok_or (checked_add cursor 8) (bad "EWAH offset") in
    let? data_end :=
      ok_or (match checked_mul words 8 with
             | Some length => checked_add start length
             | None => None
             end) (bad "EWAH words") in
    let? next := ok_or (checked_add data_end 4) (bad "EWAH trailer") in
    if (words =? 0) || (end_ <? next) then Err (bad "EWAH range")
    else
      let? current := word bs data_end in
      let? (expanded, last_rlw, last_word) :=
        parse_loop (Z.to_nat words) bs start words bits 0 0 0 0 in
      if negb (expanded =? div_ceil bits 64) || negb (current =? last_rlw)
      then Err (bad "EWAH length or current run")
      else if negb (expanded =? 0) && negb (Z.land last_word (lnot64 (tail_mask bits)) =? 0)
      then Err (bad "EWAH trailing bits")
      else if negb (expanded =? 0) && (expanded =? div_ceil objects 64)
              && negb (Z.land last_word (lnot64 (tail_mask objects)) =? 0)
      then Err (bad "bitmap outside object universe")
      else Ok ({| start := start; words := words |}, next).

(** ** Decoding *)

(** What [xor_into] borrows mutably: the output words, the budget, and the number
    of loads of the cancellation flag ([cancel n] is the value of the [n]-th). *)
Record Dec := { output : list Z; budget : Z; loads : nat }.

Section Decode.
Variable cancel : nat -> bool.

Definition check : SE Dec Error unit :=
  fun d => (if cancel (loads d) then Err Cancelled else Ok tt,
            {| output := output d; budget := budget d; loads := S (loads d) |}).

(** [charge]. *)
Definition charge (words : Z) : SE Dec Error unit :=
  fun d => match checked_sub (budget d) words with
           | Some b => (Ok tt, {| output := output d; budget := b; loads := loads d |})
           | None => (Err (Limit "decoded words"), d)
           end.

(** [*output.get_mut(out).ok_or(reason)? ^= value]. *)
Definition xor_at (out : Z) (value : Z) (reason : string) : SE Dec Error unit :=
  fun d => match zget out (output d) with
           | Some w => (Ok tt, {| output := <[Z.to_nat out := Z.lxor w value]> (output d);
                                  budget := budget d; loads := loads d |})
           | None => (Err (bad reason), d)
           end.

(** The loop over the words of a run of ones. *)
Fixpoint xor_run (n : nat) (out : Z) : SE Dec Error unit :=
  match n with
  | O => se_ret tt
  | S n =>
      let! _ := check in
      let! _ := xor_at out u64_max "decoded run range" in
      xor_run n (out + 1)
  end.

(** The loop over the literals after a run. *)
Fixpoint xor_literals (n : nat) (bs : bytes) (start position out : Z) : SE Dec Error unit :=
  match n with
  | O => se_ret tt
  | S n =>
      let! _ := check in
      let! value := se_lift (long bs (start + position * 8)) in
      let! _ := xor_at out value "decoded literal range" in
      xor_literals n bs start (position + 1) (out + 1)
  end.

(** The loop of [Ewah::xor_into]. *)
Fixpoint xor_loop (fuel : nat) (bs : bytes) (e : Ewah) (position out : Z) : SE Dec Error unit :=
  if position <? words e then
    match fuel with
    | O => se_fail (bad "out of fuel")
    | S fuel =>
        let! _ := check in
        let! header := se_lift (long bs (start e + position * 8)) in
        let position := position + 1 in
        let run := run_of header in
        let literals := literals_of header in
        let! _ := charge (run + literals) in
        let run_end := out + run in
        let! _ :=
          (if negb (Z.land header 1 =? 0) then
             fun d => match slice out run_end (output d) with
                      | Some _ => xor_run (Z.to_nat run) out d
                      | None => (Err (bad "decoded run range"), d)
                      end
           else se_ret tt) in
        let! _ := xor_literals (Z.to_nat literals) bs (start e) position run_end in
        xor_loop fuel bs e (position + literals) (run_end + literals)
    end
  else se_ret tt.

(** [Ewah::xor_into]. *)
Definition xor_into (bs : bytes) (e : Ewah) : SE Dec Error unit :=
  xor_loop (Z.to_nat (words e)) bs e 0 0.

End Decode.

(** [zero_words] on the decoder's state: charges, then allocates. *)
Definition zero_words (objects : Z) (b : Z) : result Error (list Z * Z) :=
  let words := div_ceil objects 64 in
  match checked_sub b words with
  | None => Err (Limit "decoded words")
  | Some b => Ok (replicate (Z.to_nat words) 0, b)
  end.

(** ** Encoding *)

Inductive WriteError := WriteLimit (resource : string) | WriteCancelled.

(** [Output], with the loads of the cancellation flag. *)
Record Output := { data : bytes; limit : Z; wloads : nat }.

Section Encode.
Variable cancel : nat -> bool.

Definition wcheck : SE Output WriteError unit :=
  fun o => (if cancel (wloads o) then Err WriteCancelled else Ok tt,
            {| data := data o; limit := limit o; wloads := S (wloads o) |}).

(** [Output::bytes]; allocation does not fail in the model. *)
Definition put_bytes (bs : bytes) : SE Output WriteError unit :=
  fun o => match checked_add (zlen (data o)) (zlen bs) with
           | Some size =>
               if limit o <? size then (Err (WriteLimit "artifact bytes"), o)
               else (Ok tt, {| data := data o ++ bs; limit := limit o; wloads := wloads o |})
           | None => (Err (WriteLimit "artifact bytes"), o)
           end.
Definition put_word (value : Z) : SE Output WriteError unit := put_bytes (be_encode 4 value).
Definition put_long (value : Z) : SE Output WriteError unit := put_bytes (be_encode 8 value).

(** [u64::leading_zeros]. *)
Definition leading_zeros (w : Z) : Z := if w =? 0 then 64 else 63 - Z.log2 w.

(** [while position < words.len() && ok words[position] { check; position += 1 }]:
    the number of turns, over the words from [position] on. *)
Fixpoint count_while (ok : Z -> bool) (ws : list Z) : SE Output WriteError nat :=
  match ws with
  | [] => se_ret O
  | w :: ws =>
      if ok w then
        let! _ := wcheck in
        let! n := count_while ok ws in
        se_ret (S n)
      else se_ret O
  end.

Fixpoint put_longs (ws : list Z) : SE Output WriteError unit :=
  match ws with
  | [] => se_ret tt
  | w :: ws =>
      let! _ := wcheck in
      let! _ := put_long w in
      put_longs ws
  end.

(** The loop of [ewah] over the words from [position] on; returns
    [(compressed, last)]. *)
Fixpoint ewah_loop (fuel : nat) (ws : list Z) (compressed last : Z) : SE Output WriteError (Z * Z) :=
  match ws with
  | [] => se_ret (compressed, last)
  | w :: _ =>
      match fuel with
      | O => se_fail (WriteLimit "out of fuel")
      | S fuel =>
          let! _ := wcheck in
          let bit := w =? u64_max in
          let fill := if bit then u64_max else 0 in
          let! run := count_while (fun v => v =? fill) ws in
          let rest := drop run ws in
          let! count := count_while (fun v => negb (v =? 0) && negb (v =? u64_max)) rest in
          let! literals := se_lift (if Z.of_nat count <=? 2147483647 then Ok (Z.of_nat count)
                                    else Err (WriteLimit "EWAH literals")) in
          let last := compressed in
          let! _ := put_long (Z.lor (Z.lor (if bit then 1 else 0) (Z.shiftl (Z.of_nat run) 1))
                                    (Z.shiftl literals 33)) in
          let! compressed :=
            se_lift (if compressed + (1 + literals) <=? u32_max then Ok (compressed + (1 + literals))
                     else Err (WriteLimit "EWAH words")) in
          let! _ := put_longs (take count rest) in
          ewah_loop fuel (drop count rest) compressed last
      end
  end.

(** Overwrites the four bytes at [at_]. *)
Definition patch_word (at_ : Z) (value : Z) : SE Output WriteError unit :=
  fun o => match slice at_ (at_ + 4) (data o) with
           | Some _ =>
               (Ok tt, {| data := take (Z.to_nat at_) (data o) ++ be_encode 4 value ++
                                  drop (Z.to_nat (at_ + 4)) (data o);
                          limit := limit o; wloads := wloads o |})
           | None => (Err (WriteLimit "EWAH count"), o)
           end.

(** [ewah]. *)
Definition ewah (input : list Z) : SE Output WriteError unit :=
  let length_ := match rposition (fun w => negb (w =? 0)) input with Some p => S p | None => O end in
  let words := take length_ input in
  let bits := match last words with
              | Some w => (Z.of_nat length_ - 1) * 64 + (64 - leading_zeros w)
              | None => 0
              end in
  let! _ := (if bits <=? u32_max then put_word bits else se_fail (WriteLimit "EWAH bits")) in
  let! o := se_get in
  let count_offset := zlen (data o) in
  let! _ := put_word 0 in
  let! compressed :=
    match words with
    | [] => let! _ := put_long 0 in se_ret 1
    | _ => se_ret 0
    end in
  let! (compressed, last_) := ewah_loop (length words) words compressed 0 in
  let! _ := patch_word count_offset compressed in
  put_word last_.
End Encode.

(** ** The expansion of compressed words *)

(** [Expand position lr ws out lr']: the compressed words [ws], the first of them
    at index [position], expand to [out]; [lr] and [lr'] are the index of the last
    run-length word before and after them. *)
Inductive Expand : Z -> Z -> list Z -> list Z -> Z -> Prop :=
| Expand_nil position lr : Expand position lr [] [] lr
| Expand_cons position lr header lits rest out lr' :
    zlen lits = literals_of header ->
    Expand (position + 1 + zlen lits) position rest out lr' ->
    Expand position lr (header :: lits ++ rest)
      (replicate (Z.to_nat (run_of header)) (fill_of header) ++ lits ++ out) lr'.

(** XOR of [v] into [l] from index [o] on. *)
Fixpoint xor_from (o : nat) (v l : list Z) : list Z :=
  match v with
  | [] => l
  | x :: v => xor_from (S o) v (alter (fun w => Z.lxor w x) o l)
  end.

Lemma length_xor_from o v l : length (xor_from o v l) = length l.
Proof. revert o l; induction v as [|x v IH]; intros o l; simpl; [done|]. by rewrite IH, length_alter. Qed.

Lemma xor_from_app o a b l : xor_from o (a ++ b) l = xor_from (o + length a) b (xor_from o a l).
Proof.
  revert o l; induction a as [|x a IH]; intros o l; simpl; [by rewrite Nat.add_0_r|].
  rewrite IH. f_equal. lia.
Qed.

Lemma xor_from_zeros o n l : xor_from o (replicate n 0) l = l.
Proof.
  revert o l; induction n as [|n IH]; intros o l; simpl; [done|]. rewrite IH.
  apply list_eq. intros i. destruct (decide (i = o)) as [-> |].
  - rewrite list_lookup_alter_eq. destruct (l !! o); [|done]. simpl. by rewrite Z.lxor_0_r.
  - by rewrite list_lookup_alter_ne.
Qed.

(** Every word of the result, from the word and the value at its place. *)
Lemma xor_from_lookup o v l i :
  xor_from o v l !! i =
  (fun w => if (o <=? i)%nat then Z.lxor w (default 0 (v !! (i - o)%nat)) else w) <$> l !! i.
Proof.
  revert o l; induction v as [|x v IH]; intros o l; cbn [xor_from].
  - destruct (l !! i); [|done]. simpl. destruct (o <=? i)%nat; [|done]. by rewrite Z.lxor_0_r.
  - rewrite IH. destruct (decide (i = o)) as [-> |Hi].
    + rewrite list_lookup_alter_eq. destruct (l !! o); [|done]. cbn [fmap option_fmap option_map].
      destruct (Nat.leb_spec (S o) o); [lia|]. by rewrite Nat.leb_refl, Nat.sub_diag.
    + rewrite list_lookup_alter_ne by done. destruct (l !! i); [|done]. cbn [fmap option_fmap option_map].
      destruct (Nat.leb_spec (S o) i), (Nat.leb_spec o i); try done; try lia.
      by replace (i - o)%nat with (S (i - S o)) by lia.
Qed.

(** Into zero words, the expansion itself. *)
Lemma xor_from_fresh v n :
  (length v <= n)%nat -> xor_from 0 v (replicate n 0) = v ++ replicate (n - length v) 0.
Proof.
  intros Hn. apply list_eq. intros i. rewrite xor_from_lookup. cbn [Nat.leb]. rewrite Nat.sub_0_r.
  destruct (decide (i < n)%nat).
  - rewrite lookup_replicate_2 by lia. simpl. rewrite Z.lxor_0_l.
    destruct (v !! i) as [x|] eqn:E; simpl.
    + symmetry. by apply lookup_app_l_Some.
    + symmetry. apply lookup_ge_None in E. rewrite lookup_app_r, lookup_replicate_2 by lia. done.
  - rewrite (proj1 (lookup_replicate_None n 0 i)) by lia. simpl. symmetry.
    apply lookup_ge_None. rewrite length_app, length_replicate. lia.
Qed.

(** XOR of the same values twice is the identity. *)
Lemma xor_from_twice o v l : xor_from o v (xor_from o v l) = l.
Proof.
  apply list_eq. intros i. rewrite !xor_from_lookup. destruct (l !! i); [|done]. simpl.
  destruct (o <=? i)%nat; [|done]. by rewrite Z.lxor_assoc, Z.lxor_nilpotent, Z.lxor_0_r.
Qed.

(** The record's words as they lie in the buffer. *)
Definition Longs (bs : bytes) (s : Z) (ws : list Z) : Prop :=
  forall i w, ws !! i = Some w -> 0 <= w < 2 ^ 64 /\ long bs (s + Z.of_nat i * 8) = Ok w.

Lemma long_at bs s :
  bytes_ok bs -> 0 <= s -> s + 8 <= zlen bs -> zlen bs <= usize_max ->
  exists w, long bs s = Ok w /\ 0 <= w < 2 ^ 64.
Proof.
  intros Hb Hs Hl Hu. unfold long, checked_add.
  destruct (slice_is_Some s (s + 8) bs) as [m Hm]; [lia..|].
  rewrite (proj2 (Z.leb_le _ _)) by lia. simpl. rewrite Hm. simpl. eexists. split; [done|].
  apply slice_app in Hm as (pre & post & -> & _ & Hz). apply bytes_ok_app in Hb as [_ [Hb _]%bytes_ok_app].
  pose proof (be_decode_bound m Hb) as HB. rewrite Hz in HB.
  by replace (256 ^ (s + 8 - s)) with (2 ^ 64) in HB by (replace (s + 8 - s) with 8 by lia; done).
Qed.

Lemma Longs_exist bs s n :
  bytes_ok bs -> 0 <= s -> 0 <= n -> s + n * 8 <= zlen bs -> zlen bs <= usize_max ->
  exists ws, zlen ws = n /\ Longs bs s ws.
Proof.
  intros Hb Hs Hn Hl Hu. rewrite <- (Z2Nat.id n Hn) in *. generalize dependent (Z.to_nat n). clear n Hn.
  induction n as [|n IH]; intros Hl.
  - exists []. split; [done|]. intros i w Hi. by rewrite lookup_nil in Hi.
  - destruct IH as (ws & Hz & HL); [lia|].
    destruct (long_at bs (s + Z.of_nat n * 8) Hb) as (w & Hw & Hr); [lia..|].
    exists (ws ++ [w]). split; [zlia|]. intros i x Hi. apply lookup_app_Some in Hi as [Hi|[Hi Hx]]; [by apply HL|].
    apply list_lookup_singleton_Some in Hx as [Hx <-].
    replace i with n by (unfold zlen in *; lia). done.
Qed.

Lemma header_fields h : 0 <= h < 2 ^ 64 -> 0 <= run_of h < 2 ^ 32 /\ 0 <= literals_of h < 2 ^ 31.
Proof.
  intros Hh. unfold run_of, literals_of. change 4294967295 with (2 ^ 32 - 1). rewrite land_low_mod by lia.
  rewrite !Z.shiftr_div_pow2 by lia. split; [apply Z.mod_pos_bound; lia|].
  change (2 ^ 64) with (2 ^ 31 * 2 ^ 33) in Hh. split; [apply Z.div_pos; lia|].
  apply Z.div_lt_upper_bound; lia.
Qed.

(** The words at [position]: a header, its literals, and the rest. *)
Lemma split_group bs s ws position :
  Longs bs s ws -> 0 <= position < zlen ws ->
  exists header, long bs (s + position * 8) = Ok header /\ 0 <= header < 2 ^ 64 /\
    drop (Z.to_nat position) ws = header :: drop (Z.to_nat (position + 1)) ws /\
    (position + 1 + literals_of header <= zlen ws ->
     exists lits, zlen lits = literals_of header /\
       drop (Z.to_nat (position + 1)) ws = lits ++ drop (Z.to_nat (position + 1 + literals_of header)) ws /\
       (forall i w, lits !! i = Some w -> long bs (s + (position + 1 + Z.of_nat i) * 8) = Ok w)).
Proof.
  intros HL Hp. destruct (ws !! Z.to_nat position) as [h|] eqn:E; cycle 1.
  { apply lookup_ge_None in E. unfold zlen in Hp. lia. }
  pose proof (HL _ _ E) as [Hr Hh]. rewrite Z2Nat.id in Hh by lia. exists h.
  split_and!; [done|lia|lia|..].
  - rewrite (drop_S _ _ _ E). f_equal. f_equal. lia.
  - intros Hlen. pose proof (header_fields h Hr) as [_ [Hl _]].
    exists (take (Z.to_nat (literals_of h)) (drop (Z.to_nat (position + 1)) ws)).
    split; [zlia|]. split.
    + replace (Z.to_nat (position + 1 + literals_of h))
        with (Z.to_nat (position + 1) + Z.to_nat (literals_of h))%nat by lia.
      by rewrite <- drop_drop, take_drop.
    + intros i w Hi. apply lookup_take_Some in Hi as [Hi _]. rewrite lookup_drop in Hi.
      apply HL in Hi as [_ Hi]. rewrite <- Hi. f_equal. lia.
Qed.

Lemma last_group {A} (d : A) n x lits out :
  default d (last (replicate n x ++ lits ++ out)) =
  default (default (if (n =? 0)%nat then d else x) (last lits)) (last out).
Proof.
  rewrite !last_app. destruct (last out); [done|]. simpl. destruct (last lits); [done|]. simpl.
  destruct n as [|n]; [done|]. simpl. clear. revert x; induction n as [|n IH]; intros x; [done|]. apply IH.
Qed.

Lemma last_literal bs s position lits lw :
  (forall i w, lits !! i = Some w -> long bs (s + (position + Z.of_nat i) * 8) = Ok w) ->
  (if negb (zlen lits =? 0) then long bs (s + (position + zlen lits - 1) * 8) else Ok lw) =
  Ok (default lw (last lits)).
Proof.
  intros HL. destruct lits as [|w lits _] using rev_ind; [done|].
  rewrite last_snoc, zlen_app. simpl. destruct (Z.eqb_spec (zlen lits + zlen [w]) 0); [zlia|]. simpl.
  rewrite <- (HL (length lits) w) by (by apply list_lookup_middle).
  f_equal. unfold zlen. simpl. lia.
Qed.

Lemma Expand_inv position lr h tl out lr' :
  Expand position lr (h :: tl) out lr' ->
  exists lits rest out', tl = lits ++ rest /\ zlen lits = literals_of h /\
    out = replicate (Z.to_nat (run_of h)) (fill_of h) ++ lits ++ out' /\
    Expand (position + 1 + zlen lits) position rest out' lr'.
Proof. intros HE. inversion HE; subst. eauto 8. Qed.

(** The next group of an expansion of the words from [position] on. *)
Lemma Expand_group bs s ws position lr out lr' :
  Longs bs s ws -> 0 <= position < zlen ws -> Expand position lr (drop (Z.to_nat position) ws) out lr' ->
  exists h lits out', long bs (s + position * 8) = Ok h /\ 0 <= h < 2 ^ 64 /\ zlen lits = literals_of h /\
    out = replicate (Z.to_nat (run_of h)) (fill_of h) ++ lits ++ out' /\
    position + 1 + zlen lits <= zlen ws /\
    (forall i w, lits !! i = Some w -> long bs (s + (position + 1 + Z.of_nat i) * 8) = Ok w) /\
    Expand (position + 1 + zlen lits) position (drop (Z.to_nat (position + 1 + zlen lits)) ws) out' lr'.
Proof.
  intros HL Hp HE. destruct (split_group bs s ws position HL Hp) as (h & Hh & Hr & Hd & Hlits).
  rewrite Hd in HE. apply Expand_inv in HE as (lits & rest & out' & Htl & Hz & -> & HE).
  assert (position + 1 + literals_of h <= zlen ws) as Hle.
  { apply (f_equal zlen) in Htl. zlia. }
  destruct (Hlits Hle) as (lits' & Hz' & Hsplit & Hlook).
  rewrite Hsplit in Htl. apply app_inj_1 in Htl as [-> <-]; [|unfold zlen in *; lia].
  rewrite <- Hz in *. exists h, lits, out'. done.
Qed.

Section Framing.
Context (bs : bytes) (s : Z) (ws : list Z) (HL : Longs bs s ws).

Lemma parse_loop_sound fuel bits position expanded lr lw expanded' lr' lw' :
  0 <= position <= zlen ws ->
  parse_loop fuel bs s (zlen ws) bits position expanded lr lw = Ok (expanded', lr', lw') ->
  exists out, Expand position lr (drop (Z.to_nat position) ws) out lr' /\
    expanded' = expanded + zlen out /\ lw' = default lw (last out).
Proof using HL.
  revert position expanded lr lw; induction fuel as [|fuel IH]; intros position expanded lr lw Hp H;
    cbn [parse_loop] in H; destruct (Z.ltb_spec position (zlen ws)) as [Hlt|Hge]; try done.
  1,3: injection H as <- <- <-; exists []; rewrite drop_ge by (unfold zlen in *; lia);
    split; [constructor|]; zlia || (split; [zlia|done]).
  destruct (split_group bs s ws position HL ltac:(lia)) as (h & Hh & Hr & Hd & Hlits).
  rewrite Hh in H. cbn [rbind] in H. pose proof (header_fields h Hr) as [Hrun Hlit].
  apply rbind_Ok in H as (ex & Hex%ok_or_Ok & H).
  assert (ex = expanded + run_of h + literals_of h) as ->.
  { destruct (checked_add expanded (run_of h)) as [c|] eqn:E; [|done].
    apply checked_add_Some in E as [-> _]. by apply checked_add_Some in Hex as [-> _]. }
  destruct (_ <? _); [done|]. apply rbind_Ok in H as (p & Hpos%ok_or_Ok & H).
  assert (p = position + 1 + literals_of h /\ p <= zlen ws) as [-> Hle].
  { destruct (checked_add _ _) as [c|] eqn:E; [|done]. apply checked_add_Some in E as [-> _].
    destruct (Z.leb_spec (position + 1 + literals_of h) (zlen ws)); [|done]. by injection Hpos as <-. }
  destruct (Hlits Hle) as (lits & Hz & Hsplit & Hlook). rewrite <- Hz in H.
  rewrite (last_literal bs s (position + 1) lits) in H by done. cbn [rbind] in H.
  apply IH in H as (out & HE & -> & ->); [|lia].
  exists (replicate (Z.to_nat (run_of h)) (fill_of h) ++ lits ++ out).
  rewrite Hz in HE. split_and!; [rewrite Hd, Hsplit; constructor; [done|by rewrite Hz]|zlia|].
  rewrite last_group. do 2 f_equal.
  destruct (Z.eqb_spec (run_of h) 0) as [-> |]; [done|]. by destruct (Nat.eqb_spec (Z.to_nat (run_of h)) 0); [lia|].
Qed.

Lemma parse_loop_complete fuel bits position expanded lr lw out lr' :
  (length (drop (Z.to_nat position) ws) <= fuel)%nat -> zlen ws <= u32_max ->
  0 <= position <= zlen ws -> 0 <= expanded -> div_ceil bits 64 <= usize_max ->
  Expand position lr (drop (Z.to_nat position) ws) out lr' ->
  expanded + zlen out <= div_ceil bits 64 ->
  parse_loop fuel bs s (zlen ws) bits position expanded lr lw =
    Ok (expanded + zlen out, lr', default lw (last out)).
Proof using HL.
  revert position expanded lr lw out; induction fuel as [|fuel IH];
    intros position expanded lr lw out Hf Hu Hp Hex Hb HE Ho;
    cbn [parse_loop]; destruct (Z.ltb_spec position (zlen ws)) as [Hlt|Hge].
  1: rewrite length_drop in Hf; unfold zlen in *; lia.
  1,3: rewrite drop_ge in HE by (unfold zlen in *; lia); inversion HE; subst;
    rewrite zlen_nil, Z.add_0_r; done.
  destruct (Expand_group bs s ws position lr out lr' HL ltac:(lia) HE)
    as (h & lits & out' & Hh & Hr & Hz & -> & Hle & Hlook & HE').
  pose proof (header_fields h Hr) as [Hrun Hlit]. rewrite Hh. cbn [rbind].
  autorewrite with zlen in Ho. rewrite Z2Nat.id in Ho by lia. pose proof (zlen_nonneg out').
  rewrite <- Hz, !checked_add_le by (unfold u32_max, usize_max in *; lia). cbn [rbind ok_or].
  rewrite (proj2 (Z.ltb_ge _ _)), (proj2 (Z.leb_le _ _)) by lia. cbn [rbind ok_or].
  rewrite (last_literal bs s (position + 1) lits) by done. cbn [rbind].
  rewrite (IH _ _ _ _ out'); [|rewrite length_drop in *; lia|done|lia..|done|exact HE'|lia].
  rewrite last_group. autorewrite with zlen. rewrite Z2Nat.id by lia.
  replace (negb (run_of h =? 0)) with (negb (Z.to_nat (run_of h) =? 0)%nat)
    by (destruct (Z.eqb_spec (run_of h) 0), (Nat.eqb_spec (Z.to_nat (run_of h)) 0); done || lia).
  rewrite !Z.add_assoc. by destruct (Z.to_nat (run_of h) =? 0)%nat.
Qed.
End Framing.

Section Decoding.
Context (cancel : nat -> bool).

(** [Xor m o v cost]: on output words with room for [v] at [o], [m] XORs [v] in and
    spends [cost], or stops because the budget is short or on cancellation; it
    never reports a malformed record. *)
Definition Xor (m : SE Dec Error unit) (o : Z) (v : list Z) (cost : Z) : Prop :=
  forall d, 0 <= o -> o + zlen v <= zlen (output d) -> 0 <= budget d ->
  match m d with
  | (Ok _, d') => output d' = xor_from (Z.to_nat o) v (output d) /\
                  budget d' = budget d - cost /\ 0 <= budget d'
  | (Err e, d') => e = Limit "decoded words" /\ budget d < cost \/
                   e = Cancelled /\ exists k, cancel k = true
  end.

Lemma Xor_ret o : Xor (se_ret tt) o [] 0.
Proof. intros d Ho Hl Hb. simpl. split_and!; done || lia. Qed.

Lemma Xor_bind m k o v v' c c' :
  0 <= c' -> Xor m o v c -> Xor (k tt) (o + zlen v) v' c' -> Xor (se_bind m k) o (v ++ v') (c + c').
Proof.
  intros Hc Hm Hk d Ho Hl Hb. autorewrite with zlen in Hl. pose proof (zlen_nonneg v). pose proof (zlen_nonneg v').
  specialize (Hm d Ho ltac:(lia) Hb). unfold se_bind. destruct (m d) as [[[]|e] d1].
  - destruct Hm as (Eo & Eb & Hb1). specialize (Hk d1 ltac:(lia)).
    assert (zlen (output d1) = zlen (output d)) as El by (unfold zlen; by rewrite Eo, length_xor_from).
    specialize (Hk ltac:(lia) Hb1). destruct (k tt d1) as [[[]|e] d2].
    + destruct Hk as (Eo2 & Eb2 & ?). split_and!; [|lia..].
      rewrite Eo2, Eo, xor_from_app. f_equal. unfold zlen. lia.
    + destruct Hk as [[-> ?]|?]; [left; split; [done|lia]|by right].
  - destruct Hm as [[-> ?]|?]; [left; split; [done|lia]|by right].
Qed.

(** A step that touches no word. *)
Lemma Xor_then m k o v c c' :
  0 <= c' -> Xor m o [] c -> Xor (k tt) o v c' -> Xor (se_bind m k) o v (c + c').
Proof. intros Hc Hm Hk. apply (Xor_bind m k o [] v c c'); [done..|]. by rewrite zlen_nil, Z.add_0_r. Qed.

Lemma Xor_check o : Xor (check cancel) o [] 0.
Proof.
  intros d Ho Hl Hb. unfold check. destruct (cancel (loads d)) eqn:E; [right; eauto|].
  simpl. split_and!; done || lia.
Qed.

Lemma Xor_charge n o : 0 <= n -> Xor (charge n) o [] n.
Proof.
  intros Hn d Ho Hl Hb. unfold charge, checked_sub. destruct (Z.leb_spec n (budget d)); simpl.
  - split_and!; done || lia.
  - left. split; [done|lia].
Qed.

Lemma Xor_at o x reason : Xor (xor_at o x reason) o [x] 0.
Proof.
  intros d Ho Hl Hb. unfold xor_at. destruct (zget_is_Some o (output d)) as [w Hw]; [zlia|].
  rewrite Hw. unfold zget in Hw. rewrite (proj2 (Z.leb_le _ _) Ho) in Hw. cbn [output budget xor_from].
  split_and!; [|lia..]. apply list_eq. intros i. destruct (decide (i = Z.to_nat o)) as [-> |Hi].
  - rewrite list_lookup_insert_eq by (by eapply lookup_lt_Some). by rewrite list_lookup_alter_eq, Hw.
  - by rewrite list_lookup_insert_ne, list_lookup_alter_ne.
Qed.

Lemma Xor_run n o : Xor (xor_run cancel n o) o (replicate n u64_max) 0.
Proof.
  revert o; induction n as [|n IH]; intros o; cbn [xor_run replicate]; [apply Xor_ret|].
  apply (Xor_then _ _ _ _ 0 0); [done|apply Xor_check|].
  apply (Xor_bind _ _ _ [u64_max] _ 0 0); [done|apply Xor_at|apply IH].
Qed.

Lemma Xor_literals bs s lits position o :
  (forall i w, lits !! i = Some w -> long bs (s + (position + Z.of_nat i) * 8) = Ok w) ->
  Xor (xor_literals cancel (length lits) bs s position o) o lits 0.
Proof.
  revert position o; induction lits as [|x lits IH]; intros position o HL; cbn [xor_literals length];
    [apply Xor_ret|].
  apply (Xor_then _ _ _ _ 0 0); [done|apply Xor_check|].
  pose proof (HL O x eq_refl) as Hx. rewrite Z.add_0_r in Hx. rewrite Hx.
  apply (Xor_bind (xor_at o x _) _ _ [x] _ 0 0); [done|apply Xor_at|]. apply IH.
  intros i w Hi. rewrite <- (HL (S i) w Hi). f_equal. lia.
Qed.

(** The run of one group, whether its fill is zero or ones. *)
Lemma Xor_fill h o :
  0 <= h < 2 ^ 64 ->
  Xor (if negb (Z.land h 1 =? 0) then
         fun d => match slice o (o + run_of h) (output d) with
                  | Some _ => xor_run cancel (Z.to_nat (run_of h)) o d
                  | None => (Err (bad "decoded run range"), d)
                  end
       else se_ret tt) o (replicate (Z.to_nat (run_of h)) (fill_of h)) 0.
Proof.
  intros Hh. unfold fill_of. pose proof (header_fields h Hh) as [Hr _].
  destruct (Z.land h 1 =? 0); cbn [negb]; intros d Ho Hl Hb.
  - simpl. rewrite xor_from_zeros. split_and!; done || lia.
  - autorewrite with zlen in Hl. destruct (slice_is_Some o (o + run_of h) (output d)) as [m ->]; [lia..|].
    apply Xor_run; [done|zlia|done].
Qed.

Lemma xor_loop_spec fuel bs e ws position lr out lr' o :
  Longs bs (start e) ws -> words e = zlen ws ->
  (length (drop (Z.to_nat position) ws) <= fuel)%nat -> 0 <= position <= zlen ws ->
  Expand position lr (drop (Z.to_nat position) ws) out lr' ->
  Xor (xor_loop cancel fuel bs e position o) o out (zlen out).
Proof.
  intros HL Hw. revert position lr out o; induction fuel as [|fuel IH]; intros position lr out o Hf Hp HE;
    cbn [xor_loop]; rewrite Hw; destruct (Z.ltb_spec position (zlen ws)) as [Hlt|Hge].
  1: rewrite length_drop in Hf; unfold zlen in *; lia.
  1,3: rewrite drop_ge in HE by (unfold zlen in *; lia); inversion HE; subst; apply Xor_ret.
  destruct (Expand_group bs (start e) ws position lr out lr' HL ltac:(lia) HE)
    as (h & lits & out' & Hh & Hr & Hz & -> & Hle & Hlook & HE').
  pose proof (header_fields h Hr) as [Hrun Hlit]. pose proof (zlen_nonneg lits). pose proof (zlen_nonneg out').
  replace (zlen (replicate (Z.to_nat (run_of h)) (fill_of h) ++ lits ++ out'))
    with (0 + (run_of h + literals_of h + (0 + (0 + zlen out')))) by (autorewrite with zlen; lia).
  apply Xor_then; [lia|apply Xor_check|]. rewrite Hh.
  apply (Xor_then (charge _)); [lia|apply Xor_charge; lia|].
  apply Xor_bind; [lia|by apply Xor_fill|]. rewrite zlen_replicate, Z2Nat.id by lia.
  apply Xor_bind; [lia| |].
  - rewrite <- Hz. unfold zlen at 1. rewrite Nat2Z.id. by apply Xor_literals.
  - rewrite <- Hz. apply (IH _ position); [|lia|done]. rewrite length_drop in *. lia.
Qed.
End Decoding.

(** ** Accepted records *)

(** The set bits of [ws], as positions, are below [objects]. *)
Definition in_universe (objects : Z) (ws : list Z) : Prop :=
  forall i w b, ws !! i = Some w -> Z.testbit w b = true -> 64 * Z.of_nat i + b < objects.

Lemma testbit_range w b : 0 <= w < 2 ^ 64 -> Z.testbit w b = true -> 0 <= b < 64.
Proof.
  intros Hw Hb. destruct (Z.ltb_spec b 0); [by rewrite Z.testbit_neg_r in Hb|].
  destruct (Z.ltb_spec b 64); [done|]. by rewrite (testbit_high w 64) in Hb by lia.
Qed.

Lemma testbit_u64_max b : 0 <= b < 64 -> Z.testbit u64_max b = true.
Proof. intros Hb. change u64_max with (Z.ones 64). by apply Z.ones_spec_low. Qed.

Lemma tail_mask_bits n w b :
  0 <= n -> 0 <= w < 2 ^ 64 -> Z.land w (lnot64 (tail_mask n)) = 0 -> Z.testbit w b = true ->
  n mod 64 <> 0 -> b < n mod 64.
Proof.
  intros Hn Hw Hm Hb Hne. pose proof (testbit_range w b Hw Hb) as Hr.
  unfold tail_mask in Hm. rewrite (proj2 (Z.eqb_neq _ _) Hne) in Hm.
  pose proof (Z.mod_pos_bound n 64). set (k := n mod 64) in *.
  destruct (Z.ltb_spec b k); [done|]. exfalso.
  apply (f_equal (fun z => Z.testbit z b)) in Hm. unfold lnot64 in Hm.
  rewrite Z.land_spec, Hb, Z.lxor_spec, Z.bits_0, testbit_u64_max in Hm by done.
  rewrite Z.shiftl_mul_pow2, Z.mul_1_l, (testbit_high (2 ^ k - 1) k) in Hm by lia. done.
Qed.

(** A word whose bits are all below the tail passes the mask test. *)
Lemma tail_mask_pass n w :
  0 <= n -> 0 <= w < 2 ^ 64 -> (forall b, Z.testbit w b = true -> n mod 64 <> 0 -> b < n mod 64) ->
  Z.land w (lnot64 (tail_mask n)) = 0.
Proof.
  intros Hn Hw Hb. apply Z.bits_inj. intros b. rewrite Z.bits_0, Z.land_spec.
  destruct (Z.testbit w b) eqn:E; [|done]. cbn [andb]. pose proof (testbit_range w b Hw E) as Hr.
  unfold lnot64, tail_mask. rewrite Z.lxor_spec, testbit_u64_max by done. specialize (Hb b E).
  destruct (Z.eqb_spec (n mod 64) 0); [by rewrite testbit_u64_max|].
  rewrite Z.shiftl_mul_pow2, Z.mul_1_l by (apply Z.mod_pos_bound; lia).
  rewrite Z.sub_1_r, <- Z.ones_equiv, Z.ones_spec_low by lia. done.
Qed.

Lemma fill_range h : 0 <= fill_of h < 2 ^ 64.
Proof. unfold fill_of. destruct (_ =? 0); unfold u64_max; lia. Qed.

Lemma Expand_range position lr ws out lr' :
  Expand position lr ws out lr' -> Forall (fun w => 0 <= w < 2 ^ 64) ws ->
  Forall (fun w => 0 <= w < 2 ^ 64) out.
Proof.
  induction 1 as [|? ? h lits rest out lr' Hz HE IH]; intros HF; [constructor|].
  apply Forall_cons in HF as [_ [? ?]%Forall_app].
  apply Forall_app. split; [apply Forall_replicate, fill_range|]. apply Forall_app. auto.
Qed.

Lemma div_ceil_64 n : 0 <= n -> 64 * (div_ceil n 64 - 1) < n \/ n = 0 /\ div_ceil n 64 = 0.
Proof. intros. unfold div_ceil. Z.div_mod_to_equations. lia. Qed.

(** The test on the last word keeps all set bits below [objects]. *)
Lemma universe_of_tail objects out :
  0 <= objects -> Forall (fun w => 0 <= w < 2 ^ 64) out -> zlen out <= div_ceil objects 64 ->
  (zlen out <> 0 -> zlen out = div_ceil objects 64 ->
   Z.land (default 0 (last out)) (lnot64 (tail_mask objects)) = 0) ->
  in_universe objects out.
Proof.
  intros Ho HF Hz Ht i w b Hi Hb. pose proof (lookup_lt_Some _ _ _ Hi).
  assert (0 <= w < 2 ^ 64) as Hw by (rewrite Forall_forall in HF; eapply HF, list_elem_of_lookup_2; eauto).
  pose proof (testbit_range w b Hw Hb) as Hr. unfold zlen in *.
  destruct (div_ceil_64 objects Ho) as [Hd|[-> Hd]]; [|lia].
  destruct (decide (Z.of_nat i + 1 = div_ceil objects 64)) as [Hlast|]; [|lia].
  rewrite last_lookup in Ht. replace (pred (length out)) with i in Ht by lia. rewrite Hi in Ht. simpl in Ht.
  pose proof (tail_mask_bits objects w b Ho Hw (Ht ltac:(lia) ltac:(lia)) Hb).
  unfold div_ceil in *. Z.div_mod_to_equations. lia.
Qed.

(** What an accepted record is. *)
Record Accepted (bs : bytes) (objects : Z) (e : Ewah) (ws out : list Z) : Prop := {
  accepted_longs : Longs bs (start e) ws;
  accepted_words : words e = zlen ws;
  accepted_expand : exists lr, Expand 0 0 ws out lr;
  accepted_range : Forall (fun w => 0 <= w < 2 ^ 64) out;
  accepted_size : zlen out <= div_ceil objects 64;
  accepted_universe : in_universe objects out
}.

Lemma word_range bs s w : bytes_ok bs -> word bs s = Ok w -> 0 <= w < 2 ^ 32.
Proof.
  intros Hb. unfold word. intros (en & Hen%ok_or_Ok & H)%rbind_Ok. apply checked_add_Some in Hen as [-> _].
  apply rbind_Ok in H as (m & Hm%ok_or_Ok & [= <-]).
  apply slice_app in Hm as (pre & post & -> & _ & Hz). apply bytes_ok_app in Hb as [_ [Hb _]%bytes_ok_app].
  pose proof (be_decode_bound m Hb) as HB. rewrite Hz in HB. by replace (s + 4 - s) with 4 in HB by lia.
Qed.

Lemma Longs_range bs s ws : Longs bs s ws -> Forall (fun w => 0 <= w < 2 ^ 64) ws.
Proof. intros HL. apply Forall_lookup_2. intros i w Hi. by apply HL in Hi as [? _]. Qed.

Lemma parse_accepted bs cursor end_ objects e next :
  bytes_ok bs -> 0 <= cursor -> end_ <= zlen bs -> zlen bs <= usize_max -> 0 <= objects ->
  parse bs cursor end_ objects = Ok (e, next) ->
  cursor < next <= end_ /\ exists ws out, Accepted bs objects e ws out.
Proof.
  intros Hb Hc He Hu Ho. unfold parse.
  intros (bits & Hbits%(word_range _ _ _ Hb) & H)%rbind_Ok.
  apply rbind_Ok in H as (at4 & _ & H). apply rbind_Ok in H as (nw & Hnw%(word_range _ _ _ Hb) & H).
  destruct (Z.ltb_spec (div_ceil objects 64) (div_ceil bits 64)); [done|].
  apply rbind_Ok in H as (st & Hst%ok_or_Ok & H). apply checked_add_Some in Hst as [-> _].
  apply rbind_Ok in H as (de & Hde%ok_or_Ok & H).
  assert (de = cursor + 8 + nw * 8) as ->.
  { destruct (checked_mul nw 8) eqn:E; [|done]. apply checked_mul_Some in E as [-> _].
    by apply checked_add_Some in Hde as [-> _]. }
  apply rbind_Ok in H as (nx & Hnx%ok_or_Ok & H). apply checked_add_Some in Hnx as [-> _].
  destruct (_ || _) eqn:Eg; [done|]. apply orb_false_iff in Eg as [_ Eg%Z.ltb_ge].
  apply rbind_Ok in H as (current & _ & H). apply rbind_Ok in H as ([[ex lr] lw] & HP & H).
  destruct (Longs_exist bs (cursor + 8) nw) as (ws & Hz & HL); [done|lia..|]. subst nw.
  apply (parse_loop_sound bs _ ws HL) in HP as (out & HE & -> & ->); [|zlia].
  rewrite Z.add_0_l in H. destruct (_ || _) eqn:E1; [done|]. apply orb_false_iff in E1 as [E1%negb_false_iff%Z.eqb_eq _].
  destruct (_ && _); [done|]. destruct (_ && _) eqn:E3; [done|]. injection H as <- <-.
  split; [zlia|]. exists ws, out.
  assert (Forall (fun w => 0 <= w < 2 ^ 64) out) as HR
    by (eapply Expand_range; [exact HE|]; apply Forall_drop; by eapply Longs_range).
  constructor; [done|done|eauto|done|lia|]. apply universe_of_tail; [done..|lia|].
  intros Hne Heq. rewrite (proj2 (Z.eqb_neq _ _) Hne), (proj2 (Z.eqb_eq _ _) Heq) in E3. simpl in E3.
  by apply negb_false_iff, Z.eqb_eq in E3.
Qed.

Lemma Accepted_xor cancel bs objects e ws out :
  Accepted bs objects e ws out -> Xor cancel (xor_into cancel bs e) 0 out (zlen out).
Proof.
  intros [HL Hw [lr HE] _ _ _]. unfold xor_into. rewrite Hw.
  apply (xor_loop_spec cancel _ bs e ws 0 0 out lr 0 HL Hw); [rewrite length_drop; unfold zlen; lia|zlia|done].
Qed.

Lemma in_universe_xor objects out l :
  in_universe objects out -> in_universe objects l -> in_universe objects (xor_from 0 out l).
Proof.
  intros Ho Hl i w b Hi Hb. rewrite xor_from_lookup in Hi. cbn [Nat.leb] in Hi. rewrite Nat.sub_0_r in Hi.
  destruct (l !! i) as [x|] eqn:E; [|done]. injection Hi as <-. rewrite Z.lxor_spec in Hb.
  destruct (Z.testbit x b) eqn:Ex; [by eapply Hl|]. destruct (out !! i) as [y|] eqn:Ey; simpl in Hb.
  - eapply Ho; [exact Ey|]. by destruct (Z.testbit y b).
  - by rewrite Z.bits_0 in Hb.
Qed.

(** C35: a record the framing check accepts always decodes.  XORing it into an
    array of the universe's size succeeds or stops only because the work budget is
    smaller than the universe or the caller cancelled, never with a malformed-data
    error or an access outside the array; the result stays within the object
    universe, and decoding the same record again restores the array. *)
Theorem accepted_record_decodes cancel bs cursor end_ objects e next d :
  bytes_ok bs -> 0 <= cursor -> end_ <= zlen bs -> zlen bs <= usize_max -> 0 <= objects ->
  parse bs cursor end_ objects = Ok (e, next) ->
  zlen (output d) = div_ceil objects 64 -> 0 <= budget d -> in_universe objects (output d) ->
  match xor_into cancel bs e d with
  | (Ok _, d') => zlen (output d') = div_ceil objects 64 /\ in_universe objects (output d') /\
                  forall d'', xor_into cancel bs e d' = (Ok tt, d'') -> output d'' = output d
  | (Err err, _) => err = Limit "decoded words" /\ budget d < div_ceil objects 64 \/
                    err = Cancelled /\ exists k, cancel k = true
  end.
Proof.
  intros Hb Hc He Hu Ho HP Hd Hbud Hin.
  destruct (parse_accepted _ _ _ _ _ _ Hb Hc He Hu Ho HP) as (_ & ws & out & HA).
  pose proof (Accepted_xor cancel _ _ _ _ _ HA) as HX. destruct HA as [_ _ _ _ Hsz Huni].
  pose proof (HX d ltac:(lia) ltac:(lia) Hbud) as H1. destruct (xor_into cancel bs e d) as [[[]|err] d'].
  - destruct H1 as (E1 & _ & Hb').
    assert (zlen (output d') = div_ceil objects 64) as Hd' by (unfold zlen in *; by rewrite E1, length_xor_from).
    split; [done|]. split; [rewrite E1; by apply in_universe_xor|]. intros d'' E2.
    pose proof (HX d' ltac:(lia) ltac:(lia) Hb') as H2. rewrite E2 in H2. destruct H2 as (E3 & _).
    by rewrite E3, E1, xor_from_twice.
  - destruct H1 as [[-> ?]|?]; [left; split; [done|lia]|by right].
Qed.

(** ** Encoding *)

Section Encoding.
Context (cancel : nat -> bool) (Hcancel : forall k, cancel k = false).

(** A writer with room for [n] more bytes appends [bs] and nothing else. *)
Definition appends (m : SE Output WriteError unit) (bs : bytes) : Prop :=
  forall o, zlen (data o) + zlen bs <= limit o <= usize_max ->
  exists k, m o = (Ok tt, {| data := data o ++ bs; limit := limit o; wloads := k |}).

Lemma put_bytes_appends bs : appends (put_bytes bs) bs.
Proof.
  intros o Ho. unfold put_bytes. rewrite checked_add_le by lia.
  destruct (Z.ltb_spec (limit o) (zlen (data o) + zlen bs)); [lia|]. eauto.
Qed.

Lemma appends_step {A} m bs (k : unit -> SE Output WriteError A) o :
  appends m bs -> zlen (data o) + zlen bs <= limit o <= usize_max ->
  exists n, se_bind m k o = k tt {| data := data o ++ bs; limit := limit o; wloads := n |}.
Proof. intros Hm Ho. destruct (Hm o Ho) as [n E]. exists n. unfold se_bind. by rewrite E. Qed.

Ltac append_step H :=
  match goal with |- context [se_bind ?m ?k ?o] =>
    let n := fresh "n" in destruct (appends_step m _ k o H) as [n ->]
  end.

Lemma wcheck_ok {A} (k : unit -> SE Output WriteError A) o :
  se_bind (wcheck cancel) k o = k tt {| data := data o; limit := limit o; wloads := S (wloads o) |}.
Proof using Hcancel. unfold se_bind, wcheck. by rewrite Hcancel. Qed.

Lemma zlen_longs ws : zlen (concat (map (be_encode 8) ws)) = 8 * zlen ws.
Proof.
  induction ws as [|w ws IH]; [done|]. cbn [map concat]. rewrite zlen_app, IH, zlen_be_encode, zlen_cons. lia.
Qed.

Lemma put_longs_appends ws : appends (put_longs cancel ws) (concat (map (be_encode 8) ws)).
Proof using Hcancel.
  induction ws as [|w ws IH]; intros o Ho; cbn [put_longs map concat].
  - exists (wloads o). rewrite app_nil_r. by destruct o.
  - cbn [map concat] in Ho. rewrite zlen_app in Ho. pose proof (zlen_nonneg (concat (map (be_encode 8) ws))).
    rewrite wcheck_ok. append_step (put_bytes_appends (be_encode 8 w)); [cbn [data limit]; lia|].
    cbn [data limit]. destruct (IH {| data := data o ++ be_encode 8 w; limit := limit o; wloads := n |})
      as [k2 E]; cbn [data limit] in *; [rewrite zlen_app; lia|]. rewrite E, <- app_assoc. eauto.
Qed.

(** [count_while] only moves the load counter. *)
Lemma count_while_spec ok ws o :
  exists n k, count_while cancel ok ws o = (Ok n, {| data := data o; limit := limit o; wloads := k |}) /\
    (n <= length ws)%nat /\ Forall (fun w => ok w = true) (take n ws) /\
    (forall w, head (drop n ws) = Some w -> ok w = false).
Proof using Hcancel.
  revert o; induction ws as [|w ws IH]; intros o; cbn [count_while].
  - exists O, (wloads o). split; [by destruct o|]. done.
  - destruct (ok w) eqn:E.
    + rewrite wcheck_ok. unfold se_bind.
      destruct (IH {| data := data o; limit := limit o; wloads := S (wloads o) |}) as (n & k & -> & Hl & HF & Hh).
      exists (S n), k. split; [done|]. split; [simpl; lia|]. split; [by constructor|done].
    + exists O, (wloads o). split; [by destruct o|]. split; [lia|]. split; [constructor|].
      simpl. by intros ? [= <-].
Qed.

(** The header [ewah] writes, read back. *)
Lemma header_encode (bit : bool) run literals :
  0 <= run < 2 ^ 32 -> 0 <= literals < 2 ^ 31 ->
  let h := Z.lor (Z.lor (if bit then 1 else 0) (Z.shiftl run 1)) (Z.shiftl literals 33) in
  0 <= h < 2 ^ 64 /\ run_of h = run /\ literals_of h = literals /\
  fill_of h = (if bit then u64_max else 0).
Proof.
  intros Hr Hl h. set (b := if bit then 1 else 0) in *. assert (0 <= b < 2) as Hb by (unfold b; destruct bit; lia).
  assert (h = b + run * 2 + literals * 2 ^ 33) as Hh.
  { unfold h. rewrite (lor_shiftl b run 1) by lia. rewrite (lor_shiftl _ literals 33); lia. }
  unfold run_of, literals_of, fill_of. change 4294967295 with (2 ^ 32 - 1). rewrite land_low_mod by lia.
  change (Z.land h 1) with (Z.land h (2 ^ 1 - 1)). rewrite land_low_mod, !Z.shiftr_div_pow2, Hh by lia.
  change (2 ^ 33) with 8589934592 in *. change (2 ^ 32) with 4294967296 in *. change (2 ^ 31) with 2147483648 in *.
  change (2 ^ 64) with 18446744073709551616. change (2 ^ 1) with 2.
  split_and!; [lia|lia|Z.div_mod_to_equations; lia..|].
  replace ((b + run * 2 + literals * 8589934592) mod 2) with b by (Z.div_mod_to_equations; lia).
  unfold b. by destruct bit.
Qed.
Lemma Forall_eq_replicate (x : Z) l : Forall (fun w => (w =? x) = true) l -> l = replicate (length l) x.
Proof. induction 1 as [|y l Hy HF IH]; [done|]. simpl. apply Z.eqb_eq in Hy as ->. by f_equal. Qed.

(** One group: the words split into a run of the fill and literals, not both empty. *)
Lemma group_split w ws :
  let bit := w =? u64_max in
  let fill := if bit then u64_max else 0 in
  let lit := fun v => negb (v =? 0) && negb (v =? u64_max) in
  forall o, exists run count k1 k2,
    count_while cancel (fun v => v =? fill) (w :: ws) o =
      (Ok run, {| data := data o; limit := limit o; wloads := k1 |}) /\
    count_while cancel lit (drop run (w :: ws)) {| data := data o; limit := limit o; wloads := k1 |} =
      (Ok count, {| data := data o; limit := limit o; wloads := k2 |}) /\
    w :: ws = replicate run fill ++ take count (drop run (w :: ws)) ++ drop count (drop run (w :: ws)) /\
    (1 <= run + count)%nat /\ (run + count <= S (length ws))%nat.
Proof using Hcancel.
  intros bit fill lit o.
  destruct (count_while_spec (fun v => v =? fill) (w :: ws) o) as (run & k1 & E1 & L1 & F1 & H1).
  destruct (count_while_spec lit (drop run (w :: ws)) {| data := data o; limit := limit o; wloads := k1 |})
    as (count & k2 & E2 & L2 & F2 & H2).
  exists run, count, k1, k2. split; [exact E1|]. split; [exact E2|]. rewrite length_drop in L2. cbn [length] in *.
  split_and!; [|..|lia].
  - rewrite take_drop. apply Forall_eq_replicate in F1. rewrite length_take in F1.
    replace (run `min` length (w :: ws))%nat with run in F1 by (cbn [length]; lia).
    rewrite <- F1. by rewrite take_drop.
  - destruct run as [|run]; [|lia]. destruct count as [|count]; [|lia]. exfalso.
    specialize (H1 w eq_refl). specialize (H2 w eq_refl). unfold lit, fill, bit in *. cbv beta in *.
    destruct (Z.eqb_spec w u64_max) as [Hw|Hw]; [by apply Z.eqb_neq in H1|].
    rewrite H1 in H2. done.
Qed.

Lemma ewah_loop_spec fuel ws compressed lr o :
  (length ws <= fuel)%nat -> Forall (fun w => 0 <= w < 2 ^ 64) ws -> 0 <= compressed ->
  zlen ws < 2 ^ 31 -> compressed + 2 * zlen ws <= u32_max ->
  zlen (data o) + 16 * zlen ws <= limit o <= usize_max ->
  exists enc k lr', ewah_loop cancel fuel ws compressed lr o =
      (Ok (compressed + zlen enc, lr'),
       {| data := data o ++ concat (map (be_encode 8) enc); limit := limit o; wloads := k |}) /\
    Expand compressed lr enc ws lr' /\ zlen enc <= 2 * zlen ws /\
    Forall (fun w => 0 <= w < 2 ^ 64) enc /\ (ws <> [] -> enc <> []).
Proof using Hcancel.
  revert ws compressed lr o; induction fuel as [|fuel IH]; intros ws compressed lr o Hf HF Hc Hs Hu Hroom;
    destruct ws as [|w ws]; [|simpl in Hf; lia|..]; cbn [ewah_loop].
  1,2: exists [], (wloads o), lr; rewrite zlen_nil, Z.add_0_r, app_nil_r; destruct o;
    split_and!; try done; constructor.
  rewrite wcheck_ok. cbv zeta.
  destruct (group_split w ws {| data := data o; limit := limit o; wloads := S (wloads o) |})
    as (run & count & k1 & k2 & E1 & E2 & Hsplit & Hpos & Hle).
  set (fill := if w =? u64_max then u64_max else 0) in *.
  set (lits := take count (drop run (w :: ws))) in *. set (rest := drop count (drop run (w :: ws))) in *.
  assert (zlen lits = Z.of_nat count) as Hz.
  { unfold lits, zlen. rewrite length_take, length_drop. cbn [length]. lia. }
  assert (zlen (w :: ws) = Z.of_nat run + zlen lits + zlen rest) as Hlen by (rewrite Hsplit at 1; zlia).
  pose proof (zlen_nonneg rest).
  unfold se_bind at 1. rewrite E1. unfold se_bind at 1. fold fill. cbn [data limit] in *. rewrite E2.
  unfold se_lift at 1. rewrite (proj2 (Z.leb_le (Z.of_nat count) _)) by lia.
  unfold se_bind at 1. cbv beta iota.
  destruct (header_encode (w =? u64_max) (Z.of_nat run) (Z.of_nat count)) as (Hh & Hrun & Hlit & Hfill);
    [unfold u32_max in *; lia|lia|]. set (h := Z.lor _ (Z.shiftl (Z.of_nat count) 33)) in *.
  append_step (put_bytes_appends (be_encode 8 h)); [cbn [data limit]; rewrite zlen_be_encode; lia|].
  cbn [data limit]. unfold se_lift. rewrite (proj2 (Z.leb_le _ u32_max)) by lia.
  unfold se_bind at 1. append_step (put_longs_appends lits);
    [cbn [data limit]; rewrite zlen_app, zlen_be_encode, zlen_longs; lia|]. cbn [data limit].
  assert (Forall (fun w => 0 <= w < 2 ^ 64) lits /\ Forall (fun w => 0 <= w < 2 ^ 64) rest) as [HFl HFr].
  { rewrite Hsplit in HF. rewrite !Forall_app in HF. naive_solver. }
  fold rest. match goal with |- context [ewah_loop _ _ _ ?c ?l ?o'] => destruct (IH rest c l o')
    as (enc & k & lr' & -> & HE & Hel & HFe & _) end;
    [|done|lia..|cbn [data limit]; rewrite !zlen_app, zlen_be_encode, zlen_longs; lia|].
  { unfold zlen in *. cbn [length] in *. lia. }
  exists (h :: lits ++ enc), k, lr'. split_and!; [|..|done].
  - cbn [data limit map concat]. rewrite map_app, concat_app, <- !app_assoc, zlen_cons, zlen_app, Hz.
    by replace (compressed + (1 + Z.of_nat count) + zlen enc)
      with (compressed + (Z.of_nat count + zlen enc + 1)) by lia.
  - rewrite Hsplit at 1. replace fill with (fill_of h).
    replace run with (Z.to_nat (run_of h)) at 1 by lia. constructor; [lia|].
    rewrite Hz. by replace (compressed + 1 + Z.of_nat count) with (compressed + (1 + Z.of_nat count)) by lia.
  - rewrite zlen_cons, zlen_app. lia.
  - constructor; [done|]. by apply Forall_app.
Qed.

(** The words [ewah] keeps: zero words at the end are trimmed. *)
Lemma trim_spec (input : list Z) :
  let n := match rposition (fun w => negb (w =? 0)) input with Some p => S p | None => O end in
  input = take n input ++ replicate (length input - n) 0 /\ (n <= length input)%nat /\
  (forall w, last (take n input) = Some w -> w <> 0) /\ length (take n input) = n.
Proof.
  intros n. unfold n. destruct (rposition _ input) as [p|] eqn:E.
  - apply rposition_Some in E as (a & x & b & -> & <- & Hx & HF).
    apply negb_true_iff, Z.eqb_neq in Hx.
    replace (take (S (length a)) (a ++ x :: b)) with (a ++ [x]); cycle 1.
    { replace (S (length a)) with (length (a ++ [x])) by (rewrite length_app; simpl; lia).
      change (x :: b) with ([x] ++ b). by rewrite app_assoc, take_app_length. }
    rewrite !length_app. simpl. split_and!; [|lia| |lia].
    + rewrite <- app_assoc. simpl. f_equal. f_equal.
      replace (length a + S (length b) - S (length a))%nat with (length b) by lia.
      clear -HF. induction HF as [|y b Hy HF IH]; [done|]. simpl.
      apply negb_false_iff, Z.eqb_eq in Hy as ->. by f_equal.
    + intros w. rewrite last_snoc. by intros [= <-].
  - apply rposition_None in E. simpl. rewrite Nat.sub_0_r. split_and!; [|lia|done|done].
    clear -E. induction E as [|y b Hy HF IH]; [done|]. simpl.
    apply negb_false_iff, Z.eqb_eq in Hy as ->. by f_equal.
Qed.

Lemma bits_of_last w : 0 < w < 2 ^ 64 -> 1 <= 64 - leading_zeros w <= 64 /\
  Z.testbit w (63 - leading_zeros w) = true /\ forall b, Z.testbit w b = true -> b < 64 - leading_zeros w.
Proof.
  intros Hw. unfold leading_zeros. rewrite (proj2 (Z.eqb_neq _ _)) by lia.
  pose proof (Z.log2_nonneg w). assert (Z.log2 w < 64) by (apply Z.log2_lt_pow2; lia).
  split; [lia|]. split.
  - replace (63 - (63 - Z.log2 w)) with (Z.log2 w) by lia. apply Z.bit_log2. lia.
  - intros b Hb. destruct (Z.ltb_spec (Z.log2 w) b); [|lia]. by rewrite Z.bits_above_log2 in Hb by lia.
Qed.

(** The bytes of a record. *)
Definition record (bits : Z) (enc : list Z) (lr : Z) : bytes :=
  be_encode 4 bits ++ be_encode 4 (zlen enc) ++ concat (map (be_encode 8) enc) ++ be_encode 4 lr.

Lemma zlen_record bits enc lr : zlen (record bits enc lr) = 12 + 8 * zlen enc.
Proof. unfold record. rewrite !zlen_app, zlen_longs, !zlen_be_encode. lia. Qed.

(** What the [bits] field says about the trimmed words. *)
Definition bits_field (words : list Z) : Z :=
  match last words with
  | Some w => (zlen words - 1) * 64 + (64 - leading_zeros w)
  | None => 0
  end.

Lemma bits_field_spec words :
  Forall (fun w => 0 <= w < 2 ^ 64) words -> (forall w, last words = Some w -> w <> 0) ->
  0 <= bits_field words /\ div_ceil (bits_field words) 64 = zlen words /\
  (forall objects, in_universe objects words -> words <> [] -> bits_field words <= objects) /\
  (words <> [] -> Z.land (default 0 (last words)) (lnot64 (tail_mask (bits_field words))) = 0).
Proof.
  intros HF Hl. unfold bits_field. destruct words as [|w words _] using rev_ind; [done|].
  rewrite last_snoc in *. specialize (Hl w eq_refl). replace (zlen (words ++ [w])) with (zlen words + 1) by (unfold zlen; rewrite length_app; simpl; lia).
  apply Forall_app in HF as [_ HF]. inversion HF as [|? ? Hw]; subst.
  destruct (bits_of_last w) as (Hlz & Htop & Hbits); [lia|]. pose proof (zlen_nonneg words).
  set (n := (zlen words + 1 - 1) * 64 + (64 - leading_zeros w)) in *.
  split_and!; [lia|unfold div_ceil, n; Z.div_mod_to_equations; lia|..].
  - intros objects Hu _. specialize (Hu (length words) w (63 - leading_zeros w)).
    rewrite list_lookup_middle in Hu by done. specialize (Hu eq_refl Htop). unfold n, zlen in *. lia.
  - intros _. apply tail_mask_pass; [lia|done|]. intros b Hb Hne. specialize (Hbits b Hb).
    unfold n in *. Z.div_mod_to_equations. lia.
Qed.

Lemma patch_word_spec pre mid post value l k :
  zlen mid = 4 ->
  patch_word (zlen pre) value {| data := pre ++ mid ++ post; limit := l; wloads := k |} =
  (Ok tt, {| data := pre ++ be_encode 4 value ++ post; limit := l; wloads := k |}).
Proof.
  intros Hm. unfold patch_word. cbn [data limit wloads]. rewrite (slice_mid pre mid post) by lia.
  replace (Z.to_nat (zlen pre)) with (length pre) by (unfold zlen; lia). rewrite take_app_length.
  replace (Z.to_nat (zlen pre + 4)) with (length (pre ++ mid))%nat by (rewrite length_app; unfold zlen in *; lia).
  by rewrite (app_assoc pre mid post), drop_app_length.
Qed.

(** The compressed words of the record: the loop's, or one empty run. *)
Lemma ewah_body words o :
  Forall (fun w => 0 <= w < 2 ^ 64) words -> zlen words <= 2 ^ 26 ->
  zlen (data o) + 8 + 16 * zlen words <= limit o <= usize_max ->
  exists enc k lr,
    se_bind (match words with [] => let! _ := put_long 0 in se_ret 1 | _ => se_ret 0 end)
      (fun c => ewah_loop cancel (length words) words c 0) o =
      (Ok (zlen enc, lr),
       {| data := data o ++ concat (map (be_encode 8) enc); limit := limit o; wloads := k |}) /\
    Expand 0 0 enc words lr /\ Forall (fun w => 0 <= w < 2 ^ 64) enc /\
    1 <= zlen enc <= 2 * zlen words + 1.
Proof using Hcancel.
  intros HF Hz Hroom. destruct words as [|w ws].
  - rewrite (zlen_nil (A:=Z)) in Hroom. exists [0]. destruct (put_bytes_appends (be_encode 8 0) o) as [k E];
      [rewrite zlen_be_encode; lia|]. exists k, 0. unfold put_long, se_bind. rewrite E.
    split_and!; [done| |by constructor|done|done].
    apply (Expand_cons 0 0 0 [] [] [] 0); [done|]. constructor.
  - unfold se_bind at 1, se_ret at 1.
    destruct (ewah_loop_spec (length (w :: ws)) (w :: ws) 0 0 o) as (enc & k & lr & E & HE & Hl & HFe & Hne);
      [lia|done|unfold u32_max; lia..|]. exists enc, k, lr. rewrite E, Z.add_0_l. split_and!; [done..| |lia].
    specialize (Hne ltac:(done)). destruct enc; [done|]. rewrite zlen_cons. zlia.
Qed.

Lemma ewah_record input o objects :
  Forall (fun w => 0 <= w < 2 ^ 64) input -> 0 <= objects <= u32_max -> zlen input = div_ceil objects 64 ->
  in_universe objects input -> zlen (data o) + 24 + 16 * zlen input <= limit o <= usize_max ->
  exists words enc k lr m,
    ewah cancel input o =
      (Ok tt, {| data := data o ++ record (bits_field words) enc lr; limit := limit o; wloads := k |}) /\
    input = words ++ replicate m 0 /\ (forall w, last words = Some w -> w <> 0) /\
    Expand 0 0 enc words lr /\ Forall (fun w => 0 <= w < 2 ^ 64) enc /\ 1 <= zlen enc <= u32_max.
Proof using Hcancel.
  intros HF Ho Hz Hu Hroom. destruct (trim_spec input) as (Ht & Hn & Hlast & Hlen). unfold ewah.
  set (n := match rposition _ input with Some p => S p | None => O end) in *. cbv zeta.
  set (words := take n input) in *. rewrite <- Hlen.
  assert (Forall (fun w => 0 <= w < 2 ^ 64) words) as HFw by (by apply Forall_take).
  assert (zlen words <= zlen input) as Hle by (unfold zlen; lia).
  assert (zlen words <= 2 ^ 26) as Hw26.
  { rewrite Hz in Hle. unfold div_ceil, u32_max in *. Z.div_mod_to_equations. lia. }
  destruct (bits_field_spec words HFw Hlast) as (Hb0 & _ & Hbu & _).
  fold (zlen words). change (match last words with Some w => _ | None => 0 end) with (bits_field words).
  assert (bits_field words <= u32_max) as Hb.
  { destruct (decide (words = [])) as [E|E]; [by rewrite E|].
    assert (bits_field words <= objects); [|lia]. apply Hbu; [|done].
    intros i w b Hi. apply Hu. rewrite Ht. by apply lookup_app_l_Some. }
  rewrite (proj2 (Z.leb_le _ _) Hb). pose proof (zlen_nonneg words).
  append_step (put_bytes_appends (be_encode 4 (bits_field words))); [rewrite zlen_be_encode; lia|].
  unfold se_bind at 1, se_get. cbn [data limit].
  append_step (put_bytes_appends (be_encode 4 0)); [cbn [data limit]; rewrite zlen_app, !zlen_be_encode; lia|].
  cbn [data limit]. rewrite se_bind_assoc. unfold se_bind at 1.
  match goal with |- context [ewah_loop cancel _ words _ 0] =>
    match goal with |- context [{| data := ?d; limit := ?l; wloads := ?k |}] =>
      destruct (ewah_body words {| data := d; limit := l; wloads := k |} HFw Hw26)
        as (enc & k1 & lr & E & HE & HFe & Hze) end end;
    [cbn [data limit]; rewrite !zlen_app, !zlen_be_encode; lia|].
  cbn [data limit] in E. rewrite E.
  set (body := concat (map (be_encode 8) enc)) in *.
  rewrite <- (app_assoc _ (be_encode 4 0) body). unfold se_bind at 1.
  rewrite patch_word_spec by apply zlen_be_encode.
  destruct (put_bytes_appends (be_encode 4 lr)
    {| data := (data o ++ be_encode 4 (bits_field words)) ++ be_encode 4 (zlen enc) ++ body;
       limit := limit o; wloads := k1 |}) as [k2 E2]; cbn [data limit] in *.
  { rewrite !zlen_app, !zlen_be_encode. unfold body. rewrite zlen_longs. lia. }
  exists words, enc, k2, lr, (length input - n)%nat. unfold put_word. rewrite E2. split_and!; try done.
  - unfold record. fold body. by rewrite <- !app_assoc.
  - lia.
  - unfold u32_max. lia.
Qed.
End Encoding.

(** ** The record is accepted, and decodes to the words *)

Lemma word_here pre v post :
  0 <= v < 2 ^ 32 -> zlen (pre ++ be_encode 4 v ++ post) <= usize_max ->
  word (pre ++ be_encode 4 v ++ post) (zlen pre) = Ok v.
Proof.
  intros Hv Hu. rewrite !zlen_app, zlen_be_encode in Hu. pose proof (zlen_nonneg post).
  unfold word. rewrite checked_add_le by lia. cbn [rbind ok_or].
  rewrite (slice_mid pre (be_encode 4 v) post) by (done || by rewrite zlen_be_encode). cbn [rbind ok_or].
  by rewrite be_decode_encode.
Qed.

Lemma Longs_here pre enc post :
  Forall (fun w => 0 <= w < 2 ^ 64) enc -> zlen (pre ++ concat (map (be_encode 8) enc) ++ post) <= usize_max ->
  Longs (pre ++ concat (map (be_encode 8) enc) ++ post) (zlen pre) enc.
Proof.
  intros HF Hu i w Hi. assert (0 <= w < 2 ^ 64) as Hw by (by apply (Forall_lookup_1 _ _ _ _ HF Hi)).
  split; [done|]. apply list_elem_of_split_length in Hi as (a & b & -> & ->).
  rewrite map_app, concat_app in *. cbn [map concat] in *. rewrite <- !app_assoc in *.
  set (A := concat (map (be_encode 8) a)) in *.
  replace (zlen pre + Z.of_nat (length a) * 8) with (zlen (pre ++ A))
    by (unfold A; rewrite zlen_app, zlen_longs; unfold zlen; lia).
  rewrite (app_assoc pre A) in *. set (P := pre ++ A) in *. set (Q := concat _ ++ post) in *.
  rewrite !zlen_app, zlen_be_encode in Hu. pose proof (zlen_nonneg Q).
  unfold long. rewrite checked_add_le by lia. cbn [rbind ok_or].
  rewrite (slice_mid P (be_encode 8 w) Q) by (done || by rewrite zlen_be_encode). cbn [rbind ok_or].
  by rewrite be_decode_encode.
Qed.

Lemma Expand_last position lr ws out lr' :
  0 <= position -> Expand position lr ws out lr' -> lr' = lr \/ position <= lr' < position + zlen ws.
Proof.
  intros Hp HE. revert Hp. induction HE as [|position lr h lits rest out lr' Hz HE IH]; intros Hp; [by left|].
  right. rewrite zlen_cons, zlen_app. pose proof (zlen_nonneg lits). pose proof (zlen_nonneg rest).
  destruct IH as [-> |]; lia.
Qed.

(** The tail test on the whole universe, from the words. *)
Lemma universe_tail objects out :
  0 <= objects -> Forall (fun w => 0 <= w < 2 ^ 64) out -> in_universe objects out -> out <> [] ->
  zlen out = div_ceil objects 64 -> Z.land (default 0 (last out)) (lnot64 (tail_mask objects)) = 0.
Proof.
  intros Ho HF Hu Hne Hz. destruct out as [|w out _] using rev_ind; [done|]. rewrite last_snoc.
  apply Forall_app in HF as [_ HF]. inversion HF as [|? ? Hw]; subst.
  apply tail_mask_pass; [done..|]. intros b Hb Hm. simpl in Hb.
  specialize (Hu (length out) w b). rewrite list_lookup_middle in Hu by done. specialize (Hu eq_refl Hb).
  assert (Z.of_nat (length out) + 1 = div_ceil objects 64) as Hd
    by (rewrite <- Hz; unfold zlen; rewrite length_app; simpl; lia).
  unfold div_ceil in Hd. Z.div_mod_to_equations. lia.
Qed.

Section Roundtrip.
Context (pre post words_ enc : list Z) (lr objects end_ : Z).
Context (HFe : Forall (fun w => 0 <= w < 2 ^ 64) enc) (HFw : Forall (fun w => 0 <= w < 2 ^ 64) words_).
Context (HE : Expand 0 0 enc words_ lr) (Hlast : forall w, last words_ = Some w -> w <> 0).
Context (Huni : in_universe objects words_) (Hwz : zlen words_ <= div_ceil objects 64).
Context (Hobj : 0 <= objects <= u32_max) (Henc : 1 <= zlen enc <= u32_max).
Let R := record (bits_field words_) enc lr.
Context (Hroom : zlen (pre ++ R ++ post) <= usize_max) (Hend : zlen pre + zlen R <= end_).

Lemma bits_range : 0 <= bits_field words_ < 2 ^ 32.
Proof using All.
  destruct (bits_field_spec words_ HFw Hlast) as (H0 & _ & Hle & _). split; [done|].
  destruct (decide (words_ = [])) as [-> |]; [done|]. specialize (Hle objects Huni ltac:(done)).
  clear -Hle Hobj. unfold u32_max in *. lia.
Qed.

Lemma record_words :
  word (pre ++ R ++ post) (zlen pre) = Ok (bits_field words_) /\
  word (pre ++ R ++ post) (zlen pre + 4) = Ok (zlen enc) /\
  word (pre ++ R ++ post) (zlen pre + 8 + zlen enc * 8) = Ok lr /\
  Longs (pre ++ R ++ post) (zlen pre + 8) enc.
Proof using All.
  pose proof bits_range as Hbits.
  assert (0 <= lr < 2 ^ 32) as Hlr.
  { destruct (Expand_last _ _ _ _ _ (Z.le_refl 0) HE) as [-> |]; unfold u32_max in *; lia. }
  unfold R, record in *. rewrite <- !app_assoc in *.
  set (B := be_encode 4 (bits_field words_)) in *. set (N := be_encode 4 (zlen enc)) in *.
  set (D := concat (map (be_encode 8) enc)) in *. set (L := be_encode 4 lr) in *.
  assert (zlen B = 4 /\ zlen N = 4 /\ zlen D = zlen enc * 8) as (HB & HN & HD).
  { unfold B, N, D. rewrite !zlen_be_encode, zlen_longs. lia. }
  split_and!.
  - by apply word_here.
  - rewrite (app_assoc pre B) in *. replace (zlen pre + 4) with (zlen (pre ++ B)) by (rewrite zlen_app; lia).
    apply word_here; [unfold u32_max in *; lia|done].
  - rewrite (app_assoc pre B), (app_assoc _ N), (app_assoc _ D) in *.
    replace (zlen pre + 8 + zlen enc * 8) with (zlen (((pre ++ B) ++ N) ++ D)) by (rewrite !zlen_app; lia).
    by apply word_here.
  - rewrite (app_assoc pre B), (app_assoc _ N) in *.
    replace (zlen pre + 8) with (zlen ((pre ++ B) ++ N)) by (rewrite !zlen_app; lia).
    by apply Longs_here.
Qed.

Lemma parse_record :
  parse (pre ++ R ++ post) (zlen pre) end_ objects =
  Ok ({| start := zlen pre + 8; words := zlen enc |}, zlen pre + zlen R).
Proof using All.
  destruct record_words as (W1 & W2 & W3 & HL).
  destruct (bits_field_spec words_ HFw Hlast) as (H0 & Hd & _ & Htail).
  assert (zlen R = 12 + 8 * zlen enc) as HR by apply zlen_record.
  rewrite !zlen_app in Hroom. pose proof (zlen_nonneg post). pose proof (zlen_nonneg pre).
  unfold parse. rewrite W1. cbn [rbind]. rewrite checked_add_le by lia. cbn [rbind ok_or].
  rewrite W2. cbn [rbind]. rewrite Hd, (proj2 (Z.ltb_ge _ _) Hwz).
  rewrite checked_add_le by lia. cbn [rbind ok_or]. rewrite checked_mul_le by lia.
  rewrite checked_add_le by lia. cbn [rbind ok_or]. rewrite checked_add_le by lia. cbn [rbind ok_or].
  rewrite (proj2 (Z.eqb_neq _ _)), (proj2 (Z.ltb_ge end_ _)) by lia. cbn [orb]. rewrite W3. cbn [rbind].
  pose proof (zlen_nonneg words_).
  assert (zlen words_ <= usize_max) by (unfold div_ceil, u32_max, usize_max in *; Z.div_mod_to_equations; lia).
  rewrite (parse_loop_complete _ _ enc HL (Z.to_nat (zlen enc)) (bits_field words_) 0 0 0 0 words_ lr);
    [|rewrite length_drop; unfold zlen; lia|lia|lia|done|lia|done|lia].
  cbn [rbind]. rewrite !Z.add_0_l, !Z.eqb_refl. cbn [negb orb].
  assert (negb (zlen words_ =? 0) = true -> words_ <> []) as Hne by (intros Hz ->; done).
  destruct (negb (zlen words_ =? 0)) eqn:Ez; cbn [andb]; [|f_equal; f_equal; lia].
  specialize (Hne eq_refl). rewrite (Htail Hne). cbn [Z.eqb negb].
  destruct (Z.eqb_spec (zlen words_) (div_ceil objects 64)); cbn [andb]; [|f_equal; f_equal; lia].
  rewrite (universe_tail objects words_) by (done || lia). cbn [Z.eqb negb]. f_equal. f_equal. lia.
Qed.
End Roundtrip.

Lemma in_universe_app_l objects a b : in_universe objects (a ++ b) -> in_universe objects a.
Proof. intros Hu i w c Hi. apply Hu. by apply lookup_app_l_Some. Qed.

(** C34: the encoder and the decoder agree.  For words of one object universe
    (at most [u32::MAX] objects, no bit outside it), with room in the output and
    no cancellation, [ewah] appends a record; whatever follows it, the framing
    check accepts the record at its offset and leaves the cursor after it; and
    XORing it into zeroed words under a budget of one universe gives back exactly
    the words that were encoded. *)
Theorem ewah_roundtrip cancel objects input o :
  (forall k, cancel k = false) ->
  Forall (fun w => 0 <= w < 2 ^ 64) input -> 0 <= objects <= u32_max ->
  zlen input = div_ceil objects 64 -> in_universe objects input ->
  zlen (data o) + 24 + 16 * zlen input <= limit o <= usize_max ->
  exists o', ewah cancel input o = (Ok tt, o') /\
  forall post end_, zlen (data o' ++ post) <= usize_max -> zlen (data o') <= end_ ->
  exists e, parse (data o' ++ post) (zlen (data o)) end_ objects = Ok (e, zlen (data o')) /\
  forall d, output d = replicate (Z.to_nat (div_ceil objects 64)) 0 -> div_ceil objects 64 <= budget d ->
  exists d', xor_into cancel (data o' ++ post) e d = (Ok tt, d') /\ output d' = input.
Proof.
  intros Hc HF Ho Hz Hu Hroom.
  destruct (ewah_record cancel Hc input o objects HF Ho Hz Hu Hroom)
    as (words_ & enc & k & lr & m & E & Hin & Hlast & HE & HFe & Henc).
  eexists. split; [exact E|]. cbn [data]. intros post end_ Hsize Hend. rewrite <- app_assoc in *.
  rewrite zlen_app in Hend.
  assert (Forall (fun w => 0 <= w < 2 ^ 64) words_) as HFw by (rewrite Hin in HF; by apply Forall_app in HF as [? _]).
  assert (in_universe objects words_) as Hu' by (rewrite Hin in Hu; by apply in_universe_app_l in Hu).
  assert (zlen input = zlen words_ + Z.of_nat m) as Hzi by (rewrite Hin; zlia).
  pose proof (record_words (data o) post words_ enc lr objects end_) as HR.
  pose proof (parse_record (data o) post words_ enc lr objects end_) as HP.
  eexists. split; [rewrite zlen_app; apply HP; done || lia|]. intros d Hd Hb.
  destruct HR as (_ & _ & _ & HL); [done|done|done|done|done|lia|done|done|done|done|].
  match goal with |- context [xor_into cancel ?b ?e d] =>
    pose proof (xor_loop_spec cancel (Z.to_nat (words e)) b e enc 0 0 words_ lr 0 HL eq_refl) as HX end.
  pose proof (zlen_nonneg words_). pose proof (zlen_nonneg input). cbn [words] in HX.
  specialize (HX ltac:(rewrite length_drop; unfold zlen; lia) ltac:(lia) HE d ltac:(lia)).
  rewrite Hd in HX. rewrite zlen_replicate in HX. specialize (HX ltac:(lia) ltac:(lia)).
  unfold xor_into. cbn [words]. destruct (xor_loop _ _ _ _ _ _ d) as [[[]|e] d'].
  - exists d'. split; [done|]. destruct HX as (-> & _). change (Z.to_nat 0) with O.
    rewrite xor_from_fresh by (unfold zlen in *; lia). rewrite Hin. f_equal. f_equal. unfold zlen in *. lia.
  - destruct HX as [[_ ?]|[_ [k' Hk]]]; [lia|]. by rewrite Hc in Hk.
Qed.

Definition live (k : nat) : bool := false.

(** Four words of a universe of 200 objects: a run of ones, literals, zeros. *)
Lemma ewah_roundtrip_witness :
  exists o', ewah live [u64_max; 5; 0; 0] {| data := []; limit := 1000; wloads := 0 |} = (Ok tt, o') /\
  forall post end_, zlen (data o' ++ post) <= usize_max -> zlen (data o') <= end_ ->
  exists e, parse (data o' ++ post) 0 end_ 200 = Ok (e, zlen (data o')) /\
  forall d, output d = replicate 4 0 -> 4 <= budget d ->
  exists d', xor_into live (data o' ++ post) e d = (Ok tt, d') /\ output d' = [u64_max; 5; 0; 0].
Proof.
  apply (ewah_roundtrip live 200 [u64_max; 5; 0; 0] {| data := []; limit := 1000; wloads := 0 |}).
  - done.
  - repeat constructor; done.
  - done.
  - done.
  - intros i w b Hi Hb. assert (0 <= w < 2 ^ 64) as Hw.
    { do 4 (destruct i as [|i]; [injection Hi as <-; done|]). done. }
    pose proof (testbit_range w b Hw Hb). assert (i < 4)%nat by (by apply lookup_lt_Some in Hi).
    destruct (decide (i = 3%nat)) as [-> |]; [injection Hi as <-; by rewrite Z.bits_0 in Hb|lia].
  - done.
Defined.

Lemma accepted_record_decodes_witness :
  let bs := record 65 [3; 8589934592; 1] 1 in
  parse bs 0 36 100 = Ok ({| start := 8; words := 3 |}, 36) /\
  match xor_into live bs {| start := 8; words := 3 |} {| output := [0; 0]; budget := 2; loads := 0 |} with
  | (Ok _, d') => zlen (output d') = 2 /\ in_universe 100 (output d') /\
      forall d'', xor_into live bs {| start := 8; words := 3 |} d' = (Ok tt, d'') -> output d'' = [0; 0]
  | (Err err, _) => err = Limit "decoded words" /\ 2 < div_ceil 100 64 \/
                    err = Cancelled /\ exists k, live k = true
  end.
Proof.
  split; [vm_compute; reflexivity|].
  apply (accepted_record_decodes live (record 65 [3; 8589934592; 1] 1) 0 36 100 {| start := 8; words := 3 |} 36).
  - vm_compute. repeat (constructor; [split; [discriminate|reflexivity]|]). constructor.
  - done.
  - done.
  - done.
  - done.
  - vm_compute; reflexivity.
  - done.
  - done.
  - intros i w b Hi Hb. do 2 (destruct i as [|i]; [injection Hi as <-; by rewrite Z.bits_0 in Hb|]). done.
Defined.
End Ewah.
