(* ===== verification/BitmapIndex.v ===== *)
(** * Reachability bitmap index ([src/src/bitmap.rs], [src/src/bitmap/reverse.rs])

    Parsing of a [.bitmap] file (header, four type bitmaps, commit entries with
    XOR dependencies, lookup table) and of a [.rev] permutation, and the
    resolution of a commit's bitmap along its XOR chain.  The checksum functions
    belong to a cryptographic library and are parameters.  An index out of range,
    where Rust would panic, is the error [Malformed "panic"]. *)

From stdpp Require Import base list numbers strings sets sorting.
From Stdlib Require Import ZArith Lia.
From S2P Require Import Prelude Objects Ewah.

Module BitmapIndex.
Import Objects Ewah.

Record Limits := {
  max_bytes : Z; max_objects : Z; max_entries : Z; max_decoded_words : Z
}.

Definition default_limits : Limits := {|
  max_bytes := 1024 * 1024 * 1024; max_objects := 40000000;
  max_entries := 100000; max_decoded_words := 64000000
|}.

Definition panic : Error := Malformed "panic".

(** ** [Bitmap] *)

Record Bitmap := { bitmap_words : list Z; universe : Z }.

Definition bit_len (b : Bitmap) : Z := universe b.

(** [u64::count_ones]. *)
Definition count_ones (w : Z) : Z := zlen (filter (fun i => Z.testbit w i = true) (seqZ 0 64)).
Definition count (b : Bitmap) : Z := foldr (fun w acc => count_ones w + acc) 0 (bitmap_words b).

(** [Bitmap::contains]. *)
Definition bitmap_contains (b : Bitmap) (position : Z) : bool :=
  (position <? universe b) &&
  match zget (position / 64) (bitmap_words b) with
  | Some word => negb (Z.land word (Z.shiftl 1 (position mod 64)) =? 0)
  | None => false
  end.

(** [u64::trailing_zeros] of a non-zero word. *)
Definition trailing_zeros (w : Z) : Z := Z.log2 (Z.land w (- w)).

(** The iterator [Bitmap::positions] over one word; a word has at most 64 bits. *)
Fixpoint word_positions (fuel : nat) (index remaining : Z) : list Z :=
  match fuel with
  | O => []
  | S fuel =>
      if remaining =? 0 then []
      else (index * 64 + trailing_zeros remaining) ::
           word_positions fuel index (Z.land remaining (remaining - 1))
  end.
Fixpoint positions_from (index : Z) (ws : list Z) : list Z :=
  match ws with
  | [] => []
  | w :: ws => word_positions 64 index w ++ positions_from (index + 1) ws
  end.
Definition positions (b : Bitmap) : list Z := positions_from 0 (bitmap_words b).

(** ** Parsing *)

Record Entry := { position : Z; xor : Z; offset : Z; bitmap : Ewah }.

Record BitmapIndex := {
  bytes_ : bytes; anchor : ObjectId; objects : Z; types : list Bitmap;
  entries : list Entry; sorted : list nat; hashes : option Z
}.

Definition bounds (bs : bytes) (objects : Z) (limits : Limits) : result Error unit :=
  if max_bytes limits <? zlen bs then Err (Limit "bytes")
  else if (max_objects limits <? objects) || (u32_max <? objects) then Err (Limit "objects")
  else Ok tt.

(** The loop over the four type bitmaps. *)
Fixpoint parse_types (n : nat) (bs : bytes) (cursor entries_end objects b : Z)
  : result Error (list Bitmap * Z * Z) :=
  match n with
  | O => Ok ([], cursor, b)
  | S n =>
      let? (encoded, cursor) := parse bs cursor entries_end objects in
      let? (output_, b) := zero_words objects b in
      let (r, d) := xor_into (fun _ => false) bs encoded
                      {| output := output_; budget := b; loads := 0 |} in
      let? _ := r in
      let? (more, cursor, b) := parse_types n bs cursor entries_end objects (budget d) in
      Ok ({| bitmap_words := output d; universe := objects |} :: more, cursor, b)
  end.

(** The word of a bitmap at an index; [None] is an index out of range. *)
Definition word_at (index : nat) (b : Bitmap) : option Z := bitmap_words b !! index.

(** One word of [validate_types], over the bitmaps' words at one index. *)
Fixpoint union_words (ws : list (option Z)) (union : Z) : result Error Z :=
  match ws with
  | [] => Ok union
  | None :: _ => Err panic
  | Some word :: ws =>
      if negb (Z.land union word =? 0) then Err (bad "overlapping type bitmaps")
      else union_words ws (Z.lor union word)
  end.

(** [validate_types], for the [n] words from [index] on. *)
Fixpoint validate_types_from (n index : nat) (types : list Bitmap) (objects : Z) : result Error unit :=
  match n with
  | O => Ok tt
  | S n =>
      let? union := union_words (map (word_at index) types) 0 in
      let expected := if Z.of_nat index + 1 =? div_ceil objects 64 then tail_mask objects else u64_max in
      if negb (union =? expected) then Err (bad "incomplete type bitmaps")
      else validate_types_from n (S index) types objects
  end.
Definition validate_types (types : list Bitmap) (objects : Z) : result Error unit :=
  validate_types_from (Z.to_nat (div_ceil objects 64)) 0 types objects.

(** The loop over the entries: [n] of them from [index] on. *)
Fixpoint parse_entries (n : nat) (index : Z) (bs : bytes) (cursor entries_end objects : Z)
  : result Error (list Entry * Z) :=
  match n with
  | O => Ok ([], cursor)
  | S n =>
      let offset := cursor in
      let? position := word bs cursor in
      let? xor := ok_or (zget (cursor + 4) bs) (bad "entry header") in
      let? entry_flags := ok_or (zget (cursor + 5) bs) (bad "entry header") in
      let cursor := cursor + 6 in
      if (objects <=? position) || (index <? xor) || (160 <? xor)
      then Err (bad "entry position or XOR reference")
      else if negb (Z.land entry_flags (Z.lxor 1 255) =? 0) then Err (Unsupported "entry flags")
      else
        let? (bitmap, cursor) := parse bs cursor entries_end objects in
        let? (more, cursor) := parse_entries n (index + 1) bs cursor entries_end objects in
        Ok ({| position := position; xor := xor; offset := offset; bitmap := bitmap |} :: more, cursor)
  end.

(** The key of an index into the entries.  The indices are those of [sorted], a permutation of
    the range of the entries ([sort_entries_elem]), so the default is not used. *)
Definition position_of (entries : list Entry) (i : nat) : Z :=
  match entries !! i with Some e => position e | None => 0 end.

(** [sort_unstable_by_key] on entry positions: equal keys are refused next, so the
    order among them does not matter. *)
Definition sort_entries (entries : list Entry) : list nat :=
  sort_by (fun a b => position_of entries a ?= position_of entries b) (seq 0 (length entries)).

(** [sorted.windows(2)] with equal positions. *)
Fixpoint has_duplicate (entries : list Entry) (sorted : list nat) : bool :=
  match sorted with
  | a :: (b :: _) as tl => (position_of entries a =? position_of entries b) || has_duplicate entries tl
  | _ => false
  end.

(** [validate_lookup], for the rows from [row] on. *)
Fixpoint validate_lookup_from (row : Z) (rows : list nat) (bs : bytes) (start : Z)
    (entries : list Entry) (sorted : list nat) : result Error unit :=
  match rows with
  | [] => Ok tt
  | index :: rows =>
      let at_ := start + row * 16 in
      match entries !! index with
      | None => Err panic
      | Some entry =>
          let? p := word bs at_ in
          if negb (p =? position entry) then Err (bad "lookup entry")
          else
            let? o := long bs (at_ + 4) in
            if negb (o =? offset entry) then Err (bad "lookup entry")
            else
              let? parent := word bs (at_ + 12) in
              if xor entry =? 0 then
                if negb (parent =? u32_max) then Err (bad "lookup XOR reference")
                else validate_lookup_from (row + 1) rows bs start entries sorted
              else if negb (bool_decide (zget parent sorted = Some (index - Z.to_nat (xor entry))%nat))
              then Err (bad "lookup XOR reference")
              else validate_lookup_from (row + 1) rows bs start entries sorted
      end
  end.
Definition validate_lookup (bs : bytes) (start : Z) (entries : list Entry) (sorted : list nat)
  : result Error unit := validate_lookup_from 0 sorted bs start entries sorted.

Section Checksum.
Variable checksum : ObjectFormat -> bytes -> bytes.

(** [BitmapIndex::parse_with]. *)
Definition parse_with (bs : bytes) (expected : ObjectId) (objects : Z) (limits : Limits)
  : result Error BitmapIndex :=
  let? _ := bounds bs objects limits in
  let width := digest_len (id_format expected) in
  if (zlen bs <? 12 + 2 * width) || negb (bool_decide (slice 0 4 bs = Some (bstr "BITM")))
  then Err (bad "bitmap header")
  else
    let? version := short bs 4 in
    if negb (version =? 1) then Err (Unsupported "bitmap version")
    else
      let? flags := short bs 6 in
      if Z.land flags 1 =? 0 then Err (bad "full DAG flag")
      else if negb (Z.land flags (Z.lxor 21 65535) =? 0) then Err (Unsupported "bitmap flags")
      else
        let end_ := zlen bs - width in
        if negb (bytes_eqb (checksum (id_format expected) (take (Z.to_nat end_) bs)) (drop (Z.to_nat end_) bs))
        then Err Checksum
        else if negb (bool_decide (slice 12 (12 + width) bs = Some (id_bytes expected))) then Err Binding
        else
          let? count := word bs 8 in
          if max_entries limits <? count then Err (Limit "entries")
          else
            let? cache_bytes :=
              (if negb (Z.land flags 4 =? 0) then ok_or (checked_mul objects 4) (Limit "hash cache")
               else Ok 0) in
            let? table_bytes :=
              (if negb (Z.land flags 16 =? 0) then ok_or (checked_mul count 16) (Limit "lookup table")
               else Ok 0) in
            let? cache_start := ok_or (checked_sub end_ cache_bytes) (bad "hash cache range") in
            let? entries_end := ok_or (checked_sub cache_start table_bytes) (bad "lookup table range") in
            let cursor := 12 + width in
            if (entries_end <? cursor) || ((entries_end - cursor) / 6 <? count)
            then Err (bad "entry count")
            else
              let? (types, cursor, _) :=
                parse_types 4 bs cursor entries_end objects (max_decoded_words limits) in
              let? _ := validate_types types objects in
              let? (entries, cursor) := parse_entries (Z.to_nat count) 0 bs cursor entries_end objects in
              if negb (cursor =? entries_end) then Err (bad "trailing entry data")
              else
                let sorted := sort_entries entries in
                if has_duplicate entries sorted then Err (bad "duplicate commit position")
                else
                  let? _ := (if negb (Z.land flags 16 =? 0)
                             then validate_lookup bs entries_end entries sorted else Ok tt) in
                  Ok {| bytes_ := bs; anchor := expected; objects := objects; types := types;
                        entries := entries; sorted := sorted;
                        hashes := if negb (Z.land flags 4 =? 0) then Some cache_start else None |}.

Definition parse_ (bs : bytes) (expected : ObjectId) (objects : Z) : result Error BitmapIndex :=
  parse_with bs expected objects default_limits.
End Checksum.

(** ** Queries *)

Definition entry_positions (x : BitmapIndex) : list Z := map (position_of (entries x)) (sorted x).

Definition kind_index (kind : ObjectKind) : nat :=
  match kind with KCommit => 0 | KTree => 1 | KBlob => 2 | KTag => 3 end%nat.
Definition type_bitmap (x : BitmapIndex) (kind : ObjectKind) : option Bitmap := types x !! kind_index kind.

(** [BitmapIndex::name_hash]. *)
Definition name_hash (x : BitmapIndex) (position : Z) : option Z :=
  if objects x <=? position then None
  else match hashes x with
       | None => None
       | Some start =>
           match word (bytes_ x) (start + position * 4) with Ok h => Some h | Err _ => None end
       end.

Section Query.
Variable cancel : nat -> bool.

(** The loop of [reachable_with] from entry [index] on; a dependency precedes its
    entry, so [index + 1] turns are enough. *)
Fixpoint resolve (fuel : nat) (x : BitmapIndex) (index : nat) : SE Dec Error unit :=
  match fuel with
  | O => se_fail panic
  | S fuel =>
      let! _ := check cancel in
      match entries x !! index with
      | None => se_fail panic
      | Some entry =>
          let! _ := xor_into cancel (bytes_ x) (bitmap entry) in
          if xor entry =? 0 then se_ret tt
          else if Z.of_nat index <? xor entry then se_fail panic
          else resolve fuel x (index - Z.to_nat (xor entry))
      end
  end.

(** [sorted.binary_search_by_key(&index_position, ...)]. *)
Definition search (x : BitmapIndex) (index_position : Z) : option Z :=
  bsearch (length (sorted x))
    (fun rank => match zget rank (sorted x) with
                 | Some index => position_of (entries x) index ?= index_position
                 | None => Gt
                 end) 0 (zlen (sorted x)).

(** [BitmapIndex::reachable_with]; the first load of the flag is load number 0. *)
Definition reachable_with (x : BitmapIndex) (index_position : Z) (limits : Limits)
  : result Error (option Bitmap) :=
  if cancel 0 then Err Cancelled
  else
    let? _ := bounds (bytes_ x) (objects x) limits in
    if max_entries limits <? zlen (entries x) then Err (Limit "entries")
    else
      match search x index_position with
      | None => Ok None
      | Some rank =>
          match zget rank (sorted x) with
          | None => Err panic
          | Some index =>
              let? (output_, b) := zero_words (objects x) (max_decoded_words limits) in
              let (r, d) := resolve (S index) x index {| output := output_; budget := b; loads := 1 |} in
              let? _ := r in
              Ok (Some {| bitmap_words := output d; universe := objects x |})
          end
      end.
End Query.

(** ** The reverse index *)

Record ReverseIndex := { rev_anchor : ObjectId; rev_positions : list Z }.

(** The loop over the rows of the permutation. *)
Fixpoint parse_rows (rows : list bytes) (seen : list bool) : result Error (list Z) :=
  match rows with
  | [] => Ok []
  | row :: rows =>
      let? position := word row 0 in
      let? slot := ok_or (zget position seen) (bad "reverse position") in
      if slot then Err (bad "duplicate reverse position")
      else
        let? more := parse_rows rows (<[Z.to_nat position := true]> seen) in
        Ok (position :: more)
  end.

(** The whole four-byte rows of a table ([as_chunks::<4>().0]). *)
Definition rows4 (l : bytes) : list bytes := filter (fun r => length r = 4%nat) (chunks 4 l).

Section ReverseChecksum.
Variable checksum : ObjectFormat -> bytes -> bytes.

(** [ReverseIndex::parse_with]. *)
Definition reverse_parse_with (bs : bytes) (expected : ObjectId) (objects : Z) (limits : Limits)
  : result Error ReverseIndex :=
  let? _ := bounds bs objects limits in
  let width := digest_len (id_format expected) in
  let? size := ok_or (match checked_mul objects 4 with
                      | Some length => checked_add length (12 + 2 * width)
                      | None => None
                      end) (bad "reverse index size") in
  if negb (zlen bs =? size) || negb (bool_decide (slice 0 4 bs = Some (bstr "RIDX")))
  then Err (bad "reverse index header or size")
  else
    let? version := word bs 4 in
    if negb (version =? 1) then Err (Unsupported "reverse index version")
    else
      let hash := match id_format expected with FSha1 => 1 | FSha256 => 2 end in
      let? h := word bs 8 in
      if negb (h =? hash) then Err Binding
      else
        let checksum_start := zlen bs - width in
        if negb (bytes_eqb (checksum (id_format expected) (take (Z.to_nat checksum_start) bs))
                   (drop (Z.to_nat checksum_start) bs))
        then Err Checksum
        else
          let end_ := checksum_start - width in
          if negb (bool_decide (slice end_ checksum_start bs = Some (id_bytes expected))) then Err Binding
          else
            let? table := ok_or (slice 12 end_ bs) (bad "reverse table") in
            let? positions := parse_rows (rows4 table) (replicate (Z.to_nat objects) false) in
            Ok {| rev_anchor := expected; rev_positions := positions |}.
End ReverseChecksum.

Definition index_position (r : ReverseIndex) (bitmap_position : Z) : option Z :=
  zget bitmap_position (rev_positions r).

(** ** The reverse index is a permutation *)

Lemma chunks_from_exact {A} fuel n k (l : list A) :
  (0 < n)%nat -> length l = (k * n)%nat -> (length l <= fuel)%nat ->
  length (chunks_from fuel n l) = k /\ Forall (fun c => length c = n) (chunks_from fuel n l).
Proof.
  intros Hn. revert fuel l; induction k as [|k IH]; intros fuel l Hl Hf.
  - destruct l; [|done]. by destruct fuel.
  - destruct fuel as [|fuel]; [lia|]. destruct l as [|x l]; [simpl in Hl; lia|].
    set (m := x :: l) in *.
    change (chunks_from (S fuel) n m) with (take n m :: chunks_from fuel n (drop n m)).
    destruct (IH fuel (drop n m)) as [H1 H2]; [rewrite length_drop; lia..|].
    split; [simpl; lia|]. constructor; [rewrite length_take; lia|done].
Qed.

Lemma parse_rows_spec rows seen ps :
  parse_rows rows seen = Ok ps ->
  length ps = length rows /\ NoDup ps /\ Forall (fun p => zget p seen = Some false) ps.
Proof.
  revert seen ps; induction rows as [|row rows IH]; intros seen ps; cbn [parse_rows].
  { intros [= <-]. repeat split; constructor. }
  intros (p & Hp & H)%rbind_Ok. apply rbind_Ok in H as (slot & Hs%ok_or_Ok & H). destruct slot; [done|].
  apply rbind_Ok in H as (more & Hm & [= <-]). apply IH in Hm as (Hl & Hn & HF).
  rewrite Forall_forall in HF.
  assert (forall q, q ∈ more -> q <> p /\ zget q seen = Some false) as Hq.
  { intros q Hq%HF. unfold zget in *. destruct (Z.leb_spec 0 q); [|done].
    destruct (Z.leb_spec 0 p); [|done]. destruct (decide (Z.to_nat q = Z.to_nat p)) as [E|E].
    - rewrite E, list_lookup_insert_eq in Hq by (by eapply lookup_lt_Some). done.
    - rewrite list_lookup_insert_ne in Hq by done. split; [congruence|done]. }
  split; [simpl; lia|]. split.
  - constructor; [|done]. by intros [? _]%Hq.
  - constructor; [done|]. apply Forall_forall. intros q [_ ?]%Hq. done.
Qed.

Section Reverse.
Context (checksum : ObjectFormat -> bytes -> bytes).

(** A reverse index that parses is a permutation: its table lists every
    ordinary position below the object count exactly once, so translating bitmap
    positions loses and repeats no object. *)
Theorem reverse_is_permutation bs expected objects limits r :
  0 <= objects ->
  reverse_parse_with checksum bs expected objects limits = Ok r ->
  rev_positions r ≡ₚ seqZ 0 objects.
Proof.
  intros Ho. unfold reverse_parse_with. intros (? & _ & H)%rbind_Ok.
  apply rbind_Ok in H as (size & Hsize%ok_or_Ok & H).
  assert (size = objects * 4 + (12 + 2 * digest_len (id_format expected))) as ->.
  { destruct (checked_mul objects 4) eqn:E; [|done]. apply checked_mul_Some in E as [-> _].
    by apply checked_add_Some in Hsize as [-> _]. }
  destruct (_ || _) eqn:E1; [done|]. apply orb_false_iff in E1 as [E1%negb_false_iff%Z.eqb_eq _].
  apply rbind_Ok in H as (v & _ & H). destruct (negb _); [done|].
  apply rbind_Ok in H as (h & _ & H). destruct (negb _); [done|].
  destruct (negb _); [done|]. destruct (negb _); [done|].
  apply rbind_Ok in H as (table & Ht%ok_or_Ok%slice_zlen & H).
  apply rbind_Ok in H as (ps & Hp & [= <-]). cbn [rev_positions].
  destruct (chunks_from_exact (length table) 4 (Z.to_nat objects) table) as [HL HF];
    [lia|unfold zlen in *; lia|lia|].
  apply parse_rows_spec in Hp as (Hlen & Hnd & HFp). rewrite Forall_forall in HFp.
  assert (length (rows4 table) = Z.to_nat objects) as Hrows.
  { unfold rows4, chunks. by rewrite filter_keep. }
  apply submseteq_length_Permutation.
  - apply NoDup_submseteq; [done|]. intros p Hp. apply elem_of_seqZ.
    apply HFp, zget_lt in Hp. rewrite zlen_replicate in Hp. lia.
  - rewrite length_seqZ. lia.
Qed.
End Reverse.

(** ** The type bitmaps partition the universe *)

Definition b2n (b : bool) : nat := if b then 1%nat else 0%nat.

(** How many of the words have bit [b]. *)
Fixpoint holders (ws : list (option Z)) (b : Z) : nat :=
  match ws with [] => O | w :: ws => (b2n (Z.testbit (default 0%Z w) b) + holders ws b)%nat end.

Lemma union_words_holders ws union u b :
  union_words ws union = Ok u ->
  (b2n (Z.testbit union b) + holders ws b)%nat = b2n (Z.testbit u b).
Proof.
  revert union; induction ws as [|[w|] ws IH]; intros union; cbn [union_words holders]; [intros [= <-]; lia| |done].
  change (default 0 (Some w)) with w.
  destruct (Z.eqb_spec (Z.land union w) 0) as [Hd|]; [|done]. cbn [negb]. intros H%IH. rewrite <- H.
  assert (Z.testbit union b && Z.testbit w b = false) as Hb by (by rewrite <- Z.land_spec, Hd, Z.bits_0).
  rewrite Z.lor_spec. destruct (Z.testbit union b), (Z.testbit w b); simpl in *; done || lia.
Qed.

Lemma validate_types_from_spec n index types objects i :
  validate_types_from n index types objects = Ok tt -> (index <= i < index + n)%nat ->
  union_words (map (word_at i) types) 0 =
    Ok (if Z.of_nat i + 1 =? div_ceil objects 64 then tail_mask objects else u64_max).
Proof.
  revert index; induction n as [|n IH]; intros index; cbn [validate_types_from]; [lia|].
  intros (u & Hu & H)%rbind_Ok Hi. cbv zeta in H.
  destruct (Z.eqb_spec u (if Z.of_nat index + 1 =? div_ceil objects 64 then tail_mask objects else u64_max))
    as [-> |]; [|done]. cbn [negb] in H.
  destruct (decide (i = index)) as [-> |]; [done|]. apply (IH (S index)); [done|lia].
Qed.

(** Bits the mask keeps. *)
Lemma expected_bit i objects b :
  0 <= objects -> 0 <= b < 64 -> 64 * i + b < objects -> 0 <= i ->
  Z.testbit (if i + 1 =? div_ceil objects 64 then tail_mask objects else u64_max) b = true.
Proof.
  intros Ho Hb Hlt Hi. destruct (Z.eqb_spec (i + 1) (div_ceil objects 64)) as [E|]; [|by apply testbit_u64_max].
  unfold tail_mask. destruct (Z.eqb_spec (objects mod 64) 0); [by apply testbit_u64_max|].
  rewrite Z.shiftl_mul_pow2, Z.mul_1_l by (apply Z.mod_pos_bound; lia).
  rewrite Z.sub_1_r, <- Z.ones_equiv, Z.ones_spec_low; [done|].
  unfold div_ceil in E. Z.div_mod_to_equations. lia.
Qed.

Lemma contains_testbit b p :
  0 <= p < universe b -> bitmap_contains b p = Z.testbit (default 0 (word_at (Z.to_nat (p / 64)) b)) (p mod 64).
Proof.
  intros Hp. unfold bitmap_contains, word_at, zget.
  rewrite (proj2 (Z.ltb_lt _ _)), (proj2 (Z.leb_le 0 (p / 64))) by (lia || apply Z.div_pos; lia).
  destruct (bitmap_words b !! _); cbn [default andb]; [|by rewrite Z.bits_0].
  by rewrite land_bit, negb_involutive by (apply Z.mod_pos_bound; lia).
Qed.

Lemma holders_filter types p objects :
  Forall (fun b => universe b = objects) types -> 0 <= p < objects ->
  length (filter (fun b => bitmap_contains b p = true) types) =
  holders (map (word_at (Z.to_nat (p / 64))) types) (p mod 64).
Proof.
  intros HF Hp. induction HF as [|b types Hb HF IH]; [done|]. cbn [map holders].
  rewrite <- contains_testbit by lia. destruct (bitmap_contains b p) eqn:E.
  - rewrite filter_cons_True by done. cbn [length b2n]. lia.
  - rewrite filter_cons_False by congruence. done.
Qed.

Lemma types_partition types objects p :
  Forall (fun b => universe b = objects) types -> validate_types types objects = Ok tt ->
  0 <= p < objects -> length (filter (fun b => bitmap_contains b p = true) types) = 1%nat.
Proof.
  intros HF HV Hp. rewrite (holders_filter _ _ _ HF Hp).
  pose proof (Z.mod_pos_bound p 64 ltac:(lia)). pose proof (Z.div_mod p 64 ltac:(lia)).
  pose proof (Z.div_pos p 64 ltac:(lia) ltac:(lia)).
  unfold validate_types in HV. apply (validate_types_from_spec _ _ _ _ (Z.to_nat (p / 64))) in HV.
  - apply (union_words_holders _ _ _ (p mod 64)) in HV. rewrite Z.bits_0 in HV. cbn [b2n Nat.add] in HV.
    rewrite HV, Z2Nat.id, expected_bit by lia. done.
  - split; [lia|]. cbn [Nat.add]. apply Z2Nat.inj_lt; [lia|..]; unfold div_ceil; Z.div_mod_to_equations; lia.
Qed.

Lemma parse_types_universe n bs cursor end_ objects b ts c b' :
  parse_types n bs cursor end_ objects b = Ok (ts, c, b') -> Forall (fun t => universe t = objects) ts.
Proof.
  revert cursor b ts c b'; induction n as [|n IH]; intros cursor b ts c b'; cbn [parse_types].
  { intros [= <- <- <-]. constructor. }
  intros ([e c1] & _ & H)%rbind_Ok. apply rbind_Ok in H as ([out b1] & _ & H).
  destruct (xor_into _ _ _ _) as [r d]. apply rbind_Ok in H as (? & _ & H).
  apply rbind_Ok in H as ([[more c2] b2] & Hm & [= <- <- <-]). constructor; [done|]. by eapply IH.
Qed.

(** ** What a parsed index satisfies *)

(** A checked entry at index [i]. *)
Definition entry_ok (bs : bytes) (objs : Z) (i : Z) (e : Entry) : Prop :=
  0 <= xor e <= i /\ 0 <= position e < objs /\ exists ws out, Accepted bs objs (bitmap e) ws out.

Lemma parse_entries_spec n index bs cursor end_ objs es c :
  bytes_ok bs -> 0 <= cursor -> end_ <= zlen bs -> zlen bs <= usize_max -> 0 <= objs ->
  parse_entries n index bs cursor end_ objs = Ok (es, c) ->
  forall i e, es !! i = Some e -> entry_ok bs objs (index + Z.of_nat i) e.
Proof.
  intros Hb Hc He Hu Ho. revert index cursor es c Hc;
    induction n as [|n IH]; intros index cursor es c Hc; cbn [parse_entries].
  { intros [= <- <-] i e Hi. done. }
  intros (p & Hp%(word_range _ _ _ Hb) & H)%rbind_Ok.
  apply rbind_Ok in H as (xr & Hx%ok_or_Ok & H). apply rbind_Ok in H as (fl & _ & H).
  cbv zeta in H. pass_guard H. pass_guard H.
  apply rbind_Ok in H as ([bm c1] & Hbm & H). apply rbind_Ok in H as ([more c2] & Hm & [= <- <-]).
  apply parse_accepted in Hbm as (Hc1 & HA); [|done || lia..].
  apply orb_false_iff in G as [[G1%Z.leb_gt G2%Z.ltb_ge]%orb_false_iff _].
  assert (0 <= xr) as Hx0.
  { unfold zget in Hx. destruct (0 <=? cursor + 4); [|done]. by apply (Forall_lookup_1 _ _ _ _ Hb) in Hx as [? _]. }
  intros [|i] e Hi; simpl in Hi.
  - injection Hi as <-. unfold entry_ok. simpl. split; [lia|]. split; [lia|done].
  - replace (index + Z.of_nat (S i)) with (index + 1 + Z.of_nat i) by lia. eapply IH; [|exact Hm|done]. lia.
Qed.

Lemma parse_types_cursor n bs cursor end_ objs b ts c b' :
  bytes_ok bs -> 0 <= cursor -> end_ <= zlen bs -> zlen bs <= usize_max -> 0 <= objs ->
  parse_types n bs cursor end_ objs b = Ok (ts, c, b') -> cursor <= c.
Proof.
  intros Hb Hc He Hu Ho. revert cursor b ts c b' Hc; induction n as [|n IH];
    intros cursor b ts c b' Hc; cbn [parse_types]; [intros [= <- <- <-]; lia|].
  intros ([e c1] & Hp & H)%rbind_Ok. apply parse_accepted in Hp as (Hc1 & _); [|done || lia..].
  apply rbind_Ok in H as ([out b1] & _ & H).
  destruct (xor_into _ _ _ _) as [r d]. apply rbind_Ok in H as (? & _ & H).
  apply rbind_Ok in H as ([[more c2] b2] & Hm & [= <- <- <-]). apply IH in Hm; lia.
Qed.

Section Parsed.
Context (checksum : ObjectFormat -> bytes -> bytes).
Context (bs : bytes) (expected : ObjectId) (objs : Z) (limits : Limits) (x : BitmapIndex).
Context (Hbytes : bytes_ok bs) (Hobjs : 0 <= objs) (HP : parse_with checksum bs expected objs limits = Ok x).

Lemma parse_with_inv :
  bytes_ x = bs /\ objects x = objs /\ sorted x = sort_entries (entries x) /\
  has_duplicate (entries x) (sorted x) = false /\ validate_types (types x) objs = Ok tt /\
  exists n b b' c c' end_, end_ <= zlen bs /\
    parse_types 4 bs (12 + digest_len (id_format expected)) end_ objs b = Ok (types x, c, b') /\
    parse_entries n 0 bs c end_ objs = Ok (entries x, c').
Proof using HP Hbytes Hobjs.
  pose proof HP as H. unfold parse_with in H. apply rbind_Ok in H as (? & _ & H). cbv zeta in H.
  pass_guard H. apply rbind_Ok in H as (v & _ & H). pass_guard H.
  apply rbind_Ok in H as (flags & _ & H). pass_guard H. pass_guard H. pass_guard H. pass_guard H.
  apply rbind_Ok in H as (n & Hn%(word_range _ _ _ Hbytes) & H). pass_guard H.
  apply rbind_Ok in H as (cb & Hcb & H). apply rbind_Ok in H as (tb & Htb & H).
  apply rbind_Ok in H as (cs & Hcs%ok_or_Ok & H). apply rbind_Ok in H as (ee & Hee%ok_or_Ok & H).
  apply checked_sub_Some in Hcs as [-> _]. apply checked_sub_Some in Hee as [-> _].
  pass_guard H. apply rbind_Ok in H as ([[ts c] b] & Hts & H). apply rbind_Ok in H as ([] & Hv & H).
  apply rbind_Ok in H as ([es c'] & Hes & H). pass_guard H.
  destruct (has_duplicate _ _) eqn:Ed; [done|]. apply rbind_Ok in H as (? & _ & [= <-]). simpl.
  split_and!; [done..|]. do 6 eexists. split; [|split; [exact Hts|exact Hes]].
  assert (0 <= cb) as Hcb0.
  { destruct (negb _) in Hcb; [|by injection Hcb as <-].
    apply ok_or_Ok, checked_mul_Some in Hcb as [-> _]. lia. }
  assert (0 <= tb) as Htb0.
  { destruct (negb _) in Htb; [|by injection Htb as <-].
    apply ok_or_Ok, checked_mul_Some in Htb as [-> _]. lia. }
  destruct (id_format expected); simpl; lia.
Qed.

Context (Husize : zlen bs <= usize_max).

Lemma parsed_entries i e : entries x !! i = Some e -> entry_ok bs objs (Z.of_nat i) e.
Proof using HP Hbytes Hobjs Husize.
  destruct parse_with_inv as (_ & _ & _ & _ & _ & n & b & b' & c & c' & end_ & He & Ht & Hes).
  apply (parse_entries_spec n 0 bs c end_ objs (entries x) c'); try done.
  apply parse_types_cursor in Ht; [|try done..]; destruct (id_format expected); simpl in *; lia.
Qed.
End Parsed.

(** ** Resolution of XOR chains *)

(** [Resolved x i ws]: the bitmap of entry [i] is [ws], the XOR of its own record and
    of the bitmap it depends on. *)
Inductive Resolved (bs : bytes) (objs : Z) (es : list Entry) : nat -> list Z -> Prop :=
| Resolved_base i e ws out :
    es !! i = Some e -> xor e = 0 -> Accepted bs objs (bitmap e) ws out ->
    Resolved bs objs es i (xor_from 0 out (replicate (Z.to_nat (div_ceil objs 64)) 0))
| Resolved_xor i e ws out l :
    es !! i = Some e -> xor e <> 0 -> Accepted bs objs (bitmap e) ws out ->
    Resolved bs objs es (i - Z.to_nat (xor e)) l ->
    Resolved bs objs es i (xor_from 0 out l).

Lemma Resolved_length bs objs es i l :
  Resolved bs objs es i l -> length l = Z.to_nat (div_ceil objs 64).
Proof. induction 1; rewrite length_xor_from; [by rewrite length_replicate|done]. Qed.

(** XOR of values commutes and associates. *)
Lemma xor_from_comm out r l :
  length r = length l -> xor_from 0 r (xor_from 0 out l) = xor_from 0 (xor_from 0 out r) l.
Proof.
  intros Hl. apply list_eq. intros i. rewrite !xor_from_lookup. cbn [Nat.leb]. rewrite Nat.sub_0_r.
  destruct (l !! i) as [w|] eqn:E; [|done].
  apply lookup_lt_Some in E. destruct (lookup_lt_is_Some_2 r i) as [v Hv]; [lia|]. rewrite Hv. simpl.
  by rewrite Nat.sub_0_r, Z.lxor_assoc, (Z.lxor_comm (default 0 _)).
Qed.

Section Resolve.
Context (cancel : nat -> bool) (x : BitmapIndex).
Context (Hes : forall i e, entries x !! i = Some e -> entry_ok (bytes_ x) (objects x) (Z.of_nat i) e).

(** Resolving entry [index] XORs its bitmap into the output, or stops on the budget
    or on cancellation. *)
Lemma resolve_spec fuel index d :
  (index < fuel)%nat -> (index < length (entries x))%nat ->
  zlen (output d) = div_ceil (objects x) 64 -> 0 <= budget d ->
  match resolve cancel fuel x index d with
  | (Ok _, d') => exists l, Resolved (bytes_ x) (objects x) (entries x) index l /\
                    output d' = xor_from 0 l (output d)
  | (Err e, _) => e = Limit "decoded words" \/ e = Cancelled /\ exists k, cancel k = true
  end.
Proof using Hes.
  revert index d; induction fuel as [|fuel IH]; intros index d Hf Hi Hd Hb; [lia|]. cbn [resolve].
  unfold se_bind at 1, check. destruct (cancel (loads d)) eqn:Ec; [right; eauto|]. cbv beta iota.
  destruct (lookup_lt_is_Some_2 _ _ Hi) as [e He]. rewrite He.
  pose proof (Hes _ _ He) as (Hx & _ & ws & out & HA).
  pose proof (Accepted_xor cancel _ _ _ _ _ HA {| output := output d; budget := budget d; loads := S (loads d) |}
    ltac:(lia)) as HX. cbn [output budget] in HX. pose proof (accepted_size _ _ _ _ _ HA).
  specialize (HX ltac:(lia) Hb). unfold se_bind.
  destruct (xor_into _ _ _ _) as [[[]|err] d1]; cycle 1.
  { destruct HX as [[-> _]|HX]; [by left|by right]. }
  destruct HX as (E1 & _ & Hb1). change (Z.to_nat 0) with O in E1.
  destruct (Z.eqb_spec (xor e) 0) as [Hx0|Hx0].
  - simpl. eexists. split; [by eapply Resolved_base|]. rewrite E1.
    rewrite <- xor_from_comm by (rewrite length_replicate; unfold zlen in *; lia).
    by rewrite xor_from_zeros.
  - rewrite (proj2 (Z.ltb_ge _ _)) by lia.
    specialize (IH (index - Z.to_nat (xor e))%nat d1 ltac:(lia) ltac:(lia)).
    assert (zlen (output d1) = div_ceil (objects x) 64) as Hd1 by (unfold zlen in *; by rewrite E1, length_xor_from).
    specialize (IH Hd1 Hb1). destruct (resolve _ _ _ _ d1) as [[[]|err] d2]; [|done].
    destruct IH as (l & HR & E2). exists (xor_from 0 out l). split; [by eapply Resolved_xor|].
    rewrite E2, E1. apply xor_from_comm. rewrite (Resolved_length _ _ _ _ _ HR). unfold zlen in *. lia.
Qed.
End Resolve.

Lemma sort_entries_elem es i : i ∈ sort_entries es <-> (i < length es)%nat.
Proof. unfold sort_entries. rewrite sort_by_perm, elem_of_seq. lia. Qed.

(** Positions ascend along [sort_entries]. *)
Lemma sort_entries_le es i j a b :
  (i < j)%nat -> sort_entries es !! i = Some a -> sort_entries es !! j = Some b ->
  position_of es a <= position_of es b.
Proof.
  set (cmp := fun a b => position_of es a ?= position_of es b).
  assert (StronglySorted (cmp_le cmp) (sort_entries es)) as HS.
  { apply Sorted_StronglySorted.
    - intros p q r. unfold cmp_le, cmp. rewrite !Z.compare_gt_iff. lia.
    - apply sort_by_Sorted. intros p q. unfold cmp. rewrite Z.compare_gt_iff, Z.compare_lt_iff. done. }
  intros Hij Ha Hb. revert i j Hij Ha Hb. induction HS as [|y l HS IH HF]; intros i j Hij Ha Hb; [done|].
  destruct j as [|j]; [lia|]. destruct i as [|i]; simpl in *.
  - injection Ha as ->. rewrite Forall_forall in HF. specialize (HF b).
    assert (cmp_le cmp a b) as Hc by (apply HF; by eapply list_elem_of_lookup_2).
    unfold cmp_le, cmp in Hc. rewrite Z.compare_gt_iff in Hc. lia.
  - apply (IH i j); [lia|done..].
Qed.

Lemma search_spec x p :
  sorted x = sort_entries (entries x) ->
  match search x p with
  | Some rank => exists i e, zget rank (sorted x) = Some i /\ entries x !! i = Some e /\ position e = p
  | None => p ∉ entry_positions x
  end.
Proof.
  intros Hs. assert (forall rank, 0 <= rank < zlen (sorted x) -> exists i, zget rank (sorted x) = Some i /\
    sort_entries (entries x) !! Z.to_nat rank = Some i) as Hget.
  { intros rank Hr. destruct (zget_is_Some rank (sorted x) Hr) as [i Hi]. exists i. split; [done|].
    rewrite <- Hs. unfold zget in Hi. by rewrite (proj2 (Z.leb_le 0 rank)) in Hi by lia. }
  unfold search. destruct (bsearch _ _ _ _) as [rank|] eqn:E.
  - apply bsearch_Some in E as [Hr E]. destruct (Hget rank Hr) as (i & Hi & Hi'). rewrite Hi in E |- *.
    apply Z.compare_eq_iff in E. exists i. assert (i < length (entries x))%nat as Hlt
      by (apply sort_entries_elem; by eapply list_elem_of_lookup_2).
    destruct (lookup_lt_is_Some_2 _ _ Hlt) as [e He]. exists e. unfold position_of in E. rewrite He in E. done.
  - intros (i & -> & Hi)%list_elem_of_fmap. apply list_elem_of_lookup_1 in Hi as [k Hk].
    pose proof (lookup_lt_Some _ _ _ Hk).
    assert (zlen (sorted x) - 0 <= Z.of_nat (length (sorted x))) as Hfuel by (unfold zlen; lia).
    refine (bsearch_None _ _ _ _ Hfuel _ _ E (Z.of_nat k) _ _).
    3: unfold zlen; lia.
    3: unfold zget; rewrite (proj2 (Z.leb_le 0 (Z.of_nat k))), Nat2Z.id, Hk by lia; apply Z.compare_refl.
    + intros a b Ha Hb. destruct (Hget a ltac:(lia)) as (ia & -> & Ea). destruct (Hget b ltac:(lia)) as (ib & -> & Eb).
      rewrite !Z.compare_lt_iff. pose proof (sort_entries_le _ (Z.to_nat a) (Z.to_nat b) ia ib ltac:(lia) Ea Eb). lia.
    + intros a b Ha Hb. destruct (Hget a ltac:(lia)) as (ia & -> & Ea). destruct (Hget b ltac:(lia)) as (ib & -> & Eb).
      rewrite !Z.compare_gt_iff. pose proof (sort_entries_le _ (Z.to_nat a) (Z.to_nat b) ia ib ltac:(lia) Ea Eb). lia.
Qed.

(** the four type bitmaps of a parsed index partition its object universe:
    every position below the object count is in exactly one of them. *)
Theorem parsed_types_partition checksum bs expected objs limits x p :
  bytes_ok bs -> 0 <= p < objs -> parse_with checksum bs expected objs limits = Ok x ->
  length (filter (fun b => bitmap_contains b p = true) (types x)) = 1%nat.
Proof.
  intros Hb Hp HP. assert (0 <= objs) as Ho by lia. destruct (parse_with_inv _ _ _ _ _ _ Hb Ho HP)
    as (_ & _ & _ & _ & HV & n & b & b' & c & c' & end_ & _ & Ht & _).
  apply (types_partition _ objs); [by eapply parse_types_universe|done|done].
Qed.

(** C36: queries of a parsed index are answered from its data and never fail on it.
    [reachable_with] says a commit has no bitmap exactly when its position is not
    among the entries; an answered bitmap belongs to the entry with that position
    and is the XOR of the records along its dependency chain; the only errors are
    limits and cancellation, so the iteration over the chain terminates and never
    leaves the entry table or the output. *)
Theorem reachable_correct checksum bs expected objs limits x cancel p limits' :
  bytes_ok bs -> zlen bs <= usize_max -> 0 <= objs ->
  parse_with checksum bs expected objs limits = Ok x ->
  match reachable_with cancel x p limits' with
  | Ok None => p ∉ entry_positions x
  | Ok (Some b) => exists i e, entries x !! i = Some e /\ position e = p /\
                     Resolved bs objs (entries x) i (bitmap_words b) /\ universe b = objs
  | Err e => (exists what, e = Limit what) \/ e = Cancelled /\ exists k, cancel k = true
  end.
Proof.
  intros Hb Hu Ho HP. destruct (parse_with_inv _ _ _ _ _ _ Hb Ho HP) as (Eb & Eo & Es & _).
  pose proof (parsed_entries _ _ _ _ _ _ Hb Ho HP Hu) as Hes. rewrite <- Eb, <- Eo in *.
  unfold reachable_with. destruct (cancel O) eqn:Ec; [right; eauto|].
  unfold bounds. destruct (_ <? _); [left; eauto|]. destruct (_ || _); [left; eauto|]. cbn [rbind].
  destruct (_ <? _); [left; eauto|].
  pose proof (search_spec x p Es) as HS. destruct (search x p) as [rank|]; [|done].
  destruct HS as (i & e & -> & He & <-). unfold zero_words.
  destruct (checked_sub _ _) as [b|] eqn:E; [|left; eauto]. apply checked_sub_Some in E as [-> ?]. cbn [rbind].
  assert (0 <= div_ceil (objects x) 64) by (unfold div_ceil; apply Z.div_pos; lia).
  pose proof (lookup_lt_Some _ _ _ He).
  match goal with |- context [resolve cancel ?f x i ?d] =>
    pose proof (resolve_spec cancel x Hes f i d ltac:(lia) ltac:(lia)) as HR;
    destruct (resolve cancel f x i d) as [[[]|err] d'] end; cbn [output budget] in HR;
    specialize (HR ltac:(rewrite zlen_replicate; lia) ltac:(lia)); cbn [rbind].
  - destruct HR as (l & HRl & El). exists i, e. split_and!; [done..| |done]. cbn [bitmap_words]. rewrite El.
    rewrite xor_from_fresh by (rewrite (Resolved_length _ _ _ _ _ HRl); lia).
    rewrite (Resolved_length _ _ _ _ _ HRl), Nat.sub_diag, app_nil_r. done.
  - destruct HR as [-> |HR]; [left; eauto|by right].
Qed.

(** ** A concrete index: one commit, one tree, one entry *)

Definition no_checksum (f : ObjectFormat) (bs : bytes) : bytes := replicate 20 7.
Definition pack_id : ObjectId := Sha1 (replicate 20 9).
Definition sample : bytes :=
  bstr "BITM" ++ [0; 1; 0; 1; 0; 0; 0; 1] ++ replicate 20 9 ++
  record 1 [8589934592; 1] 0 ++ record 2 [8589934592; 2] 0 ++ record 0 [0] 0 ++ record 0 [0] 0 ++
  [0; 0; 0; 0; 0; 0] ++ record 2 [8589934592; 3] 0 ++ replicate 20 7.

Definition sample_index : BitmapIndex :=
  match parse_with no_checksum sample pack_id 2 default_limits with
  | Ok x => x
  | Err _ => {| bytes_ := []; anchor := pack_id; objects := 0; types := []; entries := []; sorted := [];
                hashes := None |}
  end.

Lemma parsed_types_partition_witness :
  length (filter (fun b => bitmap_contains b 1 = true) (types sample_index)) = 1%nat.
Proof.
  apply (parsed_types_partition no_checksum sample pack_id 2 default_limits sample_index 1).
  - vm_compute. repeat (constructor; [split; [discriminate|reflexivity]|]). constructor.
  - done.
  - vm_compute. reflexivity.
Defined.

Lemma reachable_correct_witness :
  match reachable_with live sample_index 0 default_limits with
  | Ok None => 0 ∉ entry_positions sample_index
  | Ok (Some b) => exists i e, entries sample_index !! i = Some e /\ position e = 0 /\
                     Resolved sample 2 (entries sample_index) i (bitmap_words b) /\ universe b = 2
  | Err e => (exists what, e = Limit what) \/ e = Cancelled /\ exists k, live k = true
  end.
Proof.
  apply (reachable_correct no_checksum sample pack_id 2 default_limits sample_index live 0 default_limits).
  - vm_compute. repeat (constructor; [split; [discriminate|reflexivity]|]). constructor.
  - vm_compute. discriminate.
  - done.
  - vm_compute. reflexivity.
Defined.

(** The answer at the sample's commit: both objects. *)
Example reachable_sample :
  reachable_with live sample_index 0 default_limits = Ok (Some {| bitmap_words := [3]; universe := 2 |}) /\
  reachable_with live sample_index 1 default_limits = Ok None /\
  positions {| bitmap_words := [3]; universe := 2 |} = [0; 1].
Proof. repeat split; vm_compute; reflexivity. Qed.

Lemma reverse_is_permutation_witness :
  [1; 0] ≡ₚ seqZ 0 2.
Proof.
  apply (reverse_is_permutation no_checksum
    (bstr "RIDX" ++ [0; 0; 0; 1; 0; 0; 0; 1] ++ [0; 0; 0; 1; 0; 0; 0; 0] ++ replicate 20 9 ++ replicate 20 7)
    pack_id 2 default_limits {| rev_anchor := pack_id; rev_positions := [1; 0] |}); [done|vm_compute; reflexivity].
Defined.
End BitmapIndex.
