(* ===== verification/PackIndex.v ===== *)
(** * Pack index ([src/src/pack/index.rs])

    One pack index read in place: the constant-time check on opening, identity
    lookup, offsets, the full validation, and the offset order with its radix
    sort.  The lazily built order ([OnceLock]) is a cell of the state. *)

From stdpp Require Import base list numbers strings sets sorting.
From Stdlib Require Import ZArith Lia.
From S2P Require Import Prelude Objects Delta.

Module PackIndex.
Import Objects.

(** [word]: the big-endian [u32] at a position. *)
Definition word (bs : bytes) (position : Z) : result ReadError Z :=
  let? w := ok_or (slice position (position + 4) bs) (Corrupt "truncated integer") in
  Ok (be_decode w).

(** Identity-order positions sorted by pack offset, and their ranks. *)
Record Order := { order : list Z; rank : list Z }.

Record Index := {
  format : ObjectFormat; legacy : bool; count : Z; large : Z; stray : bool;
  pack_end : Z; pack_hash : ObjectId; cell : option (result string Order)
}.

(** The check that the fanout is monotonic, for [n] buckets from [bucket] on. *)
Fixpoint fanout_monotonic (n : nat) (bs : bytes) (fanout bucket previous : Z) : result ReadError unit :=
  match n with
  | O => Ok tt
  | S n =>
      let? cumulative := word bs (fanout + bucket * 4) in
      if cumulative <? previous then Err (Corrupt "index fanout")
      else fanout_monotonic n bs fanout (bucket + 1) cumulative
  end.

(** [Index::parse]. *)
Definition parse (format : ObjectFormat) (bs : bytes) (pack_end : Z) : result ReadError Index :=
  if zlen bs <? 8 then Err (Corrupt "truncated index header")
  else
    let width := digest_len format in
    let legacy := negb (starts_with [255; 116; 79; 99] bs) in
    let? fanout := (if legacy then Ok 0
                    else
                      let? version := word bs 4 in
                      if negb (version =? 2) then Err (IndexVersion version) else Ok 8) in
    let? count := word bs (fanout + 1020) in
    let? trailer := ok_or (checked_sub (zlen bs) (2 * width)) (Corrupt "truncated index") in
    let record := if legacy then width + 4 else width + 8 in
    let? table_end :=
      ok_or (match checked_mul count record with
             | Some n => checked_add n (fanout + 1024)
             | None => None
             end) (Corrupt "index length overflow") in
    let? large_bytes := ok_or (checked_sub trailer table_end) (Corrupt "index table length") in
    if (saturating_mul (saturating_sub count 1) 8 <? large_bytes) || (legacy && negb (large_bytes =? 0))
    then Err (Corrupt "index table length")
    else
      let? _ := fanout_monotonic 256 bs fanout 0 0 in
      let? pack_hash :=
        ok_or (match slice trailer (trailer + width) bs with
               | Some hash => match from_bytes format hash with Ok id => Some id | Err _ => None end
               | None => None
               end) (Corrupt "truncated index") in
      Ok {| format := format; legacy := legacy; count := count; large := large_bytes / 8;
            stray := negb (large_bytes mod 8 =? 0); pack_end := pack_end; pack_hash := pack_hash;
            cell := None |}.

Definition len (x : Index) : Z := count x.
Definition fanout_start (x : Index) : Z := if legacy x then 0 else 8.

(** [name_start]. *)
Definition name_start (x : Index) (position : Z) : Z :=
  let width := digest_len (format x) in
  if legacy x then 1028 + position * (width + 4) else 1032 + position * width.

(** The identity bytes at [position]; [None] is an index out of range. *)
Definition name_at (x : Index) (bs : bytes) (position : Z) : option bytes :=
  slice (name_start x position) (name_start x position + digest_len (format x)) bs.

(** [Index::identity]; [None] is a panic. *)
Definition identity (x : Index) (bs : bytes) (position : Z) : option ObjectId :=
  match name_at x bs position with
  | Some name => match from_bytes (format x) name with Ok id => Some id | Err _ => None end
  | None => None
  end.

(** The bucket of the first byte: the positions between two fanout bounds. *)
Definition bucket_low (x : Index) (bs : bytes) (first : Z) : result ReadError Z :=
  if first =? 0 then Ok 0 else word bs (fanout_start x + (first - 1) * 4).
Definition bucket_high (x : Index) (bs : bytes) (first : Z) : result ReadError Z :=
  word bs (fanout_start x + first * 4).

(** The loop of [Index::find]; [None] is a name out of range, a panic. *)
Fixpoint find_loop (fuel : nat) (x : Index) (bs target : bytes) (low high : Z) : option (option Z) :=
  if low <? high then
    match fuel with
    | O => None
    | S fuel =>
        let middle := low + (high - low) / 2 in
        name ← name_at x bs middle;
        match bytes_cmp name target with
        | Lt => find_loop fuel x bs target (middle + 1) high
        | Gt => find_loop fuel x bs target low middle
        | Eq => Some (Some middle)
        end
    end
  else Some None.

(** [Index::find]; [None] is a panic. *)
Definition find (x : Index) (bs : bytes) (id : ObjectId) : option (result ReadError (option Z)) :=
  let target := id_bytes id in
  first ← head target;
  match bucket_low x bs first, bucket_high x bs first with
  | Err e, _ | _, Err e => Some (Err e)
  | Ok low, Ok high => Ok <$> find_loop (Z.to_nat (high - low)) x bs target low high
  end.

(** The two loops of [Index::prefix_range] over a test of identities. *)
Fixpoint narrow (fuel : nat) (x : Index) (bs : bytes) (test : ObjectId -> bool) (low high : Z) : option Z :=
  if low <? high then
    match fuel with
    | O => None
    | S fuel =>
        let middle := low + (high - low) / 2 in
        id ← identity x bs middle;
        if test id then narrow fuel x bs test (middle + 1) high else narrow fuel x bs test low middle
    end
  else Some low.

(** [Index::prefix_range]; [None] is a panic. *)
Definition prefix_range (x : Index) (bs : bytes) (prefix : ObjectIdPrefix) : option (result ReadError (Z * Z)) :=
  match (let? first := ok_or (head (id_bytes (lower prefix))) (Corrupt "empty prefix") in
         let? low := bucket_low x bs first in
         let? high := bucket_high x bs first in
         Ok (low, high)) with
  | Err e => Some (Err e)
  | Ok (low, high) =>
      start ← narrow (Z.to_nat (high - low)) x bs (fun id => match id_cmp id (lower prefix) with Lt => true | _ => false end) low high;
      stop ← narrow (Z.to_nat (high - start)) x bs (prefix_matches prefix) start high;
      Some (Ok (start, stop))
  end.

(** [checked_offset]. *)
Definition checked_offset (offset pack_end : Z) : result ReadError Z :=
  if usize_max <? offset then Err (Corrupt "offset overflow")
  else if (offset <? 12) || (pack_end <=? offset) then Err (Corrupt "offset outside pack entries")
  else Ok offset.

(** [Index::offset]. *)
Definition offset (x : Index) (bs : bytes) (position : Z) : result ReadError Z :=
  let width := digest_len (format x) in
  if legacy x then
    let? o := word bs (1024 + position * (width + 4)) in
    checked_offset o (pack_end x)
  else
    let table := 1032 + count x * (width + 4) in
    let? raw := word bs (table + position * 4) in
    if Z.land raw 2147483648 =? 0 then checked_offset raw (pack_end x)
    else
      let slot := Z.land raw 2147483647 in
      if large x <=? slot then Err (Corrupt "large offset index")
      else
        let start := table + count x * 4 + slot * 8 in
        let? wide := ok_or (slice start (start + 8) bs) (Corrupt "large offset index") in
        checked_offset (be_decode wide) (pack_end x).

(** [Index::crc]. *)
Definition crc (x : Index) (bs : bytes) (position : Z) : result ReadError (option Z) :=
  if legacy x then Ok None
  else
    let? w := word bs (1032 + count x * digest_len (format x) + position * 4) in
    Ok (Some w).

(** ** The offset order *)

(** Number of significant bits. *)
Definition bit_length (n : Z) : Z := if n =? 0 then 0 else Z.log2 n + 1.

(** [counts[digit(key)] += 1] over the keys. *)
Fixpoint count_digits (digit : Z -> Z) (keys : list Z) (counts : list Z) : list Z :=
  match keys with
  | [] => counts
  | key :: keys => count_digits digit keys (alter (fun c => c + 1) (Z.to_nat (digit key)) counts)
  end.

(** Each count is replaced by the running start, and added to it. *)
Fixpoint starts (start : Z) (counts : list Z) : list Z :=
  match counts with
  | [] => []
  | c :: counts => start :: starts (start + c) counts
  end.

(** [scratch[*slot] = key; *slot += 1] over the keys. *)
Fixpoint scatter (digit : Z -> Z) (keys counts scratch : list Z) : list Z :=
  match keys with
  | [] => scratch
  | key :: keys =>
      let slot := default 0 (counts !! Z.to_nat (digit key)) in
      scatter digit keys (alter (fun c => c + 1) (Z.to_nat (digit key)) counts)
        (<[Z.to_nat slot := key]> scratch)
  end.

(** The radix passes: [n] of them from [pass] on; the buffers are swapped. *)
Fixpoint radix_passes (n : nat) (pass shift digit_bits : Z) (keys scratch : list Z) : list Z :=
  match n with
  | O => keys
  | S n =>
      let digit key := Z.land (Z.shiftr key (shift + pass * digit_bits)) (Z.shiftl 1 digit_bits - 1) in
      let counts := count_digits digit keys (replicate (Z.to_nat (2 ^ digit_bits)) 0) in
      let counts := starts 0 counts in
      let scratch := scatter digit keys counts scratch in
      radix_passes n (pass + 1) shift digit_bits scratch keys
  end.

(** [*key << shift | position] over the offsets. *)
Fixpoint pack_keys (shift position : Z) (offsets : list Z) : list Z :=
  match offsets with
  | [] => []
  | o :: offsets => Z.lor (Z.shiftl o shift) position :: pack_keys shift (position + 1) offsets
  end.

Definition maximum (l : list Z) : Z := foldr Z.max 0 l.

(** [offset_order]: the positions by offset, and the sorted offsets. *)
Definition offset_order (offsets : list Z) : list Z * list Z :=
  let shift := bit_length (zlen offsets) in
  let offset_bits := bit_length (maximum offsets) in
  if 64 <? offset_bits + shift then
    let at_ p := default 0 (zget p offsets) in
    let order := sort_by (fun a b => at_ a ?= at_ b) (seqZ 0 (zlen offsets)) in
    (order, map at_ order)
  else
    let keys := pack_keys shift 0 offsets in
    let passes := Z.max (div_ceil offset_bits 16) 1 in
    let digit_bits := div_ceil offset_bits passes in
    let keys := radix_passes (Z.to_nat passes) 0 shift digit_bits keys (replicate (length offsets) 0) in
    (map (fun key => Z.land key (Z.shiftl 1 shift - 1)) keys, map (fun key => Z.shiftr key shift) keys).

(** The loop of [build_order] over the entries, [n] of them from [position] on. *)
Fixpoint collect_offsets (n : nat) (x : Index) (bs : bytes) (position : Z) (used_large : list bool)
  : result string (list Z * list bool) :=
  let reason e := match e with Corrupt reason => reason | _ => "index table length"%string end in
  match n with
  | O => Ok ([], used_large)
  | S n =>
      let? used_large :=
        (if negb (legacy x) then
           let? raw := map_err reason (word bs (1032 + count x * (digest_len (format x) + 4) + position * 4)) in
           if negb (Z.land raw 2147483648 =? 0) then
             let slot := Z.land raw 2147483647 in
             let? used := ok_or (zget slot used_large) "large offset index"%string in
             if used : bool then Err "duplicate large offset index"%string
             else Ok (<[Z.to_nat slot := true]> used_large)
           else Ok used_large
         else Ok used_large) in
      let? o := map_err reason (offset x bs position) in
      let? (more, used_large) := collect_offsets n x bs (position + 1) used_large in
      Ok (o :: more, used_large)
  end.

Fixpoint has_adjacent_equal (l : list Z) : bool :=
  match l with
  | a :: (b :: _) as tl => (a =? b) || has_adjacent_equal tl
  | _ => false
  end.

(** [rank[position] = index] over the order. *)
Fixpoint set_ranks (order : list Z) (index : Z) (rank : list Z) : list Z :=
  match order with
  | [] => rank
  | position :: order => set_ranks order (index + 1) (<[Z.to_nat position := index]> rank)
  end.

(** [Index::build_order]. *)
Definition build_order (x : Index) (bs : bytes) : result string Order :=
  let? (offsets, used_large) :=
    collect_offsets (Z.to_nat (count x)) x bs 0 (replicate (Z.to_nat (large x)) false) in
  if existsb negb used_large then Err "unused large offset"%string
  else
    let (order, sorted) := offset_order offsets in
    if has_adjacent_equal sorted then Err "duplicate pack offset"%string
    else if negb (match sorted with first :: _ => first | [] => pack_end x end =? 12)
    then Err "unindexed pack bytes"%string
    else Ok {| order := order; rank := set_ranks order 0 (replicate (length order) 0) |}.

(** [Index::order]: fills the cell on first use. *)
Definition get_order (bs : bytes) : SE Index ReadError Order :=
  fun x =>
    let c := match cell x with Some c => c | None => build_order x bs end in
    (map_err Corrupt c,
     {| format := format x; legacy := legacy x; count := count x; large := large x; stray := stray x;
        pack_end := pack_end x; pack_hash := pack_hash x; cell := Some c |}).

(** [Index::end]. *)
Definition end_ (x : Index) (bs : bytes) (o : Order) (position : Z) : result ReadError Z :=
  let? r := ok_or (zget position (rank o)) (Corrupt "index position") in
  match zget (r + 1) (order o) with
  | Some next => offset x bs next
  | None => Ok (pack_end x)
  end.

Record Span := { span_offset : Z; span_end : Z; exact : bool; span_crc : option Z; span_position : option Z }.
Record Entry := { entry_id : option ObjectId; entry_offset : Z; entry_end : Z; entry_crc : option Z }.

(** [Index::span]. *)
Definition span (x : Index) (bs : bytes) (position : Z) : result ReadError Span :=
  let? o := offset x bs position in
  let? e := (match cell x with
             | Some (Ok ord) => let? e := end_ x bs ord position in Ok (Some e)
             | _ => Ok None
             end) in
  let? c := crc x bs position in
  Ok {| span_offset := o; span_end := default (pack_end x) e;
        exact := match e with Some _ => true | None => false end; span_crc := c;
        span_position := Some position |}.

(** [Index::entry]. *)
Definition entry (bs : bytes) (position : Z) : SE Index ReadError Entry :=
  let! ord := get_order bs in
  fun x =>
    ((let? o := offset x bs position in
      let? e := end_ x bs ord position in
      let? c := crc x bs position in
      Ok {| entry_id := identity x bs position; entry_offset := o; entry_end := e; entry_crc := c |}), x).

(** [Index::at_offset]: a failing probe ends the search; the order was built from
    these offsets, so none fails. *)
Definition at_offset (bs : bytes) (target : Z) : SE Index ReadError Z :=
  let! ord := get_order bs in
  fun x =>
    let probe r := match zget r (order ord) with
                   | Some position =>
                       match offset x bs position with
                       | Ok found => found ?= target
                       | Err _ => Eq
                       end
                   | None => Gt
                   end in
    (match bsearch (length (order ord)) probe 0 (zlen (order ord)) with
     | Some r =>
         match zget r (order ord) with
         | Some position =>
             match offset x bs position with
             | Ok _ => Ok position
             | Err e => Err e
             end
         | None => Err (Corrupt "base offset is not an indexed entry")
         end
     | None => Err (Corrupt "base offset is not an indexed entry")
     end, x).

(** [Index::by_offset]. *)
Definition by_offset (bs : bytes) : SE Index ReadError (list Z) :=
  let! ord := get_order bs in se_ret (order ord).

(** [Index::span_at]. *)
Definition span_at (bs : bytes) (target : Z) : SE Index ReadError Span :=
  fun x =>
    match cell x with
    | Some (Ok _) =>
        (let! position := at_offset bs target in fun x => (span x bs position, x)) x
    | _ =>
        ((let? o := checked_offset target (pack_end x) in
          Ok {| span_offset := o; span_end := pack_end x; exact := false; span_crc := None;
                span_position := None |}), x)
    end.

(** ** Full validation *)

(** The loop of [validate] over the names: order and bucket sizes. *)
Fixpoint check_names (n : nat) (x : Index) (bs : bytes) (position : Z) (previous : option bytes)
    (fanout : list Z) : result ReadError (list Z) :=
  match n with
  | O => Ok fanout
  | S n =>
      let? name := ok_or (name_at x bs position) (Corrupt "index table length") in
      if match previous with
         | Some p => match bytes_cmp p name with Lt => false | _ => true end
         | None => false
         end
      then Err (Corrupt "unsorted or duplicate index identities")
      else
        let fanout := match name with
                      | first :: _ => alter (fun c => c + 1) (Z.to_nat first) fanout
                      | [] => fanout
                      end in
        check_names n x bs (position + 1) (Some name) fanout
  end.

(** The loop of [validate] over the buckets. *)
Fixpoint check_fanout (sizes : list Z) (x : Index) (bs : bytes) (bucket cumulative : Z)
  : result ReadError unit :=
  match sizes with
  | [] => Ok tt
  | size :: sizes =>
      let cumulative := cumulative + size in
      let? w := word bs (fanout_start x + bucket * 4) in
      if negb (w =? cumulative) then Err (Corrupt "index fanout")
      else check_fanout sizes x bs (bucket + 1) cumulative
  end.

(** [Index::validate]. *)
Definition validate (bs : bytes) : SE Index ReadError unit :=
  fun x =>
    if stray x then (Err (Corrupt "index table length"), x)
    else
      match (let? _ := ok_or (slice (name_start x 0) (zlen bs) bs) (Corrupt "index table length") in
             let? fanout := check_names (Z.to_nat (count x)) x bs 0 None (replicate 256 0) in
             check_fanout fanout x bs 0 0) with
      | Err e => (Err e, x)
      | Ok _ => (let! _ := get_order bs in se_ret tt) x
      end.

(** [verify_hash]. *)
Definition verify_hash (checksum : ObjectFormat -> bytes -> bytes) (f : ObjectFormat) (bs : bytes)
    (reason : string) : result ReadError unit :=
  let? (content, sum) :=
    ok_or (match checked_sub (zlen bs) (digest_len f) with
           | Some e => split_at_checked e bs
           | None => None
           end) (Corrupt reason) in
  if bytes_eqb (checksum f content) sum then Ok tt else Err (Corrupt reason).

(** ** One counting pass is a stable bucket sort *)

Section Counting.
Context (d : Z -> nat) (D : nat).

Definition bucket (keys : list Z) (j : nat) : list Z := filter (fun k => d k = j) keys.
Definition below (keys : list Z) (j : nat) : list Z := concat (map (bucket keys) (seq 0 j)).
Definition base (keys : list Z) (j : nat) : nat := length (below keys j).

Lemma below_S keys j : below keys (S j) = below keys j ++ bucket keys j.
Proof. unfold below. rewrite seq_S, map_app, concat_app. simpl. by rewrite app_nil_r. Qed.

Lemma bucket_below_split keys j : (j < D)%nat -> exists rest, below keys D = below keys j ++ bucket keys j ++ rest.
Proof.
  intros Hj. unfold below. replace D with (j + S (D - S j))%nat by lia.
  rewrite seq_app, map_app, concat_app. simpl. eauto.
Qed.

Lemma base_S keys j : base keys (S j) = (base keys j + length (bucket keys j))%nat.
Proof. unfold base. by rewrite below_S, length_app. Qed.

Lemma base_mono keys i j : (i <= j)%nat -> (base keys i <= base keys j)%nat.
Proof. induction 1; [lia|]. rewrite base_S. lia. Qed.

Lemma below_lookup keys j r :
  (j < D)%nat -> (r < length (bucket keys j))%nat ->
  below keys D !! (base keys j + r)%nat = bucket keys j !! r.
Proof.
  intros Hj Hr. destruct (bucket_below_split keys j Hj) as [rest ->]. unfold base.
  rewrite lookup_app_r by lia. rewrite lookup_app_l by lia. f_equal. lia.
Qed.

(** Every index of the result lies in one bucket. *)
Lemma below_index keys n i :
  (i < base keys n)%nat -> exists j r, (j < n)%nat /\ (r < length (bucket keys j))%nat /\ i = (base keys j + r)%nat.
Proof.
  induction n as [|n IH]; [unfold base; simpl; lia|]. rewrite base_S. intros Hi.
  destruct (decide (i < base keys n)%nat) as [Hlt|Hge].
  - destruct (IH Hlt) as (j & r & ? & ? & ->). exists j, r. split; [lia|done].
  - exists n, (i - base keys n)%nat. split; [lia|]. split; lia.
Qed.

Lemma below_perm keys j : below keys j ≡ₚ filter (fun k => d k < j)%nat keys.
Proof.
  induction j as [|j IH].
  - unfold below. simpl. induction keys as [|k keys IH]; [done|]. rewrite filter_cons_False by lia. done.
  - rewrite below_S, IH. unfold bucket. clear IH. induction keys as [|k keys IH]; [done|].
    rewrite !filter_cons. repeat case_decide; try lia.
    + cbn [app]. by rewrite IH.
    + rewrite <- Permutation_middle. by rewrite IH.
    + done.
Qed.

Context (keys : list Z) (Hd : Forall (fun k => d k < D)%nat keys).

Lemma buckets_perm : below keys D ≡ₚ keys.
Proof using Hd.
  by rewrite below_perm, filter_keep.
Qed.

Lemma length_buckets : length (below keys D) = length keys.
Proof using Hd. by rewrite buckets_perm. Qed.

(** Cells of the scratch buffer that hold their final key after [done_] is placed. *)
Definition placed (done_ scratch : list Z) : Prop :=
  forall j r, (j < D)%nat -> (r < length (bucket done_ j))%nat ->
  scratch !! (base keys j + r)%nat = bucket keys j !! r.

Lemma scatter_step done_ k rest scratch :
  keys = done_ ++ k :: rest -> length scratch = length keys -> placed done_ scratch ->
  placed (done_ ++ [k]) (<[(base keys (d k) + length (bucket done_ (d k)))%nat := k]> scratch).
Proof using Hd.
  intros Hk Hl HP j r Hj Hr. assert (d k < D)%nat as Hdk.
  { rewrite Forall_forall in Hd. apply Hd. rewrite Hk. set_solver. }
  assert (forall j, bucket keys j = bucket done_ j ++ bucket (k :: rest) j) as Hsplit.
  { intros i. rewrite Hk. apply filter_app. }
  assert (bucket (k :: rest) (d k) = k :: bucket rest (d k)) as Hkb by (by apply filter_cons_True).
  unfold bucket in Hr at 1. rewrite filter_app in Hr. rewrite length_app in Hr.
  destruct (decide (j = d k)) as [-> |Hne].
  - rewrite filter_cons_True in Hr by done. simpl in Hr. fold (bucket done_ (d k)) in Hr.
    destruct (decide (r = length (bucket done_ (d k)))) as [-> |Hlt].
    + rewrite list_lookup_insert_eq; [rewrite Hsplit, Hkb; by rewrite list_lookup_middle|].
      rewrite Hl, <- length_buckets. destruct (bucket_below_split keys (d k) Hdk) as [tl ->].
      rewrite !length_app, Hsplit, length_app, Hkb. unfold base. simpl. lia.
    + rewrite list_lookup_insert_ne by lia. apply HP; [done|]. lia.
  - rewrite filter_cons_False in Hr by done. simpl in Hr. fold (bucket done_ j) in Hr.
    rewrite list_lookup_insert_ne; [apply HP; [done|lia]|].
    assert (length (bucket done_ j) <= length (bucket keys j))%nat by (rewrite Hsplit, length_app; lia).
    assert (length (bucket done_ (d k)) < length (bucket keys (d k)))%nat
      by (rewrite Hsplit, length_app, Hkb; simpl; lia).
    pose proof (base_S keys j). pose proof (base_S keys (d k)).
    destruct (decide (j < d k)%nat); [pose proof (base_mono keys (S j) (d k))|pose proof (base_mono keys (S (d k)) j)]; lia.
Qed.

Lemma placed_all scratch : length scratch = length keys -> placed keys scratch -> scratch = below keys D.
Proof using Hd.
  intros Hl HP. apply list_eq. intros i. destruct (decide (i < length keys)%nat) as [Hi|Hi].
  - destruct (below_index keys D i) as (j & r & Hj & Hr & ->); [unfold base; by rewrite length_buckets|].
    by rewrite HP, below_lookup by done.
  - rewrite !lookup_ge_None_2; [done|rewrite length_buckets|]; lia.
Qed.
End Counting.

Section Scatter.
Context (digit : Z -> Z) (D : nat).
Let d (k : Z) : nat := Z.to_nat (digit k).

Lemma count_digits_lookup keys counts j :
  count_digits digit keys counts !! j = (fun c => c + Z.of_nat (length (bucket d keys j))) <$> counts !! j.
Proof.
  revert counts; induction keys as [|k keys IH]; intros counts; cbn [count_digits].
  - destruct (counts !! j); [|done]. simpl. by rewrite Z.add_0_r.
  - rewrite IH. unfold bucket. destruct (decide (d k = j)) as [<- |Hne].
    + rewrite filter_cons_True by done. fold (d k). rewrite list_lookup_alter_eq.
      destruct (counts !! d k); [|done]. cbn [fmap option_fmap option_map length]. f_equal. lia.
    + rewrite filter_cons_False by done. fold (d k). by rewrite list_lookup_alter_ne.
Qed.

Lemma length_count_digits keys counts : length (count_digits digit keys counts) = length counts.
Proof. revert counts; induction keys as [|k keys IH]; intros counts; simpl; [done|]. by rewrite IH, length_alter. Qed.

Lemma starts_lookup s counts j c :
  counts !! j = Some c -> starts s counts !! j = Some (s + foldr Z.add 0 (take j counts)).
Proof.
  revert s j; induction counts as [|c' counts IH]; intros s j Hj; [done|]. destruct j as [|j]; cbn [starts].
  - simpl. f_equal. lia.
  - simpl in *. rewrite (IH _ _ Hj). f_equal. lia.
Qed.

(** After counting and summing, each cell holds the start of its bucket. *)
Lemma starts_base keys j :
  (j < D)%nat ->
  starts 0 (count_digits digit keys (replicate D 0)) !! j = Some (Z.of_nat (base d keys j)).
Proof.
  intros Hj. assert (forall i, (i < D)%nat ->
    count_digits digit keys (replicate D 0) !! i = Some (Z.of_nat (length (bucket d keys i)))) as HC.
  { intros i Hi. rewrite count_digits_lookup, lookup_replicate_2 by done. done. }
  rewrite (starts_lookup _ _ _ _ (HC j Hj)). f_equal. rewrite Z.add_0_l.
  set (cs := count_digits _ _ _) in *.
  assert (forall n, (n <= D)%nat -> foldr Z.add 0 (take n cs) = Z.of_nat (base d keys n)) as HS.
  { induction n as [|n IH]; intros Hn; [done|]. rewrite (take_S_r _ _ _ (HC n ltac:(lia))), foldr_app, base_S.
    cbn [foldr]. rewrite Z.add_0_r, Nat2Z.inj_add, <- IH by lia.
    generalize (take n cs) as l. clear. induction l as [|x l IH]; simpl; lia. }
  apply HS. lia.
Qed.

Lemma scatter_buckets keys all done_ counts scratch :
  Forall (fun k => d k < D)%nat all -> all = done_ ++ keys -> length scratch = length all ->
  (forall j, (j < D)%nat -> counts !! j = Some (Z.of_nat (base d all j + length (bucket d done_ j)))) ->
  placed d D all done_ scratch ->
  scatter digit keys counts scratch = below d all D.
Proof.
  intros HF. revert done_ counts scratch; induction keys as [|k keys IH]; intros done_ counts scratch Ha Hl HC HP;
    cbn [scatter].
  { rewrite app_nil_r in Ha. subst. by apply placed_all. }
  fold (d k). assert (d k < D)%nat as Hk by (rewrite Forall_forall in HF; apply HF; rewrite Ha; set_solver).
  rewrite (HC _ Hk). cbn [default from_option id]. rewrite Nat2Z.id.
  apply (IH (done_ ++ [k])); [by rewrite <- app_assoc|by rewrite length_insert| |by eapply scatter_step].
  intros j Hj. unfold bucket. rewrite filter_app, length_app. fold (bucket d done_ j).
  destruct (decide (d k = j)) as [<- |Hne].
  - rewrite list_lookup_alter_eq, (HC _ Hk), filter_cons_True by done. simpl. f_equal. lia.
  - rewrite list_lookup_alter_ne, (HC _ Hj), filter_cons_False by done. simpl. do 2 f_equal. lia.
Qed.

(** One pass: a stable distribution of the keys by digit. *)
Lemma pass_buckets keys scratch :
  Forall (fun k => d k < D)%nat keys -> length scratch = length keys ->
  scatter digit keys (starts 0 (count_digits digit keys (replicate D 0))) scratch = below d keys D.
Proof.
  intros HF Hl. apply (scatter_buckets keys keys []); [done..| |].
  - intros j Hj. rewrite starts_base by done. simpl. do 2 f_equal. lia.
  - intros j r _ Hr. simpl in Hr. lia.
Qed.
End Scatter.

(** ** The radix sort *)

Lemma StronglySorted_sublist {A} (R : relation A) (P : A -> Prop) `{forall x, Decision (P x)} l :
  StronglySorted R l -> StronglySorted R (filter P l).
Proof.
  induction 1 as [|x l HS IH HF]; [constructor|]. rewrite filter_cons. case_decide; [|done].
  constructor; [done|]. apply Forall_forall. intros y Hy. apply list_elem_of_filter in Hy as [_ Hy].
  rewrite Forall_forall in HF. auto.
Qed.

Lemma StronglySorted_weaken {A} (R R' : relation A) l :
  (forall x y, x ∈ l -> y ∈ l -> R x y -> R' x y) -> StronglySorted R l -> StronglySorted R' l.
Proof.
  intros HR HS. induction HS as [|x l HS IH HF]; [constructor|].
  constructor; [apply IH; set_solver|]. rewrite Forall_forall in *. intros y Hy.
  apply HR; [set_solver..|]. auto.
Qed.

(** Distribution by digit refines the order by the digit. *)
Lemma below_sorted (d : Z -> nat) (R : relation Z) keys n :
  StronglySorted R keys ->
  StronglySorted (fun a b => d a < d b \/ d a = d b /\ R a b)%nat (below d keys n).
Proof.
  intros HS. induction n as [|n IH]; [constructor|]. rewrite below_S. apply StronglySorted_app_2; [|done|].
  - intros a b Ha Hb. rewrite below_perm in Ha. apply list_elem_of_filter in Ha as [Ha _].
    apply list_elem_of_filter in Hb as [Hb _]. left. lia.
  - eapply StronglySorted_weaken; [|by apply StronglySorted_sublist]. intros a b Ha Hb Hab.
    apply list_elem_of_filter in Ha as [Ha _]. apply list_elem_of_filter in Hb as [Hb _]. right. split; [lia|done].
Qed.

(** The low [p] bits of the offset part of a key. *)
Definition low_part (shift p key : Z) : Z := Z.shiftr key shift mod 2 ^ p.

Lemma low_part_next shift p w a :
  0 <= shift -> 0 <= p -> 0 <= w ->
  low_part shift (p + w) a =
  low_part shift p a + 2 ^ p * Z.land (Z.shiftr a (shift + p)) (Z.shiftl 1 w - 1).
Proof.
  intros Hs Hp Hw. unfold low_part. rewrite Z.shiftl_mul_pow2, Z.mul_1_l, land_low_mod by lia.
  rewrite <- Z.shiftr_shiftr, (Z.shiftr_div_pow2 _ p) by lia. set (v := Z.shiftr a shift).
  pose proof (Z.pow_pos_nonneg 2 p ltac:(lia) Hp). pose proof (Z.pow_pos_nonneg 2 w ltac:(lia) Hw).
  rewrite Z.pow_add_r, Z.rem_mul_r by lia. lia.
Qed.

Lemma digit_range w a : 0 <= w -> 0 <= Z.land a (Z.shiftl 1 w - 1) < 2 ^ w.
Proof.
  intros Hw. rewrite Z.shiftl_mul_pow2, Z.mul_1_l, land_low_mod by lia. apply Z.mod_pos_bound. lia.
Qed.

Lemma radix_passes_spec n pass shift w keys scratch :
  0 <= shift -> 0 <= pass -> 0 <= w -> length scratch = length keys ->
  StronglySorted (fun a b => low_part shift (pass * w) a <= low_part shift (pass * w) b) keys ->
  let out := radix_passes n pass shift w keys scratch in
  out ≡ₚ keys /\
  StronglySorted (fun a b => low_part shift ((pass + Z.of_nat n) * w) a <=
                             low_part shift ((pass + Z.of_nat n) * w) b) out.
Proof.
  intros Hs. revert pass keys scratch; induction n as [|n IH]; intros pass keys scratch Hp Hw Hl HS;
    cbn [radix_passes]; [by rewrite Z.add_0_r|].
  set (digit := fun key => Z.land (Z.shiftr key (shift + pass * w)) (Z.shiftl 1 w - 1)).
  assert (forall k, 0 <= digit k < 2 ^ w) as Hdig by (intros; by apply digit_range).
  assert (Forall (fun k => Z.to_nat (digit k) < Z.to_nat (2 ^ w))%nat keys) as HF.
  { apply Forall_forall. intros k _. specialize (Hdig k). apply Z2Nat.inj_lt; lia. }
  rewrite (pass_buckets digit (Z.to_nat (2 ^ w)) keys scratch HF Hl).
  set (d := fun k => Z.to_nat (digit k)) in *. set (next := below d keys (Z.to_nat (2 ^ w))).
  assert (next ≡ₚ keys) as Hperm by (by apply buckets_perm).
  destruct (IH (pass + 1) next keys) as [IH1 IH2]; [lia|done|by rewrite Hperm| |].
  - eapply StronglySorted_weaken; [|exact (below_sorted d _ keys (Z.to_nat (2 ^ w)) HS)].
    intros a b _ _. cbv beta. replace ((pass + 1) * w) with (pass * w + w) by lia.
    rewrite !low_part_next by lia. fold (digit a). fold (digit b).
    pose proof (Z.pow_pos_nonneg 2 (pass * w) ltac:(lia) ltac:(lia)).
    pose proof (Z.mod_pos_bound (Z.shiftr a shift) (2 ^ (pass * w)) ltac:(lia)).
    pose proof (Z.mod_pos_bound (Z.shiftr b shift) (2 ^ (pass * w)) ltac:(lia)).
    unfold low_part in *. specialize (Hdig a) as Ha. specialize (Hdig b) as Hb. unfold d.
    intros [Hlt|[Heq Hle]].
    + assert (digit a + 1 <= digit b) by lia. nia.
    + assert (digit a = digit b) as -> by lia. lia.
  - split; [by etrans|]. by replace (pass + Z.of_nat (S n)) with (pass + 1 + Z.of_nat n) by lia.
Qed.

Lemma bit_length_bound n : 0 <= n -> 0 <= bit_length n /\ n < 2 ^ bit_length n.
Proof.
  intros Hn. unfold bit_length. destruct (Z.eqb_spec n 0) as [-> |]; [done|].
  pose proof (Z.log2_nonneg n). destruct (Z.log2_spec n ltac:(lia)) as [_ ?]. rewrite Z.add_1_r. split; [lia|done].
Qed.

Lemma maximum_bound l x : x ∈ l -> x <= maximum l.
Proof. induction 1; simpl; lia. Qed.

Lemma maximum_nonneg l : 0 <= maximum l.
Proof. induction l; simpl; lia. Qed.

(** Keys hold the offset above [shift] and the position below. *)
Lemma pack_keys_parts shift p offsets :
  0 <= p -> 0 <= shift -> p + zlen offsets <= 2 ^ shift -> Forall (fun o => 0 <= o) offsets ->
  map (fun key => Z.land key (Z.shiftl 1 shift - 1)) (pack_keys shift p offsets) = seqZ p (zlen offsets) /\
  map (fun key => Z.shiftr key shift) (pack_keys shift p offsets) = offsets.
Proof.
  revert p; induction offsets as [|o offsets IH]; intros p Hp Hs Hn HF; [done|].
  apply Forall_cons in HF as [Ho HF]. rewrite zlen_cons in *. pose proof (zlen_nonneg offsets).
  cbn [pack_keys map]. destruct (IH (p + 1)) as [-> ->]; [lia..|done|].
  rewrite Z.lor_comm, lor_shiftl, Z.shiftr_div_pow2 by lia.
  rewrite (Z.shiftl_mul_pow2 1), Z.mul_1_l, land_low_mod by lia.
  rewrite Z.mod_add, Z.mod_small, Z.div_add, Z.div_small by lia. split; [|f_equal; lia].
  rewrite (seqZ_cons p (zlen offsets + 1)) by lia. f_equal. f_equal; lia.
Qed.

Lemma length_pack_keys shift p offsets : length (pack_keys shift p offsets) = length offsets.
Proof. revert p; induction offsets as [|o offsets IH]; intros p; simpl; [done|]. by rewrite IH. Qed.

(** The offset of each key is the offset at its position. *)
Lemma pack_keys_lookup shift offsets key :
  0 <= shift -> zlen offsets <= 2 ^ shift -> Forall (fun o => 0 <= o) offsets ->
  key ∈ pack_keys shift 0 offsets ->
  zget (Z.land key (Z.shiftl 1 shift - 1)) offsets = Some (Z.shiftr key shift).
Proof.
  intros Hs Hn HF Hk. destruct (pack_keys_parts shift 0 offsets ltac:(lia) Hs ltac:(lia) HF) as [HL HH].
  apply list_elem_of_lookup_1 in Hk as [i Hi].
  assert (seqZ 0 (zlen offsets) !! i = Some (Z.land key (Z.shiftl 1 shift - 1))) as Hpos.
  { rewrite <- HL. change (map ?f ?l) with (f <$> l). rewrite list_lookup_fmap. by rewrite Hi. }
  apply lookup_seqZ in Hpos as [Hpos _]. rewrite Hpos. unfold zget.
  rewrite (proj2 (Z.leb_le _ _)) by lia. replace (Z.to_nat (0 + Z.of_nat i)) with i by lia.
  rewrite <- HH at 1. change (map ?f ?l) with (f <$> l). rewrite list_lookup_fmap. by rewrite Hi.
Qed.

Lemma StronglySorted_map_le (f : Z -> Z) l :
  StronglySorted (fun a b => f a <= f b) l -> StronglySorted Z.le (map f l).
Proof. intros HS. by apply (StronglySorted_fmap f (fun a b => f a <= f b)). Qed.

Lemma offset_order_sorts offsets :
  Forall (fun o => 0 <= o) offsets ->
  let at_ p := default 0 (zget p offsets) in
  let (ord, srt) := offset_order offsets in
  ord ≡ₚ seqZ 0 (zlen offsets) /\ srt = map at_ ord /\ StronglySorted Z.le srt.
Proof.
  intros HF at_. unfold offset_order. pose proof (zlen_nonneg offsets) as Hz.
  destruct (bit_length_bound (zlen offsets) Hz) as [Hs0 Hs].
  destruct (bit_length_bound (maximum offsets) (maximum_nonneg _)) as [Hb0 Hb].
  set (shift := bit_length (zlen offsets)) in *. set (bits := bit_length (maximum offsets)) in *. cbv zeta.
  destruct (64 <? bits + shift).
  - split; [apply sort_by_perm|]. split; [done|]. apply StronglySorted_map_le.
    eapply (StronglySorted_weaken (cmp_le (fun a b => at_ a ?= at_ b))).
    { intros a b _ _. unfold cmp_le. rewrite Z.compare_gt_iff. exact (proj1 (Z.nlt_ge _ _)). }
    apply Sorted_StronglySorted.
    + intros a b c. unfold cmp_le. rewrite !Z.compare_gt_iff. lia.
    + apply sort_by_Sorted. intros a b. by rewrite Z.compare_gt_iff, Z.compare_lt_iff.
  - set (passes := Z.max (div_ceil bits 16) 1). set (w := div_ceil bits passes).
    assert (0 <= w) as Hw by (unfold w, div_ceil; apply Z.div_pos; lia).
    assert (bits <= passes * w) as Hcover.
    { unfold w, div_ceil. assert (1 <= passes) by lia. clearbody passes. Z.div_mod_to_equations. nia. }
    destruct (radix_passes_spec (Z.to_nat passes) 0 shift w (pack_keys shift 0 offsets)
      (replicate (length offsets) 0)) as [Hperm HSS];
      [done|lia|done|by rewrite length_replicate, length_pack_keys| |].
    { rewrite Z.mul_0_l. unfold low_part. generalize (pack_keys shift 0 offsets) as l.
      induction l; constructor; [done|]. apply Forall_forall. intros. by rewrite !Z.mod_1_r. }
    set (keys := radix_passes _ _ _ _ _ _) in *.
    assert (forall k, k ∈ keys -> zget (Z.land k (Z.shiftl 1 shift - 1)) offsets = Some (Z.shiftr k shift)) as Hlook.
    { intros k Hk. rewrite Hperm in Hk. apply pack_keys_lookup; done || lia. }
    destruct (pack_keys_parts shift 0 offsets ltac:(lia) Hs0 ltac:(lia) HF) as [HL _].
    split; [by rewrite <- HL, Hperm|]. split.
    + rewrite map_map. apply map_ext_in. intros k Hk%list_elem_of_In. unfold at_. by rewrite (Hlook k Hk).
    + apply StronglySorted_map_le. eapply StronglySorted_weaken; [|exact HSS]. intros a b Ha Hb'. cbv beta.
      rewrite Z.add_0_l, Z2Nat.id by lia.
      assert (forall k, k ∈ keys -> low_part shift (passes * w) k = Z.shiftr k shift) as Hlow.
      { intros k Hk. unfold low_part. apply Z.mod_small. pose proof (Hlook k Hk) as Hk'.
        apply zget_Some in Hk' as [_ Hk']. apply list_elem_of_lookup_2 in Hk'.
        split; [rewrite Forall_forall in HF; by apply HF|]. apply maximum_bound in Hk'.
        assert (2 ^ bits <= 2 ^ (passes * w)) by (apply Z.pow_le_mono_r; lia). lia. }
      by rewrite !Hlow.
Qed.

(** [offset_order] sorts.  Whatever the offsets (radix passes or the
    comparison fallback), the positions it returns are a permutation of all
    positions, the offsets it returns are the offsets at those positions, and they
    ascend. *)
Theorem offset_order_spec offsets :
  Forall (fun o => 0 <= o) offsets ->
  fst (offset_order offsets) ≡ₚ seqZ 0 (zlen offsets) /\
  snd (offset_order offsets) = map (fun p => default 0 (zget p offsets)) (fst (offset_order offsets)) /\
  StronglySorted Z.le (snd (offset_order offsets)).
Proof. intros HF. pose proof (offset_order_sorts offsets HF) as H. by destruct (offset_order offsets). Qed.

Lemma offset_order_spec_witness :
  fst (offset_order [300; 12; 70; 12]) ≡ₚ seqZ 0 4 /\
  snd (offset_order [300; 12; 70; 12]) =
    map (fun p => default 0 (zget p [300; 12; 70; 12])) (fst (offset_order [300; 12; 70; 12])) /\
  StronglySorted Z.le (snd (offset_order [300; 12; 70; 12])).
Proof. apply (offset_order_spec [300; 12; 70; 12]). repeat constructor; lia. Defined.

Example offset_order_runs : offset_order [300; 12; 70; 12] = ([1; 3; 2; 0], [12; 12; 70; 300]).
Proof. vm_compute. reflexivity. Qed.

(** ** What opening an index establishes *)

Lemma word_nonneg bs p v : bytes_ok bs -> word bs p = Ok v -> 0 <= v.
Proof.
  intros Hb. unfold word. intros (w & Hw%ok_or_Ok & [= <-])%rbind_Ok.
  apply slice_app in Hw as (pre & post & -> & _ & _). apply bytes_ok_app in Hb as [_ [Hb _]%bytes_ok_app].
  by apply be_decode_bound in Hb as [? _].
Qed.

Lemma word_in_range bs p v : word bs p = Ok v -> 0 <= p /\ p + 4 <= zlen bs.
Proof. unfold word. intros (w & Hw%ok_or_Ok & _)%rbind_Ok. apply slice_Some in Hw. lia. Qed.

(** The fanout bounds as a monotone function. *)
Definition fanout_at (bs : bytes) (fanout b : Z) : Z :=
  match word bs (fanout + b * 4) with Ok v => v | Err _ => 0 end.

Lemma fanout_monotonic_spec n bs fanout bucket previous :
  fanout_monotonic n bs fanout bucket previous = Ok tt ->
  (forall b, bucket <= b < bucket + Z.of_nat n ->
     word bs (fanout + b * 4) = Ok (fanout_at bs fanout b) /\ previous <= fanout_at bs fanout b) /\
  (forall b c, bucket <= b <= c -> c < bucket + Z.of_nat n -> fanout_at bs fanout b <= fanout_at bs fanout c).
Proof.
  revert bucket previous; induction n as [|n IH]; intros bucket previous; cbn [fanout_monotonic].
  { intros _. split; intros; lia. }
  intros (v & Hv & H)%rbind_Ok. pass_guard H. apply Z.ltb_ge in G.
  assert (fanout_at bs fanout bucket = v) as Ev by (unfold fanout_at; by rewrite Hv).
  destruct (IH _ _ H) as [H1 H2]. split.
  - intros b Hb. destruct (decide (b = bucket)) as [-> |]; [rewrite Ev; done|].
    destruct (H1 b ltac:(lia)) as [? ?]. split; [done|lia].
  - intros b c Hbc Hc. destruct (decide (b = bucket)) as [-> |]; [|apply H2; lia].
    destruct (decide (c = bucket)) as [-> |]; [lia|]. destruct (H1 c ltac:(lia)) as [_ ?]. lia.
Qed.

(** The invariant of an opened index: its tables lie in the bytes, and its fanout is
    monotone and ends at the count. *)
Record opened (bs : bytes) (x : Index) : Prop := {
  opened_count : 0 <= count x;
  opened_names : forall p, 0 <= p < count x -> name_start x p + digest_len (format x) <= zlen bs;
  opened_fanout : forall b, 0 <= b < 256 ->
    word bs (fanout_start x + b * 4) = Ok (fanout_at bs (fanout_start x) b) /\
    0 <= fanout_at bs (fanout_start x) b;
  opened_monotone : forall b c, 0 <= b <= c -> c < 256 ->
    fanout_at bs (fanout_start x) b <= fanout_at bs (fanout_start x) c;
  opened_last : fanout_at bs (fanout_start x) 255 = count x
}.

Lemma digest_len_pos f : 20 <= digest_len f <= 32.
Proof. destruct f; simpl; lia. Qed.

Lemma parse_opened f bs pe x : bytes_ok bs -> parse f bs pe = Ok x -> opened bs x /\ format x = f /\ pack_end x = pe.
Proof.
  intros Hb H. unfold parse in H. pass_guard H. cbv zeta in H.
  set (leg := negb (starts_with _ bs)) in *.
  apply rbind_Ok in H as (fo & Hfo & H). apply rbind_Ok in H as (n & Hn & H).
  apply rbind_Ok in H as (tr & Htr%ok_or_Ok & H). apply checked_sub_Some in Htr as [-> Htr].
  apply rbind_Ok in H as (te & Hte%ok_or_Ok & H).
  assert (te = n * (if leg then digest_len f + 4 else digest_len f + 8) + (fo + 1024)) as ->.
  { destruct (checked_mul _ _) eqn:E; [|done]. apply checked_mul_Some in E as [-> _].
    by apply checked_add_Some in Hte as [-> _]. }
  apply rbind_Ok in H as (lb & Hlb%ok_or_Ok & H). apply checked_sub_Some in Hlb as [-> Hlb].
  pass_guard H. apply rbind_Ok in H as ([] & Hfan & H). apply rbind_Ok in H as (ph & _ & [= <-]).
  pose proof (word_nonneg _ _ _ Hb Hn) as Hn0. pose proof (digest_len_pos f).
  assert (fo = if leg then 0 else 8) as ->.
  { destruct leg; [by injection Hfo as <-|]. apply rbind_Ok in Hfo as (v & _ & Hv).
    destruct (negb _); [done|]. by injection Hv as <-. }
  apply fanout_monotonic_spec in Hfan as [HF1 HF2]. split; [|done]. constructor; simpl.
  - done.
  - intros p Hp. unfold name_start. simpl. destruct leg; nia.
  - intros b Hb'. unfold fanout_start. simpl. apply HF1. lia.
  - intros b c Hbc Hc. unfold fanout_start. simpl. apply HF2; lia.
  - unfold fanout_start. simpl. unfold fanout_at. replace (_ + 255 * 4) with ((if leg then 0 else 8) + 1020) by lia.
    by rewrite Hn.
Qed.

Section Lookup.
Context (bs : bytes) (x : Index) (Hbytes : bytes_ok bs) (HO : opened bs x).

(** Every position below the count has a name: no lookup leaves the table. *)
Lemma name_at_total p : 0 <= p < count x -> exists name, name_at x bs p = Some name /\ zlen name = digest_len (format x).
Proof using HO.
  intros Hp. pose proof (opened_names _ _ HO p Hp). pose proof (digest_len_pos (format x)).
  destruct (slice_is_Some (name_start x p) (name_start x p + digest_len (format x)) bs) as [m Hm].
  - unfold name_start. destruct (legacy x); nia.
  - lia.
  - exists m. split; [done|]. apply slice_zlen in Hm. lia.
Qed.

Lemma identity_at p name :
  name_at x bs p = Some name -> zlen name = digest_len (format x) ->
  identity x bs p = Some (make_id (format x) name).
Proof.
  intros Hn Hz. unfold identity, from_bytes. rewrite Hn. destruct (format x); simpl in *; by rewrite Hz.
Qed.

Lemma bucket_bounds first :
  0 <= first < 256 ->
  exists low high, bucket_low x bs first = Ok low /\ bucket_high x bs first = Ok high /\
    0 <= low <= high /\ high <= count x /\ high = fanout_at bs (fanout_start x) first /\
    low = (if first =? 0 then 0 else fanout_at bs (fanout_start x) (first - 1)).
Proof using HO.
  intros Hf. destruct (opened_fanout _ _ HO first Hf) as [Hw H0].
  pose proof (opened_monotone _ _ HO first 255 ltac:(lia) ltac:(lia)) as Hm. rewrite (opened_last _ _ HO) in Hm.
  unfold bucket_low, bucket_high. destruct (Z.eqb_spec first 0) as [-> |Hne].
  - exists 0, (fanout_at bs (fanout_start x) 0). split_and!; done || lia.
  - destruct (opened_fanout _ _ HO (first - 1) ltac:(lia)) as [Hw' H0'].
    pose proof (opened_monotone _ _ HO (first - 1) first ltac:(lia) ltac:(lia)).
    exists (fanout_at bs (fanout_start x) (first - 1)), (fanout_at bs (fanout_start x) first).
    split_and!; done || lia.
Qed.

Lemma id_head id : id_ok id -> exists first rest, id_bytes id = first :: rest /\ 0 <= first < 256.
Proof.
  intros [Hb Hl]. pose proof (digest_len_pos (id_format id)). destruct (id_bytes id) as [|f r] eqn:E.
  - rewrite zlen_nil in Hl. lia.
  - exists f, r. split; [done|]. by apply Forall_cons in Hb as [? _].
Qed.

Lemma digest_make_id id : make_id (id_format id) (id_bytes id) = id.
Proof. by destruct id. Qed.

(** Between two bounds of the fanout every probe finds a name: the loops do not panic and
    are the searches of the prelude. *)
Definition probe (target : bytes) (p : Z) : comparison := bytes_cmp (default [] (name_at x bs p)) target.
Lemma find_loop_search target fuel low high :
  0 <= low -> high <= count x -> high - low <= Z.of_nat fuel ->
  find_loop fuel x bs target low high = Some (bsearch fuel (probe target) low high).
Proof using HO.
  revert low high; induction fuel as [|fuel IH]; intros low high Hl Hh Hf; cbn [find_loop bsearch];
    (destruct (Z.ltb_spec low high) as [Hlt|]; [|done]); [lia|].
  pose proof (middle_range low high Hlt). set (mid := low + (high - low) / 2) in *. unfold probe at 1.
  destruct (name_at_total mid ltac:(lia)) as (name & -> & _). change (default [] (Some name)) with name. cbn [mbind option_bind].
  destruct (bytes_cmp name target); [done|apply IH; lia..].
Qed.
Lemma narrow_partition test fuel low high :
  0 <= low -> high <= count x -> high - low <= Z.of_nat fuel ->
  narrow fuel x bs test low high =
    Some (partition_point fuel (fun p => match identity x bs p with Some id => test id | None => false end) low high).
Proof using HO.
  revert low high; induction fuel as [|fuel IH]; intros low high Hl Hh Hf; cbn [narrow partition_point];
    (destruct (Z.ltb_spec low high) as [Hlt|]; [|done]); [lia|].
  pose proof (middle_range low high Hlt). set (mid := low + (high - low) / 2) in *.
  destruct (name_at_total mid ltac:(lia)) as (name & Hn & Hz). rewrite (identity_at mid name Hn Hz). cbn [mbind option_bind].
  destruct (test _); apply IH; lia.
Qed.

(** The formats have widths of their own. *)
Lemma width_format id : id_ok id -> zlen (id_bytes id) = digest_len (format x) -> id_format id = format x.
Proof. intros [_ Hl] Hz. rewrite Hz in Hl. by destruct (format x), (id_format id). Qed.

(** What [find] searches, and that a hit is a hit, whatever the order of the names. *)
Lemma find_search id :
  id_ok id ->
  exists first rest low high, id_bytes id = first :: rest /\ 0 <= first < 256 /\ 0 <= low <= high /\ high <= count x /\
    high = fanout_at bs (fanout_start x) first /\
    low = (if first =? 0 then 0 else fanout_at bs (fanout_start x) (first - 1)) /\
    find x bs id = Some (Ok (bsearch (Z.to_nat (high - low)) (probe (id_bytes id)) low high)).
Proof using HO.
  intros Hid. destruct (id_head id Hid) as (first & rest & Hh & Hr).
  destruct (bucket_bounds first Hr) as (low & high & E1 & E2 & Hlow & Hhigh & Eh & El).
  exists first, rest, low, high. split_and!; [done|lia..|done|done|]. unfold find. rewrite Hh at 1. cbn [head mbind option_bind].
  rewrite E1, E2. by rewrite find_loop_search by lia.
Qed.
Lemma find_hit id :
  id_ok id ->
  exists r, find x bs id = Some (Ok r) /\
    forall p, r = Some p -> 0 <= p < count x /\ identity x bs p = Some id.
Proof using HO.
  intros Hid. destruct (find_search id Hid) as (first & rest & low & high & Hh & _ & Hlow & Hhigh & _ & _ & Hf).
  eexists. split; [exact Hf|]. intros p Hp. apply bsearch_Some in Hp as [Hp E]. split; [lia|]. unfold probe in E.
  destruct (name_at_total p ltac:(lia)) as (name & Hn & Hz). rewrite Hn in E. change (default [] (Some name)) with name in E.
  apply bytes_cmp_eq in E as ->. rewrite (identity_at p _ Hn Hz), <- (width_format id Hid Hz). by rewrite digest_make_id.
Qed.
End Lookup.

(** ** What full validation establishes *)

Definition name_lt (a b : bytes) : Prop := bytes_cmp a b = Lt.

#[global] Instance name_lt_trans : Transitive name_lt.
Proof. intros a b c. apply bytes_cmp_lt_trans. Qed.

Definition first_of (name : bytes) : nat := Z.to_nat (default 0 (head name)).

Lemma name_at_nonempty x bs p name : name_at x bs p = Some name -> zlen name = digest_len (format x).
Proof. unfold name_at. intros H%slice_zlen. lia. Qed.

Lemma check_names_spec n x bs position previous fan fan' :
  check_names n x bs position previous fan = Ok fan' ->
  exists names, length names = n /\
    (forall i name, names !! i = Some name -> name_at x bs (position + Z.of_nat i) = Some name) /\
    Sorted name_lt (match previous with Some p => p :: names | None => names end) /\
    forall b, fan' !! b =
      (fun c => c + Z.of_nat (length (filter (fun name => first_of name = b) names))) <$> fan !! b.
Proof.
  revert position previous fan; induction n as [|n IH]; intros position previous fan; cbn [check_names].
  { intros [= <-]. exists []. split_and!; [done|done|destruct previous; repeat constructor|].
    intros b. destruct (fan !! b); [|done]. simpl. by rewrite Z.add_0_r. }
  intros (name & Hname%ok_or_Ok & H)%rbind_Ok. pass_guard H. cbv zeta in H.
  pose proof (name_at_nonempty _ _ _ _ Hname) as Hz. pose proof (digest_len_pos (format x)).
  destruct name as [|f r]; [unfold zlen in Hz; simpl in Hz; lia|].
  apply IH in H as (names & Hl & HN & HS & HC). exists ((f :: r) :: names). split_and!.
  - simpl. lia.
  - intros [|i] nm Hi; simpl in Hi; [injection Hi as <-; by rewrite Z.add_0_r|].
    replace (position + Z.of_nat (S i)) with (position + 1 + Z.of_nat i) by lia. auto.
  - destruct previous as [p|]; [|done]. constructor; [done|]. constructor. unfold name_lt.
    by destruct (bytes_cmp p (f :: r)).
  - intros b. rewrite HC, filter_cons. change (first_of (f :: r)) with (Z.to_nat f).
    destruct (decide (Z.to_nat f = b)) as [<- |Hne].
    + rewrite list_lookup_alter_eq. destruct (fan !! Z.to_nat f); [|done].
      cbn [fmap option_fmap option_map length]. f_equal. lia.
    + by rewrite list_lookup_alter_ne.
Qed.

Lemma check_fanout_spec sizes x bs bucket cumulative i :
  check_fanout sizes x bs bucket cumulative = Ok tt -> (i < length sizes)%nat ->
  word bs (fanout_start x + (bucket + Z.of_nat i) * 4) = Ok (cumulative + foldr Z.add 0 (take (S i) sizes)).
Proof.
  revert bucket cumulative i; induction sizes as [|c sizes IH]; intros bucket cumulative i; [simpl; lia|].
  cbn [check_fanout]. intros (w & Hw & H)%rbind_Ok Hi. pass_guard H. apply negb_false_iff, Z.eqb_eq in G.
  destruct i as [|i]; simpl in Hi.
  - rewrite Z.add_0_r, Hw, G. simpl. f_equal. lia.
  - apply (IH _ _ i) in H; [|lia]. replace (bucket + Z.of_nat (S i)) with (bucket + 1 + Z.of_nat i) by lia.
    rewrite H. cbn [take foldr]. f_equal. lia.
Qed.

(** Bucket sizes summed: the names whose first byte is below the bound. *)
Lemma sum_buckets (names : list bytes) (fan : list Z) n :
  (n <= length fan)%nat ->
  (forall b, (b < length fan)%nat ->
     fan !! b = Some (Z.of_nat (length (filter (fun name => first_of name = b) names)))) ->
  foldr Z.add 0 (take n fan) = Z.of_nat (length (filter (fun name => first_of name < n)%nat names)).
Proof.
  intros Hn HC. induction n as [|n IH].
  - simpl. clear. induction names as [|a l IH]; [done|]. rewrite filter_cons_False by lia. done.
  - rewrite (take_S_r _ _ _ (HC n ltac:(lia))), foldr_app. cbn [foldr]. rewrite Z.add_0_r.
    assert (forall l c, foldr Z.add c l = foldr Z.add 0 l + c) as Hf.
    { induction l as [|y l IHl]; intros c; simpl; [lia|]. rewrite IHl. lia. }
    rewrite Hf, IH by lia. rewrite <- Nat2Z.inj_add. f_equal. clear.
    induction names as [|a l IHl]; [done|]. rewrite !filter_cons. repeat case_decide; simpl; lia.
Qed.

(** In a sorted list the names below a bound are a prefix. *)
Lemma below_is_prefix names n p name :
  StronglySorted name_lt names -> Forall (fun name => 0 <= default 0 (head name)) names ->
  names !! p = Some name ->
  (first_of name < n)%nat <-> (p < length (filter (fun name => first_of name < n)%nat names))%nat.
Proof.
  intros HS HF. revert p. induction HS as [|a l HS IH HL]; intros p Hp; [done|].
  apply Forall_cons in HF as [Ha HF]. rewrite filter_cons.
  assert (forall b, b ∈ l -> (first_of a <= first_of b)%nat) as Hmono.
  { intros b Hb. rewrite Forall_forall in HL, HF. specialize (HL b Hb). specialize (HF b Hb).
    unfold first_of. unfold name_lt in HL. destruct a as [|x a], b as [|y b]; simpl in *; try lia; try done.
    destruct (Z.compare_spec x y); simpl in *; subst; try lia; done. }
  destruct p as [|p]; simpl in Hp.
  - injection Hp as ->. case_decide; simpl; [split; intros; lia|]. split; [done|]. intros Hlt.
    assert (filter (fun name => first_of name < n)%nat l = []) as E; [|rewrite E in Hlt; simpl in Hlt; lia].
    destruct (filter _ l) as [|b fl] eqn:E; [done|]. exfalso.
    assert (b ∈ filter (fun name => first_of name < n)%nat l) as Hb by (rewrite E; set_solver).
    apply list_elem_of_filter in Hb as [Hb1 Hb2]. specialize (Hmono b Hb2). lia.
  - rewrite (IH HF p Hp). assert (name ∈ l) as Hin by (by eapply list_elem_of_lookup_2).
    specialize (Hmono name Hin). case_decide; simpl; [lia|]. split; [|lia]. intros Hlt.
    apply (IH HF p Hp) in Hlt. lia.
Qed.

(** The names of a validated index, strictly ascending, with an exact fanout. *)
Record validated (bs : bytes) (x : Index) (names : list bytes) : Prop := {
  validated_count : zlen names = count x;
  validated_names : forall i name, names !! i = Some name -> name_at x bs (Z.of_nat i) = Some name;
  validated_sorted : StronglySorted name_lt names;
  validated_fanout : forall b, 0 <= b < 256 ->
    fanout_at bs (fanout_start x) b =
      Z.of_nat (length (filter (fun name => first_of name < Z.to_nat (b + 1))%nat names))
}.

Lemma validate_validated bs x x' :
  0 <= count x -> validate bs x = (Ok tt, x') -> exists names, validated bs x names.
Proof.
  intros H0 H. unfold validate in H. destruct (stray x); [done|].
  match type of H with match ?m with _ => _ end = _ => destruct m as [[]|e] eqn:E; [|done] end. clear H.
  apply rbind_Ok in E as (? & _ & E). apply rbind_Ok in E as (fan & Hn & Hf).
  apply check_names_spec in Hn as (names & Hl & HN & HS & HC). exists names.
  assert (length fan = 256%nat) as Hfan.
  { destruct (decide (length fan < 256)%nat) as [Hlt|Hge].
    - specialize (HC (length fan)). rewrite lookup_replicate_2 in HC by lia. simpl in HC.
      by rewrite lookup_ge_None_2 in HC by lia.
    - destruct (decide (256 < length fan)%nat) as [Hgt|]; [|lia]. specialize (HC 256%nat).
      rewrite (proj1 (lookup_replicate_None 256 0 256)) in HC by lia. simpl in HC.
      apply lookup_ge_None in HC. lia. }
  constructor.
  - unfold zlen. lia.
  - done.
  - by apply Sorted_StronglySorted; [apply _|].
  - intros b Hb. pose proof (check_fanout_spec _ _ _ _ _ (Z.to_nat b) Hf ltac:(lia)) as Hw.
    rewrite !Z.add_0_l, Z2Nat.id in Hw by lia. unfold fanout_at. rewrite Hw.
    rewrite (sum_buckets names) by
      (lia || (intros c Hc; rewrite HC, lookup_replicate_2 by lia; simpl; f_equal; lia)).
    by replace (Z.to_nat (b + 1)) with (S (Z.to_nat b)) by lia.
Qed.

Section Found.
Context (bs : bytes) (x : Index) (names : list bytes).
Context (Hbytes : bytes_ok bs) (HO : opened bs x) (HV : validated bs x names).

Lemma validated_heads : Forall (fun name => 0 <= default 0 (head name)) names.
Proof using Hbytes HV.
  apply Forall_forall. intros name Hin. apply list_elem_of_lookup_1 in Hin as [i Hi].
  apply (validated_names _ _ _ HV) in Hi. unfold name_at in Hi.
  apply slice_app in Hi as (pre & post & Hbs & _). rewrite Hbs in Hbytes.
  apply bytes_ok_app in Hbytes as [_ [Hn _]%bytes_ok_app]. destruct name; [done|].
  by apply Forall_cons in Hn as [[? _] _].
Qed.

Lemma name_lookup p : 0 <= p < count x -> exists name, names !! Z.to_nat p = Some name /\ name_at x bs p = Some name.
Proof using HV.
  intros Hp. destruct (lookup_lt_is_Some_2 names (Z.to_nat p)) as [name Hn].
  { pose proof (validated_count _ _ _ HV). unfold zlen in *. lia. }
  exists name. split; [done|]. pose proof (validated_names _ _ _ HV _ _ Hn) as HN. by rewrite Z2Nat.id in HN by lia.
Qed.

Lemma names_lt i j a b :
  0 <= i < j -> j < count x -> name_at x bs i = Some a -> name_at x bs j = Some b -> bytes_cmp a b = Lt.
Proof using HV.
  intros Hi Hj Ha Hb. destruct (name_lookup i ltac:(lia)) as (a' & Ha' & ?). destruct (name_lookup j ltac:(lia)) as (b' & Hb' & ?).
  simplify_eq. pose proof (validated_sorted _ _ _ HV) as HS.
  assert (Z.to_nat i < Z.to_nat j)%nat as Hij by lia. revert Ha' Hb' Hij. generalize (Z.to_nat i) (Z.to_nat j).
  clear -HS. induction HS as [|y l HS IH HF]; intros n m Hn Hm Hnm; [done|].
  destruct m as [|m]; [lia|]. destruct n as [|n]; simpl in *; [|apply (IH n m); done || lia].
  injection Hn as ->. rewrite Forall_forall in HF. apply HF. by eapply list_elem_of_lookup_2.
Qed.

(** A stored name lies in its fanout bucket. *)
Lemma name_in_bucket p first rest low high :
  0 <= p < count x -> 0 <= first < 256 -> name_at x bs p = Some (first :: rest) ->
  low = (if first =? 0 then 0 else fanout_at bs (fanout_start x) (first - 1)) ->
  high = fanout_at bs (fanout_start x) first -> low <= p < high.
Proof using Hbytes HV.
  intros Hp Hf Hn Hlow Hhigh. destruct (name_lookup p Hp) as (name & Hl & Hn'). rewrite Hn in Hn'. injection Hn' as <-.
  pose proof (fun n => below_is_prefix names n _ _ (validated_sorted _ _ _ HV) validated_heads Hl) as HB.
  unfold first_of in HB at 1. simpl in HB. split.
  - destruct (Z.eqb_spec first 0); [lia|]. rewrite Hlow, (validated_fanout _ _ _ HV) by lia.
    specialize (HB (Z.to_nat (first - 1 + 1))). lia.
  - rewrite Hhigh, (validated_fanout _ _ _ HV) by lia. specialize (HB (Z.to_nat (first + 1))). lia.
Qed.

Lemma probe_below target i j : 0 <= i < j -> j < count x -> probe bs x target j = Lt -> probe bs x target i = Lt.
Proof using HO HV.
  intros Hi Hj. unfold probe. destruct (name_at_total bs x HO i ltac:(lia)) as (ni & Hni & _).
  destruct (name_at_total bs x HO j ltac:(lia)) as (nj & Hnj & _). rewrite Hni, Hnj. intros Hcmp.
  eapply bytes_cmp_lt_trans; [|exact Hcmp]. eapply names_lt; [| |exact Hni|exact Hnj]; lia.
Qed.
Lemma probe_above target i j : 0 <= i < j -> j < count x -> probe bs x target i = Gt -> probe bs x target j = Gt.
Proof using HO HV.
  intros Hi Hj. unfold probe. destruct (name_at_total bs x HO i ltac:(lia)) as (ni & Hni & _).
  destruct (name_at_total bs x HO j ltac:(lia)) as (nj & Hnj & _). rewrite Hni, Hnj. change (default [] (Some ?n)) with n.
  rewrite !bytes_cmp_gt_lt. intros Hcmp. eapply bytes_cmp_lt_trans; [exact Hcmp|].
  eapply names_lt; [| |exact Hni|exact Hnj]; lia.
Qed.

Lemma find_exact id :
  id_ok id ->
  exists r, find x bs id = Some (Ok r) /\
    forall p, r = Some p <-> 0 <= p < count x /\ identity x bs p = Some id.
Proof using Hbytes HO HV.
  intros Hid. destruct (find_hit bs x HO id Hid) as (r & Hr & Hhit). exists r. split; [done|].
  intros p. split; [apply Hhit|]. intros [Hp Hidp].
  destruct (name_at_total bs x HO p Hp) as (name & Hn & Hz). rewrite (identity_at bs x p _ Hn Hz) in Hidp.
  assert (name = id_bytes id) as -> by (injection Hidp as <-; by destruct (format x)).
  destruct r as [q|].
  - f_equal. destruct (Hhit q eq_refl) as [Hq1 Hq2]. destruct (name_at_total bs x HO q Hq1) as (nq & Hnq & Hzq).
    rewrite (identity_at bs x q _ Hnq Hzq) in Hq2.
    assert (nq = id_bytes id) as -> by (injection Hq2 as <-; by destruct (format x)).
    destruct (Z.lt_trichotomy p q) as [Hlt|[?|Hlt]]; [|done|].
    + pose proof (names_lt p q _ _ ltac:(lia) ltac:(lia) Hn Hnq) as E. by rewrite bytes_cmp_refl in E.
    + pose proof (names_lt q p _ _ ltac:(lia) ltac:(lia) Hnq Hn) as E. by rewrite bytes_cmp_refl in E.
  - exfalso. destruct (find_search bs x HO id Hid) as (first & rest & low & high & Hh & Hrg & Hlow & Hhigh & Eh & El & Hf).
    rewrite Hr in Hf. injection Hf as Hf. symmetry in Hf. pose proof Hn as Hn'. rewrite Hh in Hn'.
    assert (low <= p < high) as Hin by (by eapply name_in_bucket).
    refine (bsearch_None _ _ _ _ _ _ _ Hf p Hin _); [lia|..|unfold probe; rewrite Hn; apply bytes_cmp_refl].
    + intros i j Hi Hj. apply probe_below; lia.
    + intros i j Hi Hj. apply probe_above; lia.
Qed.
End Found.

(** C3: identity lookup is exact on a validated index, for identities of any format: [find]
    neither fails nor panics (no probe leaves the name table), and it returns position [p]
    exactly when the index stores the identity at [p], so [None] exactly when no position
    stores it. *)
Theorem find_correct f bs pe x x' id :
  bytes_ok bs -> parse f bs pe = Ok x -> validate bs x = (Ok tt, x') -> id_ok id ->
  exists r, find x bs id = Some (Ok r) /\
    forall p, r = Some p <-> 0 <= p < count x /\ identity x bs p = Some id.
Proof.
  intros Hb HP HV Hid. destruct (parse_opened _ _ _ _ Hb HP) as (HO & _).
  destruct (validate_validated _ _ _ (opened_count _ _ HO) HV) as [names Hnames].
  by apply (find_exact bs x names Hb HO Hnames id).
Qed.

(** On an index that was only opened, a lookup can miss but never lies: it does
    not fail or panic, and a position it returns is below the count and stores the
    identity that was asked for. *)
Theorem find_sound f bs pe x id :
  bytes_ok bs -> parse f bs pe = Ok x -> id_ok id ->
  exists r, find x bs id = Some (Ok r) /\
    forall p, r = Some p -> 0 <= p < count x /\ identity x bs p = Some id.
Proof.
  intros Hb HP Hid. destruct (parse_opened _ _ _ _ Hb HP) as (HO & _).
  by apply (find_hit bs x HO id).
Qed.

(** ** The offset order tiles the pack *)

Lemma checked_offset_Ok o pe v : checked_offset o pe = Ok v -> v = o /\ 12 <= o < pe.
Proof.
  unfold checked_offset. intros H. pass_guard H. pass_guard H. injection H as <-.
  apply orb_false_iff in G0 as [?%Z.ltb_ge ?%Z.leb_gt]. split; [done|lia].
Qed.

Lemma offset_range x bs p v : offset x bs p = Ok v -> 12 <= v < pack_end x.
Proof.
  unfold offset. intros H. destruct (legacy x).
  - apply rbind_Ok in H as (o & _ & [-> ?]%checked_offset_Ok). done.
  - apply rbind_Ok in H as (raw & _ & H). destruct (_ =? 0); [by apply checked_offset_Ok in H as [-> ?]|].
    pass_guard H. apply rbind_Ok in H as (w & _ & [-> ?]%checked_offset_Ok). done.
Qed.

Lemma collect_offsets_spec n x bs position used offs used' :
  collect_offsets n x bs position used = Ok (offs, used') ->
  length offs = n /\ forall i o, offs !! i = Some o -> offset x bs (position + Z.of_nat i) = Ok o.
Proof.
  revert position used offs used'; induction n as [|n IH]; intros position used offs used'; cbn [collect_offsets].
  { intros [= <- <-]. done. }
  intros (u & _ & H)%rbind_Ok. apply rbind_Ok in H as (o & Ho%map_err_Ok & H).
  apply rbind_Ok in H as ([more u'] & Hm & [= <- <-]). apply IH in Hm as [Hl Hm]. split; [simpl; lia|].
  intros [|i] o' Hi; simpl in Hi; [injection Hi as <-; by rewrite Z.add_0_r|].
  replace (position + Z.of_nat (S i)) with (position + 1 + Z.of_nat i) by lia. auto.
Qed.

Lemma strictly_sorted l :
  StronglySorted Z.le l -> has_adjacent_equal l = false -> StronglySorted Z.lt l.
Proof.
  intros HS HA. apply Sorted_StronglySorted; [intros a b c; lia|].
  induction HS as [|a l HS IH HF]; [constructor|]. destruct l as [|b l]; [repeat constructor|].
  cbn [has_adjacent_equal] in HA. apply orb_false_iff in HA as [HA%Z.eqb_neq HB].
  constructor; [by apply IH|]. constructor. apply Forall_cons in HF as [? _]. lia.
Qed.

Lemma strict_lookup l i j a b :
  StronglySorted Z.lt l -> (i < j)%nat -> l !! i = Some a -> l !! j = Some b -> a < b.
Proof.
  intros HS. revert i j; induction HS as [|y l HS IH HF]; intros i j Hij Hi Hj; [done|].
  destruct j as [|j]; [lia|]. destruct i as [|i]; simpl in *; [|apply (IH i j); done || lia].
  injection Hi as ->. rewrite Forall_forall in HF. apply HF. by eapply list_elem_of_lookup_2.
Qed.

(** The element whose range up to the next one (or [e]) holds [y]. *)
Lemma locate l e y :
  StronglySorted Z.lt l -> l <> [] -> (forall a, head l = Some a -> a <= y) -> y < e ->
  exists r a, l !! r = Some a /\ a <= y /\ match l !! S r with Some b => y < b | None => y < e end.
Proof.
  intros HS. induction HS as [|a l HS IH HF]; intros Hne Hh He; [done|]. specialize (Hh a eq_refl).
  destruct l as [|b l]; [by exists O, a|]. destruct (Z.ltb_spec y b) as [Hlt|Hge]; [by exists O, a|].
  destruct IH as (r & c & Hr & Hc & Hn); [done|by intros ? [= <-]|done|]. by exists (S r), c.
Qed.

Lemma set_ranks_spec ord idx rk :
  NoDup ord -> Forall (fun p => 0 <= p < zlen rk) ord ->
  forall i p, ord !! i = Some p -> set_ranks ord idx rk !! Z.to_nat p = Some (idx + Z.of_nat i).
Proof.
  intros HN. revert idx rk; induction HN as [|q ord Hq HN IH]; intros idx rk HF i p Hi; [done|].
  apply Forall_cons in HF as [Hrq HF]. cbn [set_ranks].
  assert (zlen (<[Z.to_nat q:=idx]> rk) = zlen rk) as Hl by zlia.
  destruct i as [|i]; simpl in Hi.
  - injection Hi as ->. rewrite Z.add_0_r.
    assert (forall ord idx rk, p ∉ ord -> Forall (fun q => 0 <= q) ord -> 0 <= p ->
      set_ranks ord idx rk !! Z.to_nat p = rk !! Z.to_nat p) as Hkeep.
    { clear. induction ord as [|q ord IH]; intros idx rk Hp HF H0; [done|]. cbn [set_ranks].
      apply Forall_cons in HF as [? HF]. rewrite IH by set_solver.
      apply list_lookup_insert_ne. intros E%Z2Nat.inj; [set_solver|lia..]. }
    rewrite Hkeep; [|done|by eapply Forall_impl; [exact HF|]; simpl; intros; lia|lia].
    apply list_lookup_insert_eq. unfold zlen in Hrq. lia.
  - rewrite (IH (idx + 1) _) with (i := i); [f_equal; lia|by rewrite Hl|done].
Qed.

(** What a built order is. *)
Record ordered (bs : bytes) (x : Index) (o : Order) : Prop := {
  ordered_perm : order o ≡ₚ seqZ 0 (count x);
  ordered_rank : forall i p, order o !! i = Some p -> zget p (rank o) = Some (Z.of_nat i);
  ordered_offsets : exists srt, StronglySorted Z.lt srt /\ length srt = length (order o) /\
    (forall i p, order o !! i = Some p -> exists v, srt !! i = Some v /\ offset x bs p = Ok v) /\
    match srt with first :: _ => first | [] => pack_end x end = 12
}.

Lemma build_order_ordered bs x o : 0 <= count x -> build_order x bs = Ok o -> ordered bs x o.
Proof.
  intros H0. unfold build_order. intros ([offs used] & Hc & H)%rbind_Ok. pass_guard H.
  apply collect_offsets_spec in Hc as [Hl Hoff]. simpl in Hoff.
  assert (Forall (fun o => 0 <= o) offs) as HF.
  { apply Forall_lookup_2. intros i v Hi%Hoff. apply offset_range in Hi. lia. }
  pose proof (offset_order_sorts offs HF) as HS. destruct (offset_order offs) as [ord srt].
  destruct HS as (Hperm & Hsrt & HS). pass_guard H. pass_guard H. injection H as <-.
  assert (zlen offs = count x) as Hz by (unfold zlen; lia). rewrite Hz in Hperm.
  apply negb_false_iff, Z.eqb_eq in G1. constructor; cbn [order rank].
  - done.
  - intros i p Hi. assert (0 <= p < count x) as Hp.
    { assert (p ∈ ord) as Hin by (by eapply list_elem_of_lookup_2). rewrite Hperm, elem_of_seqZ in Hin. lia. }
    unfold zget. rewrite (proj2 (Z.leb_le _ _)) by lia.
    rewrite (set_ranks_spec ord 0 _) with (i := i); [f_equal; lia|..|done].
    + rewrite Hperm. apply NoDup_seqZ.
    + apply Forall_forall. intros q Hq. rewrite zlen_replicate, Hperm, length_seqZ.
      rewrite Hperm, elem_of_seqZ in Hq. lia.
  - exists srt. split; [by apply strictly_sorted|]. split; [rewrite Hsrt; apply length_map|]. split; [|done].
    intros i p Hi. assert (0 <= p < count x) as Hp.
    { assert (p ∈ ord) as Hin by (by eapply list_elem_of_lookup_2). rewrite Hperm, elem_of_seqZ in Hin. lia. }
    destruct (zget_is_Some p offs) as [v Hv]; [lia|]. exists v. split.
    + rewrite Hsrt. change (map ?f ?l) with (f <$> l). rewrite list_lookup_fmap, Hi. simpl. by rewrite Hv.
    + apply zget_Some in Hv as [_ Hv]. apply Hoff in Hv. by rewrite Z2Nat.id in Hv by lia.
Qed.

Section Tiles.
Context (bs : bytes) (x : Index) (o : Order) (HO : ordered bs x o).

Lemma end_at i p :
  order o !! i = Some p ->
  end_ x bs o p = match order o !! S i with Some n => offset x bs n | None => Ok (pack_end x) end.
Proof using HO.
  intros Hi. unfold end_. rewrite (ordered_rank _ _ _ HO i p Hi). cbn [rbind ok_or].
  unfold zget. rewrite (proj2 (Z.leb_le _ _)) by lia. by replace (Z.to_nat (Z.of_nat i + 1)) with (S i) by lia.
Qed.

(** The extent of the entry of rank [i], from the sorted offsets. *)
Lemma extent_at srt i p :
  (forall i p, order o !! i = Some p -> exists v, srt !! i = Some v /\ offset x bs p = Ok v) ->
  length srt = length (order o) -> order o !! i = Some p ->
  exists s e, offset x bs p = Ok s /\ end_ x bs o p = Ok e /\ srt !! i = Some s /\
    match srt !! S i with Some b => e = b | None => e = pack_end x end.
Proof using HO.
  intros Hsrt Hlen Hi. destruct (Hsrt i p Hi) as (s & Hs & Hos). rewrite (end_at i p Hi).
  destruct (order o !! S i) as [n|] eqn:En.
  - destruct (Hsrt _ _ En) as (e & He & Hoe). exists s, e. rewrite He. done.
  - exists s, (pack_end x). apply lookup_ge_None in En. rewrite (lookup_ge_None_2 srt (S i)) by lia. done.
Qed.

Lemma tiles y :
  12 <= y < pack_end x ->
  exists p, (0 <= p < count x /\
    exists s e, offset x bs p = Ok s /\ end_ x bs o p = Ok e /\ s <= y < e) /\
    forall q s e, 0 <= q < count x -> offset x bs q = Ok s -> end_ x bs o q = Ok e -> s <= y < e -> q = p.
Proof using HO.
  intros Hy. destruct (ordered_offsets _ _ _ HO) as (srt & HS & Hlen & Hsrt & Hfirst).
  assert (srt <> []) as Hne by (intros ->; simpl in Hfirst; lia).
  destruct (locate srt (pack_end x) y HS Hne) as (r & s & Hr & Hs & Hnext);
    [destruct srt; [done|]; intros a [= <-]; simpl in Hfirst; lia|lia|].
  destruct (lookup_lt_is_Some_2 (order o) r) as [p Hp]; [apply lookup_lt_Some in Hr; lia|].
  destruct (extent_at srt r p Hsrt Hlen Hp) as (s' & e & Hos & Hoe & Hs' & He). simplify_eq.
  assert (forall i q, order o !! i = Some q -> 0 <= q < count x) as Hrange.
  { intros i q Hi. assert (q ∈ order o) as Hin by (by eapply list_elem_of_lookup_2).
    rewrite (ordered_perm _ _ _ HO), elem_of_seqZ in Hin. lia. }
  exists p. split.
  - split; [by eapply Hrange|]. exists s, e. split_and!; [done..|]. destruct (srt !! S r); lia.
  - intros q sq eq_ Hq Hsq Heq Hin.
    assert (q ∈ order o) as Hmem by (rewrite (ordered_perm _ _ _ HO); apply elem_of_seqZ; lia).
    apply list_elem_of_lookup_1 in Hmem as [i Hi].
    destruct (extent_at srt i q Hsrt Hlen Hi) as (s2 & e2 & Ho2 & He2 & Hs2 & Hn2).
    rewrite Hsq in Ho2. rewrite Heq in He2. injection Ho2 as <-. injection He2 as <-.
    destruct (Nat.lt_trichotomy i r) as [Hlt|[-> |Hlt]]; [|congruence|].
    + destruct (srt !! S i) as [b|] eqn:Eb; [|apply lookup_ge_None in Eb; apply lookup_lt_Some in Hr; lia]. subst.
      destruct (decide (S i = r)) as [<- |]; [simplify_eq; lia|].
      pose proof (strict_lookup srt (S i) r _ _ HS ltac:(lia) Eb Hr). lia.
    + destruct (srt !! S r) as [b|] eqn:Eb; [|apply lookup_ge_None in Eb; apply lookup_lt_Some in Hs2; lia].
      destruct (decide (S r = i)) as [<- |]; [simplify_eq; lia|].
      pose proof (strict_lookup srt (S r) i _ _ HS ltac:(lia) Eb Hs2). lia.
Qed.
End Tiles.

(** The offset order tiles the pack.  When it builds, every byte of the pack's
    entry area, from the end of the header to the trailer, lies in the extent
    (offset to end) of exactly one entry. *)
Theorem order_tiles_pack f bs pe x o y :
  bytes_ok bs -> parse f bs pe = Ok x -> build_order x bs = Ok o -> 12 <= y < pe ->
  exists p, (0 <= p < count x /\
    exists s e, offset x bs p = Ok s /\ end_ x bs o p = Ok e /\ s <= y < e) /\
    forall q s e, 0 <= q < count x -> offset x bs q = Ok s -> end_ x bs o q = Ok e -> s <= y < e -> q = p.
Proof.
  intros Hb HP HB Hy. destruct (parse_opened _ _ _ _ Hb HP) as (HO & _ & Hpe).
  apply (tiles bs x o); [|by rewrite Hpe]. apply build_order_ordered; [apply (opened_count _ _ HO)|done].
Qed.

(** ** A concrete index with two entries *)

Definition sample_name (n : Z) : bytes := n :: replicate 19 n.
Definition sample : bytes :=
  [255; 116; 79; 99; 0; 0; 0; 2] ++
  concat (map (fun b => be_encode 4 ((if 1 <=? b then 1 else 0) + (if 3 <=? b then 1 else 0))) (seqZ 0 256)) ++
  sample_name 1 ++ sample_name 3 ++ replicate 8 0 ++ [0; 0; 0; 50; 0; 0; 0; 12] ++
  replicate 20 9 ++ replicate 20 8.
Definition sample_index : Index :=
  {| format := FSha1; legacy := false; count := 2; large := 0; stray := false; pack_end := 100;
     pack_hash := Sha1 (replicate 20 9); cell := None |}.
Definition sample_order : Order := {| order := [1; 0]; rank := [1; 0] |}.

Lemma sample_bytes_ok : bytes_ok sample.
Proof.
  apply Forall_forall. intros b Hb. unfold byte_ok.
  assert (forallb (fun b => (0 <=? b) && (b <? 256)) sample = true) as HF by (vm_compute; reflexivity).
  rewrite forallb_forall in HF. apply list_elem_of_In, HF in Hb. apply andb_prop in Hb as [?%Z.leb_le ?%Z.ltb_lt]. lia.
Qed.

Lemma find_correct_witness :
  exists r, find sample_index sample (Sha1 (sample_name 3)) = Some (Ok r) /\
    forall p, r = Some p <-> 0 <= p < 2 /\ identity sample_index sample p = Some (Sha1 (sample_name 3)).
Proof.
  apply (find_correct FSha1 sample 100 sample_index
    {| format := FSha1; legacy := false; count := 2; large := 0; stray := false; pack_end := 100;
       pack_hash := Sha1 (replicate 20 9); cell := Some (Ok sample_order) |}).
  - exact sample_bytes_ok.
  - vm_compute. reflexivity.
  - vm_compute. reflexivity.
  - split; [|done]. repeat (constructor; [split; [discriminate|reflexivity]|]). constructor.
Defined.

Lemma find_sound_witness :
  exists r, find sample_index sample (Sha1 (sample_name 2)) = Some (Ok r) /\
    forall p, r = Some p -> 0 <= p < 2 /\ identity sample_index sample p = Some (Sha1 (sample_name 2)).
Proof.
  apply (find_sound FSha1 sample 100 sample_index).
  - exact sample_bytes_ok.
  - vm_compute. reflexivity.
  - split; [|done]. repeat (constructor; [split; [discriminate|reflexivity]|]). constructor.
Defined.

Lemma order_tiles_pack_witness :
  exists p, (0 <= p < 2 /\
    exists s e, offset sample_index sample p = Ok s /\ end_ sample_index sample sample_order p = Ok e /\ s <= 60 < e) /\
    forall q s e, 0 <= q < 2 -> offset sample_index sample q = Ok s ->
      end_ sample_index sample sample_order q = Ok e -> s <= 60 < e -> q = p.
Proof.
  apply (order_tiles_pack FSha1 sample 100 sample_index sample_order 60).
  - exact sample_bytes_ok.
  - vm_compute. reflexivity.
  - vm_compute. reflexivity.
  - lia.
Defined.

(** ** Abbreviated identities *)

(** The digits of the lower bound beyond the prefix are zero. *)
Definition prefix_padded (p : ObjectIdPrefix) : Prop :=
  let n := Z.to_nat (digits p / 2) in
  let lo := id_bytes (lower p) in
  if digits p mod 2 =? 0 then Forall (fun b => b = 0) (drop n lo)
  else exists h, lo !! n = Some h /\ h mod 16 = 0 /\ Forall (fun b => b = 0) (drop (S n) lo).

(** The byte view of [prefix_matches]. *)
Definition agrees (d : Z) (lo b : bytes) : Prop :=
  let n := Z.to_nat (d / 2) in
  take n lo = take n b /\
  (d mod 2 = 0 \/ exists x y, lo !! n = Some x /\ b !! n = Some y /\ x / 16 = y / 16).

Lemma prefix_matches_agrees p id :
  prefix_ok p -> id_ok id -> id_format id = id_format (lower p) ->
  prefix_matches p id = true <-> agrees (digits p) (id_bytes (lower p)) (id_bytes id).
Proof.
  intros [[_ Hlo] Hd] [_ Hid] Hf. unfold prefix_matches, agrees. rewrite Hf in Hid.
  rewrite bool_decide_eq_true_2 by done. cbn [negb]. rewrite andb_true_iff, orb_true_iff, Z.eqb_eq.
  pose proof (Z.div_mod (digits p) 2 ltac:(lia)). pose proof (Z.mod_pos_bound (digits p) 2 ltac:(lia)).
  rewrite !slice_0 by lia. cbn [option_bytes_eqb]. rewrite bytes_eqb_eq. f_equiv. f_equiv.
  unfold zget. rewrite (proj2 (Z.leb_le 0 (digits p / 2))) by lia.
  destruct (id_bytes (lower p) !! _) as [x|], (id_bytes id !! _) as [y|]; try (split; [done|]; naive_solver).
  rewrite Z.eqb_eq, !Z.shiftr_div_pow2 by lia. change (2 ^ 4) with 16. naive_solver.
Qed.

Lemma bytes_cmp_take n a b : bytes_cmp a b <> Gt -> bytes_cmp (take n a) (take n b) <> Gt.
Proof.
  revert a b; induction n as [|n IH]; intros [|x a] [|y b] H; simpl in *; try done.
  destruct (x ?= y); try done. by apply IH.
Qed.

Lemma bytes_cmp_between a b c :
  bytes_cmp a b <> Gt -> bytes_cmp b c <> Gt -> a = c -> a = b.
Proof.
  intros H1 H2 <-. apply bytes_cmp_eq. destruct (bytes_cmp a b) eqn:E; [done| |done].
  exfalso. apply H2. by apply bytes_cmp_gt_lt.
Qed.

Lemma zeros_least z b :
  Forall (fun b => b = 0) z -> Forall (fun b => 0 <= b) b -> length z = length b -> bytes_cmp z b <> Gt.
Proof.
  intros HZ. revert b; induction HZ as [|x z -> HZ IH]; intros [|y b] HF Hl; simpl in *; try done.
  apply Forall_cons in HF as [Hy HF]. destruct y; [apply IH; [done|lia]|done|lia].
Qed.

Lemma bytes_cmp_app_ne p a b : bytes_cmp a b <> Gt -> bytes_cmp (p ++ a) (p ++ b) <> Gt.
Proof. by rewrite bytes_cmp_app. Qed.

(** The lower bound is the least identity the prefix matches. *)
Lemma agrees_lower p b :
  prefix_ok p -> prefix_padded p -> bytes_ok b -> zlen b = zlen (id_bytes (lower p)) ->
  agrees (digits p) (id_bytes (lower p)) b -> bytes_cmp (id_bytes (lower p)) b <> Gt.
Proof.
  intros [[Hok Hlo] Hd] Hpad Hb Hl. unfold agrees, prefix_padded in *.
  set (lo := id_bytes (lower p)) in *. set (n := Z.to_nat (digits p / 2)) in *. intros [Ht Hn].
  assert (Forall (fun b => 0 <= b) b) as Hb0 by (eapply Forall_impl; [exact Hb|]; by intros ? [? _]).
  rewrite <- (take_drop n lo), <- (take_drop n b), Ht. apply bytes_cmp_app_ne.
  unfold zlen in Hl. destruct (Z.eqb_spec (digits p mod 2) 0) as [E|E].
  - apply zeros_least; [done|by apply Forall_drop|rewrite !length_drop; lia].
  - destruct Hpad as (h & Hh & Hm & Hz). destruct Hn as [|(x & y & Hx & Hy & Hxy)]; [lia|]. simplify_eq.
    rewrite (drop_S _ _ _ Hh), (drop_S _ _ _ Hy). simpl.
    assert (h <= y) by (Z.div_mod_to_equations; lia).
    destruct (Z.compare_spec h y); [|done|lia].
    apply zeros_least; [done|by apply Forall_drop|rewrite !length_drop; lia].
Qed.

(** Identities between the lower bound and a match are matches. *)
Lemma agrees_between d lo a b :
  0 <= d -> length lo = length a -> length a = length b -> d <= 2 * zlen lo ->
  bytes_cmp lo a <> Gt -> bytes_cmp a b <> Gt -> agrees d lo b -> agrees d lo a.
Proof.
  intros Hd Hl1 Hl2 Hdl H1 H2 [Ht Hn]. unfold agrees. set (n := Z.to_nat (d / 2)) in *.
  assert (take n lo = take n a) as Hta
    by (eapply bytes_cmp_between; [apply bytes_cmp_take, H1|apply bytes_cmp_take, H2|done]).
  split; [done|]. destruct Hn as [|(x & y & Hx & Hy & Hxy)]; [by left|]. right.
  destruct (lookup_lt_is_Some_2 a n) as [z Hz]; [apply lookup_lt_Some in Hx; lia|]. exists x, z. split_and!; [done..|].
  apply (bytes_cmp_take (S n)) in H1, H2.
  rewrite (take_S_r _ _ _ Hx), (take_S_r _ _ _ Hz), Hta in H1. rewrite (take_S_r _ _ _ Hz), (take_S_r _ _ _ Hy) in H2.
  rewrite <- Hta, Ht in H2. rewrite bytes_cmp_app in H1, H2. simpl in H1, H2.
  assert (x <= z <= y) as [? ?] by (destruct (Z.compare_spec x z), (Z.compare_spec z y); lia || done).
  Z.div_mod_to_equations. lia.
Qed.

Section Prefix.
Context (bs : bytes) (x : Index) (names : list bytes) (p : ObjectIdPrefix).
Context (Hbytes : bytes_ok bs) (HO : opened bs x) (HV : validated bs x names).
Context (Hp : prefix_ok p) (Hpad : prefix_padded p) (H4 : 4 <= digits p) (Hfmt : id_format (lower p) = format x).
Let lo := id_bytes (lower p).

(** Positions and their names. *)
Lemma position_name i : 0 <= i < count x -> exists name, name_at x bs i = Some name /\
  zlen name = digest_len (format x) /\ bytes_ok name /\ identity x bs i = Some (make_id (format x) name) /\
  (prefix_matches p (make_id (format x) name) = true <-> agrees (digits p) lo name) /\
  (id_cmp (make_id (format x) name) (lower p) = bytes_cmp name lo).
Proof using Hbytes HO Hp Hfmt.
  intros Hi. destruct (name_at_total bs x HO i Hi) as (name & Hn & Hz). exists name.
  assert (bytes_ok name) as Hb.
  { unfold name_at in Hn. apply slice_app in Hn as (pre & post & E & _). rewrite E in Hbytes.
    by apply bytes_ok_app in Hbytes as [_ [? _]%bytes_ok_app]. }
  assert (id_bytes (make_id (format x) name) = name /\ id_format (make_id (format x) name) = format x) as [E1 E2]
    by (by destruct (format x)).
  split_and!; [done..|by apply identity_at| |].
  - rewrite prefix_matches_agrees; [by rewrite E1|done|split; by rewrite ?E1, ?E2|congruence].
  - unfold lo. rewrite <- Hfmt. by destruct (lower p).
Qed.

Lemma lower_length : zlen lo = digest_len (format x).
Proof using Hp Hfmt. unfold lo. rewrite <- Hfmt. apply Hp. Qed.

Lemma prefix_range_exact :
  exists a b, prefix_range x bs p = Some (Ok (a, b)) /\
    forall i id, 0 <= i < count x -> identity x bs i = Some id ->
    (prefix_matches p id = true <-> a <= i < b).
Proof using Hbytes HO HV Hp Hpad H4 Hfmt.
  pose proof lower_length as Hll. pose proof (digest_len_pos (format x)).
  destruct (id_head (lower p) (proj1 Hp)) as (first & rest & Hh & Hr). fold lo in Hh.
  unfold prefix_range. fold lo. rewrite Hh. cbn [head ok_or rbind].
  destruct (bucket_bounds bs x HO first Hr) as (low & high & -> & -> & Hlow & Hhigh & Eh & El). cbn [rbind].
  rewrite (narrow_partition bs x HO) by lia. cbn [mbind option_bind].
  set (below_ := fun middle : Z => match identity x bs middle with Some id => _ | None => false end).
  set (matching := fun middle : Z => match identity x bs middle with Some id => prefix_matches p id | None => false end).
  assert (forall i j a b, 0 <= i < j -> j < count x -> name_at x bs i = Some a -> name_at x bs j = Some b ->
    bytes_cmp a b = Lt) as Hlt by (intros; by eapply (names_lt bs x names HV)).
  destruct (partition_point_spec (Z.to_nat (high - low)) below_ low high) as (Hs & Hs1 & Hs2); [lia..| |].
  { intros i j Hi Hj. destruct (position_name i ltac:(lia)) as (ni & Hni & _ & _ & Hii & _ & Hci).
    destruct (position_name j ltac:(lia)) as (nj & Hnj & _ & _ & Hij & _ & Hcj).
    unfold below_. rewrite Hii, Hij, Hci, Hcj. pose proof (Hlt i j _ _ ltac:(lia) ltac:(lia) Hni Hnj) as HL.
    destruct (bytes_cmp nj lo) eqn:E; try done. intros _. by rewrite (bytes_cmp_lt_trans _ _ _ HL E). }
  set (start := partition_point _ below_ low high) in *.
  destruct (partition_point_spec (Z.to_nat (high - start)) matching start high) as (Hb & Hb1 & Hb2); [lia..| |].
  { intros i j Hi Hj. destruct (position_name i ltac:(lia)) as (ni & Hni & Hzi & _ & Hii & Hmi & Hci).
    destruct (position_name j ltac:(lia)) as (nj & Hnj & Hzj & _ & Hij & Hmj & _).
    unfold matching. rewrite Hii, Hij, Hmi, Hmj. pose proof (Hlt i j _ _ ltac:(lia) ltac:(lia) Hni Hnj) as HL.
    specialize (Hs2 i ltac:(lia)). unfold below_ in Hs2. rewrite Hii, Hci in Hs2. destruct Hp as [_ [? ?]].
    apply agrees_between; [lia|unfold zlen in *; lia..|rewrite Hll, <- Hfmt; lia| |congruence].
    intros E. apply bytes_cmp_gt_lt in E. by rewrite E in Hs2. }
  exists start, (partition_point (Z.to_nat (high - start)) matching start high).
  rewrite (narrow_partition bs x HO) by lia. split; [done|].
  intros i id Hi Hid. destruct (position_name i Hi) as (ni & Hni & Hzi & Hoki & Hii & Hmi & Hci). split.
  - intros Hm. rewrite Hii in Hid. injection Hid as <-. pose proof (proj1 Hmi Hm) as HA.
    assert (exists r, ni = first :: r) as [r Er].
    { destruct HA as [Ht _]. assert (2 <= digits p / 2) by (Z.div_mod_to_equations; lia).
      destruct (Z.to_nat (digits p / 2)) as [|n] eqn:En; [lia|]. rewrite Hh in Ht. destruct ni; [done|].
      injection Ht as <- _. eauto. }
    rewrite Er in Hni. pose proof (name_in_bucket bs x names Hbytes HV i first r low high Hi Hr Hni El Eh) as Hin.
    destruct (decide (i < start)) as [Hlts|].
    + exfalso. specialize (Hs1 i ltac:(lia)). unfold below_ in Hs1. rewrite Hii, Hci in Hs1.
      apply (agrees_lower p ni Hp Hpad Hoki); [fold lo; lia|done|]. fold lo. apply bytes_cmp_gt_lt.
      by destruct (bytes_cmp ni lo).
    + destruct (decide (i < partition_point (Z.to_nat (high - start)) matching start high)); [lia|].
      specialize (Hb2 i ltac:(lia)). unfold matching in Hb2. rewrite Hii in Hb2. congruence.
  - intros Hin. specialize (Hb1 i Hin). unfold matching in Hb1. rewrite Hid in Hb1. done.
Qed.
End Prefix.

(** Abbreviation lookup is exact on a validated index: [prefix_range] returns the
    range of exactly the positions whose identities the prefix matches, without panic. *)
Theorem prefix_range_correct f bs pe x x' p :
  bytes_ok bs -> parse f bs pe = Ok x -> validate bs x = (Ok tt, x') ->
  prefix_ok p -> prefix_padded p -> 4 <= digits p -> id_format (lower p) = f ->
  exists a b, prefix_range x bs p = Some (Ok (a, b)) /\
    forall i id, 0 <= i < count x -> identity x bs i = Some id ->
    (prefix_matches p id = true <-> a <= i < b).
Proof.
  intros Hb HP HV Hp Hpad H4 Hf. destruct (parse_opened _ _ _ _ Hb HP) as (HO & Hfmt & _).
  destruct (validate_validated _ _ _ (opened_count _ _ HO) HV) as [names Hnames].
  apply (prefix_range_exact bs x names p Hb HO Hnames Hp Hpad H4). congruence.
Qed.

Lemma prefix_range_correct_witness :
  let p := prefix_from_id (Sha1 (sample_name 3)) 5 in
  exists a b, prefix_range sample_index sample p = Some (Ok (a, b)) /\
    forall i id, 0 <= i < 2 -> identity sample_index sample i = Some id ->
    (prefix_matches p id = true <-> a <= i < b).
Proof.
  apply (prefix_range_correct FSha1 sample 100 sample_index
    {| format := FSha1; legacy := false; count := 2; large := 0; stray := false; pack_end := 100;
       pack_hash := Sha1 (replicate 20 9); cell := Some (Ok sample_order) |}).
  - exact sample_bytes_ok.
  - vm_compute. reflexivity.
  - vm_compute. reflexivity.
  - split; [split|]; [|done|done]. repeat (constructor; [split; [discriminate|reflexivity]|]). constructor.
  - exists 0. split; [done|]. split; [done|]. repeat constructor.
  - done.
  - done.
Defined.
End PackIndex.
