(* ===== verification/Identity.v ===== *)
(** * Commit identities ([src/src/commit/identity.rs], [Signature] of [src/src/commit.rs])

    Name, email and date of an author, committer or tagger: the borrowed view that
    reads any imported spelling, and the checked form that is written.  A date is
    kept at its widths: seconds in [i64], the HHMM zone in [i32], minutes in
    [i16]. *)

From stdpp Require Import base list numbers strings sets.
From Stdlib Require Import ZArith Lia.
From S2P Require Import Prelude Bytes Objects.

Module Identity.
Import Bytes Objects.

Inductive CommitError :=
| ObjectFormatMismatch (e : ObjectFormatError)
| MissingSeparator
| RequiredHeader
| InvalidObjectId
| InvalidSignature
| InvalidDate
| InvalidHeader.

(** [Signature]. *)
Record Signature := { name : bytes; email : bytes; seconds : Z; offset_minutes : Z }.

(** The types of the fields. *)
Definition i64_ok (z : Z) : Prop := - 2 ^ 63 <= z < 2 ^ 63.

(** [IdentityRef]. *)
Record IdentityRef := { id_name : bytes; id_email : bytes; date_bytes : bytes }.

(** [trim_ascii_start] and [trim_ascii_end]. *)
Fixpoint trim_start (l : bytes) : bytes :=
  match l with
  | b :: l' => if is_whitespace b then trim_start l' else l
  | [] => []
  end.
Definition trim_end (l : bytes) : bytes := reverse (trim_start (reverse l)).

(** [take_while(is_ascii_digit).count()]. *)
Fixpoint count_digits (l : bytes) : nat :=
  match l with
  | b :: l' => if is_digit b then S (count_digits l') else O
  | [] => O
  end.

Definition is_sign (b : option Z) : bool :=
  match b with Some b => (b =? 43) || (b =? 45) | None => false end.

(** [signed_decimal]. *)
Definition signed_decimal (bs : bytes) : option (bytes * bytes) :=
  let sign := if is_sign (head bs) then 1%nat else 0%nat in
  let digits := count_digits (drop sign bs) in
  if (0 <? digits)%nat then split_at_checked (Z.of_nat (sign + digits)) bs else None.

(** The value of decimal digits. *)
Definition digits_value (l : bytes) : Z := foldl (fun acc d => acc * 10 + (d - 48)) 0 l.

(** [str::parse] to a signed integer type with bounds [low] and [high]: an optional
    sign and at least one digit, [None] on anything else and on overflow. *)
Definition parse_signed (low high : Z) (text : bytes) : option Z :=
  let (negative, ds) := match text with
                        | 45 :: ds => (true, ds)
                        | 43 :: ds => (false, ds)
                        | _ => (false, text)
                        end in
  match ds with
  | [] => None
  | _ =>
      if forallb is_digit ds then
        let v := if negative then - digits_value ds else digits_value ds in
        if (low <=? v) && (v <=? high) then Some v else None
      else None
  end.

(** The [checked_mul], [checked_add] and [try_from] of a signed type. *)
Definition in_range (low high v : Z) : option Z :=
  if (low <=? v) && (v <? high) then Some v else None.

(** [IdentityRef::parse]. *)
Definition identity_parse (bs : bytes) : result CommitError IdentityRef :=
  let? (name, rest) := ok_or (split_once bs 60) InvalidSignature in
  let? (email, date_bytes) := ok_or (split_once rest 62) InvalidSignature in
  Ok {| id_name := trim_end name; id_email := email; date_bytes := date_bytes |}.

(** [date_parts]: seconds, minutes and the recorded HHMM value; [/] and [%] truncate
    toward zero. *)
Definition date_parts (x : IdentityRef) : result CommitError (Z * Z * Z) :=
  let bs := trim_start (date_bytes x) in
  let? (seconds, zone) := ok_or (signed_decimal bs) InvalidDate in
  let? seconds := ok_or (parse_signed (- 2 ^ 63) (2 ^ 63 - 1) seconds) InvalidDate in
  let zone := trim_start zone in
  if negb (is_sign (head zone)) then Err InvalidDate
  else
    let? (hhmm, _) := ok_or (signed_decimal zone) InvalidDate in
    let? hhmm := ok_or (parse_signed (- 2 ^ 31) (2 ^ 31 - 1) hhmm) InvalidDate in
    let? v := ok_or (in_range (- 2 ^ 31) (2 ^ 31) (Z.quot hhmm 100 * 60)) InvalidDate in
    let? v := ok_or (in_range (- 2 ^ 31) (2 ^ 31) (v + Z.rem hhmm 100)) InvalidDate in
    let? minutes := ok_or (in_range (- 2 ^ 15) (2 ^ 15) v) InvalidDate in
    Ok (seconds, minutes, hhmm).

Definition date (x : IdentityRef) : result CommitError (Z * Z) :=
  let? (seconds, minutes, _) := date_parts x in Ok (seconds, minutes).

(** [IdentityRef::signature]. *)
Definition signature (x : IdentityRef) : result CommitError Signature :=
  let? (s, m) := date x in
  Ok {| name := id_name x; email := id_email x; seconds := s; offset_minutes := m |}.

(** [Signature::parse]. *)
Definition signature_parse (bs : bytes) : result CommitError Signature :=
  let? x := identity_parse bs in signature x.

(** The test of one component in [Signature::validate]. *)
Definition bad_component (component : bytes) : bool :=
  match component with [] => true | _ => false end
  || existsb (fun byte => contains byte [0; 13; 10; 60; 62]) component
  || match head component with Some b => is_whitespace b | None => false end
  || match last component with Some b => is_whitespace b | None => false end.

(** [Signature::validate]. *)
Definition signature_validate (s : Signature) : result CommitError unit :=
  if bad_component (name s) || bad_component (email s) then Err InvalidSignature
  else if negb ((-1439 <=? offset_minutes s) && (offset_minutes s <=? 1439)) then Err InvalidDate
  else Ok tt.

(** [{}] of an [i64] and [{:02}] of a number below one hundred. *)
Definition signed_text (z : Z) : bytes := if z <? 0 then 45 :: decimal (- z) else decimal z.
Definition two_digits (n : Z) : bytes := [48 + n / 10; 48 + n mod 10].

(** The text after the key in [Signature::encode], without the final newline. *)
Definition signature_text (s : Signature) : bytes :=
  let offset := Z.abs (offset_minutes s) in
  let sign := if offset_minutes s <? 0 then 45 else 43 in
  name s ++ bstr " <" ++ email s ++ bstr "> " ++ signed_text (seconds s) ++ [32; sign] ++
  two_digits (offset / 60) ++ two_digits (offset mod 60).

(** [Signature::encode]. *)
Definition signature_encode (s : Signature) (key output : bytes) : bytes :=
  output ++ key ++ [32] ++ signature_text s ++ [10].

(** [sanitize] of [src/src/commit/signature.rs]. *)
Definition boundary (b : Z) : bool := is_whitespace b || contains b [34; 39; 44; 58; 59; 92].
Definition sanitize (bs : bytes) : bytes :=
  let bs := filter (fun b => negb (contains b [0; 13; 10; 60; 62]) = true) bs in
  let start := default (length bs) (position (fun b => negb (boundary b)) bs) in
  let end_ := match rposition (fun b => negb (boundary b)) bs with Some i => S i | None => start end in
  default [] (slice (Z.of_nat start) (Z.of_nat end_) bs).

(** ** Numbers *)

Lemma digits_value_app a b : digits_value (a ++ b) = digits_value a * 10 ^ zlen b + digits_value b.
Proof.
  unfold digits_value. rewrite foldl_app. set (x := foldl _ 0 a). clearbody x. revert x.
  induction b as [|d b IH] using rev_ind; intros x; [unfold zlen; simpl; lia|].
  rewrite !foldl_app, IH. simpl. rewrite zlen_app. change (zlen [d]) with 1.
  rewrite Z.pow_add_r by (lia || apply zlen_nonneg). lia.
Qed.

(** [decimal] of any number below ten to the fuel is read back. *)
Lemma decimal_digits_spec fuel n :
  0 <= n < 10 ^ Z.of_nat fuel -> forallb is_digit (decimal_digits fuel n) = true /\
  digits_value (decimal_digits fuel n) = n /\ ((0 < fuel)%nat -> decimal_digits fuel n <> []).
Proof.
  revert n; induction fuel as [|fuel IH]; intros n Hn; [|].
  { change (10 ^ Z.of_nat 0) with 1 in Hn. split_and!; [done|unfold digits_value; simpl; lia|lia]. }
  cbn [decimal_digits]. destruct (Z.ltb_spec n 10).
  - split_and!; [|unfold digits_value; simpl; lia|done]. simpl. unfold is_digit. zbool.
  - rewrite Nat2Z.inj_succ, Z.pow_succ_r in Hn by lia.
    destruct (IH (n / 10)) as (H1 & H2 & _); [Z.div_mod_to_equations; lia|].
    assert (0 <= n mod 10 < 10) by (apply Z.mod_pos_bound; lia).
    split_and!.
    + rewrite forallb_app, H1. simpl. unfold is_digit. zbool.
    + rewrite digits_value_app, H2. unfold digits_value, zlen. simpl. Z.div_mod_to_equations; lia.
    + intros _ E. by apply app_nil in E as [_ ?].
Qed.

Lemma decimal_spec n :
  0 <= n < 10 ^ 20 -> forallb is_digit (decimal n) = true /\ digits_value (decimal n) = n /\ decimal n <> [].
Proof. intros Hn. destruct (decimal_digits_spec 20 n Hn) as (H1 & H2 & H3). split_and!; auto with lia. Qed.

Lemma digit_not b : is_digit b = true -> b <> 43 /\ b <> 45 /\ is_whitespace b = false.
Proof.
  intros H. unfold is_digit in H. bool_prop. split_and!; [lia..|]. unfold is_whitespace.
  apply contains_false. rewrite !elem_of_cons, elem_of_nil. lia.
Qed.

Lemma count_digits_stop ds rest :
  forallb is_digit ds = true -> (forall b, head rest = Some b -> is_digit b = false) ->
  count_digits (ds ++ rest) = length ds.
Proof.
  intros H Hr. induction ds as [|d ds IH]; simpl in *.
  - destruct rest as [|b rest]; [done|]. simpl. by rewrite (Hr b eq_refl).
  - apply andb_prop in H as [-> H]. by rewrite IH.
Qed.

(** A signed number followed by a non-digit is split off and read back. *)
Lemma signed_decimal_text (sign : bytes) ds rest :
  (sign = [] \/ sign = [43] \/ sign = [45]) -> ds <> [] -> forallb is_digit ds = true ->
  (forall b, head rest = Some b -> is_digit b = false) ->
  signed_decimal (sign ++ ds ++ rest) = Some (sign ++ ds, rest).
Proof.
  intros Hs Hne Hd Hr. unfold signed_decimal.
  assert (is_sign (head (sign ++ ds ++ rest)) = negb (bool_decide (sign = []))) as ->.
  { destruct Hs as [-> |[-> | ->]]; [|done..]. destruct ds as [|d ds]; [done|]. simpl in *.
    apply andb_prop in Hd as [(H1 & H2 & _)%digit_not _]. zbool. }
  assert ((if negb (bool_decide (sign = [])) then 1%nat else 0%nat) = length sign) as ->
    by (destruct Hs as [-> |[-> | ->]]; done).
  rewrite drop_app_length, count_digits_stop by done.
  assert (0 < length ds)%nat by (destruct ds; [done|simpl; lia]).
  rewrite (proj2 (Nat.ltb_lt _ _)) by done.
  apply split_at_checked_Some. rewrite app_assoc. split; [done|]. unfold zlen. by rewrite length_app.
Qed.

Lemma parse_signed_text low high z :
  low <= z <= high -> Z.abs z < 10 ^ 20 -> parse_signed low high (signed_text z) = Some z.
Proof.
  intros Hz Ha. unfold parse_signed, signed_text. destruct (Z.ltb_spec z 0).
  - destruct (decimal_spec (- z)) as (H1 & H2 & H3); [lia|]. destruct (decimal (- z)) as [|d ds]; [done|].
    rewrite H1, H2. by rewrite (proj2 (Z.leb_le _ _)), (proj2 (Z.leb_le _ _)), Z.opp_involutive by lia.
  - destruct (decimal_spec z) as (H1 & H2 & H3); [lia|]. destruct (decimal z) as [|d ds]; [done|].
    assert (d <> 43 /\ d <> 45) as [? ?] by (simpl in H1; apply andb_prop in H1 as [(?&?&_)%digit_not _]; done).
    assert ((match d :: ds with 45 :: ds => (true, ds) | 43 :: ds => (false, ds) | _ => (false, d :: ds) end)
      = (false, d :: ds)) as ->. { repeat case_match; try done; lia. }
    rewrite H1, H2. by rewrite (proj2 (Z.leb_le _ _)), (proj2 (Z.leb_le _ _)) by lia.
Qed.

Lemma signed_text_split z :
  Z.abs z < 10 ^ 20 -> exists sign ds, signed_text z = sign ++ ds /\
    (sign = [] \/ sign = [43] \/ sign = [45]) /\ ds <> [] /\ forallb is_digit ds = true.
Proof.
  intros Hz. unfold signed_text. destruct (Z.ltb_spec z 0).
  - destruct (decimal_spec (- z)) as (H1 & _ & H3); [lia|]. exists [45], (decimal (- z)). auto.
  - destruct (decimal_spec z) as (H1 & _ & H3); [lia|]. exists [], (decimal z). auto.
Qed.

Lemma signed_text_head z rest :
  Z.abs z < 10 ^ 20 -> trim_start (signed_text z ++ rest) = signed_text z ++ rest.
Proof.
  intros (sign & ds & -> & [-> |[-> | ->]] & Hd & Hf)%signed_text_split; [|done..].
  destruct ds as [|d ds]; [done|]. simpl in *. apply andb_prop in Hf as [(_ & _ & Hw)%digit_not _].
  by rewrite Hw.
Qed.

Lemma two_digits_spec n :
  0 <= n < 100 -> forallb is_digit (two_digits n) = true /\ digits_value (two_digits n) = n.
Proof.
  intros Hn. assert (0 <= n / 10 < 10) by (Z.div_mod_to_equations; lia).
  assert (0 <= n mod 10 < 10) by (Z.div_mod_to_equations; lia).
  split; [|unfold digits_value; simpl; Z.div_mod_to_equations; lia].
  unfold two_digits. simpl. unfold is_digit.
  rewrite !(proj2 (Z.leb_le _ _)) by lia. done.
Qed.

(** The four digits of a zone and the sign are read back as HHMM. *)
Lemma parse_zone (negative : bool) h m :
  0 <= h < 100 -> 0 <= m < 100 ->
  parse_signed (- 2 ^ 31) (2 ^ 31 - 1) ((if negative then 45 else 43) :: two_digits h ++ two_digits m) =
  Some (if negative then - (h * 100 + m) else h * 100 + m).
Proof.
  intros Hh Hm. destruct (two_digits_spec h Hh) as [H1 H2], (two_digits_spec m Hm) as [H3 H4].
  assert (forallb is_digit (two_digits h ++ two_digits m) = true) as Hd by (by rewrite forallb_app, H1, H3).
  assert (digits_value (two_digits h ++ two_digits m) = h * 100 + m) as Hv.
  { rewrite digits_value_app, H2, H4. change (zlen (two_digits m)) with 2. lia. }
  unfold parse_signed. destruct negative; cbv beta iota; rewrite Hd, Hv;
    cbn [two_digits app]; by rewrite (proj2 (Z.leb_le _ _)), (proj2 (Z.leb_le _ _)) by lia.
Qed.

(** HHMM and minutes convert into each other without loss inside a day. *)
Lemma zone_minutes offset :
  -1439 <= offset <= 1439 ->
  let o := Z.abs offset in
  let hhmm := if offset <? 0 then - (o / 60 * 100 + o mod 60) else o / 60 * 100 + o mod 60 in
  Z.quot hhmm 100 * 60 = (if offset <? 0 then - (o / 60 * 60) else o / 60 * 60) /\
  Z.quot hhmm 100 * 60 + Z.rem hhmm 100 = offset.
Proof.
  intros Ho o hhmm. assert (0 <= o < 1440) by (subst o; lia).
  assert (0 <= o / 60 < 24) by (Z.div_mod_to_equations; lia).
  assert (0 <= o mod 60 < 60) by (Z.div_mod_to_equations; lia).
  assert (o = o / 60 * 60 + o mod 60) by (Z.div_mod_to_equations; lia).
  set (h := o / 60) in *. set (m := o mod 60) in *.
  assert (Z.quot (h * 100 + m) 100 = h) by (rewrite Z.quot_div_nonneg by lia; Z.div_mod_to_equations; lia).
  assert (Z.rem (h * 100 + m) 100 = m) by (rewrite Z.rem_mod_nonneg by lia; Z.div_mod_to_equations; lia).
  subst hhmm. destruct (Z.ltb_spec offset 0); [rewrite Z.quot_opp_l, Z.rem_opp_l by lia|]; subst o; lia.
Qed.

Lemma in_range_ok low high v : low <= v < high -> in_range low high v = Some v.
Proof. intros. unfold in_range. by rewrite (proj2 (Z.leb_le _ _)), (proj2 (Z.ltb_lt _ _)) by lia. Qed.

Lemma bad_component_false c :
  bad_component c = false <->
  c <> [] /\ Forall (fun b => contains b [0; 13; 10; 60; 62] = false) c /\
  (forall b, head c = Some b -> is_whitespace b = false) /\
  (forall b, last c = Some b -> is_whitespace b = false).
Proof.
  unfold bad_component. rewrite !orb_false_iff.
  assert (existsb (fun byte => contains byte [0; 13; 10; 60; 62]) c = false <->
    Forall (fun b => contains b [0; 13; 10; 60; 62] = false) c) as ->.
  { induction c as [|x c IH]; simpl; [by split|]. rewrite orb_false_iff, IH, Forall_cons. done. }
  destruct c as [|x c]; simpl; [naive_solver|]. destruct (last (x :: c)); naive_solver.
Qed.

Lemma component_not_in c b :
  Forall (fun b => contains b [0; 13; 10; 60; 62] = false) c -> contains b [0; 13; 10; 60; 62] = true -> b ∉ c.
Proof. intros Hc Hb Hin. rewrite Forall_forall in Hc. specialize (Hc _ Hin). cbv beta in Hc. congruence. Qed.

Lemma trim_end_spaced c :
  c <> [] -> (forall b, last c = Some b -> is_whitespace b = false) -> trim_end (c ++ [32]) = c.
Proof.
  intros Hne Hl. unfold trim_end. rewrite reverse_app. simpl.
  destruct c as [|b c' _] using rev_ind; [done|]. rewrite last_snoc in Hl.
  rewrite reverse_app. simpl. rewrite (Hl b eq_refl). rewrite <- (reverse_involutive (c' ++ [b])).
  by rewrite (reverse_app c').
Qed.

(** The date part of a written signature. *)
Definition date_text (secs minutes : Z) : bytes :=
  signed_text secs ++ [32; if minutes <? 0 then 45 else 43] ++
  two_digits (Z.abs minutes / 60) ++ two_digits (Z.abs minutes mod 60).

Lemma date_text_parse n e secs minutes :
  i64_ok secs -> -1439 <= minutes <= 1439 ->
  date {| id_name := n; id_email := e; date_bytes := 32 :: date_text secs minutes |} = Ok (secs, minutes).
Proof.
  unfold i64_ok. intros HS HM. assert (Z.abs secs < 10 ^ 20) as Ha by lia.
  unfold date, date_parts, date_text. cbn [date_bytes].
  set (sg := if minutes <? 0 then 45 else 43). set (off := Z.abs minutes).
  set (zone := two_digits (off / 60) ++ two_digits (off mod 60)).
  change (trim_start (32 :: ?x)) with (trim_start x). rewrite signed_text_head by done.
  assert (signed_decimal (signed_text secs ++ [32; sg] ++ zone) = Some (signed_text secs, 32 :: sg :: zone)) as ->.
  { destruct (signed_text_split _ Ha) as (sign & ds & -> & Hs & Hd & Hf). rewrite <- app_assoc.
    apply signed_decimal_text; [done..|]. intros b [= <-]. done. }
  cbn [rbind ok_or]. rewrite parse_signed_text by lia. cbn [rbind ok_or].
  assert (trim_start (32 :: sg :: zone) = sg :: zone) as -> by (subst sg; by case_match).
  assert (is_sign (head (sg :: zone)) = true) as -> by (subst sg; by case_match). cbn [negb].
  assert (0 <= off / 60 < 100) by (Z.div_mod_to_equations; lia).
  assert (0 <= off mod 60 < 100) by (Z.div_mod_to_equations; lia).
  assert (signed_decimal (sg :: zone) = Some (sg :: zone, [])) as ->.
  { pose proof (signed_decimal_text [sg] zone []) as HZ. rewrite app_nil_r in HZ. apply HZ; [|done|subst zone|done].
    - subst sg; case_match; auto.
    - rewrite forallb_app. by rewrite !(fun n H => proj1 (two_digits_spec n H)) by done. }
  cbn [rbind ok_or]. subst sg zone. rewrite parse_zone by done. cbn [rbind ok_or].
  destruct (zone_minutes minutes HM) as [E1 E2]. fold off in E1, E2. rewrite E1 in *.
  rewrite in_range_ok by (assert (0 <= off / 60 * 60 <= 1440) by (Z.div_mod_to_equations; lia); case_match; lia).
  cbn [rbind ok_or]. rewrite E2, in_range_ok by lia. cbn [rbind ok_or]. by rewrite in_range_ok by lia.
Qed.

Lemma signature_validate_Ok s :
  signature_validate s = Ok tt <->
  bad_component (name s) = false /\ bad_component (email s) = false /\ -1439 <= offset_minutes s <= 1439.
Proof.
  unfold signature_validate. destruct (bad_component (name s)), (bad_component (email s)); simpl; try naive_solver.
  zbool; naive_solver lia.
Qed.

Lemma signature_text_date s :
  signature_text s = (name s ++ [32]) ++ 60 :: email s ++ 62 :: 32 :: date_text (seconds s) (offset_minutes s).
Proof. unfold signature_text, date_text. by rewrite <- !app_assoc. Qed.

(** The written form of a valid signature is read back exactly. *)
Lemma signature_text_parse s :
  signature_validate s = Ok tt -> i64_ok (seconds s) ->
  exists x, identity_parse (signature_text s) = Ok x /\ signature x = Ok s.
Proof.
  intros (Hn & He & HM)%signature_validate_Ok HS.
  apply bad_component_false in Hn as (Hn0 & HnF & _ & HnL), He as (_ & HeF & _ & _).
  rewrite signature_text_date. unfold identity_parse.
  rewrite split_once_app by (rewrite not_elem_of_app; split; [by eapply component_not_in|set_solver]).
  cbn [rbind ok_or]. rewrite split_once_app by (by eapply component_not_in). cbn [rbind ok_or].
  rewrite trim_end_spaced by done. eexists. split; [done|]. unfold signature.
  rewrite date_text_parse by done. by destruct s.
Qed.

(** A valid signature is one line of text. *)
Lemma digits_no_newline ds : forallb is_digit ds = true -> 10 ∉ ds.
Proof.
  intros H Hin. rewrite List.forallb_forall in H. apply list_elem_of_In in Hin. by apply H in Hin.
Qed.

Lemma signature_text_line s :
  signature_validate s = Ok tt -> i64_ok (seconds s) -> 10 ∉ signature_text s.
Proof.
  intros (Hn & He & HM)%signature_validate_Ok HS. unfold i64_ok in HS.
  apply bad_component_false in Hn as (_ & HnF & _), He as (_ & HeF & _).
  pose proof (component_not_in _ 10 HnF eq_refl). pose proof (component_not_in _ 10 HeF eq_refl).
  destruct (signed_text_split (seconds s)) as (sg & ds & E & Hs & _ & Hd%digits_no_newline); [lia|].
  rewrite signature_text_date. unfold date_text. rewrite E. set (off := Z.abs _).
  assert (0 <= off / 60 < 100) by (Z.div_mod_to_equations; lia).
  assert (0 <= off mod 60 < 100) by (Z.div_mod_to_equations; lia).
  pose proof (digits_no_newline _ (proj1 (two_digits_spec (off / 60) ltac:(done)))).
  pose proof (digits_no_newline _ (proj1 (two_digits_spec (off mod 60) ltac:(done)))).
  repeat (rewrite not_elem_of_app || rewrite not_elem_of_cons); split_and!; try done; try set_solver.
  all: try (by destruct Hs as [-> |[-> | ->]]; set_solver). by case_match.
Qed.

(** A signature that passes [Signature::validate] is parsed back from the line
    [Signature::encode] writes for it to the same name, email, seconds and offset,
    over the whole [i64] range of seconds and every offset of less than a day in
    either direction; the line is a single line. *)
Theorem signature_roundtrip s :
  signature_validate s = Ok tt -> i64_ok (seconds s) ->
  exists text, signature_encode s (bstr "author") [] = bstr "author " ++ text ++ [10] /\
    10 ∉ text /\ signature_parse text = Ok s.
Proof.
  intros HV HS. exists (signature_text s). split_and!; [done|by apply signature_text_line|].
  destruct (signature_text_parse s HV HS) as (x & E & Ex). unfold signature_parse. by rewrite E.
Qed.

Lemma signature_roundtrip_witness :
  let s := {| name := bstr "A. Writer"; email := bstr "a@example.com"; seconds := - 2 ^ 63; offset_minutes := -90 |} in
  exists text, signature_encode s (bstr "author") [] = bstr "author " ++ text ++ [10] /\
    10 ∉ text /\ signature_parse text = Ok s.
Proof. intros s. apply (signature_roundtrip s); [by vm_compute|by unfold i64_ok; subst s; simpl]. Defined.
End Identity.
