(* ===== verification/Lines.v ===== *)
(** * Physical lines of object payloads

    Commits and tags are header lines, an empty line and a message.  This file has
    the line iterators their parsers use ([split_inclusive], [split]) and the two
    ways the repository finds the end of the headers, the scan of [header_end]
    ([src/src/commit.rs]) and [windows(2).position(..)] ([src/src/tag.rs]), which
    are proved to agree. *)

From stdpp Require Import base list numbers strings sets.
From Stdlib Require Import ZArith Lia.
From S2P Require Import Prelude Bytes.

Module Lines.

(** [l.split_inclusive(|b| *b == d)]: the pieces with their delimiters. *)
Fixpoint split_inclusive (d : Z) (l : bytes) : list bytes :=
  match l with
  | [] => []
  | x :: l' =>
      if x =? d then [x] :: split_inclusive d l'
      else match split_inclusive d l' with
           | p :: ps => (x :: p) :: ps
           | [] => [[x]]
           end
  end.

(** [payload.windows(2).position(|p| p == b"\n\n")]. *)
Fixpoint blank_at (l : bytes) : option nat :=
  match l with
  | x :: (y :: _) as l' =>
      if (x =? 10) && (y =? 10) then Some O else S <$> blank_at l'
  | _ => None
  end.

(** [header_end]: each iteration moves past one newline, so the length bounds their
    number. *)
Fixpoint header_end_from (fuel : nat) (payload : bytes) (start : Z) : Z :=
  match fuel with
  | O => zlen payload
  | S fuel =>
      match slice start (zlen payload) payload with
      | None => zlen payload
      | Some rest =>
          match position (fun byte => byte =? 10) rest with
          | None => zlen payload
          | Some newline =>
              let at_ := start + Z.of_nat newline in
              match zget (at_ + 1) payload with
              | Some byte => if byte =? 10 then at_ else header_end_from fuel payload (at_ + 1)
              | None => header_end_from fuel payload (at_ + 1)
              end
          end
      end
  end.
Definition header_end (payload : bytes) : Z := header_end_from (S (length payload)) payload 0.

(** ** Lines of text *)

(** The text of terminated lines. *)
Definition unlines (ls : list bytes) : bytes := concat (map (fun l => l ++ [10]) ls).

(** A header line: not empty, no newline. *)
Definition line_ok (l : bytes) : Prop := l <> [] /\ 10 ∉ l.

Lemma unlines_app a b : unlines (a ++ b) = unlines a ++ unlines b.
Proof. unfold unlines. by rewrite map_app, concat_app. Qed.

Lemma unlines_cons l ls : unlines (l :: ls) = l ++ 10 :: unlines ls.
Proof. unfold unlines. simpl. by rewrite <- app_assoc. Qed.

Lemma split_inclusive_line d a b : d ∉ a -> split_inclusive d (a ++ d :: b) = (a ++ [d]) :: split_inclusive d b.
Proof.
  induction a as [|x a IH]; simpl; intros H; [by rewrite Z.eqb_refl|].
  destruct (Z.eqb_spec x d) as [-> |]; [set_solver|]. rewrite IH; [done|set_solver].
Qed.

Lemma split_inclusive_nil d l : split_inclusive d l = [] <-> l = [].
Proof.
  destruct l as [|x l]; simpl; [done|]. destruct (x =? d); [done|]. by destruct (split_inclusive d l).
Qed.

Lemma split_inclusive_concat d l : concat (split_inclusive d l) = l.
Proof.
  induction l as [|x l IH]; simpl; [done|]. destruct (x =? d); simpl; [by rewrite IH|].
  destruct (split_inclusive d l); simpl in *; by rewrite <- IH.
Qed.

(** Every piece but an unterminated last one is a line and its newline. *)
Lemma split_inclusive_pieces d l :
  Forall (fun p => p <> [] /\ d ∉ removelast p) (split_inclusive d l).
Proof.
  induction l as [|x l IH]; simpl; [constructor|]. destruct (Z.eqb_spec x d) as [-> |Hne].
  - constructor; [|done]. split; [done|]. simpl. set_solver.
  - destruct (split_inclusive d l) as [|p ps]; [repeat constructor; [done|]; simpl; set_solver|].
    apply Forall_cons in IH as [[Hp Hd] IH]. constructor; [|done]. split; [done|].
    destruct p; [done|]. change (d ∉ x :: removelast (z :: p)). set_solver.
Qed.

Lemma split_inclusive_unlines ls rest :
  Forall line_ok ls -> split_inclusive 10 (unlines ls ++ rest) = map (fun l => l ++ [10]) ls ++ split_inclusive 10 rest.
Proof.
  induction 1 as [|l ls [_ Hl] _ IH]; [done|]. cbn [unlines map concat].
  rewrite <- !app_assoc. cbn [app]. rewrite split_inclusive_line by done. f_equal. exact IH.
Qed.

(** Lines joined with newlines, and splitting them again. *)
Lemma split_on_lines ls rest :
  Forall line_ok ls -> split_on 10 (unlines ls ++ rest) = ls ++ split_on 10 rest.
Proof.
  induction 1 as [|l ls [_ Hl] _ IH]; [done|]. cbn [unlines map concat].
  rewrite <- !app_assoc. cbn [app]. rewrite split_on_app by done. f_equal. exact IH.
Qed.

(** ** The end of the headers *)

Lemma slice_tail {A} (pre l : list A) a : zlen pre = a -> slice a (zlen (pre ++ l)) (pre ++ l) = Some l.
Proof. intros <-. apply slice_app. exists pre, []. rewrite app_nil_r. split; [done|]. zlia. Qed.

Lemma blank_at_skip a l :
  10 ∉ a -> blank_at (a ++ l) = (fun i => length a + i)%nat <$> blank_at l.
Proof.
  induction a as [|x a IH]; intros Ha; [cbn [app length]; by destruct (blank_at l)|].
  assert (x <> 10 /\ 10 ∉ a) as [Hx Ha'] by set_solver. specialize (IH Ha').
  assert (blank_at (x :: a ++ l) = S <$> blank_at (a ++ l)) as E.
  { cbn [blank_at]. destruct (a ++ l); [done|]. apply Z.eqb_neq in Hx. by rewrite Hx. }
  cbn [app length]. rewrite E, IH. by destruct (blank_at l).
Qed.

Lemma blank_at_newline l :
  blank_at (10 :: l) = match l with
                       | [] => None
                       | y :: _ => if y =? 10 then Some O else S <$> blank_at l
                       end.
Proof. by destruct l. Qed.

(** The scan from newline to newline finds the first empty line. *)
Lemma header_end_from_spec fuel pre l :
  (length l < fuel)%nat ->
  header_end_from fuel (pre ++ l) (zlen pre) =
  match blank_at l with Some i => zlen pre + Z.of_nat i | None => zlen (pre ++ l) end.
Proof.
  revert pre l; induction fuel as [|fuel IH]; intros pre l Hf; [lia|]. cbn [header_end_from].
  assert (slice (zlen pre) (zlen (pre ++ l)) (pre ++ l) = Some l) as ->.
  { by apply slice_tail. }
  destruct (position _ l) as [i|] eqn:E.
  - apply position_Some in E as (a & x & b & -> & <- & ->%Z.eqb_eq & Ha%Bytes.neq_Forall).
    rewrite blank_at_skip, blank_at_newline by done. fold (zlen a).
    assert (zget (zlen pre + zlen a + 1) (pre ++ a ++ 10 :: b) = head b) as ->.
    { unfold zget. rewrite (proj2 (Z.leb_le _ _)) by zlia.
      replace (Z.to_nat (zlen pre + zlen a + 1)) with (length (pre ++ a ++ [10%Z]) + 0)%nat
        by (rewrite !length_app; unfold zlen; simpl; lia).
      replace (pre ++ a ++ 10 :: b) with ((pre ++ a ++ [10]) ++ b) by (by rewrite <- !app_assoc).
      rewrite lookup_app_r, Nat.add_0_r, Nat.sub_diag by lia. by destruct b. }
    assert (header_end_from fuel (pre ++ a ++ 10 :: b) (zlen pre + zlen a + 1) =
      match blank_at b with Some i => zlen pre + zlen a + 1 + Z.of_nat i | None => zlen (pre ++ a ++ 10 :: b) end) as HI.
    { specialize (IH (pre ++ a ++ [10]) b). rewrite <- !app_assoc in IH. cbn [app] in IH.
      replace (zlen (pre ++ a ++ [10])) with (zlen pre + zlen a + 1) in IH by zlia.
      apply IH. rewrite length_app in Hf. simpl in Hf. lia. }
    destruct b as [|y b]; cbn [head]; [rewrite HI; done|].
    destruct (y =? 10); [cbn; unfold zlen; lia|]. rewrite HI.
    destruct (blank_at (y :: b)) as [j|]; [cbn; unfold zlen; lia|done].
  - apply position_None, Bytes.neq_Forall in E. replace l with (l ++ []) at 2 by apply app_nil_r.
    by rewrite blank_at_skip by done.
Qed.

Lemma header_end_spec payload :
  header_end payload = match blank_at payload with Some i => Z.of_nat i | None => zlen payload end.
Proof. apply (header_end_from_spec (S (length payload)) [] payload). lia. Qed.

Lemma unlines_head ls rest :
  Forall line_ok ls -> ls <> [] -> exists y t, unlines ls ++ rest = y :: t /\ (y =? 10) = false.
Proof.
  intros H Hne. destruct ls as [|l ls]; [done|]. apply Forall_cons in H as [[Hl0 Hl] _].
  destruct l as [|y l]; [done|]. eexists y, _. split; [done|]. apply Z.eqb_neq. set_solver.
Qed.

(** Header lines followed by an empty line end one byte before it. *)
Lemma blank_at_unlines ls l rest :
  Forall line_ok (ls ++ [l]) -> blank_at (unlines (ls ++ [l]) ++ 10 :: rest) = Some (length (unlines ls ++ l)).
Proof.
  intros H. induction ls as [|m ls IH].
  - apply Forall_cons in H as [[_ Hl] _].
    cbn [unlines map concat app]. rewrite app_nil_r, <- !app_assoc, blank_at_skip by done. simpl. f_equal. lia.
  - apply Forall_cons in H as [[Hm0 Hm] H]. specialize (IH H).
    change (unlines ((m :: ls) ++ [l])) with ((m ++ [10]) ++ unlines (ls ++ [l])).
    change (unlines (m :: ls)) with ((m ++ [10]) ++ unlines ls).
    rewrite <- !app_assoc, blank_at_skip by done. cbn [app]. rewrite blank_at_newline.
    destruct (unlines_head (ls ++ [l]) (10 :: rest) H) as (y & t & E & Hy); [by destruct ls|].
    rewrite E in *. rewrite Hy, IH. simpl. f_equal. rewrite !length_app. simpl. rewrite !length_app. lia.
Qed.

(** A payload of header lines, an empty line and a message, split as the readers
    split it. *)
Lemma header_split ls message :
  Forall line_ok ls -> ls <> [] ->
  let payload := unlines ls ++ 10 :: message in
  exists headers, slice 0 (header_end payload) payload = Some headers /\ split_on 10 headers = ls /\
    slice (header_end payload + 2) (zlen payload) payload = Some message /\ header_end payload + 2 <= zlen payload.
Proof.
  intros HF Hne payload. destruct ls as [|l ls _] using rev_ind; [done|].
  pose proof (blank_at_unlines ls l message HF) as HB. fold payload in HB.
  assert (payload = (unlines ls ++ l) ++ [10; 10] ++ message) as EP.
  { subst payload. rewrite unlines_app. cbn [unlines map concat]. by rewrite app_nil_r, <- !app_assoc. }
  rewrite header_end_spec, HB, EP. fold (zlen (unlines ls ++ l)). exists (unlines ls ++ l). split_and!.
  - apply (slice_mid []); [done|]. lia.
  - apply Forall_app in HF as [HF [[_ Hl] _]%Forall_cons]. by rewrite split_on_lines, split_on_single by done.
  - rewrite app_assoc. apply slice_tail. zlia.
  - zlia.
Qed.
End Lines.
