(* ===== verification/Commits.v ===== *)
(** * Commits ([src/src/commit.rs], [src/src/commit/payload.rs], [src/src/commit/builder.rs])

    A commit is kept as its exact payload with the decoded tree and parents.  The
    graph records are decoded by a fixed-width fast path and, when that declines,
    by a general line parser; people, extra headers and the message are read from
    the header lines on demand.  [CommitPayload] is the borrowed view used to list
    headers and to remove a signature, [CommitBuilder] the construction with an
    external signer, which is a parameter. *)

From stdpp Require Import base list numbers strings sets sorting.
From Stdlib Require Import ZArith Lia.
From S2P Require Import Prelude Bytes Objects Identity Lines.

Module Commits.
Import Bytes Objects Identity Lines.

(** [CommitHeader], [CommitFields] and [Commit]. *)
Record CommitHeader := { header_name : bytes; header_value : bytes }.

Record CommitFields := {
  tree : ObjectId;
  parents : list ObjectId;
  author : Signature;
  committer : Signature;
  extra_headers : list CommitHeader;
  message : bytes
}.

Record Commit := {
  c_tree : ObjectId;
  c_parents : list ObjectId;
  payload : bytes;
  c_header_end : Z
}.

Definition reserved (name : bytes) : bool :=
  bytes_eqb name (bstr "tree") || bytes_eqb name (bstr "parent") ||
  bytes_eqb name (bstr "author") || bytes_eqb name (bstr "committer").

(** [(b'!'..=b'~').contains(byte)]. *)
Definition printable (byte : Z) : bool := (33 <=? byte) && (byte <=? 126).

Definition is_nil (l : bytes) : bool := match l with [] => true | _ => false end.

(** [validate_header_name]. *)
Definition validate_header_name (name : bytes) : result CommitError unit :=
  if is_nil name || negb (forallb printable name) || reserved name then Err InvalidHeader
  else Ok tt.

(** The loops of [CommitFields::validate]. *)
Fixpoint check_parents (f : ObjectFormat) (ps : list ObjectId) : result CommitError unit :=
  match ps with
  | [] => Ok tt
  | p :: ps =>
      let? _ := map_err ObjectFormatMismatch (require_format p f) in
      check_parents f ps
  end.
Fixpoint check_headers (hs : list CommitHeader) : result CommitError unit :=
  match hs with
  | [] => Ok tt
  | h :: hs =>
      let? _ := validate_header_name (header_name h) in
      if contains 0 (header_value h) || contains 13 (header_value h) then Err InvalidHeader
      else check_headers hs
  end.

(** [CommitFields::validate]. *)
Definition fields_validate (x : CommitFields) : result CommitError unit :=
  let? _ := check_parents (id_format (tree x)) (parents x) in
  let? _ := signature_validate (author x) in
  let? _ := signature_validate (committer x) in
  check_headers (extra_headers x).

(** The text of one extra header in [Commit::new]: a continuation space after every
    newline of the value. *)
Fixpoint continuation (lines : list bytes) : bytes :=
  match lines with
  | [] => []
  | line :: lines => [10; 32] ++ line ++ continuation lines
  end.
Definition encode_header (h : CommitHeader) : bytes :=
  header_name h ++ [32] ++
  match split_on 10 (header_value h) with
  | line :: lines => line ++ continuation lines
  | [] => []
  end ++ [10].

(** [Commit::new]. *)
Definition commit_new (x : CommitFields) : result CommitError Commit :=
  let? _ := fields_validate x in
  let p := bstr "tree " ++ to_string (tree x) ++ [10] in
  let p := foldl (fun p parent => p ++ bstr "parent " ++ to_string parent ++ [10]) p (parents x) in
  let p := signature_encode (author x) (bstr "author") p in
  let p := signature_encode (committer x) (bstr "committer") p in
  let p := foldl (fun p h => p ++ encode_header h) p (extra_headers x) in
  let p := p ++ [10] in
  let p := p ++ message x in
  Ok {| c_tree := tree x; c_parents := parents x; c_header_end := header_end p; payload := p |}.

(** [required_line]. *)
Definition required_line (line : option bytes) (prefix : bytes) : result CommitError bytes :=
  ok_or (match line with Some line => strip_prefix prefix line | None => None end) RequiredHeader.

(** [parse_id]. *)
Definition parse_id (f : ObjectFormat) (value : bytes) : result CommitError ObjectId :=
  if negb (zlen value =? digest_len f * 2) then Err InvalidObjectId
  else match from_str value with Ok id => Ok id | Err _ => Err InvalidObjectId end.

(** The closure [record] and the loop of [fixed_width_graph]; every iteration
    consumes a record, so the length bounds their number. *)
Definition record (f : ObjectFormat) (rest prefix : bytes) : option ObjectId :=
  let width := digest_len f * 2 in
  match strip_prefix prefix rest with
  | None => None
  | Some id =>
      match zget width id with
      | Some byte =>
          if byte =? 10 then
            match slice 0 width id with
            | None => None
            | Some digits => match parse_id f digits with Ok id => Some id | Err _ => None end
            end
          else None
      | None => None
      end
  end.

Fixpoint fixed_parents (fuel : nat) (f : ObjectFormat) (rest : bytes) : option (list ObjectId * bytes) :=
  let width := digest_len f * 2 in
  if (width + 8 <=? zlen rest) && starts_with (bstr "parent ") rest then
    match fuel with
    | O => None
    | S fuel =>
        match record f rest (bstr "parent ") with
        | None => None
        | Some parent =>
            match slice (7 + width + 1) (zlen rest) rest with
            | None => None
            | Some rest =>
                match fixed_parents fuel f rest with
                | None => None
                | Some (parents, rest) => Some (parent :: parents, rest)
                end
            end
        end
    end
  else Some ([], rest).

(** [fixed_width_graph]. *)
Definition fixed_width_graph (f : ObjectFormat) (p : bytes) : option (ObjectId * list ObjectId) :=
  let width := digest_len f * 2 in
  match record f p (bstr "tree ") with
  | None => None
  | Some tree =>
      match slice (5 + width + 1) (zlen p) p with
      | None => None
      | Some rest =>
          match fixed_parents (length rest) f rest with
          | None => None
          | Some (parents, rest) => if is_nil rest then None else Some (tree, parents)
          end
      end
  end.

(** The loop of the general parser: the parents and the lines left. *)
Fixpoint parent_lines (f : ObjectFormat) (remaining : Z) (lines : list bytes)
  : result CommitError (list ObjectId * list bytes) :=
  match lines with
  | [] => Ok ([], [])
  | line :: rest =>
      if (digest_len f * 2 + 8 <=? remaining) && starts_with (bstr "parent ") line then
        let? value := required_line (strip_suffix [10] line) (bstr "parent ") in
        let? parent := parse_id f value in
        let? (parents, others) := parent_lines f (remaining - zlen line) rest in
        Ok (parent :: parents, others)
      else Ok ([], lines)
  end.

(** The general path of [Commit::parse_graph]. *)
Definition general_graph (f : ObjectFormat) (p : bytes) : result CommitError (ObjectId * list ObjectId) :=
  match split_inclusive 10 p with
  | [] => Err RequiredHeader
  | first :: lines =>
      let? value := required_line (strip_suffix [10] first) (bstr "tree ") in
      let? tree := parse_id f value in
      let? (parents, others) := parent_lines f (zlen p - zlen first) lines in
      match others with
      | [] => Err RequiredHeader
      | _ => Ok (tree, parents)
      end
  end.

(** [Commit::parse_graph]. *)
Definition parse_graph (f : ObjectFormat) (p : bytes) : result CommitError (ObjectId * list ObjectId) :=
  match fixed_width_graph f p with
  | Some graph => Ok graph
  | None => general_graph f p
  end.

(** [Commit::parse]. *)
Definition commit_parse (f : ObjectFormat) (p : bytes) : result CommitError Commit :=
  let? (tree, parents) := parse_graph f p in
  Ok {| c_tree := tree; c_parents := parents; c_header_end := header_end p; payload := p |}.

(** [header_bytes] and [message]. *)
Definition header_bytes (c : Commit) : bytes := default [] (slice 0 (c_header_end c) (payload c)).
Definition commit_message (c : Commit) : bytes :=
  default [] (slice (c_header_end c + 2) (zlen (payload c)) (payload c)).

(** [person]: the last line with the prefix. *)
Definition person (c : Commit) (prefix : bytes) : result CommitError (option IdentityRef) :=
  match last (omap (strip_prefix prefix) (split_on 10 (header_bytes c))) with
  | None => Ok None
  | Some line => let? x := identity_parse line in Ok (Some x)
  end.
Definition commit_author (c : Commit) := person c (bstr "author ").
Definition commit_committer (c : Commit) := person c (bstr "committer ").

(** [extra_headers.last_mut()] with the continuation appended. *)
Definition extend_last (hs : list CommitHeader) (value : bytes) : list CommitHeader :=
  alter (fun h => {| header_name := header_name h; header_value := header_value h ++ 10 :: value |})
    (pred (length hs)) hs.

(** The loop of [to_fields] over the header lines. *)
Fixpoint extra_loop (hs : list CommitHeader) (continue_extra : bool) (lines : list bytes)
  : result CommitError (list CommitHeader) :=
  match lines with
  | [] => Ok hs
  | line :: lines =>
      if is_nil line then extra_loop hs continue_extra lines
      else match strip_prefix [32] line with
           | Some value => extra_loop (if continue_extra then extend_last hs value else hs) continue_extra lines
           | None =>
               let? (name, value) := ok_or (split_once line 32) InvalidHeader in
               if reserved name then extra_loop hs false lines
               else extra_loop (hs ++ [{| header_name := name; header_value := value |}]) true lines
           end
  end.

(** [to_fields] and [Commit::validate]. *)
Definition to_fields (c : Commit) : result CommitError CommitFields :=
  let? a := commit_author c in
  let? a := ok_or a RequiredHeader in
  let? a := signature a in
  let? k := commit_committer c in
  let? k := ok_or k RequiredHeader in
  let? k := signature k in
  let? hs := extra_loop [] false (split_on 10 (header_bytes c)) in
  Ok {| tree := c_tree c; parents := c_parents c; author := a; committer := k;
        extra_headers := hs; message := commit_message c |}.
Definition commit_validate (c : Commit) : result CommitError unit :=
  let? x := to_fields c in fields_validate x.

(** [subject]: the loop after [skip_while(is_empty)]. *)
Fixpoint subject_loop (subject : bytes) (lines : list bytes) : bytes :=
  match lines with
  | [] => subject
  | line :: lines =>
      if is_nil line then subject
      else subject_loop ((if is_nil subject then subject else subject ++ [32]) ++ line) lines
  end.
Fixpoint skip_empty (lines : list bytes) : list bytes :=
  match lines with
  | line :: rest => if is_nil line then skip_empty rest else lines
  | [] => []
  end.
Definition subject (c : Commit) : bytes :=
  subject_loop [] (skip_empty (map trim_end (split_on 10 (commit_message c)))).


(** ** The fixed-width fast path *)

Lemma to_string_high id : id_ok id -> Forall (fun b => 48 <= b) (to_string id).
Proof.
  intros [H _]. unfold to_string. induction H as [|b l Hb _ IH]; [constructor|].
  rewrite to_hex_cons. unfold byte_ok in Hb.
  assert (forall n, 0 <= n -> 48 <= hex_char n) as HC by (intros n; unfold hex_char; zbool).
  constructor; [apply HC; Z.div_mod_to_equations; lia|].
  constructor; [apply HC; Z.div_mod_to_equations; lia|done].
Qed.

Lemma to_string_no_newline id : id_ok id -> 10 ∉ to_string id.
Proof. intros H%to_string_high Hin. rewrite Forall_forall in H. by apply H in Hin. Qed.

Lemma from_str_no_newline value id : from_str value = Ok id -> 10 ∉ value.
Proof.
  intros [Hok Hv]%from_str_Ok Hin.
  assert (10 ∈ to_string id) as Hh.
  { rewrite <- Hv. apply list_elem_of_fmap. exists 10. done. }
  by eapply to_string_no_newline.
Qed.

Lemma parse_id_Ok f value id :
  parse_id f value = Ok id <-> zlen value = digest_len f * 2 /\ from_str value = Ok id.
Proof.
  unfold parse_id. destruct (Z.eqb_spec (zlen value) (digest_len f * 2)); simpl; [|naive_solver lia].
  destruct (from_str value); naive_solver.
Qed.

(** A record the fast path accepts is a whole line. *)
Lemma record_Some f rest prefix id :
  record f rest prefix = Some id ->
  exists digits tail, rest = prefix ++ digits ++ 10 :: tail /\ parse_id f digits = Ok id /\ 10 ∉ digits /\
    zlen digits = digest_len f * 2.
Proof.
  unfold record. destruct (strip_prefix prefix rest) as [t|] eqn:E; [|done].
  apply strip_prefix_Some in E as ->.
  destruct (zget (digest_len f * 2) t) as [b|] eqn:Eb; [|done].
  destruct (Z.eqb_spec b 10) as [-> |]; [|done].
  destruct (slice 0 (digest_len f * 2) t) as [digits|] eqn:Es; [|done].
  destruct (parse_id f digits) as [i|] eqn:Ep; [|done]. intros [= ->].
  apply slice_app in Es as (pre & post & -> & Hpre%zlen_0_inv & Hd). subst pre. cbn [app] in *.
  rewrite Z.sub_0_r in Hd. apply zget_Some in Eb as [_ Eb].
  replace (Z.to_nat (digest_len f * 2)) with (length digits + 0)%nat in Eb by (unfold zlen in Hd; lia).
  rewrite lookup_app_r, Nat.add_0_r, Nat.sub_diag in Eb by lia.
  destruct post as [|x post]; [done|]. injection Eb as ->.
  exists digits, post. split_and!; [done..| |done].
  apply parse_id_Ok in Ep as [_ Ep]. by eapply from_str_no_newline.
Qed.

Lemma required_line_ok prefix l : required_line (strip_suffix [10] ((prefix ++ l) ++ [10])) prefix = Ok l.
Proof.
  unfold required_line. assert (strip_suffix [10] ((prefix ++ l) ++ [10]) = Some (prefix ++ l)) as ->
    by by apply strip_suffix_Some.
  by rewrite strip_prefix_app.
Qed.

Lemma starts_with_app p r : starts_with p (p ++ r) = true.
Proof. apply starts_with_true. eauto. Qed.

(** A first line starts with a newline-free prefix only if the text does. *)
Lemma first_line_starts p rest line lines :
  split_inclusive 10 rest = line :: lines -> starts_with p line = true -> starts_with p rest = true.
Proof.
  intros E [r ->]%starts_with_true. apply starts_with_true.
  pose proof (split_inclusive_concat 10 rest) as H. rewrite E in H. cbn [concat] in H.
  exists (r ++ concat lines). by rewrite app_assoc.
Qed.

Lemma fixed_parents_lines fuel f rest ps tail :
  fixed_parents fuel f rest = Some (ps, tail) ->
  parent_lines f (zlen rest) (split_inclusive 10 rest) = Ok (ps, split_inclusive 10 tail).
Proof.
  revert rest ps tail; induction fuel as [|fuel IH]; intros rest ps tail; cbn [fixed_parents];
    destruct ((digest_len f * 2 + 8 <=? zlen rest) && starts_with (bstr "parent ") rest) eqn:EG; try done.
  1,3: intros [= <- <-]; destruct (split_inclusive 10 rest) as [|line lines] eqn:EL; [done|];
    cbn [parent_lines]; destruct (digest_len f * 2 + 8 <=? zlen rest); [|done]; cbn [andb] in *;
    destruct (starts_with (bstr "parent ") line) eqn:ES; [|done];
    by rewrite (first_line_starts _ _ _ _ EL ES) in EG.
  destruct (record f rest (bstr "parent ")) as [id|] eqn:ER; [|done].
  apply record_Some in ER as (digits & t & -> & Hp & Hd & Hl).
  assert (slice (7 + digest_len f * 2 + 1) (zlen (bstr "parent " ++ digits ++ 10 :: t))
    (bstr "parent " ++ digits ++ 10 :: t) = Some t) as ->.
  { replace (bstr "parent " ++ digits ++ 10 :: t) with ((bstr "parent " ++ digits ++ [10]) ++ t)
      by (by rewrite <- !app_assoc).
    apply slice_tail. rewrite !zlen_app, Hl. change (zlen (bstr "parent ")) with 7. change (zlen [10]) with 1. lia. }
  destruct (fixed_parents fuel f t) as [[ps' tail']|] eqn:EF; [|done]. intros [= <- <-].
  apply IH in EF. rewrite app_assoc in EG |- *.
  rewrite split_inclusive_line by (rewrite not_elem_of_app; split; [by apply contains_false|done]).
  cbn [parent_lines]. apply andb_prop in EG as [-> _]. rewrite <- app_assoc, starts_with_app. cbn [andb].
  rewrite app_assoc, required_line_ok. cbn [rbind]. rewrite Hp. cbn [rbind].
  replace (zlen ((bstr "parent " ++ digits) ++ 10 :: t) - zlen ((bstr "parent " ++ digits) ++ [10])) with (zlen t) by zlia.
  by rewrite EF.
Qed.

(** Whatever graph the fast path returns, the general parser returns too. *)
Lemma fixed_width_general f p g : fixed_width_graph f p = Some g -> general_graph f p = Ok g.
Proof.
  unfold fixed_width_graph. destruct (record f p (bstr "tree ")) as [id|] eqn:ER; [|done].
  apply record_Some in ER as (digits & t & -> & Hp & Hd & Hl).
  assert (slice (5 + digest_len f * 2 + 1) (zlen (bstr "tree " ++ digits ++ 10 :: t))
    (bstr "tree " ++ digits ++ 10 :: t) = Some t) as ->.
  { replace (bstr "tree " ++ digits ++ 10 :: t) with ((bstr "tree " ++ digits ++ [10]) ++ t)
      by (by rewrite <- !app_assoc).
    apply slice_tail. rewrite !zlen_app, Hl. change (zlen (bstr "tree ")) with 5. change (zlen [10]) with 1. lia. }
  destruct (fixed_parents (length t) f t) as [[ps tail]|] eqn:EF; [|done].
  destruct tail as [|x tail]; [done|]. cbn [is_nil]. intros [= <-]. apply fixed_parents_lines in EF.
  unfold general_graph. rewrite app_assoc.
  rewrite split_inclusive_line by (rewrite not_elem_of_app; split; [by apply contains_false|done]).
  rewrite required_line_ok. cbn [rbind]. rewrite Hp. cbn [rbind].
  replace (zlen ((bstr "tree " ++ digits) ++ 10 :: t) - zlen ((bstr "tree " ++ digits) ++ [10])) with (zlen t) by zlia.
  rewrite EF. cbn [rbind]. destruct (split_inclusive 10 (x :: tail)) eqn:E; [|done].
  by apply split_inclusive_nil in E.
Qed.

Lemma parse_graph_general f p : parse_graph f p = general_graph f p.
Proof.
  unfold parse_graph. destruct (fixed_width_graph f p) eqn:E; [|done].
  by rewrite (fixed_width_general f p _ E).
Qed.

(** C38: the fixed-width fast path changes nothing: for every payload and format,
    [Commit::parse_graph] returns exactly what the general line parser returns,
    errors included. *)
Theorem fast_path_equivalent f p : parse_graph f p = general_graph f p.
Proof. apply parse_graph_general. Qed.

(** ** Construction and reading *)

(** The type invariants of the fields: digests of the right length and width, seconds
    in [i64]. *)
Definition fields_typed (x : CommitFields) : Prop :=
  id_ok (tree x) /\ Forall id_ok (parents x) /\ i64_ok (seconds (author x)) /\ i64_ok (seconds (committer x)).

(** The header lines of a constructed commit. *)
Definition extra_lines (h : CommitHeader) : list bytes :=
  match split_on 10 (header_value h) with
  | v :: vs => (header_name h ++ 32 :: v) :: map (cons 32) vs
  | [] => []
  end.
Definition graph_lines (x : CommitFields) : list bytes :=
  (bstr "tree " ++ to_string (tree x)) :: map (fun p => bstr "parent " ++ to_string p) (parents x).
Definition people_lines (x : CommitFields) : list bytes :=
  [bstr "author " ++ signature_text (author x); bstr "committer " ++ signature_text (committer x)].
Definition header_lines (x : CommitFields) : list bytes :=
  graph_lines x ++ people_lines x ++ concat (map extra_lines (extra_headers x)).

Lemma encode_header_lines h : encode_header h = unlines (extra_lines h).
Proof.
  unfold encode_header, extra_lines. destruct (split_on 10 (header_value h)) as [|v vs] eqn:E.
  { by apply split_on_nonempty in E. }
  assert (forall v, v ++ continuation vs ++ [10] = unlines (v :: map (cons 32) vs)) as H.
  { clear. induction vs as [|w vs IH]; intros v; cbn [continuation map]; [unfold unlines; simpl; by rewrite app_nil_r|].
    specialize (IH (32 :: w)). change (unlines (v :: ?l)) with ((v ++ [10]) ++ unlines l).
    rewrite <- IH, <- !app_assoc. done. }
  rewrite <- (H (header_name h ++ 32 :: v)). rewrite <- !app_assoc. simpl. done.
Qed.

Lemma Ok_inj {A} (a b : A) : @Ok CommitError A a = Ok b -> b = a.
Proof. congruence. Qed.

Lemma commit_new_Ok x c :
  commit_new x = Ok c ->
  fields_validate x = Ok tt /\ c_tree c = tree x /\ c_parents c = parents x /\
  payload c = unlines (header_lines x) ++ 10 :: message x /\ c_header_end c = header_end (payload c).
Proof.
  unfold commit_new. destruct (fields_validate x) as [[]|] eqn:EV; [|done]. cbn [rbind].
  intros ->%Ok_inj. cbn [c_tree c_parents payload c_header_end]. split_and!; try done.
  assert (forall l p, foldl (fun p parent => p ++ bstr "parent " ++ to_string parent ++ [10]) p l
    = p ++ unlines (map (fun p => bstr "parent " ++ to_string p) l)) as HP.
  { induction l as [|a l IH]; intros p; cbn [foldl map]; [by rewrite app_nil_r|].
    rewrite IH. rewrite unlines_cons. by rewrite <- !app_assoc. }
  assert (forall l p, foldl (fun p h => p ++ encode_header h) p l = p ++ unlines (concat (map extra_lines l))) as HH.
  { induction l as [|a l IH]; intros p; cbn [foldl map concat]; [by rewrite app_nil_r|].
    rewrite IH, encode_header_lines, unlines_app. by rewrite <- !app_assoc. }
  rewrite HP, HH. unfold header_lines, graph_lines, people_lines, signature_encode.
  rewrite !unlines_app, !unlines_cons, <- !app_assoc. cbn [app]. rewrite <- ?app_assoc. done.
Qed.

Lemma validate_header_name_Ok n :
  validate_header_name n = Ok tt -> n <> [] /\ 32 ∉ n /\ 10 ∉ n /\ reserved n = false.
Proof.
  unfold validate_header_name. intros H. pass_guard H.
  apply orb_false_iff in G as [[G1 G2%negb_false_iff]%orb_false_iff G3].
  assert (forall b, printable b = false -> b ∉ n) as HP.
  { intros b Hb Hin. rewrite List.forallb_forall in G2. apply list_elem_of_In, G2 in Hin. congruence. }
  split_and!; [by intros ->|by apply HP..|done].
Qed.

Lemma fields_validate_Ok x :
  fields_validate x = Ok tt ->
  Forall (fun p => id_format p = id_format (tree x)) (parents x) /\
  signature_validate (author x) = Ok tt /\ signature_validate (committer x) = Ok tt /\
  Forall (fun h => header_name h <> [] /\ 32 ∉ header_name h /\ 10 ∉ header_name h /\
    reserved (header_name h) = false) (extra_headers x).
Proof.
  unfold fields_validate. intros H.
  apply rbind_Ok in H as ([] & HP & H). apply rbind_Ok in H as ([] & HA & H).
  apply rbind_Ok in H as ([] & HC & H). split_and!; [|done..|].
  - clear H. induction (parents x) as [|p ps IH]; [constructor|]. cbn [check_parents] in HP.
    apply rbind_Ok in HP as ([] & Hr & HP). apply map_err_Ok in Hr. unfold require_format in Hr.
    destruct (decide _); [|done]. constructor; auto.
  - clear HP. induction (extra_headers x) as [|h hs IH]; [constructor|]. cbn [check_headers] in H.
    apply rbind_Ok in H as ([] & Hn & H). pass_guard H. constructor; [by apply validate_header_name_Ok|auto].
Qed.

Lemma extra_lines_ok h :
  header_name h <> [] -> 10 ∉ header_name h -> Forall line_ok (extra_lines h).
Proof.
  intros Hne Hn. unfold extra_lines. destruct (split_on_join 10 (header_value h)) as (v & vs & -> & _ & HF).
  apply Forall_cons in HF as [Hv HF]. constructor.
  - split; [by destruct (header_name h)|]. set_solver.
  - apply Forall_fmap. eapply Forall_impl; [done|]. intros l Hl. split; [done|]. simpl. set_solver.
Qed.

(** A constructed commit's header consists of proper lines. *)
Lemma header_lines_ok x : fields_typed x -> fields_validate x = Ok tt -> Forall line_ok (header_lines x).
Proof.
  intros (Ht & Hp & Ha & Hc) (_ & HA & HC & HH)%fields_validate_Ok. unfold header_lines.
  assert (forall k t, k <> [] -> contains 10 k = false -> 10 ∉ t -> line_ok (k ++ t)) as HL.
  { intros k t Hk Hk' Ht'. split; [by destruct k|]. apply contains_false in Hk'. set_solver. }
  apply Forall_app. split; [constructor|apply Forall_app; split].
  - apply HL; [done..|]. by apply to_string_no_newline.
  - apply Forall_fmap. eapply Forall_impl; [done|]. intros p Hid. apply HL; [done..|]. by apply to_string_no_newline.
  - repeat constructor; (apply HL; [done..|by apply signature_text_line]).
  - apply Forall_concat, Forall_fmap. eapply Forall_impl; [done|]. intros h (? & _ & ? & _). by apply extra_lines_ok.
Qed.

Lemma to_lower_to_hex l : bytes_ok l -> map to_lower (to_hex l) = to_hex l.
Proof.
  induction 1 as [|b l Hb _ IH]; [done|]. rewrite to_hex_cons. cbn [map]. unfold byte_ok in Hb.
  assert (forall n, 0 <= n < 16 -> to_lower (hex_char n) = hex_char n) as HC
    by (intros n Hn; unfold to_lower, is_upper, hex_char; zbool).
  rewrite !HC, IH by (Z.div_mod_to_equations; lia). done.
Qed.

Lemma from_str_to_string id : id_ok id -> from_str (to_string id) = Ok id.
Proof. intros Hid. apply from_str_Ok. split; [done|]. apply to_lower_to_hex, Hid. Qed.

Lemma zlen_to_string id : id_ok id -> zlen (to_string id) = digest_len (id_format id) * 2.
Proof. intros [_ H]. unfold to_string. rewrite zlen_to_hex, H. lia. Qed.

Lemma parse_id_to_string id : id_ok id -> parse_id (id_format id) (to_string id) = Ok id.
Proof. intros. apply parse_id_Ok. auto using zlen_to_string, from_str_to_string. Qed.

(** The parent records of a constructed payload are decoded in order. *)
Lemma parent_lines_new f ps stop lines rest :
  Forall (fun p => id_ok p /\ id_format p = f) ps -> starts_with (bstr "parent ") stop = false ->
  parent_lines f (zlen (concat (map (fun p => (bstr "parent " ++ to_string p) ++ [10]) ps)) + rest)
    (map (fun p => (bstr "parent " ++ to_string p) ++ [10]) ps ++ stop :: lines) = Ok (ps, stop :: lines) \/ rest < 0.
Proof.
  intros HF Hs. destruct (Z.ltb_spec rest 0); [by right|left].
  induction HF as [|p ps [Hp <-] HF IH]; cbn [map concat app parent_lines].
  - by rewrite Hs, andb_false_r.
  - set (tail := concat _) in *. pose proof (zlen_to_string p Hp) as HL.
    assert (zlen (bstr "parent ") = 7) as H7 by done.
    rewrite (proj2 (Z.leb_le _ _)) by zlia. rewrite <- app_assoc, starts_with_app. cbn [andb].
    rewrite app_assoc, required_line_ok. cbn [rbind]. rewrite parse_id_to_string by done.
    cbn [rbind]. rewrite zlen_app.
    replace (zlen ((bstr "parent " ++ to_string p) ++ [10]) + zlen tail + rest -
      zlen ((bstr "parent " ++ to_string p) ++ [10])) with (zlen tail + rest) by lia.
    by rewrite IH.
Qed.

Lemma general_graph_new x :
  fields_typed x -> fields_validate x = Ok tt ->
  general_graph (id_format (tree x)) (unlines (header_lines x) ++ 10 :: message x) = Ok (tree x, parents x).
Proof.
  intros HT HV. pose proof (header_lines_ok x HT HV) as HL.
  destruct HT as (Ht & Hp & _). apply fields_validate_Ok in HV as (HF & _).
  unfold general_graph. rewrite split_inclusive_unlines by done.
  unfold header_lines, graph_lines, people_lines at 1. cbn [app map].
  rewrite required_line_ok. cbn [rbind]. rewrite parse_id_to_string by done.
  cbn [rbind]. rewrite !map_app, map_map, <- (app_assoc (map _ _)). cbn [map app].
  match goal with |- context [parent_lines _ ?n (_ ++ ?a :: ?b)] => set (total := n); set (stop := a); set (lines := b) end.
  set (parts := concat (map (fun p => (bstr "parent " ++ to_string p) ++ [10]) (parents x))).
  set (others := unlines (people_lines x ++ concat (map extra_lines (extra_headers x)))).
  assert (total = zlen parts + zlen (others ++ 10 :: message x)) as ->.
  { subst total. rewrite unlines_cons, unlines_app. fold others. unfold unlines at 1. rewrite map_map.
    fold parts. zlia. }
  destruct (parent_lines_new (id_format (tree x)) (parents x) stop lines (zlen (others ++ 10 :: message x)))
    as [HN|]; [by apply Forall_and|done| |zlia].
  subst parts. by rewrite HN.
Qed.

(** Which line a person is read from. *)
Lemma strip_key_other (key name v : bytes) :
  32 ∉ name -> 32 ∉ key -> name <> key -> strip_prefix (key ++ [32]) (name ++ 32 :: v) = None.
Proof.
  intros Hn Hk Hne. destruct (strip_prefix _ _) as [r|] eqn:E; [|done].
  apply strip_prefix_Some in E. rewrite <- app_assoc in E. cbn [app] in E.
  assert (split_once (name ++ 32 :: v) 32 = split_once (key ++ 32 :: r) 32) as H by (by rewrite E).
  rewrite !split_once_app in H by done. congruence.
Qed.

Lemma extra_lines_no_person key h :
  32 ∉ key -> key <> [] -> reserved key = true -> 32 ∉ header_name h -> reserved (header_name h) = false ->
  omap (strip_prefix (key ++ [32])) (extra_lines h) = [].
Proof.
  intros Hk Hk0 Hr Hn Hnr. unfold extra_lines. destruct (split_on 10 (header_value h)) as [|v vs]; [done|].
  cbn [omap list_omap]. rewrite strip_key_other by (done || congruence).
  induction vs as [|w vs IH]; [done|]. cbn [map omap list_omap].
  destruct key as [|k key]; [done|]. cbn [strip_prefix app]. destruct (Z.eqb_spec k 32); [set_solver|done].
Qed.

Lemma omap_concat_nil {A B} (f : A -> option B) (ls : list (list A)) :
  Forall (fun l => omap f l = []) ls -> omap f (concat ls) = [].
Proof. induction 1 as [|l ls Hl _ IH]; [done|]. cbn [concat]. by rewrite omap_app, Hl, IH. Qed.

Lemma person_lines x key text :
  fields_validate x = Ok tt ->
  (key = bstr "author" /\ text = signature_text (author x) \/
   key = bstr "committer" /\ text = signature_text (committer x)) ->
  omap (strip_prefix (key ++ [32])) (header_lines x) = [text].
Proof.
  intros (_ & _ & _ & HH)%fields_validate_Ok HK. unfold header_lines. rewrite !omap_app.
  assert (omap (strip_prefix (key ++ [32])) (graph_lines x) = []) as ->.
  { unfold graph_lines. destruct HK as [[-> _]|[-> _]]; cbn [omap list_omap];
      (match goal with |- context [strip_prefix ?a (bstr "tree " ++ ?b)] =>
        change (strip_prefix a (bstr "tree " ++ b)) with (@None bytes) end);
      induction (parents x); done. }
  assert (omap (strip_prefix (key ++ [32])) (concat (map extra_lines (extra_headers x))) = []) as ->.
  { apply omap_concat_nil, Forall_fmap. eapply Forall_impl; [exact HH|]. intros h (_ & Hs & _ & Hr).
    destruct HK as [[-> _]|[-> _]]; apply extra_lines_no_person; try done; by apply contains_false. }
  rewrite app_nil_r. cbn [app]. unfold people_lines.
  destruct HK as [[-> ->]|[-> ->]]; reflexivity.
Qed.

(** Extra headers: reserved lines are skipped, a header with its continuation lines
    is put together again. *)
Lemma extra_loop_reserved hs b key text lines :
  reserved key = true -> 32 ∉ key -> key <> [] ->
  extra_loop hs b ((key ++ 32 :: text) :: lines) = extra_loop hs false lines.
Proof.
  intros Hr Hk Hne. cbn [extra_loop].
  assert (is_nil (key ++ 32 :: text) = false) as -> by (by destruct key).
  assert (strip_prefix [32] (key ++ 32 :: text) = None) as ->.
  { destruct key as [|k key]; [done|]. cbn [strip_prefix app]. destruct (Z.eqb_spec 32 k); [set_solver|done]. }
  rewrite split_once_app by done. cbn [rbind ok_or]. by rewrite Hr.
Qed.

Lemma extend_last_snoc hs n v w :
  extend_last (hs ++ [{| header_name := n; header_value := v |}]) w =
  hs ++ [{| header_name := n; header_value := v ++ 10 :: w |}].
Proof.
  unfold extend_last. rewrite length_app. simpl. rewrite Nat.add_1_r. cbn [pred].
  replace (length hs) with (length hs + 0)%nat by lia. by rewrite alter_app_r.
Qed.

Lemma extra_loop_header hs b h lines :
  header_name h <> [] -> 32 ∉ header_name h -> reserved (header_name h) = false ->
  extra_loop hs b (extra_lines h ++ lines) = extra_loop (hs ++ [h]) true lines.
Proof.
  intros Hne Hs Hr. destruct h as [n v]. cbn [header_name] in *. unfold extra_lines. cbn [header_name header_value].
  destruct (split_on_join 10 v) as (w & ws & -> & -> & _). cbn [app extra_loop].
  assert (is_nil (n ++ 32 :: w) = false) as -> by (by destruct n).
  assert (strip_prefix [32] (n ++ 32 :: w) = None) as ->.
  { destruct n as [|k n]; [done|]. cbn [strip_prefix app]. destruct (Z.eqb_spec 32 k); [set_solver|done]. }
  rewrite split_once_app by done. cbn [rbind ok_or]. rewrite Hr.
  revert w; induction ws as [|u ws IH]; intros w; cbn [map concat app]; [by rewrite app_nil_r|].
  cbn [extra_loop is_nil strip_prefix]. rewrite Z.eqb_refl, extend_last_snoc, IH.
  by rewrite <- app_assoc.
Qed.

Lemma extra_loop_headers hs b more :
  Forall (fun h => header_name h <> [] /\ 32 ∉ header_name h /\ 10 ∉ header_name h /\
    reserved (header_name h) = false) more ->
  extra_loop hs b (concat (map extra_lines more)) = Ok (hs ++ more).
Proof.
  intros HF. revert hs b; induction HF as [|h more (Hne & Hs & _ & Hr) HF IH]; intros hs b; cbn [map concat].
  - by rewrite app_nil_r.
  - rewrite extra_loop_header by done. rewrite IH. by rewrite <- app_assoc.
Qed.

Lemma extra_loop_new x :
  fields_validate x = Ok tt -> extra_loop [] false (header_lines x) = Ok (extra_headers x).
Proof.
  intros (_ & _ & _ & HH)%fields_validate_Ok. unfold header_lines, graph_lines, people_lines.
  assert (forall k : string, contains 32 (bstr k) = false -> 32 ∉ bstr k) as Hc by (intros; by apply contains_false).
  cbn [app]. change (bstr "tree " ++ ?t) with (bstr "tree" ++ 32 :: t).
  rewrite (extra_loop_reserved _ _ (bstr "tree")) by (done || by apply Hc).
  assert (forall ps lines, extra_loop [] false (map (fun p => bstr "parent " ++ to_string p) ps ++ lines)
    = extra_loop [] false lines) as ->.
  { induction ps as [|p ps IH]; intros lines; [done|]. cbn [map app].
    change (bstr "parent " ++ ?t) with (bstr "parent" ++ 32 :: t).
    by rewrite (extra_loop_reserved _ _ (bstr "parent")) by (done || by apply Hc). }
  change (bstr "author " ++ ?t) with (bstr "author" ++ 32 :: t).
  rewrite (extra_loop_reserved _ _ (bstr "author")) by (done || by apply Hc).
  change (bstr "committer " ++ ?t) with (bstr "committer" ++ 32 :: t).
  rewrite (extra_loop_reserved _ _ (bstr "committer")) by (done || by apply Hc).
  by apply extra_loop_headers.
Qed.

Lemma commit_new_header x c :
  fields_typed x -> commit_new x = Ok c ->
  split_on 10 (header_bytes c) = header_lines x /\ commit_message c = message x.
Proof.
  intros HT (HV & _ & _ & EP & EH)%commit_new_Ok.
  pose proof (header_lines_ok x HT HV) as HL.
  destruct (header_split (header_lines x) (message x) HL) as (h & H1 & H2 & H3 & _); [done|].
  unfold header_bytes, commit_message. rewrite EH, EP, H1, H3. done.
Qed.

Lemma person_new x c key sig :
  fields_typed x -> commit_new x = Ok c ->
  (key = bstr "author" /\ sig = author x \/ key = bstr "committer" /\ sig = committer x) ->
  exists i, person c (key ++ [32]) = Ok (Some i) /\ signature i = Ok sig.
Proof.
  intros HT HN HK. destruct (commit_new_header x c HT HN) as [E _].
  apply commit_new_Ok in HN as (HV & _). unfold person. rewrite E.
  rewrite (person_lines x key (signature_text sig)) by (done || naive_solver). cbn [last].
  destruct HT as (_ & _ & Ha & Hc). apply fields_validate_Ok in HV as (_ & HA & HC & _).
  destruct (signature_text_parse sig) as (i & Ei & Es); [naive_solver..|].
  rewrite Ei. eauto.
Qed.

(** Building and reading a commit. *)
Lemma commit_new_read x c :
  fields_typed x -> commit_new x = Ok c ->
  commit_parse (id_format (tree x)) (payload c) = Ok c /\ to_fields c = Ok x /\ commit_validate c = Ok tt.
Proof.
  intros HT HN. destruct (commit_new_header x c HT HN) as [EL EM].
  destruct (commit_new_Ok x c HN) as (HV & ET & EPs & EP & EH).
  assert (to_fields c = Ok x) as EF.
  { unfold to_fields, commit_author, commit_committer.
    destruct (person_new x c (bstr "author") (author x) HT HN) as (i & Ei & Es); [auto|].
    change (bstr "author ") with (bstr "author" ++ [32]). rewrite Ei. cbn [rbind ok_or]. rewrite Es. cbn [rbind].
    destruct (person_new x c (bstr "committer") (committer x) HT HN) as (j & Ej & Et); [auto|].
    change (bstr "committer ") with (bstr "committer" ++ [32]). rewrite Ej. cbn [rbind ok_or]. rewrite Et. cbn [rbind].
    rewrite EL, extra_loop_new by done. cbn [rbind]. rewrite EM, ET, EPs. by destruct x. }
  split_and!; [|done|unfold commit_validate; by rewrite EF].
  unfold commit_parse. rewrite parse_graph_general, EP, general_graph_new by done. cbn [rbind].
  destruct c; cbn [c_tree c_parents payload c_header_end] in *. by subst.
Qed.

(** C32: a commit built by [Commit::new] from any accepted fields is parsed back from
    its payload to the same commit, its fields are decoded to exactly the fields it
    was built from (tree, parents in order, both people, multi-line extra headers and
    an arbitrary message), and it passes [Commit::validate]. *)
Theorem commit_roundtrip x c :
  fields_typed x -> commit_new x = Ok c ->
  commit_parse (id_format (tree x)) (payload c) = Ok c /\ to_fields c = Ok x /\ commit_validate c = Ok tt.
Proof. apply commit_new_read. Qed.

Definition sample_person : Signature :=
  {| name := bstr "A. Writer"; email := bstr "writer@example.com"; seconds := 1700000000; offset_minutes := -420 |}.
Definition sample_fields : CommitFields :=
  {| tree := null FSha1; parents := [null FSha1; null FSha1]; author := sample_person; committer := sample_person;
     extra_headers := [{| header_name := bstr "x-review"; header_value := bstr "first" ++ 10 :: 10 :: bstr " last" |}];
     message := [10; 10; 0; 255] |}.

Lemma commit_roundtrip_witness :
  exists c, commit_new sample_fields = Ok c /\
    commit_parse FSha1 (payload c) = Ok c /\ to_fields c = Ok sample_fields /\ commit_validate c = Ok tt.
Proof.
  destruct (commit_new sample_fields) as [c|] eqn:E; [|vm_compute in E; discriminate].
  exists c. split; [done|]. apply (commit_roundtrip sample_fields c); [|exact E].
  assert (id_ok (null FSha1)) by (split; [unfold bytes_ok; simpl; repeat constructor; lia|done]).
  split_and!; [done|repeat constructor; done|unfold i64_ok; simpl; lia|unfold i64_ok; simpl; lia].
Defined.
End Commits.
