(* ===== verification/CommitPayload.v ===== *)
(** * Commit payload views and signing ([src/src/commit/payload.rs],
      [src/src/commit/builder.rs], [Commit::signed_payload] of [src/src/signing.rs])

    [CommitPayload] keeps the byte span of every header with its continuation
    lines.  Removing the signature headers of a signed commit must give back the
    bytes that were signed: the signer only saw the unsigned commit.  The signing
    program is a parameter.  Slicing and indexing that would panic in Rust is the
    error [Panic], and is proved not to happen. *)

From stdpp Require Import base list numbers strings sets sorting.
From Stdlib Require Import ZArith Lia.
From S2P Require Import Prelude Bytes Objects Identity Lines Commits.

Module CommitPayload.
Import Bytes Objects Identity Lines Commits.

Inductive Panic := PanicErr.

(** [CommitPayload]: spans are half-open byte ranges. *)
Record CommitPayload := { cp_bytes : bytes; cp_headers : list (Z * Z); message_start : Z }.

(** [headers.last_mut()...end = end]. *)
Definition set_last_end (hs : list (Z * Z)) (end_ : Z) : list (Z * Z) :=
  alter (fun span => (span.1, end_)) (pred (length hs)) hs.

(** [CommitPayload::parse]: the loop over [split_inclusive]. *)
Fixpoint parse_spans (bs : bytes) (hs : list (Z * Z)) (start : Z) (lines : list bytes)
  : result CommitError CommitPayload :=
  match lines with
  | [] => Err MissingSeparator
  | line :: lines =>
      if negb (ends_with [10] line) then Err MissingSeparator
      else
        let end_ := start + zlen line in
        if bytes_eqb line [10] then Ok {| cp_bytes := bs; cp_headers := hs; message_start := end_ |}
        else if starts_with [32] line then
          match hs with
          | [] => Err InvalidHeader
          | _ => parse_spans bs (set_last_end hs end_) end_ lines
          end
        else
          let? (name, _) := ok_or (split_once line 32) InvalidHeader in
          if is_nil name || negb (forallb printable name) then Err InvalidHeader
          else parse_spans bs (hs ++ [(start, end_)]) end_ lines
  end.
Definition payload_parse (bs : bytes) : result CommitError CommitPayload :=
  parse_spans bs [] 0 (split_inclusive 10 bs).

(** [CommitPayload::from_bytes]. *)
Fixpoint from_bytes_loop (bs : bytes) (hs : list (Z * Z)) (start : Z) (lines : list bytes) : CommitPayload :=
  match lines with
  | [] => {| cp_bytes := bs; cp_headers := hs; message_start := zlen bs |}
  | line :: lines =>
      let end_ := start + zlen line in
      if bytes_eqb line [10] then {| cp_bytes := bs; cp_headers := hs; message_start := end_ |}
      else
        match starts_with [32] line, hs with
        | true, _ :: _ => from_bytes_loop bs (set_last_end hs end_) end_ lines
        | _, _ => from_bytes_loop bs (hs ++ [(start, end_)]) end_ lines
        end
  end.
Definition payload_from_bytes (bs : bytes) : CommitPayload :=
  from_bytes_loop bs [] 0 (split_inclusive 10 bs).

(** [CommitHeaderRef]; [value_at] is the offset of the value slice in the payload,
    which the code takes from the slice pointers. *)
Record CommitHeaderRef := {
  ref_name : bytes; ref_value : bytes; has_value_separator : bool; value_at : Z }.

(** The closure of [headers]. *)
Definition header_ref (bs : bytes) (span : Z * Z) : result Panic CommitHeaderRef :=
  let? raw := ok_or (slice span.1 span.2 bs) PanicErr in
  let line := default raw (strip_suffix [10] raw) in
  let first := default [] (head (split_on 10 line)) in
  match position (fun b => b =? 32) first with
  | Some space =>
      let? name := ok_or (slice 0 (Z.of_nat space) line) PanicErr in
      let? value := ok_or (slice (Z.of_nat space + 1) (zlen line) line) PanicErr in
      Ok {| ref_name := name; ref_value := value; has_value_separator := true;
            value_at := span.1 + Z.of_nat space + 1 |}
  | None => Ok {| ref_name := first; ref_value := []; has_value_separator := false; value_at := 0 |}
  end.
Fixpoint map_result {E A B} (f : A -> result E B) (l : list A) : result E (list B) :=
  match l with
  | [] => Ok []
  | x :: l => let? y := f x in let? ys := map_result f l in Ok (y :: ys)
  end.
Definition payload_headers (p : CommitPayload) : result Panic (list CommitHeaderRef) :=
  map_result (header_ref (cp_bytes p)) (cp_headers p).

(** [CommitPayload::message]. *)
Definition payload_message (p : CommitPayload) : bytes :=
  default [] (slice (message_start p) (zlen (cp_bytes p)) (cp_bytes p)).

(** [CommitHeaderRef::unfolded_value]. *)
Definition unfold_line (line : bytes) : bytes := 10 :: default line (strip_prefix [32] line).
Definition unfolded_value (h : CommitHeaderRef) : bytes :=
  match split_on 10 (ref_value h) with
  | line :: lines => line ++ concat (map unfold_line lines)
  | [] => []
  end.

(** [Vec::dedup]. *)
Fixpoint dedup (l : list nat) : list nat :=
  match l with
  | x :: (y :: _) as l' => if (x =? y)%nat then dedup l' else x :: dedup l'
  | _ => l
  end.

(** The loops of [without_headers]: the sum of the removed lengths and the copy. *)
Fixpoint removed_len (hs : list (Z * Z)) (indices : list nat) : result Panic Z :=
  match indices with
  | [] => Ok 0
  | i :: indices =>
      let? span := ok_or (hs !! i) PanicErr in
      let? n := removed_len hs indices in
      Ok (Z.max 0 (span.2 - span.1) + n)
  end.
Fixpoint copy_kept (bs : bytes) (hs : list (Z * Z)) (start : Z) (output : bytes) (indices : list nat)
  : result Panic bytes :=
  match indices with
  | [] =>
      let? tail := ok_or (slice start (zlen bs) bs) PanicErr in
      Ok (output ++ tail)
  | i :: indices =>
      let? span := ok_or (hs !! i) PanicErr in
      let? kept := ok_or (slice start span.1 bs) PanicErr in
      copy_kept bs hs span.2 (output ++ kept) indices
  end.

(** [CommitPayload::without_headers]; the capacity subtraction panics on underflow. *)
Definition without_headers (p : CommitPayload) (indices : list nat) : result Panic (option bytes) :=
  let indices := dedup (sort_by Nat.compare indices) in
  if match last indices with Some i => (length (cp_headers p) <=? i)%nat | None => false end then Ok None
  else
    let? removed := removed_len (cp_headers p) indices in
    let? _ := ok_or (checked_sub (zlen (cp_bytes p)) removed) PanicErr in
    let? output := copy_kept (cp_bytes p) (cp_headers p) 0 [] indices in
    Ok (Some output).

(** ** Signing *)

Definition SHA1_HEADER : bytes := bstr "gpgsig".
Definition SHA256_HEADER : bytes := bstr "gpgsig-sha256".
Definition native_header (f : ObjectFormat) : bytes :=
  match f with FSha1 => SHA1_HEADER | FSha256 => SHA256_HEADER end.
Definition signature_header (n : bytes) : bool := bytes_eqb n SHA1_HEADER || bytes_eqb n SHA256_HEADER.

Inductive SignError (E : Type) :=
| SignCommit (e : CommitError)
| Signer (e : E)
| ExistingSignature.
Arguments SignCommit {E} _.
Arguments Signer {E} _.
Arguments ExistingSignature {E}.

(** [CommitBuilder]'s setters. *)
Definition builder_new (t : ObjectId) (a : Signature) (m : bytes) : CommitFields :=
  {| tree := t; parents := []; author := a; committer := a; extra_headers := []; message := m |}.
Definition builder_parent (x : CommitFields) (p : ObjectId) : CommitFields :=
  {| tree := tree x; parents := parents x ++ [p]; author := author x; committer := committer x;
     extra_headers := extra_headers x; message := message x |}.
Definition builder_committer (x : CommitFields) (k : Signature) : CommitFields :=
  {| tree := tree x; parents := parents x; author := author x; committer := k;
     extra_headers := extra_headers x; message := message x |}.
Definition builder_header (x : CommitFields) (n v : bytes) : CommitFields :=
  {| tree := tree x; parents := parents x; author := author x; committer := committer x;
     extra_headers := extra_headers x ++ [{| header_name := n; header_value := v |}]; message := message x |}.

(** [CommitBuilder::build_signed]. *)
Definition build_signed {E} (sign : bytes -> result E bytes) (x : CommitFields) : result (SignError E) Commit :=
  if existsb (fun h => signature_header (header_name h)) (extra_headers x) then Err ExistingSignature
  else
    let? unsigned := map_err SignCommit (commit_new x) in
    let? sig := map_err Signer (sign (payload unsigned)) in
    let sig := default sig (strip_suffix [10] sig) in
    map_err SignCommit (commit_new (builder_header x (native_header (id_format (tree x))) sig)).

Record SignedPayload := { sp_payload : bytes; sp_signature : bytes; signed_at : option Z }.

(** [is_terminated]. *)
Definition is_terminated (bs : bytes) (h : CommitHeaderRef) : bool :=
  match zget (value_at h + zlen (ref_value h)) bs with Some b => b =? 10 | None => false end.

(** The loop of [Commit::signed_payload]: the joined signature, whether one was found,
    and the indices to remove. *)
Fixpoint signature_loop (bs native : bytes) (index : nat) (signature : bytes) (found : bool) (removed : list nat)
    (headers : list CommitHeaderRef) : bytes * bool * list nat :=
  match headers with
  | [] => (signature, found, removed)
  | h :: headers =>
      if negb (has_value_separator h) then signature_loop bs native (S index) signature found removed headers
      else
        let '(signature, found) :=
          if bytes_eqb (ref_name h) native then
            (signature ++ unfolded_value h ++ (if is_terminated bs h then [10] else []), true)
          else (signature, found) in
        let removed := if signature_header (ref_name h) then removed ++ [index] else removed in
        signature_loop bs native (S index) signature found removed headers
  end.

(** [Commit::signed_payload]. *)
Definition signed_payload (c : Commit) : result Panic (option SignedPayload) :=
  let bs := payload c in
  let view := payload_from_bytes bs in
  let? headers := payload_headers view in
  let '(sig, found, removed) :=
    signature_loop bs (native_header (id_format (c_tree c))) 0 [] false [] headers in
  if negb found then Ok None
  else
    let? p := without_headers view removed in
    match p with
    | None => Ok None
    | Some p =>
        let at_ := match commit_committer c with
                   | Ok (Some i) => match date i with Ok (s, _) => Some s | Err _ => None end
                   | _ => None
                   end in
        Ok (Some {| sp_payload := p; sp_signature := sig; signed_at := at_ |})
    end.

(** ** Spans tile the headers *)

(** The spans of consecutive segments. *)
Fixpoint spans_of (start : Z) (segs : list bytes) : list (Z * Z) :=
  match segs with
  | [] => []
  | s :: segs => (start, start + zlen s) :: spans_of (start + zlen s) segs
  end.

Lemma spans_of_app start a b :
  spans_of start (a ++ b) = spans_of start a ++ spans_of (start + zlen (concat a)) b.
Proof.
  revert start; induction a as [|s a IH]; intros start; cbn [app spans_of concat].
  - by rewrite (zlen_nil (A:=Z)), Z.add_0_r.
  - rewrite IH, zlen_app. by rewrite Z.add_assoc.
Qed.

Lemma length_spans_of start segs : length (spans_of start segs) = length segs.
Proof. revert start; induction segs; intros; simpl; auto. Qed.

Lemma spans_of_lookup a s b :
  spans_of 0 (a ++ s :: b) !! length a = Some (zlen (concat a), zlen (concat a) + zlen s).
Proof.
  rewrite spans_of_app, lookup_app_r by (by rewrite length_spans_of).
  by rewrite length_spans_of, Nat.sub_diag, Z.add_0_l.
Qed.

Lemma set_last_end_spans segs s line :
  set_last_end (spans_of 0 (segs ++ [s])) (zlen (concat (segs ++ [s])) + zlen line) =
  spans_of 0 (segs ++ [s ++ line]).
Proof.
  unfold set_last_end. rewrite !spans_of_app. cbn [spans_of]. rewrite length_app, length_spans_of.
  simpl length. rewrite Nat.add_1_r. cbn [pred].
  replace (length segs) with (length (spans_of 0 segs) + 0)%nat by (rewrite length_spans_of; lia).
  rewrite alter_app_r. f_equal. simpl. f_equal. f_equal. rewrite concat_app. simpl. rewrite app_nil_r. zlia.
Qed.

(** A view whose spans tile the start of the payload. *)
Definition tiles (p : CommitPayload) (segs : list bytes) (tail : bytes) : Prop :=
  cp_headers p = spans_of 0 segs /\ cp_bytes p = concat segs ++ tail /\
  (tail = [] /\ message_start p = zlen (cp_bytes p) \/
   exists m, tail = 10 :: m /\ message_start p = zlen (concat segs) + 1).

Lemma from_bytes_loop_tiles bs segs lines :
  bs = concat segs ++ concat lines ->
  exists segs' tail, tiles (from_bytes_loop bs (spans_of 0 segs) (zlen (concat segs)) lines) segs' tail.
Proof.
  revert segs; induction lines as [|line lines IH]; intros segs EB; cbn [from_bytes_loop].
  { exists segs, []. split_and!; [done..|]. by left. }
  destruct (bytes_eqb line [10]) eqn:EL.
  { apply bytes_eqb_eq in EL as ->. exists segs, (10 :: concat lines). split_and!; [done..|]. right.
    exists (concat lines). done. }
  assert (exists segs' tail, tiles (from_bytes_loop bs (spans_of 0 segs ++
    [(zlen (concat segs), zlen (concat segs) + zlen line)]) (zlen (concat segs) + zlen line) lines) segs' tail) as HN.
  { specialize (IH (segs ++ [line])). rewrite spans_of_app, concat_app in IH. cbn [concat spans_of] in IH.
    rewrite app_nil_r, zlen_app, Z.add_0_l in IH. apply IH. rewrite EB. cbn [concat]. by rewrite <- app_assoc. }
  destruct (starts_with [32] line); [|done]. destruct (spans_of 0 segs) as [|sp sps] eqn:ES; [done|].
  destruct segs as [|s segs _] using rev_ind; [done|]. rewrite <- ES, set_last_end_spans.
  specialize (IH (segs ++ [s ++ line])). rewrite !concat_app in *. cbn [concat] in *. rewrite !app_nil_r in *.
  replace (zlen (concat segs ++ s) + zlen line) with (zlen (concat segs ++ s ++ line)) by zlia.
  apply IH. rewrite EB. by rewrite <- !app_assoc.
Qed.

Lemma from_bytes_tiles bs : exists segs tail, tiles (payload_from_bytes bs) segs tail /\ cp_bytes (payload_from_bytes bs) = bs.
Proof.
  destruct (from_bytes_loop_tiles bs [] (split_inclusive 10 bs)) as (segs & tail & H).
  { by rewrite split_inclusive_concat. }
  exists segs, tail. split; [exact H|]. clear H. unfold payload_from_bytes. generalize (@nil (Z * Z)) 0.
  induction (split_inclusive 10 bs) as [|line lines IH]; intros hs st; cbn [from_bytes_loop]; [done|].
  destruct (bytes_eqb line [10]); [done|]. destruct (starts_with [32] line), hs; apply IH.
Qed.

(** The strict reader accepts less and sees the same. *)
Lemma payload_parse_from_bytes bs p : payload_parse bs = Ok p -> payload_from_bytes bs = p.
Proof.
  unfold payload_parse, payload_from_bytes. generalize (@nil (Z * Z)) 0.
  induction (split_inclusive 10 bs) as [|line lines IH]; intros hs start; cbn [parse_spans from_bytes_loop]; [done|].
  destruct (ends_with [10] line); [|done]. cbn [negb].
  destruct (bytes_eqb line [10]); [by intros [= <-]|]. destruct (starts_with [32] line).
  - destruct hs; [done|]. apply IH.
  - intros H. apply rbind_Ok in H as ([name rest] & _ & H). pass_guard H. by apply IH.
Qed.

(** ** Removing headers *)

(** The segments whose index is not in [idx], the first having index [n]. *)
Fixpoint keep (n : nat) (idx : list nat) (segs : list bytes) : bytes :=
  match segs with
  | [] => []
  | s :: segs => (if bool_decide (n ∈ idx) then [] else s) ++ keep (S n) idx segs
  end.

Lemma keep_all n idx segs : Forall (fun i => n + length segs <= i)%nat idx -> keep n idx segs = concat segs.
Proof.
  revert n; induction segs as [|s segs IH]; intros n HF; [done|]. cbn [keep concat]. rewrite bool_decide_false.
  - f_equal. apply IH. eapply Forall_impl; [exact HF|]. simpl. lia.
  - intros Hin. rewrite Forall_forall in HF. apply HF in Hin. simpl in Hin. lia.
Qed.

Lemma keep_app n idx a b : keep n idx (a ++ b) = keep n idx a ++ keep (n + length a) idx b.
Proof.
  revert n; induction a as [|s a IH]; intros n; cbn [app keep length]; [by rewrite Nat.add_0_r|].
  rewrite IH, <- app_assoc. do 3 f_equal. lia.
Qed.

Lemma keep_ext n idx idx' segs :
  (forall i, (n <= i)%nat -> i ∈ idx <-> i ∈ idx') -> keep n idx segs = keep n idx' segs.
Proof.
  revert n; induction segs as [|s segs IH]; intros n H; [done|]. cbn [keep].
  rewrite (bool_decide_ext (n ∈ idx) (n ∈ idx')) by (apply H; lia). f_equal. apply IH. intros. apply H. lia.
Qed.

Lemma split_segs {A} (r : list A) i : (i < length r)%nat -> exists b s c, r = b ++ s :: c /\ length b = i.
Proof.
  intros Hi. destruct (lookup_lt_is_Some_2 r i Hi) as [s Hs]. exists (take i r), s, (drop (S i) r).
  split; [by rewrite take_drop_middle|]. rewrite length_take. lia.
Qed.

(** The copy loop, started after the segments [a] with increasing indices into the
    rest [r]. *)
Lemma copy_kept_tiles idx a r tail output :
  StronglySorted lt idx -> Forall (fun i => length a <= i < length a + length r)%nat idx ->
  copy_kept (concat (a ++ r) ++ tail) (spans_of 0 (a ++ r)) (zlen (concat a)) output idx =
  Ok (output ++ keep (length a) idx r ++ tail).
Proof.
  revert a r output; induction idx as [|i idx IH]; intros a r output HS HF; cbn [copy_kept].
  - rewrite concat_app, <- app_assoc, slice_tail by done. cbn [rbind ok_or]. by rewrite keep_all by constructor.
  - apply Forall_cons in HF as [Hi HF]. apply StronglySorted_inv in HS as [HS HL].
    destruct (split_segs r (i - length a)) as (b & s & c & -> & Hb); [lia|].
    rewrite app_assoc. assert (i = length (a ++ b)) as -> by (rewrite length_app; lia).
    rewrite spans_of_lookup. cbn [rbind ok_or fst snd].
    rewrite (concat_app (a ++ b)), (concat_app a b). cbn [concat].
    rewrite <- !app_assoc. rewrite (slice_mid (concat a) (concat b)) by (done || zlia). cbn [rbind ok_or].
    specialize (IH ((a ++ b) ++ [s]) c (output ++ concat b) HS). rewrite <- !app_assoc in IH. cbn [app] in IH.
    rewrite (concat_app a), (concat_app b) in IH. cbn [concat] in IH. rewrite <- !app_assoc in IH.
    assert (zlen (concat a ++ concat b) + zlen s = zlen (concat (a ++ b ++ [s]))) as E.
    { rewrite !concat_app. cbn [concat]. zlia. }
    rewrite E, IH.
    + do 2 f_equal. rewrite keep_app. cbn [keep].
      rewrite bool_decide_true by (rewrite length_app; left).
      rewrite (keep_all _ _ b), <- app_assoc. cbn [app].
      * f_equal. f_equal. replace (length (a ++ b ++ [s])) with (S (length a + length b)) by (rewrite !length_app; simpl; lia).
        apply keep_ext. intros j Hj. rewrite elem_of_cons, length_app. split; [by right|]. intros [-> |?]; [lia|done].
      * constructor; [rewrite length_app; lia|]. eapply Forall_impl; [exact HL|]. intros j. rewrite length_app. lia.
    + rewrite Forall_forall in *. intros j Hj. specialize (HL j Hj). specialize (HF j Hj).
      rewrite !length_app in *. simpl in *. lia.
Qed.

Lemma removed_len_tiles idx a r :
  StronglySorted lt idx -> Forall (fun i => length a <= i < length a + length r)%nat idx ->
  exists n, removed_len (spans_of 0 (a ++ r)) idx = Ok n /\ n <= zlen (concat r).
Proof.
  revert a r; induction idx as [|i idx IH]; intros a r HS HF; cbn [removed_len].
  - exists 0. split; [done|]. zlia.
  - apply Forall_cons in HF as [Hi HF]. apply StronglySorted_inv in HS as [HS HL].
    destruct (split_segs r (i - length a)) as (b & s & c & -> & Hb); [lia|].
    rewrite app_assoc. assert (i = length (a ++ b)) as -> by (rewrite length_app; lia).
    rewrite spans_of_lookup. cbn [rbind ok_or fst snd].
    destruct (IH ((a ++ b) ++ [s]) c HS) as (n & En & Hn).
    + rewrite Forall_forall in *. intros j Hj. specialize (HL j Hj). specialize (HF j Hj).
      rewrite !length_app in *. simpl in *. lia.
    + rewrite <- app_assoc in En. cbn [app] in En. rewrite En. cbn [rbind]. eexists. split; [done|].
      rewrite (concat_app b). cbn [concat]. zlia.
Qed.

Lemma dedup_spec l :
  Sorted le l -> StronglySorted lt (dedup l) /\ (forall i, i ∈ dedup l <-> i ∈ l) /\ last (dedup l) = last l.
Proof.
  intros HS. apply Sorted_StronglySorted in HS; [|intros ???; lia].
  induction HS as [|x l HS IH HF]; [split_and!; [constructor|done..]|].
  destruct IH as (H1 & H2 & H3). destruct l as [|y l]; [split_and!; [repeat constructor|done..]|].
  change (dedup (x :: y :: l)) with (if (x =? y)%nat then dedup (y :: l) else x :: dedup (y :: l)).
  change (last (x :: y :: l)) with (last (y :: l)).
  destruct (Nat.eqb_spec x y) as [-> |Hne].
  - split_and!; [done| |done]. intros i. rewrite H2, !elem_of_cons. naive_solver.
  - split_and!.
    + constructor; [done|]. apply Forall_forall. intros i Hi%H2. rewrite Forall_forall in HF.
      apply StronglySorted_inv in HS as [_ HY]. rewrite Forall_forall in HY.
      pose proof (HF y ltac:(left)). apply elem_of_cons in Hi as [-> |Hi]; [lia|]. specialize (HY i Hi). lia.
    + intros i. rewrite !elem_of_cons, H2, elem_of_cons. done.
    + assert (y ∈ dedup (y :: l)) as Hy by (apply H2; left).
      rewrite <- H3. destruct (dedup (y :: l)); [by apply elem_of_nil in Hy|done].
Qed.

Lemma sorted_indices indices :
  let idx := dedup (sort_by Nat.compare indices) in
  StronglySorted lt idx /\ (forall i, i ∈ idx <-> i ∈ indices).
Proof.
  intros idx. destruct (dedup_spec (sort_by Nat.compare indices)) as (H1 & H2 & _).
  - assert (Sorted (cmp_le Nat.compare) (sort_by Nat.compare indices)) as HS.
    { apply sort_by_Sorted. intros x y. rewrite Nat.compare_gt_iff, Nat.compare_lt_iff. lia. }
    clear idx. induction HS as [|x l HS IH HR]; constructor; [done|]. destruct HR as [|y l HR]; constructor.
    unfold cmp_le in HR. rewrite Nat.compare_gt_iff in HR. lia.
  - split; [done|]. intros i. unfold idx. rewrite H2. by rewrite sort_by_perm.
Qed.

(** The last of increasing numbers is the greatest. *)
Lemma last_bound idx n :
  StronglySorted lt idx ->
  match last idx with Some i => (n <=? i)%nat | None => false end = false -> Forall (fun i => i < n)%nat idx.
Proof.
  intros HS. destruct idx as [|m idx _] using rev_ind; [constructor|]. rewrite last_snoc.
  intros Hm%Nat.leb_gt. apply Forall_app. split; [|by repeat constructor].
  apply Forall_forall. intros i Hi. apply list_elem_of_lookup in Hi as [k Hk].
  assert (i < m)%nat; [|lia]. clear -HS Hk.
  induction idx as [|x idx IH] in k, HS, Hk |- *; [done|]. apply StronglySorted_inv in HS as [HS HF].
  destruct k as [|k]; simpl in Hk; [|eauto]. injection Hk as ->. rewrite Forall_forall in HF. apply HF. set_solver.
Qed.

(** What [without_headers] returns on a tiled view. *)
Lemma without_headers_tiles p segs tail indices :
  tiles p segs tail ->
  without_headers p indices =
  Ok (if existsb (fun i => length segs <=? i)%nat indices then None else Some (keep 0 indices segs ++ tail)).
Proof.
  intros (EH & EB & _). unfold without_headers. destruct (sorted_indices indices) as [HS HI].
  set (idx := dedup _) in *. rewrite EH, EB, length_spans_of.
  destruct (match last idx with Some i => (length segs <=? i)%nat | None => false end) eqn:EL.
  - destruct (last idx) as [m|] eqn:EM; [|done]. apply last_Some in EM as (l' & EM).
    assert (m ∈ indices) as Hm by (apply HI; rewrite EM; set_solver).
    assert (existsb (fun i => length segs <=? i)%nat indices = true) as ->; [|done].
    apply List.existsb_exists. exists m. by rewrite <- list_elem_of_In.
  - apply last_bound in EL; [|done].
    assert (existsb (fun i => length segs <=? i)%nat indices = false) as ->.
    { apply not_true_iff_false. intros (i & Hi%list_elem_of_In%HI & Hle%Nat.leb_le)%List.existsb_exists.
      rewrite Forall_forall in EL. apply EL in Hi. lia. }
    assert (Forall (fun i => length (@nil bytes) <= i < length (@nil bytes) + length segs)%nat idx) as HR
      by (eapply Forall_impl; [exact EL|simpl; lia]).
    destruct (removed_len_tiles idx [] segs HS HR) as (n & En & Hn). cbn [app] in En. rewrite En. cbn [rbind].
    rewrite checked_sub_le by zlia. cbn [rbind ok_or].
    pose proof (copy_kept_tiles idx [] segs tail [] HS HR) as HC. cbn [app concat length] in HC.
    rewrite (zlen_nil (A:=Z)) in HC. rewrite HC. cbn [rbind]. do 3 f_equal. apply keep_ext. auto.
Qed.

(** The header spans of a payload tile everything before the empty line, and
    [without_headers] returns the payload with exactly the selected headers cut out,
    whatever the order and repetition of the indices; an index past the last header
    gives [None], and no slice, index or subtraction can panic. *)
Theorem without_headers_spec bs indices :
  exists segs tail,
    bs = concat segs ++ tail /\ (tail = [] \/ exists m, tail = 10 :: m) /\
    cp_headers (payload_from_bytes bs) = spans_of 0 segs /\
    without_headers (payload_from_bytes bs) indices =
      Ok (if existsb (fun i => length segs <=? i)%nat indices then None else Some (keep 0 indices segs ++ tail)).
Proof.
  destruct (from_bytes_tiles bs) as (segs & tail & HT & EB). exists segs, tail.
  pose proof HT as (EH & EC & EM). rewrite EB in EC.
  split_and!; [done|naive_solver|done|by apply without_headers_tiles].
Qed.

(** ** The view of a constructed commit *)

(** All headers of a constructed commit, the required ones first. *)
Definition all_headers (x : CommitFields) : list CommitHeader :=
  {| header_name := bstr "tree"; header_value := to_string (tree x) |} ::
  map (fun p => {| header_name := bstr "parent"; header_value := to_string p |}) (parents x) ++
  [{| header_name := bstr "author"; header_value := signature_text (author x) |};
   {| header_name := bstr "committer"; header_value := signature_text (committer x) |}] ++
  extra_headers x.

(** A value in folded form, as it stands in the payload. *)
Definition fold_value (v : bytes) : bytes :=
  match split_on 10 v with
  | line :: lines => line ++ continuation lines
  | [] => []
  end.

(** A header name: what the reader splits at. *)
Definition name_ok (h : CommitHeader) : Prop :=
  header_name h <> [] /\ 32 ∉ header_name h /\ 10 ∉ header_name h.

Lemma all_headers_ok x : fields_validate x = Ok tt -> Forall name_ok (all_headers x).
Proof.
  intros (_ & _ & _ & HH)%fields_validate_Ok. unfold all_headers.
  assert (forall (k : string) v, is_nil (bstr k) = false -> contains 32 (bstr k) = false ->
    contains 10 (bstr k) = false -> name_ok {| header_name := bstr k; header_value := v |}) as HK.
  { intros k v H1 H2%contains_false H3%contains_false.
    split_and!; [by intros E; cbn [header_name] in E; rewrite E in H1|done..]. }
  constructor; [by apply HK|]. apply Forall_app. split; [|apply Forall_app; split].
  - apply Forall_fmap, Forall_true. intros ?. by apply HK.
  - repeat constructor; by apply HK.
  - eapply Forall_impl; [exact HH|]. intros h (? & ? & ? & _). done.
Qed.

Lemma single_line key v :
  10 ∉ v -> extra_lines {| header_name := key; header_value := v |} = [key ++ 32 :: v].
Proof. intros Hv. unfold extra_lines. cbn [header_name header_value]. by rewrite split_on_single. Qed.

Lemma header_lines_all x :
  fields_typed x -> fields_validate x = Ok tt -> header_lines x = concat (map extra_lines (all_headers x)).
Proof.
  intros (Ht & Hp & Ha & Hc) (_ & HA & HC & _)%fields_validate_Ok. unfold header_lines, all_headers, graph_lines.
  cbn [map concat]. rewrite single_line by by apply to_string_no_newline. cbn [app]. f_equal.
  rewrite !map_app, !concat_app. f_equal.
  - induction Hp as [|p ps Hid Hp IH]; [done|]. cbn [map concat].
    rewrite single_line by by apply to_string_no_newline. cbn [app]. by f_equal.
  - cbn [map concat]. rewrite !single_line by by apply signature_text_line. done.
Qed.

(** One header and its continuation lines become one span. *)
Lemma from_bytes_continuation bs segs s vs lines :
  from_bytes_loop bs (spans_of 0 (segs ++ [s])) (zlen (concat (segs ++ [s])))
    (map (fun l => l ++ [10]) (map (cons 32) vs) ++ lines) =
  from_bytes_loop bs (spans_of 0 (segs ++ [s ++ unlines (map (cons 32) vs)]))
    (zlen (concat (segs ++ [s ++ unlines (map (cons 32) vs)]))) lines.
Proof.
  revert s; induction vs as [|v vs IH]; intros s; cbn [map app]; [by rewrite app_nil_r|].
  cbn [from_bytes_loop]. change (bytes_eqb (32 :: v ++ [10]) [10]) with false. cbv iota.
  change (starts_with [32] (32 :: v ++ [10])) with true. cbv iota.
  destruct (spans_of 0 (segs ++ [s])) as [|sp sps] eqn:E.
  { apply (f_equal length) in E. rewrite length_spans_of, length_app in E. simpl in E. lia. }
  rewrite <- E, set_last_end_spans. specialize (IH (s ++ 32 :: v ++ [10])).
  replace (zlen (concat (segs ++ [s ++ 32 :: v ++ [10]]))) with
    (zlen (concat (segs ++ [s])) + zlen (32 :: v ++ [10])) in IH.
  - rewrite IH, unlines_cons. rewrite <- !app_assoc. cbn [app]. by rewrite <- !app_assoc.
  - rewrite !concat_app. cbn [concat]. zlia.
Qed.

Lemma from_bytes_group bs segs l vs lines :
  l <> [] -> starts_with [32] l = false -> 10 ∉ l ->
  from_bytes_loop bs (spans_of 0 segs) (zlen (concat segs)) (map (fun l => l ++ [10]) (l :: map (cons 32) vs) ++ lines) =
  from_bytes_loop bs (spans_of 0 (segs ++ [unlines (l :: map (cons 32) vs)]))
    (zlen (concat (segs ++ [unlines (l :: map (cons 32) vs)]))) lines.
Proof.
  intros Hl Hs Hn. cbn [map app from_bytes_loop].
  assert (bytes_eqb (l ++ [10]) [10] = false) as ->.
  { apply not_true_iff_false. intros H%bytes_eqb_eq. by destruct l as [|a [|b l]]; simplify_eq/=. }
  assert (starts_with [32] (l ++ [10]) = false) as ->.
  { destruct l as [|a l]; [done|]. unfold starts_with in *. cbn [strip_prefix app] in *. by destruct (32 =? a). }
  pose proof (from_bytes_continuation bs segs (l ++ [10]) vs lines) as H.
  rewrite spans_of_app in H at 1. rewrite Z.add_0_l in H. cbn [spans_of] in H.
  rewrite (concat_app segs [l ++ [10]]) in H. cbn [concat] in H. rewrite app_nil_r in H.
  rewrite unlines_cons. rewrite <- app_assoc in H. cbn [app] in H. rewrite <- H. by rewrite !zlen_app.
Qed.

(** The lines of one header. *)
Lemma extra_lines_group h :
  name_ok h -> exists l vs, extra_lines h = l :: map (cons 32) vs /\ l <> [] /\ starts_with [32] l = false /\ 10 ∉ l.
Proof.
  destruct h as [n v]. intros (Hne & Hs & Hn). cbn [header_name] in *. unfold extra_lines. cbn [header_name header_value].
  destruct (split_on_join 10 v) as (w & ws & -> & _ & HF). apply Forall_cons in HF as [Hw _].
  exists (n ++ 32 :: w), ws. split_and!; [done|by destruct n| |set_solver].
  destruct n as [|a n]; [done|]. unfold starts_with. cbn [strip_prefix app].
  destruct (Z.eqb_spec 32 a); [set_solver|done].
Qed.

Lemma from_bytes_headers bs segs hs rest :
  Forall name_ok hs ->
  from_bytes_loop bs (spans_of 0 segs) (zlen (concat segs))
    (map (fun l => l ++ [10]) (concat (map extra_lines hs)) ++ [10] :: rest) =
  {| cp_bytes := bs; cp_headers := spans_of 0 (segs ++ map encode_header hs);
     message_start := zlen (concat (segs ++ map encode_header hs)) + 1 |}.
Proof.
  intros HF. revert segs; induction HF as [|h hs Hh HF IH]; intros segs; cbn [map concat].
  - cbn [app from_bytes_loop]. by rewrite app_nil_r.
  - destruct (extra_lines_group h Hh) as (l & vs & E & Hl). rewrite map_app, E, <- app_assoc.
    rewrite from_bytes_group by apply Hl. rewrite IH. rewrite <- E, <- encode_header_lines.
    by rewrite <- app_assoc.
Qed.

(** The spans of a constructed commit are its headers. *)
Lemma from_bytes_new x c :
  fields_typed x -> commit_new x = Ok c ->
  payload c = concat (map encode_header (all_headers x)) ++ 10 :: message x /\
  payload_from_bytes (payload c) =
  {| cp_bytes := payload c; cp_headers := spans_of 0 (map encode_header (all_headers x));
     message_start := zlen (concat (map encode_header (all_headers x))) + 1 |}.
Proof.
  intros HT (HV & _ & _ & EP & _)%commit_new_Ok. pose proof (header_lines_ok x HT HV) as HL.
  split.
  - rewrite EP, header_lines_all by done. f_equal. induction (all_headers x) as [|h hs IH]; [done|].
    cbn [map concat]. by rewrite unlines_app, IH, encode_header_lines.
  - unfold payload_from_bytes. rewrite EP at 2. rewrite split_inclusive_unlines by done.
    rewrite header_lines_all by done. cbn [split_inclusive]. rewrite Z.eqb_refl.
    apply (from_bytes_headers _ []). by apply all_headers_ok.
Qed.

Lemma encode_header_fold h :
  encode_header h = header_name h ++ 32 :: fold_value (header_value h) ++ [10].
Proof. reflexivity. Qed.

(** Folding a value is undone by [unfolded_value]. *)
Lemma unfold_fold n v b at_ :
  unfolded_value {| ref_name := n; ref_value := fold_value v; has_value_separator := b; value_at := at_ |} = v.
Proof.
  unfold unfolded_value, fold_value. cbn [ref_value].
  destruct (split_on_join 10 v) as (w & ws & -> & -> & HF). apply Forall_cons in HF as [Hw HF].
  assert (split_on 10 (w ++ continuation ws) = w :: map (cons 32) ws) as ->.
  { revert w Hw; induction HF as [|u ws Hu HF IH]; intros w Hw; cbn [continuation map].
    - rewrite app_nil_r. by apply split_on_single.
    - cbn [app]. rewrite split_on_app by done. f_equal.
      change (32 :: u ++ continuation ws) with ((32 :: u) ++ continuation ws). apply IH. set_solver. }
  f_equal. rewrite map_map. done.
Qed.

(** The references [headers] yields. *)
Fixpoint refs (start : Z) (hs : list CommitHeader) : list CommitHeaderRef :=
  match hs with
  | [] => []
  | h :: hs =>
      {| ref_name := header_name h; ref_value := fold_value (header_value h); has_value_separator := true;
         value_at := start + zlen (header_name h) + 1 |} :: refs (start + zlen (encode_header h)) hs
  end.

Lemma refs_app start a b :
  refs start (a ++ b) = refs start a ++ refs (start + zlen (concat (map encode_header a))) b.
Proof.
  revert start; induction a as [|h a IH]; intros start; cbn [app refs map concat].
  - by rewrite (zlen_nil (A:=Z)), Z.add_0_r.
  - rewrite IH, zlen_app. by rewrite Z.add_assoc.
Qed.

Lemma first_line_space n folded :
  32 ∉ n -> 10 ∉ n -> position (fun b => b =? 32) (default [] (head (split_on 10 (n ++ 32 :: folded)))) = Some (length n).
Proof.
  intros Hs Hn. assert (exists r, default [] (head (split_on 10 (n ++ 32 :: folded))) = n ++ 32 :: r) as [r ->].
  { destruct (split_on_join 10 folded) as (w & ws & E & -> & HF). apply Forall_cons in HF as [Hw _]. exists w.
    destruct ws as [|u ws]; cbn [map concat].
    - rewrite app_nil_r, split_on_single by set_solver. done.
    - rewrite app_comm_cons, app_assoc. cbn [app]. rewrite split_on_app by set_solver. done. }
  apply position_Some. exists n, 32, r. split_and!; [done..|]. by apply neq_Forall.
Qed.

Lemma header_ref_encoded pre h post :
  name_ok h ->
  header_ref (pre ++ encode_header h ++ post) (zlen pre, zlen pre + zlen (encode_header h)) =
  Ok {| ref_name := header_name h; ref_value := fold_value (header_value h); has_value_separator := true;
        value_at := zlen pre + zlen (header_name h) + 1 |}.
Proof.
  intros (Hne & Hs & Hn). unfold header_ref. cbn [fst snd].
  rewrite slice_mid by done. cbn [rbind ok_or]. rewrite encode_header_fold.
  set (n := header_name h) in *. set (f := fold_value (header_value h)).
  assert (strip_suffix [10] (n ++ 32 :: f ++ [10]) = Some (n ++ 32 :: f)) as ->.
  { apply strip_suffix_Some. by rewrite <- app_assoc. }
  cbn [default from_option id]. rewrite first_line_space by done.
  rewrite (slice_mid [] n (32 :: f)) by done. cbn [rbind ok_or].
  assert (slice (Z.of_nat (length n) + 1) (zlen (n ++ 32 :: f)) (n ++ 32 :: f) = Some f) as ->.
  { replace (n ++ 32 :: f) with ((n ++ [32]) ++ f) by (by rewrite <- app_assoc). apply slice_tail.
    rewrite zlen_app. done. }
  cbn [rbind ok_or]. done.
Qed.

Lemma headers_refs pre hs post :
  Forall name_ok hs ->
  map_result (header_ref (pre ++ concat (map encode_header hs) ++ post)) (spans_of (zlen pre) (map encode_header hs)) =
  Ok (refs (zlen pre) hs).
Proof.
  intros HF. revert pre; induction HF as [|h hs Hh HF IH]; intros pre; [done|].
  cbn [map concat spans_of map_result refs]. rewrite <- app_assoc, header_ref_encoded by done. cbn [rbind].
  specialize (IH (pre ++ encode_header h)). rewrite zlen_app, <- app_assoc in IH. rewrite IH. done.
Qed.

(** Headers that are no signature are passed over. *)
Lemma signature_loop_skip bs native i sig found removed start hs more :
  signature_header native = true -> Forall (fun h => signature_header (header_name h) = false) hs ->
  signature_loop bs native i sig found removed (refs start hs ++ more) =
  signature_loop bs native (i + length hs) sig found removed more.
Proof.
  intros Hn HF. revert i start; induction HF as [|h hs Hh HF IH]; intros i start; cbn [refs app length].
  - by rewrite Nat.add_0_r.
  - cbn [signature_loop has_value_separator negb ref_name].
    destruct (bytes_eqb (header_name h) native) eqn:E; [apply bytes_eqb_eq in E; congruence|].
    rewrite Hh, IH. f_equal. lia.
Qed.

(** A header's value is followed by its newline. *)
Lemma is_terminated_at pre n f post :
  is_terminated (pre ++ n ++ 32 :: f ++ 10 :: post)
    {| ref_name := n; ref_value := f; has_value_separator := true; value_at := 0 + zlen pre + zlen n + 1 |} = true.
Proof.
  unfold is_terminated. cbn [value_at ref_value].
  replace (pre ++ n ++ 32 :: f ++ 10 :: post) with ((pre ++ n ++ 32 :: f) ++ 10 :: post) by (by rewrite <- !app_assoc).
  unfold zget. rewrite (proj2 (Z.leb_le _ _)) by zlia. rewrite lookup_app_r.
  - by replace (_ - _)%nat with O by (unfold zlen; rewrite !length_app; simpl; lia).
  - unfold zlen. rewrite !length_app. simpl. lia.
Qed.

Lemma signature_date i s : signature i = Ok s -> exists m, date i = Ok (seconds s, m).
Proof.
  unfold signature. intros H. apply rbind_Ok in H as ([a m] & E & H). exists m. rewrite E. by injection H as <-.
Qed.

Lemma all_headers_snoc x n v :
  all_headers (builder_header x n v) = all_headers x ++ [{| header_name := n; header_value := v |}].
Proof. unfold all_headers, builder_header. cbn. by rewrite <- !app_assoc. Qed.

Lemma no_signature_header x :
  existsb (fun h => signature_header (header_name h)) (extra_headers x) = false ->
  Forall (fun h => signature_header (header_name h) = false) (all_headers x).
Proof.
  intros HE. unfold all_headers. constructor; [done|]. apply Forall_app. split; [|apply Forall_app; split].
  - apply Forall_fmap, Forall_true. done.
  - by repeat constructor.
  - induction (extra_headers x) as [|h hs IH]; [constructor|]. simpl in HE. apply orb_false_iff in HE as [? ?].
    constructor; auto.
Qed.

(** The signature of the last header is found and cut out again. *)
Lemma signed_payload_last x c u v :
  let native := native_header (id_format (tree x)) in
  fields_typed x -> existsb (fun h => signature_header (header_name h)) (extra_headers x) = false ->
  commit_new x = Ok u -> commit_new (builder_header x native v) = Ok c ->
  signed_payload c =
  Ok (Some {| sp_payload := payload u; sp_signature := v ++ [10]; signed_at := Some (seconds (committer x)) |}).
Proof.
  intros native HT HE HU HC. set (y := builder_header x native v) in *.
  assert (fields_typed y) as HY by exact HT.
  destruct (from_bytes_new x u HT HU) as [EU _]. destruct (from_bytes_new y c HY HC) as [EP EV].
  destruct (commit_new_Ok y c HC) as (HV & ET & _). pose proof (all_headers_ok y HV) as HO.
  pose proof (all_headers_snoc x native v) as EA. fold y in EA.
  set (h := {| header_name := native; header_value := v |}) in *. set (base := all_headers x) in *.
  assert (signature_header native = true) as HN by (subst native; by destruct (id_format (tree x))).
  unfold signed_payload. rewrite EV. unfold payload_headers. cbn [cp_bytes cp_headers].
  pose proof (headers_refs [] (all_headers y) (10 :: message y) HO) as HR. cbn [app] in HR.
  rewrite <- EP, (zlen_nil (A:=Z)) in HR. rewrite HR. cbn [rbind]. rewrite ET.
  change (native_header (id_format (tree y))) with native. rewrite EA, refs_app.
  rewrite signature_loop_skip by (done || by apply no_signature_header).
  cbn [refs signature_loop has_value_separator negb ref_name]. change (header_name h) with native.
  rewrite bytes_eqb_refl, HN. change (header_value h) with v. rewrite unfold_fold.
  assert (is_terminated (payload c) {| ref_name := native; ref_value := fold_value v; has_value_separator := true;
    value_at := 0 + zlen (concat (map encode_header base)) + zlen native + 1 |} = true) as ->.
  { rewrite EP, EA, map_app, concat_app. cbn [map concat]. rewrite app_nil_r, encode_header_fold.
    rewrite <- !app_assoc. cbn [app]. rewrite <- app_assoc. apply is_terminated_at. }
  cbn [app negb]. rewrite (without_headers_tiles _ (map encode_header (base ++ [h])) (10 :: message y)).
  - cbn [existsb]. rewrite length_map, length_app. simpl length. rewrite (proj2 (Nat.leb_gt _ _)) by lia.
    cbn [orb rbind]. unfold commit_committer.
    destruct (person_new y c (bstr "committer") (committer y) HY HC) as (i & Ei & Ej); [auto|].
    change (bstr "committer ") with (bstr "committer" ++ [32]). rewrite Ei.
    destruct (signature_date i _ Ej) as [m ->]. do 3 f_equal. rewrite EU.
    rewrite map_app, keep_app. cbn [map keep]. rewrite length_map, bool_decide_true by left.
    rewrite keep_all; [by rewrite app_nil_r|]. rewrite length_map. repeat constructor.
  - split_and!; cbn [cp_headers cp_bytes message_start]; [done|by rewrite EP, EA|].
    right. by exists (message y).
Qed.

(** C31: signing covers exactly the unsigned commit.  For any signing program, when
    [build_signed] succeeds, the program was given the payload of the commit without
    signature, and [signed_payload] of the signed commit recovers that very payload,
    the signature (ending in one newline) and the committer's date, so a verifier
    checks the bytes that were signed. *)
Theorem signed_payload_recovered {E} (sign : bytes -> result E bytes) x c :
  fields_typed x -> build_signed sign x = Ok c ->
  exists u raw, commit_new x = Ok u /\ sign (payload u) = Ok raw /\
    signed_payload c =
    Ok (Some {| sp_payload := payload u; sp_signature := default raw (strip_suffix [10] raw) ++ [10];
                signed_at := Some (seconds (committer x)) |}).
Proof.
  intros HT HB. unfold build_signed in HB. pass_guard HB.
  apply rbind_Ok in HB as (u & HU%map_err_Ok & HB). apply rbind_Ok in HB as (raw & HS%map_err_Ok & HB).
  apply map_err_Ok in HB. exists u, raw. split_and!; [done..|]. by eapply signed_payload_last.
Qed.

Lemma signed_payload_recovered_witness :
  let sign (p : bytes) : result unit bytes := Ok (bstr "-----BEGIN" ++ [10] ++ bstr "END" ++ [10]) in
  exists c u raw, build_signed sign sample_fields = Ok c /\ commit_new sample_fields = Ok u /\
    sign (payload u) = Ok raw /\
    signed_payload c =
    Ok (Some {| sp_payload := payload u; sp_signature := default raw (strip_suffix [10] raw) ++ [10];
                signed_at := Some (seconds (committer sample_fields)) |}).
Proof.
  intros sign. destruct (build_signed sign sample_fields) as [c|] eqn:HB; [|vm_compute in HB; discriminate].
  destruct (signed_payload_recovered sign sample_fields c) as (u & raw & H); [|exact HB|by exists c, u, raw].
  assert (id_ok (null FSha1)) by (split; [unfold bytes_ok; simpl; repeat constructor; lia|done]).
  split_and!; [done|repeat constructor; done|unfold i64_ok; simpl; lia|unfold i64_ok; simpl; lia].
Defined.
End CommitPayload.
