(* ===== verification/Tags.v ===== *)
(** * Annotated tags ([src/src/tag.rs])

    A tag keeps its exact payload with the decoded target.  Parsing checks the three
    required records; name, tagger, extra header lines and message are read from the
    payload on demand.  [Tag::name] unwraps results that parsing is meant to
    guarantee: the unwrap is [None] in the model and is proved not to happen. *)

From stdpp Require Import base list numbers strings sets.
From Stdlib Require Import ZArith Lia.
From S2P Require Import Prelude Bytes Objects Identity Lines Commits.

Module Tags.
Import Bytes Objects Identity Lines Commits.

Inductive TagError :=
| UnterminatedHeader
| TagRequiredHeader
| TagInvalidObjectId
| InvalidObjectKind
| InvalidName
| TagInvalidHeader
| Tagger (e : CommitError).

Record Tag := { t_target : ObjectId; t_kind : ObjectKind; t_payload : bytes }.

Record TagFields := {
  target : ObjectId;
  target_kind : ObjectKind;
  tag_name : bytes;
  tagger : option Signature;
  tag_extra : list bytes;
  tag_message : bytes
}.

(** [ObjectKind::parse]. *)
Definition kind_parse (bs : bytes) : result TagError ObjectKind :=
  if bytes_eqb bs (bstr "blob") then Ok KBlob
  else if bytes_eqb bs (bstr "tree") then Ok KTree
  else if bytes_eqb bs (bstr "commit") then Ok KCommit
  else if bytes_eqb bs (bstr "tag") then Ok KTag
  else Err InvalidObjectKind.

(** [required_line]. *)
Definition tag_required_line (line : option bytes) (prefix : bytes) : result TagError bytes :=
  ok_or (match line with Some line => strip_prefix prefix line | None => None end) TagRequiredHeader.

(** [check_extra_line]. *)
Definition check_extra_line (line : bytes) : result TagError unit :=
  let key := default [] (head (split_on 32 line)) in
  if is_nil line || bytes_eqb key (bstr "object") || bytes_eqb key (bstr "type") ||
     bytes_eqb key (bstr "tag") || bytes_eqb key (bstr "tagger")
  then Err TagInvalidHeader else Ok tt.

(** [TagFields::validate]. *)
Fixpoint check_extra_lines (lines : list bytes) : result TagError unit :=
  match lines with
  | [] => Ok tt
  | line :: lines =>
      let? _ := check_extra_line line in
      if existsb (fun byte => contains byte [0; 13; 10]) line then Err TagInvalidHeader
      else check_extra_lines lines
  end.
Definition tag_fields_validate (x : TagFields) : result TagError unit :=
  if is_nil (tag_name x) || existsb (fun byte => (byte =? 0) || is_whitespace byte) (tag_name x) then Err InvalidName
  else
    let? _ := match tagger x with
              | Some s => map_err Tagger (signature_validate s)
              | None => Ok tt
              end in
    check_extra_lines (tag_extra x).

(** The closure [required] of [parse_target]: the next line without its newline, and
    the lines after it. *)
Definition next_required (lines : list bytes) : result TagError (bytes * list bytes) :=
  match lines with
  | [] => Err UnterminatedHeader
  | line :: lines => let? l := ok_or (strip_suffix [10] line) UnterminatedHeader in Ok (l, lines)
  end.

(** [Tag::parse_target]. *)
Definition parse_target (f : ObjectFormat) (p : bytes) : result TagError (ObjectId * ObjectKind) :=
  let physical := split_inclusive 10 p in
  let? (l, physical) := next_required physical in
  let? target_bytes := tag_required_line (Some l) (bstr "object ") in
  if negb (zlen target_bytes =? digest_len f * 2) then Err TagInvalidObjectId
  else
    let? id := match from_str target_bytes with Ok id => Ok id | Err _ => Err TagInvalidObjectId end in
    let? (l, physical) := next_required physical in
    let? kind := tag_required_line (Some l) (bstr "type ") in
    let? kind := kind_parse kind in
    let? (l, physical) := next_required physical in
    let? _ := tag_required_line (Some l) (bstr "tag ") in
    Ok (id, kind).

(** [Tag::parse]. *)
Definition tag_parse (f : ObjectFormat) (p : bytes) : result TagError Tag :=
  let? (id, kind) := parse_target f p in
  Ok {| t_target := id; t_kind := kind; t_payload := p |}.

(** [Tag::new]. *)
Definition tag_new (x : TagFields) : result TagError Tag :=
  let? _ := tag_fields_validate x in
  let p := bstr "object " ++ to_string (target x) ++ [10] ++ bstr "type " ++ as_str (target_kind x) ++ [10] ++ bstr "tag " in
  let p := p ++ tag_name x in
  let p := p ++ [10] in
  let p := match tagger x with Some s => signature_encode s (bstr "tagger") p | None => p end in
  let p := foldl (fun p line => p ++ line ++ [10]) p (tag_extra x) in
  let p := p ++ [10] in
  let p := p ++ tag_message x in
  tag_parse (id_format (target x)) p.

(** [headers]: the lines before the first empty one. *)
Fixpoint until_empty (lines : list bytes) : list bytes :=
  match lines with
  | line :: lines => if is_nil line then [] else line :: until_empty lines
  | [] => []
  end.
Definition tag_headers (t : Tag) : list bytes := until_empty (split_on 10 (t_payload t)).

(** [Tag::name]: [None] is a failed [expect]. *)
Definition tag_name_of (t : Tag) : option bytes :=
  match tag_headers t !! 2%nat with
  | Some line => strip_prefix (bstr "tag ") line
  | None => None
  end.

(** [Tag::message]. *)
Definition tag_message_of (t : Tag) : bytes :=
  default [] (match blank_at (t_payload t) with
              | Some i => slice (Z.of_nat i + 2) (zlen (t_payload t)) (t_payload t)
              | None => None
              end).

(** [Tag::tagger]. *)
Definition tag_tagger (t : Tag) : result TagError (option IdentityRef) :=
  match head (omap (strip_prefix (bstr "tagger ")) (tag_headers t)) with
  | None => Ok None
  | Some line => let? x := map_err Tagger (identity_parse line) in Ok (Some x)
  end.

(** [Tag::to_fields]; the outer [None] is a panic of [Tag::name]. *)
Definition tag_to_fields (t : Tag) : option (result TagError TagFields) :=
  match (let? i := tag_tagger t in
         match i with
         | None => Ok None
         | Some i => let? s := map_err Tagger (signature i) in Ok (Some s)
         end) with
  | Err e => Some (Err e)
  | Ok s =>
      match tag_name_of t with
      | None => None
      | Some n =>
          Some (Ok {| target := t_target t; target_kind := t_kind t; tag_name := n; tagger := s;
                      tag_extra := filter (fun line => starts_with (bstr "tagger ") line = false) (drop 3 (tag_headers t));
                      tag_message := tag_message_of t |})
      end
  end.

(** [Tag::validate]. *)
Definition tag_validate (t : Tag) : option (result TagError unit) :=
  match tag_to_fields t with
  | None => None
  | Some r => Some (let? x := r in tag_fields_validate x)
  end.

(** ** Reading what was written *)

Definition tag_typed (x : TagFields) : Prop :=
  id_ok (target x) /\ (forall s, tagger x = Some s -> i64_ok (seconds s)).

Definition tagger_lines (x : TagFields) : list bytes :=
  match tagger x with Some s => [bstr "tagger " ++ signature_text s] | None => [] end.
Definition tag_lines (x : TagFields) : list bytes :=
  [bstr "object " ++ to_string (target x); bstr "type " ++ as_str (target_kind x); bstr "tag " ++ tag_name x] ++
  tagger_lines x ++ tag_extra x.

Lemma kind_parse_as_str k : kind_parse (as_str k) = Ok k.
Proof. by destruct k. Qed.

Lemma tag_fields_validate_Ok x :
  tag_fields_validate x = Ok tt ->
  10 ∉ tag_name x /\ (forall s, tagger x = Some s -> signature_validate s = Ok tt) /\
  Forall (fun line => line_ok line /\ starts_with (bstr "tagger ") line = false) (tag_extra x).
Proof.
  unfold tag_fields_validate. intros H. pass_guard H. apply orb_false_iff in G as [_ G].
  apply rbind_Ok in H as ([] & HT & H). split_and!.
  - intros Hin. apply not_true_iff_false in G. apply G, List.existsb_exists. exists 10.
    by rewrite <- list_elem_of_In.
  - intros s E. rewrite E in HT. by apply map_err_Ok in HT.
  - clear HT G. induction (tag_extra x) as [|line lines IH]; [constructor|]. cbn [check_extra_lines] in H.
    apply rbind_Ok in H as ([] & HC & H). pass_guard H. constructor; [|auto]. clear IH H.
    unfold check_extra_line in HC. pass_guard HC. bool_prop. split; [split|].
    + by intros ->.
    + intros Hin. apply not_true_iff_false in G. apply G, List.existsb_exists. exists 10.
      by rewrite <- list_elem_of_In.
    + apply not_true_iff_false. intros [r ->]%starts_with_true.
      change (bstr "tagger " ++ r) with (bstr "tagger" ++ 32 :: r) in *.
      rewrite split_on_app in * by (by apply contains_false). done.
Qed.

Lemma tag_new_payload x :
  tag_fields_validate x = Ok tt ->
  tag_new x = tag_parse (id_format (target x)) (unlines (tag_lines x) ++ 10 :: tag_message x).
Proof.
  intros HV. unfold tag_new. rewrite HV. cbn [rbind].
  assert (forall l p, foldl (fun p line => p ++ line ++ [10]) p l = p ++ unlines l) as ->.
  { induction l as [|a l IH]; intros p; cbn [foldl]; [by rewrite app_nil_r|].
    rewrite IH, unlines_cons. by rewrite <- !app_assoc. }
  f_equal. unfold tag_lines, tagger_lines, signature_encode. rewrite !unlines_app, !unlines_cons.
  destruct (tagger x) as [sg|]; [rewrite unlines_cons|]; rewrite <- !app_assoc; cbn [app];
    rewrite <- ?app_assoc; cbn [app]; rewrite <- ?app_assoc; done.
Qed.

Lemma tag_lines_ok x : tag_typed x -> tag_fields_validate x = Ok tt -> Forall line_ok (tag_lines x).
Proof.
  intros [Hid Hs] (Hn & HS & HE)%tag_fields_validate_Ok. unfold tag_lines, tagger_lines.
  assert (forall k t, k <> [] -> contains 10 k = false -> 10 ∉ t -> line_ok (k ++ t)) as HL.
  { intros k t Hk Hk' Ht'. split; [by destruct k|]. apply contains_false in Hk'. set_solver. }
  cbn [app]. rewrite !Forall_cons. split_and!.
  - apply HL; [done..|]. by apply to_string_no_newline.
  - apply HL; [done..|]. apply contains_false. by destruct (target_kind x).
  - by apply HL.
  - apply Forall_app. split; [|eapply Forall_impl; [exact HE|naive_solver]].
    destruct (tagger x) as [sg|]; [|constructor]. constructor; [|constructor].
    apply HL; [done..|]. apply signature_text_line; auto.
Qed.

Lemma next_required_line l lines : next_required ((l ++ [10]) :: lines) = Ok (l, lines).
Proof.
  unfold next_required. assert (strip_suffix [10] (l ++ [10]) = Some l) as -> by by apply strip_suffix_Some.
  done.
Qed.

Lemma parse_target_new x :
  tag_typed x -> tag_fields_validate x = Ok tt ->
  parse_target (id_format (target x)) (unlines (tag_lines x) ++ 10 :: tag_message x) = Ok (target x, target_kind x).
Proof.
  intros HT HV. unfold parse_target. rewrite split_inclusive_unlines by by apply tag_lines_ok.
  unfold tag_lines. cbn [app map]. rewrite next_required_line. cbn [rbind].
  unfold tag_required_line at 1. rewrite strip_prefix_app. cbn [rbind ok_or].
  destruct HT as [Hid _]. rewrite zlen_to_string, Z.eqb_refl, from_str_to_string by done. cbn [negb rbind].
  rewrite next_required_line. cbn [rbind]. unfold tag_required_line at 1. rewrite strip_prefix_app. cbn [rbind ok_or].
  rewrite kind_parse_as_str. cbn [rbind]. rewrite next_required_line. cbn [rbind].
  unfold tag_required_line. rewrite strip_prefix_app. done.
Qed.

Lemma until_empty_lines ls rest : Forall line_ok ls -> until_empty (ls ++ [] :: rest) = ls.
Proof.
  induction 1 as [|l ls [Hl _] _ IH]; [done|]. cbn [app until_empty]. destruct l; [done|].
  cbn [is_nil]. by rewrite IH.
Qed.

(** What the accessors return on a constructed tag. *)
Lemma tag_new_headers x t :
  tag_typed x -> tag_fields_validate x = Ok tt ->
  t = {| t_target := target x; t_kind := target_kind x; t_payload := unlines (tag_lines x) ++ 10 :: tag_message x |} ->
  tag_headers t = tag_lines x /\ tag_name_of t = Some (tag_name x) /\ tag_message_of t = tag_message x.
Proof.
  intros HT HV ->. pose proof (tag_lines_ok x HT HV) as HL.
  assert (tag_headers {| t_target := target x; t_kind := target_kind x;
    t_payload := unlines (tag_lines x) ++ 10 :: tag_message x |} = tag_lines x) as EH.
  { unfold tag_headers. cbn [t_payload]. rewrite split_on_lines by done.
    cbn [split_on]. rewrite Z.eqb_refl. by apply until_empty_lines. }
  split_and!; [done|unfold tag_name_of; rewrite EH; unfold tag_lines; cbn [app lookup list_lookup]; apply strip_prefix_app|].
  unfold tag_message_of. cbn [t_payload].
  destruct (header_split (tag_lines x) (tag_message x) HL) as (h & _ & _ & H3 & H4); [done|].
  rewrite header_end_spec in H3, H4. destruct (blank_at _); [by rewrite H3|lia].
Qed.

Lemma tag_tagger_lines x :
  tag_fields_validate x = Ok tt -> omap (strip_prefix (bstr "tagger ")) (tag_lines x) =
  match tagger x with Some s => [signature_text s] | None => [] end.
Proof.
  intros (_ & _ & HE)%tag_fields_validate_Ok. unfold tag_lines. rewrite !omap_app.
  assert (omap (strip_prefix (bstr "tagger ")) (tag_extra x) = []) as ->.
  { induction HE as [|l ls [_ Hl] _ IH]; [done|]. cbn [omap list_omap]. unfold starts_with in Hl.
    destruct (strip_prefix (bstr "tagger ") l); [done|]. exact IH. }
  rewrite app_nil_r. unfold tagger_lines. destruct (tagger x); reflexivity.
Qed.

Lemma tag_extra_filter x :
  tag_fields_validate x = Ok tt ->
  filter (fun line => starts_with (bstr "tagger ") line = false) (drop 3 (tag_lines x)) = tag_extra x.
Proof.
  intros (_ & _ & HE)%tag_fields_validate_Ok. 
  change (drop 3 (tag_lines x)) with (tagger_lines x ++ tag_extra x). rewrite filter_app.
  rewrite (filter_keep _ (tag_extra x)) by (eapply Forall_impl; [exact HE|naive_solver]).
  unfold tagger_lines. destruct (tagger x); [|done]. rewrite filter_cons_False by done. done.
Qed.

(** Building and reading a tag. *)
Lemma tag_new_read x :
  tag_typed x -> tag_fields_validate x = Ok tt ->
  exists t, tag_new x = Ok t /\ tag_parse (id_format (target x)) (t_payload t) = Ok t /\
    tag_to_fields t = Some (Ok x) /\ tag_validate t = Some (Ok tt).
Proof.
  intros HT HV. set (p := unlines (tag_lines x) ++ 10 :: tag_message x).
  set (t := {| t_target := target x; t_kind := target_kind x; t_payload := p |}).
  assert (tag_parse (id_format (target x)) p = Ok t) as EP by (unfold tag_parse; by rewrite parse_target_new).
  destruct (tag_new_headers x t HT HV eq_refl) as (EH & EN & EM).
  assert (tag_to_fields t = Some (Ok x)) as EF.
  { unfold tag_to_fields, tag_tagger. rewrite EH, tag_tagger_lines, EN, tag_extra_filter, EM by done.
    destruct HT as [_ HS]. apply tag_fields_validate_Ok in HV as (_ & HG & _).
    destruct (tagger x) as [sg|] eqn:ES; cbn [head rbind].
    - destruct (signature_text_parse sg) as (i & Ei & Ej); [auto..|]. rewrite Ei. cbn [map_err rbind].
      rewrite Ej. cbn [map_err rbind]. rewrite <- ES. clear. by destruct x.
    - rewrite <- ES. clear. by destruct x. }
  exists t. split_and!; [by rewrite tag_new_payload|done..|]. unfold tag_validate. rewrite EF. exact (f_equal Some HV).
Qed.

(** [Tag::new] succeeds on all fields that pass validation, and the tag it
    returns is parsed back from its payload to itself and decoded to exactly the
    fields it was built from: target and kind, name, optional tagger, extra header
    lines in order and an arbitrary message. *)
Theorem tag_roundtrip x :
  tag_typed x -> tag_fields_validate x = Ok tt ->
  exists t, tag_new x = Ok t /\ tag_parse (id_format (target x)) (t_payload t) = Ok t /\
    tag_to_fields t = Some (Ok x) /\ tag_validate t = Some (Ok tt).
Proof. apply tag_new_read. Qed.

Definition sample_tag : TagFields :=
  {| target := null FSha256; target_kind := KCommit; tag_name := bstr "v1.0"; tagger := Some sample_person;
     tag_extra := [bstr "gpgsig-sha256 x"; bstr " continued"]; tag_message := bstr "Release" ++ [10; 10; 0; 255] |}.

Lemma tag_roundtrip_witness :
  exists t, tag_new sample_tag = Ok t /\ tag_parse FSha256 (t_payload t) = Ok t /\
    tag_to_fields t = Some (Ok sample_tag) /\ tag_validate t = Some (Ok tt).
Proof.
  apply (tag_roundtrip sample_tag); [|by vm_compute].
  split; [split; [unfold bytes_ok; simpl; repeat constructor; lia|done]|].
  intros s [= <-]. unfold i64_ok. simpl. lia.
Defined.
(** ** Parsed tags *)

Lemma next_required_Ok p l lines :
  next_required (split_inclusive 10 p) = Ok (l, lines) ->
  exists rest, p = l ++ 10 :: rest /\ 10 ∉ l /\ lines = split_inclusive 10 rest.
Proof.
  unfold next_required. destruct (split_once p 10) as [[a b]|] eqn:E.
  - apply split_once_Some in E as [-> Ha]. rewrite split_inclusive_line by done.
    assert (strip_suffix [10] (a ++ [10]) = Some a) as -> by by apply strip_suffix_Some.
    cbn [rbind ok_or]. intros [= <- <-]. eauto.
  - apply split_once_None in E. destruct (split_inclusive 10 p) as [|line ls] eqn:EL; [done|].
    destruct (strip_suffix [10] line) as [k|] eqn:ES; [|done]. apply strip_suffix_Some in ES as ->.
    pose proof (split_inclusive_concat 10 p) as HC. rewrite EL in HC. cbn [concat] in HC.
    exfalso. apply E. rewrite <- HC. set_solver.
Qed.

Lemma tag_required_line_Ok l prefix v : tag_required_line (Some l) prefix = Ok v -> l = prefix ++ v.
Proof. unfold tag_required_line. by intros ?%ok_or_Ok%strip_prefix_Some. Qed.

(** The three records a parsed payload starts with. *)
Lemma parse_target_Ok f p id kind :
  parse_target f p = Ok (id, kind) ->
  exists hex kd n rest, p = (bstr "object " ++ hex) ++ 10 :: (bstr "type " ++ kd) ++ 10 :: (bstr "tag " ++ n) ++ 10 :: rest /\
    10 ∉ bstr "object " ++ hex /\ 10 ∉ bstr "type " ++ kd /\ 10 ∉ bstr "tag " ++ n /\
    zlen hex = digest_len f * 2 /\ from_str hex = Ok id /\ kind_parse kd = Ok kind.
Proof.
  unfold parse_target. intros H.
  apply rbind_Ok in H as ([l1 ls1] & (r1 & -> & H1 & ->)%next_required_Ok & H).
  apply rbind_Ok in H as (hex & ->%tag_required_line_Ok & H). pass_guard H. apply negb_false_iff, Z.eqb_eq in G.
  apply rbind_Ok in H as (id' & Hid & H). destruct (from_str hex) as [i|] eqn:EI; [|done]. injection Hid as ->.
  apply rbind_Ok in H as ([l2 ls2] & (r2 & -> & H2 & ->)%next_required_Ok & H).
  apply rbind_Ok in H as (kd & ->%tag_required_line_Ok & H). apply rbind_Ok in H as (k & HK & H).
  apply rbind_Ok in H as ([l3 ls3] & (r3 & -> & H3 & ->)%next_required_Ok & H).
  apply rbind_Ok in H as (n & ->%tag_required_line_Ok & H). injection H as <- <-.
  exists hex, kd, n, r3. done.
Qed.

Lemma tag_parse_name f p t : tag_parse f p = Ok t -> is_Some (tag_name_of t).
Proof.
  unfold tag_parse. intros H. apply rbind_Ok in H as ([id kind] & HP & [= <-]).
  apply parse_target_Ok in HP as (hex & kd & n & rest & -> & H1 & H2 & H3 & _).
  unfold tag_name_of, tag_headers. cbn [t_payload]. rewrite !split_on_app by done. exists n.
  change (until_empty ((bstr "object " ++ hex) :: (bstr "type " ++ kd) :: (bstr "tag " ++ n) :: split_on 10 rest))
    with ((bstr "object " ++ hex) :: (bstr "type " ++ kd) :: (bstr "tag " ++ n) :: until_empty (split_on 10 rest)).
  cbn [lookup list_lookup]. apply strip_prefix_app.
Qed.

(** The [expect]s of [Tag::name] cannot fail: on every tag that [Tag::parse]
    accepts, however malformed the rest of its payload is, [Tag::name], [to_fields]
    and [validate] return without panic. *)
Theorem parsed_tag_no_panic f p t :
  tag_parse f p = Ok t -> is_Some (tag_name_of t) /\ is_Some (tag_to_fields t) /\ is_Some (tag_validate t).
Proof.
  intros H%tag_parse_name. split; [done|]. destruct H as [n E].
  assert (is_Some (tag_to_fields t)) as [r Er].
  { unfold tag_to_fields. rewrite E. case_match; eauto. }
  unfold tag_validate. rewrite Er. eauto.
Qed.

Lemma parsed_tag_no_panic_witness :
  exists t, tag_parse FSha1 (bstr "object " ++ replicate 40 65 ++ [10] ++ bstr "type tag" ++ [10] ++ bstr "tag " ++ [10]) = Ok t /\
    is_Some (tag_name_of t) /\ is_Some (tag_to_fields t) /\ is_Some (tag_validate t).
Proof.
  eexists. split; [by vm_compute|]. eapply (parsed_tag_no_panic FSha1).
  instantiate (1 := bstr "object " ++ replicate 40 65 ++ [10] ++ bstr "type tag" ++ [10] ++ bstr "tag " ++ [10]).
  by vm_compute.
Defined.
End Tags.
