(* ===== verification/Diff.v ===== *)
(** * Content comparison ([src/src/content_diff.rs], [src/src/content_diff/types.rs],
      [myers.rs], [compact.rs] and [indent.rs])

    Two byte strings are compared as LF-terminated lines: a greedy shortest-edit
    search in the edit graph, a traceback, and a pass that moves changed groups along
    equal lines to a readable boundary.  All work is charged to a budget and a
    cancellation flag is read at every charge.  Indexing out of range and
    [unreachable!] are the error [DPanic]; loops have fuel, and running out of it is
    [OutOfFuel].  This file holds the definitions; [DiffProofs.v] proves that neither
    error is ever returned and that the edits turn one text into the other. *)

From stdpp Require Import base list numbers strings.
From Stdlib Require Import ZArith Lia.
From S2P Require Import Prelude.

Module Diff.

Inductive DiffError :=
| Limit (what : string)
| Cancelled
| DPanic
| OutOfFuel.

(** [Budget]: the work left and the number of loads of the cancellation flag. *)
Record Budget := { remaining : Z; loads : nat }.

(** A half-open range of line numbers or byte offsets. *)
Record ContentEdit := {
  old_lines : nat * nat;
  new_lines : nat * nat;
  old_bytes : Z * Z;
  new_bytes : Z * Z
}.

Inductive BinaryMode := Auto | Text | Binary.
Record Options := { binary : BinaryMode; indent_heuristic : bool }.
Record DiffLimits := { max_input_bytes : Z; max_lines : Z; max_trace : Z; max_work : Z }.

Inductive ContentDiff :=
| Unchanged
| BinaryDiff
| TextDiff (edits : list ContentEdit).

Definition default_limits : DiffLimits :=
  {| max_input_bytes := 64 * 1024 * 1024; max_lines := 1000000; max_trace := 1000000; max_work := 64 * 1024 * 1024 |}.
Definition default_options : Options := {| binary := Auto; indent_heuristic := true |}.

(** [charge]. *)
Definition charge (left_ count : Z) (name : string) : result DiffError Z :=
  ok_or (checked_sub left_ count) (Limit name).

(** [checked_add] of line counts. *)
Definition nat_add (a b : nat) : option nat :=
  if Z.of_nat a + Z.of_nat b <=? usize_max then Some (a + b)%nat else None.

(** [Lines]: the text and the end offset of every line. *)
Record LinesOf := { text : bytes; ends : list Z }.
Definition len (l : LinesOf) : nat := length (ends l).

Section Compare.
(** [cancel n] is the value of the [n]-th load of the flag. *)
Variable cancel : nat -> bool.

Abbreviation M := (SE Budget DiffError).

(** [Budget::check] and [Budget::work]. *)
Definition check : M unit :=
  fun b => (if cancel (loads b) then Err Cancelled else Ok tt,
            {| remaining := remaining b; loads := S (loads b) |}).
Definition work (count : Z) : M unit :=
  let! _ := check in
  fun b => match charge (remaining b) count "work" with
           | Ok r => (Ok tt, {| remaining := r; loads := loads b |})
           | Err e => (Err e, b)
           end.

(** Indexing a vector and slicing bytes. *)
Definition get {St A} (l : list A) (i : nat) : SE St DiffError A := se_lift (ok_or (l !! i) DPanic).
Definition cut {St} (a b : Z) (l : bytes) : SE St DiffError bytes := se_lift (ok_or (slice a b l) DPanic).

(** [equal]: the loop over 4096-byte chunks. *)
Fixpoint equal_chunks (a b : list bytes) : M bool :=
  match a, b with
  | x :: a, y :: b =>
      let! _ := work (zlen x) in
      if bytes_eqb x y then equal_chunks a b else se_ret false
  | _, _ => se_ret true
  end.
Definition equal (old new : bytes) : M bool :=
  if negb (zlen old =? zlen new) then se_ret false
  else equal_chunks (chunks (Z.to_nat 4096) old) (chunks (Z.to_nat 4096) new).

(** [has_nul]. *)
Fixpoint has_nul_chunks (cs : list bytes) : M bool :=
  match cs with
  | [] => se_ret false
  | c :: cs =>
      let! _ := work (zlen c) in
      if contains 0 c then se_ret true else has_nul_chunks cs
  end.
Definition has_nul (bs : bytes) : M bool := has_nul_chunks (chunks (Z.to_nat 4096) bs).

(** [Lines::new]: the newlines of one chunk, which starts at byte [at_]. *)
Fixpoint chunk_ends (at_ : Z) (chunk : bytes) (left_ : Z) (ends : list Z) : result DiffError (Z * list Z) :=
  match chunk with
  | [] => Ok (left_, ends)
  | byte :: chunk =>
      if byte =? 10 then
        let? left_ := charge left_ 1 "lines" in
        chunk_ends (at_ + 1) chunk left_ (ends ++ [at_ + 1])
      else chunk_ends (at_ + 1) chunk left_ ends
  end.
Fixpoint chunks_ends (index : Z) (cs : list bytes) (left_ : Z) (ends : list Z) : M (Z * list Z) :=
  match cs with
  | [] => se_ret (left_, ends)
  | c :: cs =>
      let! _ := work (zlen c) in
      let! (left_, ends) := se_lift (chunk_ends (index * 4096) c left_ ends) in
      chunks_ends (index + 1) cs left_ ends
  end.
Definition lines_new (bs : bytes) (left_ : Z) : M (LinesOf * Z) :=
  let! (left_, ends) := chunks_ends 0 (chunks (Z.to_nat 4096) bs) left_ [] in
  if negb (bytes_eqb bs []) && negb (bool_decide (last bs = Some 10)) then
    let! left_ := se_lift (charge left_ 1 "lines") in
    se_ret ({| text := bs; ends := ends ++ [zlen bs] |}, left_)
  else se_ret ({| text := bs; ends := ends |}, left_).

(** [Lines::offset], [line] and [range]. *)
Definition offset (l : LinesOf) (line : nat) : M Z :=
  match line with O => se_ret 0 | S i => get (ends l) i end.
Definition line (l : LinesOf) (index : nat) : M bytes :=
  let! start := offset l index in
  let! end_ := get (ends l) index in
  cut start end_ (text l).
Definition range (l : LinesOf) (lines : nat * nat) : M (Z * Z) :=
  let! a := offset l lines.1 in
  let! b := offset l lines.2 in
  se_ret (a, b).

(** Comparing a line of one text with a line of another. *)
Definition equal_lines (a : LinesOf) (i : nat) (b : LinesOf) (j : nat) : M bool :=
  let! x := line a i in
  let! y := line b j in
  equal x y.

(** ** The search ([myers.rs]) *)

Definition edit (old new : LinesOf) (ol nl : nat * nat) : M ContentEdit :=
  let! ob := range old ol in
  let! nb := range new nl in
  se_ret {| old_lines := ol; new_lines := nl; old_bytes := ob; new_bytes := nb |}.

(** [new_position]. *)
Definition new_position (x distance slot : nat) : M nat :=
  if (slot <=? distance)%nat then
    let opposite := (distance - slot)%nat in
    se_lift (ok_or (if (slot <=? opposite)%nat then nat_add x (opposite - slot)
                    else if (slot - opposite <=? x)%nat then Some (x - (slot - opposite))%nat else None)
               (Limit "lines"))
  else se_fail DPanic.

(** [deletion]. *)
Definition deletion (previous : list nat) (slot : nat) : M bool :=
  match slot with
  | O => se_ret false
  | S i =>
      if (slot =? length previous)%nat then se_ret true
      else
        let! a := get previous i in
        let! b := get previous slot in
        se_ret (b <=? a)%nat
  end.

(** Following equal lines from [(x, y)]; fuel is the number of lines of [old]. *)
Fixpoint snake (fuel : nat) (old new : LinesOf) (x y : nat) : M (nat * nat) :=
  if ((x <? len old) && (y <? len new))%nat then
    match fuel with
    | O => se_fail OutOfFuel
    | S fuel =>
        let! _ := work 1 in
        let! same := equal_lines old x new y in
        if same then snake fuel old new (S x) (S y) else se_ret (x, y)
    end
  else se_ret (x, y).

(** [edits.last_mut()] extended, or a new edit pushed.  The vector is built from its
    end and reversed at last, so the list has the last element at its head. *)
Definition push_edit (old new : LinesOf) (edits : list ContentEdit) (px ex py ey : nat) : M (list ContentEdit) :=
  match edits with
  | e :: rest =>
      if ((e.(old_lines).1 =? ex) && (e.(new_lines).1 =? ey))%nat then
        let! ob := offset old px in
        let! nb := offset new py in
        se_ret ({| old_lines := (px, e.(old_lines).2); new_lines := (py, e.(new_lines).2);
                   old_bytes := (ob, e.(old_bytes).2); new_bytes := (nb, e.(new_bytes).2) |} :: rest)
      else
        let! n := edit old new (px, ex) (py, ey) in
        se_ret (n :: edits)
  | [] =>
      let! n := edit old new (px, ex) (py, ey) in
      se_ret [n]
  end.

(** The loop of [backtrack], [for distance in (1..=trace.len()).rev()], with its
    [debug_assert_eq!]. *)
Fixpoint backtrack_loop (old new : LinesOf) (trace : list (list nat)) (distance slot x y : nat)
    (edits : list ContentEdit) : M (list ContentEdit) :=
  match distance with
  | O => se_ret edits
  | S d =>
      let! _ := work 1 in
      let! previous := get trace d in
      let! removed := deletion previous slot in
      let previous_slot := if removed then pred slot else slot in
      let! previous_x := get previous previous_slot in
      let! previous_y := new_position previous_x d previous_slot in
      let end_x := if removed then S previous_x else previous_x in
      let end_y := if removed then previous_y else S previous_y in
      if ((end_x <=? x) && (end_y <=? y) && (x - end_x =? y - end_y))%nat then
        let! edits := push_edit old new edits previous_x end_x previous_y end_y in
        backtrack_loop old new trace d previous_slot previous_x previous_y edits
      else se_fail DPanic
  end.
Definition backtrack (old new : LinesOf) (trace : list (list nat)) (slot : nat) : M (list ContentEdit) :=
  let! edits := backtrack_loop old new trace (length trace) slot (len old) (len new) [] in
  let! _ := check in
  se_ret edits.

(** The slots of one distance: the finished row, or the edits. *)
Fixpoint row_loop (old new : LinesOf) (trace : list (list nat)) (distance slot count : nat) (row : list nat)
  : M (list nat + list ContentEdit) :=
  match count with
  | O => se_ret (inl row)
  | S count =>
      let! _ := work 1 in
      let! x :=
        match distance with
        | O => se_ret O
        | S d =>
            let! previous := get trace d in
            let! removed := deletion previous slot in
            if removed then
              let! p := get previous (pred slot) in
              se_lift (ok_or (nat_add p 1) (Limit "lines"))
            else get previous slot
        end in
      let! y := new_position x distance slot in
      let! (x, y) := snake (len old) old new x y in
      let row := row ++ [x] in
      if ((x =? len old) && (y =? len new))%nat then
        let! es := backtrack old new trace slot in
        se_ret (inr es)
      else row_loop old new trace distance (S slot) count row
  end.

(** The loop over distances; [count] distances are left, then [unreachable!]. *)
Fixpoint distance_loop (old new : LinesOf) (trace : list (list nat)) (trace_left : Z) (distance count : nat)
  : M (list ContentEdit) :=
  match count with
  | O => se_fail DPanic
  | S count =>
      let! width := se_lift (ok_or (nat_add distance 1) (Limit "trace")) in
      let! trace_left := se_lift (charge trace_left (Z.of_nat width) "trace") in
      let! _ := check in
      let! r := row_loop old new trace distance 0 width [] in
      match r with
      | inr es => se_ret es
      | inl row => distance_loop old new (trace ++ [row]) trace_left (S distance) count
      end
  end.

(** [myers::edits]. *)
Definition myers (old new : LinesOf) (trace_left : Z) : M (list ContentEdit) :=
  if ((len old =? 0) || (len new =? 0))%nat then
    let! _ := work 1 in
    let! e := edit old new (O, len old) (O, len new) in
    se_ret [e]
  else
    let! total := se_lift (ok_or (nat_add (len old) (len new)) (Limit "lines")) in
    distance_loop old new [] trace_left 0 (S total).

(** ** Boundary scores ([indent.rs]) *)

Record Score := { indent : Z; penalty : Z }.

(** [Score::preferred_to]; [signum] is [Z.sgn]. *)
Definition preferred_to (a b : Score) : bool :=
  7 * Z.sgn (indent a - indent b) + penalty a - penalty b <=? 0.

(** [indentation]; the [i64] columns saturate. *)
Definition saturating_i64 (z : Z) : Z := Z.min z (2 ^ 63 - 1).
Fixpoint indentation (column : Z) (l : bytes) : M (option Z) :=
  match l with
  | [] => se_ret None
  | byte :: l =>
      let! _ := work 1 in
      if byte =? 32 then indentation (saturating_i64 (column + 1)) l
      else if byte =? 9 then indentation (saturating_i64 (column + (8 - column mod 8))) l
      else if contains byte [13; 10; 11; 12] then indentation column l
      else se_ret (Some column)
  end.

(** [neighbour]: [count] is [20 - blanks]. *)
Fixpoint neighbour (lines : LinesOf) (position : nat) (backwards : bool) (blanks : Z) (count : nat)
  : M (option Z * Z) :=
  match count with
  | O => se_ret (None, blanks)
  | S count =>
      let! _ := work 1 in
      if backwards then
        match position with
        | O => se_ret (None, blanks)
        | S index =>
            let! l := line lines index in
            let! i := indentation 0 l in
            match i with
            | Some indent => se_ret (Some indent, blanks)
            | None => neighbour lines index backwards (blanks + 1) count
            end
        end
      else if (position =? len lines)%nat then se_ret (None, blanks)
      else
        let! l := line lines position in
        let! i := indentation 0 l in
        match i with
        | Some indent => se_ret (Some indent, blanks)
        | None => neighbour lines (S position) backwards (blanks + 1) count
        end
  end.

(** [split]. *)
Definition split (lines : LinesOf) (position : nat) : M Score :=
  let! (before, above) := neighbour lines position true 0 20 in
  let! (after, below) := neighbour lines position false 0 20 in
  let relation := match before, after with
                  | _, None => 0
                  | None, _ => 1
                  | Some before, Some after =>
                      match after ?= before with Gt => 0 | Eq => 1 | Lt => 3 end
                  end in
  se_ret {| indent := default (-1) after;
            penalty := relation - 3 * Z.min above 9 - 3 * Z.min below 2 + (if 0 <? below then 1 else 0) |}.

(** [group]. *)
Definition group (lines : LinesOf) (start length : nat) : M Score :=
  let! before := split lines start in
  let! after := split lines (start + length) in
  se_ret {| indent := indent before + indent after; penalty := penalty before + penalty after |}.

(** The loop of [boundary] over [count] candidates from [position]. *)
Fixpoint boundary_loop (lines : LinesOf) (length position count best : nat) (best_score : Score) : M nat :=
  match count with
  | O => se_ret best
  | S count =>
      let! _ := work 1 in
      let! score := group lines position length in
      if preferred_to score best_score then boundary_loop lines length (S position) count position score
      else boundary_loop lines length (S position) count best best_score
  end.

(** [boundary]. *)
Definition boundary (lines : LinesOf) (earliest last length : nat) : M nat :=
  if (earliest =? last)%nat then se_ret last
  else
    let first := Nat.max earliest (last - Nat.min (S length) 100) in
    let! best_score := group lines first length in
    boundary_loop lines length (S first) (last - first) first best_score.

(** ** Moving groups ([compact.rs]) *)

(** [changed[range].fill(true)], which panics on a bad range. *)
Fixpoint fill_true (flags : list bool) (start count : nat) : list bool :=
  match count with
  | O => flags
  | S count => fill_true (<[start := true]> flags) (S start) count
  end.

(** [changed]. *)
Fixpoint changed_loop (flags : list bool) (edits : list ContentEdit) (old : bool) : M (list bool) :=
  match edits with
  | [] => se_ret flags
  | e :: edits =>
      let! _ := work 1 in
      let range := if old then e.(old_lines) else e.(new_lines) in
      let! _ := work (Z.of_nat (range.2 - range.1)) in
      if ((range.1 <=? range.2) && (range.2 <=? length flags))%nat then
        changed_loop (fill_true flags range.1 (range.2 - range.1)) edits old
      else se_fail DPanic
  end.
Definition changed (count : nat) (edits : list ContentEdit) (old : bool) : M (list bool) :=
  let! _ := work (Z.of_nat count) in
  changed_loop (replicate count false) edits old.

(** [changed_boundaries]: [*boundaries.last_mut() = true]. *)
Fixpoint boundaries_loop (boundaries : list bool) (flags : list bool) : M (list bool) :=
  match flags with
  | [] => se_ret boundaries
  | f :: flags =>
      let! _ := work 1 in
      boundaries_loop (if f then <[pred (length boundaries) := true]> boundaries else boundaries ++ [false]) flags
  end.
Definition changed_boundaries (flags : list bool) : M (list bool) := boundaries_loop [false] flags.

(** [group_end]; fuel is the number of flags. *)
Fixpoint group_end (fuel : nat) (flags : list bool) (end_ : nat) : M nat :=
  match flags !! end_ with
  | Some true =>
      match fuel with
      | O => se_fail OutOfFuel
      | S fuel =>
          let! _ := work 1 in
          group_end fuel flags (S end_)
      end
  | _ => se_ret end_
  end.

(** [rotate_up], with the underflow of [*start -= 1] and [*end - 1]. *)
Definition rotate_up (flags : list bool) (start end_ : nat) : M (list bool * nat * nat) :=
  match start, end_ with
  | S s, S e =>
      let! _ := get flags e in
      let flags := <[e := false]> flags in
      let! _ := get flags s in
      se_ret (<[s := true]> flags, s, e)
  | _, _ => se_fail DPanic
  end.

(** [while start > 0 && changed[start - 1]]. *)
Fixpoint absorb_up (flags : list bool) (start : nat) : M nat :=
  match start with
  | O => se_ret O
  | S s =>
      let! f := get flags s in
      if f then
        let! _ := work 1 in
        absorb_up flags s
      else se_ret start
  end.

(** The state of [compact] while it explores a group. *)
Record Group := { flags : list bool; g_start : nat; g_end : nat; g_rank : nat }.

(** [rank -= 1]. *)
Definition dec (rank : nat) : M nat := match rank with O => se_fail DPanic | S r => se_ret r end.

(** The upward phase; fuel is the start of the group. *)
Fixpoint up_loop (fuel : nat) (lines : LinesOf) (g : Group) : M Group :=
  match g_start g with
  | O => se_ret g
  | S s =>
      match g_end g with
      | O => se_fail DPanic
      | S e =>
          let! same := equal_lines lines s lines e in
          if same then
            match fuel with
            | O => se_fail OutOfFuel
            | S fuel =>
                let! (fl, st, en) := rotate_up (flags g) (g_start g) (g_end g) in
                let! rank := dec (g_rank g) in
                let! st := absorb_up fl st in
                up_loop fuel lines {| flags := fl; g_start := st; g_end := en; g_rank := rank |}
            end
          else se_ret g
      end
  end.

(** The downward phase with the last aligned start; fuel is the number of lines. *)
Fixpoint down_loop (fuel : nat) (lines : LinesOf) (boundaries : list bool) (aligned : option nat) (g : Group)
  : M (option nat * Group) :=
  let! _ := work 1 in
  let! b := get boundaries (g_rank g) in
  let aligned := if b then Some (g_start g) else aligned in
  if (g_end g =? length (flags g))%nat then se_ret (aligned, g)
  else
    let! same := equal_lines lines (g_start g) lines (g_end g) in
    if same then
      match fuel with
      | O => se_fail OutOfFuel
      | S fuel =>
          let! _ := get (flags g) (g_start g) in
          let fl := <[g_start g := false]> (flags g) in
          let! _ := get fl (g_end g) in
          let fl := <[g_end g := true]> fl in
          let! en := group_end (length fl) fl (g_end g) in
          down_loop fuel lines boundaries aligned
            {| flags := fl; g_start := S (g_start g); g_end := en; g_rank := S (g_rank g) |}
      end
    else se_ret (aligned, g).

(** The exploring [loop]: it ends when a pass up and down meets no other group. *)
Fixpoint explore (fuel : nat) (lines : LinesOf) (boundaries : list bool) (g : Group)
  : M (option nat * nat * Group) :=
  match fuel with
  | O => se_fail OutOfFuel
  | S fuel =>
      let length_ := (g_end g - g_start g)%nat in
      let! g := up_loop (g_start g) lines g in
      let earliest := g_start g in
      let! (aligned, g) := down_loop (length (flags g)) lines boundaries None g in
      if (g_end g - g_start g =? length_)%nat then se_ret (aligned, earliest, g)
      else explore fuel lines boundaries g
  end.

(** [while start > destination]. *)
Fixpoint settle (fuel : nat) (destination : nat) (g : Group) : M Group :=
  if (destination <? g_start g)%nat then
    match fuel with
    | O => se_fail OutOfFuel
    | S fuel =>
        let! _ := work 1 in
        let! (fl, st, en) := rotate_up (flags g) (g_start g) (g_end g) in
        let! rank := dec (g_rank g) in
        settle fuel destination {| flags := fl; g_start := st; g_end := en; g_rank := rank |}
    end
  else se_ret g.

(** [compact]: the loop over the cursor. *)
Fixpoint compact_loop (fuel : nat) (lines : LinesOf) (boundaries : list bool) (indent_heuristic : bool)
    (fl : list bool) (cursor rank : nat) : M (list bool) :=
  match fl !! cursor with
  | None => se_ret fl
  | Some c =>
      match fuel with
      | O => se_fail OutOfFuel
      | S fuel =>
          let! _ := work 1 in
          if negb c then compact_loop fuel lines boundaries indent_heuristic fl (S cursor) (S rank)
          else
            let! en := group_end (length fl) fl cursor in
            let! (aligned, earliest, g) :=
              explore (S (length fl)) lines boundaries {| flags := fl; g_start := cursor; g_end := en; g_rank := rank |} in
            let! destination :=
              match aligned with
              | Some a => se_ret (Some a)
              | None =>
                  if indent_heuristic then
                    let! d := boundary lines earliest (g_start g) (g_end g - g_start g) in
                    se_ret (Some d)
                  else se_ret None
              end in
            let! g := match destination with
                      | Some d => settle (g_start g) d g
                      | None => se_ret g
                      end in
            compact_loop fuel lines boundaries indent_heuristic (flags g) (g_end g) (g_rank g)
      end
  end.

(** Enough fuel: every group is met once, and at most one walk over the lines goes
    with each. *)
Definition compact_fuel (n : nat) : nat := (S n * S n)%nat.
Definition compact (lines : LinesOf) (fl opposite : list bool) (indent_heuristic : bool) : M (list bool) :=
  let! boundaries := changed_boundaries opposite in
  compact_loop (compact_fuel (length fl)) lines boundaries indent_heuristic fl 0 0.

(** [collect]. *)
Fixpoint collect (fuel : nat) (old new : LinesOf) (removed added : list bool) (x y : nat) (edits : list ContentEdit)
  : M (list ContentEdit) :=
  if ((x <? length removed) || (y <? length added))%nat then
    match fuel with
    | O => se_fail OutOfFuel
    | S fuel =>
        let! _ := work 1 in
        let! end_x := group_end (length removed) removed x in
        let! end_y := group_end (length added) added y in
        if negb (end_x =? x)%nat || negb (end_y =? y)%nat then
          let! e := edit old new (x, end_x) (y, end_y) in
          collect fuel old new removed added end_x end_y (edits ++ [e])
        else collect fuel old new removed added (S x) (S y) edits
    end
  else se_ret edits.

(** [compact::edits]. *)
Definition pair_eqb (a b : nat * nat) : bool := ((a.1 =? b.1) && (a.2 =? b.2))%nat.
Definition compact_edits (old new : LinesOf) (edits : list ContentEdit) (indent_heuristic : bool)
  : M (list ContentEdit) :=
  if match edits with
     | [e] => pair_eqb e.(old_lines) (O, len old) && pair_eqb e.(new_lines) (O, len new)
     | _ => false
     end
  then se_ret edits
  else
    let! removed := changed (len old) edits true in
    let! added := changed (len new) edits false in
    let! removed := compact old removed added indent_heuristic in
    let! added := compact new added removed indent_heuristic in
    collect (S (len old + len new)) old new removed added 0 0 [].

(** [diff_with_options], on a fresh budget. *)
Definition diff_body (old new : bytes) (options : Options) (limits : DiffLimits) : M ContentDiff :=
  let! _ := check in
  let! total := se_lift (ok_or (checked_add (zlen old) (zlen new)) (Limit "input bytes")) in
  if max_input_bytes limits <? total then se_fail (Limit "input bytes")
  else
    let! same := equal old new in
    if same then
      let! _ := check in se_ret Unchanged
    else
      let! is_binary :=
        match binary options with
        | Auto =>
            let! a := has_nul old in
            if a then se_ret true else has_nul new
        | Text => se_ret false
        | Binary => se_ret true
        end in
      if (is_binary : bool) then
        let! _ := check in se_ret BinaryDiff
      else
        let! (ol, left_) := lines_new old (max_lines limits) in
        let! (nl, left_) := lines_new new left_ in
        let! es := myers ol nl (max_trace limits) in
        let! es := compact_edits ol nl es (indent_heuristic options) in
        let! _ := check in
        se_ret (TextDiff es).
Definition diff_with_options (old new : bytes) (options : Options) (limits : DiffLimits) : result DiffError ContentDiff :=
  (diff_body old new options limits {| remaining := max_work limits; loads := O |}).1.
End Compare.

(** [diff]. *)
Definition diff (cancel : nat -> bool) (old new : bytes) (mode : BinaryMode) (limits : DiffLimits) :=
  diff_with_options cancel old new {| binary := mode; indent_heuristic := true |} limits.

End Diff.
