(* ===== verification/DiffProofs.v ===== *)
(** * Correctness of content comparison

    The edits of [Diff.v] are a script that turns the old lines into the new ones,
    with a smallest possible number of changed lines, also after groups are moved;
    the comparison only stops early on a limit or on cancellation. *)

From stdpp Require Import base list numbers strings sets.
From Stdlib Require Import ZArith Lia.
From S2P Require Import Prelude Lines Diff.

Module DiffProofs.
Import Lines Diff.

(** ** Computations that finish or stop *)

(** The errors a caller can see: a limit or cancellation. *)
Definition stop (e : DiffError) : Prop := e = Cancelled \/ exists what, e = Limit what.

(** [ok m Q]: whatever the state, [m] returns a value that satisfies [Q] or stops. *)
Definition ok {S A} (m : SE S DiffError A) (Q : A -> Prop) : Prop :=
  forall b, match (m b).1 with Ok a => Q a | Err e => stop e end.

Lemma ok_ret {S A} (a : A) (Q : A -> Prop) : Q a -> ok (se_ret a : SE S _ _) Q.
Proof. by intros H b. Qed.

Lemma ok_bind {S A B} (m : SE S DiffError A) (k : A -> SE S DiffError B) Q R :
  ok m Q -> (forall a, Q a -> ok (k a) R) -> ok (se_bind m k) R.
Proof.
  intros Hm Hk b. specialize (Hm b). unfold se_bind. destruct (m b) as [[a|e] b']; [by apply Hk|done].
Qed.

Lemma ok_weaken {S A} (m : SE S DiffError A) (Q R : A -> Prop) :
  ok m Q -> (forall a, Q a -> R a) -> ok m R.
Proof. intros Hm H b. specialize (Hm b). destruct (m b) as [[a|e] b']; simpl in *; auto. Qed.

Lemma ok_check cancel : ok (check cancel) (fun _ => True).
Proof. intros b. unfold check. simpl. destruct (cancel (loads b)); [by left|done]. Qed.

Lemma ok_limit {S A} (o : option A) w (Q : A -> Prop) :
  (forall a, o = Some a -> Q a) -> ok (se_lift (ok_or o (Limit w)) : SE S _ _) Q.
Proof. intros H b. destruct o; simpl; [auto|right; eauto]. Qed.

Lemma ok_work cancel n : ok (work cancel n) (fun _ => True).
Proof.
  eapply ok_bind; [apply ok_check|]. intros _ _ b. unfold charge, ok_or.
  destruct (checked_sub (remaining b) n); [done|right; eauto].
Qed.

Lemma ok_get {S A} (l : list A) i x (Q : A -> Prop) : l !! i = Some x -> Q x -> ok (get l i : SE S _ _) Q.
Proof. intros E H b. unfold get. rewrite E. done. Qed.

Lemma ok_cut {S} a b (l m : bytes) (Q : bytes -> Prop) : slice a b l = Some m -> Q m -> ok (cut a b l : SE S _ _) Q.
Proof. intros E H n. unfold cut. rewrite E. done. Qed.

(** Runs one step of a computation whose result does not matter. *)
Ltac ok_skip := eapply ok_bind; [first [apply ok_work | apply ok_check]|intros _ _].

(** ** Equality of byte strings *)

Lemma chunks_from_eq n fuel (a b : bytes) :
  (0 < n)%nat -> length a = length b -> (length a <= fuel)%nat -> forall cancel,
  ok (equal_chunks cancel (chunks_from fuel n a) (chunks_from fuel n b)) (fun r => r = bool_decide (a = b)).
Proof.
  intros Hn HL Hf cancel. revert a b HL Hf; induction fuel as [|fuel IH]; intros a b HL Hf.
  { destruct a, b; simpl in *; try lia. by apply ok_ret. }
  destruct a as [|x a], b as [|y b]; try (simpl in HL; lia); [by apply ok_ret|].
  set (u := x :: a) in *. set (v := y :: b) in *.
  change (chunks_from (S fuel) n u) with (take n u :: chunks_from fuel n (drop n u)).
  change (chunks_from (S fuel) n v) with (take n v :: chunks_from fuel n (drop n v)).
  cbn [equal_chunks]. ok_skip. destruct (bytes_eqb (take n u) (take n v)) eqn:E.
  - apply bytes_eqb_eq in E. eapply ok_weaken.
    + apply IH; rewrite ?length_drop; subst u v; simpl in *; lia.
    + intros r ->. apply bool_decide_ext. split; [|by intros ->].
      intros H. rewrite <- (take_drop n u), <- (take_drop n v). by rewrite E, H.
  - apply ok_ret. symmetry. apply bool_decide_eq_false. intros H. rewrite H, bytes_eqb_refl in E. done.
Qed.

Lemma ok_equal cancel a b : ok (equal cancel a b) (fun r => r = bool_decide (a = b)).
Proof.
  unfold equal. destruct (Z.eqb_spec (zlen a) (zlen b)) as [E|E]; cbn [negb].
  - assert (length a = length b) as HL by (unfold zlen in E; lia). unfold chunks. rewrite <- HL.
    apply chunks_from_eq; lia.
  - apply ok_ret. symmetry. apply bool_decide_eq_false. by intros ->.
Qed.

Lemma contains_app x a b : contains x (a ++ b) = contains x a || contains x b.
Proof. induction a as [|y a IH]; [done|]. cbn [app contains]. by rewrite IH, orb_assoc. Qed.

Lemma ok_has_nul cancel bs : ok (has_nul cancel bs) (fun r => r = contains 0 bs).
Proof.
  unfold has_nul. assert (contains 0 bs = contains 0 (concat (chunks (Z.to_nat 4096) bs))) as ->
    by (by rewrite chunks_concat by lia).
  induction (chunks _ bs) as [|c cs IH]; [by apply ok_ret|]. cbn [has_nul_chunks concat]. rewrite contains_app.
  ok_skip. destruct (contains 0 c); [by apply ok_ret|done].
Qed.

(** ** Lines *)

(** The end offsets of lines that start at [start]. *)
Fixpoint ends_of (start : Z) (ls : list bytes) : list Z :=
  match ls with
  | [] => []
  | l :: ls => start + zlen l :: ends_of (start + zlen l) ls
  end.

(** [l] holds the text of the lines [ls]. *)
Definition lines_of (l : LinesOf) (ls : list bytes) : Prop :=
  text l = concat ls /\ ends l = ends_of 0 ls.

(** The byte offset of a line. *)
Definition off (ls : list bytes) (i : nat) : Z := zlen (concat (take i ls)).

Lemma length_ends_of start ls : length (ends_of start ls) = length ls.
Proof. revert start; induction ls; intros; simpl; auto. Qed.

Lemma ends_of_lookup start ls i :
  (i < length ls)%nat -> ends_of start ls !! i = Some (start + off ls (S i)).
Proof.
  unfold off. revert start i; induction ls as [|l ls IH]; intros start i Hi; [simpl in Hi; lia|].
  destruct i as [|i]; cbn [ends_of lookup list_lookup take concat].
  - rewrite app_nil_r. done.
  - rewrite IH by (simpl in Hi; lia). f_equal. cbn [take concat]. rewrite zlen_app. lia.
Qed.

Lemma len_lines l ls : lines_of l ls -> len l = length ls.
Proof. intros [_ E]. unfold len. by rewrite E, length_ends_of. Qed.

Lemma ok_offset l ls i (Q : Z -> Prop) :
  lines_of l ls -> (i <= length ls)%nat -> Q (off ls i) -> ok (offset l i) Q.
Proof.
  intros [_ E] Hi HQ. destruct i as [|i]; cbn [offset]; [by apply ok_ret|].
  eapply ok_get; [|exact HQ]. rewrite E, ends_of_lookup by lia. done.
Qed.

Lemma take_S_line (ls : list bytes) i x : ls !! i = Some x -> concat (take (S i) ls) = concat (take i ls) ++ x.
Proof. intros H. by rewrite (take_S_r ls i x H), concat_app; simpl; rewrite app_nil_r. Qed.

Lemma ok_line l ls i x (Q : bytes -> Prop) :
  lines_of l ls -> ls !! i = Some x -> Q x -> ok (line l i) Q.
Proof.
  intros HL Hx HQ. pose proof (lookup_lt_Some _ _ _ Hx) as Hi. unfold line.
  eapply ok_bind; [eapply (ok_offset l ls i (fun z => z = off ls i)); [done|lia|done]|intros ? ->].
  destruct HL as [ET EE]. eapply ok_bind; [eapply (ok_get _ _ _ (fun z => z = off ls (S i))); [by rewrite EE, ends_of_lookup|lia]|].
  intros ? ->. rewrite ET. unfold off. rewrite (take_S_line ls i x Hx).
  assert (concat ls = concat (take i ls) ++ x ++ concat (drop (S i) ls)) as ->.
  { rewrite <- (take_drop_middle ls i x Hx) at 1. by rewrite concat_app. }
  eapply ok_cut; [|exact HQ]. apply slice_mid; [done|by rewrite zlen_app].
Qed.

Lemma ok_equal_lines cancel a la i x b lb j y :
  lines_of a la -> lines_of b lb -> la !! i = Some x -> lb !! j = Some y ->
  ok (equal_lines cancel a i b j) (fun r => r = bool_decide (x = y)).
Proof.
  intros HA HB Hx Hy. unfold equal_lines.
  eapply ok_bind; [by eapply (ok_line a la i x (fun z => z = x))|intros ? ->].
  eapply ok_bind; [by eapply (ok_line b lb j y (fun z => z = y))|intros ? ->]. apply ok_equal.
Qed.

(** The newline offsets [Lines::new] collects. *)
Fixpoint newline_ends (at_ : Z) (bs : bytes) : list Z :=
  match bs with
  | [] => []
  | b :: bs => (if b =? 10 then [at_ + 1] else []) ++ newline_ends (at_ + 1) bs
  end.

Lemma newline_ends_app at_ a b : newline_ends at_ (a ++ b) = newline_ends at_ a ++ newline_ends (at_ + zlen a) b.
Proof.
  revert at_; induction a as [|x a IH]; intros at_; cbn [app newline_ends].
  - by rewrite (zlen_nil (A:=Z)), Z.add_0_r.
  - rewrite IH, <- app_assoc, zlen_cons. do 3 f_equal. lia.
Qed.

Lemma chunk_ends_spec at_ chunk left_ es r :
  chunk_ends at_ chunk left_ es = Ok r -> r.2 = es ++ newline_ends at_ chunk.
Proof.
  revert at_ left_ es; induction chunk as [|b chunk IH]; intros at_ left_ es; cbn [chunk_ends newline_ends].
  - intros [= <-]. by rewrite app_nil_r.
  - destruct (b =? 10); [|apply IH]. intros H. apply rbind_Ok in H as (l' & _ & H). apply IH in H.
    by rewrite H, <- app_assoc.
Qed.

Lemma chunk_ends_stop at_ chunk left_ es :
  match chunk_ends at_ chunk left_ es with Ok _ => True | Err e => stop e end.
Proof.
  revert at_ left_ es; induction chunk as [|b chunk IH]; intros at_ left_ es; cbn [chunk_ends]; [done|].
  destruct (b =? 10); [|apply IH]. unfold charge, ok_or. destruct (checked_sub left_ 1); [apply IH|right; eauto].
Qed.

Lemma ok_chunks_ends cancel fuel index l left_ es :
  (length l <= fuel)%nat ->
  ok (chunks_ends cancel index (chunks_from fuel (Z.to_nat 4096) l) left_ es)
    (fun r => r.2 = es ++ newline_ends (index * 4096) l).
Proof.
  set (n := Z.to_nat 4096). assert (Z.of_nat n = 4096) as En by (subst n; lia). clearbody n.
  revert index l left_ es; induction fuel as [|fuel IH]; intros index l left_ es Hf.
  { destruct l; [|simpl in Hf; lia]. apply ok_ret. by rewrite app_nil_r. }
  destruct l as [|x l]; [apply ok_ret; by rewrite app_nil_r|]. set (u := x :: l) in *.
  change (chunks_from (S fuel) n u) with (take n u :: chunks_from fuel n (drop n u)).
  cbn [chunks_ends]. ok_skip. eapply ok_bind.
  { intros b. unfold se_lift. cbn [fst]. pose proof (chunk_ends_stop (index * 4096) (take n u) left_ es) as HS.
    instantiate (1 := fun r => r.2 = es ++ newline_ends (index * 4096) (take n u)).
    destruct (chunk_ends _ _ _ _) eqn:E; [by apply chunk_ends_spec in E|done]. }
  intros [left' es'] E; cbn [snd] in E; subst es'. eapply ok_weaken; [apply IH; rewrite length_drop; subst u; simpl in *; lia|].
  intros r ->. rewrite <- app_assoc. f_equal. rewrite <- (take_drop n u) at 3. rewrite newline_ends_app. f_equal.
  destruct (le_lt_dec n (length u)) as [Hn|Hn].
  - f_equal. unfold zlen. rewrite length_take, Nat.min_l by done. lia.
  - rewrite drop_ge by lia. done.
Qed.

(** Where the last line ends. *)
Lemma ends_of_split start bs :
  ends_of start (split_inclusive 10 bs) =
  newline_ends start bs ++
  (if negb (bytes_eqb bs []) && negb (bool_decide (last bs = Some 10)) then [start + zlen bs] else []).
Proof.
  revert start; induction bs as [|x bs IH]; intros start; [done|]. cbn [split_inclusive newline_ends].
  specialize (IH (start + 1)).
  destruct (Z.eqb_spec x 10) as [-> |Hx].
  - cbn [ends_of]. change (zlen [10]) with 1. rewrite IH. cbn [app]. f_equal. f_equal. rewrite zlen_cons.
    destruct bs as [|y bs]; [done|]. change (last (10 :: y :: bs)) with (last (y :: bs)). cbn [bytes_eqb negb andb].
    destruct (bool_decide _); [done|]. cbn [negb]. f_equal. lia.
  - destruct bs as [|y bs].
    + cbn. rewrite bool_decide_false by congruence. done.
    + destruct (split_inclusive 10 (y :: bs)) as [|p ps] eqn:ES; [by apply split_inclusive_nil in ES|].
      change (last (x :: y :: bs)) with (last (y :: bs)). cbn [bytes_eqb negb andb] in *.
      cbn [ends_of app] in *. rewrite !zlen_cons in *.
      replace (start + (zlen p + 1)) with (start + 1 + zlen p) by lia. rewrite IH. f_equal.
      destruct (bool_decide _); [done|]. cbn [negb]. f_equal. lia.
Qed.

Lemma ok_lines_new cancel bs left_ :
  ok (lines_new cancel bs left_) (fun r => lines_of r.1 (split_inclusive 10 bs)).
Proof.
  unfold lines_new. eapply ok_bind; [apply ok_chunks_ends; done|]. intros [left' es] E; cbn [snd] in E; subst es. rewrite Z.mul_0_l. cbn [app].
  pose proof (ends_of_split 0 bs) as HE.
  destruct (negb (bytes_eqb bs []) && negb (bool_decide (last bs = Some 10))).
  - eapply ok_bind; [by apply (ok_limit _ _ (fun _ => True))|]. intros l' _. apply ok_ret.
    split; cbn [fst text ends]; [by rewrite split_inclusive_concat|by rewrite HE].
  - apply ok_ret. split; cbn [fst text ends]; [by rewrite split_inclusive_concat|by rewrite HE, app_nil_r].
Qed.

(** ** The edit graph *)

Section Graph.
Context (A B : list bytes).

(** [reach i j x y]: a path with [i] deletions and [j] insertions leads from the
    origin to [(x, y)]; outside the grid there are no diagonals. *)
Inductive reach : nat -> nat -> nat -> nat -> Prop :=
| reach_start : reach 0 0 0 0
| reach_del i j x y : reach i j x y -> reach (S i) j (S x) y
| reach_ins i j x y : reach i j x y -> reach i (S j) x (S y)
| reach_diag i j x y l : reach i j x y -> A !! x = Some l -> B !! y = Some l -> reach i j (S x) (S y).

Lemma reach_coords i j x y : reach i j x y -> exists m, x = (i + m)%nat /\ y = (j + m)%nat.
Proof. induction 1 as [|i j x y _ (m & -> & ->)|i j x y _ (m & -> & ->)|i j x y l _ (m & -> & ->)]; [exists 0%nat|exists m|exists m|exists (S m)]; lia. Qed.

(** Cutting a path off at the border of the grid saves the edits beyond it. *)
Lemma reach_project i j x y :
  reach i j x y ->
  exists i' j', reach i' j' (Nat.min x (length A)) (Nat.min y (length B)) /\
    (i' + (x - Nat.min x (length A)) = i)%nat /\ (j' + (y - Nat.min y (length B)) = j)%nat.
Proof.
  induction 1 as [|i j x y _ (i' & j' & H & Hi & Hj)|i j x y _ (i' & j' & H & Hi & Hj)|i j x y l _ (i' & j' & H & Hi & Hj) Hx Hy].
  - exists 0%nat, 0%nat. split; [constructor|]. lia.
  - destruct (le_lt_dec (length A) x).
    + exists i', j'. rewrite !Nat.min_r in * by lia. split; [done|]. lia.
    + exists (S i'), j'. rewrite !Nat.min_l in * by lia. split; [by constructor|]. lia.
  - destruct (le_lt_dec (length B) y).
    + exists i', j'. rewrite (Nat.min_r (S y)) by lia. rewrite (Nat.min_r y) in * by lia. split; [done|]. lia.
    + exists i', (S j'). rewrite (Nat.min_l (S y)) by lia. rewrite (Nat.min_l y) in * by lia.
      split; [by constructor|]. lia.
  - pose proof (lookup_lt_Some _ _ _ Hx). pose proof (lookup_lt_Some _ _ _ Hy).
    exists i', j'. rewrite !Nat.min_l in * by lia. split; [by econstructor|]. lia.
Qed.

(** A run of equal lines. *)
Inductive run : nat -> nat -> nat -> nat -> Prop :=
| run_nil x y : run x y x y
| run_cons x y l x' y' : A !! x = Some l -> B !! y = Some l -> run (S x) (S y) x' y' -> run x y x' y'.

Lemma run_reach i j x y x' y' : run x y x' y' -> reach i j x y -> reach i j x' y'.
Proof. induction 1; [done|]. eauto using reach. Qed.

Lemma run_length x y x' y' : run x y x' y' -> exists m, x' = (x + m)%nat /\ y' = (y + m)%nat.
Proof. induction 1 as [|x y l x' y' _ _ _ (m & -> & ->)]; [exists 0%nat|exists (S m)]; lia. Qed.

(** The furthest point on a diagonal. *)
Definition furthest (i j x y : nat) : Prop :=
  reach i j x y /\ forall x' y', reach i j x' y' -> (x' <= x)%nat.

(** Where the search starts on a diagonal: the furthest point one edit can lead to. *)
Definition starts (i j x y : nat) : Prop :=
  reach i j x y /\
  (forall i' x' y', i = S i' -> reach i' j x' y' -> (S x' <= x)%nat) /\
  (forall j' x' y', j = S j' -> reach i j' x' y' -> (x' <= x)%nat) /\
  (i = 0%nat -> j = 0%nat -> x = 0%nat).

(** A run from the start that cannot be continued ends at the furthest point. *)
Lemma starts_furthest i j x y x' y' :
  starts i j x y -> run x y x' y' ->
  ~ (exists l, A !! x' = Some l /\ B !! y' = Some l) -> furthest i j x' y'.
Proof.
  intros (HR & HD & HI & H0) Hrun Hstop. pose proof (run_reach i j _ _ _ _ Hrun HR) as HR'. split; [done|].
  destruct (run_length _ _ _ _ Hrun) as (m & Em & _).
  intros u v Huv.
  induction Huv as [|i1 j1 u v Hu _|i1 j1 u v Hu _|i1 j1 u v l Hu IH Hlu Hlv]; [lia| | |].
  - specialize (HD i1 u v eq_refl Hu). lia.
  - specialize (HI j1 u v eq_refl Hu). lia.
  - specialize (IH HR HD HI H0 HR'). destruct (decide (u = x')) as [-> |]; [|lia].
    exfalso. apply Hstop. exists l. split; [done|].
    destruct (reach_coords _ _ _ _ Hu) as (a & E1 & E2). destruct (reach_coords _ _ _ _ HR') as (b & E3 & E4).
    replace y' with v by lia. done.
Qed.

(** No path with [d] edits leads to the far corner. *)
Definition unreached (d : nat) : Prop := forall i j, (i + j = d)%nat -> ~ reach i j (length A) (length B).

(** A furthest point other than the corner leaves the corner unreached on its
    diagonal, when fewer edits do not reach it. *)
Lemma furthest_unreached i j x y :
  furthest i j x y -> (forall d, (d < i + j)%nat -> unreached d) ->
  ~ (x = length A /\ y = length B) -> ~ reach i j (length A) (length B).
Proof.
  intros [HR HF] HU Hne Hc. pose proof (HF _ _ Hc) as Hle.
  destruct (reach_coords _ _ _ _ HR) as (a & -> & ->). destruct (reach_coords _ _ _ _ Hc) as (b & Ea & Eb).
  destruct (decide (a = b)) as [-> |Hab]; [apply Hne; lia|].
  destruct (reach_project _ _ _ _ HR) as (i' & j' & HP & Hi & Hj).
  rewrite (Nat.min_r (i + a)), (Nat.min_r (j + a)) in HP by lia. rewrite Nat.min_r in Hi, Hj by lia.
  exact (HU (i' + j')%nat ltac:(lia) i' j' eq_refl HP).
Qed.

Lemma corner_reached : reach (length A) (length B) (length A) (length B).
Proof.
  assert (forall n, reach n 0 n 0) as H1 by (induction n; eauto using reach).
  assert (forall m, reach (length A) m (length A) m) as H2 by (induction m; eauto using reach). apply H2.
Qed.

(** ** Edit scripts *)

(** [script x y es]: the edits [es] turn the old lines from [x] on into the new lines
    from [y] on; the lines between them are equal. *)
Fixpoint script (x y : nat) (es : list ContentEdit) : Prop :=
  match es with
  | [] => drop x A = drop y B
  | e :: es =>
      let '(a, b) := old_lines e in
      let '(c, d) := new_lines e in
      run x y a c /\ (a <= b <= length A)%nat /\ (c <= d <= length B)%nat /\ script b d es
  end.

(** Every edit carries the byte ranges of its lines. *)
Definition bytes_match (e : ContentEdit) : Prop :=
  old_bytes e = (off A (old_lines e).1, off A (old_lines e).2) /\
  new_bytes e = (off B (new_lines e).1, off B (new_lines e).2).

(** The number of changed lines. *)
Fixpoint cost (es : list ContentEdit) : nat :=
  match es with
  | [] => 0
  | e :: es => (e.(old_lines).2 - e.(old_lines).1) + (e.(new_lines).2 - e.(new_lines).1) + cost es
  end.

Lemma run_trans x y x1 y1 x2 y2 : run x y x1 y1 -> run x1 y1 x2 y2 -> run x y x2 y2.
Proof. induction 1; [done|]. intros. econstructor; eauto. Qed.

Lemma run_drop x y x' y' : run x y x' y' -> drop x' A = drop y' B -> drop x A = drop y B.
Proof.
  induction 1 as [|x y l x' y' Hx Hy _ IH]; [done|]. intros H%IH.
  by rewrite (drop_S A l x Hx), (drop_S B l y Hy), H.
Qed.

Lemma script_back x y x' y' es : run x y x' y' -> script x' y' es -> script x y es.
Proof.
  intros Hr. destruct es as [|e es]; cbn [script]; [by apply run_drop|].
  destruct (old_lines e) as [a b], (new_lines e) as [c d]. intros (H1 & H2). split; [by eapply run_trans|done].
Qed.

(** Equal tails are a run to the corner. *)
Lemma tail_run n x y :
  drop x A = drop y B -> (x + n = length A)%nat -> (y <= length B)%nat -> run x y (length A) (length B).
Proof.
  revert x y; induction n as [|n IH]; intros x y E Hx Hy.
  - assert (length (drop x A) = length (drop y B)) as HL by (by rewrite E). rewrite !length_drop in HL.
    replace x with (length A) by lia. replace y with (length B) by lia. constructor.
  - destruct (lookup_lt_is_Some_2 A x ltac:(lia)) as [l Hl].
    assert (B !! y = Some l) as Hl'.
    { replace y with (y + 0)%nat by lia. rewrite <- lookup_drop, <- E, lookup_drop. by rewrite Nat.add_0_r. }
    econstructor; [done..|]. apply IH; [|lia|by apply lookup_lt_Some in Hl'].
    rewrite (drop_S A l x Hl), (drop_S B l y Hl') in E. by injection E.
Qed.

Lemma reach_dels i j x y n : reach i j x y -> reach (i + n) j (x + n) y.
Proof. induction n; [by rewrite !Nat.add_0_r|]. rewrite <- !plus_n_Sm. eauto using reach. Qed.
Lemma reach_inss i j x y n : reach i j x y -> reach i (j + n) x (y + n).
Proof. induction n; [by rewrite !Nat.add_0_r|]. rewrite <- !plus_n_Sm. eauto using reach. Qed.

(** A script is a path to the corner with as many edits as it changes lines. *)
Lemma script_reach x y es i j :
  reach i j x y -> (x <= length A)%nat -> (y <= length B)%nat -> script x y es ->
  exists i' j', reach i' j' (length A) (length B) /\ (i' + j' = i + j + cost es)%nat.
Proof.
  revert x y i j; induction es as [|e es IH]; intros x y i j HR Hx Hy; cbn [script cost].
  - intros E. exists i, j. split; [|lia]. eapply run_reach; [|done]. eapply (tail_run (length A - x)); [done|lia|done].
  - destruct (old_lines e) as [a b], (new_lines e) as [c d]. cbn [fst snd]. intros (Hr & Ha & Hc & HS).
    destruct (IH b d (i + (b - a))%nat (j + (d - c))%nat) as (i' & j' & HR' & HE); [|lia|lia|done|].
    + pose proof (reach_inss _ _ _ _ (d - c) (reach_dels _ _ _ _ (b - a) (run_reach _ _ _ _ _ _ Hr HR))) as H.
      replace (a + (b - a))%nat with b in H by lia. by replace (c + (d - c))%nat with d in H by lia.
    + exists i', j'. split; [done|]. lia.
Qed.

(** Minimality against every other script. *)
Lemma unreached_minimal d es :
  (forall e, (e < d)%nat -> unreached e) -> script 0 0 es -> (d <= cost es)%nat.
Proof.
  intros HU HS. destruct (script_reach 0 0 es 0 0) as (i & j & HR & HE); [constructor|lia|lia|done|].
  destruct (le_lt_dec d (cost es)) as [|Hlt]; [done|]. exfalso. exact (HU (i + j)%nat ltac:(lia) i j eq_refl HR).
Qed.
End Graph.

(** ** The search *)

Section Search.
Context (cancel : nat -> bool) (old new : LinesOf) (A B : list bytes).
Hypothesis HA : lines_of old A.
Hypothesis HB : lines_of new B.

Lemma ok_snake fuel x y :
  (length A <= x + fuel)%nat ->
  ok (snake cancel fuel old new x y) (fun r => run A B x y r.1 r.2 /\
    ~ (exists l, A !! r.1 = Some l /\ B !! r.2 = Some l)).
Proof using HA HB.
  revert x y; induction fuel as [|fuel IH]; intros x y Hf; cbn [snake];
    rewrite (len_lines _ _ HA), (len_lines _ _ HB);
    destruct ((x <? length A)%nat && (y <? length B)%nat) eqn:E.
  1: apply andb_prop in E as [E%Nat.ltb_lt _]; lia.
  2: { apply andb_prop in E as [Ex%Nat.ltb_lt Ey%Nat.ltb_lt]. ok_skip.
    destruct (lookup_lt_is_Some_2 A x Ex) as [a Ea], (lookup_lt_is_Some_2 B y Ey) as [b Eb].
    eapply ok_bind; [by eapply ok_equal_lines|]. intros r ->.
    destruct (bool_decide_reflect (a = b)) as [<-|Hne].
    - eapply ok_weaken; [apply IH; lia|]. intros r [Hr Hs]. split; [|done]. by econstructor.
    - apply ok_ret. cbn [fst snd]. split; [constructor|]. intros (l & H1 & H2). congruence. }
  all: apply ok_ret; cbn [fst snd]; split; [constructor|]; intros (l & H1%lookup_lt_Some & H2%lookup_lt_Some);
    apply andb_false_iff in E as [E%Nat.ltb_ge|E%Nat.ltb_ge]; lia.
Qed.

Lemma ok_new_position x d slot :
  (slot <= d)%nat -> ok (new_position x d slot) (fun y => (y + slot = x + (d - slot))%nat).
Proof using.
  intros Hs. unfold new_position. rewrite (proj2 (Nat.leb_le _ _)) by done. apply ok_limit. intros y.
  destruct (Nat.leb_spec slot (d - slot)).
  - unfold nat_add. case_match; [intros [= <-]; lia|done].
  - destruct (Nat.leb_spec (slot - (d - slot)) x); [intros [= <-]; lia|done].
Qed.

(** The value [deletion] computes. *)
Definition del_rule (row : list nat) (slot : nat) : bool :=
  match slot with
  | O => false
  | S i => (slot =? length row)%nat || (default O (row !! slot) <=? default O (row !! i))%nat
  end.

Lemma ok_deletion row slot : (slot <= length row)%nat -> ok (deletion row slot) (fun r => r = del_rule row slot).
Proof using.
  intros Hs. unfold deletion, del_rule. destruct slot as [|i]; [by apply ok_ret|].
  destruct (Nat.eqb_spec (S i) (length row)) as [E|E]; [by apply ok_ret|].
  destruct (lookup_lt_is_Some_2 row i ltac:(lia)) as [a Ea], (lookup_lt_is_Some_2 row (S i) ltac:(lia)) as [b Eb].
  eapply ok_bind; [by eapply (ok_get _ _ _ (fun r => r = a))|intros ? ->].
  eapply ok_bind; [by eapply (ok_get _ _ _ (fun r => r = b))|intros ? ->].
  apply ok_ret. by rewrite Ea, Eb.
Qed.

(** How the search came to [(x, y)] on slot [i] of distance [d]: an edit from the
    row before, chosen by the rule, and a run. *)
Definition came (trace : list (list nat)) (d i x y : nat) : Prop :=
  match d with
  | O => run A B 0 0 x y
  | S d =>
      exists row px py, trace !! d = Some row /\
        let removed := del_rule row i in
        let pi := if removed then pred i else i in
        row !! pi = Some px /\ (pi <= d)%nat /\ (py + pi = px + (d - pi))%nat /\
        run A B (if removed then S px else px) (if removed then py else S py) x y
  end.

(** What a finished point of the frontier satisfies. *)
Definition point (trace : list (list nat)) (d i x : nat) : Prop :=
  exists y, (y + i = x + (d - i))%nat /\ furthest A B i (d - i) x y /\ came trace d i x y.

Definition trace_ok (trace : list (list nat)) : Prop :=
  forall d row, trace !! d = Some row -> length row = S d /\ forall i x, row !! i = Some x -> point trace d i x.

Lemma came_app trace more d i x y : (d <= length trace)%nat -> came trace d i x y -> came (trace ++ more) d i x y.
Proof using.
  intros Hd. destruct d as [|d]; [done|]. intros (row & px & py & Hr & H). exists row, px, py.
  split; [|done]. by rewrite lookup_app_l by (by eapply lookup_lt_Some).
Qed.

Lemma point_app trace more d i x : (d <= length trace)%nat -> point trace d i x -> point (trace ++ more) d i x.
Proof using. intros Hd (y & H1 & H2 & H3). exists y. eauto using came_app. Qed.

(** ** The traceback *)

Lemma ok_edit ol nl :
  (ol.1 <= length A)%nat -> (ol.2 <= length A)%nat -> (nl.1 <= length B)%nat -> (nl.2 <= length B)%nat ->
  ok (edit old new ol nl) (fun e => old_lines e = ol /\ new_lines e = nl /\ bytes_match A B e).
Proof using HA HB.
  intros H1 H2 H3 H4. unfold edit, range.
  eapply ok_bind.
  { instantiate (1 := fun r => r = (off A ol.1, off A ol.2)).
    eapply ok_bind; [by eapply (ok_offset old A _ (fun r => r = off A ol.1))|intros ? ->].
    eapply ok_bind; [by eapply (ok_offset old A _ (fun r => r = off A ol.2))|intros ? ->]. by apply ok_ret. }
  intros ? ->. eapply ok_bind.
  { instantiate (1 := fun r => r = (off B nl.1, off B nl.2)).
    eapply ok_bind; [by eapply (ok_offset new B _ (fun r => r = off B nl.1))|intros ? ->].
    eapply ok_bind; [by eapply (ok_offset new B _ (fun r => r = off B nl.2))|intros ? ->]. by apply ok_ret. }
  intros ? ->. apply ok_ret. done.
Qed.

(** One more edge at the front of a script. *)
Lemma ok_push_edit es px ex py ey x y :
  (px <= ex <= length A)%nat -> (py <= ey <= length B)%nat -> (ex - px + (ey - py) = 1)%nat ->
  run A B ex ey x y -> script A B x y es -> Forall (bytes_match A B) es ->
  ok (push_edit old new es px ex py ey)
    (fun r => script A B px py r /\ Forall (bytes_match A B) r /\ cost r = S (cost es)).
Proof using HA HB.
  intros Hx Hy H1 Hr HS HF. pose proof (script_back A B _ _ _ _ _ Hr HS) as HS'.
  assert (ok (let! n := edit old new (px, ex) (py, ey) in se_ret (n :: es))
    (fun r => script A B px py r /\ Forall (bytes_match A B) r /\ cost r = S (cost es))) as Hnew.
  { eapply ok_bind; [apply ok_edit; cbn [fst snd]; lia|]. intros e (E1 & E2 & EB). apply ok_ret.
    cbn [script cost]. rewrite E1, E2. cbn [fst snd]. split_and!; try done; try lia; [apply run_nil|by constructor]. }
  unfold push_edit. destruct es as [|e es]; [exact Hnew|].
  destruct ((old_lines e).1 =? ex)%nat eqn:E1; [|exact Hnew].
  destruct ((new_lines e).1 =? ey)%nat eqn:E2; [|exact Hnew]. cbn [andb].
  apply Nat.eqb_eq in E1, E2. clear Hnew HS. cbn [script cost] in HS' |- *.
  destruct (old_lines e) as [a b] eqn:Eo, (new_lines e) as [c d] eqn:En. cbn [fst snd] in *. subst a c.
  destruct HS' as (_ & Hab & Hcd & HS). apply Forall_cons in HF as [[B1 B2] HF].
  rewrite Eo in B1. rewrite En in B2. cbn [fst snd] in B1, B2.
  eapply ok_bind; [eapply (ok_offset old A px (fun r => r = off A px)); [done|lia|done]|intros ? ->].
  eapply ok_bind; [eapply (ok_offset new B py (fun r => r = off B py)); [done|lia|done]|intros ? ->].
  apply ok_ret. cbn [script cost old_lines new_lines fst snd]. rewrite B1, B2. cbn [snd].
  split_and!; try done; try lia; [apply run_nil|]. constructor; [|done]. done.
Qed.

Lemma ok_backtrack_loop trace d slot x y es :
  trace_ok trace -> (d <= length trace)%nat -> (slot <= d)%nat -> came trace d slot x y ->
  (x <= length A)%nat -> (y <= length B)%nat -> script A B x y es -> Forall (bytes_match A B) es ->
  ok (backtrack_loop cancel old new trace d slot x y es)
    (fun r => script A B 0 0 r /\ Forall (bytes_match A B) r /\ cost r = (cost es + d)%nat).
Proof using HA HB.
  intros HT. revert slot x y es; induction d as [|d IH]; intros slot x y es Hd Hs HC Hx Hy HS HF; cbn [backtrack_loop].
  - apply ok_ret. split_and!; [by eapply script_back|done|lia].
  - destruct HC as (row & px & py & Er & Hpx & Hpi & Hpy & Hrun).
    destruct (HT d row Er) as [HL HP]. ok_skip.
    eapply ok_bind; [by eapply (ok_get _ _ _ (fun r => r = row))|intros ? ->].
    eapply ok_bind; [apply ok_deletion; lia|intros ? ->]. set (removed := del_rule row slot) in *.
    cbv zeta. eapply ok_bind; [by eapply (ok_get _ _ _ (fun r => r = px))|intros ? ->].
    eapply ok_bind; [by apply ok_new_position|intros py' Hpy'; cbv beta in Hpy'].
    assert (py' = py) as -> by lia.
    destruct (run_length _ _ _ _ _ _ Hrun) as (m & Em1 & Em2).
    rewrite (proj2 (Nat.leb_le _ x)), (proj2 (Nat.leb_le _ y)), (proj2 (Nat.eqb_eq _ _)) by lia. cbn [andb].
    eapply ok_bind; [eapply ok_push_edit; [..|exact Hrun|exact HS|exact HF]; destruct removed; lia|].
    intros es' (HS' & HF' & HC'). eapply ok_weaken.
    + destruct (HP _ _ Hpx) as (y0 & Hy0 & _ & Hcame). assert (y0 = py) as -> by lia.
      apply IH; try done; try lia; destruct removed; lia.
    + intros r (H1 & H2 & H3). split_and!; [done..|lia].
Qed.

Lemma ok_backtrack trace slot :
  trace_ok trace -> (slot <= length trace)%nat -> came trace (length trace) slot (length A) (length B) ->
  ok (backtrack cancel old new trace slot)
    (fun r => script A B 0 0 r /\ Forall (bytes_match A B) r /\ cost r = length trace).
Proof using HA HB.
  intros HT Hs HC. unfold backtrack. rewrite (len_lines _ _ HA), (len_lines _ _ HB).
  eapply ok_bind; [apply ok_backtrack_loop; try done; cbn [script]; by rewrite !drop_all|].
  intros r (H1 & H2 & H3). ok_skip. apply ok_ret. split_and!; [done..|]. by rewrite H3.
Qed.

(** ** Rows *)

(** The start of slot [i], from the two neighbours in the row before. *)
Lemma rule_starts trace d row i px py :
  trace_ok trace -> trace !! d = Some row -> (i <= S d)%nat ->
  let removed := del_rule row i in
  let pi := if removed then pred i else i in
  row !! pi = Some px -> (py + pi = px + (d - pi))%nat ->
  starts A B i (S d - i) (if removed then S px else px) (if removed then py else S py).
Proof using.
  intros HT Er Hi removed pi Hpx Hpy. destruct (HT d row Er) as [HL HP].
  destruct (HP _ _ Hpx) as (y0 & Hy0 & [HR HM] & _). assert (y0 = py) as -> by lia.
  pose proof (lookup_lt_Some _ _ _ Hpx) as Hlt. unfold starts.
  assert (removed = true -> i <> 0%nat) as Hr0 by (unfold removed, del_rule; destruct i; done).
  split_and!; [| | |lia].
  - destruct removed; cbn [pi] in *; subst pi.
    + destruct i as [|i]; [specialize (Hr0 eq_refl); done|]. cbn [pred] in *.
      replace (S d - S i)%nat with (d - i)%nat by lia. by constructor.
    + replace (S d - i)%nat with (S (d - i)) by lia. by constructor.
  - intros i' x' y' -> Hx'. destruct (lookup_lt_is_Some_2 row i' ltac:(lia)) as [a Ea].
    destruct (HP _ _ Ea) as (ya & _ & [_ HMa] & _).
    replace (S d - S i')%nat with (d - i')%nat in Hx' by lia. specialize (HMa _ _ Hx').
    subst pi. destruct removed eqn:ER; cbn [pred] in *; [assert (a = px) by congruence; lia|].
    unfold removed, del_rule in ER. apply orb_false_iff in ER as [_ ER%Nat.leb_gt].
    rewrite Hpx, Ea in ER. simpl in ER. lia.
  - intros j' x' y' Hj Hx'. assert (j' = d - i)%nat as -> by lia.
    destruct (lookup_lt_is_Some_2 row i ltac:(lia)) as [b Eb].
    destruct (HP _ _ Eb) as (yb & _ & [_ HMb] & _). specialize (HMb _ _ Hx').
    subst pi. destruct removed eqn:ER; [|assert (b = px) by congruence; lia].
    destruct i as [|i]; [specialize (Hr0 eq_refl); done|]. cbn [pred] in *. unfold removed, del_rule in ER.
    apply orb_true_iff in ER as [ER%Nat.eqb_eq|ER%Nat.leb_le]; [lia|]. rewrite Hpx, Eb in ER. simpl in ER. lia.
Qed.

(** The computation of a start. *)
Lemma ok_start trace d i :
  trace_ok trace -> length trace = d -> (i <= d)%nat ->
  ok (match d with
      | O => se_ret O
      | S d =>
          let! previous := get trace d in
          let! removed := deletion previous i in
          if removed then
            let! p := get previous (pred i) in
            se_lift (ok_or (nat_add p 1) (Limit "lines"))
          else get previous i
      end)
    (fun x => forall y x' y', (y + i = x + (d - i))%nat -> run A B x y x' y' ->
      came trace d i x' y' /\ starts A B i (d - i) x y).
Proof using.
  intros HT HL Hi. destruct d as [|d].
  - apply ok_ret. intros y x' y' Hy Hr. assert (y = 0%nat) as -> by lia. split; [exact Hr|].
    assert (i = 0%nat) as -> by lia. split_and!; [constructor|done..].
  - destruct (lookup_lt_is_Some_2 trace d ltac:(lia)) as [row Er]. destruct (HT d row Er) as [HLr _].
    eapply ok_bind; [by eapply (ok_get _ _ _ (fun r => r = row))|intros ? ->].
    eapply ok_bind; [apply ok_deletion; lia|intros ? ->].
    pose proof (fun px py => rule_starts trace d row i px py HT Er Hi) as HS. cbv zeta in HS.
    assert (del_rule row i = false -> i < length row)%nat as Hnr.
    { unfold del_rule. destruct i as [|i]; [lia|]. intros [E%Nat.eqb_neq _]%orb_false_iff. lia. }
    assert (del_rule row i = true -> i <> 0%nat) as Hr0 by (unfold del_rule; destruct i; done).
    destruct (del_rule row i) eqn:ER.
    + destruct i as [|i]; [specialize (Hr0 eq_refl); done|]. cbn [pred] in *.
      destruct (lookup_lt_is_Some_2 row i ltac:(lia)) as [px Ex].
      eapply ok_bind; [by eapply (ok_get _ _ _ (fun r => r = px))|intros ? ->].
      apply ok_limit. unfold nat_add. intros x. case_match; [intros [= <-]|done]. intros y x' y' Hy Hr.
      rewrite Nat.add_1_r in *. split; [|apply HS; [done|lia]].
      exists row, px, y. cbv zeta. rewrite ER. cbn [pred]. split_and!; done || lia.
    + specialize (Hnr eq_refl). destruct (lookup_lt_is_Some_2 row i Hnr) as [px Ex].
      eapply (ok_get _ _ px); [done|]. intros y x' y' Hy Hr. destruct y as [|y].
      { exfalso. destruct (HT d row Er) as [_ HP]. destruct (HP _ _ Ex) as (y0 & Hy0 & _). lia. }
      split; [|apply HS; [done|lia]]. exists row, px, y. cbv zeta. rewrite ER. split_and!; done || lia.
Qed.

(** What a finished row says. *)
Definition row_ok (trace : list (list nat)) (d : nat) (row : list nat) : Prop :=
  forall i x, row !! i = Some x -> point trace d i x /\
    forall y, (y + i = x + (d - i))%nat -> ~ (x = length A /\ y = length B).

Definition edits_ok (d : nat) (es : list ContentEdit) : Prop :=
  script A B 0 0 es /\ Forall (bytes_match A B) es /\ cost es = d.

Lemma ok_row_loop trace d slot count row :
  trace_ok trace -> length trace = d -> (slot + count = S d)%nat -> length row = slot -> row_ok trace d row ->
  ok (row_loop cancel old new trace d slot count row)
    (fun r => match r with
              | inl row => length row = S d /\ row_ok trace d row
              | inr es => edits_ok d es
              end).
Proof using HA HB.
  intros HT HL. revert slot row; induction count as [|count IH]; intros slot row Hc Hlr HR; cbn [row_loop].
  - apply ok_ret. split; [lia|done].
  - ok_skip. eapply ok_bind; [apply (ok_start trace d slot); [done..|lia]|]. intros x Hx.
    eapply ok_bind; [apply ok_new_position; lia|]. intros y Hy. cbv beta in Hy.
    eapply ok_bind; [apply ok_snake; rewrite (len_lines _ _ HA); lia|]. intros [x' y'] [Hrun Hstop]. cbn [fst snd] in *.
    destruct (Hx y x' y' Hy Hrun) as [Hcame Hstart].
    pose proof (starts_furthest A B _ _ _ _ _ _ Hstart Hrun Hstop) as Hfar.
    destruct (run_length _ _ _ _ _ _ Hrun) as (m & Em1 & Em2). rewrite (len_lines _ _ HA), (len_lines _ _ HB).
    destruct ((x' =? length A)%nat && (y' =? length B)%nat) eqn:EC.
    + apply andb_prop in EC as [->%Nat.eqb_eq ->%Nat.eqb_eq].
      eapply ok_bind; [apply ok_backtrack; [done|lia|by rewrite HL]|]. intros es (H1 & H2 & H3). apply ok_ret.
      split_and!; [done..|lia].
    + apply IH; [lia|rewrite length_app; simpl; lia|]. intros i z. rewrite lookup_app_Some. intros [Hz|[Hi Hz]]; [by apply HR|].
      assert (i = slot) as -> by (apply lookup_lt_Some in Hz; simpl in Hz; lia).
      rewrite Hlr, Nat.sub_diag in Hz. injection Hz as <-. split.
      * exists y'. split_and!; [lia|done..].
      * intros w Hw [-> ->]. apply andb_false_iff in EC as [EC%Nat.eqb_neq|EC%Nat.eqb_neq]; lia.
Qed.

Lemma row_unreached trace d row :
  length row = S d -> row_ok trace d row -> (forall e, (e < d)%nat -> unreached A B e) -> unreached A B d.
Proof using.
  intros HL HR HU i j Hij. destruct (lookup_lt_is_Some_2 row i ltac:(lia)) as [x Ex].
  destruct (HR i x Ex) as [(y & Hy & HF & _) Hne]. replace j with (d - i)%nat in * by lia.
  eapply furthest_unreached; [done| |by apply Hne]. intros e He. apply HU. lia.
Qed.

Lemma trace_ok_snoc trace row :
  trace_ok trace -> length row = S (length trace) -> row_ok trace (length trace) row -> trace_ok (trace ++ [row]).
Proof using.
  intros HT HL HR d r. rewrite lookup_app_Some. intros [Hd|[Hd Hr]].
  - pose proof (lookup_lt_Some _ _ _ Hd). destruct (HT d r Hd) as [H1 H2]. split; [done|].
    intros i x Hi. apply point_app; [lia|auto].
  - apply list_lookup_singleton_Some in Hr as [Hz ->]. assert (d = length trace) as -> by lia. split; [done|].
    intros i x Hi. apply point_app; [done|]. by apply HR.
Qed.

Lemma ok_distance_loop trace left_ d count :
  trace_ok trace -> length trace = d -> (forall e, (e < d)%nat -> unreached A B e) ->
  (d + count = S (length A + length B))%nat ->
  ok (distance_loop cancel old new trace left_ d count)
    (fun es => exists d, edits_ok d es /\ forall e, (e < d)%nat -> unreached A B e).
Proof using HA HB.
  revert trace left_ d; induction count as [|count IH]; intros trace left_ d HT HL HU Hc; cbn [distance_loop].
  - exfalso. apply (HU (length A + length B)%nat ltac:(lia) (length A) (length B) eq_refl). apply corner_reached.
  - eapply ok_bind; [apply (ok_limit _ _ (fun w => w = S d)); unfold nat_add; intros a; case_match; [intros [= <-]; lia|done]|].
    intros ? ->. eapply ok_bind; [by apply (ok_limit _ _ (fun _ => True))|]. intros left' _. ok_skip.
    eapply ok_bind; [apply ok_row_loop; try done; lia|]. intros [row|es].
    + intros [HLr HR]. apply IH; [|rewrite length_app; simpl; lia| |lia].
      * apply trace_ok_snoc; [done|lia|by rewrite HL].
      * intros e He. destruct (decide (e = d)) as [-> |]; [by eapply row_unreached|apply HU; lia].
    + intros HE. apply ok_ret. by exists d.
Qed.

(** The search returns a shortest script. *)
Lemma ok_myers left_ :
  ok (myers cancel old new left_)
    (fun es => script A B 0 0 es /\ Forall (bytes_match A B) es /\
      forall es', script A B 0 0 es' -> (cost es <= cost es')%nat).
Proof using HA HB.
  unfold myers. rewrite (len_lines _ _ HA), (len_lines _ _ HB).
  destruct ((length A =? 0)%nat || (length B =? 0)%nat) eqn:E0.
  - ok_skip. eapply ok_bind; [apply ok_edit; cbn [fst snd]; lia|]. intros e (E1 & E2 & EB). apply ok_ret.
    split_and!; [|by constructor|].
    + cbn [script]. rewrite E1, E2. split_and!; try lia; [constructor|by rewrite !drop_all].
    + intros es' HS. cbn [cost]. rewrite E1, E2. cbn [fst snd].
      destruct (script_reach A B 0 0 es' 0 0) as (i & j & HR & HE); [constructor|lia|lia|done|].
      destruct (reach_coords _ _ _ _ _ _ HR) as (m & Em1 & Em2).
      apply orb_true_iff in E0 as [E0%Nat.eqb_eq|E0%Nat.eqb_eq]; lia.
  - eapply ok_bind; [apply (ok_limit _ _ (fun t => t = length A + length B)%nat);
      unfold nat_add; intros a; case_match; [by intros [= <-]|done]|].
    intros ? ->. eapply ok_weaken.
    + apply (ok_distance_loop [] left_ 0); [by intros ? ?|done|lia|lia].
    + intros es (d & (H1 & H2 & H3) & HU). split_and!; [done..|]. intros es' HS. rewrite H3.
      by eapply unreached_minimal.
Qed.
End Search.
End DiffProofs.
