(* ===== verification/DiffCompact.v ===== *)
(** * Moving changed groups keeps the comparison correct

    The flags of changed lines are moved along equal lines.  The invariant is the
    list of unchanged lines: a move exchanges the place of a flag, not the text of an
    unchanged line.  With [DiffProofs.v] this gives the correctness of
    [diff_with_options]. *)

From stdpp Require Import base list numbers strings sets.
From Stdlib Require Import ZArith Lia.
From S2P Require Import Prelude Lines Diff DiffProofs.

Module DiffCompact.
Import Lines Diff DiffProofs.

(** The unchanged lines, and the number of set and clear flags. *)
Fixpoint kept (ls : list bytes) (fl : list bool) : list bytes :=
  match ls, fl with
  | l :: ls, f :: fl => if f then kept ls fl else l :: kept ls fl
  | _, _ => []
  end.
Fixpoint trues (fl : list bool) : nat :=
  match fl with [] => 0 | f :: fl => (if f then 1 else 0) + trues fl end.
Fixpoint falses (fl : list bool) : nat :=
  match fl with [] => 0 | f :: fl => (if f then 0 else 1) + falses fl end.

Lemma trues_app a b : trues (a ++ b) = (trues a + trues b)%nat.
Proof. induction a; simpl; lia. Qed.
Lemma falses_app a b : falses (a ++ b) = (falses a + falses b)%nat.
Proof. induction a; simpl; lia. Qed.
Lemma trues_replicate n b : trues (replicate n b) = if b then n else 0%nat.
Proof. induction n; destruct b; simpl in *; lia. Qed.
Lemma falses_replicate n b : falses (replicate n b) = if b then 0%nat else n.
Proof. induction n; destruct b; simpl in *; lia. Qed.
Lemma trues_falses fl : (trues fl + falses fl = length fl)%nat.
Proof. induction fl as [|[] fl IH]; simpl; lia. Qed.
Lemma trues_le fl : (trues fl <= length fl)%nat.
Proof. pose proof (trues_falses fl). lia. Qed.

Lemma kept_app l1 l2 f1 f2 :
  length l1 = length f1 -> kept (l1 ++ l2) (f1 ++ f2) = kept l1 f1 ++ kept l2 f2.
Proof.
  revert f1; induction l1 as [|l l1 IH]; intros [|f f1] H; simpl in *; try lia; [done|].
  rewrite IH by lia. by destruct f.
Qed.
Lemma kept_trues ls n fl : kept ls (replicate n true ++ fl) = kept (drop n ls) fl.
Proof. revert ls; induction n as [|n IH]; intros [|l ls]; simpl; done. Qed.
Lemma kept_all_false ls n : (length ls <= n)%nat -> kept ls (replicate n false) = ls.
Proof. revert n; induction ls as [|l ls IH]; intros [|n] H; simpl in *; try done; [lia|]. rewrite IH; [done|lia]. Qed.
Lemma length_kept ls fl : length ls = length fl -> length (kept ls fl) = falses fl.
Proof.
  revert fl; induction ls as [|l ls IH]; intros [|f fl] H; simpl in *; try lia. destruct f; simpl; rewrite IH; lia.
Qed.

(** Exchanging a clear flag with the end of the group after it. *)
Lemma kept_rotate ls P L Q :
  (length P + L < length ls)%nat -> ls !! length P = ls !! (length P + L)%nat ->
  kept ls (P ++ false :: replicate L true ++ Q) = kept ls (P ++ replicate L true ++ false :: Q).
Proof.
  revert ls; induction P as [|p P IH]; intros ls HL HE; cbn [app length] in *.
  - rewrite Nat.add_0_l in *. destruct ls as [|l ls]; [simpl in HL; lia|]. rewrite kept_trues. cbn [kept].
    rewrite kept_trues. cbn [lookup list_lookup] in HE. symmetry in HE. rewrite (drop_S _ _ _ HE). done.
  - destruct ls as [|l ls]; [done|]. cbn [kept]. rewrite IH; [done|simpl in HL; lia|exact HE].
Qed.

(** ** Runs of flags *)

Lemma leading fl : exists k rest, fl = replicate k true ++ rest /\ head rest <> Some true.
Proof.
  induction fl as [|[] fl (k & rest & -> & H)]; [by exists 0%nat, []|by exists (S k), rest|].
  by exists 0%nat, (false :: replicate k true ++ rest).
Qed.
Lemma trailing fl : exists k rest, fl = rest ++ replicate k true /\ last rest <> Some true.
Proof.
  induction fl as [|f fl (k & rest & -> & H)] using rev_ind; [by exists 0%nat, []|]. destruct f.
  - exists (S k), rest. split; [|done]. by rewrite <- app_assoc, <- replicate_S_end.
  - exists 0%nat, ((rest ++ replicate k true) ++ [false]). rewrite app_nil_r, last_snoc. done.
Qed.

Lemma clear_last k Q : <[k := false]> (replicate (S k) true ++ Q) = replicate k true ++ false :: Q.
Proof. induction k as [|k IH]; [done|]. change (replicate (S (S k)) true) with (true :: replicate (S k) true). simpl. by f_equal. Qed.
Lemma set_next k Q : <[k := true]> (replicate k true ++ false :: Q) = replicate (S k) true ++ Q.
Proof. induction k as [|k IH]; [done|]. simpl. by f_equal. Qed.

(** The two moves on flags. *)
Lemma move_up P L Q :
  (0 < L)%nat ->
  <[length P := true]> (<[(length P + L)%nat := false]> (P ++ false :: replicate L true ++ Q)) =
  P ++ replicate L true ++ false :: Q.
Proof.
  intros HL. destruct L as [|k]; [lia|]. rewrite insert_app_r.
  replace (length P) with (length P + 0)%nat at 1 by lia. rewrite insert_app_r. f_equal.
  change (<[S k := false]> (false :: replicate (S k) true ++ Q)) with (false :: <[k := false]> (replicate (S k) true ++ Q)).
  rewrite clear_last. done.
Qed.
Lemma move_down P L Q :
  (0 < L)%nat ->
  <[(length P + L)%nat := true]> (<[length P := false]> (P ++ replicate L true ++ false :: Q)) =
  (P ++ [false]) ++ replicate L true ++ Q.
Proof.
  intros HL. destruct L as [|k]; [lia|]. replace (length P) with (length P + 0)%nat at 2 by lia.
  rewrite !insert_app_r, <- app_assoc. f_equal. cbn [app].
  change (<[0%nat := false]> (replicate (S k) true ++ false :: Q)) with (false :: replicate k true ++ false :: Q).
  change (<[S k := true]> (false :: replicate k true ++ false :: Q)) with (false :: <[k := true]> (replicate k true ++ false :: Q)).
  by rewrite set_next.
Qed.

Section Compact.
Context (cancel : nat -> bool) (lines : LinesOf) (ls : list bytes) (K : list bytes).
Hypothesis HL : lines_of lines ls.

(** The group [L] long after the flags [P]; [K] are the unchanged lines. *)
Definition shape (g : Group) (P : list bool) (L : nat) (Q : list bool) : Prop :=
  flags g = P ++ replicate L true ++ Q /\ g_start g = length P /\ g_end g = (length P + L)%nat /\
  g_rank g = falses P /\ (0 < L)%nat /\ last P <> Some true /\ head Q <> Some true /\
  kept ls (flags g) = K /\ length (flags g) = length ls.

Lemma ok_group_end X k Y fuel :
  head Y <> Some true -> (k <= fuel)%nat ->
  ok (group_end cancel fuel (X ++ replicate k true ++ Y) (length X)) (fun r => r = (length X + k)%nat).
Proof using.
  intros HY. revert X fuel; induction k as [|k IH]; intros X fuel Hf.
  - cbn [replicate app]. assert ((X ++ Y) !! length X = head Y) as E.
    { rewrite lookup_app_r, Nat.sub_diag by done. by destruct Y. }
    destruct fuel; cbn [group_end]; rewrite E; destruct Y as [|[] Y]; try done; apply ok_ret; lia.
  - destruct fuel as [|fuel]; [lia|]. cbn [group_end].
    assert ((X ++ replicate (S k) true ++ Y) !! length X = Some true) as ->.
    { rewrite lookup_app_r, Nat.sub_diag by done. done. }
    ok_skip. specialize (IH (X ++ [true]) fuel ltac:(lia)). rewrite <- app_assoc, length_app in IH. simpl in IH.
    rewrite Nat.add_1_r in IH. eapply ok_weaken; [exact IH|]. simpl. lia.
Qed.

Lemma ok_rotate_up P L Q :
  (0 < L)%nat ->
  ok (rotate_up (P ++ false :: replicate L true ++ Q) (S (length P)) (S (length P) + L))
    (fun r => r = (P ++ replicate L true ++ false :: Q, length P, (length P + L)%nat)).
Proof using.
  intros HL0. cbn [rotate_up Nat.add].
  destruct (lookup_lt_is_Some_2 (P ++ false :: replicate L true ++ Q) (length P + L)%nat) as [v Ev].
  { rewrite length_app. simpl. rewrite length_app, length_replicate. lia. }
  eapply ok_bind; [by eapply (ok_get _ _ v (fun _ => True))|intros _ _].
  set (fl := <[(length P + L)%nat := false]> _). destruct (lookup_lt_is_Some_2 fl (length P)) as [w Ew].
  { subst fl. rewrite length_insert, length_app. simpl. lia. }
  eapply ok_bind; [by eapply (ok_get _ _ w (fun _ => True))|intros _ _]. apply ok_ret. subst fl. by rewrite move_up.
Qed.

Lemma ok_absorb_up P rest :
  ok (absorb_up cancel (P ++ rest) (length P))
    (fun st => exists k P', P = P' ++ replicate k true /\ st = length P' /\ last P' <> Some true).
Proof using.
  induction P as [|f P IH] using rev_ind; [apply ok_ret; by exists 0%nat, []|].
  rewrite length_app. simpl length. rewrite Nat.add_1_r. cbn [absorb_up].
  eapply ok_bind; [eapply (ok_get _ _ f (fun r => r = f)); [|done]|intros ? ->].
  { rewrite <- app_assoc, lookup_app_r, Nat.sub_diag by done. done. }
  destruct f.
  - ok_skip. (* the remaining flags are those before the last *)
    assert (forall n r1 r2, n = length P -> absorb_up cancel ((P ++ [true]) ++ r1) n = absorb_up cancel (P ++ r2) n) as HE.
    { intros n r1 r2 Hn. assert (n <= length P)%nat as Hle by lia. clear IH Hn. induction n as [|n IHn]; [done|].
      cbn [absorb_up]. unfold get. rewrite <- app_assoc, !lookup_app_l by lia. rewrite app_assoc.
      rewrite IHn by lia. done. }
    rewrite (HE (length P) rest rest eq_refl). eapply ok_weaken; [exact IH|].
    intros st (k & P' & -> & -> & H). exists (S k), P'. split; [|done]. by rewrite <- app_assoc, <- replicate_S_end.
  - apply ok_ret. exists 0%nat, (P ++ [false]). rewrite app_nil_r, last_snoc, length_app. simpl. split_and!; [done|lia|done].
Qed.

Lemma shape_line g P L Q i : shape g P L Q -> (i < length P + L + length Q)%nat -> is_Some (ls !! i).
Proof using.
  intros (EF & _ & _ & _ & _ & _ & _ & _ & EL) Hi. apply lookup_lt_is_Some_2. rewrite <- EL, EF.
  rewrite !length_app, length_replicate. lia.
Qed.

(** Up: the group moves towards the start and takes in the groups it meets. *)
Lemma ok_up_loop fuel g P L Q :
  shape g P L Q -> (g_start g <= fuel)%nat ->
  ok (up_loop cancel fuel lines g)
    (fun g' => exists P' L' Q', shape g' P' L' Q' /\ (L <= L')%nat /\ trues Q' = trues Q).
Proof using HL.
  revert g P L Q; induction fuel as [|fuel IH]; intros g P L Q HS Hf.
  { pose proof HS as (_ & ES & _). cbn [up_loop]. assert (g_start g = 0%nat) as E by lia. rewrite E.
    apply ok_ret. exists P, L, Q. done. }
  pose proof HS as (EF & ES & EE & ER & HL0 & HP & HQ & HK & HLen). cbn [up_loop].
  destruct P as [|p P _] using rev_ind.
  { rewrite ES. cbn [length]. apply ok_ret. exists [], L, Q. done. }
  rewrite last_snoc in HP. destruct p; [done|]. rewrite ES, EE, EF, length_app. simpl length. rewrite Nat.add_1_r.
  cbn [Nat.add]. destruct (shape_line g _ L Q (length P) HS) as [a Ea]; [rewrite length_app; simpl; lia|].
  destruct (shape_line g _ L Q (length P + L)%nat HS) as [b Eb]; [rewrite length_app; simpl; lia|].
  eapply ok_bind; [by eapply ok_equal_lines|]. intros ? ->.
  destruct (bool_decide_reflect (a = b)) as [<-|]; [|apply ok_ret; by exists (P ++ [false]), L, Q].
  rewrite <- (app_assoc P). cbn [app].
  eapply ok_bind; [apply ok_rotate_up; done|]. intros ? ->. rewrite ER, falses_app. simpl falses. rewrite Nat.add_1_r.
  cbn [dec]. eapply ok_bind; [by apply (ok_ret _ (fun r => r = falses P))|intros ? ->].
  eapply ok_bind; [apply ok_absorb_up|]. intros st (k & P' & -> & -> & HP').
  eapply ok_weaken.
  - apply (IH _ P' (k + L)%nat (false :: Q)).
    + split_and!; cbn [flags g_start g_end g_rank]; try done; try lia.
      * rewrite <- app_assoc. f_equal. rewrite app_assoc, <- replicate_add. done.
      * rewrite length_app, length_replicate. lia.
      * rewrite falses_app, falses_replicate. lia.
      * rewrite <- HK, EF. rewrite <- (app_assoc _ [false]). cbn [app]. symmetry. apply kept_rotate; [|congruence].
        apply lookup_lt_Some in Eb. done.
      * rewrite <- HLen, EF. rewrite !length_app. simpl. lia.
    + cbn [g_start]. rewrite ES, !length_app in Hf. simpl in Hf. lia.
  - intros g' (P1 & L1 & Q1 & H1 & H2 & H3). exists P1, L1, Q1. split_and!; [done|lia|done].
Qed.

(** The positions the group can move back over. *)
Definition passable (from to L : nat) : Prop :=
  forall s, (from <= s < to)%nat -> ls !! s = ls !! (s + L)%nat.

Definition within (low high : nat) (o : option nat) : Prop :=
  forall a, o = Some a -> (low <= a <= high)%nat.

Lemma last_snoc_false P k : last P <> Some true -> last (P ++ replicate k false) <> Some true.
Proof using.
  intros HP. destruct k as [|k]; [by rewrite app_nil_r|].
  by rewrite replicate_S_end, app_assoc, last_snoc.
Qed.

(** One step down, which may meet the next group, of length [k]. *)
Lemma shape_down g P L k Q :
  shape g P L (false :: replicate k true ++ Q) -> head Q <> Some true -> ls !! length P = ls !! (length P + L)%nat ->
  shape {| flags := (P ++ [false]) ++ replicate L true ++ replicate k true ++ Q; g_start := S (length P);
           g_end := length (P ++ [false]) + (L + k); g_rank := S (g_rank g) |} (P ++ [false]) (L + k) Q.
Proof using.
  intros HS HQ1 HE. pose proof HS as (EF & ES & EE & ER & HL0 & HP & HQ & HK & HLen).
  assert (is_Some (ls !! (length P + L)%nat)) as [c Ec] by (eapply shape_line; [done|simpl; lia]).
  split_and!; cbn [flags g_start g_end g_rank]; try done; try lia.
  - f_equal. by rewrite app_assoc, <- replicate_add.
  - rewrite length_app. simpl. lia.
  - rewrite ER, falses_app. simpl. lia.
  - by rewrite last_snoc.
  - rewrite <- HK, EF, <- app_assoc. cbn [app]. apply kept_rotate; [|done]. by apply lookup_lt_Some in Ec.
  - rewrite <- HLen, EF, !length_app. simpl. rewrite !length_app. lia.
Qed.

(** The end of the group after that step. *)
Lemma ok_down_end P L k Q :
  (0 < L)%nat -> head Q <> Some true ->
  let fl := (P ++ [false]) ++ replicate L true ++ replicate k true ++ Q in
  ok (group_end cancel (length fl) fl (length P + L)) (fun r => r = (length (P ++ [false]) + (L + k))%nat).
Proof using.
  intros HL0 HQ fl.
  assert (fl = ((P ++ [false]) ++ replicate (L - 1) true) ++ replicate (S k) true ++ Q) as ->.
  { subst fl. rewrite <- !app_assoc. do 2 f_equal. destruct L as [|L]; [lia|].
    replace (S L - 1)%nat with L by lia. rewrite replicate_S_end, <- app_assoc. done. }
  replace (length P + L)%nat with (length ((P ++ [false]) ++ replicate (L - 1) true))
    by (rewrite !length_app, length_replicate; simpl; lia).
  eapply ok_weaken; [apply ok_group_end; [done|rewrite !length_app, !length_replicate; lia]|].
  intros ? ->. rewrite !length_app, length_replicate. simpl. lia.
Qed.

(** Down: the group moves towards the end over equal lines; what it passes stays
    clear. *)
Lemma ok_down_loop fuel boundaries aligned low g P L Q :
  shape g P L Q -> (length ls <= g_end g + fuel)%nat -> (length K < length boundaries)%nat ->
  within low (g_start g) aligned -> (low <= g_start g)%nat ->
  ok (down_loop cancel fuel lines boundaries aligned g)
    (fun r => exists k L' Q', shape r.2 (P ++ replicate k false) L' Q' /\ (L <= L')%nat /\ (trues Q' <= trues Q)%nat /\
      (L' = L -> passable (length P) (length P + k) L) /\ within low (length P + k) r.1).
Proof using HL.
  revert aligned g P L Q; induction fuel as [|fuel IH]; intros aligned g P L Q HS Hf HB HA Hlow;
    pose proof HS as (EF & ES & EE & ER & HL0 & HP & HQ & HK & HLen); cbn [down_loop];
    (ok_skip; assert (g_rank g < length boundaries)%nat as Hrank
       by (rewrite ER; pose proof (length_kept ls (flags g) (eq_sym HLen)) as HF; rewrite HK, EF, falses_app in HF; lia);
     destruct (lookup_lt_is_Some_2 boundaries (g_rank g) Hrank) as [b Eb];
     eapply ok_bind; [by eapply (ok_get _ _ b (fun r => r = b))|intros ? ->]);
    set (al := if b then Some (g_start g) else aligned);
    (assert (within low (g_start g) al) as HAl by (subst al; destruct b; [intros a [= <-]; lia|done]));
    (assert (ok (se_ret (al, g) : SE Budget DiffError _) (fun r : option nat * Group => exists k L' Q', shape r.2 (P ++ replicate k false) L' Q' /\ (L <= L')%nat /\
      (trues Q' <= trues Q)%nat /\ (L' = L -> passable (length P) (length P + k) L) /\ within low (length P + k) r.1)) as Hret
      by (apply ok_ret; exists 0%nat, L, Q; rewrite app_nil_r, Nat.add_0_r; cbn [fst snd];
          split_and!; try done; [intros _ s Hs; lia|by rewrite <- ES]));
    (destruct (Nat.eqb_spec (g_end g) (length (flags g))) as [Een|Hend]; [exact Hret|]).
  { exfalso. assert (length (flags g) = length P + (L + length Q))%nat by (by rewrite EF, !length_app, length_replicate). lia. }
  assert (exists Q', Q = false :: Q') as [Q' EQ].
  { destruct Q as [|[] Q']; [|done|by eexists]. exfalso. apply Hend. rewrite EE, EF, !length_app, length_replicate. simpl. lia. }
  subst Q. destruct (shape_line g P L _ (length P) HS) as [a Ea]; [lia|].
  destruct (shape_line g P L _ (length P + L)%nat HS) as [c Ec]; [simpl; lia|].
  rewrite ES, EE. eapply ok_bind; [by eapply ok_equal_lines|]. intros ? ->.
  destruct (bool_decide_reflect (a = c)) as [<-|]; [|exact Hret].
  eapply ok_bind; [eapply (ok_get _ _ true (fun _ => True)); [|done]|intros _ _].
  { rewrite EF, lookup_app_r, Nat.sub_diag by done. by destruct L; [lia|]. }
  rewrite EF. destruct (lookup_lt_is_Some_2 (<[length P := false]> (P ++ replicate L true ++ false :: Q')) (length P + L)%nat)
    as [w Ew]; [rewrite length_insert, !length_app, length_replicate; simpl; lia|].
  eapply ok_bind; [by eapply (ok_get _ _ w (fun _ => True))|intros _ _]. rewrite move_down by done.
  destruct (leading Q') as (k & Q1 & -> & HQ1).
  eapply ok_bind; [by apply ok_down_end|]. intros ? ->.
  eapply ok_weaken.
  - apply (IH al _ (P ++ [false]) (L + k)%nat Q1).
    + apply (shape_down g P L k Q1); [done..|congruence].
    + cbn [g_end]. rewrite length_app. simpl. lia.
    + done.
    + cbn [g_start]. intros x Hx. apply HAl in Hx. lia.
    + cbn [g_start]. lia.
  - intros [al' g'] (k1 & L1 & Q2 & H1 & H2 & H3 & H4 & H5). cbn [fst snd] in *. exists (S k1), L1, Q2.
    rewrite <- app_assoc in H1. rewrite length_app in H4, H5. simpl in H4, H5. split_and!.
    + exact H1.
    + lia.
    + simpl. rewrite trues_app. lia.
    + intros ->. assert (k = 0%nat) as -> by lia. rewrite Nat.add_0_r in *. specialize (H4 eq_refl).
      intros s Hs. destruct (decide (s = length P)) as [-> |]; [congruence|]. apply H4. lia.
    + intros x Hx. apply H5 in Hx. lia.
Qed.

(** A group that was explored without meeting another one: it can be put back
    anywhere from [earliest] on. *)
Definition settled (earliest : nat) (aligned : option nat) (g : Group) (before : nat) : Prop :=
  exists P k L Q, shape g (P ++ replicate k false) L Q /\ length P = earliest /\ last P <> Some true /\
    (trues Q <= before)%nat /\ passable earliest (g_start g) L /\ within earliest (g_start g) aligned.

Lemma ok_explore fuel boundaries g P L Q :
  shape g P L Q -> (length ls < L + fuel)%nat -> (length K < length boundaries)%nat ->
  ok (explore cancel fuel lines boundaries g) (fun r => settled r.1.2 r.1.1 r.2 (trues Q)).
Proof using HL.
  revert g P L Q; induction fuel as [|fuel IH]; intros g P L Q HS Hf HB;
    pose proof HS as (EF & ES & EE & _ & HL0 & _ & _ & _ & HLen).
  { exfalso. rewrite <- HLen, EF, !length_app, length_replicate in Hf. lia. }
  cbn [explore]. eapply ok_bind; [by eapply ok_up_loop|].
  intros g1 (P1 & L1 & Q1 & HS1 & HL1 & HT1). pose proof HS1 as (EF1 & ES1 & EE1 & _ & _ & HP1 & _ & _ & HLen1).
  eapply ok_bind; [apply (ok_down_loop _ boundaries None (g_start g1) g1 P1 L1 Q1); [done|lia|done|done|lia]|].
  intros [al g2] (k & L2 & Q2 & HS2 & HL2 & HT2 & HPass & HW). cbn [fst snd] in *.
  pose proof HS2 as (EF2 & ES2 & EE2 & _). rewrite length_app, length_replicate in ES2, EE2.
  destruct (Nat.eqb_spec (g_end g2 - g_start g2) (g_end g - g_start g)) as [E|E].
  - apply ok_ret. cbn [fst snd]. assert (L2 = L1) as -> by lia. specialize (HPass eq_refl).
    exists P1, k, L1, Q2. rewrite ES2, ES1 in *. split_and!; [done..|lia|done|done].
  - eapply ok_weaken; [apply (IH g2 (P1 ++ replicate k false) L2 Q2); [done|lia|done]|].
    intros r (P' & k' & L' & Q' & H1 & H2 & H3 & H4 & H5). exists P', k', L', Q'. split_and!; [done..|lia|naive_solver|naive_solver].
Qed.

(** Moving back to the chosen boundary. *)
Lemma ok_settle fuel destination g P k L Q :
  shape g (P ++ replicate k false) L Q -> last P <> Some true -> passable (length P) (length P + k) L ->
  (length P <= destination)%nat -> (g_start g <= fuel)%nat ->
  ok (settle cancel fuel destination g)
    (fun g' => exists P' Q', shape g' P' L Q' /\ trues Q' = trues Q).
Proof using.
  revert g k Q; induction fuel as [|fuel IH]; intros g k Q HS HP HPass Hd Hf;
    pose proof HS as (EF & ES & EE & ER & HL0 & HP' & HQ & HK & HLen); cbn [settle];
    destruct (Nat.ltb_spec destination (g_start g)); try lia.
  1,3: apply ok_ret; by eexists _, _.
  ok_skip. rewrite length_app, length_replicate in ES, EE. destruct k as [|k]; [lia|].
  set (P0 := P ++ replicate k false).
  assert (length P0 = (length P + k)%nat) as EP0 by (subst P0; by rewrite length_app, length_replicate).
  assert (flags g = P0 ++ false :: replicate L true ++ Q) as EF0.
  { rewrite EF, replicate_S_end. subst P0. by rewrite <- !app_assoc. }
  rewrite EF0. replace (g_start g) with (S (length P0)) by lia.
  replace (g_end g) with (S (length P0) + L)%nat by lia.
  eapply ok_bind; [by apply ok_rotate_up|]. intros ? ->.
  assert (g_rank g = S (falses P0)) as -> by (rewrite ER; subst P0; rewrite !falses_app, !falses_replicate; lia).
  cbn [dec]. eapply ok_bind; [by apply (ok_ret _ (fun r => r = falses P0))|intros ? ->].
  assert (ls !! length P0 = ls !! (length P0 + L)%nat) as HE by (apply HPass; lia).
  assert (is_Some (ls !! (length P0 + L)%nat)) as [c Ec].
  { eapply shape_line; [done|]. rewrite length_app, length_replicate. lia. }
  eapply ok_weaken.
  - apply (IH _ k (false :: Q)); [|done| |done|cbn [g_start]; lia].
    + split_and!; cbn [flags g_start g_end g_rank]; try done.
      * by apply last_snoc_false.
      * rewrite <- HK, EF0. symmetry. apply kept_rotate; [by apply lookup_lt_Some in Ec|done].
      * rewrite <- HLen, EF0, !length_app. simpl. rewrite !length_app. simpl. lia.
    + intros s Hs. apply HPass. lia.
  - intros g' (P1 & Q1 & H1 & H2). exists P1, Q1. split; [done|]. by rewrite H2.
Qed.

(** ** The indent heuristic picks a boundary in its range *)

Lemma ok_indentation column l : ok (indentation cancel column l) (fun _ => True).
Proof using.
  revert column; induction l as [|b l IH]; intros column; cbn [indentation]; [by apply ok_ret|]. ok_skip.
  repeat case_match; auto. by apply ok_ret.
Qed.

Lemma ok_neighbour position backwards blanks count :
  (position <= length ls)%nat -> ok (neighbour cancel lines position backwards blanks count) (fun _ => True).
Proof using HL.
  revert position blanks; induction count as [|count IH]; intros position blanks Hp; cbn [neighbour]; [by apply ok_ret|].
  ok_skip.
  assert (forall i k, (i < length ls)%nat -> (k <= length ls)%nat -> ok (let! l := line lines i in
    let! o := indentation cancel 0 l in
    match o with
    | Some indent => se_ret (Some indent, blanks)
    | None => neighbour cancel lines k backwards (blanks + 1) count
    end) (fun _ => True)) as HI.
  { intros i k Hi Hk. destruct (lookup_lt_is_Some_2 ls i Hi) as [x Ex].
    eapply ok_bind; [by eapply (ok_line lines ls i x (fun _ => True))|]. intros l _.
    eapply ok_bind; [apply ok_indentation|]. intros [z|] _; [by apply ok_ret|by apply IH]. }
  destruct backwards.
  - destruct position as [|p]; [by apply ok_ret|]. apply HI; lia.
  - rewrite (len_lines _ _ HL). destruct (Nat.eqb_spec position (length ls)); [by apply ok_ret|]. apply HI; lia.
Qed.

Lemma ok_split position : (position <= length ls)%nat -> ok (split cancel lines position) (fun _ => True).
Proof using HL.
  intros Hp. unfold split. eapply ok_bind; [by apply ok_neighbour|]. intros [before above] _.
  eapply ok_bind; [by apply ok_neighbour|]. intros [after below] _. by apply ok_ret.
Qed.

Lemma ok_group start n : (start + n <= length ls)%nat -> ok (group cancel lines start n) (fun _ => True).
Proof using HL.
  intros Hp. unfold group. eapply ok_bind; [apply ok_split; lia|]. intros ? _.
  eapply ok_bind; [apply ok_split; lia|]. intros ? _. by apply ok_ret.
Qed.

Lemma ok_boundary_loop n position count best score low :
  (position + count <= S (length ls) - n)%nat -> (n <= length ls)%nat -> (low <= best < position)%nat ->
  ok (boundary_loop cancel lines n position count best score) (fun r => (low <= r < position + count)%nat).
Proof using HL.
  revert position best score; induction count as [|count IH]; intros position best score Hp Hn Hb; cbn [boundary_loop].
  - apply ok_ret. lia.
  - ok_skip. eapply ok_bind; [apply ok_group; lia|]. intros sc _.
    destruct (preferred_to sc score); (eapply ok_weaken; [apply IH; lia|intros r Hr; cbv beta in Hr; lia]).
Qed.

Lemma ok_boundary earliest last_ n :
  (earliest <= last_)%nat -> (last_ + n <= length ls)%nat ->
  ok (boundary cancel lines earliest last_ n) (fun r => (earliest <= r <= last_)%nat).
Proof using HL.
  intros He Hn. unfold boundary. destruct (Nat.eqb_spec earliest last_); [apply ok_ret; lia|].
  set (first := Nat.max earliest (last_ - Nat.min (S n) 100)). assert (earliest <= first <= last_)%nat as Hf by lia.
  clearbody first. eapply ok_bind; [apply ok_group; lia|]. intros sc _.
  eapply ok_weaken; [apply (ok_boundary_loop n (S first) (last_ - first) first sc earliest); lia|]. intros r Hr. cbv beta in Hr. lia.
Qed.

(** ** The pass over all groups *)

(** Flags that leave the lines [K]. *)
Definition flags_ok (fl : list bool) : Prop := kept ls fl = K /\ length fl = length ls.

(** The group that starts at a set flag with a clear one before it. *)
Lemma group_at fl cursor :
  flags_ok fl -> fl !! cursor = Some true -> (cursor = 0%nat \/ fl !! pred cursor = Some false) ->
  exists P L Q, fl = P ++ replicate L true ++ Q /\ length P = cursor /\ (0 < L)%nat /\ head Q <> Some true /\
    shape {| flags := fl; g_start := cursor; g_end := cursor + L; g_rank := falses (take cursor fl) |} P L Q /\
    (trues (drop cursor fl) = L + trues Q)%nat.
Proof using.
  intros [HK HLen] Hc Hprev. pose proof (lookup_lt_Some _ _ _ Hc) as Hlt.
  destruct (leading (drop cursor fl)) as (L & Q & EQ & HQ). set (P := take cursor fl).
  assert (fl = P ++ replicate L true ++ Q) as EF by (subst P; by rewrite <- EQ, take_drop).
  assert (length P = cursor) as EP by (subst P; rewrite length_take; lia).
  assert (0 < L)%nat as HL0.
  { destruct L; [|lia]. exfalso. apply HQ. replace cursor with (cursor + 0)%nat in Hc by lia.
    rewrite <- lookup_drop, EQ in Hc. cbn [replicate app] in Hc. by destruct Q. }
  exists P, L, Q. split_and!; try done; [|by rewrite EQ, trues_app, trues_replicate].
  split_and!; cbn [flags g_start g_end g_rank]; try done; [lia|].
  subst P. destruct Hprev as [-> |Hp]; [done|]. destruct cursor as [|c]; [done|]. cbn [pred] in Hp.
  rewrite (take_S_r fl c _ Hp), last_snoc. done.
Qed.

Lemma ok_compact_loop fuel boundaries ih fl cursor rank :
  flags_ok fl -> (length K < length boundaries)%nat -> rank = falses (take cursor fl) ->
  (fl !! cursor = Some true -> cursor = 0%nat \/ fl !! pred cursor = Some false) ->
  (trues (drop cursor fl) * S (length ls) + (length ls - cursor) < fuel)%nat ->
  ok (compact_loop cancel fuel lines boundaries ih fl cursor rank) flags_ok.
Proof using HL.
  revert fl cursor rank; induction fuel as [|fuel IH]; intros fl cursor rank HF HB HR HP Hm; [lia|]. cbn [compact_loop].
  destruct (fl !! cursor) as [c|] eqn:Ec; [|by apply ok_ret]. ok_skip.
  pose proof (lookup_lt_Some _ _ _ Ec) as Hlt. pose proof HF as [_ HLen].
  destruct c; cbn [negb].
  - destruct (group_at fl cursor HF Ec (HP eq_refl)) as (P & L & Q & EF & EP & HL0 & HQ & HS & HT).
    eapply ok_bind.
    { rewrite EF at 2. rewrite <- EP. apply ok_group_end; [done|]. rewrite EF, !length_app, length_replicate. lia. }
    intros ? ->. rewrite EP, HR. eapply ok_bind; [apply (ok_explore _ boundaries _ P L Q); [done|lia|done]|].
    intros [[al early] g] (P1 & k & L1 & Q1 & HS1 & EP1 & HP1 & HT1 & HPass & HW). cbn [fst snd] in *.
    pose proof HS1 as (EF1 & ES1 & EE1 & _ & _ & _ & _ & _ & HLen1). rewrite length_app, length_replicate in ES1, EE1.
    eapply ok_bind.
    { instantiate (1 := within early (g_start g)). destruct al as [a|]; [by apply ok_ret|]. destruct ih; [|by apply ok_ret].
      eapply ok_bind; [apply ok_boundary; [lia|]|].
      - rewrite <- HLen1, EF1, !length_app, !length_replicate. lia.
      - intros d Hd. apply ok_ret. intros a [= <-]. done. }
    intros dest Hdest. eapply ok_bind.
    { instantiate (1 := fun g' => exists P' Q', shape g' P' L1 Q' /\ trues Q' = trues Q1).
      destruct dest as [d|]; [|apply ok_ret; by eexists _, _]. specialize (Hdest d eq_refl).
      apply (ok_settle _ d g P1 k L1 Q1); [done|done| |lia|done]. intros s Hs. apply HPass. lia. }
    intros g' (P2 & Q2 & HS2 & HT2). pose proof HS2 as (EF2 & ES2 & EE2 & ER2 & HL2 & _ & HQ2 & HK2 & HLen2).
    assert (drop (g_end g') (flags g') = Q2) as ED.
    { rewrite EE2, EF2, app_assoc. apply drop_app_length'. by rewrite length_app, length_replicate. }
    apply IH; [done|done| | |].
    + rewrite EE2, EF2, app_assoc, take_app_length' by (by rewrite length_app, length_replicate).
      by rewrite ER2, falses_app, falses_replicate, Nat.add_0_r.
    + intros Ht. exfalso. apply HQ2. rewrite <- ED.
      replace (g_end g') with (g_end g' + 0)%nat in Ht by lia. rewrite <- lookup_drop in Ht. destruct (drop (g_end g') (flags g')); [done|exact Ht].
    + rewrite ED. nia.
  - apply IH; [done|done| | |].
    + rewrite (take_S_r fl cursor _ Ec), falses_app. simpl. lia.
    + intros _. right. done.
    + rewrite (drop_S fl _ _ Ec) in Hm. simpl in Hm. lia.
Qed.

Lemma ok_boundaries_loop fl bs :
  (0 < length bs)%nat -> ok (boundaries_loop cancel bs fl) (fun r => length r = (length bs + falses fl)%nat).
Proof using.
  revert bs; induction fl as [|f fl IH]; intros bs Hb; cbn [boundaries_loop falses]; [apply ok_ret; lia|]. ok_skip.
  destruct f; (eapply ok_weaken; [apply IH; rewrite ?length_insert, ?length_app; simpl; lia|]);
    intros r ->; rewrite ?length_insert, ?length_app; simpl; lia.
Qed.

(** [compact] moves groups and keeps the unchanged lines. *)
Lemma ok_compact fl opposite ih :
  flags_ok fl -> falses opposite = length K -> ok (compact cancel lines fl opposite ih) flags_ok.
Proof using HL.
  intros HF HO. unfold compact. eapply ok_bind; [apply ok_boundaries_loop; simpl; lia|]. intros bs Hbs. cbv beta in Hbs.
  simpl in Hbs. apply ok_compact_loop; [done|lia|done|by left|]. destruct HF as [_ HLen]. rewrite drop_0, HLen.
  unfold compact_fuel. pose proof (trues_le fl). nia.
Qed.
End Compact.
End DiffCompact.
