(* ===== verification/DiffCorrect.v ===== *)
(** * The comparison as a whole

    From the edits of the search to flags of changed lines, from moved flags back to
    edits, and the correctness of [diff_with_options] ([src/src/content_diff.rs]). *)

From stdpp Require Import base list numbers strings sets.
From Stdlib Require Import ZArith Lia.
From S2P Require Import Prelude Lines Diff DiffProofs DiffCompact.

Module DiffCorrect.
Import Lines Diff DiffProofs DiffCompact.

(** ** Flags of a script *)

(** The lines of one side an edit replaces. *)
Definition side_range (old : bool) (e : ContentEdit) : nat * nat := if old then old_lines e else new_lines e.

(** The flags of the lines from [x] on. *)
Fixpoint mark (old : bool) (n x : nat) (es : list ContentEdit) : list bool :=
  match es with
  | [] => replicate (n - x) false
  | e :: es =>
      let r := side_range old e in
      replicate (r.1 - x) false ++ replicate (r.2 - r.1) true ++ mark old n r.2 es
  end.

(** The edits of one side are ordered ranges of lines. *)
Fixpoint ordered (old : bool) (n x : nat) (es : list ContentEdit) : Prop :=
  match es with
  | [] => (x <= n)%nat
  | e :: es => let r := side_range old e in (x <= r.1 <= r.2)%nat /\ (r.2 <= n)%nat /\ ordered old n r.2 es
  end.

Lemma fill_true_spec P m Y start :
  start = length P -> fill_true (P ++ replicate m false ++ Y) start m = P ++ replicate m true ++ Y.
Proof.
  intros ->. revert P; induction m as [|m IH]; intros P; [done|]. cbn [fill_true].
  replace (length P) with (length P + 0)%nat at 1 by lia. rewrite insert_app_r.
  change (<[0%nat:=true]> (replicate (S m) false ++ Y)) with (true :: replicate m false ++ Y).
  specialize (IH (P ++ [true])). rewrite length_app, Nat.add_1_r, <- !app_assoc in IH. exact IH.
Qed.

Lemma ok_changed_loop cancel old n x es pre :
  ordered old n x es -> length pre = x ->
  ok (changed_loop cancel (pre ++ replicate (n - x) false) es old) (fun fl => fl = pre ++ mark old n x es).
Proof.
  revert x pre; induction es as [|e es IH]; intros x pre HO HP; cbn [changed_loop ordered mark] in *; [by apply ok_ret|].
  ok_skip. ok_skip. change (if old then old_lines e else new_lines e) with (side_range old e).
  destruct (side_range old e) as [a b] eqn:ER. cbn [fst snd] in *. destruct HO as (H1 & H2 & HO).
  rewrite length_app, length_replicate.
  rewrite (proj2 (Nat.leb_le a b)), (proj2 (Nat.leb_le b _)) by lia. cbn [andb].
  replace (n - x)%nat with ((a - x) + ((b - a) + (n - b)))%nat by lia. rewrite !replicate_add.
  rewrite app_assoc, fill_true_spec by (rewrite length_app, length_replicate; lia). rewrite (app_assoc _ (replicate (b - a) true)). eapply ok_weaken.
  - apply IH; [done|]. rewrite !length_app, !length_replicate. lia.
  - intros fl ->. by rewrite <- !app_assoc.
Qed.

Lemma ok_changed cancel old n es :
  ordered old n 0 es -> ok (changed cancel n es old) (fun fl => fl = mark old n 0 es).
Proof.
  intros HO. unfold changed. ok_skip.
  replace (replicate n false) with ([] ++ replicate (n - 0) false) by (by rewrite Nat.sub_0_r).
  eapply ok_weaken; [by apply ok_changed_loop|]. by intros fl ->.
Qed.

Lemma length_mark old n x es : ordered old n x es -> length (mark old n x es) = (n - x)%nat.
Proof.
  revert x; induction es as [|e es IH]; intros x; cbn [mark ordered]; [by rewrite length_replicate|].
  intros (H1 & H2 & H3). rewrite !length_app, !length_replicate, IH by done. lia.
Qed.

Section Sides.
Context (A B : list bytes).

Lemma run_segment x y x' y' :
  run A B x y x' y' -> exists seg, drop x A = seg ++ drop x' A /\ drop y B = seg ++ drop y' B /\
    x' = (x + length seg)%nat /\ y' = (y + length seg)%nat.
Proof.
  induction 1 as [|x y l x' y' Hx Hy _ (seg & E1 & E2 & -> & ->)].
  - exists []. simpl. split_and!; try done; lia.
  - exists (l :: seg). rewrite (drop_S A l x Hx), (drop_S B l y Hy), E1, E2. simpl. split_and!; try done; lia.
Qed.

Lemma script_ordered x y es :
  script A B x y es -> (x <= length A)%nat -> (y <= length B)%nat ->
  ordered true (length A) x es /\ ordered false (length B) y es.
Proof.
  revert x y; induction es as [|e es IH]; intros x y; cbn [script ordered side_range]; [done|].
  destruct (old_lines e) as [a b], (new_lines e) as [c d]. cbn [fst snd]. intros (Hr & Ha & Hc & HS) Hx Hy.
  destruct (run_length _ _ _ _ _ _ Hr) as (m & -> & ->). destruct (IH b d HS) as [H1 H2]; [lia..|]. split_and!; done || lia.
Qed.

Lemma mark_edit ls n x a b fl seg :
  drop x ls = seg ++ drop a ls -> a = (x + length seg)%nat -> (a <= b <= length ls)%nat -> n = length ls ->
  kept (drop x ls) (replicate (a - x) false ++ replicate (b - a) true ++ fl) = seg ++ kept (drop b ls) fl.
Proof.
  intros E -> Hb ->. rewrite E, kept_app by (rewrite length_replicate; lia).
  rewrite kept_all_false by lia. rewrite kept_trues, drop_drop. do 3 f_equal. lia.
Qed.

(** Both sides keep the same lines. *)
Lemma script_kept x y es :
  script A B x y es -> (x <= length A)%nat -> (y <= length B)%nat ->
  kept (drop x A) (mark true (length A) x es) = kept (drop y B) (mark false (length B) y es).
Proof.
  revert x y; induction es as [|e es IH]; intros x y; cbn [script mark side_range].
  - intros E Hx Hy. rewrite !kept_all_false by (rewrite length_drop; lia). done.
  - destruct (old_lines e) as [a b], (new_lines e) as [c d]. cbn [fst snd]. intros (Hr & Ha & Hc & HS) Hx Hy.
    destruct (run_segment _ _ _ _ Hr) as (seg & E1 & E2 & Ea & Ec).
    rewrite (mark_edit A (length A) x a b _ seg), (mark_edit B (length B) y c d _ seg) by done.
    f_equal. apply IH; [done|lia|lia].
Qed.

Lemma script_trues x y es :
  (trues (mark true (length A) x es) + trues (mark false (length B) y es) = cost es)%nat.
Proof.
  revert x y; induction es as [|e es IH]; intros x y; cbn [mark cost side_range];
    rewrite ?trues_app, ?trues_replicate; [done|]. specialize (IH (old_lines e).2 (new_lines e).2). lia.
Qed.
End Sides.

(** ** Edits of flags *)

Section Collect.
Context (cancel : nat -> bool) (old new : LinesOf) (A B : list bytes).
Hypothesis HA : lines_of old A.
Hypothesis HB : lines_of new B.

(** The group at a position, by the flags around it. *)
Lemma ok_group_at fl x :
  (x <= length fl)%nat ->
  exists k rest, drop x fl = replicate k true ++ rest /\ head rest <> Some true /\ (x + k <= length fl)%nat /\
    drop (x + k) fl = rest /\ ok (group_end cancel (length fl) fl x) (fun r => r = (x + k)%nat).
Proof using.
  intros Hx. destruct (leading (drop x fl)) as (k & rest & E & HR). exists k, rest.
  assert (length (drop x fl) = (k + length rest)%nat) as HL by (by rewrite E, length_app, length_replicate).
  rewrite length_drop in HL. split_and!; [done|done|lia| |].
  - rewrite <- drop_drop, E. apply drop_app_length'. by rewrite length_replicate.
  - pose proof (ok_group_end cancel (take x fl) k rest (length fl) HR ltac:(lia)) as HG.
    rewrite <- E, take_drop, length_take, Nat.min_l in HG by lia. exact HG.
Qed.

Lemma ok_collect removed added fuel x y es :
  length removed = length A -> length added = length B -> (x <= length A)%nat -> (y <= length B)%nat ->
  kept (drop x A) (drop x removed) = kept (drop y B) (drop y added) ->
  (length A - x + (length B - y) < fuel)%nat ->
  ok (collect cancel fuel old new removed added x y es)
    (fun r => exists es', r = es ++ es' /\ script A B x y es' /\ Forall (bytes_match A B) es' /\
      cost es' = (trues (drop x removed) + trues (drop y added))%nat).
Proof using HA HB.
  intros HR HD. revert x y es; induction fuel as [|fuel IH]; intros x y es Hx Hy HK Hf; [lia|]. cbn [collect].
  destruct ((x <? length removed)%nat || (y <? length added)%nat) eqn:EC.
  2:{ apply orb_false_iff in EC as [E1%Nat.ltb_ge E2%Nat.ltb_ge]. apply ok_ret. exists []. rewrite app_nil_r.
      cbn [script cost]. rewrite !drop_ge by lia. split_and!; [done..|constructor|done]. }
  ok_skip. destruct (ok_group_at removed x) as (k & r1 & E1 & H1 & Hk & D1 & G1); [lia|].
  destruct (ok_group_at added y) as (m & r2 & E2 & H2 & Hm & D2 & G2); [lia|].
  eapply ok_bind; [exact G1|intros ? ->]. eapply ok_bind; [exact G2|intros ? ->].
  destruct (negb (x + k =? x)%nat || negb (y + m =? y)%nat) eqn:EN.
  - assert (0 < k + m)%nat as Hkm.
    { apply orb_true_iff in EN as [EN|EN]; apply negb_true_iff, Nat.eqb_neq in EN; lia. }
    eapply ok_bind; [apply (ok_edit old new A B); try done; cbn [fst snd]; lia|]. intros e (F1 & F2 & FB).
    eapply ok_weaken; [apply IH; [lia|lia| |lia]|].
    + rewrite E1, E2, !kept_trues, !drop_drop in HK. by rewrite D1, D2.
    + intros r (es' & -> & HS & HF & HC). exists (e :: es'). rewrite <- app_assoc. split; [done|].
      cbn [script cost]. rewrite F1, F2. cbn [fst snd]. split_and!; try lia; [apply run_nil|done|by constructor|].
      rewrite HC, D1, D2, E1, E2, !trues_app, !trues_replicate. lia.
  - apply orb_false_iff in EN as [N1 N2]. apply negb_false_iff, Nat.eqb_eq in N1, N2.
    assert (k = 0%nat) as -> by lia. assert (m = 0%nat) as -> by lia. cbn [replicate app] in E1, E2.
    assert (forall (fl r : list bool) (ls : list bytes) z, length fl = length ls -> drop z fl = r -> (z <= length ls)%nat ->
      head r <> Some true -> (z = length ls /\ r = []) \/ exists l, ls !! z = Some l /\ r = false :: drop (S z) fl) as Hhd.
    { intros fl r ls z HL Ed Hz Hr. destruct (decide (z = length ls)) as [-> |Hne].
      - left. split; [done|]. rewrite <- Ed. apply drop_ge. lia.
      - right. destruct (lookup_lt_is_Some_2 ls z ltac:(lia)) as [l El]. exists l. split; [done|].
        destruct (lookup_lt_is_Some_2 fl z ltac:(lia)) as [f Ef]. rewrite (drop_S fl f z Ef) in Ed.
        subst r. destruct f; [done|done]. }
    destruct (Hhd removed r1 A x HR E1 Hx H1) as [[-> ->]|(l1 & L1 & R1)],
      (Hhd added r2 B y HD E2 Hy H2) as [[-> ->]|(l2 & L2 & R2)].
    + apply orb_true_iff in EC as [EC%Nat.ltb_lt|EC%Nat.ltb_lt]; lia.
    + rewrite E1, E2, R2, (drop_S B l2 y L2) in HK. rewrite drop_all in HK. done.
    + rewrite E1, E2, R1, (drop_S A l1 x L1) in HK. rewrite drop_all in HK. done.
    + pose proof (lookup_lt_Some _ _ _ L1). pose proof (lookup_lt_Some _ _ _ L2).
      rewrite E1, E2, R1, R2, (drop_S A l1 x L1), (drop_S B l2 y L2) in HK. cbn [kept] in HK.
      injection HK as -> HK. eapply ok_weaken; [apply IH; [lia|lia|done|lia]|].
      intros r (es' & -> & HS & HF & HC). exists es'. split_and!; [done| |done|].
      * eapply script_back; [|exact HS]. eapply run_cons; [done..|]. apply run_nil.
      * rewrite HC, E1, E2, R1, R2. simpl. done.
Qed.

(** [compact::edits] keeps a script a script and its cost what it was. *)
Lemma ok_compact_edits es ih :
  script A B 0 0 es -> Forall (bytes_match A B) es ->
  ok (compact_edits cancel old new es ih)
    (fun r => script A B 0 0 r /\ Forall (bytes_match A B) r /\ cost r = cost es).
Proof using HA HB.
  intros HS HF. unfold compact_edits. destruct (match es with [e] => _ | _ => false end); [by apply ok_ret|].
  rewrite (len_lines _ _ HA), (len_lines _ _ HB).
  destruct (script_ordered A B 0 0 es HS) as [O1 O2]; [lia..|].
  pose proof (script_kept A B 0 0 es HS ltac:(lia) ltac:(lia)) as HK. rewrite !drop_0 in HK.
  pose proof (length_mark _ _ _ _ O1) as L1. pose proof (length_mark _ _ _ _ O2) as L2. rewrite Nat.sub_0_r in L1, L2.
  pose proof (script_trues A B 0 0 es) as HT.
  set (f1 := mark true (length A) 0 es) in *. set (f2 := mark false (length B) 0 es) in *.
  eapply ok_bind; [by apply ok_changed|intros ? ->]. eapply ok_bind; [by apply ok_changed|intros ? ->]. fold f1 f2.
  pose proof (length_kept A f1 (eq_sym L1)) as K1. pose proof (length_kept B f2 (eq_sym L2)) as K2.
  set (K := kept A f1) in *. rewrite <- HK in K2. symmetry in HK.
  eapply ok_bind; [eapply (ok_compact cancel old A K); [done|by split|lia]|]. intros g1 [G1 M1].
  eapply ok_bind; [eapply (ok_compact cancel new B K); [done|by split|]|].
  { rewrite <- (length_kept A g1) by lia. by rewrite G1. }
  intros g2 [G2 M2]. eapply ok_weaken; [apply ok_collect; try lia; rewrite !drop_0; congruence|].
  intros r (es' & -> & S' & F' & C'). split_and!; [done|done|]. cbn [app]. rewrite !drop_0 in C'. rewrite C'.
  pose proof (trues_falses f1). pose proof (trues_falses f2). pose proof (trues_falses g1). pose proof (trues_falses g2).
  pose proof (length_kept A g1 ltac:(lia)). pose proof (length_kept B g2 ltac:(lia)).
  rewrite G1 in *. rewrite G2 in *. lia.
Qed.
End Collect.

(** ** The result *)

(** Applying edits to the old bytes: everything before an edit is copied, the old
    bytes of the edit are replaced by its new bytes. *)
Fixpoint rebuild (old new : bytes) (at_ : Z) (es : list ContentEdit) : option bytes :=
  match es with
  | [] => slice at_ (zlen old) old
  | e :: es =>
      keep ← slice at_ (old_bytes e).1 old;
      ins ← slice (new_bytes e).1 (new_bytes e).2 new;
      rest ← rebuild old new (old_bytes e).2 es;
      Some (keep ++ ins ++ rest)
  end.

Lemma slice_lines ls a b :
  (a <= b <= length ls)%nat -> slice (off ls a) (off ls b) (concat ls) = Some (concat (take (b - a) (drop a ls))).
Proof.
  intros H. unfold off. assert (ls = take a ls ++ take (b - a) (drop a ls) ++ drop b ls) as E.
  { rewrite <- (take_drop a ls) at 1. f_equal. rewrite <- (take_drop (b - a) (drop a ls)) at 1. f_equal.
    rewrite drop_drop. f_equal. lia. }
  assert (take b ls = take a ls ++ take (b - a) (drop a ls)) as Eb.
  { rewrite E at 1. rewrite app_assoc. apply take_app_length'. rewrite length_app, !length_take, length_drop. lia. }
  assert (concat ls = concat (take a ls) ++ concat (take (b - a) (drop a ls)) ++ concat (drop b ls)) as ->
    by (rewrite E at 1; by rewrite !concat_app).
  rewrite Eb, concat_app. apply slice_mid; [done|by rewrite zlen_app].
Qed.

Lemma off_all ls : off ls (length ls) = zlen (concat ls).
Proof. unfold off. by rewrite firstn_all. Qed.

(** A script with its byte ranges rebuilds the new text. *)
Lemma script_rebuild A B x y es :
  script A B x y es -> Forall (bytes_match A B) es -> (x <= length A)%nat -> (y <= length B)%nat ->
  rebuild (concat A) (concat B) (off A x) es = Some (concat (drop y B)).
Proof.
  revert x y; induction es as [|e es IH]; intros x y; cbn [script rebuild].
  - intros E _ Hx Hy. rewrite <- off_all, slice_lines by lia. rewrite take_ge by (rewrite length_drop; lia). by rewrite E.
  - intros HS [[B1 B2] HF]%Forall_cons Hx Hy. rewrite B1, B2. cbn [fst snd].
    destruct (old_lines e) as [a b], (new_lines e) as [c d]. cbn [fst snd]. destruct HS as (Hr & Ha & Hc & HS).
    destruct (run_segment _ _ _ _ _ _ Hr) as (seg & E1 & E2 & Ea & Ec).
    rewrite !slice_lines by lia. cbn [mbind option_bind]. rewrite (IH b d HS HF) by lia. cbn [mbind option_bind].
    f_equal. rewrite E2, concat_app, E1. f_equal; [f_equal; apply take_app_length'; lia|].
    rewrite <- concat_app. f_equal. rewrite <- (take_drop (d - c) (drop c B)) at 2. f_equal. rewrite drop_drop. f_equal. lia.
Qed.

(** Whether changed inputs count as binary. *)
Definition classified (mode : BinaryMode) (old new : bytes) : bool :=
  match mode with Auto => contains 0 old || contains 0 new | Text => false | Binary => true end.

(** What [diff_with_options] promises for each result. *)
Definition diff_result_ok (mode : BinaryMode) (old new : bytes) (r : ContentDiff) : Prop :=
  let A := split_inclusive 10 old in
  let B := split_inclusive 10 new in
  zlen old + zlen new <= usize_max /\
  match r with
  | Unchanged => old = new
  | BinaryDiff => old <> new /\ classified mode old new = true
  | TextDiff es =>
      old <> new /\ classified mode old new = false /\ script A B 0 0 es /\ Forall (bytes_match A B) es /\ rebuild old new 0 es = Some new /\
      forall es', script A B 0 0 es' -> (cost es <= cost es')%nat
  end.

Lemma ok_diff_body cancel old new options limits :
  ok (diff_body cancel old new options limits) (diff_result_ok (binary options) old new).
Proof.
  unfold diff_body. ok_skip. eapply ok_bind; [apply (ok_limit _ _ (fun _ => zlen old + zlen new <= usize_max)); intros a Ha;
    apply checked_add_Some in Ha; lia|]. intros total Htotal.
  destruct (max_input_bytes limits <? total); [intros b; right; by eexists|].
  eapply ok_bind; [apply ok_equal|]. intros ? ->. case_bool_decide as E; [ok_skip; by apply ok_ret|].
  eapply ok_bind.
  { instantiate (1 := fun r => r = classified (binary options) old new). unfold classified.
    destruct (binary options); try by apply ok_ret.
    eapply ok_bind; [apply ok_has_nul|]. intros ? ->. destruct (contains 0 old); [by apply ok_ret|apply ok_has_nul]. }
  intros b Eb. cbv beta in Eb. destruct b; [ok_skip; by apply ok_ret|].
  eapply ok_bind; [apply ok_lines_new|]. intros [ol l1] HA. cbn [fst] in HA.
  eapply ok_bind; [apply ok_lines_new|]. intros [nl l2] HB. cbn [fst] in HB.
  eapply ok_bind; [by apply (ok_myers cancel ol nl _ _ HA HB)|]. intros es (S1 & F1 & M1).
  eapply ok_bind; [by apply (ok_compact_edits cancel ol nl _ _ HA HB)|]. intros es2 (S2 & F2 & C2).
  ok_skip. apply ok_ret. split_and!; [done|done|done|done|done| |intros es' H'; rewrite C2; by apply M1].
  pose proof (script_rebuild _ _ 0 0 es2 S2 F2 ltac:(lia) ltac:(lia)) as HR.
  rewrite !split_inclusive_concat in HR. change (off _ 0) with 0 in HR. by rewrite HR, drop_0, split_inclusive_concat.
Qed.

(** C5: The content comparison is correct for all inputs, limits and moments of
    cancellation: it reports two byte strings as unchanged exactly when they are equal,
    and as binary exactly when the mode or a NUL byte says so;
    the edits of a text comparison, applied to the old bytes, give the new bytes, and
    no edit script between the two texts changes fewer lines (moving groups to
    readable boundaries included); and the only errors are an exceeded limit and
    cancellation, so no index is out of range, no counter underflows and every loop
    ends. *)
Theorem diff_correct (cancel : nat -> bool) (old new : bytes) (options : Options) (limits : DiffLimits) :
  match diff_with_options cancel old new options limits with
  | Ok Unchanged => old = new
  | Ok BinaryDiff => old <> new /\ classified (binary options) old new = true
  | Ok (TextDiff es) =>
      old <> new /\ classified (binary options) old new = false /\ rebuild old new 0 es = Some new /\
      script (split_inclusive 10 old) (split_inclusive 10 new) 0 0 es /\
      forall es', script (split_inclusive 10 old) (split_inclusive 10 new) 0 0 es' -> (cost es <= cost es')%nat
  | Err e => e = Cancelled \/ exists what, e = Limit what
  end.
Proof.
  pose proof (ok_diff_body cancel old new options limits {| remaining := max_work limits; loads := 0 |}) as H.
  unfold diff_with_options. destruct (diff_body _ _ _ _ _ _) as [[[| |es]|e] b]; cbn [fst] in *; try done;
    destruct H as [_ H]; try done. destruct H as (H1 & H2 & H3 & H4 & H5 & H6). done.
Qed.

(** Two small texts: the middle line is removed, a line is added at the end. *)
Example diff_small :
  diff_with_options (fun _ => false) [97; 10; 98; 10; 99; 10] [97; 10; 99; 10; 100] default_options default_limits
  = Ok (TextDiff [{| old_lines := (1, 2)%nat; new_lines := (1, 1)%nat; old_bytes := (2, 4); new_bytes := (2, 2) |};
                  {| old_lines := (3, 3)%nat; new_lines := (2, 3)%nat; old_bytes := (6, 6); new_bytes := (4, 5) |}]).
Proof. vm_compute. reflexivity. Qed.
End DiffCorrect.
