(* ===== verification/Merge.v ===== *)
(** * Three-way content merge ([src/src/merge/content.rs], [render.rs], [types.rs] and
      [whitespace.rs])

    Both sides are compared with the base, either byte for byte or through per-line
    keys that forget whitespace; overlapping and touching edits are joined to regions,
    and a region both sides changed is a conflict unless the sides agree or a favour
    decides.  The state is the number of loads of the cancellation flag so far; the
    comparison is the one of [Diff.v]. *)

From stdpp Require Import base list numbers strings.
From Stdlib Require Import ZArith Lia.
From S2P Require Import Prelude Lines Diff.

Module Merge.
Import Lines Diff.

(** [ContentHunk::Conflict { base, ours, theirs }]. *)
Inductive ContentHunk :=
| Resolved (bs : bytes)
| Conflict (base ours theirs : bytes).
Record ContentMerge := { hunks : list ContentHunk; m_binary : bool }.
Inductive Favor := FConflict | FOurs | FTheirs | FUnion.
Inductive Whitespace := Exact | IgnoreSpaceChange | IgnoreAllSpace | IgnoreSpaceAtEol | IgnoreCrAtEol.
Record ContentOptions := { c_binary : BinaryMode; favor : Favor; whitespace : Whitespace; limits : DiffLimits }.
Inductive ConflictStyle := StyleMerge | Diff3 | Zdiff3.
(** [width] is a [NonZeroUsize]. *)
Record MarkerOptions := { style : ConflictStyle; width : nat; l_ours : bytes; l_base : bytes; l_theirs : bytes }.
Inductive Error := EDiff (e : DiffError).

Definition default_content_options : ContentOptions :=
  {| c_binary := Auto; favor := FConflict; whitespace := Exact; limits := default_limits |}.
Definition default_markers : MarkerOptions :=
  {| style := StyleMerge; width := 7; l_ours := bstr "ours"; l_base := bstr "base"; l_theirs := bstr "theirs" |}.

(** [is_clean]. *)
Definition is_clean (m : ContentMerge) : bool :=
  forallb (fun h => match h with Resolved _ => true | _ => false end) (hunks m).

Definition is_exact (w : Whitespace) : bool := match w with Exact => true | _ => false end.

(** [u8::is_ascii_whitespace]. *)
Definition is_ascii_whitespace (b : Z) : bool := contains b [32; 9; 10; 12; 13].

(** ** Keys of lines ([whitespace.rs]) *)

Section WithFlag.
Variable cancel : nat -> bool.
Abbreviation M := (SE nat DiffError).

(** [check]. *)
Definition w_check : M unit := fun n => (if cancel n then Err Cancelled else Ok tt, S n).

(** A comparison of [Diff.v] from the flag's present state on. *)
Definition run_diff (old new : bytes) (mode : BinaryMode) (limits : DiffLimits) : M ContentDiff :=
  fun n =>
    let '(r, b) := diff_body cancel old new {| binary := mode; indent_heuristic := true |} limits
                     {| remaining := max_work limits; loads := n |} in
    (r, loads b).

(** The loop of [line_key] over the bytes of a body. *)
Fixpoint squeeze (policy : Whitespace) (position : Z) (space : bool) (body output : bytes) : M bytes :=
  match body with
  | [] => se_ret output
  | byte :: body =>
      let! _ := if position mod 65536 =? 0 then w_check else se_ret tt in
      if is_ascii_whitespace byte then squeeze policy (position + 1) true body output
      else
        let output := if space && match policy with IgnoreSpaceChange => true | _ => false end
                      then output ++ [32] else output in
        squeeze policy (position + 1) false body (output ++ [byte])
  end.

(** [line_key]. *)
Definition line_key (body : bytes) (policy : Whitespace) (output : bytes) : M bytes :=
  match policy with
  | Exact => se_ret (output ++ body)
  | IgnoreSpaceAtEol =>
      let end_ := match rposition (fun b => negb (is_ascii_whitespace b)) body with
                  | None => 0%nat
                  | Some p => S p
                  end in
      se_ret (output ++ take end_ body)
  | IgnoreCrAtEol => se_ret (output ++ default body (strip_suffix [13] body))
  | IgnoreSpaceChange | IgnoreAllSpace => squeeze policy 0 false body output
  end.

(** [Keys] and the loop of [keys]. *)
Record Keys := { k_bytes : bytes; k_offsets : list Z }.
Fixpoint keys_loop (ls : list bytes) (policy : Whitespace) (limits : DiffLimits) (bs : bytes) (offsets : list Z) (offset_ : Z)
  : M Keys :=
  match ls with
  | [] => se_ret {| k_bytes := bs; k_offsets := offsets |}
  | line :: ls =>
      let! _ := w_check in
      if max_lines limits <? zlen offsets then se_fail (Limit "lines")
      else
        let body := default line (strip_suffix [10] line) in
        let! bs := line_key body policy bs in
        let bs := bs ++ [if ends_with [10] line then 1 else 0] ++ [10] in
        let offset_ := offset_ + zlen line in
        keys_loop ls policy limits bs (offsets ++ [offset_]) offset_
  end.
Definition keys (input : bytes) (policy : Whitespace) (limits : DiffLimits) : M Keys :=
  keys_loop (split_inclusive 10 input) policy limits [] [0] 0.

(** [unpack]. *)
Definition unpack (d : ContentDiff) : list ContentEdit * bool :=
  match d with
  | TextDiff es => (es, false)
  | BinaryDiff => ([], true)
  | Unchanged => ([], false)
  end.

(** Replacing the key offsets of every edit by the offsets of the original lines. *)
Definition original (a b : Keys) (e : ContentEdit) : M ContentEdit :=
  let! oa := get (k_offsets a) e.(old_lines).1 in
  let! ob := get (k_offsets a) e.(old_lines).2 in
  let! na := get (k_offsets b) e.(new_lines).1 in
  let! nb := get (k_offsets b) e.(new_lines).2 in
  se_ret {| old_lines := e.(old_lines); new_lines := e.(new_lines); old_bytes := (oa, ob); new_bytes := (na, nb) |}.
Fixpoint originals (a b : Keys) (es : list ContentEdit) : M (list ContentEdit) :=
  match es with
  | [] => se_ret []
  | e :: es =>
      let! e := original a b e in
      let! es := originals a b es in
      se_ret (e :: es)
  end.

(** [DiffLimits] with another work and input bound. *)
Definition key_limits (l : DiffLimits) (remaining : Z) : DiffLimits :=
  {| max_input_bytes := saturating_add (max_input_bytes l) (saturating_mul (max_lines l) 2);
     max_lines := max_lines l; max_trace := max_trace l; max_work := remaining |}.

(** [compare]. *)
Definition compare (base side : bytes) (options : ContentOptions) : M (list ContentEdit * bool) :=
  if is_exact (whitespace options) then
    let! d := run_diff base side (c_binary options) (limits options) in
    se_ret (unpack d)
  else
    let! _ := w_check in
    let! total := se_lift (ok_or (checked_add (zlen base) (zlen side)) (Limit "input bytes")) in
    if max_input_bytes (limits options) <? total then se_fail (Limit "input bytes")
    else
      let! work := se_lift (ok_or (checked_mul total 4) (Limit "whitespace work")) in
      let! remaining := se_lift (ok_or (checked_sub (max_work (limits options)) work) (Limit "whitespace work")) in
      let is_binary := match c_binary options with
                       | Auto => contains 0 base || contains 0 side
                       | Text => false
                       | Binary => true
                       end in
      if bytes_eqb base side then se_ret ([], false)
      else if is_binary then se_ret ([], true)
      else
        let! a := keys base (whitespace options) (limits options) in
        let! b := keys side (whitespace options) (limits options) in
        let! d := run_diff (k_bytes a) (k_bytes b) Text (key_limits (limits options) remaining) in
        let! es := originals a b (unpack d).1 in
        se_ret (es, false).

(** [equivalent]. *)
Definition equivalent (a b : bytes) (options : ContentOptions) : M bool :=
  if bytes_eqb a b then se_ret true
  else if is_exact (whitespace options) then se_ret false
  else
    let! ka := keys a (whitespace options) (limits options) in
    let! kb := keys b (whitespace options) (limits options) in
    se_ret (bytes_eqb (k_bytes ka) (k_bytes kb)).

(** ** Conflicts ([render.rs]) *)

(** The common leading lines of two line lists, as a byte count. *)
Fixpoint common (a b : list bytes) : Z :=
  match a, b with
  | x :: a, y :: b => if bytes_eqb x y then zlen x + common a b else 0
  | _, _ => 0
  end.

(** [common_boundaries]. *)
Definition common_boundaries (ours theirs : bytes) : M (Z * Z) :=
  let prefix := common (split_inclusive 10 ours) (split_inclusive 10 theirs) in
  let! a := cut prefix (zlen ours) ours in
  let! b := cut prefix (zlen theirs) theirs in
  se_ret (prefix, common (reverse (split_inclusive 10 a)) (reverse (split_inclusive 10 b))).

(** [choose]; [split_off] and the slice panic on a bad index. *)
Definition choose (base ours theirs : bytes) (f : Favor) (is_binary : bool) : M ContentHunk :=
  match f with
  | FOurs => se_ret (Resolved ours)
  | FTheirs => se_ret (Resolved theirs)
  | FUnion =>
      if is_binary then se_ret (Conflict base ours theirs)
      else
        let! (prefix, suffix) := common_boundaries ours theirs in
        let! head := cut 0 (zlen ours - suffix) ours in
        let! tail := cut (zlen ours - suffix) (zlen ours) ours in
        let! replacement := cut prefix (zlen theirs - suffix) theirs in
        let sep := if negb (bytes_eqb head []) && negb (ends_with [10] head) && negb (bytes_eqb replacement [])
                   then [10] else [] in
        se_ret (Resolved (head ++ sep ++ replacement ++ tail))
  | FConflict => se_ret (Conflict base ours theirs)
  end.

(** ** Merging ([content.rs]) *)

(** [append]; the hunks are kept in order, the last element is at the end. *)
Definition append (hs : list ContentHunk) (bs : bytes) : list ContentHunk :=
  if bytes_eqb bs [] then hs
  else match last hs with
       | Some (Resolved previous) => removelast hs ++ [Resolved (previous ++ bs)]
       | _ => hs ++ [Resolved bs]
       end.

(** [records] and [advance]. *)
Definition records (bs : bytes) : nat := length (split_inclusive 10 bs).
Definition advance (bs : bytes) (start : Z) (records : nat) : M Z :=
  let! rest := cut start (zlen bs) bs in
  se_ret (start + foldr Z.add 0 (map zlen (take records (split_inclusive 10 rest)))).

(** [apply]. *)
Fixpoint apply_loop (base side : bytes) (edits : list ContentEdit) (cursor side_cursor : Z) (bs : bytes)
  : M (bytes * Z * Z) :=
  match edits with
  | [] => se_ret (bs, cursor, side_cursor)
  | e :: edits =>
      let! gap := cut cursor e.(old_bytes).1 base in
      let! matched := advance side side_cursor (records gap) in
      let! kept := cut side_cursor matched side in
      let! new := cut e.(new_bytes).1 e.(new_bytes).2 side in
      apply_loop base side edits e.(old_bytes).2 e.(new_bytes).2 (bs ++ kept ++ new)
  end.
Definition apply (base side : bytes) (edits : list ContentEdit) (start end_ side_start : Z) : M (bytes * Z) :=
  let! (bs, cursor, side_cursor) := apply_loop base side edits start side_start [] in
  let! gap := cut cursor end_ base in
  let! e := advance side side_cursor (records gap) in
  let! kept := cut side_cursor e side in
  se_ret (bs ++ kept, e).

(** [while l < left.len() && left[l].old_bytes.start <= end]: the edits taken, those
    left, and the new end. *)
Fixpoint touching (edits : list ContentEdit) (end_ : Z) : list ContentEdit * list ContentEdit * Z :=
  match edits with
  | e :: rest =>
      if e.(old_bytes).1 <=? end_ then
        let '(taken, rest, end_) := touching rest (Z.max end_ e.(old_bytes).2) in
        (e :: taken, rest, end_)
      else ([], edits, end_)
  | [] => ([], [], end_)
  end.

(** The loop that extends a region until neither side grows; fuel is the number of
    edits. *)
Record Region := { r_left : list ContentEdit; r_right : list ContentEdit; r_end : Z }.
Fixpoint extend (fuel : nat) (left_ right_ : list ContentEdit) (r : Region)
  : M (list ContentEdit * list ContentEdit * Region) :=
  let '(tl, left', e1) := touching left_ (r_end r) in
  let '(tr, right', e2) := touching right_ e1 in
  let r := {| r_left := r_left r ++ tl; r_right := r_right r ++ tr; r_end := e2 |} in
  match tl, tr with
  | [], [] => se_ret (left', right', r)
  | _, _ =>
      match fuel with
      | O => se_fail OutOfFuel
      | S fuel => extend fuel left' right' r
      end
  end.

(** The start of the next edit of one side. *)
Definition next_start (edits : list ContentEdit) : Z :=
  match edits with e :: _ => e.(old_bytes).1 | [] => usize_max end.

(** One hunk of [combine], with the decision between the sides. *)
Definition decide_hunk (original a b : bytes) (r : Region) (options : ContentOptions) : M ContentHunk :=
  match r_right r, r_left r with
  | [], _ => se_ret (Resolved a)
  | _, [] => se_ret (Resolved b)
  | _, _ =>
      let! same := equivalent a b options in
      if same then se_ret (Resolved a) else choose original a b (favor options) false
  end.
Definition add_hunk (hs : list ContentHunk) (h : ContentHunk) : list ContentHunk :=
  match h with Resolved bs => append hs bs | _ => hs ++ [h] end.

(** The cursors of [combine] and what is left of the edits. *)
Record Walk := { w_left : list ContentEdit; w_right : list ContentEdit; w_base : Z; w_ours : Z; w_theirs : Z }.

(** One pass of the loop of [combine]. *)
Definition combine_step (base ours theirs : bytes) (options : ContentOptions) (w : Walk) (hs : list ContentHunk)
  : M (Walk * list ContentHunk) :=
  let! _ := w_check in
  let start := Z.min (next_start (w_left w)) (next_start (w_right w)) in
  let! gap := cut (w_base w) start base in
  let! ours_start := advance ours (w_ours w) (records gap) in
  let! theirs_start := advance theirs (w_theirs w) (records gap) in
  let! same := cut (w_ours w) ours_start ours in
  let hs := append hs same in
  let! (left', right', r) :=
    extend (length (w_left w) + length (w_right w)) (w_left w) (w_right w) {| r_left := []; r_right := []; r_end := start |} in
  let! (a, ours_end) := apply base ours (r_left r) start (r_end r) ours_start in
  let! (b, theirs_end) := apply base theirs (r_right r) start (r_end r) theirs_start in
  let! original := cut start (r_end r) base in
  let! h := decide_hunk original a b r options in
  se_ret ({| w_left := left'; w_right := right'; w_base := r_end r; w_ours := ours_end; w_theirs := theirs_end |},
          add_hunk hs h).

(** [while l < left.len() || r < right.len()]; fuel is the number of edits. *)
Fixpoint combine_loop (fuel : nat) (base ours theirs : bytes) (options : ContentOptions) (w : Walk) (hs : list ContentHunk)
  : M (list ContentHunk * Z) :=
  if ((0 <? length (w_left w)) || (0 <? length (w_right w)))%nat then
    match fuel with
    | O => se_fail OutOfFuel
    | S fuel =>
        let! (w, hs) := combine_step base ours theirs options w hs in
        combine_loop fuel base ours theirs options w hs
    end
  else se_ret (hs, w_ours w).

(** [combine]. *)
Definition combine (base ours theirs : bytes) (left_ right_ : list ContentEdit) (options : ContentOptions)
  : M ContentMerge :=
  let! (hs, ours_cursor) :=
    combine_loop (length left_ + length right_) base ours theirs options
      {| w_left := left_; w_right := right_; w_base := 0; w_ours := 0; w_theirs := 0 |} [] in
  let! rest := cut ours_cursor (zlen ours) ours in
  se_ret {| hunks := append hs rest; m_binary := false |}.

(** [resolved]. *)
Definition resolved (bs : bytes) (is_binary : bool) : ContentMerge := {| hunks := [Resolved bs]; m_binary := is_binary |}.

(** [content_with]. *)
Definition content_body (base ours theirs : bytes) (options : ContentOptions) : M ContentMerge :=
  let! (left_, left_binary) := compare base ours options in
  let! (right_, right_binary) := compare base theirs options in
  let is_binary := left_binary || right_binary in
  if bytes_eqb ours theirs || bytes_eqb base theirs then se_ret (resolved ours is_binary)
  else if bytes_eqb base ours then se_ret (resolved theirs is_binary)
  else if is_binary then
    let! hunk := choose base ours theirs (favor options) true in
    se_ret {| hunks := [hunk]; m_binary := is_binary |}
  else match left_, right_ with
       | [], _ => se_ret (resolved theirs false)
       | _, [] => se_ret (resolved ours false)
       | _, _ => combine base ours theirs left_ right_ options
       end.
Definition content_with (base ours theirs : bytes) (options : ContentOptions) : result Error ContentMerge :=
  match (content_body base ours theirs options O).1 with Ok m => Ok m | Err e => Err (EDiff e) end.
End WithFlag.

(** [content]. *)
Definition content (base ours theirs : bytes) : result Error ContentMerge :=
  content_with (fun _ => false) base ours theirs default_content_options.

(** ** Rendering *)

(** [marker] and [payload]. *)
Definition marker (byte : Z) (label : bytes) (options : MarkerOptions) : bytes :=
  replicate (width options) byte ++ (if bytes_eqb label [] then [] else 32 :: label) ++ [10].
Definition payload (bs : bytes) : bytes :=
  bs ++ (if negb (bytes_eqb bs []) && negb (ends_with [10] bs) then [10] else []).

(** [render_conflict]. *)
Definition is_diff3 (s : ConflictStyle) : bool := match s with Diff3 => true | _ => false end.
Definition is_merge_style (s : ConflictStyle) : bool := match s with StyleMerge => true | _ => false end.
Definition render_conflict (output base ours theirs : bytes) (options : MarkerOptions) : SE nat DiffError bytes :=
  let! (prefix, suffix) := if is_diff3 (style options) then se_ret (0, 0) else common_boundaries ours theirs in
  let! head := cut 0 prefix ours in
  let! mine := cut prefix (zlen ours - suffix) ours in
  let! yours := cut prefix (zlen theirs - suffix) theirs in
  let! tail := cut (zlen ours - suffix) (zlen ours) ours in
  se_ret (output ++ head ++ marker 60 (l_ours options) options ++ payload mine ++
          (if negb (is_merge_style (style options)) then marker 124 (l_base options) options ++ payload base else []) ++
          marker 61 [] options ++ payload yours ++ marker 62 (l_theirs options) options ++ tail).

(** [ContentMerge::render]. *)
Fixpoint render_loop (output : bytes) (hs : list ContentHunk) (is_binary : bool) (options : MarkerOptions)
  : SE nat DiffError bytes :=
  match hs with
  | [] => se_ret output
  | h :: hs =>
      let! output :=
        match h with
        | Resolved bs => se_ret (output ++ bs)
        | Conflict base ours theirs =>
            if is_binary then se_ret (output ++ ours) else render_conflict output base ours theirs options
        end in
      render_loop output hs is_binary options
  end.
Definition render (m : ContentMerge) (options : MarkerOptions) : result DiffError bytes :=
  (render_loop [] (hunks m) (m_binary m) options O).1.
End Merge.
