(* ===== verification/MergeProofs.v ===== *)
(** * Correctness of the three-way content merge

    The hunks of a merge come from one segmentation of the base and both sides:
    between the regions all three agree (up to the whitespace policy), each region is a
    maximal union of touching edits, and its outcome follows from which side changed
    it. *)

From stdpp Require Import base list numbers strings sets.
From Stdlib Require Import ZArith Lia.
From S2P Require Import Prelude Lines Diff DiffProofs DiffCompact DiffCorrect Merge.

Module MergeProofs.
Import Lines Diff DiffProofs DiffCompact DiffCorrect Merge.

(** ** Lists of lines *)

(** Lines as [split_inclusive] returns them: only the last may lack a newline. *)
Inductive proper : list bytes -> Prop :=
| proper_nil : proper []
| proper_last l : l <> [] -> 10 ∉ l -> proper [l]
| proper_cons x ls : 10 ∉ x -> proper ls -> proper ((x ++ [10]) :: ls).

Lemma split_unterminated l : l <> [] -> 10 ∉ l -> split_inclusive 10 l = [l].
Proof.
  induction l as [|b l IH]; intros Hl H10; [done|]. cbn [split_inclusive].
  destruct (Z.eqb_spec b 10) as [-> |]; [set_solver|]. destruct l as [|c l]; [done|].
  rewrite IH; [done|done|set_solver].
Qed.

Lemma proper_split ls : proper ls -> split_inclusive 10 (concat ls) = ls.
Proof.
  induction 1 as [|l Hl H10|x ls H10 _ IH]; [done| |].
  - cbn [concat]. rewrite app_nil_r. by apply split_unterminated.
  - cbn [concat]. rewrite <- app_assoc. cbn [app]. by rewrite split_inclusive_line, IH.
Qed.

Lemma split_proper bs : proper (split_inclusive 10 bs).
Proof.
  induction bs as [|b bs IH]; cbn [split_inclusive]; [constructor|].
  destruct (Z.eqb_spec b 10) as [-> |Hb].
  - apply (proper_cons []); [set_solver|done].
  - inversion IH as [|l Hl H10|x ls H10 H]; subst; [apply proper_last; [done|set_solver]|apply proper_last; [done|set_solver]|].
    apply (proper_cons (b :: x)); [set_solver|done].
Qed.

Lemma proper_drop n ls : proper ls -> proper (drop n ls).
Proof.
  intros H. revert n; induction H as [|l Hl H10|x ls H10 H IH]; intros [|n]; cbn [drop];
    rewrite ?drop_nil; eauto using proper.
Qed.
Lemma proper_take n ls : proper ls -> proper (take n ls).
Proof.
  intros H. revert n; induction H as [|l Hl H10|x ls H10 H IH]; intros [|n]; cbn [take];
    rewrite ?firstn_nil; eauto using proper.
Qed.
Lemma proper_lookup ls i l : proper ls -> ls !! i = Some l -> l <> [].
Proof.
  intros H. revert i; induction H as [|l' Hl H10|x ls H10 H IH]; intros [|i] E; cbn in E; try done.
  - by injection E as <-.
  - injection E as <-. by destruct x.
  - by apply IH in E.
Qed.

(** The lines from [a] on, [n] of them. *)
Definition seg {A} (ls : list A) (a n : nat) : list A := take n (drop a ls).

Lemma seg_split {A} (ls : list A) a n : drop a ls = seg ls a n ++ drop (a + n) ls.
Proof. unfold seg. rewrite <- drop_drop. by rewrite take_drop. Qed.
Lemma length_seg {A} (ls : list A) a n : (a + n <= length ls)%nat -> length (seg ls a n) = n.
Proof. intros. unfold seg. rewrite length_take, length_drop. lia. Qed.
Lemma seg_add {A} (ls : list A) a n m : seg ls a (n + m) = seg ls a n ++ seg ls (a + n) m.
Proof. unfold seg. rewrite <- drop_drop. symmetry. apply take_take_drop. Qed.
Lemma proper_seg ls a n : proper ls -> proper (seg ls a n).
Proof. intros. by apply proper_take, proper_drop. Qed.
Lemma map_seg {A B} (f : A -> B) ls a n : map f (seg ls a n) = seg (map f ls) a n.
Proof. unfold seg. by rewrite <- firstn_map, <- skipn_map. Qed.

Lemma off_seg ls a n : off ls (a + n) = off ls a + zlen (concat (seg ls a n)).
Proof. unfold off, seg. by rewrite <- take_take_drop, concat_app, zlen_app. Qed.

Lemma cut_seg ls a n : (a + n <= length ls)%nat -> slice (off ls a) (off ls (a + n)) (concat ls) = Some (concat (seg ls a n)).
Proof. intros. rewrite slice_lines by lia. unfold seg. by replace (a + n - a)%nat with n by lia. Qed.
Lemma cut_rest ls a : (a <= length ls)%nat -> slice (off ls a) (zlen (concat ls)) (concat ls) = Some (concat (drop a ls)).
Proof. intros. rewrite <- off_all, slice_lines by lia. rewrite take_ge by (rewrite length_drop; lia). done. Qed.

(** Offsets are strictly increasing, so comparing them compares line numbers. *)
Lemma off_lt ls a b : proper ls -> (a < b <= length ls)%nat -> off ls a < off ls b.
Proof.
  intros HP Hab. replace b with (a + S (b - a - 1))%nat by lia. rewrite off_seg.
  destruct (lookup_lt_is_Some_2 ls a ltac:(lia)) as [l El]. pose proof (proper_lookup _ _ _ HP El) as Hl.
  unfold seg. rewrite (drop_S ls l a El). cbn [take concat]. rewrite zlen_app.
  pose proof (zlen_nonneg (concat (take (b - a - 1) (drop (S a) ls)))).
  destruct l; [done|]. rewrite zlen_cons. pose proof (zlen_nonneg l). lia.
Qed.
Lemma off_le ls a b : proper ls -> (a <= length ls)%nat -> (b <= length ls)%nat -> off ls a <= off ls b <-> (a <= b)%nat.
Proof.
  intros HP Ha Hb. destruct (decide (a = b)) as [-> |]; [lia|].
  destruct (le_lt_dec a b); [pose proof (off_lt ls a b HP)|pose proof (off_lt ls b a HP)]; lia.
Qed.

(** ** Keys *)

(** What a policy keeps of the body of a line. *)
Fixpoint squeezed (policy : Whitespace) (space : bool) (body : bytes) : bytes :=
  match body with
  | [] => []
  | b :: body =>
      if is_ascii_whitespace b then squeezed policy true body
      else (if space && match policy with IgnoreSpaceChange => true | _ => false end then [32] else []) ++
           b :: squeezed policy false body
  end.
Definition body_key (policy : Whitespace) (body : bytes) : bytes :=
  match policy with
  | Exact => body
  | IgnoreSpaceAtEol => take (match rposition (fun b => negb (is_ascii_whitespace b)) body with None => 0%nat | Some p => S p end) body
  | IgnoreCrAtEol => default body (strip_suffix [13] body)
  | _ => squeezed policy false body
  end.

(** The key of a line; under [Exact] it is the line itself. *)
Definition line_body (l : bytes) : bytes := default l (strip_suffix [10] l).
Definition key (policy : Whitespace) (l : bytes) : bytes :=
  if is_exact policy then l
  else body_key policy (line_body l) ++ [if ends_with [10] l then 1 else 0] ++ [10].

(** Two texts that a policy does not tell apart. *)
Definition equiv (policy : Whitespace) (a b : bytes) : Prop :=
  map (key policy) (split_inclusive 10 a) = map (key policy) (split_inclusive 10 b).

Lemma ok_w_check cancel : ok (w_check cancel) (fun _ => True).
Proof. intros n. unfold w_check. destruct (cancel n); [by left|done]. Qed.
Ltac w_skip := eapply ok_bind; [apply ok_w_check|intros _ _].

Lemma ok_squeeze cancel policy position space body output :
  ok (squeeze cancel policy position space body output) (fun r => r = output ++ squeezed policy space body).
Proof.
  revert position space output; induction body as [|b body IH]; intros position space output; cbn [squeeze squeezed].
  - apply ok_ret. by rewrite app_nil_r.
  - eapply (ok_bind _ _ (fun _ => True)); [destruct (position mod 65536 =? 0); [apply ok_w_check|by apply ok_ret]|].
    intros _ _. destruct (is_ascii_whitespace b); [apply IH|]. eapply ok_weaken; [apply IH|].
    intros r ->. destruct (space && _); by rewrite <- ?app_assoc.
Qed.

Lemma ok_line_key cancel body policy output :
  ok (line_key cancel body policy output) (fun r => r = output ++ body_key policy body).
Proof. destruct policy; cbn [line_key body_key]; [by apply ok_ret|apply ok_squeeze..|by apply ok_ret|by apply ok_ret]. Qed.

Lemma squeezed_sub policy space body x : x ∈ squeezed policy space body -> x = 32 \/ x ∈ body.
Proof.
  revert space; induction body as [|b body IH]; intros space; cbn [squeezed]; [set_solver|].
  destruct (is_ascii_whitespace b); [intros [?|?]%IH; set_solver|].
  rewrite elem_of_app, elem_of_cons. intros [H|[H|[H|H]%IH]]; [|set_solver..].
  left. destruct (space && _); set_solver.
Qed.

Lemma body_key_newline policy body : 10 ∉ body -> 10 ∉ body_key policy body.
Proof.
  intros H. destruct policy; cbn [body_key]; [done| | | |].
  1,2: by intros [?|?]%squeezed_sub.
  - intros (i & Hi & _)%elem_of_take. apply H. by eapply list_elem_of_lookup_2.
  - destruct (strip_suffix [13] body) as [r|] eqn:E; [|done]. apply strip_suffix_Some in E as ->. simpl. set_solver.
Qed.

Lemma proper_keys policy ls : proper ls -> proper (map (key policy) ls).
Proof.
  unfold key. destruct (is_exact policy); [by rewrite map_id|].
  assert (forall l, 10 ∉ line_body l ->
    10 ∉ body_key policy (line_body l) ++ [if ends_with [10] l then 1 else 0]) as H.
  { intros l Hl. rewrite elem_of_app. intros [?|?]; [by eapply body_key_newline|]. destruct (ends_with [10] l); set_solver. }
  induction 1 as [|l Hl H10|x ls H10 _ IH]; cbn [map]; rewrite ?app_assoc; [constructor|..].
  - apply proper_cons; [|constructor]. apply H. unfold line_body.
    destruct (strip_suffix [10] l) as [r|] eqn:E; [|done]. apply strip_suffix_Some in E as ->. set_solver.
  - apply proper_cons; [|done]. apply H. unfold line_body.
    rewrite (proj2 (strip_suffix_Some [10] (x ++ [10]) x) eq_refl). done.
Qed.

Lemma ok_keys_loop cancel ls policy lim bs offsets offset_ :
  is_exact policy = false ->
  ok (keys_loop cancel ls policy lim bs offsets offset_)
    (fun k => k_bytes k = bs ++ concat (map (key policy) ls) /\ k_offsets k = offsets ++ ends_of offset_ ls).
Proof.
  intros HE. revert bs offsets offset_; induction ls as [|l ls IH]; intros bs offsets offset_; cbn [keys_loop map concat ends_of].
  - apply ok_ret. by rewrite !app_nil_r.
  - w_skip. destruct (_ <? _); [intros n; right; by eexists|]. eapply ok_bind; [apply ok_line_key|intros ? ->].
    eapply ok_weaken; [apply IH|]. intros k [-> ->]. unfold key. rewrite HE. fold (line_body l).
    by rewrite <- !app_assoc.
Qed.

(** The keys of an input and the offsets of its lines. *)
Lemma ok_keys cancel input policy lim :
  is_exact policy = false ->
  ok (keys cancel input policy lim)
    (fun k => k_bytes k = concat (map (key policy) (split_inclusive 10 input)) /\
      forall i, (i <= length (split_inclusive 10 input))%nat ->
        k_offsets k !! i = Some (off (split_inclusive 10 input) i)).
Proof.
  intros HE. eapply ok_weaken; [by apply ok_keys_loop|]. intros k [-> ->]. split; [done|].
  intros [|i] Hi; [done|]. cbn [app lookup list_lookup]. rewrite ends_of_lookup by lia. done.
Qed.

Lemma concat_keys_inj policy a b :
  concat (map (key policy) (split_inclusive 10 a)) = concat (map (key policy) (split_inclusive 10 b)) <-> equiv policy a b.
Proof.
  unfold equiv. split; [|by intros ->]. intros E.
  rewrite <- (proper_split (map (key policy) (split_inclusive 10 a))) by apply proper_keys, split_proper.
  by rewrite E, proper_split by apply proper_keys, split_proper.
Qed.

Lemma equiv_exact policy a b : is_exact policy = true -> equiv policy a b <-> a = b.
Proof.
  intros HE. unfold equiv, key. rewrite HE, !map_id. split; [|by intros ->].
  intros E. by rewrite <- (split_inclusive_concat 10 a), E, split_inclusive_concat.
Qed.

(** [equivalent] decides equivalence. *)
Lemma ok_equivalent cancel a b options :
  ok (equivalent cancel a b options) (fun r => r = true <-> equiv (whitespace options) a b).
Proof.
  unfold equivalent. destruct (bytes_eqb a b) eqn:Eab; [apply bytes_eqb_eq in Eab as ->; by apply ok_ret|].
  assert (a <> b) as Hab by (intros ->; by rewrite bytes_eqb_refl in Eab).
  destruct (is_exact (whitespace options)) eqn:HE; [apply ok_ret; rewrite equiv_exact by done; naive_solver|].
  eapply ok_bind; [by apply ok_keys|]. intros ka [Ka _]. eapply ok_bind; [by apply ok_keys|]. intros kb [Kb _].
  apply ok_ret. rewrite bytes_eqb_eq, Ka, Kb. apply concat_keys_inj.
Qed.

(** A comparison started at any state of the flag. *)
Lemma ok_run_diff cancel old new mode lim :
  ok (run_diff cancel old new mode lim) (diff_result_ok mode old new).
Proof.
  intros n. unfold run_diff.
  pose proof (ok_diff_body cancel old new {| binary := mode; indent_heuristic := true |} lim
    {| remaining := max_work lim; loads := n |}) as H.
  by destruct (diff_body _ _ _ _ _ _) as [r b].
Qed.

(** ** Edits against the original lines *)

(** The edits are a script for the keys and carry the byte ranges of the lines. *)
Definition aligned (policy : Whitespace) (A S : list bytes) (x y : nat) (es : list ContentEdit) : Prop :=
  script (map (key policy) A) (map (key policy) S) x y es /\ Forall (bytes_match A S) es /\
  (x <= length A)%nat /\ (y <= length S)%nat.

Lemma ok_originals a b A B n m x y es :
  (forall i, (i <= length A)%nat -> k_offsets a !! i = Some (off A i)) ->
  (forall i, (i <= length B)%nat -> k_offsets b !! i = Some (off B i)) ->
  n = length A -> m = length B ->
  ordered true n x es -> ordered false m y es ->
  ok (originals a b es)
    (fun r => Forall (bytes_match A B) r /\ map old_lines r = map old_lines es /\ map new_lines r = map new_lines es).
Proof.
  intros HA HB -> ->. revert x y; induction es as [|e es IH]; intros x y; cbn [originals ordered side_range].
  - intros _ _. apply ok_ret. split_and!; [constructor|done..].
  - intros (H1 & H2 & H3) (H4 & H5 & H6). unfold original. eapply ok_bind.
    { instantiate (1 := fun r => bytes_match A B r /\ old_lines r = old_lines e /\ new_lines r = new_lines e).
      do 4 (eapply ok_bind; [eapply (ok_get _ _ _ (eq _)); [first [apply HA|apply HB]; lia|reflexivity]|intros ? <-]).
      by apply ok_ret. }
    intros e' (B1 & B2 & B3). eapply ok_bind; [by eapply IH|]. intros r (R1 & R2 & R3). apply ok_ret.
    cbn [map]. rewrite R2, R3, B2, B3. split_and!; [by constructor|done..].
Qed.

(** A script is about the line ranges of its edits only. *)
Lemma script_ext A B x y es es' :
  map old_lines es = map old_lines es' -> map new_lines es = map new_lines es' -> script A B x y es -> script A B x y es'.
Proof.
  revert x y es'; induction es as [|e es IH]; intros x y [|e' es'] H1 H2; cbn [map] in *; try done.
  injection H1 as E1 H1. injection H2 as E2 H2. cbn [script]. rewrite E1, E2.
  destruct (old_lines e'), (new_lines e'). intros (? & ? & ? & HS). eauto.
Qed.

Lemma cost_ext es es' : map old_lines es = map old_lines es' -> map new_lines es = map new_lines es' -> cost es = cost es'.
Proof.
  revert es'; induction es as [|e es IH]; intros [|e' es'] H1 H2; cbn [map] in *; try done.
  injection H1 as E1 H1. injection H2 as E2 H2. cbn [cost]. by rewrite E1, E2, (IH es').
Qed.

(** The comparison of a side with the base counts as binary exactly when the texts differ and
    the mode or a NUL byte says so. *)
Definition binary_side (mode : BinaryMode) (base side : bytes) : bool := negb (bytes_eqb base side) && classified mode base side.

(** No script between the keys of the lines changes fewer of them. *)
Definition shortest (policy : Whitespace) (A S : list bytes) (es : list ContentEdit) : Prop :=
  forall es', script (map (key policy) A) (map (key policy) S) 0 0 es' -> (cost es <= cost es')%nat.

(** The comparison of a side with the base. *)
Lemma ok_compare cancel base side options :
  ok (compare cancel base side options)
    (fun r => zlen base + zlen side <= usize_max /\ r.2 = binary_side (c_binary options) base side /\
      if r.2 then base <> side /\ r.1 = []
      else aligned (whitespace options) (split_inclusive 10 base) (split_inclusive 10 side) 0 0 r.1 /\
           shortest (whitespace options) (split_inclusive 10 base) (split_inclusive 10 side) r.1).
Proof.
  unfold compare, aligned, shortest, binary_side. set (A := split_inclusive 10 base). set (B := split_inclusive 10 side).
  assert (forall a b : bytes, a <> b -> bytes_eqb a b = false) as Hneq.
  { intros a b E. destruct (bytes_eqb a b) eqn:Eb; [|done]. by apply bytes_eqb_eq in Eb. }
  destruct (is_exact (whitespace options)) eqn:HE.
  - eapply ok_bind; [apply ok_run_diff|]. intros d [Hlen Hd]. apply ok_ret. split; [done|].
    unfold key. rewrite HE, !map_id. destruct d as [| |es]; cbn [unpack fst snd].
    + subst A B. rewrite Hd, bytes_eqb_refl. cbn [cost]. split_and!; [done|done|constructor|lia..].
    + destruct Hd as [Hd ->]. by rewrite (Hneq _ _ Hd).
    + destruct Hd as (Hd & -> & HS & HF & _ & HM). rewrite (Hneq _ _ Hd). split_and!; [done|done|done|lia|lia|done].
  - w_skip. eapply ok_bind; [apply (ok_limit _ _ (fun _ => zlen base + zlen side <= usize_max)); intros a Ha;
      apply checked_add_Some in Ha; lia|]. intros total Htotal.
    destruct (max_input_bytes _ <? _); [intros n; right; by eexists|].
    eapply ok_bind; [by apply (ok_limit _ _ (fun _ => True))|]. intros w _.
    eapply ok_bind; [by apply (ok_limit _ _ (fun _ => True))|]. intros rem _.
    destruct (bytes_eqb base side) eqn:Eb.
    { apply ok_ret. cbn [fst snd negb andb cost]. split; [done|]. apply bytes_eqb_eq in Eb. subst A B. rewrite Eb. split_and!; [done|done|constructor|lia..]. }
    assert (base <> side) as Hne by (intros ->; by rewrite bytes_eqb_refl in Eb).
    cbn [negb andb]. fold (classified (c_binary options) base side). destruct (classified (c_binary options) base side); [by apply ok_ret|].
    eapply ok_bind; [by apply ok_keys|]. fold A. intros ka [Ka Oa].
    eapply ok_bind; [by apply ok_keys|]. fold B. intros kb [Kb Ob].
    eapply ok_bind; [apply ok_run_diff|]. intros d [_ Hd]. rewrite Ka, Kb in Hd.
    assert (PA : proper (map (key (whitespace options)) A)) by apply proper_keys, split_proper.
    assert (PB : proper (map (key (whitespace options)) B)) by apply proper_keys, split_proper.
    assert (script (map (key (whitespace options)) A) (map (key (whitespace options)) B) 0 0 (unpack d).1 /\
      forall es', script (map (key (whitespace options)) A) (map (key (whitespace options)) B) 0 0 es' -> (cost (unpack d).1 <= cost es')%nat) as [HS HM].
    { destruct d as [| |es]; cbn [unpack fst cost]; [|by destruct Hd|].
      - apply concat_keys_inj in Hd. cbn [script]. rewrite !drop_0. split; [exact Hd|lia].
      - destruct Hd as (_ & _ & HS & _ & _ & HM). by rewrite !proper_split in HS, HM. }
    destruct (script_ordered _ _ _ _ _ HS) as [O1 O2]; [lia..|].
    eapply ok_bind; [eapply (ok_originals ka kb A B); [done|done| | |exact O1|exact O2]; by rewrite length_map|].
    intros es (R1 & R2 & R3). apply ok_ret. cbn [fst snd]. rewrite (cost_ext _ _ R2 R3). split_and!; [done|done| |done|lia|lia|done].
    by eapply script_ext; [..|exact HS].
Qed.
End MergeProofs.
