(* ===== verification/MergeCorrect.v ===== *)
(** * The segmentation of a three-way merge

    The invariants of [combine] in [src/src/merge/content.rs], and the correctness of
    [content_with]. *)

From stdpp Require Import base list numbers strings sets.
From Stdlib Require Import ZArith Lia.
From S2P Require Import Prelude Lines Diff DiffProofs DiffCompact DiffCorrect Merge MergeProofs.

Module MergeCorrect.
Import Lines Diff DiffProofs DiffCompact DiffCorrect Merge MergeProofs.

Section Walk.
Context (policy : Whitespace) (A : list bytes).
Hypothesis PA : proper A.
Abbreviation K := (map (key policy)).

(** ** Walking along one side *)

Section Side.
Context (S : list bytes).
Hypothesis PS : proper S.

Lemma sum_zlen (ls : list bytes) : foldr Z.add 0 (map zlen ls) = zlen (concat ls).
Proof using. induction ls as [|l ls IH]; [done|]. cbn [map foldr concat]. rewrite zlen_app, IH. done. Qed.

Lemma ok_advance y n :
  (y + n <= length S)%nat -> ok (advance (concat S) (off S y) n) (fun z => z = off S (y + n)).
Proof using PS.
  intros H. unfold advance. eapply ok_bind; [eapply (ok_cut _ _ _ _ (eq _)); [apply cut_rest; lia|reflexivity]|].
  intros ? <-. apply ok_ret. rewrite proper_split by by apply proper_drop. rewrite sum_zlen, off_seg. done.
Qed.

Lemma records_seg x n : (x + n <= length A)%nat -> records (concat (seg A x n)) = n.
Proof using PA. intros H. unfold records. rewrite proper_split by by apply proper_seg. by apply length_seg. Qed.

(** No edit before line [i]. *)
Definition clear_to (i : nat) (es : list ContentEdit) : Prop :=
  match es with [] => True | e :: _ => (i <= (old_lines e).1)%nat end.

(** Lines up to the next edit agree one by one. *)
Lemma aligned_advance x y es n :
  aligned policy A S x y es -> (x + n <= length A)%nat -> clear_to (x + n) es ->
  aligned policy A S (x + n) (y + n) es /\ K (seg A x n) = K (seg S y n).
Proof using.
  intros (HS & HF & Hx & Hy) Hn Hc. rewrite !map_seg. unfold aligned.
  assert (exists a c, run (K A) (K S) x y a c /\ (x + n <= a)%nat /\ script (K A) (K S) a c es) as (a & c & Hr & Ha & HS').
  { destruct es as [|e es]; cbn [script clear_to] in *.
    - exists (length (K A)), (length (K S)). split_and!; [|rewrite length_map; lia|by rewrite !drop_all].
      apply (tail_run _ _ (length (K A) - x)); [done|rewrite length_map; lia|rewrite length_map; lia].
    - destruct (old_lines e) as [a b], (new_lines e) as [c d]. destruct HS as (Hr & ? & ? & HS).
      exists a, c. cbn [fst] in Hc. split; [done|]. split; [done|]. split_and!; try done || lia. apply run_nil. }
  clear HS Hc. revert x y Hx Hy Hn Hr Ha; induction n as [|n IH]; intros x y Hx Hy Hn Hr Ha.
  - rewrite !Nat.add_0_r. split; [|done]. split_and!; try done. by eapply script_back.
  - inversion Hr as [|? ? l ? ? Lx Ly Hr']; subst; [lia|].
    pose proof (lookup_lt_Some _ _ _ Ly) as Hly. rewrite length_map in Hly.
    destruct (IH (Datatypes.S x) (Datatypes.S y)) as [H1 H2]; [lia|lia|lia|done|lia|].
    rewrite <- !Nat.add_succ_comm. split; [done|].
    unfold seg in *. rewrite (drop_S _ _ _ Lx), (drop_S _ _ _ Ly). cbn [take]. by rewrite H2.
Qed.

(** The lines that edits take out and put in. *)
Fixpoint removed (es : list ContentEdit) : nat :=
  match es with [] => 0 | e :: es => ((old_lines e).2 - (old_lines e).1) + removed es end.
Fixpoint inserted (es : list ContentEdit) : nat :=
  match es with [] => 0 | e :: es => ((new_lines e).2 - (new_lines e).1) + inserted es end.

(** The edits of a region, then the lines to its end. *)
Lemma ok_apply_loop el rest x y e bs :
  aligned policy A S x y (el ++ rest) -> (x <= e)%nat -> Forall (fun d => (old_lines d).2 <= e)%nat el ->
  ok (apply_loop (concat A) (concat S) el (off A x) (off S y) bs)
    (fun '(bs', c, sc) => exists x' y', c = off A x' /\ sc = off S y' /\ aligned policy A S x' y' rest /\
      (x <= x' <= e)%nat /\ (y <= y')%nat /\ bs' = bs ++ concat (seg S y (y' - y)) /\ (el = [] -> x' = x /\ y' = y) /\
      (y' - y + removed el = x' - x + inserted el)%nat).
Proof using PA PS.
  revert x y bs; induction el as [|d el IH]; intros x y bs HA Hx HE; cbn [apply_loop app].
  - apply ok_ret. exists x, y. rewrite !Nat.sub_diag. unfold seg. cbn [take concat]. rewrite app_nil_r. split_and!; done || lia.
  - pose proof HA as (HS & HF & _ & Hy). cbn [script app] in HS. apply Forall_cons in HF as [[B1 B2] HF].
    apply Forall_cons in HE as [Hd HE].
    destruct (old_lines d) as [a b] eqn:Eo, (new_lines d) as [c d'] eqn:En. cbn [fst snd] in *.
    destruct HS as (Hr & Hab & Hcd & HS). rewrite !length_map in Hab, Hcd.
    destruct (run_length _ _ _ _ _ _ Hr) as (m & -> & ->).
    rewrite B1, B2. cbn [fst snd].
    eapply ok_bind; [eapply (ok_cut _ _ _ _ (eq _)); [apply cut_seg; lia|reflexivity]|intros ? <-].
    rewrite records_seg by lia. eapply ok_bind; [apply ok_advance; lia|intros ? ->].
    eapply ok_bind; [eapply (ok_cut _ _ _ _ (eq _)); [apply cut_seg; lia|reflexivity]|intros ? <-].
    replace d' with (y + m + (d' - (y + m)))%nat by lia.
    eapply ok_bind; [eapply (ok_cut _ _ _ _ (eq _)); [apply cut_seg; lia|reflexivity]|intros ? <-].
    replace (y + m + (d' - (y + m)))%nat with d' by lia.
    eapply ok_weaken; [apply (IH b d'); [|lia|done]|].
    + split_and!; [done|done|lia|lia].
    + intros [[bs' c] sc] (x' & y' & -> & -> & H1 & H2 & H3 & -> & H4 & H5). exists x', y'.
      split_and!; try done; try lia; [|cbn [removed inserted]; rewrite Eo, En; cbn [fst snd]; lia].
      rewrite <- !app_assoc. f_equal. rewrite <- !concat_app. f_equal.
      replace (y' - y)%nat with (m + (d' - (y + m) + (y' - d')))%nat by lia. rewrite !seg_add.
      do 2 f_equal. f_equal. lia.
Qed.

Lemma ok_apply el rest x y e :
  aligned policy A S x y (el ++ rest) -> (x <= e <= length A)%nat -> Forall (fun d => (old_lines d).2 <= e)%nat el ->
  clear_to e rest ->
  ok (apply (concat A) (concat S) el (off A x) (off A e) (off S y))
    (fun '(bs, z) => exists y', z = off S y' /\ (y <= y')%nat /\ aligned policy A S e y' rest /\
      bs = concat (seg S y (y' - y)) /\ (el = [] -> K (seg A x (e - x)) = K (seg S y (y' - y))) /\
      (y' - y + removed el = e - x + inserted el)%nat).
Proof using PA PS.
  intros HA He HE Hc. unfold apply. eapply ok_bind; [by apply (ok_apply_loop el rest x y e); [| |]; [|lia|]|].
  intros [[bs c] sc] (x' & y' & -> & -> & H1 & H2 & H3 & -> & H4 & H7).
  replace e with (x' + (e - x'))%nat in Hc by lia.
  destruct (aligned_advance x' y' rest (e - x') H1 ltac:(lia) Hc) as [H5 H6].
  pose proof H5 as (_ & _ & _ & Hy'). replace e with (x' + (e - x'))%nat at 1 by lia.
  eapply ok_bind; [eapply (ok_cut _ _ _ _ (eq _)); [apply cut_seg; lia|reflexivity]|intros ? <-].
  rewrite records_seg by lia. eapply ok_bind; [apply ok_advance; lia|intros ? ->].
  eapply ok_bind; [eapply (ok_cut _ _ _ _ (eq _)); [apply cut_seg; lia|reflexivity]|intros ? <-].
  apply ok_ret. exists (y' + (e - x'))%nat. split_and!; [done|lia|by replace e with (x' + (e - x'))%nat at 1 by lia| | |lia].
  - cbn [app]. rewrite <- concat_app. f_equal. replace (y' + (e - x') - y)%nat with ((y' - y) + (e - x'))%nat by lia.
    rewrite seg_add. do 2 f_equal. lia.
  - intros Hel. destruct (H4 Hel) as [-> ->]. by replace (y + (e - x) - y)%nat with (e - x)%nat by lia.
Qed.

(** Where the edits of a script lie in the base. *)
Definition edit_in (x : nat) (e : ContentEdit) : Prop :=
  (x <= (old_lines e).1 <= (old_lines e).2)%nat /\ ((old_lines e).2 <= length A)%nat /\
  old_bytes e = (off A (old_lines e).1, off A (old_lines e).2).

Lemma aligned_edits x y es : aligned policy A S x y es -> Forall (edit_in x) es.
Proof using.
  intros (HS & HF & Hx & Hy). destruct (script_ordered _ _ _ _ _ HS) as [HO _]; [by rewrite length_map..|].
  rewrite length_map in HO. clear HS Hx Hy. revert x HO; induction HF as [|e es [B1 B2] _ IH]; intros x HO; constructor;
    cbn [ordered side_range] in HO; destruct HO as (H1 & H2 & H3).
  - split_and!; [lia|lia|lia|done].
  - eapply Forall_impl; [by apply IH|]. intros d (D1 & D2 & D3). split_and!; [lia|lia|lia|done].
Qed.
End Side.

(** ** Regions *)

(** [es] reaches every base offset after [start] up to [end_]; edits that touch count. *)
Definition covered (start end_ : Z) (es : list ContentEdit) : Prop :=
  forall p, start < p <= end_ -> exists e, e ∈ es /\ (old_bytes e).1 <= p <= (old_bytes e).2.
Definition beyond (z : Z) (es : list ContentEdit) : Prop :=
  match es with [] => True | e :: _ => z < (old_bytes e).1 end.
Definition ends_by (i : nat) (es : list ContentEdit) : Prop := Forall (fun d => (old_lines d).2 <= i)%nat es.

Lemma covered_app a b c es1 es2 : covered a b es1 -> covered b c es2 -> covered a c (es1 ++ es2).
Proof using.
  intros H1 H2 p Hp. destruct (Z_le_gt_dec p b); [destruct (H1 p) as (e & He & ?)|destruct (H2 p) as (e & He & ?)]; [lia| |lia|];
    exists e; rewrite elem_of_app; auto.
Qed.
Lemma covered_incl a b es1 es2 : covered a b es1 -> es1 ⊆ es2 -> covered a b es2.
Proof using. intros H Hi p Hp. destruct (H p Hp) as (e & He & ?). exists e. auto. Qed.
Lemma ends_by_le i j es : ends_by i es -> (i <= j)%nat -> ends_by j es.
Proof using. intros H Hij. eapply Forall_impl; [exact H|]. simpl. lia. Qed.

Lemma touching_spec s es i taken rest end' :
  Forall (edit_in s) es -> (i <= length A)%nat -> touching es (off A i) = (taken, rest, end') ->
  es = taken ++ rest /\ exists i', end' = off A i' /\ (i <= i' <= length A)%nat /\ ends_by i' taken /\
    beyond end' rest /\ covered (off A i) end' taken /\ (taken = [] -> i' = i).
Proof using PA.
  intros HF. revert i taken rest end'; induction HF as [|e es (E1 & E2 & E3) HF IH]; intros i taken rest end' Hi; cbn [touching].
  - intros [= <- <- <-]. split; [done|]. exists i. split_and!; try done; try lia; [constructor|intros p Hp; lia].
  - rewrite E3. cbn [fst snd]. destruct (Z.leb_spec (off A (old_lines e).1) (off A i)) as [Hle|Hgt].
    + assert (Z.max (off A i) (off A (old_lines e).2) = off A (Nat.max i (old_lines e).2)) as ->.
      { destruct (le_lt_dec i (old_lines e).2) as [H|H].
        - rewrite (Nat.max_r i) by done. apply Z.max_r. apply off_le; [done|lia..].
        - rewrite (Nat.max_l i) by lia. apply Z.max_l. apply off_le; [done|lia..]. }
      destruct (touching es (off A (Nat.max i (old_lines e).2))) as [[t r] z] eqn:ET. intros [= <- <- <-].
      destruct (IH (Nat.max i (old_lines e).2) t r z ltac:(lia) ET) as (-> & i' & -> & Hi' & HB & HR & HC & _). split; [done|]. exists i'.
      split_and!; [done|lia|lia|constructor; [simpl; lia|done]|done| |done].
      intros p Hp. destruct (Z_le_gt_dec p (off A (Nat.max i (old_lines e).2))) as [Hp2|Hp2].
      * exists e. split; [left|]. rewrite E3. cbn [fst snd]. split; [lia|].
        destruct (le_lt_dec i (old_lines e).2); [by rewrite Nat.max_r in Hp2 by done|rewrite Nat.max_l in Hp2 by lia; lia].
      * destruct (HC p) as (d & Hd & ?); [lia|]. exists d. split; [by right|done].
    + intros [= <- <- <-]. split; [done|]. exists i. cbn [beyond]. rewrite E3.
      split_and!; try done; try lia; [constructor|intros p Hp; lia].
Qed.

(** A finished region. *)
Definition region_post (start : Z) (i : nat) (left_ right_ : list ContentEdit) (r : Region)
    (q : list ContentEdit * list ContentEdit * Region) : Prop :=
  let '(left', right', r') := q in
  exists tl tr i', left_ = tl ++ left' /\ right_ = tr ++ right' /\ r_left r' = r_left r ++ tl /\ r_right r' = r_right r ++ tr /\
    r_end r' = off A i' /\ (i <= i' <= length A)%nat /\ ends_by i' (r_left r') /\ ends_by i' (r_right r') /\
    covered start (r_end r') (r_left r' ++ r_right r') /\ beyond (r_end r') left' /\ beyond (r_end r') right'.

Lemma ok_extend fuel s start i left_ right_ r :
  Forall (edit_in s) left_ -> Forall (edit_in s) right_ -> r_end r = off A i -> (i <= length A)%nat ->
  ends_by i (r_left r) -> ends_by i (r_right r) -> covered start (r_end r) (r_left r ++ r_right r) ->
  (length left_ + length right_ <= fuel)%nat ->
  ok (extend fuel left_ right_ r) (region_post start i left_ right_ r).
Proof using PA.
  revert i left_ right_ r; induction fuel as [|fuel IH]; intros i left_ right_ r FL FR Er Hi BL BR HC Hf; cbn [extend];
    rewrite Er; destruct (touching left_ (off A i)) as [[tl left'] e1] eqn:E1;
    destruct (touching_spec s left_ i tl left' e1 FL Hi E1) as (-> & i1 & -> & Hi1 & B1 & Y1 & C1 & N1);
    destruct (touching right_ (off A i1)) as [[tr right'] e2] eqn:E2;
    destruct (touching_spec s right_ i1 tr right' e2 FR ltac:(lia) E2) as (-> & i2 & -> & Hi2 & B2 & Y2 & C2 & N2);
    rewrite !length_app in Hf; rewrite Er in HC.
  all: assert (ends_by i2 (r_left r ++ tl)) as BL' by (apply Forall_app; split; eapply ends_by_le; try done; lia).
  all: assert (ends_by i2 (r_right r ++ tr)) as BR' by (apply Forall_app; split; [eapply ends_by_le; try done; lia|done]).
  all: assert (covered start (off A i2) ((r_left r ++ tl) ++ (r_right r ++ tr))) as HC'
    by (eapply covered_incl; [exact (covered_app _ _ _ _ _ (covered_app _ _ _ _ _ HC C1) C2)|set_solver]).
  all: assert (tl = [] -> tr = [] -> ok (se_ret (left', right', {| r_left := r_left r ++ tl; r_right := r_right r ++ tr; r_end := off A i2 |}) : SE nat DiffError _)
    (region_post start i (tl ++ left') (tr ++ right') r)) as Hret.
  1,3: intros -> ->; apply ok_ret; exists [], [], i2; cbn [r_left r_right r_end app];
    specialize (N1 eq_refl); specialize (N2 eq_refl); subst i2 i1; split_and!; done || lia.
  - destruct tl, tr; simpl in Hf; try lia. by apply Hret.
  - assert (0 < length tl + length tr -> ok (extend fuel left' right'
      {| r_left := r_left r ++ tl; r_right := r_right r ++ tr; r_end := off A i2 |})
      (region_post start i (tl ++ left') (tr ++ right') r))%nat as Hgo.
    { intros Hpos. apply Forall_app in FL as [_ FL]. apply Forall_app in FR as [_ FR].
      eapply ok_weaken; [apply (IH i2); try done; lia|]. intros [[l' r'] q] (tl' & tr' & i' & -> & -> & H1 & H2 & H3 & H4 & H5).
      cbn [r_left r_right r_end] in H1, H2. exists (tl ++ tl'), (tr ++ tr'), i'. rewrite H1, H2, <- !app_assoc in *.
      split_and!; try done; try lia; tauto. }
    destruct tl as [|d tl], tr as [|d' tr]; [by apply Hret|apply Hgo; simpl; lia..].
Qed.
End Walk.

(** ** Conflicts *)

(** [o] and [t] share [P] in front and [Q] at the end, cut at line boundaries, and no
    line more. *)
Definition trimmed (o t P mo mt Q : bytes) : Prop :=
  o = P ++ mo ++ Q /\ t = P ++ mt ++ Q /\
  split_inclusive 10 o = split_inclusive 10 P ++ split_inclusive 10 mo ++ split_inclusive 10 Q /\
  split_inclusive 10 t = split_inclusive 10 P ++ split_inclusive 10 mt ++ split_inclusive 10 Q /\
  (forall l, head (split_inclusive 10 mo) = Some l -> head (split_inclusive 10 mt) <> Some l) /\
  (forall l, last (split_inclusive 10 mo) = Some l -> last (split_inclusive 10 mt) <> Some l).

Lemma common_spec a b :
  exists pre a' b', a = pre ++ a' /\ b = pre ++ b' /\ common a b = zlen (concat pre) /\
    forall l, head a' = Some l -> head b' <> Some l.
Proof.
  revert b; induction a as [|x a IH]; intros b; [by exists [], [], b|].
  destruct b as [|y b]; [by exists [], (x :: a), []|]. cbn [common].
  destruct (bytes_eqb x y) eqn:E.
  - apply bytes_eqb_eq in E as ->. destruct (IH b) as (pre & a' & b' & -> & -> & -> & H).
    exists (y :: pre), a', b'. split_and!; try done. cbn [concat]. by rewrite zlen_app.
  - exists [], (x :: a), (y :: b). split_and!; try done. intros l [= ->] [= ->]. by rewrite bytes_eqb_refl in E.
Qed.

Lemma ok_common_boundaries o t :
  ok (common_boundaries o t) (fun '(p, q) => exists P mo mt Q, trimmed o t P mo mt Q /\ p = zlen P /\ q = zlen Q).
Proof.
  unfold common_boundaries. pose proof (split_proper o) as HO. pose proof (split_proper t) as HT.
  pose proof (split_inclusive_concat 10 o) as EO. pose proof (split_inclusive_concat 10 t) as ET.
  destruct (common_spec (split_inclusive 10 o) (split_inclusive 10 t)) as (pre & a & b & Ea & Eb & -> & Hh).
  rewrite Ea in *. rewrite Eb in *. rewrite concat_app in EO, ET.
  assert (proper pre) as Hpre by (pose proof (proper_take (length pre) _ HO) as H; by rewrite take_app_length in H).
  assert (proper a) as Pa by (pose proof (proper_drop (length pre) _ HO) as H; by rewrite drop_app_length in H).
  assert (proper b) as Pb by (pose proof (proper_drop (length pre) _ HT) as H; by rewrite drop_app_length in H).
  rewrite <- EO, <- ET.
  eapply ok_bind; [eapply (ok_cut _ _ _ _ (eq _)); [by apply slice_tail|reflexivity]|intros ? <-].
  eapply ok_bind; [eapply (ok_cut _ _ _ _ (eq _)); [by apply slice_tail|reflexivity]|intros ? <-].
  apply ok_ret. rewrite !proper_split by done.
  destruct (common_spec (reverse a) (reverse b)) as (sl & ra & rb & Fa & Fb & -> & Hl).
  apply (f_equal reverse) in Fa, Fb. rewrite reverse_involutive, reverse_app in Fa, Fb. subst a b.
  assert (proper (reverse ra)) as Pra by (pose proof (proper_take (length (reverse ra)) _ Pa) as H; by rewrite take_app_length in H).
  assert (proper (reverse rb)) as Prb by (pose proof (proper_take (length (reverse rb)) _ Pb) as H; by rewrite take_app_length in H).
  assert (proper (reverse sl)) as Psl by (pose proof (proper_drop (length (reverse ra)) _ Pa) as H; by rewrite drop_app_length in H).
  exists (concat pre), (concat (reverse ra)), (concat (reverse rb)), (concat (reverse sl)).
  unfold trimmed. rewrite EO, ET, !(proper_split (reverse _)), (proper_split pre) by done.
  split_and!; rewrite <- ?concat_app; try done.
  - by rewrite concat_app.
  - by rewrite concat_app.
  - intros l H1 H2. eapply Hh; destruct (reverse ra), (reverse rb); done.
  - intros l. rewrite !last_reverse. apply Hl.
  - clear. induction sl as [|x sl IH]; [done|]. rewrite reverse_cons, concat_app. cbn [concat].
    rewrite app_nil_r, !zlen_app, IH. lia.
Qed.

(** The outcome of a conflict under a favour. *)
Definition chosen (f : Favor) (is_binary : bool) (b o t : bytes) (h : ContentHunk) : Prop :=
  match f with
  | FOurs => h = Resolved o
  | FTheirs => h = Resolved t
  | FConflict => h = Conflict b o t
  | FUnion =>
      if is_binary then h = Conflict b o t
      else exists P mo mt Q sep, trimmed o t P mo mt Q /\ h = Resolved (P ++ mo ++ sep ++ mt ++ Q) /\
        sep = if negb (bytes_eqb (P ++ mo) []) && negb (ends_with [10] (P ++ mo)) && negb (bytes_eqb mt []) then [10] else []
  end.

Lemma ok_choose b o t f is_binary : ok (choose b o t f is_binary) (chosen f is_binary b o t).
Proof.
  destruct f; cbn [choose chosen]; try by apply ok_ret. destruct is_binary; [by apply ok_ret|].
  eapply ok_bind; [apply ok_common_boundaries|]. intros [p q] (P & mo & mt & Q & HT & -> & ->).
  pose proof HT as (-> & -> & _).
  assert (zlen (P ++ mo ++ Q) - zlen Q = zlen (P ++ mo)) as -> by (rewrite !zlen_app; lia).
  eapply ok_bind; [eapply (ok_cut _ _ _ (P ++ mo) (eq _)); [|reflexivity]|intros ? <-].
  { rewrite app_assoc. apply (slice_mid []); [done|lia]. }
  eapply ok_bind; [eapply (ok_cut _ _ _ Q (eq _)); [|reflexivity]|intros ? <-].
  { rewrite app_assoc. by apply slice_tail. }
  eapply ok_bind; [eapply (ok_cut _ _ _ mt (eq _)); [|reflexivity]|intros ? <-].
  { apply slice_mid; [done|]. rewrite !zlen_app. lia. }
  apply ok_ret. exists P, mo, mt, Q. eexists. split_and!; [done| |reflexivity]. by rewrite <- !app_assoc.
Qed.

(** ** The segmentation *)

(** A stretch all three texts agree on, then a region at least one side changed. *)
Record Chunk := {
  gap_b : bytes; gap_o : bytes; gap_t : bytes;
  chg_b : bytes; chg_o : bytes; chg_t : bytes;
  c_left : list ContentEdit; c_right : list ContentEdit;
  outcome : ContentHunk
}.
Definition texts (gap chg : Chunk -> bytes) (cs : list Chunk) : bytes := concat (map (fun c => gap c ++ chg c) cs).

Section Segments.
Context (options : ContentOptions).
Abbreviation eqv := (equiv (whitespace options)).

(** The rule of a three-way merge for one region. *)
Definition outcome_ok (c : Chunk) : Prop :=
  match c_left c, c_right c with
  | [], [] => False
  | _, [] => eqv (chg_b c) (chg_t c) /\ outcome c = Resolved (chg_o c)
  | [], _ => eqv (chg_b c) (chg_o c) /\ outcome c = Resolved (chg_t c)
  | _, _ =>
      (eqv (chg_o c) (chg_t c) /\ outcome c = Resolved (chg_o c)) \/
      (~ eqv (chg_o c) (chg_t c) /\ chosen (favor options) false (chg_b c) (chg_o c) (chg_t c) (outcome c))
  end.

(** A region is the union of its edits, touching edits included, and a gap separates
    it from the region before. *)
Definition region_ok (start : Z) (c : Chunk) : Prop :=
  let end_ := start + zlen (chg_b c) in
  Forall (fun e => start <= (old_bytes e).1 /\ (old_bytes e).2 <= end_) (c_left c ++ c_right c) /\
  forall p, start <= p <= end_ -> exists e, e ∈ c_left c ++ c_right c /\ (old_bytes e).1 <= p <= (old_bytes e).2.
(** The lines of a side in a region are those of the base less the lines its edits take out
    and with the lines they put in, so that the edits fix where the region ends. *)
Definition sized (b side : bytes) (es : list ContentEdit) : Prop := (records side + removed es = records b + inserted es)%nat.
Fixpoint chunks_ok (at_ : Z) (first : bool) (cs : list Chunk) : Prop :=
  match cs with
  | [] => True
  | c :: cs =>
      let start := at_ + zlen (gap_b c) in
      eqv (gap_b c) (gap_o c) /\ eqv (gap_b c) (gap_t c) /\ (first = false -> gap_b c <> []) /\
      region_ok start c /\ sized (chg_b c) (chg_o c) (c_left c) /\ sized (chg_b c) (chg_t c) (c_right c) /\ outcome_ok c /\ chunks_ok (start + zlen (chg_b c)) false cs
  end.

(** The hunks of a segmentation; neighbouring resolved bytes are joined. *)
Definition emit (hs : list ContentHunk) (cs : list Chunk) : list ContentHunk :=
  foldl (fun hs c => add_hunk (append hs (gap_o c)) (outcome c)) hs cs.

Definition segmented (base ours theirs : bytes) (left_ right_ : list ContentEdit) (hs : list ContentHunk) : Prop :=
  exists cs tb to tt,
    base = texts gap_b chg_b cs ++ tb /\ ours = texts gap_o chg_o cs ++ to /\ theirs = texts gap_t chg_t cs ++ tt /\
    eqv tb to /\ eqv tb tt /\ left_ = concat (map c_left cs) /\ right_ = concat (map c_right cs) /\
    chunks_ok 0 true cs /\ hs = append (emit [] cs) to.

Lemma ok_decide_hunk cancel c r :
  c_left c = r_left r -> c_right c = r_right r -> ~ (c_left c = [] /\ c_right c = []) ->
  (c_left c = [] -> eqv (chg_b c) (chg_o c)) -> (c_right c = [] -> eqv (chg_b c) (chg_t c)) ->
  ok (decide_hunk cancel (chg_b c) (chg_o c) (chg_t c) r options)
    (fun h => outcome_ok {| gap_b := gap_b c; gap_o := gap_o c; gap_t := gap_t c; chg_b := chg_b c; chg_o := chg_o c;
                            chg_t := chg_t c; c_left := c_left c; c_right := c_right c; outcome := h |}).
Proof using.
  intros El Er Hne H1 H2. unfold decide_hunk, outcome_ok. cbn [c_left c_right outcome chg_b chg_o chg_t].
  rewrite <- El, <- Er. destruct (c_right c) as [|d right_], (c_left c) as [|d' left_]; [naive_solver|..].
  - apply ok_ret. auto.
  - apply ok_ret. auto.
  - eapply ok_bind; [apply ok_equivalent|]. intros [] H.
    + apply ok_ret. left. split; [by apply H|done].
    + eapply ok_weaken; [apply ok_choose|]. intros h Hh. right. split; [|done]. intros H'. by apply H in H'.
Qed.

Section Combine.
Context (cancel : nat -> bool) (A O T : list bytes).
Hypothesis PA : proper A.
Hypothesis PO : proper O.
Hypothesis PT : proper T.
Hypothesis Hmax : zlen (concat A) <= usize_max.
Abbreviation al := (aligned (whitespace options) A).

Lemma eqv_seg (L1 L2 : list bytes) :
  proper L1 -> proper L2 -> map (key (whitespace options)) L1 = map (key (whitespace options)) L2 -> eqv (concat L1) (concat L2).
Proof using. intros H1 H2 H. unfold equiv. by rewrite !proper_split. Qed.

(** Where the next region starts. *)
Lemma next_start_spec x left_ right_ :
  Forall (edit_in A x) left_ -> Forall (edit_in A x) right_ -> left_ ++ right_ <> [] ->
  exists s, Z.min (next_start left_) (next_start right_) = off A s /\ (x <= s <= length A)%nat /\
    clear_to s left_ /\ clear_to s right_ /\
    exists e, (head left_ = Some e \/ head right_ = Some e) /\ (old_bytes e).1 = off A s.
Proof using PA Hmax.
  intros HL HR Hne.
  assert (forall i, (i <= length A)%nat -> off A i <= usize_max) as Hoff.
  { intros i Hi. transitivity (off A (length A)); [by apply off_le|by rewrite off_all]. }
  destruct left_ as [|d left_], right_ as [|d' right_]; [done|..]; cbn [next_start clear_to head];
    repeat match goal with H : Forall _ (_ :: _) |- _ => apply Forall_cons in H as [(? & ? & ?) _] end.
  - exists (old_lines d').1. match goal with H : old_bytes d' = _ |- _ => rewrite H end. cbn [fst].
    rewrite Z.min_r by (apply Hoff; lia). split_and!; try done; try lia. exists d'. split; [by right|].
    by match goal with H : old_bytes d' = _ |- _ => rewrite H end.
  - exists (old_lines d).1. match goal with H : old_bytes d = _ |- _ => rewrite H end. cbn [fst].
    rewrite Z.min_l by (apply Hoff; lia). split_and!; try done; try lia. exists d. split; [by left|].
    by match goal with H : old_bytes d = _ |- _ => rewrite H end.
  - match goal with H : old_bytes d = _, H' : old_bytes d' = _ |- _ => rename H into Ed; rename H' into Ed' end.
    rewrite Ed, Ed'. cbn [fst]. destruct (le_lt_dec (old_lines d).1 (old_lines d').1) as [Hd|Hd].
    + exists (old_lines d).1. rewrite Z.min_l by (apply off_le; done || lia). split_and!; try lia.
      exists d. rewrite Ed. auto.
    + exists (old_lines d').1. rewrite Z.min_r by (apply off_le; done || lia). split_and!; try lia.
      exists d'. rewrite Ed'. auto.
Qed.

Lemma beyond_clear x e es : Forall (edit_in A x) es -> (e <= length A)%nat -> beyond (off A e) es -> clear_to e es.
Proof using PA.
  intros HF He. destruct HF as [|d es (D1 & D2 & D3) _]; [done|]. cbn [beyond clear_to]. rewrite D3. cbn [fst].
  intros H. apply (off_le A); [done|lia|lia|lia].
Qed.

(** An edit that starts a region belongs to it. *)
Lemma region_nonempty s i' tl tr left' right' e :
  (s <= i' <= length A)%nat -> head (tl ++ left') = Some e \/ head (tr ++ right') = Some e ->
  (old_bytes e).1 = off A s -> beyond (off A i') left' -> beyond (off A i') right' ->
  e ∈ tl ++ tr.
Proof using PA.
  intros Hs Hh He HL HR. assert (off A s <= off A i') as Hle by (apply off_le; done || lia).
  rewrite elem_of_app. destruct Hh as [Hh|Hh]; [destruct tl|destruct tr]; cbn [app head] in Hh;
    try (injection Hh as ->; first [left; by left|right; by left]); [destruct left'|destruct right']; try done;
    injection Hh as ->; cbn [beyond] in *; lia.
Qed.

(** The finished region covers its base range. *)
Lemma region_ok_intro s i' e c :
  Forall (edit_in A s) (c_left c ++ c_right c) -> ends_by i' (c_left c ++ c_right c) -> (s <= i' <= length A)%nat ->
  zlen (chg_b c) = off A i' - off A s -> covered (off A s) (off A i') (c_left c ++ c_right c) ->
  e ∈ c_left c ++ c_right c -> (old_bytes e).1 = off A s -> region_ok (off A s) c.
Proof using PA.
  intros HE HB Hs Hz HC He Ee. unfold region_ok. rewrite Hz. replace (off A s + (off A i' - off A s)) with (off A i') by lia.
  split.
  - unfold ends_by in HB. rewrite Forall_forall in HE, HB |- *. intros d Hd. destruct (HE d Hd) as (D1 & D2 & D3).
    specialize (HB d Hd). cbv beta in HB. rewrite D3. cbn [fst snd]. split; apply off_le; done || lia.
  - intros p Hp. destruct (decide (p = off A s)) as [-> |]; [|apply HC; lia]. exists e. split; [done|].
    rewrite Forall_forall in HE. destruct (HE e He) as (D1 & D2 & D3). rewrite D3 in Ee |- *. cbn [fst snd] in *.
    split; [lia|]. rewrite <- Ee. apply off_le; done || lia.
Qed.

(** What a run of [combine]'s loop from lines [x], [y], [z] leaves behind. *)
Definition combined (first : bool) (x y z : nat) (left_ right_ : list ContentEdit) (hs : list ContentHunk)
    (q : list ContentHunk * Z) : Prop :=
  exists cs x' y' z', q.2 = off O y' /\ (y' <= length O)%nat /\
    concat (drop x A) = texts gap_b chg_b cs ++ concat (drop x' A) /\
    concat (drop y O) = texts gap_o chg_o cs ++ concat (drop y' O) /\
    concat (drop z T) = texts gap_t chg_t cs ++ concat (drop z' T) /\
    eqv (concat (drop x' A)) (concat (drop y' O)) /\ eqv (concat (drop x' A)) (concat (drop z' T)) /\
    left_ = concat (map c_left cs) /\ right_ = concat (map c_right cs) /\
    chunks_ok (off A x) first cs /\ q.1 = emit hs cs.

Lemma drop_seg2 (L : list bytes) x n m : concat (drop x L) = (concat (seg L x n) ++ concat (seg L (x + n) m)) ++ concat (drop (x + n + m) L).
Proof using. rewrite (seg_split L x n), (seg_split L (x + n) m), !concat_app. by rewrite app_assoc. Qed.

(** One more region in front. *)
Lemma combined_cons first x s e y ys ye z zs ze c left' right' hs q :
  (x <= s <= e)%nat -> (y <= ys <= ye)%nat -> (z <= zs <= ze)%nat ->
  gap_b c = concat (seg A x (s - x)) -> chg_b c = concat (seg A s (e - s)) ->
  gap_o c = concat (seg O y (ys - y)) -> chg_o c = concat (seg O ys (ye - ys)) ->
  gap_t c = concat (seg T z (zs - z)) -> chg_t c = concat (seg T zs (ze - zs)) ->
  eqv (gap_b c) (gap_o c) -> eqv (gap_b c) (gap_t c) -> (first = false -> gap_b c <> []) ->
  region_ok (off A s) c -> sized (chg_b c) (chg_o c) (c_left c) -> sized (chg_b c) (chg_t c) (c_right c) -> outcome_ok c ->
  combined false e ye ze left' right' (add_hunk (append hs (gap_o c)) (outcome c)) q ->
  combined first x y z (c_left c ++ left') (c_right c ++ right') hs q.
Proof using.
  intros Hx Hy Hz G1 C1 G2 C2 G3 C3 Q1 Q2 HF HR HZ1 HZ2 HO (cs & x' & y' & z' & E1 & E2 & E3 & E4 & E5 & E6 & E7 & -> & -> & E8 & E9).
  assert (forall (L : list bytes) a b d, (a <= b <= d)%nat -> concat (drop a L) = (concat (seg L a (b - a)) ++ concat (seg L b (d - b))) ++ concat (drop d L)) as HD.
  { intros L a b d H. rewrite (drop_seg2 L a (b - a) (d - b)). by replace (a + (b - a))%nat with b by lia; replace (b + (d - b))%nat with d by lia. }
  exists (c :: cs), x', y', z'. unfold texts in *. cbn [map concat].
  rewrite (HD A x s e Hx), (HD O y ys ye Hy), (HD T z zs ze Hz), E3, E4, E5, G1, G2, G3, C1, C2, C3.
  assert (off A s = off A x + zlen (gap_b c)) as Es.
  { rewrite G1. replace s with (x + (s - x))%nat at 1 by lia. apply off_seg. }
  assert (off A e = off A s + zlen (chg_b c)) as Ee.
  { rewrite C1. replace e with (s + (e - s))%nat at 1 by lia. apply off_seg. }
  split_and!; try done; rewrite <- ?app_assoc; try done. cbn [chunks_ok]. rewrite <- Es, <- Ee. done.
Qed.

(** One pass makes one chunk. *)
Lemma ok_combine_step first x y z left_ right_ hs :
  al O x y left_ -> al T x z right_ -> (first = false -> beyond (off A x) left_ /\ beyond (off A x) right_) ->
  left_ ++ right_ <> [] ->
  ok (combine_step cancel (concat A) (concat O) (concat T) options
        {| w_left := left_; w_right := right_; w_base := off A x; w_ours := off O y; w_theirs := off T z |} hs)
    (fun '(w, hs') => exists e ye ze, w_base w = off A e /\ w_ours w = off O ye /\ w_theirs w = off T ze /\
      al O e ye (w_left w) /\ al T e ze (w_right w) /\ beyond (off A e) (w_left w) /\ beyond (off A e) (w_right w) /\
      (length (w_left w) + length (w_right w) < length left_ + length right_)%nat /\
      forall q, combined false e ye ze (w_left w) (w_right w) hs' q -> combined first x y z left_ right_ hs q).
Proof using PA PO PT Hmax.
  intros HL HR HB Hne. unfold combine_step. cbn [w_left w_right w_base w_ours w_theirs].
  pose proof (aligned_edits _ _ _ _ _ _ HL) as EL. pose proof (aligned_edits _ _ _ _ _ _ HR) as ER.
  destruct (next_start_spec x left_ right_ EL ER Hne) as (s & -> & Hs & CL & CR & e0 & Hhead & Hstart).
  replace s with (x + (s - x))%nat in CL, CR by lia.
  destruct (aligned_advance _ A O x y left_ (s - x) HL ltac:(lia) CL) as [HL' KO].
  destruct (aligned_advance _ A T x z right_ (s - x) HR ltac:(lia) CR) as [HR' KT].
  replace (x + (s - x))%nat with s in HL', HR' by lia.
  pose proof HL' as (_ & _ & _ & Hys). pose proof HR' as (_ & _ & _ & Hzs). w_skip.
  eapply ok_bind; [eapply (ok_cut _ _ _ _ (eq _)); [replace s with (x + (s - x))%nat at 1 by lia; apply cut_seg; lia|reflexivity]|intros ? <-].
  rewrite records_seg by (done || lia).
  eapply ok_bind; [by apply ok_advance|intros ? ->]. eapply ok_bind; [by apply ok_advance|intros ? ->].
  eapply ok_bind; [eapply (ok_cut _ _ _ _ (eq _)); [by apply cut_seg|reflexivity]|intros ? <-].
  pose proof (aligned_edits _ _ _ _ _ _ HL') as EL'. pose proof (aligned_edits _ _ _ _ _ _ HR') as ER'.
  eapply ok_bind; [apply (ok_extend A PA _ s (off A s) s); try done; [lia|constructor|constructor|intros p Hp; cbn [r_end] in Hp; lia]|].
  intros [[left' right'] r] (tl & tr & e & -> & -> & R1 & R2 & R3 & He & B1 & B2 & HC & Y1 & Y2).
  cbn [r_left r_right app] in R1, R2. rewrite R1, R2, R3 in *.
  pose proof EL' as [EL1 EL2]%Forall_app. pose proof ER' as [ER1 ER2]%Forall_app.
  eapply ok_bind; [apply (ok_apply (whitespace options) A PA O PO tl left' s (y + (s - x)) e); [done|lia|done|by eapply beyond_clear; [..|lia|]]|].
  intros [a oe] (ye & -> & Hye & HL2 & -> & KA & ZA).
  eapply ok_bind; [apply (ok_apply (whitespace options) A PA T PT tr right' s (z + (s - x)) e); [done|lia|done|by eapply beyond_clear; [..|lia|]]|].
  intros [b te] (ze & -> & Hze & HR2 & -> & KB & ZB).
  eapply ok_bind; [eapply (ok_cut _ _ _ _ (eq _)); [replace e with (s + (e - s))%nat at 1 by lia; apply cut_seg; lia|reflexivity]|intros ? <-].
  pose proof (region_nonempty s e tl tr left' right' e0 He Hhead Hstart Y1 Y2) as Hin.
  set (mk h := {| gap_b := concat (seg A x (s - x)); gap_o := concat (seg O y (s - x)); gap_t := concat (seg T z (s - x));
    chg_b := concat (seg A s (e - s)); chg_o := concat (seg O (y + (s - x)) (ye - (y + (s - x))));
    chg_t := concat (seg T (z + (s - x)) (ze - (z + (s - x)))); c_left := tl; c_right := tr; outcome := h |}).
  eapply ok_bind; [apply (ok_decide_hunk cancel (mk (Resolved [])) r); try done|].
  - cbn [mk c_left c_right]. intros [-> ->]. by apply not_elem_of_nil in Hin.
  - intros Htl. by apply eqv_seg; [apply proper_seg..|apply KA].
  - intros Htr. by apply eqv_seg; [apply proper_seg..|apply KB].
  - intros h Hh. apply ok_ret. exists e, ye, ze. cbn [w_left w_right w_base w_ours w_theirs]. split_and!; try done.
    + rewrite !length_app. destruct tl, tr; simpl; try lia. by apply not_elem_of_nil in Hin.
    + intros q Hq. apply (combined_cons first x s e y (y + (s - x)) ye z (z + (s - x)) ze (mk h)); cbn [mk gap_b gap_o gap_t chg_b chg_o chg_t];
        try done; try lia; try (f_equal; f_equal; lia).
      * by apply eqv_seg; [apply proper_seg..|].
      * by apply eqv_seg; [apply proper_seg..|].
      * intros Hfirst Hgap. destruct (HB Hfirst) as [HB1 HB2].
        assert (off A x < off A s) as Hlt.
        { rewrite <- Hstart. destruct Hhead as [Hd|Hd]; [destruct (tl ++ left')|destruct (tr ++ right')]; try done;
            injection Hd as ->; done. }
        replace s with (x + (s - x))%nat in Hlt at 1 by lia. rewrite off_seg, Hgap in Hlt. change (zlen (@nil Z)) with 0 in Hlt. lia.
      * apply (region_ok_intro s e e0); cbn [mk c_left c_right chg_b]; try done; [by apply Forall_app|by apply Forall_app|].
        replace e with (s + (e - s))%nat at 2 by lia. rewrite off_seg. lia.
      * unfold sized. cbn [mk chg_b chg_o c_left]. pose proof HL2 as (_ & _ & _ & HyO). rewrite !records_seg by (done || lia). exact ZA.
      * unfold sized. cbn [mk chg_b chg_t c_right]. pose proof HR2 as (_ & _ & _ & HzT). rewrite !records_seg by (done || lia). exact ZB.
Qed.

Lemma ok_combine_loop fuel first x y z left_ right_ hs :
  al O x y left_ -> al T x z right_ -> (first = false -> beyond (off A x) left_ /\ beyond (off A x) right_) ->
  (length left_ + length right_ <= fuel)%nat ->
  ok (combine_loop cancel fuel (concat A) (concat O) (concat T) options
        {| w_left := left_; w_right := right_; w_base := off A x; w_ours := off O y; w_theirs := off T z |} hs)
    (combined first x y z left_ right_ hs).
Proof using PA PO PT Hmax.
  revert first x y z left_ right_ hs; induction fuel as [|fuel IH]; intros first x y z left_ right_ hs HL HR HB Hf;
    cbn [combine_loop w_left w_right w_ours]; destruct ((0 <? length left_)%nat || (0 <? length right_)%nat) eqn:EC.
  1: apply orb_true_iff in EC as [EC%Nat.ltb_lt|EC%Nat.ltb_lt]; lia.
  2: { eapply ok_bind; [apply (ok_combine_step first x y z left_ right_ hs); try done|].
       - intros [-> ->]%app_nil. done.
       - intros [[l' r' wb wo wt] hs'] (e & ye & ze & E1 & E2 & E3 & H1 & H2 & H3 & H4 & H5 & H6).
         cbn [w_left w_right w_base w_ours w_theirs] in *. subst wb wo wt. eapply ok_weaken; [apply (IH false e ye ze); try done; lia|]. exact H6. }
  all: apply orb_false_iff in EC as [E1%Nat.ltb_ge E2%Nat.ltb_ge];
    destruct left_; [|simpl in E1; lia]; destruct right_; [|simpl in E2; lia].
  all: pose proof HL as (SL & _ & _ & Hy); pose proof HR as (SR & _ & _); cbn [script] in SL, SR.
  all: apply ok_ret; exists [], x, y, z; split_and!; try done;
    (apply eqv_seg; [by apply proper_drop..|]; by rewrite <- !skipn_map).
Qed.

Lemma ok_combine left_ right_ :
  al O 0 0 left_ -> al T 0 0 right_ ->
  ok (combine cancel (concat A) (concat O) (concat T) left_ right_ options)
    (fun m => m_binary m = false /\ segmented (concat A) (concat O) (concat T) left_ right_ (hunks m)).
Proof using PA PO PT Hmax.
  intros HL HR. unfold combine. eapply ok_bind; [apply (ok_combine_loop _ true 0 0 0); done|].
  intros [hs oc] (cs & x' & y' & z' & Eo & Hy & E1 & E2 & E3 & Q1 & Q2 & -> & -> & HC & Eh). cbn [fst snd] in *. subst hs oc.
  eapply ok_bind; [eapply (ok_cut _ _ _ _ (eq _)); [by apply cut_rest|reflexivity]|intros ? <-].
  apply ok_ret. split; [done|]. exists cs, (concat (drop x' A)), (concat (drop y' O)), (concat (drop z' T)).
  rewrite !drop_0 in *. done.
Qed.
End Combine.

(** What [content_with] promises.  The edits of each side are those of its comparison with the
    base, run one after the other, and they are shortest scripts. *)
Definition merge_ok (cancel : nat -> bool) (base ours theirs : bytes) (m : ContentMerge) : Prop :=
  m_binary m = binary_side (c_binary options) base ours || binary_side (c_binary options) base theirs /\
  (if decide (ours = theirs \/ base = theirs) then hunks m = [Resolved ours]
   else if decide (base = ours) then hunks m = [Resolved theirs]
   else if m_binary m then exists h, hunks m = [h] /\ chosen (favor options) true base ours theirs h
   else exists left_ right_ n n',
     compare cancel base ours options O = (Ok (left_, false), n) /\
     compare cancel base theirs options n = (Ok (right_, false), n') /\
     aligned (whitespace options) (split_inclusive 10 base) (split_inclusive 10 ours) 0 0 left_ /\
     aligned (whitespace options) (split_inclusive 10 base) (split_inclusive 10 theirs) 0 0 right_ /\
     shortest (whitespace options) (split_inclusive 10 base) (split_inclusive 10 ours) left_ /\
     shortest (whitespace options) (split_inclusive 10 base) (split_inclusive 10 theirs) right_ /\
     match left_, right_ with
     | [], _ => eqv base ours /\ hunks m = [Resolved theirs]
     | _, [] => eqv base theirs /\ hunks m = [Resolved ours]
     | _, _ => segmented base ours theirs left_ right_ (hunks m)
     end).

(** What follows the two comparisons. *)
Definition merge_edits (cancel : nat -> bool) (base ours theirs : bytes) (left_ right_ : list ContentEdit) (is_binary : bool) : SE nat DiffError ContentMerge :=
  if bytes_eqb ours theirs || bytes_eqb base theirs then se_ret (resolved ours is_binary)
  else if bytes_eqb base ours then se_ret (resolved theirs is_binary)
  else if is_binary then
    let! hunk := choose base ours theirs (favor options) true in
    se_ret {| hunks := [hunk]; m_binary := is_binary |}
  else match left_, right_ with
       | [], _ => se_ret (resolved theirs false)
       | _, [] => se_ret (resolved ours false)
       | _, _ => combine cancel base ours theirs left_ right_ options
       end.

Lemma ok_merge_edits cancel base ours theirs left_ right_ is_binary :
  zlen base + zlen ours <= usize_max ->
  (is_binary = false ->
     aligned (whitespace options) (split_inclusive 10 base) (split_inclusive 10 ours) 0 0 left_ /\
     aligned (whitespace options) (split_inclusive 10 base) (split_inclusive 10 theirs) 0 0 right_) ->
  ok (merge_edits cancel base ours theirs left_ right_ is_binary)
    (fun m => m_binary m = is_binary /\
      (if decide (ours = theirs \/ base = theirs) then hunks m = [Resolved ours]
       else if decide (base = ours) then hunks m = [Resolved theirs]
       else if is_binary then exists h, hunks m = [h] /\ chosen (favor options) true base ours theirs h
       else match left_, right_ with
            | [], _ => eqv base ours /\ hunks m = [Resolved theirs]
            | _, [] => eqv base theirs /\ hunks m = [Resolved ours]
            | _, _ => segmented base ours theirs left_ right_ (hunks m)
            end)).
Proof using.
  intros Hlen HA. unfold merge_edits.
  assert (forall a b : bytes, bytes_eqb a b = false -> a <> b) as Hneq by (intros a b E ->; by rewrite bytes_eqb_refl in E).
  destruct (bytes_eqb ours theirs || bytes_eqb base theirs) eqn:E1.
  { apply ok_ret. rewrite decide_True; [done|]. apply orb_true_iff in E1 as [E1|E1]; apply bytes_eqb_eq in E1; auto. }
  assert (~ (ours = theirs \/ base = theirs)) as N1.
  { apply orb_false_iff in E1 as [E1 E1']. intros [E|E]; revert E; by apply Hneq. }
  destruct (bytes_eqb base ours) eqn:E2.
  { apply ok_ret. rewrite decide_False, decide_True; [done|by apply bytes_eqb_eq|done]. }
  assert (base <> ours) as N2 by by apply Hneq.
  destruct is_binary.
  { eapply ok_bind; [apply ok_choose|]. intros h Hh. apply ok_ret. rewrite !decide_False by done. split; [done|]. eauto. }
  destruct (HA eq_refl) as [HL HR]. destruct left_ as [|d left_]; [|destruct right_ as [|d' right_]].
  - apply ok_ret. rewrite !decide_False by done. split_and!; try done. apply HL.
  - apply ok_ret. rewrite !decide_False by done. split_and!; try done. apply HR.
  - pose proof (ok_combine cancel (split_inclusive 10 base) (split_inclusive 10 ours) (split_inclusive 10 theirs)
      (split_proper _) (split_proper _) (split_proper _)) as HC. rewrite !split_inclusive_concat in HC.
    eapply ok_weaken; [apply HC; try done; pose proof (zlen_nonneg ours); lia|]. intros m [EM HS].
    rewrite !decide_False by done. done.
Qed.

Lemma content_body_ok cancel base ours theirs :
  match (content_body cancel base ours theirs options O).1 with
  | Ok m => merge_ok cancel base ours theirs m
  | Err e => stop e
  end.
Proof using.
  change (content_body cancel base ours theirs options) with
    (let! (left_, lb) := compare cancel base ours options in
     let! (right_, rb) := compare cancel base theirs options in
     merge_edits cancel base ours theirs left_ right_ (lb || rb)).
  unfold se_bind. pose proof (ok_compare cancel base ours options O) as HL.
  destruct (compare cancel base ours options O) as [[[left_ lb]|e] n] eqn:EL; [|exact HL]. cbn [fst snd] in HL. destruct HL as (Hlen & HB & HL).
  pose proof (ok_compare cancel base theirs options n) as HR.
  destruct (compare cancel base theirs options n) as [[[right_ rb]|e] n'] eqn:ER; [|exact HR]. cbn [fst snd] in HR. destruct HR as (_ & HB' & HR).
  pose proof (ok_merge_edits cancel base ours theirs left_ right_ (lb || rb) Hlen) as H. cbv beta in H.
  assert (lb || rb = false -> lb = false /\ rb = false) as Hfalse by apply orb_false_iff.
  specialize (H ltac:(intros [-> ->]%Hfalse; tauto) n').
  destruct ((merge_edits cancel base ours theirs left_ right_ (lb || rb) n').1) as [m|e]; [|exact H].
  destruct H as [EM H]. unfold merge_ok. rewrite <- HB, <- HB', EM. split; [done|].
  destruct (decide _); [done|]. destruct (decide _); [done|]. destruct (lb || rb) eqn:E; [done|].
  destruct (Hfalse eq_refl) as [-> ->]. destruct HL as [HL1 HL2], HR as [HR1 HR2]. exists left_, right_, n, n'. done.
Qed.
End Segments.

(** C6: Three-way content merge is correct for all inputs, options and moments of
    cancellation.  The result is marked binary exactly when a side differs from the base and
    the mode or a NUL byte in the two makes that comparison binary.  When one side equals
    the base or both sides are equal the changed text is the result; binary conflicts follow
    the favour; otherwise the edits of each side are those its comparison with the base
    returns, no script between the lines (up to the whitespace policy) changes fewer of
    them, and base, ours and theirs are cut into the same sequence of stretches: outside the
    regions all three agree up to the whitespace policy, every region is exactly a union of
    touching edits with a gap before it and has in each side the lines its edits leave and
    put in, a region only one side changed takes that side, a region both changed alike takes
    ours, and any other region is a conflict with the three texts of the region or what the
    favour makes of it.  The only errors are a limit and
    cancellation: no slice is out of range and the loops end. *)
Theorem content_with_correct (cancel : nat -> bool) (base ours theirs : bytes) (options : ContentOptions) :
  match content_with cancel base ours theirs options with
  | Ok m => merge_ok options cancel base ours theirs m
  | Err (EDiff e) => e = Cancelled \/ exists what, e = Limit what
  end.
Proof.
  pose proof (content_body_ok options cancel base ours theirs) as H. unfold content_with.
  by destruct (content_body _ _ _ _ _ _).1.
Qed.

(** ** Markers *)

(** The rendering of one conflict. *)
Definition conflict_text (b o t : bytes) (options : MarkerOptions) (r : bytes) : Prop :=
  exists P mo mt Q,
    (if is_diff3 (style options) then P = [] /\ Q = [] /\ mo = o /\ mt = t else trimmed o t P mo mt Q) /\
    r = P ++ marker 60 (l_ours options) options ++ payload mo ++
        (if is_merge_style (style options) then [] else marker 124 (l_base options) options ++ payload b) ++
        marker 61 [] options ++ payload mt ++ marker 62 (l_theirs options) options ++ Q.

Definition piece_ok (is_binary : bool) (options : MarkerOptions) (h : ContentHunk) (r : bytes) : Prop :=
  match h with
  | Resolved bs => r = bs
  | Conflict b o t => if is_binary then r = o else conflict_text b o t options r
  end.

Lemma ok_render_conflict output b o t options :
  ok (render_conflict output b o t options) (fun r => exists c, conflict_text b o t options c /\ r = output ++ c).
Proof.
  unfold render_conflict, conflict_text. eapply ok_bind.
  { instantiate (1 := fun '(p, q) => exists P mo mt Q,
      (if is_diff3 (style options) then P = [] /\ Q = [] /\ mo = o /\ mt = t else trimmed o t P mo mt Q) /\
      o = P ++ mo ++ Q /\ t = P ++ mt ++ Q /\ p = zlen P /\ q = zlen Q).
    destruct (is_diff3 (style options)).
    - apply ok_ret. exists [], o, t, []. by rewrite !app_nil_r.
    - eapply ok_weaken; [apply ok_common_boundaries|]. intros [p q] (P & mo & mt & Q & HT & -> & ->).
      exists P, mo, mt, Q. pose proof HT as (H1 & H2 & _). done. }
  intros [p q] (P & mo & mt & Q & HT & Eo & Et & -> & ->).
  assert (zlen o - zlen Q = zlen P + zlen mo) as -> by (rewrite Eo, !zlen_app; lia).
  assert (zlen t - zlen Q = zlen P + zlen mt) as -> by (rewrite Et, !zlen_app; lia).
  eapply ok_bind; [eapply (ok_cut _ _ _ P (eq _)); [rewrite Eo; apply (slice_mid []); [done|lia]|reflexivity]|intros ? <-].
  eapply ok_bind; [eapply (ok_cut _ _ _ mo (eq _)); [rewrite Eo; by apply slice_mid|reflexivity]|intros ? <-].
  eapply ok_bind; [eapply (ok_cut _ _ _ mt (eq _)); [rewrite Et; by apply slice_mid|reflexivity]|intros ? <-].
  eapply ok_bind; [eapply (ok_cut _ _ _ Q (eq _)); [|reflexivity]|intros ? <-].
  { rewrite Eo, app_assoc. apply slice_tail. by rewrite zlen_app. }
  apply ok_ret. eexists. split; [exists P, mo, mt, Q; split; [exact HT|reflexivity]|].
  by destruct (is_merge_style (style options)).
Qed.

Lemma ok_render_loop output hs is_binary options :
  ok (render_loop output hs is_binary options)
    (fun r => exists ps, Forall2 (piece_ok is_binary options) hs ps /\ r = output ++ concat ps).
Proof.
  revert output; induction hs as [|h hs IH]; intros output; cbn [render_loop].
  - apply ok_ret. exists []. split; [constructor|by rewrite app_nil_r].
  - eapply ok_bind.
    { instantiate (1 := fun r => exists p, piece_ok is_binary options h p /\ r = output ++ p).
      destruct h as [bs|b o t]; cbn [piece_ok]; [apply ok_ret; by exists bs|].
      destruct is_binary; [apply ok_ret; by exists o|apply ok_render_conflict]. }
    intros ? (p & Hp & ->). eapply ok_weaken; [apply IH|]. intros r (ps & HF & ->). exists (p :: ps).
    split; [by constructor|]. cbn [concat]. by rewrite app_assoc.
Qed.

(** Rendering reads no limit and no flag: its only error would be a panic. *)
Definition only_panics {A} (m : SE nat DiffError A) : Prop := forall n, match (m n).1 with Ok _ => True | Err e => e = DPanic end.
Lemma only_panics_bind {A B} (m : SE nat DiffError A) (k : A -> SE nat DiffError B) :
  only_panics m -> (forall a, only_panics (k a)) -> only_panics (se_bind m k).
Proof. intros Hm Hk n. specialize (Hm n). unfold se_bind. destruct (m n) as [[a|e] n']; [apply Hk|done]. Qed.
Lemma only_panics_cut a b l : only_panics (cut a b l).
Proof. intros n. unfold cut. by destruct (slice a b l). Qed.
Lemma only_panics_render output hs is_binary options : only_panics (render_loop output hs is_binary options).
Proof.
  revert output; induction hs as [|h hs IH]; intros output; cbn [render_loop]; [by intros n|].
  apply only_panics_bind; [|done]. destruct h as [|b o t]; [by intros n|]. destruct is_binary; [by intros n|].
  apply only_panics_bind.
  - destruct (is_diff3 _); [by intros n|]. do 2 (apply only_panics_bind; [apply only_panics_cut|intros ?]). by intros n.
  - intros [p q]. do 4 (apply only_panics_bind; [apply only_panics_cut|intros ?]). by intros n.
Qed.

(** Rendering a merge never panics and is the concatenation of one text per hunk:
    resolved bytes as they are, the local bytes of a binary conflict, and for a text
    conflict the common leading lines, the local, base (in both diff3 styles) and
    other texts between markers, each ended by a newline, and the common trailing
    lines; the two texts between the markers share neither a first nor a last line,
    and with the common lines around them they are the two sides of the conflict.
    The diff3 style shows the sides whole. *)
Theorem render_correct (m : ContentMerge) (options : MarkerOptions) :
  exists pieces, render m options = Ok (concat pieces) /\
    Forall2 (piece_ok (m_binary m) options) (hunks m) pieces.
Proof.
  unfold render. pose proof (ok_render_loop [] (hunks m) (m_binary m) options 0%nat) as H.
  pose proof (only_panics_render [] (hunks m) (m_binary m) options 0%nat) as HP.
  destruct (render_loop _ _ _ _ _) as [[r|e] n]; cbn [fst] in *; [|subst e; destruct H as [|[w ?]]; done].
  destruct H as (ps & HF & ->). by exists ps.
Qed.

(** A clean change of each side around a conflict. *)
Example merge_small :
  (let? m := content (unlines (map bstr ["1"; "2"; "3"; "4"; "5"; "6"; "7"]%string))
                     (unlines (map bstr ["one"; "2"; "3"; "four"; "5"; "6"; "7"]%string))
                     (unlines (map bstr ["1"; "2"; "3"; "vier"; "5"; "6"; "seven"]%string)) in
   Ok (hunks m)) =
  Ok [Resolved (unlines (map bstr ["one"; "2"; "3"]%string));
      Conflict (unlines [bstr "4"]) (unlines [bstr "four"]) (unlines [bstr "vier"]);
      Resolved (unlines (map bstr ["5"; "6"; "seven"]%string))].
Proof. vm_compute. reflexivity. Qed.
End MergeCorrect.
