(* ===== verification/PatchWrite.v ===== *)
(** * Writing patches ([src/src/patch/hunks.rs], [function.rs], [binary.rs] and
      [src/src/display.rs])

    Hunks of a text comparison with context lines and function names, quoted path
    names, and the base-85 lines of binary blocks.  The writer is a byte vector, so
    only panics can stop the output; they are the error [WPanic].  The regular
    expressions of a configured driver belong to [regex_automata] and are a parameter
    that returns the span of a match. *)

From stdpp Require Import base list numbers strings.
From Stdlib Require Import ZArith Lia.
From S2P Require Import Prelude Lines Objects Diff.

Module PatchWrite.
Import Lines Objects Diff.

Inductive WriteFailure := WPanic | WFuel.
Definition index {A} (o : option A) : result WriteFailure A := ok_or o WPanic.

(** ** Function lines ([function.rs]) *)

(** [Kind::Default], or the search of compiled patterns. *)
Inductive FunctionLines :=
| DefaultRule
| Patterns (search : bytes -> option (Z * Z)).

Definition is_ascii_space (b : Z) : bool := contains b [32; 9; 10; 12; 13].
(** [trim_ascii_end]. *)
Definition trim_ascii_end (l : bytes) : bytes :=
  take (match rposition (fun b => negb (is_ascii_space b)) l with Some p => S p | None => 0%nat end) l.

(** [Matcher::name]. *)
Definition name_of (lines : FunctionLines) (line : bytes) : option (Z * Z) :=
  span ← match lines with
         | DefaultRule =>
             match head line with
             | Some b => if is_alpha b || (b =? 95) || (b =? 36) then Some (0, zlen line) else None
             | None => None
             end
         | Patterns search => search line
         end;
  let '(start, end_) := span in
  let end_ := Z.min end_ (start + 80) in
  kept ← slice start end_ line;
  Some (start, start + zlen (trim_ascii_end kept)).

(** [FunctionContext]. *)
Record FunctionContext := { searched : Z; found : option (Z * Z) }.

(** The start of the line that ends at [end_], as [rposition] finds it. *)
Definition line_start (bs : bytes) (end_ : Z) : result WriteFailure Z :=
  let? head := index (slice 0 (end_ - 1) bs) in
  Ok (match rposition (fun b => b =? 10) head with Some lf => Z.of_nat lf + 1 | None => 0 end).

(** The loop of [before]; fuel is the number of bytes. *)
Fixpoint before_loop (fuel : nat) (lines : FunctionLines) (bs : bytes) (end_ : Z) (ctx : FunctionContext)
  : result WriteFailure (option (Z * Z)) :=
  if searched ctx <? end_ then
    match fuel with
    | O => Err WFuel
    | S fuel =>
        let? ls := line_start bs end_ in
        let? line := index (slice ls (end_ - 1) bs) in
        match name_of lines line with
        | Some (a, b) => Ok (Some (ls + a, ls + b))
        | None => before_loop fuel lines bs ls ctx
        end
    end
  else Ok (found ctx).

(** [FunctionContext::before]. *)
Definition before (lines : FunctionLines) (bs : bytes) (start : Z) (ctx : FunctionContext)
  : result WriteFailure (option bytes * FunctionContext) :=
  let? f := before_loop (S (length bs)) lines bs start ctx in
  let ctx := {| searched := start; found := f |} in
  match f with
  | None => Ok (None, ctx)
  | Some (a, b) =>
      let? name := index (slice a b bs) in
      Ok (Some name, ctx)
  end.

(** ** Hunks ([hunks.rs]) *)

(** [write_range]. *)
Definition write_range (start count : nat) : bytes :=
  match count with
  | O => decimal (Z.of_nat start) ++ bstr ",0"
  | S O => decimal (Z.of_nat (start + 1))
  | _ => decimal (Z.of_nat (start + 1)) ++ bstr "," ++ decimal (Z.of_nat count)
  end.

(** [write_lines]. *)
Definition no_newline : bytes := 10 :: bstr "\ No newline at end of file" ++ [10].
Definition write_lines (marker : Z) (bs : bytes) : bytes :=
  concat (map (fun line => marker :: line ++ (if ends_with [10] line then [] else no_newline)) (split_inclusive 10 bs)).

(** [lines_before] and [lines_after]. *)
Fixpoint lines_before (bs : bytes) (start : Z) (count : nat) : result WriteFailure Z :=
  match count with
  | O => Ok start
  | S count =>
      let? s := line_start bs start in
      lines_before bs s count
  end.
Fixpoint lines_after (bs : bytes) (end_ : Z) (lines : nat) (count : nat) : result WriteFailure (Z * nat) :=
  match count with
  | O => Ok (end_, lines)
  | S count =>
      if end_ <? zlen bs then
        let? rest := index (slice end_ (zlen bs) bs) in
        let e := match position (fun b => b =? 10) rest with Some lf => end_ + Z.of_nat lf + 1 | None => zlen bs end in
        lines_after bs e (S lines) count
      else Ok (end_, lines)
  end.

(** The edits that join the hunk of [last]: the edits after the first, and the rest. *)
Fixpoint hunk_edits (context_lines : nat) (last : ContentEdit) (edits : list ContentEdit)
  : result WriteFailure (list ContentEdit * list ContentEdit) :=
  match edits with
  | [] => Ok ([], [])
  | next :: rest =>
      if (next.(old_lines).1 <? last.(old_lines).2)%nat then Err WPanic
      else if Z.of_nat (next.(old_lines).1 - last.(old_lines).2) <=? saturating_mul (Z.of_nat context_lines) 2 then
        let? (taken, rest) := hunk_edits context_lines next rest in
        Ok (next :: taken, rest)
      else Ok ([], edits)
  end.

(** The lines of a hunk. *)
Fixpoint hunk_body (old new : bytes) (position : Z) (edits : list ContentEdit) : result WriteFailure (bytes * Z) :=
  match edits with
  | [] => Ok ([], position)
  | e :: edits =>
      let? same := index (slice position e.(old_bytes).1 old) in
      let? removed := index (slice e.(old_bytes).1 e.(old_bytes).2 old) in
      let? added := index (slice e.(new_bytes).1 e.(new_bytes).2 new) in
      let? (rest, p) := hunk_body old new e.(old_bytes).2 edits in
      Ok (write_lines 32 same ++ write_lines 45 removed ++ write_lines 43 added ++ rest, p)
  end.

(** One hunk, from the edit [first] and those that follow it; subtractions that
    underflow panic. *)
Definition write_hunk (old new : bytes) (context_lines : nat) (function : FunctionLines) (ctx : FunctionContext)
    (first : ContentEdit) (more : list ContentEdit) : result WriteFailure (bytes * FunctionContext) :=
  let last := default first (last more) in
  let leading := Nat.min context_lines first.(old_lines).1 in
  let? start := lines_before old first.(old_bytes).1 leading in
  let? (finish, trailing) := lines_after old last.(old_bytes).2 0 context_lines in
  let old_start := (first.(old_lines).1 - leading)%nat in
  if (first.(new_lines).1 <? leading)%nat then Err WPanic
  else
    let new_start := (first.(new_lines).1 - leading)%nat in
    if ((last.(old_lines).2 + trailing <? old_start) || (last.(new_lines).2 + trailing <? new_start))%nat then Err WPanic
    else
      let old_count := (last.(old_lines).2 + trailing - old_start)%nat in
      let new_count := (last.(new_lines).2 + trailing - new_start)%nat in
      let? (name, ctx) := before function old start ctx in
      let? (body, position) := hunk_body old new start (first :: more) in
      let? tail := index (slice position finish old) in
      Ok (bstr "@@ -" ++ write_range old_start old_count ++ bstr " +" ++ write_range new_start new_count ++ bstr " @@" ++
          (match name with Some n => 32 :: n | None => [] end) ++ [10] ++ body ++ write_lines 32 tail, ctx).

(** [write_hunks_with]; fuel is the number of edits. *)
Fixpoint write_hunks_loop (fuel : nat) (old new : bytes) (context_lines : nat) (function : FunctionLines)
    (ctx : FunctionContext) (edits : list ContentEdit) : result WriteFailure bytes :=
  match edits with
  | [] => Ok []
  | first :: rest =>
      match fuel with
      | O => Err WFuel
      | S fuel =>
          let? (more, rest) := hunk_edits context_lines first rest in
          let? (h, ctx) := write_hunk old new context_lines function ctx first more in
          let? out := write_hunks_loop fuel old new context_lines function ctx rest in
          Ok (h ++ out)
      end
  end.
Definition write_hunks_with (old new : bytes) (edits : list ContentEdit) (context_lines : nat) (function : FunctionLines)
  : result WriteFailure bytes :=
  write_hunks_loop (length edits) old new context_lines function {| searched := 0; found := None |} edits.
Definition write_hunks (old new : bytes) (edits : list ContentEdit) (context_lines : nat) : result WriteFailure bytes :=
  write_hunks_with old new edits context_lines DefaultRule.

(** ** Path names ([display.rs]) *)

(** [needs_escape]. *)
Definition needs_escape (b : Z) : bool := negb ((32 <=? b) && (b <? 127)) || (b =? 34) || (b =? 92).

(** [{byte:03o}]. *)
Definition octal3 (b : Z) : bytes := [48 + b / 64; 48 + b / 8 mod 8; 48 + b mod 8].

(** One byte of a quoted name. *)
Definition quote_byte (b : Z) : bytes :=
  if b =? 34 then [92; 34]
  else if b =? 92 then [92; 92]
  else if b =? 7 then [92; 97]
  else if b =? 8 then [92; 98]
  else if b =? 9 then [92; 116]
  else if b =? 10 then [92; 110]
  else if b =? 11 then [92; 118]
  else if b =? 12 then [92; 102]
  else if b =? 13 then [92; 114]
  else if needs_escape b then 92 :: octal3 b
  else [b].

(** [Display for QuotedPath]. *)
Definition quote_path (path : bytes) : bytes :=
  if negb (existsb needs_escape path) then path
  else [34] ++ concat (map quote_byte path) ++ [34].

(** ** Binary lines ([patch/binary.rs]) *)

Definition ALPHABET : bytes :=
  bstr "0123456789ABCDEFGHIJKLMNOPQRSTUVWXYZabcdefghijklmnopqrstuvwxyz!#$%&()*+-;<=>?@^_`{|}~".

(** Five base-85 digits of a word, most significant first. *)
Fixpoint digits85 (n : nat) (word : Z) (tail : bytes) : result WriteFailure bytes :=
  match n with
  | O => Ok tail
  | S n =>
      let? d := index (zget (word mod 85) ALPHABET) in
      digits85 n (word / 85) (d :: tail)
  end.
Fixpoint line_groups (cs : list bytes) : result WriteFailure bytes :=
  match cs with
  | [] => Ok []
  | c :: cs =>
      let padded := c ++ replicate (4 - length c) 0 in
      let? g := digits85 5 (be_decode padded) [] in
      let? rest := line_groups cs in
      Ok (g ++ rest)
  end.
(** [line]; the prefix is computed in [u8]. *)
Definition binary_line (bs : bytes) : result WriteFailure bytes :=
  let length_ := zlen bs in
  let? prefix := if length_ <=? 26 then Ok (65 + length_ - 1)
                 else if 97 + length_ mod 256 <=? 255 then Ok (97 + length_ mod 256 - 27) else Err WPanic in
  let? groups := line_groups (chunks 4 bs) in
  Ok (prefix :: groups ++ [10]).
End PatchWrite.
