(* ===== verification/PatchParse.v ===== *)
(** * Reading and applying patches ([src/src/apply.rs], [src/src/apply/parse.rs],
      [text.rs] and [binary.rs])

    A patch is read line by line into file edits; a file edit is applied to the old
    content.  The parser's state is the lines left, the number of lines read and the
    two remaining budgets.  Loops over lines have fuel, one unit per line; running
    out of fuel is [PFuel] and a Rust panic is [PPanic].  Decompression
    ([flate2]) and the digests are parameters. *)

From stdpp Require Import base list numbers strings.
From Stdlib Require Import ZArith Lia.
From S2P Require Import Prelude Lines Objects Trees Delta PatchWrite.

Module PatchParse.
Import Lines Objects Trees.

Inductive PatchError :=
| Malformed (line : nat) (reason : string)
| Unsupported (line : nat) (feature : string)
| PLimit (what : string)
| Mismatch (line : nat)
| PPanic
| PFuel.

Record Limits := {
  l_input_bytes : Z; l_files : Z; l_hunks : Z; l_lines : Z; l_output_bytes : Z; l_binary_bytes : Z
}.
Definition default_limits : Limits :=
  {| l_input_bytes := 16 * 1024 * 1024; l_files := 10000; l_hunks := 100000; l_lines := 100000;
     l_output_bytes := 16 * 1024 * 1024; l_binary_bytes := 16 * 1024 * 1024 |}.

Record PLine := { kind : Z; p_bytes : bytes }.
Record Hunk := { h_line : nat; old_start : Z; new_start : Z; h_lines : list PLine }.
Inductive BinaryKind := Literal | DeltaKind.
Record Block := { b_kind : BinaryKind; b_bytes : bytes }.
Record BinaryPatch := { b_old : ObjectId; b_new : ObjectId; forward : Block; backward : option Block }.
Inductive FileOperation := Edit | Rename | Copy.
Record FilePatch := {
  old_path : option bytes; new_path : option bytes; hunks : list Hunk; f_line : nat;
  old_mode : option EntryMode; new_mode : option EntryMode; operation : FileOperation;
  similarity : option Z; binary : option BinaryPatch
}.

Definition op_eqb (a b : FileOperation) : bool :=
  match a, b with Edit, Edit | Rename, Rename | Copy, Copy => true | _, _ => false end.

(** [empty_file]. *)
Definition empty_file (line : nat) : FilePatch :=
  {| old_path := None; new_path := None; hunks := []; f_line := line; old_mode := None; new_mode := None;
     operation := Edit; similarity := None; binary := None |}.

(** ** Lines and numbers *)

(** [trim_lf] and [malformed]. *)
Definition trim_lf (bs : bytes) : bytes := default bs (strip_suffix [10] bs).
Definition malformed {A} (line : nat) (reason : string) : result PatchError A := Err (Malformed line reason).

(** [number]. *)
Fixpoint number_loop (n : Z) (bs : bytes) (line : nat) : result PatchError Z :=
  match bs with
  | [] => Ok n
  | b :: bs =>
      if negb (is_digit b) then malformed line "invalid range number"
      else match (n ← checked_mul n 10; checked_add n (b - 48)) with
           | Some n => number_loop n bs line
           | None => malformed line "range overflow"
           end
  end.
Definition number (bs : bytes) (line : nat) : result PatchError Z :=
  if bytes_eqb bs [] then malformed line "empty range number" else number_loop 0 bs line.

(** [range]; [parts.next().unwrap()] always has a part. *)
Definition range (bs : bytes) (prefix : Z) (line : nat) : result PatchError (Z * Z) :=
  match bs with
  | b :: rest =>
      if negb (b =? prefix) then malformed line "invalid range prefix"
      else
        match split_on 44 rest with
        | [] => Err PPanic
        | first :: parts =>
            let? start := number first line in
            let? count := match parts with [] => Ok 1 | part :: _ => number part line end in
            if match parts with _ :: _ :: _ => true | _ => false end || ((start =? 0) && negb (count =? 0))
            then malformed line "invalid range"
            else if count =? 0 then Ok (start, count)
            else let? s := ok_or (checked_sub start 1) PPanic in Ok (s, count)
        end
  | [] => malformed line "invalid range prefix"
  end.

(** [header_ranges]. *)
Definition header_ranges (header : bytes) (line : nat) : result PatchError (Z * Z * Z * Z) :=
  match split_on 32 header with
  | f0 :: fields =>
      if negb (bytes_eqb f0 (bstr "@@")) then malformed line "invalid hunk header"
      else
        match fields with
        | [] => malformed line "missing old range"
        | [_] => malformed line "missing new range"
        | old :: new :: rest =>
            if negb (match rest with f :: _ => bytes_eqb (trim_lf f) (bstr "@@") | [] => false end)
            then malformed line "missing hunk terminator"
            else
              let? (os, oc) := range old 45 line in
              let? (ns, nc) := range new 43 line in
              Ok (os, oc, ns, nc)
        end
  | [] => malformed line "invalid hunk header"
  end.

(** ** Paths *)

(** The escape after a backslash: its value and the bytes after it. *)
Definition is_octal (b : Z) : bool := (48 <=? b) && (b <=? 55).
Definition path_escape (bs : bytes) (line : nat) : result PatchError (Z * bytes) :=
  match bs with
  | [] => malformed line "truncated path escape"
  | e :: rest =>
      if e =? 97 then Ok (7, rest)
      else if e =? 98 then Ok (8, rest)
      else if e =? 116 then Ok (9, rest)
      else if e =? 110 then Ok (10, rest)
      else if e =? 118 then Ok (11, rest)
      else if e =? 102 then Ok (12, rest)
      else if e =? 114 then Ok (13, rest)
      else if e =? 34 then Ok (34, rest)
      else if e =? 92 then Ok (92, rest)
      else if (48 <=? e) && (e <=? 51) then
        match rest with
        | a :: b :: rest =>
            if negb (is_octal a && is_octal b) then malformed line "invalid octal escape"
            else Ok ((e - 48) * 64 + (a - 48) * 8 + (b - 48), rest)
        | _ => malformed line "truncated octal escape"
        end
      else malformed line "invalid path escape"
  end.

(** [quoted_path] from index 1 on; fuel is the number of bytes. *)
Fixpoint quoted_loop (fuel : nat) (bs out : bytes) (line : nat) : result PatchError bytes :=
  match bs with
  | [] => malformed line "unterminated quoted path"
  | b :: rest =>
      match fuel with
      | O => Err PFuel
      | S fuel =>
          if b =? 34 then
            if match rest with [] => false | t :: _ => negb (t =? 9) end
            then malformed line "trailing quoted path bytes"
            else Ok out
          else if negb (b =? 92) then quoted_loop fuel rest (out ++ [b]) line
          else
            let? (v, rest) := path_escape rest line in
            quoted_loop fuel rest (out ++ [v]) line
      end
  end.
Definition quoted_path (bs : bytes) (line : nat) : result PatchError bytes :=
  quoted_loop (length bs) (drop 1 bs) [] line.

(** [path]. *)
Definition path (bs : bytes) (line : nat) : result PatchError (option bytes) :=
  let bs := trim_lf bs in
  let? p := if match bs with b :: _ => b =? 34 | [] => false end then quoted_path bs line
            else ok_or (head (split_on 9 bs)) PPanic in
  if bytes_eqb p [] || contains 0 p then malformed line "empty or NUL path"
  else Ok (if bytes_eqb p (bstr "/dev/null") then None else Some p).

(** The end of the first quoted name: [find_map] over the bytes from index 1. *)
Fixpoint quote_end (at_ : nat) (escaped : bool) (bs : bytes) : option nat :=
  match bs with
  | [] => None
  | b :: bs =>
      if escaped then quote_end (S at_) false bs
      else if b =? 92 then quote_end (S at_) true bs
      else if b =? 34 then Some (S at_)
      else quote_end (S at_) false bs
  end.

(** The first split at [" b/"] whose sides agree. *)
Fixpoint same_split (old : bytes) (bs : bytes) : option (bytes * bytes) :=
  match bs with
  | [] => None
  | b :: rest =>
      if starts_with (bstr " b/") bs &&
         bool_decide (strip_prefix (bstr "a/") old = strip_prefix (bstr "b/") rest)
      then Some (old, rest)
      else same_split (old ++ [b]) rest
  end.

(** [git_paths]. *)
Definition git_paths (bs : bytes) (line : nat) : result PatchError (bytes * bytes) :=
  if starts_with [34] bs then
    match quote_end 1 false (drop 1 bs) with
    | None => malformed line "unterminated Git path"
    | Some end_ =>
        let? old := quoted_path (take end_ bs) line in
        match drop end_ bs with
        | 32 :: rest =>
            let? new := if starts_with [34] rest then quoted_path rest line else Ok rest in
            Ok (old, new)
        | _ => malformed line "missing Git destination"
        end
    end
  else match same_split [] bs with
       | Some p => Ok p
       | None => malformed line "ambiguous Git paths without authoritative file headers"
       end.

(** ** Headers *)

(** [refuse]. *)
Definition refuse (line : bytes) (at_ : nat) : result PatchError unit :=
  if starts_with (bstr "diff --cc ") line || starts_with (bstr "diff --combined ") line || starts_with (bstr "@@@") line
  then Err (Unsupported at_ "combined diff")
  else if starts_with (bstr "GIT binary patch") line || starts_with (bstr "Binary files ") line
  then Err (Unsupported at_ "binary patch")
  else Ok tt.

(** [ids.windows(2).position(|pair| pair == b"..")]. *)
Fixpoint dots (bs : bytes) : option nat :=
  match bs with
  | [] => None
  | b :: rest => if starts_with (bstr "..") bs then Some O else S <$> dots rest
  end.

(** [validate_index]. *)
Definition validate_index (bs : bytes) (line : nat) : result PatchError unit :=
  match split_on 32 bs with
  | [] => Err PPanic
  | ids :: fields =>
      match dots ids with
      | None => malformed line "invalid index identities"
      | Some at_ =>
          let old := take at_ ids in
          let new := drop (at_ + 2) ids in
          if bytes_eqb old [] || bytes_eqb new [] || (64 <? zlen old) || (64 <? zlen new) ||
             negb (forallb is_hexdigit (old ++ new))
          then malformed line "invalid index identities"
          else
            match fields with
            | [] => Ok tt
            | mode :: fields =>
                if negb (bytes_eqb mode (bstr "100644") || bytes_eqb mode (bstr "100755") || bytes_eqb mode (bstr "120000"))
                then Err (Unsupported line "index mode")
                else match fields with
                     | [] => Ok tt
                     | _ => malformed line "trailing index fields"
                     end
            end
      end
  end.

(** [full_index]; text that is not UTF-8 has no hexadecimal digits either. *)
Definition full_index (bs : bytes) : option (ObjectId * ObjectId) :=
  ids ← head (split_on 32 bs);
  at_ ← dots ids;
  match from_str (take at_ ids), from_str (drop (at_ + 2) ids) with
  | Ok old, Ok new => if bool_decide (id_format old = id_format new) then Some (old, new) else None
  | _, _ => None
  end.

(** [mode_value] and [set_mode]. *)
Definition mode_value (bs : bytes) (line : nat) : result PatchError EntryMode :=
  if bytes_eqb bs (bstr "100644") then Ok Blob
  else if bytes_eqb bs (bstr "100755") then Ok Executable
  else if bytes_eqb bs (bstr "120000") then Ok Symlink
  else Err (Unsupported line "file mode").
Definition set_mode (slot : option EntryMode) (value : EntryMode) (line : nat) : result PatchError (option EntryMode) :=
  match slot with Some _ => malformed line "duplicate mode" | None => Ok (Some value) end.

(** [operation_header]. *)
Definition operation_header (line : bytes) : option (FileOperation * bool * bytes) :=
  match strip_prefix (bstr "rename from ") line with
  | Some b => Some (Rename, false, b)
  | None =>
      match strip_prefix (bstr "rename to ") line with
      | Some b => Some (Rename, true, b)
      | None =>
          match strip_prefix (bstr "copy from ") line with
          | Some b => Some (Copy, false, b)
          | None =>
              match strip_prefix (bstr "copy to ") line with
              | Some b => Some (Copy, true, b)
              | None => None
              end
          end
      end
  end.

(** What [git_file] collects from the extended headers. *)
Record GitHeader := {
  g_old_mode : option EntryMode; g_new_mode : option EntryMode; g_similarity : option Z; g_operation : FileOperation;
  index_seen : bool; index_ids : option (ObjectId * ObjectId);
  from_path : option bytes; to_path : option bytes; added : bool; deleted : bool
}.
Definition no_headers : GitHeader :=
  {| g_old_mode := None; g_new_mode := None; g_similarity := None; g_operation := Edit; index_seen := false;
     index_ids := None; from_path := None; to_path := None; added := false; deleted := false |}.
Definition with_modes (h : GitHeader) (o n : option EntryMode) (a d : bool) : GitHeader :=
  {| g_old_mode := o; g_new_mode := n; g_similarity := g_similarity h; g_operation := g_operation h;
     index_seen := index_seen h; index_ids := index_ids h; from_path := from_path h; to_path := to_path h;
     added := a; deleted := d |}.

(** The [index] header. *)
Definition index_step (h : GitHeader) (bs : bytes) (at_ : nat) : result PatchError GitHeader :=
  if index_seen h then malformed at_ "duplicate index header"
  else
    let? _ := validate_index (trim_lf bs) at_ in
    let? mode := match split_on 32 (trim_lf bs) with
                 | _ :: m :: _ => let? m := mode_value m at_ in Ok (Some m)
                 | _ => Ok None
                 end in
    let fill slot := match slot, mode with None, Some m => Some m | _, _ => slot end in
    Ok {| g_old_mode := fill (g_old_mode h); g_new_mode := fill (g_new_mode h); g_similarity := g_similarity h;
          g_operation := g_operation h; index_seen := true; index_ids := full_index (trim_lf bs);
          from_path := from_path h; to_path := to_path h; added := added h; deleted := deleted h |}.

(** The [similarity index] header. *)
Definition similarity_step (h : GitHeader) (bs : bytes) (at_ : nat) : result PatchError GitHeader :=
  match g_similarity h with
  | Some _ => malformed at_ "duplicate similarity"
  | None =>
      match strip_suffix (bstr "%") (trim_lf bs) with
      | None => malformed at_ "invalid similarity"
      | Some v =>
          let? v := number v at_ in
          if 100 <? v then malformed at_ "invalid similarity"
          else Ok {| g_old_mode := g_old_mode h; g_new_mode := g_new_mode h; g_similarity := Some v;
                     g_operation := g_operation h; index_seen := index_seen h; index_ids := index_ids h;
                     from_path := from_path h; to_path := to_path h; added := added h; deleted := deleted h |}
      end
  end.

(** A rename or copy header. *)
Definition operation_step (h : GitHeader) (op : FileOperation) (to : bool) (bs : bytes) (at_ : nat)
  : result PatchError GitHeader :=
  if negb (op_eqb (g_operation h) Edit) && negb (op_eqb (g_operation h) op) then malformed at_ "conflicting rename/copy"
  else
    match (if to then to_path h else from_path h) with
    | Some _ => malformed at_ "duplicate operation path"
    | None =>
        let raw := trim_lf bs in
        let? name := if starts_with [34] raw then quoted_path raw at_ else Ok raw in
        if bytes_eqb name [] || contains 0 name then malformed at_ "invalid operation path"
        else
          let p := (if to then bstr "b/" else bstr "a/") ++ name in
          Ok {| g_old_mode := g_old_mode h; g_new_mode := g_new_mode h; g_similarity := g_similarity h;
                g_operation := op; index_seen := index_seen h; index_ids := index_ids h;
                from_path := if to then from_path h else Some p; to_path := if to then Some p else to_path h;
                added := added h; deleted := deleted h |}
    end.

(** One extended header line. *)
Definition header_step (h : GitHeader) (line : bytes) (at_ : nat) : result PatchError GitHeader :=
  match strip_prefix (bstr "index ") line with
  | Some bs => index_step h bs at_
  | None =>
  match strip_prefix (bstr "old mode ") line with
  | Some bs =>
      let? m := mode_value (trim_lf bs) at_ in
      let? o := set_mode (g_old_mode h) m at_ in
      Ok (with_modes h o (g_new_mode h) (added h) (deleted h))
  | None =>
  match strip_prefix (bstr "new mode ") line with
  | Some bs =>
      let? m := mode_value (trim_lf bs) at_ in
      let? n := set_mode (g_new_mode h) m at_ in
      Ok (with_modes h (g_old_mode h) n (added h) (deleted h))
  | None =>
  match strip_prefix (bstr "new file mode ") line with
  | Some bs =>
      if added h || deleted h then malformed at_ "conflicting file creation/deletion"
      else
        let? m := mode_value (trim_lf bs) at_ in
        let? n := set_mode (g_new_mode h) m at_ in
        Ok (with_modes h (g_old_mode h) n true (deleted h))
  | None =>
  match strip_prefix (bstr "deleted file mode ") line with
  | Some bs =>
      if added h || deleted h then malformed at_ "conflicting file creation/deletion"
      else
        let? m := mode_value (trim_lf bs) at_ in
        let? o := set_mode (g_old_mode h) m at_ in
        Ok (with_modes h o (g_new_mode h) (added h) true)
  | None =>
  if starts_with (bstr "dissimilarity index ") line then Err (Unsupported at_ "dissimilarity index")
  else
  match strip_prefix (bstr "similarity index ") line with
  | Some bs => similarity_step h bs at_
  | None =>
  match operation_header line with
  | Some (op, to, bs) => operation_step h op to bs at_
  | None => malformed at_ "unknown extended header"
  end end end end end end end.

(** ** The parser *)

Record Parser := { p_lines : list bytes; p_line : nat; remaining_lines : Z; remaining_binary : Z; mail : bool }.
Abbreviation M := (SE Parser PatchError).

(** [Parser::next] and [peek]. *)
Definition next : M (option bytes) := fun p =>
  match p_lines p with
  | [] => (Ok None, p)
  | l :: ls => (Ok (Some l), {| p_lines := ls; p_line := S (p_line p); remaining_lines := remaining_lines p;
                                remaining_binary := remaining_binary p; mail := mail p |})
  end.
Definition peek : M (option bytes) := fun p => (Ok (head (p_lines p)), p).
Definition at_line : M nat := fun p => (Ok (p_line p), p).

(** [self.remaining_lines.checked_sub(1)]. *)
Definition use_line : M unit := fun p =>
  match checked_sub (remaining_lines p) 1 with
  | None => (Err (PLimit "content lines"), p)
  | Some r => (Ok tt, {| p_lines := p_lines p; p_line := p_line p; remaining_lines := r;
                         remaining_binary := remaining_binary p; mail := mail p |})
  end.
Definition use_binary (size : Z) : M unit := fun p =>
  match checked_sub (remaining_binary p) size with
  | None => (Err (PLimit "binary decoded bytes"), p)
  | Some r => (Ok tt, {| p_lines := p_lines p; p_line := p_line p; remaining_lines := remaining_lines p;
                         remaining_binary := r; mail := mail p |})
  end.

Definition peek_is (prefix : bytes) : M bool :=
  let! l := peek in
  se_ret (match l with Some l => starts_with prefix l | None => false end).

(** The loop of [hunk]: [old] and [new] lines are read, [oe] and [ne] say whether a side
    has ended without a newline. *)
Definition newline_marker : bytes := bstr "\ No newline at end of file".
Fixpoint hunk_loop (fuel : nat) (old_count new_count old new : Z) (oe ne : bool) (lines : list PLine) : M (list PLine) :=
  if (old <? old_count) || (new <? new_count) then
    match fuel with
    | O => se_fail PFuel
    | S fuel =>
        let! l := next in
        let! at_ := at_line in
        match l with
        | None => se_lift (malformed at_ "truncated hunk")
        | Some [] => se_fail PPanic
        | Some (k :: content) =>
            if negb ((k =? 32) || (k =? 45) || (k =? 43)) || negb (ends_with [10] (k :: content))
            then se_lift (malformed at_ "invalid hunk line")
            else if (negb (k =? 43) && oe) || (negb (k =? 45) && ne)
            then se_lift (malformed at_ "content follows missing final newline")
            else
              let old := old + (if k =? 43 then 0 else 1) in
              let new := new + (if k =? 45 then 0 else 1) in
              if (old_count <? old) || (new_count <? new) then se_lift (malformed at_ "hunk count mismatch")
              else
                let! _ := use_line in
                let! marked := peek_is (bstr "\ No newline") in
                if marked then
                  let! marker := next in
                  let! at_ := at_line in
                  if negb (bytes_eqb (trim_lf (default [] marker)) newline_marker)
                  then se_lift (malformed at_ "invalid newline marker")
                  else
                    hunk_loop fuel old_count new_count old new (oe || negb (k =? 43)) (ne || negb (k =? 45))
                      (lines ++ [{| kind := k; p_bytes := removelast content |}])
                else
                  hunk_loop fuel old_count new_count old new oe ne (lines ++ [{| kind := k; p_bytes := content |}])
        end
    end
  else se_ret lines.

(** [Parser::hunk]. *)
Definition lines_left : M nat := fun p => (Ok (length (p_lines p)), p).
Definition hunk : M Hunk :=
  let! header := next in
  match header with
  | None => se_fail PPanic
  | Some header =>
      let! line := at_line in
      let! (os, oc, ns, nc) := se_lift (header_ranges header line) in
      let! fuel := lines_left in
      let! lines := hunk_loop (S fuel) oc nc 0 0 false false [] in
      se_ret {| h_line := line; old_start := os; new_start := ns; h_lines := lines |}
  end.

(** The loop of [text_file] over hunks. *)
Fixpoint hunks_loop (fuel : nat) (limits : Limits) (total : Z) (hs : list Hunk) : M (list Hunk * Z) :=
  let! more := peek_is (bstr "@@ ") in
  if (more : bool) then
    match fuel with
    | O => se_fail PFuel
    | S fuel =>
        if l_hunks limits <=? total then se_fail (PLimit "hunks")
        else
          let! h := hunk in
          hunks_loop fuel limits (total + 1) (hs ++ [h])
    end
  else se_ret (hs, total).

(** [text_file]: the paths and hunks, and the new total. *)
Definition text_file (limits : Limits) (total : Z) : M (option bytes * option bytes * list Hunk * Z) :=
  let! old := next in
  let! at_ := at_line in
  let! old := se_lift (ok_or old PPanic) in
  let! op := se_lift (path (drop 4 old) at_) in
  let! new := next in
  let! at_ := at_line in
  match new with
  | None => se_lift (malformed at_ "missing new path")
  | Some new =>
      if negb (starts_with (bstr "+++ ") new) then se_lift (malformed at_ "expected new path")
      else
        let! np := se_lift (path (drop 4 new) at_) in
        if match op, np with None, None => true | _, _ => false end then se_lift (malformed at_ "both paths absent")
        else
          let! fuel := lines_left in
          let! (hs, total) := hunks_loop (S fuel) limits total [] in
          let! nextl := peek in
          let! at_ := at_line in
          let! _ := match nextl with Some l => se_lift (refuse l (at_ + 1)%nat) | None => se_ret tt end in
          match hs with
          | [] => se_lift (malformed at_ "missing hunks")
          | _ => se_ret (op, np, hs, total)
          end
  end.

(** [decode_line] ([binary.rs]). *)
Definition u32_mul_add (word digit : Z) : option Z :=
  if (word * 85 <=? u32_max) && (word * 85 + digit <=? u32_max) then Some (word * 85 + digit) else None.
Fixpoint group_word (at_ : nat) (word : Z) (group : bytes) : result PatchError Z :=
  match group with
  | [] => Ok word
  | b :: group =>
      match position (fun c => c =? b) PatchWrite.ALPHABET with
      | None => malformed at_ "invalid binary base85 digit"
      | Some d =>
          match u32_mul_add word (Z.of_nat d) with
          | None => malformed at_ "binary base85 overflow"
          | Some word => group_word at_ word group
          end
      end
  end.
Fixpoint decode_groups (at_ : nat) (remaining : Z) (groups : list bytes) (output : bytes) : result PatchError bytes :=
  match groups with
  | [] => Ok output
  | g :: groups =>
      let? word := group_word at_ 0 g in
      let take_ := Z.min remaining 4 in
      decode_groups at_ (remaining - take_) groups (output ++ take (Z.to_nat take_) (be_encode 4 word))
  end.
(** [as_chunks::<5>().0]: the whole groups of five. *)
Definition as_chunks5 (bs : bytes) : list bytes := filter (fun c => length c = 5%nat) (chunks 5 bs).
Definition decode_line (line : bytes) (at_ : nat) (output : bytes) : result PatchError bytes :=
  let? length_ := match line with
                  | b :: _ => if is_upper b then Ok (b - 65 + 1)
                              else if is_lower b then Ok (b - 97 + 27)
                              else malformed at_ "invalid binary line length"
                  | [] => malformed at_ "invalid binary line length"
                  end in
  let encoded := drop 1 line in
  if negb (zlen encoded =? (length_ + 3) / 4 * 5) then malformed at_ "binary line length mismatch"
  else decode_groups at_ length_ (as_chunks5 encoded) output.

(** What a zlib decoder does with an input: the bytes its successful calls hand over, and
    how it ends (a call that fails on a broken stream, a call that makes no progress, or
    the end of the stream after so many bytes of input). *)
Inductive ZStatus := ZInvalid | ZTruncated | ZEnd (consumed : Z).
Inductive ZStream := ZS (produced : bytes) (status : ZStatus).

Section Files.
(** [zlib input] is how decompressing [input] ends; [hash_blob f bs] is the identity of
    a blob. *)
Variable zlib : bytes -> ZStream.
Variable hash_blob : ObjectFormat -> bytes -> ObjectId.

(** [inflate]. *)
Definition inflate (input : bytes) (expected : Z) (at_ : nat) : result PatchError bytes :=
  let bad {A} reason : result PatchError A := malformed at_ reason in
  let '(ZS out status) := zlib input in
  if expected <? zlen out then bad "binary inflated size mismatch"
  else match status with
       | ZInvalid => bad "invalid binary zlib stream"
       | ZTruncated => bad "truncated binary zlib stream"
       | ZEnd consumed =>
           if negb (zlen out =? expected) || negb (consumed =? zlen input) then bad "binary stream length mismatch" else Ok out
       end.

(** The lines of a binary block up to the empty line. *)
Fixpoint block_lines (fuel : nat) (compressed : bytes) : M (option bytes) :=
  match fuel with
  | O => se_fail PFuel
  | S fuel =>
      let! l := next in
      match l with
      | None => se_ret None
      | Some line =>
          if bytes_eqb line [10] then se_ret (Some compressed)
          else
            let! _ := use_line in
            let! at_ := at_line in
            let! compressed := se_lift (decode_line (trim_lf line) at_ compressed) in
            block_lines fuel compressed
      end
  end.

(** [binary_block]. *)
Definition binary_block : M Block :=
  let! header := next in
  let! at_ := at_line in
  match header with
  | None => se_lift (malformed at_ "missing binary block")
  | Some header =>
      let! (k, size) := se_lift (match strip_prefix (bstr "literal ") (trim_lf header) with
                                 | Some s => Ok (Literal, s)
                                 | None =>
                                     match strip_prefix (bstr "delta ") (trim_lf header) with
                                     | Some s => Ok (DeltaKind, s)
                                     | None => malformed at_ "invalid binary block header"
                                     end
                                 end) in
      let! size := se_lift (number size at_) in
      let! _ := use_binary size in
      let! fuel := lines_left in
      let! compressed := block_lines (S fuel) [] in
      match compressed with
      | None => se_lift (malformed at_ "missing binary block terminator")
      | Some compressed =>
          let! bs := se_lift (inflate compressed size at_) in
          se_ret {| b_kind := k; b_bytes := bs |}
      end
  end.

(** The [GIT binary patch] part. *)
Definition binary_part (h : GitHeader) : M BinaryPatch :=
  let! at_ := at_line in
  match index_ids h with
  | None => se_fail (Unsupported at_ "binary patch without full index identities")
  | Some (old, new) =>
      let! forward := binary_block in
      let! nextl := peek in
      let! backward :=
        if match nextl with Some l => starts_with (bstr "literal ") l || starts_with (bstr "delta ") l | None => false end
        then let! b := binary_block in se_ret (Some b)
        else se_ret None in
      se_ret {| b_old := old; b_new := new; forward := forward; backward := backward |}
  end.

(** The loop of [git_file] over the extended headers. *)
Fixpoint header_loop (fuel : nat) (h : GitHeader) : M (GitHeader * option BinaryPatch) :=
  let! l := peek in
  match l with
  | None => se_ret (h, None)
  | Some line =>
      let! p := se_get in
      if starts_with (bstr "diff --git ") line || starts_with (bstr "--- ") line ||
         (mail p && bytes_eqb (trim_lf line) (bstr "-- "))
      then se_ret (h, None)
      else if starts_with (bstr "GIT binary patch") line then
        if negb (bytes_eqb (trim_lf line) (bstr "GIT binary patch"))
        then se_lift (malformed (S (p_line p)) "invalid binary marker")
        else
          let! _ := next in
          let! b := binary_part h in
          se_ret (h, Some b)
      else
        let! _ := se_lift (refuse line (S (p_line p))) in
        match fuel with
        | O => se_fail PFuel
        | S fuel =>
            let! _ := next in
            let! at_ := at_line in
            let! h := se_lift (header_step h line at_) in
            header_loop fuel h
        end
  end.

(** The checks of [git_file] after the headers and the text part. *)
Definition opt_bytes_eqb (a b : option bytes) : bool := bool_decide (a = b).
Definition finish_file (h : GitHeader) (b : option BinaryPatch) (fallback : result PatchError (bytes * bytes)) (line : nat)
    (op np : option bytes) (hs : list Hunk) : result PatchError FilePatch :=
  let some {A} (o : option A) := match o with Some _ => true | None => false end in
  let no_hunks := match hs with [] => true | _ => false end in
  if negb no_hunks && ((added h && some op) || (deleted h && some np))
  then malformed line "file kind disagrees with text paths"
  else
    let? (op, np) :=
      if no_hunks then
        let? (p0, p1) := match from_path h, to_path h with
                         | Some o, Some n => Ok (o, n)
                         | None, None => fallback
                         | _, _ => malformed line "incomplete operation paths"
                         end in
        if bytes_eqb p0 [] || bytes_eqb p1 [] || contains 0 p0 || contains 0 p1 then malformed line "invalid Git path"
        else Ok (if added h then None else Some p0, if deleted h then None else Some p1)
      else Ok (op, np) in
    let? _ :=
      if negb (op_eqb (g_operation h) Edit) then
        if added h || deleted h || negb (some (from_path h)) || negb (some (to_path h))
        then malformed line "incomplete or conflicting operation"
        else if negb (opt_bytes_eqb op (from_path h)) || negb (opt_bytes_eqb np (to_path h))
        then malformed line "operation paths disagree with text headers"
        else Ok tt
      else if some (g_similarity h) then malformed line "similarity without rename/copy" else Ok tt in
    if no_hunks && negb (some b) && op_eqb (g_operation h) Edit && negb (added h) && negb (deleted h) &&
       (negb (some (g_old_mode h)) || negb (some (g_new_mode h)) || bool_decide (g_old_mode h = g_new_mode h))
    then malformed line "no file changes"
    else if some b && negb no_hunks then malformed line "mixed binary and text content"
    else
      let op := if added h then None else op in
      let om := if added h then None else g_old_mode h in
      let np := if deleted h then None else np in
      let nm := if deleted h then None else g_new_mode h in
      if match b with
         | Some b => xorb (negb (some op)) (is_null (b_old b)) || xorb (negb (some np)) (is_null (b_new b))
         | None => false
         end
      then malformed line "binary identities disagree with file kind"
      else Ok {| old_path := op; new_path := np; hunks := hs; f_line := line; old_mode := om; new_mode := nm;
                 operation := g_operation h; similarity := g_similarity h; binary := b |}.

(** [git_file]. *)
Definition git_file (limits : Limits) (total : Z) : M (FilePatch * Z) :=
  let! header := next in
  let! header := se_lift (ok_or header PPanic) in
  let! line := at_line in
  let fallback := git_paths (trim_lf (drop 11 header)) line in
  let! fuel := lines_left in
  let! (h, b) := header_loop (S fuel) no_headers in
  let! text := peek_is (bstr "--- ") in
  let! (op, np, hs, total) :=
    if (text : bool) then text_file limits total else se_ret (None, None, [], total) in
  let! f := se_lift (finish_file h b fallback line op np hs) in
  se_ret (f, total).

(** The loop of [parse_mode] over files. *)
Fixpoint files_loop (fuel : nat) (limits : Limits) (total : Z) (files : list FilePatch) : M (list FilePatch) :=
  let! l := peek in
  match l with
  | None => se_ret files
  | Some line =>
      let! p := se_get in
      if mail p && bytes_eqb (trim_lf line) (bstr "-- ") then se_ret files
      else
        let! _ := se_lift (refuse line (S (p_line p))) in
        if l_files limits <=? zlen files then se_fail (PLimit "files")
        else
          match fuel with
          | O => se_fail PFuel
          | S fuel =>
              if starts_with (bstr "diff --git ") line then
                let! (f, total) := git_file limits total in
                files_loop fuel limits total (files ++ [f])
              else if negb (mail p) && starts_with (bstr "--- ") line then
                let! (op, np, hs, total) := text_file limits total in
                files_loop fuel limits total
                  (files ++ [{| old_path := op; new_path := np; hunks := hs; f_line := S (p_line p); old_mode := None;
                                new_mode := None; operation := Edit; similarity := None; binary := None |}])
              else se_lift (malformed (S (p_line p)) "expected file header")
          end
  end.

(** [parse_mode] and the skipped preamble of a mail. *)
Fixpoint skip_preamble (line : nat) (ls : list bytes) : nat * list bytes :=
  match ls with
  | [] => (line, [])
  | l :: rest => if starts_with (bstr "diff --git ") l then (line, ls) else skip_preamble (S line) rest
  end.
Definition parse_mode (bs : bytes) (limits : Limits) (is_mail : bool) : result PatchError (list FilePatch) :=
  if l_input_bytes limits <? zlen bs then Err (PLimit "input bytes")
  else
    let ls := split_inclusive 10 bs in
    let '(line, ls) := if is_mail then skip_preamble 0 ls else (0%nat, ls) in
    let p := {| p_lines := ls; p_line := line; remaining_lines := l_lines limits;
                remaining_binary := l_binary_bytes limits; mail := is_mail |} in
    let? files := (files_loop (S (length ls)) limits 0 [] p).1 in
    match files with
    | [] => malformed 1 "no file edits"
    | _ => Ok files
    end.
Definition parse (bs : bytes) (limits : Limits) : result PatchError (list FilePatch) := parse_mode bs limits false.
Definition parse_mail (bs : bytes) (limits : Limits) : result PatchError (list FilePatch) := parse_mode bs limits true.

(** ** Application *)

Record HunkResult := { patch_line : nat; r_old_start : Z; r_new_start : Z }.
Record Applied := { content : bytes; results : list HunkResult }.

(** [take_line] ([text.rs]). *)
Definition take_line (remaining : bytes) : option (bytes * bytes) :=
  match remaining with
  | [] => None
  | _ =>
      let end_ := match position (fun b => b =? 10) remaining with Some i => S i | None => length remaining end in
      Some (take end_ remaining, drop end_ remaining)
  end.

(** [append]. *)
Definition append (output bs : bytes) (limits : Limits) : result PatchError bytes :=
  if saturating_sub (l_output_bytes limits) (zlen output) <? zlen bs then Err (PLimit "output bytes")
  else Ok (output ++ bs).

(** The state of [apply] between lines. *)
Record State := { out : bytes; rest : bytes; old_line : Z; new_line : Z; ended : bool; lines_budget : Z }.

(** [while old_line < hunk.old_start]; fuel is the number of bytes left. *)
Fixpoint copy_to (fuel : nat) (limits : Limits) (target : Z) (at_ : nat) (s : State) : result PatchError State :=
  if old_line s <? target then
    match fuel with
    | O => Err PFuel
    | S fuel =>
        let? (l, r) := ok_or (take_line (rest s)) (Mismatch at_) in
        let? o := append (out s) l limits in
        copy_to fuel limits target at_
          {| out := o; rest := r; old_line := old_line s + 1; new_line := new_line s + 1; ended := ended s;
             lines_budget := lines_budget s |}
    end
  else Ok s.

(** The lines of a hunk. *)
Fixpoint apply_lines (limits : Limits) (at_ : nat) (lines : list PLine) (s : State) : result PatchError State :=
  match lines with
  | [] => Ok s
  | l :: lines =>
      let? budget := ok_or (checked_sub (lines_budget s) 1) (PLimit "content lines") in
      let? (r, ol) :=
        if negb (kind l =? 43) then
          let? (actual, r) := ok_or (take_line (rest s)) (Mismatch at_) in
          if negb (bytes_eqb actual (p_bytes l)) then Err (Mismatch at_) else Ok (r, old_line s + 1)
        else Ok (rest s, old_line s) in
      let? (o, nl, e) :=
        if negb (kind l =? 45) then
          if ended s then Err (Mismatch at_)
          else
            let? o := append (out s) (p_bytes l) limits in
            Ok (o, new_line s + 1, negb (ends_with [10] (p_bytes l)))
        else Ok (out s, new_line s, ended s) in
      apply_lines limits at_ lines
        {| out := o; rest := r; old_line := ol; new_line := nl; ended := e; lines_budget := budget |}
  end.

(** The hunks. *)
Fixpoint apply_hunks (limits : Limits) (created : bool) (preimage : bytes) (hs : list Hunk) (s : State) (rs : list HunkResult)
  : result PatchError (State * list HunkResult) :=
  match hs with
  | [] => Ok (s, rs)
  | h :: hs =>
      if ended s || (old_start h <? old_line s) || (created && negb (bytes_eqb preimage [])) then Err (Mismatch (h_line h))
      else
        let? s := copy_to (S (length (rest s))) limits (old_start h) (h_line h) s in
        if negb (new_start h =? new_line s) then Err (Mismatch (h_line h))
        else
          let r := {| patch_line := h_line h; r_old_start := old_line s; r_new_start := new_line s |} in
          let? s := apply_lines limits (h_line h) (h_lines h) s in
          apply_hunks limits created preimage hs s (rs ++ [r])
  end.

(** [text::apply]. *)
Definition last_line (f : FilePatch) : nat := match last (hunks f) with Some h => h_line h | None => f_line f end.
Definition text_apply (f : FilePatch) (preimage : bytes) (limits : Limits) : result PatchError Applied :=
  let created := match old_path f with None => true | _ => false end in
  if l_input_bytes limits <? zlen preimage then Err (PLimit "input bytes")
  else if l_hunks limits <? zlen (hunks f) then Err (PLimit "hunks")
  else if created && negb (bytes_eqb preimage []) then Err (Mismatch (f_line f))
  else
    let? (s, rs) := apply_hunks limits created preimage (hunks f)
      {| out := []; rest := preimage; old_line := 0; new_line := 0; ended := false; lines_budget := l_lines limits |} [] in
    if ended s && negb (bytes_eqb (rest s) []) then Err (Mismatch (last_line f))
    else
      let? o := append (out s) (rest s) limits in
      if match new_path f with None => negb (bytes_eqb o []) | Some _ => false end then Err (Mismatch (last_line f))
      else Ok {| content := o; results := rs |}.

(** [binary::apply]. *)
Definition binary_apply (f : FilePatch) (b : BinaryPatch) (preimage : bytes) (limits : Limits) : result PatchError Applied :=
  if l_input_bytes limits <? zlen preimage then Err (PLimit "input bytes")
  else if (if is_null (b_old b) then negb (bytes_eqb preimage [])
           else negb (bool_decide (hash_blob (id_format (b_old b)) preimage = b_old b)))
  then Err (Mismatch (f_line f))
  else
    let? c :=
      match b_kind (forward b) with
      | Literal =>
          if l_output_bytes limits <? zlen (b_bytes (forward b)) then Err (PLimit "output bytes")
          else Ok (b_bytes (forward b))
      | DeltaKind =>
          match (Delta.apply preimage (b_bytes (forward b)) (l_output_bytes limits) (l_output_bytes limits)).1 with
          | Ok c => Ok c
          | Err (Delta.Limit _) => Err (PLimit "output bytes")
          | Err (Delta.Corrupt reason) => malformed (f_line f) reason
          | Err _ => malformed (f_line f) "invalid binary delta"
          end
      end in
    if (if is_null (b_new b) then negb (bytes_eqb c [])
        else negb (bool_decide (hash_blob (id_format (b_new b)) c = b_new b)))
    then Err (Mismatch (f_line f))
    else Ok {| content := c; results := [] |}.

(** [FilePatch::apply_with]. *)
Definition apply_with (f : FilePatch) (preimage : bytes) (limits : Limits) : result PatchError Applied :=
  match binary f with
  | Some b => binary_apply f b preimage limits
  | None => text_apply f preimage limits
  end.
End Files.

(** [Patch::reversed], for one file. *)
Definition flip (k : Z) : Z := if k =? 43 then 45 else if k =? 45 then 43 else k.
Definition reverse_hunk (h : Hunk) : Hunk :=
  {| h_line := h_line h; old_start := new_start h; new_start := old_start h;
     h_lines := map (fun l => {| kind := flip (kind l); p_bytes := p_bytes l |}) (h_lines h) |}.
Definition reverse_file (f : FilePatch) : result PatchError FilePatch :=
  let? b := match binary f with
            | None => Ok None
            | Some b =>
                match backward b with
                | None => Err (Unsupported (f_line f) "binary reversal without a reverse block")
                | Some r => Ok (Some {| b_old := b_new b; b_new := b_old b; forward := r; backward := Some (forward b) |})
                end
            end in
  Ok {| old_path := new_path f; new_path := old_path f; hunks := map reverse_hunk (hunks f); f_line := f_line f;
        old_mode := new_mode f; new_mode := old_mode f; operation := operation f; similarity := similarity f; binary := b |}.
Fixpoint reversed (files : list FilePatch) : result PatchError (list FilePatch) :=
  match files with
  | [] => Ok []
  | f :: files =>
      let? f := reverse_file f in
      let? files := reversed files in
      Ok (f :: files)
  end.
End PatchParse.
