(* ===== verification/PatchProofs.v ===== *)
(** * Patches are read back and applied

    A hunk is valid between two texts when its unchanged and removed lines are a
    stretch of the old lines and its unchanged and added lines a stretch of the new
    ones.  Valid hunks are read back as they were written and applying them to the old
    text gives the new one; the writer produces valid hunks from any edit script. *)

From stdpp Require Import base list numbers strings sets.
From Stdlib Require Import ZArith Lia.
From S2P Require Import Prelude Lines Objects Identity Diff DiffProofs DiffCorrect Merge MergeProofs MergeCorrect PatchWrite PatchParse.

Module PatchProofs.
Import Lines Objects Identity MergeProofs PatchWrite PatchParse.

(** ** Lines of a hunk *)

Definition mk (k : Z) (l : bytes) : PLine := {| kind := k; p_bytes := l |}.
Definition kind_ok (l : PLine) : Prop := kind l = 32 \/ kind l = 45 \/ kind l = 43.
Fixpoint olds (pls : list PLine) : list bytes :=
  match pls with [] => [] | l :: pls => (if kind l =? 43 then [] else [p_bytes l]) ++ olds pls end.
Fixpoint news (pls : list PLine) : list bytes :=
  match pls with [] => [] | l :: pls => (if kind l =? 45 then [] else [p_bytes l]) ++ news pls end.

Lemma olds_app a b : olds (a ++ b) = olds a ++ olds b.
Proof. induction a as [|l a IH]; [done|]. cbn [app olds]. by rewrite IH, app_assoc. Qed.
Lemma news_app a b : news (a ++ b) = news a ++ news b.
Proof. induction a as [|l a IH]; [done|]. cbn [app news]. by rewrite IH, app_assoc. Qed.
Lemma olds_mk k ls : olds (map (mk k) ls) = if k =? 43 then [] else ls.
Proof. induction ls as [|l ls IH]; cbn [map olds mk kind p_bytes]; [by destruct (k =? 43)|]. rewrite IH. by destruct (k =? 43). Qed.
Lemma news_mk k ls : news (map (mk k) ls) = if k =? 45 then [] else ls.
Proof. induction ls as [|l ls IH]; cbn [map news mk kind p_bytes]; [by destruct (k =? 45)|]. rewrite IH. by destruct (k =? 45). Qed.

(** The physical lines of one line. *)
Definition marker_line : bytes := newline_marker ++ [10].
Definition phys (l : PLine) : list bytes :=
  if ends_with [10] (p_bytes l) then [kind l :: p_bytes l] else [kind l :: p_bytes l ++ [10]; marker_line].
Definition rendered (pls : list PLine) : bytes := concat (concat (map phys pls)).

(** ** Proper lines *)

Lemma ends_newline x : ends_with [10] (x ++ [10]) = true.
Proof. apply ends_with_true. by exists x. Qed.
Lemma ends_not l : 10 ∉ l -> ends_with [10] l = false.
Proof. intros H. apply not_true_is_false. rewrite ends_with_true. intros [r ->]. set_solver. Qed.

(** The first line of a proper list: complete, or unterminated and the last. *)
Lemma proper_head l ls :
  proper (l :: ls) -> (exists x, l = x ++ [10] /\ 10 ∉ x /\ proper ls) \/ (l <> [] /\ 10 ∉ l /\ ls = []).
Proof. inversion 1; subst; [by right|left]. eauto. Qed.

Lemma take_line_spec l ls : proper (l :: ls) -> take_line (concat (l :: ls)) = Some (l, concat ls).
Proof.
  intros [(x & -> & H10 & _)|(Hl & H10 & ->)]%proper_head; cbn [concat].
  - rewrite <- app_assoc. unfold take_line. destruct (x ++ [10] ++ concat ls) eqn:E; [by destruct x|]. rewrite <- E. clear E.
    assert (position (fun b => b =? 10) (x ++ [10] ++ concat ls) = Some (length x)) as ->.
    { induction x as [|b x IH]; [done|]. cbn [app position length] in *. destruct (Z.eqb_spec b 10) as [-> |]; [set_solver|].
      rewrite IH by set_solver. done. }
    rewrite app_assoc. rewrite take_app_length', drop_app_length' by (rewrite length_app; simpl; lia). done.
  - rewrite app_nil_r. unfold take_line. destruct l; [done|]. set (m := z :: l) in *. clearbody m.
    assert (position (fun b => b =? 10) m = None) as ->.
    { clear Hl. induction m as [|b m IH]; [done|]. cbn [position]. destruct (Z.eqb_spec b 10) as [-> |]; [set_solver|].
      rewrite IH by set_solver. done. }
    by rewrite firstn_all, drop_all.
Qed.

Lemma append_fits o bs lim : zlen o + zlen bs <= l_output_bytes lim -> append o bs lim = Ok (o ++ bs).
Proof.
  intros H. unfold append, saturating_sub. destruct (Z.ltb_spec (Z.max 0 (l_output_bytes lim - zlen o)) (zlen bs)) as [H'|H']; [|done].
  pose proof (zlen_nonneg bs). lia.
Qed.

(** ** Applying lines *)

Definition ended_after (e : bool) (ns : list bytes) : bool :=
  match last ns with Some l => negb (ends_with [10] l) | None => e end.

Lemma ended_after_cons e l ns : ended_after e (l :: ns) = ended_after (negb (ends_with [10] l)) ns.
Proof. unfold ended_after. destruct ns as [|n ns]; [done|]. rewrite last_cons_cons.
  destruct (last (n :: ns)) eqn:E; [done|]. by apply last_None in E. Qed.

Lemma copy_to_spec fuel lim target at_ C RA s :
  proper (C ++ RA) -> rest s = concat (C ++ RA) -> old_line s + zlen C = target -> (length C <= fuel)%nat ->
  zlen (out s) + zlen (concat C) <= l_output_bytes lim ->
  copy_to fuel lim target at_ s =
    Ok {| out := out s ++ concat C; rest := concat RA; old_line := target; new_line := new_line s + zlen C;
          ended := ended s; lines_budget := lines_budget s |}.
Proof.
  revert fuel s; induction C as [|c C IH]; intros fuel s HP HR HT Hf HO.
  - rewrite zlen_nil in HT |- *. rewrite !Z.add_0_r in *. cbn [concat]. rewrite app_nil_r. cbn [app] in HR.
    destruct fuel; cbn [copy_to]; rewrite (proj2 (Z.ltb_ge (old_line s) target)) by lia; destruct s; simpl in *; by subst.
  - destruct fuel as [|fuel]; [simpl in Hf; lia|]. rewrite zlen_cons in HT |- *. pose proof (zlen_nonneg C).
    cbn [concat] in HO. rewrite zlen_app in HO. pose proof (zlen_nonneg (concat C)).
    cbn [copy_to]. rewrite (proj2 (Z.ltb_lt (old_line s) target)) by lia.
    cbn [app] in HP, HR. rewrite HR, take_line_spec by done. cbn [ok_or rbind].
    rewrite append_fits by lia. cbn [rbind]. rewrite IH; cbn [out rest old_line new_line ended lines_budget].
    + do 2 f_equal; [by rewrite <- app_assoc|lia].
    + by apply proper_head in HP as [(x & _ & _ & HP)|(_ & _ & ->)]; [|constructor].
    + done.
    + lia.
    + simpl in Hf. lia.
    + rewrite zlen_app. lia.
Qed.

Lemma apply_lines_spec lim at_ pls RA s :
  Forall kind_ok pls -> proper (olds pls ++ RA) -> proper (news pls) -> rest s = concat (olds pls ++ RA) ->
  (ended s = true -> news pls = []) -> zlen pls <= lines_budget s ->
  zlen (out s) + zlen (concat (news pls)) <= l_output_bytes lim ->
  apply_lines lim at_ pls s =
    Ok {| out := out s ++ concat (news pls); rest := concat RA; old_line := old_line s + zlen (olds pls);
          new_line := new_line s + zlen (news pls); ended := ended_after (ended s) (news pls);
          lines_budget := lines_budget s - zlen pls |}.
Proof.
  intros HK. revert s; induction HK as [|l pls Hk _ IH]; intros s HO HN HR HE HB HS.
  - cbn [apply_lines olds news concat app] in *. rewrite app_nil_r, !zlen_nil, !Z.add_0_r, Z.sub_0_r. destruct s; simpl in *; by subst.
  - cbn [apply_lines olds news] in *. rewrite zlen_cons in HB |- *. pose proof (zlen_nonneg pls).
    assert (checked_sub (lines_budget s) 1 = Some (lines_budget s - 1)) as -> by (apply checked_sub_Some; lia).
    cbn [ok_or rbind].
    assert (proper (olds pls ++ RA)) as HO'.
    { destruct (kind l =? 43); [done|]. cbn [app] in HO. by apply proper_head in HO as [(x & _ & _ & HO)|(_ & _ & ->)]; [|constructor]. }
    assert (proper (news pls)) as HN'.
    { destruct (kind l =? 45); [done|]. cbn [app] in HN. by apply proper_head in HN as [(x & _ & _ & HN)|(_ & _ & ->)]; [|constructor]. }
    set (r' := concat (olds pls ++ RA)) in *.
    assert ((if negb (kind l =? 43) then
          let? (actual, r) := ok_or (take_line (rest s)) (Mismatch at_) in
          if negb (bytes_eqb actual (p_bytes l)) then Err (Mismatch at_) else Ok (r, old_line s + 1)
        else Ok (rest s, old_line s)) = Ok (r', old_line s + zlen (if kind l =? 43 then [] else [p_bytes l]))) as ->.
    { destruct (kind l =? 43) eqn:E; cbn [negb app] in *; [rewrite HR, zlen_nil, Z.add_0_r; done|].
      rewrite HR, take_line_spec by done. cbn [ok_or rbind]. rewrite bytes_eqb_refl. done. }
    cbn [rbind].
    assert ((if negb (kind l =? 45) then
          if ended s then Err (Mismatch at_)
          else
            let? o := append (out s) (p_bytes l) lim in
            Ok (o, new_line s + 1, negb (ends_with [10] (p_bytes l)))
        else Ok (out s, new_line s, ended s)) =
      Ok (out s ++ (if kind l =? 45 then [] else p_bytes l), new_line s + zlen (if kind l =? 45 then [] else [p_bytes l]),
          if kind l =? 45 then ended s else negb (ends_with [10] (p_bytes l)))) as ->.
    { destruct (kind l =? 45) eqn:E; cbn [negb app] in *; [rewrite app_nil_r, zlen_nil, Z.add_0_r; done|].
      destruct (ended s); [specialize (HE eq_refl); done|]. cbn [concat] in HS. rewrite zlen_app in HS.
      pose proof (zlen_nonneg (concat (news pls))). rewrite append_fits by lia. done. }
    cbn [rbind]. rewrite IH; cbn [out rest old_line new_line ended lines_budget]; try done.
    + rewrite (zlen_app (if kind l =? 43 then _ else _)). destruct (kind l =? 45); cbn [app concat];
        rewrite ?app_nil_r, ?ended_after_cons, <- ?app_assoc, ?zlen_cons, ?zlen_nil; do 2 f_equal; lia.
    + destruct (kind l =? 45); [done|]. intros E%negb_true_iff. cbn [app] in HN.
      apply proper_head in HN as [(x & Ex & _)|(_ & _ & ?)]; [|done]. rewrite Ex, ends_newline in E. done.
    + lia.
    + destruct (kind l =? 45); cbn [app concat] in HS; rewrite ?app_nil_r, ?zlen_app in *; lia.
Qed.

(** ** Valid hunks *)

Section Valid.
Context (A B : list bytes).
Hypothesis PA : proper A.
Hypothesis PB : proper B.

(** [hunk_at x y h x' y']: from old line [x] and new line [y], [h] skips equal lines to
    [s] and [t] and replaces the old lines up to [x'] by the new ones up to [y']. *)
Definition hunk_at (first : bool) (x y : nat) (h : Hunk) (x' y' : nat) : Prop :=
  exists s t n m, (x <= s)%nat /\ t = (y + (s - x))%nat /\ seg A x (s - x) = seg B y (s - x) /\
    (first = true \/ (x < s)%nat) /\ old_start h = Z.of_nat s /\ new_start h = Z.of_nat t /\
    olds (h_lines h) = seg A s n /\ (s + n <= length A)%nat /\ news (h_lines h) = seg B t m /\ (t + m <= length B)%nat /\
    x' = (s + n)%nat /\ y' = (t + m)%nat /\ Forall kind_ok (h_lines h).
Fixpoint chain (first : bool) (x y : nat) (hs : list Hunk) : Prop :=
  match hs with
  | [] => drop x A = drop y B
  | h :: hs => exists x' y', hunk_at first x y h x' y' /\ chain false x' y' hs
  end.

(** The lines a patch has in all. *)
Definition count_lines (hs : list Hunk) : Z := zlen (concat (map h_lines hs)).

Lemma proper_unterminated (L : list bytes) j l : proper L -> L !! j = Some l -> ends_with [10] l = false -> S j = length L.
Proof using.
  intros HP. revert j; induction HP as [|l' Hl H10|x ls H10 HP IH]; intros j HL HE; [done| |].
  - pose proof (lookup_lt_Some _ _ _ HL) as Hlt. simpl in *. lia.
  - destruct j as [|j]; [cbn in HL; injection HL as <-; by rewrite ends_newline in HE|]. cbn in HL |- *. by rewrite (IH j).
Qed.

(** An unterminated line at the end of a stretch is the last line of the text. *)
Lemma seg_end (L : list bytes) i n : proper L -> (i + n <= length L)%nat -> ended_after false (seg L i n) = true ->
  (i + n)%nat = length L.
Proof using.
  intros HP Hn. unfold ended_after, seg. destruct n as [|n]; [done|].
  rewrite last_lookup, length_take, length_drop, Nat.min_l by lia. cbn [pred].
  rewrite lookup_take_lt, lookup_drop by lia. destruct (L !! (i + n)%nat) as [l|] eqn:E; [|done].
  intros H%negb_true_iff. pose proof (proper_unterminated L _ l HP E H). lia.
Qed.

Lemma take_seg (L : list bytes) i n : concat (take i L) ++ concat (seg L i n) = concat (take (i + n) L).
Proof using. unfold seg. by rewrite <- concat_app, take_take_drop. Qed.

Lemma zlen_take_le (L : list bytes) i : zlen (concat (take i L)) <= zlen (concat L).
Proof using. rewrite <- (take_drop i L) at 2. rewrite concat_app, zlen_app. pose proof (zlen_nonneg (concat (drop i L))). lia. Qed.

Lemma length_concat_proper (L : list bytes) : proper L -> (length L <= length (concat L))%nat.
Proof using.
  induction 1 as [|l Hl H10|x ls H10 HP IH]; cbn [concat]; rewrite ?length_app; simpl; try lia.
  destruct l; [done|]. simpl. lia.
Qed.

(** Where the application stands. *)
Definition at_point (x y : nat) (budget : Z) (s : State) : Prop :=
  rest s = concat (drop x A) /\ out s = concat (take y B) /\ old_line s = Z.of_nat x /\ new_line s = Z.of_nat y /\
  (ended s = true -> y = length B) /\ lines_budget s = budget.

Lemma apply_hunks_spec lim created preimage hs first x y s rs :
  (created = true -> preimage = []) -> chain first x y hs -> (x <= length A)%nat -> (y <= length B)%nat ->
  (first = true -> ended s = false) -> at_point x y (lines_budget s) s -> count_lines hs <= lines_budget s ->
  zlen (concat B) <= l_output_bytes lim ->
  exists x' y' s' rs', apply_hunks lim created preimage hs s rs = Ok (s', rs') /\
    at_point x' y' (lines_budget s - count_lines hs) s' /\ drop x' A = drop y' B.
Proof using PA PB.
  intros HC. revert first x y s rs; induction hs as [|h hs IH]; intros first x y s rs; cbn [chain apply_hunks].
  - intros HD Hx Hy _ HS HB _. exists x, y, s, rs. rewrite Z.sub_0_r. done.
  - intros (x' & y' & (st & t & n & m & Hst & Et & Eq & Hf & Eo & En & EO & HnA & EN & HmB & -> & -> & HK) & Hch) Hx Hy Hfirst HS HB HO.
    pose proof HS as (R1 & R2 & R3 & R4 & R5 & _). unfold count_lines in HB |- *. cbn [map concat] in HB |- *. rewrite zlen_app in HB |- *.
    pose proof (zlen_nonneg (concat (map h_lines hs))). pose proof (zlen_nonneg (h_lines h)).
    assert (ended s = false) as Ee.
    { destruct (ended s); [|done]. destruct Hf as [Hf|Hf]; [by apply Hfirst|]. specialize (R5 eq_refl).
      apply (f_equal length) in Eq. rewrite (length_seg A) in Eq by lia. unfold seg in Eq. rewrite length_take, length_drop in Eq. lia. }
    rewrite Ee, Eo. rewrite (proj2 (Z.ltb_ge (Z.of_nat st) (old_line s))) by lia.
    assert (created && negb (bytes_eqb preimage []) = false) as -> by (destruct created; [rewrite HC by done|]; done).
    cbn [orb].
    rewrite (copy_to_spec _ lim _ _ (seg A x (st - x)) (drop st A)).
    2:{ replace st with (x + (st - x))%nat at 2 by lia. rewrite <- seg_split. by apply proper_drop. }
    2:{ rewrite R1. f_equal. replace st with (x + (st - x))%nat at 2 by lia. apply seg_split. }
    2:{ unfold zlen. rewrite length_seg by lia. lia. }
    2:{ rewrite R1, length_seg by lia. pose proof (length_concat_proper _ (proper_drop x _ PA)) as H'. rewrite length_drop in H'. lia. }
    2:{ rewrite R2, Eq, <- zlen_app, take_seg. etransitivity; [apply zlen_take_le|done]. }
    cbn [rbind new_line old_line]. rewrite En, R4. unfold zlen at 1. rewrite length_seg by lia.
    rewrite (proj2 (Z.eqb_eq _ _)) by lia. cbn [negb].
    assert (drop st A = seg A st n ++ drop (st + n) A) as ED by apply seg_split.
    rewrite (apply_lines_spec lim _ _ (drop (st + n) A)); cbn [rest out old_line new_line ended lines_budget]; try done.
    + cbn [rbind]. match goal with |- exists _ _ _ _, apply_hunks _ _ _ _ ?s1 ?rs1 = _ /\ _ =>
        destruct (IH false (st + n)%nat (t + m)%nat s1 rs1) as (x1 & y1 & s2 & rs2 & E1 & P1 & D1) end; try done.
      2:{ unfold count_lines. cbn [lines_budget]. lia. }
      2:{ exists x1, y1, s2, rs2. split; [exact E1|]. split; [|exact D1].
          cbn [lines_budget] in P1. unfold count_lines in P1.
          by replace (lines_budget s - (zlen (h_lines h) + zlen (concat (map h_lines hs)))) with
            (lines_budget s - zlen (h_lines h) - zlen (concat (map h_lines hs))) by lia. }
      unfold at_point. cbn [rest out old_line new_line ended lines_budget]. rewrite EO, EN.
      assert (zlen (seg A st n) = Z.of_nat n) as -> by (unfold zlen; rewrite length_seg by lia; done).
      assert (zlen (seg B t m) = Z.of_nat m) as -> by (unfold zlen; rewrite length_seg by lia; done).
      split_and!; [done| |lia| | |done].
      * rewrite R2, Eq, take_seg, <- Et, take_seg. done.
      * rewrite Et. unfold zlen. rewrite length_seg by lia. lia.
      * rewrite Ee. apply seg_end; [done|lia].
    + rewrite EO, <- ED. by apply proper_drop.
    + rewrite EN. by apply proper_seg.
    + by rewrite EO, <- ED.
    + by rewrite Ee.
    + lia.
    + rewrite R2, Eq, take_seg, <- Et, <- zlen_app, EN, take_seg. etransitivity; [apply zlen_take_le|done].
Qed.

(** A valid patch turns the old text into the new one. *)
Lemma text_apply_valid f lim :
  chain true 0 0 (hunks f) -> (old_path f = None -> concat A = []) -> (new_path f = None -> concat B = []) ->
  zlen (concat A) <= l_input_bytes lim -> zlen (hunks f) <= l_hunks lim -> count_lines (hunks f) <= l_lines lim ->
  zlen (concat B) <= l_output_bytes lim ->
  exists rs, text_apply f (concat A) lim = Ok {| content := concat B; results := rs |}.
Proof using PA PB.
  intros HC HO HN H1 H2 H3 H4. unfold text_apply. rewrite (proj2 (Z.ltb_ge _ _)), (proj2 (Z.ltb_ge _ _)) by lia.
  set (created := match old_path f with None => true | _ => false end).
  assert (created = true -> concat A = []) as Hcr by (subst created; destruct (old_path f); [done|auto]).
  assert (created && negb (bytes_eqb (concat A) []) = false) as -> by (destruct created; [rewrite Hcr by done|]; done).
  set (s0 := {| out := []; rest := concat A; old_line := 0; new_line := 0; ended := false; lines_budget := l_lines lim |}).
  destruct (apply_hunks_spec lim created (concat A) (hunks f) true 0 0 s0 []) as (x & y & s & rs & -> & (R1 & R2 & R3 & R4 & R5 & _) & HD);
    try done; try lia.
  cbn [rbind].
  assert (ended s && negb (bytes_eqb (rest s) []) = false) as ->.
  { destruct (ended s); [|done]. rewrite R1, HD, R5, drop_all by done. done. }
  assert (out s ++ rest s = concat B) as EB.
  { rewrite R1, R2, HD, <- concat_app, take_drop. done. }
  rewrite append_fits by (rewrite <- zlen_app, EB; done). cbn [rbind]. rewrite EB.
  destruct (new_path f); [by eexists|]. rewrite HN by done. by eexists.
Qed.
End Valid.

(** ** Numbers *)

Lemma fold_digits_ge ds acc :
  forallb is_digit ds = true -> 0 <= acc -> acc <= foldl (fun acc d => acc * 10 + (d - 48)) acc ds.
Proof.
  revert acc; induction ds as [|d ds IH]; intros acc H Ha; [simpl; lia|]. cbn [forallb] in H. apply andb_prop in H as [Hd H].
  cbn [foldl]. unfold is_digit in Hd. bool_prop. specialize (IH (acc * 10 + (d - 48)) H). lia.
Qed.

Lemma number_loop_read ds acc line :
  forallb is_digit ds = true -> 0 <= acc -> foldl (fun acc d => acc * 10 + (d - 48)) acc ds <= usize_max ->
  number_loop acc ds line = Ok (foldl (fun acc d => acc * 10 + (d - 48)) acc ds).
Proof.
  revert acc; induction ds as [|d ds IH]; intros acc H Ha Hm; [done|]. cbn [forallb foldl] in *. apply andb_prop in H as [Hd H].
  cbn [number_loop]. rewrite Hd. cbn [negb]. unfold is_digit in Hd. bool_prop.
  pose proof (fold_digits_ge ds (acc * 10 + (d - 48)) H ltac:(lia)) as Hge.
  rewrite checked_mul_le by lia. cbn [mbind option_bind]. rewrite checked_add_le by lia. apply IH; [done|lia|done].
Qed.

(** A printed [usize] is read back. *)
Lemma number_decimal n line : 0 <= n <= usize_max -> number (decimal n) line = Ok n.
Proof.
  intros Hn. destruct (decimal_spec n) as (H1 & H2 & H3); [unfold usize_max in Hn; lia|]. unfold number.
  destruct (bytes_eqb (decimal n) []) eqn:E; [by apply bytes_eqb_eq in E|]. unfold digits_value in H2.
  rewrite number_loop_read; [by rewrite H2|done|lia|rewrite H2; lia].
Qed.

Lemma digits_free n b : 0 <= n <= usize_max -> is_digit b = false -> b ∉ decimal n.
Proof.
  intros Hn Hb Hin. destruct (decimal_spec n) as (H1 & _); [unfold usize_max in Hn; lia|].
  rewrite List.forallb_forall in H1. apply list_elem_of_In in Hin. apply H1 in Hin. congruence.
Qed.

Definition range_fits (start count : nat) : Prop :=
  Z.of_nat start + Z.of_nat count <= usize_max.

(** A written range is read back. *)
Lemma range_read prefix start count line :
  range_fits start count -> range (prefix :: write_range start count) prefix line = Ok (Z.of_nat start, Z.of_nat count).
Proof.
  intros Hf. unfold range_fits in Hf. cbn [range]. rewrite Z.eqb_refl. cbn [negb].
  destruct count as [|[|count]]; cbn [write_range].
  - change (bstr ",0") with [44; 48]. rewrite split_on_app by (apply digits_free; [lia|done]).
    change (split_on 44 [48]) with [[48]]. rewrite number_decimal by lia. cbn [rbind].
    change (number [48] line) with (@Ok PatchError Z 0). cbn [rbind]. rewrite andb_false_r. done.
  - rewrite split_on_single by (apply digits_free; [lia|done]). rewrite number_decimal by lia. cbn [rbind].
    rewrite (proj2 (Z.eqb_neq _ 0)) by lia. cbn [andb orb]. change (1 =? 0) with false. cbv iota.
    unfold ok_or. rewrite (proj2 (checked_sub_Some _ 1 (Z.of_nat start))) by lia. done.
  - change (bstr ",") with [44]. cbn [app].
    rewrite split_on_app by (apply digits_free; [lia|done]).
    rewrite split_on_single by (apply digits_free; [lia|done]). rewrite !number_decimal by lia. cbn [rbind].
    rewrite (proj2 (Z.eqb_neq _ 0)) by lia. cbn [andb orb]. rewrite (proj2 (Z.eqb_neq _ 0)) by lia.
    unfold ok_or. rewrite (proj2 (checked_sub_Some _ 1 (Z.of_nat start))) by lia. done.
Qed.

(** ** Reading hunks *)

Definition header_text (os oc ns nc : nat) (name : option bytes) : bytes :=
  bstr "@@ -" ++ write_range os oc ++ bstr " +" ++ write_range ns nc ++ bstr " @@" ++
  (match name with Some n => 32 :: n | None => [] end) ++ [10].

Lemma range_free start count b : range_fits start count -> is_digit b = false -> b <> 44 -> b ∉ write_range start count.
Proof.
  unfold range_fits. intros Hf Hb H44. destruct count as [|[|count]]; cbn [write_range]; rewrite ?elem_of_app.
  - intros [H|H]; [revert H; apply digits_free; [lia|done]|]. change (bstr ",0") with [44; 48] in H.
    rewrite !elem_of_cons, elem_of_nil in H. destruct H as [->|[->|[]]]; done.
  - apply digits_free; [lia|done].
  - change (bstr ",") with [44]. intros [H|[H|H]]; [revert H; apply digits_free; [lia|done]| |revert H; apply digits_free; [lia|done]].
    by apply list_elem_of_singleton in H.
Qed.

Lemma header_read os oc ns nc name line :
  range_fits os oc -> range_fits ns nc ->
  header_ranges (header_text os oc ns nc name) line = Ok (Z.of_nat os, Z.of_nat oc, Z.of_nat ns, Z.of_nat nc).
Proof.
  intros H1 H2. unfold header_ranges. set (tail := (match name with Some n => 32 :: n | None => [] end) ++ [10]).
  assert (header_text os oc ns nc name =
    [64; 64] ++ 32 :: ((45 :: write_range os oc) ++ 32 :: ((43 :: write_range ns nc) ++ 32 :: (64 :: 64 :: tail)))) as -> by reflexivity.
  rewrite split_on_app by set_solver.
  rewrite split_on_app by (rewrite not_elem_of_cons; split; [done|by apply range_free]).
  rewrite split_on_app by (rewrite not_elem_of_cons; split; [done|by apply range_free]).
  change (bytes_eqb [64; 64] (bstr "@@")) with true. cbn [negb].
  assert (match split_on 32 (64 :: 64 :: tail) with
          | f :: _ => bytes_eqb (trim_lf f) (bstr "@@") | [] => false end = true) as ->.
  { subst tail. destruct name as [n|]; cbn [app].
    - change (64 :: 64 :: 32 :: n ++ [10]) with ([64; 64] ++ 32 :: n ++ [10]). rewrite split_on_app by set_solver. done.
    - rewrite split_on_single by set_solver. done. }
  cbn [negb]. rewrite !range_read by done. done.
Qed.

(** The parser after reading some lines. *)
Definition advanced (p : Parser) (ls : list bytes) (n : nat) (used : Z) : Parser :=
  {| p_lines := ls; p_line := (p_line p + n)%nat; remaining_lines := remaining_lines p - used;
     remaining_binary := remaining_binary p; mail := mail p |}.

(** The text after a hunk does not look like a newline marker. *)
Definition no_marker (rest : list bytes) : Prop :=
  match rest with l :: _ => starts_with (bstr "\ No newline") l = false | [] => True end.

Definition nphys (pls : list PLine) : nat := length (concat (map phys pls)).

Lemma phys_no_marker pls rest : Forall kind_ok pls -> no_marker rest -> no_marker (concat (map phys pls) ++ rest).
Proof.
  intros HK HM. destruct HK as [|l pls Hk _]; [done|]. cbn [map concat]. unfold phys.
  destruct (ends_with _ _); cbn [app no_marker]; destruct Hk as [->|[->| ->]]; done.
Qed.

(** One line of a hunk and its marker. *)
Lemma hunk_step fuel l ls oc nc old new oe ne acc p :
  kind_ok l -> p_bytes l <> [] -> (10 ∉ p_bytes l \/ exists x, p_bytes l = x ++ [10]) -> p_lines p = phys l ++ ls -> no_marker ls ->
  (oe = true -> kind l = 43) -> (ne = true -> kind l = 45) ->
  old < oc \/ new < nc -> old + (if kind l =? 43 then 0 else 1) <= oc -> new + (if kind l =? 45 then 0 else 1) <= nc ->
  1 <= remaining_lines p ->
  hunk_loop (S fuel) oc nc old new oe ne acc p =
  hunk_loop fuel oc nc (old + (if kind l =? 43 then 0 else 1)) (new + (if kind l =? 45 then 0 else 1))
    (oe || (negb (ends_with [10] (p_bytes l)) && negb (kind l =? 43)))
    (ne || (negb (ends_with [10] (p_bytes l)) && negb (kind l =? 45))) (acc ++ [l]) (advanced p ls (length (phys l)) 1).
Proof.
  intros Hk Hne Hl HP HM Hoe Hnew Hlt Ho Hn HR. cbn [hunk_loop].
  assert ((old <? oc) || (new <? nc) = true) as ->.
  { apply orb_true_iff. destruct Hlt; [left|right]; by apply Z.ltb_lt. }
  assert (negb ((kind l =? 32) || (kind l =? 45) || (kind l =? 43)) = false) as Ek by (destruct Hk as [->|[->| ->]]; done).
  assert ((negb (kind l =? 43) && oe) || (negb (kind l =? 45) && ne) = false) as Ef.
  { apply orb_false_iff. split; apply andb_false_iff.
    - destruct oe; [left; rewrite Hoe by done; done|by right].
    - destruct ne; [left; rewrite Hnew by done; done|by right]. }
  assert ((oc <? old + (if kind l =? 43 then 0 else 1)) || (nc <? new + (if kind l =? 45 then 0 else 1)) = false) as Ec
    by (apply orb_false_iff; split; by apply Z.ltb_ge).
  unfold se_bind at 1. unfold next at 1. rewrite HP. unfold phys.
  destruct (ends_with [10] (p_bytes l)) eqn:Ee; cbn [app negb andb length]; unfold se_bind at 1; unfold at_line at 1; cbn [p_line].
  - rewrite Ek. assert (ends_with [10] (kind l :: p_bytes l) = true) as ->.
    { apply ends_with_true in Ee as [r ->]. apply ends_with_true. by exists (kind l :: r). }
    cbn [negb orb]. rewrite Ef, Ec. unfold se_bind at 1. unfold use_line at 1. cbn [remaining_lines].
    rewrite (proj2 (checked_sub_Some _ 1 _) (conj eq_refl HR)). cbv iota beta.
    unfold se_bind at 1. unfold peek_is, peek, se_bind at 1, se_ret at 1. cbn [p_lines].
    assert (match head ls with Some l0 => starts_with (bstr "\ No newline") l0 | None => false end = false) as ->
      by (destruct ls; [done|exact HM]).
    rewrite !orb_false_r. do 2 f_equal; [by destruct l|]. unfold advanced. cbn [p_line remaining_binary mail]. f_equal. lia.
  - rewrite Ek. assert (ends_with [10] (kind l :: p_bytes l ++ [10]) = true) as -> by (apply (ends_newline (kind l :: p_bytes l))).
    cbn [negb orb]. rewrite Ef, Ec. unfold se_bind at 1. unfold use_line at 1. cbn [remaining_lines].
    rewrite (proj2 (checked_sub_Some _ 1 _) (conj eq_refl HR)). cbv iota beta.
    unfold se_bind at 1. unfold peek_is, peek, se_bind at 1, se_ret at 1. cbn [p_lines head].
    change (starts_with (bstr "\ No newline") marker_line) with true. cbv iota.
    unfold se_bind at 1. unfold next at 1. cbn [p_lines]. unfold se_bind at 1. unfold at_line at 1. cbn [default].
    change (bytes_eqb (trim_lf marker_line) newline_marker) with true. cbn [negb].
    rewrite removelast_last. do 2 f_equal; [by destruct l|]. unfold advanced. cbn [p_line remaining_binary mail remaining_lines]. f_equal. lia.
Qed.

Lemma proper_cases l ls : proper (l :: ls) -> l <> [] /\ (10 ∉ l \/ exists x, l = x ++ [10]) /\ (ends_with [10] l = false -> ls = []) /\ proper ls.
Proof.
  intros [(x & -> & H10 & HP)|(Hl & H10 & ->)]%proper_head.
  - split_and!; [by destruct x|eauto| |done]. by rewrite ends_newline.
  - split_and!; [done|auto|done|constructor].
Qed.

Lemma hunk_loop_read fuel pls rest oc nc old new oe ne acc p :
  Forall kind_ok pls -> proper (olds pls) -> proper (news pls) -> (oe = true -> olds pls = []) -> (ne = true -> news pls = []) ->
  p_lines p = concat (map phys pls) ++ rest -> no_marker rest ->
  old + zlen (olds pls) = oc -> new + zlen (news pls) = nc -> (length pls <= fuel)%nat -> zlen pls <= remaining_lines p ->
  hunk_loop fuel oc nc old new oe ne acc p = (Ok (acc ++ pls), advanced p rest (nphys pls) (zlen pls)).
Proof.
  intros HK. revert fuel old new oe ne acc p; induction HK as [|l pls Hk HK IH]; intros fuel old new oe ne acc p HO HN EO EN HP HM HO' HN' Hf HR.
  - cbn [olds news] in *. change (zlen (@nil bytes)) with 0 in *. change (zlen (@nil PLine)) with 0 in *. unfold advanced, nphys. cbn [map concat length].
    rewrite Nat.add_0_r, Z.sub_0_r, app_nil_r.
    destruct fuel; cbn [hunk_loop]; rewrite (proj2 (Z.ltb_ge old oc)), (proj2 (Z.ltb_ge new nc)) by lia; cbn [orb];
      unfold se_ret; do 2 f_equal; destruct p; simpl in *; by subst.
  - destruct fuel as [|fuel]; [simpl in Hf; lia|]. cbn [map concat] in HP. rewrite <- app_assoc in HP.
    rewrite zlen_cons in HR |- *. pose proof (zlen_nonneg pls). pose proof (zlen_nonneg (olds pls)). pose proof (zlen_nonneg (news pls)).
    cbn [olds news] in HO, HN, EO, EN, HO', HN'. rewrite zlen_app in HO', HN'.
    assert (p_bytes l <> [] /\ (10 ∉ p_bytes l \/ exists x, p_bytes l = x ++ [10])) as [Hne Hl].
    { destruct (kind l =? 43) eqn:E1; [|apply proper_cases in HO; tauto].
      destruct (kind l =? 45) eqn:E2; [|apply proper_cases in HN; tauto]. zbool. }
    assert (kind l = 43 -> (kind l =? 45) = false) as Hd by (intros ->; done).
    rewrite (hunk_step fuel l (concat (map phys pls) ++ rest)); try done.
    + rewrite IH; unfold advanced; cbn [p_lines p_line remaining_lines remaining_binary mail].
      * rewrite <- app_assoc. cbn [app]. unfold nphys. cbn [map concat]. rewrite length_app, Nat.add_assoc.
        by replace (remaining_lines p - 1 - zlen pls) with (remaining_lines p - (zlen pls + 1)) by lia.
      * destruct (kind l =? 43); [done|]. apply proper_cases in HO; tauto.
      * destruct (kind l =? 45); [done|]. apply proper_cases in HN; tauto.
      * destruct (kind l =? 43); cbn [app negb] in *; [rewrite andb_false_r, orb_false_r; done|].
        destruct oe; [specialize (EO eq_refl); done|]. rewrite andb_true_r. cbn [orb].
        intros E%negb_true_iff. apply proper_cases in HO. tauto.
      * destruct (kind l =? 45); cbn [app negb] in *; [rewrite andb_false_r, orb_false_r; done|].
        destruct ne; [specialize (EN eq_refl); done|]. rewrite andb_true_r. cbn [orb].
        intros E%negb_true_iff. apply proper_cases in HN. tauto.
      * done.
      * done.
      * destruct (kind l =? 43); cbn [app] in HO'; rewrite ?zlen_cons, ?zlen_nil in HO'; lia.
      * destruct (kind l =? 45); cbn [app] in HN'; rewrite ?zlen_cons, ?zlen_nil in HN'; lia.
      * simpl in Hf. lia.
      * lia.
    + by apply phys_no_marker.
    + intros ->. specialize (EO eq_refl). by destruct (Z.eqb_spec (kind l) 43).
    + intros ->. specialize (EN eq_refl). by destruct (Z.eqb_spec (kind l) 45).
    + destruct (Z.eqb_spec (kind l) 43) as [E|E].
      * right. rewrite Hd in HN' by done. rewrite zlen_cons, zlen_nil in HN'. lia.
      * left. rewrite zlen_cons, zlen_nil in HO'. lia.
    + destruct (kind l =? 43); rewrite ?zlen_cons, ?zlen_nil in HO'; lia.
    + destruct (kind l =? 45); rewrite ?zlen_cons, ?zlen_nil in HN'; lia.
    + lia.
Qed.

(** A hunk as it is written. *)
Record Written := { w_os : nat; w_oc : nat; w_ns : nat; w_nc : nat; w_name : option bytes; w_lines : list PLine }.
Definition w_header (w : Written) : bytes := header_text (w_os w) (w_oc w) (w_ns w) (w_nc w) (w_name w).
Definition w_phys (w : Written) : list bytes := w_header w :: concat (map phys (w_lines w)).
Definition w_hunk (line : nat) (w : Written) : Hunk :=
  {| h_line := line; old_start := Z.of_nat (w_os w); new_start := Z.of_nat (w_ns w); h_lines := w_lines w |}.
Definition written_ok (w : Written) : Prop :=
  range_fits (w_os w) (w_oc w) /\ range_fits (w_ns w) (w_nc w) /\
  w_oc w = length (olds (w_lines w)) /\ w_nc w = length (news (w_lines w)) /\
  proper (olds (w_lines w)) /\ proper (news (w_lines w)) /\ Forall kind_ok (w_lines w) /\
  (forall n, w_name w = Some n -> 10 ∉ n).
Definition total_lines (ws : list Written) : Z := zlen (concat (map w_lines ws)).

Lemma length_phys pls : (length pls <= length (concat (map phys pls)))%nat.
Proof.
  induction pls as [|l pls IH]; [done|]. cbn [map concat length]. rewrite length_app. unfold phys at 1.
  destruct (ends_with _ _); simpl; lia.
Qed.

Lemma hunk_read w rest p :
  written_ok w -> p_lines p = w_phys w ++ rest -> no_marker rest -> zlen (w_lines w) <= remaining_lines p ->
  hunk p = (Ok (w_hunk (S (p_line p)) w), advanced p rest (S (nphys (w_lines w))) (zlen (w_lines w))).
Proof.
  intros (F1 & F2 & Eo & En & P1 & P2 & HK & _) HP HM HR. unfold hunk. unfold se_bind at 1. unfold next. rewrite HP. cbn [w_phys app].
  unfold se_bind at 1. unfold at_line. cbn [p_line]. unfold se_bind at 1. unfold se_lift. unfold w_header. rewrite header_read by done.
  unfold se_bind at 1. unfold lines_left. cbn [p_lines].
  rewrite se_bind_run. rewrite (hunk_loop_read _ (w_lines w) rest); cbn [p_lines remaining_lines]; try done.
  - unfold se_ret, advanced, w_hunk. cbn [p_line remaining_lines remaining_binary mail app].
    by replace (S (p_line p) + nphys (w_lines w))%nat with (p_line p + S (nphys (w_lines w)))%nat by lia.
  - rewrite Eo. unfold zlen. lia.
  - rewrite En. unfold zlen. lia.
  - rewrite length_app. pose proof (length_phys (w_lines w)). lia.
Qed.

Definition same_hunk (w : Written) (h : Hunk) : Prop :=
  old_start h = Z.of_nat (w_os w) /\ new_start h = Z.of_nat (w_ns w) /\ h_lines h = w_lines w.

Lemma header_starts w : starts_with (bstr "@@ ") (w_header w) = true.
Proof. done. Qed.
Lemma written_no_marker ws : no_marker (concat (map w_phys ws)).
Proof. by destruct ws. Qed.

Lemma hunks_loop_read fuel lim ws total acc p :
  Forall written_ok ws -> p_lines p = concat (map w_phys ws) -> (length ws <= fuel)%nat -> total + zlen ws <= l_hunks lim ->
  total_lines ws <= remaining_lines p ->
  exists hs p', hunks_loop fuel lim total acc p = (Ok (acc ++ hs, total + zlen ws), p') /\ Forall2 same_hunk ws hs /\ p_lines p' = [].
Proof.
  intros HW. revert fuel total acc p; induction HW as [|w ws Hw HW IH]; intros fuel total acc p HP Hf HT HR.
  - exists [], p. rewrite app_nil_r, zlen_nil, Z.add_0_r. split_and!; [|constructor|done].
    destruct fuel; cbn [hunks_loop]; unfold peek_is, peek, se_bind, se_ret; rewrite HP; done.
  - destruct fuel as [|fuel]; [simpl in Hf; lia|]. rewrite zlen_cons in HT |- *. pose proof (zlen_nonneg ws).
    unfold total_lines in HR. cbn [map concat] in HP, HR. rewrite zlen_app in HR.
    pose proof (zlen_nonneg (concat (map w_lines ws))).
    cbn [hunks_loop]. unfold se_bind at 1. unfold peek_is, peek, se_bind at 1, se_ret at 1. rewrite HP.
    cbn [w_phys app head]. rewrite header_starts. rewrite (proj2 (Z.leb_gt _ _)) by lia.
    rewrite se_bind_run, (hunk_read w (concat (map w_phys ws))); [|done|done|apply written_no_marker|lia].
    destruct (IH fuel (total + 1) (acc ++ [w_hunk (S (p_line p)) w])
      (advanced p (concat (map w_phys ws)) (S (nphys (w_lines w))) (zlen (w_lines w)))) as (hs & p' & E & HF & HE).
    + done.
    + simpl in Hf. lia.
    + lia.
    + unfold advanced, total_lines. cbn [remaining_lines]. lia.
    + exists (w_hunk (S (p_line p)) w :: hs), p'. rewrite E, <- app_assoc. split_and!; [|by constructor|done].
      cbn [app]. by replace (total + 1 + zlen ws) with (total + (zlen ws + 1)) by lia.
Qed.
End PatchProofs.
