(* ===== verification/PatchRoundtrip.v ===== *)
(** * From a comparison to a patch and back

    Path names survive quoting, a comparison written as a patch is read back and applied
    to give the new text, and the reversed patch gives the old one. *)

From stdpp Require Import base list numbers strings sets.
From Stdlib Require Import ZArith Lia.
From S2P Require Import Prelude Lines Objects Identity Diff DiffProofs DiffCompact DiffCorrect Merge MergeProofs MergeCorrect PatchWrite PatchParse PatchProofs.

Module PatchRoundtrip.
Import Lines Objects Identity Diff DiffProofs DiffCorrect MergeProofs MergeCorrect PatchWrite PatchParse PatchProofs.

(** ** Path names *)

Lemma escape_read b rest line :
  byte_ok b -> exists e tail, quote_byte b = e :: tail /\
    ((e = 92 /\ path_escape (tail ++ rest) line = Ok (b, rest)) \/ (e = b /\ tail = [] /\ b <> 34 /\ b <> 92)).
Proof.
  unfold byte_ok, quote_byte. intros Hb.
  repeat match goal with |- context [if b =? ?c then _ else _] =>
    destruct (Z.eqb_spec b c) as [-> |]; [eexists _, _; split; [reflexivity|left; split; reflexivity]|] end.
  destruct (needs_escape b); [|eexists _, _; split; [reflexivity|right; done]].
  eexists _, _. split; [reflexivity|]. left. split; [done|]. unfold octal3, path_escape. cbn [app].
  assert (0 <= b / 64 < 4) by (Z.div_mod_to_equations; lia). assert (0 <= b / 8 mod 8 < 8) by (apply Z.mod_pos_bound; lia).
  assert (0 <= b mod 8 < 8) by (apply Z.mod_pos_bound; lia).
  repeat match goal with |- context [48 + b / 64 =? ?c] => rewrite (proj2 (Z.eqb_neq (48 + b / 64) c)) by lia end.
  unfold is_octal. rewrite !(proj2 (Z.leb_le _ _)) by lia. cbn [andb negb]. do 2 f_equal.
  Z.div_mod_to_equations. lia.
Qed.

Lemma quoted_loop_read path rest fuel out line :
  bytes_ok path -> (rest = [] \/ head rest = Some 9) -> (length path < fuel)%nat ->
  quoted_loop fuel (concat (map quote_byte path) ++ 34 :: rest) out line = Ok (out ++ path).
Proof.
  intros HB HR. revert fuel out; induction HB as [|b path Hb HB IH]; intros fuel out Hf; destruct fuel as [|fuel]; try (simpl in Hf; lia).
  - cbn [map concat app quoted_loop]. rewrite app_nil_r. cbn [Z.eqb Pos.eqb].
    destruct rest as [|t rest]; [done|]. destruct HR as [?|[= ->]]; done.
  - cbn [map concat]. rewrite <- app_assoc.
    destruct (escape_read b (concat (map quote_byte path) ++ 34 :: rest) line Hb) as (e & tail & Eq & H). rewrite Eq.
    cbn [app quoted_loop]. assert (out ++ b :: path = (out ++ [b]) ++ path) as -> by (by rewrite <- app_assoc).
    destruct H as [[-> H]|(-> & -> & H1 & H2)].
    + cbn [Z.eqb Pos.eqb negb]. rewrite H. cbn [rbind]. apply IH. simpl in Hf. lia.
    + rewrite (proj2 (Z.eqb_neq b 34)), (proj2 (Z.eqb_neq b 92)) by done. cbn [negb app]. apply IH. simpl in Hf. lia.
Qed.

Lemma existsb_escape_false path x : existsb needs_escape path = false -> x ∈ path -> needs_escape x = false.
Proof.
  intros H Hx. destruct (needs_escape x) eqn:E; [|done]. exfalso. apply not_true_iff_false in H. apply H.
  apply List.existsb_exists. exists x. split; [by apply list_elem_of_In|done].
Qed.

Lemma quote_bytes_length path : (length path <= length (concat (map quote_byte path)))%nat.
Proof.
  induction path as [|b path IH]; [done|]. cbn [map concat length]. rewrite length_app.
  assert (1 <= length (quote_byte b))%nat; [|lia].
  unfold quote_byte. repeat match goal with |- context [if ?c then _ else _] => destruct c end; simpl; lia.
Qed.

(** A written path name, with the tab that ends a name with spaces, is read back. *)
Lemma path_read name tab line :
  bytes_ok name -> name <> [] -> 0 ∉ name -> name <> bstr "/dev/null" -> (tab = [] \/ tab = [9]) ->
  path (quote_path name ++ tab ++ [10]) line = Ok (Some name).
Proof.
  intros HB Hne H0 Hdev Ht. unfold path. rewrite app_assoc.
  assert (trim_lf ((quote_path name ++ tab) ++ [10]) = quote_path name ++ tab) as ->.
  { unfold trim_lf. by rewrite (proj2 (strip_suffix_Some [10] _ (quote_path name ++ tab)) eq_refl). }
  assert ((if match quote_path name ++ tab with b :: _ => b =? 34 | [] => false end
           then quoted_path (quote_path name ++ tab) line
           else ok_or (head (split_on 9 (quote_path name ++ tab))) PPanic) = Ok name) as ->.
  { unfold quote_path. destruct (existsb needs_escape name) eqn:E; cbn [negb].
    - cbn [app Z.eqb Pos.eqb]. unfold quoted_path. rewrite skipn_cons, drop_0, <- app_assoc. cbn [app]. rewrite quoted_loop_read; [done|done| |].
      + destruct Ht as [-> | ->]; [by left|by right].
      + cbn [length]. rewrite length_app. pose proof (quote_bytes_length name). simpl. lia.
    - destruct name as [|b name]; [done|]. cbn [app].
      destruct (Z.eqb_spec b 34) as [-> |]; [pose proof (existsb_escape_false _ 34 E ltac:(left)); done|].
      change (b :: name ++ tab) with ((b :: name) ++ tab).
      assert (9 ∉ b :: name) as H9 by (intros H; pose proof (existsb_escape_false _ 9 E H); done).
      destruct Ht as [-> | ->]; [rewrite app_nil_r, split_on_single by done|rewrite (split_on_app 9 (b :: name) []) by done]; done. }
  cbn [rbind]. destruct (bytes_eqb name []) eqn:E1; [by apply bytes_eqb_eq in E1|]. cbn [orb].
  rewrite (proj2 (contains_false 0 name) H0). destruct (bytes_eqb name (bstr "/dev/null")) eqn:E2; [by apply bytes_eqb_eq in E2|].
  done.
Qed.

Lemma quote_path_line name : bytes_ok name -> 10 ∉ quote_path name.
Proof.
  intros HB. unfold quote_path. destruct (existsb needs_escape name) eqn:E; cbn [negb].
  - rewrite !elem_of_app, !elem_of_cons, elem_of_nil. intros [[?|[]]|[H|[?|[]]]]; [done| |done].
    clear E. induction HB as [|b name Hb HB IH]; [by apply not_elem_of_nil in H|]. cbn [map concat] in H.
    apply elem_of_app in H as [H|H]; [|auto]. clear IH. unfold byte_ok in Hb. unfold quote_byte in H.
    repeat match goal with H : context [if b =? ?c then _ else _] |- _ => destruct (Z.eqb_spec b c) as [-> |]; [set_solver|] end.
    destruct (needs_escape b); [|set_solver]. unfold octal3 in H.
    assert (0 <= b / 64) by (apply Z.div_pos; lia). assert (0 <= b / 8 mod 8 < 8) by (apply Z.mod_pos_bound; lia).
    assert (0 <= b mod 8 < 8) by (apply Z.mod_pos_bound; lia).
    rewrite !elem_of_cons, elem_of_nil in H. lia.
  - intros H. pose proof (existsb_escape_false _ 10 E H). done.
Qed.

(** ** Lines around a hunk *)

Lemma slice_slice {T} s e a b (l m r : list T) : slice s e l = Some m -> slice a b m = Some r -> slice (s + a) (s + b) l = Some r.
Proof.
  rewrite !slice_app. intros (p1 & q1 & -> & E1 & E2) (p2 & q2 & -> & E3 & E4).
  exists (p1 ++ p2), (q2 ++ q1). rewrite <- !app_assoc, !zlen_app. split_and!; [done|lia|lia].
Qed.

Lemma position_first x r : 10 ∉ x -> position (fun b => b =? 10) (x ++ [10] ++ r) = Some (length x).
Proof.
  induction x as [|b x IH]; intros H; [done|]. cbn [app position length] in *. destruct (Z.eqb_spec b 10) as [-> |]; [set_solver|].
  by rewrite IH by set_solver.
Qed.
Lemma position_none x : 10 ∉ x -> position (fun b => b =? 10) x = None.
Proof.
  induction x as [|b x IH]; intros H; [done|]. cbn [position]. destruct (Z.eqb_spec b 10) as [-> |]; [set_solver|].
  by rewrite IH by set_solver.
Qed.
Lemma rposition_none {T} (p : T -> bool) l : (forall x, x ∈ l -> p x = false) -> rposition p l = None.
Proof. induction l as [|x l IH]; intros H; [done|]. cbn [rposition]. rewrite IH by set_solver. rewrite H by set_solver. done. Qed.
Lemma rposition_snoc {T} (p : T -> bool) l x b : p x = true -> (forall y, y ∈ b -> p y = false) -> rposition p (l ++ x :: b) = Some (length l).
Proof.
  intros Hx Hb. induction l as [|y l IH]; cbn [app rposition length]; [by rewrite rposition_none, Hx by done|]. by rewrite IH.
Qed.

Section Lines.
Context (A : list bytes).
Hypothesis PA : proper A.

Lemma line_body_free i l : A !! i = Some l -> 10 ∉ removelast l.
Proof using PA.
  revert i; induction PA as [|l' Hl H10|x ls H10 HP IH]; intros i E; [done| |].
  - destruct i; [|done]. injection E as ->. intros H. apply H10.
    destruct (exists_last Hl) as (r & y & ->). rewrite removelast_last in H. set_solver.
  - destruct i as [|i]; [|by eapply IH]. injection E as <-. by rewrite removelast_last.
Qed.
Lemma line_terminated i l : A !! i = Some l -> (S i < length A)%nat -> exists x, l = x ++ [10].
Proof using PA.
  intros E Hi. destruct (ends_with [10] l) eqn:EE; [by apply ends_with_true in EE|].
  pose proof (proper_unterminated A i l PA E EE). lia.
Qed.

(** The bytes before the last byte of a line. *)
Lemma before_last i l : A !! i = Some l ->
  slice 0 (off A (S i) - 1) (concat A) = Some (concat (take i A) ++ removelast l) /\
  slice (off A i) (off A (S i) - 1) (concat A) = Some (removelast l).
Proof using PA.
  intros E. pose proof (proper_lookup _ _ _ PA E) as Hne. destruct (exists_last Hne) as (r & y & ->). rewrite removelast_last.
  assert (concat A = concat (take i A) ++ r ++ y :: concat (drop (S i) A)) as EA.
  { rewrite <- (take_drop_middle A i _ E) at 1. rewrite concat_app. cbn [concat]. by rewrite <- app_assoc. }
  assert (off A (S i) - 1 = off A i + zlen r) as ->.
  { unfold off. rewrite (take_S_line A i _ E), !zlen_app. change (zlen [y]) with 1. lia. }
  rewrite EA. split; [|by apply slice_mid].
  rewrite app_assoc. apply (slice_mid []); [done|]. unfold off. rewrite zlen_app. lia.
Qed.

Lemma line_start_spec i : (i < length A)%nat -> line_start (concat A) (off A (S i)) = Ok (off A i).
Proof using PA.
  intros Hi. destruct (lookup_lt_is_Some_2 A i Hi) as [l E]. unfold line_start, index.
  rewrite (proj1 (before_last i l E)). cbn [ok_or rbind]. pose proof (line_body_free i l E) as H10.
  destruct i as [|i].
  - cbn [take concat app]. rewrite rposition_none; [done|]. intros x Hx. apply Z.eqb_neq. by intros ->.
  - destruct (lookup_lt_is_Some_2 A i ltac:(lia)) as [k Ek]. destruct (line_terminated i k Ek ltac:(lia)) as [x ->].
    rewrite (take_S_line A i _ Ek), <- !app_assoc. cbn [app]. rewrite app_assoc.
    rewrite rposition_snoc; [|done|intros z Hz; apply Z.eqb_neq; by intros ->].
    f_equal. unfold off. rewrite (take_S_line A i _ Ek), app_assoc, zlen_app. done.
Qed.

Lemma lines_before_spec n i : (n <= i <= length A)%nat -> lines_before (concat A) (off A i) n = Ok (off A (i - n)).
Proof using PA.
  revert i; induction n as [|n IH]; intros i Hi; cbn [lines_before]; [by rewrite Nat.sub_0_r|].
  destruct i as [|i]; [lia|]. rewrite line_start_spec by lia. cbn [rbind]. rewrite IH by lia. done.
Qed.

Lemma lines_after_spec c i k : (i <= length A)%nat ->
  lines_after (concat A) (off A i) k c = Ok (off A (i + Nat.min c (length A - i)), (k + Nat.min c (length A - i))%nat).
Proof using PA.
  revert i k; induction c as [|c IH]; intros i k Hi; cbn [lines_after]; [cbn [Nat.min]; by rewrite !Nat.add_0_r|].
  rewrite <- off_all. destruct (decide (i = length A)) as [-> |Hne].
  - rewrite Z.ltb_irrefl, Nat.sub_diag, Nat.min_0_r, !Nat.add_0_r. done.
  - rewrite (proj2 (Z.ltb_lt _ _)) by (apply off_lt; [done|lia]). unfold index. rewrite off_all, cut_rest by lia. cbn [ok_or rbind].
    destruct (lookup_lt_is_Some_2 A i ltac:(lia)) as [l E]. rewrite (drop_S A l i E).
    assert (match position (fun b => b =? 10) (concat (l :: drop (S i) A)) with
            | Some lf => off A i + Z.of_nat lf + 1 | None => zlen (concat A) end = off A (S i)) as ->.
    { pose proof (proper_drop i A PA) as HP. rewrite (drop_S A l i E) in HP.
      apply proper_head in HP as [(x & -> & H10 & _)|(Hl & H10 & Hd)].
      - cbn [concat]. rewrite <- app_assoc. rewrite position_first by done. unfold off. rewrite (take_S_line A i _ E), !zlen_app.
        change (zlen [10]) with 1. unfold zlen. lia.
      - rewrite Hd. cbn [concat]. rewrite app_nil_r, position_none by done. rewrite <- off_all. f_equal.
        apply (f_equal length) in Hd. rewrite length_drop in Hd. simpl in Hd. lia. }
    rewrite IH by lia. replace (Nat.min (S c) (length A - i)) with (S (Nat.min c (length A - S i))) by lia.
    by rewrite !Nat.add_succ_r.
Qed.

(** ** Function names *)

Definition ctx_ok (ctx : FunctionContext) : Prop :=
  0 <= searched ctx /\ forall a b, found ctx = Some (a, b) -> exists n, slice a b (concat A) = Some n /\ 10 ∉ n.

Lemma name_of_slice fn line a b : name_of fn line = Some (a, b) -> exists n, slice a b line = Some n.
Proof using.
  unfold name_of. destruct (match fn with DefaultRule => _ | Patterns search => _ end) as [[s e]|]; [|done].
  cbn [mbind option_bind]. destruct (slice s (Z.min e (s + 80)) line) as [kept|] eqn:E; [|done].
  cbn [mbind option_bind]. intros [= <- <-]. exists (trim_ascii_end kept).
  apply slice_app in E as (pre & post & -> & E1 & E2). unfold trim_ascii_end. set (k := match rposition _ kept with Some p => _ | None => _ end).
  rewrite <- (take_drop k kept) at 2. rewrite <- app_assoc. by apply slice_mid.
Qed.

Lemma before_loop_spec fn fuel i ctx :
  ctx_ok ctx -> (i <= length A)%nat -> (i < fuel)%nat ->
  exists f, before_loop fuel fn (concat A) (off A i) ctx = Ok f /\
    forall a b, f = Some (a, b) -> exists n, slice a b (concat A) = Some n /\ 10 ∉ n.
Proof using PA.
  intros [H0 HF]. revert i; induction fuel as [|fuel IH]; intros i Hi Hf; [lia|]. cbn [before_loop].
  destruct (Z.ltb_spec (searched ctx) (off A i)) as [Hs|Hs]; [|by exists (found ctx)].
  destruct i as [|i]; [change (off A 0) with 0 in Hs; lia|]. rewrite line_start_spec by lia. cbn [rbind].
  destruct (lookup_lt_is_Some_2 A i ltac:(lia)) as [l E]. destruct (before_last i l E) as [_ Hsl]. unfold index. rewrite Hsl. cbn [ok_or rbind].
  destruct (name_of fn (removelast l)) as [[a b]|] eqn:EN; [|apply IH; lia].
  eexists. split; [reflexivity|]. intros a' b' [= <- <-]. destruct (name_of_slice _ _ _ _ EN) as [n Hn]. exists n.
  split; [by eapply slice_slice|]. apply slice_app in Hn as (p1 & p2 & E2 & _). pose proof (line_body_free i l E) as H10.
  rewrite E2 in H10. set_solver.
Qed.

Lemma before_spec fn i ctx :
  ctx_ok ctx -> (i <= length A)%nat ->
  exists name ctx', before fn (concat A) (off A i) ctx = Ok (name, ctx') /\ ctx_ok ctx' /\ (forall n, name = Some n -> 10 ∉ n).
Proof using PA.
  intros HC Hi. unfold before. pose proof (length_concat_proper A PA).
  destruct (before_loop_spec fn (S (length (concat A))) i ctx HC Hi ltac:(lia)) as (f & -> & HF). cbn [rbind].
  assert (0 <= off A i) as H0 by (unfold off; apply zlen_nonneg).
  destruct f as [[a b]|].
  - destruct (HF a b eq_refl) as (n & Hn & H10). unfold index. rewrite Hn. cbn [ok_or rbind].
    eexists _, _. split; [reflexivity|]. split; [split; [done|exact HF]|]. by intros ? [= <-].
  - eexists _, _. split; [reflexivity|]. split; [split; [done|exact HF]|done].
Qed.
End Lines.

(** ** Writing hunks *)

Lemma write_lines_proper k L : proper L -> write_lines k (concat L) = rendered (map (mk k) L).
Proof.
  intros HP. unfold write_lines, rendered. rewrite proper_split by done. clear HP.
  induction L as [|l L IH]; [done|]. cbn [map concat]. rewrite concat_app, IH. f_equal.
  unfold phys. cbn [mk kind p_bytes]. destruct (ends_with [10] l); cbn [concat]; rewrite ?app_nil_r; [done|].
  unfold no_newline, marker_line, newline_marker. cbn [app]. by rewrite <- app_assoc.
Qed.
Lemma rendered_app a b : rendered (a ++ b) = rendered a ++ rendered b.
Proof. unfold rendered. by rewrite map_app, !concat_app. Qed.
Lemma kind_ok_mk k L : (k = 32 \/ k = 45 \/ k = 43) -> Forall kind_ok (map (mk k) L).
Proof. intros Hk. induction L; cbn [map]; constructor; done. Qed.

Lemma cut_range ls a b : (a <= b <= length ls)%nat -> slice (off ls a) (off ls b) (concat ls) = Some (concat (seg ls a (b - a))).
Proof. apply slice_lines. Qed.

(** Every line of a hunk is an old or a new line. *)
Lemma lines_count pls : zlen pls <= zlen (olds pls) + zlen (news pls) \/ ~ Forall kind_ok pls.
Proof.
  induction pls as [|l pls IH]; [left; done|]. destruct (decide (kind l = 43 /\ kind l = 45)) as [[? ?]|Hd]; [lia|].
  destruct IH as [IH|IH]; [|right; intros H; apply Forall_cons in H; tauto]. left. cbn [olds news]. unfold zlen in *. rewrite !length_app.
  destruct (Z.eqb_spec (kind l) 43), (Z.eqb_spec (kind l) 45); try tauto; cbn [length]; lia.
Qed.

Section Write.
Context (A B : list bytes).
Hypothesis PA : proper A.
Hypothesis PB : proper B.
Hypothesis HA : zlen (concat A) <= usize_max.
Hypothesis HB : zlen (concat B) <= usize_max.
Abbreviation al := (aligned Merge.Exact A B).

Lemma map_exact L : map (key Merge.Exact) L = L.
Proof using. unfold key. cbn [Merge.is_exact]. apply map_id. Qed.

(** What a list of edits writes from [x] and [y] on. *)
Lemma hunk_body_spec es rest x y :
  al x y (es ++ rest) ->
  exists pls x' y', hunk_body (concat A) (concat B) (off A x) es = Ok (rendered pls, off A x') /\
    olds pls = seg A x (x' - x) /\ news pls = seg B y (y' - y) /\ Forall kind_ok pls /\
    (x <= x')%nat /\ (y <= y')%nat /\ al x' y' rest /\
    (x' = match last es with Some e => (old_lines e).2 | None => x end) /\
    (y' = match last es with Some e => (new_lines e).2 | None => y end).
Proof using PA PB.
  revert x y; induction es as [|e es IH]; intros x y HL; cbn [hunk_body app].
  - exists [], x, y. rewrite !Nat.sub_diag. unfold seg. cbn [take]. split_and!; try done; constructor.
  - pose proof HL as (HS & HF & Hx & Hy). rewrite !map_exact in HS. cbn [app script] in HS.
    apply Forall_cons in HF as [[B1 B2] HF]. rewrite B1, B2.
    destruct (old_lines e) as [a b] eqn:Eo, (new_lines e) as [c d] eqn:En. cbn [fst snd].
    destruct HS as (Hr & Ha & Hc & HS). destruct (run_segment A B _ _ _ _ Hr) as (sg & S1 & S2 & -> & ->).
    unfold index. rewrite cut_seg by lia. cbn [ok_or rbind].
    rewrite (cut_range A) by lia. cbn [ok_or rbind]. rewrite (cut_range B) by lia. cbn [ok_or rbind].
    destruct (IH b d) as (pls & x' & y' & -> & EO & EN & HK & Hbx & Hdy & HL' & Ex & Ey).
    { split_and!; [by rewrite !map_exact|done|lia|lia]. }
    cbn [rbind]. rewrite !write_lines_proper by (by apply proper_seg). rewrite <- !rendered_app.
    assert (seg A x (length sg) = sg) as E1 by (unfold seg; rewrite S1; by apply take_app_length).
    assert (seg B y (length sg) = sg) as E2 by (unfold seg; rewrite S2; by apply take_app_length).
    eexists _, x', y'. split; [reflexivity|]. rewrite !olds_app, !news_app, !olds_mk, !news_mk. cbn [Z.eqb Pos.eqb app].
    rewrite EO, EN. split_and!.
    + replace (x' - x)%nat with (length sg + ((b - (x + length sg)) + (x' - b)))%nat by lia. rewrite !seg_add.
      do 3 f_equal. lia.
    + replace (y' - y)%nat with (length sg + ((d - (y + length sg)) + (y' - d)))%nat by lia. rewrite !seg_add, E1, E2.
      do 3 f_equal. lia.
    + apply Forall_app; split; [apply kind_ok_mk; auto|]. apply Forall_app; split; [apply kind_ok_mk; auto|].
      apply Forall_app; split; [apply kind_ok_mk; auto|done].
    + lia.
    + lia.
    + done.
    + rewrite Ex. destruct es as [|e2 es]; [cbn [last]; by rewrite Eo|]. rewrite last_cons_cons.
      destruct (last (e2 :: es)) eqn:El; [done|]. by apply last_None in El.
    + rewrite Ey. destruct es as [|e2 es]; [cbn [last]; by rewrite En|]. rewrite last_cons_cons.
      destruct (last (e2 :: es)) eqn:El; [done|]. by apply last_None in El.
Qed.

(** The edits of one hunk. *)
Lemma hunk_edits_spec c last_ es :
  ordered true (length A) (old_lines last_).2 es ->
  exists more rest, hunk_edits c last_ es = Ok (more, rest) /\ es = more ++ rest /\
    match rest with
    | [] => True
    | e :: _ => ((old_lines (default last_ (last more))).2 + c + c < (old_lines e).1)%nat
    end.
Proof using HA PA.
  revert last_; induction es as [|e es IH]; intros last_; cbn [ordered side_range hunk_edits]; [by exists [], []|].
  intros (H1 & H2 & HO). rewrite (proj2 (Nat.ltb_ge _ _)) by lia.
  destruct (Z.leb_spec (Z.of_nat ((old_lines e).1 - (old_lines last_).2)) (saturating_mul (Z.of_nat c) 2)) as [Hle|Hgt].
  - destruct (IH e HO) as (more & rest & -> & -> & HR). cbn [rbind]. exists (e :: more), rest. split_and!; [done|done|].
    destruct more as [|d more]; [done|]. rewrite last_cons_cons. destruct (last (d :: more)) eqn:El; [done|]. by apply last_None in El.
  - exists [], (e :: es). split_and!; [done|done|]. cbn [last default]. unfold saturating_mul in Hgt.
    pose proof (length_concat_proper A PA). unfold zlen in HA. lia.
Qed.

Lemma length_fits L : proper L -> zlen (concat L) <= usize_max -> Z.of_nat (length L) <= usize_max.
Proof using. intros HP H. pose proof (length_concat_proper L HP). unfold zlen in H. lia. Qed.

(** One hunk, from the lines [x] and [y] after the hunk before. *)
Lemma write_hunk_spec c fn ctx (first : bool) e more rest x y :
  al x y (e :: more ++ rest) -> ctx_ok A ctx ->
  (if first then x = 0%nat /\ y = 0%nat else (x + c < (old_lines e).1)%nat) ->
  match rest with [] => True | d :: _ => ((old_lines (default e (last more))).2 + c + c < (old_lines d).1)%nat end ->
  exists w x' y' ctx', write_hunk (concat A) (concat B) c fn ctx e more = Ok (concat (w_phys w), ctx') /\
    written_ok w /\ hunk_at A B first x y (w_hunk 0 w) x' y' /\ al x' y' rest /\ ctx_ok A ctx' /\
    match rest with [] => True | d :: _ => (x' + c < (old_lines d).1)%nat end.
Proof using PA PB HA HB.
  intros HL HC Hpos Hrest. unfold write_hunk.
  pose proof (aligned_edits _ _ _ _ _ _ HL) as HE. apply Forall_cons in HE as [(E1 & E2 & E3) HE]. rewrite E3. cbn [fst snd].
  set (leading := Nat.min c (old_lines e).1). set (s := ((old_lines e).1 - leading)%nat).
  assert (x <= s)%nat as Hs by (destruct first; [destruct Hpos as [-> ->]; lia|lia]).
  assert (first = true \/ (x < s)%nat) as Hfirst by (destruct first; [by left|right; lia]).
  destruct (aligned_advance Merge.Exact A B x y (e :: more ++ rest) (s - x) HL ltac:(lia)) as [HL' HK].
  { cbn [clear_to]. lia. }
  rewrite !map_exact in HK. replace (x + (s - x))%nat with s in HL' by lia. set (t := (y + (s - x))%nat) in *.
  destruct (hunk_body_spec (e :: more) rest s t HL') as (pls & xe & ye & Ebody & EO & EN & KO & Hxe & Hye & HLe & Ex & Ey).
  assert (last (e :: more) = Some (default e (last more))) as El.
  { destruct more as [|d more]; [done|]. rewrite last_cons_cons. destruct (last (d :: more)) eqn:Q; [done|]. by apply last_None in Q. }
  rewrite El in Ex, Ey. set (lst := default e (last more)) in *.
  assert (edit_in A x lst) as (D1 & D2 & D3).
  { unfold lst. destruct (last more) as [d|] eqn:Q; cbn [default]; [|done]. rewrite Forall_forall in HE. apply HE.
    apply last_Some in Q as [l' ->]. set_solver. }
  rewrite D3. cbn [snd]. rewrite lines_before_spec by (done || lia). cbn [rbind].
  rewrite lines_after_spec by (done || lia). cbn [rbind].
  set (tr := Nat.min c (length A - (old_lines lst).2)). rewrite Nat.add_0_l. rewrite <- Ex, <- Ey.
  pose proof HLe as (_ & _ & Hxl & Hyl).
  destruct (aligned_advance Merge.Exact A B xe ye rest tr HLe ltac:(lia)) as [HLt HKt].
  { destruct rest as [|d rest]; cbn [clear_to]; [done|]. lia. }
  rewrite !map_exact in HKt. pose proof HLt as (_ & _ & Hxt & Hyt).
  assert ((new_lines e).1 = (t + leading)%nat) as Hne.
  { pose proof HL' as (HS & _). rewrite !map_exact in HS. cbn [script] in HS.
    destruct (old_lines e) as [a b] eqn:Eo, (new_lines e) as [cc d] eqn:En. destruct HS as (Hr & _). cbn [fst] in *.
    destruct (run_length _ _ _ _ _ _ Hr) as (m & Em1 & Em2). lia. }
  rewrite (proj2 (Nat.ltb_ge _ leading)) by lia. fold s. replace ((new_lines e).1 - leading)%nat with t by lia.
  rewrite (proj2 (Nat.ltb_ge _ s)), (proj2 (Nat.ltb_ge _ t)) by lia. cbn [orb].
  destruct (before_spec A PA fn s ctx HC ltac:(lia)) as (name & ctx' & -> & HC' & Hname). cbn [rbind].
  rewrite Ebody. cbn [rbind]. unfold index. rewrite cut_seg by lia. cbn [ok_or rbind].
  set (w := {| w_os := s; w_oc := xe + tr - s; w_ns := t; w_nc := ye + tr - t; w_name := name;
               w_lines := pls ++ map (mk 32) (seg A xe tr) |}).
  assert (olds (w_lines w) = seg A s (xe + tr - s)) as WO.
  { cbn [w w_lines]. rewrite olds_app, olds_mk, EO. cbn [Z.eqb Pos.eqb].
    replace (xe + tr - s)%nat with ((xe - s) + tr)%nat by lia. rewrite seg_add. do 2 f_equal. lia. }
  assert (news (w_lines w) = seg B t (ye + tr - t)) as WN.
  { cbn [w w_lines]. rewrite news_app, news_mk, EN. cbn [Z.eqb Pos.eqb]. rewrite HKt.
    replace (ye + tr - t)%nat with ((ye - t) + tr)%nat by lia. rewrite seg_add. do 2 f_equal. lia. }
  pose proof (length_fits A PA HA). pose proof (length_fits B PB HB).
  exists w, (xe + tr)%nat, (ye + tr)%nat, ctx'. split_and!.
  - do 2 f_equal. cbn [w_phys concat]. unfold w_header, header_text. cbn [w w_os w_oc w_ns w_nc w_name w_lines].
    change (concat (concat (map phys (pls ++ map (mk 32) (seg A xe tr))))) with (rendered (pls ++ map (mk 32) (seg A xe tr))).
    rewrite rendered_app, write_lines_proper by (by apply proper_seg). by rewrite <- !app_assoc.
  - unfold written_ok, range_fits. cbn [w_os w_oc w_ns w_nc w_name w]. fold w. rewrite WO, WN, !length_seg by lia.
    split_and!; [lia|lia|done|done|by apply proper_seg|by apply proper_seg| |done].
    cbn [w w_lines]. apply Forall_app. split; [done|]. apply kind_ok_mk. auto.
  - exists s, t, (xe + tr - s)%nat, (ye + tr - t)%nat. cbn [w_hunk h_lines old_start new_start].
    split_and!; try done; try lia. cbn [w w_lines]. apply Forall_app. split; [done|]. apply kind_ok_mk. auto.
  - done.
  - done.
  - destruct rest as [|d rest]; [done|]. lia.
Qed.

Lemma write_hunks_loop_spec c fn fuel ctx (first : bool) es x y :
  al x y es -> ctx_ok A ctx -> (length es <= fuel)%nat ->
  (if first then x = 0%nat /\ y = 0%nat else match es with [] => True | e :: _ => (x + c < (old_lines e).1)%nat end) ->
  exists ws, write_hunks_loop fuel (concat A) (concat B) c fn ctx es = Ok (concat (concat (map w_phys ws))) /\
    Forall written_ok ws /\ chain A B first x y (map (w_hunk 0) ws) /\ (length ws <= length es)%nat /\ (es <> [] -> ws <> []).
Proof using PA PB HA HB.
  revert ctx first es x y; induction fuel as [|fuel IH]; intros ctx first es x y HL HC Hf Hpos; destruct es as [|e es]; try (simpl in Hf; lia).
  1,2: exists []; split_and!; [done|constructor| |done|done]; destruct HL as (HS & _); rewrite !map_exact in HS; exact HS.
  cbn [write_hunks_loop]. pose proof HL as (HS & _ & Hx & Hy). rewrite !map_exact in HS.
  destruct (script_ordered A B _ _ _ HS Hx Hy) as [[_ [_ HO]] _].
  destruct (hunk_edits_spec c e es HO) as (more & rest & -> & -> & HR). cbn [rbind].
  destruct (write_hunk_spec c fn ctx first e more rest x y HL HC) as (w & x' & y' & ctx' & -> & HW & HH & HL' & HC' & HR'); [|done|].
  { by destruct first. }
  cbn [rbind]. destruct (IH ctx' false rest x' y' HL' HC') as (ws & -> & HWs & HCh & Hlen & _).
  { simpl in Hf. rewrite length_app in Hf. lia. }
  { done. }
  cbn [rbind]. exists (w :: ws). split_and!; [|by constructor| | |done].
  - cbn [map]. change (concat (w_phys w :: map w_phys ws)) with (w_phys w ++ concat (map w_phys ws)). by rewrite concat_app.
  - cbn [map chain]. by exists x', y'.
  - simpl. rewrite length_app. lia.
Qed.

(** A chain has no more lines than the two texts. *)
Lemma chain_count first x y hs :
  chain A B first x y hs -> (x <= length A)%nat -> (y <= length B)%nat ->
  count_lines hs <= Z.of_nat (length A - x) + Z.of_nat (length B - y).
Proof using.
  revert first x y; induction hs as [|h hs IH]; intros first x y; cbn [chain]; [intros _ _ _; change (count_lines []) with 0; lia|].
  intros (x' & y' & (s & t & n & m & Hs & Et & _ & _ & _ & _ & EO & HnA & EN & HmB & -> & -> & HK) & HC) Hx Hy.
  specialize (IH _ _ _ HC ltac:(lia) ltac:(lia)). unfold count_lines in *. cbn [map concat]. rewrite zlen_app.
  destruct (lines_count (h_lines h)) as [H|H]; [|done]. rewrite EO, EN in H. unfold zlen in *. rewrite !length_seg in H by lia. lia.
Qed.
End Write.

Lemma chain_same A B first x y ws hs :
  Forall2 same_hunk ws hs -> chain A B first x y (map (w_hunk 0) ws) -> chain A B first x y hs.
Proof.
  intros HF. revert first x y; induction HF as [|w h ws hs (E1 & E2 & E3) _ IH]; intros first x y; cbn [map chain]; [done|].
  intros (x' & y' & (s & t & n & m & H) & HC). exists x', y'. split; [|by apply IH]. exists s, t, n, m.
  rewrite E1, E2, E3. exact H.
Qed.

Lemma terminated_proper ls : Forall (fun l => exists x, l = x ++ [10] /\ 10 ∉ x) ls -> proper ls.
Proof. induction 1 as [|l ls (x & -> & H10) _ IH]; by constructor. Qed.

Lemma phys_terminated l : kind_ok l -> p_bytes l <> [] -> (10 ∉ p_bytes l \/ exists x, p_bytes l = x ++ [10] /\ 10 ∉ x) ->
  Forall (fun l => exists x, l = x ++ [10] /\ 10 ∉ x) (phys l).
Proof.
  intros Hk Hne Hl. assert (kind l <> 10) as H10 by (destruct Hk as [->|[->| ->]]; done). unfold phys.
  destruct Hl as [Hl|(x & Ex & Hx)].
  - rewrite ends_not by done. repeat constructor; [exists (kind l :: p_bytes l); split; [done|set_solver]|].
    exists newline_marker. split; [done|]. unfold newline_marker. apply (bool_decide_unpack _). vm_compute. done.
  - rewrite Ex, ends_newline. repeat constructor. exists (kind l :: x). split; [done|set_solver].
Qed.

(** ** The whole patch *)

(** A [---] or [+++] line, as [Renderer::file] writes it. *)
Definition name_line (marker name : bytes) : bytes :=
  marker ++ quote_path name ++ (if contains 32 (quote_path name) then [9] else []) ++ [10].
Definition patch_text (old_name new_name hunks_text : bytes) : bytes :=
  name_line (bstr "--- ") old_name ++ name_line (bstr "+++ ") new_name ++ hunks_text.
Definition name_ok (name : bytes) : Prop := bytes_ok name /\ name <> [] /\ 0 ∉ name /\ name <> bstr "/dev/null".

Lemma name_line_terminated marker name : bytes_ok name -> 10 ∉ marker -> exists x, name_line marker name = x ++ [10] /\ 10 ∉ x.
Proof.
  intros HB HM. exists (marker ++ quote_path name ++ (if contains 32 (quote_path name) then [9] else [])).
  unfold name_line. rewrite <- !app_assoc. split; [done|]. pose proof (quote_path_line name HB).
  rewrite !elem_of_app. intros [?|[?|H']]; [done|done|]. destruct (contains _ _); set_solver.
Qed.

Lemma name_line_path marker name line :
  length marker = 4%nat -> name_ok name -> path (drop 4 (name_line marker name)) line = Ok (Some name).
Proof.
  intros Hm (HB & Hne & H0 & Hd). unfold name_line. rewrite drop_app_length' by done. apply path_read; try done.
  destruct (contains _ _); auto.
Qed.

Lemma written_terminated w : written_ok w -> Forall (fun l => exists x, l = x ++ [10] /\ 10 ∉ x) (w_phys w).
Proof.
  intros (F1 & F2 & _ & _ & P1 & P2 & HK & HN). unfold w_phys. constructor.
  - unfold w_header, header_text. eexists. rewrite !app_assoc. split; [reflexivity|]. rewrite !elem_of_app.
    pose proof (range_free _ _ 10 F1 ltac:(done) ltac:(done)). pose proof (range_free _ _ 10 F2 ltac:(done) ltac:(done)).
    intros [[[[[H'|?]|H']|?]|H']|H']; try done; try (vm_compute in H'; set_solver).
    destruct (w_name w) as [n|]; [|set_solver]. apply elem_of_cons in H' as [?|H']; [done|]. by apply (HN n).
  - clear F1 F2 HN. induction HK as [|l pls Hk HK IH]; [constructor|]. cbn [olds news map concat] in *.
    apply Forall_app. split.
    + assert (exists ls, proper (p_bytes l :: ls)) as [ls HP].
      { destruct (kind l =? 43) eqn:E1; [|by eexists]. destruct (kind l =? 45) eqn:E2; [|by eexists]. zbool. }
      pose proof (proper_cases _ _ HP) as (Hne & _). apply proper_head in HP as [(x & Ex & H10 & _)|(_ & H10 & _)];
        apply phys_terminated; eauto.
    + apply IH.
      * destruct (kind l =? 43); [done|]. apply proper_cases in P1; tauto.
      * destruct (kind l =? 45); [done|]. apply proper_cases in P2; tauto.
Qed.

Lemma text_file_read old_name new_name ws lim total p :
  name_ok old_name -> name_ok new_name -> Forall written_ok ws -> ws <> [] -> total + zlen ws <= l_hunks lim ->
  total_lines ws <= remaining_lines p ->
  p_lines p = name_line (bstr "--- ") old_name :: name_line (bstr "+++ ") new_name :: concat (map w_phys ws) ->
  exists hs p', text_file lim total p = (Ok (Some old_name, Some new_name, hs, total + zlen ws), p') /\
    Forall2 same_hunk ws hs /\ p_lines p' = [].
Proof.
  intros HO HN HW Hne HT HR HP. unfold text_file.
  rewrite se_bind_run. unfold next at 1. rewrite HP. rewrite se_bind_run. unfold at_line at 1. rewrite se_bind_run. unfold se_lift at 1.
  cbn [ok_or p_line]. rewrite se_bind_run. unfold se_lift at 1. rewrite name_line_path by done.
  rewrite se_bind_run. unfold next at 1. cbn [p_lines]. rewrite se_bind_run. unfold at_line at 1. cbn [p_line].
  assert (starts_with (bstr "+++ ") (name_line (bstr "+++ ") new_name) = true) as -> by reflexivity. cbn [negb].
  rewrite se_bind_run. unfold se_lift at 1. rewrite name_line_path by done.
  rewrite se_bind_run. unfold lines_left at 1. cbn [p_lines].
  rewrite se_bind_run. match goal with |- context [hunks_loop ?f lim total [] ?q] =>
    destruct (hunks_loop_read f lim ws total [] q) as (hs & p' & -> & HF & HE) end; try done.
  { clear. induction ws as [|w ws IH]; [simpl; lia|]. cbn [map concat length]. rewrite length_app. unfold w_phys at 1. cbn [length]. lia. }
  cbn [app]. rewrite se_bind_run. unfold peek at 1. rewrite HE. cbn [head]. rewrite se_bind_run. unfold at_line at 1.
  rewrite se_bind_run. unfold se_ret at 1. exists hs, p'. split_and!; try done.
  destruct HF; [done|]. done.
Qed.

(** Reading the patch of one file. *)
Lemma parse_patch zlib old_name new_name ws lim :
  name_ok old_name -> name_ok new_name -> Forall written_ok ws -> ws <> [] -> 1 <= l_files lim -> zlen ws <= l_hunks lim ->
  total_lines ws <= l_lines lim -> zlen (patch_text old_name new_name (concat (concat (map w_phys ws)))) <= l_input_bytes lim ->
  exists f, parse zlib (patch_text old_name new_name (concat (concat (map w_phys ws)))) lim = Ok [f] /\
    old_path f = Some old_name /\ new_path f = Some new_name /\ binary f = None /\ Forall2 same_hunk ws (hunks f).
Proof.
  intros HO HN HW Hne Hfiles Hhunks Hlines Hinput. unfold parse, parse_mode. rewrite (proj2 (Z.ltb_ge _ _)) by done.
  assert (split_inclusive 10 (patch_text old_name new_name (concat (concat (map w_phys ws)))) =
    name_line (bstr "--- ") old_name :: name_line (bstr "+++ ") new_name :: concat (map w_phys ws)) as ->.
  { apply (proper_split (name_line (bstr "--- ") old_name :: name_line (bstr "+++ ") new_name :: concat (map w_phys ws))).
    apply terminated_proper. constructor; [apply name_line_terminated; [apply HO|vm_compute; set_solver]|].
    constructor; [apply name_line_terminated; [apply HN|vm_compute; set_solver]|].
    clear -HW. induction HW as [|w ws Hw _ IH]; [constructor|]. cbn [map concat]. apply Forall_app. split; [by apply written_terminated|done]. }
  set (p0 := {| p_lines := _; p_line := _; remaining_lines := _; remaining_binary := _; mail := _ |}).
  set (l1 := name_line (bstr "--- ") old_name) in *. cbn [files_loop length]. rewrite se_bind_run. unfold peek at 1. cbn [p0 p_lines head].
  rewrite se_bind_run. unfold se_get at 1. cbn [p0 mail p_line andb negb]. rewrite se_bind_run. unfold se_lift at 1.
  assert (refuse l1 1 = Ok tt) as -> by reflexivity. rewrite (proj2 (Z.leb_gt _ _)) by (unfold zlen; simpl; lia).
  assert (starts_with (bstr "diff --git ") l1 = false) as -> by reflexivity.
  assert (starts_with (bstr "--- ") l1 = true) as -> by reflexivity.
  rewrite se_bind_run.
  destruct (text_file_read old_name new_name ws lim 0 p0) as (hs & p' & -> & HF & HE); try done.
  cbn [files_loop]. rewrite se_bind_run. unfold peek at 1. rewrite HE. cbn [head app]. unfold se_ret at 1. cbn [fst rbind].
  eexists. split; [reflexivity|]. done.
Qed.

(** ** Reversal

    A reversed hunk is valid from the new text to the old one. *)
Lemma reverse_lines pls : Forall kind_ok pls ->
  olds (map (fun l => {| kind := flip (kind l); p_bytes := p_bytes l |}) pls) = news pls /\
  news (map (fun l => {| kind := flip (kind l); p_bytes := p_bytes l |}) pls) = olds pls /\
  Forall kind_ok (map (fun l => {| kind := flip (kind l); p_bytes := p_bytes l |}) pls).
Proof.
  induction 1 as [|l pls Hk _ (IH1 & IH2 & IH3)]; [done|]. cbn [map olds news kind p_bytes]. rewrite IH1, IH2.
  unfold kind_ok in *. destruct Hk as [-> |[-> | ->]]; (split_and!; [done..|]); constructor; cbn; auto.
Qed.

Lemma reverse_chain A B first x y hs : chain A B first x y hs -> chain B A first y x (map reverse_hunk hs).
Proof.
  revert first x y; induction hs as [|h hs IH]; intros first x y; cbn [chain map]; [done|].
  intros (x' & y' & (s & t & n & m & H1 & H2 & H3 & H4 & H5 & H6 & H7 & H8 & H9 & H10 & -> & -> & HK) & HC).
  destruct (reverse_lines _ HK) as (E1 & E2 & HK').
  exists (t + m)%nat, (s + n)%nat. split; [|by apply IH].
  exists t, s, m, n. cbn [reverse_hunk old_start new_start h_lines]. rewrite E1, E2.
  assert ((t - y)%nat = (s - x)%nat) as -> by lia. split_and!; try done; [lia|lia|].
  destruct H4; [by left|right; lia].
Qed.

Lemma reverse_count hs : count_lines (map reverse_hunk hs) = count_lines hs.
Proof.
  unfold count_lines. induction hs as [|h hs IH]; [done|]. cbn [map concat]. rewrite !zlen_app, IH. cbn [reverse_hunk h_lines].
  unfold zlen at 1. by rewrite length_map.
Qed.

Definition admits (lim : Limits) (old new patch : bytes) (edits : nat) : Prop :=
  1 <= l_files lim /\ Z.of_nat edits <= l_hunks lim /\
  zlen (split_inclusive 10 old) + zlen (split_inclusive 10 new) <= l_lines lim /\
  zlen old <= l_input_bytes lim /\ zlen patch <= l_input_bytes lim /\ zlen new <= l_output_bytes lim.

(** C7: A comparison survives being written as a patch: for every text comparison, any
    number of context lines, any rule for function names and any two path names (not
    empty, without a zero byte, other than /dev/null, which means no file), the hunks
    are written without panicking, the patch made of the two name lines and the
    hunks parses to one file edit with exactly those names, and applying that edit to
    the old text returns the new text byte for byte, missing final newlines and quoted
    names included, whenever the limits of the reader admit the sizes.  The reversed
    patch, applied to the new text, gives the old text back. *)
Theorem patch_roundtrip cancel old new options limits es context_lines function zlib hash_blob old_name new_name :
  Diff.diff_with_options cancel old new options limits = Ok (Diff.TextDiff es) -> name_ok old_name -> name_ok new_name ->
  exists text, write_hunks_with old new es context_lines function = Ok text /\
    forall lim, admits lim old new (patch_text old_name new_name text) (length es) ->
    exists f results, parse zlib (patch_text old_name new_name text) lim = Ok [f] /\
      old_path f = Some old_name /\ new_path f = Some new_name /\
      apply_with hash_blob f old lim = Ok {| content := new; results := results |} /\
      (zlen new <= l_input_bytes lim -> zlen old <= l_output_bytes lim ->
       exists back results', reversed [f] = Ok [back] /\
         apply_with hash_blob back new lim = Ok {| content := old; results := results' |}).
Proof.
  intros HD HO HN. pose proof (ok_diff_body cancel old new options limits {| Diff.remaining := Diff.max_work limits; Diff.loads := 0 |}) as H.
  unfold Diff.diff_with_options in HD. rewrite HD in H. destruct H as (Hmax & Hne & _ & HS & HF & _).
  set (A := split_inclusive 10 old) in *. set (B := split_inclusive 10 new) in *.
  assert (concat A = old) as EA by apply split_inclusive_concat. assert (concat B = new) as EB by apply split_inclusive_concat.
  pose proof (split_proper old : proper A) as PA. pose proof (split_proper new : proper B) as PB.
  pose proof (zlen_nonneg old). pose proof (zlen_nonneg new).
  destruct (write_hunks_loop_spec A B PA PB ltac:(rewrite EA; lia) ltac:(rewrite EB; lia) context_lines function (length es)
    {| searched := 0; found := None |} true es 0 0) as (ws & EW & HW & HC & Hlen & Hnil); try done.
  { split_and!; [by rewrite !map_exact|done|lia|lia]. }
  rewrite EA, EB in EW. eexists. split; [exact EW|]. intros lim (L1 & L2 & L3 & L4 & L5 & L6).
  assert (total_lines ws = count_lines (map (w_hunk 0) ws)) as ET by (unfold total_lines, count_lines; by rewrite map_map).
  pose proof (chain_count A B true 0 0 _ HC ltac:(lia) ltac:(lia)) as HCount. rewrite !Nat.sub_0_r in HCount.
  unfold zlen in L3. fold A B in L3.
  destruct (parse_patch zlib old_name new_name ws lim) as (f & EP & E1 & E2 & E3 & HS2); try done.
  { apply Hnil. intros ->. apply Hne. cbn [script] in HS. rewrite !drop_0 in HS. by rewrite <- EA, HS, EB. }
  { unfold zlen. lia. }
  { lia. }
  pose proof (chain_same A B true 0 0 ws (hunks f) HS2 HC) as HC2.
  pose proof (chain_count A B true 0 0 _ HC2 ltac:(lia) ltac:(lia)) as HCount2. rewrite !Nat.sub_0_r in HCount2.
  destruct (text_apply_valid A B PA PB f lim) as (rs & ER); try done.
  { by rewrite E1. } { by rewrite E2. } { by rewrite EA. }
  { apply Forall2_length in HS2. unfold zlen. lia. } { lia. } { by rewrite EB. }
  exists f, rs. split_and!; try done; [unfold apply_with; rewrite E3; by rewrite <- EA, <- EB|].
  intros L7 L8. unfold reversed, reverse_file. rewrite E3. cbn [rbind].
  match goal with |- context [Ok [?b] = _] => destruct (text_apply_valid B A PB PA b lim) as (rs' & ER');
    cbn [hunks old_path new_path]; [by apply reverse_chain|by rewrite E2|by rewrite E1|by rewrite EB| | |by rewrite EA|exists b, rs'] end.
  { unfold zlen. rewrite length_map. apply Forall2_length in HS2. lia. }
  { rewrite reverse_count. lia. }
  split; [done|]. unfold apply_with. cbn [binary]. by rewrite <- EA, <- EB.
Qed.

Lemma patch_roundtrip_witness :
  exists text, write_hunks_with (bstr "old") (bstr "new") [{| Diff.old_lines := (0, 1)%nat; Diff.new_lines := (0, 1)%nat; Diff.old_bytes := (0, 3); Diff.new_bytes := (0, 3) |}] 3 DefaultRule = Ok text /\
    forall lim, admits lim (bstr "old") (bstr "new") (patch_text (bstr "a/f") (bstr "b/f") text) 1 ->
    exists f results, parse (fun _ => ZS [] ZInvalid) (patch_text (bstr "a/f") (bstr "b/f") text) lim = Ok [f] /\
      old_path f = Some (bstr "a/f") /\ new_path f = Some (bstr "b/f") /\
      apply_with (fun _ _ => Sha1 []) f (bstr "old") lim = Ok {| content := bstr "new"; results := results |} /\
      (zlen (bstr "new") <= l_input_bytes lim -> zlen (bstr "old") <= l_output_bytes lim ->
       exists back results', reversed [f] = Ok [back] /\
         apply_with (fun _ _ => Sha1 []) back (bstr "new") lim = Ok {| content := bstr "old"; results := results' |}).
Proof.
  apply (patch_roundtrip (fun _ => false) (bstr "old") (bstr "new") Diff.default_options Diff.default_limits
    [{| Diff.old_lines := (0, 1)%nat; Diff.new_lines := (0, 1)%nat; Diff.old_bytes := (0, 3); Diff.new_bytes := (0, 3) |}]).
  - vm_compute. reflexivity.
  - unfold name_ok. split_and!; [repeat constructor; vm_compute; intuition discriminate|done|vm_compute; set_solver|done].
  - unfold name_ok. split_and!; [repeat constructor; vm_compute; intuition discriminate|done|vm_compute; set_solver|done].
Defined.

(** Only the lines a hunk lists set the end-of-output flag: lines copied before the
    hunk do not.  A hunk without context that inserts after an unterminated last line
    is therefore accepted and joins the two lines, and the reversed patch no longer
    applies to that postimage. *)
Definition joining_patch : bytes :=
  bstr "--- a/f" ++ [10] ++ bstr "+++ b/f" ++ [10] ++ bstr "@@ -1,0 +2 @@" ++ [10] ++ bstr "+b" ++ [10].
Lemma insertion_joins_unterminated_line zlib hash_blob :
  exists f back results, parse zlib joining_patch default_limits = Ok [f] /\
    apply_with hash_blob f (bstr "a") default_limits = Ok {| content := bstr "ab" ++ [10]; results := results |} /\
    reversed [f] = Ok [back] /\ apply_with hash_blob back (bstr "ab" ++ [10]) default_limits = Err (Mismatch 3).
Proof.
  eexists _, _, _. split; [vm_compute; reflexivity|]. split; [vm_compute; reflexivity|]. split; [vm_compute; reflexivity|].
  vm_compute. reflexivity.
Qed.
End PatchRoundtrip.
