(* ===== verification/PatchBinary.v ===== *)
(** * Binary lines

    The base-85 lines of a binary block are read back. *)

From stdpp Require Import base list numbers strings sets.
From Stdlib Require Import ZArith Lia.
From S2P Require Import Prelude Lines Objects MergeProofs PatchWrite PatchParse PatchProofs.

Module PatchBinary.
Import Lines Objects MergeProofs PatchWrite PatchParse PatchProofs.

(** ** Base 85 *)

Lemma alphabet_read i : 0 <= i < 85 -> exists c, zget i ALPHABET = Some c /\ position (fun d => d =? c) ALPHABET = Some (Z.to_nat i).
Proof.
  intros Hi. assert (forallb (fun k => match zget (Z.of_nat k) ALPHABET with
      | Some c => bool_decide (position (fun d => d =? c) ALPHABET = Some k) | None => false end) (seq 0 85) = true) as H by (vm_compute; reflexivity).
  rewrite List.forallb_forall in H. specialize (H (Z.to_nat i)). rewrite Z2Nat.id in H by lia.
  destruct (zget i ALPHABET) as [c|]; [|exfalso; specialize (H ltac:(apply in_seq; lia)); done].
  exists c. split; [done|]. specialize (H ltac:(apply in_seq; lia)). by apply bool_decide_eq_true in H.
Qed.

(** The value of digits, most significant first. *)
Fixpoint digit_list (n : nat) (word : Z) : list Z :=
  match n with O => [] | S n => digit_list n (word / 85) ++ [word mod 85] end.

Lemma digits85_spec n word tail : 0 <= word ->
  exists g, digits85 n word tail = Ok (g ++ tail) /\ length g = n /\
    Forall2 (fun c d => 0 <= d < 85 /\ position (fun x => x =? c) ALPHABET = Some (Z.to_nat d)) g (digit_list n word).
Proof.
  revert word tail; induction n as [|n IH]; intros word tail Hw; cbn [digits85 digit_list].
  - exists []. split_and!; [done|done|constructor].
  - assert (0 <= word mod 85 < 85) as Hm by (apply Z.mod_pos_bound; lia).
    destruct (alphabet_read _ Hm) as (c & E1 & E2). unfold index. rewrite E1. cbn [ok_or rbind].
    destruct (IH (word / 85) (c :: tail)) as (g & -> & Hl & HF); [apply Z.div_pos; lia|].
    exists (g ++ [c]). rewrite <- app_assoc. split_and!; [done|rewrite length_app; simpl; lia|].
    apply Forall2_app; [done|]. constructor; [done|constructor].
Qed.

Definition digits_word (acc : Z) (ds : list Z) : Z := foldl (fun w d => w * 85 + d) acc ds.

Lemma digits_word_list n word : 0 <= word < 85 ^ Z.of_nat n -> digits_word 0 (digit_list n word) = word.
Proof.
  revert word; induction n as [|n IH]; intros word Hw; cbn [digit_list].
  - change (85 ^ Z.of_nat 0) with 1 in Hw. unfold digits_word. cbn. lia.
  - unfold digits_word in *. rewrite foldl_app. rewrite IH.
    + cbn [foldl]. Z.div_mod_to_equations. lia.
    + rewrite Nat2Z.inj_succ, Z.pow_succ_r in Hw by lia. Z.div_mod_to_equations. lia.
Qed.

Lemma digits_word_ge ds acc : Forall (fun d => 0 <= d < 85) ds -> 0 <= acc -> acc <= digits_word acc ds.
Proof.
  intros HF. revert acc; induction HF as [|d ds Hd _ IH]; intros acc Ha; unfold digits_word in *; cbn [foldl]; [lia|].
  specialize (IH (acc * 85 + d)). lia.
Qed.

Lemma group_word_read at_ g ds acc :
  Forall2 (fun c d => 0 <= d < 85 /\ position (fun x => x =? c) ALPHABET = Some (Z.to_nat d)) g ds -> 0 <= acc ->
  digits_word acc ds <= u32_max -> group_word at_ acc g = Ok (digits_word acc ds).
Proof.
  intros HF. revert acc; induction HF as [|c d g ds [Hd Hp] HF IH]; intros acc Ha Hm; [done|]. cbn [group_word]. rewrite Hp.
  assert (Forall (fun d => 0 <= d < 85) ds) as HD by (clear -HF; induction HF as [|c d g ds [] _ IH]; by constructor).
  assert (digits_word acc (d :: ds) = digits_word (acc * 85 + d) ds) as E by done. rewrite E in *.
  pose proof (digits_word_ge ds (acc * 85 + d) HD ltac:(lia)). unfold u32_mul_add. rewrite Z2Nat.id by lia.
  rewrite (proj2 (Z.leb_le _ _)), (proj2 (Z.leb_le _ _)) by lia. cbn [andb]. apply IH; [lia|done].
Qed.

(** One group of four bytes, the last one padded. *)
Lemma group_read at_ c :
  bytes_ok c -> (0 < length c <= 4)%nat ->
  exists g, digits85 5 (be_decode (c ++ replicate (4 - length c) 0)) [] = Ok g /\ length g = 5%nat /\
    group_word at_ 0 g = Ok (be_decode (c ++ replicate (4 - length c) 0)) /\
    take (length c) (be_encode 4 (be_decode (c ++ replicate (4 - length c) 0))) = c.
Proof.
  intros HB Hl. set (p := c ++ replicate (4 - length c) 0).
  assert (length p = 4%nat) as Hp by (subst p; rewrite length_app, length_replicate; lia).
  assert (bytes_ok p) as HBp.
  { subst p. apply Forall_app. split; [done|]. apply Forall_replicate. unfold byte_ok. lia. }
  pose proof (be_decode_bound p HBp) as Hb. unfold zlen in Hb. rewrite Hp in Hb. change (256 ^ Z.of_nat 4) with 4294967296 in Hb.
  destruct (digits85_spec 5 (be_decode p) [] ltac:(lia)) as (g & E1 & E2 & E3). rewrite app_nil_r in E1.
  exists g. split_and!; [done|done| |].
  - assert (digits_word 0 (digit_list 5 (be_decode p)) = be_decode p) as E by (apply digits_word_list; change (85 ^ Z.of_nat 5) with 4437053125; lia).
    rewrite (group_word_read _ _ _ _ E3); rewrite ?E; [done|lia|unfold u32_max; lia].
  - rewrite <- Hp, be_encode_decode by done. subst p. by apply take_app_length.
Qed.

Lemma groups_read at_ cs remaining out :
  Forall (fun c => bytes_ok c /\ (0 < length c <= 4)%nat) cs ->
  (forall pre c post, cs = pre ++ c :: post -> post <> [] -> length c = 4%nat) ->
  remaining = zlen (concat cs) ->
  exists gs, line_groups cs = Ok (concat gs) /\ Forall (fun g => length g = 5%nat) gs /\ length gs = length cs /\
    decode_groups at_ remaining gs out = Ok (out ++ concat cs).
Proof.
  intros HF. revert remaining out; induction HF as [|c cs [HB Hl] HF IH]; intros remaining out H4 ->; cbn [line_groups].
  - exists []. cbn [decode_groups concat]. rewrite app_nil_r. split_and!; try done; constructor.
  - destruct (group_read at_ c HB Hl) as (g & E1 & E2 & E3 & E4). rewrite E1. cbn [rbind].
    assert (Z.min (zlen (concat (c :: cs))) 4 = zlen c) as Emin.
    { cbn [concat]. rewrite zlen_app. destruct cs as [|d cs].
      - cbn [concat]. change (zlen (@nil Z)) with 0. unfold zlen. lia.
      - assert (length c = 4%nat) as H by (apply (H4 [] c (d :: cs)); done). pose proof (zlen_nonneg (concat (d :: cs))). unfold zlen in *. lia. }
    destruct (IH (zlen (concat cs)) (out ++ c)) as (gs & E5 & F5 & L5 & E6); [|done|].
    { intros pre d post -> Hp. apply (H4 (c :: pre) d post); done. }
    rewrite E5. cbn [rbind]. exists (g :: gs). cbn [concat decode_groups]. split_and!; [done|by constructor|simpl; lia|].
    rewrite E3. cbn [rbind]. cbn [concat] in Emin. rewrite Emin.
    assert (Z.to_nat (zlen c) = length c) as -> by (unfold zlen; lia). rewrite E4, zlen_app. replace (zlen c + zlen (concat cs) - zlen c) with (zlen (concat cs)) by lia. rewrite E6. by rewrite <- app_assoc.
Qed.

Lemma chunks_from_groups (gs : list bytes) n fuel :
  (0 < n)%nat -> Forall (fun g => length g = n) gs -> (length (concat gs) <= fuel)%nat -> chunks_from fuel n (concat gs) = gs.
Proof.
  intros Hn HF. revert fuel; induction HF as [|g gs Hg HF IH]; intros fuel Hf; [by destruct fuel|].
  cbn [concat] in *. rewrite length_app in Hf. destruct fuel as [|fuel]; [lia|]. cbn [chunks_from].
  destruct (g ++ concat gs) as [|x l] eqn:E; [destruct g; simpl in *; [lia|done]|]. rewrite <- E.
  rewrite take_app_length', drop_app_length' by done. rewrite IH by lia. done.
Qed.

Lemma as_chunks5_groups gs : Forall (fun g => length g = 5%nat) gs -> as_chunks5 (concat gs) = gs.
Proof.
  intros HF. unfold as_chunks5, chunks. rewrite chunks_from_groups by (done || lia).
  induction HF as [|g gs Hg _ IH]; [done|]. rewrite filter_cons_True by done. by rewrite IH.
Qed.

Lemma chunks_shape {T} fuel n (l : list T) :
  (0 < n)%nat -> (length l <= fuel)%nat ->
  (forall pre c post, chunks_from fuel n l = pre ++ c :: post -> post <> [] -> length c = n) /\
  length (chunks_from fuel n l) = ((length l + (n - 1)) / n)%nat.
Proof.
  intros Hn. revert l; induction fuel as [|fuel IH]; intros l Hl.
  - destruct l; [|simpl in Hl; lia]. split; [by intros []|]. cbn [chunks_from length]. symmetry. apply Nat.div_small. lia.
  - destruct l as [|x l].
    + split; [by intros []|]. cbn [chunks_from length]. symmetry. apply Nat.div_small. lia.
    + set (m := x :: l) in *. assert (0 < length m)%nat as Hm by (simpl; lia). clearbody m.
      assert (chunks_from (S fuel) n m = take n m :: chunks_from fuel n (drop n m)) as -> by (destruct m; [simpl in Hm; lia|done]).
      destruct (IH (drop n m)) as [H1 H2]; [rewrite length_drop; lia|]. rewrite length_drop in H2. split.
      * intros [|p pre] c post E Hp; injection E as E1 E2; [|by eapply H1]. subst c.
        rewrite length_take. destruct (le_lt_dec n (length m)); [lia|]. rewrite drop_ge in E2 by lia. destruct fuel; simpl in E2; by subst post.
      * cbn [length]. rewrite H2. destruct (le_lt_dec n (length m)).
        -- replace (length m + (n - 1))%nat with (length m - n + (n - 1) + 1 * n)%nat by lia. rewrite Nat.div_add by lia. lia.
        -- replace (length m - n)%nat with 0%nat by lia. rewrite Nat.div_small by lia.
           replace (length m + (n - 1))%nat with ((length m - 1) + 1 * n)%nat by lia. rewrite Nat.div_add by lia. rewrite Nat.div_small by lia. lia.
Qed.

Lemma Forall_pieces {T} (P : T -> Prop) ls : Forall P (concat ls) -> Forall (Forall P) ls.
Proof. induction ls as [|l ls IH]; cbn [concat]; [constructor|]. intros [H1 H2]%Forall_app. constructor; auto. Qed.

(** The base-85 text of binary patch blocks round-trips: every line the writer makes
    of 1 to 52 bytes decodes, without its newline, to exactly those bytes, appended to
    what was decoded before; in particular the length prefix, the padding of the last
    group and the 32-bit overflow check agree between writer and reader. *)
Theorem binary_line_roundtrip bs at_ out :
  bytes_ok bs -> (0 < length bs <= 52)%nat ->
  exists line, binary_line bs = Ok (line ++ [10]) /\ decode_line line at_ out = Ok (out ++ bs).
Proof.
  intros HB Hl. unfold binary_line.
  assert (concat (chunks 4 bs) = bs) as EC by (apply chunks_concat; lia).
  destruct (chunks_shape (length bs) 4 bs ltac:(lia) ltac:(lia)) as [H4 HN]. fold (chunks 4 bs) in H4, HN.
  destruct (groups_read at_ (chunks 4 bs) (zlen bs) out) as (gs & E1 & HF & HL & E2); [|exact H4|by rewrite EC|].
  { pose proof (chunks_from_Forall (length bs) 4 bs ltac:(lia)) as H. fold (chunks 4 bs) in H.
    rewrite <- EC in HB. apply Forall_pieces in HB. rewrite Forall_forall in H, HB |- *. intros c Hc.
    destruct (H c Hc) as [Hne Hle]. split; [by apply HB|]. destruct c; [done|simpl in *; lia]. }
  rewrite E1. cbn [rbind]. rewrite EC in E2.
  assert (zlen (concat gs) = (zlen bs + 3) / 4 * 5) as EL.
  { assert (length (concat gs) = (5 * length gs)%nat) as Hc by (clear -HF; induction HF; cbn [concat length]; rewrite ?length_app; lia).
    unfold zlen. rewrite Hc, HL, HN. change (4 - 1)%nat with 3%nat. rewrite Nat2Z.inj_mul, Nat2Z.inj_div, Nat2Z.inj_add. lia. }
  assert (0 < zlen bs <= 52) as Hz by (unfold zlen; lia).
  assert (exists prefix, (if zlen bs <=? 26 then Ok (65 + zlen bs - 1)
      else if 97 + zlen bs mod 256 <=? 255 then Ok (97 + zlen bs mod 256 - 27) else Err WPanic) = Ok prefix /\
      (if is_upper prefix then Ok (prefix - 65 + 1) else if is_lower prefix then Ok (prefix - 97 + 27)
       else malformed at_ "invalid binary line length") = Ok (E := PatchError) (zlen bs)) as (prefix & -> & EP).
  { rewrite Z.mod_small by lia. unfold is_upper, is_lower. destruct (Z.leb_spec (zlen bs) 26).
    - eexists. split; [reflexivity|]. rewrite (proj2 (Z.leb_le 65 _)), (proj2 (Z.leb_le _ 90)) by lia. cbn [andb]. f_equal. lia.
    - rewrite (proj2 (Z.leb_le _ 255)) by lia. eexists. split; [reflexivity|].
      rewrite (proj2 (Z.leb_le 65 _)), (proj2 (Z.leb_gt _ 90)) by lia. cbn [andb].
      rewrite (proj2 (Z.leb_le 97 _)), (proj2 (Z.leb_le _ 122)) by lia. cbn [andb]. f_equal. lia. }
  cbn [rbind]. exists (prefix :: concat gs). split; [done|]. unfold decode_line. rewrite EP. cbn [rbind]. rewrite skipn_cons, drop_0.
  rewrite EL, Z.eqb_refl. cbn [negb]. by rewrite as_chunks5_groups.
Qed.

Lemma binary_line_roundtrip_witness :
  exists line, binary_line (bstr "hello") = Ok (line ++ [10]) /\ decode_line line 7 [1; 2] = Ok ([1; 2] ++ bstr "hello").
Proof.
  apply binary_line_roundtrip; [|simpl; lia]. repeat constructor; vm_compute; intuition discriminate.
Defined.
End PatchBinary.
