(* ===== verification/History.v ===== *)
(** * Ancestry queries ([src/src/history.rs], [src/src/history/range.rs])

    Walks, ancestry tests, merge bases and ranges over the commits of a repository.
    Parents come from an attached commit graph where it has the commit, and from the
    object store otherwise.  The object store is a parameter; the commit graph is an
    interface of operations and laws ([CommitIndex]), discharged in [CommitGraph.v]. *)

From stdpp Require Import base list numbers strings sets gmap sorting relations.
From Stdlib Require Import ZArith Lia.
From S2P Require Import Prelude Objects Identity Commits.

#[global] Instance ObjectId_countable : Countable Objects.ObjectId.
Proof.
  refine (inj_countable' (fun id => match id with Objects.Sha1 b => inl b | Objects.Sha256 b => inr b end)
    (fun s => match s with inl b => Objects.Sha1 b | inr b => Objects.Sha256 b end) _).
  by intros [].
Defined.

(** ** Loops with binary fuel

    [iter_until n step s] runs [step] at most [n] times and stops at the first result;
    [n] is binary, so that a limit of the size of a machine integer is a usable bound. *)
Section Iter.
Context {S R : Type} (step : S -> S + R).
Fixpoint iter_until (n : positive) (s : S) : S + R :=
  match n with
  | xH => step s
  | xO n => match iter_until n s with inl s => iter_until n s | inr r => inr r end
  | xI n =>
      match step s with
      | inl s => match iter_until n s with inl s => iter_until n s | inr r => inr r end
      | inr r => inr r
      end
  end.
Fixpoint iter_nat (n : nat) (s : S) : S + R :=
  match n with
  | O => inl s
  | Datatypes.S n => match step s with inl s => iter_nat n s | inr r => inr r end
  end.
End Iter.

Module History.
Import Objects Commits.

(** ** The commit graph as history queries see it *)

(** [GraphCommit]. *)
Record GraphCommit := {
  gc_id : ObjectId; gc_tree : ObjectId; gc_parents : list ObjectId; gc_commit_time : Z; gc_generation : Z;
  gc_corrected_commit_date : option Z
}.

(** The operations of [CommitGraph] that queries use; [None] is a panic for [id_at],
    [generation_at] and [parent_positions]. *)
Class CommitIndex (G : Type) := {
  g_get : G -> ObjectId -> option GraphCommit;
  g_generation : G -> ObjectId -> option Z;
  g_position : G -> ObjectId -> option Z;
  g_positions : G -> Z;
  g_id_at : G -> Z -> option ObjectId;
  g_generation_at : G -> Z -> option Z;
  g_parent_positions : G -> Z -> option (list Z)
}.

(** What an attached graph promises: positions in range name distinct commits,
    parent positions are positions of the parents, and generations decrease
    along every edge. *)
Class CommitIndexLaws (G : Type) `{CommitIndex G} (ok : G -> Prop) := {
  position_at g id p : ok g -> g_position g id = Some p -> 0 <= p < g_positions g /\ g_id_at g p = Some id;
  at_position g p q id : ok g -> 0 <= p < g_positions g -> g_position g id = Some q -> g_id_at g p = Some id -> p = q;
  generation_position g id n : ok g -> g_generation g id = Some n -> exists p, g_position g id = Some p /\ g_generation_at g p = Some n;
  position_generation g id p : ok g -> g_position g id = Some p -> exists n, g_generation g id = Some n;
  parents_at g id p : ok g -> g_position g id = Some p ->
    exists ps c, g_parent_positions g p = Some ps /\ g_get g id = Some c /\ gc_id c = id /\
      Forall2 (fun q i => g_position g i = Some q) ps (gc_parents c);
  edge_generation g p q ps n : ok g -> g_parent_positions g p = Some ps -> q ∈ ps -> g_generation_at g p = Some n ->
    exists m, g_generation_at g q = Some m /\ m < n
}.

(** ** Errors, limits and the reader *)

(** [ObjectReadError]: cancellation, and any other failure by its description. *)
Inductive ObjectReadError := Cancelled | Failed (reason : string).

Inductive HistoryError :=
| Missing (id : ObjectId)
| NotCommit (id : ObjectId)
| Read (id : ObjectId) (source : ObjectReadError)
| Parse (id : ObjectId) (source : Identity.CommitError)
| Limit (resource : string)
| Cycle
| Panic
| OutOfFuel.

Record HistoryLimits := { max_commits : Z; max_parents : Z }.

Section Reader.
Context {G : Type} `{CommitIndex G}.

(** [Objects]: the format, stored objects, grafts, shallow roots and the attached graph. *)
Record Objects_ := {
  o_format : ObjectFormat;
  o_read : ObjectId -> result ObjectReadError (option (ObjectKind * bytes));
  o_graft : ObjectId -> option (list ObjectId);
  o_shallow : ObjectId -> bool;
  o_graph : option G
}.

(** ** Collecting the graph *)

Record Graph := { ids : list ObjectId; positions : gmap ObjectId nat; parents : list (list nat) }.
Definition no_graph : Graph := {| ids := []; positions := ∅; parents := [] |}.

(** [Graph::discover]. *)
Definition discover (id : ObjectId) (limit : Z) (g : Graph) : result HistoryError (nat * Graph) :=
  match positions g !! id with
  | Some index => Ok (index, g)
  | None =>
      if zlen (ids g) =? limit then Err (Limit "commits")
      else
        let index := length (ids g) in
        Ok (index, {| ids := ids g ++ [id]; positions := <[id := index]> (positions g); parents := parents g |})
  end.

(** [check_cancelled], at the [n]th check. *)
Definition check_cancelled (cancel : nat -> bool) (n : nat) (id : ObjectId) : result HistoryError nat :=
  if cancel n then Err (Read id Cancelled) else Ok (S n).

Fixpoint discover_roots (roots : list ObjectId) (limit : Z) (g : Graph) : result HistoryError Graph :=
  match roots with
  | [] => Ok g
  | r :: roots =>
      let? (_, g) := discover r limit g in
      discover_roots roots limit g
  end.

(** The parents of a commit that is not in the graph. *)
Definition stored_parents (o : Objects_) (id : ObjectId) : result HistoryError (list ObjectId) :=
  let? object := map_err (Read id) (o_read o id) in
  let? (kind, data) := ok_or object (Missing id) in
  if bool_decide (kind <> KCommit) then Err (NotCommit id)
  else
    let? commit := map_err (Parse id) (commit_parse (o_format o) data) in
    Ok (match o_graft o id with Some ps => ps | None => c_parents commit end).

Fixpoint discover_parents (cancel : nat -> bool) (id : ObjectId) (ps : list ObjectId) (limit : Z) (n : nat) (g : Graph)
  (edges : list nat) : result HistoryError (list nat * nat * Graph) :=
  match ps with
  | [] => Ok (edges, n, g)
  | p :: ps =>
      let? n := check_cancelled cancel n id in
      let? (e, g) := discover p limit g in
      discover_parents cancel id ps limit n g (edges ++ [e])
  end.

(** The state of the walk: the graph, the index of the next commit, the parent budget
    and the number of checks of the flag. *)
Record Walk := { w_graph : Graph; w_index : nat; w_remaining : Z; w_polls : nat }.

Section ReadUntil.
Context (o : Objects_) (limits : HistoryLimits) (verified : ObjectId -> result HistoryError (option (list ObjectId)))
  (stop : option ObjectId) (cancel : nat -> bool).

(** One turn of the loop of [read_until]; the result is the graph and the number of checks. *)
Definition read_step (w : Walk) : Walk + result HistoryError (Graph * nat) :=
  let g := w_graph w in
  match ids g !! w_index w with
  | None => inr (Ok (g, w_polls w))
  | Some id =>
      let r :=
        let? n := check_cancelled cancel (w_polls w) id in
        let? v := verified id in
        let? ps := match v with Some ps => Ok ps | None => stored_parents o id end in
        if bool_decide (stop = Some id) then
          Ok (inr ({| ids := ids g; positions := positions g;
                      parents := parents g ++ replicate (length (ids g) - length (parents g)) [] |}, n))
        else
          let ps := if o_shallow o id then [] else ps in
          let? remaining := ok_or (checked_sub (w_remaining w) (zlen ps)) (Limit "parent occurrences") in
          let? (edges, n, g) := discover_parents cancel id ps (max_commits limits) n g [] in
          Ok (inl {| w_graph := {| ids := ids g; positions := positions g; parents := parents g ++ [edges] |};
                     w_index := S (w_index w); w_remaining := remaining; w_polls := n |}) in
      match r with
      | Ok (inl w) => inl w
      | Ok (inr g) => inr (Ok g)
      | Err e => inr (Err e)
      end
  end.

End ReadUntil.

(** ** The acyclicity check *)

Definition at_index {A} (l : list A) (i : nat) : result HistoryError A := ok_or (l !! i) Panic.

(** [children[parent] += 1] for the parents of one commit. *)
Fixpoint add_children (row : list nat) (children : list Z) : result HistoryError (list Z) :=
  match row with
  | [] => Ok children
  | p :: row =>
      let? c := at_index children p in
      add_children row (<[p := c + 1]> children)
  end.
Fixpoint count_children (cancel : nat -> bool) (n : nat) (g : Graph) (index : nat) (rows : list (list nat)) (children : list Z)
  : result HistoryError (list Z * nat) :=
  match rows with
  | [] => Ok (children, n)
  | row :: rows =>
      let? id := at_index (ids g) index in
      let? n := check_cancelled cancel n id in
      let? children := add_children row children in
      count_children cancel n g (S index) rows children
  end.

(** [children[parent] -= 1], collecting the parents that reach zero. *)
Fixpoint drop_children (row : list nat) (children : list Z) (ready : list nat) : result HistoryError (list Z * list nat) :=
  match row with
  | [] => Ok (children, ready)
  | p :: row =>
      let? c := at_index children p in
      let? c := ok_or (checked_sub c 1) Panic in
      drop_children row (<[p := c]> children) (if c =? 0 then ready ++ [p] else ready)
  end.

Record Kahn := { k_children : list Z; k_ready : list nat; k_visited : Z; k_polls : nat }.
Definition kahn_step (cancel : nat -> bool) (g : Graph) (k : Kahn) : Kahn + result HistoryError Z :=
  match k_ready k with
  | [] => inr (Ok (k_visited k))
  | index :: ready =>
      let r :=
        let? id := at_index (ids g) index in
        let? n := check_cancelled cancel (k_polls k) id in
        let? row := at_index (parents g) index in
        let? (children, ready) := drop_children row (k_children k) ready in
        Ok {| k_children := children; k_ready := ready; k_visited := k_visited k + 1; k_polls := n |} in
      match r with Ok k => inl k | Err e => inr (Err e) end
  end.

(** Indices at which a list of booleans is true, from [i] on. *)
Fixpoint indices (i : nat) (bs : list bool) : list nat :=
  match bs with [] => [] | b :: bs => (if b then [i] else []) ++ indices (S i) bs end.

(** [check_acyclic_controlled]; a commit is ready at most once, so the number of commits
    and one more turn is enough fuel. *)
Definition check_acyclic (cancel : nat -> bool) (n : nat) (g : Graph) : result HistoryError unit :=
  let? (children, n) := count_children cancel n g 0 (parents g) (replicate (length (ids g)) 0) in
  let k := {| k_children := children; k_ready := indices 0 (map (fun c => c =? 0) children); k_visited := 0; k_polls := n |} in
  match iter_nat (kahn_step cancel g) (S (length (ids g))) k with
  | inl _ => Err OutOfFuel
  | inr r => let? visited := r in if negb (visited =? zlen (ids g)) then Err Cycle else Ok tt
  end.

(** [Graph::read_until]; every turn but the last treats a new commit, of which there are
    at most [max_commits]. *)
Definition read_until (o : Objects_) (roots : list ObjectId) (limits : HistoryLimits)
  (verified : ObjectId -> result HistoryError (option (list ObjectId))) (stop : option ObjectId) (cancel : nat -> bool)
  : result HistoryError Graph :=
  let? g := discover_roots roots (max_commits limits) no_graph in
  let w := {| w_graph := g; w_index := 0; w_remaining := max_parents limits; w_polls := 0 |} in
  match iter_until (read_step o limits verified stop cancel) (Z.to_pos (max_commits limits + 1)) w with
  | inl _ => Err OutOfFuel
  | inr r =>
      let? (g, n) := r in
      let? _ := check_acyclic cancel n g in
      Ok g
  end.

(** [Graph::read]: the attached graph answers for the commits it has. *)
Definition graph_parents (o : Objects_) (id : ObjectId) : result HistoryError (option (list ObjectId)) :=
  Ok (match o_graph o with Some g => gc_parents <$> g_get g id | None => None end).
Definition read (o : Objects_) (roots : list ObjectId) (limits : HistoryLimits) : result HistoryError Graph :=
  read_until o roots limits (graph_parents o) None (fun _ => false).

(** ** Queries over the collected graph *)

(** [Graph::reachable]: marks from a root; each commit is pushed at most once. *)
Fixpoint push_unmarked (row : list nat) (marks : list bool) (pending : list nat) : result HistoryError (list bool * list nat) :=
  match row with
  | [] => Ok (marks, pending)
  | p :: row =>
      let? m := at_index marks p in
      if negb m then push_unmarked row (<[p := true]> marks) (p :: pending) else push_unmarked row marks pending
  end.
Definition reach_step (g : Graph) (s : list bool * list nat) : (list bool * list nat) + result HistoryError (list bool) :=
  let '(marks, pending) := s in
  match pending with
  | [] => inr (Ok marks)
  | index :: pending =>
      match (let? row := at_index (parents g) index in push_unmarked row marks pending) with
      | Ok s => inl s
      | Err e => inr (Err e)
      end
  end.
Definition reachable (g : Graph) (root : nat) : result HistoryError (list bool) :=
  let marks := replicate (length (ids g)) false in
  let? _ := at_index marks root in
  match iter_nat (reach_step g) (S (length (ids g))) (<[root := true]> marks, [root]) with
  | inl _ => Err OutOfFuel
  | inr r => r
  end.

(** [graph.positions[&id]]. *)
Definition position_of (g : Graph) (id : ObjectId) : result HistoryError nat := ok_or (positions g !! id) Panic.

(** The identities at the marked indices. *)
Fixpoint selected (l : list ObjectId) (marks : list bool) : list ObjectId :=
  match l, marks with
  | id :: l, m :: marks => (if m then [id] else []) ++ selected l marks
  | _, _ => []
  end.

(** [walk_with]. *)
Definition walk_with (o : Objects_) (roots : list ObjectId) (limits : HistoryLimits) : result HistoryError (list ObjectId) :=
  let? g := read o roots limits in Ok (ids g).

(** [dominated]: the parents of common ancestors. *)
Fixpoint set_all (row : list nat) (marks : list bool) : result HistoryError (list bool) :=
  match row with
  | [] => Ok marks
  | p :: row =>
      let? _ := at_index marks p in
      set_all row (<[p := true]> marks)
  end.
Fixpoint dominate (common : list bool) (index : nat) (rows : list (list nat)) (dominated : list bool) : result HistoryError (list bool) :=
  match rows with
  | [] => Ok dominated
  | row :: rows =>
      let? c := at_index common index in
      let? dominated := (if c then set_all row dominated else Ok dominated) in
      dominate common (S index) rows dominated
  end.

(** [merge_bases_with]. *)
Definition merge_bases_with (o : Objects_) (left right : ObjectId) (limits : HistoryLimits) : result HistoryError (list ObjectId) :=
  let? g := read o [left; right] limits in
  let? left_marks := reachable g 0 in
  let? r := position_of g right in
  let? right_marks := reachable g r in
  let common := zip_with andb left_marks right_marks in
  let? dominated := dominate common 0 (parents g) (replicate (length (ids g)) false) in
  Ok (sort_by id_cmp (selected (ids g) (zip_with (fun c d => c && negb d) common dominated))).

(** [is_ancestor_verified]. *)
Definition is_ancestor_verified (o : Objects_) (ancestor descendant : ObjectId) (limits : HistoryLimits) (cancel : nat -> bool)
  (verified : ObjectId -> result HistoryError (option (list ObjectId))) : result HistoryError bool :=
  let? g := read_until o [descendant] limits verified (Some ancestor) cancel in
  Ok (bool_decide (is_Some (positions g !! ancestor))).

(** ** Ancestry through the attached graph ([ancestor_query]) *)

Record Search := { s_seen : gset ObjectId; s_remaining : Z; s_stack : list ObjectId }.

(** The loop over the parents of a commit: [inr] is an early answer. *)
Fixpoint visit_parents (ancestor : ObjectId) (limit : Z) (ps : list ObjectId) (seen : gset ObjectId) (stack : list ObjectId)
  : (gset ObjectId * list ObjectId) + result HistoryError bool :=
  match ps with
  | [] => inl (seen, stack)
  | p :: ps =>
      if bool_decide (p = ancestor) then inr (Ok true)
      else if bool_decide (p ∈ seen) then visit_parents ancestor limit ps seen stack
      else
        let seen := {[p]} ∪ seen in
        if limit <? Z.of_nat (size seen) then inr (Err (Limit "commits"))
        else visit_parents ancestor limit ps seen (p :: stack)
  end.
Definition search_step (o : Objects_) (g : G) (ancestor : ObjectId) (floor : Z) (limits : HistoryLimits) (s : Search)
  : Search + result HistoryError bool :=
  match s_stack s with
  | [] => inr (Ok false)
  | id :: stack =>
      if bool_decide (id = ancestor) then inr (Ok true)
      else
        match g_get g id with
        | None => inr (Err (Missing id))
        | Some record =>
            let ps := gc_parents record in
            if match g_generation g (gc_id record) with Some n => n <=? floor | None => false end || o_shallow o id
            then inl {| s_seen := s_seen s; s_remaining := s_remaining s; s_stack := stack |}
            else
              match checked_sub (s_remaining s) (zlen ps) with
              | None => inr (Err (Limit "parent occurrences"))
              | Some remaining =>
                  match visit_parents ancestor (max_commits limits) ps (s_seen s) stack with
                  | inl (seen, stack) => inl {| s_seen := seen; s_remaining := remaining; s_stack := stack |}
                  | inr r => inr r
                  end
              end
        end
  end.

(** Every commit is pushed when it is first seen, and at most [max_commits] are seen. *)
Definition ancestor_query (o : Objects_) (g : G) (ancestor descendant : ObjectId) (floor : Z) (limits : HistoryLimits)
  : result HistoryError bool :=
  let seen := {[descendant]} ∪ {[ancestor]} : gset ObjectId in
  if max_commits limits <? Z.of_nat (size seen) then Err (Limit "commits")
  else
    match iter_until (search_step o g ancestor floor limits) (Z.to_pos (max_commits limits + 1))
      {| s_seen := seen; s_remaining := max_parents limits; s_stack := [descendant] |} with
    | inl _ => Err OutOfFuel
    | inr r => r
    end.

(** [indexed_ancestor]. *)
Definition indexed_ancestor (o : Objects_) (ancestor descendant : ObjectId) (limits : HistoryLimits) : option (result HistoryError bool) :=
  g ← o_graph o;
  floor ← g_generation g ancestor;
  _ ← g_generation g descendant;
  Some (ancestor_query o g ancestor descendant floor limits).

(** [is_ancestor_with]. *)
Definition is_ancestor_with (o : Objects_) (ancestor descendant : ObjectId) (limits : HistoryLimits) : result HistoryError bool :=
  match indexed_ancestor o ancestor descendant limits with
  | Some answer => answer
  | None =>
      let? g := read o [descendant; ancestor] limits in
      let? marks := reachable g 0 in
      let? p := position_of g ancestor in
      at_index marks p
  end.

(** ** Ranges ([range.rs]) *)

(** [mark]: a commit may be pushed once for every edge. *)
Definition mark_step (g : Graph) (s : list bool * list nat) : (list bool * list nat) + result HistoryError (list bool) :=
  let '(marks, stack) := s in
  match stack with
  | [] => inr (Ok marks)
  | index :: stack =>
      let r :=
        let? m := at_index marks index in
        if m then Ok (marks, stack)
        else
          let? row := at_index (parents g) index in
          Ok (<[index := true]> marks, reverse row ++ stack) in
      match r with Ok s => inl s | Err e => inr (Err e) end
  end.
Definition mark (g : Graph) (root : nat) (marks : list bool) : result HistoryError (list bool) :=
  match iter_nat (mark_step g) (length (concat (parents g)) + 2)%nat (marks, [root]) with
  | inl _ => Err OutOfFuel
  | inr r => r
  end.
Fixpoint mark_all (g : Graph) (roots : list ObjectId) (marks : list bool) : result HistoryError (list bool) :=
  match roots with
  | [] => Ok marks
  | r :: roots =>
      let? p := position_of g r in
      let? marks := mark g p marks in
      mark_all g roots marks
  end.

Inductive Sides := Include | Both.
Definition INCLUDE : Z := 1.
Definition EXCLUDE : Z := 2.
Definition counts (sides : Sides) (color : Z) : bool :=
  match sides with
  | Include => color =? INCLUDE
  | Both => (color =? INCLUDE) || (color =? EXCLUDE)
  end.

(** The binary heap of generations and positions: [pop] takes the greatest. *)
Definition key_lt (a b : Z * Z) : bool := (a.1 <? b.1) || ((a.1 =? b.1) && (a.2 <? b.2)).
Fixpoint pop_max (x : Z * Z) (l : list (Z * Z)) : (Z * Z) * list (Z * Z) :=
  match l with
  | [] => (x, [])
  | y :: l =>
      if key_lt x y then let '(m, r) := pop_max y l in (m, x :: r)
      else let '(m, r) := pop_max x l in (m, y :: r)
  end.
Definition pop (queue : list (Z * Z)) : option ((Z * Z) * list (Z * Z)) :=
  match queue with [] => None | x :: l => Some (pop_max x l) end.

Record Paint := { colors : list Z; queue : list (Z * Z); marked : Z; interesting : Z }.
Definition count_bit (b : bool) : Z := if b then 1 else 0.

(** [Paint::enqueue]. *)
Definition enqueue (g : G) (sides : Sides) (limit : Z) (position color : Z) (p : Paint) : result HistoryError Paint :=
  let? old := ok_or (zget position (colors p)) Panic in
  let new := Z.lor old color in
  if old =? new then Ok p
  else
    let? (marked, queue) :=
      if old =? 0 then
        if limit <=? marked p then Err (Limit "commits")
        else
          let? n := ok_or (g_generation_at g position) Panic in
          Ok (marked p + 1, (n, position) :: queue p)
      else Ok (marked p, queue p) in
    let? interesting := ok_or (checked_sub (interesting p + count_bit (counts sides new)) (count_bit (counts sides old))) Panic in
    Ok {| colors := <[Z.to_nat position := new]> (colors p); queue := queue; marked := marked; interesting := interesting |}.
Fixpoint enqueue_roots (g : G) (sides : Sides) (limit color : Z) (roots : list ObjectId) (p : Paint) : result HistoryError Paint :=
  match roots with
  | [] => Ok p
  | r :: roots =>
      let? position := ok_or (g_position g r) (Missing r) in
      let? p := enqueue g sides limit position color p in
      enqueue_roots g sides limit color roots p
  end.
Fixpoint enqueue_parents (g : G) (sides : Sides) (limit color : Z) (ps : list Z) (p : Paint) : result HistoryError Paint :=
  match ps with
  | [] => Ok p
  | q :: ps =>
      let? p := enqueue g sides limit q color p in
      enqueue_parents g sides limit color ps p
  end.

Record Painted := { included : list Z; excluded : list Z }.
Record PaintState := { paint_of : Paint; painted : Painted; edges_left : Z }.

(** One turn of the loop of [paint]. *)
Definition paint_step (o : Objects_) (g : G) (sides : Sides) (limits : HistoryLimits) (s : PaintState)
  : PaintState + result HistoryError Painted :=
  let p := paint_of s in
  if interesting p =? 0 then inr (Ok (painted s))
  else
    match pop (queue p) with
    | None => inr (Ok (painted s))
    | Some ((_, position), rest) =>
        let r :=
          let? color := ok_or (zget position (colors p)) Panic in
          let? (interesting, out) :=
            if counts sides color then
              let? i := ok_or (checked_sub (interesting p) 1) Panic in
              Ok (i, if color =? INCLUDE then {| included := included (painted s) ++ [position]; excluded := excluded (painted s) |}
                     else {| included := included (painted s); excluded := excluded (painted s) ++ [position] |})
            else Ok (interesting p, painted s) in
          let p := {| colors := colors p; queue := rest; marked := marked p; interesting := interesting |} in
          let? id := ok_or (g_id_at g position) Panic in
          if o_shallow o id then Ok {| paint_of := p; painted := out; edges_left := edges_left s |}
          else
            let? ps := ok_or (g_parent_positions g position) Panic in
            let? budget := ok_or (checked_sub (edges_left s) (zlen ps)) (Limit "parent occurrences") in
            let? p := enqueue_parents g sides (max_commits limits) color ps p in
            Ok {| paint_of := p; painted := out; edges_left := budget |} in
        match r with Ok s => inl s | Err e => inr (Err e) end
    end.

(** [paint]; every turn pops a position that was queued once. *)
Definition paint (o : Objects_) (g : G) (include exclude : list ObjectId) (sides : Sides) (limits : HistoryLimits)
  : result HistoryError Painted :=
  let p := {| colors := replicate (Z.to_nat (g_positions g)) 0; queue := []; marked := 0; interesting := 0 |} in
  let? p := enqueue_roots g sides (max_commits limits) INCLUDE include p in
  let? p := enqueue_roots g sides (max_commits limits) EXCLUDE exclude p in
  match iter_nat (paint_step o g sides limits) (S (Z.to_nat (g_positions g)))
    {| paint_of := p; painted := {| included := []; excluded := [] |}; edges_left := max_parents limits |} with
  | inl _ => Err OutOfFuel
  | inr r => r
  end.

(** The graph, when it has a position for all of the commits. *)
Definition covering (o : Objects_) (l : list ObjectId) : option G :=
  match o_graph o with
  | Some g => if forallb (fun id => bool_decide (is_Some (g_position g id))) l then Some g else None
  | None => None
  end.

Fixpoint ids_at (g : G) (ps : list Z) : result HistoryError (list ObjectId) :=
  match ps with
  | [] => Ok []
  | p :: ps =>
      let? id := ok_or (g_id_at g p) Panic in
      let? rest := ids_at g ps in
      Ok (id :: rest)
  end.

(** [walk_range_with]. *)
Definition walk_range_with (o : Objects_) (include exclude : list ObjectId) (limits : HistoryLimits) : result HistoryError (list ObjectId) :=
  match include with
  | [] => Ok []
  | _ =>
      match covering o (include ++ exclude) with
      | Some g =>
          let? out := paint o g include exclude Include limits in
          ids_at g (included out)
      | None =>
          let? g := read o (include ++ exclude) limits in
          let? chosen := mark_all g include (replicate (length (ids g)) false) in
          let? hidden := mark_all g exclude (replicate (length (ids g)) false) in
          Ok (selected (ids g) (zip_with (fun s h => s && negb h) chosen hidden))
      end
  end.

(** [ahead_behind_with]: the commits ahead and behind. *)
Definition only (a b : list bool) : Z := zlen (filter (fun x => x = true) (zip_with (fun a b => a && negb b) a b)).
Definition ahead_behind_with (o : Objects_) (left right : ObjectId) (limits : HistoryLimits) : result HistoryError (Z * Z) :=
  match covering o [left; right] with
  | Some g =>
      let? out := paint o g [left] [right] Both limits in
      Ok (zlen (included out), zlen (excluded out))
  | None =>
      let? g := read o [left; right] limits in
      let? l := position_of g left in
      let? l := reachable g l in
      let? r := position_of g right in
      let? r := reachable g r in
      Ok (only l r, only r l)
  end.
End Reader.
#[global] Arguments Objects_ : clear implicits.
End History.
