(* ===== verification/HistoryGraph.v ===== *)
(** * Walks over a finite graph

    The loops of [History.v] over indices: the acyclicity check, the marking of
    everything reachable from a root, and the marking with a set of edges. *)

From stdpp Require Import base list numbers strings sets gmap sorting relations.
From Stdlib Require Import ZArith Lia.
From S2P Require Import Prelude Objects Commits History.

Module HistoryGraph.
Import Objects History.

(** ** Iteration *)

Section Iter.
Context {S R : Type} (step : S -> S + R).

Lemma iter_nat_add n m s :
  iter_nat step (n + m) s = match iter_nat step n s with inl s => iter_nat step m s | inr r => inr r end.
Proof. revert s; induction n as [|n IH]; intros s; [done|]. cbn [Nat.add iter_nat]. destruct (step s); [apply IH|done]. Qed.

Lemma iter_until_nat n s : iter_until step n s = iter_nat step (Pos.to_nat n) s.
Proof.
  revert s; induction n as [n IH|n IH|]; intros s; cbn [iter_until].
  - rewrite Pos2Nat.inj_xI. cbn [iter_nat]. destruct (step s) as [s'|r]; [|done].
    replace (2 * Pos.to_nat n)%nat with (Pos.to_nat n + Pos.to_nat n)%nat by lia.
    rewrite iter_nat_add, IH. destruct (iter_nat step (Pos.to_nat n) s'); [apply IH|done].
  - rewrite Pos2Nat.inj_xO. replace (2 * Pos.to_nat n)%nat with (Pos.to_nat n + Pos.to_nat n)%nat by lia.
    rewrite iter_nat_add, IH. destruct (iter_nat step (Pos.to_nat n) s); [apply IH|done].
  - change (Pos.to_nat 1) with 1%nat. cbn [iter_nat]. by destruct (step s).
Qed.

(** Invariants with a decreasing measure: enough fuel gives a result. *)
Lemma iter_nat_inv (Inv : nat -> S -> Prop) (Post : R -> Prop) :
  (forall m s, Inv m s -> match step s with inl s' => exists m', m = Datatypes.S m' /\ Inv m' s' | inr r => Post r end) ->
  forall fuel m s, Inv m s -> (m < fuel)%nat -> exists r, iter_nat step fuel s = inr r /\ Post r.
Proof.
  intros Hstep. induction fuel as [|fuel IH]; intros m s HI Hm; [lia|]. cbn [iter_nat]. specialize (Hstep m s HI).
  destruct (step s) as [s'|r]; [|eauto]. destruct Hstep as (m' & -> & HI'). apply (IH m'); [done|lia].
Qed.
End Iter.

(** ** Finite relations *)

(** In a finite set in which every element has a predecessor there is a cycle. *)
Lemma cycle_or_source {A} `{EqDecision A} (R : relation A) `{forall x y, Decision (R x y)} (l : list A) :
  l <> [] -> (exists x, x ∈ l /\ tc R x x) \/ (exists x, x ∈ l /\ forall y, y ∈ l -> ~ R y x).
Proof.
  intros Hl. enough (forall n, (exists x, x ∈ l /\ tc R x x) \/ (exists x, x ∈ l /\ forall y, y ∈ l -> ~ R y x) \/
    exists h p, length p = n /\ NoDup (h :: p) /\ (h :: p) ⊆ l /\ forall x, x ∈ p -> tc R h x) as H'.
  { destruct (H' (length l)) as [?|[?|(h & p & Hn & HN & HS & _)]]; [tauto..|].
    exfalso. pose proof (submseteq_length (h :: p) l (NoDup_submseteq _ _ HN HS)) as HL. simpl in HL. lia. }
  induction n as [|n IH].
  - right; right. destruct l as [|h l]; [done|]. exists h, []. split_and!; [done|by apply NoDup_singleton|set_solver|set_solver].
  - destruct IH as [?|[?|(h & p & Hn & HN & HS & HR)]]; [tauto..|].
    destruct (decide (Exists (fun y => R y h) l)) as [HE|HE].
    + apply Exists_exists in HE as (y & Hy & HRy). destruct (decide (y ∈ h :: p)) as [Hin|Hin].
      * left. exists y. split; [done|]. apply elem_of_cons in Hin as [-> |Hin]; [by apply tc_once|].
        eapply tc_l; [done|]. by apply HR.
      * right; right. exists y, (h :: p). split_and!; [simpl; lia|by constructor|set_solver|].
        intros x [-> |Hx]%elem_of_cons; [by apply tc_once|]. eapply tc_l; [done|]. by apply HR.
    + right; left. exists h. split; [set_solver|]. intros y Hy HRy. apply HE, Exists_exists. eauto.
Qed.

(** ** Counting edges *)

Definition occ (i : nat) (row : list nat) : Z := zlen (filter (fun j => j = i) row).

Lemma occ_nil i : occ i [] = 0.
Proof. done. Qed.
Lemma occ_cons i j row : occ i (j :: row) = (if decide (j = i) then 1 else 0) + occ i row.
Proof. unfold occ. rewrite filter_cons. destruct (decide (j = i)); [rewrite zlen_cons; lia|done]. Qed.
Lemma occ_nonneg i row : 0 <= occ i row.
Proof. apply zlen_nonneg. Qed.
Lemma occ_pos i row : 0 < occ i row <-> i ∈ row.
Proof.
  induction row as [|j row IH]; [rewrite occ_nil, elem_of_nil; lia|]. rewrite occ_cons, elem_of_cons. pose proof (occ_nonneg i row).
  destruct (decide (j = i)); [intuition lia|]. rewrite Z.add_0_l, IH. intuition congruence.
Qed.

(** The flag was seen to be set. *)
Definition cancelled (cancel : nat -> bool) (e : HistoryError) : Prop :=
  (exists k, cancel k = true) /\ exists id, e = Read id Cancelled.
(** A computation gives a value with [Q], or was cancelled. *)
Definition returns {A} (cancel : nat -> bool) (Q : A -> Prop) (r : result HistoryError A) : Prop :=
  match r with Ok a => Q a | Err e => cancelled cancel e end.

Lemma returns_bind {A B} cancel (P : A -> Prop) (Q : B -> Prop) r k :
  returns cancel P r -> (forall a, P a -> returns cancel Q (k a)) -> returns cancel Q (rbind r k).
Proof. destruct r; simpl; eauto. Qed.
Lemma returns_weaken {A} cancel (P Q : A -> Prop) r : returns cancel P r -> (forall a, P a -> Q a) -> returns cancel Q r.
Proof. destruct r; simpl; eauto. Qed.
Lemma returns_index {A} cancel (l : list A) i : (i < length l)%nat -> returns cancel (fun x => l !! i = Some x) (at_index l i).
Proof. intros [x Hx]%lookup_lt_is_Some_2. unfold at_index. rewrite Hx. done. Qed.
Lemma returns_check cancel n id : returns cancel (fun _ => True) (check_cancelled cancel n id).
Proof. unfold check_cancelled. destruct (cancel n) eqn:E; [split; [by exists n|by exists id]|done]. Qed.

Lemma add_children_spec row ch : Forall (fun p => p < length ch)%nat row ->
  exists ch', add_children row ch = Ok ch' /\ length ch' = length ch /\
    forall i c, ch !! i = Some c -> ch' !! i = Some (c + occ i row).
Proof.
  revert ch; induction row as [|p row IH]; intros ch HF; inversion_clear HF as [|? ? Hp HF']; cbn [add_children].
  - exists ch. split_and!; [done..|]. intros i c Hc. by rewrite occ_nil, Z.add_0_r.
  - apply lookup_lt_is_Some_2 in Hp as [c Hc]. unfold at_index. rewrite Hc. cbn [ok_or rbind].
    destruct (IH (<[p:=c + 1]> ch)) as (ch' & -> & HL & Hch').
    { by rewrite length_insert. }
    exists ch'. split_and!; [done|by rewrite length_insert in HL|]. intros i d Hd. rewrite occ_cons.
    pose proof (lookup_lt_Some _ _ _ Hc). destruct (decide (p = i)) as [-> |Hne].
    + rewrite (Hch' i (c + 1)) by (by rewrite list_lookup_insert_eq). f_equal. assert (c = d) by congruence. lia.
    + rewrite (Hch' i d); [f_equal; lia|]. by rewrite list_lookup_insert_ne.
Qed.

Lemma drop_children_spec row ch ready : Forall (fun p => p < length ch)%nat row ->
  (forall i c, ch !! i = Some c -> occ i row <= c) ->
  exists ch' new, drop_children row ch ready = Ok (ch', ready ++ new) /\ length ch' = length ch /\
    (forall i c, ch !! i = Some c -> ch' !! i = Some (c - occ i row)) /\
    NoDup new /\ forall i, i ∈ new <-> i ∈ row /\ ch' !! i = Some 0.
Proof.
  revert ch ready; induction row as [|p row IH]; intros ch ready HF HC; inversion_clear HF as [|? ? Hp HF']; cbn [drop_children].
  - exists ch, []. rewrite app_nil_r. split_and!; [done..| |constructor|set_solver]. intros i c Hc. by rewrite occ_nil, Z.sub_0_r.
  - apply lookup_lt_is_Some_2 in Hp as [c Hc]. unfold at_index. rewrite Hc. cbn [ok_or rbind].
    pose proof (HC p c Hc) as Hle. rewrite occ_cons, decide_True in Hle by done. pose proof (occ_nonneg p row).
    pose proof (lookup_lt_Some _ _ _ Hc) as Hlt.
    assert (checked_sub c 1 = Some (c - 1)) as -> by (apply checked_sub_Some; lia). cbn [ok_or rbind].
    destruct (IH (<[p:=c - 1]> ch) (if c - 1 =? 0 then ready ++ [p] else ready)) as (ch' & new & -> & HL & Hch' & HN & Hnew).
    { by rewrite length_insert. }
    { intros i d. destruct (decide (i = p)) as [-> |Hne].
      - rewrite list_lookup_insert_eq by done. intros [= <-]. lia.
      - rewrite list_lookup_insert_ne by done. intros Hd%HC. rewrite occ_cons, decide_False in Hd by done. lia. }
    rewrite length_insert in HL.
    assert (forall i d, ch !! i = Some d -> ch' !! i = Some (d - occ i (p :: row))) as Hall.
    { intros i d Hd. rewrite occ_cons. destruct (decide (p = i)) as [-> |Hne].
      - rewrite (Hch' i (c - 1)) by (by rewrite list_lookup_insert_eq). f_equal. assert (c = d) by congruence. lia.
      - rewrite (Hch' i d); [f_equal; lia|]. by rewrite list_lookup_insert_ne. }
    pose proof (Hall p c Hc) as Hpv. rewrite occ_cons, decide_True in Hpv by done.
    destruct (Z.eqb_spec (c - 1) 0) as [E|E].
    + assert (p ∉ row) as Hnp by (rewrite <- occ_pos; lia).
      exists ch', (p :: new). rewrite <- app_assoc. split_and!; [done..| |].
      { constructor; [|done]. rewrite Hnew. tauto. }
      intros i. rewrite !elem_of_cons, Hnew. destruct (decide (i = p)) as [-> |Hne]; [|tauto].
      rewrite Hpv. assert (c - (1 + occ p row) = 0) as -> by (rewrite <- occ_pos in Hnp; lia). tauto.
    + exists ch', new. split_and!; [done..|]. intros i. rewrite elem_of_cons, Hnew.
      destruct (decide (i = p)) as [-> |Hne]; [|tauto]. split; [tauto|]. intros [_ Hz]. split; [|done].
      rewrite Hpv in Hz. injection Hz as Hz. apply occ_pos. lia.
Qed.

Lemma indices_spec i (bs : list bool) j : j ∈ indices i bs <-> exists k, j = (i + k)%nat /\ bs !! k = Some true.
Proof.
  revert i; induction bs as [|b bs IH]; intros i; cbn [indices].
  - split; [set_solver|]. by intros (k & _ & ?).
  - rewrite elem_of_app, IH. split.
    + intros [Hj|(k & -> & Hk)]; [|exists (S k); split; [lia|done]]. destruct b; [|set_solver].
      apply list_elem_of_singleton in Hj as ->. exists 0%nat. split; [lia|done].
    + intros ([|k] & -> & Hk); cbn in Hk; [|right; exists k; split; [lia|done]]. injection Hk as ->. left. rewrite Nat.add_0_r. set_solver.
Qed.
Lemma indices_NoDup i (bs : list bool) : NoDup (indices i bs).
Proof.
  revert i; induction bs as [|b bs IH]; intros i; cbn [indices]; [constructor|]. apply NoDup_app. split_and!; [| |apply IH].
  - destruct b; [apply NoDup_singleton|constructor].
  - intros j Hj Hk. apply indices_spec in Hk as (k & -> & _). destruct b; [|set_solver]. apply list_elem_of_singleton in Hj. lia.
Qed.

(** ** Marks *)

Definition marked (marks : list bool) (i : nat) : Prop := marks !! i = Some true.
Definition unmarked (marks : list bool) : nat := length (filter (fun b => b = false) marks).

Lemma marked_insert marks p i : (p < length marks)%nat -> marked (<[p := true]> marks) i <-> i = p \/ marked marks i.
Proof.
  intros Hp. unfold marked. destruct (decide (i = p)) as [-> |Hne]; [rewrite list_lookup_insert_eq by done; tauto|].
  rewrite list_lookup_insert_ne by done. tauto.
Qed.
Lemma unmarked_insert marks p : marks !! p = Some false -> unmarked marks = S (unmarked (<[p := true]> marks)).
Proof.
  unfold unmarked. revert p; induction marks as [|b marks IH]; intros [|p]; intros Hp; [done..| |].
  - injection Hp as ->. done.
  - change (<[S p:=true]> (b :: marks)) with (b :: <[p:=true]> marks). change (marks !! p = Some false) in Hp.
    rewrite !filter_cons. destruct (decide (b = false)); cbn [length]; by rewrite (IH p).
Qed.
Lemma unmarked_replicate k : unmarked (replicate k false) = k.
Proof. unfold unmarked. induction k as [|k IH]; [done|]. cbn [replicate]. rewrite filter_cons, decide_True by done. simpl. by rewrite IH. Qed.
Lemma marked_replicate k i : ~ marked (replicate k false) i.
Proof. unfold marked. intros [? ?]%lookup_replicate. done. Qed.

Lemma push_unmarked_spec row marks pending : Forall (fun p => p < length marks)%nat row ->
  exists marks' new, push_unmarked row marks pending = Ok (marks', new ++ pending) /\ length marks' = length marks /\
    (forall i, marked marks' i <-> marked marks i \/ i ∈ row) /\ (unmarked marks' + length new = unmarked marks)%nat /\
    (forall i, i ∈ new <-> i ∈ row /\ ~ marked marks i).
Proof.
  revert marks pending; induction row as [|p row IH]; intros marks pending HF; inversion_clear HF as [|? ? Hp HF']; cbn [push_unmarked].
  - exists marks, []. split_and!; [done..| |cbn [length]; lia|]; set_solver.
  - pose proof Hp as [b Hb]%lookup_lt_is_Some_2. unfold at_index. rewrite Hb. cbn [ok_or rbind]. destruct b; cbn [negb].
    + destruct (IH marks pending HF') as (marks' & new & -> & HL & HM & HU & HN). exists marks', new.
      split_and!; [done..| |done|]; intros i; rewrite elem_of_cons.
      * rewrite HM. intuition (subst; tauto).
      * rewrite HN. unfold marked. intuition congruence.
    + destruct (IH (<[p := true]> marks) (p :: pending)) as (marks' & new & -> & HL & HM & HU & HN).
      { by rewrite length_insert. }
      rewrite length_insert in HL. rewrite (unmarked_insert marks p Hb). exists marks', (new ++ [p]).
      rewrite <- app_assoc, length_app. split_and!; [done..| |simpl; lia|]; intros i; rewrite elem_of_cons.
      * rewrite HM, marked_insert by done. tauto.
      * rewrite elem_of_app, HN, marked_insert, list_elem_of_singleton by done. unfold marked.
        destruct (decide (i = p)) as [-> |]; [|tauto]. rewrite Hb. intuition congruence.
Qed.

(** The edges of the unmarked commits. *)
Fixpoint weight (marks : list bool) (rows : list (list nat)) : nat :=
  match marks, rows with
  | b :: marks, row :: rows => ((if b then 0 else length row) + weight marks rows)%nat
  | _, _ => 0%nat
  end.
Lemma weight_insert marks rows p row : marks !! p = Some false -> rows !! p = Some row ->
  weight marks rows = (length row + weight (<[p := true]> marks) rows)%nat.
Proof.
  revert rows p; induction marks as [|b marks IH]; intros [|r rows] [|p] Hm Hr; try done.
  - injection Hm as ->. injection Hr as ->. done.
  - change (<[S p:=true]> (b :: marks)) with (b :: <[p:=true]> marks). cbn [weight]. rewrite (IH rows p Hm Hr). lia.
Qed.
Lemma weight_le marks rows : (weight marks rows <= length (concat rows))%nat.
Proof.
  revert rows; induction marks as [|b marks IH]; intros [|r rows]; cbn [weight concat]; [lia..|]. rewrite length_app.
  specialize (IH rows). destruct b; lia.
Qed.

Lemma set_all_spec row marks : Forall (fun p => p < length marks)%nat row ->
  exists marks', set_all row marks = Ok marks' /\ length marks' = length marks /\ forall i, marked marks' i <-> marked marks i \/ i ∈ row.
Proof.
  revert marks; induction row as [|p row IH]; intros marks HF; inversion_clear HF as [|? ? Hp HF']; cbn [set_all].
  - exists marks. split_and!; [done..|]. set_solver.
  - pose proof Hp as [b Hb]%lookup_lt_is_Some_2. unfold at_index. rewrite Hb. cbn [ok_or rbind].
    destruct (IH (<[p := true]> marks)) as (marks' & -> & HL & HM); [by rewrite length_insert|].
    rewrite length_insert in HL. exists marks'. split_and!; [done..|]. intros i. rewrite HM, marked_insert, elem_of_cons by done. tauto.
Qed.

(** ** The graph *)

Section Finite.
Context (g : Graph).
Notation n := (length (ids g)).
Notation rows := (parents g).
Definition edge (i j : nat) : Prop := exists row, rows !! i = Some row /\ j ∈ row.
#[global] Instance edge_dec i j : Decision (edge i j).
Proof.
  unfold edge. destruct (rows !! i) as [row|]; [|right; by intros (? & ? & _)].
  destruct (decide (j ∈ row)); [left; eauto|right]. by intros (? & [= ->] & ?).
Defined.

(** Every commit has its row, and rows name commits of the graph. *)
Definition graph_ok : Prop := length rows = n /\ Forall (Forall (fun p => p < n)%nat) rows.
(** The edges to [i] from the commits of [U]. *)
Fixpoint into (i : nat) (U : list nat) : Z :=
  match U with [] => 0 | j :: U => occ i (default [] (rows !! j)) + into i U end.
Lemma into_nonneg i U : 0 <= into i U.
Proof. induction U as [|j U IH]; simpl; [lia|]. pose proof (occ_nonneg i (default [] (rows !! j))). lia. Qed.
#[global] Instance into_perm i : Proper ((≡ₚ) ==> (=)) (into i).
Proof. induction 1 as [|j U U' _ IH|j k U|U U' U'' _ IH1 _ IH2]; simpl; [done|lia|lia|lia]. Qed.
Lemma into_zero i U : into i U = 0 -> forall j, j ∈ U -> ~ edge j i.
Proof.
  induction U as [|k U IH]; intros H0 j; [set_solver|]. simpl in H0. pose proof (into_nonneg i U).
  pose proof (occ_nonneg i (default [] (rows !! k))).
  intros [-> |Hj]%elem_of_cons; [|apply IH; [lia|done]]. intros (row & Hr & Hi). rewrite Hr in H0, H1. simpl in H0, H1.
  apply occ_pos in Hi. lia.
Qed.
Lemma into_pos i U : 0 < into i U -> exists j, j ∈ U /\ edge j i.
Proof.
  induction U as [|k U IH]; simpl; [lia|]. intros H0. destruct (decide (0 < occ i (default [] (rows !! k)))) as [Ho|Ho].
  - apply occ_pos in Ho. exists k. split; [set_solver|]. destruct (rows !! k) as [row|] eqn:E; simpl in Ho; [|set_solver]. by exists row.
  - destruct IH as (j & Hj & He); [pose proof (occ_nonneg i (default [] (rows !! k))); lia|]. exists j. split; [set_solver|done].
Qed.

Context (HG : graph_ok).

Lemma edge_range i j : edge i j -> (i < n /\ j < n)%nat.
Proof using HG.
  intros (row & Hr & Hj). destruct HG as [HL HF]. split; [rewrite <- HL; by eapply lookup_lt_Some|].
  rewrite Forall_lookup in HF. specialize (HF _ _ Hr). rewrite Forall_forall in HF. by apply HF.
Qed.
Lemma row_at i : (i < n)%nat -> exists row, rows !! i = Some row /\ Forall (fun p => p < n)%nat row.
Proof using HG.
  destruct HG as [HL HF]. intros Hi. rewrite <- HL in Hi. apply lookup_lt_is_Some_2 in Hi as [row Hr]. exists row.
  split; [done|]. rewrite Forall_lookup in HF. by eapply HF.
Qed.

Lemma count_children_spec cancel k done_ todo ch : rows = done_ ++ todo -> length ch = n ->
  returns cancel (fun '(ch', _) => length ch' = n /\
    forall i c, ch !! i = Some c -> ch' !! i = Some (c + into i (seq (length done_) (length todo))))
    (count_children cancel k g (length done_) todo ch).
Proof using HG.
  revert k done_ ch; induction todo as [|row todo IH]; intros k done_ ch HR HL; cbn [count_children].
  - split; [done|]. intros i c Hc. simpl. by rewrite Z.add_0_r.
  - assert (rows !! length done_ = Some row) as Hrow by (rewrite HR; by apply list_lookup_middle).
    pose proof (lookup_lt_Some _ _ _ Hrow) as Hlt. destruct HG as [HLr HF]. rewrite HLr in Hlt.
    eapply returns_bind; [by apply returns_index|]. intros id Hid. cbv beta in Hid.
    eapply returns_bind; [apply returns_check|]. intros k' _.
    destruct (add_children_spec row ch) as (ch1 & -> & HL1 & Hch1).
    { rewrite HL. rewrite Forall_lookup in HF. by eapply HF. }
    cbn [rbind]. specialize (IH k' (done_ ++ [row]) ch1). rewrite length_app, Nat.add_1_r in IH.
    eapply returns_weaken; [apply IH; [by rewrite <- app_assoc|lia]|]. intros [ch' k''] [HL' Hch']. split; [done|].
    intros i c Hc. rewrite (Hch' _ _ (Hch1 _ _ Hc)). cbn [length seq into]. rewrite Hrow. simpl. f_equal. lia.
Qed.

(** An order in which every commit comes after its children. *)
Definition topo (V : list nat) : Prop := forall l1 i l2, V = l1 ++ i :: l2 -> forall j, edge j i -> j ∈ l1.

Lemma topo_snoc V x : topo V -> (forall j, edge j x -> j ∈ V) -> topo (V ++ [x]).
Proof using.
  intros HT Hx l1 i l2 HE j Hj. destruct l2 as [|y l2 _] using rev_ind.
  - apply app_inj_tail in HE as [-> ->]. by apply Hx.
  - rewrite app_comm_cons, app_assoc in HE. apply app_inj_tail in HE as [-> _]. by eapply HT.
Qed.

Lemma topo_acyclic V : topo V -> NoDup V -> forall i, i ∈ V -> ~ tc edge i i.
Proof using HG.
  intros HT HN. assert (forall j i, tc edge j i -> forall l1 l2, V = l1 ++ i :: l2 -> j ∈ l1) as H.
  { intros j i HR. induction HR as [j i He|j k i He HR IH]; intros l1 l2 HE; [by eapply HT|].
    specialize (IH l1 l2 HE). apply list_elem_of_split in IH as (a & b & ->). rewrite <- app_assoc in HE. cbn [app] in HE.
    specialize (HT _ _ _ HE j He). set_solver. }
  intros i Hi HR. apply list_elem_of_split in Hi as (a & b & HE). specialize (H i i HR a b HE). subst V.
  apply NoDup_app in HN as (_ & HN & _). set_solver.
Qed.

Lemma into_row x U i row : rows !! x = Some row -> into i (x :: U) = occ i row + into i U.
Proof using. intros Hr. simpl. by rewrite Hr. Qed.

Definition kahn_inv (m : nat) (k : Kahn) : Prop :=
  exists V U, V ++ U ≡ₚ seq 0 n /\ length (k_children k) = n /\ (forall i, (i < n)%nat -> k_children k !! i = Some (into i U)) /\
    NoDup (k_ready k) /\ (forall i, i ∈ k_ready k <-> i ∈ U /\ into i U = 0) /\ k_visited k = zlen V /\ topo V /\ m = length U.
Definition kahn_post (cancel : nat -> bool) (r : result HistoryError Z) : Prop :=
  returns cancel (fun v => exists V U, V ++ U ≡ₚ seq 0 n /\ v = zlen V /\ topo V /\ forall i, i ∈ U -> 0 < into i U) r.

Lemma kahn_ready V U x rest row new :
  NoDup (V ++ U) -> (forall i, i ∈ V ++ U <-> (i < n)%nat) -> U ≡ₚ x :: rest -> topo V -> rows !! x = Some row ->
  forall ready, NoDup (x :: ready) -> (forall i, i ∈ x :: ready <-> i ∈ U /\ into i U = 0) ->
  NoDup new -> (forall i, i ∈ new <-> i ∈ row /\ into i rest = 0) ->
  NoDup (ready ++ new) /\ (forall i, i ∈ ready ++ new <-> i ∈ rest /\ into i rest = 0).
Proof using HG.
  intros HN Hall HU HT Hrow ready HNr Hr HNn Hnew.
  assert (forall i, into i U = occ i row + into i rest) as HI by (intros i; rewrite HU; by apply into_row).
  assert (x ∈ U /\ into x U = 0) as [HxU Hx0] by (apply Hr; set_solver).
  apply NoDup_app in HN as (HNV & Hdis & HNU). rewrite HU in HNU. apply NoDup_cons in HNU as [Hxr HNrest].
  apply NoDup_cons in HNr as [Hxready HNr].
  assert (forall i, i ∈ ready -> occ i row = 0 /\ into i rest = 0) as Hready.
  { intros i Hi. assert (i ∈ U /\ into i U = 0) as [_ H0] by (apply Hr; set_solver). rewrite HI in H0.
    pose proof (occ_nonneg i row). pose proof (into_nonneg i rest). lia. }
  split.
  - apply NoDup_app. split_and!; [done| |done]. intros i Hi [Hi2 _]%Hnew. apply Hready in Hi as [H0 _]. apply occ_pos in Hi2. lia.
  - intros i. rewrite elem_of_app. split.
    + intros [Hi|Hi].
      * split; [|by apply Hready]. assert (i ∈ U) as HiU by (apply Hr; set_solver). rewrite HU in HiU.
        apply elem_of_cons in HiU as [-> |?]; [done|done].
      * apply Hnew in Hi as [Hi H0]. split; [|done]. assert (edge x i) as He by (by exists row).
        pose proof (edge_range _ _ He) as [_ Hlt]. apply Hall, elem_of_app in Hlt as [HV|HUi].
        -- apply list_elem_of_split in HV as (a & b & HV). specialize (HT _ _ _ HV x He). exfalso. apply (Hdis x); [set_solver|done].
        -- rewrite HU in HUi. apply elem_of_cons in HUi as [-> |?]; [|done]. apply occ_pos in Hi. rewrite HI in Hx0.
           pose proof (into_nonneg x rest). lia.
    + intros [Hi H0]. destruct (decide (i ∈ row)) as [Hrw|Hrw]; [right; apply Hnew; done|left].
      assert (i ∈ x :: ready) as Hin.
      { apply Hr. split; [rewrite HU; set_solver|]. rewrite HI, H0. rewrite <- occ_pos in Hrw. pose proof (occ_nonneg i row). lia. }
      apply elem_of_cons in Hin as [-> |?]; [done|done].
Qed.

Lemma kahn_step_inv cancel m k : kahn_inv m k ->
  match kahn_step cancel g k with inl k' => exists m', m = S m' /\ kahn_inv m' k' | inr r => kahn_post cancel r end.
Proof using HG.
  intros (V & U & HP & HL & HC & HN & HR & HV & HT & ->). unfold kahn_step. destruct (k_ready k) as [|x ready] eqn:ER.
  - cbn [kahn_post returns]. exists V, U. split_and!; [done..|]. intros i Hi. pose proof (into_nonneg i U).
    destruct (decide (into i U = 0)) as [E|E]; [|lia]. assert (i ∈ @nil nat) by (by apply HR). set_solver.
  - assert (NoDup (V ++ U)) as HND by (rewrite HP; apply NoDup_seq).
    assert (forall i, i ∈ V ++ U <-> (i < n)%nat) as Hall by (intros i; rewrite HP, elem_of_seq; lia).
    assert (x ∈ U /\ into x U = 0) as [HxU Hx0] by (apply HR; set_solver).
    assert (x < n)%nat as Hx by (apply Hall; set_solver).
    destruct (row_at x Hx) as (row & Hrow & Hrange). apply elem_of_Permutation in HxU as [rest HU].
    apply lookup_lt_is_Some_2 in Hx as [id Hid].
    unfold at_index. rewrite Hid, Hrow. cbn [ok_or rbind].
    destruct (check_cancelled cancel (k_polls k) id) as [k'|e] eqn:EC; cbn [rbind].
    2: { pose proof (returns_check cancel (k_polls k) id) as H. rewrite EC in H. exact H. }
    assert (forall i, into i U = occ i row + into i rest) as HI by (intros i; rewrite HU; by apply into_row).
    destruct (drop_children_spec row (k_children k) ready) as (ch' & new & -> & HL' & Hch' & HNn & Hnew).
    { by rewrite HL. }
    { intros i c Hc. assert (i < n)%nat as Hi by (rewrite <- HL; by eapply lookup_lt_Some). rewrite (HC i Hi) in Hc.
      injection Hc as <-. rewrite HI. pose proof (into_nonneg i rest). lia. }
    cbn [rbind].
    assert (forall i, (i < n)%nat -> ch' !! i = Some (into i rest)) as HC'.
    { intros i Hi. rewrite (Hch' i _ (HC i Hi)). f_equal. rewrite HI. lia. }
    destruct (kahn_ready V U x rest row new HND Hall HU HT Hrow ready HN HR HNn) as [HN' HR'].
    { intros i. rewrite Hnew. split; intros [Hi H0]; (split; [done|]).
      - assert (i < n)%nat as Hlt by (rewrite Forall_forall in Hrange; by apply Hrange). rewrite HC' in H0 by done. congruence.
      - rewrite HC'; [congruence|]. rewrite Forall_forall in Hrange. by apply Hrange. }
    exists (length rest). split; [by rewrite HU|]. exists (V ++ [x]), rest. cbn [k_children k_ready k_visited].
    split_and!; try done.
    + rewrite <- HP, HU, <- app_assoc. done.
    + lia.
    + rewrite HV, zlen_app, zlen_cons, zlen_nil. lia.
    + apply topo_snoc; [done|]. intros j Hj. pose proof (edge_range _ _ Hj) as [Hlt _]. apply Hall, elem_of_app in Hlt as [?|HjU]; [done|].
      exfalso. by apply (into_zero x U Hx0 j).
Qed.

(** The check accepts exactly the graphs without a cycle, unless it is cancelled. *)
Lemma check_acyclic_spec cancel k :
  match check_acyclic cancel k g with
  | Ok _ => forall i, ~ tc edge i i
  | Err Cycle => exists i, tc edge i i
  | Err e => cancelled cancel e
  end.
Proof using HG.
  unfold check_acyclic. pose proof (count_children_spec cancel k [] rows (replicate n 0) eq_refl (length_replicate _ _)) as HC.
  cbn [length] in HC. destruct (count_children cancel k g 0 rows (replicate n 0)) as [[ch k']|e]; cbn [returns rbind] in *.
  2: { destruct HC as [Hk [id ->]]. split; [done|by exists id]. }
  destruct HC as [HL HC]. destruct HG as [HLr _].
  assert (forall i, (i < n)%nat -> ch !! i = Some (into i (seq 0 n))) as Hch.
  { intros i Hi. rewrite (HC i 0); [by rewrite HLr|]. by apply lookup_replicate. }
  destruct (iter_nat_inv (kahn_step cancel g) kahn_inv (kahn_post cancel) (kahn_step_inv cancel) (S n) n
    {| k_children := ch; k_ready := indices 0 (map (fun c => c =? 0) ch); k_visited := 0; k_polls := k' |}) as (r & -> & HP).
  { exists [], (seq 0 n). cbn [k_children k_ready k_visited]. split_and!; try done.
    - apply indices_NoDup.
    - intros i. rewrite indices_spec. split.
      + intros (q & -> & Hq). rewrite list_lookup_fmap in Hq. cbn [Nat.add]. destruct (ch !! q) as [c|] eqn:Ec; [|done].
        assert (q < n)%nat as Hlt by (rewrite <- HL; by eapply lookup_lt_Some). rewrite Hch in Ec by done. injection Ec as <-.
        cbn in Hq. injection Hq as Hq%Z.eqb_eq. split; [apply elem_of_seq; lia|done].
      + intros [Hi%elem_of_seq H0]. exists i. split; [done|]. rewrite list_lookup_fmap, Hch by lia. rewrite H0. done.
    - intros l1 i l2 HE. by destruct l1.
    - by rewrite length_seq. }
  { lia. }
  destruct r as [v|e]; cbn [kahn_post returns rbind] in *; [|destruct HP as [Hk [id ->]]; split; [done|by exists id]].
  destruct HP as (V & U & HP & -> & HT & HU). assert (zlen V + zlen U = Z.of_nat n) as Hsum.
  { unfold zlen. rewrite <- Nat2Z.inj_add, <- length_app, HP, length_seq. done. }
  unfold zlen at 2. destruct (Z.eqb_spec (zlen V) (Z.of_nat n)) as [E|E]; cbn [negb].
  - assert (U = []) as -> by (apply zlen_0_inv; lia). rewrite app_nil_r in HP. intros i HR.
    assert (i ∈ V) as Hi.
    { rewrite HP, elem_of_seq. assert (exists j, edge i j) as [j He] by (inversion HR; eauto). apply edge_range in He. lia. }
    revert HR. apply (topo_acyclic V); [done| |done]. rewrite HP. apply NoDup_seq.
  - destruct (cycle_or_source edge U) as [(i & _ & Hi)|(i & Hi & Hno)]; [intros ->; change (zlen (@nil nat)) with 0 in Hsum; lia|eauto|].
    exfalso. destruct (into_pos i U (HU i Hi)) as (j & Hj & He). by apply (Hno j).
Qed.

(** ** Reachability *)

Definition reach_inv (root m : nat) (s : list bool * list nat) : Prop :=
  let '(marks, pending) := s in
  length marks = n /\ marked marks root /\ (forall i, marked marks i -> rtc edge root i) /\ (forall i, i ∈ pending -> marked marks i) /\
  (forall i j, marked marks i -> i ∉ pending -> edge i j -> marked marks j) /\ m = (unmarked marks + length pending)%nat.
Definition reach_post (root : nat) (r : result HistoryError (list bool)) : Prop :=
  exists marks, r = Ok marks /\ length marks = n /\ forall i, marked marks i <-> rtc edge root i.

Lemma closed_reach (marks : list bool) i j : (forall i j, marked marks i -> edge i j -> marked marks j) -> marked marks i -> rtc edge i j -> marked marks j.
Proof using. intros HC Hi HR. induction HR as [|i k j He _ IH]; [done|]. eauto. Qed.

Lemma reach_step_inv root m s : reach_inv root m s ->
  match reach_step g s with inl s' => exists m', m = S m' /\ reach_inv root m' s' | inr r => reach_post root r end.
Proof using HG.
  destruct s as [marks pending]. intros (HL & Hroot & HR & HP & HC & ->). cbn [reach_step]. destruct pending as [|x pending].
  - exists marks. split_and!; [done..|]. intros i. split; [apply HR|]. apply closed_reach; [|done].
    intros a b Ha. apply HC; [done|set_solver].
  - assert (marked marks x) as Hx by (apply HP; set_solver).
    assert (x < n)%nat as Hlt by (rewrite <- HL; by eapply lookup_lt_Some). destruct (row_at x Hlt) as (row & Hrow & HF).
    unfold at_index. rewrite Hrow. cbn [ok_or rbind].
    destruct (push_unmarked_spec row marks pending) as (marks' & new & -> & HL' & HM & HU & HN); [by rewrite HL|].
    exists (unmarked marks' + length (new ++ pending))%nat. rewrite length_app. split; [cbn [length]; lia|].
    split_and!; [lia|apply HM; tauto| | | |by rewrite length_app].
    + intros i [Hi|Hi]%HM; [by apply HR|]. eapply rtc_r; [by apply HR|]. by exists row.
    + intros i [Hi|Hi]%elem_of_app; apply HM; [apply HN in Hi; tauto|]. left. apply HP. set_solver.
    + intros i j Hi Hni He. apply HM. destruct (decide (i = x)) as [-> |Hne].
      { destruct He as (row' & Hr' & Hj). right. congruence. }
      apply HM in Hi as [Hi|Hi].
      * left. eapply HC; [done| |done]. set_solver.
      * destruct (decide (marks !! i = Some true)) as [Hm|Hm]; [left; eapply HC; [done| |done]; set_solver|].
        exfalso. apply Hni, elem_of_app. left. by apply HN.
Qed.

Lemma reachable_spec root : (root < n)%nat -> reach_post root (reachable g root).
Proof using HG.
  intros Hr. unfold reachable, at_index. rewrite (proj2 (lookup_replicate _ _ _ _)) by done. cbn [ok_or rbind].
  destruct (iter_nat_inv (reach_step g) (reach_inv root) (reach_post root) (reach_step_inv root) (S n) n
    (<[root := true]> (replicate n false), [root])) as (r & -> & HP); [|lia|done].
  assert (root < length (replicate n false))%nat as Hr' by (by rewrite length_replicate).
  assert (forall i, marked (<[root:=true]> (replicate n false)) i <-> i = root) as HM.
  { intros i. rewrite marked_insert by done. pose proof (marked_replicate n i). tauto. }
  split_and!.
  - by rewrite length_insert, length_replicate.
  - by apply HM.
  - intros i ->%HM. constructor.
  - intros i ->%list_elem_of_singleton. by apply HM.
  - intros i j ->%HM Hn. set_solver.
  - pose proof (unmarked_insert (replicate n false) root) as HU. rewrite unmarked_replicate in HU. rewrite HU at 1; [simpl; lia|].
    by apply lookup_replicate.
Qed.

(** ** Marking on top of a closed set *)

Definition closed (marks : list bool) : Prop := forall i j, marked marks i -> edge i j -> marked marks j.

Definition mark_inv (start : list bool) (root m : nat) (s : list bool * list nat) : Prop :=
  let '(marks, stack) := s in
  length marks = n /\ (forall i, marked start i -> marked marks i) /\ (forall i, marked marks i -> marked start i \/ rtc edge root i) /\
  (forall i, i ∈ stack -> (i < n)%nat /\ rtc edge root i) /\ (forall i j, marked marks i -> edge i j -> marked marks j \/ j ∈ stack) /\
  (marked marks root \/ root ∈ stack) /\ m = (length stack + weight marks rows)%nat.
Definition mark_post (start : list bool) (root : nat) (r : result HistoryError (list bool)) : Prop :=
  exists marks, r = Ok marks /\ length marks = n /\ closed marks /\ forall i, marked marks i <-> marked start i \/ rtc edge root i.

Lemma mark_step_inv start root m s : mark_inv start root m s ->
  match mark_step g s with inl s' => exists m', m = S m' /\ mark_inv start root m' s' | inr r => mark_post start root r end.
Proof using HG.
  destruct s as [marks stack]. intros (HL & HS & HR & HT & HC & Hroot & ->). cbn [mark_step]. destruct stack as [|x stack].
  - assert (closed marks) as HCl by (intros i j Hi He; destruct (HC i j Hi He); [done|set_solver]).
    exists marks. split_and!; [done..|]. intros i. split; [apply HR|]. intros [Hi|Hi]; [by apply HS|].
    destruct Hroot as [Hroot|]; [|set_solver]. by apply (closed_reach marks root).
  - destruct (HT x) as [Hx HRx]; [set_solver|]. destruct (row_at x Hx) as (row & Hrow & HF).
    unfold at_index. pose proof Hx as Hx'. rewrite <- HL in Hx'. pose proof Hx' as [b Hb]%lookup_lt_is_Some_2. rewrite Hb. cbn [ok_or rbind]. destruct b.
    + exists (length stack + weight marks rows)%nat. split; [cbn [length]; lia|].
      split_and!; try done.
      * intros i Hi. apply HT. set_solver.
      * intros i j Hi He. destruct (HC i j Hi He) as [?|[-> |?]%elem_of_cons]; [by left|by left|by right].
      * destruct Hroot as [?|[-> |?]%elem_of_cons]; [by left|by left|by right].
    + rewrite Hrow. cbn [ok_or rbind]. rewrite (weight_insert marks rows x row Hb Hrow).
      exists (length (reverse row ++ stack) + weight (<[x := true]> marks) rows)%nat.
      split; [rewrite length_app, length_reverse; cbn [length]; lia|]. split_and!; [by rewrite length_insert|..|done].
      * intros i Hi. apply marked_insert; [done|]. right. by apply HS.
      * intros i [-> |Hi]%marked_insert; [by right|by apply HR|done].
      * intros i [Hi|Hi]%elem_of_app; [|apply HT; set_solver]. rewrite elem_of_reverse in Hi. split.
        { rewrite Forall_forall in HF. by apply HF. } eapply rtc_r; [done|]. by exists row.
      * intros i j [-> |Hi]%marked_insert He; [| |done].
        { destruct He as (row' & Hr' & Hj). right. apply elem_of_app. left. rewrite elem_of_reverse. congruence. }
        rewrite marked_insert, elem_of_app by done. destruct (HC i j Hi He) as [?|[-> |?]%elem_of_cons]; tauto.
      * rewrite marked_insert, elem_of_app by done. destruct Hroot as [?|[-> |?]%elem_of_cons]; tauto.
Qed.

Lemma mark_spec root marks : (root < n)%nat -> length marks = n -> closed marks -> mark_post marks root (mark g root marks).
Proof using HG.
  intros Hr HL HC. unfold mark.
  destruct (iter_nat_inv (mark_step g) (mark_inv marks root) (mark_post marks root) (mark_step_inv marks root)
    (length (concat rows) + 2) (1 + weight marks rows) (marks, [root])) as (r & -> & HP); [| |done].
  - split_and!; try done.
    + by left.
    + intros i ->%list_elem_of_singleton. by split.
    + intros i j Hi He. left. by eapply HC.
    + right. set_solver.
  - pose proof (weight_le marks rows). lia.
Qed.

Lemma mark_all_spec roots marks : length marks = n -> closed marks ->
  (forall r, r ∈ roots -> exists i, positions g !! r = Some i /\ (i < n)%nat) ->
  exists marks', mark_all g roots marks = Ok marks' /\ length marks' = n /\ closed marks' /\
    forall i, marked marks' i <-> marked marks i \/ exists r k, r ∈ roots /\ positions g !! r = Some k /\ rtc edge k i.
Proof using HG.
  revert marks; induction roots as [|r roots IH]; intros marks HL HC HR; cbn [mark_all].
  - exists marks. split_and!; [done..|]. intros i. split; [tauto|]. intros [?|(r & k & Hr & _)]; [done|set_solver].
  - destruct (HR r) as (k & Hk & Hlt); [set_solver|]. unfold position_of. rewrite Hk. cbn [ok_or rbind].
    destruct (mark_spec k marks Hlt HL HC) as (marks1 & -> & HL1 & HC1 & HM1). cbn [rbind].
    destruct (IH marks1 HL1 HC1) as (marks' & -> & HL' & HC' & HM'); [intros; apply HR; set_solver|].
    exists marks'. split_and!; [done..|]. intros i. rewrite HM', HM1. split.
    + intros [[?|?]|(r' & k' & Hr' & Hk' & ?)]; [by left|right; exists r, k|right; exists r', k']; (split; [set_solver|done]).
    + intros [?|(r' & k' & [-> |Hr']%elem_of_cons & Hk' & ?)]; [tauto| |right; eauto]. left; right. congruence.
Qed.

(** ** Dominated commits *)

Lemma dominate_spec common todo index dom : length common = n -> length dom = n -> drop index rows = todo ->
  exists dom', dominate common index todo dom = Ok dom' /\ length dom' = n /\
    forall i, marked dom' i <-> marked dom i \/ exists j, (index <= j)%nat /\ marked common j /\ edge j i.
Proof using HG.
  intros HLc. revert index dom; induction todo as [|row todo IH]; intros index dom HLd HT; cbn [dominate].
  - exists dom. split_and!; [done..|]. intros i. split; [tauto|]. intros [?|(j & Hj & _ & He)]; [done|].
    apply edge_range in He as [Hlt _]. destruct HG as [HLr _]. apply (f_equal length) in HT. rewrite length_drop in HT. simpl in HT. lia.
  - assert (rows !! index = Some row) as Hrow by (rewrite <- (Nat.add_0_r index), <- lookup_drop, HT; done).
    assert (index < n)%nat as Hlt by (destruct HG as [HLr _]; rewrite <- HLr; by eapply lookup_lt_Some).
    pose proof Hlt as Hlt'. rewrite <- HLc in Hlt'. apply lookup_lt_is_Some_2 in Hlt' as [c Hc]. unfold at_index. rewrite Hc. cbn [ok_or rbind].
    assert (drop (S index) rows = todo) as HT' by (rewrite <- Nat.add_1_r, <- drop_drop, HT; done).
    destruct (row_at index Hlt) as (row' & Hrow' & HF). rewrite Hrow in Hrow'. injection Hrow' as <-.
    assert (exists dom1, (if c then set_all row dom else Ok dom) = Ok dom1 /\ length dom1 = n /\
      forall i, marked dom1 i <-> marked dom i \/ (c = true /\ i ∈ row)) as (dom1 & -> & HL1 & HM1).
    { destruct c; [|exists dom; split_and!; [done..|]; intuition congruence].
      destruct (set_all_spec row dom) as (d & -> & HLd' & HM); [by rewrite HLd|]. exists d. split_and!; [done|lia|].
      intros i. rewrite HM. tauto. }
    cbn [rbind]. destruct (IH (S index) dom1 HL1 HT') as (dom' & -> & HL' & HM'). exists dom'. split_and!; [done..|].
    intros i. rewrite HM', HM1. split.
    + intros [[?|[-> Hi]]|(j & Hj & Hcj & He)]; [by left|right|right; exists j; split_and!; [lia|done..]].
      exists index. split_and!; [done|done|by exists row].
    + intros [?|(j & Hj & Hcj & He)]; [tauto|]. destruct (decide (j = index)) as [-> |Hne].
      * left; right. destruct He as (row' & Hr' & Hi). unfold marked in Hcj. split; congruence.
      * right. exists j. split_and!; [lia|done..].
Qed.
End Finite.
End HistoryGraph.
