(* ===== verification/HistoryProofs.v ===== *)
(** * Correctness of ancestry queries

    Reading a graph collects exactly what is reachable, in breadth-first order; ancestry
    tests, merge bases and ranges over it are the relations they stand for. *)

From stdpp Require Import base list numbers strings sets gmap sorting relations.
From Stdlib Require Import ZArith Lia.
From S2P Require Import Prelude Objects Commits History HistoryGraph.

Module HistoryProofs.
Import Objects History HistoryGraph.

(** ** Lists without repetition, first occurrences kept *)

Section Firsts.
Context {A : Type} `{EqDecision A}.
Definition add (l : list A) (x : A) : list A := if decide (x ∈ l) then l else l ++ [x].
Definition firsts (l : list A) : list A := foldl add [] l.

Lemma add_in l x y : y ∈ add l x <-> y ∈ l \/ y = x.
Proof. unfold add. destruct (decide (x ∈ l)); [split; [tauto|]; by intros [?| ->]|]. rewrite elem_of_app, list_elem_of_singleton. done. Qed.
Lemma add_NoDup l x : NoDup l -> NoDup (add l x).
Proof. intros H. unfold add. destruct (decide (x ∈ l)); [done|]. apply NoDup_app. split_and!; [done|set_solver|apply NoDup_singleton]. Qed.
Lemma add_prefix l x : l `prefix_of` add l x.
Proof. unfold add. destruct (decide (x ∈ l)); [done|]. by exists [x]. Qed.
Lemma fold_add_prefix l xs : l `prefix_of` foldl add l xs.
Proof. revert l; induction xs as [|x xs IH]; intros l; [done|]. cbn [foldl]. etrans; [apply add_prefix|apply IH]. Qed.
Lemma fold_add_in l xs y : y ∈ foldl add l xs <-> y ∈ l \/ y ∈ xs.
Proof. revert l; induction xs as [|x xs IH]; intros l; cbn [foldl]; [set_solver|]. rewrite IH, add_in, elem_of_cons. tauto. Qed.
Lemma fold_add_NoDup l xs : NoDup l -> NoDup (foldl add l xs).
Proof. revert l; induction xs as [|x xs IH]; intros l H; [done|]. cbn [foldl]. by apply IH, add_NoDup. Qed.
End Firsts.

(** ** Discovering commits *)

Definition graph_wf (g : Graph) : Prop := NoDup (ids g) /\ forall id i, positions g !! id = Some i <-> ids g !! i = Some id.

Lemma no_graph_wf : graph_wf no_graph.
Proof. split; [constructor|]. intros id i. cbn [no_graph positions ids]. rewrite lookup_empty, lookup_nil. done. Qed.

Lemma wf_position g id : graph_wf g -> id ∈ ids g -> exists i, positions g !! id = Some i /\ ids g !! i = Some id /\ (i < length (ids g))%nat.
Proof.
  intros [_ HP] [i Hi]%list_elem_of_lookup_1. exists i. split_and!; [by apply HP|done|by eapply lookup_lt_Some].
Qed.

Definition discover_ok (id : ObjectId) (limit : Z) (g : Graph) (r : result HistoryError (nat * Graph)) : Prop :=
  match r with
  | Ok (i, g') => graph_wf g' /\ ids g' = add (ids g) id /\ parents g' = parents g /\ ids g' !! i = Some id /\ zlen (ids g') <= limit
  | Err e => e = Limit "commits" /\ id ∉ ids g /\ zlen (ids g) = limit
  end.

Lemma discover_spec id limit g : graph_wf g -> zlen (ids g) <= limit -> discover_ok id limit g (discover id limit g).
Proof.
  intros [HN HP] HL. unfold discover, discover_ok. destruct (positions g !! id) as [i|] eqn:E.
  - apply HP in E. unfold add. rewrite decide_True by (by eapply list_elem_of_lookup_2). done.
  - assert (id ∉ ids g) as Hni by (intros [i Hi]%list_elem_of_lookup_1; apply HP in Hi; congruence).
    destruct (Z.eqb_spec (zlen (ids g)) limit) as [El|El]; [done|]. cbn [ids positions parents]. unfold add. rewrite decide_False by done.
    split_and!; [split|done|done|by apply list_lookup_middle|].
    + apply NoDup_app. split_and!; [done|set_solver|apply NoDup_singleton].
    + intros id' i. cbn [ids positions]. destruct (decide (id' = id)) as [-> |Hne].
      * rewrite lookup_insert_eq. split; [intros [= <-]; by apply list_lookup_middle|].
        rewrite lookup_snoc_Some. intros [[_ Hi]|[-> _]]; [|done]. exfalso. apply Hni. by eapply list_elem_of_lookup_2.
      * rewrite lookup_insert_ne, HP, lookup_snoc_Some by done. split; [|intuition congruence].
        intros Hi. left. split; [by eapply lookup_lt_Some|done].
    + rewrite zlen_app, zlen_cons, zlen_nil. lia.
Qed.

(** A limit of commits was hit: [x] is one more than the [limit] commits [l]. *)
Definition over (limit : Z) (start xs : list ObjectId) : Prop :=
  exists pre x post, xs = pre ++ x :: post /\ x ∉ foldl add start pre /\ zlen (foldl add start pre) = limit.

Lemma discover_roots_spec roots limit g : graph_wf g -> zlen (ids g) <= limit ->
  match discover_roots roots limit g with
  | Ok g' => graph_wf g' /\ ids g' = foldl add (ids g) roots /\ parents g' = parents g /\ zlen (ids g') <= limit
  | Err e => e = Limit "commits" /\ over limit (ids g) roots
  end.
Proof.
  revert g; induction roots as [|r roots IH]; intros g HW HL; cbn [discover_roots]; [done|].
  pose proof (discover_spec r limit g HW HL) as HD. destruct (discover r limit g) as [[i g1]|e]; cbn [rbind discover_ok] in *.
  - destruct HD as (HW1 & E1 & EP & _ & HL1). specialize (IH g1 HW1 HL1). rewrite E1, EP in IH.
    destruct (discover_roots roots limit g1) as [g'|e]; [done|]. destruct IH as [-> (pre & x & post & -> & H1 & H2)].
    split; [done|]. by exists (r :: pre), x, post.
  - destruct HD as (-> & Hni & HE). split; [done|]. by exists [], r, roots.
Qed.

Lemma discover_parents_spec cancel id ps limit k g row : graph_wf g -> zlen (ids g) <= limit ->
  match discover_parents cancel id ps limit k g row with
  | Ok (row', _, g') => graph_wf g' /\ ids g' = foldl add (ids g) ps /\ parents g' = parents g /\ zlen (ids g') <= limit /\
      exists new, row' = row ++ new /\ Forall2 (fun i p => ids g' !! i = Some p) new ps
  | Err e => cancelled cancel e \/ (e = Limit "commits" /\ over limit (ids g) ps)
  end.
Proof.
  revert k g row; induction ps as [|p ps IH]; intros k g row HW HL; cbn [discover_parents].
  - split_and!; [done..|]. exists []. by rewrite app_nil_r.
  - unfold check_cancelled. destruct (cancel k) eqn:Ek; cbn [rbind]; [left; split; [by exists k|by exists id]|].
    pose proof (discover_spec p limit g HW HL) as HD. destruct (discover p limit g) as [[i g1]|e]; cbn [rbind discover_ok] in *.
    + destruct HD as (HW1 & E1 & EP & Hi & HL1). specialize (IH (S k) g1 (row ++ [i]) HW1 HL1). rewrite E1, EP in IH.
      destruct (discover_parents cancel id ps limit (S k) g1 (row ++ [i])) as [[[row' k'] g']|e].
      * destruct IH as (HW' & EI & EP' & HL' & new & -> & HF). split_and!; [done..|]. exists (i :: new). rewrite <- app_assoc.
        split; [done|]. constructor; [|done]. rewrite EI, <- E1. eapply prefix_lookup_Some; [done|]. apply fold_add_prefix.
      * destruct IH as [?|[-> (pre & x & post & -> & H1 & H2)]]; [by left|right]. split; [done|]. by exists (p :: pre), x, post.
    + destruct HD as (-> & Hni & HE). right. split; [done|]. by exists [], p, ps.
Qed.

(** ** The ancestry a reader sees *)

Section Reader.
Context {G : Type} `{CommitIndex G} (o : Objects_ G).

Section Verified.
Context (verified : ObjectId -> result HistoryError (option (list ObjectId))).

(** The parents of a commit: as [verified] says or as stored, none at a shallow root. *)
Definition edges (id : ObjectId) : result HistoryError (list ObjectId) :=
  let? v := verified id in
  let? ps := match v with Some ps => Ok ps | None => stored_parents o id end in
  Ok (if o_shallow o id then [] else ps).
Definition parent (a b : ObjectId) : Prop := exists ps, edges a = Ok ps /\ b ∈ ps.
Definition from (roots : list ObjectId) (id : ObjectId) : Prop := exists r, r ∈ roots /\ rtc parent r id.

Context (roots : list ObjectId) (limits : HistoryLimits) (stop : option ObjectId) (cancel : nat -> bool).
Context (Hmax : 0 <= max_commits limits).

(** Why a walk fails. *)
Definition excuse (e : HistoryError) : Prop :=
  cancelled cancel e \/
  (e = Limit "commits" /\ exists l, NoDup l /\ Forall (from roots) l /\ max_commits limits < zlen l) \/
  (e = Limit "parent occurrences" /\ exists l pss, NoDup l /\ Forall (from roots) l /\
     Forall2 (fun id ps => edges id = Ok ps) l pss /\ max_parents limits < zlen (concat pss)) \/
  (exists id, from roots id /\ edges id = Err e).

(** The first commits are treated, with their parents [pss]. *)
Record read_ok (g : Graph) (index : nat) (remaining : Z) (pss : list (list ObjectId)) : Prop := {
  ro_wf : graph_wf g;
  ro_rows : length (parents g) = index;
  ro_pss : length pss = index;
  ro_index : (index <= length (ids g))%nat;
  ro_limit : zlen (ids g) <= max_commits limits;
  ro_ids : ids g = firsts (roots ++ concat pss);
  ro_from : Forall (from roots) (ids g);
  ro_budget : remaining + zlen (concat pss) = max_parents limits;
  ro_edges k ps : pss !! k = Some ps -> exists id row, ids g !! k = Some id /\ edges id = Ok ps /\ parents g !! k = Some row /\
    Forall2 (fun i p => ids g !! i = Some p) row ps /\ stop <> Some id
}.

Lemma over_excuse start xs : NoDup start -> Forall (from roots) start -> Forall (from roots) xs -> over (max_commits limits) start xs ->
  excuse (Limit "commits").
Proof using Hmax.
  intros HN HS HX (pre & x & post & -> & Hx & HL). right; left. split; [done|]. exists (foldl add start pre ++ [x]).
  apply Forall_app in HX as [HP HX]. split_and!.
  - apply NoDup_app. split_and!; [by apply fold_add_NoDup|set_solver|apply NoDup_singleton].
  - apply Forall_app. split; [|constructor; [by inversion HX|constructor]]. rewrite Forall_forall in *.
    intros y [Hy|Hy]%fold_add_in; auto.
  - rewrite zlen_app, zlen_cons, zlen_nil. lia.
Qed.

Lemma roots_from : Forall (from roots) roots.
Proof using. rewrite Forall_forall. intros r Hr. exists r. split; [done|constructor]. Qed.

Lemma read_start : match discover_roots roots (max_commits limits) no_graph with
  | Ok g => read_ok g 0 (max_parents limits) []
  | Err e => excuse e
  end.
Proof using Hmax.
  pose proof (discover_roots_spec roots (max_commits limits) no_graph no_graph_wf Hmax) as HD.
  destruct (discover_roots roots (max_commits limits) no_graph) as [g|e].
  - destruct HD as (HW & EI & EP & HL). split; try done; [by rewrite EP|lia|by rewrite EI, app_nil_r| |cbn [concat]; rewrite zlen_nil; lia].
    rewrite EI, Forall_forall. intros y [Hy|Hy]%fold_add_in; [set_solver|]. pose proof roots_from as HR. rewrite Forall_forall in HR. auto.
  - destruct HD as [-> HD]. apply (over_excuse [] roots); [constructor|constructor|apply roots_from|done].
Qed.

Lemma from_step id ps : from roots id -> edges id = Ok ps -> Forall (from roots) ps.
Proof using.
  intros (r & Hr & HR) HE. rewrite Forall_forall. intros p Hp. exists r. split; [done|]. eapply rtc_r; [done|]. by exists ps.
Qed.

(** Treating one more commit. *)
Lemma read_extend g index remaining pss id ps row g' :
  read_ok g index remaining pss -> ids g !! index = Some id -> edges id = Ok ps -> stop <> Some id -> zlen ps <= remaining ->
  graph_wf g' -> ids g' = foldl add (ids g) ps -> parents g' = parents g -> zlen (ids g') <= max_commits limits ->
  Forall2 (fun i p => ids g' !! i = Some p) row ps ->
  read_ok {| ids := ids g'; positions := positions g'; parents := parents g' ++ [row] |} (S index) (remaining - zlen ps) (pss ++ [ps]).
Proof using Hmax.
  intros HR Hid HE Hstop Hrem HW EI EP HL HF. destruct HR as [RW RR RP RI RL RD RF RB RE].
  assert (ids g `prefix_of` ids g') as Hpre by (rewrite EI; apply fold_add_prefix).
  split; cbn [ids positions parents]; try done.
  - rewrite EP, length_app, RR. simpl. lia.
  - rewrite length_app, RP. simpl. lia.
  - pose proof (lookup_lt_Some _ _ _ Hid). apply prefix_length in Hpre. lia.
  - rewrite EI, RD. unfold firsts. rewrite concat_app. cbn [concat]. by rewrite app_nil_r, app_assoc, (foldl_app _ (roots ++ concat pss)).
  - rewrite EI, Forall_forall. rewrite Forall_forall in RF. intros y [Hy|Hy]%fold_add_in; [auto|].
    pose proof (from_step id ps (RF id ltac:(by eapply list_elem_of_lookup_2)) HE) as HP. rewrite Forall_forall in HP. auto.
  - rewrite concat_app, zlen_app. cbn [concat]. rewrite app_nil_r. lia.
  - intros k ps' Hk. apply lookup_snoc_Some in Hk as [[Hlt Hk]|[-> <-]].
    + destruct (RE k ps' Hk) as (id' & row' & H1 & H2 & H3 & H4 & H5). exists id', row'. split_and!; [eapply prefix_lookup_Some; [exact H1|done]|done| | |done].
      * rewrite EP. by apply lookup_app_l_Some.
      * eapply Forall2_impl; [exact H4|]. intros i p Hi. cbv beta in *. eapply prefix_lookup_Some; [exact Hi|done].
    + exists id, row. rewrite RP, EP, <- RR. split_and!; [|done|by apply list_lookup_middle|done|done].
      eapply prefix_lookup_Some; [|exact Hpre]. by rewrite RR.
Qed.

(** The graph after the loop: complete, or stopped at a commit. *)
Definition padded (g : Graph) : Graph :=
  {| ids := ids g; positions := positions g; parents := parents g ++ replicate (length (ids g) - length (parents g)) [] |}.
Definition finished (g : Graph) : Prop :=
  (exists remaining pss, read_ok g (length (ids g)) remaining pss) \/
  (exists g0 index remaining pss id, read_ok g0 index remaining pss /\ ids g0 !! index = Some id /\ stop = Some id /\ g = padded g0).

Definition read_inv (m : nat) (w : Walk) : Prop :=
  m = Z.to_nat (max_commits limits - Z.of_nat (w_index w)) /\
  exists pss, read_ok (w_graph w) (w_index w) (w_remaining w) pss.

Lemma check_excuse k id e : check_cancelled cancel k id = Err e -> excuse e.
Proof using. intros HE. left. pose proof (returns_check cancel k id) as HC. by rewrite HE in HC. Qed.

Lemma over_budget g index remaining pss id ps :
  read_ok g index remaining pss -> ids g !! index = Some id -> edges id = Ok ps -> checked_sub remaining (zlen ps) = None ->
  excuse (Limit "parent occurrences").
Proof using.
  intros HR Hid HE Hc. destruct HR as [RW RR RP RI RL RD RF RB RE]. right; right; left. split; [done|].
  exists (take (S index) (ids g)), (pss ++ [ps]). split_and!.
  - destruct RW as [HN _]. rewrite <- (take_drop (S index) (ids g)) in HN. by apply NoDup_app in HN as [? _].
  - by apply Forall_take.
  - rewrite (take_S_r _ _ _ Hid). apply Forall2_app; [|by repeat constructor].
    apply Forall2_same_length_lookup_2; [rewrite length_take; lia|]. intros k a b Ha Hb.
    destruct (RE k b Hb) as (id' & row & H1 & H2 & _). apply lookup_take_Some in Ha as [Ha _]. congruence.
  - rewrite concat_app, zlen_app. cbn [concat]. rewrite app_nil_r. unfold checked_sub in Hc. destruct (zlen ps <=? remaining) eqn:E; [done|].
    apply Z.leb_gt in E. lia.
Qed.

Lemma read_step_inv m w : read_inv m w ->
  match read_step o limits verified stop cancel w with
  | inl w' => exists m', m = S m' /\ read_inv m' w'
  | inr (Ok (g, _)) => finished g
  | inr (Err e) => excuse e
  end.
Proof using Hmax.
  intros (-> & pss & HR). unfold read_step. set (g := w_graph w) in *. destruct (ids g !! w_index w) as [id|] eqn:Hid.
  2: { left. exists (w_remaining w), pss. apply lookup_ge_None in Hid. pose proof (ro_index _ _ _ _ HR).
       replace (length (ids g)) with (w_index w) by lia. done. }
  assert (from roots id) as Hfrom.
  { pose proof (ro_from _ _ _ _ HR) as HF. rewrite Forall_forall in HF. apply HF. by eapply list_elem_of_lookup_2. }
  destruct (check_cancelled cancel (w_polls w) id) as [k|e] eqn:EC; cbn [rbind]; [|by eapply check_excuse].
  assert (forall e, edges id = Err e -> excuse e) as Herr by (intros e He; right; right; right; eauto).
  unfold edges in Herr. destruct (verified id) as [v|e] eqn:EV; cbn [rbind] in *; [|by apply Herr].
  destruct (match v with Some ps => Ok ps | None => stored_parents o id end) as [ps|e] eqn:EP; cbn [rbind] in *; [|by apply Herr].
  assert (edges id = Ok (if o_shallow o id then [] else ps)) as HE by (unfold edges; rewrite EV; cbn [rbind]; rewrite EP; done).
  case_bool_decide as Hs; [right; exists g, (w_index w), (w_remaining w), pss, id; done|].
  set (ps' := if o_shallow o id then [] else ps) in *.
  destruct (checked_sub (w_remaining w) (zlen ps')) as [r|] eqn:Er; cbn [ok_or rbind]; [|by eapply over_budget].
  apply checked_sub_Some in Er as [-> Hle].
  pose proof (discover_parents_spec cancel id ps' (max_commits limits) k g [] (ro_wf _ _ _ _ HR) (ro_limit _ _ _ _ HR)) as HD.
  destruct (discover_parents cancel id ps' (max_commits limits) k g []) as [[[row k'] g']|e]; cbn [rbind].
  - destruct HD as (HW & EI & EPa & HL & new & -> & HF). cbn [app].
    exists (Z.to_nat (max_commits limits - Z.of_nat (S (w_index w)))).
    pose proof (lookup_lt_Some _ _ _ Hid) as Hlt. pose proof (ro_limit _ _ _ _ HR) as HLim. unfold zlen in HLim.
    split; [lia|]. split; cbn [w_index w_remaining w_graph]; [done|]. exists (pss ++ [ps']). by eapply read_extend.
  - destruct HD as [?|[-> HO]]; [by left|]. eapply over_excuse; [apply (ro_wf _ _ _ _ HR)|apply (ro_from _ _ _ _ HR)| |done].
    by eapply from_step.
Qed.

(** ** Indices and commits *)

Lemma read_rows g index remaining pss : read_ok g index remaining pss ->
  Forall (Forall (fun p => p < length (ids g))%nat) (parents g).
Proof using.
  intros HR. rewrite Forall_lookup. intros k row Hk. assert (k < length pss)%nat as Hlt.
  { rewrite (ro_pss _ _ _ _ HR), <- (ro_rows _ _ _ _ HR). by eapply lookup_lt_Some. }
  apply lookup_lt_is_Some_2 in Hlt as [ps Hps]. destruct (ro_edges _ _ _ _ HR k ps Hps) as (id & row' & _ & _ & Hr & HF & _).
  rewrite Hr in Hk. injection Hk as ->. rewrite Forall_forall. intros i Hi. apply list_elem_of_lookup_1 in Hi as [j Hj].
  destruct (Forall2_lookup_l _ _ _ _ _ HF Hj) as (p & _ & Hp). by eapply lookup_lt_Some.
Qed.

Lemma padded_edge g i j : edge (padded g) i j -> edge g i j.
Proof using.
  intros (row & Hr & Hj). cbn [padded parents] in Hr. apply lookup_app_Some in Hr as [Hr|[_ Hr]]; [by exists row|].
  apply lookup_replicate in Hr as [-> _]. by apply elem_of_nil in Hj.
Qed.

Lemma edge_parent g index remaining pss i j : read_ok g index remaining pss -> edge g i j ->
  exists a b, ids g !! i = Some a /\ ids g !! j = Some b /\ parent a b.
Proof using.
  intros HR (row & Hr & Hj). assert (i < length pss)%nat as Hlt.
  { rewrite (ro_pss _ _ _ _ HR), <- (ro_rows _ _ _ _ HR). by eapply lookup_lt_Some. }
  apply lookup_lt_is_Some_2 in Hlt as [ps Hps]. destruct (ro_edges _ _ _ _ HR i ps Hps) as (a & row' & Ha & HE & Hr' & HF & _).
  rewrite Hr in Hr'. injection Hr' as <-. apply list_elem_of_lookup_1 in Hj as [q Hq].
  destruct (Forall2_lookup_l _ _ _ _ _ HF Hq) as (b & Hb & Hj). exists a, b. split_and!; [done..|]. exists ps.
  split; [done|]. by eapply list_elem_of_lookup_2.
Qed.

Lemma finished_ok g : finished g -> graph_ok g /\ graph_wf g /\ Forall (from roots) (ids g) /\
  (forall i j, edge g i j -> exists a b, ids g !! i = Some a /\ ids g !! j = Some b /\ parent a b).
Proof using.
  intros [(rem & pss & HR)|(g0 & index & rem & pss & id & HR & Hid & Hs & ->)].
  - split_and!; [split; [apply (ro_rows _ _ _ _ HR)|by eapply read_rows]|apply (ro_wf _ _ _ _ HR)|apply (ro_from _ _ _ _ HR)|].
    intros i j. by eapply edge_parent.
  - split_and!; [split| |apply (ro_from _ _ _ _ HR)|].
    + cbn [padded ids parents]. rewrite length_app, length_replicate, (ro_rows _ _ _ _ HR). pose proof (ro_index _ _ _ _ HR). lia.
    + cbn [padded ids parents]. apply Forall_app. split; [by eapply read_rows|]. by apply Forall_replicate.
    + exact (ro_wf _ _ _ _ HR).
    + intros i j He. apply padded_edge in He. exact (edge_parent g0 index rem pss i j HR He).
Qed.

Lemma tc_parent g i j : finished g -> tc (edge g) i j -> exists a b, ids g !! i = Some a /\ ids g !! j = Some b /\ tc parent a b.
Proof using.
  intros HF. pose proof (finished_ok g HF) as (_ & _ & _ & HE). induction 1 as [i j He|i k j He _ IH].
  - destruct (HE i j He) as (a & b & Ha & Hb & Hp). exists a, b. split_and!; [done..|by apply tc_once].
  - destruct (HE i k He) as (a & c & Ha & Hc & Hp). destruct IH as (c' & b & Hc' & Hb & HR). assert (c' = c) as -> by congruence.
    exists a, b. split_and!; [done..|]. by eapply tc_l.
Qed.

(** Reading returns an acyclic graph or has a reason. *)
Lemma read_until_spec :
  match read_until o roots limits verified stop cancel with
  | Ok g => finished g /\ forall i, ~ tc (edge g) i i
  | Err Cycle => excuse Cycle \/ exists id, from roots id /\ tc parent id id
  | Err e => excuse e
  end.
Proof using Hmax.
  unfold read_until. pose proof read_start as HS. destruct (discover_roots roots (max_commits limits) no_graph) as [g|e]; cbn [rbind].
  2: { destruct e; try done. by left. }
  rewrite iter_until_nat. set (w := {| w_graph := g; w_index := 0; w_remaining := max_parents limits; w_polls := 0 |}).
  destruct (iter_nat_inv (read_step o limits verified stop cancel) read_inv
    (fun r => match r with Ok (g, _) => finished g | Err e => excuse e end)) with
    (fuel := Pos.to_nat (Z.to_pos (max_commits limits + 1))) (m := Z.to_nat (max_commits limits)) (s := w) as (r & -> & HP).
  { intros m w' HI. pose proof (read_step_inv m w' HI) as HSt. destruct (read_step o limits verified stop cancel w') as [|[[? ?]|]]; done. }
  { split; cbn [w w_index w_remaining w_graph]; [f_equal; lia|]. by exists []. }
  { lia. }
  destruct r as [[g' k]|e]; cbn [rbind]; [|destruct e; try done; by left].
  destruct (finished_ok g' HP) as (HG & _ & HF & _). pose proof (check_acyclic_spec g' HG cancel k) as HA.
  destruct (check_acyclic cancel k g') as [u|e]; cbn [rbind]; [done|]. destruct e; try by left.
  right. destruct HA as [i HA]. destruct (tc_parent g' i i HP HA) as (a & b & Ha & Hb & HT). assert (b = a) as -> by congruence.
  exists a. split; [|done]. rewrite Forall_forall in HF. apply HF. by eapply list_elem_of_lookup_2.
Qed.

(** A graph in which every commit is treated is closed under parents. *)
Lemma read_ok_step g remaining pss i a b : read_ok g (length (ids g)) remaining pss ->
  ids g !! i = Some a -> parent a b -> exists j, ids g !! j = Some b /\ edge g i j.
Proof using.
  intros HR Ha (ps & HE & Hb). assert (i < length pss)%nat as Hlt by (rewrite (ro_pss _ _ _ _ HR); by eapply lookup_lt_Some).
  apply lookup_lt_is_Some_2 in Hlt as [ps' Hps]. destruct (ro_edges _ _ _ _ HR i ps' Hps) as (a' & row & Ha' & HE' & Hrow & HF & _).
  assert (a' = a) as -> by congruence. rewrite HE in HE'. injection HE' as <-.
  apply list_elem_of_lookup_1 in Hb as [q Hq]. destruct (Forall2_lookup_r _ _ _ _ _ HF Hq) as (j & Hj & Hb).
  exists j. split; [done|]. exists row. split; [done|]. by eapply list_elem_of_lookup_2.
Qed.

Lemma read_ok_from g remaining pss id : read_ok g (length (ids g)) remaining pss -> id ∈ ids g <-> from roots id.
Proof using.
  intros HR. split; [intros Hid; pose proof (ro_from _ _ _ _ HR) as RF; rewrite Forall_forall in RF; by apply RF|].
  intros (r & Hr & HP). assert (r ∈ ids g) as Hin.
  { rewrite (ro_ids _ _ _ _ HR). unfold firsts. apply fold_add_in. right. apply elem_of_app. by left. }
  clear Hr. induction HP as [|a b c Hp _ IH]; [done|]. apply IH. apply list_elem_of_lookup_1 in Hin as [i Hi].
  destruct (read_ok_step g remaining pss i a b HR Hi Hp) as (j & Hj & _). by eapply list_elem_of_lookup_2.
Qed.
End Verified.

(** ** Complete graphs *)

Notation o_edges := (edges (graph_parents o)).
Notation o_parent := (parent (graph_parents o)).
Notation o_from := (from (graph_parents o)).
Notation no_cancel := (fun _ : nat => false).

Lemma graph_parents_ok id : exists v, graph_parents o id = Ok v.
Proof. unfold graph_parents. eauto. Qed.

Lemma edges_no_cycle id : o_edges id <> Err Cycle.
Proof.
  unfold edges. destruct (graph_parents_ok id) as [v Hv]. rewrite Hv. cbn [rbind]. destruct v; cbn [rbind]; [done|].
  unfold stored_parents. destruct (o_read o id) as [[[kind data]|]|]; cbn [map_err ok_or rbind]; try done.
  case_bool_decide; [done|]. by destruct (Commits.commit_parse _ _).
Qed.

(** Every commit that is read has parents, and all of them are read. *)
Record complete (roots : list ObjectId) (g : Graph) : Prop := {
  co_graph : graph_ok g;
  co_wf : graph_wf g;
  co_from id : id ∈ ids g <-> o_from roots id;
  co_order : exists pss, Forall2 (fun id ps => o_edges id = Ok ps) (ids g) pss /\ ids g = firsts (roots ++ concat pss);
  co_edge i j : edge g i j <-> exists a b, ids g !! i = Some a /\ ids g !! j = Some b /\ o_parent a b;
  co_acyclic i : ~ tc (edge g) i i
}.

Lemma read_ok_complete roots limits g remaining pss :
  read_ok (graph_parents o) roots limits None g (length (ids g)) remaining pss -> (forall i, ~ tc (edge g) i i) -> complete roots g.
Proof.
  intros HR HA. destruct HR as [RW RR RP RI RL RD RF RB RE].
  assert (Forall2 (fun id ps => o_edges id = Ok ps) (ids g) pss) as HF2.
  { apply Forall2_same_length_lookup_2; [done|]. intros k id ps Hid Hps. destruct (RE k ps Hps) as (id' & row & H1 & H2 & _). congruence. }
  assert (HRR : read_ok (graph_parents o) roots limits None g (length (ids g)) remaining pss) by done.
  split; try done.
  - split; [done|]. by eapply read_rows.
  - intros id. by eapply read_ok_from.
  - eauto.
  - intros i j. split; [by eapply edge_parent|]. intros (a & b & Ha & Hb & Hp). destruct (read_ok_step _ _ _ _ _ _ _ _ _ _ HRR Ha Hp) as (j' & Hj' & He).
    destruct RW as [HN _]. assert (j = j') as -> by (eapply NoDup_lookup; [exact HN|exact Hb|exact Hj']). done.
Qed.

Lemma read_complete roots limits : 0 <= max_commits limits ->
  match read o roots limits with
  | Ok g => complete roots g /\ zlen (ids g) <= max_commits limits
  | Err Cycle => exists id, o_from roots id /\ tc o_parent id id
  | Err e => excuse (graph_parents o) roots limits no_cancel e
  end.
Proof.
  intros Hmax. unfold read. pose proof (read_until_spec (graph_parents o) roots limits None no_cancel Hmax) as HS.
  destruct (read_until o roots limits (graph_parents o) None no_cancel) as [g|e].
  - destruct HS as [HF HA]. destruct HF as [(rem & pss & HR)|(? & ? & ? & ? & ? & _ & _ & ? & _)]; [|done].
    split; [by eapply read_ok_complete|apply (ro_limit _ _ _ _ _ _ _ _ HR)].
  - destruct e; try done. destruct HS as [HE|?]; [|done]. exfalso.
    destruct HE as [[[? ?] _]|[[? _]|[[? _]|(id & _ & HE)]]]; try done.
    by eapply edges_no_cycle.
Qed.

Section Complete.
Context (roots : list ObjectId) (g : Graph) (HC : complete roots g).

Lemma complete_rtc i a j : ids g !! i = Some a -> rtc (edge g) i j <-> exists b, ids g !! j = Some b /\ rtc o_parent a b.
Proof using HC.
  intros Ha. split.
  - intros HR. revert a Ha. induction HR as [i|i k j He _ IH]; intros a Ha; [exists a; split; [done|constructor]|].
    apply (co_edge _ _ HC) in He as (a' & c & Ha' & Hc & Hp). assert (a' = a) as -> by congruence.
    destruct (IH c Hc) as (b & Hb & HR). exists b. split; [done|]. by eapply rtc_l.
  - intros (b & Hb & HR). revert i Ha. induction HR as [a|a c b Hp HR IH]; intros i Ha.
    + destruct (co_wf _ _ HC) as [HN _]. assert (i = j) as -> by (eapply NoDup_lookup; [exact HN|exact Ha|exact Hb]). constructor.
    + assert (c ∈ ids g) as Hc.
      { assert (a ∈ ids g) as Hin by (by eapply list_elem_of_lookup_2). apply (co_from _ _ HC) in Hin as (r & Hr & HRr).
        apply (co_from _ _ HC). exists r. split; [done|]. by eapply rtc_r. }
      apply list_elem_of_lookup_1 in Hc as [k Hk]. eapply rtc_l; [|by apply IH]. apply (co_edge _ _ HC). eauto.
Qed.

Lemma complete_acyclic id : o_from roots id -> ~ tc o_parent id id.
Proof using HC.
  intros Hf HT. apply (co_from _ _ HC) in Hf as Hin. apply list_elem_of_lookup_1 in Hin as [i Hi].
  inversion HT as [? ? Hp|? c ? Hp HT']; subst.
  - apply (co_acyclic _ _ HC i). apply tc_once. apply (co_edge _ _ HC). eauto.
  - apply (co_acyclic _ _ HC i).
    assert (c ∈ ids g) as Hc.
    { destruct Hf as (r & Hr & HRr). apply (co_from _ _ HC). exists r. split; [done|]. by eapply rtc_r. }
    apply list_elem_of_lookup_1 in Hc as [k Hk]. eapply tc_rtc_r; [apply tc_once; apply (co_edge _ _ HC); eauto|].
    apply (complete_rtc k c); [done|]. exists id. split; [done|]. by apply tc_rtc.
Qed.

(** The first root is the first commit. *)
Lemma complete_first r rest : roots = r :: rest -> ids g !! 0%nat = Some r.
Proof using HC.
  intros ->. destruct (co_order _ _ HC) as (pss & _ & ->). unfold firsts. cbn [app foldl].
  eapply prefix_lookup_Some; [|apply fold_add_prefix]. unfold add. rewrite decide_False by apply not_elem_of_nil. done.
Qed.

Lemma complete_reachable id : o_from roots id ->
  exists i marks, positions g !! id = Some i /\ ids g !! i = Some id /\ reachable g i = Ok marks /\ length marks = length (ids g) /\
    forall j b, ids g !! j = Some b -> marked marks j <-> rtc o_parent id b.
Proof using HC.
  intros Hf. apply (co_from _ _ HC) in Hf. destruct (wf_position g id (co_wf _ _ HC) Hf) as (i & Hp & Hi & Hlt).
  destruct (reachable_spec g (co_graph _ _ HC) i Hlt) as (marks & Er & HL & HM). exists i, marks. split_and!; [done..|].
  intros j b Hb. rewrite HM, (complete_rtc i id j Hi). split; [|eauto]. intros (b' & Hb' & ?). congruence.
Qed.
End Complete.
End Reader.
End HistoryProofs.
