(* ===== verification/HistoryCorrect.v ===== *)
(** * Ancestry queries are exact

    Walks, ancestry tests and merge bases, by reading objects and through an attached
    commit graph. *)

From stdpp Require Import base list numbers strings sets gmap sorting relations.
From Stdlib Require Import ZArith Lia.
From S2P Require Import Prelude Objects Commits History HistoryGraph HistoryProofs.

Module HistoryCorrect.
Import Objects History HistoryGraph HistoryProofs.

(** ** Marks and selections *)

Lemma marked_zip (f : bool -> bool -> bool) a b i : length a = length b ->
  marked (zip_with f a b) i <-> exists x y, a !! i = Some x /\ b !! i = Some y /\ f x y = true.
Proof.
  intros HL. unfold marked. rewrite lookup_zip_with_Some. split; [intros (x & y & ? & ? & ?)|intros (x & y & ? & ? & ?)]; exists x, y; done.
Qed.
Lemma marked_dec (marks : list bool) i : (i < length marks)%nat -> marks !! i = Some true \/ marks !! i = Some false.
Proof. intros [[] ?]%lookup_lt_is_Some_2; auto. Qed.
Lemma marked_and a b i : length a = length b -> marked (zip_with andb a b) i <-> marked a i /\ marked b i.
Proof.
  intros HL. rewrite marked_zip by done. unfold marked. split.
  - intros (x & y & Hx & Hy & [-> ->]%andb_true_iff). done.
  - intros [Hx Hy]. by exists true, true.
Qed.
Lemma marked_andn a b i : length a = length b -> marked (zip_with (fun x y => x && negb y) a b) i <-> marked a i /\ ~ marked b i.
Proof.
  intros HL. rewrite marked_zip by done. unfold marked. split.
  - intros (x & y & Hx & Hy & [-> ->%negb_true_iff]%andb_true_iff). split; congruence.
  - intros [Hx Hy]. exists true, false. split_and!; [done| |done]. apply lookup_lt_Some in Hx. rewrite HL in Hx.
    destruct (marked_dec b i Hx); done.
Qed.

Lemma selected_spec l marks id : length marks = length l -> id ∈ selected l marks <-> exists i, l !! i = Some id /\ marked marks i.
Proof.
  revert marks; induction l as [|x l IH]; intros [|m marks] HL; try done; cbn [selected].
  - split; [set_solver|]. by intros (i & ? & _).
  - simpl in HL. rewrite elem_of_app, IH by lia. unfold marked. split.
    + intros [Hx|(i & Hi & Hm)]; [|by exists (S i)]. destruct m; [|set_solver]. apply list_elem_of_singleton in Hx as ->. by exists 0%nat.
    + intros ([|i] & Hi & Hm); cbn in Hi, Hm; [|right; eauto]. injection Hi as ->. injection Hm as ->. left. set_solver.
Qed.
Lemma selected_sublist l marks : selected l marks `sublist_of` l.
Proof.
  revert marks; induction l as [|x l IH]; intros [|m marks]; cbn [selected]; [constructor..|apply sublist_nil_l|].
  destruct m; cbn [app]; by constructor.
Qed.
Lemma selected_NoDup l marks : NoDup l -> NoDup (selected l marks).
Proof. intros HN. eapply sublist_NoDup; [done|apply selected_sublist]. Qed.

(** ** Order of identities *)

Lemma id_cmp_gt_lt a b : id_cmp a b = Gt -> id_cmp b a = Lt.
Proof. destruct a, b; simpl; try done; apply bytes_cmp_gt_lt. Qed.

(** The parents of one commit of the search: the new ones are pushed. *)
Lemma visit_parents_spec a limit ps seen stack : Z.of_nat (size seen) <= limit ->
  match visit_parents a limit ps seen stack with
  | inl (seen', stack') => a ∉ ps /\ Z.of_nat (size seen') <= limit /\ (forall x, x ∈ seen' <-> x ∈ seen \/ x ∈ ps) /\
      exists new, stack' = new ++ stack /\ NoDup new /\ (forall x, x ∈ new <-> x ∈ ps /\ x ∉ seen) /\
        size seen' = (size seen + length new)%nat
  | inr (Ok b) => b = true /\ a ∈ ps
  | inr (Err e) => e = Limit "commits" /\ exists seen' : gset ObjectId, (forall x, x ∈ seen' -> x ∈ seen \/ x ∈ ps) /\
      limit < Z.of_nat (size seen')
  end.
Proof.
  revert seen stack; induction ps as [|p ps IH]; intros seen stack HS; cbn [visit_parents].
  - split_and!; [set_solver|done|set_solver|]. exists []. split_and!; [done|constructor|set_solver|simpl; lia].
  - case_bool_decide as Ha; [split; [done|subst; set_solver]|]. case_bool_decide as Hin.
    + specialize (IH seen stack HS). destruct (visit_parents _ _ ps seen stack) as [[seen' stack']|[b|e]].
      * destruct IH as (H1 & H2 & H3 & new & -> & H4 & H5 & H6). split_and!; [set_solver|done|set_solver|].
        exists new. split_and!; [done..| |done]. intros x. rewrite H5. set_solver.
      * split; [apply IH|set_solver].
      * destruct IH as (-> & seen' & H1 & H2). split; [done|]. exists seen'. split; [set_solver|done].
    + assert (size ({[p]} ∪ seen) = S (size seen)) as Hsz.
      { rewrite size_union by set_solver. by rewrite size_singleton. }
      destruct (Z.ltb_spec limit (Z.of_nat (size ({[p]} ∪ seen)))) as [Hlt|Hle].
      * split; [done|]. exists ({[p]} ∪ seen). split; [set_solver|done].
      * specialize (IH ({[p]} ∪ seen) (p :: stack) Hle). destruct (visit_parents _ _ ps _ _) as [[seen' stack']|[b|e]].
        -- destruct IH as (H1 & H2 & H3 & new & -> & H4 & H5 & H6). split_and!; [set_solver|done|set_solver|].
           exists (new ++ [p]). rewrite <- app_assoc, length_app. split_and!; [done| | |rewrite H6, Hsz; simpl; lia].
           { apply NoDup_app. split_and!; [done| |apply NoDup_singleton]. intros x Hx ->%list_elem_of_singleton. set_solver. }
           intros x. rewrite elem_of_app, H5, list_elem_of_singleton. split; [set_solver|]. intros [Hx Hn].
           destruct (decide (x = p)); [by right|left]. set_solver.
        -- split; [apply IH|set_solver].
        -- destruct IH as (-> & seen' & H1 & H2). split; [done|]. exists seen'. split; [set_solver|done].
Qed.

Section Reader.
Context {G : Type} `{CommitIndex G} (o : Objects_ G) (limits : HistoryLimits).
Notation o_edges := (edges o (graph_parents o)).
Notation o_parent := (parent o (graph_parents o)).
Notation o_from := (from o (graph_parents o)).
Notation o_excuse roots := (excuse o (graph_parents o) roots limits (fun _ => false)).
Context (Hmax : 0 <= max_commits limits).

(** [ancestor a d]: [a] is [d] or is reached from it through parents. *)
Definition ancestor (a d : ObjectId) : Prop := rtc o_parent d a.
Definition common (l r id : ObjectId) : Prop := ancestor id l /\ ancestor id r.
(** A best common ancestor is no ancestor of another one. *)
Definition best_common (l r id : ObjectId) : Prop :=
  common l r id /\ forall c, common l r c -> ancestor id c -> c = id.

Lemma merge_bases_ok left right :
  match merge_bases_with o left right limits with
  | Ok bases => Sorted (cmp_le id_cmp) bases /\ NoDup bases /\ forall id, id ∈ bases <-> best_common left right id
  | Err Cycle => exists id, o_from [left; right] id /\ tc o_parent id id
  | Err e => o_excuse [left; right] e
  end.
Proof using Hmax.
  unfold merge_bases_with. pose proof (read_complete o [left; right] limits Hmax) as HR.
  destruct (read o [left; right] limits) as [g|e]; cbn [rbind]; [|destruct e; done]. destruct HR as [HC _].
  assert (o_from [left; right] left) as Hfl by (exists left; split; [set_solver|constructor]).
  assert (o_from [left; right] right) as Hfr by (exists right; split; [set_solver|constructor]).
  pose proof (complete_first o _ g HC left [right] eq_refl) as H0.
  destruct (complete_reachable o _ g HC left Hfl) as (i & lm & _ & Hi & Hlm & HLl & HMl).
  assert (i = 0%nat) as -> by (eapply NoDup_lookup; [apply (co_wf _ _ _ HC)|exact Hi|exact H0]).
  rewrite Hlm. cbn [rbind].
  destruct (complete_reachable o _ g HC right Hfr) as (j & rm & Hpj & Hj & Hrm & HLr & HMr).
  unfold position_of. rewrite Hpj. cbn [ok_or rbind]. rewrite Hrm. cbn [rbind].
  set (cm := zip_with andb lm rm). assert (length cm = length (ids g)) as HLc by (unfold cm; rewrite length_zip_with; lia).
  assert (forall k b, ids g !! k = Some b -> marked cm k <-> common left right b) as HMc.
  { intros k b Hb. unfold cm. rewrite marked_and by lia. rewrite (HMl k b Hb), (HMr k b Hb). done. }
  destruct (dominate_spec g (co_graph _ _ _ HC) cm (parents g) 0 (replicate (length (ids g)) false)) as (dom & -> & HLd & HMd);
    [done|by rewrite length_replicate|done|]. cbn [rbind].
  set (sel := selected (ids g) _). assert (forall id, id ∈ sel <-> best_common left right id) as Hsel.
  { intros id. unfold sel. rewrite selected_spec by (rewrite length_zip_with; lia). split.
    - intros (k & Hk & [Hck Hdk]%marked_andn); [|lia]. apply (HMc k id Hk) in Hck. split; [done|]. intros c Hcc Hanc.
      destruct (decide (c = id)) as [|Hne]; [done|exfalso]. apply Hdk, HMd. right.
      apply rtc_inv_r in Hanc as [->|(c' & Hcc' & Hp)]; [done|].
      assert (common left right c') as Hc'.
      { destruct Hcc as [H1 H2]. split; unfold ancestor in *; (etrans; [eassumption|done]). }
      assert (c' ∈ ids g) as [q Hq]%list_elem_of_lookup_1.
      { apply (co_from _ _ _ HC). exists left. split; [set_solver|apply Hc']. }
      exists q. split_and!; [lia|by apply (HMc q c' Hq)|]. apply (co_edge _ _ _ HC). eauto.
    - intros [Hc Hbest]. assert (id ∈ ids g) as [k Hk]%list_elem_of_lookup_1.
      { apply (co_from _ _ _ HC). exists left. split; [set_solver|apply Hc]. }
      exists k. split; [done|]. apply marked_andn; [lia|]. split; [by apply (HMc k id Hk)|]. rewrite HMd.
      intros [Hm|(q & _ & Hq & He)]; [by apply marked_replicate in Hm|].
      apply (co_edge _ _ _ HC) in He as He'. destruct He' as (a & b & Ha & Hb & Hp). assert (b = id) as -> by congruence.
      assert (a = id) as ->. { apply Hbest; [by apply (HMc q a Ha)|]. by apply rtc_once. }
      assert (q = k) as -> by (eapply NoDup_lookup; [apply (co_wf _ _ _ HC)|exact Ha|exact Hb]).
      apply (co_acyclic _ _ _ HC k). by apply tc_once. }
  pose proof (sort_by_perm id_cmp sel) as HP. split_and!.
  - apply sort_by_Sorted, id_cmp_gt_lt.
  - rewrite HP. apply selected_NoDup, (co_wf _ _ _ HC).
  - intros id. rewrite HP. apply Hsel.
Qed.

(** ** The attached graph *)

Section Indexed.
Context (ok : G -> Prop) `{!CommitIndexLaws G ok} (g : G) (Hg : o_graph o = Some g) (Hok : ok g).

Lemma indexed_edges id p : g_position g id = Some p ->
  exists ps c, g_parent_positions g p = Some ps /\ g_get g id = Some c /\ gc_id c = id /\
    Forall2 (fun q i => g_position g i = Some q) ps (gc_parents c) /\
    o_edges id = Ok (if o_shallow o id then [] else gc_parents c).
Proof using Hg Hok CommitIndexLaws0.
  intros Hp. destruct (parents_at g id p Hok Hp) as (ps & c & H1 & H2 & H3 & H4). exists ps, c. split_and!; [done..|].
  unfold edges, graph_parents. rewrite Hg, H2. done.
Qed.

Lemma generation_at_position id p n : g_position g id = Some p -> g_generation g id = Some n -> g_generation_at g p = Some n.
Proof using Hg Hok CommitIndexLaws0.
  intros Hp Hn. destruct (generation_position g id n Hok Hn) as (p' & Hp' & Hn'). congruence.
Qed.

(** A parent of an indexed commit is indexed, with a smaller generation. *)
Lemma indexed_parent a b n : g_generation g a = Some n -> o_parent a b -> exists m, g_generation g b = Some m /\ m < n.
Proof using Hg Hok CommitIndexLaws0.
  intros Hn (l & HE & Hb). destruct (generation_position g a n Hok Hn) as (p & Hp & Hpn).
  destruct (indexed_edges a p Hp) as (ps & c & Hps & _ & _ & HF & HE'). rewrite HE in HE'. injection HE' as ->.
  destruct (o_shallow o a); [by apply elem_of_nil in Hb|]. apply list_elem_of_lookup_1 in Hb as [k Hk].
  destruct (Forall2_lookup_r _ _ _ _ _ HF Hk) as (q & Hq & Hbq).
  destruct (edge_generation g p q ps n Hok Hps ltac:(by eapply list_elem_of_lookup_2) Hpn) as (m & Hm & Hlt).
  destruct (position_generation g b q Hok Hbq) as [m' Hm']. rewrite (generation_at_position b q m' Hbq Hm') in Hm. injection Hm as ->.
  eauto.
Qed.

Lemma indexed_ancestor_generation a d n : g_generation g d = Some n -> ancestor a d ->
  exists m, g_generation g a = Some m /\ (a = d \/ m < n).
Proof using Hg Hok CommitIndexLaws0.
  intros Hn HR. revert n Hn. induction HR as [x|x y z Hp _ IH]; intros n Hn; [eauto|].
  destruct (indexed_parent x y n Hn Hp) as (m & Hm & Hlt). destruct (IH m Hm) as (k & Hk & Hc). exists k. split; [done|right].
  destruct Hc as [-> |?]; [|lia]. rewrite Hm in Hk. injection Hk as <-. done.
Qed.

(** ** The search for an ancestor *)

Context (a d : ObjectId).


Context (floor : Z) (Hfloor : g_generation g a = Some floor) (nd : Z) (Hnd : g_generation g d = Some nd).

(** [dn] are the commits whose parents were followed. *)
Record search_ok (s : Search) (dn : list ObjectId) (pss : list (list ObjectId)) : Prop := {
  so_size : Z.of_nat (size (s_seen s)) <= max_commits limits;
  so_seen x : x ∈ s_seen s -> o_from [d; a] x;
  so_d : d ∈ s_seen s;
  so_a : a ∈ s_seen s;
  so_stack x : x ∈ s_stack s -> x ∈ s_seen s /\ rtc o_parent d x;
  so_NoDup : NoDup (dn ++ s_stack s);
  so_dn x : x ∈ dn -> x ∈ s_seen s;
  so_done x : x ∈ s_seen s -> x ∉ s_stack s ->
    x = a \/ (exists n, g_generation g x = Some n /\ n <= floor) \/ (forall b, o_parent x b -> b ∈ s_seen s /\ b <> a);
  so_pss : Forall2 (fun id ps => o_edges id = Ok ps) dn pss;
  so_budget : s_remaining s + zlen (concat pss) = max_parents limits;
  so_same : d = a -> s_stack s = [d]
}.
Definition search_inv (m : nat) (s : Search) : Prop :=
  (exists dn pss, search_ok s dn pss) /\ m = (Z.to_nat (max_commits limits) - size (s_seen s) + length (s_stack s))%nat.
Definition search_post (r : result HistoryError bool) : Prop :=
  match r with
  | Ok b => b = true <-> ancestor a d
  | Err e => o_excuse [d; a] e
  end.

Lemma search_end s dn pss : search_ok s dn pss -> s_stack s = [] -> ~ ancestor a d.
Proof using All.
  intros HS HE HR. assert (d <> a) as Hne by (intros E; apply (so_same _ _ _ HS) in E; congruence).
  assert (forall x, rtc o_parent x a -> x <> a -> x ∈ s_seen s -> forall n, g_generation g x = Some n -> False) as Hgen.
  { intros x Hx. remember a as z eqn:Ez in Hx. induction Hx as [x|x y z Hp HRy IH]; intros Hxa Hx n Hn; [done|]. subst z.
    destruct (so_done _ _ _ HS x Hx) as [?|[(k & Hk & Hle)|Hb]]; [rewrite HE; set_solver|done| |].
    - destruct (indexed_ancestor_generation a x k Hk) as (m & Hm & [?|Hlt]); [by eapply rtc_l|congruence|].
      rewrite Hfloor in Hm. injection Hm as <-. lia.
    - destruct (Hb y Hp) as [Hy Hya]. destruct (indexed_parent x y n Hn Hp) as (m & Hm & _). by eapply IH. }
  eapply Hgen; [exact HR|done|apply (so_d _ _ _ HS)|exact Hnd].
Qed.

(** Following the parents of the commit on top of the stack. *)
Lemma search_push s dn pss x stack ps seen' new :
  search_ok s dn pss -> s_stack s = x :: stack -> x <> a -> o_edges x = Ok ps -> a ∉ ps ->
  Z.of_nat (size seen') <= max_commits limits -> (forall y, y ∈ seen' <-> y ∈ s_seen s \/ y ∈ ps) ->
  NoDup new -> (forall y, y ∈ new <-> y ∈ ps /\ y ∉ s_seen s) ->
  search_ok {| s_seen := seen'; s_remaining := s_remaining s - zlen ps; s_stack := new ++ stack |} (x :: dn) (ps :: pss).
Proof using All.
  intros HS Hst Hxa HE Hna Hsz Hseen HN Hnew. destruct HS as [S1 S2 S3 S4 S5 S6 S7 S8 S9 S10 S11]. rewrite Hst in *.
  assert (x ∈ s_seen s /\ rtc o_parent d x) as [Hx HRx] by (apply S5; set_solver).
  assert (forall b, b ∈ ps -> o_parent x b) as Hpar by (intros b Hb; by exists ps).
  apply NoDup_app in S6 as (HNd & Hdis & HNs). apply NoDup_cons in HNs as [Hxs HNs].
  split; cbn [s_seen s_stack s_remaining]; try done.
  - intros y [Hy|Hy]%Hseen; [by apply S2|]. exists d. split; [set_solver|]. eapply rtc_r; [done|by apply Hpar].
  - apply Hseen. by left.
  - apply Hseen. by left.
  - intros y [Hy|Hy]%elem_of_app.
    + apply Hnew in Hy as [Hy _]. split; [apply Hseen; by right|]. eapply rtc_r; [done|by apply Hpar].
    + destruct (S5 y) as [? ?]; [set_solver|]. split; [apply Hseen; by left|done].
  - cbn [app]. apply NoDup_cons. split.
    + rewrite elem_of_app, elem_of_app, Hnew. intros [Hin|[[_ Hn]|Hin]]; [|done|done]. by apply (Hdis x); [|set_solver].
    + apply NoDup_app. split_and!; [done| |apply NoDup_app; split_and!; [done| |done]].
      * intros y Hy [Hn|Hn]%elem_of_app; [apply Hnew in Hn as [_ Hn]; by apply Hn, S7|]. apply (Hdis y); set_solver.
      * intros y [_ Hy]%Hnew Hin. apply Hy. apply S5. set_solver.
  - intros y [-> |Hy]%elem_of_cons; apply Hseen; left; auto.
  - intros y Hy Hny. destruct (decide (y = x)) as [-> |Hyx].
    { right; right. intros b (ps' & HE' & Hb). rewrite HE in HE'. injection HE' as <-. split; [apply Hseen; by right|]. by intros ->. }
    apply Hseen in Hy as [Hy|Hy]; [|destruct (decide (y ∈ s_seen s)) as [Hy'|Hy']].
    1,2: destruct (S8 y) as [?|[?|Hb]]; [done|set_solver|by left|by right; left|]; right; right; intros b Hp; destruct (Hb b Hp); split; [apply Hseen; by left|done].
    exfalso. apply Hny, elem_of_app. left. by apply Hnew.
  - by constructor.
  - cbn [concat]. rewrite zlen_app. lia.
  - intros E. specialize (S11 E). injection S11 as -> ->. congruence.
Qed.

Lemma search_step_inv m s : search_inv m s ->
  match search_step o g a floor limits s with inl s' => exists m', m = S m' /\ search_inv m' s' | inr r => search_post r end.
Proof using All.
  intros [(dn & pss & HS) ->]. unfold search_step. destruct (s_stack s) as [|x stack] eqn:Hst.
  { split; [done|]. intros HA. exfalso. by eapply search_end. }
  destruct (so_stack _ _ _ HS x) as [Hx HRx]; [rewrite Hst; set_solver|].
  case_bool_decide as Hxa; [subst; done|].
  destruct (indexed_ancestor_generation x d nd Hnd HRx) as (n & Hn & _).
  destruct (generation_position g x n Hok Hn) as (p & Hp & _).
  destruct (indexed_edges x p Hp) as (qs & c & _ & -> & Hc & _ & HE). rewrite Hc, Hn.
  pose proof HS as [S1 S2 S3 S4 S5 S6 S7 S8 S9 S10 S11]. rewrite Hst in *.
  destruct ((n <=? floor) || o_shallow o x) eqn:Estop.
  - eexists. split; cycle 1.
    + split; [|reflexivity]. exists dn, pss. split; cbn [s_seen s_stack s_remaining]; try done.
      * intros y Hy. apply S5. set_solver.
      * apply NoDup_app in S6 as (HN1 & HN2 & HN3). apply NoDup_cons in HN3 as [_ HN3]. apply NoDup_app. split_and!; [done| |done]. set_solver.
      * intros y Hy Hny. destruct (decide (y = x)) as [-> |Hyx]; [|apply S8; [done|set_solver]]. right.
        apply orb_true_iff in Estop as [Hle%Z.leb_le|Hsh]; [left; eauto|right]. intros b (ps & HE' & Hb). rewrite HE, Hsh in HE'.
        injection HE' as <-. set_solver.
      * intros E. specialize (S11 E). injection S11 as -> ->. congruence.
    + cbn [s_seen s_stack]. simpl. lia.
  - apply orb_false_iff in Estop as [_ Hsh]. rewrite Hsh in HE. set (ps := gc_parents c) in *.
    destruct (checked_sub (s_remaining s) (zlen ps)) as [r|] eqn:Er.
    2: { right; right; left. split; [done|]. exists (x :: dn), (ps :: pss).
      apply NoDup_app in S6 as (HN1 & HN2 & HN3). split_and!.
      - constructor; [|done]. intros Hin. apply (HN2 x); set_solver.
      - rewrite Forall_forall. intros y [-> |Hy]%elem_of_cons; auto.
      - by constructor.
      - cbn [concat]. rewrite zlen_app. unfold checked_sub in Er. destruct (Z.leb_spec (zlen ps) (s_remaining s)); [done|]. lia. }
    apply checked_sub_Some in Er as [-> Hle].
    pose proof (visit_parents_spec a (max_commits limits) ps (s_seen s) stack S1) as HV.
    destruct (visit_parents a (max_commits limits) ps (s_seen s) stack) as [[seen' stack']|[b|e]].
    + destruct HV as (H1 & H2 & H3 & new & -> & H4 & H5 & H6). eexists. split; cycle 1.
      * split; [|reflexivity]. exists (x :: dn), (ps :: pss). by apply search_push.
      * cbn [s_seen s_stack length]. rewrite length_app, H6. simpl. lia.
    + destruct HV as [-> Hin]. split; [|done]. intros _. eapply rtc_r; [exact HRx|]. by exists ps.
    + destruct HV as (-> & seen' & H1 & H2). right; left. split; [done|]. exists (elements seen').
      split_and!; [apply NoDup_elements| |done]. rewrite Forall_forall. intros y Hy%elem_of_elements. apply H1 in Hy as [Hy|Hy]; [by apply S2|].
      exists d. split; [set_solver|]. eapply rtc_r; [done|]. by exists ps.
Qed.

Lemma ancestor_query_ok : search_post (ancestor_query o g a d floor limits).
Proof using All.
  unfold ancestor_query. set (seen := {[d]} ∪ {[a]} : gset ObjectId).
  assert (forall x, x ∈ seen -> o_from [d; a] x) as Hfrom.
  { intros x Hx. exists x. split; [|constructor]. unfold seen in Hx. set_solver. }
  destruct (Z.ltb_spec (max_commits limits) (Z.of_nat (size seen))) as [Hlt|Hle].
  { right; left. split; [done|]. exists (elements seen). split_and!; [apply NoDup_elements| |done].
    rewrite Forall_forall. intros y Hy%elem_of_elements. by apply Hfrom. }
  rewrite iter_until_nat.
  destruct (iter_nat_inv _ search_inv search_post search_step_inv (Pos.to_nat (Z.to_pos (max_commits limits + 1)))
    (Z.to_nat (max_commits limits) - size seen + 1) {| s_seen := seen; s_remaining := max_parents limits; s_stack := [d] |})
    as (r & -> & HP); [| |done].
  - split; [|done]. exists [], []. split; cbn [s_seen s_stack s_remaining app concat]; try done.
    + unfold seen. set_solver.
    + unfold seen. set_solver.
    + intros x ->%list_elem_of_singleton. split; [unfold seen; set_solver|constructor].
    + apply NoDup_singleton.
    + set_solver.
    + intros x Hx Hn. left. unfold seen in Hx. set_solver.
    + rewrite zlen_nil. lia.
  - assert (size seen <> 0)%nat. { rewrite size_non_empty_iff. unfold seen. set_solver. } lia.
Qed.
End Indexed.

Definition ancestor_answer (a d : ObjectId) (r : result HistoryError bool) : Prop :=
  match r with
  | Ok b => b = true <-> ancestor a d
  | Err Cycle => exists id, o_from [d; a] id /\ tc o_parent id id
  | Err e => o_excuse [d; a] e
  end.

Lemma read_ancestor_ok a d :
  ancestor_answer a d
    (let? g := read o [d; a] limits in
     let? marks := reachable g 0 in
     let? p := position_of g a in
     at_index marks p).
Proof using Hmax.
  pose proof (read_complete o [d; a] limits Hmax) as HR. destruct (read o [d; a] limits) as [g'|e]; cbn [rbind]; [|destruct e; done].
  destruct HR as [HC _].
  assert (o_from [d; a] d) as Hfd by (exists d; split; [set_solver|constructor]).
  assert (o_from [d; a] a) as Hfa by (exists a; split; [set_solver|constructor]).
  destruct (complete_reachable o _ g' HC d Hfd) as (i & marks & _ & Hi & Hm & HL & HM).
  pose proof (complete_first o _ g' HC d [a] eq_refl) as H0.
  assert (i = 0%nat) as -> by (eapply NoDup_lookup; [apply (co_wf _ _ _ HC)|exact Hi|exact H0]).
  rewrite Hm. cbn [rbind]. apply (co_from _ _ _ HC) in Hfa.
  destruct (wf_position g' a (co_wf _ _ _ HC) Hfa) as (p & Hp & Hpa & Hlt). unfold position_of. rewrite Hp. cbn [ok_or rbind].
  rewrite <- HL in Hlt. apply lookup_lt_is_Some_2 in Hlt as [b Hb]. unfold at_index. rewrite Hb. cbn [ok_or ancestor_answer].
  specialize (HM p a Hpa). unfold marked in HM. rewrite Hb in HM. unfold ancestor. rewrite <- HM. split; congruence.
Qed.

Lemma is_ancestor_ok (ok : G -> Prop) `{!CommitIndexLaws G ok} a d : (forall g, o_graph o = Some g -> ok g) ->
  ancestor_answer a d (is_ancestor_with o a d limits).
Proof using Hmax.
  intros Hok. unfold is_ancestor_with. destruct (indexed_ancestor o a d limits) as [r|] eqn:E; [|apply read_ancestor_ok].
  unfold indexed_ancestor in E. apply bind_Some in E as (g & Hg & (floor & Ha & (nd & Hd & [= <-])%bind_Some)%bind_Some).
  pose proof (ancestor_query_ok ok g Hg (Hok g Hg) a d floor Ha nd Hd) as HQ.
  destruct (ancestor_query o g a d floor limits) as [b|e]; [exact HQ|]. cbn [search_post] in HQ. destruct e; try exact HQ. exfalso.
  destruct HQ as [[[? ?] _]|[[? _]|[[? _]|(id & _ & HE)]]]; try done. by apply edges_no_cycle in HE.
Qed.

(** [is_ancestor_verified] answers for the ancestry its callback and the store give. *)
Lemma verified_ok a d cancel verified b : is_ancestor_verified o a d limits cancel verified = Ok b ->
  b = true <-> rtc (parent o verified) d a.
Proof using Hmax.
  unfold is_ancestor_verified. pose proof (read_until_spec o verified [d] limits (Some a) cancel Hmax) as HS.
  destruct (read_until o [d] limits verified (Some a) cancel) as [g|e]; cbn [rbind]; [|done]. intros [= <-].
  rewrite bool_decide_eq_true. destruct HS as [HF _]. destruct (finished_ok o verified _ _ _ g HF) as (_ & [_ HP] & Hfrom & _).
  split.
  - intros [i Hi]. apply HP in Hi. rewrite Forall_forall in Hfrom. destruct (Hfrom a) as (r & ->%list_elem_of_singleton & HR); [|done].
    by eapply list_elem_of_lookup_2.
  - intros HR. destruct HF as [(rem & pss & HF)|(g0 & index & rem & pss & id & HF & Hid & [= <-] & ->)].
    + assert (a ∈ ids g) as [i Hi]%list_elem_of_lookup_1 by (eapply read_ok_from; [done|]; exists d; split; [set_solver|done]).
      exists i. by apply HP.
    + exists index. by apply HP.
Qed.
End Reader.
End HistoryCorrect.
