(* ===== verification/HistoryRange.v ===== *)
(** * Ranges painted through the commit graph are exact

    [paint] colours commits in order of decreasing generation and stops early; what it
    returns is nevertheless exactly the commits that only one side reaches. *)

From stdpp Require Import base list numbers strings sets gmap sorting relations.
From Stdlib Require Import ZArith Lia.
From S2P Require Import Prelude Objects Commits History HistoryGraph HistoryProofs HistoryCorrect.

Module HistoryRange.
Import Objects History HistoryGraph HistoryProofs HistoryCorrect.

(** ** The queue *)

Lemma pop_max_spec x l m r : pop_max x l = (m, r) -> x :: l ≡ₚ m :: r /\ forall y, y ∈ r -> key_lt m y = false.
Proof.
  revert x m r; induction l as [|y l IH]; intros x m r; cbn [pop_max].
  - intros [= <- <-]. split; [done|set_solver].
  - destruct (key_lt x y) eqn:E.
    + destruct (pop_max y l) as [m' r'] eqn:EP. intros [= <- <-]. destruct (IH y m' r' EP) as [HP HM]. split.
      * rewrite HP. apply Permutation_swap.
      * intros z [-> |Hz]%elem_of_cons; [|by apply HM].
        assert (y ∈ m' :: r') as Hy by (rewrite <- HP; set_solver). apply elem_of_cons in Hy as [-> |Hy].
        { unfold key_lt in *. destruct m' as [a b], x as [c d]. simpl in *. lia. }
        specialize (HM y Hy). unfold key_lt in *. destruct m' as [a b], x as [c d], y as [e f]. simpl in *. lia.
    + destruct (pop_max x l) as [m' r'] eqn:EP. intros [= <- <-]. destruct (IH x m' r' EP) as [HP HM]. split.
      * rewrite Permutation_swap, HP. apply Permutation_swap.
      * intros z [-> |Hz]%elem_of_cons; [|by apply HM].
        assert (x ∈ m' :: r') as Hx by (rewrite <- HP; set_solver). apply elem_of_cons in Hx as [-> |Hx]; [done|].
        specialize (HM x Hx). unfold key_lt in *. destruct m' as [a b], x as [c d], y as [e f]. simpl in *. lia.
Qed.

Lemma pop_spec q m r : pop q = Some (m, r) -> q ≡ₚ m :: r /\ forall y, y ∈ r -> y.1 <= m.1.
Proof.
  destruct q as [|x l]; [done|]. cbn [pop]. intros [= HP]. destruct (pop_max_spec x l m r HP) as [Hp HM]. split; [done|].
  intros y Hy. specialize (HM y Hy). unfold key_lt in HM. destruct m, y. simpl in *. lia.
Qed.

Lemma zget_insert {A} q (c : A) l x : 0 <= q < zlen l -> zget x (<[Z.to_nat q := c]> l) = if decide (x = q) then Some c else zget x l.
Proof.
  intros Hq. unfold zget. destruct (Z.leb_spec 0 x); [|destruct (decide (x = q)); [lia|done]].
  destruct (decide (x = q)) as [-> |Hne]; [apply list_lookup_insert_eq; unfold zlen in Hq; lia|].
  apply list_lookup_insert_ne. lia.
Qed.

(** Changing a predicate outside of a list, or at one element of it. *)
Definition number (f : Z -> bool) (l : list Z) : Z := zlen (filter (fun x => f x = true) l).
Lemma number_cons f x l : number f (x :: l) = count_bit (f x) + number f l.
Proof.
  unfold number. rewrite filter_cons. destruct (decide (f x = true)) as [E|E]; [rewrite E, zlen_cons; cbn [count_bit]; lia|].
  apply not_true_iff_false in E. rewrite E. done.
Qed.
Lemma number_same f f' l : (forall x, x ∈ l -> f' x = f x) -> number f' l = number f l.
Proof.
  induction l as [|x l IH]; intros Hf; [done|]. rewrite !number_cons, IH, Hf by set_solver. done.
Qed.
Lemma number_update f f' q l : NoDup l -> q ∈ l -> (forall x, x <> q -> f' x = f x) ->
  number f' l + count_bit (f q) = number f l + count_bit (f' q).
Proof.
  intros HN Hq Hf. induction HN as [|x l Hx HN IH]; [set_solver|]. rewrite !number_cons. destruct (decide (x = q)) as [-> |Hne].
  - rewrite (number_same f f' l); [lia|]. intros y Hy. apply Hf. by intros ->.
  - rewrite (Hf x Hne). apply elem_of_cons in Hq as [-> |Hq]; [done|]. specialize (IH Hq). lia.
Qed.
Lemma number_perm f l l' : l ≡ₚ l' -> number f l = number f l'.
Proof. unfold number, zlen. by intros ->. Qed.
Lemma number_ge f q l : q ∈ l -> count_bit (f q) <= number f l.
Proof.
  induction l as [|x l IH]; [set_solver|]. rewrite number_cons. assert (0 <= number f l) by apply zlen_nonneg.
  intros [-> |Hq]%elem_of_cons; [destruct (f x); simpl; lia|]. specialize (IH Hq). destruct (f x); simpl; lia.
Qed.

Lemma filter_same (f f' : Z -> Z) k (l : list Z) : (forall x, x ∈ l -> f' x = f x) -> filter (fun x => f' x = k) l = filter (fun x => f x = k) l.
Proof.
  induction l as [|x l IH]; intros Hf; [done|]. rewrite !filter_cons, IH by set_solver. rewrite (Hf x) by set_solver. done.
Qed.

(** ** Colours *)

Definition col (p : Paint) (x : Z) : Z := default 0 (zget x (colors p)).
Definition color_ok (c : Z) : Prop := 0 <= c < 4.

Lemma color_cases c : color_ok c -> c = 0 \/ c = 1 \/ c = 2 \/ c = 3.
Proof. unfold color_ok. lia. Qed.
Lemma color_lor a b : color_ok a -> color_ok b -> color_ok (Z.lor a b).
Proof. intros Ha Hb. apply color_cases in Ha, Hb. unfold color_ok. destruct Ha as [-> |[-> |[-> | ->]]], Hb as [-> |[-> |[-> | ->]]]; vm_compute; split; congruence. Qed.
Lemma lor_zero a b : color_ok a -> color_ok b -> b <> 0 -> Z.lor a b <> 0.
Proof. intros Ha Hb. apply color_cases in Ha, Hb. destruct Ha as [-> |[-> |[-> | ->]]], Hb as [-> |[-> |[-> | ->]]]; vm_compute; congruence. Qed.

(** The bits of the two sides. *)
Definition inc (c : Z) : bool := Z.testbit c 0.
Definition exc (c : Z) : bool := Z.testbit c 1.
Lemma inc_lor a b : inc (Z.lor a b) = inc a || inc b.
Proof. apply Z.lor_spec. Qed.
Lemma exc_lor a b : exc (Z.lor a b) = exc a || exc b.
Proof. apply Z.lor_spec. Qed.
Lemma color_bits c : color_ok c -> c = (if inc c then 1 else 0) + (if exc c then 2 else 0).
Proof. intros H. apply color_cases in H as [-> |[-> |[-> | ->]]]; done. Qed.

Lemma counts_zero sides : counts sides 0 = false.
Proof. by destruct sides. Qed.
Lemma counts_one sides c : counts sides c = true -> c = 1 \/ (sides = Both /\ c = 2).
Proof.
  destruct sides; cbn [counts]; unfold INCLUDE, EXCLUDE; [intros ?%Z.eqb_eq; by left|].
  intros [?%Z.eqb_eq|?%Z.eqb_eq]%orb_true_iff; auto.
Qed.

Section Paint.
Context {G : Type} `{CommitIndex G} (o : Objects_ G) (limits : HistoryLimits).
Notation o_edges := (edges o (graph_parents o)).
Notation o_parent := (parent o (graph_parents o)).
Notation o_from := (from o (graph_parents o)).
Notation o_excuse roots := (excuse o (graph_parents o) roots limits (fun _ => false)).
Context (ok : G -> Prop) `{!CommitIndexLaws G ok} (g : G) (Hg : o_graph o = Some g) (Hok : ok g).

(** ** Steps between positions *)

Definition valid (p : Z) : Prop := exists id, g_position g id = Some p.
Definition pstep (p q : Z) : Prop :=
  (exists id, g_id_at g p = Some id /\ o_shallow o id = false) /\ exists ps, g_parent_positions g p = Some ps /\ q ∈ ps.

Lemma id_at_position id p : g_position g id = Some p -> g_id_at g p = Some id.
Proof using Hg Hok CommitIndexLaws0. intros Hp. by apply (position_at g id p Hok). Qed.
Lemma valid_range p : valid p -> 0 <= p < g_positions g.
Proof using Hg Hok CommitIndexLaws0. intros [id Hp]. by apply (position_at g id p Hok). Qed.
Lemma valid_generation p : valid p -> exists n, g_generation_at g p = Some n.
Proof using Hg Hok CommitIndexLaws0.
  intros [id Hp]. destruct (position_generation g id p Hok Hp) as [n Hn]. exists n. by eapply (generation_at_position o ok g Hg Hok).
Qed.

Lemma pstep_parent a p b : g_position g a = Some p -> o_parent a b <-> exists q, pstep p q /\ g_position g b = Some q.
Proof using Hg Hok CommitIndexLaws0.
  intros Hp. destruct (indexed_edges o ok g Hg Hok a p Hp) as (ps & c & Hps & _ & _ & HF & HE). split.
  - intros (l & HE' & Hb). rewrite HE in HE'. injection HE' as <-. destruct (o_shallow o a) eqn:Es; [set_solver|].
    apply list_elem_of_lookup_1 in Hb as [k Hk]. destruct (Forall2_lookup_r _ _ _ _ _ HF Hk) as (q & Hq & Hbq). exists q. split; [|done].
    split; [exists a; split; [by apply id_at_position|done]|]. exists ps. split; [done|]. by eapply list_elem_of_lookup_2.
  - intros (q & [(id & Hid & Hs) (ps' & Hps' & Hq)] & Hb). rewrite (id_at_position a p Hp) in Hid. injection Hid as <-.
    rewrite Hps in Hps'. injection Hps' as <-. rewrite Hs in HE. apply list_elem_of_lookup_1 in Hq as [k Hk].
    destruct (Forall2_lookup_l _ _ _ _ _ HF Hk) as (b' & Hb' & Hbq). exists (gc_parents c). split; [done|].
    assert (b' = b) as -> by (apply id_at_position in Hb, Hbq; congruence). by eapply list_elem_of_lookup_2.
Qed.

Lemma pstep_valid p q : valid p -> pstep p q -> valid q.
Proof using Hg Hok CommitIndexLaws0.
  intros [a Hp] [_ (ps & Hps & Hq)]. destruct (indexed_edges o ok g Hg Hok a p Hp) as (ps' & c & Hps' & _ & _ & HF & _).
  rewrite Hps in Hps'. injection Hps' as <-. apply list_elem_of_lookup_1 in Hq as [k Hk].
  destruct (Forall2_lookup_l _ _ _ _ _ HF Hk) as (b & _ & Hb). by exists b.
Qed.
Lemma pstep_generation p q n : pstep p q -> g_generation_at g p = Some n -> exists m, g_generation_at g q = Some m /\ m < n.
Proof using Hg Hok CommitIndexLaws0. intros [_ (ps & Hps & Hq)]. by apply (edge_generation g p q ps n Hok). Qed.

Lemma rtc_pstep a p b : g_position g a = Some p -> rtc o_parent a b <-> exists q, rtc pstep p q /\ g_position g b = Some q.
Proof using Hg Hok CommitIndexLaws0.
  intros Hp. split.
  - intros HR. revert p Hp. induction HR as [a|a c b Hpar _ IH]; intros p Hp; [exists p; split; [constructor|done]|].
    apply (pstep_parent a p c Hp) in Hpar as (q & Hs & Hq). destruct (IH q Hq) as (r & HR & Hr). exists r. split; [by eapply rtc_l|done].
  - intros (q & HR & Hq). revert a Hp. induction HR as [p|p r q Hs HR IH]; intros a Hp.
    + assert (a = b) as -> by (apply id_at_position in Hp, Hq; congruence). constructor.
    + assert (valid r) as [c Hc] by (eapply pstep_valid; [by exists a|done]). eapply rtc_l; [|by apply IH].
      apply (pstep_parent a p c Hp). eauto.
Qed.

(** Identities of positions. *)
Lemma ids_of xs : Forall valid xs -> exists l, Forall2 (fun x id => g_position g id = Some x) xs l.
Proof using. induction 1 as [|x xs [id Hid] _ [l IH]]; [by exists []|]. exists (id :: l). by constructor. Qed.
Lemma ids_NoDup xs l : Forall2 (fun x id => g_position g id = Some x) xs l -> NoDup xs -> NoDup l.
Proof using.
  induction 1 as [|x id xs l Hx HF IH]; [constructor|]. rewrite !NoDup_cons. intros [Hni HN]. split; [|by apply IH].
  intros Hin. apply list_elem_of_lookup_1 in Hin as [k Hk]. destruct (Forall2_lookup_r _ _ _ _ _ HF Hk) as (y & Hy & Hyi).
  apply Hni. assert (y = x) as -> by congruence. by eapply list_elem_of_lookup_2.
Qed.

(** ** The invariant *)

Context (sides : Sides) (include exclude : list ObjectId).
Definition side (roots : list ObjectId) (x : Z) : Prop := exists r p, r ∈ roots /\ g_position g r = Some p /\ rtc pstep p x.

Notation queued p := (map snd (queue p)).

(** [D] are the positions taken from the queue; those in [C] have passed their colour
    on to their parents. *)
Record paint_ok (p : Paint) (D C : list Z) : Prop := {
  po_len : zlen (colors p) = g_positions g;
  po_colors : Forall color_ok (colors p);
  po_queue n x : (n, x) ∈ queue p -> g_generation_at g x = Some n;
  po_valid x : x ∈ D ++ queued p -> valid x;
  po_NoDup : NoDup (D ++ queued p);
  po_colored x : col p x <> 0 <-> x ∈ D ++ queued p;
  po_inc x : inc (col p x) = true -> side include x;
  po_exc x : exc (col p x) = true -> side exclude x;
  po_le y m n x : y ∈ D -> g_generation_at g y = Some m -> (n, x) ∈ queue p -> n <= m;
  po_closed y q : y ∈ C -> pstep y q -> (inc (col p y) = true -> inc (col p q) = true) /\ (exc (col p y) = true -> exc (col p q) = true);
  po_sub y : y ∈ C -> y ∈ D;
  po_interesting : interesting p = number (fun x => counts sides (col p x)) (queued p);
  po_marked : History.marked p = zlen D + zlen (queue p);
  po_limit : History.marked p <= max_commits limits
}.

Lemma col_ok p D C x : paint_ok p D C -> color_ok (col p x).
Proof using.
  intros HP. unfold col. destruct (zget x (colors p)) as [c|] eqn:E; [|unfold color_ok; simpl; lia]. simpl.
  apply zget_Some in E as [_ E]. pose proof (po_colors _ _ _ HP) as HF. rewrite Forall_lookup in HF. by eapply HF.
Qed.

Definition recolored (p p' : Paint) (q color : Z) : Prop :=
  forall x, col p' x = if decide (x = q) then Z.lor (col p x) color else col p x.

(** The new state after a colour was added at [q], which is queued now. *)
Lemma recolor_ok p p1 D C q n color :
  paint_ok p D C -> recolored p p1 q color -> zlen (colors p1) = zlen (colors p) -> Forall color_ok (colors p1) ->
  color_ok color -> color <> 0 -> q ∉ D -> valid q -> g_generation_at g q = Some n ->
  (forall y m, y ∈ D -> g_generation_at g y = Some m -> n <= m) ->
  (inc color = true -> side include q) -> (exc color = true -> side exclude q) ->
  (queue p1 = queue p /\ q ∈ queued p) \/ (queue p1 = (n, q) :: queue p /\ q ∉ D ++ queued p) ->
  interesting p1 = number (fun x => counts sides (col p1 x)) (queued p1) ->
  History.marked p1 = zlen D + zlen (queue p1) -> History.marked p1 <= max_commits limits -> paint_ok p1 D C.
Proof using.
  intros HP HR HL HF Hc Hc0 HqD Hv Hn Hgen Hinc Hexc HQ HI HM HLim. pose proof (col_ok p D C q HP) as Hold. destruct HP.
  assert (forall x, x ∈ D ++ queued p1 <-> x = q \/ x ∈ D ++ queued p) as Hin.
  { intros x. destruct HQ as [[-> Hq]|[-> Hq]]; cbn [map snd]; rewrite ?elem_of_app, ?elem_of_cons; [|tauto].
    split; [tauto|]. intros [-> |?]; [by right|done]. }
  assert (forall x, x ∈ D -> col p1 x = col p x) as HcD by (intros x Hx; rewrite HR, decide_False; [done|by intros ->]).
  split; try done.
  - lia.
  - intros m x Hx. destruct HQ as [[HQ _]|[HQ _]]; rewrite HQ in Hx; [by apply po_queue0|].
    apply elem_of_cons in Hx as [[= -> ->]|Hx]; [done|by apply po_queue0].
  - intros x [-> |Hx]%Hin; [done|by apply po_valid0].
  - destruct HQ as [[-> _]|[-> Hq]]; [done|]. cbn [map snd]. rewrite <- Permutation_middle. by constructor.
  - intros x. rewrite Hin, <- po_colored0, HR. destruct (decide (x = q)) as [-> |Hne]; [|tauto].
    split; [by left|]. intros _. by apply lor_zero.
  - intros x. rewrite HR. destruct (decide (x = q)) as [-> |]; [|apply po_inc0]. rewrite inc_lor. intros [?|?]%orb_true_iff; auto.
  - intros x. rewrite HR. destruct (decide (x = q)) as [-> |]; [|apply po_exc0]. rewrite exc_lor. intros [?|?]%orb_true_iff; auto.
  - intros y m k x Hy Hm Hx. destruct HQ as [[HQ _]|[HQ _]]; rewrite HQ in Hx; [by eapply po_le0|].
    apply elem_of_cons in Hx as [[= -> ->]|Hx]; [by eapply Hgen|by eapply po_le0].
  - intros y z Hy Hs. rewrite (HcD y) by auto. destruct (po_closed0 y z Hy Hs) as [H1 H2]. rewrite HR.
    destruct (decide (z = q)) as [-> |]; [|done]. rewrite inc_lor, exc_lor. split; intros E; apply orb_true_iff; left; auto.
Qed.

Lemma enqueue_ok q color p D C : paint_ok p D C -> valid q -> color_ok color -> color <> 0 ->
  (forall y m n, y ∈ D -> g_generation_at g y = Some m -> g_generation_at g q = Some n -> n < m) ->
  (inc color = true -> side include q) -> (exc color = true -> side exclude q) ->
  match enqueue g sides (max_commits limits) q color p with
  | Ok p' => paint_ok p' D C /\ recolored p p' q color
  | Err e => e = Limit "commits" /\ q ∉ D ++ queued p /\ History.marked p = max_commits limits
  end.
Proof using Hg Hok CommitIndexLaws0.
  intros HP Hq Hc Hc0 Hgen Hinc Hexc. pose proof (valid_range q Hq) as Hr. rewrite <- (po_len _ _ _ HP) in Hr.
  destruct (valid_generation q Hq) as [n Hn]. pose proof (col_ok p D C q HP) as Hold. unfold enqueue.
  destruct (zget_is_Some q (colors p) Hr) as [old Ho]. rewrite Ho. cbn [ok_or rbind].
  assert (col p q = old) as Ecol by (unfold col; by rewrite Ho). rewrite Ecol in Hold. set (new := Z.lor old color).
  destruct (Z.eqb_spec old new) as [Eon|Eon].
  { split; [done|]. intros x. destruct (decide (x = q)) as [-> |]; [|done]. rewrite Ecol. exact Eon. }
  assert (forall p', colors p' = <[Z.to_nat q := new]> (colors p) -> recolored p p' q color) as Hrec.
  { intros p' Ep' x. unfold col. rewrite Ep', zget_insert by done. destruct (decide (x = q)) as [-> |]; [|done]. by rewrite Ho. }
  assert (q ∉ D) as HqD by (intros HD; specialize (Hgen q n n HD Hn Hn); lia).
  assert (Forall color_ok (<[Z.to_nat q := new]> (colors p))) as HF.
  { apply Forall_insert; [apply (po_colors _ _ _ HP)|by apply color_lor]. }
  assert (forall y m, y ∈ D -> g_generation_at g y = Some m -> n <= m) as Hle by (intros y m Hy Hm; specialize (Hgen y m n Hy Hm Hn); lia).
  pose proof (po_interesting _ _ _ HP) as HI. pose proof (po_colored _ _ _ HP) as HCol.
  pose proof (po_marked _ _ _ HP) as HM. pose proof (po_limit _ _ _ HP) as HLim. pose proof (po_NoDup _ _ _ HP) as HN.
  destruct (Z.eqb_spec old 0) as [E0|E0].
  - assert (q ∉ D ++ queued p) as Hni by (rewrite <- HCol, Ecol; lia).
    destruct (Z.leb_spec (max_commits limits) (History.marked p)) as [Hlim|Hlim]; cbn [rbind]; [split_and!; [done|done|lia]|].
    rewrite Hn. cbn [ok_or rbind]. rewrite E0, counts_zero. cbn [count_bit].
    assert (0 <= number (fun x => counts sides (col p x)) (queued p)) as Hnn by apply zlen_nonneg.
    rewrite checked_sub_le by (destruct (counts sides new); simpl; lia). cbn [ok_or rbind].
    match goal with |- paint_ok ?p' _ _ /\ _ => set (p1 := p') end.
    assert (recolored p p1 q color) as HR by (by apply Hrec). split; [|done].
    eapply (recolor_ok p p1 D C q n color); try done; unfold p1; cbn [colors queue History.marked interesting].
    + by rewrite zlen_insert.
    + by right.
    + fold p1. cbn [map snd]. rewrite number_cons, (HR q), decide_True, Ecol by done. fold new.
      rewrite (number_same (fun x => counts sides (col p x))); [lia|]. intros x Hx. rewrite HR, decide_False; [done|].
      intros ->. apply Hni, elem_of_app. by right.
    + rewrite zlen_cons. lia.
    + lia.
  - cbn [rbind]. assert (q ∈ queued p) as Hqq.
    { assert (q ∈ D ++ queued p) as Hin by (apply HCol; rewrite Ecol; done). by apply elem_of_app in Hin as [?|?]. }
    pose proof (number_ge (fun x => counts sides (col p x)) q (queued p) Hqq) as Hge. cbv beta in Hge. rewrite Ecol in Hge.
    rewrite checked_sub_le by (destruct (counts sides new); simpl; lia). cbn [ok_or rbind].
    match goal with |- paint_ok ?p' _ _ /\ _ => set (p1 := p') end.
    assert (recolored p p1 q color) as HR by (by apply Hrec). split; [|done].
    eapply (recolor_ok p p1 D C q n color); try done; unfold p1; cbn [colors queue History.marked interesting].
    + by rewrite zlen_insert.
    + by left.
    + fold p1. apply NoDup_app in HN as (_ & _ & HNq).
      pose proof (number_update (fun x => counts sides (col p x)) (fun x => counts sides (col p1 x)) q (queued p) HNq Hqq) as HU.
      cbv beta in HU. rewrite (HR q), decide_True, Ecol in HU by done. fold new in HU.
      rewrite HI. cbn [p1 queue]. specialize (HU ltac:(intros x Hx; by rewrite HR, decide_False)). lia.
Qed.

(** ** Several positions *)

Definition sub (a b : Z) : Prop := (inc a = true -> inc b = true) /\ (exc a = true -> exc b = true).

Lemma sub_trans a b c : sub a b -> sub b c -> sub a c.
Proof using. unfold sub. tauto. Qed.
Lemma sub_lor_l a b : sub a (Z.lor a b).
Proof using. unfold sub. rewrite inc_lor, exc_lor. by split; intros ->. Qed.
Lemma sub_lor_r a b : sub b (Z.lor a b).
Proof using. unfold sub. rewrite inc_lor, exc_lor. split; intros ->; apply orb_true_r. Qed.

(** Why the walk over positions stops with an error. *)
Lemma side_from roots id x : side roots x -> g_position g id = Some x -> o_from roots id.
Proof using Hg Hok CommitIndexLaws0. intros (r & p & Hr & Hp & HR) Hid. exists r. split; [done|]. apply (rtc_pstep r p id Hp). eauto. Qed.
Lemma from_app_l l r id : o_from l id -> o_from (l ++ r) id.
Proof using. intros (x & Hx & HR). exists x. split; [apply elem_of_app; by left|done]. Qed.
Lemma from_app_r l r id : o_from r id -> o_from (l ++ r) id.
Proof using. intros (x & Hx & HR). exists x. split; [apply elem_of_app; by right|done]. Qed.

Lemma colored_side p D C x : paint_ok p D C -> x ∈ D ++ queued p -> side include x \/ side exclude x.
Proof using.
  intros HP Hx. apply (po_colored _ _ _ HP) in Hx. pose proof (color_bits _ (col_ok p D C x HP)) as HB.
  destruct (inc (col p x)) eqn:E1; [left; by apply (po_inc _ _ _ HP)|]. destruct (exc (col p x)) eqn:E2; [right; by apply (po_exc _ _ _ HP)|lia].
Qed.
Lemma sides_from xs l : Forall2 (fun x id => g_position g id = Some x) xs l -> (forall x, x ∈ xs -> side include x \/ side exclude x) ->
  Forall (o_from (include ++ exclude)) l.
Proof using Hg Hok CommitIndexLaws0.
  intros HF HS. rewrite Forall_forall. intros id [k Hk]%list_elem_of_lookup_1.
  destruct (Forall2_lookup_r _ _ _ _ _ HF Hk) as (x & Hx & Hid).
  destruct (HS x) as [Hs|Hs]; [by eapply list_elem_of_lookup_2|apply from_app_l; by eapply side_from|apply from_app_r; by eapply side_from].
Qed.

Lemma commits_excuse p D C q : paint_ok p D C -> valid q -> q ∉ D ++ queued p -> side include q \/ side exclude q ->
  History.marked p = max_commits limits -> o_excuse (include ++ exclude) (Limit "commits").
Proof using Hg Hok CommitIndexLaws0.
  intros HP Hq Hni Hs HM. destruct (ids_of (q :: D ++ queued p)) as [l HF].
  { constructor; [done|]. rewrite Forall_forall. apply (po_valid _ _ _ HP). }
  right; left. split; [done|]. exists l. split_and!.
  - eapply ids_NoDup; [done|]. constructor; [done|apply (po_NoDup _ _ _ HP)].
  - eapply sides_from; [done|]. intros x [-> |Hx]%elem_of_cons; [done|]. by eapply colored_side.
  - apply Forall2_length in HF. unfold zlen. rewrite <- HF. cbn [length]. rewrite length_app, length_map.
    pose proof (po_marked _ _ _ HP). unfold zlen in *. lia.
Qed.

Lemma enqueue_parents_ok color ps p D C : paint_ok p D C -> Forall valid ps -> color_ok color -> color <> 0 ->
  (forall q y m n, q ∈ ps -> y ∈ D -> g_generation_at g y = Some m -> g_generation_at g q = Some n -> n < m) ->
  (forall q, q ∈ ps -> inc color = true -> side include q) -> (forall q, q ∈ ps -> exc color = true -> side exclude q) ->
  match enqueue_parents g sides (max_commits limits) color ps p with
  | Ok p' => paint_ok p' D C /\ (forall q, q ∈ ps -> sub color (col p' q)) /\ (forall x, sub (col p x) (col p' x)) /\
      (forall y, y ∈ D -> col p' y = col p y)
  | Err e => o_excuse (include ++ exclude) e
  end.
Proof using Hg Hok CommitIndexLaws0.
  revert p; induction ps as [|q ps IH]; intros p HP HV Hc Hc0 Hgen Hi He; cbn [enqueue_parents].
  { split_and!; [done|set_solver|unfold sub; tauto|done]. }
  apply Forall_cons in HV as [Hq HV].
  pose proof (enqueue_ok q color p D C HP Hq Hc Hc0 ltac:(intros y m n; apply Hgen; set_solver) ltac:(apply Hi; set_solver) ltac:(apply He; set_solver)) as HE.
  destruct (enqueue g sides (max_commits limits) q color p) as [p1|e]; cbn [rbind].
  - destruct HE as [HP1 HR]. specialize (IH p1 HP1 HV Hc Hc0 ltac:(set_solver) ltac:(set_solver) ltac:(set_solver)).
    destruct (enqueue_parents g sides (max_commits limits) color ps p1) as [p'|e]; [|done].
    destruct IH as (HP' & H1 & H2 & H3). split_and!; [done| | |].
    + intros x [-> |Hx]%elem_of_cons; [|by apply H1]. eapply sub_trans; [|apply H2]. rewrite HR, decide_True by done. apply sub_lor_r.
    + intros x. eapply sub_trans; [|apply H2]. rewrite HR. destruct (decide (x = q)); [apply sub_lor_l|unfold sub; tauto].
    + intros y Hy. rewrite H3, HR by done. destruct (decide (y = q)) as [-> |]; [|done].
      destruct (valid_generation q Hq) as [n Hn]. specialize (Hgen q q n n ltac:(set_solver) Hy Hn Hn). lia.
  - destruct HE as (-> & Hni & HM). eapply commits_excuse; [done..| |done].
    pose proof (color_bits color Hc) as HB. destruct (inc color) eqn:E1; [left; apply Hi; [set_solver|done]|].
    destruct (exc color) eqn:E2; [right; apply He; [set_solver|done]|lia].
Qed.

Lemma enqueue_roots_eq limit color roots ps p : Forall2 (fun r q => g_position g r = Some q) roots ps ->
  enqueue_roots g sides limit color roots p = enqueue_parents g sides limit color ps p.
Proof using.
  intros HF. revert p. induction HF as [|r q roots ps Hr _ IH]; intros p; [done|]. cbn [enqueue_roots enqueue_parents].
  rewrite Hr. cbn [ok_or rbind]. destruct (enqueue g sides limit q color p); [apply IH|done].
Qed.

(** ** The loop *)

Definition wanted (D : list Z) (p : Paint) : Painted :=
  {| included := filter (fun x => col p x = 1) D;
     excluded := match sides with Include => [] | Both => filter (fun x => col p x = 2) D end |}.

Record loop_ok (s : PaintState) (D : list Z) (pss : list (list ObjectId)) : Prop := {
  lo_paint : paint_ok (paint_of s) D D;
  lo_out : painted s = wanted D (paint_of s);
  lo_pss : Forall2 (fun x ps => exists id, g_position g id = Some x /\ o_edges id = Ok ps) D pss;
  lo_budget : edges_left s + zlen (concat pss) = max_parents limits;
  lo_include r q : r ∈ include -> g_position g r = Some q -> inc (col (paint_of s) q) = true;
  lo_exclude r q : r ∈ exclude -> g_position g r = Some q -> exc (col (paint_of s) q) = true
}.

Definition exact (l : list Z) (yes no : list ObjectId) : Prop := NoDup l /\ (forall x, x ∈ l -> valid x) /\ forall x, x ∈ l <-> side yes x /\ ~ side no x.
Definition paint_post (r : result HistoryError Painted) : Prop :=
  match r with
  | Ok out => exact (included out) include exclude /\ (sides = Both -> exact (excluded out) exclude include)
  | Err e => o_excuse (include ++ exclude) e
  end.

Lemma number_zero f l : number f l = 0 -> forall x, x ∈ l -> f x = false.
Proof using.
  intros H0 x Hx. pose proof (number_ge f x l Hx). destruct (f x); [simpl in *; lia|done].
Qed.

(** With nothing of interest queued, a path of one side only has been followed. *)
Lemma followed s D pss (bit : Z -> bool) (color : Z) p x :
  loop_ok s D pss -> interesting (paint_of s) = 0 ->
  (forall y q, y ∈ D -> pstep y q -> bit (col (paint_of s) y) = true -> bit (col (paint_of s) q) = true) ->
  (forall y, color_ok (col (paint_of s) y) -> bit (col (paint_of s) y) = true -> rtc pstep y x -> col (paint_of s) y = color) ->
  counts sides color = true -> color <> 0 ->
  bit (col (paint_of s) p) = true -> rtc pstep p x -> x ∈ D /\ col (paint_of s) x = color.
Proof using.
  intros HL H0 Hcl Hcol Hcounts Hc0 Hp HR. pose proof (lo_paint _ _ _ HL) as HP. rewrite (po_interesting _ _ _ HP) in H0.
  assert (forall y, bit (col (paint_of s) y) = true -> rtc pstep y x -> y ∈ D /\ col (paint_of s) y = color) as Hin.
  { intros y Hy HRy. assert (col (paint_of s) y = color) as Ec by (apply Hcol; [by eapply col_ok|done|done]). split; [|done].
    assert (y ∈ D ++ queued (paint_of s)) as [?|Hq]%elem_of_app by (apply (po_colored _ _ _ HP); by rewrite Ec); [done|].
    pose proof (number_zero _ _ H0 y Hq) as Hz. cbv beta in Hz. rewrite Ec in Hz. congruence. }
  induction HR as [p|p q x Hs HR IH]; [apply Hin; [done|constructor]|]. apply IH; [exact Hcol| |exact Hin].
  destruct (Hin p Hp) as [HD _]; [by eapply rtc_l|]. by eapply Hcl.
Qed.

(** A position taken from the queue has all colours of the paths that end in it. *)
Lemma complete_color s D pss (bit : Z -> bool) p x :
  loop_ok s D pss ->
  (forall y q, y ∈ D -> pstep y q -> bit (col (paint_of s) y) = true -> bit (col (paint_of s) q) = true) ->
  bit 0 = false -> valid p -> bit (col (paint_of s) p) = true -> rtc pstep p x -> x ∈ D -> bit (col (paint_of s) x) = true.
Proof using Hg Hok CommitIndexLaws0.
  intros HL Hcl Hb0 Hv Hp HR Hx. pose proof (lo_paint _ _ _ HL) as HP.
  induction HR as [p|p q x Hs HR IH]; [done|]. assert (valid q) as Hvq by (by eapply pstep_valid). apply IH; [done| |done].
  apply (Hcl p q); [|done|done].
  assert (p ∈ D ++ queued (paint_of s)) as [?|Hq]%elem_of_app; [|done|].
  { apply (po_colored _ _ _ HP). intros E. rewrite E, Hb0 in Hp. done. }
  exfalso. apply list_elem_of_fmap in Hq as ([n p'] & -> & Hq). cbn [snd] in *. pose proof (po_queue _ _ _ HP n p' Hq) as Hn.
  destruct (pstep_generation p' q n Hs Hn) as (m & Hm & Hlt).
  assert (exists k, g_generation_at g x = Some k /\ k <= m) as (k & Hk & Hle).
  { clear -HR Hm Hg Hok CommitIndexLaws0. revert m Hm. induction HR as [q|q r x Hs _ IH]; intros m Hm; [exists m; split; [done|lia]|].
    destruct (pstep_generation q r m Hs Hm) as (m' & Hm' & Hlt). destruct (IH m' Hm') as (k & Hk & Hle). exists k. split; [done|lia]. }
  pose proof (po_le _ _ _ HP x k n p' Hx Hk Hq). lia.
Qed.

Lemma side_step roots p x : side roots p -> rtc pstep p x -> side roots x.
Proof using. intros (r & q & Hr & Hq & HR) HR'. exists r, q. split_and!; [done..|]. by etrans. Qed.

Lemma exact_side s D pss (bit bit' : Z -> bool) color yes no :
  loop_ok s D pss -> interesting (paint_of s) = 0 ->
  (forall y q, y ∈ D -> pstep y q -> bit (col (paint_of s) y) = true -> bit (col (paint_of s) q) = true) ->
  (forall y q, y ∈ D -> pstep y q -> bit' (col (paint_of s) y) = true -> bit' (col (paint_of s) q) = true) ->
  (forall c, color_ok c -> bit c = true -> bit' c = false -> c = color) ->
  bit color = true -> bit' color = false -> bit' 0 = false -> counts sides color = true -> color <> 0 ->
  (forall x, bit (col (paint_of s) x) = true -> side yes x) -> (forall x, bit' (col (paint_of s) x) = true -> side no x) ->
  (forall r q, r ∈ yes -> g_position g r = Some q -> bit (col (paint_of s) q) = true) ->
  (forall r q, r ∈ no -> g_position g r = Some q -> bit' (col (paint_of s) q) = true) ->
  exact (filter (fun x => col (paint_of s) x = color) D) yes no.
Proof using Hg Hok CommitIndexLaws0.
  intros HL H0 Hcl Hcl' Hcol Hb Hb' Hb0 Hcounts Hc0 Hy Hn Hry Hrn. pose proof (lo_paint _ _ _ HL) as HP. split_and!.
  - apply NoDup_filter. pose proof (po_NoDup _ _ _ HP) as HN. by apply NoDup_app in HN as [? _].
  - intros x [_ Hx]%list_elem_of_filter. apply (po_valid _ _ _ HP), elem_of_app. by left.
  - intros x. rewrite list_elem_of_filter. split.
    + intros [Hx HD]. split; [apply Hy; by rewrite Hx|]. intros (r & q & Hr & Hq & HR).
      enough (bit' (col (paint_of s) x) = true) as E by (rewrite Hx in E; congruence).
      eapply (complete_color s D pss bit' q x); try done; [by exists r|by eapply Hrn].
    + intros [(r & q & Hr & Hq & HR) Hns].
      destruct (followed s D pss bit color q x) as [HD Hc]; try done; [|by eapply Hry].
      intros y Hok' Hby HRy. apply Hcol; [done|done|]. apply not_true_iff_false. intros E. apply Hns.
      eapply side_step; [by apply Hn|done].
Qed.

Lemma loop_end s D pss : loop_ok s D pss -> interesting (paint_of s) = 0 -> paint_post (Ok (painted s)).
Proof using Hg Hok CommitIndexLaws0.
  intros HL H0. pose proof (lo_paint _ _ _ HL) as HP. cbn [paint_post]. rewrite (lo_out _ _ _ HL). unfold wanted. cbn [included excluded].
  assert (forall y q, y ∈ D -> pstep y q -> inc (col (paint_of s) y) = true -> inc (col (paint_of s) q) = true) as Hc1
    by (intros y q Hy Hs; by apply (po_closed _ _ _ HP y q Hy Hs)).
  assert (forall y q, y ∈ D -> pstep y q -> exc (col (paint_of s) y) = true -> exc (col (paint_of s) q) = true) as Hc2
    by (intros y q Hy Hs; by apply (po_closed _ _ _ HP y q Hy Hs)).
  split; [|intros Hsides; assert (match sides with Include => [] | Both => filter (fun x => col (paint_of s) x = 2) D end =
    filter (fun x => col (paint_of s) x = 2) D) as -> by (by rewrite Hsides)].
  - apply (exact_side s D pss inc exc); try done.
    + intros c Hc E1 E2. rewrite (color_bits c Hc), E1, E2. done.
    + by destruct sides.
    + apply (po_inc _ _ _ HP).
    + apply (po_exc _ _ _ HP).
    + intros r q. by apply (lo_include _ _ _ HL).
    + intros r q. by apply (lo_exclude _ _ _ HL).
  - apply (exact_side s D pss exc inc); try done.
    + intros c Hc E1 E2. rewrite (color_bits c Hc), E1, E2. done.
    + by rewrite Hsides.
    + apply (po_exc _ _ _ HP).
    + apply (po_inc _ _ _ HP).
    + intros r q. by apply (lo_exclude _ _ _ HL).
    + intros r q. by apply (lo_include _ _ _ HL).
Qed.

(** Taking the greatest position from the queue. *)
Definition taken (p : Paint) (x : Z) (rest : list (Z * Z)) : Paint :=
  {| colors := colors p; queue := rest; History.marked := History.marked p;
     interesting := interesting p - count_bit (counts sides (col p x)) |}.

Lemma taken_ok p D n x rest : paint_ok p D D -> pop (queue p) = Some ((n, x), rest) -> paint_ok (taken p x rest) (D ++ [x]) D.
Proof using Hg Hok CommitIndexLaws0.
  intros HP Hpop. destruct (pop_spec _ _ _ Hpop) as [Hperm Hmax]. destruct HP.
  assert (queued p ≡ₚ x :: map snd rest) as Hq by (rewrite Hperm; done).
  assert ((D ++ [x]) ++ map snd rest ≡ₚ D ++ queued p) as HA by (rewrite Hq, <- app_assoc; done).
  assert (forall y, col (taken p x rest) y = col p y) as HC by done.
  split; cbn [taken colors queue History.marked interesting]; try done.
  - intros m y Hy. apply po_queue0. rewrite Hperm. set_solver.
  - intros y Hy. rewrite HA in Hy. by apply po_valid0.
  - by rewrite HA.
  - intros y. rewrite HC, HA. apply po_colored0.
  - intros y m k z [Hy|Hy]%elem_of_app Hm Hz; [eapply (po_le0 y m k z); [done|done|]; rewrite Hperm; set_solver|].
    apply list_elem_of_singleton in Hy as ->. assert (g_generation_at g x = Some n) as Hn by (apply po_queue0; rewrite Hperm; set_solver).
    rewrite Hn in Hm. injection Hm as <-. by apply (Hmax (k, z)).
  - intros y Hy. apply elem_of_app. by left.
  - rewrite po_interesting0, (number_perm _ _ _ Hq), number_cons.
    match goal with |- _ = number ?f _ => change f with (fun y => counts sides (col p y)) end. lia.
  - rewrite po_marked0, zlen_app, zlen_cons, zlen_nil. unfold zlen. rewrite Hperm. cbn [length]. lia.
Qed.

Lemma wanted_snoc D x p p' : (forall y, y ∈ D ++ [x] -> col p' y = col p y) ->
  wanted (D ++ [x]) p' =
    if col p x =? 1 then {| included := included (wanted D p) ++ [x]; excluded := excluded (wanted D p) |}
    else if counts sides (col p x) then {| included := included (wanted D p); excluded := excluded (wanted D p) ++ [x] |}
    else wanted D p.
Proof using.
  intros HC. unfold wanted. cbn [included excluded].
  assert (forall k, filter (fun y => col p' y = k) (D ++ [x]) = filter (fun y => col p y = k) D ++ (if decide (col p x = k) then [x] else [])) as HF.
  { intros k. rewrite filter_app. f_equal.
    - apply (filter_same (col p) (col p')). intros y Hy. apply HC, elem_of_app. by left.
    - rewrite filter_cons, filter_nil. rewrite (HC x) by (apply elem_of_app; right; by apply list_elem_of_singleton). done. }
  rewrite !HF. destruct (Z.eqb_spec (col p x) 1) as [E|E].
  - rewrite decide_True by done. rewrite (decide_False (P := col p x = 2)) by lia. rewrite app_nil_r. by destruct sides.
  - rewrite (decide_False (P := col p x = 1)) by done. rewrite app_nil_r. destruct sides; cbn [counts]; unfold INCLUDE, EXCLUDE.
    + rewrite (proj2 (Z.eqb_neq _ _)) by done. done.
    + rewrite (proj2 (Z.eqb_neq (col p x) 1)) by done. cbn [orb]. destruct (Z.eqb_spec (col p x) 2) as [E2|E2];
        [rewrite decide_True by done|rewrite decide_False by done; rewrite app_nil_r]; done.
Qed.

Definition loop_inv (m : nat) (s : PaintState) : Prop :=
  exists D pss, loop_ok s D pss /\ m = (Z.to_nat (g_positions g) - length D)%nat.

Lemma length_positions xs : Forall valid xs -> NoDup xs -> (length xs <= Z.to_nat (g_positions g))%nat.
Proof using Hg Hok CommitIndexLaws0.
  intros HF HN. rewrite <- (length_seqZ 0 (g_positions g)). apply submseteq_length, NoDup_submseteq; [done|].
  intros x Hx. rewrite Forall_forall in HF. apply HF, valid_range in Hx. apply elem_of_seqZ. lia.
Qed.

Lemma edges_excuse D pss ps x id p left :
  paint_ok p D D -> Forall2 (fun x ps => exists id, g_position g id = Some x /\ o_edges id = Ok ps) D pss ->
  x ∈ queued p -> g_position g id = Some x -> o_edges id = Ok ps -> left + zlen (concat pss) = max_parents limits -> checked_sub left (zlen ps) = None ->
  o_excuse (include ++ exclude) (Limit "parent occurrences").
Proof using Hg Hok CommitIndexLaws0.
  intros HP HF Hx Hid HE HB HN. right; right; left. split; [done|].
  assert (exists l, Forall2 (fun x id => g_position g id = Some x) D l /\ Forall2 (fun id ps => o_edges id = Ok ps) l pss) as (l & HF1 & HF2).
  { clear -HF. induction HF as [|y ps D pss (id & Hid & HE) _ (l & H1 & H2)]; [by exists []|]. exists (id :: l). split; by constructor. }
  pose proof (po_NoDup _ _ _ HP) as HND. apply NoDup_app in HND as (HND & Hdis & _).
  exists (id :: l), (ps :: pss). split_and!.
  - eapply (ids_NoDup (x :: D)); [by constructor|]. constructor; [|done]. intros HD. by apply (Hdis x).
  - eapply (sides_from (x :: D)); [by constructor|]. intros y Hy. eapply colored_side; [done|]. apply elem_of_app.
    apply elem_of_cons in Hy as [-> |Hy]; [by right|by left].
  - by constructor.
  - cbn [concat]. rewrite zlen_app. unfold checked_sub in HN. destruct (Z.leb_spec (zlen ps) left); [done|lia].
Qed.

Lemma taken_generation p D n x rest q y m k : paint_ok p D D -> pop (queue p) = Some ((n, x), rest) -> pstep x q ->
  y ∈ D ++ [x] -> g_generation_at g y = Some m -> g_generation_at g q = Some k -> k < m.
Proof using Hg Hok CommitIndexLaws0.
  intros HP Hpop Hs Hy Hm Hk. destruct (pop_spec _ _ _ Hpop) as [Hperm _].
  assert ((n, x) ∈ queue p) as Hqx by (rewrite Hperm; set_solver). pose proof (po_queue _ _ _ HP n x Hqx) as Hn.
  destruct (pstep_generation x q n Hs Hn) as (k' & Hk' & Hlt). rewrite Hk' in Hk. injection Hk as ->.
  apply elem_of_app in Hy as [Hy|Hy]; [pose proof (po_le _ _ _ HP y m n x Hy Hm Hqx); lia|].
  apply list_elem_of_singleton in Hy as ->. rewrite Hn in Hm. injection Hm as ->. done.
Qed.

Lemma paint_step_inv m s : loop_inv m s ->
  match paint_step o g sides limits s with inl s' => exists m', m = S m' /\ loop_inv m' s' | inr r => paint_post r end.
Proof using Hg Hok CommitIndexLaws0.
  intros (D & pss & HL & ->). pose proof (lo_paint _ _ _ HL) as HP. unfold paint_step.
  destruct (Z.eqb_spec (interesting (paint_of s)) 0) as [E0|E0]; [by eapply loop_end|].
  destruct (pop (queue (paint_of s))) as [[[n x] rest]|] eqn:Hpop.
  2: { exfalso. apply E0. rewrite (po_interesting _ _ _ HP). by destruct (queue (paint_of s)). }
  destruct (pop_spec _ _ _ Hpop) as [Hperm _].
  assert ((n, x) ∈ queue (paint_of s)) as Hqx by (rewrite Hperm; set_solver).
  assert (x ∈ queued (paint_of s)) as Hx by (apply list_elem_of_fmap; by exists (n, x)).
  assert (x ∈ D ++ queued (paint_of s)) as Hxin by (apply elem_of_app; by right).
  pose proof (po_valid _ _ _ HP x Hxin) as Hv. destruct Hv as [id Hid]. pose proof (ex_intro _ id Hid : valid x) as Hv.
  pose proof (valid_range x Hv) as Hr. rewrite <- (po_len _ _ _ HP) in Hr.
  destruct (zget_is_Some x _ Hr) as [c Hc]. rewrite Hc. cbn [ok_or rbind].
  assert (col (paint_of s) x = c) as Ec by (unfold col; by rewrite Hc).
  assert (c <> 0) as Hc0 by (rewrite <- Ec; by apply (po_colored _ _ _ HP)).
  pose proof (taken_ok _ _ _ _ _ HP Hpop) as HT. pose proof (number_ge (fun y => counts sides (col (paint_of s) y)) x _ Hx) as Hge.
  cbv beta in Hge. rewrite <- (po_interesting _ _ _ HP), Ec in Hge.
  set (p1 := taken (paint_of s) x rest) in *.
  set (out := wanted (D ++ [x]) (paint_of s)).
  assert ((if counts sides c
     then let? i := ok_or (checked_sub (interesting (paint_of s)) 1) Panic in
       Ok (i, if c =? INCLUDE then {| included := included (painted s) ++ [x]; excluded := excluded (painted s) |}
              else {| included := included (painted s); excluded := excluded (painted s) ++ [x] |})
     else Ok (interesting (paint_of s), painted s)) = Ok (interesting p1, out) :> result HistoryError (Z * Painted)) as ->.
  { unfold out. rewrite (wanted_snoc D x (paint_of s) (paint_of s)) by done. rewrite <- (lo_out _ _ _ HL), Ec.
    cbn [p1 taken interesting]. rewrite Ec. destruct (counts sides c) eqn:Ecnt; cbn [count_bit] in *.
    - rewrite checked_sub_le by lia. done.
    - assert (c =? 1 = false) as -> by (apply Z.eqb_neq; intros ->; by destruct sides). by rewrite Z.sub_0_r. }
  cbn [rbind]. change {| colors := colors (paint_of s); queue := rest; History.marked := History.marked (paint_of s); interesting := interesting p1 |} with p1.
  rewrite (id_at_position id x Hid). cbn [ok_or rbind].
  destruct (indexed_edges o ok g Hg Hok id x Hid) as (ps & rc & Hps & _ & _ & HF & HE).
  assert (length D < Z.to_nat (g_positions g))%nat as Hlen.
  { assert (length (D ++ [x]) <= Z.to_nat (g_positions g))%nat as Hle.
    { apply length_positions; [rewrite Forall_forall; intros y Hy; apply (po_valid _ _ _ HT), elem_of_app; by left|].
      pose proof (po_NoDup _ _ _ HT) as HN. by apply NoDup_app in HN as [? _]. }
    rewrite length_app in Hle. simpl in Hle. lia. }
  assert (forall p2 left pss', paint_ok p2 (D ++ [x]) (D ++ [x]) -> (forall y, y ∈ D ++ [x] -> col p2 y = col (paint_of s) y) ->
    (forall y, sub (col (paint_of s) y) (col p2 y)) -> o_edges id = Ok pss' -> left + zlen pss' = edges_left s ->
    loop_inv (Z.to_nat (g_positions g) - S (length D)) {| paint_of := p2; painted := out; edges_left := left |}) as Hnext.
  { intros p2 left pss' HP2 HC2 HS2 HE2 HB2. exists (D ++ [x]), (pss ++ [pss']). split; [|rewrite length_app; simpl; lia].
    destruct HL as [_ _ L3 L4 L5 L6]. split; cbn [paint_of painted edges_left]; try done.
    - unfold out. rewrite !(wanted_snoc D x (paint_of s)) by done. done.
    - apply Forall2_app; [done|]. repeat constructor. eauto.
    - rewrite concat_app, zlen_app. cbn [concat]. rewrite app_nil_r. lia.
    - intros r q Hr' Hq. apply HS2. by eapply L5.
    - intros r q Hr' Hq. apply HS2. by eapply L6. }
  destruct (o_shallow o id) eqn:Es.
  - eexists. split; [|eapply (Hnext p1 (edges_left s) []); [|done|unfold sub; tauto|done|rewrite zlen_nil; lia]]; [lia|].
    destruct HT. split; try done. intros y q [Hy|Hy]%elem_of_app Hs; [by apply po_closed0|].
    apply list_elem_of_singleton in Hy as ->. destruct Hs as [(id' & Hid' & Hs') _]. rewrite (id_at_position id x Hid) in Hid'. congruence.
  - rewrite Hps. cbn [ok_or rbind]. assert (zlen ps = zlen (gc_parents rc)) as Hzl by (unfold zlen; by rewrite (Forall2_length _ _ _ HF)).
    destruct (checked_sub (edges_left s) (zlen ps)) as [left|] eqn:El; cbn [ok_or rbind].
    2: { rewrite Hzl in El. eapply edges_excuse; [exact HP|apply (lo_pss _ _ _ HL)|exact Hx|exact Hid|exact HE|apply (lo_budget _ _ _ HL)|exact El]. }
    apply checked_sub_Some in El as [-> Hle].
    assert (forall q, q ∈ ps -> pstep x q) as Hstep.
    { intros q Hq. split; [exists id; split; [by apply id_at_position|done]|eauto]. }
    pose proof (enqueue_parents_ok c ps p1 (D ++ [x]) D HT) as HQ.
    specialize (HQ ltac:(rewrite Forall_forall; intros q Hq; by eapply pstep_valid; [|apply Hstep])).
    specialize (HQ ltac:(rewrite <- Ec; by eapply col_ok) Hc0).
    specialize (HQ ltac:(intros q y m k Hq; exact (taken_generation (paint_of s) D n x rest q y m k HP Hpop (Hstep q Hq)))).
    specialize (HQ ltac:(intros q Hq Hi; eapply side_step; [|apply rtc_once; by apply Hstep]; apply (po_inc _ _ _ HP); by rewrite Ec)).
    specialize (HQ ltac:(intros q Hq Hi; eapply side_step; [|apply rtc_once; by apply Hstep]; apply (po_exc _ _ _ HP); by rewrite Ec)).
    destruct (enqueue_parents g sides (max_commits limits) c ps p1) as [p2|e]; cbn [rbind]; [|exact HQ].
    destruct HQ as (HP2 & H1 & H2 & H3).
    eexists. split; [|eapply (Hnext p2 (edges_left s - zlen ps) (gc_parents rc)); [|done|done|done|lia]]; [lia|].
    destruct HP2. split; try done. intros y q [Hy|Hy]%elem_of_app Hs; [by apply po_closed0|].
    apply list_elem_of_singleton in Hy as ->. rewrite (H3 x) by (apply elem_of_app; right; by apply list_elem_of_singleton).
    destruct Hs as [_ (ps' & Hps' & Hq)]. rewrite Hps in Hps'. injection Hps' as <-. change (col p1 x) with (col (paint_of s) x). rewrite Ec. by apply H1.
Qed.

(** ** The whole walk *)

Lemma blank_ok p : 0 <= max_commits limits -> 0 <= g_positions g ->
  colors p = replicate (Z.to_nat (g_positions g)) 0 -> queue p = [] -> History.marked p = 0 -> interesting p = 0 -> paint_ok p [] [].
Proof using.
  intros Hmax Hpos Hc Hq Hm Hi. assert (forall x, col p x = 0) as Hcol.
  { intros x. unfold col, zget. rewrite Hc. destruct (0 <=? x); [|done].
    destruct (replicate (Z.to_nat (g_positions g)) 0 !! Z.to_nat x) as [c|] eqn:E; [|done]. apply lookup_replicate in E as [-> _]. done. }
  split; rewrite ?Hq, ?Hm; cbn [map app]; try done; try (by intros; exfalso; eapply not_elem_of_nil).
  - rewrite Hc, zlen_replicate. lia.
  - rewrite Hc. apply Forall_replicate. unfold color_ok. lia.
  - constructor.
  - intros x. rewrite Hcol. split; [done|]. by intros ?%elem_of_nil.
  - intros x. by rewrite Hcol.
  - intros x. by rewrite Hcol.
Qed.

Lemma roots_ok color roots yes p : paint_ok p [] [] -> color_ok color -> color <> 0 -> Forall (fun r => is_Some (g_position g r)) roots ->
  (forall q, side roots q -> (inc color = true -> side include q) /\ (exc color = true -> side exclude q)) -> yes = roots ->
  match enqueue_roots g sides (max_commits limits) color roots p with
  | Ok p' => paint_ok p' [] [] /\ (forall r q, r ∈ yes -> g_position g r = Some q -> sub color (col p' q)) /\ (forall x, sub (col p x) (col p' x))
  | Err e => o_excuse (include ++ exclude) e
  end.
Proof using Hg Hok CommitIndexLaws0.
  intros HP Hc Hc0 HF Hside ->. assert (exists ps, Forall2 (fun r q => g_position g r = Some q) roots ps) as [ps HF2].
  { clear -HF. induction HF as [|r roots [q Hq] _ [ps IH]]; [by exists []|]. exists (q :: ps). by constructor. }
  rewrite (enqueue_roots_eq _ _ _ _ _ HF2).
  assert (forall q, q ∈ ps -> exists r, r ∈ roots /\ g_position g r = Some q) as Hps.
  { intros q [k Hk]%list_elem_of_lookup_1. destruct (Forall2_lookup_r _ _ _ _ _ HF2 Hk) as (r & Hr & Hq). exists r. split; [by eapply list_elem_of_lookup_2|done]. }
  assert (forall q, q ∈ ps -> side roots q) as Hs.
  { intros q Hq. destruct (Hps q Hq) as (r & Hr & Hrq). exists r, q. split_and!; [done..|constructor]. }
  pose proof (enqueue_parents_ok color ps p [] [] HP) as HE.
  specialize (HE ltac:(rewrite Forall_forall; intros q Hq; destruct (Hps q Hq) as (r & _ & ?); by exists r) Hc Hc0).
  specialize (HE ltac:(intros q y m n _ Hy; by apply elem_of_nil in Hy)).
  specialize (HE ltac:(intros q Hq; by apply Hside, Hs) ltac:(intros q Hq; by apply Hside, Hs)).
  destruct (enqueue_parents g sides (max_commits limits) color ps p) as [p'|e]; [|done]. destruct HE as (HP' & H1 & H2 & _).
  split_and!; [done| |done]. intros r q [k Hk]%list_elem_of_lookup_1 Hq. apply H1.
  destruct (Forall2_lookup_l _ _ _ _ _ HF2 Hk) as (q' & Hq' & Hr). assert (q' = q) as -> by congruence. by eapply list_elem_of_lookup_2.
Qed.

Lemma paint_correct : 0 <= max_commits limits -> 0 <= g_positions g ->
  Forall (fun r => is_Some (g_position g r)) (include ++ exclude) -> paint_post (paint o g include exclude sides limits).
Proof using Hg Hok CommitIndexLaws0.
  intros Hmax Hpos HF. apply Forall_app in HF as [HFi HFe]. unfold paint.
  match goal with |- context [enqueue_roots g sides _ INCLUDE include ?p] => pose proof (blank_ok p Hmax Hpos eq_refl eq_refl eq_refl eq_refl) as HB;
    pose proof (roots_ok INCLUDE include include p HB ltac:(done) ltac:(done) HFi ltac:(intros q Hq; split; [done|by intros ?]) eq_refl) as H1;
    destruct (enqueue_roots g sides (max_commits limits) INCLUDE include p) as [p1|e]; cbn [rbind]; [|exact H1] end.
  destruct H1 as (HP1 & Hi & _).
  pose proof (roots_ok EXCLUDE exclude exclude p1 HP1 ltac:(done) ltac:(done) HFe ltac:(intros q Hq; split; [by intros ?|done]) eq_refl) as H2.
  destruct (enqueue_roots g sides (max_commits limits) EXCLUDE exclude p1) as [p2|e]; cbn [rbind]; [|exact H2].
  destruct H2 as (HP2 & He & Hmono).
  match goal with |- context [iter_nat _ _ ?s] => set (s0 := s) end.
  destruct (iter_nat_inv (paint_step o g sides limits) loop_inv paint_post paint_step_inv (S (Z.to_nat (g_positions g))) (Z.to_nat (g_positions g)) s0)
    as (r & -> & HR); [|lia|exact HR].
  exists [], []. split; [|simpl; lia]. split; cbn [s0 paint_of painted edges_left concat]; try done.
  - unfold wanted. cbn. by destruct sides.
  - rewrite zlen_nil. lia.
  - intros r q Hr Hq. apply Hmono. by apply (Hi r q).
  - intros r q Hr Hq. by apply (He r q).
Qed.
End Paint.
End HistoryRange.
