(* ===== verification/HistoryQueries.v ===== *)
(** * History queries: the theorems

    Walks, ancestry tests, merge bases, ranges and counts of [src/src/history.rs] and
    [src/src/history/range.rs] against the ancestry relation, for readers with and
    without a commit graph. *)

From stdpp Require Import base list numbers strings sets gmap sorting relations.
From Stdlib Require Import ZArith Lia.
From S2P Require Import Prelude Objects Commits History HistoryGraph HistoryProofs HistoryCorrect HistoryRange.

Module HistoryQueries.
Import Objects History HistoryGraph HistoryProofs HistoryCorrect HistoryRange.

Section Reader.
Context {G : Type} `{CommitIndex G} (o : Objects_ G) (limits : HistoryLimits).
Notation o_edges := (edges o (graph_parents o)).
Notation o_parent := (parent o (graph_parents o)).
Notation o_from := (from o (graph_parents o)).
Notation o_excuse roots := (excuse o (graph_parents o) roots limits (fun _ => false)).

(** The commits of one side and not of the other. *)
Definition difference (l : list ObjectId) (yes no : list ObjectId) : Prop :=
  NoDup l /\ forall id, id ∈ l <-> o_from yes id /\ ~ o_from no id.

(** ** Ranges of a graph that was read *)

Lemma marks_from roots g sub : complete o roots g -> sub ⊆ roots ->
  exists marks, mark_all g sub (replicate (length (ids g)) false) = Ok marks /\ length marks = length (ids g) /\
    forall i id, ids g !! i = Some id -> marked marks i <-> o_from sub id.
Proof.
  intros HC Hsub. assert (forall r, r ∈ sub -> exists i, positions g !! r = Some i /\ ids g !! i = Some r /\ (i < length (ids g))%nat) as Hpos.
  { intros r Hr. apply wf_position; [apply (co_wf _ _ _ HC)|]. apply (co_from _ _ _ HC). exists r. split; [by apply Hsub|constructor]. }
  destruct (mark_all_spec g (co_graph _ _ _ HC) sub (replicate (length (ids g)) false)) as (marks & HE & HL & _ & HM).
  { by rewrite length_replicate. } { intros i j Hi. by apply marked_replicate in Hi. }
  { intros r Hr. destruct (Hpos r Hr) as (i & ? & _ & ?). eauto. }
  exists marks. split_and!; [done..|]. intros i id Hi. rewrite HM. split.
  - intros [Hm|(r & k & Hr & Hk & HR)]; [by apply marked_replicate in Hm|]. exists r. split; [done|].
    destruct (Hpos r Hr) as (k' & Hk' & Hkr & _). assert (k' = k) as -> by congruence.
    apply (complete_rtc o _ g HC k r i Hkr) in HR as (b & Hb & ?). congruence.
  - intros (r & Hr & HR). right. destruct (Hpos r Hr) as (k & Hk & Hkr & _). exists r, k. split_and!; [done..|].
    apply (complete_rtc o _ g HC k r i Hkr). eauto.
Qed.

Lemma selected_difference roots g yes no a b : complete o roots g -> yes ⊆ roots ->
  length a = length (ids g) -> length b = length (ids g) ->
  (forall i id, ids g !! i = Some id -> marked a i <-> o_from yes id) -> (forall i id, ids g !! i = Some id -> marked b i <-> o_from no id) ->
  difference (selected (ids g) (zip_with (fun s h => s && negb h) a b)) yes no.
Proof.
  intros HC Hsub HLa HLb Ha Hb. split; [apply selected_NoDup, (co_wf _ _ _ HC)|]. intros id.
  rewrite selected_spec by (rewrite length_zip_with; lia). split.
  - intros (i & Hi & [H1 H2]%marked_andn); [|lia]. rewrite (Ha i id Hi) in H1. rewrite (Hb i id Hi) in H2. done.
  - intros [H1 H2]. assert (id ∈ ids g) as [i Hi]%list_elem_of_lookup_1.
    { apply (co_from _ _ _ HC). destruct H1 as (r & Hr & HR). exists r. split; [by apply Hsub|done]. }
    exists i. split; [done|]. apply marked_andn; [lia|]. by rewrite (Ha i id Hi), (Hb i id Hi).
Qed.

Lemma only_selected (l : list ObjectId) a b : length a = length l -> length b = length l ->
  only a b = zlen (selected l (zip_with (fun s h => s && negb h) a b)).
Proof.
  unfold only. revert a b; induction l as [|x l IH]; intros [|p a] [|q b] HLa HLb; try done. cbn [zip_with selected].
  simpl in HLa, HLb. rewrite filter_cons, zlen_app. specialize (IH a b ltac:(lia) ltac:(lia)).
  destruct (p && negb q); [rewrite decide_True by done|rewrite decide_False by done]; rewrite ?zlen_cons, IH; [rewrite zlen_nil; lia|done].
Qed.

(** ** Ranges through the graph *)

Lemma painted_difference (ok : G -> Prop) `{!CommitIndexLaws G ok} g xs yes no :
  o_graph o = Some g -> ok g -> Forall (fun r => is_Some (g_position g r)) (yes ++ no) -> exact o g xs yes no ->
  exists l, ids_at g xs = Ok l /\ zlen l = zlen xs /\ difference l yes no.
Proof.
  intros Hg Hok HF (HN & HV & HX). apply Forall_app in HF as [HFy HFn].
  assert (exists l, ids_at g xs = Ok l /\ Forall2 (fun x id => g_position g id = Some x) xs l) as (l & HE & HF2).
  { clear -HV Hg Hok CommitIndexLaws0. induction xs as [|x xs IH]; [by exists []|]. destruct IH as (l & HE & HF2); [set_solver|].
    destruct (HV x) as [id Hid]; [set_solver|]. exists (id :: l). cbn [ids_at]. rewrite (id_at_position o ok g Hg Hok id x Hid). cbn [ok_or rbind].
    rewrite HE. split; [done|by constructor]. }
  assert (forall roots id x, Forall (fun r => is_Some (g_position g r)) roots -> g_position g id = Some x -> side o g roots x <-> o_from roots id) as Hsf.
  { intros roots id x HR Hid. split; [intros Hs; by eapply (side_from o ok g Hg Hok)|]. intros (r & Hr & HP).
    rewrite Forall_forall in HR. destruct (HR r Hr) as [p Hp]. destruct (proj1 (rtc_pstep o ok g Hg Hok r p id Hp) HP) as (q & HP' & Hq).
    exists r, p. split_and!; [done..|]. congruence. }
  exists l. split_and!; [done|unfold zlen; by rewrite (Forall2_length _ _ _ HF2)|]. split; [by eapply ids_NoDup|]. intros id. split.
  - intros [k Hk]%list_elem_of_lookup_1. destruct (Forall2_lookup_r _ _ _ _ _ HF2 Hk) as (x & Hx & Hid).
    assert (x ∈ xs) as Hin by (by eapply list_elem_of_lookup_2). apply HX in Hin. by rewrite !(Hsf _ id x) in Hin.
  - intros [H1 H2]. assert (exists x, g_position g id = Some x) as [x Hid].
    { destruct H1 as (r & Hr & HP). rewrite Forall_forall in HFy. destruct (HFy r Hr) as [p Hp].
      destruct (proj1 (rtc_pstep o ok g Hg Hok r p id Hp) HP) as (x & _ & Hid). eauto. }
    assert (x ∈ xs) as [k Hk]%list_elem_of_lookup_1.
    { apply HX. by rewrite !(Hsf _ id x). }
    destruct (Forall2_lookup_l _ _ _ _ _ HF2 Hk) as (id' & Hid' & Hx). 
    assert (id' = id) as -> by (apply (id_at_position o ok g Hg Hok) in Hid, Hx; congruence). by eapply list_elem_of_lookup_2.
Qed.

Lemma covering_Some l g : covering o l = Some g -> o_graph o = Some g /\ Forall (fun r => is_Some (g_position g r)) l.
Proof.
  unfold covering. destruct (o_graph o) as [g'|]; [|done]. destruct (forallb _ l) eqn:E; [|done]. intros [= <-]. split; [done|].
  rewrite Forall_forall. intros r Hr. rewrite forallb_forall in E. apply list_elem_of_In in Hr. apply E in Hr.
  by apply bool_decide_eq_true in Hr.
Qed.

(** ** The queries *)

(** Why a query fails: a cycle, a limit that the ancestry exceeds, or a commit of the
    ancestry that cannot be read. *)
Definition refused (roots : list ObjectId) (e : HistoryError) : Prop :=
  match e with
  | Cycle => exists id, o_from roots id /\ tc o_parent id id
  | _ => o_excuse roots e
  end.

Lemma excuse_refused roots e : o_excuse roots e -> refused roots e.
Proof.
  intros HE. destruct e; try exact HE. exfalso.
  destruct HE as [[[? ?] _]|[[? _]|[[? _]|(id & _ & HE)]]]; try done. by apply edges_no_cycle in HE.
Qed.

Context (Hmax : 0 <= max_commits limits).

Lemma read_refused roots : match read o roots limits with Ok g => complete o roots g | Err e => refused roots e end.
Proof using Hmax.
  pose proof (read_complete o roots limits Hmax) as HR. destruct (read o roots limits) as [g|e]; [apply HR|by destruct e].
Qed.

Lemma walk_ok roots :
  match walk_with o roots limits with
  | Ok l => NoDup l /\ (forall id, id ∈ l <-> o_from roots id) /\ (forall id, o_from roots id -> ~ tc o_parent id id) /\
      exists pss, Forall2 (fun id ps => o_edges id = Ok ps) l pss /\ l = firsts (roots ++ concat pss)
  | Err e => refused roots e
  end.
Proof using Hmax.
  unfold walk_with. pose proof (read_refused roots) as HR. destruct (read o roots limits) as [g|e]; cbn [rbind]; [|done].
  split_and!; [apply (co_wf _ _ _ HR)|apply (co_from _ _ _ HR)|by eapply complete_acyclic|apply (co_order _ _ _ HR)].
Qed.

Context (ok : G -> Prop) `{!CommitIndexLaws G ok} (Hok : forall g, o_graph o = Some g -> ok g).

Lemma covered_positions g l r : o_graph o = Some g -> Forall (fun r => is_Some (g_position g r)) l -> r ∈ l -> 0 <= g_positions g.
Proof using Hok CommitIndexLaws0.
  intros Hg HF Hr. rewrite Forall_forall in HF. destruct (HF r Hr) as [p Hp].
  destruct (position_at g r p (Hok g Hg) Hp). lia.
Qed.

Lemma walk_range_ok include exclude :
  match walk_range_with o include exclude limits with
  | Ok l => difference l include exclude
  | Err e => refused (include ++ exclude) e
  end.
Proof using Hmax Hok CommitIndexLaws0.
  unfold walk_range_with. destruct include as [|r include].
  { split; [constructor|]. intros id. split; [by intros ?%elem_of_nil|]. intros [(r & Hr & _) _]. by apply elem_of_nil in Hr. }
  set (inc_ := r :: include). destruct (covering o (inc_ ++ exclude)) as [g|] eqn:EC.
  - apply covering_Some in EC as [Hg HF].
    pose proof (paint_correct o limits ok g Hg (Hok g Hg) Include inc_ exclude Hmax) as HP.
    specialize (HP ltac:(eapply (covered_positions g _ r); [done|exact HF|unfold inc_; set_solver]) HF).
    destruct (paint o g inc_ exclude Include limits) as [out|e]; cbn [rbind paint_post] in *; [|by apply excuse_refused].
    destruct (painted_difference ok g _ _ _ Hg (Hok g Hg) HF (proj1 HP)) as (l & -> & _ & HD). done.
  - pose proof (read_refused (inc_ ++ exclude)) as HR. destruct (read o (inc_ ++ exclude) limits) as [g|e]; cbn [rbind]; [|done].
    destruct (marks_from _ g inc_ HR) as (a & -> & HLa & Ha); [intros x; rewrite elem_of_app; tauto|]. cbn [rbind].
    destruct (marks_from _ g exclude HR) as (b & -> & HLb & Hb); [intros x; rewrite elem_of_app; tauto|]. cbn [rbind].
    eapply selected_difference; [exact HR| |done..]. intros x. rewrite elem_of_app. tauto.
Qed.

Lemma ahead_behind_ok left right :
  match ahead_behind_with o left right limits with
  | Ok (ahead, behind) => exists l r, difference l [left] [right] /\ difference r [right] [left] /\ ahead = zlen l /\ behind = zlen r
  | Err e => refused [left; right] e
  end.
Proof using Hmax Hok CommitIndexLaws0.
  unfold ahead_behind_with. destruct (covering o [left; right]) as [g|] eqn:EC.
  - apply covering_Some in EC as [Hg HF].
    pose proof (paint_correct o limits ok g Hg (Hok g Hg) Both [left] [right] Hmax) as HP.
    specialize (HP ltac:(eapply (covered_positions g _ left); [done|exact HF|set_solver]) HF).
    destruct (paint o g [left] [right] Both limits) as [out|e]; cbn [rbind paint_post] in *; [|by apply excuse_refused].
    destruct HP as [H1 H2]. destruct (painted_difference ok g _ [left] [right] Hg (Hok g Hg) HF H1) as (l & _ & Hl & HDl).
    assert (Forall (fun r => is_Some (g_position g r)) ([right] ++ [left])) as HF'.
    { apply Forall_cons in HF as [Hl' HF]. apply Forall_cons in HF as [Hr' _]. by repeat constructor. }
    destruct (painted_difference ok g _ [right] [left] Hg (Hok g Hg) HF' (H2 eq_refl)) as (r & _ & Hr & HDr). by exists l, r.
  - pose proof (read_refused [left; right]) as HR. destruct (read o [left; right] limits) as [g|e]; cbn [rbind]; [|done].
    assert (forall x, x = left \/ x = right -> o_from [left; right] x) as Hfrom.
    { intros x Hx. exists x. split; [set_solver|constructor]. }
    destruct (complete_reachable o _ g HR left) as (i & a & Hi & _ & Ha & HLa & HMa); [by apply Hfrom; left|].
    destruct (complete_reachable o _ g HR right) as (j & b & Hj & _ & Hb & HLb & HMb); [by apply Hfrom; right|].
    unfold position_of. rewrite Hi, Hj. cbn [ok_or rbind]. rewrite Ha, Hb. cbn [rbind].
    assert (forall x id, o_from [x] id <-> rtc o_parent x id) as Hone.
    { intros x id. split; [by intros (r & ->%list_elem_of_singleton & ?)|]. intros HRt. exists x. split; [set_solver|done]. }
    rewrite (only_selected (ids g) a b), (only_selected (ids g) b a) by done.
    eexists _, _. split_and!; [| |reflexivity|reflexivity].
    + eapply selected_difference; [exact HR|set_solver|done|done|..]; intros k id Hk; rewrite Hone; auto.
    + eapply selected_difference; [exact HR|set_solver|done|done|..]; intros k id Hk; rewrite Hone; auto.
Qed.
End Reader.

(** ** Theorems *)

(** C11: A walk collects exactly the ancestry of its roots. When it succeeds, its result
    lists every commit reachable from a root through the parents the reader sees (the
    attached graph, grafts, stored commits; none beyond a shallow root) once and no
    other, in breadth-first order: the first occurrences in the roots followed by the
    parents of each commit of the result in turn; and the ancestry has no cycle. When it
    fails, there is a cycle in the ancestry, a commit of it that cannot be read, or more
    commits or parents in it than the limit allows. *)
Theorem walk_correct {G : Type} `{CommitIndex G} (o : Objects_ G) limits roots : 0 <= max_commits limits ->
  match walk_with o roots limits with
  | Ok l => NoDup l /\ (forall id, id ∈ l <-> from o (graph_parents o) roots id) /\
      (forall id, from o (graph_parents o) roots id -> ~ tc (parent o (graph_parents o)) id id) /\
      exists pss, Forall2 (fun id ps => edges o (graph_parents o) id = Ok ps) l pss /\ l = firsts (roots ++ concat pss)
  | Err e => refused o limits roots e
  end.
Proof. intros Hmax. by apply walk_ok. Qed.

(** C8: Merge bases are the best common ancestors. When it succeeds, [merge_bases_with]
    returns, sorted by identity and without repetition, exactly the commits that both
    sides reach and that are no ancestor of another such commit; criss-cross histories,
    equal tips and disconnected histories included. It fails only for a cycle, a limit
    or an unreadable commit of the two ancestries. *)
Theorem merge_bases_correct {G : Type} `{CommitIndex G} (o : Objects_ G) limits left right : 0 <= max_commits limits ->
  match merge_bases_with o left right limits with
  | Ok bases => Sorted (cmp_le id_cmp) bases /\ NoDup bases /\ forall id, id ∈ bases <-> best_common o left right id
  | Err e => refused o limits [left; right] e
  end.
Proof.
  intros Hmax. pose proof (merge_bases_ok o limits Hmax left right) as HM.
  destruct (merge_bases_with o left right limits) as [bases|e]; [done|]. by destruct e.
Qed.

(** C10: Ancestry tests are exact with and without a commit graph. For a graph that keeps
    its laws, [is_ancestor_with] answers true exactly when the first commit is the
    second or is reached from it through parents, although the search through the graph
    stops at the generation of the ancestor; it fails only for a cycle, a limit or an
    unreadable commit. *)
Theorem is_ancestor_correct {G : Type} `{CommitIndex G} (o : Objects_ G) limits (ok : G -> Prop) `{!CommitIndexLaws G ok} a d :
  0 <= max_commits limits -> (forall g, o_graph o = Some g -> ok g) ->
  match is_ancestor_with o a d limits with
  | Ok b => b = true <-> ancestor o a d
  | Err e => refused o limits [d; a] e
  end.
Proof.
  intros Hmax Hok. pose proof (is_ancestor_ok o limits Hmax ok a d Hok) as HA. unfold ancestor_answer in HA.
  destruct (is_ancestor_with o a d limits) as [b|e]; [done|]. by destruct e.
Qed.

(** C9: Ranges are exact, however they are computed. For a graph that keeps its laws,
    [walk_range_with] returns every commit that an included root reaches and no excluded
    root reaches, once, and [ahead_behind_with] counts the commits that only one of two
    tips reaches; the walk that paints positions by decreasing generation and stops
    early gives the same answer as collecting both ancestries. Failures are a cycle, a
    limit or an unreadable commit. *)
Theorem ranges_correct {G : Type} `{CommitIndex G} (o : Objects_ G) limits (ok : G -> Prop) `{!CommitIndexLaws G ok} include exclude left right :
  0 <= max_commits limits -> (forall g, o_graph o = Some g -> ok g) ->
  match walk_range_with o include exclude limits with
  | Ok l => difference o l include exclude
  | Err e => refused o limits (include ++ exclude) e
  end /\
  match ahead_behind_with o left right limits with
  | Ok (ahead, behind) => exists l r, difference o l [left] [right] /\ difference o r [right] [left] /\ ahead = zlen l /\ behind = zlen r
  | Err e => refused o limits [left; right] e
  end.
Proof.
  intros Hmax Hok. split; [by apply (walk_range_ok o limits Hmax ok Hok)|by apply (ahead_behind_ok o limits Hmax ok Hok)].
Qed.

(** ** A small history: two branches of one commit *)

#[export] Instance no_index : CommitIndex Empty_set := {
  g_get g _ := match g with end; g_generation g _ := match g with end; g_position g _ := match g with end;
  g_positions g := match g with end; g_id_at g _ := match g with end; g_generation_at g _ := match g with end;
  g_parent_positions g _ := match g with end
}.
#[export] Instance no_index_laws : CommitIndexLaws Empty_set (fun _ => True).
Proof. split; intros []. Qed.

Definition sample_id (n : Z) : ObjectId := Sha1 (replicate 20 n).
Definition sample_commit (ps : list Z) : bytes :=
  bstr "tree " ++ to_string (sample_id 9) ++ [10] ++
  concat (map (fun p => bstr "parent " ++ to_string (sample_id p) ++ [10]) ps) ++ [10].
Definition sample_history : Objects_ Empty_set := {|
  o_format := FSha1;
  o_read id := if decide (id = sample_id 1) then Ok (Some (KCommit, sample_commit []))
    else if decide (id = sample_id 2) then Ok (Some (KCommit, sample_commit [1]))
    else if decide (id = sample_id 3) then Ok (Some (KCommit, sample_commit [1])) else Ok None;
  o_graft _ := None; o_shallow _ := false; o_graph := None
|}.
Definition sample_limits : HistoryLimits := {| max_commits := 100000; max_parents := 1000000 |}.

Lemma walk_correct_witness :
  walk_with sample_history [sample_id 2] sample_limits = Ok [sample_id 2; sample_id 1] /\
  from sample_history (graph_parents sample_history) [sample_id 2] (sample_id 1).
Proof.
  pose proof (walk_correct sample_history sample_limits [sample_id 2] ltac:(vm_compute; discriminate)) as HW.
  assert (walk_with sample_history [sample_id 2] sample_limits = Ok [sample_id 2; sample_id 1]) as E by (vm_compute; reflexivity).
  rewrite E in HW. destruct HW as (_ & HF & _). split; [exact E|]. apply HF. set_solver.
Defined.

Lemma merge_bases_correct_witness :
  merge_bases_with sample_history (sample_id 2) (sample_id 3) sample_limits = Ok [sample_id 1] /\
  best_common sample_history (sample_id 2) (sample_id 3) (sample_id 1).
Proof.
  pose proof (merge_bases_correct sample_history sample_limits (sample_id 2) (sample_id 3) ltac:(vm_compute; discriminate)) as HW.
  assert (merge_bases_with sample_history (sample_id 2) (sample_id 3) sample_limits = Ok [sample_id 1]) as E by (vm_compute; reflexivity).
  rewrite E in HW. destruct HW as (_ & _ & HF). split; [exact E|]. apply HF. set_solver.
Defined.

Lemma is_ancestor_correct_witness :
  ancestor sample_history (sample_id 1) (sample_id 3) /\ ~ ancestor sample_history (sample_id 2) (sample_id 3).
Proof.
  pose proof (is_ancestor_correct sample_history sample_limits (fun _ => True) (sample_id 1) (sample_id 3) ltac:(vm_compute; discriminate) ltac:(done)) as H1.
  pose proof (is_ancestor_correct sample_history sample_limits (fun _ => True) (sample_id 2) (sample_id 3) ltac:(vm_compute; discriminate) ltac:(done)) as H2.
  assert (is_ancestor_with sample_history (sample_id 1) (sample_id 3) sample_limits = Ok true) as E1 by (vm_compute; reflexivity).
  assert (is_ancestor_with sample_history (sample_id 2) (sample_id 3) sample_limits = Ok false) as E2 by (vm_compute; reflexivity).
  rewrite E1 in H1. rewrite E2 in H2. split; [by apply H1|]. intros HA. by apply H2 in HA.
Defined.

Lemma ranges_correct_witness :
  difference sample_history [sample_id 2] [sample_id 2] [sample_id 3] /\
  ahead_behind_with sample_history (sample_id 2) (sample_id 1) sample_limits = Ok (1, 0).
Proof.
  pose proof (ranges_correct sample_history sample_limits (fun _ => True) [sample_id 2] [sample_id 3] (sample_id 2) (sample_id 1)
    ltac:(vm_compute; discriminate) ltac:(done)) as [H1 _].
  assert (walk_range_with sample_history [sample_id 2] [sample_id 3] sample_limits = Ok [sample_id 2]) as E by (vm_compute; reflexivity).
  rewrite E in H1. split; [exact H1|vm_compute; reflexivity].
Defined.
End HistoryQueries.
