(* ===== verification/CommitGraph.v ===== *)
(** * Commit-graph files ([src/src/commit_graph.rs], [src/src/commit_graph/layer.rs],
      [src/src/commit_graph/history.rs], [src/src/commit_graph/bloom.rs])

    Reading the auxiliary index of commits: the chunk table, one checked layer, a chain of
    layers, the order of generations derived from it, and changed-path filters.  A panic
    of the code is the value [Panic] (or [None] of an accessor). *)

From stdpp Require Import base list numbers strings sets gmap sorting.
From Stdlib Require Import ZArith Lia.
From S2P Require Import Prelude Objects BTree History.

Module CommitGraph.
Import Objects.

(** ** Errors and limits *)

Inductive Checksum_ := Verify | Skip.

Record GraphLimits := { max_bytes : Z; max_commits : Z; max_parents : Z }.

Definition default_limits : GraphLimits :=
  {| max_bytes := 512 * 1024 * 1024; max_commits := 5000000; max_parents := 20000000 |}.

Inductive GraphError :=
| Malformed (reason : string)
| Checksum
| HashFormat
| Unsupported (reason : string)
| Limit (resource : string)
| Panic
| OutOfFuel.

Definition bad (reason : string) : GraphError := Malformed reason.

(** ** Integers and identities in a file *)

(** [word] and [long]: big-endian integers, out of range an error. *)
Definition read_be (n : Z) (bs : bytes) (pos : Z) : result GraphError Z :=
  let? stop := ok_or (checked_add pos n) (bad "integer offset") in
  let? field := ok_or (slice pos stop bs) (bad "truncated integer") in
  Ok (be_decode field).
Definition word (bs : bytes) (pos : Z) : result GraphError Z := read_be 4 bs pos.
Definition long (bs : bytes) (pos : Z) : result GraphError Z := read_be 8 bs pos.

(** [be32] of a range checked before; [None] is a panic. *)
Definition be32 (bs : bytes) (pos : Z) : option Z := be_decode <$> slice pos (pos + 4) bs.

(** [id]. *)
Definition id (format : ObjectFormat) (bs : bytes) : result GraphError ObjectId :=
  map_err (fun _ => bad "object ID width") (from_bytes format bs).

(** ** The chunk table *)

Definition range : Type := Z * Z.
Definition range_len (r : range) : Z := r.2 - r.1.

Record Chunks := { c_bytes : bytes; c_ranges : list (bytes * range) }.

(** [Chunks::header]. *)
Definition header (bs : bytes) (format : ObjectFormat) (limits : GraphLimits) : result GraphError unit :=
  if max_bytes limits <? zlen bs then Err (Limit "bytes")
  else if (zlen bs <? 8 + digest_len format) || negb (bytes_eqb (take 4 bs) (bstr "CGPH")) then Err (bad "header")
  else
    let? version := ok_or (zget 4 bs) Panic in
    if negb (version =? 1) then Err (Unsupported "file version")
    else
      let? h := ok_or (zget 5 bs) Panic in
      if negb (h =? match format with FSha1 => 1 | FSha256 => 2 end) then Err HashFormat else Ok tt.

(** The entries of [Chunks::table], from entry [i] of [count] on. *)
Fixpoint table_entries (n : nat) (bs : bytes) (count stop table_end i previous : Z) (ranges : list (bytes * range))
  : result GraphError (list (bytes * range)) :=
  match n with
  | O => Ok ranges
  | S n =>
      let entry := 8 + i * 12 in
      let? tag := ok_or (slice entry (entry + 4) bs) Panic in
      let? offset := long bs (entry + 4) in
      if (offset <? previous) || (stop <? offset) || ((i =? 0) && negb (offset =? table_end)) then Err (bad "chunk offset")
      else if i =? count then
        if negb (bytes_eqb tag [0; 0; 0; 0]) || negb (offset =? stop) then Err (bad "chunk terminator")
        else table_entries n bs count stop table_end (i + 1) offset ranges
      else if bytes_eqb tag [0; 0; 0; 0] then Err (bad "early chunk terminator")
      else
        let? next := long bs (entry + 16) in
        if (next <? offset) || (stop <? next) then Err (bad "chunk bounds")
        else
          match BTree.get tag ranges with
          | Some _ => Err (bad "duplicate chunk")
          | None => table_entries n bs count stop table_end (i + 1) offset (BTree.insert tag (offset, next) ranges)
          end
  end.

(** [Chunks::table]. *)
Definition table (bs : bytes) (format : ObjectFormat) : result GraphError Chunks :=
  let? stop := ok_or (checked_sub (zlen bs) (digest_len format)) Panic in
  let? count := ok_or (zget 6 bs) Panic in
  let table_end := 8 + (count + 1) * 12 in
  if stop <? table_end then Err (bad "chunk table")
  else
    let? ranges := table_entries (Z.to_nat (count + 1)) bs count stop table_end 0 table_end [] in
    Ok {| c_bytes := bs; c_ranges := ranges |}.

(** [Chunks::range], [Chunks::optional] and [Chunks::required]. *)
Definition chunk_range (c : Chunks) (tag : bytes) : option range := BTree.get tag (c_ranges c).
Definition optional (c : Chunks) (tag : bytes) : result GraphError (option bytes) :=
  match chunk_range c tag with
  | Some r => let? data := ok_or (slice r.1 r.2 (c_bytes c)) Panic in Ok (Some data)
  | None => Ok None
  end.
Definition required (c : Chunks) (tag : bytes) : result GraphError bytes :=
  let? data := optional c tag in
  ok_or data (bad "missing required chunk").

Definition OIDF : bytes := bstr "OIDF".
Definition OIDL : bytes := bstr "OIDL".
Definition CDAT : bytes := bstr "CDAT".
Definition EDGE : bytes := bstr "EDGE".
Definition GDA2 : bytes := bstr "GDA2".
Definition GDO2 : bytes := bstr "GDO2".
Definition BASE : bytes := bstr "BASE".
Definition BIDX : bytes := bstr "BIDX".
Definition BDAT : bytes := bstr "BDAT".

(** ** Changed-path filters *)

Record BloomLayout := { b_version : Z; b_hashes : Z; b_offsets : range; b_data : range }.
Record BloomFilter := { f_version : Z; f_hashes : Z; f_bits : bytes }.

(** The ends of the filters are ascending and within the data. *)
Fixpoint bloom_ends (n : nat) (offsets : bytes) (filters index previous : Z) : option unit :=
  match n with
  | O => Some tt
  | S n =>
      match word offsets (index * 4) with
      | Ok stop => if (stop <? previous) || (filters <? stop) then None else bloom_ends n offsets filters (index + 1) stop
      | Err _ => None
      end
  end.

Definition to_option {E A} (r : result E A) : option A := match r with Ok a => Some a | Err _ => None end.

(** The checks of [BloomLayout::parse] on the two chunks. *)
Definition bloom_checked (offsets data : bytes) (count : Z) : option (Z * Z) :=
  size ← checked_mul count 4;
  if negb (zlen offsets =? size) || (zlen data <? 12) then None
  else
    version ← to_option (word data 0);
    hashes ← to_option (word data 4);
    bits ← to_option (word data 8);
    if negb ((version =? 1) || (version =? 2)) || negb ((1 <=? hashes) && (hashes <=? 64)) || (bits =? 0) then None
    else
      _ ← bloom_ends (Z.to_nat count) offsets (zlen data - 12) 0 0;
      Some (version, hashes).

(** [BloomLayout::parse]; unusable chunks are no layout. *)
Definition bloom_parse (c : Chunks) (count : Z) : result GraphError (option BloomLayout) :=
  let? offsets := optional c BIDX in
  match offsets with
  | None => Ok None
  | Some offsets =>
      let? data := optional c BDAT in
      match data with
      | None => Ok None
      | Some data =>
          Ok ('(version, hashes) ← bloom_checked offsets data count;
              data_range ← chunk_range c BDAT;
              offsets_range ← chunk_range c BIDX;
              Some {| b_version := version; b_hashes := hashes; b_offsets := offsets_range;
                      b_data := (data_range.1 + 12, data_range.2) |})
      end
  end.

(** [BloomLayout::filter]; the outer [None] is a panic. *)
Definition bloom_filter (b : BloomLayout) (bs : bytes) (index : Z) : option (option BloomFilter) :=
  offsets ← slice (b_offsets b).1 (b_offsets b).2 bs;
  match (if index =? 0 then Some 0 else to_option (word offsets ((index - 1) * 4))), to_option (word offsets (index * 4)) with
  | Some start, Some stop =>
      data ← slice (b_data b).1 (b_data b).2 bs;
      match slice start stop data with
      | Some bits =>
          if bytes_eqb bits [] then Some None
          else Some (Some {| f_version := b_version b; f_hashes := b_hashes b; f_bits := bits |})
      | None => Some None
      end
  | _, _ => Some None
  end.

(** [u32] arithmetic of the hash. *)
Definition rotate_left (x n : Z) : Z := wrap32 (Z.lor (Z.shiftl x n) (Z.shiftr x (32 - n))).
Definition mix (value : Z) : Z := wrap32 (rotate_left (wrap32 (value * 0xcc9e2d51)) 15 * 0x1b873593).
Definition le_decode (l : bytes) : Z := be_decode (reverse l).
Fixpoint murmur_blocks (hash : Z) (blocks : list bytes) : Z :=
  match blocks with
  | [] => hash
  | block :: blocks =>
      let hash := Z.lxor hash (mix (le_decode block)) in
      murmur_blocks (wrap32 (wrap32 (rotate_left hash 13 * 5) + 0xe6546b64)) blocks
  end.
Fixpoint murmur_tail (i : Z) (tail : bytes) (value : Z) : Z :=
  match tail with
  | [] => value
  | b :: tail => murmur_tail (i + 1) tail (Z.lor value (Z.shiftl b (i * 8)))
  end.

(** [murmur3]. *)
Definition murmur3 (bs : bytes) (seed : Z) : Z :=
  let whole := ((length bs / 4) * 4)%nat in
  let hash := murmur_blocks seed (chunks 4 (take whole bs)) in
  let tail := drop whole bs in
  let value := murmur_tail 0 tail 0 in
  let hash := if bytes_eqb tail [] then hash else Z.lxor hash (mix value) in
  let hash := Z.lxor hash (wrap32 (zlen bs)) in
  let hash := Z.lxor hash (Z.shiftr hash 16) in
  let hash := wrap32 (hash * 0x85ebca6b) in
  let hash := Z.lxor hash (Z.shiftr hash 13) in
  let hash := wrap32 (hash * 0xc2b2ae35) in
  Z.lxor hash (Z.shiftr hash 16).

(** The bits a filter is asked for; [None] is a panic. *)
Fixpoint filter_bits (n : nat) (bits : bytes) (first second i : Z) : option bool :=
  match n with
  | O => Some true
  | S n =>
      let hash := wrap32 (first + wrap32 (i * second)) in
      let bit := hash mod (zlen bits * 8) in
      b ← zget (bit / 8) bits;
      if Z.land b (Z.shiftl 1 (bit mod 8)) =? 0 then Some false else filter_bits n bits first second (i + 1)
  end.

(** The answer of a filter for a path. *)
Definition filter_answer (filter : BloomFilter) (path : bytes) : option (option bool) :=
  if (f_version filter =? 1) && negb (forallb (fun b => b <? 128) path) then Some None
  else if bytes_eqb (f_bits filter) [0] then Some (Some false)
  else if bytes_eqb (f_bits filter) [255] then Some (Some true)
  else
    let first := murmur3 path 0x293ae76f in
    let second := murmur3 path 0x7e646e2c in
    answer ← filter_bits (Z.to_nat (f_hashes filter)) (f_bits filter) first second 0;
    Some (Some answer).

(** ** One checked layer *)

Definition NO_PARENT : Z := 0x70000000.
Definition EXTRA_EDGES : Z := 0x80000000.
Definition LARGE_OFFSET : Z := 0x80000000.

(** [x & !flag] and [x & flag != 0] of a [u32]. *)
Definition without_flag (x flag : Z) : Z := Z.land x (Z.lxor u32_max flag).
Definition has_flag (x flag : Z) : bool := negb (Z.land x flag =? 0).

(** [Layer<B>]. *)
Record Layer (B : Type) := {
  bytes_ : B;
  format : ObjectFormat;
  start : Z;
  count : Z;
  fanout : range;
  ids : range;
  data : range;
  edges : range;
  offsets : option range;
  overflow : range;
  bloom : option BloomLayout
}.
#[global] Arguments bytes_ {B} _.
#[global] Arguments format {B} _.
#[global] Arguments start {B} _.
#[global] Arguments count {B} _.
#[global] Arguments fanout {B} _.
#[global] Arguments ids {B} _.
#[global] Arguments data {B} _.
#[global] Arguments edges {B} _.
#[global] Arguments offsets {B} _.
#[global] Arguments overflow {B} _.
#[global] Arguments bloom {B} _.

(** [Layer::detach] and [Layer::attach]. *)
Definition detach (l : Layer bytes) : Layer unit :=
  {| bytes_ := tt; format := format l; start := start l; count := count l; fanout := fanout l; ids := ids l;
     data := data l; edges := edges l; offsets := offsets l; overflow := overflow l; bloom := bloom l |}.
Definition attach (l : Layer unit) (bs : bytes) : Layer bytes :=
  {| bytes_ := bs; format := format l; start := start l; count := count l; fanout := fanout l; ids := ids l;
     data := data l; edges := edges l; offsets := offsets l; overflow := overflow l; bloom := bloom l |}.

Definition width {B} (l : Layer B) : Z := digest_len (format l).
Definition part (l : Layer bytes) (r : range) : option bytes := slice r.1 r.2 (bytes_ l).

(** [Layer::record] and the fields read out of it. *)
Definition layer_record (l : Layer bytes) (index : Z) : option bytes :=
  let w := width l + 16 in
  let pos := (data l).1 + index * w in
  slice pos (pos + w) (bytes_ l).
Definition parent_fields (l : Layer bytes) (index : Z) : option (Z * Z) :=
  r ← layer_record l index;
  first ← be32 r (width l);
  second ← be32 r (width l + 4);
  Some (first, second).
Definition commit_time (l : Layer bytes) (index : Z) : option Z :=
  r ← layer_record l index;
  high ← be32 r (width l + 8);
  low ← be32 r (width l + 12);
  Some (Z.lor (Z.shiftl (Z.land high 3) 32) low).
Definition level (l : Layer bytes) (index : Z) : option Z :=
  r ← layer_record l index;
  high ← be32 r (width l + 8);
  Some (Z.shiftr high 2).

(** [corrected_date] of the two tables. *)
Definition corrected_date (offsets overflow : bytes) (index time : Z) : result GraphError Z :=
  let? offset := word offsets (index * 4) in
  let? offset :=
    if negb (has_flag offset LARGE_OFFSET) then Ok offset
    else if bytes_eqb overflow [] then Err (bad "missing required chunk")
    else
      let? pos := ok_or (checked_mul (without_flag offset LARGE_OFFSET) 8) (bad "generation overflow offset") in
      long overflow pos in
  ok_or (if time + offset <=? u64_max then Some (time + offset) else None) (bad "corrected date overflow").

(** [Layer::corrected_date]; the outer [None] is a panic. *)
Definition layer_corrected_date (l : Layer bytes) (index : Z) : option (option Z) :=
  match offsets l with
  | None => Some None
  | Some r =>
      table ← part l r;
      large ← part l (overflow l);
      time ← commit_time l index;
      date ← to_option (corrected_date table large index time);
      Some (Some date)
  end.

(** [charge] of [check_records]: the parents left. *)
Definition charge (limit : Z) (parent remaining : Z) : result GraphError Z :=
  let? remaining := ok_or (checked_sub remaining 1) (Limit "parents") in
  if limit <=? parent then Err (bad "parent position") else Ok remaining.

(** The loop over a run of extra edges. *)
Fixpoint check_run (fuel : nat) (edges : bytes) (limit pos remaining : Z) : result GraphError Z :=
  match fuel with
  | O => Err OutOfFuel
  | S fuel =>
      let? edge := word edges pos in
      let? remaining := charge limit (without_flag edge EXTRA_EDGES) remaining in
      if has_flag edge EXTRA_EDGES then Ok remaining else check_run fuel edges limit (pos + 4) remaining
  end.

(** The parents of one record. *)
Definition check_parents (l : Layer bytes) (has_edges : bool) (edge_bytes : bytes) (limit index remaining : Z) : result GraphError Z :=
  let? (first, second) := ok_or (parent_fields l index) Panic in
  if first =? NO_PARENT then
    if negb (second =? NO_PARENT) then Err (bad "second parent without first") else Ok remaining
  else
    let? remaining := charge limit first remaining in
    if has_flag second EXTRA_EDGES then
      if negb has_edges then Err (bad "missing required chunk")
      else if negb (zlen edge_bytes mod 4 =? 0) then Err (bad "extra edge length")
      else
        let? pos := ok_or (checked_mul (without_flag second EXTRA_EDGES) 4) (bad "extra edge offset") in
        check_run (S (length edge_bytes)) edge_bytes limit pos remaining
    else if negb (second =? NO_PARENT) then charge limit second remaining else Ok remaining.

Definition check_date (l : Layer bytes) (index : Z) : result GraphError unit :=
  match offsets l with
  | None => Ok tt
  | Some r =>
      let? table := ok_or (part l r) Panic in
      let? large := ok_or (part l (overflow l)) Panic in
      let? time := ok_or (commit_time l index) Panic in
      let? _ := corrected_date table large index time in
      Ok tt
  end.

Fixpoint check_each (n : nat) (l : Layer bytes) (has_edges : bool) (edge_bytes : bytes) (limit index remaining : Z) : result GraphError Z :=
  match n with
  | O => Ok remaining
  | S n =>
      let? remaining := check_parents l has_edges edge_bytes limit index remaining in
      let? _ := check_date l index in
      check_each n l has_edges edge_bytes limit (index + 1) remaining
  end.

(** [Layer::check_records]: the parents left for the layers above. *)
Definition check_records (l : Layer bytes) (has_edges : bool) (parents_left : Z) : result GraphError Z :=
  let? encoded_parents :=
    ok_or (inline ← checked_mul (count l) 2; checked_add inline (range_len (edges l) / 4)) (Limit "parents") in
  let budget := Z.min parents_left encoded_parents in
  let? limit := ok_or (checked_add (start l) (count l)) Panic in
  let? edge_bytes := ok_or (part l (edges l)) Panic in
  let? remaining := check_each (Z.to_nat (count l)) l has_edges edge_bytes limit 0 budget in
  Ok (parents_left - (budget - remaining)).

(** [<[u8]>::chunks_exact]. *)
Definition chunks_exact (w : Z) (bs : bytes) : list bytes :=
  chunks (Z.to_nat w) (take (Z.to_nat (zlen bs / w * w)) bs).

(** The positions of one bucket of [validate_fanout]. *)
Fixpoint advance (fuel : nat) (ids : bytes) (w bucket position : Z) : result GraphError Z :=
  match fuel with
  | O => Ok position
  | S fuel =>
      let? b := ok_or (zget (position * w) ids) Panic in
      if b <=? bucket then advance fuel ids w bucket (position + 1) else Ok position
  end.

Fixpoint fanout_buckets (n : nat) (fanout ids : bytes) (w bucket position : Z) : result GraphError unit :=
  match n with
  | O => Ok tt
  | S n =>
      let? position := advance (Z.to_nat (zlen ids / w - position)) ids w bucket position in
      let? bound := word fanout (bucket * 4) in
      if negb (bound =? position) then Err (bad "fanout contents")
      else fanout_buckets n fanout ids w (bucket + 1) position
  end.

(** [validate_fanout]. *)
Definition validate_fanout (fanout ids : bytes) (w : Z) : result GraphError unit :=
  let? _ := fanout_buckets 256 fanout ids w 0 0 in
  let cs := chunks_exact w ids in
  if existsb (fun ab => match bytes_cmp ab.1 ab.2 with Lt => false | _ => true end) (zip cs (drop 1 cs))
  then Err (bad "object ID ordering") else Ok tt.

(** [Layer::parse]: the layer and the parents left. *)
Definition layer_parse (bs : bytes) (fmt : ObjectFormat) (limits : GraphLimits) (first : Z) (hashes : list ObjectId)
  (parents_left : Z) : result GraphError (Layer bytes * Z) :=
  let? c := table bs fmt in
  let? bases := ok_or (zget 7 bs) Panic in
  if negb (bases =? zlen hashes) then Err (bad "base graph count")
  else
    let? base := optional c BASE in
    if negb (bool_decide (chunks (Z.to_nat (digest_len fmt)) (default [] base) = map id_bytes hashes)) then Err (bad "base graph identities")
    else
      let? fan := required c OIDF in
      if negb (zlen fan =? 1024) then Err (bad "fanout length")
      else
        let? n := word fan 1020 in
        if max_commits limits <? n then Err (Limit "commits")
        else
          let? names := required c OIDL in
          let? records := required c CDAT in
          let w := digest_len fmt in
          if negb (zlen names / w =? n) || negb (zlen names mod w =? 0)
             || negb (bool_decide (Some (zlen records) = checked_mul n (w + 16)))
          then Err (bad "commit table length")
          else
            let? _ := validate_fanout fan names w in
            let? offs := optional c GDA2 in
            if match offs with Some g => negb (zlen g =? n * 4) | None => false end then Err (bad "generation table length")
            else
              let ranges tag := default (0, 0) (chunk_range c tag) in
              let? bl := bloom_parse c n in
              let l := {| bytes_ := bs; format := fmt; start := first; count := n; fanout := ranges OIDF; ids := ranges OIDL;
                          data := ranges CDAT; edges := ranges EDGE; offsets := chunk_range c GDA2; overflow := ranges GDO2;
                          bloom := bl |} in
              let? remaining := check_records l (bool_decide (is_Some (chunk_range c EDGE))) parents_left in
              Ok (l, remaining).

(** [Layer::checksum], [Layer::id] and [Layer::find]; [None] is a panic. *)
Definition layer_checksum (l : Layer bytes) : option ObjectId :=
  let bs := bytes_ l in
  trailer ← slice (zlen bs - width l) (zlen bs) bs;
  to_option (from_bytes (format l) trailer).
Definition layer_id (l : Layer bytes) (index : Z) : option ObjectId :=
  let pos := (ids l).1 + index * width l in
  name ← slice pos (pos + width l) (bytes_ l);
  to_option (from_bytes (format l) name).

(** The search of [Layer::find]. *)
Fixpoint find_loop (fuel : nat) (names : bytes) (w : Z) (id : bytes) (low high : Z) : option (option Z) :=
  if low <? high then
    match fuel with
    | O => None
    | S fuel =>
        let middle := low + (high - low) / 2 in
        name ← slice (middle * w) ((middle + 1) * w) names;
        match bytes_cmp name id with
        | Lt => find_loop fuel names w id (middle + 1) high
        | Gt => find_loop fuel names w id low middle
        | Eq => Some (Some middle)
        end
    end
  else Some None.

Definition layer_find (l : Layer bytes) (id : ObjectId) : option (option Z) :=
  let id := id_bytes id in
  if negb (zlen id =? width l) then Some None
  else
    bucket ← head id;
    fan ← part l (fanout l);
    low ← (if bucket =? 0 then Some 0 else be32 fan ((bucket - 1) * 4));
    high ← be32 fan (bucket * 4);
    names ← part l (ids l);
    find_loop (Z.to_nat (high - low)) names (width l) id low high.

(** The run of extra edges of [Layer::parents_into]. *)
Fixpoint run_into (fuel : nat) (edges : bytes) (pos : Z) : option (list Z) :=
  match fuel with
  | O => None
  | S fuel =>
      edge ← be32 edges pos;
      if has_flag edge EXTRA_EDGES then Some [without_flag edge EXTRA_EDGES]
      else rest ← run_into fuel edges (pos + 4); Some (without_flag edge EXTRA_EDGES :: rest)
  end.

(** [Layer::parents_into]: the positions it appends. *)
Definition parents_into (l : Layer bytes) (index : Z) : option (list Z) :=
  '(first, second) ← parent_fields l index;
  if first =? NO_PARENT then Some []
  else if has_flag second EXTRA_EDGES then
    edge_bytes ← part l (edges l);
    rest ← run_into (S (length edge_bytes)) edge_bytes (without_flag second EXTRA_EDGES * 4);
    Some (first :: rest)
  else if negb (second =? NO_PARENT) then Some [first; second] else Some [first].

Definition layer_bloom (l : Layer bytes) (index : Z) : option (option BloomFilter) :=
  match bloom l with None => Some None | Some b => bloom_filter b (bytes_ l) index end.

(** [Layer::decode]. *)
Definition decode (l : Layer bytes) (index : Z) (id_at : Z -> option ObjectId) : option History.GraphCommit :=
  positions ← parents_into l index;
  i ← layer_id l index;
  record ← layer_record l index;
  tree ← to_option (id (format l) (take (Z.to_nat (width l)) record));
  ps ← mapM id_at positions;
  time ← commit_time l index;
  generation ← level l index;
  date ← layer_corrected_date l index;
  Some {| History.gc_id := i; History.gc_tree := tree; History.gc_parents := ps; History.gc_commit_time := time;
          History.gc_generation := generation; History.gc_corrected_commit_date := date |}.

(** ** The order of generations *)

Inductive GenerationOrder := Unavailable | Topological | CorrectedDates.

Record HistoryIndex := {
  order : GenerationOrder;
  generations : list Z;
  parent_starts : list Z;
  parents : list Z
}.

(** [HistoryIndex::default]. *)
Definition no_index : HistoryIndex := {| order := Unavailable; generations := []; parent_starts := []; parents := [] |}.

(** Why [prepare] gives up: its reason, or a panic. *)
Inductive PrepareError := Reason (reason : string) | PreparePanic | PrepareFuel.

(** The [state] of a record in [check_ancestry], and its parents in the flat table. *)
Definition parents_of (starts ps : list Z) (index : Z) : option (list Z) :=
  a ← zget index starts;
  b ← zget (index + 1) starts;
  slice a b ps.

(** [state[index] = v], where [index] is in range. *)
Definition set_state (index v : Z) (state : list Z) : list Z := <[Z.to_nat index := v]> state.

(** The inner loop of [check_ancestry]. *)
Fixpoint visit (fuel : nat) (starts ps : list Z) (state : list Z) (stack : list (Z * bool)) : result PrepareError (list Z) :=
  match stack with
  | [] => Ok state
  | (index, exiting) :: stack =>
      match fuel with
      | O => Err PrepareFuel
      | S fuel =>
          let? here := ok_or (zget index state) PreparePanic in
          if exiting then visit fuel starts ps (set_state index 2 state) stack
          else if here =? 2 then visit fuel starts ps state stack
          else if here =? 1 then Err (Reason "cyclic indexed ancestry")
          else
            let? mine := ok_or (parents_of starts ps index) PreparePanic in
            visit fuel starts ps (set_state index 1 state)
              (foldl (fun stack parent => (parent, false) :: stack) ((index, true) :: stack) (reverse mine))
      end
  end.

Fixpoint visit_roots (n : nat) (starts ps : list Z) (root : Z) (state : list Z) : result PrepareError unit :=
  match n with
  | O => Ok tt
  | S n =>
      let? here := ok_or (zget root state) PreparePanic in
      if here =? 2 then visit_roots n starts ps (root + 1) state
      else
        let? state := visit (1 + length state * (2 + length ps)) starts ps state [(root, false)] in
        visit_roots n starts ps (root + 1) state
  end.

(** [check_ancestry]. *)
Definition check_ancestry (starts ps : list Z) : result PrepareError unit :=
  let? total := ok_or (checked_sub (zlen starts) 1) PreparePanic in
  visit_roots (Z.to_nat total) starts ps 0 (replicate (Z.to_nat total) 0).

(** The levels and dates of the records of one layer. *)
Fixpoint layer_values (n : nat) (l : Layer bytes) (index : Z) (corrected : bool) (acc : bool * list Z * list Z)
  : result PrepareError (bool * list Z * list Z) :=
  match n with
  | O => Ok acc
  | S n =>
      let '(topological, levels, dates) := acc in
      let? v := ok_or (level l index) PreparePanic in
      let? dates :=
        if corrected then
          let? date := ok_or (layer_corrected_date l index) PreparePanic in
          Ok (dates ++ [default 0 date])
        else Ok dates in
      layer_values n l (index + 1) corrected (topological && negb (v =? 0) && (v <? 0x3fffffff), levels ++ [v], dates)
  end.

Fixpoint all_values (ls : list (Layer bytes)) (corrected : bool) (acc : bool * list Z * list Z)
  : result PrepareError (bool * list Z * list Z) :=
  match ls with
  | [] => Ok acc
  | l :: ls =>
      let? acc := layer_values (Z.to_nat (count l)) l 0 corrected acc in
      all_values ls corrected acc
  end.

(** [held && values[parent] < values[child]]. *)
Definition decreasing (held : bool) (values : list Z) (parent child : Z) : result PrepareError bool :=
  if held then
    let? a := ok_or (zget parent values) PreparePanic in
    let? b := ok_or (zget child values) PreparePanic in
    Ok (a <? b)
  else Ok false.

(** The comparisons along the edges of one record. *)
Fixpoint edge_orders (mine : list Z) (child : Z) (dates levels : list Z) (corrected topological : bool)
  : result PrepareError (bool * bool) :=
  match mine with
  | [] => Ok (corrected, topological)
  | parent :: mine =>
      let? corrected := decreasing corrected dates parent child in
      let? topological := decreasing topological levels parent child in
      edge_orders mine child dates levels corrected topological
  end.

Record Edges := { e_corrected : bool; e_topological : bool; e_starts : list Z; e_parents : list Z }.

Fixpoint layer_edges (n : nat) (l : Layer bytes) (index : Z) (dates levels : list Z) (e : Edges) : result PrepareError Edges :=
  match n with
  | O => Ok e
  | S n =>
      let? mine := ok_or (parents_into l index) PreparePanic in
      let? (corrected, topological) :=
        edge_orders mine (start l + index) dates levels (e_corrected e) (e_topological e) in
      let flat := e_parents e ++ mine in
      if u32_max <? zlen flat then Err (Reason "parent count")
      else layer_edges n l (index + 1) dates levels
             {| e_corrected := corrected; e_topological := topological; e_starts := e_starts e ++ [zlen flat]; e_parents := flat |}
  end.

Fixpoint all_edges (ls : list (Layer bytes)) (dates levels : list Z) (e : Edges) : result PrepareError Edges :=
  match ls with
  | [] => Ok e
  | l :: ls =>
      let? e := layer_edges (Z.to_nat (count l)) l 0 dates levels e in
      all_edges ls dates levels e
  end.

(** [prepare]. *)
Definition prepare (ls : list (Layer bytes)) : result PrepareError HistoryIndex :=
  let corrected := forallb (fun l => (count l =? 0) || bool_decide (is_Some (offsets l))) ls in
  let? (topological, levels, dates) := all_values ls corrected (true, [], []) in
  let? e := all_edges ls dates levels {| e_corrected := corrected; e_topological := topological; e_starts := [0]; e_parents := [] |} in
  if e_corrected e then
    Ok {| order := CorrectedDates; generations := dates; parent_starts := e_starts e; parents := e_parents e |}
  else if e_topological e then
    Ok {| order := Topological; generations := levels; parent_starts := e_starts e; parents := e_parents e |}
  else
    let? _ := check_ancestry (e_starts e) (e_parents e) in
    Ok no_index.

(** ** The graph *)

(** [CommitGraph]; the cache of sorted records is a function of the rest. *)
Record Graph := { layers : list (Layer bytes); g_format : ObjectFormat; history : result string HistoryIndex }.

(** Whether an earlier layer has an identity of the layer. *)
Fixpoint any_find (bases : list (Layer bytes)) (i : ObjectId) : option bool :=
  match bases with
  | [] => Some false
  | b :: bases => r ← layer_find b i; match r with Some _ => Some true | None => any_find bases i end
  end.
Fixpoint any_duplicate (n : nat) (l : Layer bytes) (bases : list (Layer bytes)) (index : Z) : option bool :=
  match n with
  | O => Some false
  | S n =>
      i ← layer_id l index;
      found ← any_find bases i;
      if found : bool then Some true else any_duplicate n l bases (index + 1)
  end.

(** The loop of [check_structure]; [ls] are the layers so far, base first. *)
Fixpoint parse_layers (files : list bytes) (fmt : ObjectFormat) (limits : GraphLimits) (ls : list (Layer bytes))
  (hashes : list ObjectId) (commits parents_left : Z) : result GraphError (list (Layer bytes)) :=
  match files with
  | [] => Ok ls
  | bs :: files =>
      let? commits_left := ok_or (checked_sub (max_commits limits) commits) Panic in
      let? (l, parents_left) :=
        layer_parse bs fmt {| max_bytes := max_bytes limits; max_commits := commits_left; max_parents := max_parents limits |}
          commits hashes parents_left in
      let? duplicate := ok_or (any_duplicate (Z.to_nat (count l)) l ls 0) Panic in
      if duplicate : bool then Err (bad "duplicate commit across layers")
      else
        let? commits := ok_or (checked_add commits (count l)) Panic in
        let? hash := ok_or (layer_checksum l) Panic in
        parse_layers files fmt limits (ls ++ [l]) (hashes ++ [hash]) commits parents_left
  end.

(** [check_structure]. *)
Definition check_structure (files : list bytes) (fmt : ObjectFormat) (limits : GraphLimits)
  : result GraphError (list (Layer unit) * result string HistoryIndex) :=
  let? ls := parse_layers files fmt limits [] [] 0 (max_parents limits) in
  let? prepared :=
    match prepare ls with
    | Ok h => Ok (Ok h)
    | Err (Reason reason) => Ok (Err reason)
    | Err PreparePanic => Err Panic
    | Err PrepareFuel => Err OutOfFuel
    end in
  Ok (map detach ls, prepared).

(** [check_chain_bounds]. *)
Fixpoint total_length (lengths : list Z) (total : Z) : result GraphError Z :=
  match lengths with
  | [] => Ok total
  | n :: lengths => let? total := ok_or (checked_add total n) (Limit "bytes") in total_length lengths total
  end.
Definition check_chain_bounds (lengths : list Z) (limits : GraphLimits) : result GraphError unit :=
  if 256 <? zlen lengths then Err (Limit "chain layers")
  else
    let? total := total_length lengths 0 in
    if max_bytes limits <? total then Err (Limit "bytes") else Ok tt.

Section Hashing.
(** The digest functions, from the aws-lc library. *)
Context (sha1 sha256 : bytes -> bytes).

(** [Chunks::checksum]. *)
Definition check_checksum (bs : bytes) (fmt : ObjectFormat) : result GraphError unit :=
  let? stop := ok_or (checked_sub (zlen bs) (digest_len fmt)) (bad "header") in
  if negb (bytes_eqb (id_bytes (checksum sha1 sha256 fmt (take (Z.to_nat stop) bs))) (drop (Z.to_nat stop) bs)) then Err Checksum
  else Ok tt.

(** [Chunks::parse]. *)
Definition chunks_parse (bs : bytes) (fmt : ObjectFormat) (limits : GraphLimits) : result GraphError Chunks :=
  let? _ := header bs fmt limits in
  let? _ := check_checksum bs fmt in
  table bs fmt.

Fixpoint try_each {A} (f : A -> result GraphError unit) (l : list A) : result GraphError unit :=
  match l with
  | [] => Ok tt
  | a :: l => let? _ := f a in try_each f l
  end.

Definition CONCURRENT_CHECKSUM_BYTES : Z := Z.shiftl 1 20.

(** [parse_files]; [spawned] says whether a thread could be started. *)
Definition parse_files (spawned : bool) (files : list bytes) (fmt : ObjectFormat) (limits : GraphLimits) (sum : Checksum_)
  : result GraphError Graph :=
  let? _ := try_each (fun bs => header bs fmt limits) files in
  let checksums := match sum with Verify => try_each (fun bs => check_checksum bs fmt) files | Skip => Ok tt end in
  let total := match sum with Verify => foldr (fun bs n => zlen bs + n) 0 files | Skip => 0 end in
  let hashing := (CONCURRENT_CHECKSUM_BYTES <=? total) && spawned in
  let? (layouts, prepared) :=
    if hashing then
      match check_structure files fmt limits with
      | Err Panic => Err Panic
      | structure => let? _ := checksums in structure
      end
    else
      let? _ := checksums in
      check_structure files fmt limits in
  Ok {| layers := zip_with attach layouts files; g_format := fmt; history := prepared |}.

(** [parse_owned], [parse_with], [parse_chain_owned] and [parse_chain_with]. *)
Definition parse_owned (spawned : bool) (bs : bytes) (fmt : ObjectFormat) (limits : GraphLimits) (sum : Checksum_) : result GraphError Graph :=
  if match zget 7 bs with Some bases => negb (bases =? 0) | None => false end then
    let? _ := chunks_parse bs fmt limits in
    Err (Unsupported "split file requires bases")
  else parse_files spawned [bs] fmt limits sum.
Definition parse_with (spawned : bool) (bs : bytes) (fmt : ObjectFormat) (limits : GraphLimits) : result GraphError Graph :=
  if max_bytes limits <? zlen bs then Err (Limit "bytes") else parse_owned spawned bs fmt limits Verify.
Definition parse (spawned : bool) (bs : bytes) (fmt : ObjectFormat) : result GraphError Graph :=
  parse_with spawned bs fmt default_limits.
Definition parse_chain_owned (spawned : bool) (files : list bytes) (fmt : ObjectFormat) (limits : GraphLimits) (sum : Checksum_)
  : result GraphError Graph :=
  let? _ := check_chain_bounds (map zlen files) limits in
  parse_files spawned files fmt limits sum.
Definition parse_chain_with (spawned : bool) (files : list bytes) (fmt : ObjectFormat) (limits : GraphLimits) : result GraphError Graph :=
  let? _ := check_chain_bounds (map zlen files) limits in
  parse_chain_owned spawned files fmt limits Verify.
Definition parse_chain (spawned : bool) (files : list bytes) (fmt : ObjectFormat) : result GraphError Graph :=
  parse_chain_with spawned files fmt default_limits.
End Hashing.

(** [CommitGraph::len], [locate], [layer_at], [record], [get] and [commits];
    the outer [None] is a panic. *)
Definition len (g : Graph) : Z := match last (layers g) with Some l => start l + count l | None => 0 end.
Fixpoint find_map (ls : list (Layer bytes)) (i : ObjectId) : option (option Z) :=
  match ls with
  | [] => Some None
  | l :: ls =>
      r ← layer_find l i;
      match r with Some index => Some (Some (start l + index)) | None => find_map ls i end
  end.
Definition locate (g : Graph) (i : ObjectId) : option (option Z) := find_map (layers g) i.
Definition layer_at (g : Graph) (position : Z) : option (Layer bytes * Z) :=
  let n := partition_point (length (layers g))
             (fun k => match layers g !! Z.to_nat k with Some l => start l <=? position | None => false end)
             0 (zlen (layers g)) in
  if n =? 0 then None
  else
    l ← zget (n - 1) (layers g);
    Some (l, position - start l).
Definition id_at (g : Graph) (position : Z) : option ObjectId :=
  '(l, index) ← layer_at g position;
  layer_id l index.
Definition record (g : Graph) (position : Z) : option History.GraphCommit :=
  '(l, index) ← layer_at g position;
  decode l index (id_at g).
Definition get (g : Graph) (i : ObjectId) : option (option History.GraphCommit) :=
  r ← locate g i;
  match r with
  | Some position => c ← record g position; Some (Some c)
  | None => Some None
  end.
Definition commits (g : Graph) : option (list History.GraphCommit) :=
  cs ← mapM (record g) (seqZ 0 (len g));
  Some (if 1 <? zlen (layers g) then sort_by (fun a b => id_cmp (History.gc_id a) (History.gc_id b)) cs else cs).

(** [CommitGraph::ordered], [generation], [position], [positions], [generation_at] and
    [parent_positions]. *)
Definition ordered (g : Graph) : option HistoryIndex :=
  match history g with
  | Ok h => match order h with Unavailable => None | _ => Some h end
  | Err _ => None
  end.
Definition generation (g : Graph) (i : ObjectId) : option (option Z) :=
  match ordered g with
  | None => Some None
  | Some h =>
      r ← locate g i;
      match r with None => Some None | Some p => n ← zget p (generations h); Some (Some n) end
  end.
Definition position (g : Graph) (i : ObjectId) : option (option Z) :=
  match ordered g with
  | None => Some None
  | Some _ =>
      r ← locate g i;
      Some (p ← r; if p <=? u32_max then Some p else None)
  end.
Definition positions (g : Graph) : Z := len g.
Definition generation_at (g : Graph) (p : Z) : option Z :=
  match ordered g with None => Some 0 | Some h => zget p (generations h) end.
Definition parent_positions (g : Graph) (p : Z) : option (list Z) :=
  match ordered g with None => Some [] | Some h => parents_of (parent_starts h) (parents h) p end.

(** [CommitGraph::might_change_path]; the outer [None] is a panic. *)
Definition might_change_path (g : Graph) (commit : ObjectId) (path : bytes) : option (option bool) :=
  if bytes_eqb path []
     || existsb (fun p => bytes_eqb p [] || bytes_eqb p [46] || bytes_eqb p [46; 46] || contains 0 p) (split_on 47 path)
  then Some None
  else
    r ← locate g commit;
    match r with
    | None => Some None
    | Some p =>
        '(l, index) ← layer_at g p;
        filter ← layer_bloom l index;
        match filter with None => Some None | Some filter => filter_answer filter path end
    end.

(** [Objects::attach_commit_graph] and [Objects::without_commit_graph]. *)
Definition attach_commit_graph (o : History.Objects_ Graph) (g : Graph) : result GraphError (History.Objects_ Graph) :=
  if negb (bool_decide (g_format g = History.o_format o)) then Err HashFormat
  else
    match history g with
    | Err reason => Err (bad reason)
    | Ok _ => Ok {| History.o_format := History.o_format o; History.o_read := History.o_read o;
                    History.o_graft := History.o_graft o; History.o_shallow := History.o_shallow o;
                    History.o_graph := Some g |}
    end.
Definition without_commit_graph (o : History.Objects_ Graph) : History.Objects_ Graph :=
  {| History.o_format := History.o_format o; History.o_read := History.o_read o;
     History.o_graft := History.o_graft o; History.o_shallow := History.o_shallow o; History.o_graph := None |}.
End CommitGraph.
