(* ===== verification/CommitGraphLayer.v ===== *)
(** * Checked layers of a commit graph

    What parsing one file establishes: the tables are in range, identities ascend and the
    fan-out table counts them, every parent names a record, every date exists, and the
    lookup by identity is exact.  No step of the parser panics. *)

From stdpp Require Import base list numbers strings sorting.
From Stdlib Require Import ZArith Lia.
From S2P Require Import Prelude Objects BTree Trees History CommitGraph.

Module GraphLayer.
Import Objects CommitGraph.


(** ** Results that are not panics *)

Definition returns {A} (r : result GraphError A) (P : A -> Prop) : Prop :=
  match r with Ok a => P a | Err e => e <> Panic /\ e <> OutOfFuel end.

Lemma graph_returns_bind {A B} (r : result GraphError A) (k : A -> result GraphError B) (P : A -> Prop) (Q : B -> Prop) :
  returns r P -> (forall a, r = Ok a -> P a -> returns (k a) Q) -> returns (rbind r k) Q.
Proof. destruct r; cbn; auto. Qed.

Lemma graph_returns_weaken {A} (r : result GraphError A) (P Q : A -> Prop) : returns r P -> (forall a, P a -> Q a) -> returns r Q.
Proof. destruct r; cbn; auto. Qed.

Lemma returns_some {A B} (o : option A) (a : A) e (k : A -> result GraphError B) (Q : B -> Prop) :
  o = Some a -> returns (k a) Q -> returns (rbind (ok_or o e) k) Q.
Proof. by intros ->. Qed.

Lemma returns_checked {A B} (o : option A) e (k : A -> result GraphError B) (Q : B -> Prop) :
  e <> Panic /\ e <> OutOfFuel -> (forall a, o = Some a -> returns (k a) Q) -> returns (rbind (ok_or o e) k) Q.
Proof. destruct o; cbn; auto. Qed.

(** ** Integers *)

Lemma read_be_Ok n bs pos v : read_be n bs pos = Ok v -> 0 <= n ->
  0 <= pos /\ pos + n <= zlen bs /\ exists field, slice pos (pos + n) bs = Some field /\ v = be_decode field.
Proof.
  unfold read_be. intros (stop & [-> _]%ok_or_Ok%checked_add_Some & (field & Hf%ok_or_Ok & [= <-])%rbind_Ok)%rbind_Ok Hn.
  pose proof Hf as (? & ? & _)%slice_Some. split_and!; [lia..|eauto].
Qed.

Lemma returns_read n bs pos : 0 <= n ->
  returns (read_be n bs pos) (fun v => 0 <= pos /\ pos + n <= zlen bs /\
    exists field, slice pos (pos + n) bs = Some field /\ v = be_decode field).
Proof.
  intros Hn. destruct (read_be n bs pos) as [v|e] eqn:E; [by apply read_be_Ok in E|]. revert E. unfold read_be.
  destruct (checked_add pos n); cbn [ok_or rbind]; [|by intros [= <-]]. destruct (slice _ _ _); cbn [ok_or rbind]; by intros [= <-].
Qed.

Lemma field_bound pos n bs field : bytes_ok bs -> slice pos (pos + n) bs = Some field -> 0 <= be_decode field < 256 ^ n.
Proof.
  intros Hb Hs. pose proof (bytes_ok_slice _ _ _ _ Hb Hs) as Hf%be_decode_bound.
  apply slice_zlen in Hs. by replace (zlen field) with n in Hf by lia.
Qed.

Lemma be32_bound bs pos v : bytes_ok bs -> be32 bs pos = Some v -> 0 <= v < 2 ^ 32.
Proof. unfold be32. intros Hb (f & Hs & ->)%fmap_Some. by apply (field_bound pos 4 bs). Qed.

Lemma be32_is_Some bs pos : 0 <= pos -> pos + 4 <= zlen bs -> exists v, be32 bs pos = Some v.
Proof. intros. destruct (slice_is_Some pos (pos + 4) bs) as [m Hm]; [lia..|]. unfold be32. rewrite Hm. by eexists. Qed.

Lemma word_be32 bs pos v : word bs pos = Ok v -> be32 bs pos = Some v.
Proof. intros (_ & _ & f & Hf & ->)%read_be_Ok; [|done]. unfold be32. by rewrite Hf. Qed.

Lemma returns_word bs pos : bytes_ok bs ->
  returns (word bs pos) (fun v => 0 <= pos /\ pos + 4 <= zlen bs /\ be32 bs pos = Some v /\ 0 <= v < 2 ^ 32).
Proof.
  intros Hb. eapply graph_returns_weaken; [apply (returns_read 4 bs pos); lia|]. intros v (? & ? & f & Hf & ->).
  do 2 (split; [done|]). split; [unfold be32; by rewrite Hf|apply (field_bound pos 4 bs f Hb Hf)].
Qed.

(** ** Flags of a [u32] *)

Lemma has_flag_31 x : has_flag x EXTRA_EDGES = Z.testbit x 31.
Proof. unfold has_flag, EXTRA_EDGES. change 0x80000000 with (Z.shiftl 1 31). rewrite land_bit by lia. by rewrite negb_involutive. Qed.

Lemma without_flag_31 x : 0 <= x < 2 ^ 32 -> without_flag x EXTRA_EDGES = x mod 2 ^ 31.
Proof. intros. unfold without_flag. change (Z.lxor u32_max EXTRA_EDGES) with (2 ^ 31 - 1). by apply land_low_mod. Qed.

Lemma without_flag_bound x : 0 <= x < 2 ^ 32 -> 0 <= without_flag x EXTRA_EDGES < 2 ^ 31.
Proof. intros. rewrite without_flag_31 by done. apply Z.mod_pos_bound. lia. Qed.

(** ** The chunk table *)

Definition range_ok (stop : Z) (r : range) : Prop := 0 <= r.1 <= r.2 /\ r.2 <= stop.

Lemma table_entries_spec n bs count stop table_end i previous ranges :
  bytes_ok bs -> 0 <= i -> Z.of_nat n = count + 1 - i -> table_end = 8 + (count + 1) * 12 -> table_end <= stop <= zlen bs ->
  BTree.ok ranges -> Forall (fun x => range_ok stop x.2) ranges ->
  returns (table_entries n bs count stop table_end i previous ranges)
    (fun rs => BTree.ok rs /\ Forall (fun x => range_ok stop x.2) rs).
Proof.
  intros Hb. revert i previous ranges. induction n as [|n IH]; intros i previous ranges Hi Hn Ht Hs Hok Hall; [done|].
  cbn [table_entries]. destruct (slice_is_Some (8 + i * 12) (8 + i * 12 + 4) bs) as [tag Htag]; [lia..|].
  eapply returns_some; [done|]. eapply graph_returns_bind; [by apply returns_read|].
  intros offset _ (_ & _ & f & Hf & Hv).
  assert (0 <= offset) by (pose proof (field_bound _ 8 _ _ Hb Hf); lia).
  destruct (_ || _) eqn:E1; [done|]. apply orb_false_iff in E1 as [[E1%Z.ltb_ge E2%Z.ltb_ge]%orb_false_iff _].
  destruct (Z.eqb_spec i count); [destruct (_ || _); [done|]; apply IH; done || lia|].
  destruct (bytes_eqb _ _); [done|]. eapply graph_returns_bind; [by apply returns_read|].
  intros next _ _. destruct (_ || _) eqn:E4; [done|]. apply orb_false_iff in E4 as [E4%Z.ltb_ge E5%Z.ltb_ge].
  destruct (BTree.get tag ranges); [done|]. apply IH; try done; try lia; [by apply BTree.ok_insert|].
  apply Forall_forall. intros x [-> |Hx]%BTree.insert_keys; [|by eapply Forall_forall in Hall].
  unfold range_ok. cbn. lia.
Qed.

(** What a checked table says. *)
Record table_ok (bs : bytes) (fmt : ObjectFormat) (c : Chunks) : Prop := {
  to_bytes : c_bytes c = bs;
  to_sorted : BTree.ok (c_ranges c);
  to_ranges : Forall (fun x => range_ok (zlen bs - digest_len fmt) x.2) (c_ranges c)
}.

Lemma table_returns bs fmt : bytes_ok bs -> 8 + digest_len fmt <= zlen bs -> returns (table bs fmt) (table_ok bs fmt).
Proof.
  intros Hb Hl. pose proof (digest_len_cases fmt). unfold table. rewrite checked_sub_le by lia. eapply returns_some; [done|].
  destruct (zget_is_Some 6 bs) as [count Hc]; [lia|]. eapply returns_some; [done|].
  assert (0 <= count). { apply zget_Some in Hc as [_ Hc]. eapply Forall_lookup_1 in Hb; [|done]. unfold byte_ok in Hb. lia. }
  destruct (_ <? _) eqn:E; [done|]. bool_prop.
  eapply graph_returns_bind; [apply table_entries_spec; try done; lia || constructor|].
  intros rs _ [Hok Hall]. by constructor.
Qed.

Lemma chunk_range_ok bs fmt c tag r : table_ok bs fmt c -> chunk_range c tag = Some r ->
  0 <= r.1 <= r.2 /\ r.2 <= zlen bs - digest_len fmt.
Proof.
  intros [_ Hs Hr]. unfold chunk_range. intros H%BTree.get_elem; [|done]. eapply Forall_forall in Hr; [|done]. done.
Qed.

Lemma chunk_part bs fmt c tag r : table_ok bs fmt c -> chunk_range c tag = Some r ->
  exists part, slice r.1 r.2 bs = Some part /\ zlen part = range_len r.
Proof.
  intros Hc Hr. pose proof (digest_len_cases fmt). destruct (chunk_range_ok _ _ _ _ _ Hc Hr).
  destruct (slice_is_Some r.1 r.2 bs) as [m Hm]; [lia..|]. exists m. split; [done|]. by apply slice_zlen in Hm.
Qed.

Lemma returns_optional bs fmt c tag : table_ok bs fmt c -> returns (optional c tag) (fun o =>
  match o with
  | Some part => exists r, chunk_range c tag = Some r /\ slice r.1 r.2 bs = Some part
  | None => chunk_range c tag = None
  end).
Proof.
  intros Hc. unfold optional. destruct (chunk_range c tag) as [r|] eqn:E; [|done].
  destruct (chunk_part _ _ _ _ _ Hc E) as (m & Hm & _). rewrite (to_bytes _ _ _ Hc). eapply returns_some; [done|]. cbn. eauto.
Qed.

Lemma returns_required bs fmt c tag : table_ok bs fmt c -> returns (required c tag) (fun part =>
  exists r, chunk_range c tag = Some r /\ slice r.1 r.2 bs = Some part).
Proof.
  intros Hc. unfold required. eapply graph_returns_bind; [by eapply returns_optional|]. intros [part|] _ H; cbn; [done|done].
Qed.

Lemma header_returns bs fmt limits : returns (header bs fmt limits) (fun _ => 8 + digest_len fmt <= zlen bs <= max_bytes limits).
Proof.
  unfold header. destruct (Z.ltb_spec (max_bytes limits) (zlen bs)); [done|].
  destruct (_ || _) eqn:E; [done|]. apply orb_false_iff in E as [E%Z.ltb_ge _]. pose proof (digest_len_cases fmt).
  destruct (zget_is_Some 4 bs) as [v Hv]; [lia|]. eapply returns_some; [done|]. destruct (negb _); [done|].
  destruct (zget_is_Some 5 bs) as [h Hh]; [lia|]. eapply returns_some; [done|]. destruct (negb _); [done|]. cbn. lia.
Qed.

(** ** The identity table *)

Lemma slice_of_slice {A} a b c d (l m : list A) : slice a b l = Some m -> 0 <= c <= d -> d <= zlen m -> slice c d m = slice (a + c) (a + d) l.
Proof.
  intros (pre & post & -> & <- & Hm)%slice_app Hc Hd. destruct (slice_is_Some c d m Hc Hd) as [k Hk]. rewrite Hk. symmetry.
  apply slice_app in Hk as (p & q & -> & <- & Hk). apply slice_app. exists (pre ++ p), (q ++ post).
  rewrite !zlen_app, <- !app_assoc. split_and!; [done|lia..].
Qed.

Lemma chunks_from_lookup {A} fuel n (l : list A) i : (0 < n)%nat -> (length l <= fuel)%nat -> (i * n < length l)%nat ->
  chunks_from fuel n l !! i = Some (take n (drop (i * n) l)).
Proof.
  intros Hn. revert l i. induction fuel as [|fuel IH]; intros l i Hl Hi; destruct l as [|x l]; cbn [length] in *; try lia.
  destruct i as [|i]; [done|]. cbn [chunks_from]. cbn [lookup list_lookup].
  etransitivity; [apply IH; rewrite length_drop; cbn [length]; lia|]. rewrite drop_drop. do 2 f_equal.
Qed.

Definition names_total (w : Z) (names : bytes) : Z := zlen names / w.

Lemma chunks_exact_lookup w names i : 0 < w -> 0 <= i < names_total w names ->
  chunks_exact w names !! Z.to_nat i = slice (i * w) ((i + 1) * w) names.
Proof.
  unfold names_total, chunks_exact. intros Hw Hi. pose proof (Z.mul_div_le (zlen names) w Hw). set (t := zlen names / w) in *.
  unfold chunks. rewrite chunks_from_lookup; [|lia|done|].
  2:{ rewrite length_take. unfold zlen in *. nia. }
  symmetry. apply slice_Some. split_and!; [nia..|]. rewrite !take_drop_commute, take_take. f_equal; [|f_equal]; nia.
Qed.

(** Adjacent identities ascend, hence all do. *)
Lemma ascending w names : 0 < w -> (let cs := chunks_exact w names in
    existsb (fun ab : bytes * bytes => match bytes_cmp ab.1 ab.2 with Lt => false | _ => true end) (zip cs (drop 1 cs)) = false) ->
  forall i j a b, 0 <= i < j -> j < names_total w names ->
    slice (i * w) ((i + 1) * w) names = Some a -> slice (j * w) ((j + 1) * w) names = Some b -> bytes_cmp a b = Lt.
Proof.
  cbv zeta. intros Hw Hex i j a b Hi Hj Ha.
  assert (forall k x y, 0 <= k -> k + 1 < names_total w names -> slice (k * w) ((k + 1) * w) names = Some x ->
    slice ((k + 1) * w) ((k + 1 + 1) * w) names = Some y -> bytes_cmp x y = Lt) as Hadj.
  { intros k x y Hk0 Hk Hx Hy. rewrite <- chunks_exact_lookup in Hx, Hy by (done || lia).
    destruct (bytes_cmp x y) eqn:E; [|done|]; exfalso; apply not_true_iff_false in Hex; apply Hex, existsb_exists; exists (x, y);
      (split; [|cbn; by rewrite E]); apply list_elem_of_In, (list_elem_of_lookup_2 _ (Z.to_nat k)), lookup_zip_Some;
      (split; [done|]); rewrite lookup_drop; rewrite <- Hy; f_equal; lia. }
  revert b. replace j with (i + 1 + Z.of_nat (Z.to_nat (j - i - 1))) in * by lia. set (n := Z.to_nat (j - i - 1)) in *. clearbody n.
  induction n as [|n IH]; intros b Hb; [apply (Hadj i); try done; rewrite Z.add_0_r in *; done || lia|].
  assert (i + 1 + Z.of_nat n < names_total w names) by lia.
  assert (zlen names / w * w <= zlen names) by (pose proof (Z.mul_div_le (zlen names) w Hw); lia).
  destruct (slice_is_Some ((i + 1 + Z.of_nat n) * w) ((i + 1 + Z.of_nat n + 1) * w) names) as [m Hm]; [unfold names_total in *; nia..|].
  eapply bytes_cmp_lt_trans; [apply IH; try done; lia|]. eapply (Hadj (i + 1 + Z.of_nat n)); try done; try lia.
  by replace (i + 1 + Z.of_nat n + 1) with (i + 1 + Z.of_nat (S n)) by lia.
Qed.

(** ** The fan-out table *)

Lemma advance_spec fuel names w bucket position total :
  0 < w -> 0 <= position -> Z.of_nat fuel = total - position -> total * w <= zlen names ->
  returns (advance fuel names w bucket position) (fun q => position <= q <= total /\
    (forall i, position <= i < q -> exists b, zget (i * w) names = Some b /\ b <= bucket) /\
    (q < total -> exists b, zget (q * w) names = Some b /\ bucket < b)).
Proof.
  intros Hw. revert position. induction fuel as [|fuel IH]; intros position Hp Hf Ht; cbn [advance].
  { cbn. split_and!; [lia..| |]; intros; lia. }
  destruct (zget_is_Some (position * w) names) as [b Hb]; [nia|]. eapply returns_some; [done|].
  destruct (Z.leb_spec b bucket); [|cbn; split_and!; [lia..| |]; intros; [lia|eauto]].
  eapply graph_returns_weaken; [apply IH; lia|]. intros q (Hq & Hall & Hlast). split_and!; [lia..| |done].
  intros i Hi. destruct (decide (i = position)) as [-> |]; [eauto|apply Hall; lia].
Qed.

(** Bucket [b] ends at [q]: the identities before it, and none after, start with at most [b]. *)
Definition bucket_end (names : bytes) (w total b q : Z) : Prop :=
  0 <= q <= total /\
  (forall i, 0 <= i < q -> exists x, zget (i * w) names = Some x /\ x <= b) /\
  (q < total -> exists x, zget (q * w) names = Some x /\ b < x).

Lemma fanout_buckets_spec n fan names w bucket position :
  0 < w -> bytes_ok fan -> 0 <= position <= names_total w names ->
  (forall i, 0 <= i < position -> exists x, zget (i * w) names = Some x /\ x <= bucket) ->
  returns (fanout_buckets n fan names w bucket position) (fun _ =>
    forall b, bucket <= b < bucket + Z.of_nat n -> exists q, be32 fan (b * 4) = Some q /\ bucket_end names w (names_total w names) b q).
Proof.
  intros Hw Hb. revert bucket position. induction n as [|n IH]; intros bucket position Hp Hbelow; cbn [fanout_buckets].
  { cbn. intros. lia. }
  pose proof (Z.mul_div_le (zlen names) w Hw). fold (names_total w names) in *.
  eapply graph_returns_bind; [apply (advance_spec _ _ _ _ _ (names_total w names)); lia|].
  intros q _ (Hq & Hall & Hlast). eapply graph_returns_bind; [by apply returns_word|]. intros bound _ (_ & _ & Hbound & _).
  destruct (Z.eqb_spec bound q) as [-> |]; [|done]. cbn [negb].
  assert (forall i, 0 <= i < q -> exists x, zget (i * w) names = Some x /\ x <= bucket) as Hbelow'.
  { intros i Hi. destruct (decide (i < position)); [apply Hbelow; lia|apply Hall; lia]. }
  eapply graph_returns_weaken; [apply IH; [lia|]|].
  { intros i Hi. destruct (Hbelow' i Hi) as (x & ? & ?). exists x. split; [done|lia]. }
  cbn. intros _ Hrest b Hb'. destruct (decide (b = bucket)) as [-> |]; [|apply Hrest; lia].
  exists q. split; [done|]. split_and!; [lia..|done|done].
Qed.

Lemma validate_fanout_spec fan names w : 0 < w -> bytes_ok fan -> returns (validate_fanout fan names w) (fun _ =>
  (forall b, 0 <= b < 256 -> exists q, be32 fan (b * 4) = Some q /\ bucket_end names w (names_total w names) b q) /\
  (forall i j a b, 0 <= i < j -> j < names_total w names ->
    slice (i * w) ((i + 1) * w) names = Some a -> slice (j * w) ((j + 1) * w) names = Some b -> bytes_cmp a b = Lt)).
Proof.
  intros Hw Hb. unfold validate_fanout. eapply graph_returns_bind.
  { apply fanout_buckets_spec; try done; [|intros; lia]. split; [lia|]. apply Z.div_pos; [apply zlen_nonneg|done]. }
  intros [] _ Hfan. cbv zeta. destruct (existsb _ _) eqn:E; [done|]. cbn. split; [intros b Hb'; apply Hfan; lia|]. by apply ascending.
Qed.

(** ** Parents and dates of the records *)

(** A bound on each element of a short list. *)
Ltac forall_lia := repeat (apply List.Forall_cons; [lia|]); try apply List.Forall_nil.

(** A parent was charged: it is in range, and the budget was not exhausted. *)
Lemma charge_returns limit parent remaining : returns (charge limit parent remaining) (fun rest =>
  parent < limit /\ rest = remaining - 1 /\ 0 <= rest).
Proof.
  unfold charge. eapply returns_checked; [done|]. intros rest [-> ?]%checked_sub_Some. destruct (Z.leb_spec limit parent); [done|].
  cbn. lia.
Qed.

(** A checked run is a run that can be decoded; each parent of it was charged. *)
Lemma check_run_spec fuel edge_bytes limit pos remaining :
  bytes_ok edge_bytes -> 0 <= pos -> Z.max 0 (zlen edge_bytes - pos) < Z.of_nat fuel ->
  returns (check_run fuel edge_bytes limit pos remaining) (fun rest => exists ps,
    run_into fuel edge_bytes pos = Some ps /\ Forall (fun p => 0 <= p < limit) ps /\ rest = remaining - zlen ps /\ 0 <= rest).
Proof.
  intros Hb. revert pos remaining. induction fuel as [|fuel IH]; intros pos remaining Hp Hf; cbn [check_run]; [lia|].
  eapply graph_returns_bind; [by apply returns_word|]. intros edge _ (_ & Hlen & Hedge & Hv).
  pose proof (without_flag_bound edge Hv). eapply graph_returns_bind; [apply charge_returns|]. intros rest _ (Hlim & -> & Hrest).
  cbn [run_into]. rewrite Hedge. cbn [mbind option_bind]. destruct (has_flag edge EXTRA_EDGES).
  - cbn. eexists. split; [done|]. unfold zlen; cbn [length]. split; [by forall_lia|lia].
  - eapply graph_returns_weaken; [apply IH; lia|]. intros r (ps & Hps & Hall & -> & Hr). rewrite Hps. cbn. eexists. split; [done|].
    rewrite zlen_cons. split; [apply List.Forall_cons; [lia|done]|lia].
Qed.

(** The parent fields of the records are there. *)
Definition records_ok (l : Layer bytes) : Prop :=
  bytes_ok (bytes_ l) /\ 0 <= (data l).1 /\ 0 <= count l /\ (data l).1 + count l * (width l + 16) <= zlen (bytes_ l).

Lemma width_pos {B} (l : Layer B) : width l = 20 \/ width l = 32.
Proof. apply digest_len_cases. Qed.

Lemma record_at l i : records_ok l -> 0 <= i < count l ->
  exists r, layer_record l i = Some r /\ bytes_ok r /\ zlen r = width l + 16.
Proof.
  intros (Hb & H0 & Hc & Hd) Hi. pose proof (width_pos l). unfold layer_record.
  destruct (slice_is_Some ((data l).1 + i * (width l + 16)) ((data l).1 + i * (width l + 16) + (width l + 16)) (bytes_ l)) as [r Hr];
    [nia..|]. exists r. split_and!; [done|by eapply bytes_ok_slice|]. apply slice_zlen in Hr. lia.
Qed.

Lemma parent_fields_at l i : records_ok l -> 0 <= i < count l ->
  exists first second, parent_fields l i = Some (first, second) /\ 0 <= first < 2 ^ 32 /\ 0 <= second < 2 ^ 32.
Proof.
  intros Hl Hi. destruct (record_at l i Hl Hi) as (r & Hr & Hb & Hlen). pose proof (width_pos l). unfold parent_fields. rewrite Hr. cbn [mbind option_bind].
  destruct (be32_is_Some r (width l)) as [a Ha]; [lia..|]. destruct (be32_is_Some r (width l + 4)) as [b Hb']; [lia..|].
  rewrite Ha. cbn [mbind option_bind]. rewrite Hb'. exists a, b. split; [done|]. split; by eapply be32_bound.
Qed.

Lemma high_low_at l i : records_ok l -> 0 <= i < count l -> exists high low,
  commit_time l i = Some (Z.lor (Z.shiftl (Z.land high 3) 32) low) /\ level l i = Some (Z.shiftr high 2) /\
  0 <= high < 2 ^ 32 /\ 0 <= low < 2 ^ 32.
Proof.
  intros Hl Hi. destruct (record_at l i Hl Hi) as (r & Hr & Hb & Hlen). pose proof (width_pos l). unfold commit_time, level. rewrite Hr. cbn [mbind option_bind].
  destruct (be32_is_Some r (width l + 8)) as [a Ha]; [lia..|]. destruct (be32_is_Some r (width l + 12)) as [b Hb']; [lia..|].
  rewrite Ha. cbn [mbind option_bind]. rewrite Hb'. exists a, b. split_and!; try done; by eapply be32_bound.
Qed.

(** The parents of one record, decoded. *)
Lemma check_parents_spec l has_edges edge_bytes limit i remaining :
  records_ok l -> part l (edges l) = Some edge_bytes -> 0 <= i < count l -> 0 <= remaining ->
  returns (check_parents l has_edges edge_bytes limit i remaining) (fun rest => exists ps,
    parents_into l i = Some ps /\ Forall (fun p => 0 <= p < limit) ps /\ rest = remaining - zlen ps /\ 0 <= rest).
Proof.
  intros Hl He Hi Hr. destruct (parent_fields_at l i Hl Hi) as (first & second & Hpf & Hf & Hs). unfold check_parents, parents_into.
  rewrite Hpf. cbn [ok_or rbind mbind option_bind]. destruct (first =? NO_PARENT).
  { destruct (negb _); [done|]. exists []. unfold zlen; cbn [length]. split_and!; [done|constructor|lia..]. }
  eapply graph_returns_bind; [apply charge_returns|]. intros rest _ (Hlim & -> & Hrest).
  destruct (has_flag second EXTRA_EDGES).
  - destruct (negb has_edges); [done|]. destruct (negb _); [done|]. pose proof (without_flag_bound second Hs).
    eapply returns_checked; [done|]. intros pos [-> _]%checked_mul_Some. rewrite He. cbn [mbind option_bind].
    eapply graph_returns_weaken; [apply check_run_spec; [|lia|unfold zlen; lia]|].
    { destruct Hl as [Hb _]. by eapply bytes_ok_slice. }
    intros r (ps & Hps & Hall & -> & H0). rewrite Hps. eexists. split; [done|]. rewrite zlen_cons.
    split; [constructor; [lia|done]|lia].
  - destruct (negb (second =? NO_PARENT)).
    + eapply graph_returns_weaken; [apply charge_returns|]. intros r (? & -> & ?). eexists. split; [done|]. unfold zlen; cbn [length].
      split; [by forall_lia|lia].
    + cbn. eexists. split; [done|]. unfold zlen; cbn [length]. split; [by forall_lia|lia].
Qed.

(** The dates of one record, decoded. *)
Definition date_ok (l : Layer bytes) (i : Z) : Prop := exists d, layer_corrected_date l i = Some d /\ (is_Some d <-> is_Some (offsets l)).

Lemma returns_corrected_date table large i time : returns (corrected_date table large i time) (fun _ => True).
Proof.
  unfold corrected_date. eapply graph_returns_bind; [by apply returns_read|]. intros offset _ _. eapply (graph_returns_bind _ _ (fun _ => True)).
  - destruct (negb _); [done|]. destruct (bytes_eqb _ _); [done|]. eapply returns_checked; [done|]. intros pos _.
    eapply graph_returns_weaken; [by apply returns_read|done].
  - intros o _ _. destruct (_ <=? _); done.
Qed.

Lemma check_date_spec l i : records_ok l -> 0 <= i < count l ->
  (forall r, offsets l = Some r -> is_Some (part l r)) -> is_Some (part l (overflow l)) ->
  returns (check_date l i) (fun _ => date_ok l i).
Proof.
  intros Hl Hi Ho [large Hlarge]. destruct (high_low_at l i Hl Hi) as (high & low & Ht & _ & _).
  unfold check_date, date_ok, layer_corrected_date. destruct (offsets l) as [r|] eqn:E.
  - destruct (Ho r eq_refl) as [table Htable]. rewrite Htable. cbn [ok_or rbind mbind option_bind]. rewrite Hlarge, Ht. cbn [ok_or rbind mbind option_bind].
    eapply graph_returns_bind; [apply returns_corrected_date|]. intros d Hd _. rewrite Hd. cbn. exists (Some d). by split.
  - cbn. exists None. split; [done|]. by split; intros [].
Qed.

(** The parents that all the records list. *)
Definition parents_listed (l : Layer bytes) (limit i : Z) (pss : list (list Z)) : Prop :=
  forall k ps, pss !! k = Some ps -> parents_into l (i + Z.of_nat k) = Some ps /\ Forall (fun p => 0 <= p < limit) ps.

Lemma check_each_spec n l has_edges edge_bytes limit i remaining :
  records_ok l -> part l (edges l) = Some edge_bytes -> (forall r, offsets l = Some r -> is_Some (part l r)) ->
  is_Some (part l (overflow l)) -> 0 <= i -> Z.of_nat n = count l - i -> 0 <= remaining ->
  returns (check_each n l has_edges edge_bytes limit i remaining) (fun rest => exists pss,
    length pss = n /\ parents_listed l limit i pss /\ rest = remaining - zlen (concat pss) /\ 0 <= rest /\
    forall k, i <= k < count l -> date_ok l k).
Proof.
  intros Hl He Ho Hv. revert i remaining. induction n as [|n IH]; intros i remaining Hi Hn Hr; cbn [check_each].
  { exists []. split_and!; [done|by intros ? ? ?|cbn; change (zlen (@nil Z)) with 0; lia..|intros; lia]. }
  eapply graph_returns_bind; [apply check_parents_spec; done || lia|]. intros rest _ (ps & Hps & Hall & -> & H0).
  eapply graph_returns_bind; [apply check_date_spec; done || lia|]. intros [] _ Hdate. cbv beta in Hdate.
  eapply graph_returns_weaken; [apply IH; lia|]. intros r (pss & Hlen & Hlisted & -> & H0' & Hdates). exists (ps :: pss).
  split_and!; [cbn; lia| |cbn [concat]; rewrite zlen_app; lia|lia|].
  - intros [|k] ps' Hk.
    + injection Hk as <-. by rewrite Z.add_0_r.
    + replace (i + Z.of_nat (S k)) with (i + 1 + Z.of_nat k) by lia. by apply Hlisted.
  - intros k Hk. destruct (decide (k = i)) as [-> |]; [done|apply Hdates; lia].
Qed.

(** ** A checked layer *)

Definition layer_name (l : Layer bytes) (i : Z) : option bytes :=
  slice ((ids l).1 + i * width l) ((ids l).1 + i * width l + width l) (bytes_ l).

(** The first byte of a name, and where the names that start with at most [b] end. *)
Definition bucket_bound (l : Layer bytes) (b q : Z) : Prop :=
  0 <= q <= count l /\ forall i a, 0 <= i < count l -> layer_name l i = Some a -> (i < q <-> default 0 (head a) <= b).

Record layer_ok (fmt : ObjectFormat) (l : Layer bytes) : Prop := {
  lk_format : format l = fmt;
  lk_trailer : bytes_ok (bytes_ l) /\ 8 + width l <= zlen (bytes_ l);
  lk_start : 0 <= start l;
  lk_records : records_ok l;
  lk_name i : 0 <= i < count l -> exists a, layer_name l i = Some a /\ bytes_ok a /\ zlen a = width l;
  lk_sorted i j a b : 0 <= i < j -> j < count l -> layer_name l i = Some a -> layer_name l j = Some b -> bytes_cmp a b = Lt;
  lk_names : exists names, part l (ids l) = Some names /\
    forall i, 0 <= i < count l -> slice (i * width l) ((i + 1) * width l) names = layer_name l i;
  lk_fanout : exists fan, part l (fanout l) = Some fan /\
    forall b, 0 <= b < 256 -> exists q, be32 fan (b * 4) = Some q /\ bucket_bound l b q;
  lk_parents i : 0 <= i < count l -> exists ps, parents_into l i = Some ps /\ Forall (fun p => 0 <= p < start l + count l) ps;
  lk_dates i : 0 <= i < count l -> date_ok l i;
  lk_bloom b : bloom l = Some b -> is_Some (slice (b_offsets b).1 (b_offsets b).2 (bytes_ l)) /\ is_Some (slice (b_data b).1 (b_data b).2 (bytes_ l))
}.

(** The names of the identity table. *)
Lemma table_names l names i : part l (ids l) = Some names -> zlen names = count l * width l -> 0 <= i < count l ->
  slice (i * width l) ((i + 1) * width l) names = layer_name l i.
Proof.
  intros Hn Hlen Hi. pose proof (width_pos l). unfold layer_name. etransitivity; [eapply (slice_of_slice _ _ _ _ _ _ Hn); nia|]. f_equal; lia.
Qed.

Lemma slice_head {A} a b (l m : list A) : slice a b l = Some m -> a < b -> zget a l = head m.
Proof.
  intros Hs Hab. pose proof (slice_zlen _ _ _ _ Hs) as Hlen. apply slice_app in Hs as (pre & post & -> & <- & _).
  destruct m as [|x m]; [change (zlen (@nil A)) with 0 in Hlen; lia|]. unfold zget. pose proof (zlen_nonneg pre).
  destruct (Z.leb_spec 0 (zlen pre)); [|lia]. unfold zlen. rewrite Nat2Z.id. by rewrite lookup_app_r, Nat.sub_diag by done.
Qed.

(** The comparison of names orders their first bytes. *)
Lemma cmp_head a b : bytes_cmp a b = Lt -> a <> [] -> default 0 (head a) <= default 0 (head b).
Proof.
  destruct a as [|x a], b as [|y b]; cbn; try done. intros H _. destruct (Z.compare_spec x y); [lia|lia|done].
Qed.

Lemma bucket_end_bound l names b q : part l (ids l) = Some names -> zlen names = count l * width l ->
  (forall i, 0 <= i < count l -> exists a, layer_name l i = Some a /\ bytes_ok a /\ zlen a = width l) ->
  (forall i j a b, 0 <= i < j -> j < count l -> layer_name l i = Some a -> layer_name l j = Some b -> bytes_cmp a b = Lt) ->
  bucket_end names (width l) (count l) b q -> bucket_bound l b q.
Proof.
  intros Hn Hlen Hname Hsort (Hq & Hlow & Hhigh). split; [done|]. pose proof (width_pos l) as Hw. intros i a Hi Ha.
  assert (forall k c, 0 <= k < count l -> layer_name l k = Some c -> zget (k * width l) names = head c) as Hhead.
  { intros k c Hk Hc. rewrite <- (table_names l names k Hn Hlen Hk) in Hc. apply (slice_head _ _ _ _ Hc). lia. }
  destruct (Hname i Hi) as (a' & Ha' & _ & Hla). rewrite Ha in Ha'. injection Ha' as <-. split.
  - intros Hlt. destruct (Hlow i) as (x & Hx & Hle); [lia|]. rewrite (Hhead i a Hi Ha) in Hx. by rewrite Hx.
  - intros Hle. destruct (decide (i < q)); [done|]. destruct (Hhigh) as (x & Hx & Hgt); [lia|].
    destruct (Hname q) as (c & Hc & _ & Hlc); [lia|]. rewrite (Hhead q c) in Hx by (done || lia).
    destruct (decide (i = q)) as [-> |]; [rewrite Ha in Hc; injection Hc as ->; rewrite Hx in Hle; cbn in Hle; lia|].
    assert (bytes_cmp c a = Lt) as Hcmp by (apply (Hsort q i); done || lia).
    apply cmp_head in Hcmp; [rewrite Hx in Hcmp; cbn in Hcmp; lia|]. intros ->. change (zlen (@nil Z)) with 0 in Hlc. lia.
Qed.

Lemma bloom_parse_returns bs fmt c n : table_ok bs fmt c -> returns (bloom_parse c n) (fun o =>
  forall b, o = Some b -> is_Some (slice (b_offsets b).1 (b_offsets b).2 bs) /\ is_Some (slice (b_data b).1 (b_data b).2 bs)).
Proof.
  intros Hc. unfold bloom_parse. eapply graph_returns_bind; [by eapply returns_optional|]. intros [offs|] _ Ho; [|done].
  eapply graph_returns_bind; [by eapply returns_optional|]. intros [dat|] _ Hd; [|done]. cbn [returns].
  destruct Ho as (ro & Hro & Hso), Hd as (rd & Hrd & Hsd). rewrite Hro, Hrd.
  intros b ([version hashes] & Hchk & Hb)%bind_Some. unfold bloom_checked in Hchk. apply bind_Some in Hchk as (size & _ & Hchk).
  destruct (_ || _) eqn:E; [done|]. apply orb_false_iff in E as [_ E%Z.ltb_ge].
  injection Hb as <-. cbn. rewrite Hso. split; [done|]. pose proof (slice_zlen _ _ _ _ Hsd).
  apply slice_Some in Hsd as (? & ? & _). destruct (slice_is_Some (rd.1 + 12) rd.2 bs) as [m ->]; [lia..|done].
Qed.

Lemma default_part bs fmt c tag : table_ok bs fmt c -> exists m, slice (default (0, 0) (chunk_range c tag)).1 (default (0, 0) (chunk_range c tag)).2 bs = Some m.
Proof.
  intros Hc. destruct (chunk_range c tag) as [r|] eqn:E; cbn.
  - destruct (chunk_part _ _ _ _ _ Hc E) as (m & Hm & _). eauto.
  - apply slice_is_Some; [lia|apply zlen_nonneg].
Qed.

(** [Layer::check_records]: every record's parents and date; what they cost the budget. *)
Lemma check_records_spec l has_edges parents_left :
  records_ok l -> is_Some (part l (edges l)) -> (forall r, offsets l = Some r -> is_Some (part l r)) ->
  is_Some (part l (overflow l)) -> 0 <= parents_left -> 0 <= start l -> start l + count l <= usize_max ->
  returns (check_records l has_edges parents_left) (fun rest => exists pss,
    length pss = Z.to_nat (count l) /\ parents_listed l (start l + count l) 0 pss /\
    rest = parents_left - zlen (concat pss) /\ 0 <= rest /\ zlen (concat pss) <= 2 * count l + range_len (edges l) / 4 /\
    forall k, 0 <= k < count l -> date_ok l k).
Proof.
  intros Hl [edge_bytes He] Ho Hv Hp Hs Hsum. unfold check_records. destruct (Hl) as (_ & _ & Hc & _).
  pose proof (slice_zlen _ _ _ _ He) as Hlen. pose proof (zlen_nonneg edge_bytes).
  assert (0 <= range_len (edges l) / 4) by (apply Z.div_pos; unfold range_len; lia).
  eapply returns_checked; [done|]. intros encoded Henc. apply bind_Some in Henc as (inline & [-> _]%checked_mul_Some & [-> _]%checked_add_Some).
  rewrite checked_add_le by done. cbn [ok_or rbind]. rewrite He. cbn [ok_or rbind].
  eapply graph_returns_bind; [apply check_each_spec; try done; lia|]. intros rest _ (pss & Hn & Hlisted & -> & Hrest & Hd). cbn.
  exists pss. split_and!; try done; try lia.
Qed.

Lemma parents_listed_at l limit pss i : length pss = Z.to_nat (count l) -> parents_listed l limit 0 pss -> 0 <= i < count l ->
  exists ps, parents_into l i = Some ps /\ Forall (fun p => 0 <= p < limit) ps.
Proof.
  intros Hlen Hl Hi. destruct (lookup_lt_is_Some_2 pss (Z.to_nat i)) as [ps Hps]; [lia|]. exists ps.
  apply Hl in Hps. by rewrite Z.add_0_l, Z2Nat.id in Hps by lia.
Qed.

(** All the parents the records of a layer list. *)
Definition layer_parents (l : Layer bytes) : list Z := concat ((fun i => default [] (parents_into l i)) <$> seqZ 0 (count l)).

Lemma listed_concat l limit pss : 0 <= count l -> length pss = Z.to_nat (count l) -> parents_listed l limit 0 pss -> concat pss = layer_parents l.
Proof.
  intros Hc Hlen Hl. unfold layer_parents. f_equal. apply list_eq. intros k. rewrite list_lookup_fmap.
  destruct (decide (k < length pss)%nat) as [Hk|Hk].
  - destruct (lookup_lt_is_Some_2 pss k Hk) as [ps Hps]. rewrite Hps, lookup_seqZ_lt by lia. cbn. apply Hl in Hps as [-> _]. done.
  - rewrite (lookup_ge_None_2 pss) by lia. rewrite lookup_seqZ_ge by lia. done.
Qed.

(** [Layer::parse]: no panic, and an accepted file is a checked layer. *)
Lemma layer_parse_spec bs fmt limits first hashes parents_left :
  bytes_ok bs -> 8 + digest_len fmt <= zlen bs -> 0 <= first -> first + max_commits limits <= usize_max -> 0 <= parents_left ->
  returns (layer_parse bs fmt limits first hashes parents_left) (fun '(l, rest) =>
    layer_ok fmt l /\ start l = first /\ bytes_ l = bs /\ count l <= max_commits limits /\
    rest = parents_left - zlen (layer_parents l) /\ 0 <= rest /\ zlen (layer_parents l) <= 2 * count l + range_len (edges l) / 4).
Proof.
  intros Hb Hlen Hfirst Hsum Hp. unfold layer_parse. eapply graph_returns_bind; [by apply table_returns|]. intros c _ Hc.
  destruct (zget_is_Some 7 bs) as [bases Hbases]; [pose proof (digest_len_cases fmt); lia|]. eapply returns_some; [done|].
  destruct (negb _); [done|]. eapply graph_returns_bind; [by eapply returns_optional|]. intros base _ _. destruct (negb _); [done|].
  eapply graph_returns_bind; [by eapply returns_required|]. intros fan _ (rf & Hrf & Hsf).
  destruct (Z.eqb_spec (zlen fan) 1024) as [Hfan|]; [|done]. cbn [negb].
  assert (bytes_ok fan) as Hbf by by eapply bytes_ok_slice.
  eapply graph_returns_bind; [by apply returns_word|]. intros n _ (_ & _ & _ & Hn). destruct (Z.ltb_spec (max_commits limits) n) as [|Hmax]; [done|].
  eapply graph_returns_bind; [by eapply returns_required|]. intros names _ (rn & Hrn & Hsn).
  eapply graph_returns_bind; [by eapply returns_required|]. intros records _ (rr & Hrr & Hsr).
  destruct (_ || _) eqn:E; [done|]. apply orb_false_iff in E as [[E1 E2]%orb_false_iff E3].
  apply negb_false_iff, Z.eqb_eq in E1, E2. apply negb_false_iff, bool_decide_eq_true in E3. symmetry in E3. apply checked_mul_Some in E3 as [E3 _].
  assert (0 < digest_len fmt) as Hw by (destruct (digest_len_cases fmt); lia).
  assert (zlen names = n * digest_len fmt) as Hnames by (pose proof (Z.div_mod (zlen names) (digest_len fmt)); nia).
  eapply graph_returns_bind; [by apply validate_fanout_spec|]. intros [] _ [Hbuckets Hsorted]. unfold names_total in Hbuckets, Hsorted. rewrite E1 in Hbuckets, Hsorted.
  eapply graph_returns_bind; [by eapply returns_optional|]. intros offs _ Hoffs. destruct (match offs with Some _ => _ | None => _ end); [done|]. cbv zeta.
  eapply graph_returns_bind; [by eapply bloom_parse_returns|]. intros bl _ Hbl. cbv beta in Hbl.
  rewrite Hrf, Hrn, Hrr. cbn [from_option]. match goal with |- context [check_records ?x _ _] => set (l := x) end.
  assert (part l (ids l) = Some names) as Hpart by done.
  assert (forall i, 0 <= i < count l -> slice (i * width l) ((i + 1) * width l) names = layer_name l i) as Htab by (intros; by apply table_names).
  assert (forall i, 0 <= i < count l -> exists a, layer_name l i = Some a /\ bytes_ok a /\ zlen a = width l) as Hname.
  { intros i Hi. rewrite <- Htab by done. change (width l) with (digest_len fmt). change (count l) with n in Hi.
    destruct (slice_is_Some (i * digest_len fmt) ((i + 1) * digest_len fmt) names) as [a Ha]; [nia..|].
    exists a. split_and!; [done|exact (bytes_ok_slice _ _ _ _ (bytes_ok_slice _ _ _ _ Hb Hsn) Ha)|]. apply slice_zlen in Ha. lia. }
  assert (records_ok l) as Hrec.
  { unfold records_ok. cbn. pose proof (slice_zlen _ _ _ _ Hsr). apply slice_Some in Hsr as (? & ? & _). change (width l) with (digest_len fmt). split_and!; [done|lia..]. }
  assert (forall i j a b, 0 <= i < j -> j < count l -> layer_name l i = Some a -> layer_name l j = Some b -> bytes_cmp a b = Lt) as Hsort.
  { intros i j a b Hi Hj Ha Hb'. rewrite <- Htab in Ha, Hb' by lia. by apply (Hsorted i j). }
  eapply graph_returns_bind.
  { apply check_records_spec; try done; cbn; [by eapply default_part| |by eapply default_part|lia].
    intros r Hr. destruct (chunk_part _ _ _ _ _ Hc Hr) as (m & Hm & _). by exists m. }
  intros rest _ (pss & Hlen' & Hlisted & -> & Hrest & Hbound & Hdates). cbn [returns].
  assert (concat pss = layer_parents l) as Hpar by (eapply listed_concat; [apply Hrec|done|done]). rewrite Hpar in *.
  split; [|by split_and!].
  constructor; try done.
  - by exists names.
  - exists fan. split; [done|]. intros b Hb'. destruct (Hbuckets b Hb') as (q & Hq & Hend). exists q. split; [done|]. by eapply bucket_end_bound.
  - intros i Hi. by eapply parents_listed_at.
Qed.

(** ** Lookup *)

Lemma find_loop_bsearch fuel names w id low high f :
  (forall i, low <= i < high -> exists name, slice (i * w) ((i + 1) * w) names = Some name /\ f i = bytes_cmp name id) ->
  high - low <= Z.of_nat fuel -> find_loop fuel names w id low high = Some (bsearch fuel f low high).
Proof.
  revert low high. induction fuel as [|fuel IH]; intros low high Hn Hf; cbn [find_loop bsearch];
    (destruct (Z.ltb_spec low high) as [Hlt|]; [|done]); [lia|].
  pose proof (middle_range low high Hlt). set (mid := low + (high - low) / 2) in *.
  destruct (Hn mid) as (name & -> & Hfm); [lia|]. cbn [mbind option_bind]. rewrite Hfm.
  destruct (bytes_cmp name id); [done|apply IH; [intros; apply Hn|]; lia..].
Qed.

Lemma id_bytes_inj a b : id_format a = id_format b -> id_bytes a = id_bytes b -> a = b.
Proof. destruct a, b; cbn; by intros ? ->. Qed.

Lemma same_width f g : digest_len f = digest_len g -> f = g.
Proof. by destruct f, g. Qed.

Section Layer.
Context {fmt : ObjectFormat} {l : Layer bytes} (Hl : layer_ok fmt l).

Lemma layer_id_name i a : layer_name l i = Some a -> zlen a = width l -> layer_id l i = Some (make_id fmt a).
Proof using Hl.
  intros Ha Hw. unfold layer_id, layer_name in *. rewrite Ha. cbn [mbind option_bind]. rewrite (lk_format _ _ Hl). unfold width in Hw.
  rewrite (lk_format _ _ Hl) in Hw. destruct (from_bytes fmt a) eqn:E; [apply Trees.from_bytes_Ok in E as [-> _]; done|].
  exfalso. revert E. unfold from_bytes. destruct fmt; cbn in Hw; rewrite Hw; done.
Qed.

(** Every record has an identity of the format. *)
Lemma layer_id_at i : 0 <= i < count l -> exists id, layer_id l i = Some id /\ id_ok id /\ id_format id = fmt /\ layer_name l i = Some (id_bytes id).
Proof using Hl.
  intros Hi. destruct (lk_name _ _ Hl i Hi) as (a & Ha & Hb & Hw). exists (make_id fmt a). split; [by apply layer_id_name|].
  unfold width in Hw. rewrite (lk_format _ _ Hl) in Hw. destruct fmt; cbn; split_and!; try done; split; done.
Qed.

(** [Layer::find] returns the index of an identity exactly. *)
Lemma layer_find_exact id : id_ok id -> exists r, layer_find l id = Some r /\
  forall i, r = Some i <-> 0 <= i < count l /\ layer_id l i = Some id.
Proof using Hl.
  intros Hid. unfold layer_find. destruct (Z.eqb_spec (zlen (id_bytes id)) (width l)) as [Hw|Hw]; cbn [negb].
  2:{ exists None. split; [done|]. intros i. split; [done|]. intros [Hi Hlid]. destruct (layer_id_at i Hi) as (id' & Hid' & _ & _ & Hname).
      rewrite Hlid in Hid'. injection Hid' as <-. destruct (lk_name _ _ Hl i Hi) as (a & Ha & _ & Hla). rewrite Hname in Ha. injection Ha as <-. done. }
  pose proof (width_pos l) as Hpos.
  destruct (id_bytes id) as [|b rest] eqn:Eb; [change (zlen (@nil Z)) with 0 in Hw; lia|]. cbn [head mbind option_bind].
  assert (byte_ok b) as Hb. { assert (bytes_ok (id_bytes id)) as H by (destruct id; apply Hid). rewrite Eb in H. by apply bytes_ok_cons in H as [H _]. }
  unfold byte_ok in Hb. destruct (lk_fanout _ _ Hl) as (fan & Hfan & Hbuckets). rewrite Hfan. cbn [mbind option_bind].
  destruct (lk_names _ _ Hl) as (names & Hnames & Htab).
  destruct (Hbuckets b) as (high & Hhigh & Hhb & Hhspec); [lia|].
  assert (exists low, (if b =? 0 then Some 0 else be32 fan ((b - 1) * 4)) = Some low /\ 0 <= low <= count l /\
    forall i a, 0 <= i < count l -> layer_name l i = Some a -> bytes_ok a -> zlen a = width l -> (i < low <-> default 0 (head a) < b)) as (low & -> & Hlb & Hlspec).
  { destruct (Z.eqb_spec b 0) as [-> |].
    - exists 0. destruct (lk_records _ _ Hl) as (_ & _ & ? & _). split_and!; [done|lia..|]. intros i a Hi _ Ha Hla. split; [lia|]. intros Hlt.
      destruct a as [|x a]; [cbn in Hlt; lia|]. apply bytes_ok_cons in Ha as [Hx _]. unfold byte_ok in Hx. cbn in Hlt. lia.
    - destruct (Hbuckets (b - 1)) as (low & Hlow & Hb1 & Hspec); [lia|]. exists low. split_and!; [done|lia..|].
      intros i a Hi Ha _ _. rewrite (Hspec i a Hi Ha). lia. }
  cbn [mbind option_bind]. rewrite Hhigh, Hnames. cbn [mbind option_bind].
  set (f := fun i => match layer_name l i with Some a => bytes_cmp a (b :: rest) | None => Eq end).
  rewrite (find_loop_bsearch _ _ _ _ _ _ f); [|intros i Hi|lia].
  2:{ destruct (lk_name _ _ Hl i) as (a & Ha & _); [lia|]. exists a. rewrite Htab by lia. split; [done|]. unfold f. by rewrite Ha. }
  eexists. split; [done|]. intros i. split.
  - intros [Hi Hf]%bsearch_Some. destruct (layer_id_at i) as (id' & Hid' & _ & Hfm & Hname); [lia|]. split; [lia|].
    unfold f in Hf. rewrite Hname in Hf. apply bytes_cmp_eq in Hf. rewrite Hid'. f_equal. apply id_bytes_inj; [|by rewrite Hf, Eb].
    unfold width in Hw. rewrite (lk_format _ _ Hl) in Hw. rewrite Hfm. apply same_width. rewrite <- Hw, <- Eb. destruct id; apply Hid.
  - intros [Hi Hlid]. destruct (layer_id_at i Hi) as (id' & Hid' & Hok & Hfm & Hname). rewrite Hlid in Hid'. injection Hid' as <-.
    rewrite Eb in Hname. destruct (lk_name _ _ Hl i Hi) as (a & Ha & Hba & Hla). rewrite Hname in Ha. injection Ha as <-.
    assert (low <= i < high) as Hrange.
    { split; [|apply (Hhspec i _ Hi Hname); cbn; lia]. destruct (decide (i < low)) as [Hlt|]; [|lia].
      apply (Hlspec i _ Hi Hname Hba Hla) in Hlt. cbn in Hlt. lia. }
    assert (f i = Eq) as Hfi by (unfold f; rewrite Hname; apply bytes_cmp_refl).
    assert (forall j k, 0 <= j < k -> k < count l -> exists a b', layer_name l j = Some a /\ layer_name l k = Some b' /\ bytes_cmp a b' = Lt) as Hpair.
    { intros j k Hj Hk. destruct (lk_name _ _ Hl j) as (aj & Haj & _); [lia|]. destruct (lk_name _ _ Hl k) as (ak & Hak & _); [lia|].
      exists aj, ak. split_and!; try done. by apply (lk_sorted _ _ Hl j k). }
    destruct (bsearch (Z.to_nat (high - low)) f low high) as [m|] eqn:E.
    + apply bsearch_Some in E as [Hm Hfm']. f_equal. unfold f in Hfm', Hfi. destruct (Z.lt_trichotomy m i) as [Hlt|[? |Hlt]]; [|done|].
      * destruct (Hpair m i) as (x & y & Hx & Hy & Hc); [lia..|]. rewrite Hx in Hfm'. rewrite Hy in Hfi. apply bytes_cmp_eq in Hfm', Hfi. subst x y. by rewrite bytes_cmp_refl in Hc.
      * destruct (Hpair i m) as (x & y & Hx & Hy & Hc); [lia..|]. rewrite Hy in Hfm'. rewrite Hx in Hfi. apply bytes_cmp_eq in Hfm', Hfi. subst x y. by rewrite bytes_cmp_refl in Hc.
    + exfalso. eapply (bsearch_None _ f low high); [|intros j k Hj Hk Hf|intros j k Hj Hk Hf|exact E|exact Hrange|exact Hfi]; [lia|..];
        destruct (Hpair j k) as (x & y & Hx & Hy & Hc); try lia; unfold f in *; rewrite Hx in *; rewrite Hy in *.
      * by eapply bytes_cmp_lt_trans.
      * apply bytes_cmp_gt_lt. apply bytes_cmp_gt_lt in Hf. by eapply bytes_cmp_lt_trans.
Qed.

(** The identities of a layer are distinct. *)
Lemma layer_id_inj i j id : 0 <= i < count l -> 0 <= j < count l -> layer_id l i = Some id -> layer_id l j = Some id -> i = j.
Proof using Hl.
  intros Hi Hj Hid Hjd. destruct (layer_id_at i Hi) as (id' & Hid' & Hok & _). rewrite Hid in Hid'. injection Hid' as <-.
  destruct (layer_find_exact id Hok) as (r & _ & Hr). assert (r = Some i) as E by by apply Hr. assert (r = Some j) by by apply Hr. congruence.
Qed.
End Layer.
End GraphLayer.
