(* ===== verification/CommitGraphAncestry.v ===== *)
(** * Depth-first search for cycles ([check_ancestry] of
      [src/src/commit_graph/history.rs])

    The search keeps a stack of vertices to enter and to leave.  Its steps are a relation;
    the invariants of the relation give both verdicts: a search that ends has left every
    vertex after all its parents, so ancestry is well founded; a vertex met while it is
    being explored is its own ancestor.  Each step decreases a measure. *)

From stdpp Require Import base list numbers strings sets relations sorting.
From Stdlib Require Import ZArith Lia.
From S2P Require Import Prelude History CommitGraph.

Module GraphAncestry.
Import CommitGraph.

Section Search.
(** The edges of the vertices [0 .. n - 1]. *)
Context (n : Z) (succ : Z -> list Z) (Hsucc : forall x y, 0 <= x < n -> y ∈ succ x -> 0 <= y < n).

Definition edge (x y : Z) : Prop := 0 <= x < n /\ y ∈ succ x.

Definition entries (ps : list Z) : list (Z * bool) := map (fun p => (p, false)) ps.

Implicit Types (state : list Z) (stack : list (Z * bool)).

(** One turn of the loop: leave a vertex, skip one that was left, or enter a new one. *)
Inductive step : list Z * list (Z * bool) -> list Z * list (Z * bool) -> Prop :=
| step_leave state x stack : step (state, (x, true) :: stack) (set_state x 2 state, stack)
| step_skip state x stack : zget x state = Some 2 -> step (state, (x, false) :: stack) (state, stack)
| step_enter state x stack : zget x state = Some 0 ->
    step (state, (x, false) :: stack) (set_state x 1 state, entries (succ x) ++ (x, true) :: stack).

(** Well-founded ancestry of a vertex. *)
Definition founded (x : Z) : Prop := Acc (fun y x => edge x y) x.

Record invariant (state : list Z) (stack : list (Z * bool)) : Prop := {
  iv_length : zlen state = n;
  iv_values x v : zget x state = Some v -> v = 0 \/ v = 1 \/ v = 2;
  iv_range x b : (x, b) ∈ stack -> 0 <= x < n;
  iv_gray x : zget x state = Some 1 <-> (x, true) ∈ stack;
  iv_nodup : NoDup (filter (fun e => e.2 = true) stack);
  iv_black x y : zget x state = Some 2 -> edge x y -> zget y state = Some 2;
  iv_founded x : zget x state = Some 2 -> founded x;
  iv_below above x below y : stack = above ++ (x, true) :: below -> edge x y -> zget y state = Some 2 \/ exists b, (y, b) ∈ above;
  iv_above above x below y b : stack = above ++ (x, true) :: below -> (y, b) ∈ above -> tc edge x y
}.

Lemma zget_set x v state y : 0 <= x < zlen state -> 0 <= y ->
  zget y (set_state x v state) = if decide (x = y) then Some v else zget y state.
Proof.
  intros Hx Hy. unfold zget, set_state. destruct (Z.leb_spec 0 y); [|lia]. destruct (decide (x = y)) as [-> |].
  - apply list_lookup_insert_eq. unfold zlen in Hx. lia.
  - apply list_lookup_insert_ne. lia.
Qed.

Lemma zlen_set x v state : zlen (set_state x v state) = zlen state.
Proof. apply zlen_insert. Qed.

Lemma entries_false ps x : (x, true) ∉ entries ps.
Proof. unfold entries. rewrite list_elem_of_fmap. by intros (? & [=] & _). Qed.
Lemma elem_entries ps x b : (x, b) ∈ entries ps <-> b = false /\ x ∈ ps.
Proof. unfold entries. rewrite list_elem_of_fmap. naive_solver. Qed.
Lemma filter_entries ps : filter (fun e : Z * bool => e.2 = true) (entries ps) = [].
Proof. induction ps as [|p ps IH]; [done|]. unfold entries in *. cbn [map]. by rewrite filter_cons_False. Qed.

Ltac zsplit H := rewrite zget_set in H by lia.

(** Leaving a vertex: all its parents have been left. *)
Lemma leave_invariant state x stack : invariant state ((x, true) :: stack) -> invariant (set_state x 2 state) stack.
Proof.
  intros I. assert (0 <= x < n) as Hx by (eapply (iv_range _ _ I); left).
  pose proof (iv_length _ _ I) as Hlen.
  assert (forall y, edge x y -> zget y state = Some 2) as Hdone.
  { intros y Hy. destruct (iv_below _ _ I [] x stack y eq_refl Hy) as [|[b Hb]]; [done|]. by apply not_elem_of_nil in Hb. }
  assert (founded x) as Hf. { constructor. intros y Hy. by apply (iv_founded _ _ I), Hdone. }
  assert ((x, true) ∉ stack) as Hnot.
  { intros Hin. pose proof (iv_nodup _ _ I) as Hnd. rewrite filter_cons_True in Hnd by done. apply NoDup_cons in Hnd as [Hnd _].
    apply Hnd, list_elem_of_filter. done. }
  assert (forall y v, 0 <= y -> zget y (set_state x 2 state) = Some v -> y = x /\ v = 2 \/ y <> x /\ zget y state = Some v) as Hget.
  { intros y v Hy. rewrite zget_set by lia. destruct (decide (x = y)); naive_solver. }
  assert (forall y, zget y state = Some 2 -> zget y (set_state x 2 state) = Some 2) as Hkeep.
  { intros y Hy. pose proof (zget_lt _ _ _ Hy). rewrite zget_set by lia. by destruct (decide (x = y)). }
  assert (forall y, zget y (set_state x 2 state) = Some 2 <-> y = x \/ zget y state = Some 2) as Htwo.
  { intros y. split; [intros Hy; pose proof (zget_lt _ _ _ Hy); destruct (Hget y 2) as [[-> _]|[_ ?]]; auto; lia|].
    intros [-> |?]; [|auto]. rewrite zget_set by lia. by rewrite decide_True. }
  constructor.
  - by rewrite zlen_set.
  - intros y v Hy. pose proof (zget_lt _ _ _ Hy). destruct (Hget y v) as [[_ ->]|[_ ?]]; [lia|done|auto|]. by eapply (iv_values _ _ I).
  - intros y b Hy. eapply (iv_range _ _ I). by right.
  - intros y. split.
    + intros Hy. pose proof (zget_lt _ _ _ Hy). destruct (Hget y 1) as [[_ ?]|[Hne Hy']]; [lia|done|done|].
      apply (iv_gray _ _ I) in Hy'. apply elem_of_cons in Hy' as [[=]|]; done.
    + intros Hy. assert (y <> x) by congruence. assert (0 <= y < n) by (eapply (iv_range _ _ I); by right).
      rewrite zget_set by lia. rewrite decide_False by done. apply (iv_gray _ _ I). by right.
  - pose proof (iv_nodup _ _ I) as Hnd. rewrite filter_cons_True in Hnd by done. by apply NoDup_cons in Hnd as [_ ?].
  - intros y z [-> |Hy]%Htwo Hz; apply Htwo; right; [by apply Hdone|by eapply (iv_black _ _ I)].
  - intros y [-> |Hy]%Htwo; [done|by apply (iv_founded _ _ I)].
  - intros above y below z -> Hz. destruct (iv_below _ _ I ((x, true) :: above) y below z eq_refl Hz) as [|[b Hb]]; [left; auto|].
    apply elem_of_cons in Hb as [[= -> ->]|]; [left; apply Htwo; by left|right; eauto].
  - intros above y below z b -> Hz. eapply (iv_above _ _ I ((x, true) :: above)); [done|by right].
Qed.

Lemma skip_invariant state x stack : zget x state = Some 2 -> invariant state ((x, false) :: stack) -> invariant state stack.
Proof.
  intros H2 I. constructor; try apply I.
  - intros y b Hy. eapply (iv_range _ _ I). by right.
  - intros y. rewrite (iv_gray _ _ I). split; [by intros [[=]|]%elem_of_cons|by right].
  - intros above y below z -> Hz. destruct (iv_below _ _ I ((x, false) :: above) y below z eq_refl Hz) as [|[b Hb]]; [by left|].
    apply elem_of_cons in Hb as [[= -> ->]|]; [by left|right; eauto].
  - intros above y below z b -> Hz. eapply (iv_above _ _ I ((x, false) :: above)); [done|by right].
Qed.

(** A stack split around a vertex to leave, when a run of entries was pushed on it. *)
Lemma split_pushed ps x stack above y below :
  entries ps ++ (x, true) :: stack = above ++ (y, true) :: below ->
  (above = entries ps /\ y = x /\ below = stack) \/ (exists above', above = entries ps ++ (x, true) :: above' /\ stack = above' ++ (y, true) :: below).
Proof.
  revert above. induction ps as [|p ps IH]; intros above; cbn [entries map app].
  - destruct above as [|e above]; cbn; intros [= -> ->]; [by left|right; by exists above].
  - destruct above as [|e above]; cbn; [done|]. intros [= <- H]. destruct (IH above H) as [(-> & -> & ->)|(a & -> & ->)]; [by left|right; by exists a].
Qed.

(** Entering a vertex pushes its parents above its own exit. *)
Lemma enter_invariant state x stack : zget x state = Some 0 -> invariant state ((x, false) :: stack) ->
  invariant (set_state x 1 state) (entries (succ x) ++ (x, true) :: stack).
Proof.
  intros H0 I. assert (0 <= x < n) as Hx by (eapply (iv_range _ _ I); left). pose proof (iv_length _ _ I) as Hlen.
  assert (forall y v, zget y (set_state x 1 state) = Some v -> y = x /\ v = 1 \/ y <> x /\ zget y state = Some v) as Hget.
  { intros y v Hy. pose proof (zget_lt _ _ _ Hy). revert Hy. rewrite zget_set by lia. destruct (decide (x = y)); naive_solver. }
  assert (forall y, zget y state = Some 2 -> zget y (set_state x 1 state) = Some 2) as Hkeep.
  { intros y Hy. pose proof (zget_lt _ _ _ Hy). rewrite zget_set by lia. destruct (decide (x = y)); [congruence|done]. }
  assert ((x, true) ∉ stack) as Hnot.
  { intros Hin. assert (zget x state = Some 1) by (apply (iv_gray _ _ I); by right). congruence. }
  constructor.
  - by rewrite zlen_set.
  - intros y v [[_ ->]|[_ Hy]]%Hget; [auto|by eapply (iv_values _ _ I)].
  - intros y b [Hy|Hy]%elem_of_app; [apply elem_entries in Hy as [_ Hy]; by eapply Hsucc|].
    apply elem_of_cons in Hy as [[= -> ->]|]; [done|]. eapply (iv_range _ _ I). by right.
  - intros y. split.
    + intros [[-> _]|[_ Hy]]%Hget; apply elem_of_app; right; [left|]. apply (iv_gray _ _ I) in Hy. apply elem_of_cons in Hy as [[=]|]. by right.
    + intros [Hy|Hy]%elem_of_app; [by apply entries_false in Hy|]. apply elem_of_cons in Hy as [[= ->]|Hy].
      * rewrite zget_set by lia. by rewrite decide_True.
      * assert (0 <= y < n) by (eapply (iv_range _ _ I); by right). rewrite zget_set by lia. destruct (decide (x = y)); [done|]. apply (iv_gray _ _ I). by right.
  - rewrite filter_app, filter_entries, filter_cons_True by done. cbn. apply NoDup_cons. split.
    + intros [_ Hin]%list_elem_of_filter. done.
    + pose proof (iv_nodup _ _ I) as Hnd. by rewrite filter_cons_False in Hnd.
  - intros y z [[_ ?]|[_ Hy]]%Hget Hz; [done|]. apply Hkeep. by eapply (iv_black _ _ I).
  - intros y [[_ ?]|[_ Hy]]%Hget; [done|]. by apply (iv_founded _ _ I).
  - intros above y below z Hs Hz. destruct (split_pushed _ _ _ _ _ _ Hs) as [(-> & -> & ->)|(a & -> & ->)].
    + right. exists false. apply elem_entries. split; [done|]. apply Hz.
    + destruct (iv_below _ _ I ((x, false) :: a) y below z eq_refl Hz) as [|[b Hb]]; [left; auto|]. right.
      apply elem_of_cons in Hb as [[= -> ->]|Hb]; [exists true|exists b]; apply elem_of_app; right; [left|by right].
  - intros above y below z b Hs Hz. destruct (split_pushed _ _ _ _ _ _ Hs) as [(-> & -> & ->)|(a & -> & ->)].
    + apply elem_entries in Hz as [_ Hz]. by apply tc_once.
    + assert (tc edge y x) as Hyx by (eapply (iv_above _ _ I ((x, false) :: a)); [done|left]).
      apply elem_of_app in Hz as [Hz|Hz]; [apply elem_entries in Hz as [_ Hz]; eapply tc_r; [done|by split]|].
      apply elem_of_cons in Hz as [[= -> ->]|Hz]; [done|]. eapply (iv_above _ _ I ((x, false) :: a)); [done|by right].
Qed.

Lemma step_invariant s t : step s t -> invariant s.1 s.2 -> invariant t.1 t.2.
Proof using Hsucc. destruct 1; cbn; eauto using leave_invariant, skip_invariant, enter_invariant. Qed.

(** The verdict on a vertex that is being explored. *)
Lemma gray_cycle state x stack : invariant state ((x, false) :: stack) -> zget x state = Some 1 -> tc edge x x.
Proof.
  intros I Hg. apply (iv_gray _ _ I) in Hg. apply elem_of_cons in Hg as [[=]|Hg]. apply list_elem_of_split in Hg as (a & b & ->).
  eapply (iv_above _ _ I ((x, false) :: a)); [done|left].
Qed.

(** A well-founded vertex is not its own ancestor. *)
Lemma founded_acyclic x : founded x -> ~ tc edge x x.
Proof.
  induction 1 as [x _ IH]. intros Hc.
  assert (exists y, edge x y /\ rtc edge y x) as (y & Hxy & Hyx).
  { inversion Hc; subst; [by exists x|]. eexists. split; [done|]. by apply tc_rtc. }
  apply (IH y Hxy). eapply tc_rtc_l; [done|]. by apply tc_once.
Qed.

(** A search that has not begun, and one that begins at a root. *)
Lemma initial_invariant : 0 <= n -> invariant (replicate (Z.to_nat n) 0) [].
Proof.
  intros Hn. assert (forall x v, zget x (replicate (Z.to_nat n) 0) = Some v -> v = 0) as H0.
  { intros x v [_ H]%zget_Some. by apply lookup_replicate in H as [-> _]. }
  constructor.
  - rewrite zlen_replicate. lia.
  - intros x v ->%H0. auto.
  - by intros x b ?%not_elem_of_nil.
  - intros x. split; [by intros ?%H0|by intros ?%not_elem_of_nil].
  - constructor.
  - by intros x y ?%H0.
  - by intros x ?%H0.
  - by intros [|] x below y ?.
  - by intros [|] x below y b ?.
Qed.

Lemma root_invariant state root : invariant state [] -> 0 <= root < n -> invariant state [(root, false)].
Proof.
  intros I Hr. constructor; try apply I.
  - intros x b [[= -> ->]|H%not_elem_of_nil]%elem_of_cons; [lia|done].
  - intros x. rewrite (iv_gray _ _ I). split; [by intros ?%not_elem_of_nil|by intros [[=]|]%elem_of_cons].
  - intros [|e above] x below y; [done|]. intros [= _ H]. by destruct above.
  - intros [|e above] x below y b; [done|]. intros [= _ H]. by destruct above.
Qed.

(** ** The measure: vertices not yet entered, and the stack *)

Context (deg : nat) (Hdeg : forall x, 0 <= x < n -> (length (succ x) <= deg)%nat).

Definition unseen (state : list Z) : nat := length (filter (fun v => v = 0) state).
Definition measure (s : list Z * list (Z * bool)) : nat := (unseen s.1 * S (S deg) + length s.2)%nat.

Lemma unseen_insert (i : nat) v state : v <> 0 ->
  (unseen (<[i := v]> state) <= unseen state)%nat /\ (state !! i = Some 0 -> unseen state = S (unseen (<[i := v]> state))).
Proof.
  intros Hv. unfold unseen. revert i. induction state as [|a state IH]; intros [|i]; cbn [insert list_insert lookup list_lookup]; try (by split; [lia|]).
  - rewrite (filter_cons_False _ v) by done. split.
    + destruct (decide (a = 0)); [rewrite filter_cons_True by done; cbn; lia|by rewrite filter_cons_False].
    + intros [= ->]. by rewrite filter_cons_True.
  - destruct (IH i) as [H1 H2]. destruct (decide (a = 0)); [rewrite !filter_cons_True by done|rewrite !filter_cons_False by done]; cbn [length]; [|done].
    split; [apply le_n_S, H1|]. intros H. exact (f_equal S (H2 H)).
Qed.

Lemma step_measure s t : invariant s.1 s.2 -> step s t -> (measure t < measure s)%nat.
Proof using Hdeg.
  intros I Hst. destruct Hst as [state x stack|state x stack H2|state x stack H0]; unfold measure; cbn [fst snd] in *.
  - destruct (unseen_insert (Z.to_nat x) 2 state) as [H _]; [done|]. unfold set_state. cbn [length]. nia.
  - cbn [length]. lia.
  - assert (0 <= x < n) as Hx by (eapply (iv_range _ _ I); left). apply zget_Some in H0 as [_ H0].
    destruct (unseen_insert (Z.to_nat x) 1 state) as [_ H]; [done|]. rewrite H by done. unfold set_state, entries.
    rewrite length_app, length_map. cbn [length]. specialize (Hdeg x Hx). nia.
Qed.
End Search.

(** ** The search over a flat table of parents *)

Section Flat.
Context (starts ps : list Z) (n : Z).
Definition flat_succ (x : Z) : list Z := default [] (parents_of starts ps x).
Context (Hn : 0 <= n)
  (Htotal : forall x, 0 <= x < n -> exists mine, parents_of starts ps x = Some mine /\ Forall (fun y => 0 <= y < n) mine).

Notation inv := (invariant n flat_succ).

Lemma flat_succ_range x y : 0 <= x < n -> y ∈ flat_succ x -> 0 <= y < n.
Proof using Htotal.
  intros Hx. unfold flat_succ. destruct (Htotal x Hx) as (mine & -> & Hall). cbn. intros Hy. by eapply Forall_forall in Hall.
Qed.

Lemma flat_succ_length x : 0 <= x < n -> (length (flat_succ x) <= length ps)%nat.
Proof using Htotal.
  intros Hx. unfold flat_succ. destruct (Htotal x Hx) as (mine & Hm & _). rewrite Hm. cbn. unfold parents_of in Hm.
  apply bind_Some in Hm as (a & _ & Hm). apply bind_Some in Hm as (b & _ & Hm). apply slice_Some in Hm as (_ & _ & ->). rewrite length_take, length_drop. lia.
Qed.

Lemma push_entries mine stack : foldl (fun stack parent => (parent, false) :: stack) stack (reverse mine) = entries mine ++ stack.
Proof.
  unfold entries. induction mine as [|p mine IH]; [done|]. by rewrite reverse_cons, foldl_app, IH.
Qed.

(** What the loop returns: a final state of the search, or a vertex that is its own ancestor. *)
Definition verdict (Q : list Z -> Prop) (r : result PrepareError (list Z)) : Prop :=
  match r with
  | Ok state => Q state
  | Err (Reason reason) => reason = "cyclic indexed ancestry" /\ exists x, tc (edge n flat_succ) x x
  | Err _ => False
  end.

Lemma visit_verdict fuel state stack : inv state stack -> (measure (length ps) (state, stack) <= fuel)%nat ->
  verdict (fun final => inv final [] /\ (forall x, zget x state = Some 2 -> zget x final = Some 2) /\
    (forall x b, (x, b) ∈ stack -> zget x final = Some 2)) (visit fuel starts ps state stack).
Proof using Htotal.
  pose proof flat_succ_range as Hsr. pose proof flat_succ_length as Hsl.
  revert state stack. induction fuel as [|fuel IH]; intros state stack I Hm; destruct stack as [|[x exiting] stack]; cbn [visit].
  { split_and!; [done..|]. by intros ? ? ?%not_elem_of_nil. } { unfold measure in Hm; cbn in Hm; lia. }
  { split_and!; [done..|]. by intros ? ? ?%not_elem_of_nil. }
  assert (0 <= x < n) as Hx by (eapply (iv_range _ _ _ _ I); left). pose proof (iv_length _ _ _ _ I) as Hlen.
  destruct (zget_is_Some x state) as [v Hv]; [lia|]. rewrite Hv. cbn [ok_or rbind].
  assert (forall t, step flat_succ (state, (x, exiting) :: stack) t ->
    (forall y, zget y state = Some 2 -> zget y t.1 = Some 2) -> (forall y b, (y, b) ∈ stack -> (y, b) ∈ t.2) ->
    zget x t.1 = Some 2 \/ (exists b, (x, b) ∈ t.2) ->
    verdict (fun final => inv final [] /\ (forall y, zget y state = Some 2 -> zget y final = Some 2) /\
      (forall y b, (y, b) ∈ (x, exiting) :: stack -> zget y final = Some 2)) (visit fuel starts ps t.1 t.2)) as Hgo.
  { intros t Hst Hkeep Hrest Hself. pose proof (step_measure n flat_succ (length ps) Hsl (state, (x, exiting) :: stack) t I Hst).
    pose proof (step_invariant n flat_succ Hsr (state, (x, exiting) :: stack) t Hst I) as I'. destruct t as [state' stack']. cbn [fst snd] in *.
    specialize (IH state' stack' I' ltac:(lia)). destruct (visit fuel starts ps state' stack') as [final|[reason| |]]; cbn [verdict] in IH |- *; [|exact IH..].
    destruct IH as (If & H2 & Hs). split_and!; [done|auto|]. intros y b [[= -> ->]|Hy]%elem_of_cons; [destruct Hself as [?|[? ?]]|]; eauto. }
  destruct exiting.
  { apply (Hgo (set_state x 2 state, stack)); [constructor| |done|]; cbn.
    - intros y Hy. pose proof (zget_lt _ _ _ Hy). rewrite zget_set by lia. by destruct (decide (x = y)).
    - left. rewrite zget_set by lia. by rewrite decide_True. }
  destruct (Z.eqb_spec v 2) as [-> |]; [apply (Hgo (state, stack)); [by constructor|auto..]|].
  destruct (Z.eqb_spec v 1) as [-> |]; [split; [done|]; exists x; by eapply gray_cycle|].
  assert (v = 0) as -> by (destruct (iv_values _ _ _ _ I x v Hv) as [|[|]]; congruence).
  destruct (Htotal x Hx) as (mine & Hmine & _). rewrite Hmine. cbn [ok_or rbind]. rewrite push_entries.
  assert (mine = flat_succ x) as -> by (unfold flat_succ; by rewrite Hmine).
  apply (Hgo (set_state x 1 state, entries (flat_succ x) ++ (x, true) :: stack)); [by constructor|..]; cbn.
  - intros y Hy. pose proof (zget_lt _ _ _ Hy). rewrite zget_set by lia. destruct (decide (x = y)); [congruence|done].
  - intros y b Hy. apply elem_of_app. right. by right.
  - right. exists true. apply elem_of_app. right. left.
Qed.

(** The loop over the roots. *)
Lemma visit_roots_verdict k root state : inv state [] -> 0 <= root -> root + Z.of_nat k = n ->
  (forall x, 0 <= x < root -> zget x state = Some 2) ->
  match visit_roots k starts ps root state with
  | Ok tt => forall x, 0 <= x < n -> founded n flat_succ x
  | Err (Reason reason) => reason = "cyclic indexed ancestry" /\ exists x, tc (edge n flat_succ) x x
  | Err _ => False
  end.
Proof using Htotal.
  revert root state. induction k as [|k IH]; intros root state I Hr Hk Hdone; cbn [visit_roots].
  { intros x Hx. apply (iv_founded _ _ _ _ I), Hdone. lia. }
  pose proof (iv_length _ _ _ _ I) as Hlen. destruct (zget_is_Some root state) as [v Hv]; [lia|]. rewrite Hv. cbn [ok_or rbind].
  destruct (Z.eqb_spec v 2) as [-> |].
  { apply IH; [done|lia..|]. intros x Hx. destruct (decide (x = root)) as [-> |]; [done|apply Hdone; lia]. }
  assert (inv state [(root, false)]) as I' by (apply root_invariant; [done|lia]).
  assert (unseen state <= length state)%nat by apply length_filter.
  assert (measure (length ps) (state, [(root, false)]) <= 1 + length state * (2 + length ps))%nat as Hm.
  { unfold measure. cbn [fst snd length]. nia. }
  pose proof (visit_verdict _ state [(root, false)] I' Hm) as Hv'.
  destruct (visit _ starts ps state [(root, false)]) as [final|[reason| |]]; cbn [verdict rbind] in Hv' |- *; [|exact Hv'..].
  destruct Hv' as (If & Hkeep & Hroot). apply IH; [done|lia..|].
  intros x Hx. destruct (decide (x = root)) as [-> |]; [eapply Hroot; left|apply Hkeep, Hdone; lia].
Qed.

(** [check_ancestry] accepts exactly the tables without a cycle, and never panics. *)
Lemma check_ancestry_verdict : zlen starts = n + 1 ->
  match check_ancestry starts ps with
  | Ok tt => forall x, 0 <= x < n -> founded n flat_succ x
  | Err (Reason reason) => reason = "cyclic indexed ancestry" /\ exists x, tc (edge n flat_succ) x x
  | Err _ => False
  end.
Proof using Hn Htotal.
  intros Hs. unfold check_ancestry. rewrite checked_sub_le by lia. cbn [ok_or rbind]. replace (zlen starts - 1) with n by lia.
  apply visit_roots_verdict; [by apply initial_invariant|lia..].
Qed.
End Flat.
End GraphAncestry.
