(* ===== verification/CommitGraphChain.v ===== *)
(** * Chains of layers and their order of generations

    What [check_structure] establishes of a chain: positions count the records of the
    layers below, identities are distinct across layers, lookups are exact, and [prepare]
    derives parent positions and a strictly decreasing generation, or else decides
    whether ancestry has a cycle. *)

From stdpp Require Import base list numbers strings sets relations sorting.
From Stdlib Require Import ZArith Lia.
From S2P Require Import Prelude Objects BTree History CommitGraph CommitGraphLayer CommitGraphAncestry.

Module GraphChain.
Import Objects CommitGraph GraphLayer GraphAncestry.

(** ** Folds that may fail *)

Fixpoint rfold {A S E} (f : A -> S -> result E S) (l : list A) (s : S) : result E S :=
  match l with
  | [] => Ok s
  | x :: l => let? s := f x s in rfold f l s
  end.

Lemma rfold_app {A S E} (f : A -> S -> result E S) a b s : rfold f (a ++ b) s = rbind (rfold f a s) (rfold f b).
Proof. revert s. induction a as [|x a IH]; intros s; [done|]. cbn. destruct (f x s); cbn; [apply IH|done]. Qed.

Lemma rfold_invariant {A S E} (f : A -> S -> result E S) (I : list A -> S -> Prop) (bad : E -> Prop) l s :
  I [] s ->
  (forall before x after s, l = before ++ x :: after -> I before s ->
    match f x s with Ok s' => I (before ++ [x]) s' | Err e => bad e end) ->
  match rfold f l s with Ok s => I l s | Err e => bad e end.
Proof.
  intros H0 Hf. enough (forall after before s, l = before ++ after -> I before s ->
    match rfold f after s with Ok s => I l s | Err e => bad e end) as H by exact (H l [] s eq_refl H0).
  clear H0 s. induction after as [|x after IH]; intros before s Hl HI; [by rewrite Hl, app_nil_r|].
  cbn. specialize (Hf before x after s Hl HI). destruct (f x s) as [s'|e]; cbn; [|done].
  apply (IH (before ++ [x])); [by rewrite <- app_assoc|done].
Qed.

(** ** Positions *)

Definition cell : Type := Layer bytes * Z.

(** The records of a chain, in order of position. *)
Definition cells (ls : list (Layer bytes)) : list cell := concat ((fun l => pair l <$> seqZ 0 (count l)) <$> ls).

Definition commits_of (ls : list (Layer bytes)) : Z := foldr (fun l n => count l + n) 0 ls.

Lemma commits_of_app a b : commits_of (a ++ b) = commits_of a + commits_of b.
Proof. unfold commits_of. induction a as [|l a IH]; cbn; [done|]. rewrite IH. lia. Qed.

Record chain_ok (fmt : ObjectFormat) (ls : list (Layer bytes)) : Prop := {
  ch_layers : Forall (layer_ok fmt) ls;
  ch_starts k l : ls !! k = Some l -> start l = commits_of (take k ls);
  ch_unique k k' l l' i i' id : ls !! k = Some l -> ls !! k' = Some l' -> 0 <= i < count l -> 0 <= i' < count l' ->
    layer_id l i = Some id -> layer_id l' i' = Some id -> k = k'
}.

Lemma cells_app a b : cells (a ++ b) = cells a ++ cells b.
Proof. unfold cells. by rewrite fmap_app, concat_app. Qed.
Lemma cells_cons l ls : cells (l :: ls) = (pair l <$> seqZ 0 (count l)) ++ cells ls.
Proof. done. Qed.

Lemma zlen_cells fmt ls : Forall (layer_ok fmt) ls -> zlen (cells ls) = commits_of ls.
Proof.
  induction 1 as [|l ls Hl _ IH]; [done|]. rewrite cells_cons, zlen_app, IH. destruct (lk_records _ _ Hl) as (_ & _ & Hc & _).
  unfold zlen, commits_of. rewrite length_fmap, length_seqZ. cbn [foldr]. lia.
Qed.

Lemma commits_nonneg fmt ls : Forall (layer_ok fmt) ls -> 0 <= commits_of ls.
Proof. intros H. rewrite <- (zlen_cells fmt ls H). apply zlen_nonneg. Qed.

Lemma commits_take_le fmt ls j k : Forall (layer_ok fmt) ls -> (j <= k)%nat -> commits_of (take j ls) <= commits_of (take k ls).
Proof.
  intros Hall Hjk. replace (take k ls) with (take j ls ++ take (k - j) (drop j ls)).
  - rewrite commits_of_app. pose proof (commits_nonneg fmt (take (k - j) (drop j ls))) as H. specialize (H ltac:(by apply Forall_take, Forall_drop)). lia.
  - rewrite take_drop_commute. replace (j + (k - j))%nat with k by lia. rewrite <- (take_drop j (take k ls)) at 2. by rewrite take_take, Nat.min_l by lia.
Qed.

Lemma commits_take_S ls k l : ls !! k = Some l -> commits_of (take (S k) ls) = commits_of (take k ls) + count l.
Proof. intros Hk. rewrite (take_S_r _ _ _ Hk), commits_of_app. cbn. lia. Qed.

(** The record at a position. *)
Lemma cells_lookup fmt ls k l i : Forall (layer_ok fmt) ls -> ls !! k = Some l -> 0 <= i < count l ->
  zget (commits_of (take k ls) + i) (cells ls) = Some (l, i).
Proof.
  intros Hall Hk Hi. assert (Forall (layer_ok fmt) (take k ls)) as Hb by by apply Forall_take.
  pose proof (commits_nonneg _ _ Hb). apply zget_Some. split; [lia|].
  rewrite <- (take_drop_middle _ _ _ Hk) at 2. rewrite cells_app, cells_cons.
  pose proof (zlen_cells _ _ Hb) as Hlen. unfold zlen in Hlen.
  rewrite lookup_app_r by lia. rewrite lookup_app_l by (rewrite length_fmap, length_seqZ; lia).
  rewrite list_lookup_fmap. replace (Z.to_nat (commits_of (take k ls) + i) - length (cells (take k ls)))%nat with (Z.to_nat i) by lia.
  rewrite lookup_seqZ_lt by lia. cbn. do 2 f_equal. lia.
Qed.

Lemma position_layer ls p : 0 <= p < commits_of ls ->
  exists k l, ls !! k = Some l /\ 0 <= p - commits_of (take k ls) < count l.
Proof.
  unfold commits_of. revert p. induction ls as [|l ls IH]; intros p Hp; cbn [foldr] in Hp; [lia|].
  destruct (decide (p < count l)); [exists 0%nat, l; cbn [firstn foldr]; split; [done|lia]|].
  destruct (IH (p - count l)) as (k & l' & Hk & Hi); [lia|]. exists (S k), l'. cbn [firstn foldr]. split; [done|lia].
Qed.

Section Chain.
Context {fmt : ObjectFormat} {ls : list (Layer bytes)} (Hch : chain_ok fmt ls).
Notation total := (commits_of ls).

(** The layer and index that hold a position. *)
Lemma cell_total p : 0 <= p < total -> exists k l i, ls !! k = Some l /\ layer_ok fmt l /\ 0 <= i < count l /\ p = start l + i /\ zget p (cells ls) = Some (l, i).
Proof using Hch.
  intros Hp. destruct (position_layer ls p Hp) as (k & l & Hk & Hi). exists k, l, (p - commits_of (take k ls)).
  rewrite (ch_starts _ _ Hch k l Hk). split_and!; try done; try lia; [eapply Forall_lookup_1; [apply Hch|done]|].
  rewrite <- (cells_lookup fmt ls k l _ (ch_layers _ _ Hch) Hk Hi). f_equal. lia.
Qed.

Lemma cell_spec p l i : zget p (cells ls) = Some (l, i) -> exists k, ls !! k = Some l /\ layer_ok fmt l /\ 0 <= i < count l /\ p = start l + i /\ 0 <= p < total.
Proof using Hch.
  intros Hc. pose proof (zget_lt _ _ _ Hc) as Hp. rewrite (zlen_cells fmt) in Hp by apply Hch.
  destruct (cell_total p Hp) as (k & l' & i' & ? & ? & ? & ? & Hc'). rewrite Hc in Hc'. injection Hc' as <- <-. by exists k.
Qed.

Lemma cell_of k l i : ls !! k = Some l -> 0 <= i < count l -> zget (start l + i) (cells ls) = Some (l, i).
Proof using Hch. intros Hk Hi. rewrite (ch_starts _ _ Hch k l Hk). eapply cells_lookup; [apply Hch|done|done]. Qed.

(** [CommitGraph::len]. *)
Lemma len_total g : layers g = ls -> len g = total.
Proof using Hch.
  intros Hg. unfold len. rewrite Hg. destruct (last ls) as [x|] eqn:E; [|by apply last_None in E as ->].
  rewrite last_lookup in E. rewrite (ch_starts _ _ Hch _ _ E). rewrite <- (commits_take_S _ _ _ E).
  rewrite take_ge; [done|]. lia.
Qed.

(** [CommitGraph::layer_at]: the last layer that starts at or below a position holds it. *)
Lemma layer_at_cell g p l i : layers g = ls -> zget p (cells ls) = Some (l, i) -> layer_at g p = Some (l, i).
Proof using Hch.
  intros Hg Hc. destruct (cell_spec p l i Hc) as (k & Hk & _ & Hi & -> & _). unfold layer_at. rewrite Hg.
  set (f := fun k => match ls !! Z.to_nat k with Some l' => start l' <=? start l + i | None => false end).
  assert (forall j, 0 <= j < zlen ls -> f j = bool_decide (j <= Z.of_nat k)) as Hf.
  { intros j Hj. unfold f. destruct (lookup_lt_is_Some_2 ls (Z.to_nat j)) as [m Hm]; [unfold zlen in Hj; lia|]. rewrite Hm.
    rewrite (ch_starts _ _ Hch _ _ Hm), (ch_starts _ _ Hch _ _ Hk). pose proof (commits_take_S _ _ _ Hk).
    destruct (decide (j <= Z.of_nat k)) as [Hle|Hgt]; [rewrite bool_decide_true by done|rewrite bool_decide_false by done].
    - apply Z.leb_le. pose proof (commits_take_le fmt ls (Z.to_nat j) k (ch_layers _ _ Hch)). lia.
    - apply Z.leb_gt. pose proof (commits_take_le fmt ls (S k) (Z.to_nat j) (ch_layers _ _ Hch)). lia. }
  pose proof (lookup_lt_Some _ _ _ Hk) as Hlt.
  destruct (partition_point_spec (length ls) f 0 (zlen ls)) as (Hr & Hlow & Hhigh); [apply zlen_nonneg|unfold zlen; lia| |].
  { intros a b Ha Hb. rewrite !Hf by lia. rewrite !bool_decide_eq_true. lia. }
  set (r := partition_point (length ls) f 0 (zlen ls)) in *.
  assert (r = Z.of_nat k + 1) as ->.
  { destruct (Z.lt_trichotomy r (Z.of_nat k + 1)) as [H|[H|H]]; [|done|].
    - assert (f (Z.of_nat k) = false) as Hk' by (apply Hhigh; unfold zlen; lia). rewrite Hf in Hk' by (unfold zlen; lia). by rewrite bool_decide_true in Hk' by lia.
    - assert (f (Z.of_nat k + 1) = true) as Hk' by (apply Hlow; lia). rewrite Hf in Hk' by lia. by rewrite bool_decide_false in Hk' by lia. }
  destruct (Z.eqb_spec (Z.of_nat k + 1) 0); [lia|]. unfold zget. destruct (Z.leb_spec 0 (Z.of_nat k + 1 - 1)); [|lia].
  replace (Z.to_nat (Z.of_nat k + 1 - 1)) with k by lia. rewrite Hk. cbn. do 2 f_equal. lia.
Qed.

(** [CommitGraph::id_at] names every record, and distinct ones differently. *)
Lemma id_at_total g p : layers g = ls -> 0 <= p < total -> exists id, id_at g p = Some id /\ id_ok id /\ id_format id = fmt.
Proof using Hch.
  intros Hg Hp. destruct (cell_total p Hp) as (k & l & i & Hk & Hl & Hi & -> & Hc). unfold id_at. rewrite (layer_at_cell g _ l i Hg Hc). cbn [mbind option_bind].
  destruct (layer_id_at Hl i Hi) as (id & -> & ? & ? & _). eauto.
Qed.

Lemma id_at_inj g p q id : layers g = ls -> 0 <= p < total -> 0 <= q < total -> id_at g p = Some id -> id_at g q = Some id -> p = q.
Proof using Hch.
  intros Hg Hp Hq. destruct (cell_total p Hp) as (k & l & i & Hk & Hl & Hi & -> & Hc), (cell_total q Hq) as (k' & l' & i' & Hk' & Hl' & Hi' & -> & Hc').
  unfold id_at. rewrite (layer_at_cell g _ l i Hg Hc), (layer_at_cell g _ l' i' Hg Hc'). cbn [mbind option_bind]. intros H H'.
  assert (k = k') as <- by by eapply (ch_unique _ _ Hch k k' l l' i i'). rewrite Hk in Hk'. injection Hk' as <-. f_equal. by eapply (layer_id_inj Hl).
Qed.

(** [CommitGraph::locate] is exact. *)
Lemma find_map_spec ms id : Forall (layer_ok fmt) ms -> id_ok id -> exists r, find_map ms id = Some r /\
  match r with
  | Some p => exists l i, l ∈ ms /\ 0 <= i < count l /\ layer_id l i = Some id /\ p = start l + i
  | None => forall l i, l ∈ ms -> 0 <= i < count l -> layer_id l i <> Some id
  end.
Proof using.
  intros Hall Hid. induction Hall as [|l ms Hl Hall IH]; [exists None; split; [done|]; by intros ? ? ?%not_elem_of_nil|].
  cbn [find_map]. destruct (layer_find_exact Hl id Hid) as (r & -> & Hr). cbn [mbind option_bind]. destruct r as [i|].
  - exists (Some (start l + i)). split; [done|]. destruct (proj1 (Hr i) eq_refl). exists l, i. split_and!; try done; try lia. left.
  - destruct IH as (r' & -> & Hr'). exists r'. split; [done|]. destruct r' as [p|].
    + destruct Hr' as (l' & i & ? & ?). exists l', i. split; [by right|done].
    + intros l' i [-> |Hin]%elem_of_cons Hi; [|by apply Hr']. intros Hlid. by assert (None = Some i) by by apply Hr.
Qed.

Lemma locate_exact g id : layers g = ls -> id_ok id -> exists r, locate g id = Some r /\
  forall p, r = Some p <-> 0 <= p < total /\ id_at g p = Some id.
Proof using Hch.
  intros Hg Hid. unfold locate. rewrite Hg. destruct (find_map_spec ls id (ch_layers _ _ Hch) Hid) as (r & -> & Hr). exists r. split; [done|].
  assert (forall k l i, ls !! k = Some l -> 0 <= i < count l -> id_at g (start l + i) = layer_id l i) as Hat.
  { intros k l i Hk Hi. unfold id_at. by rewrite (layer_at_cell g _ l i Hg (cell_of k l i Hk Hi)). }
  intros p. split.
  - intros ->. destruct Hr as (l & i & [k Hk]%list_elem_of_lookup_1 & Hi & Hlid & ->). rewrite (Hat k l i Hk Hi). split; [|done].
    pose proof (cell_of k l i Hk Hi) as Hc. pose proof (zget_lt _ _ _ Hc) as Hp. by rewrite (zlen_cells fmt) in Hp by apply Hch.
  - intros [Hp Hpid]. destruct (cell_total p Hp) as (k & l & i & Hk & Hl & Hi & -> & _). destruct r as [q|].
    + destruct Hr as (l' & i' & [k' Hk']%list_elem_of_lookup_1 & Hi' & Hlid & ->). f_equal. eapply (id_at_inj g); [done| |done| |done].
      * pose proof (cell_of k' l' i' Hk' Hi') as Hc. pose proof (zget_lt _ _ _ Hc) as Hq. by rewrite (zlen_cells fmt) in Hq by apply Hch.
      * by rewrite (Hat k' l' i' Hk' Hi').
    + exfalso. eapply (Hr l i); [by eapply list_elem_of_lookup_2|done|]. by rewrite <- (Hat k l i Hk Hi).
Qed.
End Chain.

(** ** Levels and dates by position *)

Definition level_of (c : cell) : Z := default 0 (level c.1 c.2).
Definition date_of (c : cell) : Z := default 0 (default None (layer_corrected_date c.1 c.2)).
Definition parents_cell (c : cell) : list Z := default [] (parents_into c.1 c.2).

Definition value_step (corrected : bool) (c : cell) (acc : bool * list Z * list Z) : result PrepareError (bool * list Z * list Z) :=
  let '(topological, levels, dates) := acc in
  let? v := ok_or (level c.1 c.2) PreparePanic in
  let? dates :=
    if corrected then
      let? date := ok_or (layer_corrected_date c.1 c.2) PreparePanic in
      Ok (dates ++ [default 0 date])
    else Ok dates in
  Ok (topological && negb (v =? 0) && (v <? 0x3fffffff), levels ++ [v], dates).

Lemma seqZ_S i n : seqZ i (Z.of_nat (S n)) = i :: seqZ (i + 1) (Z.of_nat n).
Proof. rewrite seqZ_cons by lia. f_equal. f_equal; lia. Qed.

Lemma layer_values_fold n l i corrected acc :
  layer_values n l i corrected acc = rfold (value_step corrected) (pair l <$> seqZ i (Z.of_nat n)) acc.
Proof.
  revert i acc. induction n as [|n IH]; intros i [[topological levels] dates]; [done|]. rewrite seqZ_S, fmap_cons. cbn [layer_values rfold value_step fst snd].
  destruct (level l i); cbn [ok_or rbind]; [|done]. destruct corrected; [|apply IH]. destruct (layer_corrected_date l i); cbn [ok_or rbind]; [apply IH|done].
Qed.

Lemma all_values_fold fmt ls corrected acc : Forall (layer_ok fmt) ls ->
  all_values ls corrected acc = rfold (value_step corrected) (cells ls) acc.
Proof.
  intros H. revert acc. induction H as [|l ls Hl _ IH]; intros acc; [done|]. rewrite cells_cons, rfold_app. cbn [all_values].
  destruct (lk_records _ _ Hl) as (_ & _ & Hc & _). rewrite layer_values_fold, Z2Nat.id by done. destruct (rfold _ _ acc); cbn; [apply IH|done].
Qed.

Definition edge_step (dates levels : list Z) (c : cell) (e : Edges) : result PrepareError Edges :=
  let? mine := ok_or (parents_into c.1 c.2) PreparePanic in
  let? (corrected, topological) :=
    edge_orders mine (start c.1 + c.2) dates levels (e_corrected e) (e_topological e) in
  let flat := e_parents e ++ mine in
  if u32_max <? zlen flat then Err (Reason "parent count")
  else Ok {| e_corrected := corrected; e_topological := topological; e_starts := e_starts e ++ [zlen flat]; e_parents := flat |}.

Lemma layer_edges_fold n l i dates levels e :
  layer_edges n l i dates levels e = rfold (edge_step dates levels) (pair l <$> seqZ i (Z.of_nat n)) e.
Proof.
  revert i e. induction n as [|n IH]; intros i e; [done|]. rewrite seqZ_S, fmap_cons. cbn [layer_edges rfold]. unfold edge_step at 1. cbn [fst snd].
  destruct (parents_into l i) as [mine|]; cbn [ok_or rbind]; [|done]. destruct (edge_orders _ _ _ _ _ _) as [[c t]|]; cbn [rbind]; [|done].
  destruct (u32_max <? _); [done|apply IH].
Qed.

Lemma all_edges_fold fmt ls dates levels e : Forall (layer_ok fmt) ls ->
  all_edges ls dates levels e = rfold (edge_step dates levels) (cells ls) e.
Proof.
  intros H. revert e. induction H as [|l ls Hl _ IH]; intros e; [done|]. rewrite cells_cons, rfold_app. cbn [all_edges].
  destruct (lk_records _ _ Hl) as (_ & _ & Hc & _). rewrite layer_edges_fold, Z2Nat.id by done. destruct (rfold _ _ e); cbn; [apply IH|done].
Qed.

(** ** Edges by position *)

Lemma zget_app_l {A} i (l k : list A) x : zget i l = Some x -> zget i (l ++ k) = Some x.
Proof. rewrite !zget_Some. intros [? H]. split; [done|]. by apply lookup_app_l_Some. Qed.

Lemma zget_snoc {A} (l : list A) x : zget (zlen l) (l ++ [x]) = Some x.
Proof. apply zget_Some. split; [apply zlen_nonneg|]. unfold zlen. rewrite Nat2Z.id. rewrite lookup_app_r by lia. by rewrite Nat.sub_diag. Qed.

Lemma zlen_one {A} (x : A) : zlen [x] = 1.
Proof. done. Qed.

Lemma zget_nil {A} i : zget i (@nil A) = None.
Proof. unfold zget. by destruct (0 <=? i). Qed.

Lemma slice_app_l {A} a b (l k m : list A) : slice a b l = Some m -> slice a b (l ++ k) = Some m.
Proof. rewrite !slice_app. intros (pre & post & -> & ? & ?). exists pre, (post ++ k). by rewrite <- !app_assoc. Qed.

Lemma parents_of_app starts ps more more' p mine : parents_of starts ps p = Some mine -> parents_of (starts ++ more) (ps ++ more') p = Some mine.
Proof.
  unfold parents_of. intros (a & Ha & (b & Hb & Hs)%bind_Some)%bind_Some.
  rewrite (zget_app_l _ _ _ _ Ha). cbn [mbind option_bind]. rewrite (zget_app_l _ _ _ _ Hb). cbn [mbind option_bind]. by apply slice_app_l.
Qed.

(** Every edge of a parent list goes down in [values]. *)
Definition goes_down (values : list Z) (child parent : Z) : Prop :=
  exists a b, zget parent values = Some a /\ zget child values = Some b /\ a < b.

Lemma decreasing_spec held values parent child : (held = true -> 0 <= parent < zlen values /\ 0 <= child < zlen values) ->
  exists r, decreasing held values parent child = Ok r /\ (r = true -> held = true /\ goes_down values child parent).
Proof.
  intros H. unfold decreasing. destruct held; [|by exists false]. destruct (H eq_refl) as [Hp Hc].
  destruct (zget_is_Some parent values Hp) as [a Ha], (zget_is_Some child values Hc) as [b Hb]. rewrite Ha, Hb. cbn [ok_or rbind].
  eexists. split; [done|]. intros Hlt%Z.ltb_lt. split; [done|]. by exists a, b.
Qed.

Lemma edge_orders_spec mine child dates levels corrected topological n :
  Forall (fun p => 0 <= p < n) mine -> 0 <= child < n -> (corrected = true -> zlen dates = n) -> zlen levels = n ->
  exists c t, edge_orders mine child dates levels corrected topological = Ok (c, t) /\
    (c = true -> corrected = true /\ forall p, p ∈ mine -> goes_down dates child p) /\
    (t = true -> topological = true /\ forall p, p ∈ mine -> goes_down levels child p).
Proof.
  intros Hall. revert corrected topological. induction Hall as [|p mine Hp _ IH]; intros corrected topological Hc Hd Hl; cbn [edge_orders].
  { eexists _, _. split; [done|]. split; (split; [done|]); by intros ? ?%not_elem_of_nil. }
  destruct (decreasing_spec corrected dates p child) as (c & -> & Hc'); [intros ->; rewrite Hd by done; lia|]. cbn [rbind].
  destruct (decreasing_spec topological levels p child) as (t & -> & Ht'); [intros ->; lia|]. cbn [rbind].
  destruct (IH c t Hc) as (c' & t' & -> & H1 & H2); [intros ->; apply Hd, Hc'; done|done|]. eexists _, _. split; [done|].
  split; intros ->; [destruct H1 as [-> H1]|destruct H2 as [-> H2]]; try done; [destruct Hc' as [-> ?]|destruct Ht' as [-> ?]]; try done;
    (split; [done|]); intros q [-> |Hq]%elem_of_cons; auto.
Qed.

Section Prepare.
Context {fmt : ObjectFormat} {ls : list (Layer bytes)} (Hch : chain_ok fmt ls).
Notation total := (commits_of ls).

Lemma cells_before before c after : cells ls = before ++ c :: after -> zget (zlen before) (cells ls) = Some c.
Proof using. intros ->. apply zget_Some. split; [apply zlen_nonneg|]. unfold zlen. rewrite Nat2Z.id. rewrite lookup_app_r by lia. by rewrite Nat.sub_diag. Qed.

Lemma value_step_at p c corrected t levels dates : zget p (cells ls) = Some c ->
  exists t', value_step corrected c (t, levels, dates) = Ok (t', levels ++ [level_of c], if corrected then dates ++ [date_of c] else dates).
Proof using Hch.
  destruct c as [l i]. intros Hc. destruct (cell_spec Hch _ _ _ Hc) as (k & _ & Hl & Hi & _). unfold value_step, level_of, date_of. cbn [fst snd].
  destruct (high_low_at l i (lk_records _ _ Hl) Hi) as (high & low & _ & -> & _). destruct (lk_dates _ _ Hl i Hi) as (d & -> & _).
  cbn [ok_or rbind from_option]. eexists. by destruct corrected.
Qed.

Lemma all_values_spec corrected :
  exists t, all_values ls corrected (true, [], []) = Ok (t, level_of <$> cells ls, if corrected then date_of <$> cells ls else []).
Proof using Hch.
  rewrite (all_values_fold fmt) by apply Hch.
  pose proof (rfold_invariant (value_step corrected)
    (fun before acc => acc.1.2 = level_of <$> before /\ acc.2 = if corrected then date_of <$> before else []) (fun _ => False) (cells ls) (true, [], [])) as H.
  destruct (rfold _ _ _) as [[[t levels] dates]|e]; [destruct H as [H1 H2]; [by destruct corrected| |cbn in H1, H2; subst; by exists t]|exfalso; apply H; [by destruct corrected|]];
    intros before c after [[t' levels'] dates'] Heq [Hl Hd]; cbn [fst snd] in *; subst levels' dates'; apply cells_before in Heq;
    (destruct (value_step_at _ c corrected t' (level_of <$> before) (if corrected then date_of <$> before else []) Heq) as (t'' & ->));
    cbn [fst snd]; rewrite !fmap_app; by destruct corrected.
Qed.

(** The parents of a record are positions. *)
Lemma parents_cell_at p c : zget p (cells ls) = Some c ->
  parents_into c.1 c.2 = Some (parents_cell c) /\ Forall (fun q => 0 <= q < total) (parents_cell c) /\ start c.1 + c.2 = p.
Proof using Hch.
  destruct c as [l i]. intros Hc. destruct (cell_spec Hch _ _ _ Hc) as (k & Hk & Hl & Hi & -> & Hp). unfold parents_cell. cbn [fst snd].
  destruct (lk_parents _ _ Hl i Hi) as (ps & -> & Hall). split_and!; [done| |done]. eapply Forall_impl; [exact Hall|]. cbn. intros q Hq.
  pose proof (commits_take_S _ _ _ Hk) as HS. rewrite <- (ch_starts _ _ Hch _ _ Hk) in HS.
  pose proof (commits_take_le fmt ls (S k) (length ls) (ch_layers _ _ Hch)) as Hle. rewrite (firstn_all ls) in Hle.
  pose proof (lookup_lt_Some _ _ _ Hk). lia.
Qed.

(** The flat tables after some of the records. *)
Record edges_ok (dates levels : list Z) (corrected : bool) (before : list cell) (e : Edges) : Prop := {
  eo_starts : zlen (e_starts e) = zlen before + 1;
  eo_last : zget (zlen before) (e_starts e) = Some (zlen (e_parents e));
  eo_parents p c : zget p before = Some c -> parents_of (e_starts e) (e_parents e) p = Some (parents_cell c);
  eo_corrected : e_corrected e = true -> corrected = true /\
    forall p c q, zget p before = Some c -> q ∈ parents_cell c -> goes_down dates p q;
  eo_topological : e_topological e = true -> forall p c q, zget p before = Some c -> q ∈ parents_cell c -> goes_down levels p q
}.

Lemma zget_snoc_inv {A} p (l : list A) x y : zget p (l ++ [x]) = Some y -> zget p l = Some y \/ p = zlen l /\ y = x.
Proof using.
  intros [Hp H]%zget_Some. apply lookup_snoc_Some in H as [[_ H]|[H <-]]; [left; by apply zget_Some|right; split; [unfold zlen; lia|done]].
Qed.

Lemma edge_step_ok dates levels corrected before c e :
  zget (zlen before) (cells ls) = Some c -> (corrected = true -> zlen dates = total) -> zlen levels = total ->
  edges_ok dates levels corrected before e ->
  match edge_step dates levels c e with
  | Ok e' => edges_ok dates levels corrected (before ++ [c]) e'
  | Err err => err = Reason "parent count"
  end.
Proof using Hch.
  intros Hc Hd Hl E. destruct (parents_cell_at _ _ Hc) as (Hm & Hall & Hpos). unfold edge_step. rewrite Hm. cbn [ok_or rbind].
  pose proof (zget_lt _ _ _ Hc) as Hp. rewrite (zlen_cells fmt) in Hp by apply Hch.
  destruct (edge_orders_spec (parents_cell c) (start c.1 + c.2) dates levels (e_corrected e) (e_topological e) total)
    as (c' & t' & -> & Hc' & Ht'); [done|lia|intros Ht; apply Hd, (eo_corrected _ _ _ _ _ E Ht)|done|]. cbn [rbind].
  destruct (u32_max <? _); [done|]. destruct E as [Hs Hlast Hps Hcor Htop]. rewrite Hpos in *.
  constructor; cbn [e_starts e_parents e_corrected e_topological].
  - rewrite !zlen_app, !zlen_one. lia.
  - rewrite zlen_app, zlen_one, <- Hs. apply zget_snoc.
  - intros p y [Hp'|[-> ->]]%zget_snoc_inv; [by apply parents_of_app, Hps|]. unfold parents_of.
    rewrite (zget_app_l _ _ _ _ Hlast). cbn [mbind option_bind]. rewrite <- Hs, zget_snoc. cbn [mbind option_bind].
    apply slice_app. exists (e_parents e), []. rewrite app_nil_r, zlen_app. split_and!; [done..|lia].
  - intros Ht. destruct (Hc' Ht) as [Hec Hdown]. destruct (Hcor Hec) as [-> Hold]. split; [done|].
    intros p y q [Hp'|[-> ->]]%zget_snoc_inv; eauto.
  - intros Ht. destruct (Ht' Ht) as [Het Hdown]. intros p y q [Hp'|[-> ->]]%zget_snoc_inv; eauto.
Qed.

Lemma all_edges_spec dates levels corrected t : (corrected = true -> zlen dates = total) -> zlen levels = total ->
  match all_edges ls dates levels {| e_corrected := corrected; e_topological := t; e_starts := [0]; e_parents := [] |} with
  | Ok e => edges_ok dates levels corrected (cells ls) e
  | Err err => err = Reason "parent count"
  end.
Proof using Hch.
  intros Hd Hl. rewrite (all_edges_fold fmt) by apply Hch. apply rfold_invariant.
  - constructor; cbn [e_starts e_parents e_corrected e_topological]; try done.
    + intros p c H. by rewrite zget_nil in H.
    + intros ->. split; [done|]. intros p c q H. by rewrite zget_nil in H.
    + intros _ p c q H. by rewrite zget_nil in H.
  - intros before c after e Heq E. apply edge_step_ok; try done. by eapply cells_before.
Qed.

(** ** [prepare] *)

(** The parents of a position. *)
Definition parents_at (p : Z) : list Z := default [] (parents_cell <$> zget p (cells ls)).

(** What the history index of a chain says. *)
Definition index_ok (h : HistoryIndex) : Prop :=
  (forall p, 0 <= p < total -> founded total parents_at p) /\
  (order h <> Unavailable ->
    zlen (generations h) = total /\
    (forall p, 0 <= p < total -> parents_of (parent_starts h) (parents h) p = Some (parents_at p)) /\
    (forall p q, 0 <= p < total -> q ∈ parents_at p -> goes_down (generations h) p q) /\
    generations h = (match order h with CorrectedDates => date_of | _ => level_of end) <$> cells ls).

(** A generation that goes down along every edge bounds ancestry. *)
Lemma down_founded values : (forall p q, 0 <= p < total -> q ∈ parents_at p -> goes_down values p q) ->
  forall p, founded total parents_at p.
Proof using.
  intros Hdown. set (low := foldr Z.min 0 values).
  assert (forall x v, zget x values = Some v -> low <= v) as Hlow.
  { intros x v [_ H]%zget_Some. apply list_elem_of_lookup_2 in H. unfold low. clear -H. induction values as [|w ws IH]; [by apply not_elem_of_nil in H|].
    apply elem_of_cons in H as [-> |H]; cbn; [lia|]. specialize (IH H). lia. }
  assert (forall (k : nat) p v, zget p values = Some v -> v - low < Z.of_nat k -> founded total parents_at p) as H.
  { induction k as [|k IH]; intros p v Hv Hk; [specialize (Hlow p v Hv); lia|]. constructor. intros q [Hp Hq].
    destruct (Hdown p q Hp Hq) as (a & b & Ha & Hb & Hab). rewrite Hv in Hb. injection Hb as <-. eapply IH; [done|lia]. }
  intros p. destruct (zget p values) as [v|] eqn:E; [apply (H (Z.to_nat (v - low + 1)) p v E); specialize (Hlow p v E); lia|].
  constructor. intros q [Hp Hq]. destruct (Hdown p q Hp Hq) as (a & b & _ & Hb & _). congruence.
Qed.

(** Edges over tables that agree on the positions. *)
Lemma edge_ext n f g x y : (forall z, 0 <= z < n -> f z = g z) -> edge n f x y -> edge n g x y.
Proof using. intros H [Hx Hy]. split; [done|]. by rewrite <- H. Qed.

Lemma founded_ext n f g x : (forall z, 0 <= z < n -> f z = g z) -> founded n f x -> founded n g x.
Proof using.
  intros H. induction 1 as [x _ IH]. constructor. intros y Hy. apply IH. eapply edge_ext; [|done]. intros z Hz. by rewrite H.
Qed.

Lemma tc_ext n f g x y : (forall z, 0 <= z < n -> f z = g z) -> tc (edge n f) x y -> tc (edge n g) x y.
Proof using.
  intros H. induction 1 as [x y Hxy|x y z Hxy _ IH]; [apply tc_once|eapply tc_l; [|done]]; by eapply edge_ext.
Qed.

(** [prepare] never panics; it refuses a chain with too many parents for its table, and one
    with a cycle; what it returns orders ancestry. *)
Lemma prepare_spec :
  match prepare ls with
  | Ok h => index_ok h
  | Err (Reason reason) => reason = "parent count" \/ reason = "cyclic indexed ancestry" /\ exists p, tc (edge total parents_at) p p
  | Err _ => False
  end.
Proof using Hch.
  unfold prepare. set (corrected := forallb _ ls). destruct (all_values_spec corrected) as (t & ->). cbn [rbind].
  set (dates := if corrected then date_of <$> cells ls else []). set (levels := level_of <$> cells ls).
  assert (forall f : cell -> Z, zlen (f <$> cells ls) = total) as Hlen.
  { intros f. rewrite <- (zlen_cells fmt ls) by apply Hch. unfold zlen. by rewrite length_fmap. }
  assert (corrected = true -> zlen dates = total) as Hd by (unfold dates; intros ->; apply Hlen).
  pose proof (all_edges_spec dates levels corrected t Hd (Hlen _)) as He.
  destruct (all_edges _ _ _ _) as [e|err]; cbn [rbind]; [|subst err; by left].
  assert (forall p, 0 <= p < total -> exists c, zget p (cells ls) = Some c /\ parents_at p = parents_cell c) as Hat.
  { intros p Hp. destruct (cell_total Hch p Hp) as (_ & l & i & _ & _ & _ & _ & Hc). exists (l, i). split; [done|]. unfold parents_at. by rewrite Hc. }
  assert (forall p, 0 <= p < total -> parents_of (e_starts e) (e_parents e) p = Some (parents_at p)) as Hflat.
  { intros p Hp. destruct (Hat p Hp) as (c & Hc & ->). by apply (eo_parents _ _ _ _ _ He). }
  destruct (e_corrected e) eqn:Ec.
  { destruct (eo_corrected _ _ _ _ _ He Ec) as [Ecor Hdown]. unfold dates in Hdown. rewrite Ecor in Hdown.
    assert (forall p q, 0 <= p < total -> q ∈ parents_at p -> goes_down (date_of <$> cells ls) p q) as Hdown'.
    { intros p q Hp. destruct (Hat p Hp) as (c & Hc & ->). by apply Hdown. }
    split; [intros p _; by eapply down_founded|]. intros _. cbn. unfold dates. rewrite Ecor. split; [apply Hlen|done]. }
  destruct (e_topological e) eqn:Et.
  { assert (forall p q, 0 <= p < total -> q ∈ parents_at p -> goes_down levels p q) as Hdown'.
    { intros p q Hp. destruct (Hat p Hp) as (c & Hc & ->). by apply (eo_topological _ _ _ _ _ He Et). }
    split; [intros p _; by eapply down_founded|]. intros _. cbn. split; [apply Hlen|done]. }
  pose proof (commits_nonneg fmt ls (ch_layers _ _ Hch)) as Htot.
  assert (forall p, 0 <= p < total -> flat_succ (e_starts e) (e_parents e) p = parents_at p) as Hsucc.
  { intros p Hp. unfold flat_succ. by rewrite Hflat. }
  assert (zlen (e_starts e) = total + 1) as Hstarts.
  { rewrite (eo_starts _ _ _ _ _ He), (zlen_cells fmt) by apply Hch. done. }
  assert (forall x, 0 <= x < total -> exists mine, parents_of (e_starts e) (e_parents e) x = Some mine /\ Forall (fun y => 0 <= y < total) mine) as Htab.
  { intros x Hx. destruct (Hat x Hx) as (c & Hc & E). rewrite Hflat, E by done. eexists. split; [done|]. by eapply parents_cell_at. }
  pose proof (check_ancestry_verdict (e_starts e) (e_parents e) total Htot Htab Hstarts) as Hv.
  destruct (check_ancestry (e_starts e) (e_parents e)) as [[]|[reason| |]]; cbn [rbind]; [|right|done..].
  - split; [|done]. intros p Hp. by eapply founded_ext, Hv.
  - destruct Hv as [-> (x & Hx)]. split; [done|]. exists x. by eapply tc_ext.
Qed.

(** When the dates go down along every edge, the order is that of the dates. *)
Lemma edge_orders_down mine child dates levels t : Forall (goes_down dates child) mine ->
  Forall (fun p => 0 <= p < zlen levels) mine -> 0 <= child < zlen levels -> exists t', edge_orders mine child dates levels true t = Ok (true, t').
Proof using.
  intros Hd. revert t. induction Hd as [|p mine (a & b & Ha & Hb & Hlt) _ IH]; intros t Hl Hc; cbn [edge_orders]; [by exists t|].
  apply Forall_cons in Hl as [Hp Hl]. unfold decreasing at 1. rewrite Ha, Hb. cbn [ok_or rbind]. rewrite (proj2 (Z.ltb_lt a b)) by done.
  destruct (decreasing_spec t levels p child) as (t' & -> & _); [done|]. cbn [rbind]. by apply IH.
Qed.

Lemma prepare_dates : forallb (fun l => (count l =? 0) || bool_decide (is_Some (offsets l))) ls = true ->
  zlen (concat (parents_cell <$> cells ls)) <= u32_max ->
  (forall p q, 0 <= p < total -> q ∈ parents_at p -> goes_down (date_of <$> cells ls) p q) ->
  exists h, prepare ls = Ok h /\ order h = CorrectedDates /\ generations h = date_of <$> cells ls.
Proof using Hch.
  intros Hoff Hcount Hdown. unfold prepare. rewrite Hoff. destruct (all_values_spec true) as (t & ->). cbn [rbind]. rewrite (all_edges_fold fmt) by apply Hch.
  assert (forall f : cell -> Z, zlen (f <$> cells ls) = total) as Hlen.
  { intros f. rewrite <- (zlen_cells fmt ls) by apply Hch. unfold zlen. by rewrite length_fmap. }
  pose proof (rfold_invariant (edge_step (date_of <$> cells ls) (level_of <$> cells ls))
    (fun before e => e_corrected e = true /\ e_parents e = concat (parents_cell <$> before)) (fun _ => False) (cells ls)
    {| e_corrected := true; e_topological := t; e_starts := [0]; e_parents := [] |} ltac:(done)) as H.
  match type of H with ?P -> _ => assert P as Hstep end; [|specialize (H Hstep); destruct (rfold _ _ _) as [e|err]; [|done]].
  2:{ destruct H as [He _]. cbn [rbind]. rewrite He. eexists. split_and!; done. }
  intros before c after s Hcells [Hs Hps]. pose proof (cells_before _ _ _ Hcells) as Hc. destruct (parents_cell_at _ _ Hc) as (Hp & Hall & Hstart).
  assert (0 <= zlen before < total) as Hr by (pose proof (zget_lt _ _ _ Hc) as Hr; by rewrite (zlen_cells fmt) in Hr by apply Hch).
  unfold edge_step. rewrite Hp, Hs, Hstart. cbn [ok_or rbind].
  destruct (edge_orders_down (parents_cell c) (zlen before) (date_of <$> cells ls) (level_of <$> cells ls) (e_topological s)) as (t' & ->);
    [apply Forall_forall; intros q Hq; apply Hdown; [done|]; unfold parents_at; by rewrite Hc|by rewrite Hlen|by rewrite Hlen|].
  cbn [rbind]. rewrite Hps. assert (concat (parents_cell <$> before) ++ parents_cell c = concat (parents_cell <$> (before ++ [c]))) as ->
    by (rewrite fmap_app, concat_app; cbn; by rewrite app_nil_r).
  assert (zlen (concat (parents_cell <$> (before ++ [c]))) <= u32_max) as Hle.
  { etransitivity; [|exact Hcount]. rewrite Hcells. replace (before ++ c :: after) with ((before ++ [c]) ++ after) by (by rewrite <- app_assoc).
    rewrite (fmap_app _ (before ++ [c])), concat_app, zlen_app. pose proof (zlen_nonneg (concat (parents_cell <$> after))). lia. }
  destruct (Z.ltb_spec u32_max (zlen (concat (parents_cell <$> (before ++ [c]))))); [lia|done].
Qed.
End Prepare.
End GraphChain.
