(* ===== verification/CommitGraphCorrect.v ===== *)
(** * Correctness of commit-graph reading

    Parsing a file or a chain never panics and accepts only well-formed graphs; lookups of
    an accepted graph are exact; and the graph keeps the promises of [CommitIndexLaws],
    so that ancestry queries over it are exact. *)

From stdpp Require Import base list numbers strings sets gmap relations sorting.
From Stdlib Require Import ZArith Lia.
From S2P Require Import Prelude Objects BTree Trees History HistoryGraph HistoryProofs.
From S2P Require Import HistoryCorrect HistoryRange HistoryQueries CommitGraph CommitGraphLayer CommitGraphAncestry CommitGraphChain.

Module GraphCorrect.
Import Objects CommitGraph GraphLayer GraphAncestry GraphChain.

(** ** Duplicates across layers *)

Definition has_id (l : Layer bytes) (id : ObjectId) : Prop := exists i, 0 <= i < count l /\ layer_id l i = Some id.

Lemma any_find_spec fmt bases id : Forall (layer_ok fmt) bases -> id_ok id ->
  exists b, any_find bases id = Some b /\ (b = false -> forall l, l ∈ bases -> ~ has_id l id).
Proof.
  intros Hall Hid. induction Hall as [|l bases Hl _ IH]; [exists false; split; [done|]; by intros _ ? ?%not_elem_of_nil|].
  cbn [any_find]. destruct (layer_find_exact Hl id Hid) as (r & -> & Hr). cbn [mbind option_bind].
  destruct r as [i|]; [by exists true|]. destruct IH as (b & -> & Hb). exists b. split; [done|].
  intros Hf l' [-> |Hin]%elem_of_cons; [|by apply Hb]. intros (i & Hi). by apply Hr in Hi.
Qed.

Lemma any_duplicate_spec fmt n l bases i : layer_ok fmt l -> Forall (layer_ok fmt) bases -> 0 <= i -> i + Z.of_nat n = count l ->
  exists b, any_duplicate n l bases i = Some b /\
    (b = false -> forall j id base, i <= j < count l -> layer_id l j = Some id -> base ∈ bases -> ~ has_id base id).
Proof.
  intros Hl Hall. revert i. induction n as [|n IH]; intros i Hi Hn; cbn [any_duplicate]; [exists false; split; [done|]; intros; lia|].
  destruct (layer_id_at Hl i) as (id & Hid & Hok & _); [lia|]. rewrite Hid. cbn [mbind option_bind].
  destruct (any_find_spec fmt bases id Hall Hok) as (b & -> & Hb). cbn [mbind option_bind]. destruct b; [by exists true|].
  destruct (IH (i + 1)) as (b & -> & Hb'); [lia..|]. exists b. split; [done|]. intros Hf j id' base Hj Hlid Hin.
  destruct (decide (j = i)) as [-> |]; [|apply (Hb' Hf j id' base); [lia|done..]]. rewrite Hid in Hlid. injection Hlid as <-. by apply Hb.
Qed.

(** A chain extended by a layer. *)
Lemma chain_snoc fmt ls l : chain_ok fmt ls -> layer_ok fmt l -> start l = commits_of ls ->
  (forall j id base, 0 <= j < count l -> layer_id l j = Some id -> base ∈ ls -> ~ has_id base id) -> chain_ok fmt (ls ++ [l]).
Proof.
  intros Hch Hl Hs Hdup. constructor.
  - apply Forall_app. split; [apply Hch|by constructor].
  - intros k x [[Hlt Hk]|[-> <-]]%lookup_snoc_Some.
    + rewrite take_app_le by lia. by apply (ch_starts _ _ Hch).
    + by rewrite take_app_length.
  - intros k k' x x' i i' id [[_ Hk]|[-> <-]]%lookup_snoc_Some [[_ Hk']|[-> <-]]%lookup_snoc_Some Hi Hi' Hid Hid'; [by eapply (ch_unique _ _ Hch)|exfalso..|done].
    + eapply (Hdup i' id x); [done|done|by eapply list_elem_of_lookup_2|by exists i].
    + eapply (Hdup i id x'); [done|done|by eapply list_elem_of_lookup_2|by exists i'].
Qed.

Lemma chain_nil fmt : chain_ok fmt [].
Proof. constructor; [constructor|done..]. Qed.

(** ** Parsing the layers *)

Definition file_ok (fmt : ObjectFormat) (bs : bytes) : Prop := bytes_ok bs /\ 8 + digest_len fmt <= zlen bs.

(** The parents a layer lists, and a chain. *)
Definition parents_in (ls : list (Layer bytes)) : list Z := concat (parents_cell <$> cells ls).

Lemma parents_in_app a b : parents_in (a ++ b) = parents_in a ++ parents_in b.
Proof. unfold parents_in. by rewrite cells_app, fmap_app, concat_app. Qed.

Lemma parents_in_one l : parents_in [l] = layer_parents l.
Proof.
  unfold parents_in, cells, layer_parents. cbn [fmap list_fmap concat]. rewrite app_nil_r. rewrite <- list_fmap_compose. done.
Qed.

Lemma checksum_total fmt l : layer_ok fmt l -> exists hash, layer_checksum l = Some hash.
Proof.
  intros Hl. destruct (lk_trailer _ _ Hl) as [_ Hlen]. pose proof (width_pos l). unfold layer_checksum.
  destruct (slice_is_Some (zlen (bytes_ l) - width l) (zlen (bytes_ l)) (bytes_ l)) as [m Hm]; [lia..|]. rewrite Hm. cbn [mbind option_bind].
  apply slice_zlen in Hm. assert (from_bytes (format l) m = Ok (make_id (format l) m)) as ->; [|by eexists].
  apply Trees.from_bytes_Ok. split; [done|]. unfold width in *. lia.
Qed.

Lemma parse_layers_spec files fmt limits ls hashes commits parents_left :
  Forall (file_ok fmt) files -> max_commits limits <= usize_max -> chain_ok fmt ls -> commits = commits_of ls -> commits <= max_commits limits ->
  0 <= parents_left -> parents_left = max_parents limits - zlen (parents_in ls) ->
  returns (parse_layers files fmt limits ls hashes commits parents_left) (fun all =>
    chain_ok fmt all /\ map bytes_ all = map bytes_ ls ++ files /\ commits_of all <= max_commits limits /\
    zlen (parents_in all) <= max_parents limits).
Proof.
  intros Hf Hmax. revert ls hashes commits parents_left. induction Hf as [|bs files [Hb Hlen] _ IH]; intros ls hashes commits parents_left Hch -> Hc Hp Hpe; cbn [parse_layers].
  { cbn. rewrite app_nil_r. split_and!; try done. lia. }
  pose proof (commits_nonneg fmt ls (ch_layers _ _ Hch)). rewrite checked_sub_le by lia. eapply returns_some; [done|].
  eapply graph_returns_bind; [apply layer_parse_spec; cbn; done || lia|].
  intros [l rest] _ (Hl & Hs & Hbs & Hcnt & Hrest & Hrest0 & _). cbn [max_commits] in Hcnt. destruct (lk_records _ _ Hl) as (_ & _ & Hc0 & _).
  destruct (any_duplicate_spec fmt (Z.to_nat (count l)) l ls 0 Hl (ch_layers _ _ Hch)) as (b & -> & Hdup); [lia..|]. eapply returns_some; [done|].
  destruct b; [done|]. rewrite checked_add_le by lia. eapply returns_some; [done|].
  destruct (checksum_total fmt l Hl) as [hash Hhash]. eapply returns_some; [done|].
  eapply graph_returns_weaken; [apply IH|].
  - apply chain_snoc; try done. intros j id base Hj. by apply Hdup.
  - rewrite commits_of_app. cbn. lia.
  - lia.
  - done.
  - rewrite parents_in_app, parents_in_one, zlen_app. lia.
  - intros all (Hall & Hbytes & Hmaxc & Hmaxp). split_and!; try done. rewrite Hbytes, map_app, <- app_assoc. cbn [map app]. by rewrite Hbs.
Qed.

(** ** Well-formed graphs *)

(** A graph within its limits: a checked chain, and a history index that orders it or a
    reason why there is none. *)
Record graph_ok (fmt : ObjectFormat) (limits : GraphLimits) (g : Graph) : Prop := {
  gk_format : g_format g = fmt;
  gk_chain : chain_ok fmt (layers g);
  gk_commits : len g <= max_commits limits;
  gk_parents : zlen (parents_in (layers g)) <= max_parents limits;
  gk_history : match history g with
    | Ok h => index_ok (ls := layers g) h
    | Err reason => reason = "parent count" \/
        reason = "cyclic indexed ancestry" /\ exists p, tc (edge (len g) (parents_at (ls := layers g))) p p
    end
}.

Lemma graph_ok_intro fmt limits ls prepared : chain_ok fmt ls -> commits_of ls <= max_commits limits -> zlen (parents_in ls) <= max_parents limits ->
  match prepared with
  | Ok h => index_ok (ls := ls) h
  | Err reason => reason = "parent count" \/ reason = "cyclic indexed ancestry" /\ exists p, tc (edge (commits_of ls) (parents_at (ls := ls))) p p
  end -> graph_ok fmt limits {| layers := ls; g_format := fmt; history := prepared |}.
Proof. intros Hch Hc Hp Hh. constructor; rewrite ?(len_total Hch) by done; done. Qed.

Lemma attach_detach ls : zip_with attach (map detach ls) (map bytes_ ls) = ls.
Proof. induction ls as [|[] ls IH]; [done|]. cbn. by rewrite IH. Qed.

Lemma headers_ok files fmt limits : Forall bytes_ok files ->
  returns (try_each (fun bs => header bs fmt limits) files) (fun _ => Forall (file_ok fmt) files).
Proof.
  induction 1 as [|bs files Hb _ IH]; [constructor|]. cbn [try_each]. eapply graph_returns_bind; [apply header_returns|]. intros [] _ Hh. cbv beta in Hh.
  eapply graph_returns_weaken; [exact IH|]. intros [] Hall. constructor; [|done]. split; [done|]. lia.
Qed.

Lemma check_structure_spec files fmt limits : Forall (file_ok fmt) files -> 0 <= max_commits limits <= usize_max -> 0 <= max_parents limits ->
  returns (check_structure files fmt limits) (fun '(layouts, prepared) =>
    graph_ok fmt limits {| layers := zip_with attach layouts files; g_format := fmt; history := prepared |}).
Proof.
  intros Hf Hc Hp. unfold check_structure. eapply graph_returns_bind.
  { apply parse_layers_spec; try done; try apply chain_nil; cbn; try lia. change (zlen (@nil Z)) with 0. lia. }
  intros ls _ (Hch & Hbytes & Hmc & Hmp). cbn [map app] in Hbytes. subst files. pose proof (prepare_spec Hch) as Hprep.
  destruct (prepare ls) as [h|[reason| |]]; cbn [rbind returns]; [| |by destruct Hprep..]; rewrite attach_detach; by apply graph_ok_intro.
Qed.

Section Hashing.
Context (sha1 sha256 : bytes -> bytes).
Notation parse_files := (parse_files sha1 sha256).

Lemma checksums_returns files fmt : returns (try_each (fun bs => check_checksum sha1 sha256 bs fmt) files) (fun _ => True).
Proof.
  induction files as [|bs files IH]; [done|]. cbn [try_each]. eapply (graph_returns_bind _ _ (fun _ => True)); [|done].
  unfold check_checksum. eapply returns_checked; [done|]. intros stop _. by destruct (negb _).
Qed.

Lemma parse_files_returns spawned files fmt limits sum :
  Forall bytes_ok files -> 0 <= max_commits limits <= usize_max -> 0 <= max_parents limits ->
  returns (parse_files spawned files fmt limits sum) (graph_ok fmt limits) /\
  parse_files spawned files fmt limits sum = parse_files false files fmt limits sum.
Proof.
  intros Hb Hc Hp. unfold CommitGraph.parse_files. pose proof (headers_ok files fmt limits Hb) as Hh.
  destruct (try_each (fun bs => header bs fmt limits) files) as [[]|e]; cbn [rbind]; [|by split]. cbn [returns] in Hh.
  pose proof (check_structure_spec files fmt limits Hh Hc Hp) as Hs. set (checksums := match sum with Verify => try_each (fun bs => check_checksum sha1 sha256 bs fmt) files | Skip => Ok tt end).
  assert (returns checksums (fun _ => True)) as Hsum by (unfold checksums; destruct sum; [apply checksums_returns|done]).
  set (hashing := _ && spawned). rewrite andb_false_r.
  assert ((if hashing then match check_structure files fmt limits with Err Panic => Err Panic | structure => let? _ := checksums in structure end
           else let? _ := checksums in check_structure files fmt limits) = (let? _ := checksums in check_structure files fmt limits)) as ->.
  { destruct hashing; [|done]. destruct (check_structure files fmt limits) as [|[]]; try done. by destruct Hs. }
  split; [|done]. destruct checksums as [[]|e]; cbn [rbind]; [|done]. destruct (check_structure files fmt limits) as [[layouts prepared]|e]; cbn [rbind]; done.
Qed.
End Hashing.

(** ** Records *)

Section Graph.
Context {fmt : ObjectFormat} {limits : GraphLimits} {g : Graph} (Hg : graph_ok fmt limits g).
Notation total := (commits_of (layers g)).
Notation parents_at := (parents_at (ls := layers g)).

Lemma graph_len : len g = total.
Proof using Hg. by apply (len_total (gk_chain _ _ _ Hg)). Qed.

Lemma parents_at_range p q : 0 <= p < total -> q ∈ parents_at p -> 0 <= q < total.
Proof using Hg.
  intros Hp. destruct (cell_total (gk_chain _ _ _ Hg) p Hp) as (_ & l & i & _ & _ & _ & _ & Hc).
  destruct (parents_cell_at (gk_chain _ _ _ Hg) p _ Hc) as (_ & Hall & _). unfold GraphChain.parents_at. rewrite Hc. cbn.
  intros Hq. by eapply Forall_forall in Hall.
Qed.

(** Every position has a record: its identity, its parents by position, its level and date. *)
Lemma record_at_total p : 0 <= p < total -> exists c cl, zget p (cells (layers g)) = Some cl /\ record g p = Some c /\
  id_at g p = Some (History.gc_id c) /\ Forall2 (fun q i => id_at g q = Some i) (parents_at p) (History.gc_parents c) /\
  History.gc_generation c = level_of cl /\ layer_corrected_date cl.1 cl.2 = Some (History.gc_corrected_commit_date c).
Proof using Hg.
  intros Hp. pose proof (gk_chain _ _ _ Hg) as Hch. destruct (cell_total Hch p Hp) as (k & l & i & Hk & Hl & Hi & _ & Hc).
  pose proof (layer_at_cell Hch g p l i eq_refl Hc) as Hat. unfold record. rewrite Hat. cbn [mbind option_bind].
  assert (id_at g p = layer_id l i) as -> by (unfold id_at; by rewrite Hat).
  destruct (parents_cell_at Hch p _ Hc) as (Hm & Hall & _). cbn [fst snd] in Hm.
  assert (parents_at p = parents_cell (l, i)) as Hpa by (unfold GraphChain.parents_at; by rewrite Hc).
  destruct (layer_id_at Hl i Hi) as (id & Hid & _). destruct (record_at l i (lk_records _ _ Hl) Hi) as (r & Hr & _ & Hrl).
  destruct (high_low_at l i (lk_records _ _ Hl) Hi) as (high & low & Ht & Hlev & _). destruct (lk_dates _ _ Hl i Hi) as (d & Hd & _).
  pose proof (width_pos l).
  assert (exists tree, to_option (CommitGraph.id (format l) (take (Z.to_nat (width l)) r)) = Some tree) as [tree Htree].
  { unfold CommitGraph.id. assert (from_bytes (format l) (take (Z.to_nat (width l)) r) = Ok (make_id (format l) (take (Z.to_nat (width l)) r))) as ->; [|by eexists].
    apply Trees.from_bytes_Ok. split; [done|]. rewrite zlen_take. unfold width in *. lia. }
  assert (is_Some (mapM (id_at g) (parents_cell (l, i)))) as [ps Hps].
  { apply mapM_is_Some. eapply Forall_impl; [exact Hall|]. intros q Hq. cbn. destruct (id_at_total Hch g q eq_refl Hq) as (iq & -> & _). by eexists. }
  unfold decode. rewrite Hm. cbn [mbind option_bind]. rewrite Hid. cbn [mbind option_bind]. rewrite Hr. cbn [mbind option_bind]. rewrite Htree. cbn [mbind option_bind].
  rewrite Hps. cbn [mbind option_bind]. rewrite Ht. cbn [mbind option_bind]. rewrite Hlev. cbn [mbind option_bind]. rewrite Hd. cbn [mbind option_bind].
  eexists _, (l, i). split; [done|]. split; [done|]. cbn. split_and!; try done; [rewrite Hpa; by apply mapM_Some|unfold level_of; cbn; by rewrite Hlev].
Qed.

(** [CommitGraph::get]: exact, and never a panic. *)
Lemma get_exact id : id_ok id -> exists r, get g id = Some r /\
  match r with
  | Some c => exists p, 0 <= p < total /\ record g p = Some c /\ id_at g p = Some id /\ History.gc_id c = id
  | None => forall p, 0 <= p < total -> id_at g p <> Some id
  end.
Proof using Hg.
  intros Hid. pose proof (gk_chain _ _ _ Hg) as Hch. destruct (locate_exact Hch g id eq_refl Hid) as (r & Hr & Hex). unfold get. rewrite Hr. cbn [mbind option_bind].
  destruct r as [p|].
  - destruct (proj1 (Hex p) eq_refl) as [Hp Hpid]. destruct (record_at_total p Hp) as (c & cl & _ & Hc & Hcid & _). rewrite Hc. cbn [mbind option_bind].
    eexists. split; [done|]. exists p. rewrite Hpid in Hcid. injection Hcid as ->. done.
  - exists None. split; [done|]. intros p Hp Hpid. by assert (None = Some p) by by apply Hex.
Qed.

(** ** Changed-path filters never panic *)

Lemma filter_bits_total n bits first second i : bits <> [] -> exists b, filter_bits n bits first second i = Some b.
Proof using.
  intros Hb. revert i. induction n as [|n IH]; intros i; [by eexists|]. cbn [filter_bits].
  assert (0 < zlen bits) by (destruct bits; [done|unfold zlen; cbn; lia]).
  set (hash := wrap32 _). pose proof (Z.mod_pos_bound hash (zlen bits * 8)).
  destruct (zget_is_Some (hash mod (zlen bits * 8) / 8) bits) as [b ->]; [split; [apply Z.div_pos; lia|apply Z.div_lt_upper_bound; lia]|].
  cbn [mbind option_bind]. destruct (_ =? 0); [by eexists|apply IH].
Qed.

Lemma bloom_filter_total b bs i : is_Some (slice (b_offsets b).1 (b_offsets b).2 bs) -> is_Some (slice (b_data b).1 (b_data b).2 bs) ->
  exists r, bloom_filter b bs i = Some r /\ forall f, r = Some f -> f_bits f <> [].
Proof using.
  intros [offs Hoffs] [dat Hdat]. unfold bloom_filter. rewrite Hoffs. cbn [mbind option_bind].
  destruct (if i =? 0 then Some 0 else to_option (word offs ((i - 1) * 4))) as [a|]; [|by exists None].
  destruct (to_option (word offs (i * 4))) as [z|]; [|by exists None]. rewrite Hdat. cbn [mbind option_bind].
  destruct (slice a z dat) as [bits|]; [|by exists None]. destruct (bytes_eqb bits []) eqn:E; [by exists None|].
  eexists. split; [done|]. intros f [= <-]. cbn. intros ->. done.
Qed.

Lemma might_change_path_total id path : id_ok id -> exists answer, might_change_path g id path = Some answer.
Proof using Hg.
  intros Hid. unfold might_change_path. destruct (_ || _); [by eexists|]. pose proof (gk_chain _ _ _ Hg) as Hch.
  destruct (locate_exact Hch g id eq_refl Hid) as (r & -> & Hex). cbn [mbind option_bind]. destruct r as [p|]; [|by eexists].
  destruct (proj1 (Hex p) eq_refl) as [Hp _]. destruct (cell_total Hch p Hp) as (k & l & i & _ & Hl & Hi & _ & Hc).
  rewrite (layer_at_cell Hch g p l i eq_refl Hc). cbn [mbind option_bind]. unfold layer_bloom. destruct (bloom l) as [b|] eqn:Eb; cbn [mbind option_bind]; [|by eexists].
  destruct (lk_bloom _ _ Hl b Eb) as [Hoffs Hdat]. destruct (bloom_filter_total b (bytes_ l) i Hoffs Hdat) as (f & -> & Hf). cbn [mbind option_bind].
  destruct f as [f|]; [|by eexists]. specialize (Hf f eq_refl). unfold filter_answer.
  destruct (_ && _); [by eexists|]. destruct (bytes_eqb _ [0]); [by eexists|]. destruct (bytes_eqb _ [255]); [by eexists|].
  destruct (filter_bits_total (Z.to_nat (f_hashes f)) (f_bits f) (murmur3 path 0x293ae76f) (murmur3 path 0x7e646e2c) 0 Hf) as [ans ->]. by eexists.
Qed.
End Graph.

(** ** The interface of ancestry queries *)

(** An identity has the width of its format; values of [ObjectId] always do in the code. *)
Definition well_formed (id : ObjectId) : bool :=
  (zlen (id_bytes id) =? digest_len (id_format id)) && forallb (fun b => (0 <=? b) && (b <? 256)) (id_bytes id).

Lemma well_formed_ok id : well_formed id = true <-> id_ok id.
Proof.
  unfold well_formed, id_ok. rewrite andb_true_iff, Z.eqb_eq, forallb_forall. unfold bytes_ok. rewrite Forall_forall. unfold byte_ok.
  split; intros [H1 H2].
  - split; [|done]. intros x Hx%list_elem_of_In%H2. apply andb_true_iff in Hx as [?%Z.leb_le ?%Z.ltb_lt]. lia.
  - split; [done|]. intros x Hx%list_elem_of_In%H1. apply andb_true_iff. split; [apply Z.leb_le|apply Z.ltb_lt]; lia.
Qed.

Definition found {A} (id : ObjectId) (r : option (option A)) : option A := if well_formed id then default None r else None.

#[export] Instance graph_index : History.CommitIndex Graph := {
  g_get g id := found id (get g id);
  g_generation g id := found id (generation g id);
  g_position g id := found id (position g id);
  g_positions := positions;
  g_id_at := id_at;
  g_generation_at := generation_at;
  g_parent_positions := parent_positions
}.

(** A parsed graph with no more commits than positions of 32 bits. *)
Definition accepted (g : Graph) : Prop := exists fmt limits, graph_ok fmt limits g /\ max_commits limits <= 2 ^ 32.

Lemma position_iff g id : accepted g -> forall p, History.g_position g id = Some p <->
  id_ok id /\ is_Some (ordered g) /\ 0 <= p < len g /\ id_at g p = Some id.
Proof.
  intros (fmt & limits & Hg & Hmax) p. cbn. unfold found. pose proof (gk_chain _ _ _ Hg) as Hch. destruct (well_formed id) eqn:Ew.
  2:{ split; [done|]. intros (Hid%well_formed_ok & _). congruence. }
  apply well_formed_ok in Ew. unfold position. destruct (ordered g) as [h|]; [|split; [done|by intros (_ & [? ?] & _)]].
  destruct (locate_exact Hch g id eq_refl Ew) as (r & -> & Hex). cbn [mbind option_bind from_option]. rewrite (graph_len Hg). pose proof (gk_commits _ _ _ Hg) as Hc.
  rewrite (graph_len Hg) in Hc. split.
  - intros (q & -> & Hq)%bind_Some. destruct (Z.leb_spec q u32_max); [|done]. injection Hq as ->. split; [done|]. split; [done|]. by apply Hex.
  - intros (_ & _ & H). apply Hex in H as ->. cbn. destruct (Z.leb_spec p u32_max); [done|].
    destruct (proj1 (Hex p) eq_refl) as [? _]. unfold u32_max in *. lia.
Qed.

Lemma ordered_index fmt limits g h : graph_ok fmt limits g -> ordered g = Some h ->
  zlen (generations h) = len g /\ (forall p, 0 <= p < len g -> parents_of (parent_starts h) (parents h) p = Some (parents_at (ls := layers g) p)) /\
  (forall p q, 0 <= p < len g -> q ∈ parents_at (ls := layers g) p -> goes_down (generations h) p q).
Proof.
  intros Hg. unfold ordered. pose proof (gk_history _ _ _ Hg) as Hh. destruct (history g) as [h'|]; [|done]. intros Ho.
  assert (order h' <> Unavailable /\ h' = h) as [Hne ->] by (destruct (order h'); naive_solver).
  destruct Hh as [_ Hh]. destruct (Hh Hne) as (H1 & H2 & H3 & _). rewrite (graph_len Hg). done.
Qed.

Lemma generation_found g id n : accepted g -> History.g_generation g id = Some n ->
  exists p, History.g_position g id = Some p /\ History.g_generation_at g p = Some n.
Proof.
  intros Hg. cbn. unfold found at 1. destruct (well_formed id) eqn:Ew; [|done]. apply well_formed_ok in Ew. unfold generation, generation_at.
  destruct (ordered g) as [h|] eqn:Ho; [|done]. pose proof Hg as (fmt & limits & Hgk & _).
  destruct (locate_exact (gk_chain _ _ _ Hgk) g id eq_refl Ew) as (r & -> & Hex). cbn [mbind option_bind].
  destruct r as [p|]; [|done]. destruct (zget p (generations h)) as [m|] eqn:Em; [|done]. intros [= <-]. exists p. split; [|done].
  apply (position_iff g id Hg). rewrite Ho, (graph_len Hgk). split; [done|]. split; [by eexists|by apply Hex].
Qed.

#[export] Instance graph_laws : History.CommitIndexLaws Graph accepted.
Proof.
  constructor.
  - intros g id p Hg (_ & _ & ? & ?)%(position_iff g id Hg). done.
  - intros g p q id Hg Hp (_ & _ & Hq & Hqid)%(position_iff g id Hg) Hpid. destruct Hg as (fmt & limits & Hg & _). cbn in *. unfold positions in Hp. rewrite (graph_len Hg) in *.
    by eapply (id_at_inj (gk_chain _ _ _ Hg) g).
  - intros g id n Hg Hn. destruct (generation_found g id n Hg Hn) as (p & Hp & Hat). by exists p.
  - intros g id p Hg (Hid & [h Ho] & Hp & Hpid)%(position_iff g id Hg). destruct Hg as (fmt & limits & Hg & _).
    destruct (ordered_index _ _ _ _ Hg Ho) as (Hlen & _). cbn. unfold found, generation. rewrite (proj2 (well_formed_ok id) Hid), Ho.
    destruct (locate_exact (gk_chain _ _ _ Hg) g id eq_refl Hid) as (r & -> & Hex). cbn [mbind option_bind]. rewrite (graph_len Hg) in *.
    rewrite (proj2 (Hex p)) by done. destruct (zget_is_Some p (generations h)) as [n Hn]; [lia|]. rewrite Hn. by exists n.
  - intros g id p Hg Hpos. pose proof Hpos as (Hid & [h Ho] & Hp & Hpid)%(position_iff g id Hg). pose proof Hg as (fmt & limits & Hgk & _).
    destruct (ordered_index _ _ _ _ Hgk Ho) as (_ & Hps & _). exists (parents_at (ls := layers g) p). cbn. unfold parent_positions. rewrite Ho.
    destruct (get_exact Hgk id Hid) as (r & Hr & Hspec). unfold found. rewrite Hr, (proj2 (well_formed_ok id) Hid). cbn [from_option].
    rewrite (graph_len Hgk) in *. destruct r as [c|]; [|by apply Hspec in Hpid]. destruct Hspec as (p' & Hp' & Hrec & Hpid' & Hcid).
    assert (p' = p) as -> by by eapply (id_at_inj (gk_chain _ _ _ Hgk) g). exists c. split_and!; [by apply Hps|done|done|].
    destruct (record_at_total Hgk p Hp) as (c' & _ & _ & Hrec' & _ & Hall & _). rewrite Hrec in Hrec'. injection Hrec' as <-.
    apply Forall2_same_length_lookup. split; [by eapply Forall2_length|]. intros k q i Hq Hi.
    pose proof (Forall2_lookup_lr _ _ _ _ _ _ Hall Hq Hi) as Hqi. cbn in Hqi.
    assert (0 <= q < commits_of (layers g)) as Hqr by (eapply (parents_at_range Hgk); [done|by eapply list_elem_of_lookup_2]).
    apply (position_iff g i Hg). destruct (id_at_total (gk_chain _ _ _ Hgk) g q eq_refl Hqr) as (i' & Hi' & Hok & _). rewrite Hqi in Hi'. injection Hi' as <-.
    rewrite (graph_len Hgk). split; [done|]. split; [by rewrite Ho; eexists|done].
  - intros g p q ps n Hg Hps Hq Hn. destruct Hg as (fmt & limits & Hgk & _). cbn in *. unfold parent_positions, generation_at in *.
    destruct (ordered g) as [h|] eqn:Ho; [|injection Hps as <-; by apply not_elem_of_nil in Hq].
    destruct (ordered_index _ _ _ _ Hgk Ho) as (Hlen & Hall & Hdown). pose proof (zget_lt _ _ _ Hn) as Hp. rewrite Hlen in Hp.
    rewrite (Hall p Hp) in Hps. injection Hps as <-. destruct (Hdown p q Hp Hq) as (a & b & Ha & Hb & Hab). exists a. split; [done|]. rewrite Hn in Hb. injection Hb as ->. lia.
Qed.

(** ** Claims *)

(** C12: Reading a commit graph is safe and complete. For any bytes, limits within the
    machine word and either verdict on the checksum, [parse_files] never panics and never
    runs out of its bounds; a graph it accepts is well formed: the tables of every layer
    are in range, identities ascend within a layer and are distinct across layers,
    positions count the records of the layers below, every parent is the position of a
    record, every corrected date exists, and the commits and the parent occurrences are
    within the limits. Hashing on a second thread never changes the result. *)
Theorem parse_files_sound sha1 sha256 spawned files fmt limits sum :
  Forall bytes_ok files -> 0 <= max_commits limits <= usize_max -> 0 <= max_parents limits ->
  match parse_files sha1 sha256 spawned files fmt limits sum with
  | Ok g => graph_ok fmt limits g
  | Err e => e <> Panic /\ e <> OutOfFuel
  end /\
  parse_files sha1 sha256 spawned files fmt limits sum = parse_files sha1 sha256 (negb spawned) files fmt limits sum.
Proof.
  intros Hb Hc Hp. split; [apply (parse_files_returns sha1 sha256 spawned files fmt limits sum Hb Hc Hp)|].
  destruct (parse_files_returns sha1 sha256 spawned files fmt limits sum Hb Hc Hp) as [_ ->].
  by destruct (parse_files_returns sha1 sha256 (negb spawned) files fmt limits sum Hb Hc Hp) as [_ ->].
Qed.

(** Lookups in an accepted graph are exact. [get] finds a commit exactly when one of
    the records has its identity, and returns that record, whose parents are the
    identities at the parent positions; no lookup panics, the changed-path filter
    included. *)
Theorem get_correct sha1 sha256 spawned files fmt limits sum g id path :
  Forall bytes_ok files -> 0 <= max_commits limits <= usize_max -> 0 <= max_parents limits ->
  parse_files sha1 sha256 spawned files fmt limits sum = Ok g -> id_ok id ->
  match get g id with
  | Some (Some c) => exists p, 0 <= p < len g /\ id_at g p = Some id /\ record g p = Some c /\ History.gc_id c = id /\
      Forall2 (fun q i => id_at g q = Some i /\ 0 <= q < len g) (parents_at (ls := layers g) p) (History.gc_parents c) /\
      forall p', 0 <= p' < len g -> id_at g p' = Some id -> p' = p
  | Some None => forall p, 0 <= p < len g -> exists i, id_at g p = Some i /\ i <> id
  | None => False
  end /\ might_change_path g id path <> None.
Proof.
  intros Hb Hc Hp Hparse Hid. destruct (parse_files_returns sha1 sha256 spawned files fmt limits sum Hb Hc Hp) as [Hg _].
  rewrite Hparse in Hg. cbn [returns] in Hg. rewrite (graph_len Hg). destruct (might_change_path_total Hg id path Hid) as [ans ->]. split; [|done].
  destruct (get_exact Hg id Hid) as (r & -> & Hr). destruct r as [c|].
  - destruct Hr as (p & Hpr & Hrec & Hpid & Hcid). exists p. split_and!; try done; try lia.
    + destruct (record_at_total Hg p Hpr) as (c' & _ & _ & Hrec' & _ & Hall & _). rewrite Hrec in Hrec'. injection Hrec' as <-.
      apply Forall2_same_length_lookup. split; [by eapply Forall2_length|]. intros k q i Hq Hi. split; [exact (Forall2_lookup_lr _ _ _ _ _ _ Hall Hq Hi)|].
      eapply (parents_at_range Hg); [done|by eapply list_elem_of_lookup_2].
    + intros p' Hp' Hid'. by eapply (id_at_inj (gk_chain _ _ _ Hg) g).
  - intros p Hpr. destruct (id_at_total (gk_chain _ _ _ Hg) g p eq_refl Hpr) as (i & Hi & _). exists i. split; [done|]. intros ->. by eapply Hr.
Qed.

(** A graph can be attached exactly when its ancestry has an order. When
    [attach_commit_graph] succeeds no record is its own ancestor, through generations that
    decrease along every edge or through the search for cycles; when it refuses a graph of
    the right format, some record is its own ancestor or the parents overflow the table. *)
Theorem attach_correct sha1 sha256 spawned files fmt limits sum g (o : History.Objects_ Graph) :
  Forall bytes_ok files -> 0 <= max_commits limits <= usize_max -> 0 <= max_parents limits ->
  parse_files sha1 sha256 spawned files fmt limits sum = Ok g -> History.o_format o = fmt ->
  match attach_commit_graph o g with
  | Ok o' => History.o_graph o' = Some g /\ forall p, ~ tc (edge (len g) (parents_at (ls := layers g))) p p
  | Err e => (exists p, tc (edge (len g) (parents_at (ls := layers g))) p p) \/ e = bad "parent count"
  end.
Proof.
  intros Hb Hc Hp Hparse Ho. destruct (parse_files_returns sha1 sha256 spawned files fmt limits sum Hb Hc Hp) as [Hg _].
  rewrite Hparse in Hg. cbn [returns] in Hg. unfold attach_commit_graph. rewrite (gk_format _ _ _ Hg), Ho, bool_decide_true by done. cbn [negb].
  pose proof (gk_history _ _ _ Hg) as Hh. destruct (history g) as [h|reason].
  - cbn. split; [done|]. intros p Hcyc. destruct Hh as [Hf _]. rewrite (graph_len Hg) in Hcyc. pose proof Hcyc as Hc2. apply tc_rtc in Hcyc.
    assert (0 <= p < commits_of (layers g)) as Hpr by (inversion Hc2 as [? ? [? _]|? ? ? [? _]]; done).
    by apply (founded_acyclic _ _ p (Hf p Hpr)).
  - destruct Hh as [-> |[-> Hcyc]]; [by right|by left].
Qed.

(** C13: Ancestry queries over an attached commit graph are exact. With a graph read from
    any bytes and attached, [is_ancestor_with] and [walk_range_with] answer as the
    parent relation of the repository does, although they follow the graph's positions and
    stop early by its generations; they fail only for a cycle, a limit or an unreadable
    commit. *)
Theorem graph_queries_correct sha1 sha256 spawned files fmt limits sum g (o o' : History.Objects_ Graph) hlimits a d include exclude :
  Forall bytes_ok files -> 0 <= max_commits limits <= 2 ^ 32 -> 0 <= max_parents limits -> 0 <= History.max_commits hlimits ->
  parse_files sha1 sha256 spawned files fmt limits sum = Ok g -> attach_commit_graph o g = Ok o' ->
  match History.is_ancestor_with o' a d hlimits with
  | Ok b => b = true <-> HistoryCorrect.ancestor o' a d
  | Err e => HistoryQueries.refused o' hlimits [d; a] e
  end /\
  match History.walk_range_with o' include exclude hlimits with
  | Ok l => HistoryQueries.difference o' l include exclude
  | Err e => HistoryQueries.refused o' hlimits (include ++ exclude) e
  end.
Proof.
  intros Hb Hc Hp Hh Hparse Hatt. destruct (parse_files_returns sha1 sha256 spawned files fmt limits sum Hb) as [Hg _]; [unfold usize_max; lia|done|].
  rewrite Hparse in Hg. cbn [returns] in Hg.
  assert (forall g', History.o_graph o' = Some g' -> accepted g') as Hok.
  { intros g'. unfold attach_commit_graph in Hatt. destruct (negb _); [done|]. destruct (history g); [|done]. injection Hatt as <-. cbn. intros [= <-].
    exists fmt, limits. split; [done|lia]. }
  split.
  - pose proof (HistoryCorrect.is_ancestor_ok o' hlimits Hh accepted a d Hok) as HA. unfold HistoryCorrect.ancestor_answer in HA.
    destruct (History.is_ancestor_with o' a d hlimits) as [b|e]; [done|]. by destruct e.
  - by apply (HistoryQueries.walk_range_ok o' hlimits Hh accepted Hok).
Qed.

(** ** A small graph: a commit and its parent *)

Definition sample_sum (_ : bytes) : bytes := replicate 20 7.
Definition sample_id (n : Z) : ObjectId := Sha1 (replicate 20 n).
Definition sample_record (parent generation time : Z) : bytes :=
  replicate 20 9 ++ be_encode 4 parent ++ be_encode 4 NO_PARENT ++ be_encode 4 (generation * 4) ++ be_encode 4 time.
Definition sample_file (first second : Z) : bytes :=
  bstr "CGPH" ++ [1; 1; 3; 0] ++ OIDF ++ be_encode 8 56 ++ OIDL ++ be_encode 8 1080 ++ CDAT ++ be_encode 8 1120 ++ [0; 0; 0; 0] ++ be_encode 8 1192 ++
  be_encode 4 0 ++ be_encode 4 1 ++ concat (replicate 254 (be_encode 4 2)) ++
  replicate 20 1 ++ replicate 20 2 ++ sample_record first 1 10 ++ sample_record second 2 11 ++ replicate 20 7.
Definition no_graph : Graph := {| layers := []; g_format := FSha1; history := Err "none" |}.
Definition parse_sample (bs : bytes) : Graph := default no_graph (to_option (parse_files sample_sum sample_sum false [bs] FSha1 default_limits Verify)).
Definition sample_objects : History.Objects_ Graph :=
  {| History.o_format := FSha1; History.o_read _ := Ok None; History.o_graft _ := None; History.o_shallow _ := false; History.o_graph := None |}.

Lemma sample_files_ok first second : Forall bytes_ok [sample_file first second].
Proof.
  constructor; [|constructor]. unfold sample_file, sample_record.
  repeat first [apply bytes_ok_be_encode | apply bytes_ok_bstr | apply Forall_replicate; unfold byte_ok; lia
    | apply Forall_concat, Forall_replicate, bytes_ok_be_encode | apply bytes_ok_app; split | by repeat constructor].
Qed.

(** The graph of the sample, as parsing returns it. *)
Lemma sample_parsed first second :
  is_ok (parse_files sample_sum sample_sum false [sample_file first second] FSha1 default_limits Verify) = true ->
  parse_files sample_sum sample_sum false [sample_file first second] FSha1 default_limits Verify = Ok (parse_sample (sample_file first second)).
Proof. unfold parse_sample. by destruct (parse_files _ _ _ _ _ _ _). Qed.

Lemma parse_files_sound_witness : graph_ok FSha1 default_limits (parse_sample (sample_file NO_PARENT 0)).
Proof.
  pose proof (parse_files_sound sample_sum sample_sum false [sample_file NO_PARENT 0] FSha1 default_limits Verify (sample_files_ok NO_PARENT 0)
    ltac:(by vm_compute) ltac:(by vm_compute)) as [H _].
  rewrite (sample_parsed NO_PARENT 0 ltac:(vm_compute; reflexivity)) in H. exact H.
Defined.

Lemma graph_sample_id_ok n : 0 <= n < 256 -> id_ok (sample_id n).
Proof. intros. split; [by apply Forall_replicate|done]. Qed.

Lemma get_correct_witness : exists c, get (parse_sample (sample_file NO_PARENT 0)) (sample_id 2) = Some (Some c) /\
  History.gc_parents c = [sample_id 1] /\
  might_change_path (parse_sample (sample_file NO_PARENT 0)) (sample_id 2) (bstr "a/b") <> None.
Proof.
  pose proof (get_correct sample_sum sample_sum false [sample_file NO_PARENT 0] FSha1 default_limits Verify (parse_sample (sample_file NO_PARENT 0))
    (sample_id 2) (bstr "a/b") (sample_files_ok NO_PARENT 0) ltac:(by vm_compute) ltac:(by vm_compute) (sample_parsed NO_PARENT 0 ltac:(vm_compute; reflexivity))
    (graph_sample_id_ok 2 ltac:(lia))) as [_ H].
  eexists. split; [vm_compute; reflexivity|]. split; [reflexivity|exact H].
Defined.

Lemma attach_correct_witness :
  attach_commit_graph sample_objects (parse_sample (sample_file 1 0)) = Err (bad "cyclic indexed ancestry") /\
  exists p, tc (edge (len (parse_sample (sample_file 1 0))) (parents_at (ls := layers (parse_sample (sample_file 1 0))))) p p.
Proof.
  pose proof (attach_correct sample_sum sample_sum false [sample_file 1 0] FSha1 default_limits Verify (parse_sample (sample_file 1 0)) sample_objects
    (sample_files_ok 1 0) ltac:(by vm_compute) ltac:(by vm_compute) (sample_parsed 1 0 ltac:(vm_compute; reflexivity)) eq_refl) as H.
  assert (attach_commit_graph sample_objects (parse_sample (sample_file 1 0)) = Err (bad "cyclic indexed ancestry")) as E by (vm_compute; reflexivity).
  rewrite E in H. split; [exact E|]. destruct H as [H|H]; [exact H|discriminate H].
Defined.

Definition sample_attached : History.Objects_ Graph :=
  default sample_objects (to_option (attach_commit_graph sample_objects (parse_sample (sample_file NO_PARENT 0)))).
Definition sample_limits : History.HistoryLimits := {| History.max_commits := 1000; History.max_parents := 1000 |}.

Lemma graph_queries_correct_witness :
  HistoryCorrect.ancestor sample_attached (sample_id 1) (sample_id 2) /\
  HistoryQueries.difference sample_attached [sample_id 2] [sample_id 2] [sample_id 1].
Proof.
  pose proof (graph_queries_correct sample_sum sample_sum false [sample_file NO_PARENT 0] FSha1 default_limits Verify (parse_sample (sample_file NO_PARENT 0))
    sample_objects sample_attached sample_limits (sample_id 1) (sample_id 2) [sample_id 2] [sample_id 1]
    (sample_files_ok NO_PARENT 0) ltac:(by vm_compute) ltac:(by vm_compute) ltac:(by vm_compute) (sample_parsed NO_PARENT 0 ltac:(vm_compute; reflexivity)) ltac:(by vm_compute)) as [H1 H2].
  assert (History.is_ancestor_with sample_attached (sample_id 1) (sample_id 2) sample_limits = Ok true) as E1 by (vm_compute; reflexivity).
  assert (History.walk_range_with sample_attached [sample_id 2] [sample_id 1] sample_limits = Ok [sample_id 2]) as E2 by (vm_compute; reflexivity).
  rewrite E1 in H1. rewrite E2 in H2. split; [by apply H1|exact H2].
Defined.
End GraphCorrect.
