(* ===== verification/CommitGraphWrite.v ===== *)
(** * Writing commit-graph files ([src/src/commit_graph/write.rs])

    The encoding of a standalone file or of one layer above a chain; discovery of commits
    and their generations are in [CommitGraphBuild.v].  The specialisation without
    cancellation: the polls of the code are then no operations. *)

From stdpp Require Import base list numbers strings sets gmap sorting.
From Stdlib Require Import ZArith Lia.
From S2P Require Import Prelude Objects BTree Identity Commits History CommitGraph.

Module CommitGraphWrite.
Import Objects CommitGraph.

Notation GraphCommit := History.GraphCommit.
Notation gc_id := History.gc_id.
Notation gc_tree := History.gc_tree.
Notation gc_parents := History.gc_parents.
Notation gc_commit_time := History.gc_commit_time.
Notation gc_generation := History.gc_generation.
Notation gc_corrected_commit_date := History.gc_corrected_commit_date.

(** [ReadCommitError] of [src/src/objects/typed.rs]. *)
Inductive ReadCommitError :=
| MissingCommit (id : ObjectId)
| Kind (id : ObjectId) (kind : ObjectKind)
| Parse (e : Identity.CommitError)
| ReadFailed (e : History.ObjectReadError).

(** [GraphWriteError]. *)
Inductive GraphWriteError :=
| Read (id : ObjectId) (source : ReadCommitError)
| Date (id : ObjectId)
| InHistory (e : History.HistoryError)
| InGraph (e : GraphError)
| Shallow.

(** ** Encoding *)

(** The tables that grow with each commit. *)
Record Tables := { t_ids : bytes; t_data : bytes; t_edges : bytes; t_generation : bytes; t_overflow : bytes }.
Definition no_tables : Tables := {| t_ids := []; t_data := []; t_edges := []; t_generation := []; t_overflow := [] |}.

(** One bucket of the fan-out table: [rest] are the commits from [count] on. *)
Fixpoint skip_bucket (rest : list GraphCommit) (bucket count : Z) : result GraphWriteError (list GraphCommit * Z) :=
  match rest with
  | [] => Ok ([], count)
  | c :: more =>
      let? b := ok_or (head (id_bytes (gc_id c))) (InGraph Panic) in
      if b <=? bucket then skip_bucket more bucket (count + 1) else Ok (rest, count)
  end.

Fixpoint encode_fanout (n : nat) (rest : list GraphCommit) (bucket count : Z) (fanout : bytes) : result GraphWriteError bytes :=
  match n with
  | O => Ok fanout
  | S n =>
      let? (rest, count) := skip_bucket rest bucket count in
      encode_fanout n rest (bucket + 1) count (fanout ++ be_encode 4 (wrap32 count))
  end.

(** The parents of a commit as positions. *)
Fixpoint encoded_parents (positions : gmap ObjectId Z) (ps : list ObjectId) : result GraphWriteError (list Z) :=
  match ps with
  | [] => Ok []
  | p :: ps =>
      let? q := ok_or (positions !! p) (InGraph (bad "missing encoded parent")) in
      let? qs := encoded_parents positions ps in
      Ok (q :: qs)
  end.

(** The run of extra edges of a merge of more than two parents; the last one is marked. *)
Fixpoint extra_edges (ps : list Z) (edges : bytes) : bytes :=
  match ps with
  | [] => edges
  | [p] => edges ++ be_encode 4 (Z.lor p EXTRA_EDGES)
  | p :: ps => extra_edges ps (edges ++ be_encode 4 (Z.lor p 0))
  end.

(** The second parent field, and the extra edges after the commit. *)
Definition second_parent (ps : list Z) (edges : bytes) : result GraphWriteError (Z * bytes) :=
  if 2 <? zlen ps then
    let first := zlen edges / 4 in
    let edges := extra_edges (drop 1 ps) edges in
    if u32_max <? first then Err (InGraph (bad "extra edge position")) else Ok (Z.lor first EXTRA_EDGES, edges)
  else Ok (default NO_PARENT (ps !! 1%nat), edges).

(** The entry of the generation table, and the overflow table after the commit. *)
Definition encode_offset (offset : Z) (overflow : bytes) : result GraphWriteError (Z * bytes) :=
  if offset <=? 0x7fffffff then Ok (offset, overflow)
  else
    let position := zlen overflow / 8 in
    if u32_max <? position then Err (InGraph (bad "generation overflow position"))
    else Ok (Z.lor position 0x80000000, overflow ++ be_encode 8 offset).

(** The fields of one commit. *)
Definition encode_commit (positions : gmap ObjectId Z) (c : GraphCommit) (t : Tables) : result GraphWriteError Tables :=
  let? ps := encoded_parents positions (gc_parents c) in
  let? (second, edges) := second_parent ps (t_edges t) in
  if (Z.shiftl 1 34 <=? gc_commit_time c) || (0x3fffffff <? gc_generation c) then Err (InGraph (bad "unrepresentable commit data"))
  else
    let? offset := ok_or (date ← gc_corrected_commit_date c; checked_sub date (gc_commit_time c)) (InGraph (bad "missing corrected date")) in
    let? (encoded, overflow) := encode_offset offset (t_overflow t) in
    Ok {| t_ids := t_ids t ++ id_bytes (gc_id c);
          t_data := t_data t ++ id_bytes (gc_tree c) ++ be_encode 4 (default NO_PARENT (head ps)) ++ be_encode 4 second ++
            be_encode 4 (Z.lor (Z.shiftl (gc_generation c) 2) (Z.shiftr (gc_commit_time c) 32)) ++ be_encode 4 (wrap32 (gc_commit_time c));
          t_edges := edges;
          t_generation := t_generation t ++ be_encode 4 encoded;
          t_overflow := overflow |}.

Fixpoint encode_commits (positions : gmap ObjectId Z) (cs : list GraphCommit) (t : Tables) : result GraphWriteError Tables :=
  match cs with
  | [] => Ok t
  | c :: cs => let? t := encode_commit positions c t in encode_commits positions cs t
  end.

(** The chunks of a file, by tag. *)
Definition file_chunks (fanout : bytes) (t : Tables) (hashes : bytes) : list (bytes * bytes) :=
  let cs := BTree.insert GDA2 (t_generation t) (BTree.insert CDAT (t_data t) (BTree.insert OIDL (t_ids t) (BTree.insert OIDF fanout []))) in
  let cs := if bytes_eqb (t_edges t) [] then cs else BTree.insert EDGE (t_edges t) cs in
  let cs := if bytes_eqb (t_overflow t) [] then cs else BTree.insert GDO2 (t_overflow t) cs in
  if bytes_eqb hashes [] then cs else BTree.insert BASE hashes cs.

Fixpoint total_size (cs : list (bytes * bytes)) (size : Z) : result GraphWriteError Z :=
  match cs with
  | [] => Ok size
  | (_, d) :: cs => let? size := ok_or (checked_add size (zlen d)) (InGraph (Limit "output bytes")) in total_size cs size
  end.

(** The entries of the chunk table, and the offset of its end. *)
Fixpoint chunk_entries (cs : list (bytes * bytes)) (offset : Z) : bytes * Z :=
  match cs with
  | [] => ([], offset)
  | (tag, d) :: cs =>
      let '(entries, stop) := chunk_entries cs (offset + zlen d) in
      (tag ++ be_encode 8 offset ++ entries, stop)
  end.

Section Hashing.
Context (sha1 sha256 : bytes -> bytes).

(** The file around its chunks. *)
Definition render (fmt : ObjectFormat) (cs : list (bytes * bytes)) (bases : Z) : bytes :=
  let table_end := 8 + (zlen cs + 1) * 12 in
  let '(entries, stop) := chunk_entries cs table_end in
  let body := bstr "CGPH" ++ [1; match fmt with FSha1 => 1 | FSha256 => 2 end; wrap8 (zlen cs); wrap8 bases] ++
    entries ++ [0; 0; 0; 0] ++ be_encode 8 stop ++ concat (map snd cs) in
  body ++ id_bytes (checksum sha1 sha256 fmt body).

(** [encode_controlled] without polling, and [encode_records]. *)
Definition encode_records (fmt : ObjectFormat) (cs : list GraphCommit) (positions : gmap ObjectId Z) (hashes : bytes)
  : result GraphWriteError bytes :=
  let? fanout := encode_fanout 256 cs 0 0 [] in
  let? t := encode_commits positions cs no_tables in
  let chunks := file_chunks fanout t hashes in
  let? size := total_size chunks (8 + (zlen chunks + 1) * 12) in
  if max_bytes default_limits <? saturating_add size (digest_len fmt) then Err (InGraph (Limit "output bytes"))
  else Ok (render fmt chunks (zlen hashes / digest_len fmt)).

(** [CommitGraph::encode_incremental]: base positions, then the positions of new commits. *)
Fixpoint insert_ids (fmt : ObjectFormat) (names : list bytes) (positions : gmap ObjectId Z) : result GraphWriteError (gmap ObjectId Z) :=
  match names with
  | [] => Ok positions
  | raw :: names =>
      let? i := map_err InGraph (id fmt raw) in
      insert_ids fmt names (<[i := wrap32 (Z.of_nat (size positions))]> positions)
  end.

Fixpoint base_positions (fmt : ObjectFormat) (files : list bytes) (positions : gmap ObjectId Z) (hashes : bytes)
  : result GraphWriteError (gmap ObjectId Z * bytes) :=
  match files with
  | [] => Ok (positions, hashes)
  | bs :: files =>
      let? c := map_err InGraph (chunks_parse sha1 sha256 bs fmt default_limits) in
      let? names := map_err InGraph (required c OIDL) in
      let? positions := insert_ids fmt (chunks_exact (digest_len fmt) names) positions in
      base_positions fmt files positions (hashes ++ drop (Z.to_nat (zlen bs - digest_len fmt)) bs)
  end.

Definition same_metadata (old new : GraphCommit) : bool :=
  bool_decide (gc_tree old = gc_tree new) && bool_decide (gc_parents old = gc_parents new) &&
  (gc_commit_time old =? gc_commit_time new) && (gc_generation old =? gc_generation new) &&
  match gc_corrected_commit_date old with
  | Some date => bool_decide (Some date = gc_corrected_commit_date new)
  | None => true
  end.

Fixpoint new_commits (base : Graph) (cs : list GraphCommit) (positions : gmap ObjectId Z) (new : list GraphCommit)
  : result GraphWriteError (gmap ObjectId Z * list GraphCommit) :=
  match cs with
  | [] => Ok (positions, new)
  | c :: cs =>
      let? old := ok_or (get base (gc_id c)) (InGraph Panic) in
      match old with
      | Some old =>
          if same_metadata old c then new_commits base cs positions new
          else Err (InGraph (bad "conflicting base commit metadata"))
      | None =>
          let position := Z.of_nat (size positions) in
          if (u32_max <? position) || (0x70000000 <=? position) then Err (InGraph (bad "commit positions"))
          else new_commits base cs (<[gc_id c := position]> positions) (new ++ [c])
      end
  end.

Definition encode_incremental (spawned : bool) (g : Graph) (base_layers : list bytes) : result GraphWriteError bytes :=
  if 255 <? zlen base_layers then Err (InGraph (Limit "base layers"))
  else
    let? base := map_err InGraph (parse_chain sha1 sha256 spawned base_layers (g_format g)) in
    let? (positions, hashes) := base_positions (g_format g) base_layers ∅ [] in
    let? cs := ok_or (commits g) (InGraph Panic) in
    let? (positions, new) := new_commits base cs positions [] in
    encode_records (g_format g) new positions hashes.

(** [CommitGraph::encode]. *)
Definition encode (spawned : bool) (g : Graph) : result GraphWriteError bytes := encode_incremental spawned g [].
End Hashing.
End CommitGraphWrite.
