(* ===== verification/CommitGraphTables.v ===== *)
(** * The tables of a written commit graph

    Where the fields of each commit are in the tables that [encode_records] builds, and
    how the reader decodes them. *)

From stdpp Require Import base list numbers strings sets gmap sorting.
From Stdlib Require Import ZArith Lia.
From S2P Require Import Prelude Objects BTree Trees History CommitGraph.
From S2P Require Import CommitGraphLayer CommitGraphAncestry CommitGraphChain CommitGraphCorrect CommitGraphWrite CommitGraphRoundtrip.

Module GraphTables.
Import Objects CommitGraph GraphLayer GraphChain GraphCorrect CommitGraphWrite GraphRoundtrip.

Lemma word_written bs pos v : 0 <= pos -> pos + 4 <= usize_max -> 0 <= v < 2 ^ 32 -> slice pos (pos + 4) bs = Some (be_encode 4 v) -> word bs pos = Ok v.
Proof. intros. by apply (read_be_written 4). Qed.
Lemma long_written bs pos v : 0 <= pos -> pos + 8 <= usize_max -> 0 <= v < 2 ^ 64 -> slice pos (pos + 8) bs = Some (be_encode 8 v) -> long bs pos = Ok v.
Proof. intros. by apply (read_be_written 8). Qed.

(** ** Runs of extra edges *)

Fixpoint run (ps : list Z) : bytes :=
  match ps with
  | [] => []
  | [p] => be_encode 4 (Z.lor p EXTRA_EDGES)
  | p :: ps => be_encode 4 p ++ run ps
  end.

Lemma extra_edges_run ps edges : extra_edges ps edges = edges ++ run ps.
Proof.
  revert edges. induction ps as [|p [|q ps] IH]; intros edges; [by rewrite app_nil_r|done|].
  change (extra_edges (p :: q :: ps) edges) with (extra_edges (q :: ps) (edges ++ be_encode 4 (Z.lor p 0))). change (run (p :: q :: ps)) with (be_encode 4 p ++ run (q :: ps)). rewrite IH, Z.lor_0_r. by rewrite <- app_assoc.
Qed.

Lemma zlen_run ps : zlen (run ps) = 4 * zlen ps.
Proof.
  induction ps as [|p [|q ps] IH]; [done|done|]. change (run (p :: q :: ps)) with (be_encode 4 p ++ run (q :: ps)).
  rewrite zlen_app, zlen_be_encode, IH, (zlen_cons p). lia.
Qed.

Lemma lor_flag p : 0 <= p < 2 ^ 31 -> Z.lor p EXTRA_EDGES = p + 2 ^ 31.
Proof. intros Hp. change EXTRA_EDGES with (Z.shiftl 1 31). rewrite lor_shiftl by lia. lia. Qed.

Lemma flag_set p : 0 <= p < 2 ^ 31 -> has_flag (Z.lor p EXTRA_EDGES) EXTRA_EDGES = true /\ without_flag (Z.lor p EXTRA_EDGES) EXTRA_EDGES = p /\
  0 <= Z.lor p EXTRA_EDGES < 2 ^ 32.
Proof.
  intros Hp. rewrite has_flag_31, lor_flag by done. assert (0 <= p + 2 ^ 31 < 2 ^ 32) by lia. split_and!; [|rewrite without_flag_31 by done|lia..].
  - rewrite Z.testbit_true by lia. replace ((p + 2 ^ 31) / 2 ^ 31) with 1; [done|]. apply (Z.div_unique _ _ _ p); lia.
  - symmetry. apply (Z.mod_unique _ _ 1); lia.
Qed.

Lemma flag_clear p : 0 <= p < 2 ^ 31 -> has_flag p EXTRA_EDGES = false /\ without_flag p EXTRA_EDGES = p.
Proof.
  intros Hp. rewrite has_flag_31, without_flag_31 by lia. split; [by apply (testbit_high p 31)|by apply Z.mod_small].
Qed.

(** A run that was written is the run that is read. *)
Lemma run_written ps fuel edge_bytes pre post : ps <> [] -> Forall (fun p => 0 <= p < 2 ^ 31) ps -> (length ps <= fuel)%nat ->
  edge_bytes = pre ++ run ps ++ post -> run_into fuel edge_bytes (zlen pre) = Some ps.
Proof.
  intros Hne Hall. revert fuel pre Hne. induction Hall as [|p ps Hp Hall IH]; intros fuel pre Hne Hf Hb; [done|].
  destruct fuel as [|fuel]; [cbn in Hf; lia|]. cbn [run_into]. destruct ps as [|q ps].
  - destruct (flag_set p Hp) as (H1 & H2 & H3). cbn [run] in Hb.
    rewrite (be32_written edge_bytes (zlen pre) (Z.lor p EXTRA_EDGES)); [|done|eapply (slice_at _ pre (be_encode 4 _)); [exact Hb|done]].
    cbn [mbind option_bind]. by rewrite H1, H2.
  - destruct (flag_clear p Hp) as (H1 & H2). change (run (p :: q :: ps)) with (be_encode 4 p ++ run (q :: ps)) in Hb. rewrite <- app_assoc in Hb.
    rewrite (be32_written edge_bytes (zlen pre) p); [|lia|eapply (slice_at _ pre (be_encode 4 _)); [exact Hb|done]].
    cbn [mbind option_bind]. rewrite H1. specialize (IH fuel (pre ++ be_encode 4 p) ltac:(done) ltac:(cbn in *; lia)).
    rewrite zlen_app, zlen_be_encode in IH. change (Z.of_nat 4) with 4 in IH. rewrite IH by (rewrite Hb; by rewrite <- app_assoc). cbn. by rewrite H2.
Qed.

(** ** The fields of a commit in the tables *)

Definition commit_ok (fmt : ObjectFormat) (c : GraphCommit) : Prop :=
  id_ok (gc_id c) /\ id_format (gc_id c) = fmt /\ id_ok (gc_tree c) /\ id_format (gc_tree c) = fmt /\
  0 <= gc_commit_time c /\ 0 <= gc_generation c /\ forall d, gc_corrected_commit_date c = Some d -> d <= u64_max.

Definition second_ok (edge_bytes : bytes) (ps : list Z) (second : Z) : Prop :=
  if 2 <? zlen ps then exists e pre post, edge_bytes = pre ++ run (drop 1 ps) ++ post /\ zlen pre = 4 * e /\ second = Z.lor e EXTRA_EDGES
  else second = default NO_PARENT (ps !! 1%nat).

Definition offset_ok (large : bytes) (offset enc : Z) : Prop :=
  if offset <=? 0x7fffffff then enc = offset
  else exists p pre post, large = pre ++ be_encode 8 offset ++ post /\ zlen pre = 8 * p /\ enc = Z.lor p LARGE_OFFSET.

Definition record_bytes (c : GraphCommit) (ps : list Z) (second : Z) : bytes :=
  id_bytes (gc_tree c) ++ be_encode 4 (default NO_PARENT (head ps)) ++ be_encode 4 second ++
  be_encode 4 (Z.lor (Z.shiftl (gc_generation c) 2) (Z.shiftr (gc_commit_time c) 32)) ++ be_encode 4 (wrap32 (gc_commit_time c)).

Record encoded (w : Z) (t : Tables) (i : Z) (c : GraphCommit) (ps : list Z) : Prop := {
  en_id : slice (i * w) ((i + 1) * w) (t_ids t) = Some (id_bytes (gc_id c));
  en_record : exists second, slice (i * (w + 16)) ((i + 1) * (w + 16)) (t_data t) = Some (record_bytes c ps second) /\ second_ok (t_edges t) ps second;
  en_range : gc_commit_time c < 2 ^ 34 /\ gc_generation c <= 0x3fffffff;
  en_date : exists offset enc, gc_corrected_commit_date c = Some (gc_commit_time c + offset) /\ 0 <= offset /\
    slice (i * 4) (i * 4 + 4) (t_generation t) = Some (be_encode 4 enc) /\ offset_ok (t_overflow t) offset enc
}.

(** Tables that grew. *)
Definition extends (t t' : Tables) : Prop :=
  t_ids t `prefix_of` t_ids t' /\ t_data t `prefix_of` t_data t' /\ t_edges t `prefix_of` t_edges t' /\
  t_generation t `prefix_of` t_generation t' /\ t_overflow t `prefix_of` t_overflow t'.

Lemma encoded_extends w t t' i c ps : extends t t' -> encoded w t i c ps -> encoded w t' i c ps.
Proof.
  intros ([a Ha] & [b Hb] & [e He] & [g Hg] & [o Ho]) [H1 (second & H2 & H3) H4 (offset & enc & H5 & H6 & H7 & H8)]. constructor.
  - rewrite Ha. by apply slice_app_l.
  - exists second. split; [rewrite Hb; by apply slice_app_l|]. unfold second_ok in *. destruct (2 <? zlen ps); [|done].
    destruct H3 as (x & pre & post & E & ? & ?). exists x, pre, (post ++ e). rewrite He, E. by rewrite <- !app_assoc.
  - done.
  - exists offset, enc. split_and!; [done..|rewrite Hg; by apply slice_app_l|]. unfold offset_ok in *. destruct (offset <=? _); [done|].
    destruct H8 as (x & pre & post & E & ? & ?). exists x, pre, (post ++ o). rewrite Ho, E. by rewrite <- !app_assoc.
Qed.

Lemma encoded_parents_length positions ps qs : encoded_parents positions ps = Ok qs -> length qs = length ps /\
  Forall2 (fun p q => positions !! p = Some q) ps qs.
Proof.
  revert qs. induction ps as [|p ps IH]; intros qs; cbn [encoded_parents]; [intros [= <-]; by split; [|constructor]|].
  intros (q & Hq%ok_or_Ok & (rest & Hr & [= <-])%rbind_Ok)%rbind_Ok. destruct (IH rest Hr) as [Hl Ha]. cbn. split; [by f_equal|by constructor].
Qed.

Definition parents_total (cs : list GraphCommit) : Z := foldr (fun c n => zlen (gc_parents c) + n) 0 cs.
Lemma parents_total_app a b : parents_total (a ++ b) = parents_total a + parents_total b.
Proof. unfold parents_total. induction a as [|c a IH]; cbn; [done|]. rewrite IH. lia. Qed.

Section Tables.
Context (fmt : ObjectFormat) (positions : gmap ObjectId Z).
Notation w := (digest_len fmt).

Record tables_ok (before : list GraphCommit) (t : Tables) : Prop := {
  tk_ids : t_ids t = concat (map (fun c => id_bytes (gc_id c)) before);
  tk_id_width : zlen (t_ids t) = zlen before * w;
  tk_data : zlen (t_data t) = zlen before * (w + 16);
  tk_generation : zlen (t_generation t) = zlen before * 4;
  tk_edges : zlen (t_edges t) mod 4 = 0;
  tk_overflow : zlen (t_overflow t) mod 8 = 0;
  tk_parents : parents_total before <= 2 * zlen before + zlen (t_edges t) / 4;
  tk_encoded i c : zget i before = Some c -> exists ps, encoded_parents positions (gc_parents c) = Ok ps /\ encoded w t i c ps
}.

Lemma record_width c ps second : commit_ok fmt c -> zlen (record_bytes c ps second) = w + 16.
Proof using. intros (_ & _ & [_ Ht] & Hf & _). unfold record_bytes. rewrite !zlen_app, !zlen_be_encode, Ht, Hf. lia. Qed.

Lemma second_parent_ok ps edge_bytes second edge_bytes' : zlen edge_bytes mod 4 = 0 -> second_parent ps edge_bytes = Ok (second, edge_bytes') ->
  second_ok edge_bytes' ps second /\ edge_bytes `prefix_of` edge_bytes' /\ zlen edge_bytes' mod 4 = 0 /\ zlen ps <= 2 + (zlen edge_bytes' - zlen edge_bytes) / 4.
Proof using.
  intros Hmod. unfold second_parent, second_ok. destruct (Z.ltb_spec 2 (zlen ps)) as [Hgt|Hle].
  - destruct (u32_max <? _); [done|]. intros [= <- <-]. rewrite extra_edges_run. rewrite zlen_app, zlen_run, zlen_drop.
    pose proof (Z.div_mod (zlen edge_bytes) 4 ltac:(lia)). split_and!.
    + exists (zlen edge_bytes / 4), edge_bytes, []. rewrite app_nil_r. split_and!; [done|lia|done].
    + by eexists.
    + rewrite Z.add_mod, Hmod by lia. rewrite Z.mul_comm, Z.mod_mul by lia. done.
    + replace (zlen edge_bytes + 4 * Z.max 0 (zlen ps - Z.of_nat 1) - zlen edge_bytes) with ((zlen ps - 1) * 4) by lia. rewrite Z.div_mul by lia. lia.
  - intros [= <- <-]. split_and!; [done..|]. rewrite Z.sub_diag. change (0 / 4) with 0. lia.
Qed.

Lemma encode_offset_ok offset large enc large' : zlen large mod 8 = 0 -> encode_offset offset large = Ok (enc, large') ->
  offset_ok large' offset enc /\ large `prefix_of` large' /\ zlen large' mod 8 = 0.
Proof using.
  intros Hmod. unfold encode_offset, offset_ok. destruct (offset <=? 0x7fffffff); [by intros [= <- <-]|].
  destruct (u32_max <? _); [done|]. intros [<- <-]%ok_inj%pair_equal_spec. pose proof (Z.div_mod (zlen large) 8 ltac:(lia)). split_and!.
  - exists (zlen large / 8), large, []. rewrite app_nil_r. split_and!; [done|lia|done].
  - by eexists.
  - rewrite zlen_app, zlen_be_encode, Z.add_mod, Hmod by lia. done.
Qed.

Lemma encode_commit_ok before c t t' : commit_ok fmt c -> tables_ok before t -> encode_commit positions c t = Ok t' -> tables_ok (before ++ [c]) t'.
Proof using.
  intros Hc T. unfold encode_commit. intros (ps & Hps & ([second edge_bytes] & Hsec & H)%rbind_Ok)%rbind_Ok.
  destruct (_ || _) eqn:E; [done|]. apply orb_false_iff in E as [E1%Z.leb_gt E2%Z.ltb_ge].
  apply rbind_Ok in H as (offset & Hoff%ok_or_Ok & H). apply rbind_Ok in H as ([enc large] & Henc & <-%ok_inj).
  apply bind_Some in Hoff as (date & Hdate & [-> Hle]%checked_sub_Some).
  destruct (second_parent_ok _ _ _ _ (tk_edges _ _ T) Hsec) as (S1 & S2 & S3 & S4). destruct (encode_offset_ok _ _ _ _ (tk_overflow _ _ T) Henc) as (O1 & O2 & O3).
  assert (zlen (id_bytes (gc_id c)) = w) as Hid by (destruct Hc as ([_ ->] & -> & _); done).
  pose proof (record_width c ps second Hc) as Hrec. destruct T as [Ti Tw Td Tg Te To Tp Ten].
  set (t' := {| t_ids := _ |}).
  assert (extends t t') as Hext by (unfold extends; cbn; split_and!; [by eexists|by eexists|done|by eexists|done]).
  constructor; rewrite ?zlen_app, ?zlen_one.
  - cbn. rewrite Ti. by rewrite map_app, concat_app, <- app_assoc || (rewrite map_app, concat_app; cbn; by rewrite app_nil_r).
  - cbn [t_ids t']. rewrite zlen_app. lia.
  - cbn [t_data t']. rewrite zlen_app. fold (record_bytes c ps second). lia.
  - cbn [t_generation t']. rewrite zlen_app, zlen_be_encode. lia.
  - done.
  - done.
  - rewrite parents_total_app. cbn [t_edges t']. destruct (encoded_parents_length _ _ _ Hps) as [Hlen _].
    assert (parents_total [c] = zlen ps) as -> by (unfold parents_total, zlen; cbn; lia).
    destruct S2 as [more Hmore]. rewrite Hmore in *. rewrite zlen_app in *.
    pose proof (Z.div_mod (zlen (t_edges t)) 4 ltac:(lia)). replace (zlen (t_edges t) + zlen more - zlen (t_edges t)) with (zlen more) in S4 by lia.
    assert ((zlen (t_edges t) + zlen more) / 4 = zlen (t_edges t) / 4 + zlen more / 4) as ->; [|lia].
    replace (zlen (t_edges t) + zlen more) with (zlen more + zlen (t_edges t) / 4 * 4) by lia. rewrite Z.div_add by lia. lia.
  - intros i c' [Hi|[-> ->]]%zget_snoc_inv.
    + destruct (Ten i c' Hi) as (ps' & Hps' & He). exists ps'. split; [done|]. by eapply encoded_extends.
    + exists ps. split; [done|]. constructor.
      * cbn [t_ids t']. replace ((zlen before + 1) * w) with (zlen before * w + zlen (id_bytes (gc_id c))) by lia. eapply (slice_at _ (t_ids t) _ []); [by rewrite app_nil_r|done].
      * exists second. split; [|done]. cbn [t_data t']. fold (record_bytes c ps second). replace ((zlen before + 1) * (w + 16)) with (zlen before * (w + 16) + zlen (record_bytes c ps second)) by lia.
        eapply (slice_at _ (t_data t) _ []); [by rewrite app_nil_r|done].
      * change (Z.shiftl 1 34) with (2 ^ 34) in E1. lia.
      * exists (date - gc_commit_time c), enc. split_and!; [rewrite Hdate; f_equal; lia|lia| |done]. cbn [t_generation t'].
        eapply (slice_at _ (t_generation t) (be_encode 4 enc) []); [by rewrite app_nil_r|done].
Qed.

Lemma encode_commits_ok cs t : Forall (commit_ok fmt) cs -> encode_commits positions cs no_tables = Ok t -> tables_ok cs t.
Proof using.
  intros Hcs. assert (forall before t0, tables_ok before t0 -> encode_commits positions cs t0 = Ok t -> tables_ok (before ++ cs) t) as H.
  { induction Hcs as [|c cs Hc _ IH]; intros before t0 T; cbn [encode_commits]; [intros [= <-]; by rewrite app_nil_r|].
    intros (t1 & H1 & H2)%rbind_Ok. replace (before ++ c :: cs) with ((before ++ [c]) ++ cs) by by rewrite <- app_assoc. eapply IH; [|done]. by eapply encode_commit_ok. }
  intros Ht. apply (H [] no_tables); [|done]. constructor; try done. intros i c Hi. by rewrite zget_nil in Hi.
Qed.
End Tables.

(** ** Decoding the fields *)

(** The time and the level share a word. *)
Lemma time_level_word time gen : 0 <= time < 2 ^ 34 -> 0 <= gen <= 0x3fffffff ->
  let high := Z.lor (Z.shiftl gen 2) (Z.shiftr time 32) in
  0 <= high < 2 ^ 32 /\ Z.shiftr high 2 = gen /\ Z.lor (Z.shiftl (Z.land high 3) 32) (wrap32 time) = time.
Proof.
  intros Ht Hg. cbv zeta. rewrite Z.lor_comm, (Z.shiftr_div_pow2 time) by lia.
  assert (0 <= time / 2 ^ 32 < 4) as Hd by (split; [apply Z.div_pos; lia|apply Z.div_lt_upper_bound; lia]).
  rewrite lor_shiftl by (cbn; lia). change (2 ^ 2) with 4. split; [lia|]. split.
  - rewrite Z.shiftr_div_pow2 by lia. change (2 ^ 2) with 4. rewrite Z.div_add by lia. rewrite Z.div_small by lia. lia.
  - change 3 with (2 ^ 2 - 1). rewrite land_low_mod by lia. change (2 ^ 2) with 4. rewrite Z.mod_add, Z.mod_small by lia. unfold wrap32.
    rewrite Z.lor_comm, lor_shiftl by (try apply Z.mod_pos_bound; lia). pose proof (Z.div_mod time (2 ^ 32) ltac:(lia)). lia.
Qed.

(** A word that can be read in place can be read with its checks. *)
Lemma be32_word bs pos v : zlen bs <= usize_max -> be32 bs pos = Some v -> word bs pos = Ok v.
Proof.
  unfold be32. intros Hm (f & Hs & ->)%fmap_Some. pose proof Hs as (? & ? & _)%slice_Some. unfold word, read_be. rewrite checked_add_le by lia. cbn [ok_or rbind]. by rewrite Hs.
Qed.

Lemma charge_written limit p remaining : p < limit -> 1 <= remaining -> charge limit p remaining = Ok (remaining - 1).
Proof. intros Hp Hr. unfold charge. rewrite checked_sub_le by lia. cbn. destruct (Z.leb_spec limit p); [lia|done]. Qed.

(** A run that can be decoded passes the checks, at the price of its length. *)
Lemma check_run_written fuel edge_bytes limit pos remaining ps : zlen edge_bytes <= usize_max ->
  run_into fuel edge_bytes pos = Some ps -> Forall (fun q => q < limit) ps -> zlen ps <= remaining ->
  check_run fuel edge_bytes limit pos remaining = Ok (remaining - zlen ps).
Proof.
  intros Hm. revert pos remaining ps. induction fuel as [|fuel IH]; intros pos remaining ps; cbn [run_into check_run]; [done|].
  intros (edge & He & H)%bind_Some Hall Hr. rewrite (be32_word _ _ _ Hm He). cbn [rbind]. destruct (has_flag edge EXTRA_EDGES).
  - injection H as <-. apply Forall_cons in Hall as [Hp _]. rewrite zlen_one in *. rewrite charge_written by lia. done.
  - apply bind_Some in H as (rest & Hrest & [= <-]). apply Forall_cons in Hall as [Hp Hall]. rewrite zlen_cons in *. pose proof (zlen_nonneg rest).
    rewrite charge_written by lia. cbn [rbind]. rewrite (IH _ _ rest) by (done || lia). f_equal. lia.
Qed.

(** A layer over the tables. *)
Record over_tables (fmt : ObjectFormat) (t : Tables) (l : Layer bytes) : Prop := {
  ot_format : format l = fmt;
  ot_ids : part l (ids l) = Some (t_ids t);
  ot_data : part l (data l) = Some (t_data t);
  ot_edges : part l (edges l) = Some (t_edges t);
  ot_offsets : exists r, offsets l = Some r /\ part l r = Some (t_generation t);
  ot_overflow : part l (overflow l) = Some (t_overflow t)
}.

Section Decode.
Context (fmt : ObjectFormat) (positions : gmap ObjectId Z) (cs : list GraphCommit) (t : Tables) (l : Layer bytes).
Context (Hcs : Forall (commit_ok fmt) cs) (T : tables_ok fmt positions cs t) (L : over_tables fmt t l).
Context (Hedges : zlen (t_edges t) <= 2 ^ 32) (Hlarge : zlen (t_overflow t) <= 2 ^ 32) (Hn : zlen cs <= 2 ^ 32).
Context (Hpos : forall p q, positions !! p = Some q -> 0 <= q < 0x70000000).
Notation w := (digest_len fmt).

Lemma layer_width : width l = w.
Proof using L. unfold width. by rewrite (ot_format _ _ _ L). Qed.

Section At.
Context (i : Z) (c : GraphCommit) (Hi : zget i cs = Some c).

Lemma commit_at : commit_ok fmt c.
Proof using Hcs Hi. apply zget_Some in Hi as [_ H]. by eapply Forall_lookup_1. Qed.

Lemma index_range : 0 <= i < zlen cs.
Proof using Hi. by eapply zget_lt. Qed.

Lemma layer_name_written : layer_name l i = Some (id_bytes (gc_id c)).
Proof using Hi T L.
  destruct (tk_encoded _ _ _ _ T i c Hi) as (ps & _ & E). pose proof index_range. unfold layer_name. rewrite layer_width.
  rewrite <- (en_id _ _ _ _ _ E). pose proof (digest_len_cases fmt). rewrite (slice_of_slice _ _ _ _ _ _ (ot_ids _ _ _ L)); [f_equal; lia|nia|].
  rewrite (tk_id_width _ _ _ _ T). nia.
Qed.

Lemma layer_record_written : exists ps second, encoded_parents positions (gc_parents c) = Ok ps /\ second_ok (t_edges t) ps second /\
  layer_record l i = Some (record_bytes c ps second).
Proof using Hi T L.
  destruct (tk_encoded _ _ _ _ T i c Hi) as (ps & Hps & E). destruct (en_record _ _ _ _ _ E) as (second & Hs & Hok). exists ps, second. split_and!; [done..|].
  pose proof index_range. unfold layer_record. rewrite layer_width. rewrite <- Hs. pose proof (digest_len_cases fmt).
  rewrite (slice_of_slice _ _ _ _ _ _ (ot_data _ _ _ L)); [f_equal; lia|nia|]. rewrite (tk_data _ _ _ _ T). nia.
Qed.

(** The four words of a record. *)
Lemma commit_words ps second : 0 <= second < 2 ^ 32 -> 0 <= default NO_PARENT (head ps) < 2 ^ 32 -> gc_commit_time c < 2 ^ 34 -> gc_generation c <= 0x3fffffff ->
  be32 (record_bytes c ps second) w = Some (default NO_PARENT (head ps)) /\ be32 (record_bytes c ps second) (w + 4) = Some second /\
  be32 (record_bytes c ps second) (w + 8) = Some (Z.lor (Z.shiftl (gc_generation c) 2) (Z.shiftr (gc_commit_time c) 32)) /\
  be32 (record_bytes c ps second) (w + 12) = Some (wrap32 (gc_commit_time c)).
Proof using Hcs Hi.
  intros H2 H1 Ht Hg. destruct commit_at as (_ & _ & [_ Htree] & Hf & H0 & Hg0 & _). rewrite Hf in Htree.
  destruct (time_level_word (gc_commit_time c) (gc_generation c)) as (Hw & _ & _); [lia..|]. unfold record_bytes.
  set (a := be_encode 4 (default NO_PARENT (head ps))). set (b := be_encode 4 second).
  set (h := be_encode 4 (Z.lor (Z.shiftl (gc_generation c) 2) (Z.shiftr (gc_commit_time c) 32))). set (o := be_encode 4 (wrap32 (gc_commit_time c))).
  assert (zlen a = 4 /\ zlen b = 4 /\ zlen h = 4 /\ zlen o = 4) as (La & Lb & Lh & Lo) by (unfold a, b, h, o; by rewrite !zlen_be_encode).
  split_and!; apply be32_written; try done.
  - eapply (slice_between _ (id_bytes (gc_tree c)) a); [done|lia..].
  - eapply (slice_between _ (id_bytes (gc_tree c) ++ a) b); [by rewrite <- app_assoc|rewrite zlen_app; lia|lia].
  - eapply (slice_between _ (id_bytes (gc_tree c) ++ a ++ b) h); [by rewrite <- !app_assoc|rewrite !zlen_app; lia|lia].
  - unfold wrap32. apply Z.mod_pos_bound. lia.
  - eapply (slice_between _ (id_bytes (gc_tree c) ++ a ++ b ++ h) o []); [rewrite <- !app_assoc; by rewrite app_nil_r|rewrite !zlen_app; lia|lia].
Qed.

Lemma positions_range ps : encoded_parents positions (gc_parents c) = Ok ps -> Forall (fun q => 0 <= q < 0x70000000) ps.
Proof using Hpos.
  intros [_ H]%encoded_parents_length. apply Forall_forall. intros q [k Hk]%list_elem_of_lookup_1.
  destruct (Forall2_lookup_r _ _ _ _ _ H Hk) as (p & _ & Hp). by eapply Hpos.
Qed.

Lemma head_range ps : Forall (fun q => 0 <= q < 0x70000000) ps -> 0 <= default NO_PARENT (head ps) <= NO_PARENT /\ (ps <> [] -> default NO_PARENT (head ps) <> NO_PARENT).
Proof using. intros H. destruct H as [|q ps Hq _]; cbn; unfold NO_PARENT in *; split; try lia; try done. Qed.

Lemma second_range ps second : Forall (fun q => 0 <= q < 0x70000000) ps -> second_ok (t_edges t) ps second -> 0 <= second < 2 ^ 32.
Proof using Hedges.
  intros Hall. unfold second_ok. destruct (2 <? zlen ps).
  - intros (e & pre & post & He & Hz & ->). pose proof (zlen_nonneg pre). assert (4 * e <= zlen (t_edges t)) by (rewrite He, zlen_app; pose proof (zlen_nonneg (run (drop 1 ps) ++ post)); lia).
    apply (flag_set e). lia.
  - intros ->. destruct (ps !! 1%nat) as [q|] eqn:E; cbn; [eapply Forall_lookup_1 in Hall; [|done]; lia|unfold NO_PARENT; lia].
Qed.

(** The parents of the commit, as the reader decodes and as it checks them. *)
Lemma parents_written limit remaining has_edges ps : encoded_parents positions (gc_parents c) = Ok ps ->
  (2 < zlen ps -> has_edges = true) -> Forall (fun q => q < limit) ps -> zlen ps <= remaining ->
  parents_into l i = Some ps /\ check_parents l has_edges (t_edges t) limit i remaining = Ok (remaining - zlen ps).
Proof using Hcs T L Hedges Hpos Hi.
  intros Hps Hhas Hlim Hrem. destruct layer_record_written as (ps' & second & Hps' & Hsec & Hrec). rewrite Hps in Hps'. apply ok_inj in Hps' as <-.
  pose proof (positions_range ps Hps) as Hall. pose proof (second_range ps second Hall Hsec) as Hs. destruct (head_range ps Hall) as [Hh Hne].
  destruct (tk_encoded _ _ _ _ T i c Hi) as (ps0 & _ & E). destruct (en_range _ _ _ _ _ E) as [Ht Hg].
  destruct (commit_words ps second Hs) as (W1 & W2 & _ & _); [unfold NO_PARENT in *; lia|done|done|].
  unfold parents_into, check_parents, parent_fields. rewrite Hrec, layer_width. cbn [mbind option_bind]. rewrite W1. cbn [mbind option_bind]. rewrite W2. cbn [mbind option_bind ok_or rbind].
  destruct ps as [|first rest].
  { change (second = NO_PARENT) in Hsec. subst second. cbn [head from_option]. rewrite Z.eqb_refl. cbn [negb]. change (zlen (@nil Z)) with 0. by rewrite Z.sub_0_r. }
  cbn [head from_option Datatypes.id] in *. destruct (Z.eqb_spec first NO_PARENT) as [->|_]; [by destruct Hne|].
  apply Forall_cons in Hlim as [Hfl Hlim]. apply Forall_cons in Hall as [Hf Hall].
  rewrite zlen_cons in Hrem. pose proof (zlen_nonneg rest). rewrite charge_written by lia. cbn [rbind].
  unfold second_ok in Hsec. destruct (Z.ltb_spec 2 (zlen (first :: rest))) as [Hgt|Hle]; rewrite zlen_cons in *.
  - destruct Hsec as (e & pre & post & He & Hz & ->). cbn [drop] in He. pose proof (zlen_nonneg pre). pose proof (zlen_nonneg (run rest ++ post)).
    assert (zlen (t_edges t) = zlen pre + zlen (run rest ++ post)) as Hlen by (rewrite He at 1; apply zlen_app).
    destruct (flag_set e) as (F1 & F2 & _); [lia|]. rewrite F1, F2, (ot_edges _ _ _ L). cbn [mbind option_bind].
    assert (run_into (S (length (t_edges t))) (t_edges t) (zlen pre) = Some rest) as Hrun.
    { eapply run_written; [by intros ->|eapply Forall_impl; [exact Hall|]; cbn; lia| |exact He].
      rewrite zlen_app, zlen_run in Hlen. pose proof (zlen_nonneg post). unfold zlen in *. lia. }
    rewrite Hhas by lia. cbn [negb]. rewrite (tk_edges _ _ _ _ T). cbn [negb Z.eqb]. rewrite checked_mul_le by (unfold usize_max; lia). cbn [ok_or rbind].
    replace (e * 4) with (zlen pre) by lia. rewrite Hrun. cbn [mbind option_bind]. split; [done|].
    rewrite (check_run_written _ _ _ _ _ rest); [f_equal; lia|unfold usize_max; lia|done|done|lia].
  - destruct rest as [|q [|q' rest]]; [| |rewrite !zlen_cons in Hle; pose proof (zlen_nonneg rest); lia]; cbn in Hsec; subst second.
    + destruct (flag_clear NO_PARENT) as [-> _]; [unfold NO_PARENT; lia|]. rewrite Z.eqb_refl. cbn [negb]. split; [done|f_equal; try (change (zlen (@nil Z)) with 0; lia)].
    + apply Forall_cons in Hall as [Hq _]. apply Forall_cons in Hlim as [Hql _]. destruct (flag_clear q) as [-> _]; [lia|].
      destruct (Z.eqb_spec q NO_PARENT) as [->|_]; [unfold NO_PARENT in Hq; lia|]. cbn [negb]. split; [done|]. rewrite zlen_one in *. rewrite charge_written by lia. f_equal. lia.
Qed.

(** The time, the level and the date. *)
Lemma values_written : commit_time l i = Some (gc_commit_time c) /\ level l i = Some (gc_generation c).
Proof using Hcs T L Hedges Hpos Hi.
  destruct layer_record_written as (ps & second & Hps & Hsec & Hrec). pose proof (positions_range ps Hps) as Hall. destruct (head_range ps Hall) as [Hh _].
  destruct (tk_encoded _ _ _ _ T i c Hi) as (ps0 & _ & E). destruct (en_range _ _ _ _ _ E) as [Ht Hg]. destruct commit_at as (_ & _ & _ & _ & H0 & Hg0 & _).
  destruct (commit_words ps second) as (_ & _ & W3 & W4); [by eapply second_range|unfold NO_PARENT in *; lia|done|done|].
  destruct (time_level_word (gc_commit_time c) (gc_generation c)) as (_ & V1 & V2); [lia..|].
  unfold commit_time, level. rewrite Hrec, layer_width. cbn [mbind option_bind]. rewrite W3. cbn [mbind option_bind]. rewrite W4. cbn [mbind option_bind]. by rewrite V1, V2.
Qed.

Lemma date_written : layer_corrected_date l i = Some (gc_corrected_commit_date c) /\ check_date l i = Ok tt.
Proof using Hcs T L Hedges Hlarge Hn Hpos Hi.
  destruct values_written as [Ht _]. destruct (tk_encoded _ _ _ _ T i c Hi) as (ps0 & _ & E). destruct (en_date _ _ _ _ _ E) as (offset & enc & Hd & Ho & Hs & Hok).
  destruct commit_at as (_ & _ & _ & _ & H0 & _ & Hmax). specialize (Hmax _ Hd).
  assert (corrected_date (t_generation t) (t_overflow t) i (gc_commit_time c) = Ok (gc_commit_time c + offset)) as Hc.
  { pose proof index_range. unfold corrected_date. assert (0 <= enc < 2 ^ 32) as Henc.
    { unfold offset_ok in Hok. destruct (Z.leb_spec offset 0x7fffffff); [lia|]. destruct Hok as (p & pre & post & He & Hz & ->). pose proof (zlen_nonneg pre).
      assert (8 * p <= zlen (t_overflow t)) by (rewrite He, zlen_app; pose proof (zlen_nonneg (be_encode 8 offset ++ post)); lia). apply (flag_set p). lia. }
    rewrite (word_written _ (i * 4) enc); [|lia|unfold usize_max; lia|exact Henc|exact Hs]. cbn [rbind]. unfold offset_ok in Hok. change LARGE_OFFSET with EXTRA_EDGES.
    destruct (Z.leb_spec offset 0x7fffffff) as [Hle|Hgt].
    - subst enc. destruct (flag_clear offset) as [-> _]; [lia|]. cbn [negb rbind]. destruct (Z.leb_spec (gc_commit_time c + offset) u64_max); [done|lia].
    - destruct Hok as (p & pre & post & He & Hz & ->). pose proof (zlen_nonneg pre). pose proof (zlen_nonneg post).
      assert (zlen (t_overflow t) = zlen pre + (8 + zlen post)) as Hlen by (rewrite He at 1; rewrite !zlen_app, zlen_be_encode; lia).
      change LARGE_OFFSET with EXTRA_EDGES. destruct (flag_set p) as (-> & -> & _); [lia|]. cbn [negb]. destruct (bytes_eqb (t_overflow t) []) eqn:E0.
      { apply bytes_eqb_eq in E0. rewrite E0 in Hlen. change (zlen (@nil Z)) with 0 in Hlen. lia. }
      rewrite checked_mul_le by (unfold usize_max; lia). cbn [ok_or rbind].
      rewrite (long_written _ (p * 8) offset); [|lia|unfold usize_max; lia|unfold u64_max in Hmax; lia|].
      2:{ eapply slice_between; [exact He|lia|by rewrite zlen_be_encode]. }
      cbn [rbind]. destruct (Z.leb_spec (gc_commit_time c + offset) u64_max); [done|lia]. }
  destruct (ot_offsets _ _ _ L) as (r & Hr & Hpart). unfold layer_corrected_date, check_date. rewrite Hr, Hpart, (ot_overflow _ _ _ L), Ht, Hd. cbn [mbind option_bind ok_or rbind]. by rewrite Hc.
Qed.
End At.
End Decode.
End GraphTables.
