(* ===== verification/CommitGraphEncode.v ===== *)
(** * What is written is what is read

    The fan-out table and the order of the identities of a written file, its parse as a
    layer, and the round trip of [encode_records] through [parse_files]. *)

From stdpp Require Import base list numbers strings sets gmap sorting.
From Stdlib Require Import ZArith Lia.
From S2P Require Import Prelude Objects BTree Trees History CommitGraph.
From S2P Require Import CommitGraphLayer CommitGraphAncestry CommitGraphChain CommitGraphCorrect CommitGraphWrite CommitGraphRoundtrip CommitGraphTables.

Module GraphEncode.
Import Objects CommitGraph GraphLayer GraphAncestry GraphChain GraphCorrect CommitGraphWrite GraphRoundtrip GraphTables.

(** ** Chunks of equal width *)

Lemma chunks_from_concat_width {A} fuel n (ls : list (list A)) : (0 < n)%nat -> Forall (fun l => length l = n) ls -> (length (concat ls) <= fuel)%nat ->
  chunks_from fuel n (concat ls) = ls.
Proof.
  intros Hn Hall. revert fuel. induction Hall as [|l ls Hl _ IH]; intros fuel Hf; cbn [concat]; [by destruct fuel|].
  destruct l as [|x l]; [cbn in Hl; lia|]. cbn [concat] in Hf. rewrite length_app in Hf. destruct fuel as [|fuel]; [cbn in Hf; lia|].
  change ((x :: l) ++ concat ls) with (x :: (l ++ concat ls)). cbn [chunks_from]. change (x :: l ++ concat ls) with ((x :: l) ++ concat ls).
  rewrite take_app_length', drop_app_length' by done. f_equal. apply IH. cbn in Hf. lia.
Qed.

Lemma zlen_concat_width {A} (ls : list (list A)) w : Forall (fun l => zlen l = w) ls -> zlen (concat ls) = zlen ls * w.
Proof. induction 1 as [|l ls Hl _ IH]; [done|]. cbn [concat]. rewrite zlen_app, zlen_cons. lia. Qed.

Lemma chunks_concat_width (ls : list bytes) w : 0 < w -> Forall (fun l => zlen l = w) ls -> chunks (Z.to_nat w) (concat ls) = ls.
Proof.
  intros Hw Hall. apply chunks_from_concat_width; [lia| |done]. eapply Forall_impl; [exact Hall|]. unfold zlen. cbn. lia.
Qed.

Lemma chunks_exact_concat (ls : list bytes) w : 0 < w -> Forall (fun l => zlen l = w) ls -> chunks_exact w (concat ls) = ls.
Proof.
  intros Hw Hall. unfold chunks_exact. rewrite (zlen_concat_width ls w) by done. rewrite Z.div_mul by lia.
  rewrite take_ge; [by apply chunks_concat_width|]. pose proof (zlen_concat_width ls w Hall) as H. unfold zlen in H |- *. lia.
Qed.

(** Strictly ascending names pass the reader's check. *)
Definition name_lt (a b : bytes) : Prop := bytes_cmp a b = Lt.

Lemma ascending_passes (ls : list bytes) : Sorted name_lt ls ->
  existsb (fun ab : bytes * bytes => match bytes_cmp ab.1 ab.2 with Lt => false | _ => true end) (zip ls (drop 1 ls)) = false.
Proof.
  induction 1 as [|a ls Hs IH Hd]; [done|]. destruct Hd as [|b ls Hab]; [done|]. cbn [drop zip zip_with existsb fst snd].
  unfold name_lt in Hab. rewrite Hab. cbn [orb]. exact IH.
Qed.

(** ** The fan-out table *)

Section Fanout.
Context (w : Z) (cs : list GraphCommit) (names : bytes) (Hw : 0 < w) (Hn : zlen cs < 2 ^ 32).
Context (Hlen : zlen names = zlen cs * w) (Hfirst : forall p c, zget p cs = Some c -> exists b, head (id_bytes (gc_id c)) = Some b /\ zget (p * w) names = Some b /\ 0 <= b < 256).

Lemma zget_drop p c rest : drop (Z.to_nat p) cs = c :: rest -> 0 <= p -> zget p cs = Some c /\ drop (Z.to_nat (p + 1)) cs = rest.
Proof using.
  intros H Hp. split.
  - apply zget_Some. split; [done|]. rewrite <- (Nat.add_0_r (Z.to_nat p)), <- lookup_drop. by rewrite H.
  - replace (Z.to_nat (p + 1)) with (Z.to_nat p + 1)%nat by lia. rewrite <- drop_drop, H. done.
Qed.

(** Skipping the commits of a bucket, as the writer and the reader do. *)
Lemma skip_advance rest p bucket : drop (Z.to_nat p) cs = rest -> 0 <= p <= zlen cs ->
  exists q, skip_bucket rest bucket p = Ok (drop (Z.to_nat q) cs, q) /\ advance (length rest) names w bucket p = Ok q /\ p <= q <= zlen cs /\ (255 <= bucket -> q = zlen cs).
Proof using Hfirst.
  revert p. induction rest as [|c rest IH]; intros p Hd Hp.
  - exists p. cbn [skip_bucket advance length]. rewrite Hd. split_and!; [done..|lia| |].
    + lia.
    + intros _. assert (length cs <= Z.to_nat p)%nat as H; [|unfold zlen in *; lia]. apply (f_equal length) in Hd. rewrite length_drop in Hd. cbn in Hd. lia.
  - destruct (zget_drop p c rest Hd) as [Hc Hd']; [lia|]. destruct (Hfirst p c Hc) as (b & Hb & Hg & Hr). cbn [skip_bucket advance length]. rewrite Hb, Hg. cbn [ok_or rbind].
    pose proof (zget_lt _ _ _ Hc). destruct (Z.leb_spec b bucket) as [Hle|Hgt].
    + destruct (IH (p + 1) Hd') as (q & H1 & H2 & H3 & H4); [lia|]. exists q. rewrite H1, H2. split_and!; [done..|lia|lia|done].
    + exists p. rewrite Hd. split_and!; [done..|lia|lia|lia].
Qed.

Lemma fanout_written k p bucket acc fan : 0 <= p <= zlen cs -> 0 <= bucket -> bucket + Z.of_nat k = 256 -> zlen acc = 4 * bucket ->
  encode_fanout k (drop (Z.to_nat p) cs) bucket p acc = Ok fan ->
  acc `prefix_of` fan /\ zlen fan = 1024 /\ fanout_buckets k fan names w bucket p = Ok tt /\ ((0 < k)%nat -> word fan 1020 = Ok (zlen cs)).
Proof using Hw Hn Hlen Hfirst.
  revert p bucket acc. induction k as [|k IH]; intros p bucket acc Hp Hb Hk Hacc; cbn [encode_fanout fanout_buckets].
  { intros [= <-]. split_and!; [done|lia|done|lia]. }
  destruct (skip_advance _ p bucket eq_refl Hp) as (q & Hskip & Hadv & Hq & Hlast). rewrite Hskip. cbn [rbind]. intros Henc.
  destruct (IH q (bucket + 1) (acc ++ be_encode 4 (wrap32 q))) as ([more Hfan] & Hz & Hbuckets & Hcount);
    [lia|lia|lia|rewrite zlen_app, zlen_be_encode; lia|exact Henc|].
  assert (wrap32 q = q) as Hwrap by (unfold wrap32; apply Z.mod_small; lia). rewrite Hwrap in Hfan. rewrite <- app_assoc in Hfan.
  assert (word fan (bucket * 4) = Ok q) as Hword.
  { apply word_written; [lia|unfold usize_max; lia|lia|]. eapply slice_between; [exact Hfan|lia|by rewrite zlen_be_encode]. }
  split_and!; [by eexists|done| |].
  - replace (zlen names / w) with (zlen cs) by (rewrite Hlen, Z.div_mul; lia).
    replace (Z.to_nat (zlen cs - p)) with (length (drop (Z.to_nat p) cs)) by (rewrite length_drop; unfold zlen in *; lia).
    rewrite Hadv. cbn [rbind]. rewrite Hword. cbn [rbind]. by rewrite Z.eqb_refl.
  - intros _. destruct k as [|k]; [|apply Hcount; lia]. assert (bucket = 255) as -> by lia. rewrite (Hlast ltac:(lia)) in Hword. exact Hword.
Qed.
End Fanout.

(** ** The chunks of a file *)

Lemma total_size_Ok cs s z : total_size cs s = Ok z -> z = s + data_size cs.
Proof.
  revert s. induction cs as [|[tag d] cs IH]; intros s; cbn [total_size]; [intros [= <-]; change (data_size []) with 0; lia|].
  intros (s' & [-> _]%ok_or_Ok%checked_add_Some & H%IH)%rbind_Ok. unfold data_size in *. cbn [map concat snd]. rewrite zlen_app. lia.
Qed.

Lemma data_size_at cs tag d : (tag, d) ∈ cs -> zlen d <= data_size cs.
Proof.
  unfold data_size. induction cs as [|[t x] cs IH]; [by intros ?%not_elem_of_nil|]. cbn [map concat snd]. rewrite zlen_app.
  pose proof (zlen_nonneg x). pose proof (zlen_nonneg (concat (map snd cs))). intros [[= -> ->]|Hin%IH]%elem_of_cons; lia.
Qed.

Definition some_unless (d : bytes) : option bytes := if bytes_eqb d [] then None else Some d.

Lemma file_chunks_get fan t hashes : let cs := file_chunks fan t hashes in
  chunks_ok cs /\ BTree.get OIDF cs = Some fan /\ BTree.get OIDL cs = Some (t_ids t) /\ BTree.get CDAT cs = Some (t_data t) /\ BTree.get GDA2 cs = Some (t_generation t) /\
  BTree.get EDGE cs = some_unless (t_edges t) /\ BTree.get GDO2 cs = some_unless (t_overflow t) /\ BTree.get BASE cs = some_unless hashes /\ BTree.get BIDX cs = None.
Proof.
  cbv zeta. unfold file_chunks, some_unless. assert (BTree.ok (@nil (bytes * bytes))) by constructor.
  destruct (bytes_eqb (t_edges t) []), (bytes_eqb (t_overflow t) []), (bytes_eqb hashes []);
    (split; [split; [repeat apply BTree.ok_insert; done|]; split_and!; [by repeat constructor..|done]|by split_and!]).
Qed.

(** ** A written file as a layer *)

(** Commits in the order of a file, with the position of every parent. *)
Record writable (fmt : ObjectFormat) (cs : list GraphCommit) (positions : gmap ObjectId Z) (first : Z) (hs : list ObjectId) : Prop := {
  wr_commits : Forall (commit_ok fmt) cs;
  wr_sorted : Sorted (fun a b => bytes_cmp (id_bytes (gc_id a)) (id_bytes (gc_id b)) = Lt) cs;
  wr_first : 0 <= first;
  wr_positions p q : positions !! p = Some q -> 0 <= q < 0x70000000 /\ q < first + zlen cs;
  wr_hashes : Forall (fun h => id_ok h /\ id_format h = fmt) hs;
  wr_bases : zlen hs <= 255
}.

Lemma Sorted_map {A B} (f : A -> B) (R : relation B) l : Sorted (fun a b => R (f a) (f b)) l -> Sorted R (map f l).
Proof. induction 1 as [|a l _ IH Hd]; cbn; constructor; [done|]. destruct Hd; by constructor. Qed.

Section Written.
Context (sha1 sha256 : bytes -> bytes).
Context (Hsha1 : forall bs, bytes_ok (sha1 bs) /\ zlen (sha1 bs) = 20) (Hsha256 : forall bs, bytes_ok (sha256 bs) /\ zlen (sha256 bs) = 32).
Context (fmt : ObjectFormat) (cs : list GraphCommit) (positions : gmap ObjectId Z) (first : Z) (hs : list ObjectId) (W : writable fmt cs positions first hs).
Context (bs : bytes) (Hbs : encode_records sha1 sha256 fmt cs positions (concat (map id_bytes hs)) = Ok bs).
Notation w := (digest_len fmt).

(** What the writer produced on the way. *)
Lemma encoded_parts : exists fan t, encode_fanout 256 cs 0 0 [] = Ok fan /\ encode_commits positions cs no_tables = Ok t /\
  bs = render sha1 sha256 fmt (file_chunks fan t (concat (map id_bytes hs))) (zlen hs) /\
  8 + (zlen (file_chunks fan t (concat (map id_bytes hs))) + 1) * 12 + data_size (file_chunks fan t (concat (map id_bytes hs))) + w <= max_bytes default_limits.
Proof using Hbs W.
  unfold encode_records in Hbs. apply rbind_Ok in Hbs as (fan & Hfan & H). apply rbind_Ok in H as (t & Ht & H). apply rbind_Ok in H as (size & Hsize%total_size_Ok & H).
  destruct (Z.ltb_spec (max_bytes default_limits) (saturating_add size w)) as [|Hle]; [done|]. apply ok_inj in H. exists fan, t. split_and!; [done..| |].
  - rewrite <- H. f_equal. rewrite (zlen_concat_width _ w); [unfold zlen; rewrite length_map; apply Z.div_mul; destruct fmt; cbn; lia|].
    apply Forall_map. eapply Forall_impl; [apply (wr_hashes _ _ _ _ _ W)|]. intros h [[_ Hh] Hf]. by rewrite Hf in Hh.
  - rewrite <- Hsize. unfold saturating_add in Hle. change (max_bytes default_limits) with (512 * 1024 * 1024) in *. unfold usize_max in Hle. lia.
Qed.

Lemma hash_widths : Forall (fun l => zlen l = w) (map id_bytes hs).
Proof using W. apply Forall_map. eapply Forall_impl; [apply (wr_hashes _ _ _ _ _ W)|]. intros h [[_ Hh] Hf]. by rewrite Hf in Hh. Qed.

Lemma name_widths : Forall (fun l => zlen l = w) (map (fun c => id_bytes (gc_id c)) cs).
Proof using W. apply Forall_map. eapply Forall_impl; [apply (wr_commits _ _ _ _ _ W)|]. intros c ([_ Hh] & Hf & _). by rewrite Hf in Hh. Qed.

Lemma default_some_unless d : default [] (some_unless d) = d.
Proof using. unfold some_unless. destruct (bytes_eqb d []) eqn:E; [apply bytes_eqb_eq in E; by rewrite E|done]. Qed.

(** [optional] and [required] of a chunk of the file. *)
Lemma optional_written c tag o : c_bytes c = bs -> match o with Some d => chunk_at bs c tag d | None => chunk_range c tag = None end -> optional c tag = Ok o.
Proof using.
  intros Hb. unfold optional, chunk_at. destruct o as [d|]; [|by intros ->]. intros (a & -> & Hs). cbn [fst snd]. by rewrite Hb, Hs.
Qed.
Lemma required_written c tag d : c_bytes c = bs -> chunk_at bs c tag d -> required c tag = Ok d.
Proof using. intros Hb H. unfold required. by rewrite (optional_written c tag (Some d) Hb H). Qed.

(** The part of the file a range names. *)
Lemma part_chunk (l : Layer bytes) c tag d : bytes_ l = bs -> chunk_at bs c tag d -> part l (default (0, 0) (chunk_range c tag)) = Some d.
Proof using. intros Hb (a & -> & Hs). unfold part. rewrite Hb. exact Hs. Qed.
Lemma part_written (l : Layer bytes) c tag d : bytes_ l = bs -> match some_unless d with Some d => chunk_at bs c tag d | None => chunk_range c tag = None end ->
  part l (default (0, 0) (chunk_range c tag)) = Some d.
Proof using.
  intros Hb. unfold part, some_unless, chunk_at. rewrite Hb. destruct (bytes_eqb d []) eqn:E.
  - apply bytes_eqb_eq in E as ->. intros ->. apply slice_Some. cbn. split; [lia|]. split; [apply zlen_nonneg|done].
  - intros (a & -> & Hs). exact Hs.
Qed.

(** The checks of the records pass; together they cost the parents of the commits. *)
Lemma check_each_written t l has_edges limit : tables_ok fmt positions cs t -> over_tables fmt t l -> zlen (t_edges t) <= 2 ^ 30 -> zlen (t_overflow t) <= 2 ^ 30 -> zlen cs <= 2 ^ 30 ->
  limit = first + zlen cs -> (t_edges t <> [] -> has_edges = true) ->
  forall n i remaining, 0 <= i -> i + Z.of_nat n = zlen cs -> parents_total (drop (Z.to_nat i) cs) <= remaining ->
  check_each n l has_edges (t_edges t) limit i remaining = Ok (remaining - parents_total (drop (Z.to_nat i) cs)).
Proof using W.
  intros T L He Hl Hn -> Hhas. assert (forall p q, positions !! p = Some q -> 0 <= q < 0x70000000) as Hpos by (intros p q Hq; apply (wr_positions _ _ _ _ _ W p q Hq)).
  induction n as [|n IH]; intros i remaining Hi Hin Hrem; cbn [check_each].
  { rewrite drop_ge by (unfold zlen in Hin; lia). change (parents_total []) with 0. by rewrite Z.sub_0_r. }
  destruct (zget_is_Some i cs) as [c Hc]; [lia|].
  assert (drop (Z.to_nat i) cs = c :: drop (Z.to_nat (i + 1)) cs) as Hd.
  { apply zget_Some in Hc as [_ Hc]. replace (Z.to_nat (i + 1)) with (S (Z.to_nat i)) by lia. by apply drop_S. }
  rewrite Hd in Hrem |- *. assert (forall l, parents_total (c :: l) = zlen (gc_parents c) + parents_total l) as Hpt by done. rewrite Hpt in Hrem |- *.
  assert (0 <= parents_total (drop (Z.to_nat (i + 1)) cs)) as Hnn.
  { unfold parents_total. generalize (drop (Z.to_nat (i + 1)) cs). intros m. induction m as [|x m IHm]; cbn; [lia|]. pose proof (zlen_nonneg (gc_parents x)). lia. }
  destruct (tk_encoded _ _ _ _ T i c Hc) as (ps & Hps & E). destruct (encoded_parents_length _ _ _ Hps) as [Hlen Hall].
  assert (zlen ps = zlen (gc_parents c)) as Hz by (unfold zlen; by rewrite Hlen).
  destruct (parents_written fmt positions cs t l (wr_commits _ _ _ _ _ W) T L ltac:(lia) Hpos i c Hc (first + zlen cs) remaining has_edges ps Hps) as [_ ->]; [| |lia|].
  - intros Hgt. apply Hhas. destruct (en_record _ _ _ _ _ E) as (second & _ & Hs). unfold second_ok in Hs. destruct (Z.ltb_spec 2 (zlen ps)); [|lia].
    destruct Hs as (e & pre & post & Ht & _). intros Hnil. rewrite Hnil in Ht. apply (f_equal zlen) in Ht. rewrite !zlen_app, zlen_run, zlen_drop in Ht.
    change (zlen (@nil Z)) with 0 in Ht. pose proof (zlen_nonneg pre). pose proof (zlen_nonneg post). lia.
  - apply Forall_forall. intros q [k Hk]%list_elem_of_lookup_1. destruct (Forall2_lookup_r _ _ _ _ _ Hall Hk) as (p & _ & Hp). by apply (wr_positions _ _ _ _ _ W p q Hp).
  - cbn [rbind]. destruct (date_written fmt positions cs t l (wr_commits _ _ _ _ _ W) T L ltac:(lia) ltac:(lia) ltac:(lia) Hpos i c Hc) as [_ ->]. cbn [rbind].
    rewrite IH by lia. f_equal. lia.
Qed.

(** [Layer::parse] accepts the file. *)
Lemma layer_parse_written limits parents_left : zlen cs <= max_commits limits -> parents_total cs <= parents_left -> first + zlen cs <= usize_max ->
  exists t l, layer_parse bs fmt limits first hs parents_left = Ok (l, parents_left - parents_total cs) /\ tables_ok fmt positions cs t /\ over_tables fmt t l /\
    count l = zlen cs /\ start l = first /\ bytes_ l = bs /\ zlen (t_edges t) <= 2 ^ 30 /\ zlen (t_overflow t) <= 2 ^ 30 /\ zlen cs <= 2 ^ 30 /\
    header bs fmt default_limits = Ok tt /\ check_checksum sha1 sha256 bs fmt = Ok tt /\ 8 + w <= zlen bs.
Proof using Hsha1 Hsha256 W Hbs.
  intros Hmax Hleft Hsum. destruct encoded_parts as (fan & t & Hfan & Ht & Hrender & Hsize). pose proof (encode_commits_ok fmt positions cs t (wr_commits _ _ _ _ _ W) Ht) as T.
  pose proof (digest_len_cases fmt) as Hw. assert (0 < w) as Hw0 by lia.
  destruct (file_chunks_get fan t (concat (map id_bytes hs))) as (Hok & G1 & G2 & G3 & G4 & G5 & G6 & G7 & G8). set (chs := file_chunks fan t (concat (map id_bytes hs))) in *.
  change (max_bytes default_limits) with 536870912 in Hsize. pose proof (zlen_nonneg chs). assert (0 <= data_size chs) by apply zlen_nonneg.
  assert (forall tag d, BTree.get tag chs = Some d -> zlen d <= 536870912) as Hbound.
  { intros tag d Hd%BTree.get_elem%data_size_at; [lia|apply Hok]. }
  assert (zlen (t_edges t) <= 536870912 /\ zlen (t_overflow t) <= 536870912) as [He Hl].
  { unfold some_unless in G5, G6. split; [destruct (bytes_eqb (t_edges t) []) eqn:E|destruct (bytes_eqb (t_overflow t) []) eqn:E];
      try (apply bytes_eqb_eq in E; rewrite E; change (zlen (@nil Z)) with 0; lia); eauto. }
  assert (zlen cs <= 2 ^ 30) as Hn.
  { pose proof (Hbound _ _ G4) as Hg. rewrite (tk_generation _ _ _ _ T) in Hg. lia. }
  assert (8 + (zlen chs + 1) * 12 + data_size chs + w <= usize_max) as Hfits by (unfold usize_max; lia).
  pose proof (zlen_nonneg hs) as Hhs0. pose proof (wr_bases _ _ _ _ _ W) as Hhs.
  destruct (render_table sha1 sha256 Hsha1 Hsha256 fmt chs (zlen hs) Hok ltac:(lia) Hfits) as (c & Htab & Hcb & Hch). rewrite <- Hrender in Htab, Hcb, Hch.
  destruct (render_bases sha1 sha256 fmt chs (zlen hs) Hok ltac:(lia)) as [H7 _]. rewrite <- Hrender in H7.
  assert (zlen bs = 8 + (zlen chs + 1) * 12 + data_size chs + w) as Hzbs.
  { rewrite Hrender at 1. apply (zlen_render sha1 sha256 Hsha1 Hsha256 fmt chs (zlen hs) Hok). }
  assert (header bs fmt default_limits = Ok tt) as Hheader.
  { rewrite Hrender at 1. apply (render_header sha1 sha256 Hsha1 Hsha256 fmt chs (zlen hs) Hok Hfits). rewrite <- Hrender, Hzbs. change (max_bytes default_limits) with 536870912. lia. }
  assert (check_checksum sha1 sha256 bs fmt = Ok tt) as Hcheck.
  { rewrite Hrender at 1. apply (render_checksum sha1 sha256 Hsha1 Hsha256 fmt chs (zlen hs) Hok Hfits). }
  clear Hrender. pose proof (Hch BASE) as C7. pose proof (Hch OIDF) as C1. pose proof (Hch OIDL) as C2. pose proof (Hch CDAT) as C3. pose proof (Hch GDA2) as C4.
  pose proof (Hch EDGE) as C5. pose proof (Hch GDO2) as C6. pose proof (Hch BIDX) as C8. rewrite ?G1, ?G2, ?G3, ?G4, ?G5, ?G6, ?G7, ?G8 in *. clear Hch.
  assert (forall p c0, zget p cs = Some c0 -> exists b, head (id_bytes (gc_id c0)) = Some b /\ zget (p * w) (t_ids t) = Some b /\ 0 <= b < 256) as Hfirst.
  { intros p c0 Hp. destruct (tk_encoded _ _ _ _ T p c0 Hp) as (ps & _ & E). pose proof (en_id _ _ _ _ _ E) as Hid. rewrite (slice_head _ _ _ _ Hid) by lia.
    assert (commit_ok fmt c0) as ([Hb Hz] & Hf & _) by (apply zget_Some in Hp as [_ Hp]; eapply Forall_lookup_1; [apply (wr_commits _ _ _ _ _ W)|done]).
    destruct (id_bytes (gc_id c0)) as [|b rest]; [rewrite Hf in Hz; change (zlen (@nil Z)) with 0 in Hz; lia|]. exists b. apply bytes_ok_cons in Hb as [Hb _]. done. }
  destruct (fanout_written w cs (t_ids t) Hw0 ltac:(lia) (tk_id_width _ _ _ _ T) Hfirst 256 0 0 [] fan) as (_ & Hfl & Hbuckets & Hcount); [pose proof (zlen_nonneg cs); lia|lia|lia|done|done|].
  specialize (Hcount ltac:(lia)). unfold layer_parse. rewrite Htab. cbn [rbind]. rewrite H7. cbn [ok_or rbind]. rewrite Z.eqb_refl. cbn [negb].
  rewrite (optional_written c BASE _ Hcb C7). cbn [rbind]. rewrite default_some_unless, (chunks_concat_width _ w Hw0 hash_widths). rewrite bool_decide_true by done. cbn [negb].
  rewrite (required_written c OIDF _ Hcb C1). cbn [rbind]. rewrite Hfl. cbn [Z.eqb Pos.eqb negb]. rewrite Hcount. cbn [rbind].
  destruct (Z.ltb_spec (max_commits limits) (zlen cs)); [lia|]. rewrite (required_written c OIDL _ Hcb C2). cbn [rbind]. rewrite (required_written c CDAT _ Hcb C3). cbn [rbind]. cbv zeta.
  assert (negb (zlen (t_ids t) / w =? zlen cs) || negb (zlen (t_ids t) mod w =? 0) || negb (bool_decide (Some (zlen (t_data t)) = checked_mul (zlen cs) (w + 16))) = false) as ->.
  { rewrite (tk_id_width _ _ _ _ T), Z.div_mul, Z.mod_mul by lia. rewrite Z.eqb_refl. rewrite checked_mul_le by (unfold usize_max; nia). rewrite (tk_data _ _ _ _ T). by rewrite bool_decide_true. }
  assert (validate_fanout fan (t_ids t) w = Ok tt) as ->.
  { unfold validate_fanout. rewrite Hbuckets. cbn [rbind]. rewrite (tk_ids _ _ _ _ T), (chunks_exact_concat _ w Hw0 name_widths).
    rewrite ascending_passes; [done|]. apply Sorted_map, (wr_sorted _ _ _ _ _ W). }
  cbn [rbind]. rewrite (optional_written c GDA2 (Some (t_generation t)) Hcb C4). cbn [rbind]. rewrite (tk_generation _ _ _ _ T), Z.eqb_refl. cbn [negb].
  assert (bloom_parse c (zlen cs) = Ok None) as -> by (unfold bloom_parse; by rewrite (optional_written c BIDX None Hcb C8)). cbn [rbind].
  match goal with |- context [check_records ?x _ _] => set (l := x) end.
  assert (over_tables fmt t l) as L.
  { constructor; [done|by apply part_chunk|by apply part_chunk|by apply part_written| |by apply part_written].
    destruct C4 as (a & Hr & Hs). exists (a, a + zlen (t_generation t)). by split. }
  assert (check_records l (bool_decide (is_Some (chunk_range c EDGE))) parents_left = Ok (parents_left - parents_total cs)) as ->.
  { unfold check_records. rewrite (ot_edges _ _ _ L). pose proof (zlen_nonneg cs). pose proof (slice_zlen _ _ _ _ (ot_edges _ _ _ L)) as Hrl. fold (range_len (edges l)) in Hrl.
    change (count l) with (zlen cs). change (start l) with first. rewrite <- Hrl. rewrite checked_mul_le by (unfold usize_max; lia). cbn [mbind option_bind].
    assert (0 <= zlen (t_edges t) / 4 <= zlen (t_edges t)) as Hq by (pose proof (zlen_nonneg (t_edges t)); split; [apply Z.div_pos; lia|apply Z.div_le_upper_bound; lia]).
    rewrite checked_add_le by (unfold usize_max; lia). cbn [ok_or rbind]. rewrite checked_add_le by done. cbn [ok_or rbind].
    pose proof (tk_parents _ _ _ _ T) as Hpt. set (budget := Z.min parents_left (zlen cs * 2 + zlen (t_edges t) / 4)).
    rewrite (check_each_written t l _ (first + zlen cs) T L ltac:(lia) ltac:(lia) Hn eq_refl); [| |lia|lia|change (drop (Z.to_nat 0) cs) with cs; unfold budget; lia].
    - change (drop (Z.to_nat 0) cs) with cs. cbn [rbind]. f_equal. lia.
    - intros Hne. apply bool_decide_true. unfold some_unless in C5. destruct (bytes_eqb (t_edges t) []) eqn:E; [by apply bytes_eqb_eq in E|].
      destruct C5 as (a & -> & _). by eexists. }
  cbn [rbind]. exists t, l. split_and!; try done; lia.
Qed.
End Written.
End GraphEncode.
