(* ===== verification/CommitGraphFile.v ===== *)
(** * The round trip of a commit graph through a file

    The commits of an accepted graph, in order, and the file that [encode] writes for
    them: parsing it gives a graph of one layer with the same commits. *)

From stdpp Require Import base list numbers strings sets gmap sorting.
From Stdlib Require Import ZArith Lia.
From S2P Require Import Prelude Objects BTree Trees History CommitGraph CommitGraphLayer.
From S2P Require Import CommitGraphAncestry CommitGraphChain CommitGraphCorrect CommitGraphWrite CommitGraphRoundtrip CommitGraphTables CommitGraphEncode.

Module GraphFile.
Import Objects CommitGraph GraphLayer GraphAncestry GraphChain GraphCorrect CommitGraphWrite GraphRoundtrip GraphTables GraphEncode.

(** ** The commits of a graph *)

Definition id_lt (a b : GraphCommit) : Prop := bytes_cmp (id_bytes (gc_id a)) (id_bytes (gc_id b)) = Lt.

Section Commits.
Context {fmt : ObjectFormat} {limits : GraphLimits} {g : Graph} (Hg : graph_ok fmt limits g).
Notation total := (commits_of (layers g)).

Lemma corrected_date_max table large i time d : corrected_date table large i time = Ok d -> d <= u64_max.
Proof using.
  unfold corrected_date. intros (o & _ & (o' & _ & H%ok_or_Ok)%rbind_Ok)%rbind_Ok. destruct (Z.leb_spec (time + o') u64_max); [|done]. injection H as <-. done.
Qed.

Lemma record_commit_ok p c : 0 <= p < total -> record g p = Some c -> commit_ok fmt c.
Proof using Hg.
  intros Hp Hrec. pose proof (gk_chain _ _ _ Hg) as Hch. destruct (cell_total Hch p Hp) as (k & l & i & Hk & Hl & Hi & _ & Hc).
  unfold record in Hrec. rewrite (layer_at_cell Hch g p l i eq_refl Hc) in Hrec. cbn [mbind option_bind] in Hrec. unfold decode in Hrec.
  apply bind_Some in Hrec as (ps & _ & Hrec). apply bind_Some in Hrec as (id & Hid & Hrec). apply bind_Some in Hrec as (r & Hr & Hrec).
  apply bind_Some in Hrec as (tree & Htree & Hrec). apply bind_Some in Hrec as (qs & _ & Hrec). apply bind_Some in Hrec as (time & Ht & Hrec).
  apply bind_Some in Hrec as (lev & Hlev & Hrec). apply bind_Some in Hrec as (date & Hdate & [= <-]).
  destruct (layer_id_at Hl i Hi) as (id' & Hid' & Hok & Hf & _). rewrite Hid in Hid'. injection Hid' as <-.
  destruct (record_at l i (lk_records _ _ Hl) Hi) as (r' & Hr' & Hbr & Hlr). rewrite Hr in Hr'. injection Hr' as <-.
  destruct (high_low_at l i (lk_records _ _ Hl) Hi) as (high & low & Ht' & Hlev' & Hh & Hlo). rewrite Ht in Ht'. injection Ht' as ->. rewrite Hlev in Hlev'. injection Hlev' as ->.
  pose proof (width_pos l) as Hw. unfold CommitGraph.id in Htree. rewrite (lk_format _ _ Hl) in Htree.
  assert (tree = make_id fmt (take (Z.to_nat (width l)) r)) as ->.
  { destruct (from_bytes fmt _) as [x|] eqn:E; cbn in Htree; [|done]. apply Trees.from_bytes_Ok in E as [-> _]. by injection Htree. }
  assert (zlen (take (Z.to_nat (width l)) r) = digest_len fmt) as Hz by (rewrite zlen_take; unfold width in *; rewrite (lk_format _ _ Hl) in *; lia).
  split_and!; try done; cbn.
  - destruct fmt; split; try done; by apply Objects.bytes_ok_take.
  - by destruct fmt.
  - apply Z.lor_nonneg. split; [|lia]. apply Z.shiftl_nonneg, Z.land_nonneg. lia.
  - apply Z.shiftr_nonneg. lia.
  - intros d ->. unfold layer_corrected_date in Hdate. destruct (offsets l) as [r0|]; [|done].
    apply bind_Some in Hdate as (tb & _ & Hdate). apply bind_Some in Hdate as (lg & _ & Hdate). apply bind_Some in Hdate as (tm & _ & Hdate).
    apply bind_Some in Hdate as (d' & Hd & [= ->]). destruct (corrected_date tb lg i tm) eqn:E; cbn in Hd; [|done]. injection Hd as ->. by eapply corrected_date_max.
Qed.

Lemma cmp_same_format a b : id_format a = id_format b -> id_cmp a b = bytes_cmp (id_bytes a) (id_bytes b).
Proof using. by destruct a, b. Qed.

Lemma Sorted_adjacent {A} (R : relation A) l : (forall i x y, l !! i = Some x -> l !! S i = Some y -> R x y) -> Sorted R l.
Proof using.
  induction l as [|x l IH]; intros H; constructor; [apply IH; intros i; apply (H (S i))|]. destruct l as [|y l]; constructor. by apply (H 0%nat).
Qed.

Lemma Sorted_lookup {A} (R : relation A) l i x y : Sorted R l -> l !! i = Some x -> l !! S i = Some y -> R x y.
Proof using.
  intros Hs. revert i. induction Hs as [|a l Hs IH Hd]; intros i; [done|]. destruct i as [|i]; [|apply IH].
  cbn. intros [= ->]. destruct l as [|b l]; [done|]. intros [= ->]. by inversion Hd.
Qed.

Lemma totals_match (cs : list GraphCommit) (cls : list cell) : Forall2 (fun c cl => zlen (gc_parents c) = zlen (parents_cell cl)) cs cls ->
  parents_total cs = zlen (concat (parents_cell <$> cls)).
Proof using.
  induction 1 as [|c cl cs cls Hc _ IH]; [done|]. rewrite fmap_cons. cbn [concat]. rewrite zlen_app. unfold parents_total in *. cbn [foldr]. lia.
Qed.

Lemma parents_total_perm a b : a ≡ₚ b -> parents_total a = parents_total b.
Proof using. unfold parents_total. induction 1; cbn [foldr]; lia. Qed.

Lemma id_cmp_gt a b : id_cmp a b = Gt -> id_cmp b a = Lt.
Proof using. destruct a, b; cbn; try done; apply bytes_cmp_gt_lt. Qed.

Definition by_id (a b : GraphCommit) : comparison := id_cmp (gc_id a) (gc_id b).

(** Sorting distinct identities of one format. *)
Lemma sort_ids f cs : NoDup (map gc_id cs) -> Forall (commit_ok f) (sort_by by_id cs) -> Sorted id_lt (sort_by by_id cs).
Proof using.
  intros Hnd Hok. assert (NoDup (map gc_id (sort_by by_id cs))) as Hnd' by by rewrite (sort_by_perm by_id cs). apply Sorted_adjacent. intros i x y Hx Hy.
  assert (cmp_le by_id x y) as Hle.
  { eapply (Sorted_lookup (cmp_le by_id)); [apply sort_by_Sorted; intros a b; apply id_cmp_gt|done|done]. }
  assert (id_format (gc_id x) = id_format (gc_id y)) as Hf.
  { eapply Forall_lookup_1 in Hok as Hox; [|exact Hx]. eapply Forall_lookup_1 in Hok as Hoy; [|exact Hy]. destruct Hox as (_ & -> & _), Hoy as (_ & -> & _). done. }
  unfold cmp_le, by_id in Hle. unfold id_lt. rewrite cmp_same_format in Hle by done.
  destruct (bytes_cmp (id_bytes (gc_id x)) (id_bytes (gc_id y))) eqn:E; [|done|done]. exfalso. apply bytes_cmp_eq in E. apply id_bytes_inj in E; [|done].
  assert (i = S i); [|lia]. rewrite NoDup_alt in Hnd'. eapply (Hnd' i (S i) (gc_id x)); apply list_lookup_fmap_Some; [by exists x|by exists y].
Qed.

(** The records in order of position. *)
Lemma records_total : exists cs, mapM (record g) (seqZ 0 total) = Some cs /\ zlen cs = total /\
  forall p c, zget p cs = Some c <-> 0 <= p < total /\ record g p = Some c.
Proof using Hg.
  pose proof (commits_nonneg fmt (layers g) (ch_layers _ _ (gk_chain _ _ _ Hg))) as H0.
  assert (is_Some (mapM (record g) (seqZ 0 total))) as [cs Hcs].
  { apply mapM_is_Some, Forall_forall. intros p Hp%elem_of_seqZ. destruct (record_at_total Hg p) as (c & cl & _ & Hc & _); [lia|]. by exists c. }
  exists cs. split; [done|]. apply mapM_Some in Hcs. pose proof (Forall2_length _ _ _ Hcs) as Hlen. rewrite length_seqZ in Hlen. split; [unfold zlen; lia|].
  intros p c. rewrite zget_Some. split.
  - intros [Hp Hc]. pose proof (lookup_lt_Some _ _ _ Hc). destruct (Forall2_lookup_r _ _ _ _ _ Hcs Hc) as (q & Hq & Hr). rewrite lookup_seqZ_lt in Hq by lia.
    injection Hq as <-. replace (0 + Z.of_nat (Z.to_nat p)) with p in Hr by lia. split; [lia|done].
  - intros [Hp Hr]. split; [lia|]. destruct (Forall2_lookup_l _ _ _ (Z.to_nat p) p Hcs) as (c' & Hc' & Hr'); [rewrite lookup_seqZ_lt by lia; f_equal; lia|]. congruence.
Qed.

Lemma record_ids p c : 0 <= p < total -> record g p = Some c -> id_at g p = Some (gc_id c).
Proof using Hg. intros Hp Hr. destruct (record_at_total Hg p Hp) as (c' & _ & _ & Hr' & Hid & _). rewrite Hr in Hr'. by injection Hr' as <-. Qed.

Lemma records_sorted cs : (length (layers g) <= 1)%nat -> (forall p c, zget p cs = Some c <-> 0 <= p < total /\ record g p = Some c) -> Sorted id_lt cs.
Proof using Hg.
  intros Hone Hcs. pose proof (gk_chain _ _ _ Hg) as Hch. apply Sorted_adjacent. intros i x y Hx Hy.
  assert (zget (Z.of_nat i) cs = Some x) as [Hp Hrx]%Hcs by (apply zget_Some; rewrite Nat2Z.id; split; [lia|done]).
  assert (zget (Z.of_nat (S i)) cs = Some y) as [Hq Hry]%Hcs by (apply zget_Some; rewrite Nat2Z.id; split; [lia|done]).
  pose proof (record_ids _ _ Hp Hrx) as Hidx. pose proof (record_ids _ _ Hq Hry) as Hidy.
  destruct (cell_total Hch _ Hp) as (k & l & j & Hk & Hl & Hj & Hpos & Hc), (cell_total Hch _ Hq) as (k' & l' & j' & Hk' & Hl' & Hj' & Hpos' & Hc').
  pose proof (lookup_lt_Some _ _ _ Hk). pose proof (lookup_lt_Some _ _ _ Hk'). assert (k = k') as <- by lia. rewrite Hk in Hk'. injection Hk' as <-.
  unfold id_at in Hidx, Hidy. rewrite (layer_at_cell Hch g _ _ _ eq_refl Hc) in Hidx. rewrite (layer_at_cell Hch g _ _ _ eq_refl Hc') in Hidy. cbn [mbind option_bind] in *.
  destruct (layer_id_at Hl j Hj) as (a & Ha & _ & _ & Hna), (layer_id_at Hl j' Hj') as (b & Hb & _ & _ & Hnb).
  rewrite Ha in Hidx. rewrite Hb in Hidy. injection Hidx as ->. injection Hidy as ->. unfold id_lt. apply (lk_sorted _ _ Hl j j'); [lia|lia|done|done].
Qed.

(** [CommitGraph::commits]: every record once, in ascending order of identity. *)
Lemma commits_spec : exists cs, commits g = Some cs /\ zlen cs = total /\ Forall (commit_ok fmt) cs /\ Sorted id_lt cs /\ NoDup (map gc_id cs) /\
  (forall c, c ∈ cs <-> exists p, 0 <= p < total /\ record g p = Some c) /\ parents_total cs = zlen (parents_in (layers g)).
Proof using Hg.
  destruct records_total as (cs & Hcs & Hlen & Hget). pose proof (gk_chain _ _ _ Hg) as Hch.
  assert (forall c, c ∈ cs <-> exists p, 0 <= p < total /\ record g p = Some c) as Hin.
  { intros c. split.
    - intros [k Hk]%list_elem_of_lookup_1. exists (Z.of_nat k). apply Hget, zget_Some. rewrite Nat2Z.id. split; [lia|done].
    - intros (p & H%Hget). apply zget_Some in H as [_ H]. by eapply list_elem_of_lookup_2. }
  assert (NoDup (map gc_id cs)) as Hnd.
  { apply NoDup_alt. intros i j id (x & -> & Hx)%list_lookup_fmap_Some (y & Hxy & Hy)%list_lookup_fmap_Some.
    assert (zget (Z.of_nat i) cs = Some x) as [Hp Hrx]%Hget by (apply zget_Some; rewrite Nat2Z.id; split; [lia|done]).
    assert (zget (Z.of_nat j) cs = Some y) as [Hq Hry]%Hget by (apply zget_Some; rewrite Nat2Z.id; split; [lia|done]).
    apply record_ids in Hrx, Hry; [|done..]. rewrite <- Hxy in Hry. pose proof (id_at_inj Hch g _ _ _ eq_refl Hp Hq Hrx Hry). lia. }
  assert (parents_total cs = zlen (parents_in (layers g))) as Htot.
  { apply totals_match, Forall2_same_length_lookup. pose proof (zlen_cells fmt (layers g) (ch_layers _ _ Hch)) as Hz. split; [unfold zlen in *; lia|].
    intros k c cl Hc Hcl. assert (zget (Z.of_nat k) cs = Some c) as [Hp Hr]%Hget by (apply zget_Some; rewrite Nat2Z.id; split; [lia|done]).
    destruct (record_at_total Hg _ Hp) as (c' & cl' & Hcl' & Hr' & _ & Hall & _). rewrite Hr in Hr'. injection Hr' as <-.
    assert (cl' = cl) as -> by (apply zget_Some in Hcl' as [_ H]; rewrite Nat2Z.id in H; congruence).
    apply Forall2_length in Hall. unfold GraphChain.parents_at in Hall. rewrite Hcl' in Hall. cbn in Hall. unfold zlen. by rewrite Hall. }
  unfold commits. rewrite (graph_len Hg), Hcs. cbn [mbind option_bind]. eexists. split; [done|].
  destruct (Z.ltb_spec 1 (zlen (layers g))) as [Hmany|Hone].
  - fold by_id. pose proof (sort_by_perm by_id cs) as Hperm.
    assert (NoDup (map gc_id (sort_by by_id cs))) as Hnd' by (by rewrite Hperm).
    assert (Forall (commit_ok fmt) (sort_by by_id cs)) as Hok.
    { apply Forall_forall. intros c Hc. rewrite Hperm in Hc. apply Hin in Hc as (p & Hp & Hr). by eapply record_commit_ok. }
    split_and!; try done.
    + unfold zlen in *. by rewrite Hperm.
    + by apply (sort_ids fmt).
    + intros c. by rewrite Hperm.
    + by rewrite (parents_total_perm _ _ Hperm).
  - split_and!; try done.
    + apply Forall_forall. intros c (p & Hp & Hr)%Hin. by eapply record_commit_ok.
    + apply records_sorted; [unfold zlen in Hone; lia|done].
Qed.
End Commits.

(** ** What the writer accepts *)

(** A commit whose fields fit a record. *)
Definition fits (c : GraphCommit) : Prop :=
  gc_commit_time c < 2 ^ 34 /\ gc_generation c <= 0x3fffffff /\ forall d, gc_corrected_commit_date c = Some d -> gc_commit_time c <= d.

Lemma corrected_date_after table large i time d : bytes_ok table -> bytes_ok large -> corrected_date table large i time = Ok d -> time <= d.
Proof.
  intros Ht Hl. unfold corrected_date. intros (o & Ho & (o' & Ho' & H%ok_or_Ok)%rbind_Ok)%rbind_Ok. destruct (Z.leb_spec (time + o') u64_max); [|done]. injection H as <-.
  assert (0 <= o'); [|lia]. destruct (negb _).
  - apply ok_inj in Ho' as <-. apply read_be_Ok in Ho as (_ & _ & f & Hf & ->); [|lia]. by eapply (field_bound _ 4 table).
  - destruct (bytes_eqb large []); [done|]. apply rbind_Ok in Ho' as (pos & _ & H'). apply read_be_Ok in H' as (_ & _ & f & Hf & ->); [|lia]. by eapply (field_bound _ 8 large).
Qed.

Lemma record_fits {fmt limits g} (Hg : graph_ok fmt limits g) p c : 0 <= p < commits_of (layers g) -> record g p = Some c -> fits c.
Proof.
  intros Hp Hrec. pose proof (gk_chain _ _ _ Hg) as Hch. destruct (cell_total Hch p Hp) as (k & l & i & Hk & Hl & Hi & _ & Hc).
  unfold record in Hrec. rewrite (layer_at_cell Hch g p l i eq_refl Hc) in Hrec. cbn [mbind option_bind] in Hrec. unfold decode in Hrec.
  apply bind_Some in Hrec as (ps & _ & Hrec). apply bind_Some in Hrec as (id & _ & Hrec). apply bind_Some in Hrec as (r & _ & Hrec).
  apply bind_Some in Hrec as (tree & _ & Hrec). apply bind_Some in Hrec as (qs & _ & Hrec). apply bind_Some in Hrec as (time & Ht & Hrec).
  apply bind_Some in Hrec as (lev & Hlev & Hrec). apply bind_Some in Hrec as (date & Hdate & [= <-]).
  destruct (high_low_at l i (lk_records _ _ Hl) Hi) as (high & low & Ht' & Hlev' & Hh & Hlo). rewrite Ht in Ht'. injection Ht' as ->. rewrite Hlev in Hlev'. injection Hlev' as ->.
  split_and!; cbn.
  - change 3 with (2 ^ 2 - 1). rewrite land_low_mod by lia. change (2 ^ 2) with 4. rewrite Z.lor_comm, lor_shiftl by lia. pose proof (Z.mod_pos_bound high 4). lia.
  - rewrite Z.shiftr_div_pow2 by lia. assert (high / 2 ^ 2 < 2 ^ 30); [|lia]. apply Z.div_lt_upper_bound; lia.
  - intros d ->. unfold layer_corrected_date in Hdate. destruct (offsets l) as [r0|]; [|done].
    apply bind_Some in Hdate as (tb & Htb & Hdate). apply bind_Some in Hdate as (lg & Hlg & Hdate). apply bind_Some in Hdate as (tm & Htm & Hdate).
    apply bind_Some in Hdate as (d' & Hd & [= ->]). rewrite Ht in Htm. injection Htm as <-. destruct (lk_trailer _ _ Hl) as [Hb _].
    destruct (corrected_date tb lg i _) eqn:E; cbn in Hd; [|done]. injection Hd as ->. eapply corrected_date_after in E; [done| |]; by eapply bytes_ok_slice.
Qed.

Lemma encoded_parents_total positions ps : Forall (fun p => is_Some (positions !! p)) ps -> exists qs, encoded_parents positions ps = Ok qs.
Proof.
  induction 1 as [|p ps [q Hq] _ [qs Hqs]]; cbn [encoded_parents]; [by eexists|]. rewrite Hq. cbn [ok_or rbind]. rewrite Hqs. by eexists.
Qed.

(** The writer's tables grow by at most four bytes a parent and eight a commit, so their
    positions fit; it needs a corrected date for every commit. *)
Lemma encode_commits_total positions cs t : Forall fits cs -> Forall (fun c => Forall (fun p => is_Some (positions !! p)) (gc_parents c)) cs ->
  Forall (fun c => is_Some (gc_corrected_commit_date c)) cs ->
  zlen (t_edges t) + 4 * parents_total cs <= 2 ^ 32 -> zlen (t_overflow t) + 8 * zlen cs <= 2 ^ 32 -> exists t', encode_commits positions cs t = Ok t'.
Proof.
  intros Hfit. revert t. induction Hfit as [|c cs (Ht & Hg & Hd) _ IH]; intros t Hps Hdates He Ho; cbn [encode_commits]; [by eexists|].
  apply Forall_cons in Hps as [Hp Hps]. apply Forall_cons in Hdates as [[d Hdate] Hdates]. specialize (Hd d Hdate).
  destruct (encoded_parents_total _ _ Hp) as [qs Hqs]. destruct (encoded_parents_length _ _ _ Hqs) as [Hlen _].
  assert (parents_total (c :: cs) = zlen qs + parents_total cs) as Htot by (unfold parents_total; cbn [foldr]; unfold zlen; by rewrite Hlen).
  pose proof (zlen_nonneg qs). assert (0 <= parents_total cs). { unfold parents_total. clear. induction cs as [|x cs IH]; cbn [foldr]; [lia|]. pose proof (zlen_nonneg (gc_parents x)). lia. }
  assert (exists second edge_bytes, second_parent qs (t_edges t) = Ok (second, edge_bytes) /\ zlen edge_bytes <= zlen (t_edges t) + 4 * zlen qs) as (second & edge_bytes & Hsec & Hle).
  { unfold second_parent. pose proof (zlen_nonneg (t_edges t)). destruct (Z.ltb_spec 2 (zlen qs)) as [Hgt|_]; [|do 2 eexists; split; [done|lia]].
    assert (zlen (t_edges t) / 4 <= u32_max) as Hq by (unfold u32_max; apply Z.div_le_upper_bound; lia). destruct (Z.ltb_spec u32_max (zlen (t_edges t) / 4)); [lia|].
    do 2 eexists. split; [done|]. rewrite extra_edges_run, zlen_app, zlen_run, zlen_drop. lia. }
  rewrite zlen_cons in Ho. pose proof (zlen_nonneg cs). pose proof (zlen_nonneg (t_overflow t)).
  assert (exists enc large, encode_offset (d - gc_commit_time c) (t_overflow t) = Ok (enc, large) /\ zlen large <= zlen (t_overflow t) + 8) as (enc & large & Henc & Hlarge).
  { unfold encode_offset. destruct (_ <=? _); [do 2 eexists; split; [done|lia]|].
    assert (zlen (t_overflow t) / 8 <= u32_max) as Hq by (unfold u32_max; apply Z.div_le_upper_bound; lia). destruct (Z.ltb_spec u32_max (zlen (t_overflow t) / 8)); [lia|].
    do 2 eexists. split; [done|]. rewrite zlen_app, zlen_be_encode. lia. }
  unfold encode_commit. rewrite Hqs. cbn [rbind]. rewrite Hsec. cbn [rbind]. change (Z.shiftl 1 34) with (2 ^ 34).
  destruct (Z.leb_spec (2 ^ 34) (gc_commit_time c)); [lia|]. destruct (Z.ltb_spec 0x3fffffff (gc_generation c)); [lia|]. cbn [orb].
  rewrite Hdate. cbn [mbind option_bind]. rewrite checked_sub_le by done. cbn [ok_or rbind]. rewrite Henc. cbn [rbind].
  apply IH; try done; cbn [t_edges t_overflow]; lia.
Qed.

(** Without bounds on the tables only their positions can overflow. *)
Definition too_many (e : GraphWriteError) : Prop := e = InGraph (bad "extra edge position") \/ e = InGraph (bad "generation overflow position").

Lemma encode_commits_refused positions cs t e : Forall fits cs -> Forall (fun c => Forall (fun p => is_Some (positions !! p)) (gc_parents c)) cs ->
  Forall (fun c => is_Some (gc_corrected_commit_date c)) cs -> encode_commits positions cs t = Err e -> too_many e.
Proof.
  intros Hfit. revert t. induction Hfit as [|c cs (Ht & Hg & Hd) _ IH]; intros t Hps Hdates; cbn [encode_commits]; [done|].
  apply Forall_cons in Hps as [Hp Hps]. apply Forall_cons in Hdates as [[d Hdate] Hdates]. specialize (Hd d Hdate). destruct (encoded_parents_total _ _ Hp) as [qs Hqs].
  assert (forall e, encode_commit positions c t = Err e -> too_many e) as Hone.
  { intros e'. unfold encode_commit. rewrite Hqs. cbn [rbind]. destruct (second_parent qs (t_edges t)) as [[second edge_bytes]|e1] eqn:E1; cbn [rbind].
    2:{ intros [= <-]. left. unfold second_parent in E1. destruct (2 <? _); [|done]. destruct (_ <? _); [|done]. congruence. }
    change (Z.shiftl 1 34) with (2 ^ 34). destruct (Z.leb_spec (2 ^ 34) (gc_commit_time c)); [lia|]. destruct (Z.ltb_spec 0x3fffffff (gc_generation c)); [lia|]. cbn [orb].
    rewrite Hdate. cbn [mbind option_bind]. rewrite checked_sub_le by done. cbn [ok_or rbind].
    destruct (encode_offset (d - gc_commit_time c) (t_overflow t)) as [[enc large]|e2] eqn:E2; cbn [rbind]; [done|]. intros [= <-]. right.
    unfold encode_offset in E2. destruct (_ <=? _); [done|]. destruct (_ <? _); [|done]. congruence. }
  destruct (encode_commit positions c t) as [t'|e1]; cbn [rbind]; [by apply IH|]. intros [= <-]. by apply Hone.
Qed.

Lemma skip_bucket_total rest bucket cnt : Forall (fun c => id_bytes (gc_id c) <> []) rest -> exists rest' cnt', skip_bucket rest bucket cnt = Ok (rest', cnt') /\
  Forall (fun c => id_bytes (gc_id c) <> []) rest'.
Proof.
  intros H. revert cnt. induction H as [|c rest Hc Hrest IH]; intros cnt; cbn [skip_bucket]; [do 2 eexists; split; [done|constructor]|].
  destruct (id_bytes (gc_id c)) as [|b bs] eqn:E; [done|]. cbn [head ok_or rbind]. destruct (b <=? bucket); [apply IH|]. do 2 eexists. split; [done|]. constructor; [by rewrite E|done].
Qed.

Lemma encode_fanout_total n rest bucket cnt acc : Forall (fun c => id_bytes (gc_id c) <> []) rest -> exists fan, encode_fanout n rest bucket cnt acc = Ok fan.
Proof.
  revert rest bucket cnt acc. induction n as [|n IH]; intros rest bucket cnt acc H; cbn [encode_fanout]; [by eexists|].
  destruct (skip_bucket_total rest bucket cnt H) as (rest' & cnt' & -> & H'). cbn [rbind]. by apply IH.
Qed.

Lemma total_size_total cs s : exists r, total_size cs s = r /\ (is_ok r = false -> r = Err (InGraph (Limit "output bytes"))).
Proof.
  eexists. split; [done|]. revert s. induction cs as [|[tag d] cs IH]; intros s; cbn [total_size]; [done|].
  destruct (checked_add s (zlen d)) as [s'|]; cbn [ok_or rbind]; [apply IH|done].
Qed.

(** ** The written file is a file of bytes *)

Definition tables_bytes (t : Tables) : Prop :=
  bytes_ok (t_ids t) /\ bytes_ok (t_data t) /\ bytes_ok (t_edges t) /\ bytes_ok (t_generation t) /\ bytes_ok (t_overflow t).

Lemma no_tables_bytes : tables_bytes no_tables.
Proof. unfold tables_bytes. cbn. split_and!; constructor. Qed.

Lemma run_bytes ps : bytes_ok (run ps).
Proof.
  induction ps as [|p [|q ps] IH]; [constructor|apply bytes_ok_be_encode|]. change (run (p :: q :: ps)) with (be_encode 4 p ++ run (q :: ps)).
  apply bytes_ok_app. split; [apply bytes_ok_be_encode|exact IH].
Qed.

Lemma encode_commit_bytes fmt positions c t t' : commit_ok fmt c -> tables_bytes t -> encode_commit positions c t = Ok t' -> tables_bytes t'.
Proof.
  intros Hc (B1 & B2 & B3 & B4 & B5). unfold encode_commit. intros (ps & _ & ([second edge_bytes] & Hsec & H)%rbind_Ok)%rbind_Ok.
  destruct (_ || _); [done|]. apply rbind_Ok in H as (offset & _ & H). apply rbind_Ok in H as ([enc large] & Henc & <-%ok_inj).
  destruct Hc as ([Hid _] & _ & [Htree _] & _). unfold tables_bytes. cbn [t_ids t_data t_edges t_generation t_overflow]. split_and!.
  - apply bytes_ok_app. done.
  - repeat first [apply bytes_ok_be_encode | done | apply bytes_ok_app; split].
  - unfold second_parent in Hsec. destruct (2 <? _); [destruct (u32_max <? _); [done|]|]; apply ok_inj, pair_equal_spec in Hsec as [_ <-]; [|done].
    rewrite extra_edges_run. apply bytes_ok_app. split; [done|apply run_bytes].
  - apply bytes_ok_app. split; [done|apply bytes_ok_be_encode].
  - unfold encode_offset in Henc. destruct (offset <=? _); [|destruct (u32_max <? _); [done|]]; apply ok_inj, pair_equal_spec in Henc as [_ <-]; [done|].
    apply bytes_ok_app. split; [done|apply bytes_ok_be_encode].
Qed.

Lemma encode_commits_bytes fmt positions cs t t' : Forall (commit_ok fmt) cs -> tables_bytes t -> encode_commits positions cs t = Ok t' -> tables_bytes t'.
Proof.
  intros Hcs. revert t. induction Hcs as [|c cs Hc _ IH]; intros t Ht; cbn [encode_commits]; [by intros [= <-]|].
  intros (t1 & H1 & H2)%rbind_Ok. eapply IH; [|done]. by eapply encode_commit_bytes.
Qed.

Lemma encode_fanout_bytes n rest bucket cnt acc fan : bytes_ok acc -> encode_fanout n rest bucket cnt acc = Ok fan -> bytes_ok fan.
Proof.
  revert rest bucket cnt acc. induction n as [|n IH]; intros rest bucket cnt acc Ha; cbn [encode_fanout]; [by intros [= <-]|].
  intros ([rest' cnt'] & _ & H)%rbind_Ok. eapply IH; [|done]. apply bytes_ok_app. split; [done|apply bytes_ok_be_encode].
Qed.

Lemma file_chunks_bytes fan t hashes : bytes_ok fan -> tables_bytes t -> bytes_ok hashes ->
  Forall (fun c => bytes_ok c.1 /\ bytes_ok c.2) (file_chunks fan t hashes).
Proof.
  intros Hf (B1 & B2 & B3 & B4 & B5) Hh.
  assert (forall tag d cs, bytes_ok tag -> bytes_ok d -> Forall (fun c => bytes_ok c.1 /\ bytes_ok c.2) cs -> Forall (fun c => bytes_ok c.1 /\ bytes_ok c.2) (BTree.insert tag d cs)) as Hins.
  { intros tag d cs Ht Hd Hall. apply Forall_forall. intros c [-> |Hc]%BTree.insert_keys; [done|]. by eapply Forall_forall in Hall. }
  unfold file_chunks. destruct (bytes_eqb (t_edges t) []), (bytes_eqb (t_overflow t) []), (bytes_eqb hashes []); repeat (apply Hins; [apply bytes_ok_bstr|done|]); constructor.
Qed.

Lemma table_of_bytes cs off : Forall (fun c => bytes_ok c.1 /\ bytes_ok c.2) cs -> bytes_ok (concat (map entry (table_of cs off))).
Proof.
  intros H. revert off. induction H as [|[tag d] cs [Ht _] _ IH]; intros off; cbn [table_of map concat]; unfold entry at 1; cbn [fst snd].
  - apply bytes_ok_app. split; [apply bytes_ok_app; split; [by repeat constructor|apply bytes_ok_be_encode]|constructor].
  - apply bytes_ok_app. split; [apply bytes_ok_app; split; [done|apply bytes_ok_be_encode]|apply IH].
Qed.

Lemma parents_total_nonneg cs : 0 <= parents_total cs.
Proof. unfold parents_total. induction cs as [|c cs IH]; cbn [foldr]; [lia|]. pose proof (zlen_nonneg (gc_parents c)). lia. Qed.

Section File.
Context (sha1 sha256 : bytes -> bytes).
Context (Hsha1 : forall bs, bytes_ok (sha1 bs) /\ zlen (sha1 bs) = 20) (Hsha256 : forall bs, bytes_ok (sha256 bs) /\ zlen (sha256 bs) = 32).

Lemma written_bytes fmt cs positions first hs bs : writable fmt cs positions first hs -> encode_records sha1 sha256 fmt cs positions (concat (map id_bytes hs)) = Ok bs -> bytes_ok bs.
Proof using Hsha1 Hsha256.
  intros W Hbs. destruct (encoded_parts sha1 sha256 fmt cs positions first hs W bs Hbs) as (fan & t & Hfan & Ht & -> & _).
  assert (Forall (fun c => bytes_ok c.1 /\ bytes_ok c.2) (file_chunks fan t (concat (map id_bytes hs)))) as Hall.
  { apply file_chunks_bytes; [eapply encode_fanout_bytes; [|exact Hfan]; constructor|eapply encode_commits_bytes; [apply (wr_commits _ _ _ _ _ W)|exact no_tables_bytes|exact Ht]|].
    apply Forall_concat, Forall_map. eapply Forall_impl; [apply (wr_hashes _ _ _ _ _ W)|]. by intros h [[Hh _] _]. }
  rewrite render_body. apply bytes_ok_app. split; [|apply (checksum_ok sha1 sha256 Hsha1 Hsha256)]. unfold file_body. apply bytes_ok_app. split; [apply bytes_ok_app; split; [apply bytes_ok_bstr|]|].
  - assert (forall z, byte_ok (wrap8 z)) as Hw by (intros z; unfold byte_ok, wrap8; apply Z.mod_pos_bound; lia).
    repeat (apply Forall_cons; split; [try apply Hw; try (destruct fmt; unfold byte_ok; lia)|]). constructor.
  - apply bytes_ok_app. split; [by apply table_of_bytes|]. apply Forall_concat, Forall_map. eapply Forall_impl; [exact Hall|]. by intros c [_ H].
Qed.

Lemma written_container fmt cs positions first hs bs : writable fmt cs positions first hs -> encode_records sha1 sha256 fmt cs positions (concat (map id_bytes hs)) = Ok bs ->
  zget 7 bs = Some (zlen hs) /\ zlen bs <= max_bytes default_limits.
Proof using Hsha1 Hsha256.
  intros W Hbs. destruct (encoded_parts sha1 sha256 fmt cs positions first hs W bs Hbs) as (fan & t & _ & _ & -> & Hsize).
  destruct (file_chunks_get fan t (concat (map id_bytes hs))) as (Hok & _). pose proof (wr_bases _ _ _ _ _ W). pose proof (zlen_nonneg hs). split.
  - apply (render_bases sha1 sha256 fmt _ (zlen hs) Hok). lia.
  - rewrite (zlen_render sha1 sha256 Hsha1 Hsha256 fmt _ (zlen hs) Hok). exact Hsize.
Qed.

(** A file within its size limit has few commits and parents. *)
Lemma written_sizes fmt cs positions first hs bs : writable fmt cs positions first hs -> encode_records sha1 sha256 fmt cs positions (concat (map id_bytes hs)) = Ok bs ->
  zlen cs <= 2 ^ 27 /\ parents_total cs <= 2 ^ 29.
Proof using.
  intros W Hbs. destruct (encoded_parts sha1 sha256 fmt cs positions first hs W bs Hbs) as (fan & t & _ & Ht & _ & Hsize).
  pose proof (encode_commits_ok fmt positions cs t (wr_commits _ _ _ _ _ W) Ht) as T. pose proof (digest_len_cases fmt) as Hw.
  destruct (file_chunks_get fan t (concat (map id_bytes hs))) as (Hok & _ & _ & _ & G4 & G5 & _). set (chs := file_chunks fan t (concat (map id_bytes hs))) in *.
  change (max_bytes default_limits) with 536870912 in Hsize. pose proof (zlen_nonneg chs).
  assert (forall tag d, BTree.get tag chs = Some d -> zlen d <= 536870912) as Hbound.
  { intros tag d Hd%BTree.get_elem%data_size_at; [lia|apply Hok]. }
  pose proof (Hbound _ _ G4) as Hg. rewrite (tk_generation _ _ _ _ T) in Hg. split; [lia|].
  assert (zlen (t_edges t) <= 536870912) as He.
  { unfold some_unless in G5. destruct (bytes_eqb (t_edges t) []) eqn:E; [apply bytes_eqb_eq in E; rewrite E; change (zlen (@nil Z)) with 0; lia|eauto]. }
  pose proof (tk_parents _ _ _ _ T) as Hp. assert (zlen (t_edges t) / 4 <= 134217728) by (apply Z.div_le_upper_bound; lia). lia.
Qed.

(** ** Parsing what was written *)

Lemma no_duplicate fmt n l i : layer_ok fmt l -> 0 <= i -> i + Z.of_nat n = count l -> any_duplicate n l [] i = Some false.
Proof using.
  intros Hl. revert i. induction n as [|n IH]; intros i Hi Hn; cbn [any_duplicate]; [done|].
  destruct (layer_id_at Hl i) as (id & -> & _); [lia|]. cbn [mbind option_bind any_find]. apply IH; lia.
Qed.

Lemma header_zlen bs fmt limits limits' : header bs fmt limits = Ok tt -> zlen bs <= max_bytes limits' -> header bs fmt limits' = Ok tt.
Proof using.
  unfold header. destruct (Z.ltb_spec (max_bytes limits) (zlen bs)); [done|]. intros H' Hle. destruct (Z.ltb_spec (max_bytes limits') (zlen bs)); [lia|done].
Qed.

Section Standalone.
Context (fmt : ObjectFormat) (cs : list GraphCommit) (positions : gmap ObjectId Z) (W : writable fmt cs positions 0 []).
Context (bs : bytes) (Hbs : encode_records sha1 sha256 fmt cs positions [] = Ok bs).
Context (limits : GraphLimits) (Hsize : max_bytes limits = max_bytes default_limits) (Hword : max_commits limits <= usize_max).
Context (Hcount : zlen cs <= max_commits limits) (Hparents : parents_total cs <= max_parents limits).

Lemma written_file_bytes : bytes_ok bs.
Proof using W Hbs Hsha1 Hsha256. eapply (written_bytes fmt cs positions 0 [] bs W). exact Hbs. Qed.

(** The file is accepted, and its one layer holds the tables. *)
Lemma parse_written spawned : exists g t l, parse_owned sha1 sha256 spawned bs fmt limits Verify = Ok g /\ graph_ok fmt limits g /\ layers g = [l] /\ (forall h, prepare [l] = Ok h -> history g = Ok h) /\
  tables_ok fmt positions cs t /\ over_tables fmt t l /\ count l = zlen cs /\ start l = 0 /\
  zlen (t_edges t) <= 2 ^ 30 /\ zlen (t_overflow t) <= 2 ^ 30 /\ zlen cs <= 2 ^ 30.
Proof using W Hbs Hsha1 Hsha256 Hsize Hword Hcount Hparents.
  pose proof written_file_bytes as Hb. assert (0 <= parents_total cs) as Hp0 by (eapply parents_total_nonneg).
  destruct (layer_parse_written sha1 sha256 Hsha1 Hsha256 fmt cs positions 0 [] W bs Hbs
    {| max_bytes := max_bytes limits; max_commits := max_commits limits - 0; max_parents := max_parents limits |} (max_parents limits))
    as (t & l & Hl & T & L & Hc & Hs & Hbl & He & Ho & Hn & Hh & Hsum & Hlen); [cbn [max_commits]; lia|done|lia|].
  destruct (written_container fmt cs positions 0 [] bs W Hbs) as [H7 Hmax].
  pose proof (layer_parse_spec bs fmt {| max_bytes := max_bytes limits; max_commits := max_commits limits - 0; max_parents := max_parents limits |} 0 []
    (max_parents limits) Hb Hlen ltac:(lia) ltac:(cbn [max_commits]; lia) ltac:(lia)) as Hspec. rewrite Hl in Hspec. destruct Hspec as (Hok & _).
  destruct (parse_files_returns sha1 sha256 spawned [bs] fmt limits Verify) as [Hg Heq]; [by constructor|pose proof (zlen_nonneg cs); lia|lia|].
  assert (exists g, parse_files sha1 sha256 false [bs] fmt limits Verify = Ok g /\ layers g = [l] /\ (forall h, prepare [l] = Ok h -> history g = Ok h)) as (g & Hparse & Hlayers & Hhist).
  { unfold parse_files. cbn [try_each]. rewrite (header_zlen bs fmt default_limits limits Hh) by lia. rewrite Hsum. cbn [rbind]. rewrite andb_false_r. unfold check_structure. cbn [parse_layers].
    rewrite checked_sub_le by (pose proof (zlen_nonneg cs); lia). cbn [ok_or rbind]. rewrite Hl. cbn [rbind].
    rewrite (no_duplicate fmt _ l 0 Hok) by (rewrite ?Hc; pose proof (zlen_nonneg cs); lia). cbn [ok_or rbind].
    rewrite checked_add_le by (rewrite ?Hc; lia). cbn [ok_or rbind].
    destruct (checksum_total fmt l Hok) as [hash ->]. cbn [ok_or rbind app].
    assert (chain_ok fmt [l]) as Hch by (apply (chain_snoc fmt [] l (chain_nil fmt) Hok); [done|]; by intros ? ? ? _ _ ?%not_elem_of_nil).
    pose proof (prepare_spec Hch) as Hp. destruct (prepare [l]) as [h|[reason| |]]; [| |by destruct Hp..]; cbn [rbind map zip_with]; eexists; (split; [done|]); cbn [layers history];
      (split; [rewrite <- Hbl; by destruct l|]); [by intros ? [= <-]|done]. }
  exists g, t, l. rewrite Heq, Hparse in Hg. cbn [returns] in Hg. split_and!; try done.
  unfold parse_owned. rewrite H7. cbn [Z.eqb negb]. by rewrite Heq.
Qed.

(** With the position of each parent in the file, the records of the file are the commits. *)
Context (Hplaces : forall p q, positions !! p = Some q -> exists c, zget q cs = Some c /\ gc_id c = p).

Lemma commits_written g t l : graph_ok fmt limits g -> layers g = [l] -> tables_ok fmt positions cs t -> over_tables fmt t l -> count l = zlen cs -> start l = 0 ->
  zlen (t_edges t) <= 2 ^ 30 -> zlen (t_overflow t) <= 2 ^ 30 -> zlen cs <= 2 ^ 30 -> commits g = Some cs.
Proof using W Hplaces.
  intros Hg Hls T L Hc Hs He Ho Hn. pose proof (gk_chain _ _ _ Hg) as Hch. pose proof (wr_commits _ _ _ _ _ W) as Hcs.
  assert (forall p q, positions !! p = Some q -> 0 <= q < 0x70000000) as Hpos by (intros p q Hq; apply (wr_positions _ _ _ _ _ W p q Hq)).
  assert (commits_of (layers g) = zlen cs) as Htot by (rewrite Hls; cbn; lia).
  assert (layer_ok fmt l) as Hl by (pose proof (ch_layers _ _ Hch) as H; rewrite Hls in H; by apply Forall_cons in H as [H _]).
  assert (forall q, 0 <= q < zlen cs -> layer_at g q = Some (l, q)) as Hat.
  { intros q Hq. apply (layer_at_cell Hch g q l q eq_refl). replace q with (start l + q) at 1 by lia. apply (cell_of Hch 0%nat l q); [by rewrite Hls|lia]. }
  assert (forall q c, zget q cs = Some c -> layer_id l q = Some (gc_id c)) as Hids.
  { intros q c Hq. pose proof (zget_lt _ _ _ Hq). destruct (layer_id_at Hl q) as (id & Hid & _ & Hf & Hname); [lia|].
    rewrite (layer_name_written fmt positions cs t l T L q c Hq) in Hname. injection Hname as Hname. rewrite Hid. f_equal.
    assert (commit_ok fmt c) as (_ & Hcf & _) by by eapply (commit_at fmt cs Hcs q). apply id_bytes_inj; congruence. }
  assert (forall q c, zget q cs = Some c -> record g q = Some c) as Hrec.
  { intros q c Hq. pose proof (zget_lt _ _ _ Hq) as Hr. unfold record. rewrite (Hat q Hr). cbn [mbind option_bind]. unfold decode.
    destruct (layer_record_written fmt positions cs t l T L q c Hq) as (ps & second & Hps & _ & Hlr).
    destruct (parents_written fmt positions cs t l Hcs T L ltac:(lia) Hpos q c Hq 0x70000000 (zlen ps) true ps Hps) as [-> _]; [done| |done|].
    { eapply Forall_impl; [eapply (positions_range positions Hpos c ps Hps)|]. cbn. lia. }
    cbn [mbind option_bind]. rewrite (Hids q c Hq). cbn [mbind option_bind]. rewrite Hlr. cbn [mbind option_bind].
    assert (commit_ok fmt c) as (_ & _ & [Htb Htl] & Htf & _) by by eapply (commit_at fmt cs Hcs q).
    assert (to_option (CommitGraph.id (format l) (take (Z.to_nat (width l)) (record_bytes c ps second))) = Some (gc_tree c)) as ->.
    { unfold record_bytes. rewrite (layer_width fmt t l L), (ot_format _ _ _ L). rewrite Htf in Htl. rewrite take_app_length' by (unfold zlen in Htl; lia). unfold CommitGraph.id.
      assert (from_bytes fmt (id_bytes (gc_tree c)) = Ok (gc_tree c)) as ->; [|done]. apply Trees.from_bytes_Ok. split; [|done]. rewrite <- Htf. by destruct (gc_tree c). }
    cbn [mbind option_bind].
    assert (mapM (id_at g) ps = Some (gc_parents c)) as ->.
    { apply mapM_Some. destruct (encoded_parents_length _ _ _ Hps) as [_ Hall]. apply Forall2_flip. eapply Forall2_impl; [exact Hall|]. cbn. intros p q' Hp.
      destruct (Hplaces p q' Hp) as (c' & Hc' & <-). pose proof (zget_lt _ _ _ Hc'). unfold id_at. rewrite Hat by done. cbn. by apply Hids. }
    cbn [mbind option_bind]. destruct (values_written fmt positions cs t l Hcs T L ltac:(lia) Hpos q c Hq) as [-> ->]. cbn [mbind option_bind].
    destruct (date_written fmt positions cs t l Hcs T L ltac:(lia) ltac:(lia) ltac:(lia) Hpos q c Hq) as [-> _]. cbn [mbind option_bind]. by destruct c. }
  unfold commits. rewrite (graph_len Hg), Htot, Hls. cbn [zlen length]. change (1 <? zlen [l]) with false.
  assert (mapM (record g) (seqZ 0 (zlen cs)) = Some cs) as ->; [|done]. apply mapM_Some, Forall2_same_length_lookup.
  split; [rewrite length_seqZ; unfold zlen; lia|]. intros k q c Hk Hkc. pose proof (lookup_lt_Some _ _ _ Hkc). rewrite lookup_seqZ_lt in Hk by (unfold zlen; lia). injection Hk as <-.
  apply Hrec, zget_Some. split; [lia|]. by replace (Z.to_nat (0 + Z.of_nat k)) with k by lia.
Qed.
End Standalone.

(** ** [CommitGraph::encode] *)

(** Over no base layers every commit is new, at its index. *)
Lemma new_commits_fresh base cs positions new : layers base = [] -> NoDup (map gc_id cs) -> (forall c, c ∈ cs -> positions !! gc_id c = None) ->
  Z.of_nat (size positions) + zlen cs <= 0x70000000 ->
  exists positions', new_commits base cs positions new = Ok (positions', new ++ cs) /\
    forall p q, positions' !! p = Some q <-> positions !! p = Some q \/ exists k c, cs !! k = Some c /\ gc_id c = p /\ q = Z.of_nat (size positions) + Z.of_nat k.
Proof using.
  intros Hbase. revert positions new. induction cs as [|c cs IH]; intros positions new Hnd Hfresh Hsize; cbn [new_commits].
  { exists positions. rewrite app_nil_r. split; [done|]. intros p q. split; [by left|]. intros [H|(k & c & Hk & _)]; [done|by rewrite lookup_nil in Hk]. }
  apply NoDup_cons in Hnd as [Hni Hnd]. rewrite zlen_cons in Hsize. pose proof (zlen_nonneg cs) as Hcs0.
  assert (get base (gc_id c) = Some None) as -> by (unfold get, locate; by rewrite Hbase). cbn [ok_or rbind].
  destruct (Z.ltb_spec u32_max (Z.of_nat (size positions))) as [Hbad|_]; [unfold u32_max in Hbad; lia|]. destruct (Z.leb_spec 0x70000000 (Z.of_nat (size positions))) as [Hbad|_]; [lia|]. cbn [orb].
  assert (positions !! gc_id c = None) as Hc by (apply Hfresh; left).
  assert (size (<[gc_id c := Z.of_nat (size positions)]> positions) = S (size positions)) as Hs by by apply map_size_insert_None.
  destruct (IH (<[gc_id c := Z.of_nat (size positions)]> positions) (new ++ [c]) Hnd) as (positions' & -> & Hpos); [| rewrite Hs; lia|].
  { intros c' Hc'. rewrite lookup_insert_ne; [apply Hfresh; by right|]. intros Heq. apply Hni. rewrite Heq. apply list_elem_of_fmap. by exists c'. }
  exists positions'. rewrite <- app_assoc. split; [done|]. intros p q. rewrite Hpos, Hs. split.
  - intros [H|(k & x & Hk & Hx & ->)].
    + apply lookup_insert_Some in H as [[<- <-]|[_ H]]; [right; exists 0%nat, c; split_and!; [done|done|lia]|by left].
    + right. exists (S k), x. split_and!; [done|done|lia].
  - intros [H|([|k] & x & Hk & Hx & ->)].
    + left. rewrite lookup_insert_ne; [done|]. intros <-. by rewrite Hc in H.
    + left. injection Hk as ->. rewrite <- Hx. rewrite lookup_insert_eq. f_equal. lia.
    + right. exists k, x. split_and!; [done|done|lia].
Qed.

Lemma no_bases spawned fmt : exists base, parse_chain sha1 sha256 spawned [] fmt = Ok base /\ layers base = [].
Proof using. by eexists. Qed.

(** Encoding an accepted graph is encoding its commits, each parent at the index of its
    commit. *)
Lemma encode_accepted spawned fmt g : graph_ok fmt default_limits g ->
  exists cs positions, commits g = Some cs /\ encode sha1 sha256 spawned g = encode_records sha1 sha256 fmt cs positions [] /\ writable fmt cs positions 0 [] /\
    (forall p q, positions !! p = Some q -> exists c, zget q cs = Some c /\ gc_id c = p) /\
    Forall fits cs /\ Forall (fun c => Forall (fun p => is_Some (positions !! p)) (gc_parents c)) cs /\
    zlen cs <= max_commits default_limits /\ parents_total cs <= max_parents default_limits.
Proof using.
  intros Hg. destruct (commits_spec Hg) as (cs & Hcs & Hlen & Hok & Hsort & Hnd & Hin & Htot). pose proof (gk_commits _ _ _ Hg) as Hmax. rewrite (graph_len Hg), <- Hlen in Hmax.
  change (max_commits default_limits) with 5000000 in *. destruct (no_bases spawned fmt) as (base & Hbase & Hlb).
  destruct (new_commits_fresh base cs ∅ [] Hlb Hnd) as (positions & Hnew & Hpos); [intros; apply lookup_empty|rewrite map_size_empty; lia|].
  assert (forall p q, positions !! p = Some q <-> exists c, zget q cs = Some c /\ gc_id c = p) as Hplaces.
  { intros p q. rewrite Hpos, lookup_empty, map_size_empty. split.
    - intros [?|(k & c & Hk & Hc & ->)]; [done|]. exists c. split; [|done]. apply zget_Some. split; [lia|]. by replace (Z.to_nat (Z.of_nat 0 + Z.of_nat k)) with k by lia.
    - intros (c & [Hq Hc]%zget_Some & Hp). right. exists (Z.to_nat q), c. split_and!; [done|done|lia]. }
  exists cs, positions. split_and!; try done; try lia.
  - unfold encode, encode_incremental. change (255 <? zlen (@nil bytes)) with false. rewrite (gk_format _ _ _ Hg), Hbase. cbn [map_err rbind base_positions]. rewrite Hcs. cbn [ok_or rbind]. by rewrite Hnew.
  - constructor; try done. intros p q (c & Hc & _)%Hplaces. pose proof (zget_lt _ _ _ Hc). lia.
  - intros p q. apply Hplaces.
  - apply Forall_forall. intros c (p & Hp & Hr)%Hin. by apply (record_fits Hg p).
  - apply Forall_forall. intros c (p & Hp & Hr)%Hin. destruct (record_at_total Hg p Hp) as (c' & _ & _ & Hr' & _ & Hall & _). rewrite Hr in Hr'. injection Hr' as <-.
    apply Forall_forall. intros i [k Hk]%list_elem_of_lookup_1. destruct (Forall2_lookup_r _ _ _ _ _ Hall Hk) as (q & Hq & Hid).
    assert (0 <= q < commits_of (layers g)) as Hqr by (eapply (parents_at_range Hg p); [done|by eapply list_elem_of_lookup_2]).
    destruct (record_at_total Hg q Hqr) as (x & _ & _ & Hx & Hxid & _). rewrite Hid in Hxid. injection Hxid as ->.
    assert (x ∈ cs) as [j Hj]%list_elem_of_lookup_1 by (apply Hin; eauto). exists (Z.of_nat j). apply Hplaces. exists x. split; [|done]. apply zget_Some. rewrite Nat2Z.id. split; [lia|done].
  - rewrite Htot. apply Hg.
Qed.

(** A lookup is a search among the commits. *)
Lemma get_commits {fmt limits g} cs id : graph_ok fmt limits g -> commits g = Some cs -> id_ok id -> exists r, get g id = Some r /\
  forall c, r = Some c <-> c ∈ cs /\ gc_id c = id.
Proof using.
  intros Hg Hcs Hid. destruct (commits_spec Hg) as (cs' & Hcs' & _ & _ & _ & Hnd & Hin & _). rewrite Hcs in Hcs'. injection Hcs' as <-.
  destruct (get_exact Hg id Hid) as (r & Hr & Hspec). exists r. split; [done|]. intros c. destruct r as [x|].
  - destruct Hspec as (p & Hp & Hrec & Hpid & Hx). split; [intros [= ->]; split; [apply Hin; eauto|done]|]. intros [(q & Hq & Hrq)%Hin Hcid]. f_equal.
    pose proof (record_ids Hg q c Hq Hrq) as Hqid. rewrite Hcid in Hqid. assert (p = q) as <- by by eapply (id_at_inj (gk_chain _ _ _ Hg) g). congruence.
  - split; [done|]. intros [(q & Hq & Hrq)%Hin Hcid]. exfalso. apply (Hspec q Hq). rewrite <- Hcid. by apply (record_ids Hg).
Qed.

Lemma same_commits_same_get {fmt limits limits' g g'} cs id : graph_ok fmt limits g -> graph_ok fmt limits' g' -> commits g = Some cs -> commits g' = Some cs -> id_ok id ->
  get g' id = get g id.
Proof using.
  intros Hg Hg' Hcs Hcs' Hid. destruct (get_commits cs id Hg Hcs Hid) as (r & -> & Hr), (get_commits cs id Hg' Hcs' Hid) as (r' & -> & Hr'). f_equal.
  destruct r as [c|]; [by apply Hr', Hr|]. destruct r' as [c|]; [|done]. symmetry. by apply Hr, Hr'.
Qed.

(** [encode_records] fails only for size. *)
Lemma encode_records_refused fmt cs positions hashes e : Forall (commit_ok fmt) cs -> Forall fits cs ->
  Forall (fun c => Forall (fun p => is_Some (positions !! p)) (gc_parents c)) cs -> Forall (fun c => is_Some (gc_corrected_commit_date c)) cs ->
  encode_records sha1 sha256 fmt cs positions hashes = Err e ->
  e = InGraph (Limit "output bytes") \/ too_many e /\ (2 ^ 32 < 4 * parents_total cs \/ 2 ^ 32 < 8 * zlen cs).
Proof using.
  intros Hok Hfit Hps Hdates. unfold encode_records. destruct (encode_fanout_total 256 cs 0 0 []) as [fan ->].
  { eapply Forall_impl; [exact Hok|]. intros c ([_ Hz] & _) E. rewrite E in Hz. destruct (id_format (gc_id c)); done. }
  cbn [rbind]. destruct (encode_commits positions cs no_tables) as [t|e1] eqn:Et; cbn [rbind].
  2:{ intros [= <-]. right. split; [by eapply encode_commits_refused|].
    destruct (decide (2 ^ 32 < 4 * parents_total cs)); [by left|]. destruct (decide (2 ^ 32 < 8 * zlen cs)); [by right|]. exfalso.
    destruct (encode_commits_total positions cs no_tables Hfit Hps Hdates) as [t Ht]; [change (zlen (t_edges no_tables)) with 0; lia|change (zlen (t_overflow no_tables)) with 0; lia|]. congruence. }
  cbv zeta. destruct (total_size_total (file_chunks fan t hashes) (8 + (zlen (file_chunks fan t hashes) + 1) * 12)) as (r & -> & Hr).
  destruct r as [size|e']; cbn [rbind]; [|intros [= <-]; specialize (Hr eq_refl); left; by injection Hr]. destruct (_ <? _); [intros [= <-]; by left|done].
Qed.

(** The verdict of [encode] on an accepted graph. *)
Lemma encode_verdict spawned fmt g : graph_ok fmt default_limits g ->
  match encode sha1 sha256 spawned g with
  | Ok bs => bytes_ok bs /\ exists g', parse sha1 sha256 spawned bs fmt = Ok g' /\ graph_ok fmt default_limits g' /\ commits g' = commits g /\
      forall id, id_ok id -> get g' id = get g id
  | Err e => e = InGraph (Limit "output bytes") \/ exists cs c, commits g = Some cs /\ c ∈ cs /\ gc_corrected_commit_date c = None
  end.
Proof using Hsha1 Hsha256.
  intros Hg. destruct (encode_accepted spawned fmt g Hg) as (cs & positions & Hcs & -> & W & Hplaces & Hfit & Hps & Hmax & Hpar).
  destruct (encode_records sha1 sha256 fmt cs positions []) as [bs|e] eqn:Hbs.
  - split; [by eapply (written_file_bytes fmt cs positions W bs)|].
    destruct (parse_written fmt cs positions W bs Hbs default_limits eq_refl ltac:(by vm_compute) Hmax Hpar spawned) as (g' & t & l & Hparse & Hg' & Hls & _ & T & L & Hc & Hs & He & Ho & Hn). exists g'.
    assert (commits g' = Some cs) as Hcs' by by eapply (commits_written fmt cs positions W default_limits Hplaces g' t l). rewrite Hcs, Hcs'.
    split_and!; try done.
    { unfold parse, parse_with. destruct (written_container fmt cs positions 0 [] bs W Hbs) as [_ Hz]. destruct (Z.ltb_spec (max_bytes default_limits) (zlen bs)); [lia|done]. }
    intros id Hid. by eapply same_commits_same_get.
  - destruct (decide (Forall (fun c => is_Some (gc_corrected_commit_date c)) cs)) as [Hdates|(c & Hc & Hnone)%not_Forall_Exists%Exists_exists];
      [left|right; exists cs, c; split_and!; [done|done|by apply eq_None_not_Some]|intros c; apply _].
    change (max_commits default_limits) with 5000000 in Hmax. change (max_parents default_limits) with 20000000 in Hpar.
    destruct (encode_records_refused fmt cs positions [] e (wr_commits _ _ _ _ _ W) Hfit Hps Hdates Hbs) as [-> |[_ Hbig]]; [done|lia].
Qed.
End File.

(** ** Claims *)

(** C14: A commit graph survives being written. For a graph accepted from any chain of
    files, [encode] fails only when a commit has no corrected date or when the file would
    exceed its size limit; the file it writes is accepted by [parse], and the graph read
    back lists the same commits in the same order (identities, trees, parents in order,
    times, levels and corrected dates, wherever the fields are stored) and answers every
    lookup the same way. *)
Theorem encode_roundtrip sha1 sha256 spawned files fmt g :
  (forall bs, bytes_ok (sha1 bs) /\ zlen (sha1 bs) = 20) -> (forall bs, bytes_ok (sha256 bs) /\ zlen (sha256 bs) = 32) ->
  Forall bytes_ok files -> parse_chain sha1 sha256 spawned files fmt = Ok g ->
  match encode sha1 sha256 spawned g with
  | Ok bs => exists g', parse sha1 sha256 spawned bs fmt = Ok g' /\ commits g' = commits g /\ forall id, id_ok id -> get g' id = get g id
  | Err e => e = InGraph (Limit "output bytes") \/ exists cs c, commits g = Some cs /\ c ∈ cs /\ gc_corrected_commit_date c = None
  end.
Proof.
  intros H1 H2 Hb. unfold parse_chain, parse_chain_with, parse_chain_owned. intros (u & _ & (v & _ & Hparse)%rbind_Ok)%rbind_Ok.
  destruct (parse_files_returns sha1 sha256 spawned files fmt default_limits Verify Hb) as [Hg _]; [by vm_compute|by vm_compute|]. rewrite Hparse in Hg. cbn [returns] in Hg.
  pose proof (encode_verdict sha1 sha256 H1 H2 spawned fmt g Hg) as H. destruct (encode sha1 sha256 spawned g) as [bs|e]; [|done].
  destruct H as (_ & g' & Hp & _ & Hc & Hget). by exists g'.
Qed.

(** A root, a child, a merge of three and a merge of four, with offsets in both tables. *)
Definition written_sum (n : nat) (_ : bytes) : bytes := replicate n 7.
Definition written_commit (n : Z) (ps : list Z) (level date : Z) : GraphCommit :=
  {| History.gc_id := sample_id n; History.gc_tree := sample_id (100 + n); History.gc_parents := map sample_id ps; History.gc_commit_time := 5000000000 + n;
     History.gc_generation := level; History.gc_corrected_commit_date := Some (5000000000 + n + date) |}.
Definition written_commits : list GraphCommit :=
  [written_commit 1 [] 1 0; written_commit 2 [1] 2 0; written_commit 3 [1] 2 0x100000000; written_commit 4 [1; 2; 3] 3 0x100000001;
   written_commit 150 [4; 3; 2; 1] 5 0x200000000].
Definition written_positions : gmap ObjectId Z := list_to_map (zip (map gc_id written_commits) (seqZ 0 5)).
Definition written_file : bytes :=
  default [] (to_option (encode_records (written_sum 20) (written_sum 32) FSha1 written_commits written_positions [])).
Definition written_graph : Graph := default no_graph (to_option (parse_chain (written_sum 20) (written_sum 32) false [written_file] FSha1)).

Lemma written_sum_ok n bs : bytes_ok (written_sum n bs) /\ zlen (written_sum n bs) = Z.of_nat n.
Proof. split; [apply Forall_replicate; unfold byte_ok; lia|]. unfold zlen, written_sum. by rewrite length_replicate. Qed.

Lemma written_parsed : parse_chain (written_sum 20) (written_sum 32) false [written_file] FSha1 = Ok written_graph.
Proof.
  assert (is_ok (parse_chain (written_sum 20) (written_sum 32) false [written_file] FSha1) = true) as H by (vm_compute; reflexivity).
  unfold written_graph. by destruct (parse_chain _ _ _ _ _).
Qed.

Lemma encode_roundtrip_witness : commits written_graph = Some written_commits /\ exists bs g',
  encode (written_sum 20) (written_sum 32) false written_graph = Ok bs /\ parse (written_sum 20) (written_sum 32) false bs FSha1 = Ok g' /\ commits g' = commits written_graph.
Proof.
  split; [vm_compute; reflexivity|].
  pose proof (encode_roundtrip (written_sum 20) (written_sum 32) false [written_file] FSha1 written_graph (written_sum_ok 20) (written_sum_ok 32)
    (Forall_cons_2 _ _ _ (bytes_ok_check written_file ltac:(vm_compute; reflexivity)) (Forall_nil_2 _)) written_parsed) as H.
  assert (is_ok (encode (written_sum 20) (written_sum 32) false written_graph) = true) as E by (vm_compute; reflexivity).
  destruct (encode (written_sum 20) (written_sum 32) false written_graph) as [bs|e]; [|discriminate E].
  destruct H as (g' & Hp & Hc & _). exists bs, g'. split; [reflexivity|]. split; [exact Hp|exact Hc].
Defined.
End GraphFile.
