(* ===== verification/CommitGraphBuild.v ===== *)
(** * Building a commit graph from objects ([build], [discover] and [set_generations] of
      [src/src/commit_graph/write.rs])

    Every commit reachable from the roots is read, its level and corrected date are computed
    from its parents' by a depth-first search, and the records are written as a file that is
    checked like any other.  The specialisation without cancellation. *)

From stdpp Require Import base list numbers strings sets gmap sorting.
From Stdlib Require Import ZArith Lia.
From S2P Require Import Prelude Objects Identity Commits History CommitGraph CommitGraphWrite.

Module CommitGraphBuild.
Import Objects CommitGraph CommitGraphWrite.

Notation Objects_ := (History.Objects_ Graph).

(** [Objects::read_commit_with]; the limits are the reader's. *)
Definition read_commit_with (o : Objects_) (id : ObjectId) : result ReadCommitError Commits.Commit :=
  let? object := map_err ReadFailed (History.o_read o id) in
  let? (kind, data) := ok_or object (MissingCommit id) in
  if bool_decide (kind <> KCommit) then Err (Kind id kind)
  else map_err Parse (Commits.commit_parse (History.o_format o) data).

(** The time of a commit, when the format can hold it. *)
Definition commit_seconds (c : Commits.Commit) : option Z :=
  person ← match Commits.commit_committer c with Ok p => p | Err _ => None end;
  '(seconds, _) ← to_option (Identity.date person);
  if (0 <=? seconds) && (seconds <? Z.shiftl 1 34) then Some seconds else None.

(** [discover]: the identities in order of discovery and their indices. *)
Definition discover (id : ObjectId) (max : Z) (found : list ObjectId * gmap ObjectId nat)
  : result GraphWriteError (list ObjectId * gmap ObjectId nat) :=
  let '(ids, positions) := found in
  match positions !! id with
  | Some _ => Ok (ids, positions)
  | None =>
      if max <=? zlen ids then Err (InHistory (History.Limit "commits"))
      else Ok (ids ++ [id], <[id := length ids]> positions)
  end.

Fixpoint discover_all (l : list ObjectId) (max : Z) (found : list ObjectId * gmap ObjectId nat)
  : result GraphWriteError (list ObjectId * gmap ObjectId nat) :=
  match l with
  | [] => Ok found
  | id :: l => let? found := discover id max found in discover_all l max found
  end.

(** The state of the loop that reads the commits. *)
Record Reading := { r_ids : list ObjectId; r_positions : gmap ObjectId nat; r_commits : list GraphCommit; r_remaining : Z; r_index : nat }.

(** A record before its generation is known. *)
Definition raw_commit (id : ObjectId) (c : Commits.Commit) (time : Z) : GraphCommit :=
  {| History.gc_id := id; History.gc_tree := Commits.c_tree c; History.gc_parents := Commits.c_parents c; History.gc_commit_time := time;
     History.gc_generation := 0; History.gc_corrected_commit_date := None |}.

(** One turn of the loop. *)
Definition reading_step (o : Objects_) (limits : History.HistoryLimits) (r : Reading) : Reading + result GraphWriteError Reading :=
  match r_ids r !! r_index r with
  | None => inr (Ok r)
  | Some id =>
      let next :=
        let? commit := map_err (Read id) (read_commit_with o id) in
        let? time := ok_or (commit_seconds commit) (Date id) in
        let? remaining := ok_or (checked_sub (r_remaining r) (zlen (Commits.c_parents commit))) (InHistory (History.Limit "parent occurrences")) in
        let? (ids, positions) := discover_all (Commits.c_parents commit) (History.max_commits limits) (r_ids r, r_positions r) in
        Ok {| r_ids := ids; r_positions := positions; r_commits := r_commits r ++ [raw_commit id commit time]; r_remaining := remaining; r_index := S (r_index r) |} in
      match next with Ok r => inl r | Err e => inr (Err e) end
  end.

(** Saturating addition of one to a [u32] and to a [u64]. *)
Definition succ32 (x : Z) : Z := Z.min u32_max (x + 1).
Definition succ64 (x : Z) : Z := Z.min u64_max (x + 1).

(** [commits[positions[id]]]. *)
Definition commit_of (commits : list GraphCommit) (positions : gmap ObjectId nat) (id : ObjectId) : result GraphWriteError GraphCommit :=
  let? p := ok_or (positions !! id) (InGraph Panic) in
  ok_or (commits !! p) (InGraph Panic).

(** The level and the date that the parents impose. *)
Fixpoint parent_values (commits : list GraphCommit) (positions : gmap ObjectId nat) (ps : list ObjectId) (generation date : Z)
  : result GraphWriteError (Z * Z) :=
  match ps with
  | [] => Ok (generation, date)
  | p :: ps =>
      let? parent := commit_of commits positions p in
      parent_values commits positions ps
        (Z.max generation (Z.min (succ32 (gc_generation parent)) 0x3fffffff))
        (Z.max date (succ64 (default (gc_commit_time parent) (gc_corrected_commit_date parent))))
  end.

Definition with_values (c : GraphCommit) (generation date : Z) : GraphCommit :=
  {| History.gc_id := gc_id c; History.gc_tree := gc_tree c; History.gc_parents := gc_parents c; History.gc_commit_time := gc_commit_time c;
     History.gc_generation := generation; History.gc_corrected_commit_date := Some date |}.

(** The positions of the parents. *)
Fixpoint parent_indices (positions : gmap ObjectId nat) (ps : list ObjectId) : result GraphWriteError (list Z) :=
  match ps with
  | [] => Ok []
  | p :: ps =>
      let? q := ok_or (positions !! p) (InGraph Panic) in
      let? qs := parent_indices positions ps in
      Ok (Z.of_nat q :: qs)
  end.

(** The loop of [set_generations] from one root. *)
Fixpoint assign (fuel : nat) (positions : gmap ObjectId nat) (commits : list GraphCommit) (state : list Z) (stack : list (Z * bool))
  : result GraphWriteError (list GraphCommit * list Z) :=
  match stack with
  | [] => Ok (commits, state)
  | (index, exiting) :: stack =>
      match fuel with
      | O => Err (InGraph OutOfFuel)
      | S fuel =>
          let? c := ok_or (zget index commits) (InGraph Panic) in
          let? here := ok_or (zget index state) (InGraph Panic) in
          if exiting then
            let? (generation, date) := parent_values commits positions (gc_parents c) 1 (gc_commit_time c) in
            assign fuel positions (<[Z.to_nat index := with_values c generation date]> commits) (set_state index 2 state) stack
          else if here =? 2 then assign fuel positions commits state stack
          else if here =? 1 then Err (InHistory History.Cycle)
          else
            let? mine := parent_indices positions (gc_parents c) in
            assign fuel positions commits (set_state index 1 state)
              (foldl (fun stack parent => (parent, false) :: stack) ((index, true) :: stack) (reverse mine))
      end
  end.

(** Every turn leaves, skips or enters a vertex: the fuel is the number of vertices times
    the largest number of entries a vertex pushes. *)
Definition assign_fuel (commits : list GraphCommit) : nat := 1 + length commits * (2 + length (concat (map gc_parents commits))).

Fixpoint assign_roots (n : nat) (positions : gmap ObjectId nat) (root : Z) (commits : list GraphCommit) (state : list Z)
  : result GraphWriteError (list GraphCommit) :=
  match n with
  | O => Ok commits
  | S n =>
      let? (commits, state) := assign (assign_fuel commits) positions commits state [(root, false)] in
      assign_roots n positions (root + 1) commits state
  end.

(** [set_generations]. *)
Definition set_generations (commits : list GraphCommit) (positions : gmap ObjectId nat) : result GraphWriteError (list GraphCommit) :=
  assign_roots (length commits) positions 0 commits (replicate (length commits) 0).

(** The positions of the sorted records. *)
Fixpoint number (cs : list GraphCommit) (position : Z) (positions : gmap ObjectId Z) : result GraphWriteError (gmap ObjectId Z) :=
  match cs with
  | [] => Ok positions
  | c :: cs =>
      if (position <=? u32_max) && (position <? 0x70000000) then number cs (position + 1) (<[gc_id c := position]> positions)
      else Err (InGraph (bad "commit positions"))
  end.

Definition build_limits : GraphLimits := {| max_bytes := max_bytes default_limits; max_commits := usize_max; max_parents := usize_max |}.

Section Hashing.
Context (sha1 sha256 : bytes -> bytes).

(** [CommitGraph::build], which is [from_objects_with]; [no_shallow] says whether the store
    has no shallow roots.  Every turn of the loop treats one of at most [max_commits]
    commits. *)
Definition build (spawned no_shallow : bool) (o : Objects_) (roots : list ObjectId) (limits : History.HistoryLimits) : result GraphWriteError Graph :=
  if negb no_shallow then Err Shallow
  else
    let? (ids, positions) := discover_all roots (History.max_commits limits) ([], ∅) in
    let r := {| r_ids := ids; r_positions := positions; r_commits := []; r_remaining := History.max_parents limits; r_index := 0 |} in
    match iter_until (reading_step o limits) (Z.to_pos (History.max_commits limits + 1)) r with
    | inl _ => Err (InGraph OutOfFuel)
    | inr r =>
        let? r := r in
        let? commits := set_generations (r_commits r) (r_positions r) in
        let commits := sort_by (fun a b => id_cmp (gc_id a) (gc_id b)) commits in
        let? positions := number commits 0 ∅ in
        let? bs := encode_records sha1 sha256 (History.o_format o) commits positions [] in
        map_err InGraph (parse_owned sha1 sha256 spawned bs (History.o_format o) build_limits Verify)
    end.
End Hashing.
End CommitGraphBuild.
