(* ===== verification/CommitGraphGenerations.v ===== *)
(** * Levels and corrected dates ([set_generations])

    The depth-first search of [set_generations] over the step relation of
    [CommitGraphAncestry.v]: a search that ends has given every commit the level and the
    date its parents impose; one that stops has met a commit that is its own ancestor. *)

From stdpp Require Import base list numbers strings sets gmap relations sorting.
From Stdlib Require Import ZArith Lia.
From S2P Require Import Prelude Objects History CommitGraph CommitGraphAncestry CommitGraphWrite CommitGraphBuild.

Module GraphGenerations.
Import Objects CommitGraph GraphAncestry CommitGraphWrite CommitGraphBuild.

Definition same_graph (c c' : GraphCommit) : Prop :=
  gc_id c' = gc_id c /\ gc_tree c' = gc_tree c /\ gc_parents c' = gc_parents c /\ gc_commit_time c' = gc_commit_time c.

Lemma same_degree cs cs' : Forall2 same_graph cs cs' -> concat (map gc_parents cs') = concat (map gc_parents cs).
Proof. induction 1 as [|c c' l l' (_ & _ & H & _) _ IH]; [done|]. cbn. by rewrite H, IH. Qed.

Section Generations.
(** The commits as they were read, and a position for every parent. *)
Context (cs0 : list GraphCommit) (positions : gmap ObjectId nat).
Context (Hpos : forall c p, c ∈ cs0 -> p ∈ gc_parents c -> exists k, positions !! p = Some k /\ (k < length cs0)%nat).
Context (Htimes : forall c, c ∈ cs0 -> 0 <= gc_commit_time c < 2 ^ 34).

Notation n := (zlen cs0).
Definition places (ps : list ObjectId) : list Z := match parent_indices positions ps with Ok qs => qs | Err _ => [] end.
Definition succ (x : Z) : list Z := match zget x cs0 with Some c => places (gc_parents c) | None => [] end.

Lemma parent_indices_spec ps : (forall p, p ∈ ps -> exists k, positions !! p = Some k /\ (k < length cs0)%nat) ->
  parent_indices positions ps = Ok (places ps) /\ Forall2 (fun p q => exists k, positions !! p = Some k /\ q = Z.of_nat k) ps (places ps).
Proof using.
  unfold places. induction ps as [|p ps IH]; intros H; [by split|]. cbn [parent_indices]. destruct (H p) as (k & Hk & _); [left|]. rewrite Hk. cbn [ok_or rbind].
  destruct IH as [E HF]; [intros q Hq; apply H; by right|]. rewrite E in *. cbn [rbind] in *. split; [done|]. constructor; [by exists k|done].
Qed.

Lemma succ_at x c : zget x cs0 = Some c -> parent_indices positions (gc_parents c) = Ok (succ x) /\
  Forall2 (fun p q => exists k, positions !! p = Some k /\ q = Z.of_nat k) (gc_parents c) (succ x).
Proof using Hpos.
  intros Hx. unfold succ. rewrite Hx. apply parent_indices_spec. intros p Hp. eapply Hpos; [|done]. apply zget_Some in Hx as [_ Hx]. by eapply list_elem_of_lookup_2.
Qed.

Lemma succ_range x y : 0 <= x < n -> y ∈ succ x -> 0 <= y < n.
Proof using Hpos.
  intros Hx [j Hj]%list_elem_of_lookup_1. destruct (zget_is_Some x cs0 Hx) as [c Hc]. destruct (succ_at x c Hc) as [_ HF].
  destruct (Forall2_lookup_r _ _ _ _ _ HF Hj) as (p & Hp & k & Hk & ->). apply zget_Some in Hc as [_ Hc].
  destruct (Hpos c p) as (k' & Hk' & Hlt); [by eapply list_elem_of_lookup_2|by eapply list_elem_of_lookup_2|]. rewrite Hk in Hk'. injection Hk' as <-. unfold zlen. lia.
Qed.

Lemma succ_length x : 0 <= x < n -> (length (succ x) <= length (concat (map gc_parents cs0)))%nat.
Proof using Hpos.
  intros Hx. destruct (zget_is_Some x cs0 Hx) as [c Hc]. destruct (succ_at x c Hc) as [_ HF]. rewrite <- (Forall2_length _ _ _ HF).
  apply zget_Some in Hc as [_ Hc]. apply (list_elem_of_lookup_2 cs0) in Hc. apply list_elem_of_split in Hc as (a & b & E).
  rewrite E, map_app, concat_app, length_app. cbn. rewrite length_app. lia.
Qed.

(** ** The values a commit gets *)

Definition black (state : list Z) : nat := length (filter (fun v => v = 2) state).

(** A commit with its values. *)
Definition valued (cs : list GraphCommit) (bound : Z) (c : GraphCommit) : Prop :=
  exists d, parent_values cs positions (gc_parents c) 1 (gc_commit_time c) = Ok (gc_generation c, d) /\ gc_corrected_commit_date c = Some d /\
    1 <= gc_generation c <= 0x3fffffff /\ gc_commit_time c <= d <= 2 ^ 34 + bound.

Record values_ok (cs : list GraphCommit) (state : list Z) : Prop := {
  vo_same : Forall2 same_graph cs0 cs;
  vo_valued x c : zget x state = Some 2 -> zget x cs = Some c -> valued cs (Z.of_nat (black state)) c
}.

Lemma parent_values_ext cs cs' ps g d : (forall p, p ∈ ps -> commit_of cs positions p = commit_of cs' positions p) ->
  parent_values cs positions ps g d = parent_values cs' positions ps g d.
Proof using.
  revert g d. induction ps as [|p ps IH]; intros g d H; [done|]. cbn [parent_values]. rewrite (H p) by left. destruct (commit_of cs' positions p); cbn [rbind]; [|done].
  apply IH. intros q Hq. apply H. by right.
Qed.

(** The values exist when the parents have theirs, and are bounded by theirs. *)
Lemma parent_values_bounds cs bound ps g d : (forall p, p ∈ ps -> exists c date, commit_of cs positions p = Ok c /\ 1 <= gc_generation c <= 0x3fffffff /\
    gc_corrected_commit_date c = Some date /\ 0 <= date <= 2 ^ 34 + bound) ->
  0 <= bound -> 1 <= g <= 0x3fffffff -> 0 <= d <= 2 ^ 34 + bound + 1 ->
  exists g' d', parent_values cs positions ps g d = Ok (g', d') /\ g <= g' <= 0x3fffffff /\ d <= d' <= 2 ^ 34 + bound + 1.
Proof using.
  intros Hps Hb. revert g d. induction ps as [|p ps IH]; intros g d Hg Hd; cbn [parent_values]; [exists g, d; split; [done|lia]|].
  destruct (Hps p) as (c & date & Hc & Hcg & Hcd & Hdate); [left|]. rewrite Hc. cbn [rbind]. rewrite Hcd. unfold succ32, succ64, u32_max, u64_max.
  destruct (IH ltac:(intros; apply Hps; by right) (Z.max g (Z.min (Z.min 4294967295 (gc_generation c + 1)) 0x3fffffff)) (Z.max d (Z.min 18446744073709551615 (date + 1))))
    as (g' & d' & HE & Hg' & Hd'); [lia|lia|]. change (default (gc_commit_time c) (Some date)) with date.
  exists g', d'. split; [exact HE|]. lia.
Qed.

Lemma black_insert state x : zget x state = Some 1 -> black (set_state x 2 state) = S (black state).
Proof using.
  intros [_ Hx]%zget_Some. unfold black, set_state. revert Hx. generalize (Z.to_nat x). induction state as [|a state IH]; intros [|i] Hx; [done..| |].
  - cbn in Hx. injection Hx as ->. cbn [insert list_insert]. rewrite filter_cons_True, filter_cons_False by done. done.
  - cbn in Hx. change (<[S i := 2]> (a :: state)) with (a :: <[i := 2]> state). destruct (decide (a = 2)).
    + rewrite !filter_cons_True by done. cbn [length]. f_equal. by apply IH.
    + rewrite !filter_cons_False by done. by apply IH.
Qed.

Lemma black_enter state x : zget x state = Some 0 -> black (set_state x 1 state) = black state.
Proof using.
  intros [_ Hx]%zget_Some. unfold black, set_state. revert Hx. generalize (Z.to_nat x). induction state as [|a state IH]; intros [|i] Hx; [done..| |].
  - cbn in Hx. injection Hx as ->. cbn [insert list_insert]. by rewrite !filter_cons_False by done.
  - cbn in Hx. change (<[S i := 1]> (a :: state)) with (a :: <[i := 1]> state). destruct (decide (a = 2)).
    + rewrite !filter_cons_True by done. cbn [length]. f_equal. by apply IH.
    + rewrite !filter_cons_False by done. by apply IH.
Qed.

Lemma black_le state : (black state <= length state)%nat.
Proof using. apply length_filter. Qed.

Lemma valued_weaken cs b b' c : b <= b' -> valued cs b c -> valued cs b' c.
Proof using. intros Hb (d & H1 & H2 & H3 & H4). exists d. split_and!; try done; lia. Qed.

Lemma zget_replace {A} x y (l : list A) v : 0 <= x < zlen l -> 0 <= y -> zget y (<[Z.to_nat x := v]> l) = if decide (x = y) then Some v else zget y l.
Proof using.
  intros Hx Hy. unfold zget. destruct (Z.leb_spec 0 y); [|lia]. destruct (decide (x = y)) as [-> |].
  - apply list_lookup_insert_eq. unfold zlen in Hx. lia.
  - apply list_lookup_insert_ne. lia.
Qed.

(** A parent of [x], as a commit. *)
Lemma parent_at cs x c c0 p : Forall2 same_graph cs0 cs -> zget x cs0 = Some c0 -> same_graph c0 c -> p ∈ gc_parents c ->
  exists y cy, edge n succ x y /\ zget y cs = Some cy /\ positions !! p = Some (Z.to_nat y) /\ commit_of cs positions p = Ok cy.
Proof using Hpos.
  intros HF Hx (_ & _ & Hp & _) Hin. rewrite Hp in Hin. destruct (succ_at x c0 Hx) as [_ HF2]. apply list_elem_of_lookup_1 in Hin as [j Hj].
  destruct (Forall2_lookup_l _ _ _ _ _ HF2 Hj) as (y & Hy & k & Hk & ->). pose proof (zget_lt _ _ _ Hx) as Hxr.
  assert (edge n succ x (Z.of_nat k)) as He by (split; [done|by eapply list_elem_of_lookup_2]).
  assert (0 <= Z.of_nat k < n) as Hkr by (eapply succ_range; [done|apply He]). pose proof (Forall2_length _ _ _ HF) as Hlen.
  destruct (zget_is_Some (Z.of_nat k) cs) as [cy Hcy]; [unfold zlen in *; lia|]. exists (Z.of_nat k), cy. rewrite Nat2Z.id. split_and!; [done..|].
  unfold commit_of. rewrite Hk. cbn [ok_or rbind]. apply zget_Some in Hcy as [_ Hcy]. rewrite Nat2Z.id in Hcy. by rewrite Hcy.
Qed.

(** Leaving a vertex gives it the values its parents impose. *)
Lemma leave_values cs state x stack c : values_ok cs state -> invariant n succ state ((x, true) :: stack) -> zget x cs = Some c ->
  exists g d, parent_values cs positions (gc_parents c) 1 (gc_commit_time c) = Ok (g, d) /\
    values_ok (<[Z.to_nat x := with_values c g d]> cs) (set_state x 2 state).
Proof using Hpos Htimes.
  intros V I Hc. pose proof (vo_same _ _ V) as HF. pose proof (Forall2_length _ _ _ HF) as Hlen. assert (0 <= x < n) as Hx by (eapply (iv_range _ _ _ _ I); left).
  pose proof (iv_length _ _ _ _ I) as Hstate. destruct (zget_is_Some x cs0 Hx) as [c0 Hc0].
  assert (same_graph c0 c) as Hsame by (apply zget_Some in Hc as [_ Hc]; apply zget_Some in Hc0 as [_ Hc0]; exact (Forall2_lookup_lr _ _ _ _ _ _ HF Hc0 Hc)).
  assert (zget x state = Some 1) as Hgray by (apply (iv_gray _ _ _ _ I); left).
  assert (forall y, edge n succ x y -> zget y state = Some 2) as Hdone.
  { intros y Hy. destruct (iv_below _ _ _ _ I [] x stack y eq_refl Hy) as [|[b Hb]]; [done|]. by apply not_elem_of_nil in Hb. }
  assert (0 <= gc_commit_time c < 2 ^ 34) as Ht.
  { destruct Hsame as (_ & _ & _ & ->). apply Htimes. apply zget_Some in Hc0 as [_ Hc0]. by eapply list_elem_of_lookup_2. }
  destruct (parent_values_bounds cs (Z.of_nat (black state)) (gc_parents c) 1 (gc_commit_time c)) as (g & d & HE & Hg & Hd); [|lia|lia|lia|].
  { intros p Hp. destruct (parent_at cs x c c0 p HF Hc0 Hsame Hp) as (y & cy & He & Hcy & _ & Hof). exists cy.
    destruct (vo_valued _ _ V y cy (Hdone y He) Hcy) as (date & _ & Hdate & Hlev & Hr). exists date. split_and!; try done; try lia.
    assert (0 <= gc_commit_time cy); [|lia]. apply zget_Some in Hcy as [_ Hcy]. destruct (Forall2_lookup_r _ _ _ _ _ HF Hcy) as (c1 & Hc1 & _ & _ & _ & ->).
    apply (Htimes c1). by eapply list_elem_of_lookup_2. }
  exists g, d. split; [done|].
  assert (forall y cy p, zget y cs = Some cy -> (y = x \/ zget y state = Some 2) -> p ∈ gc_parents cy ->
    commit_of cs positions p = commit_of (<[Z.to_nat x := with_values c g d]> cs) positions p) as Hext.
  { intros y cy p Hy Hyb Hp. pose proof (zget_lt _ _ _ Hy) as Hyr. destruct (zget_is_Some y cs0) as [cy0 Hcy0]; [unfold zlen in *; lia|].
    assert (same_graph cy0 cy) as Hs by (apply zget_Some in Hy as [_ Hy]; apply zget_Some in Hcy0 as [_ Hcy0]; exact (Forall2_lookup_lr _ _ _ _ _ _ HF Hcy0 Hy)).
    destruct (parent_at cs y cy cy0 p HF Hcy0 Hs Hp) as (z & cz & He & Hcz & Hz & Hof). unfold commit_of. rewrite Hz. cbn [ok_or rbind].
    rewrite list_lookup_insert_ne; [done|]. intros Heq. assert (z = x) as ->.
    { pose proof (zget_lt _ _ _ Hcz). lia. }
    assert (zget x state = Some 2); [|congruence]. destruct Hyb as [-> |Hyb]; [by apply Hdone|by eapply (iv_black _ _ _ _ I)]. }
  assert (parent_values (<[Z.to_nat x := with_values c g d]> cs) positions (gc_parents c) 1 (gc_commit_time c) = Ok (g, d)) as HE'.
  { rewrite <- HE. symmetry. apply parent_values_ext. intros p Hp. by apply (Hext x c p Hc); [left|]. }
  constructor.
  - apply Forall2_same_length_lookup. rewrite length_insert. split; [done|]. intros i a b Ha Hb. destruct (decide (i = Z.to_nat x)) as [-> |Hne].
    + rewrite list_lookup_insert_eq in Hb by (unfold zlen in Hx; lia). injection Hb as <-. apply zget_Some in Hc0 as [_ Hc0]. rewrite Hc0 in Ha. injection Ha as <-. exact Hsame.
    + rewrite list_lookup_insert_ne in Hb by done. exact (Forall2_lookup_lr _ _ _ _ _ _ HF Ha Hb).
  - intros y cy Hy Hcy. pose proof (zget_lt _ _ _ Hcy) as Hyr. rewrite (black_insert state x Hgray). rewrite zget_set in Hy by lia.
    rewrite zget_replace in Hcy by (unfold zlen in *; lia). destruct (decide (x = y)) as [<- |Hne].
    + injection Hcy as <-. exists d. cbn. split_and!; try done; lia.
    + destruct (vo_valued _ _ V y cy Hy Hcy) as (date & Hpv & H2 & H3 & H4). exists date. split_and!; try done; try lia.
      rewrite <- Hpv. symmetry. apply parent_values_ext. intros p Hp. by apply (Hext y cy p Hcy); [right|].
Qed.

(** ** The search *)

Notation inv := (invariant n succ).
Notation degree := (length (concat (map gc_parents cs0))).

Definition assigned (Q : list GraphCommit -> list Z -> Prop) (r : result GraphWriteError (list GraphCommit * list Z)) : Prop :=
  match r with
  | Ok (cs, state) => Q cs state
  | Err e => e = InHistory History.Cycle /\ exists x, tc (edge n succ) x x
  end.

Lemma assign_verdict fuel cs state stack : values_ok cs state -> inv state stack -> (measure degree (state, stack) <= fuel)%nat ->
  assigned (fun cs' final => values_ok cs' final /\ inv final [] /\ (forall x, zget x state = Some 2 -> zget x final = Some 2) /\
    (forall x b, (x, b) ∈ stack -> zget x final = Some 2)) (assign fuel positions cs state stack).
Proof using Hpos Htimes.
  revert cs state stack. induction fuel as [|fuel IH]; intros cs state stack V I Hm; destruct stack as [|[x exiting] stack]; cbn [assign].
  { split_and!; [done..|]. by intros ? ? ?%not_elem_of_nil. } { unfold measure in Hm; cbn in Hm; lia. }
  { split_and!; [done..|]. by intros ? ? ?%not_elem_of_nil. }
  assert (0 <= x < n) as Hx by (eapply (iv_range _ _ _ _ I); left). pose proof (iv_length _ _ _ _ I) as Hlen.
  pose proof (Forall2_length _ _ _ (vo_same _ _ V)) as Hcs.
  destruct (zget_is_Some x cs) as [c Hc]; [unfold zlen in *; lia|]. destruct (zget_is_Some x state) as [v Hv]; [lia|]. rewrite Hc, Hv. cbn [ok_or rbind].
  assert (forall cs' t, step succ (state, (x, exiting) :: stack) t -> values_ok cs' t.1 ->
    (forall y, zget y state = Some 2 -> zget y t.1 = Some 2) -> (forall y b, (y, b) ∈ stack -> (y, b) ∈ t.2) -> zget x t.1 = Some 2 \/ (exists b, (x, b) ∈ t.2) ->
    assigned (fun cs' final => values_ok cs' final /\ inv final [] /\ (forall y, zget y state = Some 2 -> zget y final = Some 2) /\
      (forall y b, (y, b) ∈ (x, exiting) :: stack -> zget y final = Some 2)) (assign fuel positions cs' t.1 t.2)) as Hgo.
  { intros cs' t Hst V' Hkeep Hrest Hself. pose proof (step_measure n succ degree succ_length (state, (x, exiting) :: stack) t I Hst).
    pose proof (step_invariant n succ succ_range (state, (x, exiting) :: stack) t Hst I) as I'. destruct t as [state' stack']. cbn [fst snd] in *.
    specialize (IH cs' state' stack' V' I' ltac:(lia)). destruct (assign fuel positions cs' state' stack') as [[cs'' final]|e]; cbn [assigned] in IH |- *; [|exact IH].
    destruct IH as (Vf & If & H2 & Hs). split_and!; [done|done|auto|]. intros y b [[= -> ->]|Hy]%elem_of_cons; [destruct Hself as [?|[? ?]]|]; eauto. }
  destruct exiting.
  { destruct (leave_values cs state x stack c V I Hc) as (g & d & HE & V'). rewrite HE. cbn [rbind].
    apply (Hgo _ (set_state x 2 state, stack)); [constructor|done| |done|]; cbn.
    - intros y Hy. pose proof (zget_lt _ _ _ Hy). rewrite zget_set by lia. by destruct (decide (x = y)).
    - left. rewrite zget_set by lia. by rewrite decide_True. }
  destruct (Z.eqb_spec v 2) as [-> |]; [apply (Hgo cs (state, stack)); [by constructor|auto..]|].
  destruct (Z.eqb_spec v 1) as [-> |]; [split; [done|]; exists x; by eapply gray_cycle|].
  assert (v = 0) as -> by (destruct (iv_values _ _ _ _ I x v Hv) as [|[|]]; congruence).
  destruct (zget_is_Some x cs0 Hx) as [c0 Hc0].
  assert (same_graph c0 c) as (_ & _ & Hp & _) by (apply zget_Some in Hc as [_ Hc']; apply zget_Some in Hc0 as [_ Hc0']; exact (Forall2_lookup_lr _ _ _ _ _ _ (vo_same _ _ V) Hc0' Hc')).
  rewrite Hp. destruct (succ_at x c0 Hc0) as [-> _]. cbn [rbind]. rewrite push_entries.
  apply (Hgo cs (set_state x 1 state, entries (succ x) ++ (x, true) :: stack)); [by constructor|..]; cbn.
  - constructor; [apply (vo_same _ _ V)|]. intros y cy Hy Hcy. pose proof (zget_lt _ _ _ Hy). rewrite zget_set in Hy by (rewrite ?zlen_set in *; lia).
    destruct (decide (x = y)); [done|]. eapply valued_weaken; [|by apply (vo_valued _ _ V y)]. rewrite (black_enter state x Hv). lia.
  - intros y Hy. pose proof (zget_lt _ _ _ Hy). rewrite zget_set by lia. destruct (decide (x = y)); [congruence|done].
  - intros y b Hy. apply elem_of_app. right. by right.
  - right. exists true. apply elem_of_app. right. left.
Qed.

(** The loop over the roots. *)
Lemma assign_roots_verdict k root cs state : values_ok cs state -> inv state [] -> 0 <= root -> root + Z.of_nat k = n ->
  (forall x, 0 <= x < root -> zget x state = Some 2) ->
  match assign_roots k positions root cs state with
  | Ok cs' => exists final, values_ok cs' final /\ inv final [] /\ forall x, 0 <= x < n -> zget x final = Some 2
  | Err e => e = InHistory History.Cycle /\ exists x, tc (edge n succ) x x
  end.
Proof using Hpos Htimes.
  revert root cs state. induction k as [|k IH]; intros root cs state V I Hr Hk Hdone; cbn [assign_roots].
  { exists state. split_and!; [done..|]. intros x Hx. apply Hdone. lia. }
  pose proof (iv_length _ _ _ _ I) as Hlen. pose proof (Forall2_length _ _ _ (vo_same _ _ V)) as Hcs.
  assert (inv state [(root, false)]) as I' by (apply root_invariant; [done|lia]).
  assert (unseen state <= length state)%nat by apply length_filter.
  assert (measure degree (state, [(root, false)]) <= assign_fuel cs)%nat as Hm.
  { unfold measure, assign_fuel. rewrite (same_degree _ _ (vo_same _ _ V)). cbn [fst snd length]. unfold zlen in Hlen. nia. }
  pose proof (assign_verdict _ cs state [(root, false)] V I' Hm) as Hv.
  destruct (assign _ positions cs state [(root, false)]) as [[cs' final]|e]; cbn [assigned rbind] in Hv |- *; [|exact Hv].
  destruct Hv as (Vf & If & Hkeep & Hroot). apply IH; [done|done|lia..|].
  intros x Hx. destruct (decide (x = root)) as [-> |]; [eapply Hroot; left|apply Hkeep, Hdone; lia].
Qed.

(** [set_generations]: every commit keeps what was read and gets its values, or some commit
    is its own ancestor. *)
Lemma set_generations_verdict :
  match set_generations cs0 positions with
  | Ok cs => Forall2 same_graph cs0 cs /\ forall c, c ∈ cs -> valued cs n c
  | Err e => e = InHistory History.Cycle /\ exists x, tc (edge n succ) x x
  end.
Proof using Hpos Htimes.
  unfold set_generations. pose proof (zlen_nonneg cs0) as Hn. pose proof (initial_invariant n succ Hn) as I. unfold zlen in I at 2. rewrite Nat2Z.id in I.
  pose proof (assign_roots_verdict (length cs0) 0 cs0 (replicate (length cs0) 0)) as H. destruct (assign_roots _ _ _ _ _) as [cs|e].
  - destruct H as (final & V & If & Hall); [|done|lia|done|lia|].
    { constructor; [apply Forall2_same_length_lookup; split; [done|]; intros i a b Ha Hb; rewrite Ha in Hb; injection Hb as <-; done|].
      intros x c [_ Hx]%zget_Some. by apply lookup_replicate in Hx as [Hx _]. }
    split; [apply V|]. intros c [k Hk]%list_elem_of_lookup_1. pose proof (Forall2_length _ _ _ (vo_same _ _ V)) as Hlen. pose proof (lookup_lt_Some _ _ _ Hk).
    eapply valued_weaken; [|eapply (vo_valued _ _ V (Z.of_nat k) c)].
    + pose proof (black_le final). pose proof (iv_length _ _ _ _ If) as Hf. unfold zlen in *. lia.
    + apply Hall. unfold zlen. lia.
    + apply zget_Some. rewrite Nat2Z.id. split; [lia|done].
  - apply H; [|done|lia|done|lia]. constructor; [apply Forall2_same_length_lookup; split; [done|]; intros i a b Ha Hb; rewrite Ha in Hb; injection Hb as <-; done|].
    intros x c [_ Hx]%zget_Some. by apply lookup_replicate in Hx as [Hx _].
Qed.
End Generations.

(** ** The values as maxima *)

(** The level is one more than the largest level of a parent, up to the largest level a
    record holds; the date is the commit's own time or one more than the largest date of a
    parent. *)
Definition imposed_level (levels : list Z) : Z := Z.min 0x3fffffff (1 + foldr Z.max 0 levels).
Definition imposed_date (time : Z) (dates : list Z) : Z := foldr (fun d m => Z.max (d + 1) m) time dates.

Lemma imposed_date_max t d ds : imposed_date (Z.max t (d + 1)) ds = Z.max (d + 1) (imposed_date t ds).
Proof. unfold imposed_date. induction ds as [|x ds IH]; cbn [foldr]; [lia|]. rewrite IH. lia. Qed.

Definition dated (c : GraphCommit) (d : Z) : Prop := gc_corrected_commit_date c = Some d.

Lemma parent_values_exact cs positions ps qs ds g t :
  Forall2 (fun p c => commit_of cs positions p = Ok c) ps qs -> Forall2 dated qs ds -> Forall (fun c => 1 <= gc_generation c <= 0x3fffffff) qs ->
  Forall (fun d => d < u64_max) ds -> 1 <= g <= 0x3fffffff ->
  parent_values cs positions ps g t = Ok (Z.max g (imposed_level (map gc_generation qs)), imposed_date t ds).
Proof.
  intros HF. revert ds g t. induction HF as [|p c ps qs Hp _ IH]; intros ds g t HD HL HU Hg.
  { apply Forall2_nil_inv_l in HD as ->. cbn [parent_values map]. unfold imposed_level. cbn. do 2 f_equal. lia. }
  apply Forall2_cons_inv_l in HD as (d & ds' & Hd & HD & ->). apply Forall_cons in HL as [Hc HL]. apply Forall_cons in HU as [Hu HU].
  cbn [parent_values]. rewrite Hp. cbn [rbind]. unfold dated in Hd. rewrite Hd. change (default (gc_commit_time c) (Some d)) with d.
  assert (succ64 d = d + 1) as -> by (unfold succ64; lia). assert (Z.min (succ32 (gc_generation c)) 0x3fffffff = Z.min 0x3fffffff (gc_generation c + 1)) as -> by (unfold succ32, u32_max; lia).
  rewrite (IH ds') by (done || lia). rewrite imposed_date_max. cbn [map]. unfold imposed_level. cbn [foldr]. unfold imposed_date. cbn [foldr]. do 2 f_equal. lia.
Qed.
End GraphGenerations.
