(* ===== verification/CommitGraphBuildCorrect.v ===== *)
(** * Correctness of graph construction ([CommitGraph::from_objects_with])

    The commits that are read are those reachable from the roots; the graph that is built
    holds exactly them, with the levels and dates their parents impose, and always has an
    order of corrected dates. *)

From stdpp Require Import base list numbers strings sets gmap relations sorting.
From Stdlib Require Import ZArith Lia.
From S2P Require Import Prelude Objects BTree Trees Lines Identity Commits History HistoryGraph CommitGraph.
From S2P Require Import CommitGraphLayer CommitGraphAncestry CommitGraphChain CommitGraphCorrect CommitGraphWrite CommitGraphRoundtrip CommitGraphTables CommitGraphEncode CommitGraphFile CommitGraphBuild CommitGraphGenerations.

Module GraphBuild.
Import Objects CommitGraph GraphLayer GraphAncestry GraphChain GraphCorrect CommitGraphWrite GraphRoundtrip GraphTables GraphEncode GraphFile CommitGraphBuild GraphGenerations.

(** ** Parsed commits are typed *)

Definition typed (fmt : ObjectFormat) (id : ObjectId) : Prop := id_ok id /\ id_format id = fmt.

Lemma parse_id_typed f value id : Commits.parse_id f value = Ok id -> typed f id.
Proof.
  intros [Hz Hs]%Commits.parse_id_Ok. pose proof Hs as [Hid _]%from_str_Ok. split; [done|]. unfold from_str in Hs. rewrite Hz in Hs.
  apply rbind_Ok in Hs as (f' & Hf & Hs). apply rbind_Ok in Hs as (b & _ & <-%ok_inj). destruct f; cbn in Hf; by injection Hf as <-.
Qed.

Lemma parent_lines_typed f remaining lines ps others : Commits.parent_lines f remaining lines = Ok (ps, others) -> Forall (typed f) ps.
Proof.
  revert remaining ps others. induction lines as [|line lines IH]; intros remaining ps others; cbn [Commits.parent_lines]; [intros [= <- <-]; constructor|].
  destruct (_ && _); [|intros [= <- <-]; constructor]. intros (v & _ & (p & Hp & ([ps' others'] & Hrest & [= <- <-])%rbind_Ok)%rbind_Ok)%rbind_Ok.
  constructor; [by eapply parse_id_typed|by eapply IH].
Qed.

Lemma commit_parse_typed f p c : Commits.commit_parse f p = Ok c -> typed f (Commits.c_tree c) /\ Forall (typed f) (Commits.c_parents c).
Proof.
  unfold Commits.commit_parse. intros ([tree ps] & Hg & [= <-])%rbind_Ok. rewrite Commits.parse_graph_general in Hg. unfold Commits.general_graph in Hg.
  destruct (Lines.split_inclusive 10 p) as [|first lines]; [done|]. apply rbind_Ok in Hg as (v & _ & Hg). apply rbind_Ok in Hg as (t & Ht & Hg).
  apply rbind_Ok in Hg as ([ps' others] & Hps & Hg). destruct others; [done|]. injection Hg as <- <-. split; [by eapply parse_id_typed|by eapply parent_lines_typed].
Qed.

Lemma commit_seconds_range c time : commit_seconds c = Some time -> 0 <= time < 2 ^ 34.
Proof.
  unfold commit_seconds. intros (person & _ & ([seconds zone] & _ & H)%bind_Some)%bind_Some. change (Z.shiftl 1 34) with (2 ^ 34) in H.
  destruct (Z.leb_spec 0 seconds), (Z.ltb_spec seconds (2 ^ 34)); cbn in H; try done. injection H as <-. lia.
Qed.

Lemma foldr_max_nonneg l : 0 <= foldr Z.max 0 l.
Proof. induction l; cbn; lia. Qed.

(** ** Numbering the sorted records *)

Lemma number_spec cs i positions : 0 <= i ->
  match number cs i positions with
  | Ok positions' => i + zlen cs <= 0x70000000 \/ cs = []
  | Err e => e = InGraph (bad "commit positions")
  end /\
  (NoDup (map gc_id cs) -> (forall c, c ∈ cs -> positions !! gc_id c = None) -> forall positions', number cs i positions = Ok positions' ->
    forall p q, positions' !! p = Some q <-> positions !! p = Some q \/ exists c, zget (q - i) cs = Some c /\ gc_id c = p).
Proof.
  revert i positions. induction cs as [|c cs IH]; intros i positions Hi; cbn [number].
  { split; [by right|]. intros _ _ positions' [= <-] p q. split; [by left|]. intros [H|(c & Hc & _)]; [done|]. by rewrite zget_nil in Hc. }
  destruct (Z.leb_spec i u32_max) as [Hu|]; cbn [andb]; [|split; [done|by intros]]. destruct (Z.ltb_spec i 0x70000000) as [Hlt|]; [|split; [done|by intros]].
  destruct (IH (i + 1) (<[gc_id c := i]> positions)) as [H1 H2]; [lia|]. split.
  - destruct (number cs (i + 1) _); [|done]. left. rewrite zlen_cons. destruct H1 as [H1| ->]; [lia|]. change (zlen (@nil GraphCommit)) with 0. lia.
  - intros [Hni Hnd]%NoDup_cons Hfresh positions' Hn p q. rewrite (H2 Hnd) by (done || (intros c' Hc'; rewrite lookup_insert_ne; [apply Hfresh; by right|];
      intros E; apply Hni; rewrite E; apply list_elem_of_fmap; by exists c')).
    rewrite lookup_insert_Some. assert (forall y, zget y (c :: cs) = if decide (y = 0) then Some c else zget (y - 1) cs) as Hz.
    { intros y. unfold zget. destruct (decide (y = 0)) as [-> |]; [done|]. destruct (Z.leb_spec 0 y), (Z.leb_spec 0 (y - 1)); try lia; [|done].
      by replace (Z.to_nat y) with (S (Z.to_nat (y - 1))) by lia. }
    rewrite Hz. replace (q - i - 1) with (q - (i + 1)) by lia. destruct (decide (q - i = 0)) as [Hq|Hq].
    + assert (q = i) as -> by lia. split.
      * intros [[[<- _]|[_ H]]|(c' & Hbad%zget_lt & _)]; [right; by exists c|by left|lia].
      * intros [H|(c' & [= <-] & <-)]; [|left; by left]. left. right. split; [|done]. intros <-. rewrite Hfresh in H; [done|left].
    + split.
      * intros [[[<- <-]|[_ H]]|H]; [lia|by left|by right].
      * intros [H|H]; [|by right]. left. right. split; [|done]. intros <-. rewrite Hfresh in H; [done|left].
Qed.

(** ** Discovery *)

Record found_ok (ids : list ObjectId) (positions : gmap ObjectId nat) : Prop := {
  fo_nodup : NoDup ids;
  fo_positions id k : positions !! id = Some k <-> ids !! k = Some id
}.

Lemma found_fresh ids positions id : found_ok ids positions -> positions !! id = None <-> id ∉ ids.
Proof.
  intros F. split.
  - intros Hn [k Hk%(fo_positions _ _ F)]%list_elem_of_lookup_1. congruence.
  - intros Hn. destruct (positions !! id) as [k|] eqn:E; [|done]. apply (fo_positions _ _ F) in E. by destruct Hn; eapply list_elem_of_lookup_2.
Qed.

Lemma discover_all_spec l max ids positions : found_ok ids positions -> zlen ids <= max ->
  match discover_all l max (ids, positions) with
  | Ok (ids', positions') => found_ok ids' positions' /\ ids `prefix_of` ids' /\ zlen ids' <= max /\ forall id, id ∈ ids' <-> id ∈ ids \/ id ∈ l
  | Err e => e = InHistory (History.Limit "commits")
  end.
Proof.
  revert ids positions. induction l as [|x l IH]; intros ids positions F Hmax; cbn [discover_all].
  { split_and!; [done..|]. intros id. rewrite elem_of_nil. tauto. }
  unfold discover at 1. destruct (positions !! x) as [k|] eqn:E; cbn [rbind].
  - specialize (IH ids positions F Hmax). destruct (discover_all l max (ids, positions)) as [[ids' positions']|]; [|done].
    destruct IH as (F' & Hp & Hm & Hin). split_and!; [done..|]. intros id. rewrite Hin, elem_of_cons. split; [tauto|]. intros [?|[-> |?]]; [tauto| |tauto].
    left. apply (fo_positions _ _ F) in E. by eapply list_elem_of_lookup_2.
  - destruct (Z.leb_spec max (zlen ids)) as [|Hlt]; cbn [rbind]; [done|]. pose proof (proj1 (found_fresh _ _ x F) E) as Hx.
    assert (found_ok (ids ++ [x]) (<[x := length ids]> positions)) as F'.
    { constructor; [apply NoDup_app; split_and!; [apply F| |apply NoDup_singleton]; intros y Hy ->%list_elem_of_singleton; done|]. intros id k. rewrite lookup_insert_Some, lookup_snoc_Some.
      rewrite (fo_positions _ _ F). split.
      - intros [[<- <-]|[Hne Hk]]; [by right|left; split; [by eapply lookup_lt_Some|done]].
      - intros [[Hk Hid]|[-> ->]]; [right; split; [|done]|by left]. intros <-. by destruct Hx; eapply list_elem_of_lookup_2. }
    specialize (IH (ids ++ [x]) (<[x := length ids]> positions) F' ltac:(rewrite zlen_app, zlen_one; lia)). destruct (discover_all l max _) as [[ids' positions']|]; [|done].
    destruct IH as (F'' & Hp & Hm & Hin). split_and!; try done; [by eapply prefix_app_l|]. intros id. rewrite Hin, elem_of_app, list_elem_of_singleton, elem_of_cons. tauto.
Qed.

(** ** Reading the commits *)

Section Build.
Context (o : Objects_) (roots : list ObjectId) (limits : History.HistoryLimits).

(** The parents a stored commit names, and the commits reachable from the roots. *)
Definition stored (id : ObjectId) (c : Commits.Commit) (time : Z) : Prop := read_commit_with o id = Ok c /\ commit_seconds c = Some time.
Definition parent (a b : ObjectId) : Prop := exists c, read_commit_with o a = Ok c /\ b ∈ Commits.c_parents c.
Definition from_roots (id : ObjectId) : Prop := exists r, r ∈ roots /\ rtc parent r id.

(** Why construction may refuse. *)
Definition refused (e : GraphWriteError) : Prop :=
  match e with
  | Read id source => from_roots id /\ read_commit_with o id = Err source
  | Date id => from_roots id /\ exists c, read_commit_with o id = Ok c /\ commit_seconds c = None
  | InHistory History.Cycle => exists id, from_roots id /\ tc parent id id
  | InHistory (History.Limit resource) => resource = "commits" \/ resource = "parent occurrences"
  | InGraph e => e = Limit "output bytes" \/ e ∈ [bad "commit positions"; bad "extra edge position"; bad "generation overflow position"]
  | _ => False
  end.

Record reading_ok (m : nat) (r : Reading) : Prop := {
  ro_found : found_ok (r_ids r) (r_positions r);
  ro_roots id : id ∈ roots -> id ∈ r_ids r;
  ro_from id : id ∈ r_ids r -> from_roots id;
  ro_index : r_index r = length (r_commits r) /\ (r_index r <= length (r_ids r))%nat;
  ro_commits k id : r_ids r !! k = Some id -> (k < r_index r)%nat -> exists c time, stored id c time /\ r_commits r !! k = Some (raw_commit id c time);
  ro_parents c p : c ∈ r_commits r -> p ∈ gc_parents c -> p ∈ r_ids r;
  ro_limit : zlen (r_ids r) <= History.max_commits limits;
  ro_measure : (m + r_index r)%nat = Z.to_nat (History.max_commits limits)
}.

(** All commits read. *)
Definition all_read (r : result GraphWriteError Reading) : Prop :=
  match r with
  | Ok r => exists m, reading_ok m r /\ r_index r = length (r_ids r)
  | Err e => refused e
  end.

Lemma reading_step_ok m r : reading_ok m r ->
  match reading_step o limits r with inl r' => exists m', m = S m' /\ reading_ok m' r' | inr a => all_read a end.
Proof.
  intros R. unfold reading_step. destruct (r_ids r !! r_index r) as [id|] eqn:Hid.
  2:{ exists m. split; [done|]. apply lookup_ge_None in Hid. destruct (ro_index _ _ R). lia. }
  pose proof (lookup_lt_Some _ _ _ Hid) as Hlt. assert (from_roots id) as Hfrom by (apply (ro_from _ _ R); by eapply list_elem_of_lookup_2).
  destruct (read_commit_with o id) as [c|e] eqn:Hread; cbn [map_err rbind]; [|done].
  destruct (commit_seconds c) as [time|] eqn:Htime; cbn [ok_or rbind]; [|by split; [|exists c]].
  destruct (checked_sub (r_remaining r) (zlen (Commits.c_parents c))) as [remaining|]; cbn [ok_or rbind]; [|by right].
  pose proof (discover_all_spec (Commits.c_parents c) (History.max_commits limits) _ _ (ro_found _ _ R) (ro_limit _ _ R)) as HD.
  destruct (discover_all _ _ _) as [[ids positions]|e]; cbn [rbind]; [|subst e; by left]. destruct HD as (F & [more Hmore] & Hmax & Hin).
  destruct (ro_index _ _ R) as [Hix Hle]. pose proof (ro_measure _ _ R) as Hm. pose proof (ro_limit _ _ R) as Hlim. unfold zlen in Hlim.
  destruct m as [|m]; [lia|]. exists m. split; [done|]. constructor; cbn.
  - done.
  - intros x Hx. apply Hin. left. by apply (ro_roots _ _ R).
  - intros x [Hx|Hx]%Hin; [by apply (ro_from _ _ R)|]. destruct Hfrom as (root & Hroot & HR). exists root. split; [done|]. eapply rtc_r; [done|]. by exists c.
  - rewrite length_app. cbn. split; [lia|]. rewrite Hmore, length_app. lia.
  - intros k x Hk Hkl. assert (r_ids r !! k = Some x) as Hkx.
    { rewrite Hmore in Hk. rewrite lookup_app_l in Hk by lia. done. }
    destruct (decide (k = r_index r)) as [-> |].
    + rewrite Hid in Hkx. injection Hkx as <-. exists c, time. split; [done|]. rewrite Hix. apply lookup_snoc_Some. by right.
    + destruct (ro_commits _ _ R k x Hkx ltac:(lia)) as (c' & t' & Hs & Hc'). exists c', t'. split; [done|]. by apply lookup_app_l_Some.
  - intros c' p [Hc'|Hc'%list_elem_of_singleton]%elem_of_app Hp; apply Hin; [left; by eapply (ro_parents _ _ R)|]. subst c'. by right.
  - done.
  - lia.
Qed.

Lemma reading_total : 0 <= History.max_commits limits ->
  match discover_all roots (History.max_commits limits) ([], ∅) with
  | Ok (ids, positions) => exists a,
      iter_until (reading_step o limits) (Z.to_pos (History.max_commits limits + 1))
        {| r_ids := ids; r_positions := positions; r_commits := []; r_remaining := History.max_parents limits; r_index := 0 |} = inr a /\ all_read a
  | Err e => refused e
  end.
Proof.
  intros Hmax. assert (found_ok [] ∅) as F0 by (constructor; [constructor|]; intros id k; by rewrite lookup_empty).
  pose proof (discover_all_spec roots (History.max_commits limits) [] ∅ F0 Hmax) as HD.
  destruct (discover_all roots _ _) as [[ids positions]|e]; [|subst e; by left]. destruct HD as (F & _ & Hm & Hin).
  rewrite HistoryGraph.iter_until_nat.
  destruct (HistoryGraph.iter_nat_inv (reading_step o limits) reading_ok all_read reading_step_ok (Pos.to_nat (Z.to_pos (History.max_commits limits + 1))) (Z.to_nat (History.max_commits limits))
    {| r_ids := ids; r_positions := positions; r_commits := []; r_remaining := History.max_parents limits; r_index := 0 |}) as (a & Ha & HP); [|lia|by exists a].
  constructor; cbn; try done.
  - intros id Hid. apply Hin. by right.
  - intros id [Hid|Hid]%Hin; [by apply not_elem_of_nil in Hid|]. exists id. split; [done|constructor].
  - split; [done|lia].
  - intros; lia.
  - intros c p Hc. by apply not_elem_of_nil in Hc.
Qed.

Context (Hmax : 0 <= History.max_commits limits) (Hroots : Forall id_ok roots).
Context (Hformat : forall id x, History.o_read o id = Ok (Some x) -> id_format id = History.o_format o).
Notation fmt := (History.o_format o).

Lemma read_typed id c : read_commit_with o id = Ok c -> id_format id = fmt /\ typed fmt (Commits.c_tree c) /\ Forall (typed fmt) (Commits.c_parents c).
Proof using Hformat.
  unfold read_commit_with. destruct (History.o_read o id) as [[[kind data]|]|] eqn:E; cbn [map_err ok_or rbind]; [|done..]. case_bool_decide; [done|].
  destruct (Commits.commit_parse fmt data) as [c'|] eqn:Ep; [|done]. cbn. intros [= <-]. split; [by eapply Hformat|by eapply commit_parse_typed].
Qed.

Lemma from_roots_ok id : from_roots id -> id_ok id.
Proof using Hroots Hformat.
  intros (r & Hr & HR). apply rtc_inv_r in HR as [<-|(a & _ & c & Hc & Hin)]; [by eapply Forall_forall in Hroots|].
  apply read_typed in Hc as (_ & _ & Hall). eapply Forall_forall in Hall; [|done]. apply Hall.
Qed.

(** ** The commits with their values *)

Section Values.
Context (m : nat) (r : Reading) (R : reading_ok m r) (Hend : r_index r = length (r_ids r)).
Notation cs0 := (r_commits r).

Lemma read_at k id : r_ids r !! k = Some id -> exists c time, stored id c time /\ cs0 !! k = Some (raw_commit id c time).
Proof using R Hend. intros Hk. pose proof (lookup_lt_Some _ _ _ Hk). apply (ro_commits _ _ R k id Hk). lia. Qed.

Lemma read_ids : map gc_id cs0 = r_ids r.
Proof using R Hend.
  destruct (ro_index _ _ R) as [Hix _]. apply list_eq_same_length with (length (r_ids r)); [done|rewrite length_map; lia|]. intros k x y Hk Hx Hy.
  apply list_lookup_fmap_Some in Hx as (c & -> & Hc). destruct (read_at k y Hy) as (rc & time & _ & Hk'). rewrite Hc in Hk'. by injection Hk' as ->.
Qed.

Lemma read_member c : c ∈ cs0 -> exists rc time, stored (gc_id c) rc time /\ c = raw_commit (gc_id c) rc time /\ gc_id c ∈ r_ids r.
Proof using R Hend.
  intros [k Hk]%list_elem_of_lookup_1. assert (r_ids r !! k = Some (gc_id c)) as Hid by (rewrite <- read_ids; apply list_lookup_fmap_Some; by exists c).
  destruct (read_at k _ Hid) as (rc & time & Hs & Hk'). rewrite Hk in Hk'. injection Hk' as Hc. exists rc, time. split_and!; [done..|by eapply list_elem_of_lookup_2].
Qed.

Lemma parent_positions_known c p : c ∈ cs0 -> p ∈ gc_parents c -> exists k, r_positions r !! p = Some k /\ (k < length cs0)%nat.
Proof using R Hend.
  intros Hc Hp. pose proof (ro_parents _ _ R c p Hc Hp) as [k Hk]%list_elem_of_lookup_1. exists k. split; [by apply (fo_positions _ _ (ro_found _ _ R))|].
  apply lookup_lt_Some in Hk. destruct (ro_index _ _ R). lia.
Qed.

Lemma times_known c : c ∈ cs0 -> 0 <= gc_commit_time c < 2 ^ 34.
Proof using R Hend. intros (rc & time & [_ Ht] & -> & _)%read_member. by apply commit_seconds_range in Ht. Qed.

(** An edge of the search is a stored parent. *)
Lemma search_edge x y : edge (zlen cs0) (succ cs0 (r_positions r)) x y ->
  exists a b, zget x cs0 = Some a /\ zget y cs0 = Some b /\ parent (gc_id a) (gc_id b).
Proof using R Hend.
  intros [Hx Hy]. destruct (zget_is_Some x cs0 Hx) as [a Ha]. pose proof (succ_range cs0 (r_positions r) parent_positions_known x y Hx Hy) as Hyr.
  destruct (zget_is_Some y cs0 Hyr) as [b Hb]. exists a, b. split_and!; [done..|]. destruct (succ_at cs0 (r_positions r) parent_positions_known x a Ha) as [_ HF].
  apply list_elem_of_lookup_1 in Hy as [j Hj]. destruct (Forall2_lookup_r _ _ _ _ _ HF Hj) as (p & Hp & k & Hk & ->).
  assert (a ∈ cs0) as Hain by (apply zget_Some in Ha as [_ Ha]; by eapply list_elem_of_lookup_2). destruct (read_member a Hain) as (rc & time & [Hrc _] & Hraw & _).
  apply (fo_positions _ _ (ro_found _ _ R)) in Hk. destruct (read_at k p Hk) as (rb & tb & _ & Hkb). apply zget_Some in Hb as [_ Hb]. rewrite Nat2Z.id, Hkb in Hb. injection Hb as <-.
  exists rc. split; [done|]. cbn. rewrite Hraw in Hp. cbn in Hp. by eapply list_elem_of_lookup_2.
Qed.

Lemma search_cycle x : tc (edge (zlen cs0) (succ cs0 (r_positions r))) x x -> exists id, from_roots id /\ tc parent id id.
Proof using R Hend.
  intros H. assert (forall a b, tc (edge (zlen cs0) (succ cs0 (r_positions r))) a b -> exists ca cb, zget a cs0 = Some ca /\ zget b cs0 = Some cb /\ tc parent (gc_id ca) (gc_id cb)) as Htc.
  { induction 1 as [a b Hab|a b c Hab _ IH].
    - apply search_edge in Hab as (ca & cb & ? & ? & ?). exists ca, cb. split_and!; [done..|by apply tc_once].
    - apply search_edge in Hab as (ca & cb & ? & Hb & ?). destruct IH as (cb' & cc & Hb' & ? & ?). rewrite Hb in Hb'. injection Hb' as <-.
      exists ca, cc. split_and!; [done..|by eapply tc_l]. }
  destruct (Htc x x H) as (ca & cb & Ha & Hb & HP). rewrite Ha in Hb. injection Hb as <-. exists (gc_id ca). split; [|done].
  apply (ro_from _ _ R). apply zget_Some in Ha as [_ Ha]. apply list_elem_of_lookup_2 in Ha. by apply read_member in Ha as (_ & _ & _ & _ & ?).
Qed.

(** What [set_generations] leaves. *)
Definition described (cs : list GraphCommit) (c : GraphCommit) : Prop :=
  (exists rc, read_commit_with o (gc_id c) = Ok rc /\ gc_tree c = Commits.c_tree rc /\ gc_parents c = Commits.c_parents rc /\ commit_seconds rc = Some (gc_commit_time c)) /\
  exists qs dates, Forall2 (fun p q => q ∈ cs /\ gc_id q = p) (gc_parents c) qs /\ Forall2 dated qs dates /\
    gc_generation c = imposed_level (map gc_generation qs) /\ gc_corrected_commit_date c = Some (imposed_date (gc_commit_time c) dates).

Lemma assigned_described cs : Forall2 same_graph cs0 cs -> (forall c, c ∈ cs -> valued (r_positions r) cs (zlen cs0) c) -> zlen cs0 <= 0x70000000 ->
  map gc_id cs = r_ids r /\ forall c, c ∈ cs -> described cs c.
Proof using R Hend.
  intros HF Hval Hsmall. assert (map gc_id cs = r_ids r) as Hids.
  { rewrite <- read_ids. clear -HF. induction HF as [|a b l k (H & _) _ IH]; [done|]. cbn. by rewrite H, IH. }
  split; [done|]. intros c Hc. pose proof Hc as [k Hk]%list_elem_of_lookup_1. destruct (Forall2_lookup_r _ _ _ _ _ HF Hk) as (c0 & Hc0 & Hid & Htree & Hps & Htime).
  assert (c0 ∈ cs0) as Hin0 by by eapply list_elem_of_lookup_2. destruct (read_member c0 Hin0) as (rc & time & [Hrc Hsec] & Hraw & _). split.
  { exists rc. rewrite Hid, Htree, Hps, Htime. rewrite Hraw. by rewrite Hraw in Hrc. }
  assert (forall p, p ∈ gc_parents c -> exists q, commit_of cs (r_positions r) p = Ok q /\ q ∈ cs /\ gc_id q = p) as Hpar.
  { intros p Hp. rewrite Hps in Hp. destruct (parent_positions_known c0 p Hin0 Hp) as (j & Hj & Hlt). rewrite (Forall2_length _ _ _ HF) in Hlt.
    apply lookup_lt_is_Some_2 in Hlt as [q Hq]. exists q. unfold commit_of. rewrite Hj. cbn [ok_or rbind]. rewrite Hq. split_and!; [done|by eapply list_elem_of_lookup_2|].
    apply (fo_positions _ _ (ro_found _ _ R)) in Hj. rewrite <- Hids in Hj. apply list_lookup_fmap_Some in Hj as (q' & -> & Hq'). congruence. }
  assert (exists qs, Forall2 (fun p q => commit_of cs (r_positions r) p = Ok q /\ q ∈ cs /\ gc_id q = p) (gc_parents c) qs) as [qs Hqs].
  { clear -Hpar. induction (gc_parents c) as [|p ps IH]; [by exists []|]. destruct IH as [qs Hqs]; [intros x Hx; apply Hpar; by right|].
    destruct (Hpar p) as [q Hq]; [left|]. exists (q :: qs). by constructor. }
  assert (forall q, q ∈ qs -> q ∈ cs) as Hsub.
  { intros q [j Hj]%list_elem_of_lookup_1. by destruct (Forall2_lookup_r _ _ _ _ _ Hqs Hj) as (p & _ & _ & H & _). }
  assert (exists dates, Forall2 dated qs dates /\ Forall (fun d => d < u64_max) dates) as (dates & Hdates & Hbig).
  { clear -Hsub Hval Hsmall. induction qs as [|q qs IH]; [exists []; by split|]. destruct IH as (ds & H1 & H2); [intros x Hx; apply Hsub; by right|].
    destruct (Hval q) as (d & _ & Hd & _ & Hr); [apply Hsub; left|]. exists (d :: ds). split; constructor; try done. unfold u64_max. lia. }
  exists qs, dates. split; [eapply Forall2_impl; [exact Hqs|]; by intros p q (_ & ? & ?)|]. split; [done|].
  destruct (Hval c Hc) as (d & Hpv & Hd & Hg & _).
  rewrite (parent_values_exact cs (r_positions r) (gc_parents c) qs dates 1 (gc_commit_time c)) in Hpv; try done; try lia.
  - injection Hpv as Hgen <-. rewrite <- Hgen. split; [|done]. unfold imposed_level. pose proof (foldr_max_nonneg (map gc_generation qs)). lia.
  - eapply Forall2_impl; [exact Hqs|]. by intros p q (? & _).
  - apply Forall_forall. intros q Hq. destruct (Hval q (Hsub q Hq)) as (_ & _ & _ & ? & _). done.
Qed.
End Values.

(** ** The graph that is built *)

(** The graph holds exactly the reachable commits, described, and orders them by date. *)
Definition built (g : Graph) : Prop :=
  exists cs, commits g = Some cs /\ NoDup (map gc_id cs) /\ (forall id, id ∈ map gc_id cs <-> from_roots id) /\ (forall c, c ∈ cs -> described cs c) /\
    exists h, history g = Ok h /\ order h = CorrectedDates.

Lemma described_perm cs cs' c : cs ≡ₚ cs' -> described cs c -> described cs' c.
Proof using.
  intros HP [H1 (qs & ds & Hqs & H2)]. split; [done|]. exists qs, ds. split; [|done]. eapply Forall2_impl; [exact Hqs|]. intros p q [Hq Hid]. split; [by rewrite <- HP|done].
Qed.

(** The date of a commit is after the dates of its parents. *)
Lemma described_after cs c p : NoDup (map gc_id cs) -> described cs c -> p ∈ cs -> gc_id p ∈ gc_parents c ->
  exists dp dc, gc_corrected_commit_date p = Some dp /\ gc_corrected_commit_date c = Some dc /\ dp < dc.
Proof using.
  intros Hnd [_ (qs & ds & Hqs & Hds & _ & Hd)] Hp [j Hj]%list_elem_of_lookup_1. destruct (Forall2_lookup_l _ _ _ _ _ Hqs Hj) as (q & Hq & Hqin & Hid).
  assert (q = p) as -> by by eapply (Trees.NoDup_map_inj gc_id cs). destruct (Forall2_lookup_l _ _ _ _ _ Hds Hq) as (d & Hdj & Hdp). exists d, (imposed_date (gc_commit_time c) ds). split_and!; [done..|].
  apply list_elem_of_lookup_2 in Hdj. clear -Hdj. unfold imposed_date. induction ds as [|x ds IH]; [by apply not_elem_of_nil in Hdj|]. cbn [foldr]. apply elem_of_cons in Hdj as [-> |Hin]; [lia|]. specialize (IH Hin). lia.
Qed.

Lemma described_ok positions n cs c : described cs c -> from_roots (gc_id c) -> valued positions cs n c -> n <= 0x70000000 ->
  commit_ok fmt c /\ fits c /\ is_Some (gc_corrected_commit_date c).
Proof using Hroots Hformat.
  intros [(rc & Hrc & Htree & _ & Htime) _] Hfrom (d & _ & Hd & Hg & Hr) Hn. pose proof (read_typed _ _ Hrc) as (Hf & [Ht1 Ht2] & _). apply commit_seconds_range in Htime.
  rewrite <- Htree in Ht1, Ht2. split_and!; try done; try lia.
  - split_and!; try done; [by apply from_roots_ok|lia|lia|]. intros d' Hd'. rewrite Hd in Hd'. injection Hd' as <-. unfold u64_max. lia.
  - split_and!; [lia|lia|]. intros d' Hd'. rewrite Hd in Hd'. injection Hd' as <-. lia.
Qed.

(** A graph whose commits are described is ordered by their dates. *)
Lemma described_order limits' g cs l : graph_ok fmt limits' g -> layers g = [l] -> commits g = Some cs -> is_Some (offsets l) -> parents_total cs <= 2 ^ 29 ->
  (forall c, c ∈ cs -> described cs c) -> exists h, prepare [l] = Ok h /\ order h = CorrectedDates.
Proof using.
  intros Hg Hls Hcs Hoff Htot Hall. destruct (commits_spec Hg) as (cs' & Hcs' & _ & _ & _ & Hnd & Hin & Hpt). rewrite Hcs in Hcs'. injection Hcs' as <-.
  pose proof (gk_chain _ _ _ Hg) as Hch. destruct (prepare_dates Hch) as (h & Hh & Ho & _).
  - rewrite Hls. cbn. rewrite bool_decide_true by done. by rewrite orb_true_r.
  - unfold parents_in in Hpt. rewrite <- Hpt. unfold u32_max. lia.
  - intros p q Hp Hq. pose proof (parents_at_range Hg p q Hp Hq) as Hqr.
    destruct (record_at_total Hg p Hp) as (c & cl & Hcl & Hrec & _ & HF & _ & Hdate), (record_at_total Hg q Hqr) as (c' & cl' & Hcl' & Hrec' & Hid' & _ & _ & Hdate').
    assert (c ∈ cs) as Hc by (apply Hin; eauto). assert (c' ∈ cs) as Hc' by (apply Hin; eauto). apply list_elem_of_lookup_1 in Hq as [j Hj].
    destruct (Forall2_lookup_l _ _ _ _ _ HF Hj) as (i & Hi & Hqi). rewrite Hid' in Hqi. injection Hqi as <-.
    destruct (described_after cs c c' Hnd (Hall c Hc) Hc') as (dp & dc & Hdp & Hdc & Hlt); [by eapply list_elem_of_lookup_2|].
    assert (forall x cx dx, zget x (cells (layers g)) = Some cx -> layer_corrected_date cx.1 cx.2 = Some (Some dx) -> zget x (date_of <$> cells (layers g)) = Some dx) as Hget.
    { intros x cx dx [Hx0 Hx]%zget_Some Hd. apply zget_Some. split; [done|]. apply list_lookup_fmap_Some. exists cx. unfold date_of. by rewrite Hd. }
    exists dp, dc. rewrite Hdp in Hdate'. rewrite Hdc in Hdate. split_and!; [by eapply Hget|by eapply Hget|done].
  - rewrite Hls in Hh. by exists h.
Qed.

Context (sha1 sha256 : bytes -> bytes).
Context (Hsha1 : forall bs, bytes_ok (sha1 bs) /\ zlen (sha1 bs) = 20) (Hsha256 : forall bs, bytes_ok (sha256 bs) /\ zlen (sha256 bs) = 32).

(** From commits with their values to a graph. *)
Lemma finish_ok spawned m r cs : reading_ok m r -> r_index r = length (r_ids r) ->
  Forall2 same_graph (r_commits r) cs -> (forall c, c ∈ cs -> valued (r_positions r) cs (zlen (r_commits r)) c) ->
  match
    (let? positions := number (sort_by by_id cs) 0 ∅ in
     let? bs := encode_records sha1 sha256 fmt (sort_by by_id cs) positions [] in
     map_err InGraph (parse_owned sha1 sha256 spawned bs fmt build_limits Verify))
  with
  | Ok g => built g
  | Err e => refused e
  end.
Proof using Hmax Hroots Hformat Hsha1 Hsha256.
  intros R Hend HF Hval. pose proof (sort_by_perm by_id cs) as HP. set (sorted := sort_by by_id cs) in *.
  destruct (number_spec sorted 0 ∅ ltac:(lia)) as [Hnum Hplace]. destruct (number sorted 0 ∅) as [positions|e]; cbn [rbind]; [|subst e; right; left].
  assert (zlen (r_commits r) = zlen sorted) as Hlen by (unfold zlen; rewrite HP; by rewrite (Forall2_length _ _ _ HF)).
  assert (zlen sorted <= 0x70000000) as Hsmall by (destruct Hnum as [?| ->]; [lia|by vm_compute]). rewrite Hlen in Hval.
  destruct (assigned_described m r R Hend cs HF) as [Hids Hdesc]; [by rewrite Hlen|lia|].
  assert (forall id, id ∈ map gc_id sorted <-> from_roots id) as Hset.
  { intros id. rewrite (Permutation_map gc_id HP), Hids. split; [apply (ro_from _ _ R)|]. intros (root & Hroot & HR). revert Hroot.
    assert (root ∈ roots -> root ∈ r_ids r) as H0 by apply (ro_roots _ _ R). intros Hroot%H0. clear H0. induction HR as [|a b c (rc & Hrc & Hb) _ IH]; [done|]. apply IH.
    apply list_elem_of_lookup_1 in Hroot as [k Hk]. destruct (read_at m r R Hend k a Hk) as (rc' & t & [Hrc' _] & Hk'). rewrite Hrc in Hrc'. injection Hrc' as <-.
    eapply (ro_parents _ _ R); [by eapply list_elem_of_lookup_2|done]. }
  assert (NoDup (map gc_id sorted)) as Hnd by (rewrite (Permutation_map gc_id HP), Hids; apply (ro_found _ _ R)).
  assert (Forall (fun c => commit_ok fmt c /\ fits c /\ is_Some (gc_corrected_commit_date c)) sorted) as Hok.
  { apply Forall_forall. intros c Hc. assert (c ∈ cs) as Hc' by by rewrite <- HP. eapply described_ok; [by apply Hdesc|apply Hset, list_elem_of_fmap; by exists c|by apply Hval|done]. }
  assert (Forall (commit_ok fmt) sorted) as Hcok by (eapply Forall_impl; [exact Hok|]; tauto).
  assert (forall p q, positions !! p = Some q <-> exists c, zget q sorted = Some c /\ gc_id c = p) as Hpl.
  { intros p q. rewrite (Hplace Hnd ltac:(intros; apply lookup_empty) positions eq_refl). rewrite lookup_empty. rewrite Z.sub_0_r. split; [by intros [?|?]|by right]. }
  assert (Forall (fun c => Forall (fun p => is_Some (positions !! p)) (gc_parents c)) sorted) as Hpos.
  { apply Forall_forall. intros c Hc. apply Forall_forall. intros p Hp. assert (c ∈ cs) as Hc' by by rewrite <- HP. destruct (Hdesc c Hc') as [_ (qs & _ & Hqs & _)].
    apply list_elem_of_lookup_1 in Hp as [j Hj]. destruct (Forall2_lookup_l _ _ _ _ _ Hqs Hj) as (q & _ & Hq & Hid). rewrite <- HP in Hq. apply list_elem_of_lookup_1 in Hq as [k Hk].
    exists (Z.of_nat k). apply Hpl. exists q. split; [|done]. apply zget_Some. rewrite Nat2Z.id. split; [lia|done]. }
  assert (writable fmt sorted positions 0 []) as W.
  { constructor; try done; [apply (sort_ids fmt); [rewrite Hids; apply (ro_found _ _ R)|done]|]. intros p q (c & Hc & _)%Hpl. pose proof (zget_lt _ _ _ Hc). lia. }
  destruct (encode_records sha1 sha256 fmt sorted positions []) as [bs|e] eqn:Hbs; cbn [rbind].
  2:{ destruct (encode_records_refused sha1 sha256 fmt sorted positions [] e Hcok) as [-> |[[-> | ->] _]]; try done; try (eapply Forall_impl; [exact Hok|]; tauto); cbn; [by left|right; set_solver..]. }
  destruct (written_sizes sha1 sha256 fmt sorted positions 0 [] bs W Hbs) as [Hs1 Hs2].
  destruct (parse_written sha1 sha256 Hsha1 Hsha256 fmt sorted positions W bs Hbs build_limits eq_refl ltac:(by vm_compute) ltac:(cbn; unfold usize_max; lia) ltac:(cbn; unfold usize_max; lia) spawned)
    as (g & t & l & Hparse & Hg & Hls & Hhist & T & L & Hc & Hst & He & Ho & Hn). rewrite Hparse. cbn [map_err].
  assert (commits g = Some sorted) as Hcs by (eapply (commits_written fmt sorted positions W build_limits); try done; intros p q; apply Hpl).
  assert (forall c, c ∈ sorted -> described sorted c) as Hdesc'.
  { intros c Hc'. eapply described_perm; [symmetry; exact HP|]. apply Hdesc. by rewrite <- HP. }
  destruct (described_order build_limits g sorted l Hg Hls Hcs) as (h & Hh & Hord); [destruct (ot_offsets _ _ _ L) as (x & -> & _); by eexists|done|done|].
  exists sorted. split_and!; try done. exists h. split; [by apply Hhist|done].
Qed.

(** [CommitGraph::build]. *)
Lemma build_verdict spawned no_shallow :
  match build sha1 sha256 spawned no_shallow o roots limits with
  | Ok g => built g
  | Err Shallow => no_shallow = false
  | Err e => refused e
  end.
Proof using Hmax Hroots Hformat Hsha1 Hsha256.
  unfold build. destruct no_shallow; [|done]. cbn [negb]. pose proof (reading_total Hmax) as HR.
  destruct (discover_all roots _ _) as [[ids positions]|e]; cbn [rbind]; [|by destruct e]. destruct HR as (a & -> & Ha).
  destruct a as [r|e]; cbn [rbind]; [|by destruct e]. destruct Ha as (m & R & Hend).
  pose proof (set_generations_verdict (r_commits r) (r_positions r) (parent_positions_known m r R Hend) (times_known m r R Hend)) as Hgen.
  destruct (set_generations (r_commits r) (r_positions r)) as [cs|e]; cbn [rbind].
  - destruct Hgen as [HF Hval]. pose proof (finish_ok spawned m r cs R Hend HF Hval) as H. fold by_id. destruct (rbind _ _) as [g|e]; [done|by destruct e].
  - destruct Hgen as [-> [x Hx]]. by eapply search_cycle.
Qed.
End Build.

(** ** Claims *)

(** C15: A commit graph built from objects is complete and correct. Over a store that
    returns objects of its own format, [build] either refuses for a stated reason (a
    reachable commit that cannot be read or has no representable time, a cycle among the
    reachable commits, a limit, shallow history) or returns a graph whose records are
    exactly the commits reachable from the roots, each with the tree, parents and time of
    its object, a level one more than the largest of its parents, and a corrected date
    that is its time or one more than the largest date of its parents. Such a graph is
    always ordered by its dates. *)
Theorem build_correct sha1 sha256 spawned no_shallow (o : Objects_) roots limits :
  (forall bs, bytes_ok (sha1 bs) /\ zlen (sha1 bs) = 20) -> (forall bs, bytes_ok (sha256 bs) /\ zlen (sha256 bs) = 32) ->
  (forall id x, History.o_read o id = Ok (Some x) -> id_format id = History.o_format o) ->
  0 <= History.max_commits limits -> Forall id_ok roots ->
  match build sha1 sha256 spawned no_shallow o roots limits with
  | Ok g => built o roots g
  | Err Shallow => no_shallow = false
  | Err e => refused o roots e
  end.
Proof. intros H1 H2 Hf Hm Hr. by apply build_verdict. Qed.

(** A commit and its parent. *)
Definition stored_text (parents : bytes) (time : bytes) : bytes :=
  bstr "tree " ++ to_string (sample_id 9) ++ [10] ++ parents ++ bstr "author A <a> 1 +0000" ++ [10] ++ bstr "committer A <a> " ++ time ++ bstr " +0000" ++ [10; 10; 109; 10].
Definition stored_objects : Objects_ :=
  {| History.o_format := FSha1;
     History.o_read id := Ok (if bool_decide (id = sample_id 1) then Some (KCommit, stored_text [] (bstr "500"))
       else if bool_decide (id = sample_id 2) then Some (KCommit, stored_text (bstr "parent " ++ to_string (sample_id 1) ++ [10]) (bstr "100")) else None);
     History.o_graft _ := None; History.o_shallow _ := false; History.o_graph := None |}.
Definition stored_graph : Graph := match build (written_sum 20) (written_sum 32) false true stored_objects [sample_id 2] sample_limits with Ok g => g | Err _ => no_graph end.

Lemma stored_objects_format id x : History.o_read stored_objects id = Ok (Some x) -> id_format id = History.o_format stored_objects.
Proof. cbn. case_bool_decide as E1; [by subst|]. case_bool_decide as E2; [by subst|done]. Qed.

Lemma build_correct_witness : built stored_objects [sample_id 2] stored_graph /\
  (gc_corrected_commit_date <$> default [] (commits stored_graph)) = [Some 500; Some 501].
Proof.
  pose proof (build_correct (written_sum 20) (written_sum 32) false true stored_objects [sample_id 2] sample_limits (written_sum_ok 20) (written_sum_ok 32) stored_objects_format
    ltac:(by vm_compute) (Forall_cons_2 _ _ _ (graph_sample_id_ok 2 ltac:(lia)) (Forall_nil_2 _))) as H.
  assert (is_ok (build (written_sum 20) (written_sum 32) false true stored_objects [sample_id 2] sample_limits) = true) as E by (vm_compute; reflexivity).
  split; [|vm_compute; reflexivity]. unfold stored_graph. destruct (build _ _ _ _ _ _ _) as [g|e]; [exact H|discriminate E].
Defined.
End GraphBuild.
