(* ===== verification/IndexFile.v ===== *)
(** * The index file ([src/src/index/codec.rs], [src/src/index/split.rs],
      [src/src/index/entries.rs])

    The staging area as a file: entries in versions 2, 3 and 4, extensions, the shared
    index of a split file, validation, and the edits of an index in memory.  Offsets stay
    below the length of a slice, so their additions do not overflow; a panic of the code is
    the error [Panic]. *)

From stdpp Require Import base list numbers strings sets sorting.
From Stdlib Require Import ZArith Lia.
From S2P Require Import Prelude Objects.

Module IndexFile.
Import Objects.

(** ** Entries *)

Inductive Mode := SparseDirectory | Regular | Executable | Symlink | Gitlink.
Inductive Stage := Normal | Base | Ours | Theirs.
Record Timestamp := { ts_seconds : Z; ts_nanoseconds : Z }.
Record Stat := { ctime : Timestamp; mtime : Timestamp; device : Z; inode : Z; uid : Z; gid : Z; stat_size : Z }.
Record Entry := {
  path : bytes;
  mode : Mode;
  e_id : ObjectId;
  stage : Stage;
  assume_valid : bool;
  intent_to_add : bool;
  skip_worktree : bool;
  stat : Stat
}.

#[export] Instance Mode_eq_dec : EqDecision Mode.
Proof. solve_decision. Defined.
#[export] Instance Stage_eq_dec : EqDecision Stage.
Proof. solve_decision. Defined.
#[export] Instance Timestamp_eq_dec : EqDecision Timestamp.
Proof. solve_decision. Defined.
#[export] Instance Stat_eq_dec : EqDecision Stat.
Proof. solve_decision. Defined.
#[export] Instance Entry_eq_dec : EqDecision Entry.
Proof. solve_decision. Defined.

Definition zero_time : Timestamp := {| ts_seconds := 0; ts_nanoseconds := 0 |}.
Definition zero_stat : Stat := {| ctime := zero_time; mtime := zero_time; device := 0; inode := 0; uid := 0; gid := 0; stat_size := 0 |}.

(** [Entry::new]. *)
Definition entry_new (p : bytes) (m : Mode) (i : ObjectId) : Entry :=
  {| path := p; mode := m; e_id := i; stage := Normal; assume_valid := false; intent_to_add := false; skip_worktree := false; stat := zero_stat |}.

(** The discriminants of [Mode] and [Stage]. *)
Definition mode_word (m : Mode) : Z :=
  match m with SparseDirectory => 0x4000 | Regular => 0x81a4 | Executable => 0x81ed | Symlink => 0xa000 | Gitlink => 0xe000 end.
Definition stage_number (s : Stage) : Z := match s with Normal => 0 | Base => 1 | Ours => 2 | Theirs => 3 end.
Definition stage_bit (s : Stage) : Z := Z.shiftl 1 (stage_number s).

(** The comparison of [(path, stage)]. *)
Definition entry_cmp (a b : Entry) : comparison :=
  match bytes_cmp (path a) (path b) with Eq => Z.compare (stage_number (stage a)) (stage_number (stage b)) | c => c end.

Definition extended (e : Entry) : bool := intent_to_add e || skip_worktree e.

(** ** The index *)

Inductive Version := V2 | V3 | V4.
#[export] Instance Version_eq_dec : EqDecision Version.
Proof. solve_decision. Defined.
Definition version_word (v : Version) : Z := match v with V2 => 2 | V3 => 3 | V4 => 4 end.

Record Extension := { signature : bytes; ext_data : bytes }.
#[export] Instance Extension_eq_dec : EqDecision Extension.
Proof. solve_decision. Defined.

Record Index := { i_format : ObjectFormat; version : Version; original : option bytes; entries : list Entry; extensions : list Extension }.

Record Limits := { max_bytes : Z; max_entries : Z; max_path_bytes : Z; max_extensions : Z }.
Definition default_limits : Limits :=
  {| max_bytes := 256 * 1024 * 1024; max_entries := 1000000; max_path_bytes := 1024 * 1024; max_extensions := 64 |}.

Inductive Error :=
| InvalidFormat (e : ObjectFormatError)
| Malformed (offset : Z) (reason : string)
| Checksum
| UnsupportedVersion (v : Z)
| InvalidEntry (entry : Z) (reason : string)
| SharedRequired (id : ObjectId)
| MandatoryExtension (sig : bytes)
| ExtensionPreventsEdit (sig : bytes)
| Limit (resource : string)
| Panic.

Definition malformed (offset : Z) (reason : string) : Error := Malformed offset reason.
Definition entry_error (entry : Z) (reason : string) : Error := InvalidEntry entry reason.
Definition check_count (actual maximum : Z) (resource : string) : result Error unit :=
  if maximum <? actual then Err (Limit resource) else Ok tt.

(** ** Integers *)

Definition word (bs : bytes) (offset : Z) : result Error Z :=
  ok_or (be_decode <$> slice offset (offset + 4) bs) (malformed offset "truncated integer").
Definition put_word (v : Z) : bytes := be_encode 4 v.

(** [read_varint]: the value and the cursor after it. *)
Fixpoint read_varint_loop (fuel : nat) (bs : bytes) (cursor value : Z) : result Error (Z * Z) :=
  match fuel with
  | O => Err Panic
  | S fuel =>
      let? byte := ok_or (zget cursor bs) (malformed cursor "truncated path prefix") in
      let cursor := cursor + 1 in
      let? value := ok_or (n ← checked_mul value 128; checked_add n (Z.land byte 127)) (malformed cursor "path prefix overflow") in
      if Z.land byte 128 =? 0 then Ok (value, cursor)
      else
        let? value := ok_or (checked_add value 1) (malformed cursor "path prefix overflow") in
        read_varint_loop fuel bs cursor value
  end.
Definition read_varint (bs : bytes) (cursor : Z) : result Error (Z * Z) := read_varint_loop (S (length bs)) bs cursor 0.

(** [varint]: the groups in use; [None] when the ten groups do not suffice. *)
Fixpoint varint_loop (room : nat) (value : Z) (groups : bytes) : option bytes :=
  if value <? 128 then Some groups
  else
    match room with
    | O => None
    | S room =>
        let value := Z.shiftr value 7 - 1 in
        varint_loop room value (Z.lor 128 (Z.land value 127) :: groups)
    end.
Definition varint (value : Z) : option bytes := varint_loop 9 value [Z.land value 127].

(** ** Reading an entry *)

Definition mode_of_word (w : Z) : option Mode :=
  if w =? 0x81a4 then Some Regular else if w =? 0x81ed then Some Executable else if w =? 0xa000 then Some Symlink
  else if w =? 0xe000 then Some Gitlink else if w =? 0x4000 then Some SparseDirectory else None.

Definition stage_of (n : Z) : Stage := if n =? 0 then Normal else if n =? 1 then Base else if n =? 2 then Ours else Theirs.

(** The extended flags and the start of the path. *)
Definition extended_flags (v : Version) (bs : bytes) (flags position path_start : Z) : result Error (Z * Z) :=
  if Z.land flags 0x4000 =? 0 then Ok (0, path_start)
  else if bool_decide (v = V2) then Err (entry_error position "extended flags unsupported in v2")
  else
    let? raw := ok_or (slice path_start (path_start + 2) bs) (malformed path_start "truncated extended flags") in
    let value := be_decode raw in
    if negb (Z.land value (Z.lxor 0xffff 0x6000) =? 0) then Err (entry_error position "unknown extended flags") else Ok (value, path_start + 2).

(** The length of the prefix shared with the previous path, and the start of the suffix. *)
Definition shared_prefix (v : Version) (bs previous : bytes) (path_start : Z) : result Error (Z * Z) :=
  if bool_decide (v = V4) then
    let? (remove, path_start) := read_varint bs path_start in
    let? prefix := ok_or (checked_sub (zlen previous) remove) (malformed path_start "path prefix removes more than previous name") in
    Ok (prefix, path_start)
  else Ok (0, path_start).

Definition read_stat (fixed : bytes) : result Error Stat :=
  let? cs := word fixed 0 in
  let? cn := word fixed 4 in
  let? ms := word fixed 8 in
  let? mn := word fixed 12 in
  let? dev := word fixed 16 in
  let? ino := word fixed 20 in
  let? u := word fixed 28 in
  let? g := word fixed 32 in
  let? size := word fixed 36 in
  Ok {| ctime := {| ts_seconds := cs; ts_nanoseconds := cn |}; mtime := {| ts_seconds := ms; ts_nanoseconds := mn |};
        device := dev; inode := ino; uid := u; gid := g; stat_size := size |}.

(** [parse_entry]: the entry and the cursor after it. *)
Definition parse_entry (fmt : ObjectFormat) (bs : bytes) (start position : Z) (limits : Limits) (v : Version) (previous : bytes)
  : result Error (Entry * Z) :=
  let width := digest_len fmt in
  let fixed_len := 42 + width in
  let? all := ok_or (slice start (saturating_add start fixed_len) bs) (malformed start "truncated entry") in
  let? (fixed, flags) := ok_or (split_at_checked (zlen all - 2) all) (malformed start "truncated entry") in
  let? m := word fixed 24 in
  let? m := ok_or (mode_of_word m) (entry_error position "unsupported mode") in
  let flags := be_decode flags in
  let? (more, path_start) := extended_flags v bs flags position (start + fixed_len) in
  let? (prefix, path_start) := shared_prefix v bs previous path_start in
  let? _ := check_count prefix (max_path_bytes limits) "path bytes" in
  let search_end := Z.min (zlen bs) (saturating_add (saturating_add path_start (max_path_bytes limits - prefix)) 1) in
  let? searched := ok_or (slice path_start search_end bs) (malformed path_start "unterminated path") in
  let? suffix_len := ok_or (Z.of_nat <$> Prelude.position (fun b => b =? 0) searched)
    (if search_end <? zlen bs then Limit "path bytes" else malformed path_start "unterminated path") in
  let name_len := prefix + suffix_len in
  if negb (Z.land flags 0xfff =? Z.min name_len 0xfff) then Err (entry_error position "name length flag mismatch")
  else
    let terminated := path_start + suffix_len + 1 in
    let stop := if bool_decide (v = V4) then terminated else start + Z.land (terminated - start + 7) (Z.lxor usize_max 7) in
    let? padding := ok_or (slice terminated stop bs) (malformed terminated "truncated padding") in
    if existsb (fun b => negb (b =? 0)) padding then Err (malformed terminated "nonzero padding")
    else
      let name := default [] (slice 0 prefix previous) ++ default [] (slice 0 suffix_len searched) in
      let? i := ok_or (raw ← slice 40 (40 + width) fixed; match from_bytes fmt raw with Ok i => Some i | Err _ => None end) (malformed start "truncated entry") in
      let? st := read_stat fixed in
      Ok ({| path := name; mode := m; e_id := i; stage := stage_of (Z.land (Z.shiftr flags 12) 3);
             assume_valid := negb (Z.land flags 0x8000 =? 0); intent_to_add := negb (Z.land more 0x2000 =? 0);
             skip_worktree := negb (Z.land more 0x4000 =? 0); stat := st |}, stop).

(** ** Validation *)

(** A path component that is refused. *)
Definition bad_part (part : bytes) : bool := bytes_eqb part [] || bytes_eqb part [46] || bytes_eqb part [46; 46] || bytes_eqb part (bstr ".git").

(** The checks of one entry. *)
Definition check_entry (fmt : ObjectFormat) (limits : Limits) (position : Z) (e : Entry) : result Error unit :=
  let? _ := map_err InvalidFormat (require_format (e_id e) fmt) in
  let? _ := check_count (zlen (path e)) (max_path_bytes limits) "path bytes" in
  let? p :=
    if bool_decide (mode e = SparseDirectory) then
      if negb (skip_worktree e) || intent_to_add e || bool_decide (stage e <> Normal) then Err (entry_error position "invalid sparse directory flags or stage")
      else ok_or (strip_suffix [47] (path e)) (entry_error position "sparse directory requires trailing slash")
    else Ok (path e) in
  if contains 0 p || existsb bad_part (split_on 47 p) then Err (entry_error position "invalid path component or NUL") else Ok tt.

(** The checks against the entry before. *)
Definition check_order (position : Z) (previous : option Entry) (e : Entry) : result Error unit :=
  match previous with
  | None => Ok tt
  | Some p =>
      match entry_cmp p e with
      | Lt => if bytes_eqb (path p) (path e) && bool_decide (stage p = Normal) then Err (entry_error position "normal entry mixed with conflict stages") else Ok tt
      | _ => Err (entry_error position "unsorted or duplicate path/stage")
      end
  end.

Fixpoint check_each (fmt : ObjectFormat) (limits : Limits) (position : Z) (previous : option Entry) (es : list Entry) : result Error unit :=
  match es with
  | [] => Ok tt
  | e :: es =>
      let? _ := check_entry fmt limits position e in
      let? _ := check_order position previous e in
      check_each fmt limits (position + 1) (Some e) es
  end.

(** [common_prefix]. *)
Fixpoint common_prefix (a b : bytes) : Z :=
  match a, b with
  | x :: a, y :: b => if x =? y then common_prefix a b + 1 else 0
  | _, _ => 0
  end.

(** The ancestors that stay, the last one first. *)
Fixpoint pop_ancestors (common : Z) (ancestors : list (Z * Z)) : list (Z * Z) :=
  match ancestors with
  | (slash, stages) :: rest => if common <=? slash then pop_ancestors common rest else ancestors
  | [] => []
  end.

(** The positions of slashes from [from] on. *)
Fixpoint slashes (i : Z) (l : bytes) : list Z :=
  match l with
  | [] => []
  | b :: l => if b =? 47 then i :: slashes (i + 1) l else slashes (i + 1) l
  end.

(** The stages recorded at exactly a path. *)
Fixpoint stages_at (prefix : bytes) (es : list Entry) (stages : Z) : Z :=
  match es with
  | [] => stages
  | e :: es => if bytes_eqb (path e) prefix then stages_at prefix es (Z.lor stages (stage_bit (stage e))) else stages
  end.
Definition recorded (all : list Entry) (prefix : bytes) : Z :=
  let start := partition_point (length all)
    (fun k => match zget k all with Some e => match bytes_cmp (path e) prefix with Lt => true | _ => false end | None => false end) 0 (zlen all) in
  stages_at prefix (drop (Z.to_nat start) all) 0.

Fixpoint push_ancestors (all : list Entry) (p : bytes) (sl : list Z) (ancestors : list (Z * Z)) : list (Z * Z) :=
  match sl with
  | [] => ancestors
  | s :: sl => push_ancestors all p sl ((s, recorded all (default [] (slice 0 s p))) :: ancestors)
  end.

Definition collides (s : Stage) (stages : Z) : bool :=
  negb (stages =? 0) && (negb (Z.land stages (Z.lor (stage_bit s) (stage_bit Normal)) =? 0) || bool_decide (s = Normal)).

Fixpoint check_collisions (all : list Entry) (position : Z) (previous : bytes) (ancestors : list (Z * Z)) (es : list Entry) : result Error unit :=
  match es with
  | [] => Ok tt
  | e :: es =>
      if bool_decide (mode e = SparseDirectory) && match es with next :: _ => starts_with (path e) (path next) | [] => false end
      then Err (entry_error position "sparse directory overlaps entries")
      else
        let ancestors := pop_ancestors (common_prefix previous (path e)) ancestors in
        let from := match ancestors with (slash, _) :: _ => slash + 1 | [] => 0 end in
        let ancestors := push_ancestors all (path e) (slashes from (drop (Z.to_nat from) (path e))) ancestors in
        if existsb (fun a => collides (stage e) a.2) ancestors then Err (entry_error position "file/directory collision in a stage")
        else check_collisions all (position + 1) (path e) ancestors es
  end.

(** [validate_entries]. *)
Definition validate_entries (fmt : ObjectFormat) (es : list Entry) (limits : Limits) : result Error unit :=
  let? _ := check_each fmt limits 0 None es in
  check_collisions es 0 [] [] es.

(** ** Reading a file *)

Fixpoint parse_entries (n : nat) (fmt : ObjectFormat) (content : bytes) (limits : Limits) (v : Version) (cursor position : Z) (es : list Entry)
  : result Error (list Entry * Z) :=
  match n with
  | O => Ok (es, cursor)
  | S n =>
      let previous := match last es with Some e => path e | None => [] end in
      let? (e, cursor) := parse_entry fmt content cursor position limits v previous in
      parse_entries n fmt content limits v cursor (position + 1) (es ++ [e])
  end.

Definition link : bytes := bstr "link".
Definition sdir : bytes := bstr "sdir".
Definition TREE : bytes := bstr "TREE".
Definition UNTR : bytes := bstr "UNTR".
Definition FSMN : bytes := bstr "FSMN".
Definition EOIE : bytes := bstr "EOIE".
Definition IEOT : bytes := bstr "IEOT".
Definition REUC : bytes := bstr "REUC".
Definition has (sig : bytes) (xs : list Extension) : bool := existsb (fun x => bytes_eqb (signature x) sig) xs.
Definition one_of (sigs : list bytes) (sig : bytes) : bool := existsb (bytes_eqb sig) sigs.

(** The extensions; each takes eight bytes or more. *)
Fixpoint parse_extensions (fuel : nat) (content : bytes) (limits : Limits) (cursor : Z) (xs : list Extension) : result Error (list Extension * Z) :=
  if zlen content <=? cursor then Ok (xs, cursor)
  else
    match fuel with
    | O => Err Panic
    | S fuel =>
        let? _ := check_count (zlen xs + 1) (max_extensions limits) "extensions" in
        let? head8 := ok_or (slice cursor (cursor + 8) content) (malformed cursor "truncated extension header") in
        let sig := take 4 head8 in
        let? b := ok_or (zget 0 sig) Panic in
        if negb (is_upper b) && negb (one_of [link; sdir] sig) then Err (MandatoryExtension sig)
        else
          let? length := word content (cursor + 4) in
          let cursor := cursor + 8 in
          let? data := ok_or (slice cursor (cursor + length) content) (malformed cursor "truncated extension payload") in
          parse_extensions fuel content limits (cursor + length) (xs ++ [{| signature := sig; ext_data := data |}])
    end.

Section Hashing.
(** The digest functions, from the aws-lc library. *)
Context (sha1 sha256 : bytes -> bytes).

(** [Index::parse_file]. *)
Definition parse_file (fmt : ObjectFormat) (bs : bytes) (limits : Limits) : result Error Index :=
  let? _ := check_count (zlen bs) (max_bytes limits) "bytes" in
  if (zlen bs <? 12 + digest_len fmt) || negb (starts_with (bstr "DIRC") bs) then Err (malformed 0 "missing header or checksum")
  else
    let? vw := word bs 4 in
    let? v := (if vw =? 2 then Ok V2 else if vw =? 3 then Ok V3 else if vw =? 4 then Ok V4 else Err (UnsupportedVersion vw)) in
    let stop := zlen bs - digest_len fmt in
    let? (content, sum) := ok_or (split_at_checked stop bs) (malformed 0 "missing header or checksum") in
    if negb (bytes_eqb (id_bytes (checksum sha1 sha256 fmt content)) sum) then Err Checksum
    else
      let? count := word bs 8 in
      let? _ := check_count count (max_entries limits) "entries" in
      if (stop - 12) / (43 + digest_len fmt) <? count then Err (malformed 8 "entry count exceeds available bytes")
      else
        let? (es, cursor) := parse_entries (Z.to_nat count) fmt content limits v 12 0 [] in
        let? (xs, cursor) := parse_extensions (S (length content)) content limits cursor [] in
        let sparse := filter (fun x => bytes_eqb (signature x) sdir = true) xs in
        if (1 <? zlen sparse) || match sparse with x :: _ => negb (bytes_eqb (ext_data x) []) | [] => false end
        then Err (malformed cursor "invalid sparse extension")
        else if existsb (fun e => bool_decide (mode e = SparseDirectory)) es && match sparse with [] => true | _ => false end
        then Err (malformed cursor "sparse directory without sdir extension")
        else
          let? _ := (if has link xs then Ok tt else validate_entries fmt es limits) in
          Ok {| i_format := fmt; version := v; original := Some bs; entries := es; extensions := xs |}.

(** ** Split files *)

Definition invalid (reason : string) : Error := Malformed 0 reason.

Definition read_u32 (bs : bytes) (cursor : Z) : result Error (Z * Z) :=
  let? raw := ok_or (slice cursor (cursor + 4) bs) (invalid "truncated bitmap header") in
  Ok (be_decode raw, cursor + 4).

(** The bits of one literal word. *)
Fixpoint literal_bits (n : nat) (value bit offset bits : Z) (output : list Z) : result Error (list Z) :=
  match n with
  | O => Ok output
  | S n =>
      if Z.testbit value bit then
        let? position := ok_or (checked_add offset bit) (Limit "bitmap bits") in
        if bits <=? position then Err (invalid "set bitmap padding") else literal_bits n value (bit + 1) offset bits (output ++ [position])
      else literal_bits n value (bit + 1) offset bits output
  end.

Definition bitmap_word (data : bytes) (i : Z) : result Error Z := ok_or (be_decode <$> slice (8 * i) (8 * i + 8) data) (invalid "truncated bitmap").

Fixpoint bitmap_literals (n : nat) (data : bytes) (bits index offset : Z) (output : list Z) : result Error (Z * Z * list Z) :=
  match n with
  | O => Ok (index, offset, output)
  | S n =>
      let? value := bitmap_word data index in
      let? output := literal_bits 64 value 0 offset bits output in
      let? offset := ok_or (checked_add offset 64) (Limit "bitmap bits") in
      if saturating_add bits 63 <? offset then Err (invalid "bitmap exceeds bit length")
      else bitmap_literals n data bits (index + 1) offset output
  end.

(** The runs; each takes a word. *)
Fixpoint bitmap_runs (fuel : nat) (data : bytes) (bits words index offset last_run : Z) (output : list Z) : result Error (Z * Z * list Z) :=
  if words <=? index then Ok (offset, last_run, output)
  else
    match fuel with
    | O => Err Panic
    | S fuel =>
        let last_run := index in
        let? run := bitmap_word data index in
        let index := index + 1 in
        let repeats := Z.land (Z.shiftr run 1) 0xffffffff in
        let literals := Z.shiftr run 33 in
        let? run_bits := ok_or (checked_mul repeats 64) (Limit "bitmap bits") in
        let? next := ok_or (checked_add offset run_bits) (Limit "bitmap bits") in
        if (saturating_add bits 63 <? next) || (words - index <? literals) then Err (invalid "invalid bitmap run")
        else
          let? output :=
            (if Z.testbit run 0 then if bits <? next then Err (invalid "set bitmap padding") else Ok (output ++ seqZ offset (next - offset))
             else Ok output) in
          let? (index, offset, output) := bitmap_literals (Z.to_nat literals) data bits index next output in
          bitmap_runs fuel data bits words index offset last_run output
    end.

(** [bitmap]: the set positions and the cursor after the bitmap. *)
Definition bitmap (bs : bytes) (cursor maximum : Z) : result Error (list Z * Z) :=
  let? (bits, cursor) := read_u32 bs cursor in
  if maximum <? bits then Err (invalid "bitmap exceeds shared entries")
  else
    let? (words, cursor) := read_u32 bs cursor in
    let? length := ok_or (checked_mul words 8) (Limit "bitmap bytes") in
    let? stop := ok_or (checked_add cursor length) (Limit "bitmap bytes") in
    let? data := ok_or (slice cursor stop bs) (invalid "truncated bitmap") in
    let? (current, cursor) := read_u32 bs stop in
    if (words =? 0) || (words <=? current) then Err (invalid "invalid bitmap run pointer")
    else
      let? (offset, last_run, output) := bitmap_runs (S (List.length data)) data bits words 0 0 0 [] in
      if (offset <? bits) || negb (current =? last_run) then Err (invalid "invalid bitmap length or run pointer") else Ok (output, cursor).

(** [Index::empty]. *)
Definition empty (fmt : ObjectFormat) : Index := {| i_format := fmt; version := V2; original := None; entries := []; extensions := [] |}.

(** [Index::shared_index_id]. *)
Definition shared_index_id (x : Index) : option ObjectId :=
  l ← find (fun e => bytes_eqb (signature e) link) (extensions x);
  raw ← slice 0 (digest_len (i_format x)) (ext_data l);
  id ← match from_bytes (i_format x) raw with Ok id => Some id | Err _ => None end;
  if bool_decide (id = null (i_format x)) then None else Some id.

(** The replaced entries of the shared index; the drafts that are left. *)
Fixpoint replace_shared (replaced : list Z) (drafts base : list Entry) : result Error (list Entry * list Entry) :=
  match replaced, drafts with
  | position :: replaced, e :: drafts =>
      let? slot := ok_or (zget position base) (invalid "replaced entry outside shared index") in
      let e := if bytes_eqb (path e) [] then {| path := path slot; mode := mode e; e_id := e_id e; stage := stage e; assume_valid := assume_valid e;
                 intent_to_add := intent_to_add e; skip_worktree := skip_worktree e; stat := stat e |} else e in
      replace_shared replaced drafts (<[Z.to_nat position := e]> base)
  | _, _ => Ok (drafts, base)
  end.

(** [deleted.binary_search(&position).is_ok()]. *)
Definition is_deleted (deleted : list Z) (position : Z) : bool :=
  match bsearch (length deleted) (fun k => match zget k deleted with Some d => Z.compare d position | None => Gt end) 0 (zlen deleted) with
  | Some _ => true
  | None => false
  end.

(** The entries of the shared index that are not deleted. *)
Fixpoint kept (position : Z) (deleted : list Z) (base : list Entry) : list Entry :=
  match base with
  | [] => []
  | e :: base => if is_deleted deleted position then kept (position + 1) deleted base else e :: kept (position + 1) deleted base
  end.

(** [Index::resolve_shared]; [parse] reads the shared file, without a shared file of its
    own. *)
Definition resolve_shared_with (parse : bytes -> result Error Index) (x : Index) (shared : option bytes) (limits : Limits) : result Error Index :=
  match filter (fun e => bytes_eqb (signature e) link = true) (extensions x) with
  | [] => Ok x
  | [l] =>
      let width := digest_len (i_format x) in
      let? hash := ok_or (slice 0 width (ext_data l)) (invalid "truncated shared identity") in
      let? id := map_err (fun _ => invalid "truncated shared identity") (from_bytes (i_format x) hash) in
      let? base :=
        (if bool_decide (id = null (i_format x)) then Ok (empty (i_format x))
         else
           let? bs := ok_or shared (SharedRequired id) in
           if saturating_sub (max_bytes limits) (match original x with Some o => zlen o | None => 0 end) <? zlen bs then Err (Limit "aggregate index bytes")
           else
             let? base := parse bs in
             if has link (extensions base) then Err (invalid "nested shared index")
             else if negb (ends_with hash bs) then Err Checksum else Ok base) in
      let? (deleted, replaced, cursor) :=
        (if (width =? zlen (ext_data l)) && bool_decide (id = null (i_format x)) then Ok ([], [], width)
         else
           let? (deleted, cursor) := bitmap (ext_data l) width (zlen (entries base)) in
           let? (replaced, cursor) := bitmap (ext_data l) cursor (zlen (entries base)) in
           Ok (deleted, replaced, cursor)) in
      if negb (cursor =? zlen (ext_data l)) then Err (invalid "trailing link bytes")
      else if zlen (entries x) <? zlen replaced then Err (invalid "missing replacement entries")
      else
        let? (additions, base) := replace_shared replaced (entries x) (entries base) in
        let base := kept 0 deleted base in
        let? count := ok_or (checked_add (zlen base) (zlen additions)) (Limit "entries") in
        if max_entries limits <? count then Err (Limit "entries")
        else
          let? _ := validate_entries (i_format x) additions limits in
          let es := sort_by entry_cmp (base ++ additions) in
          let? _ := validate_entries (i_format x) es limits in
          Ok {| i_format := i_format x; version := version x; original := original x; entries := es; extensions := extensions x |}
  | _ => Err (invalid "duplicate link extension")
  end.

(** [Index::parse] of a shared file: a file that itself depends on one is refused. *)
Definition parse_shared (fmt : ObjectFormat) (limits : Limits) (bs : bytes) : result Error Index :=
  let? x := parse_file fmt bs limits in
  resolve_shared_with (fun _ => Err Panic) x None limits.

(** [Index::parse_with_shared] and [Index::parse]. *)
Definition parse_with_shared (fmt : ObjectFormat) (bs : bytes) (shared : option bytes) (limits : Limits) : result Error Index :=
  let? x := parse_file fmt bs limits in
  resolve_shared_with (parse_shared fmt limits) x shared limits.
Definition parse (fmt : ObjectFormat) (bs : bytes) (limits : Limits) : result Error Index := parse_with_shared fmt bs None limits.

(** ** Writing *)

(** [entry_len]. *)
Definition entry_len (fmt : ObjectFormat) (path_len : Z) : result Error Z :=
  ok_or (n ← checked_add path_len (50 + digest_len fmt); Some (Z.land n (Z.lxor usize_max 7))) (Limit "path bytes").

(** [encoded_entry_len]. *)
Definition encoded_entry_len (e : Entry) (v : Version) (previous : bytes) : result Error Z :=
  let flags_len := if extended e then 2 else 0 in
  if bool_decide (v <> V4) then
    let? n := ok_or (checked_add (zlen (path e)) flags_len) (Limit "bytes") in
    entry_len (id_format (e_id e)) n
  else
    let common := common_prefix previous (path e) in
    let? groups := ok_or (varint (zlen previous - common)) Panic in
    ok_or (checked_add (43 + digest_len (id_format (e_id e)) + flags_len + zlen groups) (zlen (path e) - common)) (Limit "bytes").

(** The fixed part of an entry. *)
Definition b2z (b : bool) : Z := if b then 1 else 0.
Definition encode_fixed (e : Entry) : bytes :=
  let s := stat e in
  concat (map put_word [ts_seconds (ctime s); ts_nanoseconds (ctime s); ts_seconds (mtime s); ts_nanoseconds (mtime s); device s; inode s;
                        mode_word (mode e); uid s; gid s; stat_size s]) ++ id_bytes (e_id e).
Definition entry_flags (e : Entry) : Z :=
  Z.lor (Z.lor (Z.lor (Z.shiftl (b2z (assume_valid e)) 15) (Z.shiftl (b2z (extended e)) 14)) (Z.shiftl (stage_number (stage e)) 12)) (Z.min (zlen (path e)) 0xfff).
Definition more_flags (e : Entry) : Z := Z.lor (Z.shiftl (b2z (intent_to_add e)) 13) (Z.shiftl (b2z (skip_worktree e)) 14).

(** [encode_entry]. *)
Definition encode_entry (e : Entry) (v : Version) (previous : bytes) : result Error bytes :=
  let out := encode_fixed e ++ be_encode 2 (entry_flags e) ++ (if extended e then be_encode 2 (more_flags e) else []) in
  if bool_decide (v = V4) then
    let common := common_prefix previous (path e) in
    let? groups := ok_or (varint (zlen previous - common)) Panic in
    Ok (out ++ groups ++ drop (Z.to_nat common) (path e) ++ [0])
  else
    let out := out ++ path e in
    let? n := encoded_entry_len e v previous in
    Ok (take (Z.to_nat n) out ++ replicate (Z.to_nat n - length out) 0).

Fixpoint encode_entries (es : list Entry) (v : Version) (previous : bytes) : result Error bytes :=
  match es with
  | [] => Ok []
  | e :: es =>
      let? out := encode_entry e v previous in
      let? rest := encode_entries es v (path e) in
      Ok (out ++ rest)
  end.

Definition encode_extension (x : Extension) : bytes := signature x ++ put_word (wrap32 (zlen (ext_data x))) ++ ext_data x.

(** [encoded_len]. *)
Fixpoint entries_len (es : list Entry) (v : Version) (previous : bytes) (limits : Limits) (length : Z) : result Error Z :=
  match es with
  | [] => Ok length
  | e :: es =>
      let? _ := check_count (zlen (path e)) (max_path_bytes limits) "path bytes" in
      let? n := encoded_entry_len e v previous in
      let? length := ok_or (checked_add length n) (Limit "bytes") in
      entries_len es v (path e) limits length
  end.
Fixpoint extensions_len (xs : list Extension) (length : Z) : result Error Z :=
  match xs with
  | [] => Ok length
  | x :: xs =>
      let? _ := check_count (zlen (ext_data x)) u32_max "extension bytes" in
      let? length := ok_or (n ← checked_add length 8; checked_add n (zlen (ext_data x))) (Limit "bytes") in
      extensions_len xs length
  end.
Definition encoded_len (x : Index) (limits : Limits) : result Error Z :=
  let? _ := check_count (zlen (entries x)) (Z.min (max_entries limits) u32_max) "entries" in
  let? _ := check_count (zlen (extensions x)) (max_extensions limits) "extensions" in
  let? length := entries_len (entries x) (version x) [] limits (12 + digest_len (i_format x)) in
  let? length := extensions_len (extensions x) length in
  let length := match original x with Some o => zlen o | None => length end in
  let? _ := check_count length (max_bytes limits) "bytes" in
  Ok length.

(** [Index::encode]. *)
Definition encode (x : Index) (limits : Limits) : result Error bytes :=
  let? _ := encoded_len x limits in
  match original x with
  | Some o => Ok o
  | None =>
      let? es := encode_entries (entries x) (version x) [] in
      let out := bstr "DIRC" ++ put_word (version_word (version x)) ++ put_word (wrap32 (zlen (entries x))) ++ es ++ concat (map encode_extension (extensions x)) in
      Ok (out ++ id_bytes (checksum sha1 sha256 (i_format x) out))
  end.

(** [Index::empty_for_orphan]. *)
Definition empty_for_orphan (fmt : ObjectFormat) (v : Version) : Index :=
  {| i_format := fmt; version := v; original := None; entries := [];
     extensions := [{| signature := TREE; ext_data := [0] ++ [48; 32; 48; 10] ++ id_bytes (hash_object sha1 sha256 fmt KTree []) |}] |}.
End Hashing.

(** ** Edits *)

(** [mark_sparse]. *)
Definition mark_sparse (x : Index) : Index :=
  if existsb (fun e => bool_decide (mode e = SparseDirectory)) (entries x)
  then {| i_format := i_format x; version := version x; original := original x; entries := entries x;
          extensions := extensions x ++ [{| signature := sdir; ext_data := [] |}] |}
  else x.

(** [Index::new]. *)
Definition index_new (fmt : ObjectFormat) (es : list Entry) (limits : Limits) : result Error Index :=
  let? _ := check_count (zlen es) (max_entries limits) "entries" in
  let es := sort_by entry_cmp es in
  let? _ := validate_entries fmt es limits in
  let x := mark_sparse {| i_format := fmt; version := if existsb extended es then V3 else V2; original := None; entries := es; extensions := [] |} in
  let? _ := encoded_len x limits in
  Ok x.

Definition with_extensions (x : Index) (xs : list Extension) : Index :=
  {| i_format := i_format x; version := version x; original := None; entries := entries x; extensions := xs |}.

(** The first extension that an operation does not know. *)
Definition refuse (known : list bytes) (xs : list Extension) : result Error unit :=
  match find (fun x => negb (one_of known (signature x))) xs with
  | Some x => Err (ExtensionPreventsEdit (signature x))
  | None => Ok tt
  end.
Definition keep_extensions (p : bytes -> bool) (xs : list Extension) : list Extension := filter (fun x => p (signature x) = true) xs.

(** [invalidate_extensions]. *)
Definition invalidate_extensions (retain_tree : bool) (x : Index) : result Error Index :=
  let? _ := refuse [TREE; UNTR; FSMN; EOIE; IEOT; REUC; link; sdir] (extensions x) in
  let x' := mark_sparse {| i_format := i_format x; version := version x; original := original x; entries := entries x;
                           extensions := keep_extensions (fun s => bytes_eqb s REUC || (retain_tree && bytes_eqb s TREE)) (extensions x) |} in
  Ok {| i_format := i_format x'; version := version x'; original := None; entries := entries x'; extensions := extensions x' |}.

(** [set_version]: the index after it. *)
Definition set_version (v : Version) (limits : Limits) (x : Index) : result Error Index :=
  if bool_decide (v = V2) && existsb extended (entries x) then Err (entry_error 0 "extended flags require v3 or v4")
  else if bool_decide (v = version x) then
    let? _ := encoded_len x limits in Ok x
  else
    let? r := invalidate_extensions (negb (has link (extensions x))) x in
    let r := {| i_format := i_format r; version := v; original := original r; entries := entries r; extensions := extensions r |} in
    let? _ := encoded_len r limits in
    Ok r.

(** [replace_entries]: the index after it. *)
Definition replace_entries (es : list Entry) (limits : Limits) (x : Index) : result Error Index :=
  let? _ := check_count (zlen es) (max_entries limits) "entries" in
  let es := sort_by entry_cmp es in
  let? _ := validate_entries (i_format x) es limits in
  if bool_decide (es = entries x) then
    let? _ := encoded_len x limits in Ok x
  else
    let v := if bool_decide (version x = V2) && existsb extended es then V3 else version x in
    let? r := invalidate_extensions false {| i_format := i_format x; version := v; original := None; entries := es; extensions := extensions x |} in
    let? _ := encoded_len r limits in
    Ok r.

(** [make_standalone]. *)
Definition make_standalone (limits : Limits) (x : Index) : result Error Index :=
  let? _ := refuse [link; TREE; UNTR; FSMN; EOIE; IEOT; REUC] (extensions x) in
  if negb (has link (extensions x)) then
    let? _ := encoded_len x limits in Ok x
  else
    let? r := invalidate_extensions false x in
    let? _ := encoded_len r limits in
    Ok r.

(** [discard_optional_extensions]; signatures are four bytes. *)
Definition discard_optional_extensions (sigs : list bytes) (limits : Limits) (x : Index) : result Error Index :=
  match find (fun s => negb (match head s with Some b => is_upper b | None => false end)) sigs with
  | Some s => Err (MandatoryExtension s)
  | None =>
      if negb (existsb (fun e => one_of sigs (signature e)) (extensions x)) then Ok x
      else
        let xs := keep_extensions (fun s => negb (one_of sigs s) && negb (one_of [EOIE; IEOT] s)) (extensions x) in
        if has link xs then
          make_standalone limits {| i_format := i_format x; version := version x; original := original x; entries := entries x; extensions := xs |}
        else
          let r := with_extensions x xs in
          let? _ := encoded_len r limits in
          Ok r
  end.

(** An operation that drops some extensions when one of them is present. *)
Definition drop_extensions (known trigger dropped : list bytes) (limits : Limits) (x : Index) : result Error Index :=
  let? _ := refuse known (extensions x) in
  if negb (existsb (fun e => one_of trigger (signature e)) (extensions x)) then
    let? _ := encoded_len x limits in Ok x
  else
    let r := with_extensions x (keep_extensions (fun s => negb (one_of dropped s)) (extensions x)) in
    let? _ := encoded_len r limits in
    Ok r.

(** [invalidate_entry_offsets] and [discard_resolve_undo]. *)
Definition invalidate_entry_offsets (limits : Limits) (x : Index) : result Error Index :=
  drop_extensions [TREE; REUC; sdir; EOIE; IEOT; FSMN; UNTR] [EOIE; IEOT; FSMN; UNTR] [EOIE; IEOT; FSMN; UNTR] limits x.
Definition discard_resolve_undo (limits : Limits) (x : Index) : result Error Index :=
  drop_extensions [TREE; REUC; FSMN; UNTR; EOIE; IEOT] [REUC] [REUC; FSMN; UNTR; EOIE; IEOT] limits x.

(** [invalidate_tree_cache]. *)
Definition invalidate_tree_cache (limits : Limits) (x : Index) : result Error Index :=
  let? _ := refuse [TREE; FSMN; UNTR; EOIE; IEOT] (extensions x) in
  match extensions x with
  | [] => Ok x
  | _ =>
      let r := with_extensions x [] in
      let? _ := encoded_len r limits in
      Ok r
  end.

(** [smudge_racy_entries]: positions in [verified] ascend. *)
Definition with_stat (e : Entry) (s : Stat) : Entry :=
  {| path := path e; mode := mode e; e_id := e_id e; stage := stage e; assume_valid := assume_valid e; intent_to_add := intent_to_add e;
     skip_worktree := skip_worktree e; stat := s |}.
Definition without_size (s : Stat) : Stat :=
  {| ctime := ctime s; mtime := mtime s; device := device s; inode := inode s; uid := uid s; gid := gid s; stat_size := 0 |}.
Definition time_le (a b : Timestamp) : bool :=
  (ts_seconds a <? ts_seconds b) || (ts_seconds a =? ts_seconds b) && (ts_nanoseconds a <=? ts_nanoseconds b).
Fixpoint smudge (threshold : Timestamp) (position : Z) (verified : list Z) (es : list Entry) : list Entry * bool :=
  match es with
  | [] => ([], false)
  | e :: es =>
      let '(skip, rest) := match verified with v :: r => if v =? position then (true, r) else (false, verified) | [] => (false, []) end in
      let racy := negb skip && negb (stat_size (stat e) =? 0) && time_le threshold (mtime (stat e)) in
      let '(es, changed) := smudge threshold (position + 1) rest es in
      ((if racy then with_stat e (without_size (stat e)) else e) :: es, racy || changed)
  end.
Definition smudge_racy_entries (threshold : Timestamp) (verified : list Z) (x : Index) : Index :=
  let '(es, changed) := smudge threshold 0 verified (entries x) in
  {| i_format := i_format x; version := version x; original := if changed : bool then None else original x; entries := es; extensions := extensions x |}.

(** [record_stat]. *)
Fixpoint record_each (verified : list (Z * Stat)) (started : Z) (es : list Entry) : list Entry :=
  match verified with
  | [] => es
  | (position, s) :: verified =>
      let s := if started <=? ts_seconds (mtime s) then without_size s else s in
      record_each verified started (match zget position es with Some e => <[Z.to_nat position := with_stat e s]> es | None => es end)
  end.
Definition record_stat (verified : list (Z * Stat)) (started : Z) (x : Index) : Index :=
  {| i_format := i_format x; version := version x; original := match verified with [] => original x | _ => None end;
     entries := record_each verified started (entries x); extensions := extensions x |}.

(** [discard_checkout_caches]. *)
Definition discard_checkout_caches (x : Index) : Index :=
  with_extensions x (keep_extensions (fun s => negb (one_of [TREE; FSMN; UNTR; EOIE; IEOT] s)) (extensions x)).
End IndexFile.
