(* ===== verification/IndexValid.v ===== *)
(** * What [validate_entries] accepts

    The entries of an index against a specification without search: strict order of path
    and stage, well-formed paths, no mixture of a resolved and an unresolved path, no file
    where another entry needs a directory, nothing below a sparse directory. *)

From stdpp Require Import base list numbers strings sets sorting.
From Stdlib Require Import ZArith Lia.
From S2P Require Import Prelude Objects IndexFile.

Module IndexValid.
Import Objects IndexFile.

(** ** The specification *)

(** The path without the slash of a sparse directory. *)
Definition leaf_path (e : Entry) (p : bytes) : Prop :=
  if decide (mode e = SparseDirectory) then path e = p ++ [47] /\ skip_worktree e = true /\ intent_to_add e = false /\ stage e = Normal else path e = p.

Definition entry_ok (fmt : ObjectFormat) (limits : Limits) (e : Entry) : Prop :=
  id_format (e_id e) = fmt /\ zlen (path e) <= max_path_bytes limits /\
  exists p, leaf_path e p /\ 0 ∉ p /\ Forall (fun part => bad_part part = false) (split_on 47 p).

Definition entry_lt (a b : Entry) : Prop := entry_cmp a b = Lt.

Record valid (fmt : ObjectFormat) (limits : Limits) (es : list Entry) : Prop := {
  vl_entries : Forall (entry_ok fmt limits) es;
  vl_sorted : StronglySorted entry_lt es;
  vl_resolved a b : a ∈ es -> b ∈ es -> path a = path b -> stage a = Normal -> a = b;
  vl_directories a b : a ∈ es -> b ∈ es -> path a ++ [47] `prefix_of` path b -> stage a <> Normal /\ stage b <> Normal /\ stage a <> stage b;
  vl_sparse a b : a ∈ es -> b ∈ es -> mode a = SparseDirectory -> path a `prefix_of` path b -> a = b
}.

(** ** The order of entries *)

Lemma stage_number_inj a b : stage_number a = stage_number b -> a = b.
Proof. by destruct a, b. Qed.
Lemma stage_number_range s : 0 <= stage_number s < 4.
Proof. destruct s; cbn; lia. Qed.

Lemma entry_lt_spec a b : entry_lt a b <-> bytes_cmp (path a) (path b) = Lt \/ path a = path b /\ stage_number (stage a) < stage_number (stage b).
Proof.
  unfold entry_lt, entry_cmp. destruct (bytes_cmp (path a) (path b)) eqn:E; [apply bytes_cmp_eq in E|split; [by left|done]|].
  - rewrite Z.compare_lt_iff. split; [by right|]. by intros [H|[_ H]].
  - split; [done|]. intros [?|[H _]]; [done|]. rewrite H, bytes_cmp_refl in E. done.
Qed.

Lemma entry_lt_trans a b c : entry_lt a b -> entry_lt b c -> entry_lt a c.
Proof.
  rewrite !entry_lt_spec. intros [H1|[E1 H1]] [H2|[E2 H2]].
  - left. by eapply bytes_cmp_lt_trans.
  - left. by rewrite <- E2.
  - left. by rewrite E1.
  - right. split; [congruence|lia].
Qed.
#[export] Instance entry_lt_transitive : Transitive entry_lt.
Proof. intros a b c. apply entry_lt_trans. Qed.

Lemma entry_lt_irrefl a : ~ entry_lt a a.
Proof. rewrite entry_lt_spec, bytes_cmp_refl. intros [?|[_ ?]]; [done|lia]. Qed.

Definition bytes_le (a b : bytes) : Prop := bytes_cmp a b <> Gt.
Lemma bytes_le_lt a b : bytes_le a b <-> a = b \/ bytes_cmp a b = Lt.
Proof. unfold bytes_le. rewrite <- (bytes_cmp_eq a b). destruct (bytes_cmp a b); split; try (by auto); [by intros [|]]. Qed.
Lemma entry_lt_le a b : entry_lt a b -> bytes_le (path a) (path b).
Proof. rewrite entry_lt_spec, bytes_le_lt. intros [?|[? _]]; auto. Qed.
Lemma bytes_le_antisym a b : bytes_le a b -> bytes_le b a -> a = b.
Proof. unfold bytes_le. rewrite (bytes_cmp_antisym a b). destruct (bytes_cmp a b) eqn:E; intros; [by apply bytes_cmp_eq|cbn in *; done|done]. Qed.

Lemma bytes_le_prefix a b : a `prefix_of` b -> bytes_le a b.
Proof. intros [k ->]. rewrite <- (app_nil_r a) at 1. unfold bytes_le. rewrite bytes_cmp_app. by destruct k. Qed.

(** What lies between a string and one of its extensions extends it too. *)
Lemma between_prefix a b c : bytes_le a b -> bytes_le b c -> a `prefix_of` c -> a `prefix_of` b.
Proof.
  unfold bytes_le. revert b c. induction a as [|x a IH]; intros b c H1 H2 Hp; [apply prefix_nil|].
  destruct Hp as [k ->]. destruct b as [|y b]; [done|]. cbn in H1, H2. rewrite (Z.compare_antisym x y) in H2.
  destruct (Z.compare_spec x y) as [-> | |]; [|done..]. cbn in H2. apply prefix_cons, (IH b (a ++ k)); [done|done|by eexists].
Qed.

(** Two members of a sorted list. *)
Lemma sorted_members es a b : StronglySorted entry_lt es -> a ∈ es -> b ∈ es -> a = b \/ entry_lt a b \/ entry_lt b a.
Proof.
  induction 1 as [|e es Hs IH Hall]; [by intros ?%not_elem_of_nil|]. rewrite Forall_forall in Hall.
  intros [-> |Ha]%elem_of_cons [-> |Hb]%elem_of_cons; [by left|right; left; by apply Hall|right; right; by apply Hall|by apply IH].
Qed.

(** What follows an entry lies between it and every later one. *)
Lemma sorted_next es1 a n es2 b : StronglySorted entry_lt (es1 ++ a :: n :: es2) -> b ∈ es1 ++ a :: n :: es2 -> entry_lt a b -> b = n \/ entry_lt n b.
Proof.
  intros Hs Hb Hab. apply StronglySorted_app in Hs as (Hcross & _ & Hs). apply StronglySorted_inv in Hs as [Hs Ha]. apply StronglySorted_inv in Hs as [_ Hn].
  rewrite Forall_forall in Hn. apply elem_of_app in Hb as [Hb|Hb].
  - exfalso. apply (entry_lt_irrefl a). eapply entry_lt_trans; [exact Hab|]. apply Hcross; [done|left].
  - apply elem_of_cons in Hb as [-> |Hb]; [by apply entry_lt_irrefl in Hab|]. apply elem_of_cons in Hb as [-> |Hb]; [by left|right; by apply Hn].
Qed.

(** ** The checks of each entry *)

Lemma existsb_false {A} (f : A -> bool) l : existsb f l = false <-> Forall (fun x => f x = false) l.
Proof. induction l as [|x l IH]; cbn; [by split|]. rewrite orb_false_iff, IH, Forall_cons. done. Qed.

Lemma check_entry_exact fmt limits position e : check_entry fmt limits position e = Ok tt <-> entry_ok fmt limits e.
Proof.
  unfold check_entry, entry_ok, require_format, check_count. destruct (decide (id_format (e_id e) = fmt)) as [Hf|Hf]; cbn [map_err rbind]; [|by split; [|intros [? _]]].
  destruct (Z.ltb_spec (max_path_bytes limits) (zlen (path e))) as [Hl|Hl]; cbn [rbind]; [split; [done|]; intros (_ & ? & _); lia|].
  unfold leaf_path. assert (forall p, (if contains 0 p || existsb bad_part (split_on 47 p) then Err (entry_error position "invalid path component or NUL") else Ok tt) = Ok tt <->
    0 ∉ p /\ Forall (fun part => bad_part part = false) (split_on 47 p)) as Hp.
  { intros p. rewrite <- contains_false, <- existsb_false. destruct (contains 0 p), (existsb bad_part (split_on 47 p)); cbn; split; try done; by intros []. }
  destruct (decide (mode e = SparseDirectory)) as [Hm|Hm].
  - rewrite bool_decide_true by done. case_bool_decide as Hst.
    { rewrite orb_true_r. cbn [rbind]. split; [done|]. intros (_ & _ & p & (_ & _ & _ & ?) & _). done. }
    destruct (skip_worktree e) eqn:Hs, (intent_to_add e) eqn:Hi; cbn [negb orb rbind]; try (split; [done|]; intros (_ & _ & p & (_ & ? & ? & _) & _); congruence).
    destruct (strip_suffix [47] (path e)) as [p|] eqn:E; cbn [ok_or rbind].
    + apply strip_suffix_Some in E. rewrite Hp. split; [intros H; split_and!; [done|done|]; exists p; by split|]. intros (_ & _ & p' & (E' & _) & H). rewrite E in E'. by apply app_inv_tail in E' as ->.
    + split; [done|]. intros (_ & _ & p & (E' & _) & _). apply strip_suffix_Some in E'. congruence.
  - rewrite bool_decide_false by done. cbn [rbind]. rewrite Hp. split; [intros H; split_and!; [done|done|]; by exists (path e)|]. intros (_ & _ & p & -> & H). done.
Qed.

(** The relation between neighbours. *)
Definition neighbours (p e : Entry) : Prop := entry_lt p e /\ ~ (path p = path e /\ stage p = Normal).

Lemma check_order_exact position previous e : check_order position previous e = Ok tt <-> match previous with Some p => neighbours p e | None => True end.
Proof.
  destruct previous as [p|]; [|done]. cbn. unfold neighbours, entry_lt. destruct (entry_cmp p e); [by split; [|intros []]| |by split; [|intros []]].
  destruct (bytes_eqb (path p) (path e)) eqn:E; cbn [andb]; [apply bytes_eqb_eq in E|].
  - case_bool_decide; split; try done; [by intros [_ []]|]. intros _. split; [done|]. by intros [_ ?].
  - split; [|done]. intros _. split; [done|]. intros [E' _]. apply bytes_eqb_eq in E'. congruence.
Qed.

Lemma unit_Ok {E} (r : result E unit) : is_ok r = true -> r = Ok tt.
Proof. by destruct r as [[]|]. Qed.

Lemma check_each_exact fmt limits position previous es : check_each fmt limits position previous es = Ok tt <->
  Forall (entry_ok fmt limits) es /\ Sorted neighbours (match previous with Some p => [p] | None => [] end ++ es).
Proof.
  revert position previous. induction es as [|e es IH]; intros position previous; cbn [check_each].
  { split; [|done]. intros _. split; [constructor|]. destruct previous; cbn; repeat constructor. }
  rewrite Forall_cons. rewrite <- (check_entry_exact fmt limits position e). destruct (check_entry fmt limits position e) as [[]|]; cbn [rbind]; [|by split; [|intros [[? _] _]]].
  pose proof (check_order_exact position previous e) as HO. destruct (check_order position previous e) as [[]|]; cbn [rbind].
  - rewrite IH. cbn [app]. pose proof (proj1 HO eq_refl) as H. destruct previous as [p|]; cbn [app]; [|tauto]. split.
    + intros [? Hs]. split; [done|]. constructor; [done|]. by constructor.
    + intros [[_ ?] Hs]. split; [done|]. by inversion Hs.
  - split; [done|]. intros [_ Hs]. assert (Err e0 = Ok tt :> result Error unit) as ?; [|done]. apply HO. destruct previous as [p|]; [|done]. cbn in Hs. inversion Hs as [|? ? _ Hd]. by inversion Hd.
Qed.

(** ** Adjacent entries *)

Lemma sorted_pairs {A} (R : A -> A -> Prop) l : Sorted R l <-> forall l1 a b l2, l = l1 ++ a :: b :: l2 -> R a b.
Proof.
  split.
  - intros Hs l1 a b l2 ->. induction l1 as [|x l1 IH]; cbn in Hs; inversion Hs as [|? ? Hs' Hd]; [by inversion Hd|by apply IH].
  - induction l as [|x l IH]; intros H; constructor; [apply IH; intros l1 a b l2 ->; by apply (H (x :: l1) a b l2)|].
    destruct l as [|y l]; constructor. by apply (H [] x y l).
Qed.

(** A later entry whose path extends that of [a] forces the next one to extend it too. *)
Lemma next_extends es a b : StronglySorted entry_lt es -> a ∈ es -> b ∈ es -> entry_lt a b -> path a `prefix_of` path b ->
  exists es1 n es2, es = es1 ++ a :: n :: es2 /\ path a `prefix_of` path n /\ bytes_le (path n) (path b).
Proof.
  intros Hs Ha Hb Hab Hp. apply list_elem_of_split in Ha as (es1 & [|n es2] & ->).
  - exfalso. apply StronglySorted_app in Hs as (Hcross & _ & _). apply elem_of_app in Hb as [Hb|Hb].
    + apply (entry_lt_irrefl a). eapply entry_lt_trans; [exact Hab|]. apply Hcross; [done|left].
    + apply list_elem_of_singleton in Hb as ->. by apply entry_lt_irrefl in Hab.
  - assert (entry_lt a n) as Han. { apply (proj1 (sorted_pairs _ _) (StronglySorted_Sorted Hs) es1 a n es2 eq_refl). }
    assert (bytes_le (path n) (path b)) as Hnb. { destruct (sorted_next _ _ _ _ _ Hs Hb Hab) as [-> |H]; [by apply bytes_le_prefix|by apply entry_lt_le]. }
    exists es1, n, es2. split_and!; [done| |done]. eapply between_prefix; [by apply entry_lt_le|exact Hnb|done].
Qed.

(** ** The stages recorded at a path *)

(** A property of four bits, by evaluation. *)
Lemma nibble_all (f : Z -> bool) : forallb f (seqZ 0 16) = true -> forall a, 0 <= a < 16 -> f a = true.
Proof. intros H a Ha. rewrite forallb_forall in H. apply H, list_elem_of_In, elem_of_seqZ. lia. Qed.

Lemma add_stage acc s : 0 <= acc < 16 -> 0 <= Z.lor acc (stage_bit s) < 16.
Proof.
  intros H. apply (nibble_all (fun a => (0 <=? Z.lor a (stage_bit s)) && (Z.lor a (stage_bit s) <? 16))) in H; [|by destruct s].
  apply andb_true_iff in H as [?%Z.leb_le ?%Z.ltb_lt]. done.
Qed.

Lemma stages_at_spec q l acc : StronglySorted entry_lt l -> Forall (fun e => bytes_le q (path e)) l -> 0 <= acc < 16 ->
  0 <= stages_at q l acc < 16 /\
  forall s, Z.testbit (stages_at q l acc) (stage_number s) = true <-> Z.testbit acc (stage_number s) = true \/ exists e, e ∈ l /\ path e = q /\ stage e = s.
Proof.
  revert acc. induction l as [|e l IH]; intros acc Hs Hl Ha; cbn [stages_at].
  { split; [done|]. intros s. split; [by left|]. intros [?|(e & ?%not_elem_of_nil & _)]; done. }
  apply StronglySorted_inv in Hs as [Hs He]. apply Forall_cons in Hl as [Hq Hl]. destruct (bytes_eqb (path e) q) eqn:E.
  - apply bytes_eqb_eq in E. destruct (IH (Z.lor acc (stage_bit (stage e))) Hs Hl (add_stage _ _ Ha)) as [Hr Hb].
    split; [done|]. intros s. rewrite Hb, Z.lor_spec. unfold stage_bit. rewrite Z.shiftl_spec, orb_true_iff by apply stage_number_range.
    assert (Z.testbit 1 (stage_number s - stage_number (stage e)) = true <-> stage e = s) as -> by (destruct s, (stage e); cbn; split; done).
    setoid_rewrite elem_of_cons. split; [intros [[?|?]|(x & ? & ?)]; eauto 8|]. intros [?|(x & [-> |?] & ? & ?)]; eauto 8.
  - split; [done|]. intros s. split; [by left|]. intros [?|(x & Hx & Hp & _)]; [done|]. exfalso. rewrite Forall_forall in He.
    apply elem_of_cons in Hx as [-> |Hx]; [apply bytes_eqb_eq in Hp; congruence|]. enough (path e = q) as H by (apply bytes_eqb_eq in H; congruence).
    apply bytes_le_antisym; [|done]. rewrite <- Hp. by apply entry_lt_le, He.
Qed.

Definition all_stages : list Stage := [Normal; Base; Ours; Theirs].
Lemma elem_of_all_stages s : s ∈ all_stages.
Proof. destruct s; repeat constructor. Qed.

Definition conflicting (s t : Stage) : Prop := t = Normal \/ s = Normal \/ t = s.
#[export] Instance conflicting_dec s t : Decision (conflicting s t).
Proof. unfold conflicting. apply _. Defined.

Lemma collides_spec s st : 0 <= st < 16 -> collides s st = true <-> exists t, Z.testbit st (stage_number t) = true /\ conflicting s t.
Proof.
  intros H. apply (nibble_all (fun st => bool_decide (collides s st = existsb (fun t => Z.testbit st (stage_number t) && bool_decide (conflicting s t)) all_stages))) in H;
    [|by destruct s]. apply bool_decide_eq_true in H. rewrite H, existsb_exists. split.
  - intros (t & _ & [? ?%bool_decide_eq_true]%andb_true_iff). by exists t.
  - intros (t & ? & ?). exists t. split; [apply list_elem_of_In, elem_of_all_stages|]. apply andb_true_iff. split; [done|by apply bool_decide_eq_true].
Qed.

Lemma StronglySorted_zget {A} (R : relation A) l i j x y : StronglySorted R l -> i < j -> zget i l = Some x -> zget j l = Some y -> R x y.
Proof.
  rewrite !zget_Some. intros Hs Hij [Hi Hx] [_ Hy]. rewrite <- (take_drop (S (Z.to_nat i)) l) in Hs. apply StronglySorted_app in Hs as (Hc & _ & _).
  apply Hc; [apply (list_elem_of_lookup_2 _ (Z.to_nat i)); rewrite lookup_take_lt by lia; done|].
  apply (list_elem_of_lookup_2 _ (Z.to_nat j - S (Z.to_nat i))). rewrite lookup_drop, <- Hy. f_equal. lia.
Qed.

Lemma recorded_spec all q : StronglySorted entry_lt all ->
  0 <= recorded all q < 16 /\ forall s, Z.testbit (recorded all q) (stage_number s) = true <-> exists e, e ∈ all /\ path e = q /\ stage e = s.
Proof.
  intros Hs. unfold recorded. set (f := fun k => _). destruct (partition_point_spec (length all) f 0 (zlen all)) as (Hr & Hlo & Hhi); [unfold zlen; lia..| |].
  { intros i j Hij Hj. unfold f. destruct (zget j all) as [b|] eqn:Eb; [|done]. destruct (zget_is_Some i all) as [a Ea]; [lia|]. rewrite Ea.
    destruct (bytes_cmp (path b) q) eqn:Eq; try done. intros _. assert (entry_lt a b) as Hlt. { eapply (StronglySorted_zget _ all i j); [exact Hs|lia|done..]. }
    apply entry_lt_spec in Hlt as [Hlt|[-> _]]; [|by rewrite Eq]. by rewrite (bytes_cmp_lt_trans _ _ _ Hlt Eq). }
  set (r := partition_point _ _ _ _) in *. rewrite <- (take_drop (Z.to_nat r) all) in Hs. pose proof Hs as Hs0. apply StronglySorted_app in Hs as (_ & _ & Hs).
  destruct (stages_at_spec q (drop (Z.to_nat r) all) 0) as [H1 H2]; [done| |done|].
  { apply Forall_forall. intros e [i Hi]%list_elem_of_lookup. rewrite lookup_drop in Hi. assert (zget (r + Z.of_nat i) all = Some e) as He.
    { apply zget_Some. split; [lia|]. rewrite <- Hi. f_equal. lia. }
    specialize (Hhi (r + Z.of_nat i)). unfold f in Hhi. rewrite He in Hhi. apply zget_lt in He. unfold bytes_le. rewrite (bytes_cmp_antisym (path e) q).
    destruct (bytes_cmp (path e) q); cbn; try done. specialize (Hhi ltac:(lia)). done. }
  split; [done|]. intros s. rewrite H2, Z.testbit_0_l. split; [intros [?|(e & He & ?)]; [done|]|intros (e & He & Hp)].
  - exists e. split; [|done]. rewrite <- (take_drop (Z.to_nat r) all). apply elem_of_app. by right.
  - right. exists e. split; [|done]. rewrite <- (take_drop (Z.to_nat r) all) in He. apply elem_of_app in He as [He|He]; [|done]. exfalso.
    apply list_elem_of_lookup in He as [i Hi]. apply lookup_take_Some in Hi as [Hi Hlt]. assert (zget (Z.of_nat i) all = Some e) as Hz by (apply zget_Some; split; [lia|]; by rewrite Nat2Z.id).
    specialize (Hlo (Z.of_nat i)). unfold f in Hlo. rewrite Hz in Hlo. destruct Hp as [Hp _]. rewrite Hp, bytes_cmp_refl in Hlo. specialize (Hlo ltac:(lia)). done.
Qed.

(** ** The ancestors of a path *)

Lemma slashes_app i a b : slashes i (a ++ b) = slashes i a ++ slashes (i + zlen a) b.
Proof.
  revert i. induction a as [|x a IH]; intros i; [by rewrite Z.add_0_r|]. cbn [app slashes]. rewrite IH.
  replace (i + 1 + zlen a) with (i + zlen (x :: a)) by (unfold zlen; cbn [length]; lia). by destruct (x =? 47).
Qed.

Lemma elem_of_slashes i l s : s ∈ slashes i l <-> exists q r, l = q ++ 47 :: r /\ s = i + zlen q.
Proof.
  revert i. induction l as [|x l IH]; intros i; cbn [slashes].
  { split; [by intros ?%not_elem_of_nil|]. by intros ([|] & r & ? & _). }
  assert (s ∈ slashes (i + 1) l <-> exists q r, x :: l = x :: q ++ 47 :: r /\ s = i + zlen (x :: q)) as Hrest.
  { rewrite IH. split; intros (q & r & H & ->); exists q, r; (split; [congruence|unfold zlen; cbn [length]; lia]). }
  destruct (Z.eqb_spec x 47) as [-> |Hx]; rewrite ?elem_of_cons, Hrest; clear Hrest.
  - split; [intros [-> |(q & r & E & H)]; [exists [], l; split; [done|unfold zlen; cbn; lia]|by exists (47 :: q), r]|].
    intros ([|y q] & r & E & ->); simplify_list_eq; [left; unfold zlen; cbn; lia|right; by exists q, r].
  - split; [intros (q & r & E & H); by exists (x :: q), r|]. intros ([|y q] & r & E & ->); simplify_list_eq; by exists q, r.
Qed.

Lemma slashes_range i l s : s ∈ slashes i l -> i <= s < i + zlen l.
Proof. rewrite elem_of_slashes. intros (q & r & -> & ->). unfold zlen. rewrite length_app. cbn. lia. Qed.

(** The last slash ends the part of a path that holds all of them. *)
Lemma slashes_last i c s l : slashes i c = l ++ [s] -> exists q r, c = q ++ 47 :: r /\ s = i + zlen q /\ slashes (s + 1) r = [].
Proof.
  intros H. assert (s ∈ slashes i c) as (q & r & -> & ->)%elem_of_slashes by (rewrite H; apply elem_of_app; right; by left).
  exists q, r. split_and!; [done..|]. rewrite slashes_app in H. cbn [slashes] in H. rewrite Z.eqb_refl in H.
  destruct (slashes (i + zlen q + 1) r) as [|t l' _] eqn:E using rev_ind; [done|]. exfalso.
  rewrite app_comm_cons, app_assoc in H. apply app_inj_tail in H as [_ ->].
  assert (i + zlen q ∈ slashes (i + zlen q + 1) r) as Hin by (rewrite E; apply elem_of_app; right; by left). apply slashes_range in Hin. lia.
Qed.

Lemma common_prefix_spec a b : exists c x y, a = c ++ x /\ b = c ++ y /\ common_prefix a b = zlen c.
Proof.
  revert b. induction a as [|u a IH]; intros [|v b]; cbn [common_prefix]; [by exists [], [], []|by exists [], [], (v :: b)|by exists [], (u :: a), []|].
  destruct (Z.eqb_spec u v) as [-> |]; [|by exists [], (u :: a), (v :: b)]. destruct (IH b) as (c & x & y & -> & -> & E). exists (v :: c), x, y.
  split_and!; [done..|]. rewrite E. unfold zlen. cbn [length]. lia.
Qed.

Lemma slice_0_app {A} (q r : list A) : slice 0 (zlen q) (q ++ r) = Some q.
Proof. rewrite slice_0, take_app_length'; [done|unfold zlen; lia|unfold zlen; rewrite length_app; lia]. Qed.

Section Ancestors.
Context (all : list Entry).

Definition ancestor (p : bytes) (s : Z) : Z * Z := (s, recorded all (default [] (slice 0 s p))).
(** The ancestors of a path, the last one first. *)
Definition ancestors_of (p : bytes) : list (Z * Z) := reverse (map (ancestor p) (slashes 0 p)).

Lemma push_ancestors_map p sl acc : push_ancestors all p sl acc = reverse (map (ancestor p) sl) ++ acc.
Proof. revert acc. induction sl as [|s sl IH]; intros acc; cbn [push_ancestors map]; [done|]. rewrite IH, reverse_cons, <- app_assoc. done. Qed.

Lemma pop_ancestors_app common l1 l2 : Forall (fun a => common <= a.1) l1 -> Forall (fun a => a.1 < common) l2 -> pop_ancestors common (l1 ++ l2) = l2.
Proof.
  induction 1 as [|[s t] l1 H _ IH]; cbn [app pop_ancestors]; [|cbn in H; rewrite (proj2 (Z.leb_le _ _) H); auto].
  destruct 1 as [|[s t] l2 H _]; cbn in *; [done|]. by rewrite (proj2 (Z.leb_gt _ _) H).
Qed.

Lemma ancestor_prefix c x s : s ∈ slashes 0 c -> ancestor (c ++ x) s = ancestor c s.
Proof.
  intros H%elem_of_slashes. destruct H as (q & r & -> & ->). unfold ancestor. rewrite Z.add_0_l. do 3 f_equal.
  rewrite <- app_assoc. by rewrite !slice_0_app.
Qed.

Lemma ancestors_of_app c x : ancestors_of (c ++ x) = reverse (map (ancestor (c ++ x)) (slashes (zlen c) x)) ++ ancestors_of c.
Proof.
  unfold ancestors_of. rewrite slashes_app, map_app, reverse_app, Z.add_0_l. do 2 f_equal. apply map_ext_in. intros s Hs%list_elem_of_In. by apply ancestor_prefix.
Qed.

Lemma ancestors_range p : Forall (fun a => 0 <= a.1 < zlen p) (ancestors_of p).
Proof.
  apply Forall_reverse, Forall_forall. intros a (s & -> & Hs%slashes_range)%list_elem_of_fmap. cbn. lia.
Qed.

Lemma pop_common prev p c x y : prev = c ++ x -> p = c ++ y -> pop_ancestors (zlen c) (ancestors_of prev) = ancestors_of c.
Proof.
  intros -> ->. rewrite ancestors_of_app. apply pop_ancestors_app.
  - apply Forall_reverse, Forall_forall. intros a (s & -> & Hs%slashes_range)%list_elem_of_fmap. cbn. lia.
  - eapply Forall_impl; [apply ancestors_range|]. cbn. lia.
Qed.

(** One turn of the loop moves from the ancestors of one path to those of the next. *)
Lemma ancestors_step prev p ancestors from : ancestors = pop_ancestors (common_prefix prev p) (ancestors_of prev) ->
  from = match ancestors with (slash, _) :: _ => slash + 1 | [] => 0 end ->
  push_ancestors all p (slashes from (drop (Z.to_nat from) p)) ancestors = ancestors_of p.
Proof.
  destruct (common_prefix_spec prev p) as (c & x & y & -> & -> & ->). rewrite (pop_common _ _ c x y) by done. intros -> ->. rewrite push_ancestors_map.
  unfold ancestors_of at 1 2. destruct (slashes 0 c) as [|s l _] eqn:E using rev_ind.
  { unfold ancestors_of at 1. rewrite E. cbn [map]. change (reverse []) with (@nil (Z * Z)). cbn [Z.to_nat]. rewrite drop_0, app_nil_r. done. }
  rewrite map_app. cbn [map]. rewrite reverse_snoc. cbn [ancestor].
  destruct (slashes_last _ _ _ _ E) as (q & r & Ec & -> & Hr). rewrite Z.add_0_l in *. rewrite ancestors_of_app. do 3 f_equal. rewrite Ec at 1.
  replace (drop _ _) with (r ++ y).
  - rewrite slashes_app, Hr, Ec. cbn [app]. f_equal. unfold zlen. rewrite length_app. cbn [length]. lia.
  - rewrite <- app_assoc. cbn [app]. rewrite (cons_middle 47 q), app_assoc, drop_app_length'; [done|]. unfold zlen. rewrite length_app. cbn [length]. lia.
Qed.

(** The conflict of an entry with one that is a file at a directory of its path. *)
Definition conflict (e : Entry) : Prop := exists a, a ∈ all /\ path a ++ [47] `prefix_of` path e /\ conflicting (stage e) (stage a).

Lemma collides_exact e : StronglySorted entry_lt all -> existsb (fun a => collides (stage e) a.2) (ancestors_of (path e)) = true <-> conflict e.
Proof.
  intros Hs. rewrite existsb_exists. unfold conflict. split.
  - intros (a & Ha%list_elem_of_In & Hc). apply elem_of_reverse, list_elem_of_fmap in Ha as (s & -> & (q & r & E & ->)%elem_of_slashes). cbn [ancestor snd] in Hc.
    rewrite Z.add_0_l, E, slice_0_app in Hc. cbn [default] in Hc. destruct (recorded_spec all q Hs) as [Hr Hb]. apply collides_spec in Hc as (t & Ht & Hcf); [|done].
    apply Hb in Ht as (a & Ha & Hp & Hst). exists a. split_and!; [done| |by rewrite Hst]. rewrite Hp, E. exists r. by rewrite <- app_assoc.
  - intros (a & Ha & [r E] & Hc). rewrite <- app_assoc in E. cbn in E. exists (ancestor (path e) (zlen (path a))). split.
    + apply list_elem_of_In, elem_of_reverse, list_elem_of_fmap. exists (zlen (path a)). split; [done|]. apply elem_of_slashes. by exists (path a), r.
    + cbn [ancestor snd]. rewrite E, slice_0_app. cbn [default]. destruct (recorded_spec all (path a) Hs) as [Hr Hb]. apply collides_spec; [done|].
      exists (stage a). split; [|done]. apply Hb. by exists a.
Qed.

Definition apart (a b : Entry) : Prop := ~ (mode a = SparseDirectory /\ path a `prefix_of` path b).

Lemma check_collisions_exact position prev es : StronglySorted entry_lt all ->
  check_collisions all position prev (ancestors_of prev) es = Ok tt <-> Forall (fun e => ~ conflict e) es /\ Sorted apart es.
Proof.
  intros Hs. revert position prev. induction es as [|e es IH]; intros position prev; cbn [check_collisions]; [split; [|done]; by repeat constructor|].
  match goal with |- context [if ?b then Err (entry_error _ "sparse directory overlaps entries") else _] => destruct b eqn:Eov end.
  { split; [done|]. intros [_ Hap]. exfalso. apply andb_true_iff in Eov as [Em%bool_decide_eq_true En]. destruct es as [|n es]; [done|].
    apply starts_with_true in En as [k En]. inversion Hap as [|? ? _ Hd]. inversion Hd as [|? ? Ha]. apply Ha. split; [done|]. by exists k. }
  erewrite ancestors_step by done. rewrite Forall_cons. pose proof (collides_exact e Hs) as Hc. destruct (existsb _ _) eqn:Ex.
  { split; [done|]. intros [[Hn _] _]. exfalso. by apply Hn, Hc. }
  rewrite IH. assert (~ conflict e) as Hn by (intros ?%Hc; done). split; [intros [? Hap]; split; [done|]|intros [[_ ?] Hap]; split; [done|by inversion Hap]].
  constructor; [done|]. destruct es as [|n es]; constructor. intros [Hm [k Hk]]. rewrite bool_decide_true in Eov by done. cbn in Eov.
  enough (starts_with (path e) (path n) = true) by congruence. apply starts_with_true. by exists k.
Qed.
End Ancestors.

(** ** Validation is exact *)

Lemma resolved_exact es : StronglySorted entry_lt es ->
  (Sorted neighbours es <-> forall a b, a ∈ es -> b ∈ es -> path a = path b -> stage a = Normal -> a = b).
Proof.
  intros Hs. split.
  - intros Hn a b Ha Hb Hp Hst. destruct (sorted_members es a b Hs Ha Hb) as [?|[Hlt|Hlt]]; [done| |].
    + exfalso. destruct (next_extends es a b Hs Ha Hb Hlt) as (es1 & n & es2 & E & Hpre & Hle); [by rewrite Hp|].
      apply (proj1 (sorted_pairs _ _) Hn es1 a n es2) in E as [_ Hno]. apply Hno. split; [|done].
      apply bytes_le_antisym; [by apply bytes_le_prefix|by rewrite Hp].
    + exfalso. apply entry_lt_spec in Hlt as [Hlt|[_ Hlt]]; [by rewrite Hp, bytes_cmp_refl in Hlt|]. rewrite Hst in Hlt. pose proof (stage_number_range (stage b)). cbn in Hlt. lia.
  - intros H. apply sorted_pairs. intros l1 a b l2 ->. assert (entry_lt a b) as Hlt.
    { by apply (proj1 (sorted_pairs _ _) (StronglySorted_Sorted Hs) l1 a b l2). }
    split; [done|]. intros [Hp Hst]. rewrite (H a b) in Hlt; [by apply entry_lt_irrefl in Hlt|apply elem_of_app; right; set_solver..|done|done].
Qed.

Lemma sparse_exact fmt limits es : Forall (entry_ok fmt limits) es -> StronglySorted entry_lt es ->
  (Sorted apart es <-> forall a b, a ∈ es -> b ∈ es -> mode a = SparseDirectory -> path a `prefix_of` path b -> a = b).
Proof.
  intros Hok Hs. split.
  - intros Hn a b Ha Hb Hm Hp. destruct (sorted_members es a b Hs Ha Hb) as [?|[Hlt|Hlt]]; [done| |].
    + exfalso. destruct (next_extends es a b Hs Ha Hb Hlt Hp) as (es1 & n & es2 & E & Hpre & _).
      by apply (proj1 (sorted_pairs _ _) Hn es1 a n es2) in E as Hno; apply Hno.
    + exfalso. assert (path a = path b) as E by (apply bytes_le_antisym; [by apply bytes_le_prefix|by apply entry_lt_le]).
      apply entry_lt_spec in Hlt as [Hlt|[_ Hlt]]; [by rewrite E, bytes_cmp_refl in Hlt|].
      rewrite Forall_forall in Hok. destruct (Hok a Ha) as (_ & _ & p & Hl & _). unfold leaf_path in Hl. rewrite decide_True in Hl by done. destruct Hl as (_ & _ & _ & Hst).
      rewrite Hst in Hlt. pose proof (stage_number_range (stage b)). cbn in Hlt. lia.
  - intros H. apply sorted_pairs. intros l1 a b l2 ->. intros [Hm Hp]. assert (entry_lt a b) as Hlt.
    { by apply (proj1 (sorted_pairs _ _) (StronglySorted_Sorted Hs) l1 a b l2). }
    rewrite (H a b) in Hlt; [by apply entry_lt_irrefl in Hlt|apply elem_of_app; right; set_solver..|done|done].
Qed.

Lemma validate_entries_exact fmt es limits : validate_entries fmt es limits = Ok tt <-> valid fmt limits es.
Proof.
  unfold validate_entries. pose proof (check_each_exact fmt limits 0 None es) as He. cbn [app] in He.
  destruct (check_each fmt limits 0 None es) as [[]|] eqn:E; cbn [rbind].
  - destruct (proj1 He eq_refl) as [Hok Hn]. assert (StronglySorted entry_lt es) as Hs.
    { apply Sorted_StronglySorted; [apply _|]. apply sorted_pairs. intros l1 a b l2 El. by destruct (proj1 (sorted_pairs _ _) Hn l1 a b l2 El). }
    change [] with (ancestors_of es []) at 2. rewrite check_collisions_exact by done. rewrite (sparse_exact fmt limits) by done. split.
    + intros [Hc Hsp]. split; [done|done|by apply resolved_exact| |done]. intros a b Ha Hb Hp. rewrite Forall_forall in Hc. specialize (Hc b Hb).
      destruct (decide (conflicting (stage b) (stage a))) as [Hcf|Hcf]; [by destruct Hc; exists a|]. unfold conflicting in Hcf. tauto.
    + intros []. split; [|done]. apply Forall_forall. intros b Hb (a & Ha & Hp & Hcf). destruct (vl_directories0 a b Ha Hb Hp) as (? & ? & ?). by destruct Hcf as [|[|]].
  - split; [done|]. intros []. exfalso. assert (Err e = Ok tt :> result Error unit) by (apply He; split; [done|]; by apply resolved_exact). done.
Qed.

(** C17: [validate_entries] accepts exactly the valid lists of entries: identities of the
    format of the index, well-formed paths within the length limit (and flags and a
    trailing slash for sparse directories), strict order by path and stage, no resolved entry beside a conflict at
    the same path, no entry at a directory of another unless both are conflict stages that
    differ, nothing below a sparse directory. *)
Theorem validate_exact fmt es limits : is_ok (validate_entries fmt es limits) = true <-> valid fmt limits es.
Proof. rewrite <- validate_entries_exact. destruct (validate_entries fmt es limits) as [[]|]; done. Qed.
End IndexValid.
