(* ===== verification/IndexEntry.v ===== *)
(** * Encoding and reading one entry of an index

    The variable-length integers of version 4, the fixed part, the flags and the path:
    [parse_entry] undoes [encode_entry] in every version. *)

From stdpp Require Import base list numbers strings sets sorting.
From Stdlib Require Import ZArith Lia.
From S2P Require Import Prelude Objects IndexFile IndexValid.

Module IndexEntry.
Import Objects IndexFile IndexValid.

(** ** Variable-length integers *)

Lemma zget_app_mid {A} (l pre post : list A) x i : l = pre ++ x :: post -> i = zlen pre -> zget i l = Some x.
Proof.
  intros -> ->. apply zget_Some. split; [unfold zlen; lia|]. unfold zlen. rewrite Nat2Z.id, lookup_app_r by lia. by rewrite Nat.sub_diag.
Qed.

(** One step of the reader: a last group, or one with another behind it. *)
Lemma read_varint_last fuel bs cursor high low : zget cursor bs = Some low -> 0 <= low < 128 -> high * 128 + low <= usize_max ->
  read_varint_loop (S fuel) bs cursor high = Ok (high * 128 + low, cursor + 1).
Proof.
  intros Hb Hl Hv. cbn [read_varint_loop]. rewrite Hb. cbn [ok_or rbind]. rewrite checked_mul_le by lia. cbn [mbind option_bind].
  rewrite land_127, Z.mod_small, checked_add_le by lia. cbn [ok_or rbind]. change (Z.land low 128) with (Z.land low (Z.shiftl 1 7)). rewrite land_bit, (testbit_high low 7) by lia. done.
Qed.
Lemma read_varint_more fuel bs cursor high low : zget cursor bs = Some (Z.lor 128 low) -> 0 <= low < 128 -> high * 128 + low < usize_max ->
  read_varint_loop (S fuel) bs cursor high = read_varint_loop fuel bs (cursor + 1) (high * 128 + low + 1).
Proof.
  intros Hb Hl Hv. cbn [read_varint_loop]. rewrite Hb. cbn [ok_or rbind]. rewrite checked_mul_le by lia. cbn [mbind option_bind].
  assert (Z.lor 128 low = low + 128) as E. { rewrite Z.lor_comm. change 128 with (Z.shiftl 1 7). by rewrite lor_shiftl by lia. }
  rewrite land_127, E. replace ((low + 128) mod 128) with low by (apply (Z.mod_unique _ _ 1); lia). rewrite checked_add_le by lia. cbn [ok_or rbind].
  change (Z.land (low + 128) 128) with (Z.land (low + 128) (Z.shiftl 1 7)). rewrite land_bit by lia. replace (Z.testbit (low + 128) 7) with true.
  - cbn [negb]. rewrite checked_add_le by lia. done.
  - rewrite <- E, Z.lor_spec. done.
Qed.

(** The bytes written before the last group lead the reader to the high part. *)
Lemma varint_loop_spec room v groups out : 0 <= v <= usize_max -> varint_loop room v groups = Some out ->
  exists more, out = more ++ groups /\ forall fuel pre rest,
    read_varint_loop (length more + fuel) (pre ++ more ++ rest) (zlen pre) 0 = read_varint_loop fuel (pre ++ more ++ rest) (zlen pre + zlen more) (v / 128).
Proof.
  revert v groups. induction room as [|room IH]; intros v groups Hv; cbn [varint_loop]; destruct (Z.ltb_spec v 128) as [Hs|Hs]; try done.
  1,2: intros [= <-]; exists []; split; [done|]; intros fuel pre rest; rewrite Z.div_small by lia; cbn [app length Nat.add]; by rewrite Z.add_0_r.
  rewrite Z.shiftr_div_pow2 by lia. change (2 ^ 7) with 128. set (w := v / 128 - 1). pose proof (Z.div_mod v 128 ltac:(lia)). pose proof (Z.mod_pos_bound v 128 ltac:(lia)).
  intros Hout. destruct (IH w _ ltac:(lia) Hout) as (more & -> & Hread). rewrite land_127 in *. set (b := Z.lor 128 (w mod 128)) in *. exists (more ++ [b]).
  split; [by rewrite <- app_assoc|]. intros fuel pre rest. pose proof (Z.div_mod w 128 ltac:(lia)). pose proof (Z.mod_pos_bound w 128 ltac:(lia)).
  rewrite length_app. cbn [length]. rewrite <- app_assoc. replace (length more + 1 + fuel)%nat with (length more + S fuel)%nat by lia. rewrite Hread. cbn [app].
  rewrite read_varint_more with (low := w mod 128); [|eapply (zget_app_mid _ (pre ++ more)); [by rewrite <- app_assoc|unfold zlen; rewrite length_app; lia]|lia..].
  f_equal; [unfold zlen; rewrite length_app; cbn [length]; lia|lia].
Qed.

Lemma varint_total v : 0 <= v <= usize_max -> exists groups, varint v = Some groups.
Proof.
  intros Hv. unfold varint. assert (forall room v groups, 0 <= v < 128 ^ (Z.of_nat room + 1) -> exists out, varint_loop room v groups = Some out) as H.
  { clear v Hv. induction room as [|room IH]; intros v groups Hv; cbn [varint_loop]; destruct (Z.ltb_spec v 128) as [Hs|Hs]; eauto.
    - change (128 ^ (Z.of_nat 0 + 1)) with 128 in Hv. lia.
    - apply IH. rewrite Z.shiftr_div_pow2 by lia. change (2 ^ 7) with 128. assert (1 <= v / 128) by (apply Z.div_le_lower_bound; lia).
      split; [lia|]. assert (v / 128 < 128 ^ (Z.of_nat room + 1)); [|lia]. apply Z.div_lt_upper_bound; [lia|]. rewrite Nat2Z.inj_succ in Hv. rewrite <- Z.pow_succ_r by lia.
      replace (Z.succ (Z.of_nat room + 1)) with (Z.succ (Z.of_nat room) + 1) by lia. apply Hv. }
  apply H. assert (usize_max < 128 ^ (Z.of_nat 9 + 1)) by done. lia.
Qed.

(** [read_varint] undoes [varint]. *)
Lemma read_varint_encoded v groups pre post : 0 <= v <= usize_max -> varint v = Some groups ->
  read_varint (pre ++ groups ++ post) (zlen pre) = Ok (v, zlen pre + zlen groups).
Proof.
  intros Hv Hg. destruct (varint_loop_spec _ _ _ _ Hv Hg) as (more & -> & Hread). unfold read_varint. rewrite <- app_assoc. cbn [app].
  pose proof (Z.div_mod v 128 ltac:(lia)). pose proof (Z.mod_pos_bound v 128 ltac:(lia)). rewrite land_127 in *.
  replace (S _) with (length more + S (length pre + S (length post)))%nat by (rewrite !length_app; cbn [length]; lia). rewrite Hread.
  rewrite (read_varint_last _ _ _ _ (v mod 128)); [|eapply (zget_app_mid _ (pre ++ more)); [by rewrite <- app_assoc|unfold zlen; rewrite length_app; lia]|lia..].
  f_equal. f_equal; [lia|unfold zlen; rewrite length_app; cbn [length]; lia].
Qed.

(** ** Alignment and flags *)

Lemma align8 x : 0 <= x <= usize_max -> Z.land x (Z.lxor usize_max 7) = 8 * (x / 8).
Proof.
  intros Hx. change (Z.lxor usize_max 7) with (Z.shiftl (Z.ones 61) 3). transitivity (Z.shiftl (Z.shiftr x 3) 3); [|rewrite Z.shiftl_mul_pow2, Z.shiftr_div_pow2 by lia; change (2 ^ 3) with 8; lia].
  apply Z.bits_inj'. intros i Hi. rewrite Z.land_spec. destruct (Z.ltb_spec i 3) as [Hlt|Hge]; [rewrite !Z.shiftl_spec_low by lia; apply andb_false_r|].
  rewrite !Z.shiftl_spec by lia. rewrite Z.shiftr_spec by lia. replace (i - 3 + 3) with i by lia. destruct (Z.ltb_spec i 64) as [Hs|Hs].
  - rewrite Z.ones_spec_low by lia. apply andb_true_r.
  - rewrite (testbit_high x 64); [done|unfold usize_max in Hx; lia|lia].
Qed.

(** The four high bits of the flags. *)
Definition flag_bits (e : Entry) : Z := stage_number (stage e) + 4 * b2z (extended e) + 8 * b2z (assume_valid e).
Lemma flag_bits_range e : 0 <= flag_bits e < 16.
Proof. unfold flag_bits. destruct (stage e), (extended e), (assume_valid e); cbn; lia. Qed.

Lemma entry_flags_eq e : entry_flags e = Z.min (zlen (path e)) 0xfff + flag_bits e * 2 ^ 12.
Proof.
  rewrite <- lor_shiftl by (unfold zlen; lia). unfold entry_flags, flag_bits. rewrite (Z.lor_comm (Z.min _ _)). f_equal.
  by destruct (stage e), (extended e), (assume_valid e).
Qed.

Lemma entry_flags_range e : 0 <= entry_flags e < 2 ^ 16.
Proof. rewrite entry_flags_eq. pose proof (flag_bits_range e). unfold zlen. lia. Qed.

Lemma entry_flags_name e : Z.land (entry_flags e) 0xfff = Z.min (zlen (path e)) 0xfff.
Proof. change 0xfff with (2 ^ 12 - 1) at 1. rewrite land_low_mod, entry_flags_eq, Z_mod_plus_full by lia. apply Z.mod_small. unfold zlen. lia. Qed.

Lemma entry_flags_high e : Z.shiftr (entry_flags e) 12 = flag_bits e.
Proof. rewrite Z.shiftr_div_pow2, entry_flags_eq, Z.div_add by lia. rewrite Z.div_small; [lia|]. unfold zlen. lia. Qed.

Lemma entry_flags_stage e : stage_of (Z.land (Z.shiftr (entry_flags e) 12) 3) = stage e.
Proof. rewrite entry_flags_high. unfold flag_bits. by destruct (stage e), (extended e), (assume_valid e). Qed.

Lemma entry_flags_bit e i : 0 <= i -> (Z.land (entry_flags e) (Z.shiftl 1 (i + 12)) =? 0) = negb (Z.testbit (flag_bits e) i).
Proof. intros Hi. rewrite land_bit by lia. rewrite <- entry_flags_high, Z.shiftr_spec by lia. done. Qed.

Lemma entry_flags_extended e : (Z.land (entry_flags e) 0x4000 =? 0) = negb (extended e).
Proof. change 0x4000 with (Z.shiftl 1 (2 + 12)). rewrite entry_flags_bit by lia. unfold flag_bits. by destruct (stage e), (extended e), (assume_valid e). Qed.

Lemma entry_flags_valid e : (Z.land (entry_flags e) 0x8000 =? 0) = negb (assume_valid e).
Proof. change 0x8000 with (Z.shiftl 1 (3 + 12)). rewrite entry_flags_bit by lia. unfold flag_bits. by destruct (stage e), (extended e), (assume_valid e). Qed.

(** ** The fixed part *)

Definition u32_ok (w : Z) : Prop := 0 <= w < 2 ^ 32.
Definition stat_words (s : Stat) : list Z :=
  [ts_seconds (ctime s); ts_nanoseconds (ctime s); ts_seconds (mtime s); ts_nanoseconds (mtime s); device s; inode s; uid s; gid s; stat_size s].
(** What the types of the fields guarantee. *)
Definition typed (e : Entry) : Prop := id_ok (e_id e) /\ Forall u32_ok (stat_words (stat e)).

Lemma zlen_words ws : zlen (concat (map put_word ws)) = 4 * zlen ws.
Proof. induction ws as [|w ws IH]; [done|]. cbn [map concat]. rewrite zlen_app, IH. unfold put_word. rewrite zlen_be_encode, zlen_cons. lia. Qed.

Lemma word_at ws rest i w : ws !! i = Some w -> u32_ok w -> word (concat (map put_word ws) ++ rest) (4 * Z.of_nat i) = Ok w.
Proof.
  intros Hi Hw. apply take_drop_middle in Hi as E. rewrite <- E, map_app, concat_app. cbn [map concat]. unfold word.
  rewrite <- !app_assoc, (slice_mid (concat (map put_word (take i ws))) (put_word w)).
  - cbn [fmap option_fmap option_map ok_or]. unfold put_word. by rewrite be_decode_encode.
  - rewrite zlen_words. unfold zlen. rewrite length_take_le; [lia|]. apply lookup_lt_Some in Hi. lia.
  - unfold put_word. rewrite zlen_be_encode. lia.
Qed.

Definition fixed_words (e : Entry) : list Z :=
  let s := stat e in
  [ts_seconds (ctime s); ts_nanoseconds (ctime s); ts_seconds (mtime s); ts_nanoseconds (mtime s); device s; inode s; mode_word (mode e); uid s; gid s; stat_size s].

Lemma encode_fixed_eq e : encode_fixed e = concat (map put_word (fixed_words e)) ++ id_bytes (e_id e).
Proof. done. Qed.

Lemma zlen_encode_fixed e : typed e -> zlen (encode_fixed e) = 40 + digest_len (id_format (e_id e)).
Proof. intros [[_ Hi] _]. rewrite encode_fixed_eq, zlen_app, zlen_words, Hi. done. Qed.

Lemma read_fixed e : typed e -> read_stat (encode_fixed e) = Ok (stat e) /\ word (encode_fixed e) 24 = Ok (mode_word (mode e)) /\
  slice 40 (40 + digest_len (id_format (e_id e))) (encode_fixed e) = Some (id_bytes (e_id e)).
Proof.
  intros [[_ Hi] Hw]. rewrite encode_fixed_eq. assert (forall i w, fixed_words e !! i = Some w -> u32_ok w -> word (concat (map put_word (fixed_words e)) ++ id_bytes (e_id e)) (4 * Z.of_nat i) = Ok w) as H
    by (intros; by apply word_at).
  unfold stat_words in Hw. rewrite !Forall_cons in Hw. destruct Hw as (W0 & W1 & W2 & W3 & W4 & W5 & W6 & W7 & W8 & _). split_and!.
  - unfold read_stat. rewrite (H 0%nat _ eq_refl W0 : word _ 0 = _), (H 1%nat _ eq_refl W1 : word _ 4 = _), (H 2%nat _ eq_refl W2 : word _ 8 = _),
      (H 3%nat _ eq_refl W3 : word _ 12 = _), (H 4%nat _ eq_refl W4 : word _ 16 = _), (H 5%nat _ eq_refl W5 : word _ 20 = _),
      (H 7%nat _ eq_refl W6 : word _ 28 = _), (H 8%nat _ eq_refl W7 : word _ 32 = _), (H 9%nat _ eq_refl W8 : word _ 36 = _). cbn [rbind].
    by destruct (stat e) as [[] [] ? ? ? ? ?].
  - apply (H 6%nat); [done|]. unfold u32_ok. destruct (mode e); cbn; lia.
  - rewrite <- (app_nil_r (id_bytes (e_id e))) at 1. apply slice_mid; [by rewrite zlen_words|lia].
Qed.

(** ** The layout of an encoded entry *)

Definition more_bytes (e : Entry) : bytes := if extended e then be_encode 2 (more_flags e) else [].
Definition shared_len (e : Entry) (v : Version) (previous : bytes) : Z := if bool_decide (v = V4) then common_prefix previous (path e) else 0.
Definition head_len (e : Entry) : Z := 42 + digest_len (id_format (e_id e)) + zlen (more_bytes e).

Record layout (e : Entry) (v : Version) (previous out groups suffix pad : bytes) : Prop := {
  ly_out : out = encode_fixed e ++ be_encode 2 (entry_flags e) ++ more_bytes e ++ groups ++ suffix ++ 0 :: pad;
  ly_path : path e = take (Z.to_nat (shared_len e v previous)) previous ++ suffix;
  ly_shared : 0 <= shared_len e v previous <= zlen previous;
  ly_groups : if bool_decide (v = V4) then varint (zlen previous - shared_len e v previous) = Some groups else groups = [];
  ly_pad : Forall (fun b => b = 0) pad;
  ly_len : zlen out = if bool_decide (v = V4) then head_len e + zlen groups + zlen suffix + 1 else Z.land (head_len e + zlen suffix + 1 + 7) (Z.lxor usize_max 7)
}.

Lemma zlen_more_bytes e : zlen (more_bytes e) = if extended e then 2 else 0.
Proof. unfold more_bytes. by destruct (extended e); rewrite ?zlen_be_encode. Qed.

Lemma encode_entry_layout e v previous out : typed e -> zlen previous <= usize_max -> encode_entry e v previous = Ok out ->
  exists groups suffix pad, layout e v previous out groups suffix pad.
Proof.
  intros Ht Hpv. unfold encode_entry. fold (more_bytes e). destruct (bool_decide_reflect (v = V4)) as [Hv|Hv].
  - destruct (common_prefix_spec previous (path e)) as (c & x & y & Ep & Ee & Hc). intros H. apply rbind_Ok in H as (groups & Hg & <-%ok_inj). apply ok_or_Ok in Hg.
    exists groups, y, []. assert (shared_len e v previous = zlen c) as Hs. { unfold shared_len. by rewrite bool_decide_true. }
    split; rewrite ?Hs, ?bool_decide_true by done.
    + rewrite Hc, Ee, drop_app_length' by (unfold zlen; lia). by rewrite <- !app_assoc.
    + by rewrite Ep, take_app_length' by (unfold zlen; lia).
    + rewrite Ep, zlen_app. unfold zlen. lia.
    + by rewrite Hc in Hg.
    + constructor.
    + rewrite Hc, Ee, drop_app_length' by (unfold zlen; lia). rewrite !zlen_app, zlen_encode_fixed, zlen_be_encode by done. unfold head_len. rewrite zlen_cons. change (zlen (@nil Z)) with 0. lia.
  - intros H. apply rbind_Ok in H as (n & Hn & <-%ok_inj). unfold encoded_entry_len in Hn. rewrite bool_decide_true in Hn by done.
    apply rbind_Ok in Hn as (k & Hk%ok_or_Ok & Hn). apply checked_add_Some in Hk as [-> Hk]. unfold entry_len in Hn. apply ok_or_Ok, bind_Some in Hn as (m & Hm & [= <-]).
    apply checked_add_Some in Hm as [-> Hm]. rewrite <- zlen_more_bytes in *. set (N := Z.land _ _).
    set (raw := (encode_fixed e ++ be_encode 2 (entry_flags e) ++ more_bytes e) ++ path e).
    assert (zlen raw = head_len e + zlen (path e)) as Hraw. { unfold raw. rewrite !zlen_app, zlen_encode_fixed, zlen_be_encode by done. unfold head_len. lia. }
    assert (N = 8 * ((head_len e + zlen (path e) + 8) / 8)) as HN. { unfold N. rewrite align8; [f_equal; f_equal; unfold head_len; lia|]. pose proof (digest_len_cases (id_format (e_id e))). unfold zlen in *. lia. }
    assert (head_len e + zlen (path e) < N) by (rewrite HN; pose proof (Z.div_mod (head_len e + zlen (path e) + 8) 8); pose proof (Z.mod_pos_bound (head_len e + zlen (path e) + 8) 8); lia).
    assert (shared_len e v previous = 0) as Hs. { unfold shared_len. by rewrite bool_decide_false. }
    assert (Z.of_nat (length raw) = head_len e + zlen (path e)) as Hl by exact Hraw.
    exists [], (path e), (replicate (Z.to_nat N - length raw - 1) 0). split; rewrite ?Hs, ?bool_decide_false by done; try done.
    + rewrite take_ge by lia. replace (Z.to_nat N - length raw)%nat with (S (Z.to_nat N - length raw - 1)) by lia.
      cbn [replicate app]. rewrite Nat.sub_succ, Nat.sub_0_r. unfold raw at 1. by rewrite <- !app_assoc.
    + unfold zlen. lia.
    + by apply Forall_replicate.
    + rewrite take_ge by lia. transitivity N; [unfold zlen; rewrite length_app, length_replicate; lia|]. unfold N. f_equal. unfold head_len. lia.
Qed.

(** ** Reading it back *)

Lemma saturating_add_le a b : a + b <= usize_max -> saturating_add a b = a + b.
Proof. unfold saturating_add. lia. Qed.

Lemma from_bytes_id id : id_ok id -> from_bytes (id_format id) (id_bytes id) = Ok id.
Proof. intros [_ H]. destruct id; cbn in *; by rewrite H. Qed.

Lemma mode_of_mode_word m : mode_of_word (mode_word m) = Some m.
Proof. by destruct m. Qed.

Lemma more_flags_spec e : 0 <= more_flags e < 2 ^ 16 /\ Z.land (more_flags e) (Z.lxor 0xffff 0x6000) = 0 /\
  (Z.land (more_flags e) 0x2000 =? 0) = negb (intent_to_add e) /\ (Z.land (more_flags e) 0x4000 =? 0) = negb (skip_worktree e).
Proof. unfold more_flags. destruct (intent_to_add e), (skip_worktree e); split_and!; try done; cbn; lia. Qed.

Lemma extended_flags_written e v bs pre rest position : bs = pre ++ more_bytes e ++ rest -> (v = V2 -> extended e = false) ->
  exists more, extended_flags v bs (entry_flags e) position (zlen pre) = Ok (more, zlen pre + zlen (more_bytes e)) /\
    negb (Z.land more 0x2000 =? 0) = intent_to_add e /\ negb (Z.land more 0x4000 =? 0) = skip_worktree e.
Proof.
  intros -> Hv. unfold extended_flags. rewrite entry_flags_extended, zlen_more_bytes. unfold more_bytes. destruct (extended e) eqn:Ex; cbn [negb].
  - rewrite bool_decide_false by (intros ->; by specialize (Hv eq_refl)). rewrite (slice_mid _ (be_encode 2 (more_flags e))) by (rewrite ?zlen_be_encode; done). cbn [ok_or rbind].
    destruct (more_flags_spec e) as (Hr & Hu & Hi & Hs). rewrite be_decode_encode by done. rewrite Hu. cbn [Z.eqb negb]. exists (more_flags e). by rewrite Hi, Hs, !negb_involutive.
  - exists 0. rewrite Z.add_0_r. unfold extended in Ex. apply orb_false_iff in Ex as [-> ->]. done.
Qed.

Lemma shared_prefix_written e v previous out groups suffix pad bs pre rest : layout e v previous out groups suffix pad -> zlen previous <= usize_max -> bs = pre ++ groups ++ rest ->
  shared_prefix v bs previous (zlen pre) = Ok (shared_len e v previous, zlen pre + zlen groups).
Proof.
  intros [_ _ Hs Hg _ _] Hp ->. unfold shared_prefix, shared_len in *. case_bool_decide.
  - rewrite (read_varint_encoded (zlen previous - common_prefix previous (path e)) groups) by (done || lia). cbn [rbind]. rewrite checked_sub_le by lia. cbn [ok_or rbind]. do 2 f_equal. lia.
  - rewrite Hg. by rewrite Z.add_0_r.
Qed.

(** The name up to its terminator, searched within the limit of a path. *)
Lemma name_written (bs pre suffix rest : bytes) room : bs = pre ++ suffix ++ 0 :: rest -> 0 ∉ suffix -> zlen suffix <= room -> zlen bs <= usize_max ->
  exists searched, slice (zlen pre) (Z.min (zlen bs) (saturating_add (saturating_add (zlen pre) room) 1)) bs = Some searched /\
    position (fun b => b =? 0) searched = Some (length suffix) /\ slice 0 (zlen suffix) searched = Some suffix.
Proof.
  intros -> H0 Hr Hb. set (stop := Z.min _ _). assert (zlen pre + zlen suffix + 1 <= stop <= zlen (pre ++ suffix ++ 0 :: rest)) as Hstop.
  { unfold stop, saturating_add. rewrite !zlen_app, zlen_cons in *. pose proof (zlen_nonneg rest). pose proof (zlen_nonneg pre). lia. }
  exists (suffix ++ 0 :: take (Z.to_nat (stop - zlen pre - zlen suffix - 1)) rest). split_and!.
  - apply slice_app. exists pre, (drop (Z.to_nat (stop - zlen pre - zlen suffix - 1)) rest). split_and!; [by rewrite <- app_assoc, <- app_comm_cons, take_drop|done|].
    rewrite zlen_app, zlen_cons. unfold zlen at 2. rewrite !zlen_app, zlen_cons in Hstop. rewrite length_take_le by (unfold zlen in *; lia). lia.
  - apply position_Some. exists suffix, 0. eexists. split_and!; [done..|]. apply Forall_forall. intros b Hin. apply Z.eqb_neq. by intros ->.
  - apply slice_0_app.
Qed.

Lemma entry_ok_nul fmt limits e : entry_ok fmt limits e -> 0 ∉ path e.
Proof.
  intros (_ & _ & p & Hp & H0 & _). unfold leaf_path in Hp. destruct (decide _); [destruct Hp as [-> _]|by rewrite Hp]. rewrite elem_of_app, list_elem_of_singleton. by intros [|].
Qed.

(** Up to the flags an entry is read whatever its version; in version 2 extended flags are
    refused. *)
Lemma parse_entry_refused fmt limits e previous out groups suffix pad content pre post position :
  entry_ok fmt limits e -> typed e -> extended e = true -> layout e V2 previous out groups suffix pad -> content = pre ++ out ++ post -> zlen content <= usize_max ->
  parse_entry fmt content (zlen pre) position limits V2 previous = Err (entry_error position "extended flags unsupported in v2").
Proof.
  intros (Hf & _) Ht Hx [Ho _ _ _ _ _] Hc Hcl. destruct (read_fixed e Ht) as (_ & Rm & _). pose proof (zlen_encode_fixed e Ht) as Hfl. rewrite Hf in *. unfold parse_entry. set (width := digest_len fmt) in *.
  assert (content = pre ++ (encode_fixed e ++ be_encode 2 (entry_flags e)) ++ more_bytes e ++ groups ++ suffix ++ 0 :: pad ++ post) as E1 by (rewrite Hc, Ho; by rewrite <- !app_assoc, <- app_comm_cons).
  assert (zlen (encode_fixed e ++ be_encode 2 (entry_flags e)) = 42 + width) as HP1 by (rewrite zlen_app, zlen_be_encode; lia).
  rewrite saturating_add_le by (rewrite <- HP1; rewrite E1, zlen_app, zlen_app in Hcl; unfold zlen in *; lia).
  assert (slice (zlen pre) (zlen pre + (42 + width)) content = Some (encode_fixed e ++ be_encode 2 (entry_flags e))) as -> by (rewrite E1; apply slice_mid; [done|lia]).
  cbn [ok_or rbind]. assert (split_at_checked (zlen (encode_fixed e ++ be_encode 2 (entry_flags e)) - 2) (encode_fixed e ++ be_encode 2 (entry_flags e)) = Some (encode_fixed e, be_encode 2 (entry_flags e))) as ->.
  { apply split_at_checked_Some. split; [done|]. rewrite zlen_app, zlen_be_encode. lia. }
  cbn [ok_or rbind]. rewrite Rm. cbn [rbind]. rewrite mode_of_mode_word. cbn [ok_or rbind]. rewrite be_decode_encode by apply entry_flags_range. unfold extended_flags. rewrite entry_flags_extended, Hx. done.
Qed.

Lemma parse_entry_written fmt limits e v previous out groups suffix pad content pre post position :
  entry_ok fmt limits e -> typed e -> (v = V2 -> extended e = false) -> layout e v previous out groups suffix pad -> zlen previous <= usize_max ->
  content = pre ++ out ++ post -> zlen content <= usize_max -> zlen previous <= max_path_bytes limits ->
  parse_entry fmt content (zlen pre) position limits v previous = Ok (e, zlen pre + zlen out).
Proof.
  intros Hok Ht Hv L Hpv Hc Hcl Hpl. pose proof (entry_ok_nul _ _ _ Hok) as H0. destruct Hok as (Hf & Hmax & _). destruct (read_fixed e Ht) as (Rs & Rm & Ri). pose proof (zlen_encode_fixed e Ht) as Hfl.
  pose proof L as [Ho Hp Hs Hg Hpad Hlen]. rewrite Hf in *. unfold parse_entry. set (width := digest_len fmt) in *.
  set (P1 := pre ++ encode_fixed e ++ be_encode 2 (entry_flags e)). assert (zlen P1 = zlen pre + (42 + width)) as HP1 by (unfold P1; rewrite !zlen_app, zlen_be_encode; lia).
  assert (content = P1 ++ more_bytes e ++ groups ++ suffix ++ 0 :: pad ++ post) as E1 by (rewrite Hc, Ho; unfold P1; by rewrite <- !app_assoc, <- app_comm_cons).
  assert (zlen suffix = zlen (path e) - shared_len e v previous) as Hsl. { rewrite Hp, zlen_app. unfold zlen at 2. rewrite length_take_le by (unfold zlen in *; lia). lia. }
  rewrite saturating_add_le by (rewrite <- HP1; rewrite E1, zlen_app in Hcl; unfold zlen in *; lia).
  assert (slice (zlen pre) (zlen pre + (42 + width)) content = Some (encode_fixed e ++ be_encode 2 (entry_flags e))) as ->.
  { rewrite E1. unfold P1. rewrite <- app_assoc. apply slice_mid; [done|]. rewrite zlen_app, zlen_be_encode. lia. }
  cbn [ok_or rbind]. assert (split_at_checked (zlen (encode_fixed e ++ be_encode 2 (entry_flags e)) - 2) (encode_fixed e ++ be_encode 2 (entry_flags e)) = Some (encode_fixed e, be_encode 2 (entry_flags e))) as ->.
  { apply split_at_checked_Some. split; [done|]. rewrite zlen_app, zlen_be_encode. lia. }
  cbn [ok_or rbind]. rewrite Rm. cbn [rbind]. rewrite mode_of_mode_word. cbn [ok_or rbind]. rewrite be_decode_encode by apply entry_flags_range. rewrite <- HP1.
  destruct (extended_flags_written e v content P1 _ position E1 Hv) as (more & -> & Hint & Hskip). cbn [rbind]. rewrite <- (zlen_app P1).
  rewrite (shared_prefix_written e v previous _ _ _ _ content (P1 ++ more_bytes e) (suffix ++ 0 :: pad ++ post) L Hpv) by (rewrite E1; by rewrite <- !app_assoc). cbn [rbind].
  unfold check_count. rewrite (proj2 (Z.ltb_ge _ _)) by lia. cbn [rbind]. rewrite <- (zlen_app (P1 ++ more_bytes e)). set (P3 := (P1 ++ more_bytes e) ++ groups).
  assert (content = P3 ++ suffix ++ 0 :: pad ++ post) as E3 by (rewrite E1; unfold P3; by rewrite <- !app_assoc).
  destruct (name_written content P3 suffix (pad ++ post) (max_path_bytes limits - shared_len e v previous) E3) as (searched & -> & Hpos & Hname);
    [rewrite Hp in H0; rewrite elem_of_app in H0; tauto|lia|done|].
  cbn [ok_or rbind]. rewrite Hpos. cbn [fmap option_fmap option_map ok_or rbind]. fold (zlen suffix). rewrite entry_flags_name.
  replace (shared_len e v previous + zlen suffix) with (zlen (path e)) by lia. rewrite Z.eqb_refl. cbn [negb].
  set (stop := if bool_decide (v = V4) then _ else _). assert (stop = zlen pre + zlen out) as Hstop.
  { unfold stop. rewrite Hlen. unfold head_len. rewrite Hf. fold width. assert (zlen P3 = zlen pre + (42 + width) + zlen (more_bytes e) + zlen groups) as HP3 by (unfold P3; rewrite !zlen_app; lia).
    case_bool_decide; [lia|]. rewrite Hg in HP3. change (zlen (@nil Z)) with 0 in HP3. do 2 f_equal. lia. }
  assert (slice (zlen P3 + zlen suffix + 1) stop content = Some pad) as ->.
  { apply slice_app. exists (P3 ++ suffix ++ [0]), post. split_and!; [rewrite E3; by rewrite <- !app_assoc|rewrite !zlen_app; change (zlen [0]) with 1; lia|].
    rewrite Hstop, Ho. unfold P3, P1. rewrite !zlen_app, zlen_cons. lia. }
  cbn [ok_or rbind]. replace (existsb (fun b => negb (b =? 0)) pad) with false.
  2:{ symmetry. apply existsb_false. eapply Forall_impl; [exact Hpad|]. by intros b ->. }
  replace (default [] _ ++ default [] _) with (path e) by (by rewrite (slice_0 _ previous), Hname by lia). rewrite Ri. cbn [mbind option_bind]. rewrite <- Hf, from_bytes_id by apply Ht. cbn [ok_or rbind].
  rewrite Rs. cbn [rbind]. rewrite entry_flags_stage, entry_flags_valid, Hint, Hskip, negb_involutive, Hstop. by destruct e.
Qed.
End IndexEntry.
