(* ===== verification/IndexRoundtrip.v ===== *)
(** * Encoding and reading a whole index

    The length that [encoded_len] computes is the length of the file, and a file that
    [encode] writes for a well-formed index is read back as that index. *)

From stdpp Require Import base list numbers strings sets sorting.
From Stdlib Require Import ZArith Lia.
From S2P Require Import Prelude Objects IndexFile IndexValid IndexEntry.

Module IndexRoundtrip.
Import Objects IndexFile IndexValid IndexEntry.

(** ** Entries *)

Definition fits (v : Version) (e : Entry) : Prop := typed e /\ (v = V2 -> extended e = false).

Lemma encoded_entry_len_exact e v previous out : typed e -> zlen previous <= usize_max -> zlen (path e) <= usize_max -> encode_entry e v previous = Ok out ->
  forall n, encoded_entry_len e v previous = Ok n -> n = zlen out.
Proof.
  intros Ht Hp Hpath Ho n Hn. destruct (encode_entry_layout e v previous out Ht Hp Ho) as (groups & suffix & pad & [_ Ep Hs Hg _ ->]).
  unfold encoded_entry_len in Hn. rewrite <- zlen_more_bytes in Hn. unfold head_len, shared_len in *. destruct (bool_decide_reflect (v = V4)) as [Hv|Hv].
  - rewrite bool_decide_false in Hn by (by intros H; apply H). rewrite Hg in Hn. cbn [ok_or rbind] in Hn. apply ok_or_Ok, checked_add_Some in Hn as [-> _].
    apply (f_equal zlen) in Ep. rewrite zlen_app in Ep. unfold zlen at 2 in Ep. rewrite length_take_le in Ep by (unfold zlen in *; lia). lia.
  - rewrite bool_decide_true in Hn by done. apply rbind_Ok in Hn as (k & Hk%ok_or_Ok & Hn). apply checked_add_Some in Hk as [-> _]. unfold entry_len in Hn.
    apply ok_or_Ok, bind_Some in Hn as (m & Hm & [= <-]). apply checked_add_Some in Hm as [-> _]. change (Z.to_nat 0) with 0%nat in Ep. rewrite take_0 in Ep. cbn [app] in Ep. rewrite Ep. f_equal. lia.
Qed.

Lemma encode_entries_len v limits es previous out length n : Forall typed es -> zlen previous <= usize_max -> max_path_bytes limits <= usize_max ->
  encode_entries es v previous = Ok out -> entries_len es v previous limits length = Ok n -> n = length + zlen out.
Proof.
  intros Ht. revert previous out length. induction Ht as [|e es Ht _ IH]; intros previous out length Hp Hm; cbn [encode_entries entries_len].
  { intros <-%ok_inj <-%ok_inj. change (zlen (@nil Z)) with 0. lia. }
  intros H Hn. apply rbind_Ok in H as (o & Ho & H). apply rbind_Ok in H as (rest & Hrest & <-%ok_inj). apply rbind_Ok in Hn as (u & Hc & Hn). apply rbind_Ok in Hn as (k & Hk & Hn).
  unfold check_count in Hc. destruct (Z.ltb_spec (max_path_bytes limits) (zlen (path e))); [done|].
  apply rbind_Ok in Hn as (len & Hlen%ok_or_Ok & Hn). apply checked_add_Some in Hlen as [-> _]. rewrite (IH (path e) _ _ ltac:(lia) Hm Hrest Hn), zlen_app.
  rewrite (encoded_entry_len_exact e v previous o Ht Hp ltac:(lia) Ho k Hk). lia.
Qed.

Lemma layout_long e v previous out groups suffix pad : typed e -> layout e v previous out groups suffix pad -> 43 + digest_len (id_format (e_id e)) <= zlen out.
Proof.
  intros Ht [-> _ _ _ _ _]. rewrite !zlen_app, zlen_cons, zlen_encode_fixed, zlen_be_encode by done.
  pose proof (zlen_nonneg (more_bytes e)). pose proof (zlen_nonneg groups). pose proof (zlen_nonneg suffix). pose proof (zlen_nonneg pad). lia.
Qed.

Lemma encode_entries_long fmt limits v es previous out : Forall typed es -> Forall (entry_ok fmt limits) es -> zlen previous <= usize_max -> max_path_bytes limits <= usize_max ->
  encode_entries es v previous = Ok out -> zlen es * (43 + digest_len fmt) <= zlen out.
Proof.
  intros Hf. revert previous out. induction Hf as [|e es Ht _ IH]; intros previous out Hok Hp Hm; cbn [encode_entries]; [intros <-%ok_inj; done|].
  intros H. apply rbind_Ok in H as (o & Ho & H). apply rbind_Ok in H as (rest & Hrest & <-%ok_inj). apply Forall_cons in Hok as [Hok Hoks]. pose proof Hok as (Hfm & Hl & _).
  specialize (IH (path e) _ Hoks ltac:(lia) Hm Hrest). destruct (encode_entry_layout e v previous o Ht Hp Ho) as (groups & suffix & pad & L).
  apply layout_long in L; [|done]. rewrite Hfm in L. rewrite zlen_app, zlen_cons. lia.
Qed.

(** Reading the entries back, behind those already read. *)
Lemma parse_entries_written fmt limits v es read content pre post position out : Forall (fits v) es -> Forall (entry_ok fmt limits) es -> max_path_bytes limits <= usize_max ->
  Forall (entry_ok fmt limits) read -> 0 <= max_path_bytes limits ->
  encode_entries es v (match last read with Some e => path e | None => [] end) = Ok out -> content = pre ++ out ++ post -> zlen content <= usize_max ->
  parse_entries (length es) fmt content limits v (zlen pre) position read = Ok (read ++ es, zlen pre + zlen out).
Proof.
  intros Hf. revert read pre position out. induction Hf as [|e es [Ht Hv] _ IH]; intros read pre position out Hok Hm Hread H0; cbn [encode_entries parse_entries length].
  { intros <-%ok_inj _ _. rewrite app_nil_r, Z.add_0_r. done. }
  set (previous := match last read with Some _ => _ | None => _ end). assert (zlen previous <= max_path_bytes limits) as Hp.
  { unfold previous. destruct (last read) as [l|] eqn:El; [|done]. apply last_Some_elem_of in El. rewrite Forall_forall in Hread. by apply Hread. }
  intros H -> Hcl. apply rbind_Ok in H as (o & Ho & H). apply rbind_Ok in H as (rest & Hrest & <-%ok_inj). apply Forall_cons in Hok as [Hok Hoks].
  destruct (encode_entry_layout e v previous o Ht ltac:(lia) Ho) as (groups & suffix & pad & L).
  rewrite (parse_entry_written fmt limits e v previous o groups suffix pad _ pre (rest ++ post)) by (done || lia || by rewrite <- ?app_assoc). cbn [rbind].
  rewrite <- zlen_app. rewrite (IH (read ++ [e]) (pre ++ o) (position + 1) rest); try done.
  - rewrite <- app_assoc. cbn [app]. rewrite !zlen_app. do 2 f_equal. lia.
  - apply Forall_app. split; [done|by constructor].
  - by rewrite last_snoc.
  - by rewrite <- !app_assoc.
Qed.

(** In version 2 the first extended entry is refused. *)
Lemma parse_entries_refused fmt limits es read content pre post position out : Forall typed es -> Forall (entry_ok fmt limits) es -> max_path_bytes limits <= usize_max ->
  Forall (entry_ok fmt limits) read -> 0 <= max_path_bytes limits -> existsb extended es = true ->
  encode_entries es V2 (match last read with Some e => path e | None => [] end) = Ok out -> content = pre ++ out ++ post -> zlen content <= usize_max ->
  exists k e, es !! k = Some e /\ extended e = true /\ parse_entries (length es) fmt content limits V2 (zlen pre) position read = Err (entry_error (position + Z.of_nat k) "extended flags unsupported in v2").
Proof.
  intros Hf. revert read pre position out. induction Hf as [|e es Ht _ IH]; intros read pre position out Hok Hm Hread H0; cbn [encode_entries parse_entries length existsb]; [done|].
  set (previous := match last read with Some _ => _ | None => _ end). assert (zlen previous <= max_path_bytes limits) as Hp.
  { unfold previous. destruct (last read) as [l|] eqn:El; [|done]. apply last_Some_elem_of in El. rewrite Forall_forall in Hread. by apply Hread. }
  intros Hx H -> Hcl. apply rbind_Ok in H as (o & Ho & H). apply rbind_Ok in H as (rest & Hrest & <-%ok_inj). apply Forall_cons in Hok as [Hok Hoks].
  destruct (encode_entry_layout e V2 previous o Ht ltac:(lia) Ho) as (groups & suffix & pad & L). destruct (extended e) eqn:Ee.
  - exists O, e. split_and!; [done..|]. rewrite (parse_entry_refused fmt limits e previous o groups suffix pad _ pre (rest ++ post)) by (done || by rewrite <- ?app_assoc). by rewrite Z.add_0_r.
  - rewrite (parse_entry_written fmt limits e V2 previous o groups suffix pad _ pre (rest ++ post)) by (done || lia || by rewrite <- ?app_assoc). cbn [rbind].
    destruct (IH (read ++ [e]) (pre ++ o) (position + 1) rest) as (k & e' & Hk & He' & Hr); try done; [apply Forall_app; split; [done|by constructor]|by rewrite last_snoc|by rewrite <- !app_assoc|].
    exists (S k), e'. split_and!; [done..|]. rewrite <- zlen_app, Hr. do 2 f_equal. lia.
Qed.

(** ** Extensions *)

Definition ext_ok (x : Extension) : Prop :=
  zlen (signature x) = 4 /\ zlen (ext_data x) <= u32_max /\ ((exists b, zget 0 (signature x) = Some b /\ is_upper b = true) \/ signature x = link \/ signature x = sdir).

Lemma zlen_encode_extension x : ext_ok x -> zlen (encode_extension x) = 8 + zlen (ext_data x).
Proof. intros (Hs & _). unfold encode_extension, put_word. rewrite !zlen_app, zlen_be_encode, Hs. lia. Qed.

Lemma extensions_len_exact xs length n : Forall ext_ok xs -> extensions_len xs length = Ok n -> n = length + zlen (concat (map encode_extension xs)).
Proof.
  intros Hx. revert length. induction Hx as [|x xs Hx _ IH]; intros length; cbn [extensions_len map concat]; [intros <-%ok_inj; change (zlen (@nil Z)) with 0; lia|].
  intros H. apply rbind_Ok in H as (u & _ & H). apply rbind_Ok in H as (k & Hk%ok_or_Ok & H). apply bind_Some in Hk as (j & Hj & Hk).
  apply checked_add_Some in Hj as [-> _]. apply checked_add_Some in Hk as [-> _]. rewrite (IH _ H), zlen_app, zlen_encode_extension by done. lia.
Qed.

Lemma extensions_count xs : Forall ext_ok xs -> zlen xs <= zlen (concat (map encode_extension xs)).
Proof.
  induction 1 as [|x xs Hx _ IH]; [done|]. cbn [map concat]. rewrite zlen_cons, zlen_app, zlen_encode_extension by done. pose proof (zlen_nonneg (ext_data x)). lia.
Qed.

Lemma one_of_true sigs s : one_of sigs s = true <-> s ∈ sigs.
Proof.
  unfold one_of. rewrite existsb_exists. setoid_rewrite <- list_elem_of_In. split; [intros (y & Hy & ->%bytes_eqb_eq); done|].
  intros H. exists s. split; [done|]. by apply bytes_eqb_eq.
Qed.

Lemma parse_extensions_written limits xs read content pre fuel : Forall ext_ok xs -> content = pre ++ concat (map encode_extension xs) -> (length xs < fuel)%nat ->
  zlen read + zlen xs <= max_extensions limits -> parse_extensions fuel content limits (zlen pre) read = Ok (read ++ xs, zlen content).
Proof.
  intros Hx. revert read content pre fuel. induction Hx as [|x xs Hx Hxs IH]; intros read content pre fuel; cbn [map concat]; intros -> Hf Hm.
  { rewrite !app_nil_r. destruct fuel; cbn [parse_extensions]; by rewrite Z.leb_refl. }
  destruct fuel as [|fuel]; [lia|]. cbn [parse_extensions]. pose proof (zlen_encode_extension x Hx) as Hl. pose proof Hx as (Hs & Hd & Hsig). cbn [length] in Hf. rewrite zlen_cons in Hm.
  set (content := pre ++ _) in *. assert (content = pre ++ encode_extension x ++ concat (map encode_extension xs)) as Ec by done.
  rewrite (proj2 (Z.leb_gt _ _)) by (rewrite Ec, !zlen_app; pose proof (zlen_nonneg (concat (map encode_extension xs))); pose proof (zlen_nonneg (ext_data x)); lia).
  unfold check_count. rewrite (proj2 (Z.ltb_ge _ _)) by (pose proof (zlen_nonneg xs); lia). cbn [rbind]. pose proof (zlen_nonneg (ext_data x)) as Hd0.
  assert (wrap32 (zlen (ext_data x)) = zlen (ext_data x)) as Hw by (apply Z.mod_small; unfold u32_max in Hd; lia).
  unfold encode_extension in Ec. rewrite Hw in Ec.
  rewrite (slice_between content pre (signature x ++ put_word (zlen (ext_data x))) (ext_data x ++ concat (map encode_extension xs))); cycle 1.
  { rewrite Ec. by rewrite <- !app_assoc. } { done. } { unfold put_word. rewrite zlen_app, zlen_be_encode, Hs. lia. }
  cbn [ok_or rbind]. replace (take 4 _) with (signature x) by (rewrite take_app_length'; [done|unfold zlen in Hs; lia]).
  destruct (zget_is_Some 0 (signature x)) as [b Hb]; [lia|]. rewrite Hb. cbn [ok_or rbind].
  replace (negb (is_upper b) && negb (one_of [link; sdir] (signature x))) with false.
  2:{ symmetry. apply andb_false_iff. destruct Hsig as [(b' & Hb' & Hu)|Hsig]; [left; rewrite Hb in Hb'; injection Hb' as <-; by rewrite Hu|right].
      apply negb_false_iff, one_of_true. destruct Hsig as [-> | ->]; set_solver. }
  assert (word content (zlen pre + 4) = Ok (zlen (ext_data x))) as ->.
  { unfold word. rewrite (slice_between content (pre ++ signature x) (put_word (zlen (ext_data x))) (ext_data x ++ concat (map encode_extension xs))); cycle 1.
    { rewrite Ec. by rewrite <- !app_assoc. } { rewrite zlen_app. lia. } { unfold put_word. rewrite zlen_be_encode. lia. }
    cbn [fmap option_fmap option_map ok_or]. unfold put_word. rewrite be_decode_encode; [done|]. unfold u32_max in Hd. change (256 ^ Z.of_nat 4) with (2 ^ 32). lia. }
  cbn [rbind]. rewrite (slice_between content (pre ++ signature x ++ put_word (zlen (ext_data x))) (ext_data x) (concat (map encode_extension xs))); cycle 1.
  { rewrite Ec. by rewrite <- !app_assoc. } { unfold put_word. rewrite !zlen_app, zlen_be_encode, Hs. lia. } { lia. }
  cbn [ok_or rbind]. replace {| signature := signature x; ext_data := ext_data x |} with x by (by destruct x).
  replace (zlen pre + 8 + zlen (ext_data x)) with (zlen (pre ++ encode_extension x)) by (rewrite zlen_app; lia).
  rewrite (IH (read ++ [x]) content (pre ++ encode_extension x) fuel); [by rewrite <- app_assoc|unfold content; by rewrite <- app_assoc|lia|rewrite zlen_app; change (zlen [x]) with 1; lia].
Qed.

(** ** Well-formed indexes *)

Definition limits_ok (limits : Limits) : Prop := 0 <= max_path_bytes limits <= usize_max /\ max_bytes limits <= usize_max /\ 0 <= max_extensions limits.

Definition sparse_marks (xs : list Extension) : list Extension := filter (fun x => bytes_eqb (signature x) sdir = true) xs.

(** Everything but the file that an index was read from. *)
Record shape (limits : Limits) (x : Index) : Prop := {
  sh_valid : valid (i_format x) limits (entries x);
  sh_fits : Forall (fits (version x)) (entries x);
  sh_extensions : Forall ext_ok (extensions x);
  sh_marks : zlen (sparse_marks (extensions x)) <= 1 /\ Forall (fun e => ext_data e = []) (sparse_marks (extensions x));
  sh_marked e : has link (extensions x) = false -> e ∈ entries x -> mode e = SparseDirectory -> sparse_marks (extensions x) <> []
}.

Definition read_from (bs : bytes) (x : Index) : Index :=
  {| i_format := i_format x; version := version x; original := Some bs; entries := entries x; extensions := extensions x |}.

Lemma filter_link_nil xs : has link xs = false <-> filter (fun e => bytes_eqb (signature e) link = true) xs = [].
Proof.
  unfold has. rewrite existsb_false. induction xs as [|x xs IH]; [by split|]. rewrite Forall_cons, filter_cons, IH. destruct (decide _) as [H|H].
  - rewrite H. split; [by intros []|done].
  - apply not_true_iff_false in H. tauto.
Qed.

Lemma check_count_Ok a m r : check_count a m r = Ok tt <-> a <= m.
Proof. unfold check_count. destruct (Z.ltb_spec m a); split; (done || lia). Qed.
Lemma check_count_inv a m r u : check_count a m r = Ok u -> a <= m.
Proof. destruct u. apply check_count_Ok. Qed.

(** The checks of [parse_file] on the marks. *)
Lemma marks_accepted limits x : shape limits x ->
  (1 <? zlen (sparse_marks (extensions x))) || match sparse_marks (extensions x) with m :: _ => negb (bytes_eqb (ext_data m) []) | [] => false end = false.
Proof.
  intros S. destruct (sh_marks _ _ S) as [H1 H2]. apply orb_false_iff. split; [by apply Z.ltb_ge|]. destruct (sparse_marks (extensions x)) as [|m ms]; [done|].
  apply Forall_cons in H2 as [-> _]. done.
Qed.

Lemma marked_accepted limits x : shape limits x -> has link (extensions x) = false ->
  existsb (fun e => bool_decide (mode e = SparseDirectory)) (entries x) && match sparse_marks (extensions x) with [] => true | _ => false end = false.
Proof.
  intros S Hl. destruct (existsb _ _) eqn:E; [|done]. apply existsb_exists in E as (e & He%list_elem_of_In & Hm%bool_decide_eq_true).
  pose proof (sh_marked _ _ S e Hl He Hm). by destruct (sparse_marks (extensions x)).
Qed.

Section Digest.
Context (sha1 sha256 : bytes -> bytes).
Context (Hsha1 : forall bs, bytes_ok (sha1 bs) /\ zlen (sha1 bs) = 20) (Hsha256 : forall bs, bytes_ok (sha256 bs) /\ zlen (sha256 bs) = 32).

Lemma zlen_checksum fmt bs : zlen (id_bytes (checksum sha1 sha256 fmt bs)) = digest_len fmt.
Proof using Hsha1 Hsha256. destruct fmt; cbn; [apply Hsha1|apply Hsha256]. Qed.

(** The pieces of a file. *)
Definition header (v : Version) (n : Z) : bytes := bstr "DIRC" ++ put_word (version_word v) ++ put_word n.
Lemma zlen_header v n : zlen (header v n) = 12.
Proof. unfold header, put_word. rewrite !zlen_app, !zlen_be_encode. done. Qed.

Lemma encode_file limits x bs : limits_ok limits -> Forall typed (entries x) -> Forall ext_ok (extensions x) -> original x = None -> encode sha1 sha256 x limits = Ok bs ->
  exists es content, encode_entries (entries x) (version x) [] = Ok es /\ content = header (version x) (zlen (entries x)) ++ es ++ concat (map encode_extension (extensions x)) /\
    bs = content ++ id_bytes (checksum sha1 sha256 (i_format x) content) /\
    zlen (entries x) <= Z.min (max_entries limits) u32_max /\ zlen (extensions x) <= max_extensions limits /\ zlen bs <= max_bytes limits /\
    encoded_len x limits = Ok (zlen bs).
Proof using Hsha1 Hsha256.
  intros HL Ht Hxs Ho H. unfold encode in H. apply rbind_Ok in H as (n & Hn & H). rewrite Ho in H. apply rbind_Ok in H as (es & Hes & H). pose proof Hn as Hn0.
  unfold encoded_len in Hn. rewrite Ho in Hn. apply rbind_Ok in Hn as (? & Hc1%check_count_inv & Hn). apply rbind_Ok in Hn as (? & Hc2%check_count_inv & Hn).
  apply rbind_Ok in Hn as (n1 & Hn1 & Hn). apply rbind_Ok in Hn as (n2 & Hn2 & Hn). apply rbind_Ok in Hn as (? & Hc3%check_count_inv & [= ->]).
  assert (wrap32 (zlen (entries x)) = zlen (entries x)) as Hw by (apply Z.mod_small; pose proof (zlen_nonneg (entries x)); unfold u32_max in Hc1; lia). rewrite Hw in H.
  set (content := header (version x) (zlen (entries x)) ++ es ++ concat (map encode_extension (extensions x))).
  assert (bs = content ++ id_bytes (checksum sha1 sha256 (i_format x) content)) as ->. { apply ok_inj in H as <-. unfold content, header. by rewrite <- !app_assoc. }
  assert (n = zlen (content ++ id_bytes (checksum sha1 sha256 (i_format x) content))) as En.
  { rewrite (extensions_len_exact _ _ _ Hxs Hn2), (encode_entries_len _ limits _ [] es _ n1 Ht ltac:(by vm_compute) ltac:(apply HL) Hes Hn1).
    unfold content. rewrite !zlen_app, zlen_header, zlen_checksum. lia. }
  exists es, content. rewrite <- En. split_and!; try done; lia.
Qed.

Lemma index_header_read v n rest : 0 <= n < 2 ^ 32 -> starts_with (bstr "DIRC") (header v n ++ rest) = true /\ word (header v n ++ rest) 4 = Ok (version_word v) /\ word (header v n ++ rest) 8 = Ok n.
Proof.
  intros Hn. unfold header, word. split_and!.
  - apply starts_with_true. exists ((put_word (version_word v) ++ put_word n) ++ rest). by rewrite <- !app_assoc.
  - rewrite (slice_between _ (bstr "DIRC") (put_word (version_word v)) (put_word n ++ rest)) by (rewrite <- ?app_assoc; done). cbn [fmap option_fmap option_map ok_or]. by destruct v.
  - rewrite (slice_between _ (bstr "DIRC" ++ put_word (version_word v)) (put_word n) rest) by (rewrite <- ?app_assoc; unfold put_word; rewrite ?zlen_be_encode; done).
    cbn [fmap option_fmap option_map ok_or]. unfold put_word. by rewrite be_decode_encode.
Qed.

Lemma version_read v : (if version_word v =? 2 then Ok V2 else if version_word v =? 3 then Ok V3 else if version_word v =? 4 then Ok V4 else Err (UnsupportedVersion (version_word v))) = Ok v.
Proof. by destruct v. Qed.

(** The file up to its entries. *)
Lemma parse_file_entries limits x bs : limits_ok limits -> Forall typed (entries x) -> Forall ext_ok (extensions x) -> Forall (entry_ok (i_format x) limits) (entries x) -> original x = None -> encode sha1 sha256 x limits = Ok bs ->
  exists es content, encode_entries (entries x) (version x) [] = Ok es /\ content = header (version x) (zlen (entries x)) ++ es ++ concat (map encode_extension (extensions x)) /\
    zlen content <= usize_max /\ zlen (extensions x) <= max_extensions limits /\
    parse_file sha1 sha256 (i_format x) bs limits =
      (let? (es, cursor) := parse_entries (length (entries x)) (i_format x) content limits (version x) (zlen (header (version x) (zlen (entries x)))) 0 [] in
       let? (xs, cursor) := parse_extensions (S (length content)) content limits cursor [] in
       let sparse := filter (fun x => bytes_eqb (signature x) sdir = true) xs in
       if (1 <? zlen sparse) || match sparse with x :: _ => negb (bytes_eqb (ext_data x) []) | [] => false end
       then Err (malformed cursor "invalid sparse extension")
       else if existsb (fun e => bool_decide (mode e = SparseDirectory)) es && match sparse with [] => true | _ => false end
       then Err (malformed cursor "sparse directory without sdir extension")
       else
         let? _ := (if has link xs then Ok tt else validate_entries (i_format x) es limits) in
         Ok {| i_format := i_format x; version := version x; original := Some bs; entries := es; extensions := xs |}).
Proof using Hsha1 Hsha256.
  intros HL Ht Hxs Hok Ho Henc. destruct (encode_file limits x bs HL Ht Hxs Ho Henc) as (es & content & Hes & Ec & Eb & Hce & Hcx & Hcb & _). exists es, content.
  set (fmt := i_format x) in *. set (n := zlen (entries x)) in *. pose proof (zlen_nonneg (entries x)) as Hn0. fold n in Hn0.
  assert (zlen bs = zlen content + digest_len fmt) as Hzb by (rewrite Eb, zlen_app, zlen_checksum; lia). destruct HL as (HL1 & HL2 & HL3).
  pose proof (encode_entries_long fmt limits (version x) (entries x) [] es Ht Hok ltac:(by vm_compute) ltac:(apply HL1) Hes) as Hlong. fold n in Hlong.
  assert (zlen content = 12 + zlen es + zlen (concat (map encode_extension (extensions x)))) as Hzc by (rewrite Ec, !zlen_app, zlen_header; lia).
  pose proof (zlen_nonneg es). pose proof (zlen_nonneg (concat (map encode_extension (extensions x)))). pose proof (digest_len_cases fmt). split_and!; [done|done|lia|done|].
  assert (bs = header (version x) n ++ es ++ concat (map encode_extension (extensions x)) ++ id_bytes (checksum sha1 sha256 fmt content)) as Eb2 by (rewrite Eb, Ec at 1; by rewrite <- !app_assoc).
  destruct (index_header_read (version x) n (es ++ concat (map encode_extension (extensions x)) ++ id_bytes (checksum sha1 sha256 fmt content))) as (R1 & R2 & R3); [unfold u32_max in Hce; lia|].
  rewrite <- Eb2 in R1, R2, R3. unfold parse_file. rewrite (proj2 (check_count_Ok _ _ _) Hcb), R1. cbn [rbind negb]. rewrite (proj2 (Z.ltb_ge _ _)) by lia. cbn [orb].
  rewrite R2. cbn [rbind]. rewrite version_read. cbn [rbind]. replace (zlen bs - digest_len fmt) with (zlen content) by lia.
  rewrite (proj2 (split_at_checked_Some (zlen content) bs content (id_bytes (checksum sha1 sha256 fmt content)))) by done. cbn [ok_or rbind].
  rewrite (proj2 (bytes_eqb_eq _ _) eq_refl). cbn [negb]. rewrite R3. cbn [rbind]. rewrite (proj2 (check_count_Ok _ _ _)) by lia. cbn [rbind].
  rewrite (proj2 (Z.ltb_ge _ _)) by (apply Z.div_le_lower_bound; lia). rewrite zlen_header. unfold n at 1, zlen at 1. by rewrite Nat2Z.id.
Qed.

Lemma parse_file_written limits x bs : limits_ok limits -> shape limits x -> original x = None -> has link (extensions x) = false -> encode sha1 sha256 x limits = Ok bs ->
  parse_file sha1 sha256 (i_format x) bs limits = Ok (read_from bs x).
Proof using Hsha1 Hsha256.
  intros HL S Ho Hlink Henc. pose proof (vl_entries _ _ _ (sh_valid _ _ S)) as Hok. pose proof (sh_fits _ _ S) as Hfits. assert (Forall typed (entries x)) as Ht by (eapply Forall_impl; [exact Hfits|by intros e []]).
  destruct (parse_file_entries limits x bs HL Ht (sh_extensions _ _ S) Hok Ho Henc) as (es & content & Hes & Ec & Hcl & Hcx & ->). destruct HL as (HL1 & HL2 & HL3).
  rewrite (parse_entries_written (i_format x) limits (version x) (entries x) [] content _ (concat (map encode_extension (extensions x))) 0 es Hfits Hok ltac:(apply HL1) ltac:(constructor) ltac:(apply HL1) Hes Ec Hcl).
  cbn [rbind app]. rewrite <- zlen_app. pose proof (extensions_count _ (sh_extensions _ _ S)) as Hxc.
  assert (zlen (concat (map encode_extension (extensions x))) <= zlen content) as Hxl by (rewrite Ec, !zlen_app; pose proof (zlen_nonneg es); rewrite zlen_header; lia).
  rewrite (parse_extensions_written limits (extensions x) [] content _ _ (sh_extensions _ _ S)); [|by rewrite Ec, <- app_assoc|unfold zlen in *; lia|change (zlen (@nil Extension)) with 0; lia].
  cbn [rbind app]. fold (sparse_marks (extensions x)). rewrite (marks_accepted limits x S), (marked_accepted limits x S Hlink), Hlink.
  rewrite (proj2 (validate_entries_exact _ _ _) (sh_valid _ _ S)). done.
Qed.

(** A file of version 2 with an extended entry is refused. *)
Lemma parse_file_refused limits x bs : limits_ok limits -> Forall typed (entries x) -> Forall ext_ok (extensions x) -> Forall (entry_ok (i_format x) limits) (entries x) -> original x = None ->
  version x = V2 -> existsb extended (entries x) = true -> encode sha1 sha256 x limits = Ok bs ->
  exists k e, entries x !! k = Some e /\ extended e = true /\ parse_file sha1 sha256 (i_format x) bs limits = Err (entry_error (Z.of_nat k) "extended flags unsupported in v2").
Proof using Hsha1 Hsha256.
  intros HL Ht Hxs Hok Ho Hv Hx Henc. destruct (parse_file_entries limits x bs HL Ht Hxs Hok Ho Henc) as (es & content & Hes & Ec & Hcl & _ & ->). rewrite Hv in *. destruct HL as (HL1 & _).
  destruct (parse_entries_refused (i_format x) limits (entries x) [] content (header V2 (zlen (entries x))) (concat (map encode_extension (extensions x))) 0 es) as (k & e & Hk & He & ->); try done; [apply HL1|apply HL1|]. by exists k, e.
Qed.

Lemma index_written limits x bs : limits_ok limits -> shape limits x -> original x = None -> has link (extensions x) = false -> encode sha1 sha256 x limits = Ok bs ->
  parse sha1 sha256 (i_format x) bs limits = Ok (read_from bs x).
Proof using Hsha1 Hsha256.
  intros HL S Ho Hlink Henc. unfold parse, parse_with_shared. rewrite (parse_file_written limits x bs) by done. cbn [rbind]. unfold resolve_shared_with. cbn [extensions read_from].
  by rewrite (proj1 (filter_link_nil _) Hlink).
Qed.

(** ** [encode] fails only where [encoded_len] does *)

Lemma encode_entry_total e v previous : zlen previous <= usize_max -> is_ok (encoded_entry_len e v previous) = true -> exists out, encode_entry e v previous = Ok out.
Proof.
  intros Hp Hl. unfold encode_entry. destruct (bool_decide_reflect (v = V4)) as [Hv|Hv].
  - destruct (common_prefix_spec previous (path e)) as (c & x & y & Ep & _ & ->). destruct (varint_total (zlen previous - zlen c)) as [groups ->].
    { rewrite Ep, zlen_app in *. pose proof (zlen_nonneg c). pose proof (zlen_nonneg x). lia. }
    cbn [ok_or rbind]. by eexists.
  - destruct (encoded_entry_len e v previous); [|done]. cbn [rbind]. by eexists.
Qed.

Lemma encode_entries_total v limits es previous length n : zlen previous <= usize_max -> max_path_bytes limits <= usize_max ->
  entries_len es v previous limits length = Ok n -> exists out, encode_entries es v previous = Ok out.
Proof.
  intros Hp Hm. revert previous length Hp. induction es as [|e es IH]; intros previous length Hp; cbn [entries_len encode_entries]; [by eexists|].
  intros H. apply rbind_Ok in H as (? & Hc%check_count_inv & H). apply rbind_Ok in H as (k & Hk & H). apply rbind_Ok in H as (len & _ & H).
  destruct (encode_entry_total e v previous Hp) as [out ->]; [by rewrite Hk|]. destruct (IH (path e) len ltac:(lia) H) as [rest ->]. cbn [rbind]. by eexists.
Qed.

(** An index that was not read from a file encodes exactly when [encoded_len] accepts
    it, and the file is as long as [encoded_len] says: its charge against the limits is the
    length that is written. *)
Theorem encoded_len_exact limits x n : limits_ok limits -> shape limits x -> original x = None -> encoded_len x limits = Ok n ->
  exists bs, encode sha1 sha256 x limits = Ok bs /\ zlen bs = n /\ n <= max_bytes limits.
Proof using Hsha1 Hsha256.
  intros HL S Ho Hn. assert (exists bs, encode sha1 sha256 x limits = Ok bs) as [bs He].
  { unfold encode. rewrite Hn, Ho. cbn [rbind]. unfold encoded_len in Hn. apply rbind_Ok in Hn as (? & _ & Hn). apply rbind_Ok in Hn as (? & _ & Hn). apply rbind_Ok in Hn as (n1 & Hn1 & _).
    apply encode_entries_total in Hn1 as [out ->]; [cbn [rbind]; by eexists|by vm_compute|apply HL]. }
  destruct (encode_file limits x bs HL (Forall_impl _ _ _ (sh_fits _ _ S) (fun e H => proj1 H)) (sh_extensions _ _ S) Ho He) as (es & content & _ & _ & _ & _ & _ & Hb & Hlen). exists bs. rewrite Hn in Hlen. injection Hlen as ->. done.
Qed.
End Digest.

(** ** A sample *)

Definition sample_sum (n : nat) (_ : bytes) : bytes := replicate n 7.
Lemma sample_sum_ok n bs : bytes_ok (sample_sum n bs) /\ zlen (sample_sum n bs) = Z.of_nat n.
Proof. split; [apply Forall_replicate; unfold byte_ok; lia|]. unfold zlen, sample_sum. by rewrite length_replicate. Qed.

Definition sample_entry (p : string) (s : Stage) (skip : bool) : Entry :=
  {| path := bstr p; mode := Regular; e_id := Sha1 (replicate 20 3); stage := s; assume_valid := false; intent_to_add := false; skip_worktree := skip;
     stat := {| ctime := zero_time; mtime := {| ts_seconds := 70000; ts_nanoseconds := 5 |}; device := 1; inode := 2; uid := 3; gid := 4; stat_size := 4000000000 |} |}.
Definition sample_index : Index :=
  {| i_format := FSha1; version := V4; original := None; entries := [sample_entry "a-b" Ours true; sample_entry "a-b" Theirs true; sample_entry "a/b" Normal false; sample_entry "a/c" Normal true];
     extensions := [{| signature := TREE; ext_data := [1; 2; 3] |}] |}.

Lemma sample_limits_ok : limits_ok default_limits.
Proof. split; [by vm_compute|by vm_compute]. Qed.

Lemma sample_entry_typed p s skip : typed (sample_entry p s skip).
Proof. split; [split; [by apply bytes_ok_check|done]|]. repeat (apply Forall_cons_2; [by vm_compute|]). apply Forall_nil_2. Qed.

Lemma sample_index_shape : shape default_limits sample_index.
Proof.
  split.
  - apply validate_entries_exact. vm_compute. reflexivity.
  - repeat (apply Forall_cons_2; [split; [apply sample_entry_typed|done]|]). apply Forall_nil_2.
  - apply Forall_cons_2; [|apply Forall_nil_2]. split_and!; [done|by vm_compute|left; by exists 84].
  - split; [by vm_compute|apply Forall_nil_2].
  - intros e _ He. repeat (apply elem_of_cons in He as [-> |He]; [done|]). by apply not_elem_of_nil in He.
Qed.

Lemma encoded_len_exact_witness : encoded_len sample_index default_limits = Ok 311 /\
  exists bs, encode (sample_sum 20) (sample_sum 32) sample_index default_limits = Ok bs /\ zlen bs = 311 /\ 311 <= max_bytes default_limits.
Proof.
  split; [vm_compute; reflexivity|].
  apply (encoded_len_exact (sample_sum 20) (sample_sum 32) (sample_sum_ok 20) (sample_sum_ok 32) default_limits sample_index 311 sample_limits_ok sample_index_shape); [reflexivity|vm_compute; reflexivity].
Defined.
End IndexRoundtrip.
