(* ===== verification/IndexParse.v ===== *)
(** * What reading an index returns

    On any bytes, reading ends with an index whose entries and extensions are well formed or
    with an error that is not a panic. *)

From stdpp Require Import base list numbers strings sets sorting.
From Stdlib Require Import ZArith Lia.
From S2P Require Import Prelude Objects IndexFile IndexValid IndexEntry IndexRoundtrip.

Module IndexParse.
Import Objects IndexFile IndexValid IndexEntry IndexRoundtrip.

(** A result that is an expected value or an ordinary error. *)
Definition yields {A} (P : A -> Prop) (r : result Error A) : Prop := match r with Ok a => P a | Err e => e <> Panic end.

Lemma yields_bind {A B} (P : A -> Prop) (Q : B -> Prop) r k : yields P r -> (forall a, P a -> yields Q (k a)) -> yields Q (rbind r k).
Proof. destruct r; cbn; auto. Qed.
Lemma yields_weaken {A} (P Q : A -> Prop) r : yields P r -> (forall a, P a -> Q a) -> yields Q r.
Proof. destruct r; cbn; auto. Qed.
Lemma yields_ok_or {A} (o : option A) e (P : A -> Prop) : e <> Panic -> (forall a, o = Some a -> P a) -> yields P (ok_or o e).
Proof. destruct o; cbn; auto. Qed.
Lemma yields_count a m r : yields (fun _ => a <= m) (check_count a m r).
Proof. unfold check_count. destruct (Z.ltb_spec m a); cbn; [done|lia]. Qed.

(** ** Integers *)

Lemma word_yields bs i : bytes_ok bs -> yields u32_ok (word bs i).
Proof.
  intros Hb. apply yields_ok_or; [done|]. intros w (raw & Hr & ->)%fmap_Some. pose proof (bytes_ok_slice _ _ _ _ Hb Hr) as Hb'.
  apply be_decode_bound in Hb'. apply slice_zlen in Hr. rewrite Hr in Hb'. unfold u32_ok. replace (i + 4 - i) with 4 in Hb' by lia. done.
Qed.

Lemma read_varint_loop_yields fuel bs cursor value : 0 <= cursor -> 1 <= Z.of_nat fuel -> zlen bs - cursor < Z.of_nat fuel ->
  yields (fun r => 0 <= r.2) (read_varint_loop fuel bs cursor value).
Proof.
  revert cursor value. induction fuel as [|fuel IH]; intros cursor value Hc H1 Hf; [lia|]. cbn [read_varint_loop].
  eapply yields_bind; [apply (yields_ok_or _ _ (fun _ => cursor < zlen bs)); [done|]; intros b ?%zget_lt; lia|]. cbv beta. intros b Hb.
  eapply yields_bind; [by apply (yields_ok_or _ _ (fun _ => True))|]. intros v _. destruct (_ =? 0); [cbn; lia|].
  eapply yields_bind; [by apply (yields_ok_or _ _ (fun _ => True))|]. intros w _. apply IH; lia.
Qed.

Lemma read_varint_yields bs cursor : 0 <= cursor -> yields (fun r => 0 <= r.2) (read_varint bs cursor).
Proof. intros H. apply read_varint_loop_yields; unfold zlen; lia. Qed.

(** ** Entries *)

Lemma read_stat_yields fixed : bytes_ok fixed -> yields (fun s => Forall u32_ok (stat_words s)) (read_stat fixed).
Proof.
  intros Hb. unfold read_stat. do 9 (eapply yields_bind; [by apply word_yields|intros ? ?]). cbn. repeat (apply Forall_cons_2; [done|]). apply Forall_nil_2.
Qed.

Lemma extended_flags_yields v bs flags position start : 0 <= start -> yields (fun r => 0 <= r.2 /\ (v = V2 -> r.1 = 0)) (extended_flags v bs flags position start).
Proof.
  intros Hs. unfold extended_flags. destruct (_ =? 0); [done|]. case_bool_decide; [done|]. eapply yields_bind; [by apply (yields_ok_or _ _ (fun _ => True))|].
  intros raw _. destruct (negb _); [done|]. cbn. split; [lia|done].
Qed.

Lemma shared_prefix_yields v bs previous start : 0 <= start -> yields (fun r => 0 <= r.2) (shared_prefix v bs previous start).
Proof.
  intros Hs. unfold shared_prefix. case_bool_decide; [|done]. eapply yields_bind; [by apply read_varint_yields|]. intros [remove cursor] Hc.
  eapply yields_bind; [by apply (yields_ok_or _ _ (fun _ => True))|]. intros prefix _. done.
Qed.

Lemma from_bytes_ok fmt raw id : bytes_ok raw -> from_bytes fmt raw = Ok id -> id_ok id /\ id_format id = fmt.
Proof. intros Hb. destruct fmt; cbn; case_match eqn:E; intros [= <-]; apply Z.eqb_eq in E; done. Qed.

Lemma parse_entry_yields fmt bs start position limits v previous : bytes_ok bs -> 0 <= start -> yields (fun r => fits v r.1 /\ 0 <= r.2) (parse_entry fmt bs start position limits v previous).
Proof.
  intros Hb Hs. unfold parse_entry. pose proof (digest_len_cases fmt) as Hd.
  eapply yields_bind; [apply (yields_ok_or _ _ bytes_ok); [done|]; intros all H; by eapply bytes_ok_slice|]. intros all Hall.
  eapply yields_bind; [apply (yields_ok_or _ _ (fun r => bytes_ok r.1)); [done|]; intros [fx fl] [-> _]%split_at_checked_Some; by apply bytes_ok_app in Hall as [? _]|].
  intros [fixed flags] Hfx. cbn [fst] in Hfx. eapply yields_bind; [by apply word_yields|]. intros mw _. eapply yields_bind; [by apply (yields_ok_or _ _ (fun _ => True))|]. intros m _.
  eapply yields_bind; [apply extended_flags_yields; lia|]. intros [more start1] [H1 Hv2]. cbn [fst snd] in H1, Hv2.
  eapply yields_bind; [by apply shared_prefix_yields|]. intros [prefix start2] H2. cbn [snd] in H2. eapply yields_bind; [apply yields_count|]. intros _ _.
  eapply yields_bind; [by apply (yields_ok_or _ _ (fun _ => True))|]. intros searched _.
  eapply yields_bind; [apply (yields_ok_or _ _ (fun _ => True)); [by destruct (_ <? _)|done]|]. intros n _.
  destruct (negb _); [done|]. cbv zeta. set (stop := if bool_decide (v = V4) then _ else _).
  eapply yields_bind; [apply (yields_ok_or _ _ (fun _ => 0 <= stop)); [done|]; intros pad (? & ? & _)%slice_Some; lia|].
  intros pad Hstop. destruct (existsb _ pad); [done|].
  eapply yields_bind; [apply (yields_ok_or _ _ (fun i => id_ok i)); [done|]|].
  { intros i (raw & Hr & Hi)%bind_Some. destruct (from_bytes fmt raw) eqn:Ei; [|done]. injection Hi as <-. apply from_bytes_ok in Ei as [? _]; [done|]. by eapply bytes_ok_slice. }
  intros i Hi. eapply yields_bind; [by apply read_stat_yields|]. intros st Hst. cbn [yields fst snd]. split; [|done]. split; [done|]. intros Hv. unfold extended. cbn.
  by rewrite (Hv2 Hv).
Qed.

Lemma parse_entries_yields n fmt bs limits v cursor position es : bytes_ok bs -> 0 <= cursor -> Forall (fits v) es ->
  yields (fun r => Forall (fits v) r.1 /\ 0 <= r.2) (parse_entries n fmt bs limits v cursor position es).
Proof.
  intros Hb. revert cursor position es. induction n as [|n IH]; intros cursor position es Hc Hes; cbn [parse_entries]; [done|].
  eapply yields_bind; [by apply parse_entry_yields|]. intros [e cursor'] [He Hc']. cbn [fst snd] in *. apply IH; [done|]. apply Forall_app. split; [done|by constructor].
Qed.

(** ** Extensions *)

Definition read_ext (x : Extension) : Prop := ext_ok x /\ bytes_ok (ext_data x).

Lemma parse_extensions_yields fuel content limits cursor xs : bytes_ok content -> 0 <= cursor -> zlen content - cursor <= Z.of_nat fuel -> Forall read_ext xs ->
  yields (fun r => Forall read_ext r.1) (parse_extensions fuel content limits cursor xs).
Proof.
  intros Hb. revert cursor xs. induction fuel as [|fuel IH]; intros cursor xs Hc Hf Hxs; cbn [parse_extensions]; (destruct (Z.leb_spec (zlen content) cursor); [done|]); [lia|].
  eapply yields_bind; [apply yields_count|]. intros _ _.
  eapply yields_bind; [apply (yields_ok_or _ _ (fun h => zlen h = 8)); [done|]; intros h Hh%slice_zlen; lia|]. cbv beta. intros h Hh.
  assert (zlen (take 4 h) = 4) as Hsig by (unfold zlen in *; rewrite length_take_le; lia). destruct (zget_is_Some 0 (take 4 h)) as [b Eb]; [lia|]. rewrite Eb. cbn [ok_or rbind].
  destruct (negb (is_upper b) && negb (one_of [link; sdir] (take 4 h))) eqn:Ek; [done|].
  eapply yields_bind; [by apply word_yields|]. intros len Hlen. unfold u32_ok in Hlen.
  eapply yields_bind; [apply (yields_ok_or _ _ (fun d => zlen d = len /\ bytes_ok d)); [done|]; intros d Hd; split; [apply slice_zlen in Hd; lia|by eapply bytes_ok_slice]|]. intros data [Hdata Hdb].
  apply IH; [lia..|]. apply Forall_app. split; [done|]. constructor; [|done]. split; [|done]. split_and!; cbn; [done|unfold u32_max; lia|].
  apply andb_false_iff in Ek as [Ek%negb_false_iff|Ek%negb_false_iff]; [left; by exists b|right]. apply one_of_true in Ek. set_solver.
Qed.

(** ** The bitmaps of a split file *)

(** Ascending positions below a bound. *)
Definition ascending (bound : Z) (l : list Z) : Prop := StronglySorted Z.lt l /\ Forall (fun p => 0 <= p < bound) l.

Lemma ascending_mono a b l : a <= b -> ascending a l -> ascending b l.
Proof. intros H [Hs Hl]. split; [done|]. eapply Forall_impl; [exact Hl|]. cbn. lia. Qed.

Lemma ascending_app bound mid l1 l2 : ascending mid l1 -> ascending bound l2 -> Forall (fun p => mid <= p) l2 -> mid <= bound -> ascending bound (l1 ++ l2).
Proof.
  intros [Hs1 H1] [Hs2 H2] Hm Hb. split; [apply StronglySorted_app; split_and!; [|done..]|apply Forall_app; split; [|done]; eapply Forall_impl; [exact H1|]; cbn; lia].
  intros a b Ha Hb'. rewrite Forall_forall in H1, Hm. specialize (H1 a Ha). specialize (Hm b Hb'). cbn in *. lia.
Qed.

Lemma ascending_seqZ a n : 0 <= a -> 0 <= n -> ascending (a + n) (seqZ a n).
Proof.
  intros Ha Hn. split; [|apply Forall_seqZ; intros; lia]. revert a Ha. pattern n. apply natlike_ind; [constructor| |done].
  clear n Hn. intros n Hn IH a Ha. rewrite seqZ_cons by lia. constructor; [rewrite Z.pred_succ; apply IH; lia|]. apply Forall_seqZ. intros; lia.
Qed.

Lemma literal_bits_yields n value bit offset bits output : 0 <= offset -> 0 <= bit -> ascending (Z.min bits (offset + bit)) output ->
  yields (ascending (Z.min bits (offset + bit + Z.of_nat n))) (literal_bits n value bit offset bits output).
Proof.
  intros Ho. revert bit output. induction n as [|n IH]; intros bit output Hb Ha; cbn [literal_bits].
  { cbn [yields]. by replace (offset + bit + Z.of_nat 0) with (offset + bit) by lia. }
  replace (offset + bit + Z.of_nat (S n)) with (offset + (bit + 1) + Z.of_nat n) by lia. destruct (Z.testbit value bit).
  - eapply yields_bind; [apply (yields_ok_or _ _ (fun p => p = offset + bit)); [done|]; by intros p [? _]%checked_add_Some|]. intros p ->.
    destruct (Z.leb_spec bits (offset + bit)); [done|]. apply IH; [lia|]. eapply (ascending_app _ (Z.min bits (offset + bit))); [done| | |lia].
    + split; repeat constructor; lia.
    + repeat constructor. lia.
  - apply IH; [lia|]. eapply ascending_mono; [|exact Ha]. lia.
Qed.

Lemma bitmap_literals_yields n data bits index offset output : 0 <= offset -> 0 <= index -> ascending (Z.min bits offset) output ->
  yields (fun r => index + Z.of_nat n = r.1.1 /\ 0 <= r.1.2 /\ ascending (Z.min bits r.1.2) r.2) (bitmap_literals n data bits index offset output).
Proof.
  revert index offset output. induction n as [|n IH]; intros index offset output Ho Hi Ha; cbn [bitmap_literals]; [cbn [yields fst snd]; split; [lia|by split]|].
  eapply yields_bind; [by apply (yields_ok_or _ _ (fun _ => True))|]. intros value _.
  eapply yields_bind; [apply literal_bits_yields; [done|lia|by rewrite Z.add_0_r]|]. intros out Hout. rewrite Z.add_0_r in Hout. change (Z.of_nat 64) with 64 in Hout.
  eapply yields_bind; [apply (yields_ok_or _ _ (fun o => o = offset + 64)); [done|]; by intros o [? _]%checked_add_Some|]. intros o ->.
  destruct (_ <? _); [done|]. eapply yields_weaken; [apply IH; [lia|lia|done]|]. intros [[i o] out'] (H1 & H2 & H3). cbn [fst snd] in *. split; [lia|by split].
Qed.

Lemma bitmap_runs_yields fuel data bits words index offset last_run output : bytes_ok data -> 0 <= bits -> 0 <= offset -> 0 <= index -> words - index <= Z.of_nat fuel -> ascending (Z.min bits offset) output ->
  yields (fun r => ascending bits r.2) (bitmap_runs fuel data bits words index offset last_run output).
Proof.
  intros Hd Hbits. revert index offset last_run output. induction fuel as [|fuel IH]; intros index offset last_run output Ho Hi Hf Ha; cbn [bitmap_runs];
    (destruct (Z.leb_spec words index); [cbn; eapply ascending_mono; [|exact Ha]; lia|]); [lia|].
  eapply yields_bind; [apply (yields_ok_or _ _ (fun run => 0 <= run)); [done|]|].
  { intros run (raw & Hr & ->)%fmap_Some. pose proof (bytes_ok_slice _ _ _ _ Hd Hr) as Hb. apply be_decode_bound in Hb. lia. }
  cbv beta. intros run Hrun. pose proof (Z.land_nonneg (Z.shiftr run 1) 0xffffffff) as Hrep. set (repeats := Z.land (Z.shiftr run 1) 0xffffffff) in *. assert (0 <= repeats) by (apply Hrep; right; lia).
  eapply yields_bind; [apply (yields_ok_or _ _ (fun b => b = repeats * 64)); [done|]; by intros b [? _]%checked_mul_Some|]. intros rb ->.
  eapply yields_bind; [apply (yields_ok_or _ _ (fun n => n = offset + repeats * 64)); [done|]; by intros b [? _]%checked_add_Some|]. intros next ->.
  destruct (_ || _); [done|]. eapply (yields_bind (ascending (Z.min bits (offset + repeats * 64)))).
  { destruct (Z.testbit run 0); [|cbn; eapply ascending_mono; [|exact Ha]; lia]. destruct (Z.ltb_spec bits (offset + repeats * 64)); [done|]. cbn [yields].
    replace (offset + repeats * 64 - offset) with (repeats * 64) by lia. eapply (ascending_app _ (Z.min bits offset)); [done| | |lia].
    - rewrite Z.min_r by lia. apply ascending_seqZ; lia.
    - apply Forall_seqZ. intros; lia. }
  intros out Hout. eapply yields_bind; [apply bitmap_literals_yields; [lia|lia|done]|]. intros [[i o] out'] (H1 & H2 & H3). cbn [fst snd] in *. apply IH; [lia..|done].
Qed.

Lemma read_u32_yields bs cursor : bytes_ok bs -> yields (fun r => 0 <= r.1) (read_u32 bs cursor).
Proof.
  intros Hb. eapply yields_bind; [apply (yields_ok_or _ _ (fun raw => bytes_ok raw)); [done|]; intros raw Hr; by eapply bytes_ok_slice|].
  intros raw Hr. cbn. apply be_decode_bound in Hr. lia.
Qed.

Lemma bitmap_yields bs cursor maximum : bytes_ok bs -> yields (fun r => ascending maximum r.1) (bitmap bs cursor maximum).
Proof.
  intros Hb. unfold bitmap. eapply yields_bind; [by apply read_u32_yields|]. intros [bits c1] Hbits. cbn [fst] in Hbits. destruct (Z.ltb_spec maximum bits); [done|].
  eapply yields_bind; [by apply read_u32_yields|]. intros [words c2] Hwords. cbn [fst] in Hwords. eapply yields_bind; [apply (yields_ok_or _ _ (fun n => n = words * 8)); [done|]; by intros n [? _]%checked_mul_Some|]. intros len ->.
  eapply yields_bind; [apply (yields_ok_or _ _ (fun n => n = c2 + words * 8)); [done|]; by intros n [? _]%checked_add_Some|]. intros stop ->.
  eapply yields_bind; [apply (yields_ok_or _ _ (fun d => bytes_ok d /\ zlen d = words * 8)); [done|]; intros d Hd; split; [by eapply bytes_ok_slice|apply slice_zlen in Hd; lia]|]. intros data [Hdb Hdl].
  eapply yields_bind; [by apply read_u32_yields|]. intros [current c3] _. destruct (_ || _); [done|].
  eapply yields_bind; [apply bitmap_runs_yields; [done|done|lia|lia|unfold zlen in Hdl; lia|by repeat constructor]|].
  intros [[o lr] out] Hout. cbn [snd] in Hout. destruct (_ || _); [done|]. cbn. eapply ascending_mono; [|exact Hout]. lia.
Qed.

(** ** Files *)

(** What [parse_file] promises of the index it returns. *)
Record file_ok (fmt : ObjectFormat) (limits : Limits) (bs : bytes) (x : Index) : Prop := {
  fo_format : i_format x = fmt;
  fo_original : original x = Some bs;
  fo_fits : Forall (fits (version x)) (entries x);
  fo_extensions : Forall read_ext (extensions x);
  fo_marks : zlen (sparse_marks (extensions x)) <= 1 /\ Forall (fun e => ext_data e = []) (sparse_marks (extensions x));
  fo_marked e : e ∈ entries x -> mode e = SparseDirectory -> sparse_marks (extensions x) <> [];
  fo_valid : has link (extensions x) = false -> valid fmt limits (entries x)
}.

Lemma marks_inv xs : (1 <? zlen (sparse_marks xs)) || match sparse_marks xs with m :: _ => negb (bytes_eqb (ext_data m) []) | [] => false end = false ->
  zlen (sparse_marks xs) <= 1 /\ Forall (fun e => ext_data e = []) (sparse_marks xs).
Proof.
  intros [H1%Z.ltb_ge H2]%orb_false_iff. split; [done|]. destruct (sparse_marks xs) as [|m [|m' ms]]; [constructor|apply negb_false_iff, bytes_eqb_eq in H2; by repeat constructor|].
  rewrite !zlen_cons in H1. pose proof (zlen_nonneg ms). lia.
Qed.

Lemma marked_inv es xs : existsb (fun e => bool_decide (mode e = SparseDirectory)) es && match sparse_marks xs with [] => true | _ => false end = false ->
  forall e, e ∈ es -> mode e = SparseDirectory -> sparse_marks xs <> [].
Proof.
  intros H e He Hm Hn. rewrite Hn, andb_true_r in H. apply existsb_false in H. rewrite Forall_forall in H. specialize (H e He). by apply bool_decide_eq_false in H.
Qed.

Lemma validate_yields fmt es limits : yields (fun _ => valid fmt limits es) (validate_entries fmt es limits).
Proof.
  pose proof (validate_entries_exact fmt es limits) as H. destruct (validate_entries fmt es limits) as [[]|e] eqn:E; [by apply H|]. cbn. intros ->. clear H. unfold validate_entries in E.
  destruct (check_each fmt limits 0 None es) as [[]|e] eqn:E1; cbn [rbind] in E.
  - clear E1. revert E. generalize 0, (@nil Z), (@nil (Z * Z)). generalize es at 1 as all. induction es as [|e es IH]; intros all position prev anc; cbn [check_collisions]; [done|].
    destruct (_ && _); [done|]. cbv zeta. destruct (existsb _ _); [done|]. apply IH.
  - injection E as ->. revert E1. generalize 0, (@None Entry). induction es as [|e es IH]; intros position previous; cbn [check_each]; [done|].
    destruct (check_entry fmt limits position e) as [[]|x] eqn:Ee; cbn [rbind].
    + destruct (check_order position previous e) as [[]|x] eqn:Eo; cbn [rbind]; [apply IH|]. intros [= ->]. unfold check_order in Eo. repeat case_match; done.
    + intros [= ->]. unfold check_entry, map_err, require_format, check_count, ok_or in Ee. repeat (case_match; cbn [rbind ok_or] in *; try done).
Qed.

(** ** Shared files *)

Lemma is_deleted_exact bound deleted p : ascending bound deleted -> is_deleted deleted p = true <-> p ∈ deleted.
Proof.
  intros [Hs _]. unfold is_deleted. set (f := fun k => _). split.
  - destruct (bsearch _ _ _ _) as [k|] eqn:E; [|done]. intros _. apply bsearch_Some in E as [_ E]. unfold f in E. destruct (zget k deleted) as [d|] eqn:Ek; [|done].
    apply Z.compare_eq_iff in E as ->. apply zget_Some in Ek as [_ ?]. by eapply list_elem_of_lookup_2.
  - intros [k Hk]%list_elem_of_lookup. destruct (bsearch _ _ _ _) as [m|] eqn:E; [done|]. exfalso.
    assert (forall i j x y, i < j -> zget i deleted = Some x -> zget j deleted = Some y -> x < y) as Hlt by (intros; by eapply (StronglySorted_zget Z.lt deleted i j)).
    assert (zget (Z.of_nat k) deleted = Some p) as Hz by (apply zget_Some; split; [lia|]; by rewrite Nat2Z.id).
    eapply (bsearch_None _ f _ _) with (i := Z.of_nat k) in E; [|unfold zlen; lia|..|pose proof (zget_lt _ _ _ Hz); lia].
    + apply E. unfold f. rewrite Hz. apply Z.compare_refl.
    + intros i j Hij Hj. unfold f. destruct (zget_is_Some i deleted) as [a Ha]; [lia|]. destruct (zget_is_Some j deleted) as [b Hb]; [lia|]. rewrite Ha, Hb, !Z.compare_lt_iff.
      specialize (Hlt i j a b ltac:(lia) Ha Hb). lia.
    + intros i j Hij Hj. unfold f. destruct (zget_is_Some i deleted) as [a Ha]; [lia|]. destruct (zget_is_Some j deleted) as [b Hb]; [lia|]. rewrite Ha, Hb, !Z.compare_gt_iff.
      specialize (Hlt i j a b ltac:(lia) Ha Hb). lia.
Qed.

Lemma kept_spec bound deleted position base e : ascending bound deleted ->
  e ∈ kept position deleted base <-> exists k, base !! k = Some e /\ position + Z.of_nat k ∉ deleted.
Proof.
  intros Hd. revert position. induction base as [|b base IH]; intros position; cbn [kept].
  { split; [by intros ?%not_elem_of_nil|]. by intros (k & ? & _). }
  assert (e ∈ kept (position + 1) deleted base <-> exists k, (b :: base) !! S k = Some e /\ position + Z.of_nat (S k) ∉ deleted) as Hrest.
  { rewrite IH. cbn [lookup list_lookup]. split; intros (k & ? & ?); exists k; (split; [done|]); [replace (position + Z.of_nat (S k)) with (position + 1 + Z.of_nat k) by lia|replace (position + 1 + Z.of_nat k) with (position + Z.of_nat (S k)) by lia]; done. }
  pose proof (is_deleted_exact bound deleted position Hd) as Hx. destruct (is_deleted deleted position) eqn:E; rewrite ?elem_of_cons, Hrest; clear Hrest.
  - split; [intros (k & ?); by exists (S k)|]. intros ([|k] & H & Hn); [|by exists k]. replace (position + Z.of_nat 0) with position in Hn by lia. by destruct Hn; apply Hx.
  - split; [intros [-> |(k & ?)]; [exists 0%nat|by exists (S k)]|intros ([|k] & H & Hn); [left; by injection H|right; by exists k]].
    split; [done|]. rewrite Z.add_0_r. intros Hin. apply Hx in Hin. done.
Qed.

(** A replacement entry; an empty path stands for that of the entry it replaces. *)
Definition fill (slot e : Entry) : Entry :=
  if bytes_eqb (path e) [] then {| path := path slot; mode := mode e; e_id := e_id e; stage := stage e; assume_valid := assume_valid e;
    intent_to_add := intent_to_add e; skip_worktree := skip_worktree e; stat := stat e |} else e.

(** The shared entry at a position, replaced when the second bitmap names it. *)
Definition merged (replaced : list Z) (drafts base : list Entry) (k : nat) : option Entry :=
  slot ← base !! k;
  match position (fun p => p =? Z.of_nat k) replaced with
  | Some j => fill slot <$> drafts !! j
  | None => Some slot
  end.

Lemma position_absent k l : k ∉ l -> position (fun p => p =? k) l = None.
Proof. intros H. apply position_None, Forall_forall. intros p Hp. apply Z.eqb_neq. by intros ->. Qed.

Lemma replace_shared_spec replaced drafts base : StronglySorted Z.lt replaced -> Forall (fun p => 0 <= p) replaced -> (length replaced <= length drafts)%nat ->
  forall additions base', replace_shared replaced drafts base = Ok (additions, base') ->
    additions = drop (length replaced) drafts /\ length base' = length base /\ forall k, base' !! k = merged replaced drafts base k.
Proof.
  revert drafts base. induction replaced as [|p replaced IH]; intros drafts base Hs H0 Hl additions base'; cbn [replace_shared].
  { intros [<- <-]%ok_inj%pair_equal_spec. split_and!; [done|done|]. intros k. unfold merged. cbn [position]. by destruct (base !! k). }
  destruct drafts as [|d drafts]; cbn [length] in Hl; [lia|]. intros H. apply rbind_Ok in H as (slot & Hslot%ok_or_Ok & H). fold (fill slot d) in H.
  apply StronglySorted_inv in Hs as [Hs Hp]. apply Forall_cons in H0 as [Hp0 H0]. apply zget_Some in Hslot as [_ Hslot]. pose proof (lookup_lt_Some _ _ _ Hslot) as Hlt.
  destruct (IH drafts (<[Z.to_nat p := fill slot d]> base) Hs H0 ltac:(lia) additions base' H) as (-> & Hlen & Hk). rewrite length_insert in Hlen. split_and!; [done|done|].
  intros k. rewrite Hk. unfold merged. destruct (decide (k = Z.to_nat p)) as [-> |Hne].
  - rewrite list_lookup_insert_eq, Hslot by done. cbn [mbind option_bind position]. rewrite Z2Nat.id, Z.eqb_refl by done.
    rewrite position_absent; [done|]. rewrite Forall_forall in Hp. intros Hin. specialize (Hp p Hin). lia.
  - rewrite list_lookup_insert_ne by done. destruct (base !! k) as [s|]; [|done]. cbn [mbind option_bind position]. destruct (Z.eqb_spec p (Z.of_nat k)); [lia|].
    destruct (position _ replaced) as [j|]; done.
Qed.

Section Digest.
Context (sha1 sha256 : bytes -> bytes).

Lemma parse_file_yields fmt bs limits : bytes_ok bs -> yields (file_ok fmt limits bs) (parse_file sha1 sha256 fmt bs limits).
Proof.
  intros Hb. unfold parse_file. eapply yields_bind; [apply yields_count|]. intros _ _. destruct ((zlen bs <? _) || _) eqn:Elen; [done|]. clear Elen.
  eapply yields_bind; [by apply word_yields|]. intros vw _. eapply (yields_bind (fun _ => True)); [by repeat case_match|]. intros v _.
  eapply yields_bind; [apply (yields_ok_or _ _ (fun r => bytes_ok r.1)); [done|]; intros [c t] [-> _]%split_at_checked_Some; by apply bytes_ok_app in Hb as [? _]|].
  intros [content sum] Hc. cbn [fst] in Hc. destruct (bytes_eqb _ sum); cbn [negb]; [|done]. eapply yields_bind; [by apply word_yields|]. intros count _. eapply yields_bind; [apply yields_count|]. intros _ _.
  destruct (_ <? count); [done|]. eapply yields_bind; [apply parse_entries_yields; [done|lia|constructor]|]. intros [es cursor] [Hes Hcur]. cbn [fst snd] in *.
  eapply yields_bind; [apply parse_extensions_yields; [done|done|unfold zlen; lia|constructor]|]. intros [xs cursor'] Hxs. cbn [fst] in Hxs. fold (sparse_marks xs).
  destruct ((1 <? zlen (sparse_marks xs)) || _) eqn:Em; [done|]. apply marks_inv in Em. destruct (existsb _ es && _) eqn:Ek; [done|]. pose proof (marked_inv _ _ Ek) as Hk.
  eapply (yields_bind (fun _ => has link xs = false -> valid fmt limits es)); [destruct (has link xs); [done|]; eapply yields_weaken; [apply validate_yields|]; auto|].
  intros _ Hv. by split.
Qed.

(** ** Resolved indexes *)

(** What every index that was read promises. *)
Record read_ok (fmt : ObjectFormat) (limits : Limits) (bs : bytes) (x : Index) : Prop := {
  ro_format : i_format x = fmt;
  ro_original : original x = Some bs;
  ro_valid : valid fmt limits (entries x);
  ro_typed : Forall typed (entries x);
  ro_extensions : Forall ext_ok (extensions x);
  ro_marks : zlen (sparse_marks (extensions x)) <= 1 /\ Forall (fun e => ext_data e = []) (sparse_marks (extensions x));
  ro_standalone : has link (extensions x) = false -> shape limits x
}.

Lemma fill_typed slot e : typed e -> typed (fill slot e).
Proof. unfold fill. by destruct (bytes_eqb (path e) []). Qed.

Lemma replace_shared_yields replaced drafts base : Forall typed drafts -> Forall typed base ->
  yields (fun r => Forall typed r.1 /\ Forall typed r.2) (replace_shared replaced drafts base).
Proof.
  revert drafts base. induction replaced as [|p replaced IH]; intros drafts base Hd Hb; cbn [replace_shared]; [done|]. destruct drafts as [|d drafts]; [done|].
  apply Forall_cons in Hd as [Hd Hds]. eapply yields_bind; [by apply (yields_ok_or _ _ (fun _ => True))|]. intros slot _. fold (fill slot d). apply IH; [done|]. apply Forall_insert; [done|]. by apply fill_typed.
Qed.

Lemma kept_Forall (P : Entry -> Prop) position deleted base : Forall P base -> Forall P (kept position deleted base).
Proof. intros H. revert position. induction H as [|b base Hb _ IH]; intros position; cbn [kept]; [constructor|]. destruct (is_deleted _ _); [done|by constructor]. Qed.

Lemma resolve_yields parse fmt limits bs x shared : file_ok fmt limits bs x ->
  (forall sbs, shared = Some sbs -> yields (fun base => Forall typed (entries base)) (parse sbs)) ->
  yields (read_ok fmt limits bs) (resolve_shared_with parse x shared limits).
Proof.
  intros F Hparse. unfold resolve_shared_with. assert (Forall ext_ok (extensions x)) as Hx by (eapply Forall_impl; [apply (fo_extensions _ _ _ _ F)|by intros e []]).
  assert (Forall typed (entries x)) as Ht by (eapply Forall_impl; [apply (fo_fits _ _ _ _ F)|by intros e []]).
  destruct (filter _ _) as [|l [|]] eqn:El; [| |done].
  { apply filter_link_nil in El. pose proof (fo_valid _ _ _ _ F El) as Hv. cbn [yields]. pose proof (fo_format _ _ _ _ F) as Hf. split; try apply F; try done. intros _. split; try apply F; [by rewrite Hf|done|]. intros e _. apply F. }
  assert (l ∈ extensions x /\ has link (extensions x) = true) as [Hl Hlink].
  { assert (l ∈ filter (fun e => bytes_eqb (signature e) link = true) (extensions x)) as [Hs Hin]%list_elem_of_filter by (rewrite El; by left).
    split; [done|]. apply existsb_exists. exists l. by rewrite <- list_elem_of_In. }
  pose proof (fo_extensions _ _ _ _ F) as Hxb. rewrite Forall_forall in Hxb. destruct (Hxb l Hl) as [_ Hdb].
  eapply yields_bind; [by apply (yields_ok_or _ _ (fun _ => True))|]. intros hash _.
  eapply (yields_bind (fun _ => True)); [destruct (from_bytes _ hash); done|]. intros id _.
  eapply (yields_bind (fun base => Forall typed (entries base))).
  { case_bool_decide; [by cbn|]. eapply yields_bind; [apply (yields_ok_or _ _ (fun b => shared = Some b)); done|]. intros sbs Hsbs. destruct (_ <? _); [done|].
    eapply yields_bind; [by apply Hparse|]. intros base Hbase. destruct (has link (extensions base)); [done|]. by destruct (ends_with hash sbs). }
  intros base Hbase. eapply (yields_bind (fun _ => True)).
  { destruct (_ && _); [done|]. eapply yields_bind; [by apply bitmap_yields|]. intros [d c] _. eapply yields_bind; [by apply bitmap_yields|]. by intros [r c'] _. }
  intros [[deleted replaced] cursor] _. destruct (negb _); [done|]. destruct (_ <? zlen replaced); [done|].
  eapply yields_bind; [by apply replace_shared_yields|]. intros [additions base'] [Ha Hb']. cbn [fst snd] in *.
  eapply yields_bind; [by apply (yields_ok_or _ _ (fun _ => True))|]. intros count _. destruct (_ <? count); [done|].
  eapply yields_bind; [apply validate_yields|]. intros _ _. eapply yields_bind; [apply validate_yields|]. intros u Hv. rewrite (fo_format _ _ _ _ F) in *.
  split; cbn; try apply F; try done.
  - rewrite sort_by_perm. apply Forall_app. split; [by apply kept_Forall|done].
  - intros Hn. change (has link (extensions x) = false) in Hn. congruence.
Qed.

Lemma parse_with_shared_yields fmt bs shared limits : bytes_ok bs -> (forall sbs, shared = Some sbs -> bytes_ok sbs) ->
  yields (read_ok fmt limits bs) (parse_with_shared sha1 sha256 fmt bs shared limits).
Proof.
  intros Hb Hs. unfold parse_with_shared. eapply yields_bind; [by apply parse_file_yields|]. intros x F. apply resolve_yields; [done|]. intros sbs Hsbs. unfold parse_shared.
  eapply yields_bind; [by apply (parse_file_yields fmt), Hs|]. intros y Fy. eapply yields_weaken; [by eapply resolve_yields|]. intros z R. apply R.
Qed.

Lemma resolve_keeps parse x shared limits x' : resolve_shared_with parse x shared limits = Ok x' -> extensions x' = extensions x /\ i_format x' = i_format x.
Proof.
  unfold resolve_shared_with. destruct (filter _ _) as [|l [|]]; [by intros <-%ok_inj| |done]. intros H.
  apply rbind_Ok in H as (hash & _ & H). apply rbind_Ok in H as (id & _ & H). apply rbind_Ok in H as (base & _ & H). apply rbind_Ok in H as ([[deleted replaced] cursor] & _ & H).
  destruct (negb _); [done|]. destruct (_ <? zlen replaced); [done|]. apply rbind_Ok in H as ([additions base'] & _ & H). apply rbind_Ok in H as (count & _ & H).
  destruct (_ <? count); [done|]. apply rbind_Ok in H as (? & _ & H). apply rbind_Ok in H as (? & _ & <-%ok_inj). done.
Qed.

Lemma find_filter {A} (f : A -> bool) l x r : filter (fun y => f y = true) l = x :: r -> find f l = Some x.
Proof.
  induction l as [|y l IH]; [done|]. rewrite filter_cons. cbn [find]. destruct (decide (f y = true)) as [H|H]; [rewrite H; by intros [= <- _]|].
  apply not_true_iff_false in H as ->. done.
Qed.

(** The entries of an index over a shared file. *)
Lemma resolve_inv parse x shared limits x' l : filter (fun e => bytes_eqb (signature e) link = true) (extensions x) = [l] -> bytes_ok (ext_data l) ->
  resolve_shared_with parse x shared limits = Ok x' -> forall id, slice 0 (digest_len (i_format x)) (ext_data l) = Some (id_bytes id) -> id_ok id -> id_format id = i_format x -> id <> null (i_format x) ->
  exists sbs base deleted replaced cursor, shared = Some sbs /\ parse sbs = Ok base /\ ends_with (id_bytes id) sbs = true /\
    bitmap (ext_data l) (digest_len (i_format x)) (zlen (entries base)) = Ok (deleted, cursor) /\
    bitmap (ext_data l) cursor (zlen (entries base)) = Ok (replaced, zlen (ext_data l)) /\
    forall e, e ∈ entries x' <-> (exists k, merged replaced (entries x) (entries base) k = Some e /\ Z.of_nat k ∉ deleted) \/ e ∈ drop (length replaced) (entries x).
Proof.
  intros El Hdb H id Hid Hok Hf Hn. unfold resolve_shared_with in H. rewrite El, Hid in H. cbn [ok_or rbind] in H. rewrite <- Hf in H at 1. rewrite from_bytes_id in H by done. cbn [map_err rbind] in H.
  apply rbind_Ok in H as (base & Hbase & H). rewrite bool_decide_false in Hbase by done. apply rbind_Ok in Hbase as (sbs & Hsbs%ok_or_Ok & Hbase). destruct (_ <? zlen sbs); [done|].
  apply rbind_Ok in Hbase as (base0 & Hp & Hbase). destruct (has link (extensions base0)); [done|]. destruct (ends_with (id_bytes id) sbs) eqn:He; [|done]. apply ok_inj in Hbase as ->.
  apply rbind_Ok in H as ([[deleted replaced] cursor] & Hbits & H). rewrite bool_decide_false, andb_false_r in Hbits by done.
  apply rbind_Ok in Hbits as ([d c1] & Hd & Hbits). apply rbind_Ok in Hbits as ([r c2] & Hr & [= -> -> ->]). destruct (Z.eqb_spec cursor (zlen (ext_data l))) as [-> |]; [|done]. cbn [negb] in H.
  destruct (Z.ltb_spec (zlen (entries x)) (zlen replaced)) as [|Hlen]; [done|]. apply rbind_Ok in H as ([additions base'] & Hrep & H).
  apply rbind_Ok in H as (count & _ & H). destruct (_ <? count); [done|]. apply rbind_Ok in H as (? & _ & H). apply rbind_Ok in H as (? & _ & <-%ok_inj).
  pose proof (bitmap_yields (ext_data l) (digest_len (i_format x)) (zlen (entries base)) Hdb) as Ad. rewrite Hd in Ad. cbn in Ad.
  pose proof (bitmap_yields (ext_data l) c1 (zlen (entries base)) Hdb) as Ar. rewrite Hr in Ar. cbn in Ar. destruct Ar as [Ar1 Ar2].
  destruct (replace_shared_spec replaced (entries x) (entries base) Ar1) with (additions := additions) (base' := base') as (-> & _ & Hk);
    [eapply Forall_impl; [exact Ar2|]; cbn; lia|unfold zlen in Hlen; lia|done|].
  exists sbs, base, deleted, replaced, c1. split_and!; try done. intros e. cbn [entries]. rewrite sort_by_perm, elem_of_app, (kept_spec _ deleted 0 base' e Ad). setoid_rewrite Hk. done.
Qed.

(** C19: reading an index from any bytes, with or without the shared file it depends on,
    ends in an error of the format or in an index that keeps the file it was read from and
    whose entries are valid, whose fields have the widths of their types and whose
    extensions are known; it never panics. *)
Theorem parse_sound fmt bs shared limits : bytes_ok bs -> (forall sbs, shared = Some sbs -> bytes_ok sbs) ->
  match parse_with_shared sha1 sha256 fmt bs shared limits with Ok x => read_ok fmt limits bs x | Err e => e <> Panic end.
Proof. apply parse_with_shared_yields. Qed.

(** C18: the entries of an index over a shared file are those of the shared file that the
    first bitmap does not delete, each replaced by the next entry of the main file where
    the second bitmap says so (under its own path when that entry has none), and the other
    entries of the main file. *)
Theorem split_entries_exact fmt bs shared limits x id : bytes_ok bs -> parse_with_shared sha1 sha256 fmt bs shared limits = Ok x -> shared_index_id x = Some id ->
  exists main l sbs base deleted replaced cursor, parse_file sha1 sha256 fmt bs limits = Ok main /\ l ∈ extensions x /\ signature l = link /\
    shared = Some sbs /\ parse_shared sha1 sha256 fmt limits sbs = Ok base /\ ends_with (id_bytes id) sbs = true /\
    bitmap (ext_data l) (digest_len fmt) (zlen (entries base)) = Ok (deleted, cursor) /\
    bitmap (ext_data l) cursor (zlen (entries base)) = Ok (replaced, zlen (ext_data l)) /\
    forall e, e ∈ entries x <-> (exists k, merged replaced (entries main) (entries base) k = Some e /\ Z.of_nat k ∉ deleted) \/ e ∈ drop (length replaced) (entries main).
Proof.
  intros Hb Hx Hid. unfold parse_with_shared in Hx. apply rbind_Ok in Hx as (main & Hmain & Hx). pose proof (parse_file_yields fmt bs limits Hb) as F. rewrite Hmain in F. cbn in F.
  pose proof (fo_format _ _ _ _ F) as Hf. destruct (filter (fun e => bytes_eqb (signature e) link = true) (extensions main)) as [|l [|]] eqn:El.
  - unfold resolve_shared_with in Hx. rewrite El in Hx. apply ok_inj in Hx as <-. unfold shared_index_id in Hid. apply bind_Some in Hid as (l & Hl & _).
    apply find_some in Hl as [Hl%list_elem_of_In Hs]. assert (l ∈ filter (fun e => bytes_eqb (signature e) link = true) (extensions main)) as Hin by (by apply list_elem_of_filter). rewrite El in Hin. by apply not_elem_of_nil in Hin.
  - assert (l ∈ extensions main /\ bytes_eqb (signature l) link = true) as [Hl Hs].
    { assert (l ∈ filter (fun e => bytes_eqb (signature e) link = true) (extensions main)) as [? ?]%list_elem_of_filter by (rewrite El; by left). done. }
    assert (extensions x = extensions main /\ i_format x = i_format main) as [Ex Ef] by by apply (resolve_keeps _ _ _ _ _ Hx).
    pose proof (fo_extensions _ _ _ _ F) as Hxb. rewrite Forall_forall in Hxb. destruct (Hxb l Hl) as [_ Hdb].
    unfold shared_index_id in Hid. rewrite Ex, Ef, (find_filter _ _ _ _ El) in Hid. cbn [mbind option_bind] in Hid. apply bind_Some in Hid as (raw & Hraw & Hid).
    destruct (from_bytes (i_format main) raw) as [i|] eqn:Ei; [|done]. cbn [mbind option_bind] in Hid. case_bool_decide as Hn; [done|]. injection Hid as ->.
    pose proof (from_bytes_ok _ _ _ (bytes_ok_slice _ _ _ _ Hdb Hraw) Ei) as [Hok Hif].
    assert (raw = id_bytes id) as -> by (destruct (i_format main); cbn in Ei; case_match; by simplify_eq).
    destruct (resolve_inv _ _ _ _ _ _ El Hdb Hx id Hraw Hok Hif Hn) as (sbs & base & deleted & replaced & cursor & H1 & H2 & H3 & H4 & H5 & H6). rewrite Hf in *.
    exists main, l, sbs, base, deleted, replaced, cursor. rewrite Ex. split_and!; try done. by apply bytes_eqb_eq.
  - unfold resolve_shared_with in Hx. by rewrite El in Hx.
Qed.
End Digest.

(** ** A sample split index: one entry of the shared file, one replaced, one added *)

Definition one_bit (bits bit : Z) : bytes := put_word bits ++ put_word 2 ++ be_encode 8 (Z.shiftl 1 33) ++ be_encode 8 (Z.shiftl 1 bit) ++ put_word 0.
Definition no_bits : bytes := put_word 0 ++ put_word 1 ++ replicate 8 0 ++ put_word 0.
Definition file_of (x : Index) : bytes := match encode (sample_sum 20) (sample_sum 32) x default_limits with Ok bs => bs | Err _ => [] end.
Definition split_over (v : Version) (es : list Entry) (bitmaps : bytes) : Index :=
  {| i_format := FSha1; version := v; original := None; entries := es; extensions := [{| signature := link; ext_data := replicate 20 7 ++ bitmaps |}] |}.
Definition shared_sample : bytes :=
  file_of {| i_format := FSha1; version := V3; original := None; entries := [sample_entry "a" Normal false; sample_entry "b" Normal true; sample_entry "c" Normal false]; extensions := [] |}.
Definition main_sample : bytes := file_of (split_over V3 [sample_entry "" Normal true; sample_entry "d" Normal false] (one_bit 3 0 ++ one_bit 3 2)).
Definition opened_sample : result Error Index := parse_with_shared (sample_sum 20) (sample_sum 32) FSha1 main_sample (Some shared_sample) default_limits.

Lemma split_sample_ok : bytes_ok main_sample /\ bytes_ok shared_sample.
Proof. split; apply bytes_ok_check; vm_compute; reflexivity. Qed.

Lemma parse_sound_witness : bytes_ok main_sample /\ exists x, opened_sample = Ok x /\ read_ok FSha1 default_limits main_sample x.
Proof.
  split; [apply split_sample_ok|]. assert (is_ok opened_sample = true) as E by (vm_compute; reflexivity).
  pose proof (parse_sound (sample_sum 20) (sample_sum 32) FSha1 main_sample (Some shared_sample) default_limits (proj1 split_sample_ok)
    (fun sbs H => eq_ind shared_sample bytes_ok (proj2 split_sample_ok) sbs (f_equal (default []) H))) as H.
  fold opened_sample in H. destruct opened_sample as [x|e]; [|discriminate E]. exists x. split; [reflexivity|exact H].
Defined.

Lemma split_entries_exact_witness : exists x, opened_sample = Ok x /\ map path (entries x) = map bstr ["b"; "c"; "d"] /\
  exists main base (deleted replaced : list Z), forall e, e ∈ entries x <-> (exists k, merged replaced (entries main) (entries base) k = Some e /\ Z.of_nat k ∉ deleted) \/ e ∈ drop (length replaced) (entries main).
Proof.
  assert (match opened_sample with Ok x => map path (entries x) | Err _ => [] end = map bstr ["b"; "c"; "d"]) as E by (vm_compute; reflexivity).
  assert (match opened_sample with Ok x => shared_index_id x | Err _ => None end = Some (Sha1 (replicate 20 7))) as Hid by (vm_compute; reflexivity).
  pose proof (fun x => split_entries_exact (sample_sum 20) (sample_sum 32) FSha1 main_sample (Some shared_sample) default_limits x (Sha1 (replicate 20 7)) (proj1 split_sample_ok)) as H.
  fold opened_sample in H. destruct opened_sample as [x|e]; [|discriminate Hid]. exists x. split; [reflexivity|]. split; [exact E|].
  destruct (H x eq_refl Hid) as (main & l & sbs & base & deleted & replaced & cursor & _ & _ & _ & _ & _ & _ & _ & _ & He). exists main, base, deleted, replaced. exact He.
Defined.
End IndexParse.
