(* ===== verification/IndexEdits.v ===== *)
(** * Edits of an index in memory

    Every way to obtain an index (an empty one, one from entries, one that was read) and
    every edit keeps it well formed, so that what it encodes to is read back as the same
    index.  The last part shows two edits of a split index that do not. *)

From stdpp Require Import base list numbers strings sets sorting.
From Stdlib Require Import ZArith Lia.
From S2P Require Import Prelude Objects IndexFile IndexValid IndexEntry IndexRoundtrip IndexParse.

Module IndexEdits.
Import Objects IndexFile IndexValid IndexEntry IndexRoundtrip IndexParse.

(** ** Validity by neighbours *)

(** Validity as the checks see it: each entry, each pair of neighbours. *)
Lemma valid_checks fmt limits es : valid fmt limits es <->
  Forall (entry_ok fmt limits) es /\ Sorted neighbours es /\ Forall (fun e => ~ conflict es e) es /\ Sorted apart es.
Proof.
  rewrite <- validate_entries_exact. unfold validate_entries. pose proof (check_each_exact fmt limits 0 None es) as He. cbn [app] in He.
  assert (Sorted neighbours es -> StronglySorted entry_lt es) as Hs.
  { intros Hn. apply Sorted_StronglySorted; [apply _|]. apply sorted_pairs. intros l1 a b l2 El. by destruct (proj1 (sorted_pairs _ _) Hn l1 a b l2 El). }
  destruct (check_each fmt limits 0 None es) as [[]|] eqn:E; cbn [rbind].
  - destruct (proj1 He eq_refl) as [Hok Hn]. change [] with (ancestors_of es []) at 2. rewrite check_collisions_exact by auto. tauto.
  - split; [done|]. intros (Hok & Hn & _). assert (Err e = Ok tt :> result Error unit) by (by apply He). done.
Qed.

(** Entries that differ at most in the file metadata. *)
Definition same (a b : Entry) : Prop := with_stat a (stat b) = b.

Lemma same_fields a b : same a b -> path a = path b /\ mode a = mode b /\ e_id a = e_id b /\ stage a = stage b /\ intent_to_add a = intent_to_add b /\ skip_worktree a = skip_worktree b.
Proof. unfold same. by intros <-. Qed.
Lemma same_refl a : same a a.
Proof. unfold same. by destruct a. Qed.

Lemma entry_ok_same fmt limits a b : same a b -> entry_ok fmt limits a -> entry_ok fmt limits b.
Proof. intros (P & M & I & S & T & W)%same_fields. unfold entry_ok, leaf_path. by rewrite P, M, I, S, T, W. Qed.

Lemma Forall2_Forall {A B} (R : A -> B -> Prop) (P : A -> Prop) (Q : B -> Prop) l k : Forall2 R l k -> (forall a b, R a b -> P a -> Q b) -> Forall P l -> Forall Q k.
Proof. intros H HR. induction H as [|a b l k Hab _ IH]; intros HP; [constructor|]. apply Forall_cons in HP as [? ?]. constructor; eauto. Qed.

Lemma Forall2_Sorted {A B} (R : A -> B -> Prop) (P : A -> A -> Prop) (Q : B -> B -> Prop) l k :
  Forall2 R l k -> (forall a b c d, R a b -> R c d -> P a c -> Q b d) -> Sorted P l -> Sorted Q k.
Proof.
  intros H HR. induction H as [|a b l k Hab H IH]; intros Hs; [constructor|]. inversion Hs as [|? ? Hs' Hd]. constructor; [by apply IH|].
  destruct H as [|c d l k Hcd _]; constructor. inversion Hd. eauto.
Qed.

Lemma valid_same fmt limits es es' : Forall2 same es es' -> valid fmt limits es -> valid fmt limits es'.
Proof.
  intros H. rewrite !valid_checks. intros (H1 & H2 & H3 & H4). split_and!.
  - eapply Forall2_Forall; [exact H| |exact H1]. intros a b. apply entry_ok_same.
  - eapply Forall2_Sorted; [exact H| |exact H2]. intros a b c d (P & _ & _ & S & _)%same_fields (P' & _ & _ & S' & _)%same_fields. unfold neighbours, entry_lt, entry_cmp. by rewrite P, P', S, S'.
  - eapply Forall2_Forall; [exact H| |exact H3]. cbn. intros a b (P & _ & _ & S & _)%same_fields Hn (c' & Hc' & Hp & Hcf). apply Hn.
    apply list_elem_of_lookup in Hc' as [i Hi]. destruct (Forall2_lookup_r _ _ _ _ _ H Hi) as (c & Hc & (P' & _ & _ & S' & _)%same_fields).
    exists c. split; [by eapply list_elem_of_lookup_2|]. by rewrite P, P', S, S'.
  - eapply Forall2_Sorted; [exact H| |exact H4]. intros a b c d (P & M & _)%same_fields (P' & _)%same_fields. unfold apart. by rewrite P, P', M.
Qed.

Lemma smudge_same threshold position verified es : Forall2 same es (smudge threshold position verified es).1.
Proof.
  revert position verified. induction es as [|e es IH]; intros position verified; cbn [smudge]; [constructor|].
  destruct (match verified with [] => _ | _ => _ end) as [skip rest]. specialize (IH (position + 1) rest). destruct (smudge threshold (position + 1) rest es) as [es' changed]. cbn [fst] in *.
  constructor; [|done]. destruct (_ && _); [done|apply same_refl].
Qed.

Lemma smudge_typed threshold position verified es : Forall typed es -> Forall typed (smudge threshold position verified es).1.
Proof.
  intros H. revert position verified. induction H as [|e es He _ IH]; intros position verified; cbn [smudge]; [constructor|].
  destruct (match verified with [] => _ | _ => _ end) as [skip rest]. specialize (IH (position + 1) rest). destruct (smudge threshold (position + 1) rest es) as [es' changed]. cbn [fst] in *.
  constructor; [|done]. destruct (_ && _); [|done]. destruct He as [Hi Hs]. split; [done|]. unfold stat_words in *. cbn. rewrite !Forall_cons in *. destruct Hs as (? & ? & ? & ? & ? & ? & ? & ? & ? & ?).
  split_and!; try done; unfold u32_ok; lia.
Qed.

Lemma smudge_unchanged threshold position verified es : (smudge threshold position verified es).2 = false -> (smudge threshold position verified es).1 = es.
Proof.
  revert position verified. induction es as [|e es IH]; intros position verified; cbn [smudge]; [done|].
  destruct (match verified with [] => _ | _ => _ end) as [skip rest]. specialize (IH (position + 1) rest). destruct (smudge threshold (position + 1) rest es) as [es' changed]. cbn [fst snd] in *.
  intros [-> ->]%orb_false_iff. by rewrite IH.
Qed.

(** [record_stat] with metadata of the width of its fields. *)
Definition stats_ok (verified : list (Z * Stat)) : Prop := Forall (fun v => Forall u32_ok (stat_words v.2)) verified.

Lemma record_each_ok verified started es : stats_ok verified -> Forall2 same es (record_each verified started es) /\ (Forall typed es -> Forall typed (record_each verified started es)).
Proof.
  intros H. revert es. induction H as [|[p st] verified Hst _ IH]; intros es; cbn [record_each]; [split; [|done]; apply Forall2_same_length_lookup; split; [done|]; intros i x y -> [= ->]; apply same_refl|].
  set (st' := if started <=? ts_seconds (mtime st) then without_size st else st). assert (Forall u32_ok (stat_words st')) as Hst'.
  { unfold st'. destruct (_ <=? _); [|done]. cbn in Hst. unfold stat_words in *. cbn. rewrite !Forall_cons in *. destruct Hst as (? & ? & ? & ? & ? & ? & ? & ? & ? & ?). split_and!; try done; unfold u32_ok; lia. }
  destruct (zget p es) as [e|] eqn:Ee; [|apply IH]. apply zget_Some in Ee as [_ Ee]. destruct (IH (<[Z.to_nat p := with_stat e st']> es)) as [H1 H2]. split.
  - apply Forall2_same_length_lookup. split; [apply Forall2_length in H1; by rewrite length_insert in H1|]. intros i x y Hx Hy.
    destruct (Forall2_lookup_r _ _ _ _ _ H1 Hy) as (z & Hz & Hsame). destruct (decide (i = Z.to_nat p)) as [-> |Hne].
    + rewrite list_lookup_insert_eq in Hz by (by eapply lookup_lt_Some). injection Hz as <-. rewrite Ee in Hx. injection Hx as <-. unfold same in *. by rewrite <- Hsame at 2.
    + rewrite list_lookup_insert_ne in Hz by done. congruence.
  - intros Ht. apply H2, Forall_insert; [done|]. rewrite Forall_forall in Ht. split; [|done]. apply (Ht e). by eapply list_elem_of_lookup_2.
Qed.

Lemma fits_same v es es' : Forall2 same es es' -> Forall typed es' -> Forall (fits v) es -> Forall (fits v) es'.
Proof.
  intros H Ht Hf. apply Forall_forall. intros b [i Hb]%list_elem_of_lookup. destruct (Forall2_lookup_r _ _ _ _ _ H Hb) as (a & Ha & (_ & _ & _ & _ & T & W)%same_fields).
  rewrite Forall_forall in Ht, Hf. split; [apply Ht; by eapply list_elem_of_lookup_2|]. destruct (Hf a) as [_ Hv]; [by eapply list_elem_of_lookup_2|]. unfold extended in *. by rewrite <- T, <- W.
Qed.

(** ** Extensions *)

Lemma filter_none {A} (P : A -> Prop) `{!forall x, Decision (P x)} l : Forall (fun x => ~ P x) l -> filter P l = [].
Proof. induction 1 as [|x l Hx _ IH]; [done|]. by rewrite filter_cons, decide_False. Qed.

Lemma keep_extensions_ok p xs : Forall ext_ok xs -> Forall ext_ok (keep_extensions p xs).
Proof. intros H. apply Forall_forall. intros x [_ Hx]%list_elem_of_filter. rewrite Forall_forall in H. by apply H. Qed.

Lemma marks_kept p xs : p sdir = true -> sparse_marks (keep_extensions p xs) = sparse_marks xs.
Proof.
  intros Hp. unfold sparse_marks, keep_extensions. induction xs as [|x xs IH]; [done|]. rewrite !filter_cons. destruct (decide (bytes_eqb (signature x) sdir = true)) as [E|E].
  - pose proof E as ->%bytes_eqb_eq. rewrite decide_True by done. rewrite filter_cons, decide_True by done. by rewrite IH.
  - destruct (decide (p (signature x) = true)); [|done]. rewrite filter_cons, decide_False by done. done.
Qed.

Lemma marks_dropped p xs : p sdir = false -> sparse_marks (keep_extensions p xs) = [].
Proof.
  intros Hp. unfold sparse_marks, keep_extensions. apply filter_none, Forall_forall. intros x [Hx _]%list_elem_of_filter E. apply bytes_eqb_eq in E. rewrite E in Hx. congruence.
Qed.

Lemma has_kept p s xs : p s = true -> has s (keep_extensions p xs) = has s xs.
Proof.
  intros Hp. unfold has, keep_extensions. induction xs as [|x xs IH]; [done|]. rewrite filter_cons. cbn [existsb]. destruct (bytes_eqb (signature x) s) eqn:E.
  - pose proof E as ->%bytes_eqb_eq. rewrite decide_True by done. cbn [existsb]. by rewrite E.
  - destruct (decide _); [cbn [existsb]; by rewrite E|done].
Qed.

Lemma has_dropped p s xs : p s = false -> has s (keep_extensions p xs) = false.
Proof.
  intros Hp. apply existsb_false, Forall_forall. intros x [Hx _]%list_elem_of_filter. apply not_true_iff_false. intros E%bytes_eqb_eq. rewrite E in Hx. congruence.
Qed.

Lemma refuse_Ok known xs : refuse known xs = Ok tt -> Forall (fun x => signature x ∈ known) xs.
Proof.
  unfold refuse. destruct (find _ xs) as [x|] eqn:E; [done|]. intros _. apply Forall_forall. intros x Hx%list_elem_of_In. apply find_none with (x := x) in E; [|done].
  apply negb_false_iff, one_of_true in E. done.
Qed.

Lemma refuse_has known s xs u : refuse known xs = Ok u -> s ∉ known -> has s xs = false.
Proof.
  destruct u. intros H%refuse_Ok Hs. apply existsb_false. eapply Forall_impl; [exact H|]. cbn. intros x Hx. apply not_true_iff_false. intros E%bytes_eqb_eq. by rewrite E in Hx.
Qed.

Lemma has_marks xs : has sdir xs = false -> sparse_marks xs = [].
Proof. unfold has. rewrite existsb_false. intros H. apply filter_none. eapply Forall_impl; [exact H|]. cbn. intros x ->. done. Qed.

(** ** Well-formed indexes *)

Lemma mark_sparse_shape limits x : valid (i_format x) limits (entries x) -> Forall (fits (version x)) (entries x) -> Forall ext_ok (extensions x) -> sparse_marks (extensions x) = [] ->
  shape limits (mark_sparse x).
Proof.
  intros Hv Hf Hx Hm. unfold mark_sparse. destruct (existsb _ (entries x)) eqn:E.
  - assert (sparse_marks (extensions x ++ [{| signature := sdir; ext_data := [] |}]) = [{| signature := sdir; ext_data := [] |}]) as Hms by (unfold sparse_marks in *; by rewrite filter_app, Hm).
    split; cbn [i_format version entries extensions]; try done; rewrite ?Hms.
    + apply Forall_app. split; [done|]. constructor; [|constructor]. split_and!; [done|done|right; by right].
    + split; [done|by repeat constructor].
    + done.
  - split; try done; [rewrite Hm; split; [done|constructor]|]. intros e _ He Hs. exfalso. apply existsb_false in E. rewrite Forall_forall in E. specialize (E e He). by apply bool_decide_eq_false in E.
Qed.

Lemma mark_sparse_fields x : i_format (mark_sparse x) = i_format x /\ version (mark_sparse x) = version x /\ entries (mark_sparse x) = entries x /\ original (mark_sparse x) = original x.
Proof. unfold mark_sparse. by destruct (existsb _ _). Qed.

Lemma shape_original limits x o : shape limits x -> shape limits {| i_format := i_format x; version := version x; original := o; entries := entries x; extensions := extensions x |}.
Proof. by intros []. Qed.

Lemma invalidate_shape limits retain x x' : valid (i_format x) limits (entries x) -> Forall (fits (version x)) (entries x) -> Forall ext_ok (extensions x) ->
  invalidate_extensions retain x = Ok x' -> shape limits x' /\ original x' = None /\ i_format x' = i_format x /\ version x' = version x /\ entries x' = entries x.
Proof.
  intros Hv Hf Hx H. unfold invalidate_extensions in H. apply rbind_Ok in H as (u & _ & <-%ok_inj). set (kx := {| extensions := keep_extensions _ _ |}).
  split; [|destruct (mark_sparse_fields kx) as (F & V & E & _); cbn; by rewrite F, V, E]. apply (shape_original limits (mark_sparse kx) None), mark_sparse_shape; try done; [by apply keep_extensions_ok|].
  apply marks_dropped. by rewrite andb_false_r.
Qed.

(** Dropping extensions other than the marks of sparse and split files. *)
Lemma drop_shape limits p x : shape limits x -> p sdir = true -> p link = true -> shape limits (with_extensions x (keep_extensions p (extensions x))).
Proof.
  intros [Hv Hf Hx Hm Hk] Hps Hpl. split; cbn [i_format version entries extensions with_extensions]; rewrite ?marks_kept, ?has_kept by done; try done. by apply keep_extensions_ok.
Qed.

Lemma shape_entries limits x es o : shape limits x -> Forall2 same (entries x) es -> Forall typed es ->
  shape limits {| i_format := i_format x; version := version x; original := o; entries := es; extensions := extensions x |}.
Proof.
  intros [Hv Hf Hx Hm Hk] Hs Ht. split; cbn [i_format version entries extensions]; try done; [by eapply valid_same|by eapply fits_same|].
  intros e Hl [i He]%list_elem_of_lookup Hmode. destruct (Forall2_lookup_r _ _ _ _ _ Hs He) as (a & Ha & (_ & M & _)%same_fields). apply (Hk a); [done|by eapply list_elem_of_lookup_2|congruence].
Qed.

Lemma sort_typed es : Forall typed es -> Forall typed (sort_by entry_cmp es).
Proof. by rewrite sort_by_perm. Qed.

Lemma fits_not_extended v es : Forall typed es -> (v = V2 -> existsb extended es = false) -> Forall (fits v) es.
Proof.
  intros Ht Hv. apply Forall_forall. intros e He. rewrite Forall_forall in Ht. split; [by apply Ht|]. intros E. specialize (Hv E). rewrite existsb_false, Forall_forall in Hv. by apply Hv.
Qed.

Lemma fits_typed v es : Forall (fits v) es -> Forall typed es.
Proof. intros H. eapply Forall_impl; [exact H|]. by intros e []. Qed.

Section Digest.
Context (sha1 sha256 : bytes -> bytes).
Context (Hsha1 : forall bs, bytes_ok (sha1 bs) /\ zlen (sha1 bs) = 20) (Hsha256 : forall bs, bytes_ok (sha256 bs) /\ zlen (sha256 bs) = 32).
Context (limits : Limits) (Hlimits : limits_ok limits).

(** The invariant: the shape, and a file that is still the encoding of the index. *)
Record well_formed (x : Index) : Prop := {
  wf_shape : shape limits x;
  wf_original o : original x = Some o -> has link (extensions x) = false -> parse sha1 sha256 (i_format x) o limits = Ok x
}.

Lemma unread x : shape limits x -> original x = None -> well_formed x.
Proof. intros S Ho. split; [done|]. intros o Ho'. congruence. Qed.

Lemma new_well_formed fmt es x : Forall typed es -> index_new fmt es limits = Ok x -> well_formed x.
Proof.
  intros Ht H. unfold index_new in H. apply rbind_Ok in H as (? & _ & H). apply rbind_Ok in H as ([] & Hv%validate_entries_exact & H). apply rbind_Ok in H as (? & _ & <-%ok_inj).
  apply unread; [|by destruct (mark_sparse_fields {| i_format := fmt; version := if existsb extended (sort_by entry_cmp es) then V3 else V2; original := None; entries := sort_by entry_cmp es; extensions := [] |}) as (_ & _ & _ & ->)].
  apply mark_sparse_shape; try done. cbn. apply fits_not_extended; [by apply sort_typed|]. by destruct (existsb extended _).
Qed.

Lemma read_well_formed fmt bs shared x : bytes_ok bs -> (forall sbs, shared = Some sbs -> bytes_ok sbs) -> parse_with_shared sha1 sha256 fmt bs shared limits = Ok x ->
  Forall (fits (version x)) (entries x) -> well_formed x.
Proof.
  intros Hb Hs Hx Hf. pose proof (parse_with_shared_yields sha1 sha256 fmt bs shared limits Hb Hs) as R. rewrite Hx in R. cbn in R. destruct R as [Ef Eo Hv Ht Hex Hm Hsh]. split.
  - destruct (has link (extensions x)) eqn:El; [|by apply Hsh]. split; try done; [by rewrite Ef|]. intros e. by rewrite El.
  - intros o Ho Hl. rewrite Eo in Ho. injection Ho as <-. rewrite Ef. unfold parse_with_shared in Hx. apply rbind_Ok in Hx as (main & Hmain & Hx). unfold parse, parse_with_shared. rewrite Hmain. cbn [rbind].
    destruct (resolve_keeps _ _ _ _ _ Hx) as [Ex _]. rewrite Ex in Hl. apply filter_link_nil in Hl. unfold resolve_shared_with in *. by rewrite Hl in *.
Qed.

Lemma set_version_well_formed v x x' : well_formed x -> set_version v limits x = Ok x' -> well_formed x'.
Proof.
  intros W H. unfold set_version in H. destruct (bool_decide (v = V2) && existsb extended (entries x)) eqn:Ev; [done|]. case_bool_decide.
  { by apply rbind_Ok in H as (? & _ & <-%ok_inj). }
  apply rbind_Ok in H as (r & Hr & H). apply rbind_Ok in H as (? & _ & <-%ok_inj). destruct (wf_shape _ W) as [Hv Hf Hx _ _].
  destruct (invalidate_shape limits _ x r Hv Hf Hx Hr) as ([Sv Sf Sx Sm Sk] & Ho & _ & _ & He). apply unread; [|done]. split; try done. cbn. rewrite He. apply fits_not_extended; [by eapply fits_typed|].
  intros ->. rewrite bool_decide_true in Ev by done. done.
Qed.

Lemma replace_entries_well_formed es x x' : Forall typed es -> well_formed x -> replace_entries es limits x = Ok x' -> well_formed x'.
Proof.
  intros Ht W H. unfold replace_entries in H. apply rbind_Ok in H as (? & _ & H). apply rbind_Ok in H as ([] & Hv%validate_entries_exact & H). case_bool_decide.
  { by apply rbind_Ok in H as (? & _ & <-%ok_inj). }
  apply rbind_Ok in H as (r & Hr & H). apply rbind_Ok in H as (? & _ & <-%ok_inj). apply (invalidate_shape limits) in Hr as (S & Ho & _); [by apply unread|exact Hv| |apply (sh_extensions _ _ (wf_shape _ W))].
  cbn. apply fits_not_extended; [by apply sort_typed|]. case_bool_decide; cbn [andb]; [|done]. by destruct (existsb extended _).
Qed.

Lemma standalone_well_formed x x' : shape limits x -> (has link (extensions x) = false -> well_formed x) -> make_standalone limits x = Ok x' -> well_formed x'.
Proof.
  intros S W H. unfold make_standalone in H. apply rbind_Ok in H as (? & _ & H). destruct (has link (extensions x)) eqn:El; cbn [negb] in H.
  - apply rbind_Ok in H as (r & Hr & H). apply rbind_Ok in H as (? & _ & <-%ok_inj). destruct S as [Hv Hf Hx _ _]. destruct (invalidate_shape limits _ x r Hv Hf Hx Hr) as (S & Ho & _). by apply unread.
  - apply rbind_Ok in H as (? & _ & <-%ok_inj). by apply W.
Qed.

Lemma discard_optional_well_formed sigs x x' : well_formed x -> discard_optional_extensions sigs limits x = Ok x' -> well_formed x'.
Proof.
  intros W H. unfold discard_optional_extensions in H. destruct (find _ sigs) eqn:Ef; [done|]. destruct (negb _); [by apply ok_inj in H as <-|].
  assert (forall s b, head s = Some b -> is_upper b = false -> one_of sigs s = false) as Hsig.
  { intros s b Hs Hb. apply not_true_iff_false. intros Hin%one_of_true%list_elem_of_In. eapply find_none in Ef; [|exact Hin]. cbn in Ef. by rewrite Hs, Hb in Ef. }
  set (p := fun s => _) in H. assert (p sdir = true) as Hps by (unfold p; by rewrite (Hsig sdir 115)). assert (p link = true) as Hpl by (unfold p; by rewrite (Hsig link 108)).
  pose proof (drop_shape limits p x (wf_shape _ W) Hps Hpl) as S. destruct (has link (keep_extensions p (extensions x))) eqn:El.
  - eapply standalone_well_formed; [| |exact H]; [by apply (shape_original limits _ (original x)) in S|]. intros Hn. change (has link (keep_extensions p (extensions x)) = false) in Hn. congruence.
  - apply rbind_Ok in H as (? & _ & <-%ok_inj). by apply unread.
Qed.

Lemma drop_extensions_well_formed known trigger dropped x x' : well_formed x -> one_of dropped sdir = false -> one_of dropped link = false ->
  drop_extensions known trigger dropped limits x = Ok x' -> well_formed x'.
Proof.
  intros W Hs Hl H. unfold drop_extensions in H. apply rbind_Ok in H as (? & _ & H). destruct (negb _); apply rbind_Ok in H as (? & _ & <-%ok_inj); [done|].
  apply unread; [|done]. apply drop_shape; [apply W|by rewrite Hs|by rewrite Hl].
Qed.

Lemma invalidate_tree_well_formed x x' : well_formed x -> invalidate_tree_cache limits x = Ok x' -> well_formed x'.
Proof.
  intros W H. unfold invalidate_tree_cache in H. apply rbind_Ok in H as ([] & Hr & H). destruct (extensions x) as [|y ys] eqn:Ex; [by apply ok_inj in H as <-|]. rewrite <- Ex in *.
  apply rbind_Ok in H as (? & _ & <-%ok_inj). apply unread; [|done]. destruct (wf_shape _ W) as [Hv Hf _ _ Hk]. split; cbn; try done.
  intros e _ He Hm. exfalso. apply (Hk e); [by apply (refuse_has _ link _ _ Hr), (bool_decide_unpack _)|done|done|]. apply has_marks. by apply (refuse_has _ sdir _ _ Hr), (bool_decide_unpack _).
Qed.

Lemma smudge_well_formed threshold verified x : well_formed x -> well_formed (smudge_racy_entries threshold verified x).
Proof.
  intros W. unfold smudge_racy_entries. pose proof (smudge_same threshold 0 verified (entries x)) as Hs. pose proof (smudge_typed threshold 0 verified (entries x) (fits_typed _ _ (sh_fits _ _ (wf_shape _ W)))) as Ht.
  pose proof (smudge_unchanged threshold 0 verified (entries x)) as Hu. destruct (smudge threshold 0 verified (entries x)) as [es changed]. cbn [fst snd] in *. destruct changed.
  - apply unread; [|done]. by apply shape_entries; [apply W|..].
  - rewrite Hu by done. by destruct x.
Qed.

Lemma record_stat_well_formed verified started x : stats_ok verified -> well_formed x -> well_formed (record_stat verified started x).
Proof.
  intros Hv W. unfold record_stat. destruct (record_each_ok verified started (entries x) Hv) as [Hs Ht]. specialize (Ht (fits_typed _ _ (sh_fits _ _ (wf_shape _ W)))).
  destruct verified as [|v verified]; [by destruct x|]. apply unread; [|done]. by apply shape_entries; [apply W|..].
Qed.

(** The indexes of a program that reads, makes and edits them; the metadata and entries it
    supplies have the widths of their fields. *)
Inductive reachable : Index -> Prop :=
| re_empty fmt : reachable (empty fmt)
| re_orphan fmt v : reachable (empty_for_orphan sha1 sha256 fmt v)
| re_new fmt es x : Forall typed es -> index_new fmt es limits = Ok x -> reachable x
| re_read fmt bs shared x : bytes_ok bs -> (forall sbs, shared = Some sbs -> bytes_ok sbs) -> parse_with_shared sha1 sha256 fmt bs shared limits = Ok x ->
    (version x = V2 -> existsb extended (entries x) = false) -> reachable x
| re_set_version v x x' : reachable x -> set_version v limits x = Ok x' -> reachable x'
| re_replace_entries es x x' : reachable x -> Forall typed es -> replace_entries es limits x = Ok x' -> reachable x'
| re_make_standalone x x' : reachable x -> make_standalone limits x = Ok x' -> reachable x'
| re_discard_optional sigs x x' : reachable x -> discard_optional_extensions sigs limits x = Ok x' -> reachable x'
| re_entry_offsets x x' : reachable x -> invalidate_entry_offsets limits x = Ok x' -> reachable x'
| re_resolve_undo x x' : reachable x -> discard_resolve_undo limits x = Ok x' -> reachable x'
| re_tree_cache x x' : reachable x -> invalidate_tree_cache limits x = Ok x' -> reachable x'
| re_smudge threshold verified x : reachable x -> reachable (smudge_racy_entries threshold verified x)
| re_record_stat verified started x : reachable x -> stats_ok verified -> reachable (record_stat verified started x)
| re_checkout_caches x : reachable x -> reachable (discard_checkout_caches x).

Lemma empty_well_formed fmt : well_formed (empty fmt).
Proof.
  apply unread; [|done]. split; cbn; try done; [|by intros ? _ ?%not_elem_of_nil]. apply validate_entries_exact. done.
Qed.

Lemma orphan_well_formed fmt v : well_formed (empty_for_orphan sha1 sha256 fmt v).
Proof using Hsha1 Hsha256.
  apply unread; [|done]. split; cbn [entries extensions version i_format empty_for_orphan]; try done; [apply validate_entries_exact; done| |by intros ? _ ?%not_elem_of_nil].
  constructor; [|constructor]. split_and!; [done| |left; by exists 84]. cbn [ext_data]. rewrite !zlen_app. destruct fmt; cbn [hash_object id_bytes]; [rewrite (proj2 (Hsha1 _))|rewrite (proj2 (Hsha256 _))]; by vm_compute.
Qed.

Lemma reachable_well_formed x : reachable x -> well_formed x.
Proof using Hsha1 Hsha256.
  induction 1.
  - apply empty_well_formed.
  - apply orphan_well_formed.
  - by eapply new_well_formed.
  - eapply read_well_formed; try done. apply fits_not_extended; [|done]. pose proof (parse_with_shared_yields sha1 sha256 fmt bs shared limits ltac:(done) ltac:(done)) as R.
    rewrite H1 in R. apply R.
  - by eapply set_version_well_formed.
  - by eapply replace_entries_well_formed.
  - eapply standalone_well_formed; [apply IHreachable|done|done].
  - by eapply discard_optional_well_formed.
  - by eapply drop_extensions_well_formed in H0.
  - by eapply drop_extensions_well_formed in H0.
  - by eapply invalidate_tree_well_formed.
  - by apply smudge_well_formed.
  - by apply record_stat_well_formed.
  - apply unread; [|done]. by apply drop_shape; [apply IHreachable|..].
Qed.

Lemma read_from_original o x : original x = Some o -> read_from o x = x.
Proof. destruct x. cbn. by intros ->. Qed.

Lemma well_formed_roundtrip x bs : well_formed x -> has link (extensions x) = false -> encode sha1 sha256 x limits = Ok bs ->
  parse sha1 sha256 (i_format x) bs limits = Ok (read_from bs x).
Proof using Hsha1 Hsha256 Hlimits.
  intros [S Ho] Hl He. destruct (original x) as [o|] eqn:Eo.
  - assert (bs = o) as ->. { unfold encode in He. apply rbind_Ok in He as (? & _ & He). rewrite Eo in He. by apply ok_inj in He. }
    rewrite read_from_original by done. by apply Ho.
  - by apply (index_written sha1 sha256 Hsha1 Hsha256).
Qed.

(** C16: an index that a program obtained by reading files (of which no main file of
    version 2 has extended entries), making indexes from entries and editing them, and
    that does not depend on a shared file, is read back from what it encodes to as the
    same entries, extensions and version. *)
Theorem edits_roundtrip x bs : reachable x -> has link (extensions x) = false -> encode sha1 sha256 x limits = Ok bs ->
  parse sha1 sha256 (i_format x) bs limits = Ok (read_from bs x).
Proof using Hsha1 Hsha256 Hlimits. intros H%reachable_well_formed. by apply well_formed_roundtrip. Qed.

(** Every index that is read, made or edited has valid entries whose fields have the
    widths of their types, known extensions, at most one mark of sparse directories, which
    is present when an entry is one, and no extended entry in version 2. *)
Theorem reachable_shape x : reachable x -> shape limits x.
Proof using Hsha1 Hsha256. intros H%reachable_well_formed. apply H. Qed.

(** ** Standalone files from split ones *)

(** What [invalidate_extensions] keeps and drops. *)
Lemma invalidate_fields retain x x' : Forall ext_ok (extensions x) -> invalidate_extensions retain x = Ok x' ->
  original x' = None /\ i_format x' = i_format x /\ version x' = version x /\ entries x' = entries x /\ Forall ext_ok (extensions x') /\ has link (extensions x') = false.
Proof using.
  intros Hx H. unfold invalidate_extensions in H. apply rbind_Ok in H as (u & _ & <-%ok_inj). set (kx := {| extensions := keep_extensions _ _ |}).
  destruct (mark_sparse_fields kx) as (F & V & E & _). cbn [original i_format version entries extensions]. rewrite F, V, E. split_and!; try done; unfold mark_sparse; destruct (existsb _ (entries kx)); cbn [extensions kx]; try (by apply keep_extensions_ok).
  - apply Forall_app. split; [by apply keep_extensions_ok|]. constructor; [|constructor]. split_and!; [done|done|right; by right].
  - unfold has. rewrite existsb_app. apply orb_false_iff. split; [|done]. apply has_dropped. by rewrite andb_false_r.
  - apply has_dropped. by rewrite andb_false_r.
Qed.

(** C20: when an index over a shared file is made standalone and written, it keeps its entries
    and its version and no longer depends on a shared file, and whether the file can be read
    is decided exactly: in version 2 with an extended entry (of the shared file, which has a
    version of its own) every reader refuses it at such an entry; otherwise it is read back
    as the same index. *)
Theorem standalone_exact fmt bs shared x r out : bytes_ok bs -> (forall sbs, shared = Some sbs -> bytes_ok sbs) -> parse_with_shared sha1 sha256 fmt bs shared limits = Ok x ->
  has link (extensions x) = true -> make_standalone limits x = Ok r -> encode sha1 sha256 r limits = Ok out ->
  entries r = entries x /\ version r = version x /\ has link (extensions r) = false /\
  if bool_decide (version x = V2) && existsb extended (entries x)
  then exists k e, entries x !! k = Some e /\ extended e = true /\
    forall shared', parse_with_shared sha1 sha256 fmt out shared' limits = Err (InvalidEntry (Z.of_nat k) "extended flags unsupported in v2")
  else parse sha1 sha256 fmt out limits = Ok (read_from out r).
Proof using Hsha1 Hsha256 Hlimits.
  intros Hb Hs Hx Hl H He. pose proof (parse_with_shared_yields sha1 sha256 fmt bs shared limits Hb Hs) as R. rewrite Hx in R. cbn in R. destruct R as [Ef Eo Hv Ht Hex _ _].
  unfold make_standalone in H. rewrite Hl in H. cbn [negb] in H. apply rbind_Ok in H as (? & _ & H). apply rbind_Ok in H as (r' & Hr & H). apply rbind_Ok in H as (? & _ & <-%ok_inj).
  destruct (invalidate_fields _ _ _ Hex Hr) as (Fo & Ff & Fv & Fe & Fx & Fl). split_and!; [done..|]. destruct (bool_decide (version x = V2) && existsb extended (entries x)) eqn:Ev.
  - apply andb_true_iff in Ev as [Ev%bool_decide_eq_true Hext]. destruct (parse_file_refused sha1 sha256 Hsha1 Hsha256 limits r' out) as (k & e & Hk & Hke & Hp); try done; [by rewrite Fe|rewrite Fe, Ff, Ef; apply (vl_entries _ _ _ Hv)|congruence|by rewrite Fe|].
    rewrite Fe in Hk. exists k, e. split_and!; [done..|]. intros shared'. unfold parse_with_shared. rewrite Ff, Ef in Hp. by rewrite Hp.
  - rewrite <- Ef, <- Ff. apply well_formed_roundtrip; [|done|done]. apply (invalidate_shape limits) in Hr as (S & Ho & _); [by apply unread|by rewrite Ef| |done]. apply fits_not_extended; [done|]. intros E2. by rewrite bool_decide_true in Ev.
Qed.
End Digest.

(** ** Samples *)

Definition made_sample : result Error Index :=
  let? x := index_new FSha1 [sample_entry "b" Normal true; sample_entry "a/c" Theirs false] default_limits in
  set_version V4 default_limits x.

Lemma edits_roundtrip_witness : exists x bs, made_sample = Ok x /\ encode (sample_sum 20) (sample_sum 32) x default_limits = Ok bs /\
  parse (sample_sum 20) (sample_sum 32) (i_format x) bs default_limits = Ok (read_from bs x).
Proof.
  assert (match made_sample with Ok x => negb (has link (extensions x)) && is_ok (encode (sample_sum 20) (sample_sum 32) x default_limits) | Err _ => false end = true) as E by (vm_compute; reflexivity).
  unfold made_sample in *. destruct (index_new FSha1 [sample_entry "b" Normal true; sample_entry "a/c" Theirs false] default_limits) as [x0|] eqn:E0; [|discriminate E]. cbn [rbind] in *.
  destruct (set_version V4 default_limits x0) as [x|] eqn:E1; [|discriminate E]. apply andb_true_iff in E as [Hl E]. apply negb_true_iff in Hl.
  destruct (encode (sample_sum 20) (sample_sum 32) x default_limits) as [bs|] eqn:E2; [|discriminate E]. exists x, bs. split; [reflexivity|]. split; [exact E2|].
  apply (edits_roundtrip (sample_sum 20) (sample_sum 32) (sample_sum_ok 20) (sample_sum_ok 32) default_limits sample_limits_ok x bs); [|exact Hl|exact E2].
  eapply re_set_version; [|exact E1]. eapply re_new; [|exact E0]. repeat (apply Forall_cons_2; [apply sample_entry_typed|]). apply Forall_nil_2.
Defined.

(** ** Two edits of a split index that are not read back *)

(** A main file of version 2 over the shared file; only entries of the shared file are
    extended. *)
Definition open_over (es : list Entry) : result Error Index :=
  parse_with_shared (sample_sum 20) (sample_sum 32) FSha1 (file_of (split_over V2 [] (no_bits ++ no_bits)))
    (Some (file_of {| i_format := FSha1; version := V3; original := None; entries := es; extensions := [] |})) default_limits.
Definition reopened (shared : option bytes) (x : Index) : result Error Index :=
  let? bs := encode (sample_sum 20) (sample_sum 32) x default_limits in
  parse_with_shared (sample_sum 20) (sample_sum 32) FSha1 bs shared default_limits.

(** Making an index standalone keeps version 2 although an entry of the shared file is
    extended. *)
Definition extended_over : result Error (Index * bytes) :=
  let? x := open_over [sample_entry "a" Normal true] in
  let? r := make_standalone default_limits x in
  let? out := encode (sample_sum 20) (sample_sum 32) r default_limits in
  Ok (r, out).
Definition over_main : bytes := file_of (split_over V2 [] (no_bits ++ no_bits)).
Definition over_shared : bytes := file_of {| i_format := FSha1; version := V3; original := None; entries := [sample_entry "a" Normal true]; extensions := [] |}.

Lemma standalone_exact_witness : exists x r out, open_over [sample_entry "a" Normal true] = Ok x /\ extended_over = Ok (r, out) /\ version x = V2 /\
  exists k e, entries x !! k = Some e /\ extended e = true /\
    forall shared', parse_with_shared (sample_sum 20) (sample_sum 32) FSha1 out shared' default_limits = Err (InvalidEntry (Z.of_nat k) "extended flags unsupported in v2").
Proof.
  assert (bytes_ok over_main /\ bytes_ok over_shared) as [B1 B2] by (split; apply bytes_ok_check; vm_compute; reflexivity).
  assert (match open_over [sample_entry "a" Normal true] with Ok x => has link (extensions x) && (bool_decide (version x = V2) && existsb extended (entries x)) && is_ok extended_over | Err _ => false end = true) as E by (vm_compute; reflexivity).
  unfold extended_over in *. destruct (open_over [sample_entry "a" Normal true]) as [x|] eqn:Ex; [|discriminate E]. cbn [rbind] in *. apply andb_true_iff in E as [E E3]. apply andb_true_iff in E as [E1 E2].
  destruct (make_standalone default_limits x) as [r|] eqn:Er; [|discriminate E3]. cbn [rbind] in *. destruct (encode (sample_sum 20) (sample_sum 32) r default_limits) as [out|] eqn:Eo; [|discriminate E3].
  exists x, r, out. split; [reflexivity|]. split; [reflexivity|]. split; [apply andb_true_iff in E2 as [E2 _]; by apply bool_decide_eq_true in E2|].
  pose proof (standalone_exact (sample_sum 20) (sample_sum 32) (sample_sum_ok 20) (sample_sum_ok 32) default_limits sample_limits_ok FSha1 over_main (Some over_shared) x r out B1
    (fun sbs H => eq_ind over_shared bytes_ok B2 sbs (f_equal (default []) H)) Ex E1 Er Eo) as (_ & _ & _ & H). rewrite E2 in H. exact H.
Defined.

(** Zeroing the size of a racy entry drops the main file but keeps its link, so every entry of
    the shared file is written and found again in it. *)
Example smudged_split_unreadable :
  (let? x := open_over [sample_entry "a" Normal false] in
   reopened (Some (file_of {| i_format := FSha1; version := V3; original := None; entries := [sample_entry "a" Normal false]; extensions := [] |}))
     (smudge_racy_entries zero_time [] x)) = Err (InvalidEntry 1 "unsorted or duplicate path/stage").
Proof. vm_compute. reflexivity. Qed.
End IndexEdits.
