(* ===== verification/IgnorePattern.v ===== *)
(** * Ignore patterns ([src/src/ignore/pattern.rs])

    Patterns of ignore and attribute files: the line syntax, the compiled tokens, and the
    matcher with its two shortcuts and its two rows.  The meaning of a pattern is that a text
    is a concatenation of segments, one for each token. *)

From stdpp Require Import base list numbers strings sets.
From Stdlib Require Import ZArith Lia.
From S2P Require Import Prelude Bytes Wildmatch.

Module IgnorePattern.
Import Bytes.

Inductive Case := Sensitive | AsciiInsensitive.
#[export] Instance Case_eq_dec : EqDecision Case.
Proof. solve_decision. Defined.

(** [Error] of [src/src/ignore/rules.rs]. *)
Inductive Error := PathError | Limit (resource : string).

(** [charge]: the work that is left. *)
Definition charge (work cost : Z) : result Error Z := ok_or (checked_sub work cost) (Limit "matching work").

(** ** Tokens *)

(** The words of a class: one bit for each byte. *)
Inductive Token := Byte (b : Z) | Any | Star | Recursive | Directories | Class (bits : list Z).
Inductive Expression := Invalid | Literal (l : bytes) | Glob (tokens : list Token).
Record Pattern := { negative : bool; directory : bool; anchored : bool; case : Case; expression : Expression }.

Definition byte_eq (c : Case) (expected actual : Z) : bool :=
  match c with Sensitive => expected =? actual | AsciiInsensitive => to_lower expected =? to_lower actual end.

(** [insert]. *)
Definition set_bit (bits : list Z) (b : Z) : list Z :=
  match bits !! Z.to_nat (b / 64) with
  | Some w => <[Z.to_nat (b / 64) := Z.lor w (Z.shiftl 1 (b mod 64))]> bits
  | None => bits
  end.
Definition insert (bits : list Z) (b : Z) (c : Case) : list Z :=
  let bits := set_bit bits b in
  match c with Sensitive => bits | AsciiInsensitive => set_bit (set_bit bits (to_lower b)) (to_upper b) end.
Definition class_has (bits : list Z) (b : Z) : bool :=
  match bits !! Z.to_nat (b / 64) with Some w => negb (Z.land w (Z.shiftl 1 (b mod 64)) =? 0) | None => false end.

(** [named_class]: the predicate of a class name. *)
Definition named_class (name : bytes) : option (Z -> bool) :=
  match Wildmatch.named name 0 with Some _ => Some (fun b => default false (Wildmatch.named name b)) | None => None end.

(** [class_byte]. *)
Definition class_byte (pattern : bytes) (pos : Z) : option (Z * Z) :=
  let pos := match zget pos pattern with Some b => if b =? 92 then pos + 1 else pos | None => pos end in
  b ← zget pos pattern; Some (b, pos + 1).

(** A leading name: its predicate (or none for an unknown name) and the bytes after it. *)
Definition leading_name (rest : bytes) : option (option (Z -> bool) * bytes) :=
  body ← strip_prefix (bstr "[:") rest;
  '(name, after) ← split_once body 93;
  name ← strip_suffix (bstr ":") name;
  Some (named_class name, after).

Definition all_bytes : list Z := seqZ 0 256.
Definition insert_all (bits : list Z) (bs : list Z) (c : Case) : list Z := foldl (fun bits b => insert bits b c) bits bs.

(** The loop of [class]; every turn moves on by a byte or more. *)
Fixpoint class_loop (fuel : nat) (pattern : bytes) (pos : Z) (first : bool) (negated : bool) (c : Case) (bits : list Z) : option (list Z * Z) :=
  match fuel with
  | O => None
  | S fuel =>
      byte ← zget pos pattern;
      if (byte =? 93) && negb first then Some (if negated then map (fun w => Z.lxor w usize_max) bits else bits, pos)
      else
        match leading_name (drop (Z.to_nat pos) pattern) with
        | Some (predicate, after) =>
            predicate ← predicate;
            class_loop fuel pattern (zlen pattern - zlen after) false negated c (insert_all bits (base.filter (fun b => predicate b = true) all_bytes) c)
        | None =>
            '(low, pos) ← class_byte pattern pos;
            if match zget pos pattern with Some b => b =? 45 | None => false end && match zget (pos + 1) pattern with Some b => negb (b =? 93) | None => false end then
              '(high, next) ← class_byte pattern (pos + 1);
              class_loop fuel pattern next false negated c (insert_all bits (seqZ low (high + 1 - low)) c)
            else class_loop fuel pattern pos false negated c (insert bits low c)
        end
  end.

(** [class]: the bits and the position of the closing bracket. *)
Definition class (pattern : bytes) (pos : Z) (c : Case) : option (list Z * Z) :=
  let negated := match zget pos pattern with Some b => (b =? 33) || (b =? 94) | None => false end in
  class_loop (S (length pattern)) pattern (if negated then pos + 1 else pos) true negated c [0; 0; 0; 0].

(** The last star of a run that starts at [pos]. *)
Fixpoint last_star (fuel : nat) (pattern : bytes) (pos : Z) : Z :=
  match fuel with
  | O => pos
  | S fuel => match zget (pos + 1) pattern with Some b => if b =? 42 then last_star fuel pattern (pos + 1) else pos | None => pos end
  end.

(** One token and the position of its last byte. *)
Definition compile_star (pattern : bytes) (start : Z) : Token * Z :=
  let pos := last_star (length pattern) pattern start in
  let after := drop (Z.to_nat (pos + 1)) pattern in
  let recursive := (start <? pos) && ((start =? 0) || match zget (start - 1) pattern with Some b => b =? 47 | None => false end) &&
                   (bytes_eqb after [] || starts_with [47] after || starts_with [92; 47] after) in
  if recursive && match zget (pos + 1) pattern with Some b => b =? 47 | None => false end then (Directories, pos + 1)
  else if recursive then (Recursive, pos) else (Star, pos).
Definition compile_token (pattern : bytes) (pos byte : Z) (c : Case) : option (Token * Z) :=
  if byte =? 92 then b ← zget (pos + 1) pattern; Some (Byte b, pos + 1)
  else if byte =? 63 then Some (Any, pos)
  else if byte =? 42 then Some (compile_star pattern pos)
  else if byte =? 91 then '(bits, stop) ← class pattern (pos + 1) c; Some (Class bits, stop)
  else Some (Byte byte, pos).

(** The loop of [compile]; every turn moves on by a byte or more. *)
Fixpoint compile_loop (fuel : nat) (pattern : bytes) (pos : Z) (c : Case) : option (list Token) :=
  match fuel with
  | O => match zget pos pattern with Some _ => None | None => Some [] end
  | S fuel =>
      match zget pos pattern with
      | None => Some []
      | Some byte =>
          '(token, pos) ← compile_token pattern pos byte c;
          tokens ← compile_loop fuel pattern (pos + 1) c;
          Some (token :: tokens)
      end
  end.

Definition literal_byte (t : Token) : option Z := match t with Byte b => Some b | _ => None end.
Definition compile (pattern : bytes) (c : Case) : option Expression :=
  if bytes_eqb pattern [] then None
  else
    tokens ← compile_loop (length pattern) pattern 0 c;
    Some match mapM literal_byte tokens with Some l => Literal l | None => Glob tokens end.

(** [Pattern::glob]. *)
Definition glob_pattern (bs : bytes) (c : Case) : Pattern :=
  let dir := ends_with [47] bs in
  let bs := default bs (strip_suffix [47] bs) in
  let anch := contains 47 bs in
  let bs := default bs (strip_prefix [47] bs) in
  {| negative := false; directory := dir; anchored := anch; case := c; expression := default Invalid (compile bs c) |}.

(** The trailing spaces that are not escaped. *)
Fixpoint trailing_escapes (l : bytes) : Z :=
  match l with b :: l => if b =? 92 then 1 + trailing_escapes l else 0 | [] => 0 end.
Fixpoint trim_spaces (fuel : nat) (bs : bytes) : bytes :=
  match fuel with
  | O => bs
  | S fuel =>
      match strip_suffix [32] bs with
      | None => bs
      | Some before => if trailing_escapes (reverse before) mod 2 =? 1 then bs else trim_spaces fuel before
      end
  end.

(** [Pattern::parse]. *)
Definition parse (raw : bytes) (c : Case) : option Pattern :=
  let raw := default raw (strip_suffix [13] raw) in
  let raw := default [] (head (split_on 0 raw)) in
  let bs := trim_spaces (length raw) raw in
  if bytes_eqb bs [] || starts_with [35] bs then None
  else
    let neg := starts_with [33] bs in
    let p := glob_pattern (default bs (strip_prefix [33] bs)) c in
    Some {| negative := neg; directory := directory p; anchored := anchored p; case := case p; expression := expression p |}.

(** ** Matching *)

(** [suffix]: the comparison of the bytes behind a star. *)
Fixpoint suffix_loop (c : Case) (literal : list Token) (tail : bytes) (equal : bool) : option bool :=
  match literal, tail with
  | t :: literal, actual :: tail => match t with Byte expected => suffix_loop c literal tail (equal && byte_eq c expected actual) | _ => None end
  | _, _ => Some equal
  end.
Definition suffix (tokens : list Token) (text : bytes) (c : Case) : option bool :=
  match tokens with
  | Star :: literal =>
      if zlen text <? zlen literal then
        if forallb (fun t => match t with Byte _ => true | _ => false end) literal then Some false else None
      else
        let n := (length text - length literal)%nat in
        equal ← suffix_loop c literal (drop n text) true;
        Some (equal && negb (contains 47 (take n text)))
  | _ => None
  end.

(** The rows of [glob]. *)
Fixpoint star_row (recursive last : bool) (previous : list bool) (text : bytes) : list bool :=
  match previous, text with
  | p :: previous, b :: text => let n := p || (last && (recursive || negb (b =? 47))) in n :: star_row recursive n previous text
  | _, _ => []
  end.
Fixpoint directory_row (reachable : bool) (previous : list bool) (text : bytes) : list bool :=
  match previous, text with
  | p :: previous, b :: text => (p || ((b =? 47) && reachable)) :: directory_row (reachable || p) previous text
  | _, _ => []
  end.
Definition matches_one (c : Case) (t : Token) (b : Z) : bool :=
  match t with
  | Byte expected => byte_eq c expected b
  | Any => negb (b =? 47)
  | Class bits => negb (b =? 47) && class_has bits b
  | Star | Recursive | Directories => false
  end.
Fixpoint one_row (c : Case) (t : Token) (previous : list bool) (text : bytes) : list bool :=
  match previous, text with
  | p :: previous, b :: text => (p && matches_one c t b) :: one_row c t previous text
  | _, _ => []
  end.
Definition next_row (c : Case) (t : Token) (previous : list bool) (text : bytes) : list bool :=
  match previous with
  | [] => []
  | p :: rest =>
      match t with
      | Star => p :: star_row false p rest text
      | Recursive => p :: star_row true p rest text
      | Directories => p :: directory_row p rest text
      | _ => false :: one_row c t previous text
      end
  end.
Definition glob (tokens : list Token) (text : bytes) (c : Case) : bool :=
  let row := foldl (fun previous t => next_row c t previous text) (true :: replicate (length text) false) tokens in
  default false (row !! length text).

(** The literal bytes in front: [None] when one differs. *)
Fixpoint literal_prefix (c : Case) (tokens : list Token) (text : bytes) (work : Z) : result Error (bool * Z) :=
  match tokens with
  | Byte expected :: tokens =>
      let? work := charge work 1 in
      match text with
      | actual :: text => if byte_eq c expected actual then literal_prefix c tokens text work else Ok (false, work)
      | [] => Ok (false, work)
      end
  | _ => Ok (true, work)
  end.

Definition last_part (path : bytes) : bytes := default path (last (split_on 47 path)).

(** [Pattern::matches]: the answer and the work that is left. *)
Definition matches (p : Pattern) (path : bytes) (dir : bool) (work : Z) : result Error (bool * Z) :=
  if directory p && negb dir then Ok (false, work)
  else
    let? work := charge work (zlen path) in
    let text := if anchored p then path else last_part path in
    match expression p with
    | Invalid => Ok (false, work)
    | Literal l => Ok (match case p with Sensitive => bytes_eqb l text | AsciiInsensitive => bytes_eqb (map to_lower l) (map to_lower text) end, work)
    | Glob tokens =>
        let? (possible, work) := literal_prefix (case p) tokens text work in
        if negb possible then Ok (false, work)
        else
          let? work := charge work (saturating_mul (saturating_add (zlen tokens) 1) (saturating_add (zlen text) 1)) in
          Ok (match suffix tokens text (case p) with Some b => b | None => glob tokens text (case p) end, work)
    end.
End IgnorePattern.
