(* ===== verification/IgnoreMatch.v ===== *)
(** * What an ignore pattern matches

    The matcher of [src/src/ignore/pattern.rs] against the meaning of its tokens: both
    shortcuts and the rows decide whether the text is a concatenation of segments, one for
    each token. *)

From stdpp Require Import base list numbers strings sets.
From Stdlib Require Import ZArith Lia.
From S2P Require Import Prelude Bytes Wildmatch IgnorePattern.

Module IgnoreMatch.
Import Bytes IgnorePattern.

(** ** The meaning of tokens *)

(** The segments that one token stands for. *)
Definition segment (c : Case) (t : Token) (seg : bytes) : Prop :=
  match t with
  | Star => 47 ∉ seg
  | Recursive => True
  | Directories => seg = [] \/ exists s, seg = s ++ [47]
  | _ => exists b, seg = [b] /\ matches_one c t b = true
  end.
Definition denotes (c : Case) (tokens : list Token) (text : bytes) : Prop := exists segs, Forall2 (segment c) tokens segs /\ concat segs = text.

Lemma denotes_nil c text : denotes c [] text <-> text = [].
Proof. split; [by intros (segs & H%Forall2_nil_inv_l & <-); subst|]. intros ->. by exists []. Qed.

Lemma denotes_cons c t ts text : denotes c (t :: ts) text <-> exists seg rest, text = seg ++ rest /\ segment c t seg /\ denotes c ts rest.
Proof.
  split.
  - intros (segs & H & <-). apply Forall2_cons_inv_l in H as (seg & rest & Hs & Hr & ->). exists seg, (concat rest). split_and!; [done..|by exists rest].
  - intros (seg & rest & -> & Hs & segs & Hr & <-). exists (seg :: segs). split; [by constructor|done].
Qed.

Lemma denotes_snoc c ts t text : denotes c (ts ++ [t]) text <-> exists a seg, text = a ++ seg /\ denotes c ts a /\ segment c t seg.
Proof.
  split.
  - intros (segs & H & <-). apply Forall2_app_inv_l in H as (s1 & s2 & H1 & H2 & ->). apply Forall2_cons_inv_l in H2 as (seg & r & Hs & Hr%Forall2_nil_inv_l & ->). subst r.
    exists (concat s1), seg. split_and!; [rewrite concat_app; cbn; by rewrite app_nil_r|by exists s1|done].
  - intros (a & seg & -> & (segs & H & <-) & Hs). exists (segs ++ [seg]). split; [apply Forall2_app; [done|by repeat constructor]|]. rewrite concat_app. cbn. by rewrite app_nil_r.
Qed.

(** ** Rows *)

(** A row holds at each position of the text whether the prefix before it satisfies [P];
    [pre] is the text before the row. *)
Fixpoint row_ok (P : bytes -> Prop) (pre text : bytes) (row : list bool) {struct row} : Prop :=
  match row with
  | [] => False
  | r :: row => (r = true <-> P pre) /\ match text with [] => row = [] | b :: text => row_ok P (pre ++ [b]) text row end
  end.

Lemma row_ok_ext P Q pre text row : (forall a, P a <-> Q a) -> row_ok P pre text row -> row_ok Q pre text row.
Proof.
  intros H. revert pre text. induction row as [|r row IH]; intros pre text; cbn [row_ok]; [done|]. intros [Hr Hrest]. split; [rewrite Hr; apply H|]. destruct text; [done|]. by apply IH.
Qed.

Lemma row_ok_end P pre text row : row_ok P pre text row -> default false (row !! length text) = true <-> P (pre ++ text).
Proof.
  revert pre row. induction text as [|b text IH]; intros pre [|r row]; cbn [row_ok]; try done; intros [Hr Hrest].
  - by rewrite app_nil_r.
  - cbn [length lookup list_lookup]. rewrite (IH _ _ Hrest), <- app_assoc. done.
Qed.

Lemma row_ok_first text : row_ok (fun a => a = []) [] text (true :: replicate (length text) false).
Proof.
  cbn [row_ok]. split; [done|]. destruct text as [|b text]; [done|]. cbn [length replicate app]. assert (forall pre, pre <> [] -> row_ok (fun a => a = []) pre text (false :: replicate (length text) false)) as H; [|by apply H].
  induction text as [|b' text IH]; intros pre Hp; cbn [row_ok length replicate]; [done|]. split; [done|]. apply IH. by destruct pre.
Qed.

(** What a token adds to the prefixes that end in [P]. *)
Definition extend (c : Case) (t : Token) (P : bytes -> Prop) (text : bytes) : Prop := exists a seg, text = a ++ seg /\ P a /\ segment c t seg.

Lemma extend_star_snoc c (rec : bool) P pre b :
  extend c (if rec then Recursive else Star) P (pre ++ [b]) <-> P (pre ++ [b]) \/ extend c (if rec then Recursive else Star) P pre /\ (rec = true \/ b <> 47).
Proof.
  split.
  - intros (a & seg & E & Ha & Hs). destruct seg as [|x seg _] using rev_ind; [left; by rewrite app_nil_r in E; rewrite E|]. rewrite app_assoc in E. apply app_inj_tail in E as [-> ->]. right. split.
    + exists a, seg. split_and!; [done..|]. destruct rec; cbn in *; [done|]. by intros ?; apply Hs, elem_of_app; left.
    + destruct rec; [by left|right]. intros ->. apply Hs, elem_of_app. right. by left.
  - intros [H|[(a & seg & -> & Ha & Hs) Hb]]; [exists (pre ++ [b]), []; split_and!; [by rewrite app_nil_r|done|destruct rec; cbn; [done|apply not_elem_of_nil]]|].
    exists a, (seg ++ [b]). split_and!; [by rewrite app_assoc|done|]. destruct rec; cbn in *; [done|]. rewrite elem_of_app, list_elem_of_singleton. intros [?|<-]; [done|]. by destruct Hb.
Qed.

Lemma extend_nil c t P : segment c t [] -> extend c t P [] <-> P [].
Proof. intros Hn. split; [intros (a & seg & E & Ha & _); symmetry in E; by apply app_eq_nil in E as [-> _]|]. intros H. by exists [], []. Qed.

Lemma star_row_ok c (rec : bool) P pre text p previous last : row_ok P pre text (p :: previous) -> (last = true <-> extend c (if rec then Recursive else Star) P pre) ->
  row_ok (extend c (if rec then Recursive else Star) P) pre text (last :: star_row rec last previous text).
Proof.
  revert pre p previous last. induction text as [|b text IH]; intros pre p previous last [_ Hrest] Hl; cbn [row_ok star_row]; (split; [done|]); [by destruct previous|].
  destruct previous as [|q previous]; [done|]. cbn [star_row]. apply (IH (pre ++ [b]) q); [done|]. destruct Hrest as [Hq _]. rewrite (extend_star_snoc c rec P pre b). rewrite <- Hq, <- Hl.
  rewrite orb_true_iff, andb_true_iff, orb_true_iff, negb_true_iff, Z.eqb_neq. tauto.
Qed.

Lemma directory_row_ok c P pre text p previous reachable : row_ok P pre text (p :: previous) -> (reachable = true <-> exists a s, pre = a ++ s /\ P a) ->
  match text with [] => directory_row reachable previous text = [] | b :: text' => row_ok (extend c Directories P) (pre ++ [b]) text' (directory_row reachable previous text) end.
Proof.
  revert pre p previous reachable. induction text as [|b text IH]; intros pre p previous reachable [_ Hrest] Hr; [by destruct previous|].
  destruct previous as [|q previous]; [done|]. cbn [directory_row row_ok]. pose proof Hrest as [Hq _]. split.
  - rewrite orb_true_iff, andb_true_iff, Z.eqb_eq, Hq, Hr. split.
    + intros [H|[-> (a & s & -> & Ha)]]; [exists (pre ++ [b]), []; split_and!; [by rewrite app_nil_r|done|by left]|]. exists a, (s ++ [47]). split_and!; [by rewrite app_assoc|done|right; by exists s].
    + intros (a & seg & E & Ha & [-> |[s ->]]); [left; rewrite app_nil_r in E; by rewrite E|]. rewrite app_assoc in E. apply app_inj_tail in E as [-> ->]. right. split; [done|by exists a, s].
  - destruct text as [|b' text]; [by destruct previous|]. apply (IH (pre ++ [b]) q); [done|]. rewrite orb_true_iff, Hr, Hq. split.
    + intros [(a & s & -> & Ha)|H]; [exists a, (s ++ [b]); split; [by rewrite app_assoc|done]|exists (pre ++ [b]), []; by rewrite app_nil_r].
    + intros (a & s & E & Ha). destruct s as [|x s _] using rev_ind; [right; rewrite app_nil_r in E; by rewrite E|]. rewrite app_assoc in E. apply app_inj_tail in E as [-> _]. left. by exists a, s.
Qed.

Lemma one_row_ok c t P pre text previous : row_ok P pre text previous -> (forall seg, segment c t seg <-> exists b, seg = [b] /\ matches_one c t b = true) ->
  match text with [] => one_row c t previous text = [] | b :: text' => row_ok (extend c t P) (pre ++ [b]) text' (one_row c t previous text) end.
Proof.
  intros H Ht. revert pre previous H. induction text as [|b text IH]; intros pre [|p previous] H; try done. destruct H as [Hp Hrest]. cbn [one_row row_ok]. split.
  - rewrite andb_true_iff, Hp. split.
    + intros [H Hb]. exists pre, [b]. split_and!; [done..|]. apply Ht. by exists b.
    + intros (a & seg & E & Ha & (x & -> & Hx)%Ht). apply app_inj_tail in E as [-> ->]. done.
  - specialize (IH _ _ Hrest). destruct text; done.
Qed.

Lemma next_row_ok c t P text row : row_ok P [] text row -> row_ok (extend c t P) [] text (next_row c t row text).
Proof.
  destruct row as [|p rest]; [done|]. intros H. pose proof H as [Hp _]. assert (segment c t [] -> (p = true <-> extend c t P [])) as H0 by (intros Hn; by rewrite extend_nil).
  assert (forall P' r, (forall seg, segment c t seg <-> exists b, seg = [b] /\ matches_one c t b = true) -> r = one_row c t (p :: rest) text -> P' = extend c t P -> row_ok P' [] text (false :: r)) as Hone.
  { intros P' r Ht -> ->. split; [split; [done|]|pose proof (one_row_ok c t P [] text (p :: rest) H Ht); by destruct text].
    intros (a & seg & E & _ & (b & -> & _)%Ht). by destruct a. }
  destruct t; cbn [next_row]; try (by apply Hone).
  - apply (star_row_ok c false P [] text p rest p H), H0, not_elem_of_nil.
  - by apply (star_row_ok c true P [] text p rest p H), H0.
  - split; [apply H0; by left|]. pose proof (directory_row_ok c P [] text p rest p H) as Hd. destruct text; apply Hd; (rewrite Hp; split; [intros HP; by exists [], []|intros (a & s & E & Ha); symmetry in E; by apply app_eq_nil in E as [-> _]]).
Qed.

Lemma glob_exact c tokens text : glob tokens text c = true <-> denotes c tokens text.
Proof.
  unfold glob. assert (forall ts row seen, row_ok (denotes c seen) [] text row -> row_ok (denotes c (seen ++ ts)) [] text (foldl (fun previous t => next_row c t previous text) row ts)) as H.
  { induction ts as [|t ts IH]; intros row seen Hrow; cbn [foldl]; [by rewrite app_nil_r|]. replace (seen ++ t :: ts) with ((seen ++ [t]) ++ ts) by by rewrite <- app_assoc.
    apply IH. eapply row_ok_ext; [|by apply next_row_ok]. intros a. symmetry. apply denotes_snoc. }
  specialize (H tokens (true :: replicate (length text) false) []). cbn [app] in H. apply (row_ok_end _ [] text). apply H. eapply row_ok_ext; [|apply row_ok_first]. intros a. by rewrite denotes_nil.
Qed.

(** ** The shortcuts *)

Lemma denotes_bytes c l text : denotes c (map Byte l) text <-> Forall2 (fun e a => byte_eq c e a = true) l text.
Proof.
  revert text. induction l as [|e l IH]; intros text; cbn [map]; [rewrite denotes_nil; split; [by intros ->|by intros ->%Forall2_nil_inv_l]|]. rewrite denotes_cons. split.
  - intros (seg & rest & -> & (b & -> & Hb) & Hr). cbn [app]. constructor; [done|]. by apply IH.
  - intros H. apply Forall2_cons_inv_l in H as (b & rest & Hb & Hr & ->). exists [b], rest. split_and!; [done|by exists b|by apply IH].
Qed.

Lemma suffix_loop_spec c literal tail equal r : length literal = length tail -> suffix_loop c literal tail equal = Some r ->
  exists l, literal = map Byte l /\ (r = true <-> equal = true /\ Forall2 (fun e a => byte_eq c e a = true) l tail).
Proof.
  revert tail equal. induction literal as [|t literal IH]; intros [|a tail] equal; try done; cbn [suffix_loop length].
  { intros _ [= <-]. exists []. split; [done|]. split; [by split|]. by intros []. }
  intros [= Hl]. destruct t as [e| | | | |]; try done. intros H. destruct (IH tail _ Hl H) as (l & -> & Hr). exists (e :: l). split; [done|]. rewrite Hr, andb_true_iff, Forall2_cons. tauto.
Qed.

Lemma suffix_exact c tokens text r : suffix tokens text c = Some r -> (r = true <-> denotes c tokens text).
Proof.
  unfold suffix. destruct tokens as [|[| | | | |] literal]; try done. destruct (Z.ltb_spec (zlen text) (zlen literal)) as [Hlt|Hge].
  - destruct (forallb _ literal) eqn:Eb; [|done]. intros [= <-]. split; [done|]. intros (segs & H & E). exfalso. apply Forall2_cons_inv_l in H as (seg & rest & _ & Hr & ->).
    assert (length (concat rest) = length literal) as Hlen.
    { clear E Hlt. revert Eb. induction Hr as [|t s ts ss Hs _ IH]; [done|]. cbn [forallb concat]. intros [Ht Hts]%andb_true_iff. rewrite length_app, IH by done. destruct t; try done. by destruct Hs as (x & -> & _). }
    apply (f_equal length) in E. cbn [concat] in E. rewrite length_app in E. unfold zlen in Hlt. lia.
  - set (n := (length text - length literal)%nat). intros H. apply bind_Some in H as (equal & He & [= <-]).
    assert (length (drop n text) = length literal) as Hd by (rewrite length_drop; unfold n, zlen in *; lia).
    apply suffix_loop_spec in He as (l & -> & He); [|done]. rewrite length_map in Hd. rewrite andb_true_iff, He, negb_true_iff, contains_false, denotes_cons. split.
    + intros [[_ Hf] Hn]. exists (take n text), (drop n text). split_and!; [by rewrite take_drop|done|by apply denotes_bytes].
    + intros (seg & rest & E & Hn & Hr%denotes_bytes). apply Forall2_length in Hr as Hlen. assert (length seg = n) as Hs by (unfold n; rewrite E, length_app, length_map; lia).
      rewrite E. rewrite take_app_length', drop_app_length' by done. done.
Qed.

Lemma literal_prefix_spec c tokens text work r : literal_prefix c tokens text work = Ok r -> r.1 = false -> ~ denotes c tokens text.
Proof.
  revert text work. induction tokens as [|t tokens IH]; intros text work; cbn [literal_prefix]; [by intros <-%ok_inj|]. destruct t as [e| | | | |]; try (by intros <-%ok_inj).
  intros H Hr. apply rbind_Ok in H as (w & _ & H). rewrite denotes_cons. intros (seg & rest & -> & (b & -> & Hb) & Hd). cbn [app] in H. cbn in Hb. rewrite Hb in H. by eapply IH.
Qed.

(** ** Patterns *)

Definition tokens_of (e : Expression) : option (list Token) := match e with Invalid => None | Literal l => Some (map Byte l) | Glob ts => Some ts end.
Definition subject (p : Pattern) (path : bytes) : bytes := if anchored p then path else last_part path.

(** A pattern matches a path when it may apply to its kind and the path, or its last
    component, is in the language of the tokens. *)
Definition applies (p : Pattern) (path : bytes) (dir : bool) : Prop :=
  (directory p = true -> dir = true) /\ exists ts, tokens_of (expression p) = Some ts /\ denotes (case p) ts (subject p path).

(** The work of one match. *)
Definition matching_cost (p : Pattern) (path : bytes) : Z :=
  zlen path + match expression p with
              | Glob ts => zlen ts + saturating_mul (saturating_add (zlen ts) 1) (saturating_add (zlen (subject p path)) 1)
              | _ => 0
              end.

Lemma bytes_fold c l text : (match c with Sensitive => bytes_eqb l text | AsciiInsensitive => bytes_eqb (map to_lower l) (map to_lower text) end) = true <-> denotes c (map Byte l) text.
Proof.
  rewrite denotes_bytes. destruct c; rewrite bytes_eqb_eq; cbn [byte_eq].
  - split; [intros ->; induction text as [|x text IH]; constructor; [apply Z.eqb_refl|done]|].
    intros H. induction H as [|x y l k Hxy _ IH]; [done|]. apply Z.eqb_eq in Hxy as ->. by rewrite IH.
  - revert text. induction l as [|x l IH]; intros [|y text]; cbn [map]; try (split; [done|by intros H; inversion H]).
    rewrite Forall2_cons, Z.eqb_eq, <- IH. split; [by intros [= -> ->]|]. by intros [-> ->].
Qed.

Lemma charge_spec work cost : match charge work cost with Ok w => w = work - cost /\ cost <= work | Err e => e = Limit "matching work" /\ work < cost end.
Proof. unfold charge. destruct (checked_sub work cost) as [x|] eqn:E; cbn; [by apply checked_sub_Some in E|]. split; [done|]. unfold checked_sub in E. destruct (Z.leb_spec cost work); [done|lia]. Qed.

Lemma literal_prefix_work c tokens text work : 0 <= work ->
  match literal_prefix c tokens text work with Ok (_, w) => work - zlen tokens <= w <= work /\ 0 <= w | Err e => e = Limit "matching work" /\ work < zlen tokens end.
Proof.
  revert text work. induction tokens as [|t tokens IH]; intros text work Hw; cbn [literal_prefix]; [change (zlen (@nil Token)) with 0; lia|]. rewrite zlen_cons. pose proof (zlen_nonneg tokens).
  destruct t as [e| | | | |]; try lia. pose proof (charge_spec work 1) as Hc. destruct (charge work 1) as [w|er]; cbn [rbind]; [|destruct Hc; split; [done|lia]].
  destruct text as [|a text]; [lia|]. destruct (byte_eq c e a); [|lia]. specialize (IH text w ltac:(lia)). destruct (literal_prefix c tokens text w) as [[b l]|er]; [lia|]. destruct IH. split; [done|lia].
Qed.

Lemma cells_nonneg {A B} (a : list A) (b : list B) : 0 <= saturating_mul (saturating_add (zlen a) 1) (saturating_add (zlen b) 1).
Proof. pose proof (zlen_nonneg a). pose proof (zlen_nonneg b). unfold saturating_mul, saturating_add, usize_max. nia. Qed.

Lemma matches_exact p path dir work : 0 <= work ->
  match matches p path dir work with
  | Ok (b, w) => (b = true <-> applies p path dir) /\ work - matching_cost p path <= w <= work /\ 0 <= w
  | Err e => e = Limit "matching work" /\ work < matching_cost p path
  end.
Proof.
  intros Hw. unfold matches, applies, matching_cost. pose proof (zlen_nonneg path) as Hz. set (m := match expression p with Glob _ => _ | _ => _ end). assert (0 <= m) as Hm.
  { unfold m. destruct (expression p) as [|l|ts]; try lia. pose proof (zlen_nonneg ts). pose proof (cells_nonneg ts (subject p path)). lia. }
  destruct (directory p && negb dir) eqn:Ed.
  { split; [|lia]. split; [done|]. intros [H _]. apply andb_true_iff in Ed as [E1 E2]. rewrite (H E1) in E2. done. }
  assert (directory p = true -> dir = true) as Hd by (intros E; rewrite E in Ed; by destruct dir).
  pose proof (charge_spec work (zlen path)) as Hc. destruct (charge work (zlen path)) as [w|er]; cbn [rbind]; [|destruct Hc; split; [done|lia]]. destruct Hc as [-> Hc]. fold (subject p path).
  destruct (expression p) as [|l|ts]; cbn [tokens_of].
  - split; [|lia]. split; [done|]. by intros (_ & ts & ? & _).
  - split; [|unfold m; lia]. rewrite bytes_fold. split; [intros H; split; [done|]; by eexists|]. intros (_ & ts & [= <-] & H). done.
  - pose proof (cells_nonneg ts (subject p path)) as Hcells. pose proof (literal_prefix_work (case p) ts (subject p path) (work - zlen path) ltac:(lia)) as Hl. destruct (literal_prefix _ ts _ _) as [[possible w1]|er] eqn:El; cbn [rbind]; [|destruct Hl as [-> Hl]; split; [done|unfold m in *; pose proof (zlen_nonneg ts); lia]].
    destruct possible; cbn [negb].
    2:{ split; [|unfold m in *; lia]. split; [done|]. intros (_ & ts' & [= <-] & H). by eapply literal_prefix_spec in El. }
    set (cells := saturating_mul _ _) in *. pose proof (charge_spec w1 cells) as Hc2. destruct (charge w1 cells) as [w|er]; cbn [rbind]; [|destruct Hc2 as [-> Hc2]; split; [done|unfold m; lia]].
    destruct Hc2 as [-> Hc2]. split; [|unfold m; lia].
    assert (forall b, (b = true <-> denotes (case p) ts (subject p path)) -> b = true <-> (directory p = true -> dir = true) /\ exists ts', Some ts = Some ts' /\ denotes (case p) ts' (subject p path)) as Hfin.
    { intros b ->. split; [intros H; split; [done|]; by eexists|]. by intros (_ & ts' & [= <-] & H). }
    apply Hfin. destruct (suffix ts (subject p path) (case p)) as [b|] eqn:Es; [by apply suffix_exact|apply glob_exact].
Qed.

(** ** Compilation ends *)

Lemma class_byte_advances pattern pos b next : class_byte pattern pos = Some (b, next) -> pos < next.
Proof. unfold class_byte. intros H. apply bind_Some in H as (x & _ & [= _ <-]). destruct (zget pos pattern) as [y|]; [destruct (y =? 92)|]; lia. Qed.

Lemma leading_name_advances pattern pos p after : 0 <= pos -> leading_name (drop (Z.to_nat pos) pattern) = Some (p, after) -> pos < zlen pattern - zlen after.
Proof.
  intros Hp H. unfold leading_name in H. apply bind_Some in H as (body & Hb & H). apply bind_Some in H as ([name rest] & Hs & H). apply bind_Some in H as (n & _ & [= _ <-]).
  apply strip_prefix_Some in Hb. apply split_once_Some in Hs as [-> _]. apply (f_equal length) in Hb. rewrite length_drop, !length_app in Hb. cbn [length] in Hb.
  change (length (bstr "[:")) with 2%nat in Hb. unfold zlen. lia.
Qed.

Lemma class_turns fuel fuel' pattern pos first negated c bits : 0 <= pos -> zlen pattern - pos < Z.of_nat fuel -> (fuel <= fuel')%nat ->
  class_loop fuel pattern pos first negated c bits = class_loop fuel' pattern pos first negated c bits.
Proof.
  revert fuel' pos first bits. induction fuel as [|fuel IH]; intros fuel' pos first bits Hp Hf Hle.
  { destruct fuel' as [|fuel']; [done|]. cbn [class_loop]. destruct (zget pos pattern) as [x|] eqn:E; [apply zget_lt in E; lia|done]. }
  destruct fuel' as [|fuel']; [lia|]. cbn [class_loop]. destruct (zget pos pattern) as [byte|]; [|done]. cbn [mbind option_bind]. destruct (_ && _); [done|].
  destruct (leading_name _) as [[predicate after]|] eqn:El.
  - destruct predicate as [predicate|]; [|done]. cbn [mbind option_bind]. apply leading_name_advances in El; [|done]. apply IH; lia.
  - destruct (class_byte pattern pos) as [[low next]|] eqn:Eb; [|done]. cbn [mbind option_bind]. apply class_byte_advances in Eb. destruct (_ && _); [|apply IH; lia].
    destruct (class_byte pattern (next + 1)) as [[high stop]|] eqn:Eh; [|done]. cbn [mbind option_bind]. apply class_byte_advances in Eh. apply IH; lia.
Qed.

Lemma class_advances fuel pattern pos first negated c bits r : 0 <= pos -> class_loop fuel pattern pos first negated c bits = Some r -> pos <= r.2.
Proof.
  revert pos first bits. induction fuel as [|fuel IH]; intros pos first bits Hp; cbn [class_loop]; [done|]. destruct (zget pos pattern) as [byte|]; [|done]. cbn [mbind option_bind].
  destruct (_ && _); [intros [= <-]; cbn; lia|]. destruct (leading_name _) as [[predicate after]|] eqn:El.
  - destruct predicate as [predicate|]; [|done]. cbn [mbind option_bind]. apply leading_name_advances in El; [|done]. intros H%IH; lia.
  - destruct (class_byte pattern pos) as [[low next]|] eqn:Eb; [|done]. cbn [mbind option_bind]. apply class_byte_advances in Eb. destruct (_ && _); [|intros H%IH; lia].
    destruct (class_byte pattern (next + 1)) as [[high stop]|] eqn:Eh; [|done]. cbn [mbind option_bind]. apply class_byte_advances in Eh. intros H%IH; lia.
Qed.

Lemma last_star_advances fuel pattern pos : pos <= last_star fuel pattern pos.
Proof. revert pos. induction fuel as [|fuel IH]; intros pos; cbn [last_star]; [lia|]. destruct (zget (pos + 1) pattern) as [b|]; [|lia]. destruct (b =? 42); [|lia]. specialize (IH (pos + 1)). lia. Qed.

Lemma compile_token_advances pattern pos byte c t next : 0 <= pos -> compile_token pattern pos byte c = Some (t, next) -> pos <= next.
Proof.
  intros Hp. unfold compile_token. destruct (byte =? 92); [intros H; apply bind_Some in H as (b & _ & [= _ <-]); lia|]. destruct (byte =? 63); [intros [= _ <-]; lia|].
  destruct (byte =? 42); [unfold compile_star; pose proof (last_star_advances (length pattern) pattern pos); intros [= Hst]; repeat case_match; simplify_eq; lia|].
  destruct (byte =? 91); [|intros [= _ <-]; lia]. intros H. apply bind_Some in H as ([bits stop] & Hc & [= _ <-]). unfold class in Hc. apply class_advances in Hc; [cbn in Hc; case_match; lia|case_match; lia].
Qed.

(** The loop of [compile] never lacks a turn: more turns do not change its result. *)
Lemma compile_turns fuel fuel' pattern pos c : 0 <= pos -> zlen pattern - pos <= Z.of_nat fuel -> (fuel <= fuel')%nat -> compile_loop fuel pattern pos c = compile_loop fuel' pattern pos c.
Proof.
  revert fuel' pos. induction fuel as [|fuel IH]; intros fuel' pos Hp Hf Hle.
  { cbn [compile_loop]. destruct (zget pos pattern) as [x|] eqn:E; [apply zget_lt in E; lia|]. destruct fuel'; cbn [compile_loop]; by rewrite E. }
  destruct fuel' as [|fuel']; [lia|]. cbn [compile_loop]. destruct (zget pos pattern) as [byte|]; [|done]. destruct (compile_token pattern pos byte c) as [[t next]|] eqn:Et; [|done].
  cbn [mbind option_bind]. apply compile_token_advances in Et; [|done]. rewrite (IH fuel' (next + 1)) by lia. done.
Qed.

(** C22: a pattern matches a path exactly when its meaning does: its literal suffix, or its
    tokens as a concatenation of segments, on the whole path or on its last component, for
    a directory where the pattern asks for one.  The comparison charges at most its cost
    and fails only when the work left is below it. *)
Theorem pattern_matches_exact p path dir work : 0 <= work ->
  match matches p path dir work with
  | Ok (b, w) => (b = true <-> applies p path dir) /\ work - matching_cost p path <= w <= work /\ 0 <= w
  | Err e => e = Limit "matching work" /\ work < matching_cost p path
  end.
Proof. apply matches_exact. Qed.

(** The pattern of the bytes [a], a slash, two stars, a slash and [b]. *)
Definition sample_pattern : Pattern :=
  default {| negative := false; directory := false; anchored := false; case := Sensitive; expression := Invalid |} (parse [97; 47; 42; 42; 47; 98] Sensitive).
Lemma pattern_matches_exact_witness : matches sample_pattern [97; 47; 120; 47; 98] false 1000 = Ok (true, 963) /\ applies sample_pattern [97; 47; 120; 47; 98] false.
Proof.
  assert (matches sample_pattern [97; 47; 120; 47; 98] false 1000 = Ok (true, 963)) as E by (vm_compute; reflexivity).
  split; [exact E|]. pose proof (pattern_matches_exact sample_pattern [97; 47; 120; 47; 98] false 1000 ltac:(lia)) as H. rewrite E in H. by apply H.
Defined.
End IgnoreMatch.
