(* ===== verification/IgnoreRules.v ===== *)
(** * Ignore rules ([src/src/ignore/rules.rs])

    Sources of rules in order of precedence and the decision for a path: the last matching
    rule of the highest source, with the excluded ancestors of the path first. *)

From stdpp Require Import base list numbers strings sets sorting.
From Stdlib Require Import ZArith Lia.
From S2P Require Import Prelude Bytes IgnorePattern IgnoreMatch.

Module IgnoreRules.
Import Bytes IgnorePattern IgnoreMatch.

Inductive InputKind := File | DirectoryKind.
Inductive Source := Global | Info | Directory (base : bytes) | Command.
Record Limits := { l_bytes : Z; l_sources : Z; l_patterns : Z; line_bytes : Z; path_bytes : Z; l_work : Z }.
Definition default_limits : Limits :=
  {| l_bytes := 8 * 1024 * 1024; l_sources := 4096; l_patterns := 100000; line_bytes := 4096; path_bytes := 4096; l_work := 100000000 |}.
Record Match := { ignored : bool; m_source : Z; m_line : Z; matched_bytes : Z }.
Record Rules := { r_base : bytes; rank : Z * Z * Z; r_patterns : list (Z * Pattern) }.
Record Ignore := { i_case : Case; i_limits : Limits; sources : list Rules; i_bytes : Z; i_patterns : Z }.

(** [Ignore::new]. *)
Definition ignore_new (c : Case) (limits : Limits) : Ignore := {| i_case := c; i_limits := limits; sources := []; i_bytes := 0; i_patterns := 0 |}.

(** [validate_path]. *)
Definition validate_path (path : bytes) (root : bool) (limit : Z) : result Error unit :=
  if limit <? zlen path then Err (Limit "path bytes")
  else if bytes_eqb path [] && root then Ok tt
  else if contains 0 path || existsb (fun p => bytes_eqb p [] || bytes_eqb p [46] || bytes_eqb p [46; 46]) (split_on 47 path) then Err PathError
  else Ok tt.

(** [relative]. *)
Definition relative (path base : bytes) (c : Case) : option bytes :=
  if bytes_eqb base [] then Some path
  else
    prefix ← slice 0 (zlen base) path;
    let equal := match c with Sensitive => bytes_eqb prefix base | AsciiInsensitive => bytes_eqb (map to_lower prefix) (map to_lower base) end in
    if equal && match zget (zlen base) path with Some b => b =? 47 | None => false end then Some (drop (Z.to_nat (zlen base + 1)) path) else None.

(** ** Adding a source *)

Definition level_of (s : Source) : Z * bytes :=
  match s with Global => (0, []) | Info => (1, []) | Directory base => (2, base) | Command => (3, []) end.

(** The rules of the lines of a source. *)
Fixpoint parse_lines (x : Ignore) (line : Z) (lines : list bytes) (patterns : list (Z * Pattern)) : result Error (list (Z * Pattern)) :=
  match lines with
  | [] => Ok patterns
  | raw :: lines =>
      if line_bytes (i_limits x) <? zlen raw then Err (Limit "line bytes")
      else
        match parse raw (i_case x) with
        | None => parse_lines x (line + 1) lines patterns
        | Some p =>
            if l_patterns (i_limits x) <=? saturating_add (i_patterns x) (zlen patterns) then Err (Limit "pattern count")
            else parse_lines x (line + 1) lines (patterns ++ [(line + 1, p)])
        end
  end.

Definition rank_cmp (a b : Rules) : comparison :=
  let '(l1, d1, i1) := rank a in
  let '(l2, d2, i2) := rank b in
  match Z.compare l1 l2 with Eq => match Z.compare d1 d2 with Eq => Z.compare i1 i2 | c => c end | c => c end.

(** [Ignore::add]: the set after it and the index of the source. *)
Definition add (source : Source) (content : bytes) (x : Ignore) : result Error (Ignore * Z) :=
  let '(level, base) := level_of source in
  let? _ := validate_path base true (path_bytes (i_limits x)) in
  let total := saturating_add (saturating_add (i_bytes x) (zlen content)) (zlen base) in
  if l_bytes (i_limits x) <? total then Err (Limit "source bytes")
  else if l_sources (i_limits x) <=? zlen (sources x) then Err (Limit "source count")
  else
    let content := default content (strip_prefix [239; 187; 191] content) in
    let? patterns := parse_lines x 0 (split_on 10 content) [] in
    let index := zlen (sources x) in
    let depth := if bytes_eqb base [] then 0 else zlen (split_on 47 base) in
    let rules := {| r_base := base; rank := (level, depth, index); r_patterns := patterns |} in
    Ok ({| i_case := i_case x; i_limits := i_limits x; sources := sort_by rank_cmp (sources x ++ [rules]); i_bytes := total; i_patterns := i_patterns x + zlen patterns |}, index).

(** ** Queries *)

(** The patterns of a source, the last one first. *)
Fixpoint search_patterns (s : Rules) (path rel : bytes) (dir : bool) (patterns : list (Z * Pattern)) (work : Z) : result Error (option Match * Z) :=
  match patterns with
  | [] => Ok (None, work)
  | (line, p) :: patterns =>
      let? work := charge work 1 in
      let? (found, work) := matches p rel dir work in
      if found : bool then Ok (Some {| ignored := negb (negative p); m_source := (rank s).2; m_line := line; matched_bytes := zlen path |}, work)
      else search_patterns s path rel dir patterns work
  end.
Fixpoint search_sources (c : Case) (path : bytes) (dir : bool) (ss : list Rules) (work : Z) : result Error (option Match * Z) :=
  match ss with
  | [] => Ok (None, work)
  | s :: ss =>
      let? work := charge work (saturating_add (zlen (r_base s)) 1) in
      match relative path (r_base s) c with
      | None => search_sources c path dir ss work
      | Some rel =>
          let? (found, work) := search_patterns s path rel dir (reverse (r_patterns s)) work in
          match found with Some m => Ok (Some m, work) | None => search_sources c path dir ss work end
      end
  end.
Definition direct (x : Ignore) (path : bytes) (dir : bool) (work : Z) : result Error (option Match * Z) :=
  search_sources (i_case x) path dir (reverse (sources x)) work.

(** The positions of the slashes of a path. *)
Fixpoint slash_positions (i : Z) (path : bytes) : list Z :=
  match path with [] => [] | b :: path => if b =? 47 then i :: slash_positions (i + 1) path else slash_positions (i + 1) path end.

(** [Ignore::check]. *)
Fixpoint check_ancestors (x : Ignore) (path : bytes) (ends : list Z) (work : Z) : result Error (option Match * Z) :=
  match ends with
  | [] => Ok (None, work)
  | stop :: ends =>
      let? (found, work) := direct x (take (Z.to_nat stop) path) true work in
      match found with
      | Some m => if ignored m then Ok (Some m, work) else check_ancestors x path ends work
      | None => check_ancestors x path ends work
      end
  end.
Definition is_directory (k : InputKind) : bool := match k with DirectoryKind => true | File => false end.
Definition check (x : Ignore) (path : bytes) (kind : InputKind) : result Error (option Match) :=
  let? _ := validate_path path false (path_bytes (i_limits x)) in
  let? (found, work) := check_ancestors x path (slash_positions 0 path) (l_work (i_limits x)) in
  match found with
  | Some m => Ok (Some m)
  | None => let? (found, _) := direct x path (is_directory kind) work in Ok found
  end.

(** [Ignore::check_direct]. *)
Definition check_direct (x : Ignore) (path : bytes) (kind : InputKind) : result Error (option Match) :=
  let? _ := validate_path path false (path_bytes (i_limits x)) in
  let? (found, _) := direct x path (is_directory kind) (l_work (i_limits x)) in
  Ok found.
End IgnoreRules.
