(* ===== verification/IgnoreCorrect.v ===== *)
(** * What the ignore rules decide

    The decision of [check] against the precedence of rules, with its budget, and the
    invariant of a set of sources under [add]. *)

From stdpp Require Import base list numbers strings sets sorting.
From Stdlib Require Import ZArith Lia.
From S2P Require Import Prelude Bytes IgnorePattern IgnoreMatch IgnoreRules.

Module IgnoreCorrect.
Import Bytes IgnorePattern IgnoreMatch IgnoreRules.

(** ** Precedence *)

(** The rules of a set, the one that decides last. *)
Definition rules_of (s : Rules) : list (Rules * (Z * Pattern)) := map (fun p => (s, p)) (r_patterns s).
Definition all_rules (ss : list Rules) : list (Rules * (Z * Pattern)) := concat (map rules_of ss).

(** A rule matches a path below the directory of its source. *)
Definition hits (c : Case) (path : bytes) (dir : bool) (r : Rules * (Z * Pattern)) : Prop :=
  exists rel, relative path (r_base r.1) c = Some rel /\ applies r.2.2 rel dir.

Definition match_of (path : bytes) (r : Rules * (Z * Pattern)) : Match :=
  {| ignored := negb (negative r.2.2); m_source := (rank r.1).2; m_line := r.2.1; matched_bytes := zlen path |}.

(** The last rule of the list that matches. *)
Definition decided (c : Case) (rules : list (Rules * (Z * Pattern))) (path : bytes) (dir : bool) (o : option Match) : Prop :=
  match o with
  | None => Forall (fun r => ~ hits c path dir r) rules
  | Some m => exists before r after, rules = before ++ r :: after /\ hits c path dir r /\ Forall (fun r => ~ hits c path dir r) after /\ m = match_of path r
  end.
Definition decides (x : Ignore) (path : bytes) (dir : bool) (o : option Match) : Prop := decided (i_case x) (all_rules (sources x)) path dir o.

Lemma decided_app c before after path dir o : Forall (fun r => ~ hits c path dir r) after -> decided c before path dir o -> decided c (before ++ after) path dir o.
Proof.
  intros Ha. destruct o as [m|]; cbn; [|intros Hb; by apply Forall_app].
  intros (b & r & a & -> & Hr & Hn & ->). exists b, r, (a ++ after). split_and!; [by rewrite <- app_assoc|done| |done]. by apply Forall_app.
Qed.

(** ** Budgets *)

Definition source_cost (c : Case) (path : bytes) (s : Rules) : Z :=
  saturating_add (zlen (r_base s)) 1 +
  match relative path (r_base s) c with Some rel => foldr (fun p n => 1 + matching_cost p.2 rel + n) 0 (r_patterns s) | None => 0 end.
Definition direct_cost (x : Ignore) (path : bytes) : Z := foldr (fun s n => source_cost (i_case x) path s + n) 0 (sources x).

(** An outcome that is a decision within a cost, or the exhaustion of less work than it. *)
Definition within {A} (work cost : Z) (P : A -> Prop) (r : result Error (A * Z)) : Prop :=
  match r with Ok (a, w) => P a /\ work - cost <= w <= work /\ 0 <= w | Err e => e = Limit "matching work" /\ work < cost end.

Lemma matching_cost_nonneg p path : 0 <= matching_cost p path.
Proof. unfold matching_cost. pose proof (zlen_nonneg path). destruct (expression p) as [| |ts]; try lia. pose proof (zlen_nonneg ts). pose proof (cells_nonneg ts (subject p path)). lia. Qed.

Lemma within_bind {A B} work cost1 cost2 (P : A -> Prop) (Q : B -> Prop) r k : 0 <= cost2 -> within work cost1 P r ->
  (forall a w, P a -> 0 <= w -> within w cost2 Q (k (a, w))) -> within work (cost1 + cost2) Q (rbind r k).
Proof.
  intros H0 Hr Hk. destruct r as [[a w]|e]; cbn in *; [|destruct Hr; split; [done|lia]]. destruct Hr as (Ha & Hw & H1). specialize (Hk a w Ha H1). destruct (k (a, w)) as [[b w']|e]; cbn in *; destruct Hk; (split; [done|lia]).
Qed.

Lemma within_weaken {A} work cost cost' (P Q : A -> Prop) r : within work cost P r -> cost <= cost' -> (forall a, P a -> Q a) -> within work cost' Q r.
Proof. destruct r as [[a w]|e]; cbn; intros [H1 H2] Hc HPQ; (split; [auto|lia]). Qed.

Lemma charge_within {B} work cost cost2 (Q : B -> Prop) k : 0 <= cost2 -> 0 <= cost -> (cost <= work -> within (work - cost) cost2 Q (k (work - cost))) -> within work (cost + cost2) Q (rbind (charge work cost) k).
Proof.
  intros H2 H0 Hk. pose proof (charge_spec work cost) as Hc. destruct (charge work cost) as [w|e]; cbn [rbind]; [|destruct Hc; split; [done|lia]]. destruct Hc as [-> Hc]. specialize (Hk Hc).
  destruct (k (work - cost)) as [[b w']|e]; cbn in *; destruct Hk; (split; [done|lia]).
Qed.

Lemma cost_nonneg rel (ps : list (Z * Pattern)) : 0 <= foldr (fun p n => 1 + matching_cost p.2 rel + n) 0 ps.
Proof. induction ps as [|p ps IH]; cbn; [lia|]. pose proof (matching_cost_nonneg p.2 rel). lia. Qed.

Lemma foldr_cost_snoc rel (ps : list (Z * Pattern)) p :
  foldr (fun p n => 1 + matching_cost p.2 rel + n) 0 (ps ++ [p]) = foldr (fun p n => 1 + matching_cost p.2 rel + n) 0 ps + (1 + matching_cost p.2 rel).
Proof. induction ps as [|q ps IH]; cbn; [lia|]. rewrite IH. lia. Qed.

(** ** The searches *)

Lemma search_patterns_exact c s path rel dir ps work : relative path (r_base s) c = Some rel -> 0 <= work ->
  within work (foldr (fun p n => 1 + matching_cost p.2 rel + n) 0 ps) (decided c (map (fun p => (s, p)) ps) path dir) (search_patterns s path rel dir (reverse ps) work).
Proof.
  intros Hrel. revert work. induction ps as [|[line p] ps IH] using rev_ind; intros work Hw; [cbn; split; [constructor|lia]|].
  rewrite reverse_snoc, map_app, foldr_cost_snoc. cbn [map search_patterns snd]. pose proof (cost_nonneg rel ps) as Hc0. pose proof (matching_cost_nonneg p rel).
  replace (foldr _ 0 ps + (1 + matching_cost p rel)) with (1 + (matching_cost p rel + foldr (fun p n => 1 + matching_cost p.2 rel + n) 0 ps)) by lia.
  apply charge_within; [lia..|]. intros H1. eapply (within_bind _ _ _ (fun b : bool => b = true <-> applies p rel dir)); [done| |].
  { pose proof (matches_exact p rel dir (work - 1) ltac:(lia)) as Hm. destruct (matches p rel dir (work - 1)) as [[b w]|e]; done. }
  intros b w Hb Hw'. destruct b.
  - split; [|lia]. exists (map (fun p => (s, p)) ps), (s, (line, p)), []. split_and!; [done|exists rel; by split; [|apply Hb]|constructor|done].
  - eapply within_weaken; [by apply IH|lia|]. intros o Ho. apply decided_app; [|done]. constructor; [|constructor]. intros (rel' & Hr' & Ha). cbn [fst snd] in *. rewrite Hrel in Hr'. injection Hr' as <-. by apply Hb in Ha.
Qed.

Lemma all_rules_snoc ss s : all_rules (ss ++ [s]) = all_rules ss ++ rules_of s.
Proof. unfold all_rules. rewrite map_app, concat_app. cbn. by rewrite app_nil_r. Qed.

Lemma source_cost_nonneg c path s : 0 <= source_cost c path s.
Proof. unfold source_cost, saturating_add, usize_max. pose proof (zlen_nonneg (r_base s)). destruct (relative _ _ _) as [rel|]; [pose proof (cost_nonneg rel (r_patterns s)); lia|lia]. Qed.

Lemma sources_cost_nonneg c path ss : 0 <= foldr (fun s n => source_cost c path s + n) 0 ss.
Proof. induction ss as [|s ss IH]; cbn; [lia|]. pose proof (source_cost_nonneg c path s). lia. Qed.

Lemma search_sources_exact c path dir ss work : 0 <= work ->
  within work (foldr (fun s n => source_cost c path s + n) 0 ss) (decided c (all_rules ss) path dir) (search_sources c path dir (reverse ss) work).
Proof.
  revert work. induction ss as [|s ss IH] using rev_ind; intros work Hw; [cbn; split; [constructor|lia]|]. rewrite reverse_snoc, all_rules_snoc. cbn [search_sources].
  assert (foldr (fun s n => source_cost c path s + n) 0 (ss ++ [s]) = source_cost c path s + foldr (fun s n => source_cost c path s + n) 0 ss) as ->
    by (clear; induction ss as [|t ss IH]; cbn; [lia|rewrite IH; lia]).
  pose proof (sources_cost_nonneg c path ss) as Hc0. unfold source_cost at 1. rewrite <- Z.add_assoc. apply charge_within.
  { destruct (relative _ _ _) as [rel|]; [pose proof (cost_nonneg rel (r_patterns s)); lia|lia]. } { unfold saturating_add, usize_max. pose proof (zlen_nonneg (r_base s)). lia. }
  intros H1. destruct (relative path (r_base s) c) as [rel|] eqn:Hrel.
  - eapply (within_bind _ _ _ (decided c (rules_of s) path dir)); [done|apply search_patterns_exact; [done|lia]|]. intros o w Ho Hw'. destruct o as [m|].
    + split; [|lia]. destruct Ho as (before & r & after & E & Hr & Ha & ->). exists (all_rules ss ++ before), r, after. split_and!; [by rewrite E, <- app_assoc|done..].
    + eapply within_weaken; [by apply IH|lia|]. intros o Ho'. by apply decided_app.
  - eapply within_weaken; [apply IH; lia|lia|]. intros o Ho. apply decided_app; [|done]. apply Forall_forall. intros r (p & -> & _)%list_elem_of_fmap (rel & Hr & _). cbn in Hr. congruence.
Qed.

Lemma direct_exact x path dir work : 0 <= work -> within work (direct_cost x path) (decides x path dir) (direct x path dir work).
Proof. apply search_sources_exact. Qed.

Lemma decided_unique c rules path dir o1 o2 : decided c rules path dir o1 -> decided c rules path dir o2 -> o1 = o2.
Proof.
  assert (forall o before r after, decided c (before ++ r :: after) path dir o -> hits c path dir r -> Forall (fun r => ~ hits c path dir r) after -> o = Some (match_of path r)) as Hlast.
  { intros o before r after Ho Hr Ha. destruct o as [m|]; cbn in Ho; [|apply Forall_app in Ho as [_ Ho]; by apply Forall_cons in Ho as [? _]].
    destruct Ho as (b' & r' & a' & E & Hr' & Ha' & ->). do 2 f_equal. revert b' E. induction before as [|x before IH]; intros [|y b'] E; cbn in E; simplify_eq; [done| | |by eapply IH].
    - exfalso. rewrite Forall_forall in Ha. by apply (Ha r'); [apply elem_of_app; right; left|].
    - exfalso. rewrite Forall_forall in Ha'. by apply (Ha' r); [apply elem_of_app; right; left|]. }
  intros H1 H2. destruct o1 as [m|].
  - destruct H1 as (before & r & after & -> & Hr & Ha & ->). symmetry. by eapply Hlast.
  - destruct o2 as [m|]; [|done]. destruct H2 as (before & r & after & -> & Hr & Ha & ->). by eapply Hlast.
Qed.

(** ** Ancestors *)

Lemma elem_of_slash_positions i path s : s ∈ slash_positions i path <-> exists a, a ++ [47] `prefix_of` path /\ s = i + zlen a.
Proof.
  revert i. induction path as [|b path IH]; intros i; cbn [slash_positions].
  { split; [by intros ?%not_elem_of_nil|]. intros (a & [k E] & _). by destruct a. }
  assert (s ∈ slash_positions (i + 1) path <-> exists a, b :: a ++ [47] `prefix_of` b :: path /\ s = i + zlen (b :: a)) as Hrest.
  { rewrite IH. split; intros (a & Hp & ->); exists a; (split; [first [by apply prefix_cons | by eapply prefix_cons_inv_2]|rewrite zlen_cons; lia]). }
  destruct (Z.eqb_spec b 47) as [-> |Hb]; rewrite ?elem_of_cons, Hrest; clear Hrest.
  - split; [intros [-> |(a & Hp & ->)]; [exists []; split; [by exists path|change (zlen (@nil Z)) with 0; lia]|by exists (47 :: a)]|].
    intros ([|x a] & Hp & ->); [left; change (zlen (@nil Z)) with 0; lia|right]. exists a. split; [|apply prefix_cons_inv_1 in Hp as ->; done]. by apply prefix_cons_inv_1 in Hp as E; subst.
  - split; [intros (a & Hp & ->); by exists (b :: a)|]. intros ([|x a] & Hp & ->); [by apply prefix_cons_inv_1 in Hp; congruence|]. exists a. by apply prefix_cons_inv_1 in Hp as E; subst.
Qed.

Lemma slash_positions_sorted i path : StronglySorted Z.lt (slash_positions i path).
Proof.
  revert i. induction path as [|b path IH]; intros i; cbn [slash_positions]; [constructor|]. destruct (b =? 47); [|apply IH]. constructor; [apply IH|].
  apply Forall_forall. intros s (a & _ & ->)%elem_of_slash_positions. pose proof (zlen_nonneg a). lia.
Qed.

(** The decision for a path: its first excluded ancestor, or its own rules when none is. *)
Definition excluded (x : Ignore) (a : bytes) : Prop := exists m, decides x a true (Some m) /\ ignored m = true.
Definition outcome (x : Ignore) (path : bytes) (dir : bool) (o : option Match) : Prop :=
  (exists a m, o = Some m /\ a ++ [47] `prefix_of` path /\ decides x a true (Some m) /\ ignored m = true /\
     forall a', a' ++ [47] `prefix_of` path -> zlen a' < zlen a -> ~ excluded x a') \/
  (forall a, a ++ [47] `prefix_of` path -> ~ excluded x a) /\ decides x path dir o.

Definition ancestors_cost (x : Ignore) (path : bytes) (ends : list Z) : Z := foldr (fun stop n => direct_cost x (take (Z.to_nat stop) path) + n) 0 ends.
Definition check_cost (x : Ignore) (path : bytes) : Z := ancestors_cost x path (slash_positions 0 path) + direct_cost x path.

Lemma ancestors_cost_nonneg x path ends : 0 <= ancestors_cost x path ends.
Proof. unfold ancestors_cost. induction ends as [|s ends IH]; cbn [foldr]; [lia|]. pose proof (sources_cost_nonneg (i_case x) (take (Z.to_nat s) path) (sources x)) as H. fold (direct_cost x (take (Z.to_nat s) path)) in H. lia. Qed.

(** The loop over the ends of ancestors. *)
Lemma check_ancestors_exact x path ends work : StronglySorted Z.lt ends -> 0 <= work ->
  within work (ancestors_cost x path ends)
    (fun o => match o with
              | None => Forall (fun stop => ~ excluded x (take (Z.to_nat stop) path)) ends
              | Some m => exists stop, stop ∈ ends /\ decides x (take (Z.to_nat stop) path) true (Some m) /\ ignored m = true /\
                                       forall s, s ∈ ends -> s < stop -> ~ excluded x (take (Z.to_nat s) path)
              end) (check_ancestors x path ends work).
Proof.
  intros Hs. revert work. induction Hs as [|stop ends Hs IH Hlt]; intros work Hw; cbn [check_ancestors ancestors_cost foldr]; [split; [constructor|lia]|].
  eapply within_bind; [apply ancestors_cost_nonneg|by apply direct_exact|]. intros o w Ho Hw'. rewrite Forall_forall in Hlt.
  assert (match o with Some m => ignored m | None => false end = false -> ~ excluded x (take (Z.to_nat stop) path)) as Hne.
  { intros Hi (m & Hm & Hig). pose proof (decided_unique _ _ _ _ _ _ Ho Hm) as ->. congruence. }
  assert (match o with Some m => ignored m | None => false end = false -> within w (ancestors_cost x path ends)
    (fun o => match o with
              | None => Forall (fun stop => ~ excluded x (take (Z.to_nat stop) path)) (stop :: ends)
              | Some m => exists s, s ∈ stop :: ends /\ decides x (take (Z.to_nat s) path) true (Some m) /\ ignored m = true /\
                                    forall s', s' ∈ stop :: ends -> s' < s -> ~ excluded x (take (Z.to_nat s') path)
              end) (check_ancestors x path ends w)) as Hnext.
  { intros Hi. eapply within_weaken; [by apply IH|lia|]. intros [m|]; [|intros Hall; constructor; [by apply Hne|done]].
    intros (s & Hin & Hd & Hig & Hmin). exists s. split_and!; [by right|done..|]. intros s' [-> |Hin']%elem_of_cons Hless; [by apply Hne|by apply Hmin]. }
  destruct o as [m|]; [|by apply Hnext]. destruct (ignored m) eqn:Hi; [|by apply Hnext]. split; [|pose proof (ancestors_cost_nonneg x path ends) as H0; unfold ancestors_cost in H0; lia].
  exists stop. split_and!; [by left|done..|]. intros s [-> |Hin]%elem_of_cons Hless; [lia|]. specialize (Hlt s Hin). cbn in Hlt. lia.
Qed.

Definition path_ok (path : bytes) : Prop := 0 ∉ path /\ Forall (fun p => p <> [] /\ p <> [46] /\ p <> [46; 46]) (split_on 47 path).

Lemma validate_path_exact path limit : match validate_path path false limit with
  | Ok _ => zlen path <= limit /\ path_ok path
  | Err e => e = Limit "path bytes" /\ limit < zlen path \/ e = PathError /\ ~ path_ok path
  end.
Proof.
  unfold validate_path, path_ok. rewrite andb_false_r. destruct (Z.ltb_spec limit (zlen path)); [by left|]. destruct (contains 0 path) eqn:Ec; cbn [orb].
  { right. split; [done|]. intros [H0 _]. apply contains_false in H0. congruence. }
  apply contains_false in Ec. destruct (existsb _ _) eqn:Ex.
  - right. split; [done|]. intros [_ Hf]. rewrite Forall_forall in Hf. apply existsb_exists in Ex as (p & Hp%list_elem_of_In & Hx). destruct (Hf p Hp) as (H1 & H2 & H3).
    rewrite !orb_true_iff, !bytes_eqb_eq in Hx. tauto.
  - split_and!; [done..|]. apply Forall_forall. intros p Hp%list_elem_of_In. rewrite <- !bytes_eqb_eq. apply not_true_iff_false in Ex. rewrite existsb_exists in Ex.
    split_and!; intros E; apply Ex; exists p; (split; [done|]); rewrite E; by rewrite ?orb_true_r.
Qed.

Lemma take_ancestor a path : a ++ [47] `prefix_of` path -> take (Z.to_nat (0 + zlen a)) path = a.
Proof. intros [k ->]. rewrite <- app_assoc, take_app_length'; [done|]. unfold zlen. lia. Qed.

(** C21: [check] decides a path by the rules alone: the first ancestor directory whose last
    matching rule excludes it, else the last matching rule of the path itself, in the
    order of precedence of the sources.  It fails only for a path that is too long or not
    relative, or when the work of comparing every rule with every ancestor exceeds the
    budget of a query. *)
Theorem check_exact x path kind : 0 <= l_work (i_limits x) ->
  match check x path kind with
  | Ok o => path_ok path /\ outcome x path (is_directory kind) o
  | Err e => e = Limit "path bytes" /\ path_bytes (i_limits x) < zlen path \/ e = PathError /\ ~ path_ok path \/ e = Limit "matching work" /\ l_work (i_limits x) < check_cost x path
  end.
Proof.
  intros Hw. unfold check. pose proof (validate_path_exact path (path_bytes (i_limits x))) as Hv. destruct (validate_path _ _ _) as [[]|e]; cbn [rbind]; [|tauto]. destruct Hv as [_ Hp].
  pose proof (check_ancestors_exact x path (slash_positions 0 path) (l_work (i_limits x)) (slash_positions_sorted 0 path) Hw) as Ha. pose proof (sources_cost_nonneg (i_case x) path (sources x)) as Hd0. fold (direct_cost x path) in Hd0.
  destruct (check_ancestors _ _ _ _) as [[[m|] w]|e]; cbn [rbind]; cbn [within] in Ha; [| |right; right; destruct Ha; split; [done|unfold check_cost; lia]].
  - destruct Ha as [(stop & (a & Hpre & ->)%elem_of_slash_positions & Hd & Hi & Hmin) _]. rewrite take_ancestor in Hd by done. split; [done|]. left. exists a, m. split_and!; try done.
    intros a' Hpre' Hlt. specialize (Hmin (0 + zlen a')). rewrite take_ancestor in Hmin by done. apply Hmin; [apply elem_of_slash_positions; by exists a'|lia].
  - destruct Ha as (Hn & Hw' & Hw0). pose proof (direct_exact x path (is_directory kind) w Hw0) as Hd. destruct (direct _ _ _ _) as [[o w']|e]; cbn [rbind]; cbn [within] in Hd.
    + split; [done|]. right. split; [|apply Hd]. intros a Hpre. rewrite Forall_forall in Hn. specialize (Hn (0 + zlen a)). rewrite take_ancestor in Hn by done. apply Hn, elem_of_slash_positions. by exists a.
    + right. right. destruct Hd as [-> Hd]. split; [done|]. unfold check_cost. lia.
Qed.

(** The rules [build/] and [!build/keep] of the root directory. *)
Definition sample_rules : bytes := [98; 117; 105; 108; 100; 47; 10; 33; 98; 117; 105; 108; 100; 47; 107; 101; 101; 112; 10].
Definition sample_set : Ignore :=
  match add (Directory []) sample_rules (ignore_new Sensitive default_limits) with Ok (x, _) => x | Err _ => ignore_new Sensitive default_limits end.

Lemma check_exact_witness :
  check sample_set [98; 117; 105; 108; 100; 47; 107; 101; 101; 112] File = Ok (Some {| ignored := true; m_source := 0; m_line := 1; matched_bytes := 5 |}) /\
  outcome sample_set [98; 117; 105; 108; 100; 47; 107; 101; 101; 112] false (Some {| ignored := true; m_source := 0; m_line := 1; matched_bytes := 5 |}).
Proof.
  assert (check sample_set [98; 117; 105; 108; 100; 47; 107; 101; 101; 112] File = Ok (Some {| ignored := true; m_source := 0; m_line := 1; matched_bytes := 5 |})) as E by (vm_compute; reflexivity).
  split; [exact E|]. pose proof (check_exact sample_set [98; 117; 105; 108; 100; 47; 107; 101; 101; 112] File) as H. rewrite E in H. apply H. vm_compute. discriminate.
Defined.

(** ** Sets of sources *)

(** Everything that [ignore_new] and [add] make. *)
Inductive built (c : Case) (limits : Limits) : Ignore -> Prop :=
| built_new : built c limits (ignore_new c limits)
| built_add source content x x' i : built c limits x -> add source content x = Ok (x', i) -> built c limits x'.

Definition rank_le (a b : Rules) : Prop := rank_cmp a b <> Gt.
Definition rule_count (ss : list Rules) : Z := foldr (fun s n => zlen (r_patterns s) + n) 0 ss.

Record set_ok (c : Case) (limits : Limits) (x : Ignore) : Prop := {
  so_fields : i_case x = c /\ i_limits x = limits;
  so_sorted : StronglySorted rank_le (sources x);
  so_indices : map (fun s => (rank s).2) (sources x) ≡ₚ seqZ 0 (zlen (sources x));
  so_counts : i_patterns x = rule_count (sources x) /\ i_patterns x <= Z.max 0 (l_patterns limits) /\ i_bytes x <= Z.max 0 (l_bytes limits) /\ zlen (sources x) <= Z.max 0 (l_sources limits)
}.

Lemma rank_cmp_swap a b : rank_cmp b a = CompOpp (rank_cmp a b).
Proof.
  unfold rank_cmp. destruct (rank a) as [[l1 d1] i1], (rank b) as [[l2 d2] i2]. rewrite (Z.compare_antisym l1 l2). destruct (l1 ?= l2); try done. cbn. rewrite (Z.compare_antisym d1 d2). destruct (d1 ?= d2); try done. cbn. apply Z.compare_antisym.
Qed.

Lemma rank_le_iff a b : rank_le a b <-> let '(l1, d1, i1) := rank a in let '(l2, d2, i2) := rank b in l1 < l2 \/ l1 = l2 /\ (d1 < d2 \/ d1 = d2 /\ i1 <= i2).
Proof.
  unfold rank_le, rank_cmp. destruct (rank a) as [[l1 d1] i1], (rank b) as [[l2 d2] i2]. destruct (Z.compare_spec l1 l2); [|split; [lia|done]|split; [done|lia]].
  destruct (Z.compare_spec d1 d2); [|split; [lia|done]|split; [done|lia]]. rewrite Z.compare_gt_iff. lia.
Qed.
#[export] Instance rank_le_trans : Transitive rank_le.
Proof. intros a b c. rewrite !rank_le_iff. destruct (rank a) as [[? ?] ?], (rank b) as [[? ?] ?], (rank c) as [[? ?] ?]. lia. Qed.

Lemma parse_lines_count x line lines ps ps' : parse_lines x line lines ps = Ok ps' -> l_patterns (i_limits x) <= usize_max -> i_patterns x + zlen ps <= Z.max 0 (l_patterns (i_limits x)) -> i_patterns x + zlen ps' <= Z.max 0 (l_patterns (i_limits x)).
Proof.
  intros H Hm. revert line ps H. induction lines as [|raw lines IH]; intros line ps; cbn [parse_lines]; [by intros <-%ok_inj|]. destruct (_ <? zlen raw); [done|]. destruct (parse raw (i_case x)) as [p|]; [|apply IH].
  destruct (Z.leb_spec (l_patterns (i_limits x)) (saturating_add (i_patterns x) (zlen ps))) as [|Hlt]; [done|]. intros H Hc. eapply IH; [exact H|]. rewrite zlen_app. change (zlen [(line + 1, p)]) with 1.
  unfold saturating_add in Hlt. lia.
Qed.

Lemma rule_count_perm ss ss' : ss ≡ₚ ss' -> rule_count ss = rule_count ss'.
Proof. unfold rule_count. induction 1; cbn [foldr]; lia. Qed.
Lemma rule_count_snoc ss s : rule_count (ss ++ [s]) = rule_count ss + zlen (r_patterns s).
Proof. unfold rule_count. induction ss as [|t ss IH]; cbn [foldr app]; [lia|]. rewrite IH. lia. Qed.

(** What one addition makes of a set. *)
Lemma add_spec source content x x' i : add source content x = Ok (x', i) -> exists rules,
  sources x' = sort_by rank_cmp (sources x ++ [rules]) /\ rank rules = ((level_of source).1, (rank rules).1.2, zlen (sources x)) /\ i = zlen (sources x) /\
  parse_lines x 0 (split_on 10 (default content (strip_prefix [239; 187; 191] content))) [] = Ok (r_patterns rules) /\
  i_case x' = i_case x /\ i_limits x' = i_limits x /\ i_patterns x' = i_patterns x + zlen (r_patterns rules) /\
  i_bytes x' <= l_bytes (i_limits x) /\ zlen (sources x) < l_sources (i_limits x).
Proof.
  unfold add. destruct (level_of source) as [level base]. destruct (validate_path _ _ _) as [[]|]; cbn [rbind]; [|done]. destruct (Z.ltb_spec (l_bytes (i_limits x)) (saturating_add (saturating_add (i_bytes x) (zlen content)) (zlen base))); [done|].
  destruct (Z.leb_spec (l_sources (i_limits x)) (zlen (sources x))); [done|]. destruct (parse_lines _ _ _ _) as [ps|]; cbn [rbind]; [|done]. intros [<- <-]%ok_inj%pair_equal_spec.
  eexists {| r_patterns := ps |}. cbn [sources rank r_patterns i_case i_limits i_patterns i_bytes fst snd]. by split_and!.
Qed.

Lemma add_set_ok c limits source content x x' i : l_patterns limits <= usize_max -> set_ok c limits x -> add source content x = Ok (x', i) -> set_ok c limits x'.
Proof.
  intros Hm [[Hc Hl] Hs Hi (Hp & Hp' & Hb & Hn)] (rules & Es & Er & _ & Hps & Ec & El & Ep & Eb & En)%add_spec. rewrite Hl in *. pose proof (sort_by_perm rank_cmp (sources x ++ [rules])) as Hperm. rewrite <- Es in Hperm.
  assert (zlen (sources x') = zlen (sources x) + 1) as Hlen by (unfold zlen; rewrite Hperm, length_app; cbn; lia). constructor.
  - by rewrite Ec, El.
  - rewrite Es. apply Sorted_StronglySorted; [apply rank_le_trans|]. apply sort_by_Sorted. intros a b Hab. by rewrite rank_cmp_swap, Hab.
  - etransitivity; [apply Permutation_map, Hperm|]. rewrite map_app, Hi, Hlen. cbn [map]. rewrite Er. cbn [snd]. pose proof (zlen_nonneg (sources x)) as H0. rewrite (seqZ_app 0 (zlen (sources x)) 1) by lia. done.
  - rewrite Hlen, Ep, (rule_count_perm _ _ Hperm), rule_count_snoc, Hp. split_and!; [done| |lia..]. rewrite <- Hp. rewrite <- Hl. eapply parse_lines_count; [exact Hps|by rewrite Hl|]. change (zlen (@nil (Z * Pattern))) with 0. rewrite Hl. lia.
Qed.

(** Every set of sources that [Ignore::new] and [add] make is in order of precedence (the
    kind of the source, then the depth of its directory, then the order of the additions),
    numbers its sources by their additions and stays within its limits on rules, bytes and
    sources. *)
Theorem sources_ordered c limits x : l_patterns limits <= usize_max -> built c limits x -> set_ok c limits x.
Proof.
  intros Hm. induction 1 as [|source content x x' i _ IH Hadd]; [|by eapply add_set_ok].
  constructor; cbn [ignore_new sources i_case i_limits i_patterns i_bytes]; [done|constructor|done|]. change (zlen (@nil Rules)) with 0. cbn [rule_count foldr]. lia.
Qed.

Lemma sources_ordered_witness : set_ok Sensitive default_limits sample_set /\ zlen (sources sample_set) = 1.
Proof.
  split; [|vm_compute; reflexivity]. apply (sources_ordered Sensitive default_limits sample_set); [vm_compute; discriminate|].
  eapply (built_add _ _ (Directory []) sample_rules (ignore_new Sensitive default_limits) sample_set 0); [apply built_new|vm_compute; reflexivity].
Defined.
End IgnoreCorrect.
