(* ===== verification/Refspec.v ===== *)
(** * Reference specifications ([src/src/remote/refspec.rs])

    Parsing of one specification and of a list, the mapping of source tips to destinations
    and the reverse mapping that decides which source a tracking reference belongs to. *)

From stdpp Require Import base list numbers strings sets.
From Stdlib Require Import ZArith Lia.
From S2P Require Import Prelude Bytes Objects RefNames.

Module Refspec.
Import Objects.

Inductive Direction := Fetch | Push.
#[global] Instance Direction_eq_dec : EqDecision Direction.
Proof. solve_decision. Defined.
#[global] Instance RefName_eq_dec : EqDecision RefNames.RefName.
Proof. solve_decision. Defined.

Record Refspec := { raw : bytes; source : bytes; destination_pattern : option bytes; force : bool; negative : bool; wildcard : bool }.
Inductive RefspecError := Syntax (what : string) | Unsupported (what : string) | NameError.
Record RefspecsError := { e_index : Z; e_source : RefspecError }.

(** ** Parsing *)

Definition validate_pattern (bs : bytes) (source : bool) : result RefspecError unit :=
  if source && bytes_eqb bs (bstr "HEAD") then Ok tt
  else if negb (starts_with (bstr "refs/") bs) then Err (Unsupported "requires full refs/ name; only exact source HEAD is allowed")
  else match RefNames.new (map (fun b => if b =? 42 then 120 else b) bs) with Ok _ => Ok tt | Err _ => Err NameError end.

Definition star (b : Z) : bool := b =? 42.
Definition stars (bs : bytes) : Z := zlen (List.filter star bs).

(** The destination that a direction, the text after the colon and the sign give. *)
Definition destination_of (direction : Direction) (source : bytes) (explicit : option bytes) (negative : bool) : result RefspecError (option bytes) :=
  if negative then Ok None
  else
    match direction, explicit with
    | Fetch, None | Fetch, Some [] => Ok None
    | Push, None => Ok (Some source)
    | Push, Some [] => Err (Unsupported "empty push destination")
    | _, Some value => Ok (Some value)
    end.

(** [Refspec::parse]. *)
Definition parse (direction : Direction) (bs : bytes) : result RefspecError Refspec :=
  let force := starts_with (bstr "+") bs in
  let body := if force then drop 1 bs else bs in
  let negative := starts_with (bstr "^") body in
  let body := if negative then drop 1 body else body in
  if negative && (negb (bool_decide (direction = Fetch)) || force || contains 58 body) then Err (Syntax "negative specs are fetch-only, without + or destination")
  else if bytes_eqb body [] || bytes_eqb body [58] || starts_with (bstr "tag ") body then Err (Unsupported "empty/default, matching, or tag shorthand")
  else
    let parts := split_on 58 body in
    let source := default [] (head parts) in
    let explicit := parts !! 1%nat in
    if bool_decide (is_Some (parts !! 2%nat)) then Err (Syntax "more than one colon")
    else
      let? destination := destination_of direction source explicit negative in
      if bytes_eqb source [] && bool_decide (direction = Fetch) then Err (Unsupported "empty fetch source")
      else
        let source_stars := stars source in
        let destination_stars := match destination with Some d => stars d | None => 0 end in
        if (1 <? source_stars) || (1 <? destination_stars) || (negb negative && negb (source_stars =? destination_stars))
        then Err (Syntax "wildcards require exactly one * on both sides")
        else
          let? _ := if bytes_eqb source [] then Ok tt else validate_pattern source true in
          let? _ := match destination with Some d => validate_pattern d false | None => Ok tt end in
          Ok {| raw := bs; source := source; destination_pattern := destination; force := force; negative := negative; wildcard := source_stars =? 1 |}.

(** ** One specification *)

Inductive MappingError :=
| UnmatchedSource (name : bytes)
| DuplicateSource (name : RefNames.RefName)
| ZeroId (name : RefNames.RefName)
| Collision (name : RefNames.RefName)
| InvalidDestination
| DirectionError
| Limit (what : string)
| Cancelled.

(** The bytes that the star of a pattern stands for in a name. *)
Definition star_capture (pattern : bytes) (at_ : nat) (name : bytes) : option bytes :=
  strip_prefix (take at_ pattern) name ≫= strip_suffix (drop (at_ + 1) pattern).
(** The pattern with its star replaced. *)
Definition substitute (pattern : bytes) (at_ : nat) (capture : bytes) : bytes := take at_ pattern ++ capture ++ drop (at_ + 1) pattern.

(** [Refspec::capture]; a wildcard without a star, which [parse] never makes, would panic. *)
Definition capture (s : Refspec) (name : bytes) : option bytes :=
  if wildcard s then at_ ← position star (source s); star_capture (source s) at_ name
  else if bytes_eqb (source s) name then Some [] else None.

(** [Refspec::destination]. *)
Definition destination (s : Refspec) (capture : bytes) : result MappingError (option RefNames.RefName) :=
  match destination_pattern s with
  | None => Ok None
  | Some pattern =>
      let bs := match position star pattern with Some at_ => substitute pattern at_ capture | None => pattern end in
      match RefNames.new bs with Ok name => Ok (Some name) | Err _ => Err InvalidDestination end
  end.

(** [Refspec::source_for_destination]. *)
Definition source_for_destination (s : Refspec) (d : RefNames.RefName) : option bytes :=
  if negative s then None
  else
    pattern ← destination_pattern s;
    capture ←
      match position star pattern with
      | Some at_ => star_capture pattern at_ (RefNames.as_bytes d)
      | None => if bytes_eqb pattern (RefNames.as_bytes d) then Some [] else None
      end;
    Some (match position star (source s) with Some at_ => substitute (source s) at_ capture | None => source s end).

(** ** Lists of specifications *)

Record RefSource := { src_name : RefNames.RefName; src_id : ObjectId }.
Inductive ForceIntent := Normal | Requested.
Record Mapping := { m_source : option RefSource; m_destination : option RefNames.RefName; m_force : ForceIntent }.
#[global] Instance RefSource_eq_dec : EqDecision RefSource.
Proof. solve_decision. Defined.
#[global] Instance ForceIntent_eq_dec : EqDecision ForceIntent.
Proof. solve_decision. Defined.
#[global] Instance Mapping_eq_dec : EqDecision Mapping.
Proof. solve_decision. Defined.

Record Refspecs := { direction : Direction; specs : list Refspec }.

(** [Refspecs::parse]. *)
Fixpoint parse_each (d : Direction) (index : Z) (values : list bytes) : result RefspecsError (list Refspec) :=
  match values with
  | [] => Ok []
  | bs :: values =>
      match parse d bs with
      | Err e => Err {| e_index := index; e_source := e |}
      | Ok s => let? rest := parse_each d (index + 1) values in Ok (s :: rest)
      end
  end.
Definition parse_all (d : Direction) (values : list bytes) : result RefspecsError Refspecs :=
  let? specs := parse_each d 0 values in Ok {| direction := d; specs := specs |}.

(** Whether a negative specification names the source. *)
Definition excluded (specs : list Refspec) (name : bytes) : bool := existsb (fun s => negative s && bool_decide (is_Some (capture s name))) specs.

(** [Refspecs::prune_sources]. *)
Definition prune_sources (r : Refspecs) (d : RefNames.RefName) : list bytes :=
  List.filter (fun source => negb (excluded (specs r) source)) (omap (fun s => source_for_destination s d) (specs r)).

(** [Plan]; the sets of the code as lists, since only their members matter. *)
Record Plan := { mappings : list Mapping; seen : list Mapping; destinations : list RefNames.RefName }.
Definition empty_plan : Plan := {| mappings := []; seen := []; destinations := [] |}.

(** [Plan::add]. *)
Definition add (m : Mapping) (p : Plan) : result MappingError Plan :=
  if bool_decide (m ∈ seen p) then Ok p
  else
    let? ds :=
      match m_destination m with
      | None => Ok (destinations p)
      | Some d => if bool_decide (d ∈ destinations p) then Err (Collision d) else Ok (d :: destinations p)
      end in
    Ok {| mappings := mappings p ++ [m]; seen := m :: seen p; destinations := ds |}.

Definition mapping (s : Refspec) (capture : bytes) (source : option RefSource) : result MappingError Mapping :=
  let? d := destination s capture in
  Ok {| m_source := source; m_destination := d; m_force := if force s then Requested else Normal |}.

(** The check of the names and identities of the sources. *)
Fixpoint check_sources (names : list RefNames.RefName) (sources : list RefSource) : result MappingError unit :=
  match sources with
  | [] => Ok tt
  | s :: sources =>
      if bool_decide (src_name s ∈ names) then Err (DuplicateSource (src_name s))
      else if is_null (src_id s) then Err (ZeroId (src_name s))
      else check_sources (src_name s :: names) sources
  end.

(** The loop over the sources for one specification. *)
Fixpoint map_sources (all : list Refspec) (s : Refspec) (sources : list RefSource) (matched : bool) (p : Plan) : result MappingError (bool * Plan) :=
  match sources with
  | [] => Ok (matched, p)
  | src :: sources =>
      match capture s (RefNames.as_bytes (src_name src)) with
      | None => map_sources all s sources matched p
      | Some c =>
          if excluded all (RefNames.as_bytes (src_name src)) then map_sources all s sources true p
          else
            let? m := mapping s c (Some src) in
            let? p := add m p in
            map_sources all s sources true p
      end
  end.

Fixpoint map_specs (all : list Refspec) (ss : list Refspec) (sources : list RefSource) (p : Plan) (missing : list bytes) : result MappingError (Plan * list bytes) :=
  match ss with
  | [] => Ok (p, missing)
  | s :: ss =>
      if negative s then map_specs all ss sources p missing
      else if bytes_eqb (source s) [] then
        let? m := mapping s [] None in
        let? p := add m p in
        map_specs all ss sources p missing
      else
        let? (matched, p) := map_sources all s sources false p in
        map_specs all ss sources p (if negb matched && negb (wildcard s) then missing ++ [source s] else missing)
  end.

(** [Refspecs::map_with_missing] and [Refspecs::map]. *)
Definition map_with_missing (r : Refspecs) (sources : list RefSource) : result MappingError (list Mapping * list bytes) :=
  let? _ := check_sources [] sources in
  let? (p, missing) := map_specs (specs r) (specs r) sources empty_plan [] in
  Ok (mappings p, missing).
Definition complete (r : list Mapping * list bytes) : result MappingError (list Mapping) :=
  match r.2 with source :: _ => Err (UnmatchedSource source) | [] => Ok r.1 end.
Definition map_tips (r : Refspecs) (sources : list RefSource) : result MappingError (list Mapping) :=
  let? found := map_with_missing r sources in complete found.

(** ** Advertisements *)

Inductive AdvertisementKind := Tip | PeeledHint.
Record AdvertisedRef := { a_name : RefNames.RefName; a_id : ObjectId; a_kind : AdvertisementKind }.
Definition is_tip (k : AdvertisementKind) : bool := match k with Tip => true | PeeledHint => false end.
Definition tips (refs : list AdvertisedRef) : list RefSource :=
  map (fun r => {| src_name := a_name r; src_id := a_id r |}) (List.filter (fun r => is_tip (a_kind r)) refs).

(** [Refspecs::map_advertisement_with_missing] and [Refspecs::map_advertisement]. *)
Definition map_advertisement_with_missing (r : Refspecs) (refs : list AdvertisedRef) : result MappingError (list Mapping * list bytes) :=
  match direction r with Fetch => map_with_missing r (tips refs) | Push => Err DirectionError end.
Definition map_advertisement (r : Refspecs) (refs : list AdvertisedRef) : result MappingError (list Mapping) :=
  match direction r with Fetch => map_tips r (tips refs) | Push => Err DirectionError end.
End Refspec.
