(* ===== verification/RefspecCorrect.v ===== *)
(** * Reference specifications map and prune exactly

    The meaning of a pattern with one star, the plan that [map_with_missing] makes against
    the mappings that the specifications ask for, and the agreement of the reverse mapping
    with the forward one. *)

From stdpp Require Import base list numbers strings sets.
From Stdlib Require Import ZArith Lia.
From S2P Require Import Prelude Bytes Objects RefNames Refspec.

Module RefspecCorrect.
Import Objects Refspec.

(** ** Patterns *)

(** The pattern stands for the name when its star stands for the capture. *)
Definition stands (pattern capture name : bytes) : Prop :=
  (exists a b, pattern = a ++ 42 :: b /\ 42 ∉ a /\ name = a ++ capture ++ b) \/ 42 ∉ pattern /\ name = pattern /\ capture = [].

Lemma stars_zero p : stars p = 0 <-> 42 ∉ p.
Proof.
  unfold stars. induction p as [|b p IH]; cbn [List.filter]; [split; [intros _; apply not_elem_of_nil|done]|]. unfold star at 1. rewrite not_elem_of_cons. destruct (Z.eqb_spec b 42) as [-> |Hb].
  - rewrite zlen_cons. pose proof (zlen_nonneg (List.filter star p)). split; [lia|naive_solver].
  - rewrite IH. naive_solver.
Qed.

Lemma star_position p i : position star p = Some i <-> exists a b, p = a ++ 42 :: b /\ 42 ∉ a /\ i = length a.
Proof.
  rewrite position_Some. unfold star. split.
  - intros (a & x & b & -> & <- & Hx%Z.eqb_eq & Ha). subst x. exists a, b. split_and!; [done| |done]. intros Hin. rewrite Forall_forall in Ha. by apply Ha in Hin.
  - intros (a & b & -> & Ha & ->). exists a, 42, b. split_and!; [done..|]. apply Forall_forall. intros x Hx. apply Z.eqb_neq. by intros ->.
Qed.

Lemma first_star (a b a' b' : bytes) : a ++ 42 :: b = a' ++ 42 :: b' -> 42 ∉ a -> 42 ∉ a' -> a = a' /\ b = b'.
Proof.
  intros E Ha Ha'. assert (Some (length a) = Some (length a')) as [= Hl]; [|by apply app_inj_1 in E as [-> [= ->]]].
  transitivity (position star (a ++ 42 :: b)); [symmetry; apply star_position; by exists a, b|apply star_position; by exists a', b'].
Qed.

Lemma star_none p : position star p = None <-> 42 ∉ p.
Proof.
  rewrite position_None. unfold star. rewrite Forall_forall. split; [|intros Hp x Hx; apply Z.eqb_neq; by intros ->]. intros H Hin. by apply H in Hin.
Qed.

Lemma cut_star (a b : bytes) : take (length a) (a ++ 42 :: b) = a /\ drop (length a + 1) (a ++ 42 :: b) = b.
Proof. split; [by rewrite take_app_length|]. rewrite drop_app_ge by lia. by replace (length a + 1 - length a)%nat with 1%nat by lia. Qed.

Lemma star_capture_spec a b name c : star_capture (a ++ 42 :: b) (length a) name = Some c <-> name = a ++ c ++ b.
Proof.
  unfold star_capture. destruct (cut_star a b) as [-> ->]. rewrite bind_Some. setoid_rewrite strip_prefix_Some. setoid_rewrite strip_suffix_Some. naive_solver.
Qed.

Lemma substitute_spec a b c : substitute (a ++ 42 :: b) (length a) c = a ++ c ++ b.
Proof. unfold substitute. by destruct (cut_star a b) as [-> ->]. Qed.

(** The name that a pattern and a capture make. *)
Lemma stands_substituted p c name : (42 ∉ p -> c = []) ->
  stands p c name <-> name = match position star p with Some i => substitute p i c | None => p end.
Proof.
  intros Hc. unfold stands. destruct (position star p) as [i|] eqn:E.
  - apply star_position in E as (a & b & -> & Ha & ->). rewrite substitute_spec. split; [|intros ->; left; by exists a, b].
    intros [(a' & b' & E & Ha' & ->)|(Hn & _)]; [|exfalso; apply Hn, elem_of_app; right; left]. by destruct (first_star _ _ _ _ E Ha Ha') as [-> ->].
  - apply star_none in E. split; [intros [(a & b & -> & _)|(_ & -> & _)]; [exfalso; apply E, elem_of_app; right; left|done]|]. intros ->. right. auto.
Qed.

Lemma stands_captured p c name :
  stands p c name <-> match position star p with Some i => star_capture p i name | None => if bytes_eqb p name then Some [] else None end = Some c.
Proof.
  unfold stands. destruct (position star p) as [i|] eqn:E.
  - apply star_position in E as (a & b & -> & Ha & ->). rewrite star_capture_spec. split; [|intros ->; left; by exists a, b].
    intros [(a' & b' & E & Ha' & ->)|(Hn & _)]; [|exfalso; apply Hn, elem_of_app; right; left]. by destruct (first_star _ _ _ _ E Ha Ha') as [-> ->].
  - apply star_none in E. split.
    + intros [(a & b & -> & _)|(_ & -> & ->)]; [exfalso; apply E, elem_of_app; right; left|]. by rewrite (proj2 (bytes_eqb_eq p p)).
    + destruct (bytes_eqb p name) eqn:Eb; [|done]. apply bytes_eqb_eq in Eb as ->. intros [= <-]. by right.
Qed.

(** ** Specifications *)

(** What [parse] ensures of a specification. *)
Record spec_ok (d : Direction) (s : Refspec) : Prop := {
  ok_wildcard : wildcard s = true <-> 42 ∈ source s;
  ok_negative : negative s = true -> source s <> [] /\ destination_pattern s = None;
  ok_stars : negative s = false -> 42 ∈ source s <-> exists p, destination_pattern s = Some p /\ 42 ∈ p;
  ok_empty : source s = [] -> d = Push /\ negative s = false /\ is_Some (destination_pattern s)
}.

Lemma stars_one p : stars p <= 1 -> (stars p =? 1) = true <-> 42 ∈ p.
Proof.
  intros H. assert (0 <= stars p) as H0 by apply zlen_nonneg. rewrite Z.eqb_eq. destruct (decide (42 ∈ p)) as [Hin|Hin]; [|apply stars_zero in Hin as E; split; [lia|done]].
  split; [done|]. intros _. destruct (Z.eq_dec (stars p) 0) as [E|]; [by apply stars_zero in E|lia].
Qed.

Lemma parse_spec_ok d bs s : parse d bs = Ok s -> spec_ok d s.
Proof.
  unfold parse. set (body := if starts_with _ bs then _ else _). set (neg := starts_with (bstr "^") body). set (rest := if neg then _ else _).
  destruct (neg && _) eqn:En; [done|]. destruct (_ || starts_with (bstr "tag ") rest) eqn:Et; [done|]. destruct (bool_decide (is_Some _)) eqn:Hp2; [done|].
  set (src := default [] (head (split_on 58 rest))). destruct (destination_of d src _ neg) as [dest|] eqn:Ed; cbn [rbind]; [|done].
  destruct (_ && bool_decide (d = Fetch)) eqn:Ef; [done|]. match goal with |- context [if ?b then Err (Syntax "wildcards require exactly one * on both sides") else _] => destruct b eqn:Es; [done|] end. apply orb_false_iff in Es as [[Hs1 Hs2]%orb_false_iff Hs3]. apply Z.ltb_ge in Hs1, Hs2.
  intros (? & _ & (? & _ & <-%ok_inj)%rbind_Ok)%rbind_Ok.
  pose proof (stars_one src Hs1) as Hw. constructor; cbn [source wildcard negative destination_pattern]; [done|intros Hn..|].
  - rewrite Hn in *. unfold destination_of in Ed. injection Ed as <-. split; [|done]. intros E. rewrite E in Ef. by destruct d.
  - rewrite Hn in Hs3. cbn in Hs3. apply negb_false_iff, Z.eqb_eq in Hs3. rewrite <- Hw, Hs3. destruct dest as [p|]; [|split; [done|naive_solver]]. rewrite (stars_one p Hs2). naive_solver.
  - intros E. rewrite E in Ef. destruct d; [done|]. destruct neg; [done|]. split_and!; [done..|]. unfold destination_of in Ed.
    destruct (split_on 58 rest !! 1%nat) as [[|? v]|]; simplify_eq; eauto.
Qed.

Lemma parse_all_ok d values r : parse_all d values = Ok r -> direction r = d /\ Forall (spec_ok d) (specs r).
Proof.
  unfold parse_all. destruct (parse_each d 0 values) as [ss|] eqn:E; cbn [rbind]; [|done]. intros <-%ok_inj. split; [done|]. cbn [specs]. revert ss E. generalize 0.
  induction values as [|bs values IH]; intros i ss; cbn [parse_each]; [intros <-%ok_inj; constructor|]. destruct (parse d bs) as [s|] eqn:Es; [|done].
  destruct (parse_each d (i + 1) values) as [rest|] eqn:Er; cbn [rbind]; [|done]. intros <-%ok_inj. constructor; [by eapply parse_spec_ok|by eapply IH].
Qed.

Lemma capture_iff d s name c : spec_ok d s -> capture s name = Some c <-> stands (source s) c name.
Proof.
  intros Hs. rewrite stands_captured. unfold capture. destruct (wildcard s) eqn:Ew.
  - apply (ok_wildcard d s Hs) in Ew. destruct (position star (source s)) as [i|] eqn:Ep; [done|]. by apply star_none in Ep.
  - assert (position star (source s) = None) as ->; [|done]. apply star_none. intros Hin%(ok_wildcard d s Hs). congruence.
Qed.

(** The destination of a capture, when it is a name. *)
Definition lands (s : Refspec) (c : bytes) (o : option RefNames.RefName) : Prop :=
  match destination_pattern s with
  | None => o = None
  | Some p => exists d, o = Some d /\ stands p c (RefNames.as_bytes d) /\ RefNames.new (RefNames.as_bytes d) = Ok d
  end.

Lemma destination_lands s c : (forall p, destination_pattern s = Some p -> 42 ∉ p -> c = []) ->
  match destination s c with Ok o => lands s c o /\ (forall o', lands s c o' -> o' = o) | Err e => e = InvalidDestination /\ forall o, ~ lands s c o end.
Proof.
  intros Hc. unfold destination, lands. destruct (destination_pattern s) as [p|]; [|by split; [|intros o ->]]. specialize (Hc p eq_refl). pose proof (fun name => stands_substituted p c name Hc) as Hsub.
  set (bs := match position star p with Some _ => _ | None => _ end). fold bs in Hsub. destruct (RefNames.new bs) as [d|] eqn:E; setoid_rewrite Hsub.
  - pose proof E as [Hd _]%RefNames.new_Ok. split; [exists d; split_and!; [done..|by rewrite Hd]|]. intros o (d' & -> & E' & _). f_equal. destruct d, d'; cbn in *. congruence.
  - split; [done|]. intros o (d & -> & Ed & Hn). rewrite Ed in Hn. congruence.
Qed.

(** A capture of the source fits the destination. *)
Lemma capture_fits d s c name p : spec_ok d s -> negative s = false -> stands (source s) c name -> destination_pattern s = Some p -> 42 ∉ p -> c = [].
Proof.
  intros Hs Hn Hst Hp Hnp. destruct Hst as [(a & b & E & _)|(_ & _ & ->)]; [|done]. exfalso. assert (42 ∈ source s) as Hin by (rewrite E; apply elem_of_app; right; left).
  apply (ok_stars d s Hs Hn) in Hin as (p' & Hp' & Hin). congruence.
Qed.

(** The reverse mapping inverts the forward one. *)
Lemma source_for_destination_iff d s name src : spec_ok d s -> source_for_destination s name = Some src <->
  negative s = false /\ exists p c, destination_pattern s = Some p /\ stands p c (RefNames.as_bytes name) /\ stands (source s) c src.
Proof.
  intros Hs. unfold source_for_destination. destruct (negative s) eqn:En; [split; [done|naive_solver]|]. destruct (destination_pattern s) as [p|] eqn:Ep; cbn [mbind option_bind]; [|split; [done|naive_solver]].
  assert (forall c, stands p c (RefNames.as_bytes name) -> 42 ∉ source s -> c = []) as Hfit.
  { intros c [(a & b & E & _)|(_ & _ & ->)] Hnin; [|done]. exfalso. apply Hnin, (ok_stars d s Hs En). exists p. split; [done|]. rewrite E. apply elem_of_app. right. left. }
  rewrite bind_Some. setoid_rewrite <- stands_captured. split.
  - intros (c & Hc & [= <-]). split; [done|]. exists p, c. split_and!; [done..|]. by apply stands_substituted; [apply Hfit|].
  - intros (_ & p' & c & [= <-] & Hc & Hsrc). exists c. split; [done|]. f_equal. symmetry. apply stands_substituted; [by apply Hfit|done].
Qed.

(** ** Plans *)

Record plan_ok (p : Plan) : Prop := {
  po_seen : forall m, m ∈ seen p <-> m ∈ mappings p;
  po_destinations : forall d, d ∈ destinations p <-> exists m, m ∈ mappings p /\ m_destination m = Some d;
  po_nodup : NoDup (mappings p);
  po_targets : NoDup (omap m_destination (mappings p))
}.

(** Two mappings that cannot be in one plan. *)
Definition collide (Q : Mapping -> Prop) (d : RefNames.RefName) : Prop :=
  exists m1 m2, Q m1 /\ Q m2 /\ m1 <> m2 /\ m_destination m1 = Some d /\ m_destination m2 = Some d.

Lemma add_plan m p : plan_ok p ->
  match add m p with
  | Ok p' => plan_ok p' /\ forall x, x ∈ mappings p' <-> x ∈ mappings p \/ x = m
  | Err e => exists d, e = Collision d /\ collide (fun x => x ∈ mappings p \/ x = m) d
  end.
Proof.
  intros Hp. destruct Hp as [Hs Hd Hn Ht]. unfold add. case_bool_decide as Hin; [split; [done|]; apply Hs in Hin; naive_solver|]. rewrite Hs in Hin.
  assert (forall ds, (forall d, d ∈ ds <-> d ∈ destinations p \/ m_destination m = Some d) -> NoDup (omap m_destination (mappings p ++ [m])) ->
    plan_ok {| mappings := mappings p ++ [m]; seen := m :: seen p; destinations := ds |}) as Hnew.
  { intros ds Hds Hto. constructor; cbn [mappings seen destinations]; [| |apply NoDup_app; split_and!; [done| |apply NoDup_singleton]|done].
    - intros x. rewrite elem_of_cons, elem_of_app, list_elem_of_singleton, Hs. tauto.
    - intros d. rewrite Hds, Hd. setoid_rewrite elem_of_app. setoid_rewrite list_elem_of_singleton. naive_solver.
    - intros x Hx ->%list_elem_of_singleton. done. }
  assert (forall x, x ∈ mappings p ++ [m] <-> x ∈ mappings p \/ x = m) as Hmem by (intros x; by rewrite elem_of_app, list_elem_of_singleton).
  destruct (m_destination m) as [d|] eqn:Ed; [case_bool_decide as Hc|]; cbn [rbind].
  - exists d. split; [done|]. apply Hd in Hc as (m' & Hm' & Ed'). exists m', m. split_and!; [by left|by right| |done..]. by intros ->.
  - split; [|done]. apply Hnew; [intros d'; rewrite elem_of_cons; naive_solver|]. rewrite omap_app. cbn. rewrite Ed. cbn. apply NoDup_app. split_and!; [done| |apply NoDup_singleton].
    intros x (m' & Hm' & Ex)%list_elem_of_omap ->%list_elem_of_singleton. apply Hc, Hd. by exists m'.
  - split; [|done]. apply Hnew; [intros d'; naive_solver|]. rewrite omap_app. cbn. rewrite Ed. cbn. by rewrite app_nil_r.
Qed.

Lemma collide_mono (Q Q' : Mapping -> Prop) d : (forall m, Q m -> Q' m) -> collide Q d -> collide Q' d.
Proof. intros H (m1 & m2 & H1 & H2 & Hr). exists m1, m2. auto. Qed.

(** ** Mapping *)

Definition intent (s : Refspec) : ForceIntent := if force s then Requested else Normal.
Definition is_excluded (all : list Refspec) (name : bytes) : Prop := exists s c, s ∈ all /\ negative s = true /\ stands (source s) c name.

(** The selections of a specification: a deletion, or a source that its pattern names. *)
Definition selects (all : list Refspec) (s : Refspec) (sources : list RefSource) (o : option RefSource) (c : bytes) : Prop :=
  negative s = false /\
  match o with
  | None => source s = [] /\ c = []
  | Some src => source s <> [] /\ src ∈ sources /\ stands (source s) c (RefNames.as_bytes (src_name src)) /\ ~ is_excluded all (RefNames.as_bytes (src_name src))
  end.
Definition wants (all : list Refspec) (s : Refspec) (sources : list RefSource) (m : Mapping) : Prop :=
  exists c, selects all s sources (m_source m) c /\ lands s c (m_destination m) /\ m_force m = intent s.
Definition cannot_land (all : list Refspec) (s : Refspec) (sources : list RefSource) : Prop := exists o c, selects all s sources o c /\ forall d, ~ lands s c d.

(** What a failing loop says. *)
Definition problem (bad : Prop) (Q : Mapping -> Prop) (e : MappingError) : Prop :=
  e = InvalidDestination /\ bad \/ exists d, e = Collision d /\ collide Q d.
Lemma problem_mono (bad bad' : Prop) (Q Q' : Mapping -> Prop) e : (bad -> bad') -> (forall m, Q m -> Q' m) -> problem bad Q e -> problem bad' Q' e.
Proof. intros Hb HQ [[-> H]|(d & -> & H)]; [left; auto|right; exists d; split; [done|by eapply collide_mono]]. Qed.

Lemma excluded_iff d all name : Forall (spec_ok d) all -> excluded all name = true <-> is_excluded all name.
Proof.
  intros Hall. rewrite Forall_forall in Hall. unfold excluded, is_excluded. rewrite existsb_exists. split.
  - intros (s & Hs%list_elem_of_In & [Hn [c Hc]%bool_decide_eq_true]%andb_true_iff). exists s, c. split_and!; [done..|]. by eapply capture_iff; [apply Hall|].
  - intros (s & c & Hs & Hn & Hc). exists s. split; [by apply list_elem_of_In|]. rewrite Hn. apply bool_decide_eq_true_2. exists c. by eapply capture_iff; [apply Hall|].
Qed.

(** One selection, put into the plan. *)
Lemma mapping_plan d all s sources o c p : spec_ok d s -> selects all s sources o c -> plan_ok p ->
  match (let? m := mapping s c o in add m p) with
  | Ok p' => plan_ok p' /\ forall m, m ∈ mappings p' <-> m ∈ mappings p \/ m_source m = o /\ lands s c (m_destination m) /\ m_force m = intent s
  | Err e => problem (cannot_land all s sources) (fun m => m ∈ mappings p \/ wants all s sources m) e
  end.
Proof.
  intros Hs Hsel Hp. assert (forall pat, destination_pattern s = Some pat -> 42 ∉ pat -> c = []) as Hfit.
  { intros pat Epat Hn. destruct Hsel as [Hneg Hsel]. destruct o as [src|]; [|apply Hsel]. by eapply capture_fits; [| |apply Hsel| |]. }
  unfold mapping. pose proof (destination_lands s c Hfit) as Hd. destruct (destination s c) as [od|e]; cbn [rbind]; [|left; destruct Hd as [-> Hd]; split; [done|]; by exists o, c].
  destruct Hd as [Hd Hu]. set (m := Build_Mapping _ _ _). pose proof (add_plan m p Hp) as Ha. destruct (add m p) as [p'|e].
  - destruct Ha as [Hp' Ha]. split; [done|]. intros x. rewrite Ha. split; (intros [Hx|Hx]; [by left|right]); [by subst x|]. destruct x as [xs xd xf], Hx as (Hxs & Hxd & Hxf). cbn in *. apply Hu in Hxd. unfold m, intent in *. congruence.
  - right. destruct Ha as (t & -> & Ha). exists t. split; [done|]. eapply collide_mono; [|exact Ha]. intros x [Hx|Hx]; [by left|]. right. subst x. by exists c.
Qed.

Lemma mapping_bind {A} s c o p (k : Plan -> result MappingError A) :
  (let? m := mapping s c o in let? p := add m p in k p) = rbind (let? m := mapping s c o in add m p) k.
Proof. by destruct (mapping s c o). Qed.

Lemma selects_mono all s sources sources' o c : sources ⊆ sources' -> selects all s sources o c -> selects all s sources' o c.
Proof. intros Hsub [Hn H]. split; [done|]. destruct o as [src|]; [|done]. destruct H as (H1 & H2 & H3). split_and!; [done|by apply Hsub|apply H3..]. Qed.
Lemma wants_mono all s sources sources' m : sources ⊆ sources' -> wants all s sources m -> wants all s sources' m.
Proof. intros Hsub (c & Hc & Hr). exists c. split; [by eapply selects_mono|done]. Qed.
Lemma cannot_land_mono all s sources sources' : sources ⊆ sources' -> cannot_land all s sources -> cannot_land all s sources'.
Proof. intros Hsub (o & c & Hc & Hr). exists o, c. split; [by eapply selects_mono|done]. Qed.

(** Whether a source has a name that the specification selects. *)
Definition found (s : Refspec) (sources : list RefSource) : bool := existsb (fun src => bool_decide (is_Some (capture s (RefNames.as_bytes (src_name src))))) sources.

Lemma wants_cons all s src sources m : source s <> [] -> wants all s (src :: sources) m <->
  wants all s [src] m \/ wants all s sources m.
Proof.
  intros He. split; [|intros [H|H]; (eapply wants_mono; [|exact H]); set_solver]. intros (c & [Hn Hsel] & Hr). destruct (m_source m) as [x|] eqn:Ex; [|naive_solver].
  destruct Hsel as (_ & [-> |Hx]%elem_of_cons & Hst & Hex); [left|right]; exists c; rewrite Ex; (split; [|done]); (split; [done|]); (split_and!; [done| |done..]); [left|done].
Qed.

Lemma map_sources_plan d all s sources matched p : Forall (spec_ok d) all -> spec_ok d s -> negative s = false -> source s <> [] -> plan_ok p ->
  match map_sources all s sources matched p with
  | Ok (b, p') => plan_ok p' /\ (forall m, m ∈ mappings p' <-> m ∈ mappings p \/ wants all s sources m) /\ b = matched || found s sources
  | Err e => problem (cannot_land all s sources) (fun m => m ∈ mappings p \/ wants all s sources m) e
  end.
Proof.
  intros Hall Hs Hneg Hne. revert matched p. induction sources as [|src sources IH]; intros matched p Hp; cbn [map_sources].
  { split_and!; [done| |by rewrite orb_false_r]. intros m. split; [by left|]. intros [|(c & [_ Hsel] & _)]; [done|]. destruct (m_source m) as [x|]; [|naive_solver]. destruct Hsel as (_ & Hx & _). by apply not_elem_of_nil in Hx. }
  set (name := RefNames.as_bytes (src_name src)). assert (found s (src :: sources) = bool_decide (is_Some (capture s name)) || found s sources) as Hf by done. rewrite Hf.
  assert (forall m, wants all s [src] m -> exists c, capture s name = Some c /\ ~ is_excluded all name /\ m_source m = Some src /\ lands s c (m_destination m) /\ m_force m = intent s) as Hone.
  { intros m (c & [_ Hsel] & Hl & Hi). destruct (m_source m) as [x|]; [|naive_solver]. destruct Hsel as (_ & ->%list_elem_of_singleton & Hst & Hex). exists c. split_and!; [by eapply capture_iff|done..]. }
  assert (forall matched p, plan_ok p -> (forall m, wants all s [src] m -> m ∈ mappings p) ->
    match map_sources all s sources matched p with
    | Ok (b, p') => plan_ok p' /\ (forall m, m ∈ mappings p' <-> m ∈ mappings p \/ wants all s (src :: sources) m) /\ b = matched || found s sources
    | Err e => problem (cannot_land all s (src :: sources)) (fun m => m ∈ mappings p \/ wants all s (src :: sources) m) e
    end) as Hrest.
  { intros mt q Hq Hsub. specialize (IH mt q Hq). destruct (map_sources all s sources mt q) as [[b p']|e].
    - destruct IH as (H1 & H2 & H3). split_and!; [done| |done]. intros m. rewrite H2, (wants_cons all s src sources) by done. specialize (Hsub m). tauto.
    - eapply problem_mono; [| |exact IH]; [apply cannot_land_mono; set_solver|]. intros m [|H]; [by left|right]. eapply wants_mono; [|exact H]. set_solver. }
  destruct (capture s name) as [c|] eqn:Ec; [|apply Hrest; [done|]; intros m (c & ? & _)%Hone; done].
  destruct (excluded all name) eqn:Eex.
  { pose proof (Hrest true p Hp) as H. destruct (map_sources all s sources true p) as [[b p']|e]; (rewrite ?bool_decide_eq_true_2 by done; rewrite ?orb_true_r; apply H); intros m (c' & _ & Hx & _)%Hone; exfalso; by apply Hx, (excluded_iff d). }
  assert (~ is_excluded all name) as Hnex by (rewrite <- (excluded_iff d) by done; congruence). rewrite mapping_bind.
  assert (selects all s [src] (Some src) c) as Hsel by (split; [done|]; split_and!; [done|left|by eapply capture_iff|done]).
  pose proof (mapping_plan d all s [src] (Some src) c p Hs Hsel Hp) as Hm. destruct (let? m := mapping s c (Some src) in add m p) as [q|e]; cbn [rbind].
  - destruct Hm as [Hq Hm]. assert (forall m, m ∈ mappings q <-> m ∈ mappings p \/ wants all s [src] m) as Hq'.
    { intros m. rewrite Hm. split; (intros [|H]; [by left|right]); [destruct H as (E1 & E2); exists c; by rewrite E1|]. apply Hone in H as (c' & [= <-] & _ & H). exact H. }
    pose proof (Hrest true q Hq ltac:(intros m H; apply Hq'; by right)) as H. rewrite bool_decide_eq_true_2 by done. rewrite orb_true_r. destruct (map_sources all s sources true q) as [[b p']|e].
    + destruct H as (H1 & H2 & H3). split_and!; [done| |done]. intros m. rewrite H2, Hq', (wants_cons all s src sources) by done. tauto.
    + eapply problem_mono; [done| |exact H]. intros m. cbv beta. rewrite Hq', (wants_cons all s src sources) by done. tauto.
  - eapply problem_mono; [| |exact Hm]; [apply cannot_land_mono; set_solver|]. intros m [|H]; [by left|right]. eapply wants_mono; [|exact H]. set_solver.
Qed.

(** What a list of specifications asks for. *)
Definition wanted (all ss : list Refspec) (sources : list RefSource) (m : Mapping) : Prop := exists s, s ∈ ss /\ wants all s sources m.
Definition unmapped (all ss : list Refspec) (sources : list RefSource) : Prop := exists s, s ∈ ss /\ cannot_land all s sources.
Definition absent (sources : list RefSource) (s : Refspec) : bool := negb (negative s) && negb (bytes_eqb (source s) []) && negb (found s sources) && negb (wildcard s).

Lemma wanted_cons all s ss sources m : wanted all (s :: ss) sources m <-> wants all s sources m \/ wanted all ss sources m.
Proof. unfold wanted. setoid_rewrite elem_of_cons. naive_solver. Qed.

Lemma map_specs_plan d all ss sources p missing : Forall (spec_ok d) all -> Forall (spec_ok d) ss -> plan_ok p ->
  match map_specs all ss sources p missing with
  | Ok (p', missing') => plan_ok p' /\ (forall m, m ∈ mappings p' <-> m ∈ mappings p \/ wanted all ss sources m) /\ missing' = missing ++ map source (List.filter (absent sources) ss)
  | Err e => problem (unmapped all ss sources) (fun m => m ∈ mappings p \/ wanted all ss sources m) e
  end.
Proof.
  intros Hall Hss. revert p missing. induction Hss as [|s ss Hs Hss IH]; intros p missing Hp; cbn [map_specs].
  { split_and!; [done| |by rewrite app_nil_r]. intros m. split; [by left|]. intros [|(s & Hin & _)]; [done|by apply not_elem_of_nil in Hin]. }
  assert (forall q missing', plan_ok q -> (forall m, m ∈ mappings q <-> m ∈ mappings p \/ wants all s sources m) -> missing' = missing ++ (if absent sources s then [source s] else []) ->
    match map_specs all ss sources q missing' with
    | Ok (p', missing') => plan_ok p' /\ (forall m, m ∈ mappings p' <-> m ∈ mappings p \/ wanted all (s :: ss) sources m) /\ missing' = missing ++ map source (List.filter (absent sources) (s :: ss))
    | Err e => problem (unmapped all (s :: ss) sources) (fun m => m ∈ mappings p \/ wanted all (s :: ss) sources m) e
    end) as Hrest.
  { intros q missing' Hq Hm ->. specialize (IH q (missing ++ (if absent sources s then [source s] else [])) Hq). destruct (map_specs all ss sources q _) as [[p' missing']|e].
    - destruct IH as (H1 & H2 & ->). split_and!; [done| |]. { intros m. rewrite H2, Hm, wanted_cons. tauto. } cbn [List.filter]. rewrite <- app_assoc. by destruct (absent sources s).
    - eapply problem_mono; [| |exact IH]; [intros (t & Ht & Hb); exists t; split; [by right|done]|]. intros m. cbv beta. rewrite Hm, wanted_cons. tauto. }
  destruct (negative s) eqn:En.
  { apply Hrest; [done| |unfold absent; rewrite En; cbn; by rewrite app_nil_r]. intros m. split; [by left|]. intros [|(c & [Hn _] & _)]; [done|congruence]. }
  destruct (bytes_eqb (source s) []) eqn:Ee.
  - assert (source s = []) as He by (by apply bytes_eqb_eq). rewrite mapping_bind. assert (selects all s sources None []) as Hsel by done.
    pose proof (mapping_plan d all s sources None [] p Hs Hsel Hp) as Hm. destruct (let? m := mapping s [] None in add m p) as [q|e]; cbn [rbind].
    + destruct Hm as [Hq Hm]. apply Hrest; [done| |unfold absent; rewrite En, Ee; cbn; by rewrite app_nil_r]. intros m. rewrite Hm. split; (intros [|H]; [by left|right]).
      * destruct H as (E1 & E2). exists []. by rewrite E1.
      * destruct H as (c & [_ Hsel'] & H). destruct (m_source m); [naive_solver|]. by destruct Hsel' as [_ ->].
    + eapply problem_mono; [| |exact Hm]; [intros Hb; exists s; split; [by left|done]|]. intros m. cbv beta. rewrite wanted_cons. tauto.
  - assert (source s <> []) as He by (intros He; apply bytes_eqb_eq in He; congruence). pose proof (map_sources_plan d all s sources false p Hall Hs En He Hp) as Hm.
    destruct (map_sources all s sources false p) as [[b q]|e]; cbn [rbind].
    + destruct Hm as (Hq & Hm & ->). apply Hrest; [done..|]. unfold absent. rewrite En, Ee. cbn [negb andb orb]. destruct (_ && _); [done|by rewrite app_nil_r].
    + eapply problem_mono; [| |exact Hm]; [intros Hb; exists s; split; [by left|done]|]. intros m. cbv beta. rewrite wanted_cons. tauto.
Qed.

Lemma check_sources_exact names sources :
  match check_sources names sources with
  | Ok _ => (forall n, n ∈ names -> n ∉ map src_name sources) /\ NoDup (map src_name sources) /\ Forall (fun s => is_null (src_id s) = false) sources
  | Err (DuplicateSource n) => n ∈ map src_name sources /\ (n ∈ names \/ ~ NoDup (map src_name sources))
  | Err (ZeroId n) => exists s, s ∈ sources /\ src_name s = n /\ is_null (src_id s) = true
  | Err _ => False
  end.
Proof.
  revert names. induction sources as [|s sources IH]; intros names; cbn [check_sources map]. { split_and!; [intros n _; apply not_elem_of_nil|constructor..]. }
  case_bool_decide as Hin; [split; [left|by left]|]. destruct (is_null (src_id s)) eqn:Ez; [exists s; split; [left|done]|]. specialize (IH (src_name s :: names)). destruct (check_sources _ sources) as [[]|[]]; try done.
  - destruct IH as (H1 & H2 & H3). split_and!; [|constructor; [apply H1; left|done]|by constructor]. intros n Hn. rewrite not_elem_of_cons. split; [by intros ->|]. apply H1. by right.
  - destruct IH as (H1 & H2). split; [by right|]. destruct H2 as [[-> |H2]%elem_of_cons|H2]; [right; intros H; by apply NoDup_cons in H as [? _]|by left|right; intros H; by apply NoDup_cons in H as [_ ?]].
  - destruct IH as (x & Hx & Hr). exists x. split; [by right|done].
Qed.

Lemma map_with_missing_exact d r sources : Forall (spec_ok d) (specs r) ->
  match map_with_missing r sources with
  | Ok (ms, missing) =>
      NoDup (map src_name sources) /\ Forall (fun s => is_null (src_id s) = false) sources /\
      (forall m, m ∈ ms <-> wanted (specs r) (specs r) sources m) /\ NoDup ms /\ NoDup (omap m_destination ms) /\
      missing = map source (List.filter (absent sources) (specs r))
  | Err (DuplicateSource n) => n ∈ map src_name sources /\ ~ NoDup (map src_name sources)
  | Err (ZeroId n) => exists s, s ∈ sources /\ src_name s = n /\ is_null (src_id s) = true
  | Err e => problem (unmapped (specs r) (specs r) sources) (wanted (specs r) (specs r) sources) e
  end.
Proof.
  intros Hr. unfold map_with_missing. pose proof (check_sources_exact [] sources) as Hc. destruct (check_sources [] sources) as [[]|[]]; cbn [rbind]; try done.
  2: { destruct Hc as [H1 [H2|H2]]; [by apply not_elem_of_nil in H2|done]. }
  destruct Hc as (_ & Hn & Hz). assert (plan_ok empty_plan) as H0.
  { constructor; cbn; [done| |constructor..]. intros t. split; [by intros ?%not_elem_of_nil|]. intros (m & Hm & _). by apply not_elem_of_nil in Hm. }
  pose proof (map_specs_plan d (specs r) (specs r) sources empty_plan [] Hr Hr H0) as Hm. assert (forall m, m ∈ mappings empty_plan \/ wanted (specs r) (specs r) sources m <-> wanted (specs r) (specs r) sources m) as He.
  { intros m. split; [|by right]. intros [H|]; [by apply not_elem_of_nil in H|done]. }
  destruct (map_specs _ _ _ _ _) as [[p missing]|e]; cbn [rbind].
  - destruct Hm as (Hp & Hm & ->). split_and!; [done..| |apply Hp|apply Hp|done]. intros m. by rewrite Hm, He.
  - assert (problem (unmapped (specs r) (specs r) sources) (wanted (specs r) (specs r) sources) e) as Hpr by (eapply problem_mono; [done| |exact Hm]; intros m; apply He). destruct Hpr as [[-> ?]|(t & -> & ?)]; [left|right]; eauto.
Qed.

(** C23: the plan of a parsed list is exactly what the list asks for: every selected source
    that no negative specification names, with the destination its capture makes, once,
    with no destination twice; the exact specifications that no source has are reported.
    Each failure names its cause: a repeated source, a zero identity, a capture that makes
    no reference name, or two mappings that differ and share a destination. *)
Theorem refspecs_map_exact d values r sources : parse_all d values = Ok r ->
  match map_with_missing r sources with
  | Ok (ms, missing) =>
      NoDup (map src_name sources) /\ Forall (fun s => is_null (src_id s) = false) sources /\
      (forall m, m ∈ ms <-> wanted (specs r) (specs r) sources m) /\ NoDup ms /\ NoDup (omap m_destination ms) /\
      missing = map source (List.filter (absent sources) (specs r))
  | Err (DuplicateSource n) => n ∈ map src_name sources /\ ~ NoDup (map src_name sources)
  | Err (ZeroId n) => exists s, s ∈ sources /\ src_name s = n /\ is_null (src_id s) = true
  | Err e => problem (unmapped (specs r) (specs r) sources) (wanted (specs r) (specs r) sources) e
  end.
Proof. intros [_ H]%parse_all_ok. by eapply map_with_missing_exact. Qed.

(** The sources [refs/heads/main] and [refs/heads/wip], of which the second is excluded. *)
Definition sample_values : list bytes := [bstr "+refs/heads/*:refs/remotes/origin/*"; bstr "^refs/heads/wip"].
Definition sample_specs : Refspecs := match parse_all Fetch sample_values with Ok r => r | Err _ => {| direction := Fetch; specs := [] |} end.
Definition sample_tip : ObjectId := Sha1 (repeat 1 20).
Definition sample_sources : list RefSource :=
  [{| src_name := {| RefNames.as_bytes := bstr "refs/heads/main" |}; src_id := sample_tip |}; {| src_name := {| RefNames.as_bytes := bstr "refs/heads/wip" |}; src_id := sample_tip |}].
Definition sample_mapping : Mapping :=
  {| m_source := head sample_sources; m_destination := Some {| RefNames.as_bytes := bstr "refs/remotes/origin/main" |}; m_force := Requested |}.

Lemma refspecs_map_exact_witness : map_with_missing sample_specs sample_sources = Ok ([sample_mapping], []) /\ wanted (specs sample_specs) (specs sample_specs) sample_sources sample_mapping.
Proof.
  assert (map_with_missing sample_specs sample_sources = Ok ([sample_mapping], [])) as E by (vm_compute; reflexivity). split; [exact E|].
  pose proof (refspecs_map_exact Fetch sample_values sample_specs sample_sources ltac:(vm_compute; reflexivity)) as H. rewrite E in H. destruct H as (_ & _ & H & _). apply H. left.
Defined.

(** ** Pruning *)

Lemma prune_sources_iff d r t src : Forall (spec_ok d) (specs r) -> src ∈ prune_sources r t <->
  ~ is_excluded (specs r) src /\ exists s p c, s ∈ specs r /\ negative s = false /\ destination_pattern s = Some p /\ stands p c (RefNames.as_bytes t) /\ stands (source s) c src.
Proof.
  intros Hr. unfold prune_sources. rewrite list_elem_of_In, filter_In, <- list_elem_of_In, negb_true_iff, <- not_true_iff_false, (excluded_iff d) by done. rewrite list_elem_of_omap, (and_comm (exists s, _) _). apply and_iff_compat_l.
  rewrite Forall_forall in Hr. split.
  - intros (s & Hs & (Hn & p & c & H)%(source_for_destination_iff d)); [|by apply Hr]. exists s, p, c. split_and!; [done..|apply H|apply H|apply H].
  - intros (s & p & c & Hs & Hn & H). exists s. split; [done|]. apply (source_for_destination_iff d); [by apply Hr|]. split; [done|]. by exists p, c.
Qed.

Lemma prune_mapped r sources t : Forall (spec_ok Fetch) (specs r) -> RefNames.new (RefNames.as_bytes t) = Ok t ->
  (exists m, wanted (specs r) (specs r) sources m /\ m_destination m = Some t) <-> exists src, src ∈ sources /\ RefNames.as_bytes (src_name src) ∈ prune_sources r t.
Proof.
  intros Hr Ht. setoid_rewrite (prune_sources_iff Fetch); [|done]. pose proof Hr as Hr'. rewrite Forall_forall in Hr'. split.
  - intros (m & (s & Hs & c & [Hn Hsel] & Hl & _) & Em). unfold lands in Hl. destruct (destination_pattern s) as [p|] eqn:Ep; [|congruence]. destruct Hl as (t' & Et & Hl & _). rewrite Em in Et. injection Et as <-.
    destruct (m_source m) as [src|]; [|destruct Hsel as [He _]; by apply (ok_empty Fetch s (Hr' s Hs)) in He as [? _]]. destruct Hsel as (_ & Hin & Hst & Hex). exists src. split; [done|]. split; [done|]. by exists s, p, c.
  - intros (src & Hin & Hex & s & p & c & Hs & Hn & Ep & Hl & Hst). exists {| m_source := Some src; m_destination := Some t; m_force := intent s |}. split; [|done]. exists s. split; [done|]. exists c. cbn [m_source m_destination m_force].
    split_and!; [|unfold lands; rewrite Ep; by exists t|done]. split; [done|]. split_and!; [|done..]. intros He. by apply (ok_empty Fetch s (Hr' s Hs)) in He as [? _].
Qed.

(** Pruning and mapping agree.  When a parsed fetch list maps an advertisement, a
    reference is the destination of one of its mappings exactly when one of the sources
    that the reverse mapping gives the reference is advertised. *)
Theorem prune_agrees values r sources ms missing t : parse_all Fetch values = Ok r -> RefNames.new (RefNames.as_bytes t) = Ok t -> map_with_missing r sources = Ok (ms, missing) ->
  Some t ∈ map m_destination ms <-> exists src, src ∈ sources /\ RefNames.as_bytes (src_name src) ∈ prune_sources r t.
Proof.
  intros [_ Hr]%parse_all_ok Ht Hm. rewrite <- prune_mapped by done. pose proof (map_with_missing_exact Fetch r sources Hr) as H. rewrite Hm in H. destruct H as (_ & _ & H & _).
  rewrite list_elem_of_fmap. setoid_rewrite H. naive_solver.
Qed.

Lemma prune_agrees_witness : RefNames.as_bytes (src_name (default {| src_name := RefNames.HEAD; src_id := sample_tip |} (head sample_sources))) ∈ prune_sources sample_specs {| RefNames.as_bytes := bstr "refs/remotes/origin/main" |} /\
  exists src, src ∈ sample_sources /\ RefNames.as_bytes (src_name src) ∈ prune_sources sample_specs {| RefNames.as_bytes := bstr "refs/remotes/origin/main" |}.
Proof.
  split; [vm_compute; left|].
  apply (prune_agrees sample_values sample_specs sample_sources [sample_mapping] [] {| RefNames.as_bytes := bstr "refs/remotes/origin/main" |}); [vm_compute; reflexivity..|left].
Defined.
End RefspecCorrect.
