(* ===== verification/RefspecControlled.v ===== *)
(** * Budgeted mapping of references ([src/src/remote/refspec/controlled.rs])

    The mapping and the reverse mapping for pruning under limits on inputs, outputs and
    comparison work, with a cancellation flag that is polled every 64 steps. *)

From stdpp Require Import base list numbers strings sets.
From Stdlib Require Import ZArith Lia.
From S2P Require Import Prelude Bytes Objects RefNames Refspec.

Module RefspecControlled.
Import Objects Refspec.

Record MappingLimits := { max_sources : Z; max_specs : Z; max_input_bytes : Z; max_mappings : Z; max_output_bytes : Z; max_work : Z }.
Definition default_limits : MappingLimits :=
  {| max_sources := 1000000; max_specs := 4096; max_input_bytes := 128 * 1024 * 1024; max_mappings := 1000000; max_output_bytes := 256 * 1024 * 1024; max_work := 1024 * 1024 * 1024 |}.

(** [Budget], with the number of times the flag was read. *)
Record Budget := { b_remaining : Z; b_mappings : Z; b_bytes : Z; b_work : Z; b_polls : nat }.
Definition with_work (w : Z) (b : Budget) : Budget := {| b_remaining := b_remaining b; b_mappings := b_mappings b; b_bytes := b_bytes b; b_work := w; b_polls := b_polls b |}.
Definition with_bytes (n : Z) (b : Budget) : Budget := {| b_remaining := b_remaining b; b_mappings := b_mappings b; b_bytes := n; b_work := b_work b; b_polls := b_polls b |}.
Definition with_mappings (n : Z) (b : Budget) : Budget := {| b_remaining := b_remaining b; b_mappings := n; b_bytes := b_bytes b; b_work := b_work b; b_polls := b_polls b |}.
Definition with_polls (rem : Z) (polls : nat) (b : Budget) : Budget := {| b_remaining := rem; b_mappings := b_mappings b; b_bytes := b_bytes b; b_work := b_work b; b_polls := polls |}.

Definition debit (remaining bytes : Z) (name : string) : result MappingError Z := ok_or (checked_sub remaining bytes) (Limit name).

Section Controlled.
(** [cancel n] is the value of the [n]-th load of the flag. *)
Variable cancel : nat -> bool.

(** ** The budget *)

(** [Budget::new]. *)
Definition budget_new (l : MappingLimits) : result MappingError Budget :=
  if cancel 0%nat then Err Cancelled
  else Ok {| b_remaining := 64; b_mappings := max_mappings l; b_bytes := max_output_bytes l; b_work := max_work l; b_polls := 1 |}.

(** [Budget::step], [Budget::comparison], [Budget::report] and [Budget::output]. *)
Definition step (b : Budget) : result MappingError Budget :=
  let? w := debit (b_work b) 1 "comparison work" in
  let b := with_work w b in
  if b_remaining b - 1 =? 0 then if cancel (b_polls b) then Err Cancelled else Ok (with_polls 64 (S (b_polls b)) b)
  else Ok (with_polls (b_remaining b - 1) (b_polls b) b).
Definition comparison (pattern name : bytes) (b : Budget) : result MappingError Budget :=
  let? b := step b in
  let? w := debit (b_work b) (zlen pattern) "comparison work" in
  let? w := debit w (zlen name) "comparison work" in
  Ok (with_work w b).
Definition report (bytes : Z) (b : Budget) : result MappingError Budget :=
  let? n := debit (b_mappings b) 1 "mapping attempts" in
  let? m := debit (b_bytes b) bytes "output bytes" in
  Ok (with_bytes m (with_mappings n b)).
Definition output (s : Refspec) (capture : bytes) (source : option RefSource) (b : Budget) : result MappingError Budget :=
  let? b := report (match source with Some src => zlen (RefNames.as_bytes (src_name src)) | None => 0 end) b in
  match destination_pattern s with
  | None => Ok b
  | Some pattern =>
      let? n := debit (b_bytes b) (if wildcard s then zlen pattern - 1 else zlen pattern) "output bytes" in
      let? n := if wildcard s then debit n (zlen capture) "output bytes" else Ok n in
      Ok (with_bytes n b)
  end.

(** ** Admission *)

Fixpoint admit_bytes (bytes : Z) (lengths : list Z) (b : Budget) : result MappingError (Z * Budget) :=
  match lengths with
  | [] => Ok (bytes, b)
  | n :: lengths =>
      let? b := step b in
      let? bytes := debit bytes n "input bytes" in
      admit_bytes bytes lengths b
  end.

(** [MappingOptions::admit]. *)
Definition admit_inputs (r : Refspecs) (l : MappingLimits) (count : Z) (names : list bytes) (b : Budget) : result MappingError Budget :=
  if max_sources l <? count then Err (Limit "sources")
  else if max_specs l <? zlen (specs r) then Err (Limit "refspecs")
  else
    let? (room, b) := admit_bytes (max_input_bytes l) (map (fun s => zlen (raw s)) (specs r)) b in
    let? (_, b) := admit_bytes room (map zlen names) b in
    Ok b.

(** ** Mapping *)

Fixpoint check_budgeted (names : list RefNames.RefName) (sources : list RefSource) (b : Budget) : result MappingError (unit * Budget) :=
  match sources with
  | [] => Ok (tt, b)
  | s :: sources =>
      let? b := step b in
      if bool_decide (src_name s ∈ names) then Err (DuplicateSource (src_name s))
      else if is_null (src_id s) then Err (ZeroId (src_name s))
      else check_budgeted (src_name s :: names) sources b
  end.

(** The search for a negative specification that names the source. *)
Fixpoint excluded_budgeted (ss : list Refspec) (name : bytes) (b : Budget) : result MappingError (bool * Budget) :=
  match ss with
  | [] => Ok (false, b)
  | s :: ss =>
      let? b := step b in
      if negative s then
        let? b := comparison (source s) name b in
        if bool_decide (is_Some (capture s name)) then Ok (true, b) else excluded_budgeted ss name b
      else excluded_budgeted ss name b
  end.

Fixpoint sources_budgeted (all : list Refspec) (s : Refspec) (sources : list RefSource) (matched : bool) (p : Plan) (b : Budget) : result MappingError ((bool * Plan) * Budget) :=
  match sources with
  | [] => Ok ((matched, p), b)
  | src :: sources =>
      let? b := comparison (source s) (RefNames.as_bytes (src_name src)) b in
      match capture s (RefNames.as_bytes (src_name src)) with
      | None => sources_budgeted all s sources matched p b
      | Some c =>
          let? (excluded, b) := excluded_budgeted all (RefNames.as_bytes (src_name src)) b in
          if excluded : bool then sources_budgeted all s sources true p b
          else
            let? b := output s c (Some src) b in
            let? m := mapping s c (Some src) in
            let? p := add m p in
            sources_budgeted all s sources true p b
      end
  end.

Fixpoint specs_budgeted (all ss : list Refspec) (sources : list RefSource) (p : Plan) (missing : list bytes) (b : Budget) : result MappingError ((Plan * list bytes) * Budget) :=
  match ss with
  | [] => Ok ((p, missing), b)
  | s :: ss =>
      let? b := step b in
      if negative s then specs_budgeted all ss sources p missing b
      else if bytes_eqb (source s) [] then
        let? b := output s [] None b in
        let? m := mapping s [] None in
        let? p := add m p in
        specs_budgeted all ss sources p missing b
      else
        let? (found, b) := sources_budgeted all s sources false p b in
        if negb found.1 && negb (wildcard s) then
          let? b := report (zlen (source s)) b in
          specs_budgeted all ss sources found.2 (missing ++ [source s]) b
        else specs_budgeted all ss sources found.2 missing b
  end.

(** [MappingOptions::map_admitted]. *)
Definition map_admitted (r : Refspecs) (sources : list RefSource) (b : Budget) : result MappingError ((list Mapping * list bytes) * Budget) :=
  let? (_, b) := check_budgeted [] sources b in
  let? (found, b) := specs_budgeted (specs r) (specs r) sources empty_plan [] b in
  Ok ((mappings found.1, found.2), b).

(** [MappingOptions::map_with_missing] and [MappingOptions::map]. *)
Definition controlled_map_with_missing (r : Refspecs) (l : MappingLimits) (sources : list RefSource) : result MappingError (list Mapping * list bytes) :=
  let? b := budget_new l in
  let? b := admit_inputs r l (zlen sources) (map (fun s => RefNames.as_bytes (src_name s)) sources) b in
  let? (found, _) := map_admitted r sources b in
  Ok found.
Definition controlled_map (r : Refspecs) (l : MappingLimits) (sources : list RefSource) : result MappingError (list Mapping) :=
  let? found := controlled_map_with_missing r l sources in complete found.

(** The copy of the tips of an advertisement. *)
Fixpoint tips_budgeted (refs : list AdvertisedRef) (b : Budget) : result MappingError (list RefSource * Budget) :=
  match refs with
  | [] => Ok ([], b)
  | ref :: refs =>
      let? b := step b in
      let? (rest, b) := tips_budgeted refs b in
      Ok (if is_tip (a_kind ref) then {| src_name := a_name ref; src_id := a_id ref |} :: rest else rest, b)
  end.

(** [MappingOptions::map_advertisement_with_missing] and [map_advertisement]. *)
Definition controlled_advertisement_with_missing (r : Refspecs) (l : MappingLimits) (refs : list AdvertisedRef) : result MappingError (list Mapping * list bytes) :=
  let? b := budget_new l in
  match direction r with
  | Push => Err DirectionError
  | Fetch =>
      let? b := admit_inputs r l (zlen refs) (map (fun a => RefNames.as_bytes (a_name a)) refs) b in
      let? (sources, b) := tips_budgeted refs b in
      let? (found, _) := map_admitted r sources b in
      Ok found
  end.
Definition controlled_advertisement (r : Refspecs) (l : MappingLimits) (refs : list AdvertisedRef) : result MappingError (list Mapping) :=
  let? found := controlled_advertisement_with_missing r l refs in complete found.

(** ** Pruning *)

(** [reverse_source]. *)
Definition reverse_source (s : Refspec) (d : RefNames.RefName) (b : Budget) : result MappingError (option bytes * Budget) :=
  if negative s then Ok (None, b)
  else
    match destination_pattern s with
    | None => Ok (None, b)
    | Some pattern =>
        let? b := comparison pattern (RefNames.as_bytes d) b in
        match match position star pattern with
              | Some at_ => star_capture pattern at_ (RefNames.as_bytes d)
              | None => if bytes_eqb pattern (RefNames.as_bytes d) then Some [] else None
              end with
        | None => Ok (None, b)
        | Some capture =>
            let? b := comparison (source s) capture b in
            match position star (source s) with
            | Some at_ =>
                let? n := ok_or (n ← checked_sub (zlen (source s)) 1; checked_add n (zlen capture)) (Limit "output bytes") in
                let? b := report n b in
                Ok (Some (substitute (source s) at_ capture), b)
            | None =>
                let? b := report (zlen (source s)) b in
                Ok (Some (source s), b)
            end
        end
    end.

(** The names of the tips, each charged. *)
Fixpoint advertised_budgeted (refs : list AdvertisedRef) (b : Budget) : result MappingError (list bytes * Budget) :=
  match refs with
  | [] => Ok ([], b)
  | ref :: refs =>
      let? b := step b in
      let? b := if is_tip (a_kind ref) then comparison [] (RefNames.as_bytes (a_name ref)) b else Ok b in
      let? (rest, b) := advertised_budgeted refs b in
      Ok (if is_tip (a_kind ref) then RefNames.as_bytes (a_name ref) :: rest else rest, b)
  end.

(** Whether a destination is owned, and whether one of its sources is kept. *)
Fixpoint owner_budgeted (all ss : list Refspec) (d : RefNames.RefName) (kept : list bytes) (owned : bool) (b : Budget) : result MappingError ((bool * bool) * Budget) :=
  match ss with
  | [] => Ok ((owned, false), b)
  | s :: ss =>
      let? b := step b in
      let? (source, b) := reverse_source s d b in
      match source with
      | None => owner_budgeted all ss d kept owned b
      | Some source =>
          let? (excluded, b) := excluded_budgeted all source b in
          if excluded : bool then owner_budgeted all ss d kept owned b
          else
            let? b := comparison [] source b in
            if bool_decide (source ∈ kept) then Ok ((true, true), b) else owner_budgeted all ss d kept true b
      end
  end.

Fixpoint prune_each (all : list Refspec) (ds : list RefNames.RefName) (kept : list bytes) (b : Budget) : result MappingError (list RefNames.RefName * Budget) :=
  match ds with
  | [] => Ok ([], b)
  | d :: ds =>
      let? b := step b in
      let? (found, b) := owner_budgeted all all d kept false b in
      let? (rest, b) := prune_each all ds kept b in
      Ok (if found.1 && negb found.2 then d :: rest else rest, b)
  end.

(** [MappingOptions::prune_candidates]; the advertised names and the retained ones are kept. *)
Definition prune_candidates (r : Refspecs) (l : MappingLimits) (ds : list RefNames.RefName) (refs : list AdvertisedRef) (retained : list bytes) : result MappingError (list RefNames.RefName) :=
  let? b := budget_new l in
  match direction r with
  | Push => Err DirectionError
  | Fetch =>
      let? count := ok_or (n ← checked_add (zlen refs) (zlen ds); checked_add n (zlen retained)) (Limit "sources") in
      let? b := admit_inputs r l count (map (fun a => RefNames.as_bytes (a_name a)) refs ++ map RefNames.as_bytes ds ++ retained) b in
      let? (advertised, b) := advertised_budgeted refs b in
      let? (pruned, b) := prune_each (specs r) ds (advertised ++ retained) b in
      if cancel (b_polls b) then Err Cancelled else Ok pruned
  end.
End Controlled.
End RefspecControlled.
