(* ===== verification/RefspecBudget.v ===== *)
(** * Budgeted mapping is the mapping, within its cost

    The controlled loops give the results of the plain ones.  They stop earlier only when
    the flag is set or when a limit is below the cost of the work that the inputs need. *)

From stdpp Require Import base list numbers strings sets.
From Stdlib Require Import ZArith Lia.
From S2P Require Import Prelude Bytes Objects RefNames Refspec RefspecCorrect RefspecControlled.

Module RefspecBudget.
Import Objects Refspec RefspecCorrect RefspecControlled.

Definition sum_of {A} (f : A -> Z) (l : list A) : Z := foldr (fun x n => f x + n) 0 l.
Lemma sum_of_nonneg {A} (f : A -> Z) l : (forall x, 0 <= f x) -> 0 <= sum_of f l.
Proof. intros Hf. unfold sum_of. induction l as [|x l IH]; cbn [foldr]; [lia|]. specialize (Hf x). lia. Qed.

Section Budget.
Context (cancel : nat -> bool).

(** ** Outcomes *)

(** The budget after at most this much work, this many reports and bytes of output. *)
Definition left_over (b : Budget) (w m n : Z) (b' : Budget) : Prop := b_work b - w <= b_work b' /\ b_mappings b - m <= b_mappings b' /\ b_bytes b - n <= b_bytes b'.
Definition short (b : Budget) (w m n : Z) : Prop := b_work b < w \/ b_mappings b < m \/ b_bytes b < n.

(** A budgeted step, and a budgeted computation of the result [plain]. *)
Definition spent (b : Budget) (w m n : Z) (r : result MappingError Budget) : Prop :=
  match r with Ok b' => left_over b w m n b' | Err (Limit _) => short b w m n | Err Cancelled => exists k, cancel k = true | Err _ => False end.
Definition spends {A} (over : Prop) (b : Budget) (w m n : Z) (plain : result MappingError A) (r : result MappingError (A * Budget)) : Prop :=
  match r with
  | Ok (a, b') => plain = Ok a /\ left_over b w m n b'
  | Err (Limit _) => short b w m n \/ over
  | Err Cancelled => exists k, cancel k = true
  | Err e => plain = Err e
  end.

Ltac budget := unfold spends, spent, left_over, short in *; cbn [b_work b_mappings b_bytes with_work with_bytes with_mappings with_polls] in *.

Lemma spent_bind {A} over b w1 m1 n1 w2 m2 n2 (plain : result MappingError A) r k :
  spent b w1 m1 n1 r -> (forall b', spends over b' w2 m2 n2 plain (k b')) -> 0 <= w2 -> 0 <= m2 -> 0 <= n2 -> spends over b (w1 + w2) (m1 + m2) (n1 + n2) plain (rbind r k).
Proof.
  intros Hr Hk H1 H2 H3. destruct r as [b'|e]; cbn [rbind]. { specialize (Hk b'). budget. destruct (k b') as [[a b'']|[]]; try done; [destruct Hk; split; [done|lia]|destruct Hk; [left; lia|by right]]. }
  budget. destruct e; try done. left. lia.
Qed.

Lemma spends_bind {A B} over b w1 m1 n1 w2 m2 n2 (p : result MappingError A) (kp : A -> result MappingError B) r k :
  spends over b w1 m1 n1 p r -> (forall a b', p = Ok a -> spends over b' w2 m2 n2 (kp a) (k (a, b'))) -> 0 <= w2 -> 0 <= m2 -> 0 <= n2 ->
  spends over b (w1 + w2) (m1 + m2) (n1 + n2) (rbind p kp) (rbind r k).
Proof.
  intros Hr Hk H1 H2 H3. destruct r as [[a b']|e]; cbn [rbind].
  - destruct Hr as [-> Hl]. cbn [rbind]. specialize (Hk a b' eq_refl). budget. destruct (k (a, b')) as [[x b'']|[]]; try done; [destruct Hk; split; [done|lia]|destruct Hk; [left; lia|by right]].
  - destruct e; budget; try (by rewrite Hr); [|done]. destruct Hr; [left; lia|by right].
Qed.

Lemma spends_then {A B} over b w1 m1 n1 w2 m2 n2 (a : A) (plain : result MappingError B) r k :
  spends over b w1 m1 n1 (Ok a) r -> (forall b', spends over b' w2 m2 n2 plain (k (a, b'))) -> 0 <= w2 -> 0 <= m2 -> 0 <= n2 -> spends over b (w1 + w2) (m1 + m2) (n1 + n2) plain (rbind r k).
Proof. intros Hr Hk. apply (spends_bind over b w1 m1 n1 w2 m2 n2 (Ok a) (fun _ => plain)); [done|]. by intros a' b' <-%ok_inj. Qed.

Lemma spends_weaken {A} over b w m n w' m' n' (p : result MappingError A) r : spends over b w m n p r -> w <= w' -> m <= m' -> n <= n' -> spends over b w' m' n' p r.
Proof. intros Hr H1 H2 H3. budget. destruct r as [[a b']|[]]; try done; [destruct Hr; split; [done|lia]|destruct Hr; [left; lia|by right]]. Qed.

Lemma spent_weaken b w m n w' m' n' r : spent b w m n r -> w <= w' -> m <= m' -> n <= n' -> spent b w' m' n' r.
Proof. intros Hr H1 H2 H3. budget. destruct r as [b'|[]]; try done; lia. Qed.

(** A plain step between budgeted ones. *)
Lemma spends_plain {A B} over b w m n (p : result MappingError A) (kp : A -> result MappingError B) k :
  (forall e, p = Err e -> match e with Limit _ | Cancelled => False | _ => True end) -> (forall a, p = Ok a -> spends over b w m n (kp a) (k a)) -> spends over b w m n (rbind p kp) (rbind p k).
Proof. intros He Hk. destruct p as [a|e]; cbn [rbind]; [by apply Hk|]. specialize (He e eq_refl). by destruct e. Qed.

Lemma spends_ret {A} over b (a : A) : spends over b 0 0 0 (Ok a) (Ok (a, b)).
Proof. budget. split; [done|lia]. Qed.

(** ** The budget *)

Lemma debit_cases a n name : debit a n name = Ok (a - n) /\ n <= a \/ debit a n name = Err (Limit name) /\ a < n.
Proof. unfold debit, checked_sub. destruct (Z.leb_spec n a); cbn; [by left|by right]. Qed.

Ltac debits := repeat match goal with |- context [debit ?a ?n ?s] => destruct (debit_cases a n s) as [[-> ?]|[-> ?]]; cbn [rbind] end.

Lemma step_spent b : spent b 1 0 0 (step cancel b).
Proof.
  unfold step. debits; [|budget; lia]. cbn [with_work b_remaining b_polls]. destruct (_ =? 0); [|budget; lia]. destruct (cancel (b_polls b)) eqn:E; [budget; by exists (b_polls b)|budget; lia].
Qed.

Lemma comparison_spent p name b : spent b (1 + zlen p + zlen name) 0 0 (comparison cancel p name b).
Proof.
  unfold comparison. pose proof (step_spent b) as Hs. pose proof (zlen_nonneg p). pose proof (zlen_nonneg name). destruct (step cancel b) as [b'|e]; cbn [rbind].
  - debits; budget; lia.
  - budget. destruct e; try done. lia.
Qed.

Lemma report_spent n b : 0 <= n -> spent b 0 1 n (report n b).
Proof. intros Hn. unfold report. debits; budget; lia. Qed.

Definition pattern_len (s : Refspec) : Z := match destination_pattern s with Some p => zlen p | None => 0 end.
Definition source_len (o : option RefSource) : Z := match o with Some src => zlen (RefNames.as_bytes (src_name src)) | None => 0 end.
Lemma output_spent s c o b : spent b 0 1 (source_len o + pattern_len s + zlen c) (output s c o b).
Proof.
  unfold output, pattern_len, source_len. assert (0 <= match o with Some src => zlen (RefNames.as_bytes (src_name src)) | None => 0 end) as Ho by (destruct o; [apply zlen_nonneg|lia]).
  pose proof (report_spent _ b Ho) as Hr. pose proof (zlen_nonneg c). destruct (report _ b) as [b'|e]; cbn [rbind]; [|budget; destruct e; try done; destruct (destination_pattern s) as [p|]; [pose proof (zlen_nonneg p)|]; lia].
  destruct (destination_pattern s) as [p|]; [|budget; lia]. pose proof (zlen_nonneg p). destruct (wildcard s); debits; budget; lia.
Qed.

(** ** The mapping loops *)

Definition exclusion_work (all : list Refspec) (name : bytes) : Z := sum_of (fun s => 2 + zlen (source s) + zlen name) all.
Lemma exclusion_work_nonneg all name : 0 <= exclusion_work all name.
Proof. apply sum_of_nonneg. intros s. pose proof (zlen_nonneg (source s)). pose proof (zlen_nonneg name). lia. Qed.

Lemma excluded_spends over ss name b : spends over b (exclusion_work ss name) 0 0 (Ok (excluded ss name)) (excluded_budgeted cancel ss name b).
Proof.
  revert b. induction ss as [|s ss IH]; intros b; [apply spends_ret|]. cbn [excluded_budgeted]. pose proof (exclusion_work_nonneg ss name). pose proof (zlen_nonneg (source s)). pose proof (zlen_nonneg name).
  assert (exclusion_work (s :: ss) name = 1 + (1 + zlen (source s) + zlen name) + exclusion_work ss name) as -> by (unfold exclusion_work, sum_of; cbn [foldr]; lia).
  assert (excluded (s :: ss) name = negative s && bool_decide (is_Some (capture s name)) || excluded ss name) as -> by done. rewrite <- Z.add_assoc.
  eapply (spent_bind over b 1 0 0 _ 0 0); [apply step_spent| |lia..]. intros b1. destruct (negative s); cbn [andb orb]; [|eapply spends_weaken; [apply IH|lia..]].
  eapply (spent_bind over b1 _ 0 0 _ 0 0); [apply comparison_spent| |lia..]. intros b2. case_bool_decide; cbn [orb]; [eapply spends_weaken; [apply spends_ret|lia..]|apply IH].
Qed.

Definition source_work (all : list Refspec) (s : Refspec) (src : RefSource) : Z :=
  1 + zlen (source s) + zlen (RefNames.as_bytes (src_name src)) + match capture s (RefNames.as_bytes (src_name src)) with Some _ => exclusion_work all (RefNames.as_bytes (src_name src)) | None => 0 end.
Definition source_reports (s : Refspec) (src : RefSource) : Z := match capture s (RefNames.as_bytes (src_name src)) with Some _ => 1 | None => 0 end.
Definition source_bytes (s : Refspec) (src : RefSource) : Z :=
  match capture s (RefNames.as_bytes (src_name src)) with Some c => source_len (Some src) + pattern_len s + zlen c | None => 0 end.

Lemma pattern_len_nonneg s : 0 <= pattern_len s.
Proof. unfold pattern_len. destruct (destination_pattern s) as [p|]; [apply zlen_nonneg|lia]. Qed.
Lemma source_costs_nonneg all s src : 0 <= source_work all s src /\ 0 <= source_reports s src /\ 0 <= source_bytes s src.
Proof.
  unfold source_work, source_reports, source_bytes, source_len. pose proof (zlen_nonneg (source s)). pose proof (zlen_nonneg (RefNames.as_bytes (src_name src))). pose proof (exclusion_work_nonneg all (RefNames.as_bytes (src_name src))). pose proof (pattern_len_nonneg s).
  destruct (capture _ _) as [c|]; [pose proof (zlen_nonneg c)|]; lia.
Qed.
Lemma sources_costs_nonneg all s sources : 0 <= sum_of (source_work all s) sources /\ 0 <= sum_of (source_reports s) sources /\ 0 <= sum_of (source_bytes s) sources.
Proof. split_and!; apply sum_of_nonneg; intros src; apply (source_costs_nonneg all s src). Qed.

Lemma mapping_tame s c o e : mapping s c o = Err e -> match e with Limit _ | Cancelled => False | _ => True end.
Proof. unfold mapping, destination. destruct (destination_pattern s) as [p|]; [|done]. destruct (RefNames.new _); cbn [rbind]; [done|]. by intros [= <-]. Qed.
Lemma add_tame m p e : add m p = Err e -> match e with Limit _ | Cancelled => False | _ => True end.
Proof. unfold add. case_bool_decide; [done|]. destruct (m_destination m) as [d|]; [|done]. case_bool_decide; cbn [rbind]; [|done]. by intros [= <-]. Qed.

Lemma sources_spends over all s sources matched p b :
  spends over b (sum_of (source_work all s) sources) (sum_of (source_reports s) sources) (sum_of (source_bytes s) sources) (map_sources all s sources matched p) (sources_budgeted cancel all s sources matched p b).
Proof.
  revert matched p b. induction sources as [|src sources IH]; intros matched p b; [apply spends_ret|]. cbn [sources_budgeted map_sources sum_of foldr]. pose proof (sources_costs_nonneg all s sources) as (H1 & H2 & H3).
  fold (sum_of (source_work all s) sources) (sum_of (source_reports s) sources) (sum_of (source_bytes s) sources). set (name := RefNames.as_bytes (src_name src)). unfold source_work at 1, source_reports at 1, source_bytes at 1. fold name.
  pose proof (exclusion_work_nonneg all name). destruct (capture s name) as [c|].
  - assert (0 <= source_len (Some src) + pattern_len s + zlen c) as Hc by (pose proof (pattern_len_nonneg s); pose proof (zlen_nonneg c); cbn; pose proof (zlen_nonneg name); subst name; lia).
    set (n := source_len (Some src) + pattern_len s + zlen c) in *. set (W := sum_of (source_work all s) sources) in *. set (R := sum_of (source_reports s) sources) in *. set (B := sum_of (source_bytes s) sources) in *.
    eapply spends_weaken; [eapply (spent_bind over b (1 + zlen (source s) + zlen name) 0 0 (exclusion_work all name + W) (1 + R) (n + B)); [apply comparison_spent| |lia..]|lia..]. intros b1.
    change (if excluded all name then ?x else ?y) with (let? e := Ok (excluded all name) in if e : bool then x else y).
    eapply (spends_bind over b1 (exclusion_work all name) 0 0 W (1 + R) (n + B)); [apply excluded_spends| |lia..]. intros ex b2 [= <-].
    destruct (excluded all name); [eapply spends_weaken; [apply IH|lia..]|]. eapply (spent_bind over b2 0 1 n W R B); [apply output_spent| |lia..]. intros b3.
    apply spends_plain; [apply mapping_tame|intros m _]. apply spends_plain; [apply add_tame|intros q _]. apply IH.
  - eapply spends_weaken; [eapply (spent_bind over b (1 + zlen (source s) + zlen name) 0 0); [apply comparison_spent|intros b1; apply IH|lia..]|lia..].
Qed.

Definition spec_work (all : list Refspec) (sources : list RefSource) (s : Refspec) : Z := 1 + sum_of (source_work all s) sources.
Definition spec_reports (sources : list RefSource) (s : Refspec) : Z := 1 + sum_of (source_reports s) sources.
Definition spec_bytes (sources : list RefSource) (s : Refspec) : Z := zlen (source s) + pattern_len s + sum_of (source_bytes s) sources.

Lemma specs_costs_nonneg all sources ss : 0 <= sum_of (spec_work all sources) ss /\ 0 <= sum_of (spec_reports sources) ss /\ 0 <= sum_of (spec_bytes sources) ss.
Proof.
  split_and!; apply sum_of_nonneg; intros s; pose proof (sources_costs_nonneg all s sources); pose proof (pattern_len_nonneg s); pose proof (zlen_nonneg (source s)); unfold spec_work, spec_reports, spec_bytes; lia.
Qed.

Lemma specs_spends over all ss sources p missing b :
  spends over b (sum_of (spec_work all sources) ss) (sum_of (spec_reports sources) ss) (sum_of (spec_bytes sources) ss) (map_specs all ss sources p missing) (specs_budgeted cancel all ss sources p missing b).
Proof.
  revert p missing b. induction ss as [|s ss IH]; intros p missing b; [apply spends_ret|]. cbn [specs_budgeted map_specs sum_of foldr]. pose proof (specs_costs_nonneg all sources ss) as (H1 & H2 & H3).
  fold (sum_of (spec_work all sources) ss) (sum_of (spec_reports sources) ss) (sum_of (spec_bytes sources) ss). set (W := sum_of (spec_work all sources) ss) in *. set (R := sum_of (spec_reports sources) ss) in *. set (B := sum_of (spec_bytes sources) ss) in *.
  unfold spec_work at 1, spec_reports at 1, spec_bytes at 1. pose proof (sources_costs_nonneg all s sources) as (H4 & H5 & H6). pose proof (pattern_len_nonneg s) as H7. pose proof (zlen_nonneg (source s)) as H8.
  set (w := sum_of (source_work all s) sources) in *. set (m := sum_of (source_reports s) sources) in *. set (n := sum_of (source_bytes s) sources) in *.
  eapply spends_weaken; [eapply (spent_bind over b 1 0 0 (w + W) (1 + m + R) (zlen (source s) + pattern_len s + n + B)); [apply step_spent| |lia..]|lia..]. intros b1.
  destruct (negative s); [eapply spends_weaken; [apply IH|lia..]|]. destruct (bytes_eqb (source s) []).
  - eapply spends_weaken; [eapply (spent_bind over b1 0 1 (pattern_len s) W R B); [eapply spent_weaken; [apply output_spent|change (source_len None) with 0; change (zlen (@nil Z)) with 0; lia..]| |lia..]|lia..]. intros b2.
    apply spends_plain; [apply mapping_tame|intros x _]. apply spends_plain; [apply add_tame|intros q _]. apply IH.
  - eapply spends_weaken; [eapply (spends_bind over b1 w m n W (1 + R) (zlen (source s) + B)); [apply sources_spends| |lia..]|lia..]. intros [matched q] b2 _. cbn [fst snd].
    destruct (negb matched && negb (wildcard s)); [|eapply spends_weaken; [apply IH|lia..]]. eapply (spent_bind over b2 0 1 (zlen (source s)) W R B); [by apply report_spent|intros b3; apply IH|lia..].
Qed.

Lemma check_spends over names sources b : spends over b (zlen sources) 0 0 (check_sources names sources) (check_budgeted cancel names sources b).
Proof.
  revert names b. induction sources as [|s sources IH]; intros names b; [apply spends_ret|]. cbn [check_budgeted check_sources]. rewrite zlen_cons, Z.add_comm. pose proof (zlen_nonneg sources).
  eapply (spent_bind over b 1 0 0 _ 0 0); [apply step_spent| |lia..]. intros b1. case_bool_decide; [done|]. destruct (is_null (src_id s)); [done|]. apply IH.
Qed.

Definition map_work (r : Refspecs) (sources : list RefSource) : Z := zlen sources + sum_of (spec_work (specs r) sources) (specs r).
Definition map_reports (r : Refspecs) (sources : list RefSource) : Z := sum_of (spec_reports sources) (specs r).
Definition map_bytes (r : Refspecs) (sources : list RefSource) : Z := sum_of (spec_bytes sources) (specs r).

Lemma map_admitted_spends over r sources b : spends over b (map_work r sources) (map_reports r sources) (map_bytes r sources) (map_with_missing r sources) (map_admitted cancel r sources b).
Proof.
  unfold map_admitted, map_with_missing. pose proof (specs_costs_nonneg (specs r) sources (specs r)) as (H1 & H2 & H3).
  eapply (spends_bind over b (zlen sources) 0 0 _ (map_reports r sources) (map_bytes r sources)); [apply check_spends| |done..]. intros [] b1 _.
  eapply spends_weaken; [eapply (spends_bind over b1 _ _ _ 0 0 0); [apply specs_spends| |lia..]|unfold map_reports, map_bytes; lia..]. intros [p missing] b2 _. apply spends_ret.
Qed.

(** ** Admission *)

Lemma sum_of_lengths l : Forall (fun n => 0 <= n) l -> 0 <= sum_of id l.
Proof. unfold sum_of, id. induction 1; cbn [foldr]; lia. Qed.

Lemma admit_bytes_spends bytes lengths b : Forall (fun n => 0 <= n) lengths -> spends (bytes < sum_of id lengths) b (zlen lengths) 0 0 (Ok (bytes - sum_of id lengths)) (admit_bytes cancel bytes lengths b).
Proof.
  intros Hl. revert bytes b. induction Hl as [|n lengths Hn Hl IH]; intros bytes b; cbn [admit_bytes sum_of foldr]; [rewrite Z.sub_0_r; apply spends_ret|]. fold (sum_of id lengths). rewrite zlen_cons. pose proof (zlen_nonneg lengths).
  pose proof (sum_of_lengths lengths Hl) as H0.
  eapply spends_weaken; [eapply (spent_bind _ b 1 0 0 (zlen lengths) 0 0); [apply step_spent| |lia..]|lia..]. intros b1. unfold id at 1 3. destruct (debit_cases bytes n "input bytes") as [[-> Hb]|[-> Hb]]; cbn [rbind].
  - specialize (IH (bytes - n) b1). replace (bytes - (n + sum_of id lengths)) with (bytes - n - sum_of id lengths) by lia. unfold spends in *. destruct (admit_bytes _ _ _ _) as [[]|[]]; try done. destruct IH; [by left|right; lia].
  - right. lia.
Qed.

Definition input_bytes (r : Refspecs) (names : list bytes) : Z := sum_of id (map (fun s => zlen (raw s)) (specs r)) + sum_of id (map zlen names).
Definition inadmissible (r : Refspecs) (l : MappingLimits) (count : Z) (names : list bytes) : Prop := max_sources l < count \/ max_specs l < zlen (specs r) \/ max_input_bytes l < input_bytes r names.

Lemma lengths_ok {A} (f : A -> bytes) l : Forall (fun n => 0 <= n) (map (fun x => zlen (f x)) l).
Proof. apply Forall_forall. intros n (x & -> & _)%list_elem_of_fmap. apply zlen_nonneg. Qed.

Lemma spends_over {A} (over over' : Prop) b w m n (p : result MappingError A) r : (over -> over') -> spends over b w m n p r -> spends over' b w m n p r.
Proof. intros Ho. unfold spends. destruct r as [[]|[]]; try done. intros [|]; [by left|right; auto]. Qed.

Lemma admit_spends {A} (over : Prop) r l count names b w m n (p : result MappingError A) k : 0 <= w -> 0 <= m -> 0 <= n -> (inadmissible r l count names -> over) ->
  (forall b', spends over b' w m n p (k b')) -> spends over b (zlen (specs r) + zlen names + w) m n p (rbind (admit_inputs cancel r l count names b) k).
Proof.
  intros H1 H2 H3 Ho Hk. unfold admit_inputs, inadmissible, input_bytes in *. destruct (Z.ltb_spec (max_sources l) count); [right; apply Ho; by left|]. destruct (Z.ltb_spec (max_specs l) (zlen (specs r))); [right; apply Ho; right; by left|].
  set (L1 := map (fun s => zlen (raw s)) (specs r)) in *. set (L2 := map zlen names) in *. pose proof (sum_of_lengths L2 (lengths_ok id names)) as HL2.
  assert (zlen L1 = zlen (specs r)) as E1 by (unfold zlen, L1; by rewrite length_map). assert (zlen L2 = zlen names) as E2 by (unfold zlen at 1, L2; by rewrite length_map).
  pose proof (admit_bytes_spends (max_input_bytes l) L1 b (lengths_ok raw _)) as Ha. pose proof (zlen_nonneg L1). pose proof (zlen_nonneg L2).
  destruct (admit_bytes cancel (max_input_bytes l) L1 b) as [[room b1]|e]; cbn [rbind]; [|destruct e; try done; budget; destruct Ha; [left; lia|right; apply Ho; lia]].
  destruct Ha as [<-%ok_inj Hl]. pose proof (admit_bytes_spends (max_input_bytes l - sum_of id L1) L2 b1 (lengths_ok id names)) as Hb.
  destruct (admit_bytes cancel _ L2 b1) as [[room b2]|e]; cbn [rbind]; [|destruct e; try done; budget; destruct Hb; [left; lia|right; apply Ho; lia]].
  destruct Hb as [_ Hb]. specialize (Hk b2). budget. destruct (k b2) as [[a b']|[]]; try done; [destruct Hk; split; [done|lia]|destruct Hk; [left; lia|by right]].
Qed.

(** ** Whole mappings *)

(** A limit that is below what the inputs need. *)
Definition over_limits (r : Refspecs) (l : MappingLimits) (count : Z) (names : list bytes) (w m n : Z) : Prop :=
  inadmissible r l count names \/ max_work l < zlen (specs r) + zlen names + w \/ max_mappings l < m \/ max_output_bytes l < n.
(** The outcome of a controlled call against the plain result. *)
Definition controlled {A} (over : Prop) (plain r : result MappingError A) : Prop :=
  match r with Ok a => plain = Ok a | Err (Limit _) => over | Err Cancelled => exists k, cancel k = true | Err e => plain = Err e end.

Lemma controlled_call {A} r l count names w m n (plain : result MappingError A) k body : 0 <= w -> 0 <= m -> 0 <= n ->
  (forall b, spends (inadmissible r l count names) b w m n plain (k b)) -> (forall b, body b = (let? (a, _) := k b in Ok a)) ->
  controlled (over_limits r l count names w m n) plain (let? b := budget_new cancel l in let? b := admit_inputs cancel r l count names b in body b).
Proof.
  intros H1 H2 H3 Hk Hbody. unfold budget_new. destruct (cancel 0%nat) eqn:E0; cbn [rbind]; [by exists 0%nat|]. set (b := Build_Budget _ _ _ _ _). pose proof (admit_spends (inadmissible r l count names) r l count names b w m n plain k H1 H2 H3 id Hk) as Ha.
  unfold controlled, over_limits, spends, short in *. destruct (admit_inputs cancel r l count names b) as [b1|e]; cbn [rbind] in *; [rewrite Hbody; destruct (k b1) as [[a b2]|e]; cbn [rbind]; [apply Ha|]|]; destruct e; try done; destruct Ha as [Ha|Ha]; cbn in Ha; tauto.
Qed.

Lemma map_costs_nonneg r sources : 0 <= map_work r sources /\ 0 <= map_reports r sources /\ 0 <= map_bytes r sources.
Proof. pose proof (specs_costs_nonneg (specs r) sources (specs r)). pose proof (zlen_nonneg sources). unfold map_work, map_reports, map_bytes. lia. Qed.

Definition source_names (sources : list RefSource) : list bytes := map (fun s => RefNames.as_bytes (src_name s)) sources.
Lemma controlled_map_plain r l sources :
  controlled (over_limits r l (zlen sources) (source_names sources) (map_work r sources) (map_reports r sources) (map_bytes r sources)) (map_with_missing r sources) (controlled_map_with_missing cancel r l sources).
Proof. pose proof (map_costs_nonneg r sources). eapply controlled_call; [lia..|intros b; apply map_admitted_spends|done]. Qed.

Lemma tips_spends over refs b : spends over b (zlen refs) 0 0 (Ok (tips refs)) (tips_budgeted cancel refs b).
Proof.
  revert b. induction refs as [|ref refs IH]; intros b; [apply spends_ret|]. cbn [tips_budgeted]. rewrite zlen_cons. pose proof (zlen_nonneg refs).
  eapply spends_weaken; [eapply (spent_bind over b 1 0 0 (zlen refs) 0 0); [apply step_spent| |lia..]|lia..]. intros b1.
  assert (Ok (tips (ref :: refs)) = (let? rest := Ok (tips refs) in Ok (if is_tip (a_kind ref) then {| src_name := a_name ref; src_id := a_id ref |} :: rest else rest)) :> result MappingError _) as ->.
  { unfold tips. cbn [List.filter rbind]. by destruct (is_tip (a_kind ref)). }
  eapply spends_weaken; [eapply (spends_bind over b1 (zlen refs) 0 0 0 0 0); [apply IH| |lia..]|lia..]. intros rest b2 _. apply spends_ret.
Qed.

Definition advertised_names (refs : list AdvertisedRef) : list bytes := map (fun a => RefNames.as_bytes (a_name a)) refs.
Lemma controlled_advertisement_plain r l refs :
  controlled (over_limits r l (zlen refs) (advertised_names refs) (zlen refs + map_work r (tips refs)) (map_reports r (tips refs)) (map_bytes r (tips refs))) (map_advertisement_with_missing r refs)
    (controlled_advertisement_with_missing cancel r l refs).
Proof.
  unfold controlled_advertisement_with_missing, map_advertisement_with_missing. pose proof (map_costs_nonneg r (tips refs)) as (H1 & H2 & H3). pose proof (zlen_nonneg refs). destruct (direction r).
  - eapply (controlled_call r l (zlen refs) (advertised_names refs) _ _ _ _ (fun b => let? (sources, b) := tips_budgeted cancel refs b in map_admitted cancel r sources b)); [lia..| |].
    2: { intros b. by destruct (tips_budgeted cancel refs b) as [[sources b']|]. }
    intros b. change (map_with_missing r (tips refs)) with (let? t := Ok (tips refs) in map_with_missing r t).
    eapply (spends_bind _ b (zlen refs) 0 0 (map_work r (tips refs)) (map_reports r (tips refs)) (map_bytes r (tips refs))); [apply tips_spends| |lia..]. intros t b1 <-%ok_inj. apply map_admitted_spends.
  - unfold budget_new. destruct (cancel 0%nat) eqn:E0; [by exists 0%nat|done].
Qed.

(** ** Pruning *)

Definition reverse_work (s : Refspec) (d : RefNames.RefName) : Z := 2 + pattern_len s + zlen (source s) + 2 * zlen (RefNames.as_bytes d).
Definition reverse_bytes (s : Refspec) (d : RefNames.RefName) : Z := zlen (source s) + zlen (RefNames.as_bytes d).
Definition too_long (ss : list Refspec) (d : RefNames.RefName) : Prop := exists s, s ∈ ss /\ usize_max < reverse_bytes s d.

Lemma reverse_costs_nonneg s d : 0 <= reverse_work s d /\ 0 <= reverse_bytes s d.
Proof. unfold reverse_work, reverse_bytes. pose proof (pattern_len_nonneg s). pose proof (zlen_nonneg (source s)). pose proof (zlen_nonneg (RefNames.as_bytes d)). lia. Qed.

Lemma captured_len p name c : stands p c name -> zlen c <= zlen name.
Proof. intros [(a & b & _ & _ & ->)|(_ & _ & ->)]; [rewrite !zlen_app; pose proof (zlen_nonneg a); pose proof (zlen_nonneg b); lia|apply zlen_nonneg]. Qed.

Lemma star_nonempty p i : position star p = Some i -> 1 <= zlen p.
Proof. intros (a & b & -> & _ & _)%star_position. rewrite zlen_app, zlen_cons. pose proof (zlen_nonneg a). pose proof (zlen_nonneg b). lia. Qed.

Lemma reverse_spends s d b : spends (too_long [s] d) b (reverse_work s d) 1 (reverse_bytes s d) (Ok (source_for_destination s d)) (reverse_source cancel s d b).
Proof.
  unfold reverse_source, source_for_destination. pose proof (reverse_costs_nonneg s d) as [H1 H2]. destruct (negative s); [eapply spends_weaken; [apply spends_ret|lia..]|].
  unfold reverse_work, pattern_len in *. destruct (destination_pattern s) as [p|]; cbn [mbind option_bind]; [|eapply spends_weaken; [apply spends_ret|lia..]]. pose proof (zlen_nonneg p). pose proof (zlen_nonneg (source s)) as Hs0. pose proof (zlen_nonneg (RefNames.as_bytes d)) as Hd0.
  set (name := RefNames.as_bytes d) in *. eapply spends_weaken; [eapply (spent_bind _ b (1 + zlen p + zlen name) 0 0 (1 + zlen (source s) + zlen name) 1 (reverse_bytes s d)); [apply comparison_spent| |lia..]|lia..]. intros b1.
  destruct (match position star p with Some i => star_capture p i name | None => _ end) as [c|] eqn:Ec; cbn [mbind option_bind]; [|eapply spends_weaken; [apply spends_ret|lia..]].
  apply stands_captured, captured_len in Ec. pose proof (zlen_nonneg c) as Hc0.
  eapply spends_weaken; [eapply (spent_bind _ b1 (1 + zlen (source s) + zlen name) 0 0 0 1 (reverse_bytes s d)); [eapply spent_weaken; [apply comparison_spent|lia..]| |lia..]|lia..]. intros b2.
  assert (forall n (x : bytes), 0 <= n <= reverse_bytes s d -> spends (too_long [s] d) b2 0 1 (reverse_bytes s d) (Ok (Some x)) (let? b := report n b2 in Ok (Some x, b))) as Hrep.
  { intros n x Hn. eapply spends_weaken; [eapply (spent_bind _ b2 0 1 n 0 0 0); [apply report_spent; lia| |lia..]|lia..]. intros b3. apply spends_ret. }
  destruct (position star (source s)) as [i|] eqn:Ei; [|apply Hrep; unfold reverse_bytes; fold name; lia]. apply star_nonempty in Ei. rewrite checked_sub_le by done. cbn [mbind option_bind].
  unfold checked_add. destruct (Z.leb_spec (zlen (source s) - 1 + zlen c) usize_max) as [|Hbig]; cbn [ok_or rbind]; [apply Hrep; unfold reverse_bytes; fold name; lia|]. right. exists s. split; [left|]. unfold reverse_bytes. fold name. lia.
Qed.

(** The sources that own a destination, and whether it may go. *)
Definition owners (all ss : list Refspec) (d : RefNames.RefName) : list bytes := List.filter (fun src => negb (excluded all src)) (omap (fun s => source_for_destination s d) ss).
Definition is_owned (l : list bytes) : bool := match l with [] => false | _ => true end.
Definition is_kept (kept l : list bytes) : bool := existsb (fun src => bool_decide (src ∈ kept)) l.
Definition prunable (r : Refspecs) (kept : list bytes) (d : RefNames.RefName) : bool := is_owned (prune_sources r d) && negb (is_kept kept (prune_sources r d)).

Definition owner_work (all : list Refspec) (d : RefNames.RefName) (s : Refspec) : Z :=
  1 + reverse_work s d + match source_for_destination s d with Some src => exclusion_work all src + (1 + zlen src) | None => 0 end.
Lemma owner_work_nonneg all d s : 0 <= owner_work all d s.
Proof. unfold owner_work. pose proof (reverse_costs_nonneg s d). destruct (source_for_destination s d) as [src|]; [pose proof (exclusion_work_nonneg all src); pose proof (zlen_nonneg src)|]; lia. Qed.
Definition destination_work (all ss : list Refspec) (d : RefNames.RefName) : Z := sum_of (owner_work all d) ss.
Definition destination_bytes (ss : list Refspec) (d : RefNames.RefName) : Z := sum_of (fun s => reverse_bytes s d) ss.
Lemma destination_costs_nonneg all ss d : 0 <= destination_work all ss d /\ 0 <= destination_bytes ss d.
Proof. split; apply sum_of_nonneg; intros s; [apply owner_work_nonneg|apply reverse_costs_nonneg]. Qed.

Lemma owners_cons all s ss d : owners all (s :: ss) d =
  match source_for_destination s d with Some src => if excluded all src then owners all ss d else src :: owners all ss d | None => owners all ss d end.
Proof. unfold owners. cbn [omap list_omap]. destruct (source_for_destination s d) as [src|]; [|done]. cbn [List.filter]. by destruct (excluded all src). Qed.

Lemma too_long_mono ss ss' d : ss ⊆ ss' -> too_long ss d -> too_long ss' d.
Proof. intros Hsub (s & Hs & H). exists s. split; [by apply Hsub|done]. Qed.

Lemma owner_spends all ss d kept owned b :
  spends (too_long ss d) b (destination_work all ss d) (zlen ss) (destination_bytes ss d) (Ok (owned || is_owned (owners all ss d), is_kept kept (owners all ss d))) (owner_budgeted cancel all ss d kept owned b).
Proof.
  revert owned b. induction ss as [|s ss IH]; intros owned b; [change (owners all [] d) with (@nil bytes); cbn [is_owned]; rewrite orb_false_r; apply spends_ret|]. cbn [owner_budgeted]. rewrite zlen_cons, owners_cons. pose proof (zlen_nonneg ss) as H0.
  assert (forall ow b, spends (too_long (s :: ss) d) b (destination_work all ss d) (zlen ss) (destination_bytes ss d) (Ok (ow || is_owned (owners all ss d), is_kept kept (owners all ss d))) (owner_budgeted cancel all ss d kept ow b)) as IH'.
  { intros ow b'. eapply spends_over; [|apply IH]. apply too_long_mono. set_solver. }
  destruct (destination_costs_nonneg all ss d) as [H1 H2]. unfold destination_work, destination_bytes, sum_of in *. cbn [foldr]. set (W := foldr (fun x n => owner_work all d x + n) 0 ss) in *. set (B := foldr (fun x n => reverse_bytes x d + n) 0 ss) in *.
  unfold owner_work at 1. pose proof (reverse_costs_nonneg s d) as [H3 H4]. set (more := match source_for_destination s d with Some src => _ | None => _ end). assert (0 <= more) as H5.
  { unfold more. destruct (source_for_destination s d) as [src|]; [pose proof (exclusion_work_nonneg all src); pose proof (zlen_nonneg src); lia|done]. }
  eapply spends_weaken; [eapply (spent_bind _ b 1 0 0 (reverse_work s d + (more + W)) (1 + zlen ss) (reverse_bytes s d + B)); [apply step_spent| |lia..]|lia..]. intros b1.
  eapply (spends_then _ b1 (reverse_work s d) 1 (reverse_bytes s d) (more + W) (zlen ss) B); [eapply spends_over; [|apply reverse_spends]; apply too_long_mono; set_solver| |lia..]. intros b2. cbv beta iota.
  unfold more. destruct (source_for_destination s d) as [src|]; [|eapply spends_weaken; [apply IH'|lia..]]. pose proof (exclusion_work_nonneg all src). pose proof (zlen_nonneg src).
  eapply spends_weaken; [eapply (spends_then _ b2 (exclusion_work all src) 0 0 (1 + zlen src + W) (zlen ss) B); [apply excluded_spends| |lia..]|lia..]. intros b3. cbv beta iota.
  destruct (excluded all src); [eapply spends_weaken; [apply IH'|lia..]|]. cbn [is_owned is_kept existsb]. rewrite orb_true_r.
  eapply spends_weaken; [eapply (spent_bind _ b3 (1 + zlen src) 0 0 W (zlen ss) B); [eapply spent_weaken; [apply comparison_spent|change (zlen (@nil Z)) with 0; lia..]| |lia..]|lia..]. intros b4.
  case_bool_decide; cbn [orb]; [eapply spends_weaken; [apply spends_ret|lia..]|]. apply (IH' true b4).
Qed.

Definition prune_work (all : list Refspec) (ds : list RefNames.RefName) : Z := sum_of (fun d => 1 + destination_work all all d) ds.
Definition prune_bytes (all : list Refspec) (ds : list RefNames.RefName) : Z := sum_of (destination_bytes all) ds.
Lemma prune_costs_nonneg all ds : 0 <= prune_work all ds /\ 0 <= prune_bytes all ds.
Proof. split; apply sum_of_nonneg; intros d; pose proof (destination_costs_nonneg all all d); lia. Qed.

Lemma prune_each_spends r ds kept b :
  spends (exists d, d ∈ ds /\ too_long (specs r) d) b (prune_work (specs r) ds) (zlen ds * zlen (specs r)) (prune_bytes (specs r) ds) (Ok (List.filter (prunable r kept) ds)) (prune_each cancel (specs r) ds kept b).
Proof.
  revert b. induction ds as [|d ds IH]; intros b; [apply spends_ret|]. cbn [prune_each]. rewrite zlen_cons, Z.mul_add_distr_r, Z.mul_1_l. pose proof (prune_costs_nonneg (specs r) ds) as [H1 H2]. pose proof (zlen_nonneg ds) as H3. pose proof (zlen_nonneg (specs r)) as H4.
  pose proof (destination_costs_nonneg (specs r) (specs r) d) as [H5 H6]. unfold prune_work, prune_bytes, sum_of in *. cbn [foldr]. set (W := foldr (fun x n => 1 + destination_work (specs r) (specs r) x + n) 0 ds) in *. set (B := foldr (fun x n => destination_bytes (specs r) x + n) 0 ds) in *.
  set (M := zlen ds * zlen (specs r)) in *. assert (0 <= M) as H7 by (unfold M; nia).
  eapply spends_weaken; [eapply (spent_bind _ b 1 0 0 (destination_work (specs r) (specs r) d + W) (zlen (specs r) + M) (destination_bytes (specs r) d + B)); [apply step_spent| |lia..]|lia..]. intros b1.
  eapply (spends_then _ b1 (destination_work (specs r) (specs r) d) (zlen (specs r)) (destination_bytes (specs r) d) W M B); [eapply spends_over; [|apply (owner_spends (specs r) (specs r) d kept false b1)]; intros H; exists d; split; [left|done]| |lia..].
  intros b2. cbv beta iota. cbn [fst snd orb]. eapply spends_weaken; [eapply (spends_then _ b2 W M B 0 0 0); [eapply spends_over; [|apply IH]; intros (x & Hx & H); exists x; split; [by right|done]| |lia..]|lia..]. intros b3. cbv beta iota. cbn [List.filter]. apply spends_ret.
Qed.

Definition advertised_work (refs : list AdvertisedRef) : Z := sum_of (fun a => 2 + zlen (RefNames.as_bytes (a_name a))) refs.
Lemma advertised_spends over refs b : spends over b (advertised_work refs) 0 0 (Ok (source_names (tips refs))) (advertised_budgeted cancel refs b).
Proof.
  revert b. induction refs as [|ref refs IH]; intros b; [apply spends_ret|]. cbn [advertised_budgeted]. unfold advertised_work, sum_of in *. cbn [foldr]. set (W := foldr (fun a n => 2 + zlen (RefNames.as_bytes (a_name a)) + n) 0 refs) in *. pose proof (zlen_nonneg (RefNames.as_bytes (a_name ref))) as H1.
  assert (0 <= W) as H2 by (apply sum_of_nonneg; intros a; pose proof (zlen_nonneg (RefNames.as_bytes (a_name a))); lia). set (name := RefNames.as_bytes (a_name ref)) in *.
  eapply spends_weaken; [eapply (spent_bind _ b 1 0 0 (1 + zlen name + W) 0 0); [apply step_spent| |lia..]|lia..]. intros b1.
  eapply spends_weaken; [eapply (spent_bind _ b1 (1 + zlen name) 0 0 W 0 0)| lia..]; [| |lia..].
  { destruct (is_tip (a_kind ref)); [eapply spent_weaken; [apply comparison_spent|change (zlen (@nil Z)) with 0; lia..]|budget; lia]. }
  intros b2. eapply spends_weaken; [eapply (spends_then _ b2 W 0 0 0 0 0); [apply IH| |lia..]|lia..]. intros b3. cbv beta iota. unfold tips, source_names. cbn [List.filter]. destruct (is_tip (a_kind ref)); apply spends_ret.
Qed.

Definition prune_names (ds : list RefNames.RefName) (refs : list AdvertisedRef) (retained : list bytes) : list bytes := advertised_names refs ++ map RefNames.as_bytes ds ++ retained.
Definition prune_count (ds : list RefNames.RefName) (refs : list AdvertisedRef) (retained : list bytes) : Z := zlen refs + zlen ds + zlen retained.
Definition prune_over (r : Refspecs) (l : MappingLimits) (ds : list RefNames.RefName) (refs : list AdvertisedRef) (retained : list bytes) : Prop :=
  over_limits r l (prune_count ds refs retained) (prune_names ds refs retained) (advertised_work refs + prune_work (specs r) ds) (zlen ds * zlen (specs r)) (prune_bytes (specs r) ds) \/
  usize_max < prune_count ds refs retained \/ exists d, d ∈ ds /\ too_long (specs r) d.

Lemma prune_candidates_plain r l ds refs retained :
  controlled (prune_over r l ds refs retained) (match direction r with Fetch => Ok (List.filter (prunable r (source_names (tips refs) ++ retained)) ds) | Push => Err DirectionError end) (prune_candidates cancel r l ds refs retained).
Proof.
  unfold prune_candidates, budget_new. destruct (cancel 0%nat) eqn:E0; cbn [rbind]; [by exists 0%nat|]. destruct (direction r); [|done]. set (b := Build_Budget _ _ _ _ _).
  pose proof (zlen_nonneg refs) as H1. pose proof (zlen_nonneg ds) as H2. pose proof (zlen_nonneg retained) as H3. pose proof (zlen_nonneg (specs r)) as H4. pose proof (prune_costs_nonneg (specs r) ds) as [H5 H6].
  assert (0 <= advertised_work refs) as H7 by (apply sum_of_nonneg; intros a; pose proof (zlen_nonneg (RefNames.as_bytes (a_name a))); lia). unfold checked_add at 2.
  destruct (Z.leb_spec (zlen refs + zlen ds) usize_max); cbn [mbind option_bind ok_or rbind]; [|right; left; unfold prune_count; lia]. unfold checked_add.
  destruct (Z.leb_spec (zlen refs + zlen ds + zlen retained) usize_max); cbn [ok_or rbind]; [|right; left; unfold prune_count; lia]. set (kept := source_names (tips refs) ++ retained).
  set (over := inadmissible r l (prune_count ds refs retained) (prune_names ds refs retained) \/ exists d, d ∈ ds /\ too_long (specs r) d).
  pose proof (admit_spends over r l (prune_count ds refs retained) (prune_names ds refs retained) b (advertised_work refs + prune_work (specs r) ds) (zlen ds * zlen (specs r)) (prune_bytes (specs r) ds) (Ok (List.filter (prunable r kept) ds))
    (fun b => let? (advertised, b) := advertised_budgeted cancel refs b in prune_each cancel (specs r) ds (advertised ++ retained) b) ltac:(lia) ltac:(nia) ltac:(lia) ltac:(by left)) as Ha.
  unfold prune_over, over_limits. unfold prune_count, prune_names, advertised_names in *. match type of Ha with ?P -> _ => assert P as Hp; [|specialize (Ha Hp)] end.
  { intros b'. eapply (spends_then _ b' (advertised_work refs) 0 0 (prune_work (specs r) ds) (zlen ds * zlen (specs r)) (prune_bytes (specs r) ds)); [apply advertised_spends| |lia|nia|lia]. intros b2. cbv beta iota. eapply spends_over; [|apply prune_each_spends]. by right. }
  destruct (admit_inputs cancel r l _ _ b) as [b1|e]; cbn [rbind] in Ha |- *; [|unfold controlled; destruct e; try done; budget; cbn [b b_work b_mappings b_bytes] in Ha; unfold over in Ha; tauto].
  destruct (advertised_budgeted cancel refs b1) as [[advertised b2]|e]; cbn [rbind] in Ha |- *; [|unfold controlled; destruct e; try done; budget; cbn [b b_work b_mappings b_bytes] in Ha; unfold over in Ha; tauto].
  destruct (prune_each cancel (specs r) ds _ b2) as [[pruned b3]|e]; cbn [rbind] in Ha |- *; [|unfold controlled; destruct e; try done; budget; cbn [b b_work b_mappings b_bytes] in Ha; unfold over in Ha; tauto].
  destruct (cancel (b_polls b3)) eqn:E3; [by exists (b_polls b3)|]. apply Ha.
Qed.
End Budget.

(** C25: the controlled mapping gives the result of the plain mapping, error for error.  It
    fails otherwise only when the flag was set at one of its polls, or when a limit is
    below the cost of the inputs: their number, their bytes, the comparisons, the reports
    or the bytes of output. *)
Theorem controlled_map_exact cancel r l sources :
  match controlled_map_with_missing cancel r l sources with
  | Ok found => map_with_missing r sources = Ok found
  | Err (Limit _) => over_limits r l (zlen sources) (source_names sources) (map_work r sources) (map_reports r sources) (map_bytes r sources)
  | Err Cancelled => exists k, cancel k = true
  | Err e => map_with_missing r sources = Err e
  end.
Proof. apply controlled_map_plain. Qed.

Lemma prunable_iff r refs retained d : Forall (spec_ok Fetch) (specs r) -> RefNames.new (RefNames.as_bytes d) = Ok d ->
  prunable r (source_names (tips refs) ++ retained) d = true <->
  prune_sources r d <> [] /\ ~ (exists m, wanted (specs r) (specs r) (tips refs) m /\ m_destination m = Some d) /\ forall src, src ∈ prune_sources r d -> src ∉ retained.
Proof.
  intros Hr Hd. rewrite (prune_mapped r (tips refs) d Hr Hd). unfold prunable, is_kept. rewrite andb_true_iff, negb_true_iff, <- not_true_iff_false, existsb_exists. setoid_rewrite <- list_elem_of_In. setoid_rewrite bool_decide_eq_true. setoid_rewrite elem_of_app.
  assert (forall x, x ∈ source_names (tips refs) <-> exists src, x = RefNames.as_bytes (src_name src) /\ src ∈ tips refs) as Hsn by (intros x; apply list_elem_of_fmap). setoid_rewrite Hsn. assert (is_owned (prune_sources r d) = true <-> prune_sources r d <> []) as -> by (by destruct (prune_sources r d)). apply and_iff_compat_l. split.
  - intros Hn. split; [intros (src & Hin & Hs); apply Hn; exists (RefNames.as_bytes (src_name src)); split; [done|]; left; by exists src|]. intros src Hs Hk. apply Hn. exists src. split; [done|by right].
  - intros [Ht Hk] (x & Hx & [(src & -> & Hs)|Hx']); [apply Ht; by exists src|by apply (Hk x)].
Qed.

(** C24: pruning deletes only references that nothing maps any more.  For a parsed fetch list
    and an advertisement that it maps, the pruned references are exactly those of the
    given destinations that some specification owns, that are the destination of no
    mapping of the advertisement, and none of whose sources is retained. *)
Theorem prune_candidates_exact cancel values r l ds refs retained pruned ms missing :
  parse_all Fetch values = Ok r -> Forall (fun d => RefNames.new (RefNames.as_bytes d) = Ok d) ds ->
  prune_candidates cancel r l ds refs retained = Ok pruned -> map_advertisement_with_missing r refs = Ok (ms, missing) ->
  forall d, d ∈ pruned <-> d ∈ ds /\ prune_sources r d <> [] /\ Some d ∉ map m_destination ms /\ forall src, src ∈ prune_sources r d -> src ∉ retained.
Proof.
  intros [Ed Hr]%parse_all_ok Hds Hp Hm d. pose proof (prune_candidates_plain cancel r l ds refs retained) as Hc. rewrite Hp in Hc. cbn [controlled] in Hc. rewrite Ed in Hc. apply ok_inj in Hc. rewrite <- Hc.
  unfold map_advertisement_with_missing in Hm. rewrite Ed in Hm. pose proof (map_with_missing_exact Fetch r (tips refs) Hr) as He. rewrite Hm in He. destruct He as (_ & _ & He & _). rewrite list_elem_of_In, filter_In, <- list_elem_of_In. rewrite Forall_forall in Hds.
  assert (Some d ∈ map m_destination ms <-> exists m, wanted (specs r) (specs r) (tips refs) m /\ m_destination m = Some d) as -> by (rewrite list_elem_of_fmap; setoid_rewrite He; naive_solver).
  split; intros [Hin H]; (split; [done|]); [by apply (prunable_iff r refs retained d Hr (Hds d Hin))|by apply prunable_iff; [|apply Hds|]].
Qed.

(** The reference of a branch that is gone is pruned, that of one that is there is not. *)
Definition sample_refs : list AdvertisedRef := [{| a_name := {| RefNames.as_bytes := bstr "refs/heads/main" |}; a_id := sample_tip; a_kind := Tip |}].
Definition sample_destinations : list RefNames.RefName := [{| RefNames.as_bytes := bstr "refs/remotes/origin/main" |}; {| RefNames.as_bytes := bstr "refs/remotes/origin/old" |}].
Lemma prune_candidates_exact_witness :
  prune_candidates (fun _ => false) sample_specs default_limits sample_destinations sample_refs [] = Ok [{| RefNames.as_bytes := bstr "refs/remotes/origin/old" |}] /\
  prune_sources sample_specs {| RefNames.as_bytes := bstr "refs/remotes/origin/old" |} <> [].
Proof.
  assert (prune_candidates (fun _ => false) sample_specs default_limits sample_destinations sample_refs [] = Ok [{| RefNames.as_bytes := bstr "refs/remotes/origin/old" |}]) as E by (vm_compute; reflexivity).
  split; [exact E|]. apply (prune_candidates_exact (fun _ => false) sample_values sample_specs default_limits sample_destinations sample_refs [] [{| RefNames.as_bytes := bstr "refs/remotes/origin/old" |}] [sample_mapping] []);
    [vm_compute; reflexivity|repeat (apply Forall_cons_2; [vm_compute; reflexivity|]); apply Forall_nil_2|exact E|vm_compute; reflexivity|left].
Defined.
End RefspecBudget.
