(* ===== verification/PackedRefs.v ===== *)
(** * Packed references ([src/src/refs/packed.rs] and the encoder of [src/src/refs/pack.rs])

    Parsing and validation of a [packed-refs] file, removal of one reference from its
    bytes, and the encoder that packing writes it with. *)

From stdpp Require Import base list numbers strings sets.
From Stdlib Require Import ZArith Lia.
From S2P Require Import Prelude Objects RefNames Lines BTree.

Module PackedRefs.
Import Objects Lines.

(** The variants of [ReferenceError] that the parser makes, without the path of the file. *)
Inductive ReferenceError := Malformed (reason : string) | Unsupported (what : string) | Limit (what : string) | Cancelled.

Record PackedRecord := { target : ObjectId; peeled_hint : option ObjectId }.
(** [Packed]: the records by the bytes of their names, in order. *)
Definition Packed := list (bytes * PackedRecord).
Record Snapshot := { snapshot_bytes : bytes; records : Packed }.

(** ** Identities *)

(** [hex_digit]. *)
Definition hex_value (byte : Z) : option Z :=
  if (48 <=? byte) && (byte <=? 57) then Some (byte - 48)
  else if (97 <=? byte) && (byte <=? 102) then Some (byte - 97 + 10)
  else if (65 <=? byte) && (byte <=? 70) then Some (byte - 65 + 10)
  else None.

(** The loop over the pairs of digits. *)
Fixpoint decode_pairs (bs : bytes) : result ReferenceError bytes :=
  match bs with
  | high :: low :: rest =>
      match hex_value high, hex_value low with
      | Some h, Some l => let? more := decode_pairs rest in Ok (Z.lor (wrap8 (Z.shiftl h 4)) l :: more)
      | _, _ => Err (Malformed "invalid repository-format reference target")
      end
  | _ => Ok []
  end.

(** [parse_id]; the digest array has 32 bytes. *)
Definition parse_id (f : ObjectFormat) (bs : bytes) : result ReferenceError ObjectId :=
  if negb (zlen bs =? digest_len f * 2) then Err (Malformed "expected repository-format reference target")
  else
    let? decoded := decode_pairs bs in
    let digest := take 32 decoded ++ replicate (32 - length decoded) 0 in
    let? digest := ok_or (slice 0 (digest_len f) digest) (Malformed "unsupported reference digest width") in
    let? id := map_err (fun _ => Malformed "invalid repository-format reference target") (from_bytes f digest) in
    if is_null id then Err (Malformed "zero reference target") else Ok id.

(** ** Parsing *)

Record State := { entries : Packed; previous : option bytes; can_peel : bool; sorted : bool }.
Definition initial : State := {| entries := []; previous := None; can_peel := false; sorted := false |}.

(** The traits of the header. *)
Fixpoint traits (names : list bytes) (sorted : bool) : result ReferenceError bool :=
  match names with
  | [] => Ok sorted
  | name :: names =>
      if bytes_eqb name [] then traits names sorted
      else if bytes_eqb name (bstr "peeled") || bytes_eqb name (bstr "fully-peeled") then traits names sorted
      else if bytes_eqb name (bstr "sorted") then traits names true
      else Err (Unsupported "packed-refs header trait")
  end.

(** The identity and the name of a record. *)
Definition split_record (width : Z) (line : bytes) : option (bytes * bytes) :=
  id ← slice 0 width line;
  name ← strip_prefix [32] (drop (Z.to_nat width) line);
  if bytes_eqb name [] then None else Some (id, name).

Definition header_mark : bytes := bstr "# pack-refs with:".

Section Parse.
Context (f : ObjectFormat) (controlled : bool) (max_refs : Z) (cancel : nat -> bool).

Definition peel_line (peeled : bytes) (s : State) : result ReferenceError State :=
  if negb (can_peel s) then Err (Malformed "orphan or repeated peeled record")
  else
    let? id := parse_id f peeled in
    match (name ← previous s; e ← BTree.get name (entries s); Some (name, e)) with
    | None => Err (Malformed "orphan or repeated peeled record")
    | Some (name, e) => Ok {| entries := BTree.insert name {| target := target e; peeled_hint := Some id |} (entries s); previous := previous s; can_peel := false; sorted := sorted s |}
    end.

Definition record_line (line : bytes) (s : State) : result ReferenceError State :=
  match split_record (digest_len f * 2) line with
  | None => Err (Malformed "expected object ID and reference name")
  | Some (id, name) =>
      if controlled && (max_refs <=? zlen (entries s)) then Err (Limit "reference entries")
      else
        let? id := parse_id f id in
        let? name := map_err (fun _ => Malformed "invalid packed reference name") (RefNames.new name) in
        if bytes_eqb (RefNames.as_bytes name) (bstr "HEAD") || RefNames.per_worktree name then Err (Unsupported "packed per-worktree reference")
        else
          let name := RefNames.as_bytes name in
          if sorted s && match previous s with Some p => match bytes_cmp p name with Lt => false | _ => true end | None => false end then Err (Malformed "packed sorted order violated")
          else if bool_decide (is_Some (BTree.get name (entries s))) then Err (Malformed "duplicate packed reference")
          else Ok {| entries := BTree.insert name {| target := id; peeled_hint := None |} (entries s); previous := Some name; can_peel := true; sorted := sorted s |}
  end.

Definition parse_line (index : Z) (line : bytes) (s : State) : result ReferenceError State :=
  match strip_prefix header_mark line with
  | Some header =>
      if negb (index =? 0) then Err (Malformed "misplaced packed header")
      else let? sorted := traits (split_on 32 header) (sorted s) in Ok {| entries := entries s; previous := previous s; can_peel := can_peel s; sorted := sorted |}
  | None =>
      match strip_prefix [94] line with
      | Some peeled => peel_line peeled s
      | None => record_line line s
      end
  end.

(** [check_cancelled], at the [n]th load of the flag. *)
Definition check_cancelled (polls : nat) : result ReferenceError nat := if cancel polls then Err Cancelled else Ok (S polls).

Fixpoint parse_lines (index : Z) (lines : list bytes) (polls : nat) (s : State) : result ReferenceError (State * nat) :=
  match lines with
  | [] => Ok (s, polls)
  | line :: lines =>
      let? polls := if controlled && (index mod 64 =? 0) then check_cancelled polls else Ok polls in
      let? s := parse_line index line s in
      parse_lines (index + 1) lines polls s
  end.

(** [parse_with]; [polls] loads of the flag came before it. *)
Definition parse_with (bs : bytes) (polls : nat) : result ReferenceError Packed :=
  if negb (bytes_eqb bs []) && negb (ends_with [10] bs) then Err (Malformed "unterminated packed record")
  else if bytes_eqb bs [] then Ok []
  else
    let? (s, polls) := parse_lines 0 (split_on 10 (default bs (strip_suffix [10] bs))) polls initial in
    let? _ := if controlled then check_cancelled polls else Ok polls in
    Ok (entries s).
End Parse.

(** [parse]. *)
Definition parse (f : ObjectFormat) (bs : bytes) : result ReferenceError Packed := parse_with f false usize_max (fun _ => false) bs 0.

(** [admit], of a snapshot. *)
Definition admit_snapshot (s : Snapshot) (max_bytes max_refs : Z) : result ReferenceError unit :=
  if max_bytes <? zlen (snapshot_bytes s) then Err (Limit "reference bytes")
  else if max_refs <? zlen (records s) then Err (Limit "reference entries")
  else Ok tt.

(** ** Removal *)

(** Whether a line, with its end, is the record of the name. *)
Definition names_line (width : Z) (name line : bytes) : bool :=
  match zget width line with Some b => b =? 32 | None => false end && bool_decide (slice (width + 1) (zlen line - 1) line = Some name).

Fixpoint keep_lines (width : Z) (name : bytes) (lines : list bytes) (removed : bool) : bytes :=
  match lines with
  | [] => []
  | line :: lines =>
      if starts_with [94] line && removed then keep_lines width name lines removed
      else
        let removed := names_line width name line in
        (if removed then [] else line) ++ keep_lines width name lines removed
  end.

(** [without_ref]. *)
Definition without_ref (f : ObjectFormat) (bs : bytes) (name : RefNames.RefName) : bytes :=
  keep_lines (digest_len f * 2) (RefNames.as_bytes name) (split_inclusive 10 bs) false.

(** ** The encoder *)

Definition HEADER : bytes := bstr "# pack-refs with: peeled fully-peeled sorted " ++ [10].
Definition encode_record (r : bytes * PackedRecord) : bytes :=
  to_string (target r.2) ++ [32] ++ r.1 ++ [10] ++ match peeled_hint r.2 with Some p => [94] ++ to_string p ++ [10] | None => [] end.
Definition encode (records : Packed) : bytes := HEADER ++ concat (map encode_record records).
End PackedRefs.
