(* ===== verification/PackedCorrect.v ===== *)
(** * Packed references: round trip and removal

    An accepted file is a well-formed map that the encoder writes back, and removing one
    reference from the bytes of an accepted file removes exactly that record. *)

From stdpp Require Import base list numbers strings sets sorting.
From Stdlib Require Import ZArith Lia.
From S2P Require Import Prelude Objects RefNames Lines BTree PackedRefs.

Module PackedCorrect.
Import Objects Lines PackedRefs.

(** ** Lines *)

Fixpoint run (f : ObjectFormat) (index : Z) (lines : list bytes) (s : State) : result ReferenceError State :=
  match lines with [] => Ok s | line :: lines => let? s := parse_line f false usize_max index line s in run f (index + 1) lines s end.

Lemma parse_lines_run f c index lines polls s : parse_lines f false usize_max c index lines polls s = (let? s := run f index lines s in Ok (s, polls)).
Proof.
  revert index s. induction lines as [|line lines IH]; intros index s; cbn [parse_lines run]; [done|]. cbn [andb rbind]. destruct (parse_line _ _ _ _ _ _) as [s'|]; cbn [rbind]; [apply IH|done].
Qed.

Lemma unlines_split l : unlines (split_on 10 l) = l ++ [10] /\ Forall (fun p => 10 ∉ p) (split_on 10 l).
Proof.
  induction l as [|x l [IH1 IH2]]; cbn [split_on]; [split; [done|repeat constructor; apply not_elem_of_nil]|]. destruct (Z.eqb_spec x 10) as [-> |Hx].
  - rewrite unlines_cons, IH1. split; [done|]. constructor; [apply not_elem_of_nil|done].
  - destruct (split_on 10 l) as [|p ps] eqn:E; [by apply split_on_nonempty in E|]. rewrite unlines_cons in *. inversion IH2; subst. split; [cbn; by rewrite IH1|]. constructor; [rewrite not_elem_of_cons; by split|done].
Qed.

Lemma split_unlines line lines : Forall (fun p => 10 ∉ p) (line :: lines) -> exists l, unlines (line :: lines) = l ++ [10] /\ split_on 10 l = line :: lines.
Proof.
  intros Hl. revert line Hl. induction lines as [|next lines IH]; intros line Hl; apply Forall_cons in Hl as [Hline Hl].
  - exists line. rewrite unlines_cons. split; [done|by apply split_on_single].
  - destruct (IH next Hl) as (l & E1 & E2). exists (line ++ 10 :: l). rewrite unlines_cons, E1. split; [by rewrite <- app_assoc|]. by rewrite split_on_app, E2.
Qed.

Lemma parse_unlines f lines : Forall (fun p => 10 ∉ p) lines -> parse f (unlines lines) = (let? s := run f 0 lines initial in Ok (entries s)).
Proof.
  intros Hl. destruct lines as [|line lines]; [done|]. destruct (split_unlines line lines Hl) as (l & E1 & E2). rewrite E1. unfold parse, parse_with.
  assert (bytes_eqb (l ++ [10]) [] = false) as -> by (apply not_true_iff_false; rewrite bytes_eqb_eq; by destruct l). assert (strip_suffix [10] (l ++ [10]) = Some l) as Es by (by apply strip_suffix_Some).
  assert (ends_with [10] (l ++ [10]) = true) as -> by (apply ends_with_true; by exists l). cbn [negb andb]. rewrite Es. change (default (l ++ [10]) (Some l)) with l. rewrite E2, parse_lines_run. by destruct (run _ _ _ _).
Qed.

Lemma parse_lines_of f bs e : parse f bs = Ok e -> exists lines, bs = unlines lines /\ Forall (fun p => 10 ∉ p) lines.
Proof.
  unfold parse, parse_with. destruct (bytes_eqb bs []) eqn:E0; [apply bytes_eqb_eq in E0 as ->; intros _; by exists []|]. cbn [negb andb]. destruct (ends_with [10] bs) eqn:E1; [|done]. intros _.
  apply ends_with_true in E1 as [l ->]. exists (split_on 10 l). destruct (unlines_split l). auto.
Qed.

(** ** Identities *)

Lemma hex_value_digit b : hex_value b = match hex_digit b with Ok n => Some n | Err _ => None end.
Proof. unfold hex_value, hex_digit. by repeat case_match. Qed.

Lemma decode_pairs_hex bs l : decode_pairs bs = Ok l <-> hex_pairs bs = Ok l.
Proof.
  revert l. induction bs as [|x|x y bs IH] using list_pair_ind; intros l; cbn [decode_pairs hex_pairs]; [by split; intros <-%ok_inj..|]. rewrite !hex_value_digit.
  destruct (hex_digit x) as [h|]; cbn [rbind]; [|done]. destruct (hex_digit y) as [d|]; cbn [rbind]; [|done]. rewrite !rbind_Ok. setoid_rewrite IH. split; intros (a & Ha & <-%ok_inj); by exists a.
Qed.

Record id_fits (f : ObjectFormat) (id : ObjectId) : Prop := { fits_ok : id_ok id; fits_format : id_format id = f; fits_some : is_null id = false }.

Lemma hex_pairs_len s b : zlen s mod 2 = 0 -> hex_pairs s = Ok b -> zlen s = 2 * zlen b.
Proof. intros H1 H2. destruct (hex_pairs_Ok s b H1 H2) as [_ H]. rewrite <- (zlen_map to_lower s), <- H. apply zlen_to_hex. Qed.

(** The decoder of reference targets agrees with the one of identities. *)
Lemma parse_id_hex f bs id : parse_id f bs = Ok id <-> zlen bs = digest_len f * 2 /\ (let? b := hex_pairs bs in Ok (make_id f b)) = Ok id /\ is_null id = false.
Proof.
  unfold parse_id. destruct (Z.eqb_spec (zlen bs) (digest_len f * 2)) as [El|El]; cbn [negb]; [|split; [done|naive_solver]]. rewrite !rbind_Ok. setoid_rewrite decode_pairs_hex.
  assert (zlen bs mod 2 = 0) as Hm by (rewrite El; by destruct f). assert (forall b, hex_pairs bs = Ok b ->
    (let? d := ok_or (slice 0 (digest_len f) (take 32 b ++ replicate (32 - length b) 0)) (Malformed "unsupported reference digest width") in
     let? i := map_err (fun _ => Malformed "invalid repository-format reference target") (from_bytes f d) in
     if is_null i then Err (Malformed "zero reference target") else Ok i) = Ok id <-> Ok (make_id f b) = @Ok ParseObjectIdError _ id /\ is_null id = false) as Hb.
  { intros b Eb. pose proof (hex_pairs_len bs b Hm Eb) as Hl. assert (zlen b = digest_len f) as Hlb by lia. rewrite take_ge by (unfold zlen in Hlb; destruct f; cbn in Hlb; lia).
    rewrite (slice_between (b ++ _) [] b (replicate (32 - length b) 0)) by (done || lia). cbn [ok_or rbind]. assert (from_bytes f b = Ok (make_id f b)) as ->.
    { destruct f; cbn [from_bytes digest_len] in *; by rewrite Hlb. } cbn [map_err rbind]. destruct (is_null (make_id f b)) eqn:En; split; [done|intros [<-%ok_inj H]; congruence|intros <-%ok_inj; done|intros [<-%ok_inj _]; done]. }
  split; [intros (b & Eb & H%Hb); [|done]; naive_solver|]. intros (_ & (b & Eb & H) & Hn). exists b. split; [done|]. by apply Hb.
Qed.

Lemma target_Ok f bs id : parse_id f bs = Ok id <-> id_fits f id /\ map to_lower bs = to_string id.
Proof.
  rewrite parse_id_hex. split.
  - intros (El & H & Hn). assert (from_str bs = Ok id) as [Hi Hs]%from_str_Ok. { unfold from_str. rewrite El. by destruct f. }
    split; [|done]. constructor; [done| |done]. apply rbind_Ok in H as (b & _ & <-%ok_inj). by destruct f.
  - intros [[Hi Hf Hn] Hs]. assert (zlen bs = digest_len f * 2) as El. { rewrite <- (zlen_map to_lower bs), Hs. unfold to_string. rewrite zlen_to_hex. destruct Hi as [_ ->]. rewrite Hf. lia. }
    split; [done|]. split; [|done]. assert (from_str bs = Ok id) as H by (by apply from_str_Ok). unfold from_str in H. rewrite El in H. destruct f; cbn in H |- *; done.
Qed.

Lemma to_hex_range l : bytes_ok l -> Forall (fun c => 48 <= c <= 57 \/ 97 <= c <= 102) (to_hex l).
Proof.
  induction 1 as [|b l Hb Hl IH]; [constructor|]. rewrite to_hex_cons. unfold byte_ok in Hb. assert (0 <= b / 16 < 16) by (split; [apply Z.div_pos|apply Z.div_lt_upper_bound]; lia).
  assert (0 <= b mod 16 < 16) by (apply Z.mod_pos_bound; lia). unfold hex_char. constructor; [|constructor; [|done]]; destruct (Z.ltb_spec (b / 16) 10), (Z.ltb_spec (b mod 16) 10); lia.
Qed.

(** No byte of an accepted identity ends it. *)
Lemma parse_id_digits f bs id : parse_id f bs = Ok id -> zlen bs = digest_len f * 2 /\ Forall (fun b => b <> 32 /\ b <> 10 /\ b <> 94 /\ b <> 35) bs.
Proof.
  intros H. split; [by apply parse_id_hex in H as [? _]|]. apply target_Ok in H as [[[Hok _] _ _] E]. pose proof (to_hex_range _ Hok) as Hr. unfold to_string in E. rewrite <- E in Hr. rewrite Forall_map in Hr.
  eapply Forall_impl; [exact Hr|]. intros b. unfold compose, to_lower, is_upper. destruct (_ && _) eqn:Eu; [apply andb_true_iff in Eu; lia|lia].
Qed.

(** ** Names *)

Definition name_ok (n : bytes) : Prop := RefNames.new n = Ok {| RefNames.as_bytes := n |} /\ bytes_eqb n (bstr "HEAD") = false /\ RefNames.per_worktree {| RefNames.as_bytes := n |} = false.
Definition record_ok (f : ObjectFormat) (r : bytes * PackedRecord) : Prop := name_ok r.1 /\ id_fits f (target r.2) /\ forall p, peeled_hint r.2 = Some p -> id_fits f p.
Record packed_ok (f : ObjectFormat) (m : Packed) : Prop := { pk_order : BTree.ok m; pk_records : Forall (record_ok f) m }.

(** A valid name has a slash and no end of line. *)
Lemma valid_name_bytes n r : RefNames.new n = Ok r -> RefNames.as_bytes r = n /\ n <> [] /\ (47 ∈ n \/ 72 ∈ n) /\ 10 ∉ n.
Proof.
  intros [E H]%RefNames.new_Ok. split; [done|]. destruct H as [-> |H]; [split_and!; [done|right; left|by apply contains_false]|]. destruct H as [[rest ->] _ _ _ _ _ _ Hb].
  split_and!; [done|left; apply elem_of_app; left; by apply contains_true|]. intros Hin. apply Hb in Hin as [? _]. lia.
Qed.

(** The text of an accepted header has neither a slash nor a capital. *)
Lemma traits_bytes names st st' : traits names st = Ok st' -> Forall (fun n => 47 ∉ n /\ 72 ∉ n) names.
Proof.
  revert st. induction names as [|n names IH]; intros st; cbn [traits]; [constructor|]. assert (forall m, bytes_eqb n m = true -> contains 47 m = false -> contains 72 m = false -> 47 ∉ n /\ 72 ∉ n) as Hn.
  { intros m Em%bytes_eqb_eq H1 H2. subst. by rewrite <- !contains_false. }
  destruct (bytes_eqb n []) eqn:E0; [intros H; constructor; [by apply (Hn [])|eapply IH; exact H]|]. destruct (bytes_eqb n (bstr "peeled")) eqn:E1; [intros H; constructor; [by apply (Hn (bstr "peeled"))|eapply IH; exact H]|].
  destruct (bytes_eqb n (bstr "fully-peeled")) eqn:E2; [intros H; constructor; [by apply (Hn (bstr "fully-peeled"))|eapply IH; exact H]|]. destruct (bytes_eqb n (bstr "sorted")) eqn:E3; [intros H; constructor; [by apply (Hn (bstr "sorted"))|eapply IH; exact H]|done].
Qed.

Lemma split_on_bytes d x l : x ∈ l -> x <> d -> exists p, p ∈ split_on d l /\ x ∈ p.
Proof.
  induction l as [|y l IH]; [by intros ?%not_elem_of_nil|]. intros Hin Hx. cbn [split_on]. destruct (split_on d l) as [|q qs] eqn:E; [by apply split_on_nonempty in E|]. destruct (Z.eqb_spec y d) as [-> |Hy].
  - apply elem_of_cons in Hin as [->|Hin]; [done|]. destruct (IH Hin Hx) as (p & Hp & Hxp). exists p. split; [by right|done].
  - apply elem_of_cons in Hin as [->|Hin]; [exists (y :: q); split; left|]. destruct (IH Hin Hx) as (p & [-> |Hp]%elem_of_cons & Hxp); [exists (y :: q); split; [left|by right]|exists p; split; [by right|done]].
Qed.

(** ** Removal *)

Definition names (f : ObjectFormat) (n line : bytes) : Prop := exists id, zlen id = digest_len f * 2 /\ line = id ++ 32 :: n.

Lemma names_line_iff f n line : names_line (digest_len f * 2) n (line ++ [10]) = true <-> names f n line.
Proof.
  assert (0 < digest_len f * 2) as Hw by (by destruct f). unfold names_line, names. rewrite andb_true_iff, bool_decide_eq_true, zlen_app. change (zlen [10]) with 1. replace (zlen line + 1 - 1) with (zlen line) by lia. split.
  - intros [Hz Hs]. destruct (zget _ _) as [b|] eqn:Eb; [|done]. apply Z.eqb_eq in Hz as ->. apply slice_app in Hs as (pre & post & E & Hp & Hn).
    assert (exists x, post = [x]) as [x ->]. { assert (zlen post = 1) as H1 by (apply (f_equal zlen) in E; rewrite !zlen_app in E; change (zlen [10]) with 1 in E; lia). destruct post as [|x [|y post]]; [done|by exists x|]. rewrite !zlen_cons in H1. pose proof (zlen_nonneg post). lia. }
    rewrite app_assoc in E. apply app_inj_tail in E as [-> <-]. destruct pre as [|b pre _] using rev_ind; [change (zlen (@nil Z)) with 0 in Hp; lia|]. rewrite zlen_app in Hp. change (zlen [b]) with 1 in Hp.
    exists pre. split; [lia|]. rewrite <- app_assoc. cbn [app]. apply zget_Some in Eb as [_ Eb]. rewrite <- !app_assoc in Eb. cbn [app] in Eb. rewrite lookup_app_r in Eb by (unfold zlen in Hp; lia).
    replace (Z.to_nat (digest_len f * 2) - length pre)%nat with 0%nat in Eb by (unfold zlen in Hp; lia). by injection Eb as ->.
  - intros (id & Hid & ->). split.
    + assert (zget (digest_len f * 2) ((id ++ 32 :: n) ++ [10]) = Some 32) as ->; [|done]. apply zget_Some. split; [lia|]. rewrite <- app_assoc, lookup_app_r by (unfold zlen in Hid; lia). by replace (Z.to_nat (digest_len f * 2) - length id)%nat with 0%nat by (unfold zlen in Hid; lia).
    + apply (slice_between _ (id ++ [32]) n [10]); [by rewrite <- !app_assoc|rewrite zlen_app; change (zlen [32]) with 1; lia|rewrite zlen_app, zlen_cons; lia].
Qed.

(** The lines that the removal keeps. *)
Fixpoint kept (f : ObjectFormat) (n : bytes) (lines : list bytes) (removed : bool) : list bytes :=
  match lines with
  | [] => []
  | l :: lines =>
      if starts_with [94] l && removed then kept f n lines removed
      else let removed := names_line (digest_len f * 2) n (l ++ [10]) in (if removed then [] else [l]) ++ kept f n lines removed
  end.

Lemma keep_lines_kept f n lines removed : keep_lines (digest_len f * 2) n (map (fun l => l ++ [10]) lines) removed = unlines (kept f n lines removed).
Proof.
  revert removed. induction lines as [|l lines IH]; intros removed; [done|]. cbn [map keep_lines kept]. assert (starts_with [94] (l ++ [10]) = starts_with [94] l) as -> by (destruct l; [done|]; unfold starts_with; cbn; by repeat case_match).
  destruct (starts_with [94] l && removed); [apply IH|]. rewrite IH. destruct (names_line _ _ _); [done|]. cbn [app]. rewrite unlines_cons, <- app_assoc. done.
Qed.

Lemma without_ref_lines f lines n : Forall (fun p => 10 ∉ p) lines -> without_ref f (unlines lines) n = unlines (kept f (RefNames.as_bytes n) lines false).
Proof.
  intros Hl. unfold without_ref. rewrite <- keep_lines_kept. f_equal. induction Hl as [|l lines Hl _ IH]; [done|]. rewrite unlines_cons, split_inclusive_line by done. cbn [map]. by rewrite IH.
Qed.

Lemma kept_sub f n lines removed l : l ∈ kept f n lines removed -> l ∈ lines.
Proof.
  revert removed. induction lines as [|x lines IH]; intros removed; cbn [kept]; [done|]. destruct (_ && removed); [intros H; right; by eapply IH|]. rewrite elem_of_app. intros [H|H]; [|right; by eapply IH].
  destruct (names_line _ _ _); [by apply not_elem_of_nil in H|]. apply list_elem_of_singleton in H as ->. left.
Qed.

(** The parse of the kept lines follows the parse of all of them. *)
Record sim (n : bytes) (removed : bool) (s s' : State) : Prop := {
  sim_ok : BTree.ok (entries s);
  sim_entries : entries s' = BTree.remove n (entries s);
  sim_sorted : sorted s' = sorted s;
  sim_removed : removed = true -> previous s = Some n /\ is_Some (BTree.get n (entries s)) /\ forall p, previous s' = Some p -> sorted s = true -> bytes_cmp p n = Lt;
  sim_same : removed = false -> previous s' = previous s /\ can_peel s' = can_peel s /\ previous s <> Some n
}.

(** A header does not name a reference. *)
Lemma header_unnamed f n r l header st st' : RefNames.new n = Ok r -> strip_prefix header_mark l = Some header -> traits (split_on 32 header) st = Ok st' -> ~ names f n l.
Proof.
  intros (_ & _ & Hn & _)%valid_name_bytes ->%strip_prefix_Some Ht (id & Hid & E). apply traits_bytes in Ht. rewrite Forall_forall in Ht.
  assert (exists x, header = x ++ 32 :: n) as [x ->].
  { exists (drop (length header_mark) id). apply (f_equal (drop (length header_mark))) in E. rewrite drop_app_length in E. rewrite E, drop_app_le; [done|]. assert (40 <= zlen id) by (rewrite Hid; by destruct f). unfold zlen in *. change (length header_mark) with 17%nat. lia. }
  assert (forall b, b ∈ n -> b <> 32 -> exists p, p ∈ split_on 32 (x ++ 32 :: n) /\ b ∈ p) as Hb by (intros b Hin Hne; apply split_on_bytes; [apply elem_of_app; right; by right|done]).
  destruct Hn as [Hin|Hin]; (destruct (Hb _ Hin ltac:(done)) as (p & Hp & Hbp)); apply Ht in Hp as [? ?]; done.
Qed.

(** A peel does not name a reference either. *)
Lemma peel_unnamed f n p id : parse_id f p = Ok id -> ~ names f n (94 :: p).
Proof.
  intros [El Hd]%parse_id_digits (x & Hx & E). assert (0 < digest_len f * 2) by (by destruct f). destruct x as [|y x]; [change (zlen (@nil Z)) with 0 in Hx; lia|]. injection E as <- ->. rewrite Forall_app, Forall_cons in Hd. naive_solver.
Qed.

Lemma peel_sim f n removed p s s' t : peel_line f p s = Ok t -> sim n removed s s' -> if removed then sim n true t s' else exists t', peel_line f p s' = Ok t' /\ sim n false t t'.
Proof.
  unfold peel_line. destruct (can_peel s) eqn:Ec; cbn [negb]; [|done]. destruct (parse_id f p) as [id|]; cbn [rbind]; [|done]. destruct (previous s) as [q|] eqn:Eq; cbn [mbind option_bind]; [|done]. destruct (BTree.get q (entries s)) as [e|] eqn:Ee; cbn [mbind option_bind]; [|done].
  intros <-%ok_inj [Hok He Hs Hr Hsame]. destruct removed.
  - destruct (Hr eq_refl) as (E & Hsome & Hp). rewrite Eq in E. injection E as ->. constructor; cbn [entries previous sorted can_peel]; [by apply BTree.ok_insert|by rewrite BTree.remove_insert|done| |done]. intros _. split_and!; [done| |done]. rewrite BTree.get_insert, bytes_eqb_refl by done. eauto.
  - destruct (Hsame eq_refl) as (Ep & Ec' & Hne). rewrite Ep, Ec', Ec, Eq. cbn [negb mbind option_bind]. assert (n <> q) as Hnq by (intros ->; done). rewrite He, BTree.get_remove by done.
    assert (bytes_eqb q n = false) as -> by (apply not_true_iff_false; rewrite bytes_eqb_eq; congruence). rewrite Ee. cbn [mbind option_bind]. eexists. split; [done|].
    constructor; cbn [entries previous sorted can_peel]; [by apply BTree.ok_insert|by rewrite BTree.remove_insert_ne|done|done|]. intros _. split_and!; [done..|congruence].
Qed.

Lemma split_record_Some w line id n : split_record w line = Some (id, n) <-> zlen id = w /\ line = id ++ 32 :: n /\ n <> [].
Proof.
  unfold split_record. rewrite bind_Some. setoid_rewrite bind_Some. split.
  - intros (x & Hx & y & Hy & H). destruct (bytes_eqb y []) eqn:Ey; [done|]. injection H as -> ->. apply slice_app in Hx as (pre & post & E & Hp & Hl). destruct pre; [|rewrite zlen_cons in Hp; pose proof (zlen_nonneg pre); lia]. cbn [app] in E. subst line.
    apply strip_prefix_Some in Hy. rewrite drop_app_length' in Hy by (unfold zlen in Hl; lia). subst post. split_and!; [lia|done|]. intros ->. done.
  - intros (<- & -> & Hn). exists id. split; [by apply (slice_between _ [] id (32 :: n))|]. exists n. split; [apply strip_prefix_Some; unfold zlen; by rewrite drop_app_length' by lia|].
    destruct (bytes_eqb n []) eqn:E; [by apply bytes_eqb_eq in E|done].
Qed.

(** What an accepted record line does. *)
Lemma record_line_Ok f line s t : record_line f false usize_max line s = Ok t <-> exists id n i,
  split_record (digest_len f * 2) line = Some (id, n) /\ parse_id f id = Ok i /\ name_ok n /\ (sorted s = true -> forall p, previous s = Some p -> bytes_cmp p n = Lt) /\ BTree.get n (entries s) = None /\
  t = {| entries := BTree.insert n {| target := i; peeled_hint := None |} (entries s); previous := Some n; can_peel := true; sorted := sorted s |}.
Proof.
  unfold record_line. destruct (split_record _ line) as [[id n]|]; [|split; [done|naive_solver]]. cbn [andb]. destruct (parse_id f id) as [i|] eqn:Ei; cbn [rbind]; [|split; [done|intros (? & ? & ? & [= <- <-] & ? & _); congruence]].
  unfold name_ok. destruct (RefNames.new n) as [r|] eqn:En; cbn [map_err rbind]; [|split; [done|intros (? & ? & ? & [= <- <-] & _ & [? _] & _); congruence]]. pose proof (valid_name_bytes n r En) as (Er & _). destruct r as [r]. cbn in Er. subst r. cbn [RefNames.as_bytes].
  destruct (bytes_eqb n (bstr "HEAD") || RefNames.per_worktree _) eqn:Eh. { split; [done|]. intros (? & ? & ? & [= <- <-] & _ & (_ & H1 & H2) & _). rewrite H1, H2 in Eh. done. } apply orb_false_iff in Eh as [Eh1 Eh2].
  assert (sorted s && match previous s with Some p => match bytes_cmp p n with Lt => false | _ => true end | None => false end = false <-> (sorted s = true -> forall p, previous s = Some p -> bytes_cmp p n = Lt)) as Hs.
  { destruct (sorted s); cbn [andb]; [|done]. destruct (previous s) as [p|]; [|by split]. destruct (bytes_cmp p n) eqn:Ec; (split; [first [done|by intros _ _ q [= <-]]|first [done|intros H; specialize (H eq_refl p eq_refl); congruence]]). }
  destruct (sorted s && _) eqn:Es. { split; [done|]. intros (? & ? & ? & [= <- <-] & _ & _ & H & _). apply Hs in H. done. }
  case_bool_decide as Hg; [split; [done|]; intros (? & ? & ? & [= <- <-] & _ & _ & _ & H & _); rewrite H in Hg; by destruct Hg|]. assert (BTree.get n (entries s) = None) as Hg' by (by apply eq_None_not_Some).
  split; [intros <-%ok_inj; exists id, n, i; split_and!; [done..|by apply Hs|done|done]|]. intros (? & ? & ? & [= <- <-] & Ei' & _ & _ & _ & ->). rewrite Ei in Ei'. by apply ok_inj in Ei' as <-.
Qed.

Lemma record_sim f n removed line s s' t : record_line f false usize_max line s = Ok t -> sim n removed s s' ->
  names f n line /\ sim n true t s' \/ ~ names f n line /\ exists t', record_line f false usize_max line s' = Ok t' /\ sim n false t t'.
Proof.
  intros (id & m & i & Hrec & Hid & Hm & Hs & Hg & ->)%record_line_Ok Hsim. pose proof Hrec as (Hw & -> & _)%split_record_Some. destruct Hsim as [Hok He Hso Hr Hsame]. destruct (decide (m = n)) as [-> |Hne].
  - left. split; [by exists id|]. constructor; cbn [entries previous sorted can_peel]; [by apply BTree.ok_insert|by rewrite BTree.remove_insert|done| |done]. intros _. split_and!; [done|rewrite BTree.get_insert, bytes_eqb_refl by done; eauto|].
    intros p Hp Hst. destruct removed; [destruct (Hr eq_refl) as (_ & H & _); rewrite Hg in H; by destruct H|]. destruct (Hsame eq_refl) as (Ep & _). apply Hs; [done|congruence].
  - right. split.
    { intros (id' & Hw' & E). apply Hne. assert (length id = length id') as Hl by (unfold zlen in *; lia). by apply app_inj_1 in E as [_ [= E]]. }
    eexists. split.
    + apply record_line_Ok. exists id, m, i. split_and!; [done..| | |done].
      * rewrite Hso. intros Hst p Hp. destruct removed; [|destruct (Hsame eq_refl) as (Ep & _); apply Hs; [done|congruence]]. destruct (Hr eq_refl) as (Epr & _ & Hlt). eapply bytes_cmp_lt_trans; [by apply Hlt|]. by apply Hs.
      * rewrite He, BTree.get_remove by done. by destruct (bytes_eqb m n).
    + constructor; cbn [entries previous sorted can_peel]; [by apply BTree.ok_insert|rewrite He, BTree.remove_insert_ne by done; done|done|done|]. intros _. split_and!; [done..|congruence].
Qed.

Lemma names_line_false f n line : ~ names f n line -> names_line (digest_len f * 2) n (line ++ [10]) = false.
Proof. intros H. apply not_true_iff_false. by rewrite names_line_iff. Qed.

Lemma starts_with_char c l : starts_with [c] l = match strip_prefix [c] l with Some _ => true | None => false end.
Proof. done. Qed.

Lemma run_sim f n r lines i i' removed s s' t : RefNames.new n = Ok r -> 0 <= i -> (i = 0 -> i' = 0 /\ removed = false) -> run f i lines s = Ok t -> sim n removed s s' ->
  exists t', run f i' (kept f n lines removed) s' = Ok t' /\ entries t' = BTree.remove n (entries t).
Proof.
  intros Hn. revert i i' removed s s'. induction lines as [|l lines IH]; intros i i' removed s s' Hi H0 Hrun Hsim; cbn [run kept] in *; [apply ok_inj in Hrun as <-; exists s'; split; [done|apply Hsim]|].
  apply rbind_Ok in Hrun as (s1 & Hline & Hrun). unfold parse_line in Hline. destruct (strip_prefix header_mark l) as [header|] eqn:Eh.
  - destruct (Z.eqb_spec i 0) as [-> |]; cbn [negb] in Hline; [|done]. destruct (H0 eq_refl) as [-> ->]. apply rbind_Ok in Hline as (so & Ht & <-%ok_inj). rewrite andb_false_r.
    rewrite names_line_false by (eapply header_unnamed; done). cbn [app run]. unfold parse_line. rewrite Eh. change (negb (0 =? 0)) with false. cbv iota. rewrite (sim_sorted _ _ _ _ Hsim), Ht. cbn [rbind].
    eapply (IH (0 + 1)); [lia|lia|exact Hrun|]. destruct Hsim as [H1 H2 H3 H4 H5]. constructor; cbn [entries previous sorted can_peel]; [done..|naive_solver].
  - rewrite starts_with_char. destruct (strip_prefix [94] l) as [p|] eqn:Ep; cbn [andb].
    + pose proof (peel_sim f n removed p s s' s1 Hline Hsim) as Hp. assert (l = 94 :: p) as El by (by apply strip_prefix_Some in Ep). destruct removed.
      * eapply (IH (i + 1)); [lia|lia|exact Hrun|done].
      * destruct Hp as (t' & Hp & Hs'). assert (exists id, parse_id f p = Ok id) as [id Hid]. { unfold peel_line in Hline. destruct (can_peel s); [|done]. cbn [negb] in Hline. destruct (parse_id f p) as [id|]; [by exists id|done]. }
        rewrite names_line_false by (rewrite El; by eapply peel_unnamed). cbn [app run]. unfold parse_line. rewrite Eh, Ep, Hp. cbn [rbind]. eapply (IH (i + 1)); [lia|lia|exact Hrun|done].
    + destruct (record_sim f n removed l s s' s1 Hline Hsim) as [[Hnm Hs']|[Hnm (t' & Hp & Hs')]].
      * rewrite (proj2 (names_line_iff f n l) Hnm). cbn [app]. eapply (IH (i + 1)); [lia|lia|exact Hrun|done].
      * rewrite names_line_false by done. cbn [app run]. unfold parse_line. rewrite Eh, Ep, Hp. cbn [rbind]. eapply (IH (i + 1)); [lia|lia|exact Hrun|done].
Qed.

(** C26: [without_ref] removes one reference and nothing else: from the bytes of a file that
    [parse] accepts it makes a file that [parse] accepts, with the same records but that
    of the name, whether the file has a header, a sorted order and peels or not. *)
Theorem without_ref_exact f bs m name : parse f bs = Ok m -> RefNames.new (RefNames.as_bytes name) = Ok name ->
  parse f (without_ref f bs name) = Ok (BTree.remove (RefNames.as_bytes name) m).
Proof.
  intros Hp Hn. destruct (parse_lines_of f bs m Hp) as (lines & -> & Hl). rewrite without_ref_lines by done. rewrite parse_unlines in Hp by done. rewrite parse_unlines by (rewrite Forall_forall in Hl |- *; intros l H%kept_sub; by apply Hl).
  apply rbind_Ok in Hp as (t & Hrun & <-%ok_inj). destruct (run_sim f (RefNames.as_bytes name) name lines 0 0 false initial initial t Hn) as (t' & -> & E); [lia|done|done| |by rewrite <- E].
  constructor; [constructor|done|done|done|done].
Qed.

(** ** The encoder *)

Lemma insert_last n v m : Forall (fun b => bytes_cmp b.1 n = Lt) m -> BTree.insert n v m = m ++ [(n, v)] /\ @BTree.get PackedRecord n m = None.
Proof.
  induction 1 as [|[k x] m Hk Hm [IH1 IH2]]; [done|]. cbn [BTree.insert BTree.get app fst] in *. assert (bytes_cmp n k = Gt) as E by (by apply bytes_cmp_gt_lt). rewrite E, IH1, IH2. split; [done|].
  assert (bytes_eqb n k = false) as ->; [|done]. apply not_true_iff_false. rewrite bytes_eqb_eq. intros ->. by rewrite bytes_cmp_refl in Hk.
Qed.

Lemma insert_again n v v' m : Forall (fun b => bytes_cmp b.1 n = Lt) m -> BTree.insert n v' (m ++ [(n, v)]) = m ++ [(n, v')] /\ @BTree.get PackedRecord n (m ++ [(n, v)]) = Some v.
Proof.
  induction 1 as [|[k x] m Hk Hm [IH1 IH2]]; cbn [app BTree.insert BTree.get fst] in *. { rewrite bytes_cmp_refl, bytes_eqb_refl. done. }
  assert (bytes_cmp n k = Gt) as E by (by apply bytes_cmp_gt_lt). rewrite E, IH1, IH2. split; [done|]. assert (bytes_eqb n k = false) as ->; [|done]. apply not_true_iff_false. rewrite bytes_eqb_eq. intros ->. by rewrite bytes_cmp_refl in Hk.
Qed.

(** The lines of a record. *)
Definition record_lines (r : bytes * PackedRecord) : list bytes := (to_string (target r.2) ++ 32 :: r.1) :: match peeled_hint r.2 with Some p => [94 :: to_string p] | None => [] end.
Definition header_line : bytes := bstr "# pack-refs with: peeled fully-peeled sorted ".

Lemma encode_lines m : encode m = unlines (header_line :: concat (map record_lines m)).
Proof.
  unfold encode. rewrite unlines_cons. change HEADER with (header_line ++ [10]). rewrite <- app_assoc. cbn [app]. do 2 f_equal. induction m as [|r m IH]; [done|]. cbn [map concat]. rewrite unlines_app, IH. f_equal. unfold encode_record, record_lines.
  rewrite unlines_cons. cbn [app]. rewrite <- app_assoc. cbn [app]. do 3 f_equal. destruct (peeled_hint r.2); [|done]. rewrite unlines_cons. done.
Qed.

Lemma target_to_string f id : id_fits f id -> parse_id f (to_string id) = Ok id.
Proof.
  intros Hf. apply target_Ok. split; [done|]. destruct Hf as [[Hok _] _ _]. unfold to_string. pose proof (to_hex_range _ Hok) as Hr. induction Hr as [|c l Hc _ IH]; [done|]. cbn [map]. f_equal; [|exact IH].
  unfold to_lower, is_upper. destruct (_ && _) eqn:E; [apply andb_true_iff in E; lia|done].
Qed.

(** A line that starts with an identity is a record. *)
Lemma parse_line_record f i id rest l s : parse_id f id = Ok l -> parse_line f false usize_max i (id ++ rest) s = record_line f false usize_max (id ++ rest) s.
Proof.
  intros [El Hd]%parse_id_digits. assert (0 < digest_len f * 2) by (by destruct f). destruct id as [|c id]; [change (zlen (@nil Z)) with 0 in El; lia|]. apply Forall_cons in Hd as [(_ & _ & H1 & H2) _]. unfold parse_line. cbn [app].
  change header_mark with (35 :: drop 1 header_mark). cbn [strip_prefix]. rewrite (proj2 (Z.eqb_neq 35 c)) by done. rewrite (proj2 (Z.eqb_neq 94 c)) by done. done.
Qed.

Lemma run_app f i a b s : run f i (a ++ b) s = (let? t := run f i a s in run f (i + zlen a) b t).
Proof.
  revert i s. induction a as [|l a IH]; intros i s; cbn [app run rbind]; [by rewrite Z.add_0_r|]. destruct (parse_line _ _ _ _ _ _) as [t|]; cbn [rbind]; [|done]. rewrite IH, zlen_cons. by replace (i + 1 + zlen a) with (i + (zlen a + 1)) by lia.
Qed.

Lemma run_record f i n v s : record_ok f (n, v) -> Forall (fun b => bytes_cmp b.1 n = Lt) (entries s) -> (forall p, previous s = Some p -> bytes_cmp p n = Lt) ->
  exists t, run f i (record_lines (n, v)) s = Ok t /\ entries t = entries s ++ [(n, v)] /\ previous t = Some n.
Proof.
  intros (Hn & Ht & Hp) Hlt Hprev. cbn [fst snd] in *. destruct v as [tg ph]. cbn [target peeled_hint] in *. unfold record_lines. cbn [fst snd target peeled_hint run]. pose proof (target_to_string f tg Ht) as Htg.
  destruct (insert_last n {| target := tg; peeled_hint := None |} (entries s) Hlt) as [Hins Hget].
  set (t1 := {| entries := BTree.insert n {| target := tg; peeled_hint := None |} (entries s); previous := Some n; can_peel := true; sorted := sorted s |}).
  assert (parse_line f false usize_max i (to_string tg ++ 32 :: n) s = Ok t1) as ->.
  { rewrite (parse_line_record f i (to_string tg) (32 :: n) tg s Htg). apply record_line_Ok. exists (to_string tg), n, tg. split_and!; [|done|done|intros _; exact Hprev|done|done].
    apply split_record_Some. split_and!; [by apply parse_id_digits in Htg as [? _]|done|]. destruct Hn as [Hn _]. by apply valid_name_bytes in Hn as (_ & ? & _). }
  cbn [rbind]. destruct ph as [pid|]; cbn [run].
  - pose proof (target_to_string f pid (Hp pid eq_refl)) as Hpid. unfold parse_line. assert (strip_prefix header_mark (94 :: to_string pid) = None) as -> by done. assert (strip_prefix [94] (94 :: to_string pid) = Some (to_string pid)) as -> by done.
    unfold peel_line. cbn [t1 can_peel negb previous mbind option_bind]. rewrite Hpid. cbn [rbind t1 entries]. rewrite Hins. destruct (insert_again n {| target := tg; peeled_hint := None |} {| target := tg; peeled_hint := Some pid |} (entries s) Hlt) as [Hi2 Hg2].
    rewrite Hg2. cbn [mbind option_bind rbind target]. eexists. split; [done|]. cbn [entries previous]. by rewrite Hi2.
  - exists t1. split_and!; [done| |done]. unfold t1. cbn [entries]. by rewrite Hins.
Qed.

Lemma run_records f i m s : Forall (record_ok f) m -> BTree.ok (entries s ++ m) -> (forall p, previous s = Some p -> exists v, (p, v) ∈ entries s) ->
  exists t, run f i (concat (map record_lines m)) s = Ok t /\ entries t = entries s ++ m.
Proof.
  intros Hm. revert i s. induction Hm as [|[n v] m Hr Hm IH]; intros i s Hok Hprev; cbn [map concat]; [exists s; split; [done|by rewrite app_nil_r]|]. unfold BTree.ok in Hok. pose proof Hok as (Hx & _ & _)%StronglySorted_app.
  assert (Forall (fun b => bytes_cmp b.1 n = Lt) (entries s)) as Hlt by (apply Forall_forall; intros b Hb; apply (Hx b (n, v)); [done|left]).
  destruct (run_record f i n v s Hr Hlt) as (t & Ht & Et & Ep). { intros p (x & Hin)%Hprev. rewrite Forall_forall in Hlt. by apply Hlt in Hin. }
  rewrite run_app, Ht. cbn [rbind]. destruct (IH (i + zlen (record_lines (n, v))) t) as (t' & Ht' & Et').
  - rewrite Et, <- app_assoc. exact Hok.
  - intros p. rewrite Ep. intros [= <-]. exists v. rewrite Et. apply elem_of_app. right. left.
  - exists t'. split; [done|]. by rewrite Et', Et, <- app_assoc.
Qed.

Lemma encode_parse f m : packed_ok f m -> parse f (encode m) = Ok m.
Proof.
  intros [Hok Hm]. rewrite encode_lines, parse_unlines.
  - cbn [run]. assert (parse_line f false usize_max 0 header_line initial = Ok {| entries := []; previous := None; can_peel := false; sorted := true |}) as -> by (vm_compute; reflexivity). cbn [rbind].
    set (s := {| entries := []; previous := None; can_peel := false; sorted := true |}). destruct (run_records f (0 + 1) m s Hm Hok) as (t & -> & Et); [done|]. cbn [rbind]. by rewrite Et.
  - constructor; [by apply contains_false|]. apply Forall_concat, Forall_map. eapply Forall_impl; [exact Hm|]. intros [n v] ((Hn & _) & Ht & Hp). unfold compose, record_lines. cbn [fst snd] in *. apply valid_name_bytes in Hn as (_ & _ & _ & Hn).
    assert (forall id, id_fits f id -> 10 ∉ to_string id) as Hid. { intros id Hf%target_to_string Hin. apply parse_id_digits in Hf as [_ Hf]. rewrite Forall_forall in Hf. apply Hf in Hin. tauto. }
    constructor; [rewrite elem_of_app, elem_of_cons; intros [H|[H|H]]; [by apply Hid in H|done|done]|]. destruct (peeled_hint v) as [p|]; [|constructor]. constructor; [|constructor]. rewrite elem_of_cons. intros [H|H]; [done|]. apply Hid in H; [done|by apply Hp].
Qed.

(** ** What is accepted *)

Lemma insert_records f n v m : packed_ok f m -> record_ok f (n, v) -> packed_ok f (BTree.insert n v m).
Proof.
  intros [Hok Hm] Hr. split; [by apply BTree.ok_insert|]. apply Forall_forall. intros b [-> |Hb]%BTree.insert_keys; [done|]. rewrite Forall_forall in Hm. by apply Hm.
Qed.

Lemma parse_line_ok f i l s t : parse_line f false usize_max i l s = Ok t -> packed_ok f (entries s) -> packed_ok f (entries t).
Proof.
  unfold parse_line. intros H Hok. destruct (strip_prefix header_mark l) as [header|].
  { destruct (negb _); [done|]. by apply rbind_Ok in H as (so & _ & <-%ok_inj). }
  destruct (strip_prefix [94] l) as [p|].
  - unfold peel_line in H. destruct (negb _); [done|]. apply rbind_Ok in H as (id & Hid & H). destruct (previous s) as [q|]; cbn [mbind option_bind] in H; [|done]. destruct (BTree.get q (entries s)) as [e|] eqn:Ee; cbn [mbind option_bind] in H; [|done].
    apply ok_inj in H as <-. cbn [entries]. apply insert_records; [done|]. destruct Hok as [Hok Hm]. apply BTree.get_elem in Ee; [|done]. rewrite Forall_forall in Hm. destruct (Hm _ Ee) as (H1 & H2 & _). split_and!; [done..|]. cbn [snd peeled_hint].
    intros x [= <-]. by apply target_Ok in Hid as [? _].
  - apply record_line_Ok in H as (id & n & x & _ & Hid & Hn & _ & _ & ->). cbn [entries]. apply insert_records; [done|]. split_and!; [done|by apply target_Ok in Hid as [? _]|done].
Qed.

Lemma run_ok f i lines s t : run f i lines s = Ok t -> packed_ok f (entries s) -> packed_ok f (entries t).
Proof. revert i s. induction lines as [|l lines IH]; intros i s; cbn [run]; [by intros <-%ok_inj|]. intros (s1 & Hl & Hr)%rbind_Ok Hok. eapply IH; [exact Hr|]. by eapply parse_line_ok. Qed.

(** C30: what [parse] accepts is a map of shared reference names, in order, to non-null
    identities of the format, and the encoder writes every such map as a file that [parse]
    reads back to the same map. *)
Theorem packed_roundtrip f bs m : parse f bs = Ok m -> packed_ok f m /\ parse f (encode m) = Ok m.
Proof.
  intros Hp. assert (packed_ok f m) as Hok; [|by split; [|apply encode_parse]]. destruct (parse_lines_of f bs m Hp) as (lines & -> & Hl). rewrite parse_unlines in Hp by done. apply rbind_Ok in Hp as (t & Hrun & <-%ok_inj).
  eapply run_ok; [exact Hrun|]. split; constructor.
Qed.

(** A file with a tag, its peel and an unsorted branch. *)
Definition sample_id : bytes := replicate 40 49.
Definition sample_packed : bytes := unlines [bstr "# pack-refs with: peeled "; sample_id ++ bstr " refs/tags/z"; 94 :: sample_id; sample_id ++ bstr " refs/heads/a"].
Definition sample_target : ObjectId := Sha1 (replicate 20 17).
Definition sample_map : Packed := [(bstr "refs/heads/a", {| target := sample_target; peeled_hint := None |}); (bstr "refs/tags/z", {| target := sample_target; peeled_hint := Some sample_target |})].

Lemma packed_roundtrip_witness : parse FSha1 sample_packed = Ok sample_map /\ parse FSha1 (encode sample_map) = Ok sample_map.
Proof.
  assert (parse FSha1 sample_packed = Ok sample_map) as E by (vm_compute; reflexivity). split; [exact E|]. apply (packed_roundtrip FSha1 sample_packed sample_map E).
Defined.

Lemma without_ref_exact_witness : parse FSha1 (without_ref FSha1 sample_packed {| RefNames.as_bytes := bstr "refs/tags/z" |}) = Ok [(bstr "refs/heads/a", {| target := sample_target; peeled_hint := None |})].
Proof. apply (without_ref_exact FSha1 sample_packed sample_map {| RefNames.as_bytes := bstr "refs/tags/z" |}); vm_compute; reflexivity. Defined.
End PackedCorrect.
