(* ===== verification/MultiPack.v ===== *)
(** * Multi-pack indexes ([src/src/multi_pack_index.rs] and its [write.rs])

    Parsing and validation of an index over several packs, lookups in it, the choice of
    one copy of each object and the encoder. *)

From stdpp Require Import base list numbers strings sets.
From Stdlib Require Import ZArith Lia.
From S2P Require Import Prelude Objects BTree CommitGraph.

Module MultiPack.
Import Objects.

Record Limits := { max_bytes : Z; max_packs : Z; max_objects : Z }.
Definition default_limits : Limits := {| max_bytes := 2 ^ 31; max_packs := 4096; max_objects := 40000000 |}.

(** The errors of the parser; [Panic] stands for an index out of range. *)
Inductive Error := Malformed (reason : string) | Unsupported (what : string) | Limit (what : string) | Checksum | Panic.
Definition bad (reason : string) : Error := Malformed reason.

Record Index := { format : ObjectFormat; names : list bytes; ids : bytes; offsets : bytes; large : option bytes; bases : Z; order : option bytes }.
Record Location := { pack : Z; offset : Z }.

(** ** Integers and names *)

Definition read_be (n : Z) (bs : bytes) (start : Z) : result Error Z :=
  let? stop := ok_or (checked_add start n) (bad "integer offset") in
  let? row := ok_or (slice start stop bs) (bad "integer range") in
  Ok (be_decode row).
Definition word (bs : bytes) (start : Z) : result Error Z := read_be 4 bs start.
Definition long (bs : bytes) (start : Z) : result Error Z := read_be 8 bs start.

(** [str::from_utf8]: the well-formed sequences of one to four bytes. *)
Definition within (a b x : Z) : bool := (a <=? x) && (x <=? b).
Definition continuation (x : Z) : bool := within 128 191 x.
Fixpoint utf8 (bs : bytes) : bool :=
  match bs with
  | [] => true
  | a :: rest =>
      if a <? 128 then utf8 rest
      else
        match rest with
        | b :: rest =>
            if within 194 223 a then continuation b && utf8 rest
            else
              match rest with
              | c :: rest =>
                  if within 224 239 a then (if a =? 224 then within 160 191 b else if a =? 237 then within 128 159 b else continuation b) && continuation c && utf8 rest
                  else
                    match rest with
                    | d :: rest => within 240 244 a && (if a =? 240 then within 144 191 b else if a =? 244 then within 128 143 b else continuation b) && continuation c && continuation d && utf8 rest
                    | [] => false
                    end
              | [] => false
              end
        | [] => false
        end
  end.

Definition name_ok (name : bytes) : bool :=
  (starts_with (bstr "pack-") name || starts_with (bstr "loose-") name) && ends_with (bstr ".idx") name && negb (existsb (fun b => (b =? 47) || (b =? 92)) name).

(** The loop over the names: the names and the bytes after them. *)
Fixpoint take_names (count : nat) (version : Z) (names : list bytes) (rest : bytes) : result Error (list bytes * bytes) :=
  match count with
  | O => Ok (names, rest)
  | S count =>
      let? stop := ok_or (position (fun b => b =? 0) rest) (bad "pack name terminator") in
      let name := take stop rest in
      if negb (utf8 name) then Err (bad "pack name encoding")
      else if negb (name_ok name) then Err (bad "pack name")
      else if (version =? 1) && match last names with Some previous => match bytes_cmp previous name with Lt => false | _ => true end | None => false end then Err (bad "pack name order")
      else take_names count version (names ++ [name]) (drop (stop + 1) rest)
  end.

(** [sort_unstable] and [dedup]. *)
Fixpoint dedup (l : list bytes) : list bytes :=
  match l with
  | a :: (b :: _) as rest => if bytes_eqb a b then dedup rest else a :: dedup rest
  | _ => l
  end.

(** [parse_names]. *)
Definition parse_names (bs : bytes) (count version : Z) : result Error (list bytes) :=
  let? (names, rest) := take_names (Z.to_nat count) version [] bs in
  if (3 <? zlen rest) || existsb (fun b => negb (b =? 0)) rest then Err (bad "pack name padding")
  else if negb (zlen (dedup (sort_by bytes_cmp names)) =? count) then Err (bad "duplicate pack name")
  else Ok names.

(** ** The chunk table *)

(** The rows [i..=count] of the table. *)
Fixpoint chunk_rows (n : nat) (bs : bytes) (count stop i previous : Z) (chunks : list (bytes * bytes)) : result Error (list (bytes * bytes)) :=
  match n with
  | O => Ok chunks
  | S n =>
      let row := 12 + i * 12 in
      let? tag := ok_or (slice row (row + 4) bs) Panic in
      let? start := long bs (row + 4) in
      if (start <? previous) || (stop <? start) then Err (bad "chunk order")
      else if i =? count then
        if negb (bytes_eqb tag [0; 0; 0; 0]) || negb (start =? stop) then Err (bad "chunk terminator")
        else chunk_rows n bs count stop (i + 1) start chunks
      else
        let? next := long bs (row + 16) in
        let? value := ok_or (v ← slice start next bs; if next <=? stop then Some v else None) (bad "chunk range") in
        if bytes_eqb tag [0; 0; 0; 0] || bool_decide (is_Some (BTree.get tag chunks)) then Err (bad "chunk tag")
        else chunk_rows n bs count stop (i + 1) start (BTree.insert tag value chunks)
  end.

(** ** Objects *)

Definition width (x : Index) : Z := digest_len (format x).
Definition len (x : Index) : Z := zlen (ids x) / width x.

(** [MultiPackIndex::location]. *)
Definition location (x : Index) (position : Z) : result Error Location :=
  let row := position * 8 in
  let? p := word (offsets x) row in
  let? o := word (offsets x) (row + 4) in
  let? o :=
    match large x with
    | Some l => if negb (Z.land o 0x80000000 =? 0) then let? slot := ok_or (checked_mul (Z.land o 0x7fffffff) 8) (bad "large offset slot") in long l slot else Ok o
    | None => Ok o
    end in
  if o <? 12 then Err (bad "object offset") else Ok {| pack := p; offset := o |}.

(** The loop over the identities: the number of each first byte. *)
Fixpoint check_ids (x : Index) (position : Z) (previous : option bytes) (rows : list bytes) (counts : list Z) : result Error (list Z) :=
  match rows with
  | [] => Ok counts
  | id :: rows =>
      if match previous with Some p => match bytes_cmp p id with Lt => false | _ => true end | None => false end then Err (bad "object order")
      else
        let? first := ok_or (head id) Panic in
        let counts := alter (Z.add 1) (Z.to_nat first) counts in
        let? l := location x position in
        if (bases x =? 0) && (zlen (names x) <=? pack l) then Err (bad "pack ordinal")
        else check_ids x (position + 1) (Some id) rows counts
  end.

Fixpoint check_fanout (fanout : bytes) (i total : Z) (counts : list Z) : result Error unit :=
  match counts with
  | [] => Ok tt
  | c :: counts =>
      let? w := word fanout (i * 4) in
      if negb (w =? total + c) then Err (bad "fanout contents") else check_fanout fanout (i + 1) (total + c) counts
  end.

(** [MultiPackIndex::validate_objects]. *)
Definition validate_objects (x : Index) (fanout : bytes) : result Error unit :=
  let? counts := check_ids x 0 None (CommitGraph.chunks_exact (width x) (ids x)) (replicate 256 0) in
  check_fanout fanout 0 0 counts.

(** [validate_order]. *)
Fixpoint check_order (rows : list bytes) (seen : list bool) : result Error unit :=
  match rows with
  | [] => Ok tt
  | row :: rows =>
      let? p := word row 0 in
      match seen !! Z.to_nat p with
      | None => Err (bad "reverse index position")
      | Some true => Err (bad "duplicate reverse index position")
      | Some false => check_order rows (<[Z.to_nat p := true]> seen)
      end
  end.
Definition validate_order (bs : bytes) (objects : Z) : result Error unit :=
  if negb (bool_decide (checked_mul objects 4 = Some (zlen bs))) then Err (bad "reverse index size")
  else check_order (CommitGraph.chunks_exact 4 bs) (replicate (Z.to_nat objects) false).

(** [validate_bitmap_packs]. *)
Fixpoint check_bitmap_rows (rows : list bytes) (objects : Z) : result Error unit :=
  match rows with
  | [] => Ok tt
  | row :: rows =>
      let? start := word row 0 in
      let? count := word row 4 in
      if match checked_add start count with Some stop => objects <? stop | None => true end then Err (bad "bitmap pack range") else check_bitmap_rows rows objects
  end.
Definition validate_bitmap_packs (bs : bytes) (packs objects : Z) : result Error unit :=
  if negb (bool_decide (checked_mul packs 8 = Some (zlen bs))) then Err (bad "bitmap pack table size")
  else check_bitmap_rows (CommitGraph.chunks_exact 8 bs) objects.

(** ** Parsing *)

Definition PNAM : bytes := bstr "PNAM".
Definition OIDF : bytes := bstr "OIDF".
Definition OIDL : bytes := bstr "OIDL".
Definition OOFF : bytes := bstr "OOFF".
Definition LOFF : bytes := bstr "LOFF".
Definition RIDX : bytes := bstr "RIDX".
Definition BTMP : bytes := bstr "BTMP".

Definition hash_version (f : ObjectFormat) : Z := match f with FSha1 => 1 | FSha256 => 2 end.
Definition required (chunks : list (bytes * bytes)) (tag : bytes) : result Error bytes := ok_or (BTree.get tag chunks) (bad "missing chunk").

(** The tables of the chunks of a file of some packs. *)
Definition parse_chunks (f : ObjectFormat) (limits : Limits) (version base_count packs : Z) (chunks : list (bytes * bytes)) : result Error Index :=
  let? raw_names := required chunks PNAM in
  let? names := parse_names raw_names packs version in
  let? fanout := required chunks OIDF in
  if negb (zlen fanout =? 1024) then Err (bad "fanout size")
  else
    let? objects := word fanout 1020 in
    if max_objects limits <? objects then Err (Limit "objects")
    else
      let? ids := required chunks OIDL in
      let? offsets := required chunks OOFF in
      if negb (bool_decide (checked_mul objects (digest_len f) = Some (zlen ids))) || negb (bool_decide (checked_mul objects 8 = Some (zlen offsets))) then Err (bad "object table size")
      else
        let large := BTree.get LOFF chunks in
        if match large with Some l => negb (zlen l mod 8 =? 0) | None => false end then Err (bad "large offset size")
        else
          let index := {| format := f; names := names; ids := ids; offsets := offsets; large := large; bases := base_count; order := BTree.get RIDX chunks |} in
          let? _ := validate_objects index fanout in
          let? _ := match BTree.get RIDX chunks with Some o => validate_order o objects | None => Ok tt end in
          let? _ := match BTree.get BTMP chunks with Some b => validate_bitmap_packs b packs objects | None => Ok tt end in
          Ok index.

Section Hashing.
(** The digests are functions of libraries. *)
Context (sha1 sha256 : bytes -> bytes).

(** [MultiPackIndex::parse_with]. *)
Definition parse_with (bs : bytes) (f : ObjectFormat) (limits : Limits) : result Error Index :=
  if max_bytes limits <? zlen bs then Err (Limit "bytes")
  else if (zlen bs <? 12 + digest_len f) || negb (bool_decide (slice 0 4 bs = Some (bstr "MIDX"))) then Err (bad "header")
  else
    let? version := ok_or (zget 4 bs) Panic in
    if negb ((version =? 1) || (version =? 2)) then Err (Unsupported "version")
    else
      let? hash := ok_or (zget 5 bs) Panic in
      if negb (hash =? hash_version f) then Err (Unsupported "object format")
      else
        let stop := zlen bs - digest_len f in
        if negb (bytes_eqb (id_bytes (checksum sha1 sha256 f (take (Z.to_nat stop) bs))) (drop (Z.to_nat stop) bs)) then Err Checksum
        else
          let? count := ok_or (zget 6 bs) Panic in
          let table_end := 12 + (count + 1) * 12 in
          if stop <? table_end then Err (bad "chunk table")
          else
            let? chunks := chunk_rows (Z.to_nat (count + 1)) bs count stop 0 table_end [] in
            let? packs := word bs 8 in
            if max_packs limits <? packs then Err (Limit "packs")
            else
              let? base_count := ok_or (zget 7 bs) Panic in
              parse_chunks f limits version base_count packs chunks.
Definition parse (bs : bytes) (f : ObjectFormat) : result Error Index := parse_with bs f default_limits.
End Hashing.

(** ** Lookup *)

(** [MultiPackIndex::find]; [None] is a panic. *)
Definition find (x : Index) (id : ObjectId) : option (option Location) :=
  if negb (bool_decide (id_format id = format x)) then Some None
  else
    found ← CommitGraph.find_loop (Z.to_nat (len x)) (ids x) (width x) (id_bytes id) 0 (len x);
    Some (i ← found; match location x i with Ok l => Some l | Err _ => None end).

(** ** Writing *)

(** The errors of the encoder; [WriteSource] stands for a damaged or changed source,
    [WriteIo] for missing metadata and [WritePanic] for an index out of range. *)
Inductive WriteError := NoObjects | WriteLimit (what : string) | PreferredPack (id : ObjectId) | PackName (file : bytes) | WriteSource | WriteIo | WritePanic.
Record WriteOptions := { preferred_pack : option ObjectId }.
Record WriteLimits := { write_max_packs : Z; write_max_objects : Z; write_max_bytes : Z }.
(** An object of the index: its identity, the ordinal of its pack and its offset. *)
Definition Entry : Type := ObjectId * Z * Z.
Definition entry_id (e : Entry) : ObjectId := e.1.1.
Definition entry_pack (e : Entry) : Z := e.1.2.
Definition entry_offset (e : Entry) : Z := e.2.

(** The rank of a pack: preferred, modified, and its position from the end. *)
Definition Rank : Type := bool * Z * Z.
Definition bool_cmp (a b : bool) : comparison := match a, b with false, true => Lt | true, false => Gt | _, _ => Eq end.
Definition rank_cmp (a b : Rank) : comparison :=
  match bool_cmp a.1.1 b.1.1 with Eq => match Z.compare a.1.2 b.1.2 with Eq => Z.compare a.2 b.2 | c => c end | c => c end.

Definition entry_cmp (ranks : list Rank) (a b : Entry) : comparison :=
  match id_cmp (entry_id a) (entry_id b) with
  | Eq => rank_cmp (default (false, 0, 0) (ranks !! Z.to_nat (entry_pack b))) (default (false, 0, 0) (ranks !! Z.to_nat (entry_pack a)))
  | c => c
  end.
(** [dedup_by_key]: the first of each run of equal identities. *)
Fixpoint dedup_after (previous : ObjectId) (l : list Entry) : list Entry :=
  match l with
  | [] => []
  | e :: l => if bool_decide (entry_id e = previous) then dedup_after previous l else e :: dedup_after (entry_id e) l
  end.
Definition dedup_entries (l : list Entry) : list Entry := match l with [] => [] | e :: l => e :: dedup_after (entry_id e) l end.

(** The copies of [encode_multi_pack_index_selected] that are kept. *)
Definition select (ranks : list Rank) (entries : list Entry) : list Entry := dedup_entries (sort_by (entry_cmp ranks) entries).

(** The padding of the name table. *)
Definition pad_names (names : bytes) : bytes := names ++ replicate (Z.to_nat ((- zlen names) mod 4)) 0.

(** The numbers of each first byte, and their running totals. *)
Fixpoint count_first (entries : list Entry) (counts : list Z) : result WriteError (list Z) :=
  match entries with
  | [] => Ok counts
  | e :: entries =>
      let? first := ok_or (head (id_bytes (entry_id e))) WritePanic in
      count_first entries (alter (Z.add 1) (Z.to_nat first) counts)
  end.
Fixpoint totals (total : Z) (counts : list Z) : bytes :=
  match counts with [] => [] | c :: counts => be_encode 4 (total + c) ++ totals (total + c) counts end.

(** The rows of the offsets and the table of large ones. *)
Fixpoint offset_rows (has_large : bool) (entries : list Entry) (large : bytes) : bytes * bytes :=
  match entries with
  | [] => ([], large)
  | e :: entries =>
      let wide := has_large && (0x7fffffff <? entry_offset e) in
      let field := if wide then Z.lor 0x80000000 (wrap32 (zlen large / 8)) else entry_offset e in
      let '(rows, large) := offset_rows has_large entries (if wide then large ++ be_encode 8 (entry_offset e) else large) in
      (be_encode 4 (entry_pack e) ++ be_encode 4 field ++ rows, large)
  end.

(** The rows of the chunk table: their bytes and the end of the last chunk. *)
Fixpoint chunk_table (rows : list (bytes * Z)) (offset : Z) : bytes * Z :=
  match rows with
  | [] => ([], offset)
  | (tag, size) :: rows => let '(out, stop) := chunk_table rows (offset + size) in (tag ++ be_encode 8 offset ++ out, stop)
  end.

Definition sum_sizes (start : Z) (sizes : list Z) : option Z := foldl (fun sum size => s ← sum; checked_add s size) (Some start) sizes.

Section Encode.
Context (sha1 sha256 : bytes -> bytes).

(** [encode]. *)
Definition encode (f : ObjectFormat) (packs : Z) (names : bytes) (entries : list Entry) (max_bytes : Z) : result WriteError bytes :=
  let has_large := existsb (fun e => u32_max <? entry_offset e) entries in
  let large_count := if has_large then zlen (List.filter (fun e => 0x7fffffff <? entry_offset e) entries) else 0 in
  let count := if has_large then 5 else 4 in
  let table_end := 12 + (count + 1) * 12 in
  let? ids_bytes := ok_or (checked_mul (zlen entries) (digest_len f)) (WriteLimit "bytes") in
  let? offset_bytes := ok_or (checked_mul (zlen entries) 8) (WriteLimit "bytes") in
  let? large_bytes := ok_or (n ← checked_mul large_count 8; if large_count <=? 0x80000000 then Some n else None) (WriteLimit "large offsets") in
  let sizes := [zlen names; 1024; ids_bytes; offset_bytes; large_bytes] in
  let? total := ok_or (sum_sizes (table_end + digest_len f) sizes) (WriteLimit "bytes") in
  if max_bytes <? total then Err (WriteLimit "bytes")
  else
    let '(table, stop) := chunk_table (take (Z.to_nat count) (zip [PNAM; OIDF; OIDL; OOFF; LOFF] sizes)) table_end in
    let? counts := count_first entries (replicate 256 0) in
    let '(rows, large) := offset_rows has_large entries [] in
    let body := bstr "MIDX" ++ [1; hash_version f; wrap8 count; 0] ++ be_encode 4 packs ++ table ++ [0; 0; 0; 0] ++ be_encode 8 stop ++
                names ++ totals 0 counts ++ concat (map (fun e => id_bytes (entry_id e)) entries) ++ rows ++ large in
    Ok (body ++ id_bytes (checksum sha1 sha256 f body)).

(** A pack of the primary store: its file name, checksum and objects, what the checks of
    its index and of its files say, before and after encoding, and when it was modified. *)
Record Source := {
  s_file : bytes; s_checksum : ObjectId; s_objects : list (ObjectId * Z);
  s_verified : bool; s_unchanged : bool; s_unchanged_after : bool; s_modified : option Z
}.

(** [index_name], on the file name of the pack. *)
Definition index_name (file : bytes) : result WriteError bytes :=
  if negb (utf8 file) then Err (PackName file)
  else
    match strip_suffix (bstr ".pack") file with
    | Some stem => if starts_with (bstr "pack-") stem || starts_with (bstr "loose-") stem then Ok (stem ++ bstr ".idx") else Err (PackName file)
    | None => Err (PackName file)
    end.

(** The loop over the packs: the number of objects, the names and the ranks. *)
Fixpoint gather (o : WriteOptions) (limits : WriteLimits) (packs : list Source) (position count : Z) (names : bytes) (ranks : list Rank) : result WriteError (Z * bytes * list Rank) :=
  match packs with
  | [] => Ok (count, names, ranks)
  | p :: packs =>
      let? count := ok_or (checked_add count (zlen (s_objects p))) (WriteLimit "objects") in
      if (write_max_objects limits <? count) || (u32_max <? count) then Err (WriteLimit "objects")
      else if negb (s_verified p) then Err WriteSource
      else if negb (s_unchanged p) then Err WriteSource
      else
        let? name := index_name (s_file p) in
        if match checked_add (zlen names) (zlen name + 1) with Some size => write_max_bytes limits <? size | None => true end then Err (WriteLimit "bytes")
        else
          let? modified := ok_or (s_modified p) WriteIo in
          gather o limits packs (position + 1) count (names ++ name ++ [0]) (ranks ++ [(bool_decide (preferred_pack o = Some (s_checksum p)), modified, usize_max - position)])
  end.

(** The copies of the objects, pack by pack. *)
Fixpoint copies (ordinal : Z) (packs : list Source) : list Entry :=
  match packs with
  | [] => []
  | p :: packs => map (fun e => (e.1, ordinal, e.2)) (s_objects p) ++ copies (ordinal + 1) packs
  end.

(** [Objects::encode_multi_pack_index_selected], for the packs [include] keeps and a flag
    of cancellation that stays clear. *)
Definition file_cmp (a b : Source) : comparison := bytes_cmp (s_file a) (s_file b).
Definition encode_selected (f : ObjectFormat) (o : WriteOptions) (limits : WriteLimits) (include : bytes -> bool) (primary : list Source) : result WriteError bytes :=
  let packs := sort_by file_cmp (List.filter (fun p => include (s_file p)) primary) in
  if (write_max_packs limits <? zlen packs) || (u32_max <? zlen packs) then Err (WriteLimit "packs")
  else
    let? _ :=
      match preferred_pack o with
      | Some id => if negb (existsb (fun p => bool_decide (s_checksum p = id)) packs) then Err (PreferredPack id) else Ok tt
      | None => Ok tt
      end in
    let? (counted, ranks) := gather o limits packs 0 0 [] [] in
    let '(count, names) := counted in
    if count =? 0 then Err NoObjects
    else
      let names := pad_names names in
      if write_max_bytes limits <? zlen names then Err (WriteLimit "bytes")
      else
        let? bs := encode f (zlen packs) names (select ranks (copies 0 packs)) (write_max_bytes limits) in
        if existsb (fun p => negb (s_unchanged_after p)) packs then Err WriteSource else Ok bs.

(** [WriteLimits::default] and [Objects::encode_multi_pack_index]. *)
Definition default_write_limits : WriteLimits := {| write_max_packs := 4096; write_max_objects := 5000000; write_max_bytes := 64 * 1024 * 1024 |}.
Definition encode_multi_pack_index (f : ObjectFormat) (o : WriteOptions) (primary : list Source) : result WriteError bytes :=
  encode_selected f o default_write_limits (fun _ => true) primary.
End Encode.
End MultiPack.
