(* ===== verification/MultiPackCorrect.v ===== *)
(** * Multi-pack indexes: lookups are exact

    What [parse_with] accepts has ascending identities, each with a location, and [find]
    returns the location of exactly the identities of the table. *)

From stdpp Require Import base list numbers strings sets sorting.
From Stdlib Require Import ZArith Lia.
From S2P Require Import Prelude Objects BTree CommitGraph CommitGraphLayer CommitGraphEncode MultiPack.

Module MultiPackCorrect.
Import Objects MultiPack.

Definition name_lt (a b : bytes) : Prop := bytes_cmp a b = Lt.
#[export] Instance name_lt_trans : Transitive name_lt.
Proof. intros a b c. apply bytes_cmp_lt_trans. Qed.

(** ** Rows *)

Lemma sorted_lookup {A} (R : relation A) l i j a b : StronglySorted R l -> (i < j)%nat -> l !! i = Some a -> l !! j = Some b -> R a b.
Proof.
  intros Hs. revert i j. induction Hs as [|x l Hs IH Hx]; intros i j Hij Ha Hb; [done|]. destruct j as [|j]; [lia|]. destruct i as [|i]; cbn in *; [|by apply (IH i j); [lia|..]].
  injection Ha as <-. rewrite Forall_forall in Hx. apply Hx. by eapply list_elem_of_lookup_2.
Qed.


Lemma rows_of (w : Z) (bs : bytes) (n : Z) : 0 < w -> 0 <= n -> zlen bs = n * w -> exists rows, bs = concat rows /\ zlen rows = n /\ Forall (fun r => zlen r = w) rows.
Proof.
  intros Hw Hn. replace n with (Z.of_nat (Z.to_nat n)) by lia. revert bs. induction (Z.to_nat n) as [|k IH]; intros bs Hl; [exists []; destruct bs; [split_and!; [done..|constructor]|rewrite zlen_cons in Hl; pose proof (zlen_nonneg bs); lia]|].
  destruct (IH (drop (Z.to_nat w) bs)) as (rows & E & Hr & Hf). { unfold zlen in *. rewrite length_drop. nia. }
  exists (take (Z.to_nat w) bs :: rows). split_and!; [cbn; by rewrite <- E, take_drop|rewrite zlen_cons; lia|]. constructor; [|done]. unfold zlen in *. rewrite length_take. nia.
Qed.

Lemma row_slice w (rows : list bytes) i : 0 < w -> Forall (fun r => zlen r = w) rows -> 0 <= i < zlen rows -> slice (i * w) ((i + 1) * w) (concat rows) = rows !! Z.to_nat i.
Proof.
  intros Hw Hr Hi. rewrite <- GraphLayer.chunks_exact_lookup; [by rewrite GraphEncode.chunks_exact_concat|done|]. unfold GraphLayer.names_total. rewrite (GraphEncode.zlen_concat_width _ w) by done. rewrite Z.div_mul by lia. done.
Qed.

(** The binary search over ascending rows. *)
Lemma find_rows w (rows : list bytes) id : 0 < w -> Forall (fun r => zlen r = w) rows -> StronglySorted name_lt rows ->
  exists found, CommitGraph.find_loop (Z.to_nat (zlen rows)) (concat rows) w id 0 (zlen rows) = Some found /\ forall i, found = Some i <-> 0 <= i /\ rows !! Z.to_nat i = Some id.
Proof.
  intros Hw Hr Hs. set (f := fun i => match rows !! Z.to_nat i with Some r => bytes_cmp r id | None => Eq end). pose proof (zlen_nonneg rows) as H0.
  assert (forall i, 0 <= i < zlen rows -> exists r, rows !! Z.to_nat i = Some r) as Hin by (intros i Hi; apply lookup_lt_is_Some_2; unfold zlen in Hi; lia).
  assert (forall i j a b, 0 <= i < j -> rows !! Z.to_nat i = Some a -> rows !! Z.to_nat j = Some b -> bytes_cmp a b = Lt) as Hlt.
  { intros i j a b Hij Ha Hb. eapply (sorted_lookup name_lt rows (Z.to_nat i) (Z.to_nat j)); [done|lia|done|done]. }
  rewrite (GraphLayer.find_loop_bsearch _ _ _ _ _ _ f); [|intros i Hi|lia].
  2: { destruct (Hin i Hi) as [r Er]. exists r. rewrite row_slice by done. split; [done|]. unfold f. by rewrite Er. }
  eexists. split; [done|]. intros i. split.
  - intros [Hi Hf]%bsearch_Some. destruct (Hin i Hi) as [r Er]. unfold f in Hf. rewrite Er in Hf. apply bytes_cmp_eq in Hf as ->. split; [lia|done].
  - intros [Hi Er]. assert (i < zlen rows) as Hi' by (apply lookup_lt_Some in Er; unfold zlen; lia). assert (f i = Eq) as Hfi by (unfold f; rewrite Er; apply bytes_cmp_refl).
    destruct (bsearch (Z.to_nat (zlen rows)) f 0 (zlen rows)) as [m|] eqn:E.
    + apply bsearch_Some in E as [Hm Hfm]. f_equal. destruct (Hin m Hm) as [r Em]. unfold f in Hfm. rewrite Em in Hfm. apply bytes_cmp_eq in Hfm as ->.
      destruct (Z.lt_trichotomy m i) as [Hc|[->|Hc]]; [|done|]; [pose proof (Hlt m i id id ltac:(lia) Em Er) as Hx|pose proof (Hlt i m id id ltac:(lia) Er Em) as Hx]; by rewrite bytes_cmp_refl in Hx.
    + exfalso. eapply (bsearch_None (Z.to_nat (zlen rows)) f 0 (zlen rows)); [lia|intros j k Hj Hk Hf|intros j k Hj Hk Hf|exact E| |exact Hfi]; [| |lia];
        destruct (Hin j) as [rj Ej]; try lia; destruct (Hin k) as [rk Ek]; try lia; pose proof (Hlt j k rj rk Hj Ej Ek) as Hjk; unfold f in *; rewrite ?Ej, ?Ek in *.
      * by eapply bytes_cmp_lt_trans.
      * apply bytes_cmp_gt_lt. apply bytes_cmp_gt_lt in Hf. by eapply bytes_cmp_lt_trans.
Qed.

(** ** No panics *)

Definition safe {A} (r : result Error A) : Prop := r <> Err Panic.
Lemma safe_bind {A B} (r : result Error A) (k : A -> result Error B) : safe r -> (forall a, r = Ok a -> safe (k a)) -> safe (rbind r k).
Proof. unfold safe. intros Hr Hk. destruct r as [a|e]; cbn [rbind]; [by apply Hk|]. congruence. Qed.
Lemma safe_ok_or {A} (o : option A) e : e <> Panic -> safe (ok_or o e).
Proof. unfold safe. destruct o; cbn; congruence. Qed.
Lemma safe_some {A} (o : option A) e : is_Some o -> safe (ok_or o e).
Proof. by intros [a ->]. Qed.
Lemma read_be_safe n bs start : safe (read_be n bs start).
Proof. unfold read_be. apply safe_bind; [by apply safe_ok_or|]. intros stop _. apply safe_bind; [by apply safe_ok_or|done]. Qed.

Lemma slice_some {A} a b (l : list A) : 0 <= a <= b -> b <= zlen l -> is_Some (slice a b l).
Proof. intros H1 H2. destruct (slice_is_Some a b l H1 H2) as [m ->]. eauto. Qed.

Lemma chunk_rows_safe n bs count stop i previous chunks : 0 <= i -> 12 + (i + Z.of_nat n) * 12 <= zlen bs -> safe (chunk_rows n bs count stop i previous chunks).
Proof.
  revert i previous chunks. induction n as [|n IH]; intros i previous chunks Hi Hl; cbn [chunk_rows]; [done|]. apply safe_bind; [apply safe_some, slice_some; lia|]. intros tag _. apply safe_bind; [apply read_be_safe|]. intros start _.
  destruct (_ || _); [done|]. destruct (i =? count); [destruct (_ || _); [done|]; apply IH; lia|]. apply safe_bind; [apply read_be_safe|]. intros next _. apply safe_bind; [by apply safe_ok_or|]. intros v _. destruct (_ || _); [done|]. apply IH; lia.
Qed.

Lemma take_names_safe n version names rest : safe (take_names n version names rest).
Proof.
  revert names rest. induction n as [|n IH]; intros names rest; cbn [take_names]; [done|]. apply safe_bind; [by apply safe_ok_or|]. intros stop _. repeat (destruct (negb _); [done|]). destruct (_ && _); [done|]. apply IH.
Qed.

Lemma location_safe x i : safe (location x i).
Proof.
  unfold location. apply safe_bind; [apply read_be_safe|]. intros p _. apply safe_bind; [apply read_be_safe|]. intros o _. apply safe_bind; [|intros o' _; by destruct (_ <? _)].
  destruct (large x) as [l|]; [|done]. destruct (negb _); [|done]. apply safe_bind; [by apply safe_ok_or|]. intros slot _. apply read_be_safe.
Qed.

Lemma check_ids_safe x position previous rows counts : Forall (fun r => r <> []) rows -> safe (check_ids x position previous rows counts).
Proof.
  intros Hr. revert position previous counts. induction Hr as [|r rows Hr _ IH]; intros position previous counts; cbn [check_ids]; [done|]. destruct (match previous with Some _ => _ | None => _ end); [done|].
  apply safe_bind; [apply safe_some; by destruct r|]. intros b _. apply safe_bind; [apply location_safe|]. intros l _. destruct (_ && _); [done|]. apply IH.
Qed.

Lemma check_fanout_safe fanout i total counts : safe (check_fanout fanout i total counts).
Proof. revert i total. induction counts as [|c counts IH]; intros i total; cbn [check_fanout]; [done|]. apply safe_bind; [apply read_be_safe|]. intros v _. destruct (negb _); [done|]. apply IH. Qed.
Lemma check_order_safe rows seen : safe (check_order rows seen).
Proof. revert seen. induction rows as [|r rows IH]; intros seen; cbn [check_order]; [done|]. apply safe_bind; [apply read_be_safe|]. intros p _. destruct (seen !! _) as [[]|]; [done|apply IH|done]. Qed.
Lemma check_bitmap_safe rows objects : safe (check_bitmap_rows rows objects).
Proof.
  induction rows as [|r rows IH]; cbn [check_bitmap_rows]; [done|]. apply safe_bind; [apply read_be_safe|]. intros a _. apply safe_bind; [apply read_be_safe|]. intros b _. destruct (match checked_add a b with Some _ => _ | None => _ end); [done|apply IH].
Qed.

(** ** Names *)

Lemma dedup_length l : (length (dedup l) <= length l)%nat /\ (Sorted (cmp_le bytes_cmp) l -> length (dedup l) = length l -> Sorted name_lt l).
Proof.
  induction l as [|a [|b l] IH]; [split; [done|constructor]|split; [done|repeat constructor]|]. change (dedup (a :: b :: l)) with (if bytes_eqb a b then dedup (b :: l) else a :: dedup (b :: l)).
  destruct IH as [IH1 IH2]. remember (dedup (b :: l)) as d eqn:Ed. destruct (bytes_eqb a b) eqn:E.
  - split; [cbn [length] in *; lia|]. intros _ Hl. cbn [length] in *. lia.
  - split; [cbn [length] in *; lia|]. intros Hs Hl. inversion Hs as [|? ? Hs' Hd]; subst. inversion Hd as [|? ? Hab]; subst. constructor; [apply IH2; [done|cbn [length] in *; lia]|]. constructor. unfold name_lt, cmp_le in *.
    destruct (bytes_cmp a b) eqn:Ec; [|done|done]. apply bytes_cmp_eq in Ec as ->. by rewrite bytes_eqb_refl in E.
Qed.

Lemma take_names_spec n version names rest names' rest' : take_names n version names rest = Ok (names', rest') -> Forall (fun m => name_ok m = true) names ->
  length names' = (length names + n)%nat /\ Forall (fun m => name_ok m = true) names'.
Proof.
  revert names rest. induction n as [|n IH]; intros names rest; cbn [take_names]; [intros [<- <-]%ok_inj%pair_equal_spec H; split; [lia|done]|]. intros (stop & _ & H)%rbind_Ok Hn.
  destruct (negb (utf8 _)); [done|]. destruct (name_ok (take stop rest)) eqn:En; cbn [negb] in H; [|done]. destruct (_ && _); [done|]. apply IH in H as [H1 H2]; [|apply Forall_app; split; [done|by repeat constructor]]. rewrite length_app in H1. cbn [length] in H1. split; [lia|done].
Qed.

Lemma parse_names_spec bs count version names : parse_names bs count version = Ok names -> zlen names = count /\ NoDup names /\ Forall (fun m => name_ok m = true) names.
Proof.
  unfold parse_names. intros ([ns rest] & Ht & H)%rbind_Ok. destruct (_ || _); [done|]. destruct (Z.eqb_spec (zlen (dedup (sort_by bytes_cmp ns))) count) as [El|]; cbn [negb] in H; [|done]. apply ok_inj in H as <-.
  apply take_names_spec in Ht as [Hl Hok]; [|constructor]. pose proof (zlen_nonneg (dedup (sort_by bytes_cmp ns))) as Hc. cbn [length] in Hl. assert (zlen ns = count) as Hz by (unfold zlen; lia). split_and!; [done| |done].
  pose proof (sort_by_perm bytes_cmp ns) as Hp. destruct (dedup_length (sort_by bytes_cmp ns)) as [_ Hs]. assert (Sorted name_lt (sort_by bytes_cmp ns)) as Hso.
  { apply Hs; [apply sort_by_Sorted; intros a b; apply bytes_cmp_gt_lt|]. rewrite <- Hz in El. unfold zlen in El. apply Permutation_length in Hp. lia. }
  rewrite <- Hp. apply Sorted_StronglySorted in Hso; [|apply name_lt_trans]. clear -Hso. induction Hso as [|a l _ IH Ha]; constructor; [|done]. intros Hin. rewrite Forall_forall in Ha. apply Ha in Hin. unfold name_lt in Hin. by rewrite bytes_cmp_refl in Hin.
Qed.

(** ** Objects *)

Definition located (x : Index) (i : Z) : Prop := exists l, location x i = Ok l /\ 12 <= offset l /\ (bases x = 0 -> pack l < zlen (names x)).

Lemma location_offset x i l : location x i = Ok l -> 12 <= offset l.
Proof. unfold location. intros (p & _ & (o & _ & (o' & _ & H)%rbind_Ok)%rbind_Ok)%rbind_Ok. destruct (Z.ltb_spec o' 12); [done|]. by apply ok_inj in H as <-. Qed.

Lemma check_ids_spec x position previous rows counts counts' : check_ids x position previous rows counts = Ok counts' ->
  StronglySorted name_lt rows /\ (forall p, previous = Some p -> Forall (name_lt p) rows) /\ forall k, (k < length rows)%nat -> located x (position + Z.of_nat k).
Proof.
  revert position previous counts. induction rows as [|r rows IH]; intros position previous counts; cbn [check_ids]; [intros _; split_and!; [constructor|constructor|cbn; lia]|].
  destruct (match previous with Some _ => _ | None => _ end) eqn:Ep; [done|]. intros (b & _ & (l & Hl & H)%rbind_Ok)%rbind_Ok. destruct (_ && _) eqn:Eb; [done|]. apply IH in H as (H1 & H2 & H3). specialize (H2 r eq_refl).
  assert (forall p, previous = Some p -> name_lt p r) as Hp by (intros p ->; unfold name_lt; by destruct (bytes_cmp p r)). split_and!.
  - by constructor.
  - intros p E. specialize (Hp p E). constructor; [done|]. eapply Forall_impl; [exact H2|]. intros y. apply name_lt_trans. done.
  - intros [|k] Hk; [|replace (position + Z.of_nat (S k)) with (position + 1 + Z.of_nat k) by lia; apply H3; cbn [length] in Hk; lia]. exists l. replace (position + Z.of_nat 0) with position by lia. split_and!; [done|by eapply location_offset|].
    intros E0. rewrite E0 in Eb. cbn [andb Z.eqb] in Eb. by apply Z.leb_gt in Eb.
Qed.

(** What is known of an accepted index. *)
Record index_ok (x : Index) (rows : list bytes) : Prop := {
  ix_ids : ids x = concat rows;
  ix_widths : Forall (fun r => zlen r = width x) rows;
  ix_sorted : StronglySorted name_lt rows;
  ix_located : forall i, 0 <= i < zlen rows -> located x i;
  ix_names : NoDup (names x) /\ Forall (fun m => name_ok m = true) (names x)
}.

Lemma width_positive x : 0 < width x.
Proof. unfold width. by destruct (format x). Qed.

Lemma parse_chunks_ok f limits version base_count packs chunks x : parse_chunks f limits version base_count packs chunks = Ok x -> format x = f /\ exists rows, index_ok x rows.
Proof.
  unfold parse_chunks. intros (raw & _ & (ns & Hns & (fanout & _ & H)%rbind_Ok)%rbind_Ok)%rbind_Ok. destruct (negb _); [done|]. apply rbind_Ok in H as (objects & Ho & H). destruct (_ <? objects); [done|].
  apply rbind_Ok in H as (i & Hi & H). apply rbind_Ok in H as (o & Hof & H). destruct (bool_decide (checked_mul objects (digest_len f) = Some (zlen i))) eqn:E1; [|done]. apply bool_decide_eq_true in E1. cbn [negb orb] in H. destruct (negb _); [done|].
  destruct (match BTree.get LOFF chunks with Some _ => _ | None => _ end); [done|]. set (y := Build_Index _ _ _ _ _ _ _) in H. apply rbind_Ok in H as ([] & Hv & H). apply rbind_Ok in H as (? & _ & H). apply rbind_Ok in H as (? & _ & <-%ok_inj). split; [done|].
  unfold checked_mul in E1. destruct (_ <=? usize_max); [|done]. injection E1 as E1. assert (0 < digest_len f) as Hw by (by destruct f). pose proof (zlen_nonneg i) as Hi0. destruct (rows_of (digest_len f) i objects Hw) as (rows & Er & Hl & Hf); [nia|lia|].
  exists rows. unfold validate_objects in Hv. apply rbind_Ok in Hv as (counts & Hv & _). change (width y) with (digest_len f) in Hv. change (ids y) with i in Hv. rewrite Er, GraphEncode.chunks_exact_concat in Hv by done.
  apply check_ids_spec in Hv as (Hs & _ & Hloc). apply parse_names_spec in Hns as (_ & Hnd & Hok). constructor; [done..| |done]. intros k Hk. replace k with (0 + Z.of_nat (Z.to_nat k)) by lia. apply Hloc. unfold zlen in Hk. lia.
Qed.

Section Parsed.
Context (sha1 sha256 : bytes -> bytes).
Notation parse_with := (parse_with sha1 sha256).

Lemma parse_chunks_safe f limits version base_count packs chunks : safe (parse_chunks f limits version base_count packs chunks).
Proof using.
  unfold parse_chunks, required. repeat (apply safe_bind; [by apply safe_ok_or|intros ? _]). apply safe_bind; [unfold parse_names; apply safe_bind; [apply take_names_safe|intros [ns rest] _; destruct (_ || _); [done|]; by destruct (negb _)]|]. intros ns _.
  apply safe_bind; [by apply safe_ok_or|]. intros fanout _. destruct (negb _); [done|]. apply safe_bind; [apply read_be_safe|]. intros objects _. destruct (_ <? objects); [done|].
  apply safe_bind; [by apply safe_ok_or|]. intros i _. apply safe_bind; [by apply safe_ok_or|]. intros o _. destruct (bool_decide (checked_mul objects (digest_len f) = Some (zlen i))) eqn:E1; [|done]. apply bool_decide_eq_true in E1. cbn [negb orb]. destruct (negb _); [done|].
  destruct (match BTree.get LOFF chunks with Some _ => _ | None => _ end); [done|]. apply safe_bind; [|intros _ _; apply safe_bind; [|intros _ _; apply safe_bind; [|done]]].
  - unfold validate_objects. apply safe_bind; [|intros counts _; apply check_fanout_safe]. apply check_ids_safe. cbn [ids width format]. unfold width. cbn [format].
    unfold checked_mul in E1. destruct (_ <=? usize_max); [|done]. injection E1 as E1. assert (0 < digest_len f) as Hw by (by destruct f). pose proof (zlen_nonneg i) as Hi0. destruct (rows_of (digest_len f) i objects Hw) as (rows & -> & _ & Hf); [nia|lia|].
    rewrite GraphEncode.chunks_exact_concat by done. eapply Forall_impl; [exact Hf|]. intros r Hr ->. change (zlen (@nil Z)) with 0 in Hr. lia.
  - destruct (BTree.get RIDX chunks); [|done]. unfold validate_order. destruct (negb _); [done|]. apply check_order_safe.
  - destruct (BTree.get BTMP chunks); [|done]. unfold validate_bitmap_packs. destruct (negb _); [done|]. apply check_bitmap_safe.
Qed.

Lemma parse_with_cases bs f limits : match parse_with bs f limits with
  | Ok x => format x = f /\ exists rows, index_ok x rows
  | Err e => e <> Panic
  end.
Proof using.
  assert (safe (parse_with bs f limits) /\ forall x, parse_with bs f limits = Ok x -> format x = f /\ exists rows, index_ok x rows) as [H1 H2].
  2: { destruct (parse_with bs f limits) as [x|e]; [by apply H2|]. intros ->. by apply H1. }
  unfold MultiPack.parse_with. destruct (_ <? zlen bs); [done|]. destruct (Z.ltb_spec (zlen bs) (12 + digest_len f)) as [|Hl]; [done|]. destruct (negb _); [done|]. cbn [orb]. assert (0 < digest_len f) as Hw by (by destruct f).
  assert (forall i, 0 <= i < 12 -> exists b, zget i bs = Some b) as Hg by (intros i Hi; destruct (lookup_lt_is_Some_2 bs (Z.to_nat i)) as [b Hb]; [unfold zlen in Hl; lia|]; exists b; apply zget_Some; split; [lia|done]).
  destruct (Hg 4) as [v ->]; [lia|]. destruct (Hg 5) as [h ->]; [lia|]. destruct (Hg 6) as [c ->]; [lia|]. destruct (Hg 7) as [b ->]; [lia|]. cbn [ok_or rbind].
  destruct (negb _); [done|]. destruct (negb _); [done|]. destruct (negb _); [done|]. destruct (Z.ltb_spec (zlen bs - digest_len f) (12 + (c + 1) * 12)) as [|Ht]; [done|]. split.
  - apply safe_bind; [apply chunk_rows_safe; lia|]. intros chunks _. apply safe_bind; [apply read_be_safe|]. intros packs _. destruct (_ <? packs); [done|]. apply parse_chunks_safe.
  - intros x (chunks & _ & (packs & _ & H)%rbind_Ok)%rbind_Ok. destruct (_ <? packs); [done|]. by eapply parse_chunks_ok.
Qed.
End Parsed.

(** ** Lookups *)

Lemma choose_list {A} (P : nat -> A -> Prop) n : (forall k, (k < n)%nat -> exists a, P k a) -> exists l, length l = n /\ forall k a, l !! k = Some a -> P k a.
Proof.
  induction n as [|n IH]; intros H; [by exists []|]. destruct IH as (l & Hl & Hp); [intros k Hk; apply H; lia|]. destruct (H n) as [a Ha]; [lia|]. exists (l ++ [a]). split; [rewrite length_app; cbn; lia|].
  intros k b [Hb|[Hk Hb]]%lookup_app_Some; [by apply Hp|]. apply list_lookup_singleton_Some in Hb as [Hk' <-]. by replace k with n by lia.
Qed.

(** The objects of an index, with their locations. *)
Definition entries_ok (x : Index) (entries : list (bytes * Location)) : Prop :=
  zlen entries = len x /\ ids x = concat (map fst entries) /\ StronglySorted name_lt (map fst entries) /\
  Forall (fun e => zlen e.1 = width x /\ 12 <= offset e.2 /\ (bases x = 0 -> pack e.2 < zlen (names x))) entries.

Lemma len_rows x rows : ids x = concat rows -> Forall (fun r => zlen r = width x) rows -> len x = zlen rows.
Proof. intros Hi Hf. unfold len. rewrite Hi, (GraphEncode.zlen_concat_width rows (width x)) by done. apply Z.div_mul. pose proof (width_positive x). lia. Qed.

Lemma find_located x rows ls : ids x = concat rows -> Forall (fun r => zlen r = width x) rows -> StronglySorted name_lt rows -> length ls = length rows -> (forall k l, ls !! k = Some l -> location x (Z.of_nat k) = Ok l) ->
  forall id, exists o, find x id = Some o /\ forall l, o = Some l <-> id_format id = format x /\ (id_bytes id, l) ∈ zip rows ls.
Proof.
  intros Hi Hw Hs Hlen Hls id. pose proof (width_positive x) as Hx. assert (len x = zlen rows) as Hn by by apply len_rows. unfold find. destruct (bool_decide (id_format id = format x)) eqn:Ef; cbn [negb].
  2: { apply bool_decide_eq_false in Ef. exists None. split; [done|]. by intros l; split; [|intros [? _]]. }
  apply bool_decide_eq_true in Ef. rewrite Hn, Hi. destruct (find_rows (width x) rows (id_bytes id) Hx Hw Hs) as (found & -> & Hf). eexists. split; [cbn [mbind option_bind]; reflexivity|]. intros l. split.
  - intros E. split; [done|]. destruct found as [i|]; cbn [mbind option_bind] in E; [|done]. destruct (Hf i) as [Hf1 _]. destruct (Hf1 eq_refl) as [Hi0 Hr]. destruct (lookup_lt_is_Some_2 ls (Z.to_nat i)) as [l' Hl']; [apply lookup_lt_Some in Hr; lia|].
    pose proof (Hls _ _ Hl') as El. rewrite Z2Nat.id in El by done. rewrite El in E. injection E as <-. apply list_elem_of_lookup. exists (Z.to_nat i). apply lookup_zip_with_Some. eauto.
  - intros [_ (k & (r & l' & [= <- <-] & Hr & Hl')%lookup_zip_with_Some)%list_elem_of_lookup_1]. destruct (Hf (Z.of_nat k)) as [_ ->]; [|rewrite Nat2Z.id; split; [lia|done]]. cbn [mbind option_bind]. by rewrite (Hls _ _ Hl').
Qed.

Lemma index_find x rows : index_ok x rows -> exists entries, entries_ok x entries /\ forall id, exists o, find x id = Some o /\ forall l, o = Some l <-> id_format id = format x /\ (id_bytes id, l) ∈ entries.
Proof.
  intros [Hi Hw Hs Hl _]. destruct (choose_list (fun k l => location x (Z.of_nat k) = Ok l /\ 12 <= offset l /\ (bases x = 0 -> pack l < zlen (names x))) (length rows)) as (ls & Hlen & Hls).
  { intros k Hk. destruct (Hl (Z.of_nat k)) as (l & H); [unfold zlen; lia|]. by exists l. }
  assert (map fst (zip rows ls) = rows) as Hfst by (apply fst_zip; lia). exists (zip rows ls). split; [|apply find_located; [done..|by intros k l [? _]%Hls]].
  split_and!; [rewrite (len_rows x rows) by done; unfold zlen; rewrite length_zip_with; lia|by rewrite Hfst|by rewrite Hfst|]. apply Forall_lookup. intros k [r l] (r' & l' & [= <- <-] & Hr & Hlk)%lookup_zip_with_Some. cbn [fst snd].
  split; [exact (Forall_lookup_1 _ rows k r Hw Hr)|]. by apply Hls in Hlk as [_ ?].
Qed.

End MultiPackCorrect.
