(* ===== verification/MultiPackSelect.v ===== *)
(** * Multi-pack indexes: the copy of each object

    [select] sorts the copies of the objects by identity and by the rank of their packs and
    keeps the first of each identity: one copy of each object, ascending, each in the pack
    of the highest rank among those that have the object. *)

From stdpp Require Import base list numbers strings sets sorting.
From Stdlib Require Import ZArith Lia.
From S2P Require Import Prelude Objects MultiPack.

Module MultiPackSelect.
Import Objects MultiPack.

(** ** Comparisons *)

(** A comparison function of a total preorder. *)
Record cmp_laws {A} (c : A -> A -> comparison) : Prop := {
  cl_sym : forall a b, c b a = CompOpp (c a b);
  cl_trans : forall a b d, c a b = Lt -> c b d = Lt -> c a d = Lt;
  cl_eq : forall a b d, c a b = Eq -> c a d = c b d
}.
Arguments cl_sym {A c}. Arguments cl_trans {A c}. Arguments cl_eq {A c}.

Definition lex {A} (c d : A -> A -> comparison) (a b : A) : comparison := match c a b with Eq => d a b | r => r end.
Definition on {A B} (g : A -> B) (c : B -> B -> comparison) (a b : A) : comparison := c (g a) (g b).

Lemma on_laws {A B} (g : A -> B) c : cmp_laws c -> cmp_laws (on g c).
Proof. intros [H1 H2 H3]. split; unfold on; eauto. Qed.
Lemma flip_laws {A} (c : A -> A -> comparison) : cmp_laws c -> cmp_laws (fun a b => c b a).
Proof.
  intros [H1 H2 H3]. split; [intros a b; apply H1|intros a b d Ha Hb; by apply (H2 d b a)|]. intros a b d E. rewrite (H1 a d), (H1 b d). f_equal. apply H3. rewrite H1, E. done.
Qed.
Lemma lex_laws {A} (c d : A -> A -> comparison) : cmp_laws c -> cmp_laws d -> cmp_laws (lex c d).
Proof.
  intros Hc Hd. split; unfold lex.
  - intros a b. rewrite (cl_sym Hc a b). destruct (c a b) eqn:E; cbn; [apply (cl_sym Hd)|done..].
  - intros a b e. destruct (c a b) eqn:E1; [|intros _|done].
    + rewrite (cl_eq Hc _ _ e E1). destruct (c b e); [|done|done]. apply (cl_trans Hd).
    + destruct (c b e) eqn:E2; [intros _|intros _|done]; [|by rewrite (cl_trans Hc a b e)].
      assert (c a e = Lt) as ->; [|done]. rewrite (cl_sym Hc e a), (cl_eq Hc e b a), (cl_sym Hc a b), E1; [done|]. by rewrite (cl_sym Hc b e), E2.
  - intros a b e. destruct (c a b) eqn:E1; [|done..]. intros E2. rewrite (cl_eq Hc _ _ e E1), (cl_eq Hd _ _ e E2). done.
Qed.

(** Not greater: the relation the sorts use. *)
Lemma le_trans {A} (c : A -> A -> comparison) : cmp_laws c -> Transitive (cmp_le c).
Proof.
  intros Hc a b d H1 H2. unfold cmp_le in *. destruct (c a b) eqn:E1; [by rewrite (cl_eq Hc _ _ d E1)| |done]. destruct (c b d) eqn:E2; [|by rewrite (cl_trans Hc a b d)|done].
  rewrite (cl_sym Hc d a), (cl_eq Hc d b a), (cl_sym Hc a b), E1; [done|]. by rewrite (cl_sym Hc b d), E2.
Qed.
Lemma gt_lt {A} (c : A -> A -> comparison) : cmp_laws c -> forall a b, c a b = Gt -> c b a = Lt.
Proof. intros Hc a b E. by rewrite (cl_sym Hc a b), E. Qed.

Lemma bytes_laws : cmp_laws bytes_cmp.
Proof.
  assert (forall a b, bytes_cmp b a = CompOpp (bytes_cmp a b)) as Hs.
  { intros a b. destruct (bytes_cmp a b) eqn:E; [apply bytes_cmp_eq in E as ->; apply bytes_cmp_refl|by apply bytes_cmp_gt_lt|by apply bytes_cmp_gt_lt]. }
  split; [done|apply bytes_cmp_lt_trans|]. intros a b d ->%bytes_cmp_eq. done.
Qed.
Lemma id_laws : cmp_laws id_cmp.
Proof.
  split; [intros [a|a] [b|b]; cbn; try done; apply (cl_sym bytes_laws)|intros [a|a] [b|b] [d|d]; cbn; try done; apply (cl_trans bytes_laws)|].
  intros [a|a] [b|b] [d|d]; cbn; try done; apply (cl_eq bytes_laws).
Qed.
Lemma id_cmp_Eq a b : id_cmp a b = Eq <-> a = b.
Proof. split; [|intros ->; destruct b; apply bytes_cmp_refl]. destruct a as [a|a], b as [b|b]; cbn; try done; by intros ->%bytes_cmp_eq. Qed.
Lemma bool_laws : cmp_laws bool_cmp.
Proof. split; [by intros [] []|by intros [] [] []|by intros [] [] []]. Qed.
Lemma Z_laws : cmp_laws Z.compare.
Proof. split; [intros a b; apply Z.compare_antisym|intros a b d; rewrite !Z.compare_lt_iff; lia|]. by intros a b d ->%Z.compare_eq_iff. Qed.

Lemma rank_laws : cmp_laws rank_cmp.
Proof. exact (lex_laws _ _ (on_laws (fun r : Rank => r.1.1) _ bool_laws) (lex_laws _ _ (on_laws (fun r : Rank => r.1.2) _ Z_laws) (on_laws (fun r : Rank => r.2) _ Z_laws))). Qed.

Definition rank_of (ranks : list Rank) (e : Entry) : Rank := default (false, 0, 0) (ranks !! Z.to_nat (entry_pack e)).
Lemma entry_laws ranks : cmp_laws (entry_cmp ranks).
Proof. exact (lex_laws _ _ (on_laws entry_id _ id_laws) (flip_laws _ (on_laws (rank_of ranks) _ rank_laws))). Qed.

(** ** One copy of each object *)

Section Select.
Context (ranks : list Rank).
Notation le := (cmp_le (entry_cmp ranks)).
Definition id_lt (a b : Entry) : Prop := id_cmp (entry_id a) (entry_id b) = Lt.

Lemma le_ids a b : le a b -> id_cmp (entry_id a) (entry_id b) <> Gt.
Proof. unfold cmp_le, entry_cmp. destruct (id_cmp _ _); done. Qed.
Lemma ids_below p e : id_cmp p (entry_id e) <> Gt -> entry_id e <> p -> id_cmp p (entry_id e) = Lt.
Proof. intros H1 H2. destruct (id_cmp p (entry_id e)) eqn:E; [apply id_cmp_Eq in E; congruence|done|done]. Qed.

Lemma dedup_after_spec p l : StronglySorted le l -> Forall (fun e => id_cmp p (entry_id e) <> Gt) l ->
  Forall (fun e => e ∈ l /\ id_cmp p (entry_id e) = Lt) (dedup_after p l) /\ StronglySorted id_lt (dedup_after p l) /\
  forall e, e ∈ l -> entry_id e = p \/ exists b, b ∈ dedup_after p l /\ entry_id b = entry_id e /\ le b e.
Proof.
  intros Hs. revert p. induction Hs as [|a l Hs IH Ha]; intros p Hp; cbn [dedup_after]; [split_and!; [constructor..|by intros e ?%not_elem_of_nil]|].
  apply Forall_cons in Hp as [Hp Hps]. destruct (bool_decide (entry_id a = p)) eqn:E.
  - apply bool_decide_eq_true in E. destruct (IH p Hps) as (H1 & H2 & H3). split_and!; [|done|].
    + eapply Forall_impl; [exact H1|]. intros e [He Hlt]. split; [by right|done].
    + intros e [-> |He]%elem_of_cons; [by left|by apply H3].
  - apply bool_decide_eq_false in E. pose proof (ids_below p a Hp E) as Hpa. destruct (IH (entry_id a)) as (H1 & H2 & H3). { eapply Forall_impl; [exact Ha|]. intros e. apply le_ids. }
    split_and!.
    + constructor; [split; [left|done]|]. eapply Forall_impl; [exact H1|]. intros e [He Hlt]. split; [by right|]. by apply (cl_trans id_laws p (entry_id a)).
    + constructor; [done|]. eapply Forall_impl; [exact H1|]. by intros e [_ Hlt].
    + intros e [-> |He]%elem_of_cons; right.
      * exists a. split_and!; [left|done|]. unfold cmp_le. pose proof (cl_sym (entry_laws ranks) a a) as Hx. by destruct (entry_cmp ranks a a).
      * destruct (H3 e He) as [Eid|(b & Hb & Eb & Hle)]; [|exists b; split_and!; [by right|done..]]. exists a. split_and!; [left|done|]. rewrite Forall_forall in Ha. by apply Ha.
Qed.

Lemma select_spec entries : let kept := select ranks entries in
  kept ⊆ entries /\ StronglySorted id_lt kept /\ forall e, e ∈ entries -> exists b, b ∈ kept /\ entry_id b = entry_id e /\ le b e.
Proof.
  cbv zeta. unfold select. pose proof (sort_by_perm (entry_cmp ranks) entries) as Hp. assert (StronglySorted le (sort_by (entry_cmp ranks) entries)) as Hs.
  { apply Sorted_StronglySorted; [apply le_trans, entry_laws|]. apply sort_by_Sorted, gt_lt, entry_laws. }
  assert (forall e, e ∈ entries <-> e ∈ sort_by (entry_cmp ranks) entries) as Hin by (intros e; by rewrite Hp). destruct (sort_by (entry_cmp ranks) entries) as [|a l]; cbn [dedup_entries].
  { split_and!; [intros e ?%not_elem_of_nil; done|constructor|]. intros e He. apply Hin in He. by apply not_elem_of_nil in He. }
  inversion Hs as [|? ? Hs' Ha]; subst. destruct (dedup_after_spec (entry_id a) l Hs') as (H1 & H2 & H3). { eapply Forall_impl; [exact Ha|]. intros e. apply le_ids. }
  split_and!.
  - intros e [-> |He]%elem_of_cons; apply Hin; [left|right]. rewrite Forall_forall in H1. by apply H1.
  - constructor; [done|]. eapply Forall_impl; [exact H1|]. by intros e [_ Hlt].
  - intros e He. apply Hin in He. apply elem_of_cons in He as [-> |He].
    + exists a. split_and!; [left|done|]. unfold cmp_le. pose proof (cl_sym (entry_laws ranks) a a) as Hx. by destruct (entry_cmp ranks a a).
    + destruct (H3 e He) as [Eid|(b & Hb & Eb & Hle)]; [|exists b; split_and!; [by right|done..]]. exists a. split_and!; [left|done|]. rewrite Forall_forall in Ha. by apply Ha.
Qed.

Lemma kept_unique l a b : StronglySorted id_lt l -> a ∈ l -> b ∈ l -> entry_id a = entry_id b -> a = b.
Proof.
  induction 1 as [|x l Hs IH Hx]; [by intros ?%not_elem_of_nil|]. rewrite Forall_forall in Hx. unfold id_lt in Hx. intros [-> |Ha]%elem_of_cons [-> |Hb]%elem_of_cons E; [done| | |by apply IH].
  - specialize (Hx b Hb). by rewrite (proj2 (id_cmp_Eq _ _) E) in Hx.
  - specialize (Hx a Ha). by rewrite (proj2 (id_cmp_Eq _ _) (eq_sym E)) in Hx.
Qed.

(** A kept copy is in a pack of the highest rank. *)
Lemma select_best entries b e : b ∈ select ranks entries -> e ∈ entries -> entry_id e = entry_id b -> rank_cmp (rank_of ranks e) (rank_of ranks b) <> Gt.
Proof.
  intros Hb He E. destruct (select_spec entries) as (_ & Hs & H). destruct (H e He) as (b' & Hb' & Eb & Hle). assert (b' = b) as -> by (eapply kept_unique; [done..|congruence]).
  unfold cmp_le, entry_cmp in Hle. by rewrite (proj2 (id_cmp_Eq _ _) Eb) in Hle.
Qed.
End Select.
End MultiPackSelect.
