(* ===== verification/MultiPackRoundtrip.v ===== *)
(** * Written multi-pack indexes read back

    The chunk table, the names, the fanout, the rows of the objects and the whole file:
    what [encode] writes, [parse_with] accepts, and [find] returns the pack and the offset
    of every object that was written. *)

From stdpp Require Import base list numbers strings sets sorting.
From Stdlib Require Import ZArith Lia.
From S2P Require Import Prelude Objects BTree CommitGraph CommitGraphLayer CommitGraphRoundtrip CommitGraphEncode.
From S2P Require Import MultiPack MultiPackCorrect MultiPackSelect.

Module MultiPackRoundtrip.
Import Objects MultiPack MultiPackCorrect MultiPackSelect.

Lemma read_written n bs pos v : 0 <= pos -> pos + Z.of_nat n <= usize_max -> 0 <= v < 256 ^ Z.of_nat n ->
  slice pos (pos + Z.of_nat n) bs = Some (be_encode n v) -> read_be (Z.of_nat n) bs pos = Ok v.
Proof. intros H0 Hm Hv Hs. unfold read_be. rewrite checked_add_le by done. cbn [ok_or rbind]. rewrite Hs. cbn. by rewrite be_decode_encode. Qed.

(** ** The chunk table *)

Lemma chunk_table_of (cs : list (bytes * bytes)) off : let r := chunk_table (map (fun c => (c.1, zlen c.2)) cs) off in
  r.1 ++ [0; 0; 0; 0] ++ be_encode 8 r.2 = concat (map GraphRoundtrip.entry (GraphRoundtrip.table_of cs off)).
Proof.
  cbv zeta. revert off. induction cs as [|[tag d] cs IH]; intros off; [done|]. cbn [map chunk_table GraphRoundtrip.table_of concat fst snd]. specialize (IH (off + zlen d)). destruct (chunk_table _ _) as [out stop]. cbn [fst snd] in *.
  rewrite <- IH. unfold GraphRoundtrip.entry. cbn [fst snd]. by rewrite <- !app_assoc.
Qed.

Section Table.
Context (bs pre post : bytes) (es : list (bytes * Z)).
Context (Hbs : bs = pre ++ concat (map GraphRoundtrip.entry es) ++ post) (Hpre : zlen pre = 12) (Hes : Forall (fun e => zlen e.1 = 4) es) (Hmax : zlen bs <= usize_max).

Lemma read_row k tag v : es !! k = Some (tag, v) -> 0 <= v <= usize_max ->
  slice (12 + Z.of_nat k * 12) (12 + Z.of_nat k * 12 + 4) bs = Some tag /\ long bs (12 + Z.of_nat k * 12 + 4) = Ok v.
Proof using Hbs Hpre Hes Hmax.
  intros Hk Hv. destruct (GraphRoundtrip.entry_at es pre post k tag v Hes Hk) as [H1 H2]. rewrite <- Hbs, Hpre in H1, H2.
  replace (12 + 12 * Z.of_nat k) with (12 + Z.of_nat k * 12) in * by lia. split; [done|]. apply (read_written 8); [lia| | |done].
  - apply slice_Some in H2 as (_ & ? & _). change (Z.of_nat 8) with 8. lia.
  - change (256 ^ Z.of_nat 8) with (2 ^ 64). unfold usize_max in Hv. lia.
Qed.

Lemma chunk_rows_written cs off (i : nat) previous chunks stop data rest :
  drop i es = GraphRoundtrip.table_of cs off -> bs = data ++ concat (map snd cs) ++ rest -> zlen data = off -> stop = off + GraphRoundtrip.data_size cs -> previous <= off ->
  Forall (fun c => bytes_eqb c.1 [0; 0; 0; 0] = false) cs -> NoDup (map fst cs) -> BTree.ok chunks -> (forall c, c ∈ cs -> BTree.get c.1 chunks = None) ->
  exists rs, chunk_rows (S (length cs)) bs (Z.of_nat i + zlen cs) stop (Z.of_nat i) previous chunks = Ok rs /\
    BTree.ok rs /\ forall tag d, (tag, d) ∈ rs <-> (tag, d) ∈ chunks \/ (tag, d) ∈ cs.
Proof using Hbs Hpre Hes Hmax.
  revert off i previous chunks data. induction cs as [|[tag d] cs IH]; intros off i previous chunks data Hdrop Hdata Hoff Hstop Hprev Hz Hnd Hok Hget.
  - assert (es !! i = Some ([0; 0; 0; 0], off)) as Hk by (apply GraphRoundtrip.drop_head; by rewrite Hdrop). change (GraphRoundtrip.data_size []) with 0 in Hstop. pose proof (zlen_nonneg data).
    assert (off <= zlen bs) by (rewrite Hdata, zlen_app; pose proof (zlen_nonneg (concat (map snd (@nil (bytes * bytes))) ++ rest)); lia).
    destruct (read_row i _ off Hk) as [H1 H2]; [lia|]. cbn [length chunk_rows]. rewrite H1. cbn [ok_or rbind]. rewrite H2. cbn [rbind].
    assert ((off <? previous) || (stop <? off) = false) as -> by (apply orb_false_iff; split; apply Z.ltb_ge; lia).
    change (zlen (@nil (bytes * bytes))) with 0. rewrite Z.add_0_r, Z.eqb_refl. rewrite bytes_eqb_refl. cbn [negb orb].
    assert (off =? stop = true) as -> by (apply Z.eqb_eq; lia). cbn [negb]. exists chunks. split_and!; [done..|]. intros tag d. split; [by left|intros [?|?%not_elem_of_nil]; done].
  - assert (es !! i = Some (tag, off)) as Hk by (apply GraphRoundtrip.drop_head; by rewrite Hdrop).
    assert (drop (S i) es = GraphRoundtrip.table_of cs (off + zlen d)) as Hdrop'. { replace (S i) with (i + 1)%nat by lia. rewrite <- drop_drop, Hdrop. done. }
    destruct (GraphRoundtrip.table_of_head cs (off + zlen d)) as [tag' Hhead]. assert (es !! S i = Some (tag', off + zlen d)) as Hk' by (apply GraphRoundtrip.drop_head; by rewrite Hdrop').
    cbn [map snd concat] in Hdata. rewrite <- app_assoc in Hdata. pose proof (zlen_nonneg d) as G1. assert (0 <= GraphRoundtrip.data_size cs) as G2 by apply zlen_nonneg. pose proof (zlen_nonneg rest) as G3. pose proof (zlen_nonneg data) as G4.
    assert (GraphRoundtrip.data_size ((tag, d) :: cs) = zlen d + GraphRoundtrip.data_size cs) as Hsize by (unfold GraphRoundtrip.data_size; cbn [map concat snd]; apply zlen_app). rewrite Hsize in Hstop.
    assert (off + zlen d + GraphRoundtrip.data_size cs <= zlen bs) as G5 by (rewrite Hdata, !zlen_app; unfold GraphRoundtrip.data_size; lia).
    destruct (read_row i _ off Hk) as [H1 H2]; [lia|]. destruct (read_row (S i) _ (off + zlen d) Hk') as [_ H3]; [lia|].
    cbn [length]. set (n := S (length cs)) in *. cbn [chunk_rows]. rewrite H1. cbn [ok_or rbind]. rewrite H2. cbn [rbind].
    assert ((off <? previous) || (stop <? off) = false) as -> by (apply orb_false_iff; split; apply Z.ltb_ge; lia).
    rewrite zlen_cons. pose proof (zlen_nonneg cs) as G6. destruct (Z.eqb_spec (Z.of_nat i) (Z.of_nat i + (zlen cs + 1))); [lia|].
    replace (12 + Z.of_nat i * 12 + 16) with (12 + Z.of_nat (S i) * 12 + 4) by lia. rewrite H3. cbn [rbind].
    assert (slice off (off + zlen d) bs = Some d) as Hsl by (eapply GraphRoundtrip.slice_at; [exact Hdata|done]). rewrite Hsl. cbn [mbind option_bind].
    assert (off + zlen d <=? stop = true) as -> by (apply Z.leb_le; lia). cbn [ok_or rbind].
    apply Forall_cons in Hz as [Hz Hzs]. cbn [fst] in Hz. rewrite Hz.
    assert (BTree.get tag chunks = None) as Hnone by exact (Hget (tag, d) ltac:(left)). rewrite Hnone. cbn [orb]. assert (bool_decide (is_Some (@None bytes)) = false) as -> by (apply bool_decide_eq_false; by intros []).
    cbn [map fst] in Hnd. apply NoDup_cons in Hnd as [Hnot Hnd].
    destruct (IH (off + zlen d) (S i) off (BTree.insert tag d chunks) (data ++ d)) as (rs & Hrs & Hokrs & Hin); try done; try lia.
    + by rewrite <- app_assoc.
    + rewrite zlen_app. lia.
    + by apply BTree.ok_insert.
    + intros [tag2 d2] Hc. rewrite BTree.get_insert by done. cbn [fst]. destruct (decide (tag2 = tag)) as [-> |Hne].
      * exfalso. apply Hnot. apply list_elem_of_fmap. by exists (tag, d2).
      * assert (BTree.get tag2 chunks = None) as -> by (apply (Hget (tag2, d2)); by right). destruct (bytes_eqb tag2 tag) eqn:E; [apply bytes_eqb_eq in E; congruence|done].
    + exists rs. split; [rewrite <- Hrs; f_equal; lia|]. split; [done|]. intros tag2 r. rewrite Hin, GraphRoundtrip.insert_new by done. rewrite elem_of_cons. tauto.
Qed.
End Table.

(** ** Names *)

Definition terminated (ns : list bytes) : bytes := concat (map (fun n => n ++ [0]) ns).
Definition name_written (n : bytes) : Prop := name_ok n = true /\ utf8 n = true /\ Forall (fun b => (b =? 0) = false) n.

Lemma take_names_written ns acc rest : Forall name_written ns -> Sorted name_lt (acc ++ ns) -> take_names (length ns) 1 acc (terminated ns ++ rest) = Ok (acc ++ ns, rest).
Proof.
  intros Hns. revert acc. induction Hns as [|n ns (H1 & H2 & H3) _ IH]; intros acc Hs; cbn [length take_names]; [by rewrite app_nil_r|]. unfold terminated. cbn [map concat]. fold (terminated ns).
  assert (position (fun b => b =? 0) (((n ++ [0]) ++ terminated ns) ++ rest) = Some (length n)) as ->. { apply position_Some. exists n, 0, (terminated ns ++ rest). split_and!; [by rewrite <- !app_assoc|done..]. }
  cbn [ok_or rbind]. rewrite <- !app_assoc. rewrite take_app_length. replace (length n + 1)%nat with (length (n ++ [0])) by (rewrite length_app; done). rewrite H1, H2. cbn [negb].
  assert (drop (length (n ++ [0])) (n ++ [0] ++ terminated ns ++ rest) = terminated ns ++ rest) as -> by (rewrite (app_assoc n [0]), drop_app_length; done).
  assert (match last acc with Some previous => match bytes_cmp previous n with Lt => false | _ => true end | None => false end = false) as ->.
  { destruct (last acc) as [q|] eqn:El; [|done]. apply last_Some in El as [acc' ->]. apply Sorted_StronglySorted in Hs; [|apply name_lt_trans]. rewrite <- app_assoc in Hs. apply StronglySorted_app in Hs as (_ & _ & Hs). cbn [app] in Hs.
    apply StronglySorted_inv in Hs as [_ Hq]. apply Forall_cons in Hq as [Hq _]. unfold name_lt in Hq. by rewrite Hq. }
  cbn [Z.eqb andb Pos.eqb]. rewrite IH by (by rewrite <- app_assoc). by rewrite <- app_assoc.
Qed.

Lemma dedup_nodup l : NoDup l -> dedup l = l.
Proof.
  induction l as [|a [|b l] IH]; intros Hn; [done..|]. change (dedup (a :: b :: l)) with (if bytes_eqb a b then dedup (b :: l) else a :: dedup (b :: l)). apply NoDup_cons in Hn as [Ha Hn]. rewrite IH by done.
  destruct (bytes_eqb a b) eqn:E; [|done]. apply bytes_eqb_eq in E as ->. destruct Ha. left.
Qed.

Lemma sorted_nodup ns : Sorted name_lt ns -> NoDup ns.
Proof.
  intros Hs%Sorted_StronglySorted; [|apply name_lt_trans]. induction Hs as [|a l _ IH Ha]; constructor; [|done]. intros Hin. rewrite Forall_forall in Ha. apply Ha in Hin. unfold name_lt in Hin. by rewrite bytes_cmp_refl in Hin.
Qed.

Lemma parse_names_written ns : Forall name_written ns -> Sorted name_lt ns -> parse_names (pad_names (terminated ns)) (zlen ns) 1 = Ok ns.
Proof.
  intros Hns Hs. unfold parse_names, pad_names. replace (Z.to_nat (zlen ns)) with (length ns) by (unfold zlen; lia). rewrite take_names_written by done. cbn [rbind app]. set (k := (- zlen (terminated ns)) mod 4). assert (0 <= k < 4) as Hk by (apply Z.mod_pos_bound; lia).
  assert (zlen (replicate (Z.to_nat k) 0) = k) as Hz by (unfold zlen; rewrite length_replicate; lia). rewrite Hz. destruct (Z.ltb_spec 3 k); [lia|]. cbn [orb].
  assert (existsb (fun b => negb (b =? 0)) (replicate (Z.to_nat k) 0) = false) as ->. { generalize (Z.to_nat k). intros m. induction m as [|m IH]; [done|exact IH]. }
  rewrite dedup_nodup by (rewrite (sort_by_perm bytes_cmp ns); by apply sorted_nodup). assert (zlen (sort_by bytes_cmp ns) = zlen ns) as -> by (unfold zlen; by rewrite (Permutation_length (sort_by_perm bytes_cmp ns))). by rewrite Z.eqb_refl.
Qed.

(** ** The fanout *)

Definition total (counts : list Z) : Z := foldr Z.add 0 counts.

Lemma total_nonneg counts : Forall (Z.le 0) counts -> 0 <= total counts.
Proof. unfold total. induction 1 as [|c counts Hc _ IH]; cbn [foldr]; lia. Qed.
Lemma total_alter counts k : (k < length counts)%nat -> total (alter (Z.add 1) k counts) = 1 + total counts.
Proof. revert k. induction counts as [|c counts IH]; intros k Hk; [cbn in Hk; lia|]. destruct k as [|k]; cbn [alter list_alter total foldr]; [lia|]. unfold total in IH. cbn [length] in Hk. rewrite IH by lia. lia. Qed.
Lemma counts_alter counts k : Forall (Z.le 0) counts -> Forall (Z.le 0) (alter (Z.add 1) k counts).
Proof. intros H. revert k. induction H as [|c counts Hc H IH]; intros [|k]; cbn; constructor; try done; try lia; apply IH. Qed.

Lemma count_first_spec entries counts counts' : Forall (fun e => id_ok (entry_id e)) entries -> length counts = 256%nat -> Forall (Z.le 0) counts -> count_first entries counts = Ok counts' ->
  length counts' = 256%nat /\ Forall (Z.le 0) counts' /\ total counts' = total counts + zlen entries.
Proof.
  intros He. revert counts. induction He as [|e entries [Hb _] _ IH]; intros counts Hl Hc; cbn [count_first]; [intros [= <-]; split_and!; [done..|change (zlen (@nil Entry)) with 0; lia]|].
  intros (b & Hh & H)%rbind_Ok. apply ok_or_Ok in Hh. assert (0 <= b < 256) as Hr. { destruct (id_bytes (entry_id e)) as [|b' r]; [done|]. injection Hh as ->. by apply Forall_cons in Hb as [? _]. }
  apply IH in H as (H1 & H2 & H3); [|by rewrite length_alter|by apply counts_alter]. rewrite total_alter in H3 by lia. split_and!; [done..|]. rewrite zlen_cons. lia.
Qed.

Lemma zlen_totals t counts : zlen (totals t counts) = 4 * zlen counts.
Proof. revert t. induction counts as [|c counts IH]; intros t; cbn [totals]; [done|]. rewrite zlen_app, zlen_be_encode, IH, zlen_cons. lia. Qed.

Lemma check_fanout_written pre t counts i : zlen pre = i * 4 -> 0 <= t -> Forall (Z.le 0) counts -> t + total counts <= u32_max -> zlen (pre ++ totals t counts) <= usize_max ->
  check_fanout (pre ++ totals t counts) i t counts = Ok tt.
Proof.
  intros Hpre Ht Hc. revert pre t i Hpre Ht. induction Hc as [|c counts Hc Hcs IH]; intros pre t i Hpre Ht Hm Hu; cbn [check_fanout]; [done|]. cbn [total foldr] in Hm. fold (total counts) in Hm.
  assert (0 <= total counts) by by apply total_nonneg. cbn [totals] in *. unfold word. pose proof (zlen_nonneg pre). pose proof Hu as Hu'. rewrite !zlen_app, zlen_be_encode in Hu'. pose proof (zlen_nonneg (totals (t + c) counts)).
  change 4 with (Z.of_nat 4) at 1. rewrite (read_written 4 _ _ (t + c)); [|lia|change (Z.of_nat 4) with 4 in *; lia|change (256 ^ Z.of_nat 4) with (2 ^ 32); unfold u32_max in Hm; lia|].
  2: { rewrite <- (zlen_be_encode 4 (t + c)). eapply GraphRoundtrip.slice_at; [done|lia]. }
  cbn [rbind]. rewrite Z.eqb_refl. cbn [negb]. rewrite app_assoc in Hu |- *. apply IH; [rewrite zlen_app, zlen_be_encode; lia|lia|lia|done].
Qed.

Lemma totals_snoc t counts c : totals t (counts ++ [c]) = totals t counts ++ be_encode 4 (t + total counts + c).
Proof.
  revert t. induction counts as [|d counts IH]; intros t; cbn [app totals total foldr]; [by rewrite app_nil_r, Z.add_0_r|]. fold (total counts). rewrite IH, <- app_assoc. do 3 f_equal. lia.
Qed.

Lemma fanout_total counts : length counts = 256%nat -> Forall (Z.le 0) counts -> total counts <= u32_max -> word (totals 0 counts) 1020 = Ok (total counts).
Proof.
  intros Hl Hc Hm. destruct counts as [|c cs] using rev_ind; [done|]. clear IHcs. rewrite length_app in Hl. cbn [length] in Hl. apply Forall_app in Hc as [Hcs Hc]. apply Forall_cons in Hc as [Hc _].
  assert (total (cs ++ [c]) = total cs + c) as Et by (clear; unfold total; induction cs as [|d cs IH]; [cbn [app foldr]; lia|]; change ((d :: cs) ++ [c]) with (d :: (cs ++ [c])); cbn [foldr]; lia). assert (0 <= total cs) by by apply total_nonneg.
  rewrite totals_snoc, Et in *. unfold word. apply (read_written 4); [lia|unfold usize_max; lia|change (256 ^ Z.of_nat 4) with (2 ^ 32); unfold u32_max in Hm; lia|]. change (Z.of_nat 4) with 4.
  rewrite <- (app_nil_r (totals 0 cs ++ _)), <- app_assoc. replace (1020 + 4) with (1020 + zlen (be_encode 4 (0 + total cs + c))) by (by rewrite zlen_be_encode). rewrite (GraphRoundtrip.slice_at _ (totals 0 cs) (be_encode 4 (0 + total cs + c)) []); [by rewrite Z.add_0_l|done|].
  rewrite zlen_totals. unfold zlen. lia.
Qed.

(** ** The rows of the objects *)

Lemma slice_after {A} (pre l m : list A) n a b : slice a b l = Some m -> zlen pre = n -> slice (n + a) (n + b) (pre ++ l) = Some m.
Proof. intros (p & q & -> & Hp & Hm)%slice_app <-. apply slice_app. exists (pre ++ p), q. rewrite <- app_assoc, zlen_app. split_and!; [done|lia..]. Qed.
Lemma slice_more {A} (l post m : list A) a b : slice a b l = Some m -> slice a b (l ++ post) = Some m.
Proof. intros (p & q & -> & Hp & Hm)%slice_app. apply slice_app. exists p, (q ++ post). split_and!; [by rewrite <- !app_assoc|done..]. Qed.

Lemma slot_flag s : 0 <= s < 2 ^ 31 -> let v := Z.lor 0x80000000 s in 0 <= v < 2 ^ 32 /\ (Z.land v 0x80000000 =? 0) = false /\ Z.land v 0x7fffffff = s.
Proof.
  intros Hs. cbv zeta. assert (Z.lor 0x80000000 s = s + 2 ^ 31) as E by (change 0x80000000 with (Z.shiftl 1 31); rewrite Z.lor_comm, lor_shiftl by lia; lia). split_and!; [rewrite E; lia|rewrite E; lia| |].
  - change 0x80000000 with (Z.shiftl 1 31) at 2. rewrite land_bit by lia. rewrite Z.lor_spec. change (Z.testbit 0x80000000 31) with true. done.
  - rewrite E. change 0x7fffffff with (2 ^ 31 - 1). rewrite land_low_mod by lia. replace (s + 2 ^ 31) with (s + 1 * 2 ^ 31) by lia. rewrite Z.mod_add by lia. by apply Z.mod_small.
Qed.
Lemma direct_flag o : 0 <= o < 2 ^ 31 -> (Z.land o 0x80000000 =? 0) = true.
Proof. intros Ho. change 0x80000000 with (Z.shiftl 1 31). rewrite land_bit by lia. rewrite Z.testbit_eqb by lia. rewrite Z.div_small by lia. done. Qed.

Definition is_wide (has_large : bool) (e : Entry) : bool := has_large && (0x7fffffff <? entry_offset e).

Lemma offset_rows_spec has entries large rows large' : offset_rows has entries large = (rows, large') -> zlen large mod 8 = 0 ->
  zlen rows = 8 * zlen entries /\ (exists more, large' = large ++ more /\ zlen more = 8 * zlen (List.filter (is_wide has) entries)) /\
  forall k e, entries !! k = Some e -> exists field, slice (Z.of_nat k * 8) (Z.of_nat k * 8 + 4) rows = Some (be_encode 4 (entry_pack e)) /\
    slice (Z.of_nat k * 8 + 4) (Z.of_nat k * 8 + 4 + 4) rows = Some (be_encode 4 field) /\
    if is_wide has e then exists slot, 0 <= slot /\ slot * 8 + 8 <= zlen large' /\ field = Z.lor 0x80000000 (wrap32 slot) /\ slice (slot * 8) (slot * 8 + 8) large' = Some (be_encode 8 (entry_offset e))
    else field = entry_offset e.
Proof.
  revert large rows large'. induction entries as [|e entries IH]; intros large rows large'; cbn [offset_rows]; [intros [<- <-]%pair_equal_spec _; split_and!; [done|exists []; by rewrite app_nil_r|done]|].
  fold (is_wide has e). destruct (offset_rows has entries _) as [rows0 large0] eqn:E. intros [<- <-]%pair_equal_spec Hm. apply IH in E as (H1 & (more & H2 & H2') & H3); [|destruct (is_wide has e); [|done]; rewrite zlen_app, zlen_be_encode, Z.add_mod by lia; rewrite Hm; done].
  assert (exists more, large0 = large ++ more /\ zlen more = 8 * zlen (List.filter (is_wide has) (e :: entries)) /\ (is_wide has e = true -> slice (zlen large) (zlen large + 8) large0 = Some (be_encode 8 (entry_offset e)))) as (more' & G1 & G2 & G3).
  { cbn [List.filter]. destruct (is_wide has e); [|exists more; split_and!; done]. exists (be_encode 8 (entry_offset e) ++ more). split_and!; [by rewrite H2, <- app_assoc|rewrite zlen_app, zlen_be_encode, zlen_cons; lia|].
    intros _. rewrite H2, <- app_assoc. apply slice_mid; [done|by rewrite zlen_be_encode]. }
  split_and!; [rewrite !zlen_app, !zlen_be_encode, zlen_cons; lia|by exists more'|]. intros k e' Hk. set (field := if is_wide has e then _ else _). destruct k as [|k].
  - cbn in Hk. injection Hk as <-. exists field. split_and!; [apply (slice_mid []); [done|by rewrite zlen_be_encode]|apply slice_mid; [by rewrite zlen_be_encode|by rewrite zlen_be_encode]|].
    subst field. destruct (is_wide has e); [|done]. specialize (G3 eq_refl). exists (zlen large / 8). pose proof (Z.div_mod (zlen large) 8 ltac:(lia)) as Hd. rewrite Hm in Hd. pose proof (zlen_nonneg large).
    replace (zlen large / 8 * 8) with (zlen large) by lia. split_and!; [lia| |done|done]. apply slice_Some in G3. lia.
  - cbn in Hk. destruct (H3 k e' Hk) as (field' & F1 & F2 & F3). exists field'. rewrite app_assoc. assert (zlen (be_encode 4 (entry_pack e) ++ be_encode 4 field) = 8) as Hz by (by rewrite zlen_app, !zlen_be_encode).
    apply (slice_after (be_encode 4 (entry_pack e) ++ be_encode 4 field) _ _ 8) in F1; [|done]. apply (slice_after (be_encode 4 (entry_pack e) ++ be_encode 4 field) _ _ 8) in F2; [|done].
    split_and!; [rewrite <- F1; f_equal; lia|rewrite <- F2; f_equal; lia|done].
Qed.

Definition entry_fits (f : ObjectFormat) (packs : Z) (e : Entry) : Prop :=
  id_ok (entry_id e) /\ id_format (entry_id e) = f /\ 0 <= entry_pack e < packs /\ 12 <= entry_offset e <= usize_max.
Definition wide_offsets (entries : list Entry) : bool := existsb (fun e => u32_max <? entry_offset e) entries.
Definition place (e : Entry) : Location := {| pack := entry_pack e; offset := entry_offset e |}.

Lemma location_written x entries rows more k e : let has := wide_offsets entries in
  offset_rows has entries [] = (rows, more) -> offsets x = rows -> large x = (if has then Some more else None) -> zlen rows <= usize_max -> zlen (List.filter (is_wide has) entries) <= 2 ^ 31 ->
  entries !! k = Some e -> 0 <= entry_pack e <= u32_max -> 12 <= entry_offset e <= usize_max -> location x (Z.of_nat k) = Ok (place e).
Proof.
  cbv zeta. intros Hr Ho Hl Hrows Hwide He Hp Hoff. apply offset_rows_spec in Hr as (_ & (more' & Em & Hmore) & H); [|done]. cbn [app] in Em. subst more'. destruct (H k e He) as (field & F1 & F2 & F3).
  pose proof (proj1 (proj2 (proj1 (slice_Some _ _ _ _) F2))) as Hb. assert (0 <= field < 2 ^ 32 /\ match large x with Some _ => (Z.land field 0x80000000 =? 0) = negb (is_wide (wide_offsets entries) e) | None => field = entry_offset e end) as [Hf Hflag].
  { rewrite Hl. unfold is_wide in *. destruct (wide_offsets entries) eqn:Ew; cbn [andb] in *.
    - destruct (Z.ltb_spec 0x7fffffff (entry_offset e)) as [Hw|Hw]; [|subst field; split; [lia|apply direct_flag; lia]]. destruct F3 as (slot & S1 & S2 & -> & _). assert (wrap32 slot = slot) as -> by (apply Z.mod_small; lia). destruct (slot_flag slot) as (V1 & V2 & _); [lia|]. done.
    - subst field. split; [|done]. assert (entry_offset e <= u32_max) as Hu; [|unfold u32_max in Hu; lia]. destruct (Z.ltb_spec u32_max (entry_offset e)) as [Hc|]; [|done]. exfalso. apply not_true_iff_false in Ew. apply Ew. apply existsb_exists. exists e. split; [apply list_elem_of_In; by eapply list_elem_of_lookup_2|by apply Z.ltb_lt]. }
  unfold location. rewrite Ho. unfold word. rewrite (read_written 4 rows _ (entry_pack e)); [|lia|change (Z.of_nat 4) with 4; lia|change (256 ^ Z.of_nat 4) with (2 ^ 32); unfold u32_max in Hp; lia|exact F1]. cbn [rbind].
  rewrite (read_written 4 rows _ field); [|lia|change (Z.of_nat 4) with 4; lia|exact Hf|exact F2]. cbn [rbind].
  assert (match large x with Some l => if negb (Z.land field 0x80000000 =? 0) then let? slot := ok_or (checked_mul (Z.land field 0x7fffffff) 8) (bad "large offset slot") in long l slot else Ok field | None => Ok field end = Ok (entry_offset e)) as ->.
  { destruct (large x) as [l|] eqn:El; [|by rewrite Hflag]. rewrite Hflag, negb_involutive. destruct (is_wide (wide_offsets entries) e); [|by rewrite F3]. destruct F3 as (slot & S1 & S2 & -> & S4). assert (wrap32 slot = slot) as -> by (apply Z.mod_small; lia).
    destruct (slot_flag slot) as (_ & _ & ->); [lia|]. destruct (wide_offsets entries); [|done]. injection Hl as ->. unfold checked_mul. assert (slot * 8 <=? usize_max = true) as -> by (apply Z.leb_le; unfold usize_max; lia). cbn [ok_or rbind].
    unfold long. apply (read_written 8); [lia|change (Z.of_nat 8) with 8; unfold usize_max; lia|change (256 ^ Z.of_nat 8) with (2 ^ 64); unfold usize_max in Hoff; lia|exact S4]. }
  cbn [rbind]. destruct (Z.ltb_spec (entry_offset e) 12); [lia|done].
Qed.

Definition raw_id (e : Entry) : bytes := id_bytes (entry_id e).

Lemma raw_ids_sorted f packs entries : Forall (entry_fits f packs) entries -> StronglySorted id_lt entries -> StronglySorted name_lt (map raw_id entries).
Proof.
  intros Hf Hs. induction Hs as [|e entries _ IH He]; cbn [map]; [constructor|]. apply Forall_cons in Hf as [(_ & F & _) Hf]. constructor; [by apply IH|]. apply Forall_fmap. apply Forall_forall. intros b Hb. cbn. rewrite Forall_forall in Hf, He. destruct (Hf b Hb) as (_ & G & _). specialize (He b Hb).
  unfold id_lt in He. unfold name_lt, raw_id. destruct (entry_id e), (entry_id b); cbn in *; congruence.
Qed.

Lemma check_ids_written x entries position previous counts counts' : 0 <= position ->
  (forall k e, entries !! k = Some e -> location x (position + Z.of_nat k) = Ok (place e)) -> Forall (fun e => entry_pack e < zlen (names x)) entries ->
  StronglySorted name_lt (map raw_id entries) -> (forall p, previous = Some p -> Forall (name_lt p) (map raw_id entries)) ->
  count_first entries counts = Ok counts' -> check_ids x position previous (map raw_id entries) counts = Ok counts'.
Proof.
  revert position previous counts. induction entries as [|e entries IH]; intros position previous counts H0 Hl Hp Hs Hprev; cbn [map check_ids count_first]; [by intros [= <-]|]. intros (b & Hb & H)%rbind_Ok. apply Forall_cons in Hp as [Hp Hps]. cbn [map] in Hs. apply StronglySorted_inv in Hs as [Hs He].
  assert (match previous with Some p => match bytes_cmp p (raw_id e) with Lt => false | _ => true end | None => false end = false) as ->. { destruct previous as [p|]; [|done]. specialize (Hprev p eq_refl). apply Forall_cons in Hprev as [Hq _]. unfold name_lt in Hq. by rewrite Hq. }
  apply ok_or_Ok in Hb. unfold raw_id at 1. rewrite Hb. cbn [ok_or rbind]. specialize (Hl O e eq_refl) as Hle. replace (position + Z.of_nat 0) with position in Hle by lia. rewrite Hle. cbn [rbind place pack].
  destruct (Z.leb_spec (zlen (names x)) (entry_pack e)); [lia|]. rewrite andb_false_r. apply IH; [lia| |done|done|by intros p [= <-]|done]. intros k e' Hk. replace (position + 1 + Z.of_nat k) with (position + Z.of_nat (S k)) by lia. by apply Hl.
Qed.

(** ** The tables *)

Section Written.
Context (f : ObjectFormat) (ns : list bytes) (entries : list Entry) (counts : list Z) (rows more : bytes).
Notation has := (wide_offsets entries).
Context (Hns : Forall name_written ns) (Hsorted : Sorted name_lt ns) (Hpacks : zlen ns <= u32_max).
Context (Hent : Forall (entry_fits f (zlen ns)) entries) (Hids : StronglySorted id_lt entries) (Hcount : zlen entries <= u32_max).
Context (Hcounts : count_first entries (replicate 256 0) = Ok counts) (Hrows : offset_rows has entries [] = (rows, more)).
Context (Hwide : zlen (List.filter (is_wide has) entries) <= 2 ^ 31).

Definition written_chunks : list (bytes * bytes) :=
  [(PNAM, pad_names (terminated ns)); (OIDF, totals 0 counts); (OIDL, concat (map raw_id entries)); (OOFF, rows)] ++ if has then [(LOFF, more)] else [].
Definition written_index : Index :=
  {| format := f; names := ns; ids := concat (map raw_id entries); offsets := rows; large := if has then Some more else None; bases := 0; order := None |}.

Lemma raw_widths : Forall (fun r => zlen r = digest_len f) (map raw_id entries).
Proof using Hent. apply Forall_fmap. eapply Forall_impl; [exact Hent|]. intros e ((_ & H) & F & _). cbn. unfold raw_id. by rewrite H, F. Qed.

Lemma counts_facts : length counts = 256%nat /\ Forall (Z.le 0) counts /\ total counts = zlen entries.
Proof using Hcounts Hent.
  apply count_first_spec in Hcounts as (H1 & H2 & H3); [|eapply Forall_impl; [exact Hent|by intros e [? _]]|by rewrite length_replicate|by apply Forall_replicate]. split_and!; [done..|]. rewrite H3. assert (total (replicate 256 0) = 0) as -> by (vm_compute; reflexivity). lia.
Qed.

Lemma rows_facts : zlen rows = 8 * zlen entries /\ zlen more = 8 * zlen (List.filter (is_wide has) entries).
Proof using Hrows. apply offset_rows_spec in Hrows as (H1 & (m & -> & H2) & _); done. Qed.

Lemma written_validates : validate_objects written_index (totals 0 counts) = Ok tt.
Proof using Hent Hids Hcount Hcounts Hrows Hwide Hpacks.
  destruct counts_facts as (C1 & C2 & C3). destruct rows_facts as [R1 R2]. pose proof (zlen_nonneg entries). unfold validate_objects. cbn [ids written_index]. unfold width. cbn [format written_index]. rewrite GraphEncode.chunks_exact_concat; [|by destruct f|apply raw_widths].
  rewrite (check_ids_written _ entries 0 None (replicate 256 0) counts); [|lia| | |by eapply raw_ids_sorted|done|done].
  - cbn [rbind]. apply (check_fanout_written [] 0 counts 0); [done|lia|done|lia|]. cbn [app]. rewrite zlen_totals. unfold zlen. rewrite C1. unfold usize_max. lia.
  - intros k e Hk. rewrite Z.add_0_l. pose proof (Forall_lookup_1 _ _ _ _ Hent Hk) as (_ & _ & E3 & E4). apply (location_written written_index entries rows more); [done|done|done| |done|done|lia|done]. unfold u32_max in Hcount. unfold usize_max. lia.
  - eapply Forall_impl; [exact Hent|]. intros e (_ & _ & ? & _). cbn [names written_index]. lia.
Qed.

Lemma parse_written_chunks limits chunks : zlen entries <= max_objects limits -> BTree.ok chunks -> (forall tag d, (tag, d) ∈ chunks <-> (tag, d) ∈ written_chunks) ->
  parse_chunks f limits 1 0 (zlen ns) chunks = Ok written_index.
Proof using Hent Hids Hcount Hcounts Hrows Hwide Hpacks Hns Hsorted.
  intros Hm Hok Hin. destruct counts_facts as (C1 & C2 & C3). destruct rows_facts as [R1 R2]. pose proof (zlen_nonneg entries) as E0.
  assert (forall tag d, (tag, d) ∈ written_chunks -> BTree.get tag chunks = Some d) as Hget by (intros tag d H; apply BTree.get_elem; [done|by apply Hin]).
  assert (forall tag, Forall (fun c => c.1 <> tag) written_chunks -> BTree.get tag chunks = None) as Hnone.
  { intros tag H. destruct (BTree.get tag chunks) as [d|] eqn:E; [|done]. apply BTree.get_elem in E; [|done]. apply Hin in E. rewrite Forall_forall in H. by destruct (H _ E). }
  assert (BTree.get LOFF chunks = if has then Some more else None) as El. { destruct has eqn:Eh; [apply Hget; unfold written_chunks; rewrite Eh; set_solver|]. apply Hnone. unfold written_chunks. rewrite Eh. by repeat constructor. }
  assert (BTree.get RIDX chunks = None) as Er by (apply Hnone; unfold written_chunks; destruct has; by repeat constructor). assert (BTree.get BTMP chunks = None) as Eb by (apply Hnone; unfold written_chunks; destruct has; by repeat constructor).
  unfold parse_chunks, required. rewrite (Hget PNAM (pad_names (terminated ns))) by (unfold written_chunks; set_solver). cbn [ok_or rbind]. rewrite parse_names_written by done. cbn [rbind].
  rewrite (Hget OIDF (totals 0 counts)) by (unfold written_chunks; set_solver). cbn [ok_or rbind]. assert (zlen (totals 0 counts) =? 1024 = true) as -> by (apply Z.eqb_eq; rewrite zlen_totals; unfold zlen; lia). cbn [negb].
  rewrite fanout_total by (done || lia). cbn [rbind]. rewrite C3. destruct (Z.ltb_spec (max_objects limits) (zlen entries)); [lia|].
  rewrite (Hget OIDL (concat (map raw_id entries))) by (unfold written_chunks; set_solver). cbn [ok_or rbind]. rewrite (Hget OOFF rows) by (unfold written_chunks; set_solver). cbn [ok_or rbind].
  assert (zlen (concat (map raw_id entries)) = zlen entries * digest_len f) as Ei. { rewrite (GraphEncode.zlen_concat_width _ (digest_len f)) by apply raw_widths. unfold zlen. by rewrite length_map. }
  assert (zlen entries * digest_len f <= usize_max) as Eu by (unfold u32_max in Hcount; unfold usize_max; destruct f; cbn [digest_len]; lia).
  assert (bool_decide (checked_mul (zlen entries) (digest_len f) = Some (zlen (concat (map raw_id entries)))) = true) as -> by (apply bool_decide_eq_true; rewrite Ei; by apply checked_mul_le).
  assert (bool_decide (checked_mul (zlen entries) 8 = Some (zlen rows)) = true) as -> by (apply bool_decide_eq_true; rewrite R1, (Z.mul_comm 8); apply checked_mul_le; unfold u32_max in Hcount; unfold usize_max; lia).
  cbn [negb orb]. rewrite El, Er, Eb. assert (match (if has then Some more else None) with Some l => negb (zlen l mod 8 =? 0) | None => false end = false) as ->.
  { destruct has; [|done]. rewrite R2, Z.mul_comm, Z.mod_mul by lia. done. }
  fold written_index. rewrite written_validates. done.
Qed.
End Written.

(** ** The whole file *)

Section File.
Context (sha1 sha256 : bytes -> bytes).
Context (Hsha1 : forall bs, bytes_ok (sha1 bs) /\ zlen (sha1 bs) = 20) (Hsha256 : forall bs, bytes_ok (sha256 bs) /\ zlen (sha256 bs) = 32).
Notation encode := (encode sha1 sha256).
Notation parse_with := (parse_with sha1 sha256).

Definition written_head (f : ObjectFormat) (ns : list bytes) (cs : list (bytes * bytes)) : bytes := (bstr "MIDX" ++ [1; hash_version f; wrap8 (zlen cs); 0]) ++ be_encode 4 (zlen ns).
Definition written_body (f : ObjectFormat) (ns : list bytes) (cs : list (bytes * bytes)) : bytes :=
  written_head f ns cs ++ concat (map GraphRoundtrip.entry (GraphRoundtrip.table_of cs (12 + (zlen cs + 1) * 12))) ++ concat (map snd cs).

Lemma sum_sizes_spec sizes a b : sum_sizes a sizes = Some b -> b = a + total sizes /\ (sizes = [] \/ b <= usize_max).
Proof using.
  unfold sum_sizes. revert a. induction sizes as [|c sizes IH]; intros a; cbn [foldl total foldr]; [intros [= <-]; split; [lia|by left]|]. cbn [mbind option_bind]. fold (total sizes). destruct (checked_add a c) as [d|] eqn:E.
  - apply checked_add_Some in E as [-> Hle]. intros [H1 H2]%IH. split; [lia|right]. destruct H2 as [-> |]; [cbn [total foldr] in H1; lia|done].
  - clear. intros H. exfalso. induction sizes as [|c' sizes IH]; [done|by apply IH].
Qed.

Lemma filter_wide entries : wide_offsets entries = true -> List.filter (fun e => 0x7fffffff <? entry_offset e) entries = List.filter (is_wide (wide_offsets entries)) entries.
Proof using. by intros ->. Qed.

Lemma encode_body f ns entries limit bs : Forall (entry_fits f (zlen ns)) entries -> encode f (zlen ns) (pad_names (terminated ns)) entries limit = Ok bs ->
  exists counts rows more, let cs := written_chunks ns entries counts rows more in
    count_first entries (replicate 256 0) = Ok counts /\ offset_rows (wide_offsets entries) entries [] = (rows, more) /\ zlen (List.filter (is_wide (wide_offsets entries)) entries) <= 2 ^ 31 /\
    bs = written_body f ns cs ++ id_bytes (checksum sha1 sha256 f (written_body f ns cs)) /\ 12 + (zlen cs + 1) * 12 + GraphRoundtrip.data_size cs + digest_len f <= Z.min limit usize_max.
Proof using.
  intros Hent. unfold MultiPack.encode. fold (wide_offsets entries). intros (ib & Hib & (ob & Hob & (lb & Hlb & (tot & Htot & H)%rbind_Ok)%rbind_Ok)%rbind_Ok)%rbind_Ok.
  apply ok_or_Ok, checked_mul_Some in Hib as [-> _]. apply ok_or_Ok, checked_mul_Some in Hob as [-> _]. apply ok_or_Ok in Hlb. apply ok_or_Ok, sum_sizes_spec in Htot as [Et Eu]. destruct Eu as [|Eu]; [done|]. destruct (Z.ltb_spec limit tot) as [|Elim]; [done|].
  destruct (chunk_table _ _) as [table stop] eqn:Ec. apply rbind_Ok in H as (counts & Hc & H). destruct (offset_rows _ _ _) as [rows more] eqn:Er. apply ok_inj in H. exists counts, rows, more. cbv zeta.
  pose proof (offset_rows_spec _ _ _ _ _ Er eq_refl) as (R1 & (m & Em & R2) & _). cbn [app] in Em. subst m.
  apply count_first_spec in Hc as Hcs; [|eapply Forall_impl; [exact Hent|by intros e [? _]]|by rewrite length_replicate|by apply Forall_replicate]. destruct Hcs as (C1 & _ & _).
  assert (zlen (concat (map raw_id entries)) = zlen entries * digest_len f) as Ei. { rewrite (GraphEncode.zlen_concat_width _ (digest_len f)) by (by eapply raw_widths). unfold zlen. by rewrite length_map. }
  assert (zlen (totals 0 counts) = 1024) as Ef by (rewrite zlen_totals; unfold zlen; lia).
  assert (zlen (List.filter (is_wide (wide_offsets entries)) entries) <= 2 ^ 31 /\ lb = zlen more) as [Hw ->].
  { destruct (wide_offsets entries) eqn:Ew.
    - apply bind_Some in Hlb as (n & [-> _]%checked_mul_Some & Hn). destruct (Z.leb_spec (zlen (List.filter (fun e => 0x7fffffff <? entry_offset e) entries)) 0x80000000) as [Hle|]; [|done]. injection Hn as <-. pose proof (filter_wide entries Ew) as Hfw. rewrite Ew in Hfw. rewrite <- Hfw, R2. split; [lia|]. rewrite Hfw. lia.
    - assert (List.filter (is_wide false) entries = []) as Hfw by (clear; induction entries; done). rewrite Hfw in *. split; [done|]. injection Hlb as <-. done. }
  assert (map (fun c => (c.1, zlen c.2)) (written_chunks ns entries counts rows more) = take (Z.to_nat (if wide_offsets entries then 5 else 4)) (zip [PNAM; OIDF; OIDL; OOFF; LOFF] [zlen (pad_names (terminated ns)); 1024; zlen entries * digest_len f; zlen entries * 8; zlen more])) as Ez.
  { unfold written_chunks. rewrite (Z.mul_comm _ 8), <- R1, <- Ei, <- Ef. by destruct (wide_offsets entries). }
  assert (zlen (written_chunks ns entries counts rows more) = if wide_offsets entries then 5 else 4) as En by (unfold written_chunks; by destruct (wide_offsets entries)).
  assert (wide_offsets entries = false -> more = []) as Hm0. { intros Ew. rewrite Ew in R2. assert (List.filter (is_wide false) entries = []) as Hfw by (clear; induction entries; done). rewrite Hfw in R2. by destruct more. }
  assert (concat (map snd (written_chunks ns entries counts rows more)) = pad_names (terminated ns) ++ totals 0 counts ++ concat (map raw_id entries) ++ rows ++ more) as Ed.
  { unfold written_chunks. destruct (wide_offsets entries); [cbn [map app snd concat]; by rewrite app_nil_r|]. rewrite Hm0 by done. done. }
  rewrite <- Ez in Ec. pose proof (chunk_table_of (written_chunks ns entries counts rows more) (12 + ((if wide_offsets entries then 5 else 4) + 1) * 12)) as Ht. rewrite Ec in Ht. cbv zeta in Ht. cbn [fst snd] in Ht.
  split_and!; [done..| |].
  - rewrite <- H. assert (forall b, b = written_body f ns (written_chunks ns entries counts rows more) -> b ++ id_bytes (checksum sha1 sha256 f b) = written_body f ns (written_chunks ns entries counts rows more) ++ id_bytes (checksum sha1 sha256 f (written_body f ns (written_chunks ns entries counts rows more)))) as -> by congruence; [done|].
    unfold written_body, written_head. rewrite Ed, En, <- Ht. rewrite <- !app_assoc. done.
  - unfold GraphRoundtrip.data_size. rewrite Ed, !zlen_app, En. cbn [total foldr] in Et. lia.
Qed.

Lemma written_tags ns entries counts rows more : let cs := written_chunks ns entries counts rows more in
  Forall (fun c => zlen c.1 = 4) cs /\ Forall (fun c => bytes_eqb c.1 [0; 0; 0; 0] = false) cs /\ NoDup (map fst cs) /\ 4 <= zlen cs <= 5.
Proof using.
  cbv zeta. unfold written_chunks. destruct (wide_offsets entries); cbn [app map fst]; (split_and!; [by repeat constructor|by repeat constructor| |done|done]); apply (bool_decide_unpack _); vm_compute; exact I.
Qed.

Lemma zlen_written_body f ns cs : Forall (fun c => zlen c.1 = 4) cs -> zlen (written_body f ns cs) = 12 + (zlen cs + 1) * 12 + GraphRoundtrip.data_size cs.
Proof using.
  intros Ht. unfold written_body. rewrite !zlen_app, GraphRoundtrip.zlen_entries by by apply GraphRoundtrip.table_of_tags. fold (GraphRoundtrip.data_size cs). assert (zlen (written_head f ns cs) = 12) as -> by done. unfold zlen at 1. rewrite GraphRoundtrip.length_table_of. unfold zlen. lia.
Qed.

Lemma parse_encoded f ns entries limit bs limits : Forall name_written ns -> Sorted name_lt ns -> zlen ns <= u32_max -> Forall (entry_fits f (zlen ns)) entries -> StronglySorted id_lt entries -> zlen entries <= u32_max ->
  encode f (zlen ns) (pad_names (terminated ns)) entries limit = Ok bs -> limit <= max_bytes limits -> zlen ns <= max_packs limits -> zlen entries <= max_objects limits ->
  exists rows more, parse_with bs f limits = Ok (written_index f ns entries rows more) /\ forall k e, entries !! k = Some e -> location (written_index f ns entries rows more) (Z.of_nat k) = Ok (place e).
Proof using Hsha1 Hsha256.
  intros Hns Hso Hpk Hent Hids Hcnt Henc Hb Hp Ho. apply encode_body in Henc as (counts & rows & more & Hc & Hr & Hw & Hbs & Hsize); [|done]. set (cs := written_chunks ns entries counts rows more) in *. exists rows, more. split.
  2: { intros k e Hk. pose proof (Forall_lookup_1 _ _ _ _ Hent Hk) as (_ & _ & E3 & E4). eapply location_written; [exact Hr|done|done| |done|done|lia|done]. apply offset_rows_spec in Hr as (-> & _); [|done]. unfold u32_max in Hcnt. unfold usize_max. lia. }
  destruct (written_tags ns entries counts rows more) as (T1 & T2 & T3 & T4). fold cs in T1, T2, T3, T4. assert (0 <= GraphRoundtrip.data_size cs) as D0 by apply zlen_nonneg. pose proof (digest_len_cases f) as Df.
  set (stop := 12 + (zlen cs + 1) * 12 + GraphRoundtrip.data_size cs) in *. assert (zlen (written_body f ns cs) = stop) as Eb by (by apply zlen_written_body). assert (zlen (id_bytes (checksum sha1 sha256 f (written_body f ns cs))) = digest_len f) as Ek by (destruct f; cbn; [apply Hsha1|apply Hsha256]).
  assert (zlen bs = stop + digest_len f) as Ez by (rewrite Hbs, zlen_app; lia). set (check := id_bytes (checksum sha1 sha256 f (written_body f ns cs))) in *.
  assert (bs = written_head f ns cs ++ concat (map GraphRoundtrip.entry (GraphRoundtrip.table_of cs (12 + (zlen cs + 1) * 12))) ++ concat (map snd cs) ++ check) as Hh by (rewrite Hbs; unfold written_body; by rewrite <- !app_assoc).
  assert (zget 4 bs = Some 1 /\ zget 5 bs = Some (hash_version f) /\ zget 6 bs = Some (zlen cs) /\ zget 7 bs = Some 0) as (Z4 & Z5 & Z6 & Z7).
  { rewrite Hh. split_and!; try done. transitivity (Some (wrap8 (zlen cs))); [done|]. f_equal. apply Z.mod_small. lia. }
  assert (slice 0 4 bs = Some (bstr "MIDX")) as Hm by (eapply (slice_between _ []); [rewrite Hh; unfold written_head; rewrite <- !app_assoc; reflexivity|done|done]).
  unfold MultiPack.parse_with. destruct (Z.ltb_spec (max_bytes limits) (zlen bs)); [lia|]. destruct (Z.ltb_spec (zlen bs) (12 + digest_len f)); [lia|]. rewrite Hm, bool_decide_eq_true_2 by done. cbn [negb orb]. rewrite Z4, Z5, Z6, Z7. cbn [ok_or rbind Z.eqb Pos.eqb orb negb]. rewrite Z.eqb_refl. cbn [negb].
  replace (zlen bs - digest_len f) with stop by lia. assert (take (Z.to_nat stop) bs = written_body f ns cs /\ drop (Z.to_nat stop) bs = check) as [-> ->]. { rewrite <- Eb. unfold zlen. rewrite Nat2Z.id, Hbs. split; [apply take_app_length|apply drop_app_length]. }
  fold check. rewrite bytes_eqb_refl. cbn [negb]. destruct (Z.ltb_spec stop (12 + (zlen cs + 1) * 12)); [lia|].
  destruct (chunk_rows_written bs (written_head f ns cs) (concat (map snd cs) ++ check) _ Hh) with (cs := cs) (off := 12 + (zlen cs + 1) * 12) (i := 0%nat) (previous := 12 + (zlen cs + 1) * 12) (chunks := @nil (bytes * bytes)) (stop := stop)
    (data := written_head f ns cs ++ concat (map GraphRoundtrip.entry (GraphRoundtrip.table_of cs (12 + (zlen cs + 1) * 12)))) (rest := check) as (chunks & Hch & Hok & Hin);
    [done|by apply GraphRoundtrip.table_of_tags|lia|done|rewrite Hh; by rewrite <- !app_assoc| |done|lia|done|done|constructor|done|].
  { rewrite zlen_app, GraphRoundtrip.zlen_entries by by apply GraphRoundtrip.table_of_tags. assert (zlen (written_head f ns cs) = 12) as -> by done. unfold zlen at 1. rewrite GraphRoundtrip.length_table_of. unfold zlen. lia. }
  change (Z.of_nat 0) with 0 in Hch. rewrite Z.add_0_l in Hch. replace (Z.to_nat (zlen cs + 1)) with (S (length cs)) by (unfold zlen; lia). rewrite Hch. cbn [rbind].
  change (word bs 8) with (read_be (Z.of_nat 4) bs 8). rewrite (read_written 4 bs 8 (zlen ns)); [|lia|change (Z.of_nat 4) with 4; lia|change (256 ^ Z.of_nat 4) with (2 ^ 32); unfold u32_max in Hpk; pose proof (zlen_nonneg ns); lia|].
  2: { eapply (slice_between _ (bstr "MIDX" ++ [1; hash_version f; wrap8 (zlen cs); 0])); [rewrite Hh; unfold written_head; rewrite <- !app_assoc; reflexivity|done|by rewrite zlen_be_encode]. }
  cbn [rbind]. destruct (Z.ltb_spec (max_packs limits) (zlen ns)); [lia|]. apply (parse_written_chunks f ns entries counts rows more); [done..|]. intros tag d. rewrite Hin. split; [by intros [?%not_elem_of_nil|]|by right].
Qed.
End File.

Lemma find_written f ns entries rows more : Forall (entry_fits f (zlen ns)) entries -> StronglySorted id_lt entries ->
  (forall k e, entries !! k = Some e -> location (written_index f ns entries rows more) (Z.of_nat k) = Ok (place e)) ->
  forall id, exists o, find (written_index f ns entries rows more) id = Some o /\ forall l, o = Some l <-> exists e, e ∈ entries /\ entry_id e = id /\ l = place e.
Proof.
  intros Hent Hids Hl id. destruct (find_located (written_index f ns entries rows more) (map raw_id entries) (map place entries)) with (id := id) as (o & Ho & Hio); [done|by eapply raw_widths|by eapply raw_ids_sorted|by rewrite !length_map| |].
  { intros k l (e & -> & He)%list_lookup_fmap_Some. by apply Hl. }
  exists o. split; [done|]. intros l. rewrite Hio. cbn [format written_index]. split.
  - intros [Hf (k & (r & l' & [= <- <-] & Hr & Hk)%lookup_zip_with_Some)%list_elem_of_lookup_1]. apply list_lookup_fmap_Some in Hr as (e & Er & He). apply list_lookup_fmap_Some in Hk as (e' & -> & He'). assert (e' = e) as -> by congruence.
    exists e. split_and!; [by eapply list_elem_of_lookup_2| |done]. pose proof (Forall_lookup_1 _ _ _ _ Hent He) as (_ & Ef & _). unfold raw_id in Er. destruct id, (entry_id e); cbn in *; congruence.
  - intros (e & (k & He)%list_elem_of_lookup_1 & <- & ->). pose proof (Forall_lookup_1 _ _ _ _ Hent He) as (_ & Ef & _). split; [done|]. apply list_elem_of_lookup. exists k. apply lookup_zip_with_Some. exists (raw_id e), (place e). rewrite !list_lookup_fmap, He. done.
Qed.
End MultiPackRoundtrip.
