(* ===== verification/MultiPackStore.v ===== *)
(** * Multi-pack indexes over a store

    The names of the packs, their ranks and the copies of their objects, and the index of
    a whole store: read back, it names the packs of the store and locates every object of
    them in the pack of the highest rank that has it. *)

From stdpp Require Import base list numbers strings sets sorting.
From Stdlib Require Import ZArith Lia.
From S2P Require Import Prelude Objects MultiPack MultiPackCorrect MultiPackSelect MultiPackRoundtrip.

Module MultiPackStore.
Import Objects MultiPack MultiPackCorrect MultiPackSelect MultiPackRoundtrip.

(** ** Names *)

Lemma utf8_app n a c b : (length a <= n)%nat -> 0 <= c < 128 -> utf8 (a ++ c :: b) = utf8 a && utf8 (c :: b).
Proof.
  assert (forall x y z, 0 <= z < 128 -> 128 <= x -> within x y z = false) as Hw by (intros x y z Hz Hx; unfold within; destruct (Z.leb_spec x z); [lia|done]).
  revert a. induction n as [|n IH]; intros a Hl Hc; [by destruct a; [|cbn in Hl; lia]|]. destruct a as [|a1 a]; [done|]. cbn [app utf8 length] in *. destruct (a1 <? 128); [apply IH; [lia|done]|]. unfold continuation.
  destruct a as [|a2 a]; cbn [app length] in *.
  { rewrite (Hw 128 191 c), (Hw 160 191 c), (Hw 128 159 c), (Hw 144 191 c), (Hw 128 143 c) by lia. destruct (within 194 223 a1); [done|]. destruct b as [|b1 b]; [done|].
    destruct (within 224 239 a1); [by destruct (a1 =? 224), (a1 =? 237)|]. destruct b as [|b2 b]; [done|]. destruct (a1 =? 240), (a1 =? 244); by rewrite ?andb_false_r. }
  destruct (within 194 223 a1); [rewrite IH by (done || lia); by rewrite andb_assoc|]. destruct a as [|a3 a]; cbn [app length] in *.
  { rewrite (Hw 128 191 c) by lia. destruct (within 224 239 a1); [by rewrite andb_false_r|]. destruct b as [|b1 b]; [done|]. by rewrite !andb_false_r. }
  destruct (within 224 239 a1); [rewrite IH by (done || lia); by rewrite !andb_assoc|]. destruct a as [|a4 a]; cbn [app length] in *.
  { rewrite (Hw 128 191 c) by lia. by rewrite !andb_false_r. }
  rewrite IH by (done || lia). by rewrite !andb_assoc.
Qed.

(** The stems of names that Git gives: none of NUL, a dot, a slash or a backslash. *)
Definition plain_byte (b : Z) : bool := negb ((b =? 0) || (b =? 46) || (b =? 47) || (b =? 92)).
Definition plain_file (file : bytes) : Prop := forall stem, file = stem ++ bstr ".pack" -> forallb plain_byte stem = true.

Lemma index_name_Ok file name : index_name file = Ok name <-> exists stem, file = stem ++ bstr ".pack" /\ name = stem ++ bstr ".idx" /\ utf8 file = true /\ (starts_with (bstr "pack-") stem || starts_with (bstr "loose-") stem) = true.
Proof.
  unfold index_name. destruct (utf8 file) eqn:Eu; cbn [negb]; [|split; [done|by intros (? & _ & _ & ? & _)]]. destruct (strip_suffix (bstr ".pack") file) as [stem|] eqn:Es.
  - apply strip_suffix_Some in Es as ->. destruct (_ || _) eqn:Ep; (split; [|intros (s' & E & -> & _ & Hp)]); [intros <-%ok_inj; by exists stem| |done|]; apply app_inv_tail in E as <-; [done|congruence].
  - split; [done|]. intros (stem & E & _). apply strip_suffix_Some in E. congruence.
Qed.

Lemma starts_with_longer p a b : starts_with p a = true -> starts_with p (a ++ b) = true.
Proof. rewrite !starts_with_true. intros (r & ->). exists (r ++ b). by rewrite <- app_assoc. Qed.

Lemma index_name_written file name : plain_file file -> index_name file = Ok name -> name_written name.
Proof.
  intros Hp (stem & -> & -> & Hu & Hs)%index_name_Ok. specialize (Hp stem eq_refl). change (bstr ".pack") with (46 :: bstr "pack") in Hu. rewrite (utf8_app (length stem)) in Hu by (done || lia). apply andb_true_iff in Hu as [Hu _].
  assert (Forall (fun b => plain_byte b = true) stem) as Hq by (apply Forall_forall; intros b Hb; rewrite forallb_forall in Hp; by apply Hp, list_elem_of_In). clear Hp. rename Hq into Hp. split_and!.
  - unfold name_ok. apply andb_true_iff. split; [apply andb_true_iff; split|].
    + apply orb_true_iff in Hs as [Hs|Hs]; apply orb_true_iff; [left|right]; by apply starts_with_longer.
    + apply ends_with_true. by exists stem.
    + apply negb_true_iff. rewrite existsb_app. change (existsb _ (bstr ".idx")) with false. rewrite orb_false_r. apply not_true_iff_false. intros (b & Hb%list_elem_of_In & Eb)%existsb_exists. rewrite Forall_forall in Hp. specialize (Hp b Hb). unfold plain_byte in Hp.
      by apply orb_true_iff in Eb as [E%Z.eqb_eq|E%Z.eqb_eq]; rewrite E in Hp.
  - change (bstr ".idx") with (46 :: bstr "idx"). rewrite (utf8_app (length stem)) by (done || lia). by rewrite Hu.
  - apply Forall_app. split; [|by repeat constructor]. eapply Forall_impl; [exact Hp|]. intros b Hb. unfold plain_byte in Hb. by destruct (b =? 0).
Qed.

(** The order of the names is that of the files. *)
Lemma cmp_suffix a b t u : forallb plain_byte a = true -> forallb plain_byte b = true -> bytes_cmp (a ++ 46 :: t) (b ++ 46 :: t) = bytes_cmp (a ++ 46 :: u) (b ++ 46 :: u).
Proof.
  revert b. induction a as [|x a IH]; intros [|y b] Ha Hb; cbn [app bytes_cmp forallb] in *.
  - by rewrite !bytes_cmp_refl.
  - apply andb_true_iff in Hb as [Hy _]. destruct (46 ?= y) eqn:E; [|done..]. apply Z.compare_eq_iff in E as <-. done.
  - apply andb_true_iff in Ha as [Hx _]. destruct (x ?= 46) eqn:E; [|done..]. apply Z.compare_eq_iff in E as ->. done.
  - apply andb_true_iff in Ha as [_ Ha]. apply andb_true_iff in Hb as [_ Hb]. destruct (x ?= y); [by apply IH|done..].
Qed.

Lemma index_name_lt fa fb na nb : plain_file fa -> plain_file fb -> index_name fa = Ok na -> index_name fb = Ok nb -> bytes_cmp fa fb = Lt -> bytes_cmp na nb = Lt.
Proof.
  intros Ha Hb (a & -> & -> & _)%index_name_Ok (b & -> & -> & _)%index_name_Ok H. rewrite <- H. symmetry. exact (cmp_suffix a b (bstr "pack") (bstr "idx") (Ha a eq_refl) (Hb b eq_refl)).
Qed.

(** ** The packs of the store *)

Definition rank (o : WriteOptions) (position : Z) (p : Source) : Rank := (bool_decide (preferred_pack o = Some (s_checksum p)), default 0 (s_modified p), usize_max - position).
Definition named (p : Source) (name : bytes) : Prop := index_name (s_file p) = Ok name.
Definition objects_of (packs : list Source) : Z := total (map (fun p => zlen (s_objects p)) packs).

Lemma objects_cons p packs : objects_of (p :: packs) = zlen (s_objects p) + objects_of packs.
Proof. done. Qed.

Lemma gather_spec o limits packs position count names ranks count' names' ranks' : 0 <= position -> gather o limits packs position count names ranks = Ok (count', names', ranks') ->
  exists ns, names' = names ++ terminated ns /\ Forall2 named packs ns /\ count' = count + objects_of packs /\ (packs = [] \/ count' <= Z.min (write_max_objects limits) u32_max) /\
    length ranks' = (length ranks + length packs)%nat /\ (forall i, (i < length ranks)%nat -> ranks' !! i = ranks !! i) /\ forall i p, packs !! i = Some p -> ranks' !! (length ranks + i)%nat = Some (rank o (position + Z.of_nat i) p).
Proof.
  revert position count names ranks. induction packs as [|p packs IH]; intros position count names ranks H0; cbn [gather].
  { intros [[<- <-]%pair_equal_spec <-]%ok_inj%pair_equal_spec. exists []. split_and!; [by rewrite app_nil_r|constructor|cbn; unfold objects_of; cbn; lia|by left|cbn; lia|done|done]. }
  intros (c & [-> _]%ok_or_Ok%checked_add_Some & H)%rbind_Ok. destruct (_ || _) eqn:El; [done|]. apply orb_false_iff in El as [L1%Z.ltb_ge L2%Z.ltb_ge]. destruct (negb _); [done|]. destruct (negb _); [done|]. apply rbind_Ok in H as (name & Hn & H). destruct (match checked_add _ _ with Some _ => _ | None => _ end); [done|].
  apply rbind_Ok in H as (m & Hm & H). apply ok_or_Ok in Hm. apply IH in H as (ns & -> & F2 & -> & Hc & Hl & Hold & Hnew); [|lia]. rewrite length_app in *. cbn [length] in *. exists (name :: ns). rewrite objects_cons. split_and!.
  - unfold terminated. cbn [map concat]. by rewrite <- !app_assoc.
  - by constructor.
  - lia.
  - right. destruct Hc as [-> |Hc]; [change (objects_of []) with 0; lia|lia].
  - lia.
  - intros i Hi. rewrite Hold by lia. by rewrite lookup_app_l.
  - intros [|i] q Hq; cbn in Hq; [injection Hq as <-; rewrite Hold by lia; rewrite lookup_app_r by lia; replace (length ranks + 0 - length ranks)%nat with 0%nat by lia; replace (position + Z.of_nat 0) with position by lia; cbn; unfold rank; by rewrite Hm|].
    specialize (Hnew i q Hq). replace (length ranks + S i)%nat with (length ranks + 1 + i)%nat by lia. rewrite Hnew. by replace (position + 1 + Z.of_nat i) with (position + Z.of_nat (S i)) by lia.
Qed.

Lemma copies_elem ordinal packs e : e ∈ copies ordinal packs <-> exists (i : nat) p, packs !! i = Some p /\ entry_pack e = ordinal + Z.of_nat i /\ (entry_id e, entry_offset e) ∈ s_objects p.
Proof.
  revert ordinal. induction packs as [|p packs IH]; intros ordinal; cbn [copies]; [split; [by intros ?%not_elem_of_nil|by intros (i & q & H & _)]|]. rewrite elem_of_app, IH. split.
  - intros [([id off] & -> & Hin)%list_elem_of_fmap|(i & q & Hq & E & Hin)]; [exists 0%nat, p; split_and!; [done|cbn; lia|done]|]. exists (S i), q. split_and!; [done|lia|done].
  - intros ([|i] & q & Hq & E & Hin); cbn in Hq; [injection Hq as ->; left|right; exists i, q; split_and!; [done|lia|done]]. apply list_elem_of_fmap. exists (entry_id e, entry_offset e). split; [|done]. cbn [fst snd]. replace ordinal with (entry_pack e) by (cbn in E; lia). by destruct e as [[]].
Qed.

Lemma zlen_copies ordinal packs : zlen (copies ordinal packs) = objects_of packs.
Proof. revert ordinal. induction packs as [|p packs IH]; intros ordinal; cbn [copies]; [done|]. rewrite objects_cons, zlen_app, IH. unfold zlen. by rewrite length_map. Qed.

Lemma zlen_select ranks entries : zlen (select ranks entries) <= zlen entries.
Proof.
  assert (forall p l, (length (dedup_after p l) <= length l)%nat) as Hd. { intros p l. revert p. induction l as [|a l IH]; intros p; cbn [dedup_after length]; [lia|]. destruct (bool_decide _); [specialize (IH p)|specialize (IH (entry_id a)); cbn [length]]; lia. }
  unfold select. assert (zlen entries = zlen (sort_by (entry_cmp ranks) entries)) as -> by (unfold zlen; by rewrite (Permutation_length (sort_by_perm (entry_cmp ranks) entries))).
  destruct (sort_by _ entries) as [|a l]; cbn [dedup_entries]; [done|]. unfold zlen. cbn [length]. specialize (Hd (entry_id a) l). lia.
Qed.

Lemma sorted_names packs ns : Forall (fun p => plain_file (s_file p)) packs -> NoDup (map s_file packs) -> Sorted (cmp_le file_cmp) packs -> Forall2 named packs ns -> Sorted name_lt ns.
Proof.
  intros Hp Hn Hs Hf. revert Hp Hn Hs. induction Hf as [|p n packs ns Hpn Hf IH]; intros Hp Hn Hs; [constructor|]. apply Forall_cons in Hp as [Hp Hps]. cbn [map] in Hn. apply NoDup_cons in Hn as [Hx Hn]. inversion Hs as [|? ? Hs' Hd]; subst. constructor; [by apply IH|].
  destruct Hf as [|q m packs ns Hqm _]; constructor. apply Forall_cons in Hps as [Hq _]. inversion Hd as [|? ? Hle]; subst. apply (index_name_lt (s_file p) (s_file q)); [done..|]. unfold cmp_le, file_cmp in Hle. destruct (bytes_cmp (s_file p) (s_file q)) eqn:E; [|done|done].
  apply bytes_cmp_eq in E. destruct Hx. cbn [map]. rewrite E. left.
Qed.

(** ** The index of a store *)

Definition included (include : bytes -> bool) (primary : list Source) : list Source := sort_by file_cmp (List.filter (fun p => include (s_file p)) primary).
Definition object_fits (f : ObjectFormat) (e : ObjectId * Z) : Prop := id_ok e.1 /\ id_format e.1 = f /\ 12 <= e.2 <= usize_max.
(** The packs of a store: names of the shape Git gives, each once, and objects of the format. *)
Record store_ok (f : ObjectFormat) (primary : list Source) : Prop := {
  st_files : Forall (fun p => plain_file (s_file p)) primary;
  st_distinct : NoDup (map s_file primary);
  st_objects : Forall (fun p => Forall (object_fits f) (s_objects p)) primary
}.

(** What a lookup in the index of some packs answers. *)
Definition answer (o : WriteOptions) (packs : list Source) (id : ObjectId) (r : option Location) : Prop :=
  match r with
  | None => forall p, p ∈ packs -> id ∉ map fst (s_objects p)
  | Some l => exists (i : nat) p, pack l = Z.of_nat i /\ packs !! i = Some p /\ (id, offset l) ∈ s_objects p /\
      forall j q, packs !! j = Some q -> id ∈ map fst (s_objects q) -> rank_cmp (rank o (Z.of_nat j) q) (rank o (Z.of_nat i) p) <> Gt
  end.

Lemma included_facts f include primary : store_ok f primary -> let packs := included include primary in
  store_ok f packs /\ Sorted (cmp_le file_cmp) packs.
Proof.
  intros [H1 H2 H3]. cbv zeta. assert (included include primary ≡ₚ List.filter (fun p => include (s_file p)) primary) as Hp by apply sort_by_perm. assert (forall p, p ∈ included include primary -> p ∈ primary) as Hin by (intros p; rewrite Hp, list_elem_of_In; by intros [? _]%filter_In; apply list_elem_of_In).
  split; [|apply sort_by_Sorted; intros a b; apply bytes_cmp_gt_lt]. split.
  - apply Forall_forall. intros p Hi. rewrite Forall_forall in H1. by apply H1, Hin.
  - assert (map s_file (included include primary) ≡ₚ map s_file (List.filter (fun p => include (s_file p)) primary)) as -> by by apply fmap_Permutation. clear Hp Hin H1 H3. induction primary as [|p primary IH]; [constructor|]. cbn [map] in H2. apply NoDup_cons in H2 as [Hx H2]. cbn [List.filter]. destruct (include (s_file p)); [|by apply IH]. cbn [map]. constructor; [|by apply IH].
    intros (q & E & Hq)%list_elem_of_fmap. apply Hx, list_elem_of_fmap. exists q. split; [done|]. apply list_elem_of_In in Hq. apply filter_In in Hq as [Hq _]. by apply list_elem_of_In.
  - apply Forall_forall. intros p Hi. rewrite Forall_forall in H3. by apply H3, Hin.
Qed.

Lemma copies_fit f (ns : list bytes) packs ranks : store_ok f packs -> zlen ns = zlen packs -> Forall (entry_fits f (zlen ns)) (select ranks (copies 0 packs)).
Proof.
  intros [_ _ H] Hn. apply Forall_forall. intros e He. destruct (select_spec ranks (copies 0 packs)) as [Hsub _]. apply Hsub, copies_elem in He as (i & p & Hi & E & Hin). pose proof (Forall_lookup_1 _ _ _ _ H Hi) as Hp. rewrite Forall_forall in Hp. destruct (Hp _ Hin) as (F1 & F2 & F3). apply lookup_lt_Some in Hi.
  split_and!; [done..|lia|unfold zlen in *; lia|cbn in F3; lia|cbn in F3; lia].
Qed.

Lemma answer_select o packs (ranks : list Rank) id r : (forall i p, packs !! i = Some p -> ranks !! i = Some (rank o (Z.of_nat i) p)) ->
  (forall l, r = Some l <-> exists e, e ∈ select ranks (copies 0 packs) /\ entry_id e = id /\ l = place e) -> answer o packs id r.
Proof.
  intros Hr H. destruct (select_spec ranks (copies 0 packs)) as (Hsub & _ & Hall). assert (forall i p, packs !! i = Some p -> id ∈ map fst (s_objects p) -> exists e, e ∈ copies 0 packs /\ entry_id e = id /\ entry_pack e = Z.of_nat i) as Hcopy.
  { intros i p Hp ([id' off] & E & Hin)%list_elem_of_fmap. cbn in E. subst id'. exists (id, Z.of_nat i, off). split_and!; [|done..]. apply copies_elem. exists i, p. split_and!; [done|cbn; lia|done]. }
  unfold answer. destruct r as [l|].
  - destruct (H l) as [H1 _]. destruct (H1 eq_refl) as (e & He & <- & ->). apply Hsub in He as Hc. apply copies_elem in Hc as (i & p & Hp & Ep & Hin). rewrite Z.add_0_l in Ep. exists i, p. split_and!; [done..|]. intros j q Hq Hj. destruct (Hcopy j q Hq Hj) as (e' & He' & Ei & Ej).
    pose proof (select_best ranks _ e e' He He' Ei) as Hb. unfold rank_of in Hb. rewrite Ep, Ej, !Nat2Z.id in Hb. pose proof (Hr i p Hp) as Ri. pose proof (Hr j q Hq) as Rj. unfold Rank in *.
    rewrite Ri, Rj in Hb. exact Hb.
  - intros p (i & Hp)%list_elem_of_lookup_1 Hid. destruct (Hcopy i p Hp Hid) as (e & He & Ei & _). destruct (Hall e He) as (b & Hb & Eb & _). destruct (H (place b)) as [_ H2]. assert (None = Some (place b)) as Hx; [|done]. apply H2. exists b. split_and!; [done|congruence|done].
Qed.

Section Store.
Context (sha1 sha256 : bytes -> bytes).

(** C27: the index of a store reads back: when the packs have names of the shape Git gives
    and the encoder returns bytes, the parser accepts them under limits that are no lower,
    the index names the index file of every included pack, in the order of the files, and a
    lookup of any identity returns the place of a copy whose pack has the highest rank
    (preferred, then newest, then first) among the packs that have the object, or nothing
    when no included pack has it. *)
Theorem midx_store_roundtrip f o limits include primary reader bs :
  (forall d, bytes_ok (sha1 d) /\ zlen (sha1 d) = 20) -> (forall d, bytes_ok (sha256 d) /\ zlen (sha256 d) = 32) -> store_ok f primary ->
  write_max_bytes limits <= max_bytes reader -> write_max_packs limits <= max_packs reader -> write_max_objects limits <= max_objects reader ->
  encode_selected sha1 sha256 f o limits include primary = Ok bs ->
  exists x, parse_with sha1 sha256 bs f reader = Ok x /\ Forall2 named (included include primary) (names x) /\
    forall id, exists r, find x id = Some r /\ answer o (included include primary) id r.
Proof using.
  intros H1 H256 Hst Lb Lp Lo. unfold encode_selected. fold (included include primary). destruct (included_facts f include primary Hst) as [Hpk Hsort]. set (packs := included include primary) in *. destruct (_ || _) eqn:El; [done|]. apply orb_false_iff in El as [L1%Z.ltb_ge L2%Z.ltb_ge].
  intros (_ & _ & ([[count raw] ranks] & Hg & H)%rbind_Ok)%rbind_Ok. destruct (Z.eqb_spec count 0) as [|Hcz]; [done|]. destruct (write_max_bytes limits <? _); [done|]. apply rbind_Ok in H as (out & Henc & H). destruct (existsb _ packs); [done|]. apply ok_inj in H as ->.
  apply gather_spec in Hg as (ns & -> & F2 & -> & Hc & _ & _ & Hrk); [|lia]. cbn [app length Nat.add] in *. rewrite Z.add_0_l in *. destruct Hc as [E|Hc]; [by rewrite E in Hcz|].
  assert (zlen ns = zlen packs) as Hn by (unfold zlen; by rewrite (Forall2_length _ _ _ F2)). rewrite <- Hn in Henc, L1, L2. pose proof (zlen_select ranks (copies 0 packs)) as Hsel. rewrite zlen_copies in Hsel. destruct (select_spec ranks (copies 0 packs)) as (_ & Hasc & _).
  destruct (parse_encoded sha1 sha256 H1 H256 f ns (select ranks (copies 0 packs)) (write_max_bytes limits) bs reader) as (rows & more & Hparse & Hloc); try done; try lia.
  - destruct Hpk as [Hfiles _ _]. clear -F2 Hfiles. revert Hfiles. induction F2 as [|p n packs ns Hpn _ IH]; intros Hf; [constructor|]. apply Forall_cons in Hf as [Hp Hf]. constructor; [by eapply index_name_written|by apply IH].
  - destruct Hpk as [Hfiles Hdis _]. by eapply sorted_names.
  - by apply copies_fit.
  - exists (written_index f ns (select ranks (copies 0 packs)) rows more). split_and!; [done..|]. intros id. destruct (find_written f ns _ rows more (copies_fit f ns packs ranks Hpk Hn) Hasc Hloc id) as (r & Hr & Hi). exists r. split; [done|]. by apply (answer_select o packs ranks).
Qed.
End Store.

(** Two packs that share an object, the second preferred. *)
Definition demo_id (b : Z) : ObjectId := Sha1 (replicate 20 b).
Definition demo_sha (_ : bytes) : bytes := replicate 20 7.
Definition demo_sha256 (_ : bytes) : bytes := replicate 32 7.
Definition demo_pack (file : string) (sum : Z) (objects : list (ObjectId * Z)) : Source :=
  {| s_file := bstr file; s_checksum := demo_id sum; s_objects := objects; s_verified := true; s_unchanged := true; s_unchanged_after := true; s_modified := Some 5 |}.
Definition demo_packs : list Source := [demo_pack "pack-b.pack" 1 [(demo_id 3, 12); (demo_id 4, 2 ^ 33)]; demo_pack "pack-a.pack" 2 [(demo_id 3, 40)]].
Definition demo_options : WriteOptions := {| preferred_pack := Some (demo_id 1) |}.
Definition demo_bytes : bytes := match encode_multi_pack_index demo_sha demo_sha256 FSha1 demo_options demo_packs with Ok bs => bs | Err _ => [] end.

Lemma plain_demo stem : forallb plain_byte stem = true -> plain_file (stem ++ bstr ".pack").
Proof. intros H s E. by apply app_inv_tail in E as <-. Qed.
Lemma demo_store_ok : store_ok FSha1 demo_packs.
Proof.
  split.
  - repeat constructor; [apply (plain_demo (bstr "pack-b"))|apply (plain_demo (bstr "pack-a"))]; vm_compute; reflexivity.
  - apply (bool_decide_unpack _). vm_compute. exact I.
  - repeat (constructor; [repeat (constructor; [split_and!; try (vm_compute; intuition congruence); apply (bool_decide_unpack _); vm_compute; exact I|]); constructor|]). constructor.
Qed.

Lemma midx_store_roundtrip_witness : exists x, parse_with demo_sha demo_sha256 demo_bytes FSha1 default_limits = Ok x /\ Forall2 named (included (fun _ => true) demo_packs) (names x) /\
  forall id, exists r, find x id = Some r /\ answer demo_options (included (fun _ => true) demo_packs) id r.
Proof.
  apply (midx_store_roundtrip demo_sha demo_sha256 FSha1 demo_options default_write_limits (fun _ => true) demo_packs default_limits demo_bytes); try (cbn; lia); [intros d; split; [apply (bool_decide_unpack _); vm_compute; exact I|reflexivity]..|exact demo_store_ok|vm_compute; reflexivity].
Defined.

(** The shape of the names is needed: the files are ordered with their suffix [.pack] and
    the names are written with [.idx], so a dot inside a stem can reverse them; the bytes
    the encoder returns for such a store are refused by the parser. *)
Theorem dotted_names_refused : exists primary bs,
  encode_multi_pack_index demo_sha demo_sha256 FSha1 {| preferred_pack := None |} primary = Ok bs /\ parse demo_sha demo_sha256 bs FSha1 = Err (Malformed "pack name order").
Proof.
  exists [demo_pack "pack-a.pack" 1 [(demo_id 3, 12)]; demo_pack "pack-a.k.pack" 2 [(demo_id 4, 12)]]. eexists. split.
  - vm_compute. reflexivity.
  - vm_compute. reflexivity.
Qed.
End MultiPackStore.
