(* ===== verification/Config.v ===== *)
(** * Configuration files ([src/src/config/parse.rs], [values.rs] and [document.rs])

    The parser with its layout of byte ranges, the queries of a parsed configuration, the
    typed values, and the edits of a document that keeps its bytes. *)

From stdpp Require Import base list numbers strings sets.
From Stdlib Require Import ZArith Lia.
From S2P Require Import Prelude MultiPack.

Module Config.

(** The error of the parser; running out of fuel and a range out of bounds are apart. *)
Inductive ConfigError := Syntax (at_line : Z) (reason : string) | OutOfFuel | Panicked.

Record SectionName := { n_section : bytes; n_subsection : option bytes }.
Record SectionOccurrence := { o_name : SectionName; o_start : Z; o_entries : list Z }.
Record Entry := { e_line : Z; e_section : bytes; e_subsection : option bytes; e_name : bytes; e_value : option bytes }.
Record Config := { entries : list Entry; sections : list SectionName; occurrences : list SectionOccurrence }.

(** A range [start..end] of the bytes. *)
Definition Range : Type := Z * Z.
Record EntrySpan := { es_range : Range; es_value : Range }.
Record SectionSpan := { ss_range : Range; ss_section : bytes; ss_subsection : option bytes }.
Record Layout := { l_entries : list EntrySpan; l_sections : list SectionSpan }.

(** ** The parser *)

(** The bytes from the position on, the position, the line and the end of the last value. *)
Record Parser := { rest : bytes; pos : Z; line : Z; value_end : Z }.

(** A carriage return before a line feed is taken with it. *)
Definition crlf (r : bytes) : bool := match r with a :: b :: _ => (a =? 13) && (b =? 10) | _ => false end.
Definition peek (p : Parser) : option Z :=
  match rest p with
  | [] => None
  | b :: _ => if crlf (rest p) then Some 10 else Some b
  end.
(** [Parser::take]: the byte and the parser after it. *)
Definition next (p : Parser) : option (Z * Parser) :=
  match rest p with
  | [] => None
  | b :: r =>
      if crlf (rest p) then Some (10, {| rest := drop 2 (rest p); pos := pos p + 2; line := line p + 1; value_end := value_end p |})
      else Some (b, {| rest := r; pos := pos p + 1; line := if b =? 10 then line p + 1 else line p; value_end := value_end p |})
  end.
Definition error (p : Parser) (reason : string) : ConfigError := Syntax (line p) reason.

(** The bytes taken while [f] holds, a class without line ends. *)
Fixpoint span (f : Z -> bool) (r : bytes) : bytes * bytes :=
  match r with
  | b :: r' => if f b then let '(a, t) := span f r' in (b :: a, t) else ([], r)
  | [] => ([], [])
  end.
Definition take_while (f : Z -> bool) (p : Parser) : bytes * Parser :=
  let '(a, t) := span f (rest p) in (a, {| rest := t; pos := pos p + zlen a; line := line p; value_end := value_end p |}).

Definition blank (b : Z) : bool := (b =? 32) || (b =? 9).
Definition alphanumeric (b : Z) : bool := is_alpha b || is_digit b.
Definition name_byte (b : Z) : bool := alphanumeric b || (b =? 45).

Definition space (p : Parser) : Parser := (take_while blank p).2.
Fixpoint comment_loop (r : bytes) (n : Z) : bytes * Z :=
  match r with
  | [] => ([], n)
  | b :: r' => if (b =? 10) || crlf r then (r, n) else comment_loop r' (n + 1)
  end.
Definition comment (p : Parser) : Parser :=
  let '(r, n) := comment_loop (rest p) (pos p) in {| rest := r; pos := n; line := line p; value_end := value_end p |}.

Definition name (variable : bool) (p : Parser) : result ConfigError (bytes * Parser) :=
  if variable && negb (match peek p with Some b => is_alpha b | None => false end) then Err (error p "invalid variable name")
  else
    let '(taken, p') := take_while name_byte p in
    match taken with [] => Err (error p' "empty name") | _ => Ok (taken, p') end.

Definition ended (p : Parser) : Parser := {| rest := rest p; pos := pos p; line := line p; value_end := pos p |}.
Definition escape (b : Z) : option Z :=
  if b =? 110 then Some 10 else if b =? 116 then Some 9 else if b =? 98 then Some 8 else if b =? 92 then Some 92 else if b =? 34 then Some 34 else None.

(** The loop of [Parser::value]. *)
Fixpoint value_loop (fuel : nat) (p : Parser) (value : bytes) (quoted : bool) (keep : nat) : result ConfigError (bytes * Parser) :=
  match fuel with
  | O => Err OutOfFuel
  | S fuel =>
      match next p with
      | None => if quoted then Err (error p "unterminated quote") else Ok (take keep value, p)
      | Some (b, p) =>
          if b =? 0 then Err (error p "NUL in value")
          else if b =? 10 then if quoted then Err (error p "unterminated quote") else Ok (take keep value, p)
          else if b =? 34 then value_loop fuel (ended p) value (negb quoted) (length value)
          else if ((b =? 35) || (b =? 59)) && negb quoted then Ok (take keep value, comment p)
          else if b =? 92 then
            match next p with
            | None => Err (error p "invalid escape")
            | Some (e, p) =>
                if e =? 10 then value_loop fuel (ended p) value quoted (length value)
                else
                  match escape e with
                  | Some c => value_loop fuel (ended p) (value ++ [c]) quoted (length value + 1)
                  | None => Err (error p "invalid escape")
                  end
            end
          else if blank b && negb quoted && bool_decide (value = []) then value_loop fuel p value quoted keep
          else if quoted || negb (blank b) then value_loop fuel (ended p) (value ++ [b]) quoted (length value + 1)
          else value_loop fuel p (value ++ [b]) quoted keep
      end
  end.
Definition value (p : Parser) : result ConfigError (bytes * Parser) :=
  let p := space p in value_loop (S (length (rest p))) (ended p) [] false 0.

(** The loop over a quoted subsection. *)
Fixpoint subsection_loop (fuel : nat) (p : Parser) (value : bytes) : result ConfigError (bytes * Parser) :=
  match fuel with
  | O => Err OutOfFuel
  | S fuel =>
      match next p with
      | None => Err (error p "unterminated subsection")
      | Some (b, p) =>
          if b =? 34 then Ok (value, p)
          else if b =? 92 then
            match next p with
            | None => Err (error p "invalid subsection escape")
            | Some (e, p) => if (e =? 10) || (e =? 0) then Err (error p "invalid subsection escape") else subsection_loop fuel p (value ++ [e])
            end
          else if (b =? 10) || (b =? 0) then Err (error p "unterminated subsection")
          else subsection_loop fuel p (value ++ [b])
      end
  end.

(** ** The loop over a file *)

Record State := { parser : Parser; found : Config; layout : Layout; section : bytes; subsection : option bytes }.

(** A header, after its bracket. *)
Definition parse_header (p : Parser) : result ConfigError (SectionName * Parser) :=
  let? (section, p) := name false p in
  let '(subsection, p) :=
    if bool_decide (peek p = Some 46)
    then match next p with
         | Some (_, p) => let '(taken, p) := take_while (fun b => alphanumeric b || (b =? 45) || (b =? 46)) p in (Some (map to_lower taken), p)
         | None => (None, p)
         end
    else (None, p) in
  let separated := match peek p with Some b => blank b | None => false end in
  let p := space p in
  let? (subsection, p) :=
    if bool_decide (peek p = Some 34) then
      if negb separated then Err (error p "subsection requires whitespace")
      else
        match next p with
        | Some (_, p) => let? (v, p) := subsection_loop (S (length (rest p))) p [] in Ok (Some v, space p)
        | None => Ok (subsection, p)
        end
    else Ok (subsection, p) in
  match next p with
  | Some (b, p) => if b =? 93 then Ok ({| n_section := section; n_subsection := subsection |}, p) else Err (error p "expected ]")
  | None => Err (error p "expected ]")
  end.

(** An assignment: its name, its value, the start of the value and the end. *)
Definition parse_assignment (p : Parser) : result ConfigError (bytes * option bytes * Z * Z * Parser) :=
  let? (n, p) := name true p in
  let name_end := pos p in
  let p := space p in
  match peek p with
  | None => Ok (n, None, name_end, name_end, p)
  | Some b =>
      if b =? 61 then
        match next p with
        | Some (_, p) =>
            let p := space p in
            let value_start := pos p in
            let? (v, p) := value p in
            Ok (n, Some v, value_start, value_end p, p)
        | None => Ok (n, None, name_end, name_end, p)
        end
      else if (b =? 10) || (b =? 35) || (b =? 59) then Ok (n, None, name_end, name_end, p)
      else Err (error p "expected = or end of variable")
  end.

Definition add_section (retain : bool) (offset start : Z) (st : State) (n : SectionName) (p : Parser) : State :=
  {| parser := p;
     found := {| entries := entries (found st); sections := sections (found st) ++ [n];
                 occurrences := occurrences (found st) ++ [{| o_name := n; o_start := zlen (entries (found st)); o_entries := [] |}] |};
     layout := if retain then {| l_entries := l_entries (layout st); l_sections := l_sections (layout st) ++ [{| ss_range := (start + offset, pos p + offset); ss_section := n_section n; ss_subsection := n_subsection n |}] |} else layout st;
     section := n_section n; subsection := n_subsection n |}.

(** [occurrences.last_mut()]. *)
Definition member (o : SectionOccurrence) (i : Z) : SectionOccurrence := {| o_name := o_name o; o_start := o_start o; o_entries := o_entries o ++ [i] |}.
Definition add_member (l : list SectionOccurrence) (i : Z) : option (list SectionOccurrence) :=
  o ← last l; Some (take (length l - 1) l ++ [member o i]).

Definition add_entry (retain : bool) (offset start at_line : Z) (st : State) (a : bytes * option bytes * Z * Z * Parser) : result ConfigError State :=
  let '(n, v, value_start, stop, p) := a in
  let? os := ok_or (add_member (occurrences (found st)) (zlen (entries (found st)))) (error p "variable outside section") in
  Ok {| parser := p;
        found := {| entries := entries (found st) ++ [{| e_line := at_line; e_section := section st; e_subsection := subsection st; e_name := n; e_value := v |}];
                    sections := sections (found st); occurrences := os |};
        layout := if retain then {| l_entries := l_entries (layout st) ++ [{| es_range := (start + offset, stop + offset); es_value := (value_start + offset, stop + offset) |}]; l_sections := l_sections (layout st) |} else layout st;
        section := section st; subsection := subsection st |}.

Definition at_parser (st : State) (p : Parser) : State := {| parser := p; found := found st; layout := layout st; section := section st; subsection := subsection st |}.

(** The body of the loop; [None] leaves it. *)
Definition step (retain : bool) (offset : Z) (st : State) : result ConfigError (option State) :=
  let p := space (parser st) in
  match peek p with
  | None => Ok None
  | Some b =>
      if b =? 10 then match next p with Some (_, p) => Ok (Some (at_parser st p)) | None => Ok None end
      else if (b =? 35) || (b =? 59) then Ok (Some (at_parser st (comment p)))
      else if b =? 91 then
        match next p with
        | Some (_, q) => let? (n, q) := parse_header q in Ok (Some (add_section retain offset (pos p) st n q))
        | None => Ok None
        end
      else if bool_decide (section st = []) then Err (error p "variable outside section")
      else
        let? a := parse_assignment p in
        let? st := add_entry retain offset (pos p) (line p) st a in
        Ok (Some st)
  end.
Fixpoint run (fuel : nat) (retain : bool) (offset : Z) (st : State) : result ConfigError State :=
  match fuel with
  | O => Err OutOfFuel
  | S fuel =>
      match rest (parser st) with
      | [] => Ok st
      | _ => let? r := step retain offset st in match r with Some st => run fuel retain offset st | None => Ok st end
      end
  end.

Definition bom : bytes := [239; 187; 191].
Definition empty_config : Config := {| entries := []; sections := []; occurrences := [] |}.
Definition initial (bs : bytes) : State :=
  {| parser := {| rest := bs; pos := 0; line := 1; value_end := 0 |}; found := empty_config; layout := {| l_entries := []; l_sections := [] |}; section := []; subsection := None |}.
(** [Config::parse_internal]. *)
Definition parse_internal (retain : bool) (bs : bytes) : result ConfigError (Config * Layout) :=
  let offset := if starts_with bom bs then 3 else 0 in
  let bs := default bs (strip_prefix bom bs) in
  let? st := run (S (length bs)) retain offset (initial bs) in
  Ok (found st, layout st).
Definition parse (bs : bytes) : result ConfigError Config := let? (c, _) := parse_internal false bs in Ok c.
Definition parse_layout (bs : bytes) : result ConfigError (Config * Layout) := parse_internal true bs.

(** ** Queries *)

Definition eq_ignore_case (a b : bytes) : bool := bytes_eqb (map to_lower a) (map to_lower b).
Definition in_section (s : bytes) (sub : option bytes) (e : Entry) : bool := eq_ignore_case (e_section e) s && bool_decide (e_subsection e = sub).
Definition is_header (s : bytes) (sub : option bytes) (n : SectionName) : bool := eq_ignore_case (n_section n) s && bool_decide (n_subsection n = sub).
Definition contains_section (c : Config) (s : bytes) (sub : option bytes) : bool := existsb (is_header s sub) (sections c) || existsb (in_section s sub) (entries c).
Definition matches (s : bytes) (sub : option bytes) (n : bytes) (e : Entry) : bool := in_section s sub e && eq_ignore_case (e_name e) n.
Definition values (c : Config) (s : bytes) (sub : option bytes) (n : bytes) : list (option bytes) := map e_value (List.filter (matches s sub n) (entries c)).
Definition value_of (c : Config) (s : bytes) (sub : option bytes) (n : bytes) : option (option bytes) := e_value <$> List.find (matches s sub n) (reverse (entries c)).
Definition string_of (c : Config) (s : bytes) (sub : option bytes) (n : bytes) : option bytes := mjoin (value_of c s sub n).

(** ** Typed values *)

(** [i64::from_str_radix] of hexadecimal digits. *)
Definition digit (b : Z) : Z := if is_digit b then b - 48 else to_lower b - 87.
Fixpoint radix_value (radix : Z) (digits : bytes) (n : Z) : option Z :=
  match digits with
  | [] => Some n
  | b :: digits =>
      if radix <=? digit b then None
      else let n := n * radix + digit b in if 2 ^ 63 <=? n then None else radix_value radix digits n
  end.
(** [i64::checked_mul]. *)
Definition checked_mul_i64 (a b : Z) : option Z := if (- 2 ^ 63 <=? a * b) && (a * b <? 2 ^ 63) then Some (a * b) else None.

Definition multiplier (b : Z) : option Z :=
  if (b =? 107) || (b =? 75) then Some 1024 else if (b =? 109) || (b =? 77) then Some (1024 ^ 2) else if (b =? 103) || (b =? 71) then Some (1024 ^ 3) else None.
Definition integer (v : bytes) : option Z :=
  if negb (MultiPack.utf8 v) then None
  else
    b ← last v;
    let '(text, m) := match multiplier b with Some m => (take (length v - 1) v, m) | None => (v, 1) end in
    let '(digits, sign) := match strip_prefix [45] text with Some r => (r, -1) | None => (default text (strip_prefix [43] text), 1) end in
    let hex := match strip_prefix (bstr "0x") digits with Some r => Some r | None => strip_prefix (bstr "0X") digits end in
    let '(digits, radix) := match hex with Some r => (r, 16) | None => (digits, if starts_with [48] digits then 8 else 10) end in
    if bool_decide (digits = []) || negb (forallb is_hexdigit digits) then None
    else n ← radix_value radix digits 0; n ← checked_mul_i64 n sign; checked_mul_i64 n m.

Definition c_space (b : Z) : bool := contains b [32; 9; 10; 11; 12; 13].
Definition boolean_integer (v : bytes) : option Z :=
  let start := default (length v) (position (fun b => negb (c_space b)) v) in
  n ← integer (drop start v);
  if (- 2 ^ 31 <=? n) && (n <? 2 ^ 31) then Some n else None.
Definition boolean (v : option bytes) : option bool :=
  match v with
  | None => Some true
  | Some v =>
      let l := map to_lower v in
      if bool_decide (l ∈ [bstr "true"; bstr "yes"; bstr "on"]) then Some true
      else if bool_decide (l ∈ [bstr "false"; bstr "no"; bstr "off"; []]) then Some false
      else (fun n => negb (n =? 0)) <$> boolean_integer v
  end.

(** The typed queries; the error holds the bytes of the offending value, which the code
    renders as text. *)
Record InvalidValue := { iv_section : bytes; iv_name : bytes; iv_value : option bytes }.
Definition typed {A} (read : option bytes -> option A) (c : Config) (s : bytes) (sub : option bytes) (n : bytes) : result InvalidValue (option A) :=
  match value_of c s sub n with
  | None => Ok None
  | Some v => match read v with Some a => Ok (Some a) | None => Err {| iv_section := s; iv_name := n; iv_value := v |} end
  end.
Definition get_boolean : Config -> bytes -> option bytes -> bytes -> result InvalidValue (option bool) := typed boolean.
Definition get_integer : Config -> bytes -> option bytes -> bytes -> result InvalidValue (option Z) := typed (fun v => v ← v; integer v).

(** ** Documents *)

Record Document := { d_bytes : bytes; d_config : Config; d_layout : Layout }.
Definition document (bs : bytes) : result ConfigError Document :=
  let? (c, l) := parse_layout bs in Ok {| d_bytes := bs; d_config := c; d_layout := l |}.
Definition invalid (reason : string) : ConfigError := Syntax 1 reason.

(** [quote]. *)
Definition needs_quotes (v : bytes) (sub : bool) : bool :=
  sub || match head v with Some b => blank b | None => false end || match last v with Some b => blank b | None => false end || existsb (fun b => (b =? 59) || (b =? 35)) v.
Fixpoint quote_bytes (v : bytes) (sub : bool) : result ConfigError bytes :=
  match v with
  | [] => Ok []
  | b :: v =>
      let? out :=
        if b =? 0 then Err (invalid "NUL in value")
        else if (b =? 10) && sub then Err (invalid "newline in subsection")
        else if (b =? 34) || (b =? 92) then Ok [92; b]
        else if b =? 10 then Ok [92; 110]
        else if (b =? 9) && negb sub then Ok [92; 116]
        else if (b =? 8) && negb sub then Ok [92; 98]
        else Ok [b] in
      let? more := quote_bytes v sub in
      Ok (out ++ more)
  end.
Definition quote (v : bytes) (sub : bool) : result ConfigError bytes :=
  let? body := quote_bytes v sub in
  Ok (if needs_quotes v sub then [34] ++ body ++ [34] else body).

Definition header (s : bytes) (sub : option bytes) : result ConfigError bytes :=
  if bool_decide (s = []) || negb (forallb name_byte s) then Err (invalid "invalid section name")
  else
    let? sub := match sub with Some v => let? q := quote v true in Ok (32 :: q) | None => Ok [] end in
    Ok ([91] ++ s ++ sub ++ [93]).
Definition validate_variable_name (n : bytes) : result ConfigError unit :=
  if negb (match head n with Some b => is_alpha b | None => false end) || negb (forallb name_byte n) then Err (invalid "invalid variable name") else Ok tt.

(** [Vec::splice]: the bytes of a range are replaced; out of bounds it panics. *)
Definition splice (bs : bytes) (r : Range) (new : bytes) : result ConfigError bytes :=
  if (0 <=? r.1) && (r.1 <=? r.2) && (r.2 <=? zlen bs) then Ok (take (Z.to_nat r.1) bs ++ new ++ drop (Z.to_nat r.2) bs) else Err Panicked.

Definition blank_part (part : bytes) : bool := forallb (fun b => blank b || (b =? 13) || (b =? 10)) part.
Definition line_feed (b : Z) : bool := b =? 10.
Definition whole_blank_line (bs : bytes) (r : Range) : result ConfigError Range :=
  let? before := ok_or (slice 0 r.1 bs) Panicked in
  let? after := ok_or (slice r.2 (zlen bs) bs) Panicked in
  let line_start := match rposition line_feed before with Some i => Z.of_nat i + 1 | None => 0 end in
  let line_end := match position line_feed after with Some i => r.2 + Z.of_nat i + 1 | None => zlen bs end in
  let? ahead := ok_or (slice line_start r.1 bs) Panicked in
  let? behind := ok_or (slice r.2 line_end bs) Panicked in
  Ok (if blank_part ahead && blank_part behind then (line_start, line_end) else r).

(** [Document::apply]. *)
Definition Edit : Type := Range * bytes.
Fixpoint widen (bs : bytes) (edits : list Edit) : result ConfigError (list Edit) :=
  match edits with
  | [] => Ok []
  | (r, new) :: edits =>
      let? r := match new with [] => whole_blank_line bs r | _ => Ok r end in
      let? more := widen bs edits in
      Ok ((r, new) :: more)
  end.
Definition edit_cmp (a b : Edit) : comparison := Z.compare a.1.1 b.1.1.
Fixpoint merge (merged : list Edit) (edits : list Edit) : list Edit :=
  match edits with
  | [] => merged
  | (r, new) :: edits =>
      match last merged with
      | Some (m, old) =>
          if (r.1 <? m.2) && bool_decide (new = []) && bool_decide (old = [])
          then merge (take (length merged - 1) merged ++ [((m.1, Z.max m.2 r.2), old)]) edits
          else merge (merged ++ [(r, new)]) edits
      | None => merge (merged ++ [(r, new)]) edits
      end
  end.
Fixpoint splice_all (bs : bytes) (edits : list Edit) : result ConfigError bytes :=
  match edits with
  | [] => Ok bs
  | (r, new) :: edits => let? bs := splice bs r new in splice_all bs edits
  end.
Definition apply (d : Document) (edits : list Edit) : result ConfigError Document :=
  let? edits := widen (d_bytes d) edits in
  let? bs := splice_all (d_bytes d) (reverse (merge [] (sort_by edit_cmp edits))) in
  document bs.

(** [Document::section_at]: the range of the entries of a header. *)
Definition section_entries (d : Document) (ordinal : Z) : result ConfigError Range :=
  let spans := l_entries (d_layout d) in
  let? s := ok_or (zget ordinal (l_sections (d_layout d))) Panicked in
  let next_header := match zget (ordinal + 1) (l_sections (d_layout d)) with Some t => (ss_range t).1 | None => zlen (d_bytes d) end in
  let before limit i := match zget i spans with Some e => (es_range e).1 <? limit | None => false end in
  Ok (partition_point (length spans) (before (ss_range s).2) 0 (zlen spans), partition_point (length spans) (before next_header) 0 (zlen spans)).

Definition set_value (d : Document) (occurrence : Z) (v : bytes) : result ConfigError Document :=
  let? e := ok_or (zget occurrence (entries (d_config d))) (invalid "invalid occurrence index") in
  let? q := quote v false in
  let? span := ok_or (zget occurrence (l_entries (d_layout d))) Panicked in
  apply d [(es_value span, match e_value e with None => bstr " = " ++ q | Some _ => q end)].

Definition remove (d : Document) (occurrence : Z) : result ConfigError Document :=
  let? span := ok_or (zget occurrence (l_entries (d_layout d))) (invalid "invalid occurrence index") in
  apply d [(es_range span, [])].

(** The line of an assignment. *)
Definition assignment (n v : bytes) : result ConfigError bytes :=
  let? q := quote v false in Ok ([9] ++ n ++ bstr " = " ++ q ++ [10]).
Fixpoint assignments (l : list (bytes * bytes)) : result ConfigError bytes :=
  match l with
  | [] => Ok []
  | (n, v) :: l =>
      let? _ := validate_variable_name n in
      let? a := assignment n v in
      let? more := assignments l in
      Ok (a ++ more)
  end.
(** The bytes before a new section, ending a line and a continuation. *)
Definition ended_lines (bs : bytes) : bytes :=
  let bs := if negb (bool_decide (bs = [])) && negb (ends_with [10] bs) then bs ++ [10] else bs in
  if ends_with [92; 10] bs || ends_with [92; 13; 10] bs then bs ++ [10] else bs.
Definition append_section (d : Document) (s : bytes) (sub : option bytes) (l : list (bytes * bytes)) : result ConfigError Document :=
  let? h := header s sub in
  let? more := assignments l in
  document (ended_lines (d_bytes d) ++ h ++ [10] ++ more).

Definition is_span (s : bytes) (sub : option bytes) (t : SectionSpan) : bool := eq_ignore_case (ss_section t) s && bool_decide (ss_subsection t = sub).
Definition document_contains (d : Document) (s : bytes) (sub : option bytes) : bool := existsb (is_span s sub) (l_sections (d_layout d)).

(** [Document::append]. *)
Definition append (d : Document) (s : bytes) (sub : option bytes) (n v : bytes) : result ConfigError Document :=
  let? _ := validate_variable_name n in
  match rposition (is_span s sub) (l_sections (d_layout d)) with
  | None => append_section d s sub [(n, v)]
  | Some ordinal =>
      let? (a, b) := section_entries d (Z.of_nat ordinal) in
      let? anchor :=
        if a <? b then let? e := ok_or (zget (b - 1) (l_entries (d_layout d))) Panicked in Ok (es_range e).2
        else let? t := ok_or (zget (Z.of_nat ordinal) (l_sections (d_layout d))) Panicked in Ok (ss_range t).2 in
      let? after := ok_or (slice anchor (zlen (d_bytes d)) (d_bytes d)) Panicked in
      let insert_at := match position line_feed after with Some i => anchor + Z.of_nat i + 1 | None => zlen (d_bytes d) end in
      let start := if (insert_at =? zlen (d_bytes d)) && negb (ends_with [10] (d_bytes d)) then [10] else [] in
      let? q := assignment n v in
      let? bs := splice (d_bytes d) (insert_at, insert_at) (start ++ q) in
      document bs
  end.

Definition rename_section (d : Document) (s : bytes) (old new : option bytes) : result ConfigError Document :=
  let? h := header s new in
  apply d (map (fun t => (ss_range t, h)) (List.filter (is_span s old) (l_sections (d_layout d)))).

(** The edits that remove headers with their assignments. *)
Fixpoint removals (d : Document) (ordinals : list Z) : result ConfigError (list Edit) :=
  match ordinals with
  | [] => Ok []
  | o :: ordinals =>
      let? t := ok_or (zget o (l_sections (d_layout d))) Panicked in
      let? (a, b) := section_entries d o in
      let? es := ok_or (slice a b (l_entries (d_layout d))) Panicked in
      let? more := removals d ordinals in
      Ok ((ss_range t, []) :: map (fun e => (es_range e, [])) es ++ more)
  end.
Fixpoint dedup (l : list Z) : list Z :=
  match l with
  | a :: (b :: _) as more => if a =? b then dedup more else a :: dedup more
  | _ => l
  end.
Definition remove_sections (d : Document) (ordinals : list Z) : result ConfigError Document :=
  if existsb (fun o => zlen (l_sections (d_layout d)) <=? o) ordinals then Err (invalid "invalid section ordinal")
  else match ordinals with
       | [] => Ok d
       | _ => let? edits := removals d (dedup (sort_by Z.compare ordinals)) in apply d edits
       end.
Definition remove_section (d : Document) (s : bytes) (sub : option bytes) : result ConfigError Document :=
  let spans := l_sections (d_layout d) in
  remove_sections d (List.filter (fun i => match zget i spans with Some t => is_span s sub t | None => false end) (map Z.of_nat (seq 0 (length spans)))).
End Config.
