(* ===== verification/ConfigParse.v ===== *)
(** * Configuration files: how the parser moves

    Every operation of the parser consumes a prefix of the bytes and looks at most one byte
    beyond it: its result does not depend on fuel, on positions and lines, nor on what comes
    after the bytes it consumed. *)

From stdpp Require Import base list numbers strings sets.
From Stdlib Require Import ZArith Lia.
From S2P Require Import Prelude Config.

Module ConfigParse.
Import Config.

(** ** Progress *)

(** [p'] is [p] after the bytes [c]. *)
Definition after (p : Parser) (c : bytes) (p' : Parser) : Prop := rest p = c ++ rest p' /\ pos p' = pos p + zlen c.

Lemma after_refl p p' : rest p' = rest p -> pos p' = pos p -> after p [] p'.
Proof. intros H1 H2. split; [by rewrite H1|rewrite H2; change (zlen (@nil Z)) with 0; lia]. Qed.
Lemma after_trans p c p' c' p'' : after p c p' -> after p' c' p'' -> after p (c ++ c') p''.
Proof. intros [H1 H2] [H3 H4]. split; [by rewrite H1, H3, <- app_assoc|rewrite zlen_app; lia]. Qed.

Lemma crlf_true r : crlf r = true <-> exists t, r = 13 :: 10 :: t.
Proof.
  split; [|by intros [t ->]]. destruct r as [|a [|b t]]; [done|done|]. intros [->%Z.eqb_eq ->%Z.eqb_eq]%andb_true_iff. by exists t.
Qed.

(** What [next] takes: a byte, or a carriage return with its line feed. *)
Lemma next_after p b p' : next p = Some (b, p') -> exists c, after p c p' /\ value_end p' = value_end p /\ (c = [b] \/ (b = 10 /\ c = [13; 10])).
Proof.
  unfold next. destruct (rest p) as [|x r] eqn:Er; [done|]. destruct (crlf (x :: r)) eqn:E; intros [= <- <-].
  - apply crlf_true in E as [t [= -> ->]]. exists [13; 10]. split_and!; [split; [by rewrite Er|done]|done|by right].
  - exists [x]. split_and!; [split; [by rewrite Er|done]|done|by left].
Qed.
Lemma next_length p b p' : next p = Some (b, p') -> (length (rest p') < length (rest p))%nat.
Proof. intros (c & [-> _] & _ & Hc)%next_after. rewrite length_app. destruct Hc as [-> |[_ ->]]; cbn; lia. Qed.
Lemma peek_next p : peek p = fst <$> next p.
Proof. unfold peek, next. destruct (rest p); [done|]. by destruct (crlf _). Qed.

Lemma span_spec f r : let '(a, t) := span f r in r = a ++ t /\ Forall (fun b => f b = true) a /\ (forall b, head t = Some b -> f b = false).
Proof.
  induction r as [|b r IH]; cbn [span]; [split_and!; [done|constructor|done]|]. destruct (f b) eqn:E; [|split_and!; [done|constructor|by intros ? [= <-]]]. destruct (span f r) as [a t]. destruct IH as (-> & H2 & H3). split_and!; [done|by constructor|done].
Qed.
Lemma take_while_after f p : let '(a, p') := take_while f p in after p a p' /\ value_end p' = value_end p /\ line p' = line p /\ Forall (fun b => f b = true) a /\ (forall b, head (rest p') = Some b -> f b = false).
Proof. unfold take_while. pose proof (span_spec f (rest p)) as H. destruct (span f (rest p)) as [a t]. destruct H as (H1 & H2 & H3). split_and!; [by split|done..]. Qed.
Lemma space_after p : exists a, after p a (space p) /\ value_end (space p) = value_end p /\ Forall (fun b => blank b = true) a /\ (forall b, head (rest (space p)) = Some b -> blank b = false).
Proof. unfold space. pose proof (take_while_after blank p) as H. destruct (take_while blank p) as [a p']. destruct H as (H1 & H2 & _ & H3 & H4). by exists a. Qed.

Lemma comment_loop_spec r n : let '(t, m) := comment_loop r n in exists a, r = a ++ t /\ m = n + zlen a /\ (t = [] \/ head t = Some 10 \/ crlf t = true).
Proof.
  revert n. induction r as [|b r IH]; intros n; cbn [comment_loop]; [exists []; split_and!; [done|change (zlen (@nil Z)) with 0; lia|by left]|]. destruct (_ || _) eqn:E.
  - exists []. split_and!; [done|change (zlen (@nil Z)) with 0; lia|right]. apply orb_true_iff in E as [->%Z.eqb_eq|E]; [by left|by right].
  - specialize (IH (n + 1)). destruct (comment_loop r (n + 1)) as [t m]. destruct IH as (a & -> & -> & H). exists (b :: a). split_and!; [done|rewrite zlen_cons; lia|done].
Qed.
Lemma comment_after p : exists a, after p a (comment p) /\ value_end (comment p) = value_end p /\ (rest (comment p) = [] \/ peek (comment p) = Some 10).
Proof.
  unfold comment. pose proof (comment_loop_spec (rest p) (pos p)) as H. destruct (comment_loop (rest p) (pos p)) as [t m]. destruct H as (a & H1 & H2 & H3). exists a. split_and!; [by split|done|]. cbn [rest]. unfold peek. cbn [rest]. destruct t as [|b t]; [by left|right].
  destruct H3 as [|[[= ->]|H3]]; [done|by destruct (crlf _)|by rewrite H3].
Qed.

Lemma name_after v p n p' : name v p = Ok (n, p') -> after p n p' /\ n <> [] /\ value_end p' = value_end p /\ Forall (fun b => name_byte b = true) n /\ (forall b, head (rest p') = Some b -> name_byte b = false).
Proof.
  unfold name. destruct (_ && _); [done|]. pose proof (take_while_after name_byte p) as H. destruct (take_while name_byte p) as [a q]. destruct H as (H1 & H2 & _ & H3 & H4). destruct a as [|b a]; [done|]. intros [<- <-]%ok_inj%pair_equal_spec. by split_and!.
Qed.

Lemma value_loop_after fuel p v qd k out p' : value_loop fuel p v qd k = Ok (out, p') -> exists c, after p c p'.
Proof.
  revert p v qd k. induction fuel as [|fuel IH]; intros p v qd k; cbn [value_loop]; [done|]. destruct (next p) as [[b p1]|] eqn:En; [|destruct qd; [done|]; intros [<- <-]%ok_inj%pair_equal_spec; exists []; by apply after_refl].
  apply next_after in En as (c & Hc & _). assert (forall q, after p1 [] q -> after p c q) as Hn by (intros q Hq; rewrite <- (app_nil_r c); by eapply after_trans). assert (forall (q : Parser), rest q = rest p1 -> pos q = pos p1 -> (exists c', after q c' p') -> exists c', after p c' p') as Hcont.
  { intros q E1 E2 [c' Hc']. exists (c ++ c'). eapply after_trans; [|exact Hc']. apply Hn. by apply after_refl. }
  destruct (b =? 0); [done|]. destruct (b =? 10); [destruct qd; [done|]; intros [<- <-]%ok_inj%pair_equal_spec; by exists c|]. destruct (b =? 34); [intros H%IH; by apply (Hcont (ended p1))|]. destruct (_ && _).
  { intros [<- <-]%ok_inj%pair_equal_spec. destruct (comment_after p1) as (a & Ha & _). exists (c ++ a). by eapply after_trans. }
  destruct (b =? 92).
  { destruct (next p1) as [[e p2]|] eqn:En2; [|done]. apply next_after in En2 as (c2 & Hc2 & _). assert (forall w, (exists c', after (ended p2) c' p') -> w = w :> bytes -> exists c', after p c' p') as Hcont2 by (intros w [c' Hc'] _; exists ((c ++ c2) ++ c'); eapply after_trans; [by eapply after_trans|exact Hc']).
    destruct (e =? 10); [intros H%IH; by apply (Hcont2 v)|]. destruct (escape e); [|done]. intros H%IH. by apply (Hcont2 v). }
  destruct (_ && _); [intros H%IH; by apply (Hcont p1)|]. destruct (_ || _); intros H%IH; [by apply (Hcont (ended p1))|by apply (Hcont p1)].
Qed.
Lemma value_after p v p' : value p = Ok (v, p') -> exists c, after p c p'.
Proof. unfold value. intros (c & Hc)%value_loop_after. destruct (space_after p) as (a & Ha & _). exists (a ++ c). eapply after_trans; [exact Ha|exact Hc]. Qed.

Lemma subsection_after fuel p v out p' : subsection_loop fuel p v = Ok (out, p') -> exists c, after p c p'.
Proof.
  revert p v. induction fuel as [|fuel IH]; intros p v; cbn [subsection_loop]; [done|]. destruct (next p) as [[b p1]|] eqn:En; [|done]. apply next_after in En as (c & Hc & _). destruct (b =? 34); [intros [<- <-]%ok_inj%pair_equal_spec; by exists c|]. destruct (b =? 92).
  - destruct (next p1) as [[e p2]|] eqn:En2; [|done]. apply next_after in En2 as (c2 & Hc2 & _). destruct (_ || _); [done|]. intros (c' & Hc')%IH. exists ((c ++ c2) ++ c'). eapply after_trans; [by eapply after_trans|done].
  - destruct (_ || _); [done|]. intros (c' & Hc')%IH. exists (c ++ c'). by eapply after_trans.
Qed.

Lemma header_after p n p' : parse_header p = Ok (n, p') -> exists c, after p c p'.
Proof.
  unfold parse_header. intros ([s p1] & (H1 & _)%name_after & H)%rbind_Ok. destruct (if bool_decide (peek p1 = Some 46) then _ else _) as [sub p2] eqn:E2. assert (exists c, after p1 c p2) as [c2 H2].
  { destruct (bool_decide (peek p1 = Some 46)); [|apply pair_equal_spec in E2 as [_ <-]; exists []; by apply after_refl]. destruct (next p1) as [[b q]|] eqn:En; [|apply pair_equal_spec in E2 as [_ <-]; exists []; by apply after_refl]. apply next_after in En as (c & Hc & _).
    pose proof (take_while_after (fun b => alphanumeric b || (b =? 45) || (b =? 46)) q) as Ht. destruct (take_while _ q) as [a q']. destruct Ht as (Ht & _). apply pair_equal_spec in E2 as [_ <-]. exists (c ++ a). by eapply after_trans. }
  destruct (space_after p2) as (c3 & H3 & _). apply rbind_Ok in H as ([sub' p4] & H4 & H). assert (exists c, after (space p2) c p4) as [c4 H4'].
  { destruct (bool_decide (peek (space p2) = Some 34)); [|apply ok_inj, pair_equal_spec in H4 as [_ <-]; exists []; by apply after_refl]. destruct (negb _); [done|]. destruct (next (space p2)) as [[b q]|] eqn:En; [|apply ok_inj, pair_equal_spec in H4 as [_ <-]; exists []; by apply after_refl]. apply next_after in En as (c & Hc & _).
    apply rbind_Ok in H4 as ([v q2] & (c' & Hc')%subsection_after & H4). apply ok_inj, pair_equal_spec in H4 as [_ <-]. destruct (space_after q2) as (c'' & Hc'' & _). exists ((c ++ c') ++ c''). eapply after_trans; [by eapply after_trans|done]. }
  destruct (next p4) as [[b p5]|] eqn:En; [|done]. apply next_after in En as (c5 & H5 & _). destruct (b =? 93); [|done]. apply ok_inj, pair_equal_spec in H as [_ <-]. eexists. eapply after_trans; [|exact H5]. eapply after_trans; [|exact H4']. eapply after_trans; [|exact H3]. by eapply after_trans.
Qed.

Lemma assignment_after p n v a b p' : parse_assignment p = Ok (n, v, a, b, p') -> exists c, after p c p' /\ c <> [].
Proof.
  unfold parse_assignment. intros ([n' p1] & (H1 & Hn & _)%name_after & H)%rbind_Ok. destruct (space_after p1) as (c2 & H2 & _). assert (forall c q, after (space p1) c q -> exists c, after p c q /\ c <> []) as Hc.
  { intros c q Hq. exists ((n' ++ c2) ++ c). split; [eapply after_trans; [by eapply after_trans|done]|]. by destruct n'. }
  assert (p' = space p1 -> exists c, after p c p' /\ c <> []) as Hs by (intros ->; apply (Hc []); by apply after_refl). destruct (peek (space p1)) as [x|]; [|apply Hs; congruence]. destruct (x =? 61).
  - destruct (next (space p1)) as [[y p3]|] eqn:En; [|apply Hs; congruence]. apply next_after in En as (c3 & H3 & _). apply rbind_Ok in H as ([w p4] & (c4 & H4)%value_after & H). injection H as <- <- <- <- <-. destruct (space_after p3) as (c5 & H5 & _). apply (Hc ((c3 ++ c5) ++ c4)). eapply after_trans; [by eapply after_trans|done].
  - destruct (_ || _ || _); [apply Hs; congruence|done].
Qed.

Lemma after_length p c p' : after p c p' -> (length (rest p') <= length (rest p))%nat.
Proof. intros [-> _]. rewrite length_app. lia. Qed.

Lemma add_entry_parser retain offset start l st a st' : add_entry retain offset start l st a = Ok st' -> parser st' = a.2.
Proof. destruct a as [[[[n v] x] y] p]. unfold add_entry. intros (os & _ & <-%ok_inj)%rbind_Ok. done. Qed.

(** Every turn of the loop takes a byte. *)
Lemma step_after retain offset st st' : step retain offset st = Ok (Some st') -> exists c, after (parser st) c (parser st') /\ c <> [].
Proof.
  unfold step. destruct (space_after (parser st)) as (a & Ha & _). set (p := space (parser st)) in *. rewrite peek_next. destruct (next p) as [[b q]|] eqn:En; [|done]. cbn [fmap option_fmap option_map fst]. pose proof En as (c & Hc & _ & Hc')%next_after. assert (c <> []) as Hne by (destruct Hc' as [-> |[_ ->]]; done).
  assert (forall d q', after q d q' -> exists e, after (parser st) e q' /\ e <> []) as Hcont. { intros d q' Hd. exists (a ++ c ++ d). split; [eapply after_trans; [done|by eapply after_trans]|]. by destruct a, c. }
  destruct (b =? 10); [intros [= <-]; apply (Hcont []); by apply after_refl|]. destruct (_ || _) eqn:Ec.
  - intros [= <-]. cbn [parser at_parser]. destruct (comment_after p) as (d & Hd & _ & Hd'). exists (a ++ d). split; [by eapply after_trans|]. intros [-> ->]%app_eq_nil. destruct Hd as [Hd _]. cbn [app] in Hd. destruct Hd' as [Hd'|Hd']; [rewrite Hd' in Hd; unfold next in En; by rewrite Hd in En|].
    rewrite peek_next in Hd'. unfold next in Hd', En. rewrite <- Hd in Hd'. destruct (rest p) as [|x r]; [done|]. destruct (crlf (x :: r)); [injection En as <- _; done|]. injection En as <- _. cbn in Hd'. injection Hd' as ->. done.
  - destruct (b =? 91).
    + intros ([n q'] & (d & Hd)%header_after & H)%rbind_Ok. injection H as <-. by apply (Hcont d).
    + destruct (bool_decide _); [done|]. intros ([[[[n v] x] y] q'] & (d & Hd & Hd')%assignment_after & (st1 & Hst & H)%rbind_Ok)%rbind_Ok. injection H as <-. apply add_entry_parser in Hst. rewrite Hst. cbn [snd]. exists (a ++ d). split; [by eapply after_trans|]. by destruct a, d.
Qed.

(** ** What does not matter: positions, lines and fuel *)

Lemma next_like p q : rest q = rest p -> match next p with Some (b, p') => exists q', next q = Some (b, q') /\ rest q' = rest p' | None => next q = None end.
Proof. intros E. unfold next. rewrite E. destruct (rest p) as [|b r]; [done|]. destruct (crlf _); eexists; (split; [reflexivity|done]). Qed.
Lemma peek_like p q : rest q = rest p -> peek q = peek p.
Proof. intros E. unfold peek. by rewrite E. Qed.
Lemma take_while_like f p q : rest q = rest p -> (take_while f q).1 = (take_while f p).1 /\ rest (take_while f q).2 = rest (take_while f p).2.
Proof. intros E. unfold take_while. rewrite E. by destruct (span f (rest p)). Qed.
Lemma space_like p q : rest q = rest p -> rest (space q) = rest (space p).
Proof. intros E. unfold space. by apply take_while_like. Qed.
Lemma comment_like p q : rest q = rest p -> rest (comment q) = rest (comment p).
Proof.
  intros E. unfold comment. rewrite E. assert (forall r n m, (comment_loop r n).1 = (comment_loop r m).1) as H. { intros r. induction r as [|b r IH]; intros n m; cbn [comment_loop]; [done|]. by destruct (_ || _). }
  specialize (H (rest p) (pos p) (pos q)). destruct (comment_loop (rest p) (pos p)), (comment_loop (rest p) (pos q)). cbn in *. done.
Qed.
Lemma name_like v p q n p' : rest q = rest p -> name v p = Ok (n, p') -> exists q', name v q = Ok (n, q') /\ rest q' = rest p'.
Proof.
  intros E. unfold name. rewrite (peek_like p q E). destruct (_ && _); [done|]. destruct (take_while_like name_byte p q E) as [E1 E2]. destruct (take_while name_byte p) as [a p1], (take_while name_byte q) as [a' q1]. cbn [fst snd] in *. subst a'. destruct a; [done|]. intros [<- <-]%ok_inj%pair_equal_spec. eauto.
Qed.

Lemma value_loop_like n m p q v qd k out p' : rest q = rest p -> (length (rest p) < m)%nat -> value_loop n p v qd k = Ok (out, p') -> exists q', value_loop m q v qd k = Ok (out, q') /\ rest q' = rest p'.
Proof.
  revert m p q v qd k. induction n as [|n IH]; intros m p q v qd k E Hm; cbn [value_loop]; [done|]. destruct m as [|m]; [lia|]. cbn [value_loop]. pose proof (next_like p q E) as Hn. destruct (next p) as [[b p1]|] eqn:En.
  2: { rewrite Hn. destruct qd; [done|]. intros [<- <-]%ok_inj%pair_equal_spec. eauto. }
  destruct Hn as (q1 & -> & E1). apply next_length in En. assert (length (rest p1) < m)%nat as Hm1 by lia. destruct (b =? 0); [done|]. destruct (b =? 10); [destruct qd; [done|]; intros [<- <-]%ok_inj%pair_equal_spec; eauto|].
  destruct (b =? 34); [by apply (IH m (ended p1) (ended q1))|]. destruct (_ && _); [intros [<- <-]%ok_inj%pair_equal_spec; eexists; split; [done|by apply comment_like]|]. destruct (b =? 92).
  - pose proof (next_like p1 q1 E1) as Hn2. destruct (next p1) as [[e p2]|] eqn:En2; [|done]. destruct Hn2 as (q2 & -> & E2). apply next_length in En2. assert (length (rest p2) < m)%nat as Hm2 by lia. destruct (e =? 10); [by apply (IH m (ended p2) (ended q2))|]. destruct (escape e); [|done]. by apply (IH m (ended p2) (ended q2)).
  - destruct (_ && _); [by apply (IH m p1 q1)|]. destruct (_ || _); [by apply (IH m (ended p1) (ended q1))|by apply (IH m p1 q1)].
Qed.
Lemma value_like p q v p' : rest q = rest p -> value p = Ok (v, p') -> exists q', value q = Ok (v, q') /\ rest q' = rest p'.
Proof. intros E. unfold value. rewrite (space_like p q E). apply value_loop_like; [by apply space_like|cbn; lia]. Qed.

Lemma subsection_like n m p q v out p' : rest q = rest p -> (length (rest p) < m)%nat -> subsection_loop n p v = Ok (out, p') -> exists q', subsection_loop m q v = Ok (out, q') /\ rest q' = rest p'.
Proof.
  revert m p q v. induction n as [|n IH]; intros m p q v E Hm; cbn [subsection_loop]; [done|]. destruct m as [|m]; [lia|]. cbn [subsection_loop]. pose proof (next_like p q E) as Hn. destruct (next p) as [[b p1]|] eqn:En; [|done]. destruct Hn as (q1 & -> & E1). apply next_length in En. assert (length (rest p1) < m)%nat as Hm1 by lia.
  destruct (b =? 34); [intros [<- <-]%ok_inj%pair_equal_spec; eauto|]. destruct (b =? 92).
  - pose proof (next_like p1 q1 E1) as Hn2. destruct (next p1) as [[e p2]|] eqn:En2; [|done]. destruct Hn2 as (q2 & -> & E2). apply next_length in En2. destruct (_ || _); [done|]. apply IH; [done|lia].
  - destruct (_ || _); [done|]. by apply IH.
Qed.

Lemma header_like p q n p' : rest q = rest p -> parse_header p = Ok (n, p') -> exists q', parse_header q = Ok (n, q') /\ rest q' = rest p'.
Proof.
  intros E. unfold parse_header. intros ([s p1] & H1 & H)%rbind_Ok. apply (name_like _ p q) in H1 as (q1 & -> & E1); [|done]. cbn [rbind]. rewrite (peek_like p1 q1 E1).
  destruct (if bool_decide (peek p1 = Some 46) then match next p1 with _ => _ end else _) as [sub p2] eqn:E2. assert (exists q2, (if bool_decide (peek p1 = Some 46) then match next q1 with Some (_, p) => let '(taken, p) := take_while (fun b => alphanumeric b || (b =? 45) || (b =? 46)) p in (Some (map to_lower taken), p) | None => (None, q1) end else (None, q1)) = (sub, q2) /\ rest q2 = rest p2) as (q2 & -> & R2).
  { destruct (bool_decide (peek p1 = Some 46)); [|apply pair_equal_spec in E2 as [<- <-]; eauto]. pose proof (next_like p1 q1 E1) as Hn. destruct (next p1) as [[b p3]|]; [|apply pair_equal_spec in E2 as [<- <-]; rewrite Hn; eauto]. destruct Hn as (q3 & -> & E3).
    destruct (take_while_like (fun b => alphanumeric b || (b =? 45) || (b =? 46)) p3 q3 E3) as [F1 F2]. destruct (take_while _ p3) as [a p4], (take_while _ q3) as [a' q4]. cbn [fst snd] in *. subst a'. apply pair_equal_spec in E2 as [<- <-]. eauto. }
  rewrite (peek_like p2 q2 R2). pose proof (space_like p2 q2 R2) as R3. rewrite (peek_like _ _ R3). set (separated := match peek p2 with Some _ => _ | None => _ end) in *. apply rbind_Ok in H as ([sub' p4] & H4 & H).
  assert (exists q4, (if bool_decide (peek (space p2) = Some 34) then if negb separated then Err (error (space q2) "subsection requires whitespace") else match next (space q2) with Some (_, p) => let? (v, p) := subsection_loop (S (length (rest p))) p [] in Ok (Some v, space p) | None => Ok (sub, space q2) end else Ok (sub, space q2)) = Ok (sub', q4) /\ rest q4 = rest p4) as (q4 & -> & R4).
  { destruct (bool_decide (peek (space p2) = Some 34)); [|apply ok_inj, pair_equal_spec in H4 as [<- <-]; eauto]. destruct (negb separated); [done|]. pose proof (next_like _ _ R3) as Hn. destruct (next (space p2)) as [[b p5]|]; [|apply ok_inj, pair_equal_spec in H4 as [<- <-]; rewrite Hn; eauto]. destruct Hn as (q5 & -> & E5).
    apply rbind_Ok in H4 as ([v p6] & H6 & H4). apply ok_inj, pair_equal_spec in H4 as [<- <-]. apply (subsection_like _ (S (length (rest q5))) p5 q5) in H6 as (q6 & -> & E6); [|done|rewrite E5; lia]. cbn [rbind]. eexists. split; [done|]. by apply space_like. }
  cbn [rbind]. pose proof (next_like _ _ R4) as Hn. destruct (next p4) as [[b p5]|]; [|done]. destruct Hn as (q5 & -> & E5). destruct (b =? 93); [|done]. apply ok_inj, pair_equal_spec in H as [<- <-]. eauto.
Qed.

Lemma assignment_like p q n v a b p' : rest q = rest p -> parse_assignment p = Ok (n, v, a, b, p') -> exists a' b' q', parse_assignment q = Ok (n, v, a', b', q') /\ rest q' = rest p'.
Proof.
  intros E. unfold parse_assignment. intros ([n' p1] & H1 & H)%rbind_Ok. apply (name_like _ p q) in H1 as (q1 & -> & E1); [|done]. cbn [rbind]. pose proof (space_like p1 q1 E1) as R3. rewrite (peek_like _ _ R3). destruct (peek (space p1)) as [x|]; [|injection H as <- <- <- <- <-; eauto]. destruct (x =? 61).
  - pose proof (next_like _ _ R3) as Hn. destruct (next (space p1)) as [[y p3]|]; [|injection H as <- <- <- <- <-; rewrite Hn; eauto 6]. destruct Hn as (q3 & -> & E3). apply rbind_Ok in H as ([w p4] & H4 & H). injection H as <- <- <- <- <-. apply (value_like _ (space q3)) in H4 as (q4 & -> & E4); [|by apply space_like]. cbn [rbind]. eauto 6.
  - destruct (_ || _ || _); [injection H as <- <- <- <- <-; eauto 6|done].
Qed.

(** States at the same bytes, in the same section, with as many entries. *)
Record alike (s t : State) : Prop := {
  al_rest : rest (parser t) = rest (parser s);
  al_section : section t = section s;
  al_subsection : subsection t = subsection s;
  al_sections : sections (found t) = sections (found s);
  al_occurrences : occurrences (found t) = occurrences (found s);
  al_count : zlen (entries (found t)) = zlen (entries (found s))
}.
(** An entry without its line. *)
Definition view (e : Entry) : bytes * option bytes * bytes * option bytes := (e_section e, e_subsection e, e_name e, e_value e).
Definition added (s s' t t' : State) : Prop := exists l m, entries (found s') = entries (found s) ++ l /\ entries (found t') = entries (found t) ++ m /\ map view m = map view l.

Lemma added_none s s' t t' : entries (found s') = entries (found s) -> entries (found t') = entries (found t) -> added s s' t t'.
Proof. intros E1 E2. exists [], []. by rewrite !app_nil_r, E1, E2. Qed.
Lemma added_trans s s' s'' t t' t'' : added s s' t t' -> added s' s'' t' t'' -> added s s'' t t''.
Proof. intros (l & m & E1 & E2 & E3) (l' & m' & F1 & F2 & F3). exists (l ++ l'), (m ++ m'). rewrite F1, F2, E1, E2, !map_app, E3, F3, <- !app_assoc. done. Qed.

Lemma step_like retain offset s t r : alike s t -> step retain offset s = Ok r ->
  exists r', step retain offset t = Ok r' /\ match r, r' with None, None => True | Some s', Some t' => alike s' t' /\ added s s' t t' | _, _ => False end.
Proof.
  intros [R S1 S2 S3 S4 S5]. unfold step. pose proof (space_like _ _ R) as R1. rewrite (peek_like _ _ R1). destruct (peek (space (parser s))) as [b|]; [|intros <-%ok_inj; by exists None]. pose proof (next_like _ _ R1) as Hn. destruct (b =? 10).
  { destruct (next (space (parser s))) as [[x p]|]; [|rewrite Hn; intros <-%ok_inj; by exists None]. destruct Hn as (q & -> & E). intros <-%ok_inj. eexists. split; [done|]. split; [by constructor|by apply added_none]. }
  destruct (_ || _). { intros <-%ok_inj. eexists. split; [done|]. split; [|by apply added_none]. constructor; try done. by apply comment_like. }
  destruct (b =? 91).
  { destruct (next (space (parser s))) as [[x p]|]; [|rewrite Hn; intros <-%ok_inj; by exists None]. destruct Hn as (q & -> & E). intros ([n p'] & H & <-%ok_inj)%rbind_Ok. apply (header_like _ q) in H as (q' & -> & E'); [|done]. cbn [rbind]. eexists. split; [done|]. split; [|by apply added_none].
    constructor; cbn; try done; [by rewrite S3|by rewrite S4, S5]. }
  rewrite S1. destruct (bool_decide _); [done|]. intros ([[[[n v] x] y] p'] & H & (s1 & Hs & <-%ok_inj)%rbind_Ok)%rbind_Ok. apply (assignment_like _ (space (parser t))) in H as (x' & y' & q' & -> & E'); [|done]. cbn [rbind]. unfold add_entry in *. apply rbind_Ok in Hs as (os & Ho & <-%ok_inj). apply ok_or_Ok in Ho.
  rewrite S4, S5, Ho. cbn [ok_or rbind]. eexists. split; [done|]. split.
  - constructor; cbn; try done. rewrite !zlen_app, S5. done.
  - eexists [_], [_]. split_and!; [done|done|]. cbn. unfold view. cbn. by rewrite S1, S2.
Qed.

Lemma run_like n m retain offset s t s' : alike s t -> (length (rest (parser s)) < m)%nat -> run n retain offset s = Ok s' -> exists t', run m retain offset t = Ok t' /\ alike s' t' /\ added s s' t t'.
Proof.
  revert m s t. induction n as [|n IH]; intros m s t H Hm; cbn [run]; [done|]. destruct m as [|m]; [lia|]. cbn [run]. rewrite (al_rest _ _ H). destruct (rest (parser s)) as [|b r] eqn:Er; [intros <-%ok_inj; eexists; split_and!; [done|done|by apply added_none]|].
  intros (x & Hs & Hr)%rbind_Ok. pose proof Hs as Hs'. apply (step_like _ _ s t) in Hs as (x' & -> & Hx); [|done]. cbn [rbind]. destruct x as [s1|], x' as [t1|]; try done.
  - destruct Hx as [H1 H2]. apply step_after in Hs' as (c & [Hc _] & Hne). destruct (IH m s1 t1) as (t' & -> & Ha & Hd); [done| |done|eexists; split_and!; [done|done|by eapply added_trans]]. rewrite Er in Hc. apply (f_equal length) in Hc. rewrite length_app in Hc. destruct c; [done|]. cbn [length] in *. lia.
  - apply ok_inj in Hr as <-. eexists. split_and!; [done|done|by apply added_none].
Qed.

(** ** Runs as sequences of turns *)

Inductive steps (retain : bool) (offset : Z) : State -> State -> Prop :=
| steps_refl st : steps retain offset st st
| steps_step st st' st'' : step retain offset st = Ok (Some st') -> steps retain offset st' st'' -> steps retain offset st st''.

Lemma steps_trans retain offset s t u : steps retain offset s t -> steps retain offset t u -> steps retain offset s u.
Proof. induction 1 as [|a b c H _ IH]; [done|]. intros Hu. econstructor; [exact H|by apply IH]. Qed.

Lemma run_fuel n m retain offset s f : run n retain offset s = Ok f -> (length (rest (parser s)) < m)%nat -> run m retain offset s = Ok f.
Proof.
  revert m s. induction n as [|n IH]; intros m s; cbn [run]; [done|]. destruct m as [|m]; [lia|]. cbn [run]. destruct (rest (parser s)) as [|b r] eqn:Er; [done|]. intros (x & Hs & Hr)%rbind_Ok Hm. rewrite Hs. cbn [rbind]. destruct x as [s1|]; [|done]. apply IH; [done|].
  apply step_after in Hs as (c & [Hc _] & Hne). rewrite Er in Hc. apply (f_equal length) in Hc. rewrite length_app in Hc. destruct c; [done|]. cbn [length] in *. lia.
Qed.
Lemma run_steps n retain offset s f : run n retain offset s = Ok f -> steps retain offset s f /\ (rest (parser f) = [] \/ step retain offset f = Ok None).
Proof.
  revert s. induction n as [|n IH]; intros s; cbn [run]; [done|]. destruct (rest (parser s)) eqn:Er; [intros <-%ok_inj; split; [constructor|by left]|]. intros (x & Hs & Hr)%rbind_Ok. destruct x as [s1|]; [|apply ok_inj in Hr as <-; split; [constructor|by right]]. apply IH in Hr as [H1 H2]. split; [by econstructor|done].
Qed.
Lemma step_rest retain offset s s' : step retain offset s = Ok (Some s') -> rest (parser s) <> [].
Proof. intros (c & [Hc _] & Hne)%step_after E. rewrite E in Hc. by destruct c. Qed.
Lemma steps_run retain offset s t n f : steps retain offset s t -> run n retain offset t = Ok f -> run (S (length (rest (parser s)))) retain offset s = Ok f.
Proof.
  intros Hs Hr. assert (exists k, run k retain offset s = Ok f) as [k Hk]; [|eapply run_fuel; [exact Hk|lia]]. revert Hr. induction Hs as [|a b c H _ IH]; intros Hr; [by exists n|]. destruct (IH Hr) as [k Hk]. exists (S k). cbn [run]. apply step_rest in H as Hne. destruct (rest (parser a)); [done|]. rewrite H. exact Hk.
Qed.
Lemma run_of_final retain offset f : rest (parser f) = [] \/ step retain offset f = Ok None -> run 1 retain offset f = Ok f.
Proof. intros [E|E]; cbn [run]; [by rewrite E|]. destruct (rest (parser f)); [done|]. by rewrite E. Qed.
Lemma steps_after retain offset s t : steps retain offset s t -> exists c, after (parser s) c (parser t).
Proof. induction 1 as [s|s t u H _ (c' & Hc')]; [exists []; by apply after_refl|]. apply step_after in H as (c & Hc & _). exists (c ++ c'). by eapply after_trans. Qed.
(** ** The parser decides *)

(** A result is a value or an error of syntax: the fuel suffices and nothing is out of bounds. *)
Definition told {A} (r : result ConfigError A) : Prop := forall e, r = Err e -> exists l s, e = Syntax l s.
Lemma told_Ok {A} (a : A) : told (Ok a).
Proof. done. Qed.
Lemma told_error {A} p s : @told A (Err (error p s)).
Proof. intros e [= <-]. by eexists _, _. Qed.
Lemma told_bind {A B} (r : result ConfigError A) (f : A -> result ConfigError B) : told r -> (forall a, r = Ok a -> told (f a)) -> told (rbind r f).
Proof. intros Hr Hf. destruct r as [a|e]; [by apply Hf|]. intros e' [= <-]. by apply Hr. Qed.
Create HintDb told.
#[local] Hint Resolve told_Ok told_error : told.

Lemma value_loop_told fuel p v qd k : (length (rest p) < fuel)%nat -> told (value_loop fuel p v qd k).
Proof.
  revert p v qd k. induction fuel as [|fuel IH]; intros p v qd k Hf; [lia|]. cbn [value_loop]. destruct (next p) as [[b q]|] eqn:E; [|destruct qd; auto with told]. apply next_length in E. destruct (b =? 0); [auto with told|].
  destruct (b =? 10); [destruct qd; auto with told|]. destruct (b =? 34); [apply IH; cbn; lia|]. destruct (_ && _); [auto with told|]. destruct (b =? 92).
  - destruct (next q) as [[c q']|] eqn:E'; [|auto with told]. apply next_length in E'. destruct (c =? 10); [apply IH; cbn; lia|]. destruct (escape c); [apply IH; cbn; lia|auto with told].
  - destruct (_ && _); [apply IH; lia|]. destruct (_ || _); apply IH; cbn; lia.
Qed.
Lemma subsection_told fuel p v : (length (rest p) < fuel)%nat -> told (subsection_loop fuel p v).
Proof.
  revert p v. induction fuel as [|fuel IH]; intros p v Hf; [lia|]. cbn [subsection_loop]. destruct (next p) as [[b q]|] eqn:E; [|auto with told]. apply next_length in E. destruct (b =? 34); [auto with told|]. destruct (b =? 92).
  - destruct (next q) as [[c q']|] eqn:E'; [|auto with told]. apply next_length in E'. destruct (_ || _); [auto with told|apply IH; lia].
  - destruct (_ || _); [auto with told|apply IH; lia].
Qed.
Lemma name_told v p : told (name v p).
Proof. unfold name. destruct (_ && _); [auto with told|]. destruct (take_while _ _) as [[|] q]; auto with told. Qed.
Lemma value_told p : told (value p).
Proof. unfold value. apply value_loop_told. cbn. lia. Qed.
#[local] Hint Resolve name_told value_told : told.
Lemma header_told p : told (parse_header p).
Proof.
  unfold parse_header. apply told_bind; [auto with told|]. intros [n q] _. destruct (if bool_decide _ then _ else _) as [sub q']. apply told_bind; [|intros [sub' r] _; destruct (next r) as [[b r']|]; [destruct (b =? 93)|]; auto with told].
  destruct (bool_decide _); [|auto with told]. destruct (negb _); [auto with told|]. destruct (next _) as [[b r]|]; [|auto with told]. apply told_bind; [apply subsection_told; lia|]. intros [v r'] _. auto with told.
Qed.
Lemma assignment_told p : told (parse_assignment p).
Proof.
  unfold parse_assignment. apply told_bind; [auto with told|]. intros [n q] _. destruct (peek _) as [b|]; [|auto with told]. destruct (b =? 61); [|destruct (_ || _); auto with told]. destruct (next _) as [[c r]|]; [|auto with told]. apply told_bind; [auto with told|]. intros [v r'] _. auto with told.
Qed.
Lemma step_told retain offset st : told (step retain offset st).
Proof.
  unfold step. destruct (peek _) as [b|]; [|auto with told]. destruct (b =? 10); [destruct (next _) as [[]|]; auto with told|]. destruct (_ || _); [auto with told|]. destruct (b =? 91).
  - destruct (next _) as [[c q]|]; [|auto with told]. apply told_bind; [apply header_told|]. intros [n q'] _. auto with told.
  - destruct (bool_decide _); [auto with told|]. apply told_bind; [apply assignment_told|]. intros [[[[n v] x] y] q] _. apply told_bind; [|auto with told]. unfold add_entry. destruct (add_member _ _); cbn [ok_or rbind]; auto with told.
Qed.
Lemma run_told fuel retain offset st : (length (rest (parser st)) < fuel)%nat -> told (run fuel retain offset st).
Proof.
  revert st. induction fuel as [|fuel IH]; intros st Hf; [lia|]. cbn [run]. destruct (rest (parser st)) eqn:Er; [auto with told|]. apply told_bind; [apply step_told|]. intros [st'|] E; [|auto with told]. apply IH. apply step_after in E as (c & [Hc _] & Hne). rewrite Er in Hc. apply (f_equal length) in Hc. rewrite length_app in Hc. destruct c; cbn in *; [done|lia].
Qed.

(** Parsing any bytes returns a configuration or an error of syntax with its line. *)
Theorem parse_decides retain bs : (exists c l, parse_internal retain bs = Ok (c, l)) \/ (exists n s, parse_internal retain bs = Err (Syntax n s)).
Proof.
  assert (told (parse_internal retain bs)) as H. { unfold parse_internal. apply told_bind; [apply run_told; cbn; lia|auto with told]. }
  destruct (parse_internal retain bs) as [[c l]|e]; [left; by eexists _, _|right]. destruct (H e eq_refl) as (n & t & ->). by eexists _, _.
Qed.
End ConfigParse.
