(* ===== verification/ConfigSwap.v ===== *)
(** * Configuration files: what follows does not matter

    While the parser stays inside a prefix of the file, the bytes after that prefix do not
    influence it: they can be replaced.  This is used twice, for the bytes after the start
    of an assignment and for bytes appended after a complete line. *)

From stdpp Require Import base list numbers strings sets.
From Stdlib Require Import ZArith Lia.
From S2P Require Import Prelude Config ConfigParse.

Module ConfigSwap.
Import Config ConfigParse.

Section Swap.
(** The prefix, its last byte and the two continuations. *)
Context (A s s' : bytes) (z : Z).
Context (Hlast : last A = Some z) (Hz : z <> 13) (Hcont : z = 10 -> forall x, A <> x ++ [92; 10] /\ A <> x ++ [92; 13; 10]).

Definition swapped (r r' : bytes) : Prop := exists x a, A = x ++ a /\ r = a ++ s /\ r' = a ++ s'.
Definition sim (p q : Parser) : Prop := swapped (rest p) (rest q).
Definition inside (p : Parser) : Prop := (length s < length (rest p))%nat.

Lemma last_suffix x a : A = x ++ a -> a <> [] -> last a = Some z.
Proof using Hlast Hz Hcont. intros E Ha. rewrite E, last_app in Hlast. destruct (last a) eqn:El; [done|]. by apply last_None in El. Qed.
Lemma inside_cons p q : sim p q -> inside p -> exists x b a, A = x ++ b :: a /\ rest p = b :: a ++ s /\ rest q = b :: a ++ s' /\ (a = [] -> b = z).
Proof using Hlast Hz Hcont.
  intros (x & a & E & Hp & Hq) Hi. unfold inside in Hi. rewrite Hp, length_app in Hi. destruct a as [|b a]; [cbn in Hi; lia|]. exists x, b, a. split_and!; [done..|]. intros ->. assert (last [b] = Some z) as [= ->]; [|done]. by eapply last_suffix.
Qed.
Lemma crlf_swap b a : (a = [] -> b = z) -> crlf (b :: a ++ s) = crlf (b :: a ++ s').
Proof using Hlast Hz Hcont. intros H. destruct a as [|c a]; [|done]. specialize (H eq_refl). subst b. cbn [app]. unfold crlf. destruct (Z.eqb_spec z 13); [done|]. by destruct s, s'. Qed.

Lemma next_sim p q b p' : sim p q -> inside p -> next p = Some (b, p') -> exists q', next q = Some (b, q') /\ sim p' q' /\ (z = 10 -> b <> 10 -> inside p').
Proof using Hlast Hz Hcont.
  intros Hs Hi. destruct (inside_cons p q Hs Hi) as (x & c & a & EA & Hp & Hq & Hc). unfold next. rewrite Hp, Hq, <- (crlf_swap c a Hc). destruct (crlf (c :: a ++ s)) eqn:E.
  - intros [= <- <-]. eexists. split; [done|]. split; [|done]. destruct a as [|d a]; [exfalso; specialize (Hc eq_refl); subst c; apply crlf_true in E as [t [= -> _]]; done|]. exists (x ++ [c; d]), a. split_and!; [by rewrite <- app_assoc|done..].
  - intros [= <- <-]. eexists. split; [done|]. split; [exists (x ++ [c]), a; split_and!; [by rewrite <- app_assoc|done..]|]. intros H10 Hne. unfold inside. cbn [rest]. rewrite length_app. destruct a; [|cbn; lia]. specialize (Hc eq_refl). congruence.
Qed.
Lemma inside_next p : inside p -> exists b p', next p = Some (b, p').
Proof using Hlast Hz Hcont. unfold inside, next. destruct (rest p); [cbn; lia|]. intros _. destruct (crlf _); eauto. Qed.
Lemma peek_sim p q : sim p q -> inside p -> peek q = peek p.
Proof using Hlast Hz Hcont. intros Hs Hi. rewrite !peek_next. destruct (inside_next p Hi) as (b & p' & E). destruct (next_sim p q b p' Hs Hi E) as (q' & E' & _). by rewrite E, E'. Qed.

(** An escape is not the end of the prefix. *)
Lemma escape_inside p q p1 e p2 : sim p q -> inside p -> next p = Some (92, p1) -> next p1 = Some (e, p2) -> z = 10 -> inside p2.
Proof using Hlast Hz Hcont.
  intros Hs Hi H1 H2 H10. destruct (next_sim p q 92 p1 Hs Hi H1) as (q1 & _ & Hs1 & Hi1). specialize (Hi1 H10 ltac:(done)). destruct (next_sim p1 q1 e p2 Hs1 Hi1 H2) as (q2 & _ & Hs2 & Hi2). destruct (decide (e = 10)) as [-> |]; [|by apply Hi2].
  destruct Hs2 as (x & a & EA & Hp2 & _). unfold inside. rewrite Hp2, length_app. destruct a as [|? a]; [exfalso|cbn; lia]. rewrite app_nil_r in EA. cbn [app] in Hp2. apply next_after in H1 as (c1 & [R1 _] & _ & Hc1). apply next_after in H2 as (c2 & [R2 _] & _ & Hc2). destruct Hc1 as [-> |[? _]]; [|done].
  destruct Hs as (x0 & a0 & E0 & Hp0 & _). rewrite R1, R2, Hp2, app_assoc in Hp0. apply app_inv_tail in Hp0. destruct (Hcont H10 x0) as [Ha Hb]. destruct Hc2 as [-> |[_ ->]]; rewrite E0, <- Hp0 in Ha, Hb; done.
Qed.

Lemma span_swap f a : (length s < length (span f (a ++ s)).2)%nat -> exists y a', a = y ++ a' /\ a' <> [] /\ (span f (a ++ s)) = (y, a' ++ s) /\ span f (a ++ s') = (y, a' ++ s').
Proof using Hlast Hz Hcont.
  induction a as [|b a IH]; cbn [app span].
  - intros H. pose proof (span_spec f s) as Hs. destruct (span f s) as [y t]. destruct Hs as (Hs & _). cbn [snd] in H. rewrite Hs, length_app in H. lia.
  - destruct (f b); [|intros _; exists [], (b :: a); by split_and!]. destruct (span f (a ++ s)) as [y t] eqn:E. cbn [snd] in *. intros H. destruct (IH H) as (y' & a' & -> & Hne & [= -> ->] & E'). rewrite E'. by exists (b :: y'), a'.
Qed.
Lemma take_while_sim f p q : f 10 = false -> sim p q -> inside p -> z = 10 \/ inside (take_while f p).2 -> (take_while f q).1 = (take_while f p).1 /\ sim (take_while f p).2 (take_while f q).2 /\ inside (take_while f p).2.
Proof using Hlast Hz Hcont.
  intros Hf Hs Hi Hor. assert (inside (take_while f p).2) as Hin.
  { destruct Hor as [H10|]; [|done]. destruct (inside_cons p q Hs Hi) as (x & b & a & EA & Hp & _ & _). unfold inside, take_while. rewrite Hp. pose proof (span_spec f (b :: a ++ s)) as Hsp. destruct (span f (b :: a ++ s)) as [y t] eqn:E. destruct Hsp as (Hsp & Hall & _). cbn [rest snd].
    destruct (decide (length s < length t)%nat) as [|Hn]; [done|]. exfalso. assert (10 ∈ y) as H; [|rewrite Forall_forall in Hall; by rewrite (Hall 10 H) in Hf]. assert (last (b :: a) = Some 10) as Hl by (rewrite <- H10; by eapply last_suffix). apply last_Some in Hl as [l El]. change (b :: a ++ s) with ((b :: a) ++ s) in Hsp. rewrite El in Hsp.
    assert (exists u, y = l ++ 10 :: u) as [u ->]; [|apply elem_of_app; right; left]. rewrite <- app_assoc in Hsp. assert (length t <= length s)%nat as Hts by lia. assert (y = take (length y) (l ++ [10] ++ s)) as -> by (by rewrite Hsp, take_app_length). exists (take (length y - length l - 1) s).
    apply (f_equal length) in Hsp. rewrite !length_app in Hsp. cbn [length] in Hsp. rewrite take_app_ge by lia. f_equal. cbn [app]. destruct (length y - length l)%nat as [|k] eqn:Ek; [lia|]. cbn [take]. do 2 f_equal. lia. }
  split_and!; [| |done]; destruct Hs as (x & a & EA & Hp & Hq); unfold inside, take_while in *; rewrite Hp in Hin; rewrite Hp, Hq; destruct (span_swap f a) as (y & a' & Ea & Hne & E1 & E2); try (rewrite E1, E2; try done).
  - by destruct (span f (a ++ s)).
  - by destruct (span f (a ++ s)).
  - exists (x ++ y), a'. cbn [rest snd]. split_and!; [by rewrite EA, Ea, app_assoc|done..].
Qed.
Lemma space_sim p q : sim p q -> inside p -> z = 10 \/ inside (space p) -> sim (space p) (space q) /\ inside (space p).
Proof using Hlast Hz Hcont. intros Hs Hi Hor. by apply (take_while_sim blank p q). Qed.

Lemma comment_swap a n m : (a <> [] -> last a = Some z) -> z = 10 \/ (length s < length (comment_loop (a ++ s) n).1)%nat -> a <> [] ->
  exists y a', a = y ++ a' /\ a' <> [] /\ (comment_loop (a ++ s) n).1 = a' ++ s /\ (comment_loop (a ++ s') m).1 = a' ++ s'.
Proof using Hlast Hz Hcont.
  revert n m. induction a as [|b a IH]; intros n m Hl Hor Hne; [done|]. cbn [app comment_loop] in *. assert (a = [] -> b = z) as Hb by (intros ->; specialize (Hl Hne); cbn in Hl; congruence). rewrite <- (crlf_swap b a Hb). destruct (_ || _) eqn:E; [exists [], (b :: a); by split_and!|].
  destruct a as [|c a].
  - exfalso. specialize (Hb eq_refl). subst b. destruct Hor as [-> |Hor]; [done|]. cbn [app] in Hor. pose proof (comment_loop_spec s (n + 1)) as Hs. destruct (comment_loop s (n + 1)) as [t k]. destruct Hs as (y & Hs & _). cbn [fst] in Hor. rewrite Hs, length_app in Hor. lia.
  - destruct (IH (n + 1) (m + 1)) as (y & a' & E1 & E2 & E3 & E4); [intros _; by apply Hl|done|done|]. exists (b :: y), a'. split_and!; [by rewrite E1|done..].
Qed.
Lemma comment_sim p q : sim p q -> inside p -> z = 10 \/ inside (comment p) -> sim (comment p) (comment q) /\ inside (comment p).
Proof using Hlast Hz Hcont.
  intros Hs Hi Hor. destruct (inside_cons p q Hs Hi) as (x & b & a & EA & Hp & Hq & _). destruct (comment_swap (b :: a) (pos p) (pos q)) as (y & a' & E1 & E2 & E3 & E4); [intros; by eapply last_suffix| |done|].
  - destruct Hor as [|Hor]; [by left|right]. unfold inside, comment in Hor. rewrite Hp in Hor. change (b :: a ++ s) with ((b :: a) ++ s) in Hor. by destruct (comment_loop _ _).
  - unfold sim, inside, comment. rewrite Hp, Hq. change (b :: a ++ s) with ((b :: a) ++ s). change (b :: a ++ s') with ((b :: a) ++ s'). destruct (comment_loop ((b :: a) ++ s) _), (comment_loop ((b :: a) ++ s') _). cbn [fst rest] in *. subst. split; [exists (x ++ y), a'; split_and!; [by rewrite EA, E1, app_assoc|done..]|]. rewrite length_app. destruct a'; [done|cbn; lia].
Qed.

Lemma inside_after p c p' : after p c p' -> inside p' -> inside p.
Proof using Hlast Hz Hcont. intros H. apply after_length in H. unfold inside. lia. Qed.
(** What remains to be inside is, when the whole is. *)
Lemma or_inside p c p' : after p c p' -> z = 10 \/ inside p' -> z = 10 \/ inside p.
Proof using Hlast Hz Hcont. intros H [|Hi]; [by left|right]. by eapply inside_after. Qed.
Lemma next_inside p q b p1 c p' : sim p q -> inside p -> next p = Some (b, p1) -> b <> 10 -> after p1 c p' -> z = 10 \/ inside p' -> exists q1, next q = Some (b, q1) /\ sim p1 q1 /\ inside p1.
Proof using Hlast Hz Hcont.
  intros Hs Hi Hn Hb Ha Hor. destruct (next_sim p q b p1 Hs Hi Hn) as (q1 & H1 & H2 & H3). exists q1. split_and!; [done..|]. destruct (or_inside _ _ _ Ha Hor); [by apply H3|done].
Qed.

Lemma name_sim v p q n p' : sim p q -> inside p -> name v p = Ok (n, p') -> z = 10 \/ inside p' -> exists q', name v q = Ok (n, q') /\ sim p' q' /\ inside p'.
Proof using Hlast Hz Hcont.
  intros Hs Hi. unfold name. rewrite (peek_sim p q Hs Hi). destruct (_ && _); [done|]. pose proof (take_while_sim name_byte p q eq_refl Hs Hi) as Ht. destruct (take_while name_byte p) as [a p1], (take_while name_byte q) as [a' q1]. cbn [fst snd] in Ht. destruct a as [|b a]; [done|]. intros [<- <-]%ok_inj%pair_equal_spec Hor. destruct (Ht Hor) as (-> & H1 & H2). eauto.
Qed.

Lemma value_loop_sim n p q v qd k out p' : sim p q -> inside p -> value_loop n p v qd k = Ok (out, p') -> z = 10 \/ inside p' -> exists q', value_loop n q v qd k = Ok (out, q') /\ sim p' q'.
Proof using Hlast Hz Hcont.
  revert p q v qd k. induction n as [|n IH]; intros p q v qd k Hs Hi H Hor; [done|]. cbn [value_loop] in *. destruct (inside_next p Hi) as (b & p1 & En). rewrite En in H. destruct (next_sim p q b p1 Hs Hi En) as (q1 & -> & Hs1 & Hi1). destruct (b =? 0); [done|]. destruct (Z.eqb_spec b 10) as [-> |Hb].
  { destruct qd; [done|]. apply ok_inj, pair_equal_spec in H as [<- <-]. eauto. }
  assert (forall c, after p1 c p' -> inside p1) as Hin by (intros c Hc; destruct (or_inside _ _ _ Hc Hor); [by apply Hi1|done]).
  assert (forall q0 v qd k, rest q0 = rest p1 -> value_loop n q0 v qd k = Ok (out, p') -> inside p1) as Hcall. { intros q0 v0 qd0 k0 E0 (c & [Hc _])%value_loop_after. destruct Hor as [H10|Hor]; [by apply Hi1|]. unfold inside in *. rewrite E0 in Hc. rewrite Hc, length_app. lia. }
  destruct (b =? 34); [by apply (IH (ended p1) (ended q1) v (negb qd) (length v) Hs1 (Hcall (ended p1) _ _ _ eq_refl H))|]. destruct (_ && _).
  { apply ok_inj, pair_equal_spec in H as [<- <-]. destruct (comment_after p1) as (c & Hc & _). destruct (comment_sim p1 q1 Hs1 (Hin c Hc) Hor) as [H1 _]. eauto. }
  destruct (Z.eqb_spec b 92) as [-> |Hb'].
  { destruct (next p1) as [[e p2]|] eqn:En2; [|done]. assert (inside p1) as Hi1'. { destruct Hor as [H10|Hor]; [by apply Hi1|]. apply next_after in En2 as (c2 & Hc2 & _). apply (inside_after p1 c2 p2 Hc2). destruct (e =? 10); [|destruct (escape e); [|done]]; apply value_loop_after in H as (c & Hc & _); unfold inside in *; cbn [rest ended] in Hc; rewrite Hc, length_app; lia. }
    destruct (next_sim p1 q1 e p2 Hs1 Hi1' En2) as (q2 & -> & Hs2 & _). assert (forall w k, value_loop n (ended p2) w qd k = Ok (out, p') -> inside p2) as Hcall2. { intros w k0 (c & [Hc _])%value_loop_after. destruct Hor as [H10|Hor]; [by eapply (escape_inside p q p1 e p2)|]. unfold inside in *. cbn [rest ended] in Hc. rewrite Hc, length_app. lia. }
    destruct (e =? 10); [by apply (IH (ended p2) (ended q2) v qd (length v) Hs2 (Hcall2 _ _ H))|]. destruct (escape e) as [c|]; [|done]. by apply (IH (ended p2) (ended q2) _ qd _ Hs2 (Hcall2 _ _ H)). }
  destruct (_ && _); [by apply (IH p1 q1 v qd k Hs1 (Hcall p1 _ _ _ eq_refl H))|]. destruct (_ || _); [by apply (IH (ended p1) (ended q1) _ qd _ Hs1 (Hcall (ended p1) _ _ _ eq_refl H))|by apply (IH p1 q1 _ qd k Hs1 (Hcall p1 _ _ _ eq_refl H))].
Qed.
Lemma value_sim p q v p' : sim p q -> inside p -> value p = Ok (v, p') -> z = 10 \/ inside p' -> exists q', value q = Ok (v, q') /\ sim p' q'.
Proof using Hlast Hz Hcont.
  intros Hs Hi. unfold value. intros H Hor. pose proof H as (c & Hc)%value_loop_after. destruct (space_sim p q Hs Hi) as [Hs1 Hi1]; [by eapply (or_inside (space p) c p')|]. apply (value_loop_sim _ (ended (space p)) (ended (space q))) in H as (q' & H & Hs'); [|done|done|done].
  apply (value_loop_like _ (S (length (rest (space q)))) _ (ended (space q))) in H as (q2 & H & E2); [|done|cbn; lia]. exists q2. split; [done|]. unfold sim. by rewrite E2.
Qed.

Lemma subsection_sim n p q v out p' : sim p q -> inside p -> subsection_loop n p v = Ok (out, p') -> z = 10 \/ inside p' -> exists q', subsection_loop n q v = Ok (out, q') /\ sim p' q' /\ inside p'.
Proof using Hlast Hz Hcont.
  revert p q v. induction n as [|n IH]; intros p q v Hs Hi H Hor; [done|]. cbn [subsection_loop] in *. destruct (next p) as [[b p1]|] eqn:En; [|done]. assert (b <> 10) as Hb by (intros ->; cbn in H; done).
  assert (exists c, after p1 c p') as [c Hc].
  { destruct (b =? 34); [apply ok_inj, pair_equal_spec in H as [_ <-]; exists []; by apply after_refl|]. destruct (b =? 92); [|destruct (_ || _); [done|by eapply subsection_after]]. destruct (next p1) as [[e p2]|] eqn:En2; [|done]. destruct (_ || _); [done|]. apply subsection_after in H as (c & Hc). apply next_after in En2 as (c2 & Hc2 & _). exists (c2 ++ c). by eapply after_trans. }
  destruct (next_inside p q b p1 c p' Hs Hi En Hb Hc Hor) as (q1 & -> & Hs1 & Hi1). destruct (b =? 34); [apply ok_inj, pair_equal_spec in H as [<- <-]; eauto|]. destruct (b =? 92).
  - destruct (next p1) as [[e p2]|] eqn:En2; [|done]. destruct (_ || _) eqn:Ee; [done|]. assert (e <> 10) as He by (intros ->; done). pose proof H as (c3 & Hc3)%subsection_after. destruct (next_inside p1 q1 e p2 c3 p' Hs1 Hi1 En2 He Hc3 Hor) as (q2 & -> & Hs2 & Hi2). rewrite Ee. by apply (IH p2 q2).
  - destruct (_ || _); [done|]. by apply (IH p1 q1).
Qed.

Lemma header_sim p q n p' : sim p q -> inside p -> parse_header p = Ok (n, p') -> z = 10 \/ inside p' -> exists q', parse_header q = Ok (n, q') /\ sim p' q' /\ inside p'.
Proof using Hlast Hz Hcont.
  intros Hs Hi. unfold parse_header. intros ([sec p1] & H1 & H)%rbind_Ok Hor. destruct (if bool_decide (peek p1 = Some 46) then match next p1 with _ => _ end else _) as [sub p2] eqn:E2. apply rbind_Ok in H as ([sub' p4] & H4 & H). destruct (next p4) as [[b5 p5]|] eqn:En5; [|done]. destruct (Z.eqb_spec b5 93) as [-> |]; [|done]. apply ok_inj, pair_equal_spec in H as [<- <-].
  assert (exists c, after (space p2) c p4) as [c4 A4].
  { destruct (bool_decide (peek (space p2) = Some 34)); [|apply ok_inj, pair_equal_spec in H4 as [_ <-]; exists []; by apply after_refl]. destruct (negb _); [done|]. destruct (next (space p2)) as [[b p3]|] eqn:En; [|apply ok_inj, pair_equal_spec in H4 as [_ <-]; exists []; by apply after_refl]. apply next_after in En as (c & Hc & _).
    apply rbind_Ok in H4 as ([v q2] & (c' & Hc')%subsection_after & H4). apply ok_inj, pair_equal_spec in H4 as [_ <-]. destruct (space_after q2) as (c'' & Hc'' & _). exists ((c ++ c') ++ c''). eapply after_trans; [by eapply after_trans|done]. }
  assert (exists c, after p1 c p2) as [c2 A2].
  { destruct (bool_decide (peek p1 = Some 46)); [|apply pair_equal_spec in E2 as [_ <-]; exists []; by apply after_refl]. destruct (next p1) as [[b p3]|] eqn:En; [|apply pair_equal_spec in E2 as [_ <-]; exists []; by apply after_refl]. apply next_after in En as (c & Hc & _).
    pose proof (take_while_after (fun b => alphanumeric b || (b =? 45) || (b =? 46)) p3) as Ht. destruct (take_while _ p3) as [a p3']. destruct Ht as (Ht & _). apply pair_equal_spec in E2 as [_ <-]. exists (c ++ a). by eapply after_trans. }
  pose proof En5 as (c5 & A5 & _)%next_after. destruct (space_after p2) as (c3 & A3 & _). assert (z = 10 \/ inside p4) as O4 by (by eapply or_inside). assert (z = 10 \/ inside (space p2)) as O3 by (by eapply or_inside). assert (z = 10 \/ inside p2) as O2 by (by eapply or_inside). assert (z = 10 \/ inside p1) as O1 by (by eapply or_inside).
  destruct (name_sim false p q sec p1 Hs Hi H1 O1) as (q1 & -> & S1 & I1). cbn [rbind]. rewrite (peek_sim p1 q1 S1 I1).
  assert (exists q2, (if bool_decide (peek p1 = Some 46) then match next q1 with Some (_, p) => let '(taken, p) := take_while (fun b => alphanumeric b || (b =? 45) || (b =? 46)) p in (Some (map to_lower taken), p) | None => (None, q1) end else (None, q1)) = (sub, q2) /\ sim p2 q2 /\ inside p2) as (q2 & -> & S2 & I2).
  { destruct (bool_decide (peek p1 = Some 46)) eqn:Ed; [|apply pair_equal_spec in E2 as [<- <-]; eauto]. apply bool_decide_eq_true in Ed. rewrite peek_next in Ed. destruct (next p1) as [[b p3]|] eqn:En; [|done]. cbn in Ed. injection Ed as ->.
    pose proof (take_while_after (fun b => alphanumeric b || (b =? 45) || (b =? 46)) p3) as Ht. pose proof (fun q3 => take_while_sim (fun b => alphanumeric b || (b =? 45) || (b =? 46)) p3 q3 eq_refl) as Hts. destruct (take_while _ p3) as [a p3']. destruct Ht as (Ht & _). cbn [fst snd] in Hts. apply pair_equal_spec in E2 as [<- <-].
    destruct (next_inside p1 q1 46 p3 a p3' S1 I1 En ltac:(done) Ht O2) as (q3 & -> & S3 & I3). destruct (Hts q3 S3 I3 O2) as (F1 & F2 & F3). destruct (take_while _ q3) as [a' q3']. cbn [fst snd] in *. subst a'. eauto. }
  rewrite (peek_sim p2 q2 S2 I2). destruct (space_sim p2 q2 S2 I2 O3) as [S3 I3]. rewrite (peek_sim _ _ S3 I3). set (separated := match peek p2 with Some _ => _ | None => _ end) in *.
  assert (exists q4, (if bool_decide (peek (space p2) = Some 34) then if negb separated then Err (error (space q2) "subsection requires whitespace") else match next (space q2) with Some (_, p) => let? (v, p) := subsection_loop (S (length (rest p))) p [] in Ok (Some v, space p) | None => Ok (sub, space q2) end else Ok (sub, space q2)) = Ok (sub', q4) /\ sim p4 q4 /\ inside p4) as (q4 & -> & S4 & I4).
  { destruct (bool_decide (peek (space p2) = Some 34)) eqn:Eq; [|apply ok_inj, pair_equal_spec in H4 as [<- <-]; eauto]. apply bool_decide_eq_true in Eq. destruct (negb separated); [done|]. rewrite peek_next in Eq. destruct (next (space p2)) as [[b p6]|] eqn:En; [|done]. cbn in Eq. injection Eq as ->.
    apply rbind_Ok in H4 as ([v p7] & H7 & H4). apply ok_inj, pair_equal_spec in H4 as [<- <-]. pose proof H7 as (c7 & A7)%subsection_after. destruct (space_after p7) as (c8 & A8 & _). assert (z = 10 \/ inside p7) as O7 by (by eapply or_inside).
    destruct (next_inside _ _ 34 p6 c7 p7 S3 I3 En ltac:(done) A7 O7) as (q6 & -> & S6 & I6). destruct (subsection_sim _ p6 q6 [] v p7 S6 I6 H7 O7) as (q7 & H7' & S7 & I7). apply (subsection_like _ (S (length (rest q6))) q6 q6) in H7' as (q8 & -> & E8); [|done|lia]. cbn [rbind].
    assert (sim p7 q8) as S8 by (unfold sim; by rewrite E8). destruct (space_sim p7 q8 S8 I7 O4) as [S9 I9]. eauto. }
  cbn [rbind]. destruct (next_inside p4 q4 93 p5 [] p5 S4 I4 En5 ltac:(done)) as (q5 & -> & S5 & I5); [by apply after_refl|done|]. eauto.
Qed.

Lemma assignment_sim p q n v a b p' : sim p q -> inside p -> parse_assignment p = Ok (n, v, a, b, p') -> z = 10 \/ inside p' -> exists a' b' q', parse_assignment q = Ok (n, v, a', b', q') /\ sim p' q'.
Proof using Hlast Hz Hcont.
  intros Hs Hi. unfold parse_assignment. intros ([n' p1] & H1 & H)%rbind_Ok Hor. destruct (space_after p1) as (c2 & A2 & _). assert (exists c, after (space p1) c p') as [c3 A3].
  { assert (p' = space p1 -> exists c, after (space p1) c p') as Hs2 by (intros ->; exists []; by apply after_refl). destruct (peek (space p1)) as [x|]; [|apply Hs2; congruence]. destruct (x =? 61).
    - destruct (next (space p1)) as [[y p3]|] eqn:En; [|apply Hs2; congruence]. apply next_after in En as (c3 & H3 & _). apply rbind_Ok in H as ([w p4] & (c4 & H4)%value_after & H). injection H as <- <- <- <- <-. destruct (space_after p3) as (c5 & H5 & _). exists ((c3 ++ c5) ++ c4). eapply after_trans; [by eapply after_trans|done].
    - destruct (_ || _ || _); [apply Hs2; congruence|done]. }
  assert (z = 10 \/ inside (space p1)) as O2 by (by eapply or_inside). assert (z = 10 \/ inside p1) as O1 by (by eapply or_inside). destruct (name_sim true p q n' p1 Hs Hi H1 O1) as (q1 & -> & S1 & I1). cbn [rbind]. destruct (space_sim p1 q1 S1 I1 O2) as [S2 I2]. rewrite (peek_sim _ _ S2 I2), peek_next in *.
  destruct (inside_next _ I2) as (x & p3 & En). rewrite En in *. cbn [fmap option_fmap option_map fst] in *. destruct (Z.eqb_spec x 61) as [-> |].
  - apply rbind_Ok in H as ([w p4] & H4 & H). injection H as <- <- <- <- <-. pose proof H4 as (c4 & A4)%value_after. destruct (space_after p3) as (c5 & A5 & _). destruct (next_inside _ _ 61 p3 (c5 ++ c4) p4 S2 I2 En ltac:(done)) as (q3 & -> & S3 & I3); [by eapply after_trans|done|]. destruct (space_sim p3 q3 S3 I3) as [S5 I5]; [by eapply or_inside|].
    destruct (value_sim _ _ w p4 S5 I5 H4 Hor) as (q4 & -> & S4). cbn [rbind]. eauto 6.
  - destruct (_ || _ || _); [injection H as <- <- <- <- <-; eauto 6|done].
Qed.

(** States that differ in what follows. *)
Record matched (st t : State) : Prop := {
  mt_sim : sim (parser st) (parser t);
  mt_section : section t = section st;
  mt_subsection : subsection t = subsection st;
  mt_sections : sections (found t) = sections (found st);
  mt_occurrences : occurrences (found t) = occurrences (found st);
  mt_count : zlen (entries (found t)) = zlen (entries (found st))
}.

Lemma step_sim retain offset st t st' : matched st t -> inside (parser st) -> step retain offset st = Ok (Some st') -> z = 10 \/ inside (parser st') -> exists t', step retain offset t = Ok (Some t') /\ matched st' t' /\ added st st' t t'.
Proof using Hlast Hz Hcont.
  intros [R S1 S2 S3 S4 S5] Hi H Hor. pose proof H as (c & Hc & _)%step_after. unfold step in *. destruct (space_after (parser st)) as (c0 & A0 & _). set (p := space (parser st)) in *.
  assert (z = 10 \/ inside p) as O0.
  { destruct Hor as [|Hor]; [by left|right]. destruct (peek p) as [b|]; [|done]. destruct (b =? 10); [destruct (next p) as [[x p1]|] eqn:En; [|done]; apply ok_inj in H; injection H as <-; apply next_after in En as (c1 & H1 & _); by eapply inside_after|]. destruct (_ || _).
    { apply ok_inj in H. injection H as <-. destruct (comment_after p) as (c1 & H1 & _). by eapply inside_after. }
    destruct (b =? 91); [destruct (next p) as [[x p1]|] eqn:En; [|done]; apply rbind_Ok in H as ([n p2] & (c2 & H2)%header_after & H); apply ok_inj in H; injection H as <-; apply next_after in En as (c1 & H1 & _); eapply (inside_after p (c1 ++ c2) p2); [by eapply after_trans|done]|].
    destruct (bool_decide _); [done|]. apply rbind_Ok in H as ([[[[n v] x] y] p2] & (c2 & H2 & _)%assignment_after & (s1 & Hs1 & H)%rbind_Ok). apply ok_inj in H. injection H as <-. apply add_entry_parser in Hs1. cbn [snd] in Hs1. rewrite Hs1 in Hor. by eapply inside_after. }
  destruct (space_sim _ _ R Hi O0) as [R1 I1]. fold p in R1, I1. rewrite (peek_sim _ _ R1 I1), peek_next in *. destruct (inside_next p I1) as (b & p1 & En). rewrite En in *. cbn [fmap option_fmap option_map fst] in *. destruct (next_sim _ _ b p1 R1 I1 En) as (q1 & Eq1 & R2 & I2). rewrite Eq1.
  destruct (Z.eqb_spec b 10) as [-> |Hb]; [apply ok_inj in H; injection H as <-; eexists; split; [done|]; split; [by constructor|by apply added_none]|]. destruct (_ || _).
  { apply ok_inj in H. injection H as <-. cbn [parser at_parser] in Hor. destruct (comment_sim _ _ R1 I1 Hor) as [R3 _]. eexists. split; [done|]. split; [by constructor|by apply added_none]. }
  destruct (b =? 91).
  { apply rbind_Ok in H as ([n p2] & H2 & H). apply ok_inj in H. injection H as <-. cbn [parser add_section] in Hor. pose proof H2 as (c2 & A2)%header_after. assert (inside p1) as I1' by (destruct (or_inside _ _ _ A2 Hor); [by apply I2|done]).
    destruct (header_sim p1 q1 n p2 R2 I1' H2 Hor) as (q2 & -> & R3 & _). cbn [rbind]. eexists. split; [done|]. split; [|by apply added_none]. constructor; cbn; try done; [by rewrite S3|by rewrite S4, S5]. }
  rewrite S1. destruct (bool_decide _); [done|]. apply rbind_Ok in H as ([[[[n v] x] y] p2] & H2 & (s1 & Hs1 & H)%rbind_Ok). apply ok_inj in H. injection H as <-. pose proof Hs1 as Hpr%add_entry_parser. cbn [snd] in Hpr. rewrite Hpr in Hor. destruct (assignment_sim p _ n v x y p2 R1 I1 H2 Hor) as (x' & y' & q2 & -> & R3). cbn [rbind].
  unfold add_entry in *. apply rbind_Ok in Hs1 as (os & Ho & <-%ok_inj). apply ok_or_Ok in Ho. rewrite S4, S5, Ho. cbn [ok_or rbind]. eexists. split; [done|]. split.
  - constructor; cbn; try done. rewrite !zlen_app, S5. done.
  - eexists [_], [_]. split_and!; [done|done|]. cbn. unfold view. cbn. by rewrite S1, S2.
Qed.

Lemma steps_sim retain offset st t st' : steps retain offset st st' -> matched st t -> (z = 10 /\ s = []) \/ inside (parser st') -> exists t', steps retain offset t t' /\ matched st' t' /\ added st st' t t'.
Proof using Hlast Hz Hcont.
  intros H. revert t. induction H as [st|st st1 st' H Hs IH]; intros t Hm Hor; [exists t; split_and!; [constructor|done|by apply added_none]|]. pose proof (steps_after _ _ _ _ Hs) as (c & Hc). pose proof H as (c0 & Hc0 & Hne)%step_after.
  destruct (step_sim retain offset st t st1) as (t1 & H1 & M1 & D1); [done| |done| |].
  - destruct Hor as [[_ Es]|Hi]; [|eapply inside_after; [exact Hc0|]; by eapply inside_after]. destruct Hc0 as [Hr _]. unfold inside. apply (f_equal length) in Hr. rewrite length_app in Hr. destruct c0; [done|]. rewrite Es. cbn [length] in *. lia.
  - destruct Hor as [[? _]|Hi]; [by left|right]. by eapply inside_after.
  - destruct (IH t1 M1 Hor) as (t' & H2 & M2 & D2). exists t'. split_and!; [by econstructor|done|by eapply added_trans].
Qed.
End Swap.
End ConfigSwap.
