(* ===== verification/ConfigValue.v ===== *)
(** * Configuration files: values that were written

    What [quote] writes, [value] reads back, whatever blanks, comment or line end follow;
    the bytes of a value that was read spell it, and leave only such bytes behind. *)

From stdpp Require Import base list numbers strings sets.
From Stdlib Require Import ZArith Lia.
From S2P Require Import Prelude Config ConfigParse.

Module ConfigValue.
Import Config ConfigParse.

(** ** After a value *)

(** Blanks and the end of a line or of the file; a comment stops before its line end. *)
Definition line_end (u r : bytes) : Prop := (u = [] /\ r = []) \/ u = 10 :: r \/ u = 13 :: 10 :: r \/ exists b x, (b = 35 \/ b = 59) /\ u = b :: x /\ r = (comment_loop x 0).1.
Definition trailing (t r : bytes) : Prop := exists w u, t = w ++ u /\ Forall (fun b => blank b = true) w /\ line_end u r.

Lemma blank_cases b : blank b = true -> b = 32 \/ b = 9.
Proof. unfold blank. intros [E%Z.eqb_eq|E%Z.eqb_eq]%orb_true_iff; auto. Qed.
Lemma next_cons p b r : rest p = b :: r -> crlf (b :: r) = false -> exists p', next p = Some (b, p') /\ rest p' = r /\ value_end p' = value_end p /\ pos p' = pos p + 1.
Proof. intros E Hc. unfold next. rewrite E, Hc. eexists. split; [reflexivity|]. done. Qed.
Lemma crlf_other b r : b <> 13 -> crlf (b :: r) = false.
Proof. intros Hb. unfold crlf. destruct r; [done|]. by destruct (Z.eqb_spec b 13). Qed.
Lemma comment_loop_fst r n m : (comment_loop r n).1 = (comment_loop r m).1.
Proof. revert n m. induction r as [|b r IH]; intros n m; cbn [comment_loop]; [done|]. by destruct (_ || _). Qed.
Lemma rest_comment p : rest (comment p) = (comment_loop (rest p) 0).1.
Proof. unfold comment. rewrite (comment_loop_fst _ 0 (pos p)). by destruct (comment_loop (rest p) (pos p)). Qed.

Lemma tail_loop m p v w r : trailing (rest p) r -> (length (rest p) < m)%nat -> exists p', value_loop m p (v ++ w) false (length v) = Ok (v, p') /\ rest p' = r.
Proof.
  intros (bl & u & E & Hb & Hu). revert m p w E. induction Hb as [|b bl Hb _ IH]; intros m p w E Hm; (destruct m as [|m]; [lia|]); cbn [value_loop].
  - cbn [app] in E. destruct Hu as [[-> ->]|[-> |[-> |(b & x & Hb & -> & ->)]]].
    + unfold next. rewrite E. eexists. split; [by rewrite take_app_length|done].
    + destruct (next_cons p 10 r E) as (p' & -> & H & _); [by apply crlf_other|]. cbn [Z.eqb Pos.eqb]. eexists. split; [by rewrite take_app_length|done].
    + unfold next. rewrite E. cbn [crlf Z.eqb Pos.eqb andb drop]. eexists. split; [by rewrite take_app_length|done].
    + destruct (next_cons p b x E) as (p' & -> & H & _); [apply crlf_other; destruct Hb; lia|]. assert (b =? 0 = false /\ b =? 10 = false /\ b =? 34 = false /\ ((b =? 35) || (b =? 59)) && negb false = true) as (-> & -> & -> & ->) by (by destruct Hb as [-> | ->]). eexists. split; [by rewrite take_app_length|]. by rewrite rest_comment, H.
  - destruct (next_cons p b (bl ++ u) E) as (p' & -> & H & _); [apply crlf_other; destruct (blank_cases b Hb); lia|]. assert (b =? 0 = false /\ b =? 10 = false /\ b =? 34 = false /\ ((b =? 35) || (b =? 59)) && negb false = false /\ b =? 92 = false) as (-> & -> & -> & -> & ->) by (by destruct (blank_cases b Hb) as [-> | ->]).
    rewrite Hb. cbn [negb andb orb]. assert (length (rest p') < m)%nat as Hm' by (rewrite E in Hm; rewrite H; cbn [length app] in Hm; lia). destruct (bool_decide (v ++ w = [])); [by apply (IH m p' w)|]. rewrite <- app_assoc. by apply (IH m p' (w ++ [b])).
Qed.

(** ** Spellings

    How bytes spell a value, from [acc] on and inside quotes or not: quotes, escapes,
    continued lines, blanks before the value, and plain bytes. *)
Inductive spells : bool -> bytes -> bytes -> bytes -> Prop :=
| spells_end acc : spells false acc [] acc
| spells_quote quoted acc r v : spells (negb quoted) acc r v -> spells quoted acc (34 :: r) v
| spells_escape quoted acc e b r v :
    (e, b) ∈ [(110, 10); (116, 9); (98, 8); (92, 92); (34, 34)] -> spells quoted (acc ++ [b]) r v -> spells quoted acc (92 :: e :: r) v
| spells_continued quoted acc eol r v : eol = [10] \/ eol = [13; 10] -> spells quoted acc r v -> spells quoted acc (92 :: eol ++ r) v
| spells_blank b r v : b = 32 \/ b = 9 -> spells false [] r v -> spells false [] (b :: r) v
| spells_byte quoted acc b r v :
    b ∉ [0; 10; 34; 92] -> (b = 13 -> head r <> Some 10) -> (quoted = false -> b ∉ [35; 59] /\ (b = 32 \/ b = 9 -> acc <> [])) ->
    spells quoted (acc ++ [b]) r v -> spells quoted acc (b :: r) v.

(** The first [d] bytes of [l] spell a value and only trailing bytes follow, up to [r]. *)
Definition stops (quoted : bool) (acc l : bytes) (d : Z) (v r : bytes) : Prop := exists c t, l = c ++ t /\ d = zlen c /\ trailing t r /\ spells quoted acc c v.

Lemma stops_here acc l r : trailing l r -> stops false acc l 0 acc r.
Proof. intros H. exists [], l. split_and!; [done..|constructor]. Qed.
Lemma stops_more quoted acc x quoted' acc' l d v r : stops quoted' acc' l d v r -> (forall c t, l = c ++ t -> spells quoted' acc' c v -> spells quoted acc (x ++ c) v) -> stops quoted acc (x ++ l) (zlen x + d) v r.
Proof. intros (c & t & -> & -> & Ht & Hc) H. exists (x ++ c), t. split_and!; [by rewrite app_assoc|by rewrite zlen_app|done|by eapply H]. Qed.

(** Blanks are part of a value when it has begun. *)
Definition pending (acc w : bytes) : bytes := match acc with [] => [] | _ => w end.
Lemma spells_blanks acc w r v : Forall (fun b => blank b = true) w -> spells false (acc ++ pending acc w) r v -> spells false acc (w ++ r) v.
Proof.
  intros Hw. revert acc. induction Hw as [|b w Hb _ IH]; intros acc H; [by destruct acc; rewrite ?app_nil_r in H|]. apply blank_cases in Hb. cbn [app]. destruct acc as [|a acc].
  - apply spells_blank; [done|]. by apply IH.
  - apply spells_byte; [destruct Hb as [-> | ->]; set_solver|by destruct Hb as [-> | ->]|split; [destruct Hb as [-> | ->]; set_solver|done]|]. apply IH. cbn [app pending] in *. by rewrite <- app_assoc.
Qed.
Lemma stops_blanks acc w l d v r : Forall (fun b => blank b = true) w -> stops false (acc ++ pending acc w) l d v r -> stops false acc (w ++ l) (zlen w + d) v r.
Proof. intros Hw H. eapply stops_more; [exact H|]. intros c t _ Hc. by apply spells_blanks. Qed.
Lemma escape_pair e b : escape e = Some b -> (e, b) ∈ [(110, 10); (116, 9); (98, 8); (92, 92); (34, 34)].
Proof. unfold escape. intros H. repeat match type of H with (if ?c then _ else _) = _ => destruct c eqn:?; [injection H as <-; match goal with E : _ = true |- _ => apply Z.eqb_eq in E as -> end; set_solver|] end. done. Qed.

(** The end of a value: the bytes up to it spell the value and what follows is trailing. *)
Lemma value_loop_end n p a qd out p' w : value_loop n p (a ++ pending a w) qd (length a) = Ok (out, p') -> Forall (fun b => blank b = true) w -> value_end p + zlen w = pos p -> (qd = true -> w = []) ->
  stops qd a (w ++ rest p) (value_end p' - value_end p) out (rest p').
Proof.
  revert p a qd w. induction n as [|n IH]; intros p a qd w H Hw Hv Hq; [done|]. cbn [value_loop] in H. set (v := a ++ pending a w) in *.
  assert (take (length a) v = a) as Hk by apply take_app_length.
  assert (forall u r, rest p = u -> line_end u r -> qd = false -> stops qd a (w ++ rest p) 0 a r) as Hstop. { intros u r <- Hu ->. apply stops_here. by exists w, (rest p). }
  assert (forall l d, stops qd v l d out (rest p') -> stops qd a (w ++ l) (zlen w + d) out (rest p')) as Hpre.
  { intros l d Hl. destruct qd; [|by apply stops_blanks]. unfold v in Hl. rewrite (Hq eq_refl) in Hl |- *. replace (a ++ pending a []) with a in Hl by (by destruct a; rewrite ?app_nil_r). exact Hl. }
  assert (forall q acc qd', value_loop n q acc qd' (length acc) = Ok (out, p') -> value_end q = pos q -> stops qd' acc (rest q) (value_end p' - value_end q) out (rest p')) as Hgo.
  { intros q acc qd' H' E. apply (IH q acc qd' []); [by destruct acc; rewrite ?app_nil_r|constructor|rewrite E; apply Z.add_0_r|done]. }
  destruct (next p) as [[b p1]|] eqn:En.
  2: { destruct qd; [done|]. apply ok_inj, pair_equal_spec in H as [<- <-]. rewrite Hk, Z.sub_diag. unfold next in En. destruct (rest p) as [|x r] eqn:Er; [|by destruct (crlf _)]. apply (Hstop [] []); [done|by left|done]. }
  pose proof En as (c & [Hr Hp] & Hve & Hc)%next_after. destruct (b =? 0) eqn:E0; [done|]. destruct (Z.eqb_spec b 10) as [-> |Hb].
  { destruct qd; [done|]. apply ok_inj, pair_equal_spec in H as [<- <-]. rewrite Hk, Hve, Z.sub_diag. apply (Hstop (rest p) (rest p1)); [done| |done]. rewrite Hr. destruct Hc as [-> |[_ ->]]; [right; by left|right; right; by left]. }
  assert (c = [b]) as -> by (by destruct Hc as [|[? _]]). rewrite Hr. destruct (Z.eqb_spec b 34) as [-> |H34].
  { replace (value_end p' - value_end p) with (zlen w + (zlen [34] + (value_end p' - value_end (ended p1)))) by (change (zlen [34]) with 1 in *; cbn [ended value_end]; lia). apply Hpre. eapply stops_more; [apply (Hgo (ended p1)); [exact H|done]|]. intros c t _ Hc'. by apply spells_quote. }
  destruct (((b =? 35) || (b =? 59)) && negb qd) eqn:Ec.
  { apply ok_inj, pair_equal_spec in H as [<- <-]. apply andb_true_iff in Ec as [Ec Eq%negb_true_iff]. apply orb_true_iff in Ec. rewrite !Z.eqb_eq in Ec. destruct (comment_after p1) as (cc & _ & -> & _). rewrite Hk, Hve, Z.sub_diag, <- Hr. apply (Hstop (rest p) (rest (comment p1))); [done| |done]. rewrite Hr. do 3 right. exists b, (rest p1). split_and!; [done|done|apply rest_comment]. }
  destruct (Z.eqb_spec b 92) as [-> |H92].
  { destruct (next p1) as [[e p2]|] eqn:En2; [|done]. apply next_after in En2 as (c2 & [Hr2 Hp2] & _ & Hc2). rewrite Hr2. replace (value_end p' - value_end p) with (zlen w + (zlen ([92] ++ c2) + (value_end p' - value_end (ended p2)))) by (rewrite zlen_app; change (zlen [92]) with 1 in *; cbn [ended value_end]; lia).
    replace (w ++ [92] ++ c2 ++ rest p2) with (w ++ ([92] ++ c2) ++ rest p2) by (by rewrite <- app_assoc). apply Hpre. destruct (Z.eqb_spec e 10) as [-> |H10].
    - eapply stops_more; [apply (Hgo (ended p2)); [exact H|done]|]. intros c t _ Hc'. apply (spells_continued qd v c2 c out); [|done]. destruct Hc2 as [-> |[_ ->]]; auto.
    - destruct (escape e) as [x|] eqn:Ee; [|done]. assert (c2 = [e]) as -> by (by destruct Hc2 as [|[? _]]). eapply stops_more; [apply (Hgo (ended p2) (v ++ [x])); [by rewrite length_app|done]|]. intros c t _ Hc'. eapply spells_escape; [by apply escape_pair|done]. }
  assert (b ∉ [0; 10; 34; 92]) as Hplain. { rewrite Z.eqb_neq in E0. rewrite !elem_of_cons. intros [|[|[|[|H']]]]; try done. by apply elem_of_nil in H'. }
  assert (forall l, rest p1 = l -> b = 13 -> head l <> Some 10) as H13. { intros l <- ->. unfold next in En. rewrite Hr in En. destruct (rest p1) as [|x r]; [done|]. cbn [app crlf Z.eqb Pos.eqb andb] in En. destruct (x =? 10) eqn:Ex; [by injection En|]. cbn. apply Z.eqb_neq in Ex. congruence. }
  assert (zlen [b] = 1) as Hz by done. destruct (blank b && negb qd && bool_decide (v = [])) eqn:Eb.
  { apply andb_true_iff in Eb as [[Eb Eq%negb_true_iff]%andb_true_iff Ev%bool_decide_eq_true]. assert (a = []) as -> by (by destruct a). rewrite app_assoc, <- Hve. apply (IH p1 [] qd (w ++ [b])); [by rewrite Ev in H|apply Forall_app; split; [done|by repeat constructor]|rewrite zlen_app; lia|congruence]. }
  destruct (qd || negb (blank b)) eqn:Eo.
  { replace (value_end p' - value_end p) with (zlen w + (zlen [b] + (value_end p' - value_end (ended p1)))) by (cbn [ended value_end]; lia). apply Hpre. eapply stops_more; [apply (Hgo (ended p1) (v ++ [b])); [by rewrite length_app|done]|]. intros c t Et Hc'. cbn [ended rest] in Et. apply spells_byte; [done| | |done].
    - intros E13. specialize (H13 _ Et E13). by destruct c.
    - intros ->. cbn [orb negb andb] in *. rewrite andb_true_r in Ec. apply orb_false_iff in Ec as [?%Z.eqb_neq ?%Z.eqb_neq]. split; [set_solver|]. intros Hbl. apply negb_true_iff in Eo. by destruct Hbl as [-> | ->]. }
  apply orb_false_iff in Eo as [-> Eb'%negb_false_iff]. rewrite Eb' in Eb. cbn [negb andb] in Eb. apply bool_decide_eq_false in Eb. assert (a <> []) as Ha by (intros ->; by apply Eb). rewrite app_assoc, <- Hve.
  apply (IH p1 a false (w ++ [b])); [|apply Forall_app; split; [done|by repeat constructor]|rewrite zlen_app; lia|done]. rewrite <- H. f_equal. unfold v. destruct a; [done|]. cbn [pending]. by rewrite app_assoc.
Qed.

(** ** Written values *)

(** The bytes of one byte of a value. *)
Definition enc (b : Z) : bytes := if (b =? 34) || (b =? 92) then [92; b] else if b =? 10 then [92; 110] else if b =? 9 then [92; 116] else if b =? 8 then [92; 98] else [b].

Lemma quote_bytes_cons b v q : quote_bytes (b :: v) false = Ok q -> exists q', quote_bytes v false = Ok q' /\ q = enc b ++ q' /\ b <> 0.
Proof.
  cbn [quote_bytes]. destruct (Z.eqb_spec b 0) as [|H0]; [done|]. rewrite andb_false_r. unfold enc. cbn [negb]. rewrite !andb_true_r. intros (e & He & (q' & Hq & <-%ok_inj)%rbind_Ok)%rbind_Ok. exists q'. split_and!; [done| |done]. f_equal.
  destruct (_ || _); [by apply ok_inj in He|]. destruct (b =? 10); [by apply ok_inj in He|]. destruct (b =? 9); [by apply ok_inj in He|]. by destruct (b =? 8); apply ok_inj in He.
Qed.
Lemma enc_head b : exists c, head (enc b) = Some c /\ c <> 10 /\ (blank c = true -> b = 32) /\ (c = 13 -> b = 13).
Proof.
  unfold enc. destruct (_ || _) eqn:E1; [by exists 92|]. destruct (Z.eqb_spec b 10); [by exists 92|]. destruct (Z.eqb_spec b 9); [by exists 92|]. destruct (Z.eqb_spec b 8); [by exists 92|]. exists b. split_and!; [done..| |done]. intros [|]%blank_cases; congruence.
Qed.

Lemma byte_loop p b r acc qd k : rest p = enc b ++ r -> b <> 0 -> (b = 13 -> head r <> Some 10) -> (qd = true \/ (b <> 35 /\ b <> 59)) -> (b = 32 -> qd = true \/ acc <> []) ->
  exists p', rest p' = r /\ forall m, value_loop (S m) p acc qd k = value_loop m p' (acc ++ [b]) qd (if qd || negb (b =? 32) then (length acc + 1)%nat else k).
Proof.
  intros E H0 H13 Hc H32. assert (forall e, enc b = [92; e] -> escape e = Some b -> e <> 13 -> e <> 10 -> b <> 32 -> exists p', rest p' = r /\ forall m, value_loop (S m) p acc qd k = value_loop m p' (acc ++ [b]) qd (if qd || negb (b =? 32) then (length acc + 1)%nat else k)) as Hesc.
  { intros e Ee Hb Hne Hn10 Hn32. rewrite Ee in E. cbn [app] in E. destruct (next_cons p 92 (e :: r) E) as (p1 & H1 & R1 & _); [by apply crlf_other|]. destruct (next_cons p1 e r R1) as (p2 & H2 & R2 & _); [by apply crlf_other|]. exists (ended p2). split; [done|]. intros m. cbn [value_loop]. rewrite H1. cbn [Z.eqb Pos.eqb orb andb]. rewrite H2.
    destruct (Z.eqb_spec e 10); [done|]. rewrite Hb. destruct (Z.eqb_spec b 32); [done|]. by rewrite orb_true_r. }
  unfold enc in *. destruct (_ || _) eqn:E1.
  { apply orb_true_iff in E1 as [E1%Z.eqb_eq|E1%Z.eqb_eq]; subst b; by eapply Hesc. }
  apply orb_false_iff in E1 as [E34 E92]. destruct (Z.eqb_spec b 10) as [-> |E10]; [by eapply (Hesc 110)|]. destruct (Z.eqb_spec b 9) as [-> |E9]; [by eapply (Hesc 116)|]. destruct (Z.eqb_spec b 8) as [-> |E8]; [by eapply (Hesc 98)|]. clear Hesc. cbn [app] in E.
  assert (crlf (b :: r) = false) as Hcr. { destruct (decide (b = 13)) as [-> |]; [|by apply crlf_other]. specialize (H13 eq_refl). destruct r as [|x r]; [done|]. cbn. destruct (Z.eqb_spec x 10); [subst; done|done]. }
  destruct (next_cons p b r E Hcr) as (p1 & H1 & R1 & _). cbn [value_loop]. rewrite H1, E34, E92. destruct (Z.eqb_spec b 0); [done|]. destruct (Z.eqb_spec b 10); [done|].
  assert (((b =? 35) || (b =? 59)) && negb qd = false) as ->. { destruct Hc as [-> |[Hc1 Hc2]]; [apply andb_false_r|]. destruct (Z.eqb_spec b 35), (Z.eqb_spec b 59); done. }
  assert (blank b = (b =? 32)) as -> by (unfold blank; destruct (Z.eqb_spec b 9); [done|apply orb_false_r]). assert ((b =? 32) && negb qd && bool_decide (acc = []) = false) as ->.
  { destruct (Z.eqb_spec b 32) as [Hb|]; [|done]. destruct (H32 Hb) as [-> |Ha]; [done|]. cbn [andb]. rewrite bool_decide_eq_false_2 by done. apply andb_false_r. }
  destruct (qd || negb (b =? 32)); [by exists (ended p1)|by exists p1].
Qed.

(** The bytes of a whole value. *)
Lemma bytes_loop v q p t acc qd k : quote_bytes v false = Ok q -> rest p = q ++ t -> (last v = Some 13 -> head t <> Some 10) -> (qd = true \/ Forall (fun b => b <> 35 /\ b <> 59) v) -> (head v = Some 32 -> qd = true \/ acc <> []) ->
  exists p' k', rest p' = t /\ (forall m, value_loop (length v + m) p acc qd k = value_loop m p' (acc ++ v) qd k') /\ (v = [] -> k' = k) /\ (v <> [] -> qd = true \/ last v <> Some 32 -> k' = length (acc ++ v)).
Proof.
  revert q p acc k. induction v as [|b v IH]; intros q p acc k Hq E H13 Hc H32.
  { injection Hq as <-. exists p, k. rewrite app_nil_r. by split_and!. }
  apply quote_bytes_cons in Hq as (q' & Hq & -> & H0). rewrite <- app_assoc in E. destruct (byte_loop p b (q' ++ t) acc qd k E H0) as (p1 & R1 & Hl).
  - intros ->. destruct v as [|c v]; [injection Hq as <-; by apply H13|]. apply quote_bytes_cons in Hq as (q'' & _ & -> & _). destruct (enc_head c) as (h & Hh & Hn & _). destruct (enc c); [done|]. cbn in Hh |- *. congruence.
  - destruct Hc as [|Hc]; [by left|right]. by apply Forall_cons in Hc as [? _].
  - intros ->. by apply H32.
  - destruct (IH q' p1 (acc ++ [b]) (if qd || negb (b =? 32) then (length acc + 1)%nat else k) Hq R1) as (p' & k' & R' & Hl' & K1 & K2).
    + intros Hlast. apply H13. destruct v; [done|exact Hlast].
    + destruct Hc as [|Hc]; [by left|right]. by apply Forall_cons in Hc as [_ ?].
    + intros _. right. by destruct acc.
    + exists p', k'. rewrite <- app_assoc in K2. split_and!; [done|intros m; cbn [length Nat.add]; rewrite Hl, Hl', <- app_assoc; done|done|]. intros _ Hk. destruct v as [|c v].
      * rewrite (K1 eq_refl). rewrite length_app. cbn [length last] in *. assert (qd || negb (b =? 32) = true) as ->; [|done]. destruct Hk as [-> |Hk]; [done|]. destruct (Z.eqb_spec b 32); [subst; done|apply orb_true_r].
      * apply K2; [done|]. destruct Hk as [|Hk]; [by left|right]. exact Hk.
Qed.

(** A carriage return at the end of a bare value must not meet a line feed. *)
Definition carriage_safe (v t : bytes) : Prop := needs_quotes v false = false -> last v = Some 13 -> head t <> Some 10.

Lemma quote_loop v q p t : quote v false = Ok q -> rest p = q ++ t -> carriage_safe v t ->
  exists n p', rest p' = t /\ forall m, value_loop (n + m) p [] false 0 = value_loop m p' v false (length v).
Proof.
  unfold quote. intros (body & Hb & <-%ok_inj)%rbind_Ok E Hs. unfold carriage_safe in Hs. destruct (needs_quotes v false) eqn:Eq.
  - cbn [app] in E. rewrite <- app_assoc in E. destruct (next_cons p 34 (body ++ [34] ++ t) E) as (p1 & H1 & R1 & _); [by apply crlf_other|]. cbn [app] in R1.
    destruct (bytes_loop v body (ended p1) (34 :: t) [] true 0 Hb R1) as (p2 & k2 & R2 & H2 & _); [done|by left|by left|]. destruct (next_cons p2 34 t R2) as (p3 & H3 & R3 & _); [by apply crlf_other|]. exists (S (length v + 1)), (ended p3). split; [done|]. intros m.
    cbn [Nat.add]. cbn [value_loop]. rewrite H1. cbn [Z.eqb Pos.eqb negb length]. rewrite <- Nat.add_assoc, H2. cbn [app Nat.add value_loop]. rewrite H3. done.
  - unfold needs_quotes in Eq. cbn [orb] in Eq. apply orb_false_iff in Eq as [[Eh El]%orb_false_iff Ex]. assert (forall b, b ∈ v -> b <> 35 /\ b <> 59) as Hn.
    { intros b Hin. apply not_true_iff_false in Ex. split; intros ->; apply Ex, existsb_exists; eexists; (split; [by apply list_elem_of_In|done]). }
    destruct (bytes_loop v body p t [] false 0 Hb E) as (p' & k' & R & H & K1 & K2); [by apply Hs|right; by apply Forall_forall|intros Hh; rewrite Hh in Eh; done|]. exists (length v), p'. split; [done|]. intros m. rewrite H. cbn [app]. f_equal. destruct v as [|b v]; [by apply K1|]. apply K2; [done|]. right. intros Hl. by rewrite Hl in El.
Qed.

(** A value that was written is read back, and its trailing bytes are consumed. *)
Lemma quote_head v q : quote v false = Ok q -> (q = [] /\ v = []) \/ exists c q', q = c :: q' /\ blank c = false.
Proof.
  unfold quote. intros (body & Hb & <-%ok_inj)%rbind_Ok. destruct (needs_quotes v false) eqn:Eq; [right; by exists 34, (body ++ [34])|]. destruct v as [|b v]; [injection Hb as <-; by left|right]. apply quote_bytes_cons in Hb as (q' & _ & -> & _). destruct (enc_head b) as (c & Hc & _ & Hbl & _). destruct (enc b) as [|c' e]; [done|]. injection Hc as ->. exists c, (e ++ q'). split; [done|].
  destruct (blank c) eqn:E; [|done]. specialize (Hbl eq_refl). subst b. by destruct v.
Qed.

Lemma value_written v q p t r : quote v false = Ok q -> rest p = q ++ t -> carriage_safe v t -> trailing t r -> exists p', value p = Ok (v, p') /\ rest p' = r.
Proof.
  intros Hq E Hs Ht. unfold value. assert (exists t', rest (space p) = q ++ t' /\ carriage_safe v t' /\ trailing t' r) as (t' & E' & Hs' & Ht').
  { destruct (quote_head v q Hq) as [[-> ->]|(c & q' & -> & Hc)].
    - destruct Ht as (w & u & -> & Hw & Hu). exists u. split_and!; [|by intros _|by exists [], u]. cbn [app] in *. unfold space, take_while. rewrite E. assert (span blank (w ++ u) = (w, u)) as ->; [|done]. clear -Hw Hu. induction Hw as [|b w Hb _ IH]; cbn [app span]; [|by rewrite Hb, IH].
      destruct Hu as [[-> _]|[-> |[-> |(b & x & Hb & -> & _)]]]; [done..|]. cbn [span]. by destruct Hb as [-> | ->].
    - exists t. split_and!; [|done..]. unfold space, take_while. rewrite E. cbn [app span]. by rewrite Hc. }
  destruct (quote_loop v q (ended (space p)) t' Hq E' Hs') as (n & p1 & R1 & H). destruct (tail_loop (S (length (rest p1))) p1 v [] r) as (p2 & H2 & R2); [by rewrite R1|lia|]. rewrite app_nil_r in H2. rewrite <- H in H2.
  apply (value_loop_like _ (S (length (rest (space p)))) _ (ended (space p))) in H2 as (p3 & H3 & R3); [|done|cbn; lia]. exists p3. split; [done|congruence].
Qed.
End ConfigValue.
