(* ===== verification/ConfigEdit.v ===== *)
(** * Configuration files: edits of a document

    Setting the value of an occurrence changes that value and nothing else. *)

From stdpp Require Import base list numbers strings sets.
From Stdlib Require Import ZArith Lia.
From S2P Require Import Prelude Config ConfigParse ConfigSwap ConfigValue.

Module ConfigEdit.
Import Config ConfigParse ConfigSwap ConfigValue.

Notation blanks := (Forall (fun b => blank b = true)).
Notation names := (Forall (fun b => name_byte b = true)).

(** ** Assignments *)

Lemma span_exact f a t : Forall (fun b => f b = true) a -> (forall b, head t = Some b -> f b = false) -> span f (a ++ t) = (a, t).
Proof. intros Ha Ht. induction Ha as [|b a Hb _ IH]; cbn [app span]; [|by rewrite Hb, IH]. destruct t as [|b t]; [done|]. cbn [span]. by rewrite (Ht b eq_refl). Qed.
Lemma space_exact p a t : rest p = a ++ t -> blanks a -> (forall b, head t = Some b -> blank b = false) -> rest (space p) = t /\ pos (space p) = pos p + zlen a.
Proof. intros E Ha Ht. unfold space, take_while. by rewrite E, span_exact. Qed.
Lemma space_idem p : rest (space (space p)) = rest (space p) /\ pos (space (space p)) = pos (space p).
Proof. destruct (space_after p) as (a & _ & _ & _ & H). destruct (space_exact (space p) [] (rest (space p))) as [E1 E2]; [done|constructor|done|]. split; [done|]. rewrite E2. apply Z.add_0_r. Qed.
Lemma name_blank b : blank b = true -> name_byte b = false.
Proof. by intros [-> | ->]%blank_cases. Qed.

(** What an assignment was read from. *)
Lemma assignment_parts p n v a b p' : parse_assignment p = Ok (n, v, a, b, p') ->
  n <> [] /\ names n /\ (exists c, head n = Some c /\ is_alpha c = true) /\
  match v with
  | Some w => exists s1 s2 c t, rest p = n ++ s1 ++ 61 :: s2 ++ c ++ t /\ blanks s1 /\ blanks s2 /\ a = pos p + zlen (n ++ s1 ++ 61 :: s2) /\ b = a + zlen c /\ trailing t (rest p') /\ spells false [] c w
  | None => a = pos p + zlen n /\ b = a /\ exists s1, rest p = n ++ s1 ++ rest p' /\ blanks s1 /\ (forall b, head (rest p') = Some b -> blank b = false) /\ match peek p' with Some x => x = 10 \/ x = 35 \/ x = 59 | None => True end
  end.
Proof.
  unfold parse_assignment. intros ([n' p1] & Hn & H)%rbind_Ok. pose proof Hn as ([R1 P1] & Hne & _ & Hnames & Hstop)%name_after. assert (n' = n) as -> by (destruct (peek (space p1)) as [x|]; [destruct (x =? 61); [destruct (next (space p1)) as [[? ?]|]; [apply rbind_Ok in H as ([? ?] & _ & H)|]|destruct (_ || _ || _)]|]; congruence).
  assert (exists c, head n = Some c /\ is_alpha c = true) as Hc.
  { unfold name in Hn. destruct (true && _) eqn:E; [done|]. cbn [andb] in E. apply negb_false_iff in E. unfold peek in E. rewrite R1 in E. destruct n as [|c n]; [done|]. cbn [app] in E. exists c. split; [done|]. destruct (crlf _); done. }
  split_and!; [done..|]. destruct (space_after p1) as (s1 & [R2 P2] & V2 & B1 & Hstop1).
  assert (v = None -> a = pos p1 -> b = pos p1 -> p' = space p1 -> match peek p' with Some x => x = 10 \/ x = 35 \/ x = 59 | None => True end -> match v with Some w => exists s1 s2 c t, rest p = n ++ s1 ++ 61 :: s2 ++ c ++ t /\ blanks s1 /\ blanks s2 /\ a = pos p + zlen (n ++ s1 ++ 61 :: s2) /\ b = a + zlen c /\ trailing t (rest p') /\ spells false [] c w | None => a = pos p + zlen n /\ b = a /\ exists s1, rest p = n ++ s1 ++ rest p' /\ blanks s1 /\ (forall b, head (rest p') = Some b -> blank b = false) /\ match peek p' with Some x => x = 10 \/ x = 35 \/ x = 59 | None => True end end) as Himp.
  { intros -> -> -> -> Hp. split_and!; [done..|]. exists s1. split_and!; [by rewrite R1, R2|done..]. }
  destruct (peek (space p1)) as [x|] eqn:Ep; [|injection H as <- <- <- <-; apply Himp; try done; by rewrite Ep]. destruct (Z.eqb_spec x 61) as [-> |].
  - destruct (next (space p1)) as [[y p3]|] eqn:En; [|injection H as <- <- <- <-; apply Himp; try done; rewrite peek_next, En in Ep; done]. apply rbind_Ok in H as ([w p4] & Hv & H). injection H as <- <- <- <-. rewrite peek_next, En in Ep. cbn in Ep. injection Ep as ->.
    apply next_after in En as (c3 & [R3 P3] & _ & Hc3). destruct Hc3 as [-> |[? _]]; [|done]. destruct (space_after p3) as (s2 & [R4 P4] & _ & B2 & _). unfold value in Hv. destruct (space_idem p3) as [I1 I2]. apply (value_loop_end _ _ [] _ _ _ []) in Hv as (c & t & F1 & F2 & F3 & F4); [|constructor|apply Z.add_0_r|done]. cbn [app rest ended value_end] in F1, F2. rewrite I1 in F1. rewrite I2 in F2.
    exists s1, s2, c, t. split_and!; [by rewrite R1, R2, R3, R4, F1|done|done| |lia|done|done]. rewrite P4, P3, P2, P1, !zlen_app, !zlen_cons. change (zlen (@nil Z)) with 0. lia.
  - destruct ((x =? 10) || (x =? 35) || (x =? 59)) eqn:Ex; [|done]. injection H as <- <- <- <-. apply Himp; try done. rewrite Ep. rewrite !orb_true_iff, !Z.eqb_eq in Ex. tauto.
Qed.

Lemma assignment_written p n s1 s2 q t r v : n <> [] -> names n -> (exists c, head n = Some c /\ is_alpha c = true) -> rest p = n ++ s1 ++ 61 :: s2 ++ q ++ t -> blanks s1 -> blanks s2 -> quote v false = Ok q -> carriage_safe v t -> trailing t r ->
  exists a b p', parse_assignment p = Ok (n, Some v, a, b, p') /\ rest p' = r.
Proof.
  intros Hne Hn (c & Hc & Hal) E B1 B2 Hq Hs Ht. unfold parse_assignment, name. assert (peek p = Some c) as Hp. { unfold peek. rewrite E. destruct n as [|c' n]; [done|]. injection Hc as ->. cbn [app]. rewrite crlf_other; [done|]. intros ->. done. }
  rewrite Hp, Hal. cbn [andb negb]. unfold take_while. assert (span name_byte (rest p) = (n, s1 ++ 61 :: s2 ++ q ++ t)) as ->. { rewrite E. apply span_exact; [done|]. intros b Hb. destruct s1 as [|b' s1]; [by injection Hb as <-|]. injection Hb as ->. apply Forall_cons in B1 as [B1 _]. by apply name_blank. }
  destruct n as [|c' n]; [done|]. cbn [rbind]. set (p1 := {| rest := s1 ++ 61 :: s2 ++ q ++ t; pos := _; line := _; value_end := _ |}). destruct (space_exact p1 s1 (61 :: s2 ++ q ++ t)) as [R2 _]; [done|done|by intros b [= <-]|]. rewrite peek_next. destruct (next_cons (space p1) 61 (s2 ++ q ++ t) R2) as (p3 & -> & R3 & _); [by apply crlf_other|]. cbn [fmap option_fmap option_map fst Z.eqb Pos.eqb].
  assert (exists t', rest (space p3) = q ++ t' /\ carriage_safe v t' /\ trailing t' r) as (t' & E' & Hs' & Ht').
  { destruct (quote_head v q Hq) as [[-> ->]|(x & q' & -> & Hx)].
    - destruct Ht as (w & u & -> & Hw & Hu). exists u. split_and!; [|by intros _|by exists [], u]. cbn [app] in *. rewrite app_assoc in R3. eapply space_exact; [exact R3|by apply Forall_app|]. intros b Hb. destruct Hu as [[-> _]|[-> |[-> |(b' & y & Hb' & -> & _)]]]; [done| | |]; injection Hb as <-; [done..|by destruct Hb' as [-> | ->]].
    - exists t. split_and!; [|done..]. eapply space_exact; [exact R3|done|]. by intros b [= <-]. }
  destruct (value_written v q (space p3) t' r Hq E' Hs' Ht') as (p4 & -> & R4). cbn [rbind]. eauto.
Qed.

(** ** The turn that reads an entry *)

Definition is_entry_step (o : Z) (s t : State) : Prop := exists n v a b p',
  section s <> [] /\ parse_assignment (space (parser s)) = Ok (n, v, a, b, p') /\ add_entry true o (pos (space (parser s))) (line (space (parser s))) s (n, v, a, b, p') = Ok t.

Lemma step_kinds o s t : step true o s = Ok (Some t) -> (entries (found t) = entries (found s) /\ l_entries (layout t) = l_entries (layout s)) \/ is_entry_step o s t.
Proof.
  unfold step. set (p := space (parser s)). destruct (peek p) as [b|]; [|done]. destruct (b =? 10); [destruct (next p) as [[? ?]|]; [|done]; intros [= <-]; by left|]. destruct (_ || _); [intros [= <-]; by left|]. destruct (b =? 91).
  - destruct (next p) as [[x q]|]; [|done]. intros ([n q'] & _ & H)%rbind_Ok. injection H as <-. by left.
  - destruct (bool_decide (section s = [])) eqn:Es; [done|]. apply bool_decide_eq_false in Es. intros ([[[[n v] x] y] q'] & Ha & (s1 & Hs1 & H)%rbind_Ok)%rbind_Ok. injection H as <-. right. exists n, v, x, y, q'. done.
Qed.
Lemma alpha_plain c : is_alpha c = true -> (c =? 10) = false /\ (c =? 35) || (c =? 59) = false /\ (c =? 91) = false /\ c <> 13 /\ blank c = false.
Proof. intros H. split_and!; try (by destruct (Z.eqb_spec c 10); [subst|]); try (by destruct (Z.eqb_spec c 35), (Z.eqb_spec c 59); subst); try (by destruct (Z.eqb_spec c 91); [subst|]); [by intros ->|]. destruct (blank c) eqn:E; [|done]. by apply blank_cases in E as [-> | ->]. Qed.

Lemma entry_step o s n v a b p' t : section s <> [] -> parse_assignment (space (parser s)) = Ok (n, v, a, b, p') -> add_entry true o (pos (space (parser s))) (line (space (parser s))) s (n, v, a, b, p') = Ok t -> step true o s = Ok (Some t).
Proof.
  intros Hs Ha Hadd. pose proof Ha as (Hne & _ & (c & Hc & Hal) & Hv)%assignment_parts. unfold step. set (p := space (parser s)) in *. assert (exists r, rest p = n ++ r) as [r Hr] by (destruct v; [destruct Hv as (s1 & s2 & x & t' & -> & _); by eexists|destruct Hv as (_ & _ & s1 & -> & _); by eexists]).
  assert (peek p = Some c) as ->. { unfold peek. rewrite Hr. destruct n as [|c' n]; [done|]. injection Hc as ->. cbn [app]. rewrite crlf_other; [done|]. by apply alpha_plain. }
  destruct (alpha_plain c Hal) as (-> & -> & -> & _). rewrite bool_decide_eq_false_2 by done. rewrite Ha. cbn [rbind]. rewrite Hadd. done.
Qed.

Definition extends (s t : State) : Prop := exists e l, entries (found t) = entries (found s) ++ e /\ l_entries (layout t) = l_entries (layout s) ++ l /\ length e = length l.
Lemma step_extends o s t : step true o s = Ok (Some t) -> extends s t.
Proof.
  intros [[H1 H2]|(n & v & a & b & p' & _ & _ & H)]%step_kinds; [exists [], []; rewrite !app_nil_r; done|]. unfold add_entry in H. apply rbind_Ok in H as (os & _ & <-%ok_inj). by eexists [_], [_].
Qed.
Lemma steps_extends o s t : steps true o s t -> extends s t.
Proof.
  induction 1 as [s|s t u H _ (e & l & E1 & E2 & E3)]; [exists [], []; by rewrite !app_nil_r|]. apply step_extends in H as (e' & l' & F1 & F2 & F3). exists (e' ++ e), (l' ++ l). rewrite E1, E2, F1, F2, !length_app, <- !app_assoc. split_and!; [done..|lia].
Qed.

Lemma entry_turn o s f i : steps true o s f -> length (l_entries (layout s)) = length (entries (found s)) -> (length (entries (found s)) <= i < length (entries (found f)))%nat ->
  exists b a, steps true o s b /\ is_entry_step o b a /\ steps true o a f /\ length (entries (found b)) = i /\ length (l_entries (layout b)) = i.
Proof.
  induction 1 as [s|s t u H Hs IH]; intros Hl Hi; [lia|]. pose proof (step_extends _ _ _ H) as (e & l & E1 & E2 & E3). assert (length (l_entries (layout t)) = length (entries (found t))) as Hl' by (rewrite E1, E2, !length_app; lia). destruct (decide (length (entries (found t)) <= i)%nat) as [Hle|Hgt].
  - destruct (IH Hl') as (b & a & H1 & H2 & H3 & H4 & H5); [lia|]. exists b, a. split_and!; [by econstructor|done..].
  - pose proof H as [[F1 _]|He]%step_kinds; [rewrite F1 in Hgt; lia|]. exists s, t. assert (length e = 1%nat) as He1. { destruct He as (n & v & x & y & p' & _ & _ & Ha). unfold add_entry in Ha. apply rbind_Ok in Ha as (os & _ & <-%ok_inj). cbn [found entries] in E1. apply app_inv_head in E1. by rewrite <- E1. }
    rewrite E1, length_app in Hgt. split_and!; [constructor|done|done|lia|lia].
Qed.

(** ** Documents *)

Lemma document_Ok bs d : document bs = Ok d <-> exists pre body st, bs = pre ++ body /\ ((pre = bom /\ strip_prefix bom bs = Some body) \/ (pre = [] /\ strip_prefix bom bs = None)) /\
  run (S (length body)) true (zlen pre) (initial body) = Ok st /\ d = {| d_bytes := bs; d_config := found st; d_layout := layout st |}.
Proof.
  unfold document, parse_layout, parse_internal, starts_with. destruct (strip_prefix bom bs) as [body|] eqn:E; cbn [from_option id].
  - apply strip_prefix_Some in E as Eb. split.
    + intros ([c l] & (st & H & H1)%rbind_Ok & H2)%rbind_Ok. apply ok_inj, pair_equal_spec in H1 as [<- <-]. apply ok_inj in H2 as <-. exists bom, body, st. split_and!; [done|by left|done|done].
    + intros (pre & body' & st & _ & [[-> Eq]|[_ Eq]] & Hrun & ->); [|done]. injection Eq as <-. change (zlen bom) with 3 in Hrun. cbv zeta. rewrite Hrun. done.
  - split.
    + intros ([c l] & (st & H & H1)%rbind_Ok & H2)%rbind_Ok. apply ok_inj, pair_equal_spec in H1 as [<- <-]. apply ok_inj in H2 as <-. exists [], bs, st. split_and!; [done|by right|done|done].
    + intros (pre & body' & st & Hb & [[_ ?]|[-> _]] & Hrun & ->); [done|]. cbn [app] in Hb. subst body'. change (zlen (@nil Z)) with 0 in Hrun. cbv zeta. rewrite Hrun. done.
Qed.

(** A file that is accepted does not start like the mark without being it. *)
Lemma initial_head o body st : body <> [] -> run (S (length body)) true o (initial body) = Ok st -> head body <> Some 239.
Proof.
  intros Hne H E. destruct body as [|b r]; [done|]. injection E as ->. cbn [length run initial parser rest] in H. apply rbind_Ok in H as (x & H & _).
  destruct (space_exact (parser (initial (239 :: r))) [] (239 :: r)) as [R _]; [done|constructor|by intros b [= <-]|]. unfold step in H. assert (peek (space (parser (initial (239 :: r)))) = Some 239) as Hp by (unfold peek; rewrite R, crlf_other; done). rewrite Hp in H. done.
Qed.
Lemma strip_bom_None b r : b <> 239 -> strip_prefix bom (b :: r) = None.
Proof. intros H. unfold bom. cbn [strip_prefix]. destruct (Z.eqb_spec 239 b); [congruence|done]. Qed.
Lemma strip_bom_app r : strip_prefix bom (bom ++ r) = Some r.
Proof. by apply strip_prefix_Some. Qed.

(** ** Replacing an assignment *)

(** The turn after an implicit assignment takes its line end. *)
Lemma implicit_next o a n st : run n true o a = Ok st -> (forall b, head (rest (parser a)) = Some b -> blank b = false) -> match peek (parser a) with Some x => x = 10 \/ x = 35 \/ x = 59 | None => True end ->
  exists r a2 m, line_end (rest (parser a)) r /\ run m true o a2 = Ok st /\ a2 = at_parser a (parser a2) /\ rest (parser a2) = r.
Proof.
  intros Hr Hb Hp. destruct (rest (parser a)) as [|x r] eqn:Er. { exists [], a, n. split_and!; [by left|done|by destruct a|done]. }
  destruct n as [|n]; [done|]. cbn [run] in Hr. rewrite Er in Hr. apply rbind_Ok in Hr as (y & Hs & Hr). unfold step in Hs. destruct (space_exact (parser a) [] (x :: r)) as [R _]; [done|constructor|done|]. set (p := space (parser a)) in *. assert (peek p = peek (parser a)) as Ep by (unfold peek; by rewrite R, Er). rewrite Ep in Hs. clear Ep.
  unfold peek in Hp, Hs. rewrite Er in Hp, Hs. destruct (crlf (x :: r)) eqn:Ec.
  - cbn [Z.eqb Pos.eqb] in Hs. unfold next in Hs. rewrite R, Ec in Hs. apply ok_inj in Hs as <-. apply crlf_true in Ec as [t [= -> ->]]. exists t. eexists _, n. split_and!; [do 2 right; by left|exact Hr|done|done].
  - destruct Hp as [-> |Hp].
    + cbn [Z.eqb Pos.eqb] in Hs. unfold next in Hs. rewrite R, Ec in Hs. apply ok_inj in Hs as <-. exists r. eexists _, n. split_and!; [right; by left|exact Hr|done|done].
    + assert ((x =? 10) = false /\ (x =? 35) || (x =? 59) = true) as [E1 E2] by (by destruct Hp as [-> | ->]). rewrite E1, E2 in Hs. apply ok_inj in Hs as <-. eexists _, _, n. split_and!; [|exact Hr|done|reflexivity]. do 3 right. exists x, r. split_and!; [done..|]. cbn [parser at_parser]. rewrite rest_comment, R. cbn [comment_loop]. rewrite E1, Ec. apply comment_loop_fst.
Qed.

(** The view of an entry with another value. *)
Definition with_value (e : Entry) (v : bytes) : bytes * option bytes * bytes * option bytes := (e_section e, e_subsection e, e_name e, Some v).
(** Values that a bare spelling preserves. *)
Definition spellable (v : bytes) : Prop := needs_quotes v false = true \/ last v <> Some 13.
Lemma spellable_safe v t : spellable v -> carriage_safe v t.
Proof. intros [H|H] E1 E2; congruence. Qed.

(** From the turn that reads the entry on, with another value. *)
Lemma entry_tail o b a n v0 x y p' tb x' y' p2 v a2 m st : add_entry true o (pos (space (parser b))) (line (space (parser b))) b (n, v0, x, y, p') = Ok a ->
  section tb = section b -> subsection tb = subsection b -> sections (found tb) = sections (found b) -> occurrences (found tb) = occurrences (found b) -> zlen (entries (found tb)) = zlen (entries (found b)) ->
  section b <> [] -> parse_assignment (space (parser tb)) = Ok (n, Some v, x', y', p2) -> a2 = at_parser a (parser a2) -> rest (parser a2) = rest p2 -> run m true o a2 = Ok st ->
  exists ta t' e e' l l', step true o tb = Ok (Some ta) /\ run (S (length (rest (parser ta)))) true o ta = Ok t' /\ alike st t' /\
    entries (found st) = entries (found b) ++ e :: l /\ entries (found t') = entries (found tb) ++ e' :: l' /\ view e' = with_value e v /\ map view l' = map view l.
Proof.
  intros Ha S1 S2 S3 S4 S5 Hs Hp Ea2 R2 Hr. unfold add_entry in Ha. apply rbind_Ok in Ha as (os & Ho & Ha). apply ok_inj in Ha. apply ok_or_Ok in Ho.
  destruct (add_entry true o (pos (space (parser tb))) (line (space (parser tb))) tb (n, Some v, x', y', p2)) as [ta|e] eqn:Ht; [|unfold add_entry in Ht; rewrite S4, S5, Ho in Ht; done]. assert (section tb <> []) as Hs' by congruence. pose proof (entry_step o tb _ _ _ _ _ ta Hs' Hp Ht) as Hstep. unfold add_entry in Ht. rewrite S4, S5, Ho in Ht. apply ok_inj in Ht.
  assert (alike a2 ta) as Hal. { rewrite Ea2, <- Ha, <- Ht. constructor; cbn; try done. by rewrite !zlen_app, S5. }
  destruct (run_like m (S (length (rest (parser ta)))) true o a2 ta st Hal) as (t' & Hrun & Hal' & l & l' & E1 & E2 & E3); [rewrite (al_rest _ _ Hal); lia|done|]. exists ta, t'. eexists _, _, l, l'. split_and!; [done..| | | |done].
  - rewrite E1, Ea2, <- Ha. cbn. by rewrite <- app_assoc.
  - rewrite E2, <- Ht. cbn. by rewrite <- app_assoc.
  - unfold view, with_value. cbn. by rewrite S1, S2.
Qed.

(** Another value for the entry that was read from a name on. *)
Lemma replace_after_name o body c0 sp c s s' b a st n v0 x y p' v a2 m : steps true o (initial body) b -> section b <> [] -> add_entry true o (pos (space (parser b))) (line (space (parser b))) b (n, v0, x, y, p') = Ok a ->
  body = c0 ++ rest (parser b) -> rest (parser b) = sp ++ c :: s -> blanks sp -> is_alpha c = true ->
  (forall q, rest q = c :: s' -> exists x' y' p2, parse_assignment q = Ok (n, Some v, x', y', p2) /\ rest p2 = rest (parser a2)) -> a2 = at_parser a (parser a2) -> run m true o a2 = Ok st ->
  let body' := c0 ++ sp ++ c :: s' in let i := length (entries (found b)) in
  exists st' e, entries (found st) !! i = Some e /\ run (S (length body')) true o (initial body') = Ok st' /\ sections (found st') = sections (found st) /\ occurrences (found st') = occurrences (found st) /\
    map view (entries (found st')) = <[i := with_value e v]> (map view (entries (found st))).
Proof.
  intros Hb Hsec Hadd Rb Rs Bs Hal Hnew Ea2 Hm. cbv zeta. set (A := c0 ++ sp ++ [c]). assert (last A = Some c) as HA by (unfold A; by rewrite app_assoc, last_snoc). destruct (alpha_plain c Hal) as (Hc10%Z.eqb_neq & _ & _ & Hc13 & Hcb).
  assert (body = A ++ s) as EA by (unfold A; rewrite Rb, Rs; by rewrite <- !app_assoc). assert (c0 ++ sp ++ c :: s' = A ++ s') as EA' by (unfold A; by rewrite <- !app_assoc).
  destruct (steps_sim A s s' c HA Hc13 ltac:(done) true o (initial body) (initial (c0 ++ sp ++ c :: s')) b Hb) as (tb & Htb & [M1 M2 M3 M4 M5 M6] & (l0 & m0 & L1 & L2 & L3)).
  { constructor; try done. exists [], A. cbn [initial parser rest]. by rewrite EA, EA'. } { right. unfold inside. rewrite Rs, length_app. cbn [length]. lia. }
  destruct M1 as (x0 & a0 & _ & Q1 & Q2). rewrite Rs in Q1. assert (a0 = sp ++ [c]) as -> by (apply (app_inv_tail s); rewrite <- Q1, <- app_assoc; done). rewrite <- app_assoc in Q2. destruct (space_exact (parser tb) sp (c :: s')) as [Rtb _]; [exact Q2|done|by intros ? [= <-]|].
  destruct (Hnew _ Rtb) as (x' & y' & p2 & Hpa2 & Rp2). destruct (entry_tail o b a n v0 x y p' tb x' y' p2 v a2 m st Hadd M2 M3 M4 M5 M6 Hsec Hpa2 Ea2 (eq_sym Rp2) Hm) as (ta & t' & e & e' & l & l' & Hstep & Hrt & Halt & F1 & F2 & F3 & F4).
  exists t', e. split_and!; [rewrite F1, lookup_app_r by lia; by rewrite Nat.sub_diag| |by rewrite (al_sections _ _ Halt)|by rewrite (al_occurrences _ _ Halt)|].
  - eapply (steps_run _ _ (initial (c0 ++ sp ++ c :: s')) ta); [|exact Hrt]. eapply steps_trans; [exact Htb|]. econstructor; [exact Hstep|constructor].
  - cbn [initial found entries empty_config app] in L1, L2. rewrite F1, F2, !map_app, L2, L3, <- L1. cbn [map]. rewrite F3, F4, insert_app_r_alt by (rewrite length_map; lia). rewrite length_map, Nat.sub_diag. done.
Qed.

(** What may follow a value or a name on its line: blanks, then the end of the line or of the
    file, or a comment. *)
Definition line_tail (post : bytes) : Prop :=
  exists s u, post = s ++ u /\ blanks s /\ (u = [] \/ exists c r, u = c :: r /\ (c = 10 \/ c = 35 \/ c = 59 \/ (c = 13 /\ head r = Some 10))).
(** [old] is the spelling of the value of an entry between its key, the equals sign and the
    blanks after it, and the tail of its line; an implicit entry has none after its key. *)
Definition written (e : Entry) (pre old post : bytes) : Prop :=
  line_tail post /\
  match e_value e with
  | Some w => spells false [] old w /\ exists x s1 s2, pre = x ++ e_name e ++ s1 ++ 61 :: s2 /\ blanks s1 /\ blanks s2
  | None => old = [] /\ exists x, pre = x ++ e_name e
  end.
Lemma trailing_line_tail t r : trailing t r -> line_tail t.
Proof.
  intros (w & u & -> & Hw & Hu). exists w, u. split_and!; [done..|]. destruct Hu as [[-> _]|[-> |[-> |(b & x & Hb & -> & _)]]]; [by left|right; eauto 10..|]. right. exists b, x. split; [done|]. tauto.
Qed.
Lemma implicit_line_tail s1 p : blanks s1 -> match peek p with Some x => x = 10 \/ x = 35 \/ x = 59 | None => True end -> line_tail (s1 ++ rest p).
Proof.
  intros B H. exists s1, (rest p). split_and!; [done..|]. unfold peek in H. destruct (rest p) as [|c r]; [by left|right]. exists c, r. split; [done|]. destruct (crlf (c :: r)) eqn:E; [|tauto]. apply crlf_true in E as [t [= -> ->]]. auto.
Qed.

(** The bytes of a value and those around it. *)
Lemma value_bytes o body st i : run (S (length body)) true o (initial body) = Ok st -> (i < length (entries (found st)))%nat ->
  exists e sp pre old post, entries (found st) !! i = Some e /\ l_entries (layout st) !! i = Some sp /\ body = pre ++ old ++ post /\ es_value sp = (zlen pre + o, zlen pre + zlen old + o) /\
    pre <> [] /\ written e pre old post /\
    forall v q, quote v false = Ok q -> spellable v -> let body' := pre ++ match e_value e with None => bstr " = " ++ q | Some _ => q end ++ post in
      exists st', run (S (length body')) true o (initial body') = Ok st' /\ sections (found st') = sections (found st) /\ occurrences (found st') = occurrences (found st) /\
        map view (entries (found st')) = <[i := with_value e v]> (map view (entries (found st))).
Proof.
  intros Hrun Hi. apply run_steps in Hrun as [Hst Hfin]. destruct (entry_turn o (initial body) st i Hst eq_refl) as (b & a & Hb & (n & v0 & x & y & p' & Hsec & Hpa & Hadd) & Hast & Li & Ll); [cbn; lia|]. pose proof (steps_after _ _ _ _ Hb) as (c0 & [Rb Pb]). cbn [initial parser rest pos] in Rb, Pb. rewrite Z.add_0_l in Pb.
  destruct (space_after (parser b)) as (sp & [Rs Ps] & _ & Bs & _). set (p := space (parser b)) in *. pose proof Hpa as (Hne & Hn & (c & Hc & Hal) & Hv)%assignment_parts. pose proof (steps_extends _ _ _ Hast) as (ex & lx & Ee & El & _). pose proof Hadd as Hadd'. unfold add_entry in Hadd'. apply rbind_Ok in Hadd' as (os & Ho & Ha%ok_inj).
  assert (exists n', n = c :: n') as [n' En] by (destruct n as [|c' n']; [done|]; injection Hc as ->; by exists n'). pose proof (steps_run _ _ _ _ 1 _ Hast (run_of_final _ _ _ Hfin)) as Hrun. set (k := S _) in Hrun.
  assert (l_entries (layout st) !! i = Some {| es_range := (pos p + o, y + o); es_value := (x + o, y + o) |}) as Hspan. { rewrite El, <- Ha. cbn [layout l_entries]. rewrite <- app_assoc, lookup_app_r by lia. by rewrite Ll, Nat.sub_diag. }
  assert (entries (found st) !! i = Some {| e_line := line p; e_section := section b; e_subsection := subsection b; e_name := n; e_value := v0 |}) as Hentry. { rewrite Ee, <- Ha. cbn [found entries]. rewrite <- app_assoc, lookup_app_r by lia. by rewrite Li, Nat.sub_diag. }
  assert (parser a = p') as Hpar by (by rewrite <- Ha). assert (a = at_parser a (parser a)) as Haa by (by destruct a). destruct v0 as [w|].
  - destruct Hv as (s1 & s2 & cc & t & Rp & B1 & B2 & Ex & Ey & Ht & Hsp0). eexists _, _, (c0 ++ sp ++ n ++ s1 ++ 61 :: s2), cc, t. split_and!; [exact Hentry|exact Hspan|rewrite Rb, Rs, Rp; by rewrite <- !app_assoc| |by destruct c0, sp, n|split; [by eapply trailing_line_tail|split; [done|]; exists (c0 ++ sp), s1, s2; by rewrite <- !app_assoc]|].
    { cbn [es_value]. rewrite Ey, Ex, Ps, Pb, !zlen_app. f_equal; lia. }
    intros v q Hq Hsp. cbn [e_value]. cbv zeta. replace ((c0 ++ sp ++ n ++ s1 ++ 61 :: s2) ++ q ++ t) with (c0 ++ sp ++ c :: n' ++ s1 ++ 61 :: s2 ++ q ++ t) by (rewrite En; cbn [app]; repeat (rewrite <- app_assoc; cbn [app]); reflexivity).
    destruct (replace_after_name o body c0 sp c (n' ++ s1 ++ 61 :: s2 ++ cc ++ t) (n' ++ s1 ++ 61 :: s2 ++ q ++ t) b a st n (Some w) x y p' v a k) as (st' & e & He & H1 & H2 & H3 & H4); try done.
    + rewrite Rs, Rp, En. done.
    + intros q' Rq. rewrite Hpar. apply (assignment_written q' n s1 s2 q t); [done|done|by exists c|rewrite Rq, En; reflexivity|done|done|exact Hq|by apply spellable_safe|done].
    + rewrite Li in He, H4. rewrite Hentry in He. injection He as <-. by exists st'.
  - destruct Hv as (Ex & Ey & s1 & Rp & B1 & Hnb & Hpk). destruct (implicit_next o a k st Hrun) as (r & a2 & m & Hle & Hm & Ha2 & Hr2); [by rewrite Hpar|by rewrite Hpar|]. rewrite Hpar in Hle.
    eexists _, _, (c0 ++ sp ++ n), [], (s1 ++ rest p'). split_and!; [exact Hentry|exact Hspan|rewrite Rb, Rs, Rp; by rewrite <- !app_assoc| |by destruct c0, sp, n|split; [by apply implicit_line_tail|split; [done|]; exists (c0 ++ sp); by rewrite <- app_assoc]|].
    { cbn [es_value]. rewrite Ey, Ex, Ps, Pb, !zlen_app. change (zlen (@nil Z)) with 0. f_equal; lia. }
    intros v q Hq Hsp. cbn [e_value]. cbv zeta. replace ((c0 ++ sp ++ n) ++ (bstr " = " ++ q) ++ s1 ++ rest p') with (c0 ++ sp ++ c :: n' ++ [32] ++ 61 :: [32] ++ q ++ s1 ++ rest p') by (rewrite En; cbn [app bstr]; repeat (rewrite <- app_assoc; cbn [app]); reflexivity).
    destruct (replace_after_name o body c0 sp c (n' ++ s1 ++ rest p') (n' ++ [32] ++ 61 :: [32] ++ q ++ s1 ++ rest p') b a st n None x y p' v a2 m) as (st' & e & He & H1 & H2 & H3 & H4); try done.
    + rewrite Rs, Rp, En. done.
    + intros q' Rq. rewrite Hr2. apply (assignment_written q' n [32] [32] q (s1 ++ rest p') r); [done|done|by exists c|rewrite Rq, En; reflexivity|by repeat constructor|by repeat constructor|exact Hq|by apply spellable_safe|]. exists s1, (rest p'). by split_and!.
    + rewrite Li in He, H4. rewrite Hentry in He. injection He as <-. by exists st'.
Qed.

(** ** Setting a value *)

Lemma quote_total v : Forall (fun b => b <> 0) v -> exists q, quote v false = Ok q.
Proof.
  intros H. assert (exists q, quote_bytes v false = Ok q) as [q Hq]; [|unfold quote; rewrite Hq; by eexists]. induction H as [|b v Hb _ [q IH]]; [by eexists|]. cbn [quote_bytes]. destruct (Z.eqb_spec b 0); [done|]. rewrite andb_false_r, IH. cbn [negb]. rewrite !andb_true_r.
  destruct (_ || _); [by eexists|]. destruct (b =? 10); [by eexists|]. destruct (b =? 9); [by eexists|]. destruct (b =? 8); by eexists.
Qed.

(** A value on the line of its key: removing it leaves the line. *)
Lemma keep_line x s2 old post : blanks s2 -> let bs := x ++ 61 :: s2 ++ old ++ post in let a := zlen (x ++ 61 :: s2) in whole_blank_line bs (a, a + zlen old) = Ok (a, a + zlen old).
Proof.
  intros B. cbv zeta. set (bs := x ++ 61 :: s2 ++ old ++ post). set (a := zlen (x ++ 61 :: s2)). assert (bs = (x ++ 61 :: s2) ++ old ++ post) as E1 by (unfold bs; by rewrite <- app_assoc). assert (bs = ((x ++ 61 :: s2) ++ old) ++ post ++ []) as E2 by (rewrite app_nil_r, <- app_assoc; exact E1).
  unfold whole_blank_line. cbn [fst snd]. assert (slice 0 a bs = Some (x ++ 61 :: s2)) as -> by (eapply (slice_between _ []); [exact E1|done|done]). assert (slice (a + zlen old) (zlen bs) bs = Some post) as -> by (eapply slice_between; [exact E2|by rewrite zlen_app|rewrite E2, !zlen_app; change (zlen (@nil Z)) with 0; unfold a; rewrite zlen_app; lia]). cbn [ok_or rbind].
  set (start := match rposition line_feed (x ++ 61 :: s2) with Some i => Z.of_nat i + 1 | None => 0 end). set (stop := match position line_feed post with Some i => a + zlen old + Z.of_nat i + 1 | None => zlen bs end).
  assert (0 <= start <= zlen x) as Hstart.
  { unfold start. pose proof (zlen_nonneg x). destruct (rposition line_feed (x ++ 61 :: s2)) as [i|] eqn:Er; [|lia]. assert ((x ++ 61 :: s2) !! i = Some 10) as Hl. { clear -Er. revert i Er. induction (x ++ 61 :: s2) as [|b l IH]; intros i; cbn [rposition]; [done|]. destruct (rposition line_feed l) as [j|]; [intros [= <-]; by apply IH|]. destruct (line_feed b) eqn:Eb; [|done]. intros [= <-]. unfold line_feed in Eb. apply Z.eqb_eq in Eb as ->. done. }
    destruct (decide (i < length x)%nat) as [Hlt|Hge]; [unfold zlen; lia|]. exfalso. rewrite lookup_app_r in Hl by lia. destruct (i - length x)%nat as [|j]; [done|]. cbn in Hl. pose proof (Forall_lookup_1 _ _ _ _ B Hl). done. }
  assert (a + zlen old <= stop <= zlen bs) as Hstop. { unfold stop. assert (zlen bs = a + zlen old + zlen post) as Hz by (rewrite E1, !zlen_app; unfold a; rewrite zlen_app; lia). pose proof (zlen_nonneg post). destruct (position line_feed post) as [i|] eqn:Ep; [|lia]. apply position_Some in Ep as (l & y & r & Eq & Hl & _). rewrite Hz, Eq. unfold zlen. rewrite length_app. cbn [length]. lia. }
  pose proof (zlen_nonneg old). pose proof (zlen_nonneg s2). assert (a = zlen x + 1 + zlen s2) as Ha by (unfold a; rewrite zlen_app, zlen_cons; lia). destruct (slice_is_Some start a bs) as [ahead Hah]; [lia|lia|]. destruct (slice_is_Some (a + zlen old) stop bs) as [behind Hbe]; [lia|lia|]. rewrite Hah, Hbe. cbn [ok_or rbind].
  assert (blank_part ahead = false) as ->; [|done]. apply not_true_iff_false. unfold blank_part. rewrite forallb_forall. intros H61. specialize (H61 61). assert (In 61 ahead) as Hin; [|specialize (H61 Hin); done]. apply list_elem_of_In, list_elem_of_lookup. exists (length x - Z.to_nat start)%nat. apply slice_Some in Hah as (_ & _ & ->). rewrite lookup_take_lt by (unfold zlen in *; lia).
  rewrite lookup_drop. replace (Z.to_nat start + (length x - Z.to_nat start))%nat with (length x) by (unfold zlen in *; lia). unfold bs. rewrite lookup_app_r by lia. by rewrite Nat.sub_diag.
Qed.

Lemma apply_one d a b new d' : (new = [] -> whole_blank_line (d_bytes d) (a, b) = Ok (a, b)) -> 0 <= a <= b -> b <= zlen (d_bytes d) ->
  document (take (Z.to_nat a) (d_bytes d) ++ new ++ drop (Z.to_nat b) (d_bytes d)) = Ok d' -> apply d [((a, b), new)] = Ok d'.
Proof.
  intros Hw Hab Hb Hd. unfold apply. assert (widen (d_bytes d) [((a, b), new)] = Ok [((a, b), new)]) as ->. { cbn [widen]. destruct new; [by rewrite (Hw eq_refl)|done]. }
  cbn [rbind]. change (reverse (merge [] (sort_by edit_cmp [((a, b), new)]))) with [((a, b), new)]. cbn [splice_all]. unfold splice. cbn [fst snd].
  assert ((0 <=? a) && (a <=? b) && (b <=? zlen (d_bytes d)) = true) as ->. { rewrite !andb_true_iff, !Z.leb_le. lia. } exact Hd.
Qed.

Lemma written_app e bom_ pre old post : written e pre old post -> written e (bom_ ++ pre) old post.
Proof.
  intros [H1 H2]. split; [done|]. destruct (e_value e); [destruct H2 as (Hs & x & s1 & s2 & -> & B1 & B2); split; [done|]; exists (bom_ ++ x), s1, s2|destruct H2 as (Ho & x & ->); split; [done|]; exists (bom_ ++ x)]; by rewrite <- app_assoc.
Qed.

(** The bytes of the mark stay a mark, and no others become one. *)
Lemma document_same o pre body body' st st' : (pre = bom /\ strip_prefix bom (pre ++ body) = Some body) \/ (pre = [] /\ strip_prefix bom (pre ++ body) = None) -> zlen pre = o -> run (S (length body)) true o (initial body) = Ok st -> body <> [] -> head body' = head body -> run (S (length body')) true o (initial body') = Ok st' ->
  document (pre ++ body') = Ok {| d_bytes := pre ++ body'; d_config := found st'; d_layout := layout st' |}.
Proof.
  intros Hpre Ho Hrun Hne Hh Hrun'. apply document_Ok. exists pre, body', st'. rewrite Ho. split_and!; [done| |done|done]. destruct Hpre as [[-> _]|[-> _]]; [left; split; [done|apply strip_bom_app]|right]. split; [done|]. cbn [app]. apply initial_head in Hrun; [|done]. rewrite <- Hh in Hrun. destruct body' as [|b r]; [by destruct body|]. apply strip_bom_None. cbn in Hrun. congruence.
Qed.

(** C29: setting the value of an occurrence is exact and local: for every document that was
    parsed, every occurrence and every value without NUL that its spelling preserves (a
    carriage return at the end of a bare value is not), [set_value] succeeds.  The bytes it
    replaces are those of the range the layout gives for the value: they spell the value of
    the entry by the rules of quotes, escapes and continued lines, after its key, an equals
    sign and blanks, and before blanks and the end of the line or a comment (an implicit
    entry has none, right after its key); the bytes before and after them stay, and the new
    bytes are the quoted value, after an equals sign for an implicit entry.  In the document
    that is read back the entry at that occurrence has the new value while its key, every
    other entry, the section headers and their occurrences are the same. *)
Theorem set_value_exact bs d i v : document bs = Ok d -> 0 <= i < zlen (entries (d_config d)) -> Forall (fun b => b <> 0) v -> spellable v ->
  exists d' e span q pre old post, set_value d i v = Ok d' /\
    entries (d_config d) !! Z.to_nat i = Some e /\ l_entries (d_layout d) !! Z.to_nat i = Some span /\ quote v false = Ok q /\
    d_bytes d = pre ++ old ++ post /\ es_value span = (zlen pre, zlen pre + zlen old) /\ written e pre old post /\
    d_bytes d' = pre ++ match e_value e with None => bstr " = " ++ q | Some _ => q end ++ post /\
    map view (entries (d_config d')) = <[Z.to_nat i := with_value e v]> (map view (entries (d_config d))) /\
    sections (d_config d') = sections (d_config d) /\ occurrences (d_config d') = occurrences (d_config d).
Proof.
  intros (pre & body & st & -> & Hpre & Hrun & ->)%document_Ok Hi Hv Hsp. cbn [d_config d_bytes d_layout] in *. destruct (value_bytes (zlen pre) body st (Z.to_nat i) Hrun) as (e & sp & x & old & post & He & Hspan & Hbody & Hval & Hx & Hwr & Hnew); [unfold zlen in Hi; lia|]. destruct (quote_total v Hv) as [q Hq]. destruct (Hnew v q Hq Hsp) as (st' & Hrun' & S1 & S2 & S3).
  set (new := match e_value e with None => _ | Some _ => _ end) in *. pose proof (zlen_nonneg x). pose proof (zlen_nonneg old). pose proof (zlen_nonneg pre). pose proof (zlen_nonneg post).
  exists {| d_bytes := pre ++ x ++ new ++ post; d_config := found st'; d_layout := layout st' |}, e, sp, q, (pre ++ x), old, post.
  split; [|split_and!; [done..|by rewrite Hbody, <- app_assoc|rewrite Hval, zlen_app; f_equal; lia|by apply written_app|cbn [d_bytes]; by rewrite <- app_assoc|exact S3|done|done]]. unfold set_value. cbn [d_config d_layout d_bytes].
  assert (zget i (entries (found st)) = Some e) as -> by (apply zget_Some; split; [lia|done]). cbn [ok_or rbind]. rewrite Hq. cbn [rbind]. assert (zget i (l_entries (layout st)) = Some sp) as -> by (apply zget_Some; split; [lia|done]). cbn [ok_or rbind]. fold new. rewrite Hval.
  apply apply_one; cbn [d_bytes]; [|lia|rewrite Hbody, !zlen_app; lia|].
  - intros Hn. destruct Hwr as [_ Hwr]. destruct (e_value e) as [w|] eqn:Ev; [|done]. destruct Hwr as (_ & x0 & s1 & s2 & Ex & B1 & B2). pose proof (keep_line (pre ++ x0 ++ e_name e ++ s1) s2 old post B2) as Hk. cbv zeta in Hk. replace (zlen x + zlen pre) with (zlen ((pre ++ x0 ++ e_name e ++ s1) ++ 61 :: s2)) by (rewrite Ex, !zlen_app; lia). replace (zlen x + zlen old + zlen pre) with (zlen ((pre ++ x0 ++ e_name e ++ s1) ++ 61 :: s2) + zlen old) by (rewrite Ex, !zlen_app; lia).
    rewrite <- Hk. f_equal. rewrite Hbody, Ex. repeat (rewrite <- app_assoc; cbn [app]). done.
  - replace (take (Z.to_nat (zlen x + zlen pre)) (pre ++ body)) with (pre ++ x). 2: { rewrite Hbody, app_assoc. symmetry. apply take_app_length'. rewrite length_app. unfold zlen. lia. }
    replace (drop (Z.to_nat (zlen x + zlen old + zlen pre)) (pre ++ body)) with post. 2: { rewrite Hbody. replace (pre ++ x ++ old ++ post) with ((pre ++ x ++ old) ++ post) by (by rewrite <- !app_assoc). symmetry. apply drop_app_length'. rewrite !length_app. unfold zlen. lia. }
    rewrite <- app_assoc. eapply document_same; [exact Hpre|done|exact Hrun| | |exact Hrun']; rewrite Hbody; by destruct x.
Qed.
Definition sample : bytes := bstr "[core]" ++ [10] ++ bstr "x = 1 ; one" ++ [10] ++ bstr "quiet" ++ [10].
Lemma set_value_exact_witness : exists d, document sample = Ok d /\
  (exists d' e span q pre old post, set_value d 0 (bstr "a;b ") = Ok d' /\
    entries (d_config d) !! 0%nat = Some e /\ l_entries (d_layout d) !! 0%nat = Some span /\ quote (bstr "a;b ") false = Ok q /\
    d_bytes d = pre ++ old ++ post /\ es_value span = (zlen pre, zlen pre + zlen old) /\ written e pre old post /\
    d_bytes d' = pre ++ match e_value e with None => bstr " = " ++ q | Some _ => q end ++ post /\
    map view (entries (d_config d')) = <[0%nat := with_value e (bstr "a;b ")]> (map view (entries (d_config d))) /\
    sections (d_config d') = sections (d_config d) /\ occurrences (d_config d') = occurrences (d_config d)).
Proof.
  eexists. split; [vm_compute; reflexivity|]. apply (set_value_exact sample _ 0 (bstr "a;b ")).
  - vm_compute. reflexivity.
  - vm_compute. split; [discriminate|reflexivity].
  - vm_compute. repeat constructor; discriminate.
  - left. vm_compute. reflexivity.
Defined.

(** ** What the edits do not promise *)

Definition read_values (r : result ConfigError Document) : list (bytes * bytes * option bytes) :=
  match r with Ok d => map (fun e => (e_section e, e_name e, e_value e)) (entries (d_config d)) | Err _ => [] end.
Definition edited (bs : bytes) (f : Document -> result ConfigError Document) : list (bytes * bytes * option bytes) := read_values (let? d := document bs in f d).

(** A bare value ending in a carriage return loses it. *)
Theorem trailing_return_lost : edited (bstr "[core]" ++ [10] ++ bstr "x = 1" ++ [10]) (fun d => set_value d 0 (bstr "v" ++ [13])) = [(bstr "core", bstr "x", Some (bstr "v"))].
Proof. vm_compute. reflexivity. Qed.

(** Appending after a value that ends in a continuation extends that value. *)
Theorem append_after_continuation : edited (bstr "[core]" ++ [10] ++ bstr "x=yes\" ++ [10]) (fun d => append d (bstr "core") None (bstr "y") (bstr "v")) = [(bstr "core", bstr "x", Some (bstr "yes" ++ [9] ++ bstr "y = v"))].
Proof. vm_compute. reflexivity. Qed.

(** Appending to a section whose line has another header sets the variable of that section. *)
Theorem append_on_shared_line : edited (bstr "[core][other]" ++ [10]) (fun d => append d (bstr "core") None (bstr "y") (bstr "v")) = [(bstr "other", bstr "y", Some (bstr "v"))].
Proof. vm_compute. reflexivity. Qed.

(** An appended variable joins the last matching section, before the sections after it. *)
Theorem append_joins_section : edited (bstr "[core]" ++ [10] ++ bstr "[other]" ++ [10] ++ bstr "x = 1" ++ [10]) (fun d => append d (bstr "core") None (bstr "y") (bstr "v")) = [(bstr "core", bstr "y", Some (bstr "v")); (bstr "other", bstr "x", Some (bstr "1"))].
Proof. vm_compute. reflexivity. Qed.
End ConfigEdit.
